(* ===== verification/_CoqProject ===== *)
-Q . S2P
Prelude.v
BTree.v
Errno.v
Fallible.v
Bytes.v
Ids.v
Address.v
Ranges.v
FrameAlloc.v
PageCache.v
MmExamples.v
VmRegion.v
VmRegionSet.v
VmaExamples.v
PageTable.v
PtExamples.v
MapArea.v
World.v
SpaceTable.v
Backing.v
MemorySet.v
SpaceInv.v
AreaProof.v
NewSpace.v
FileMmap.v
ForkCow.v
ForkSteps.v
ForkProof.v
Fault.v
CowFault.v
SpaceMap.v
SpaceUnmap.v
DemandPage.v
Isolation.v
SpaceExamples.v
VmaOps.v
MmLayout.v
MprotectFork.v
Sched.v
TaskBlock.v
FairGroup.v
RunQueue.v
RunQueueInv.v
HartSelect.v
Preempt.v
Wakeup.v
SchedInv.v
SchedSteps.v
SchedProps.v
WakeRace.v
RecordLocks.v
RecordWait.v
FileLocks.v
Cbpf.v
Ebpf.v
EbpfProof.v
Pipe.v
PipeProof.v
PipeWait.v
PipeWake.v
Files.v
FilesProof.v
FdPipe.v
Ipc.v
Sem.v
SemProof.v
SemInv.v
SemWake.v
Msg.v
MsgProof.v
Futex.v
FutexProof.v
FutexWait.v
