(* ===== verification/Prelude.v ===== *)
(** * A verification development for the HITOSTeam kernel

    The program is a Unix-like kernel in Rust ([src/src/]).  This library
    models, as executable Rocq functions, its memory management (identifiers,
    addresses, physical frames, page caches, virtual memory areas, page
    tables, address spaces with fork, faults and copy-on-write), its scheduler
    (policies, fair and real-time run queues, hart selection, preemption,
    wakeups, idle loop), its file locks, its packet filters (classic and
    extended BPF), its descriptor tables, its pipes and its System V
    semaphores and message queues, and proves what makes each of them correct.  The configuration
    is riscv64 with the release profile: plain integer arithmetic wraps,
    [debug_assert!] is compiled out.

    ** Conventions

    - A [usize] or [u64] is a [Z]; wrapping, saturating and checked operations
      are named in [Prelude].  A [Vec] or [VecDeque] is a list, a [BTreeMap] or
      [BTreeSet] a sorted association list ([BTree]), [r {{ f := v }}] the
      assignment [r.f = v].
    - A panic ([assert!], [unwrap], [panic!]) is [None]; an error number is
      [err e], as the system call returns it ([Errno]); code that may panic or
      fail is in the monad [Res] of [Fallible].
    - Code that runs under a lock for its whole duration is one function on the
      state.  Where several critical sections of one operation can interleave
      with other threads, the operation is a sequence of steps ([WakeRace] at
      the granularity of atomic accesses, [RecordWait] and [PipeWait] at that
      of critical sections).
    - What a component reads from outside (the clock, file sizes, signals
      pending, a lock that is held) is an argument.

    ** Files, and the code they model

    - [Prelude]: machine integers, record update, list and option lemmas.
      [BTree]: [BTreeMap]/[BTreeSet], sorting by a key.  [Errno]:
      [syscall/error.rs].
    - [Ids]: [utils/id_allocator.rs], [task/id.rs]; Modules [Recycle], [Pid],
      [KStack].  Kernel stacks are proved disjoint over the interface [IdPool],
      which the recycling allocator implements.
    - [Address]: [mm/address.rs].  [Ranges]: [mm/memory_set/range.rs].
    - [FrameAlloc]: [mm/frame_allocator.rs]; Module [StackAlloc] is the
      allocator and its boot initialisation, [Tracker] the reference counts and
      the page contents.  [PageCache]: the shared page caches of
      [mm/memory_set/backing.rs] and [frame_alloc] with its reclaim.
      [MmExamples]: a small machine.
    - [VmRegion]: one virtual memory area ([mm/memory_set/vma.rs]), permissions
      and page-table flags.  [VmRegionSet]: the set of areas; Module [VmaSet]
      has the operations, [VmaSpec] the view from addresses to page policies.
      [VmaExamples]: small address spaces.
    - [PageTable]: [arch/riscv64/mm/page_table.rs], entries and tables as bytes
      of frames; [PtExamples]: a table on the small machine.
    - Address spaces, [mm/memory_set.rs] and [mm/memory_set/].  Definitions:
      [MapArea] ([map_area.rs], Module [Area]), [Backing] ([backing.rs]),
      [MemorySet] (state, kernel windows, insertion, unmap, mprotect, move,
      discard), [FileMmap] ([file_mmap.rs]), [ForkCow] (the two forks),
      [Fault] ([fault.rs]), [VmaOps] (user mappings with [rollback.rs]),
      [MmLayout] ([layout.rs]).  Proofs: [World] (who owns which frame),
      [SpaceTable] (page tables in that world), [SpaceInv] (the invariant of
      an address space), [AreaProof], [NewSpace], [ForkSteps], [ForkProof],
      [CowFault], [SpaceMap], [SpaceUnmap], [DemandPage] (one operation
      each), [Isolation] (machines with many address spaces),
      [SpaceExamples] and [MprotectFork] (runs on the small machine).
    - [Sched]: [task/sched.rs] and the bandwidth of [task/manager/rt.rs].
      [TaskBlock]: the scheduling part of [task/task_block.rs].  [FairGroup]:
      the EEVDF groups of [task/manager/fair.rs].  [RunQueue]: the queues of
      [task/manager/run_queue.rs].  [HartSelect], [Preempt]: the choice of a
      hart and of the moment.  [Wakeup]: [task/manager.rs], the idle loop of
      [task/processor.rs], the cgroup freezer.  [RunQueueInv], [SchedInv],
      [SchedSteps], [SchedProps]: the invariants, the step relation and the
      theorems on it.  [WakeRace]: the wakeup protocol access by access.
    - [RecordLocks], [RecordWait]: the record locks of
      [syscall/filesystem/lock_utils.rs] and the lock commands of [fcntl.rs].
      [FileLocks]: Modules [Flock] and [Lease].
    - [Fallible], [Bytes]: results that panic, fail or succeed; byte strings
      and their encodings.  [Cbpf]: the classic filters of
      [syscall/net/cbpf.rs].  [Ebpf]: maps, static check, loading and
      interpreter of [bpf/]; [EbpfProof]: its theorems.
    - [Pipe]: [fs/pipe.rs], Module [Ring], a blocking call as turns under the
      lock of the buffer.  [PipeProof]: the ring as a queue.  [PipeWait]: turns
      in any order.  [PipeWake]: atomic writes, and who sleeps.
    - [Files]: the descriptor tables of [task/files_struct.rs]; [FilesProof]:
      the table as a map.  [FdPipe]: the tables of many processes with the two
      ends of a pipe.
    - System V objects, [syscall/sysv_ipc/]; a blocking call as turns under
      the lock.  [Ipc]: the permissions, waiter queues ([common.rs]),
      identifiers and keys they share.  [Sem]: [sem.rs]; [SemProof]: what
      [semop] and exit do; [SemInv]: the invariant of reachable states;
      [SemWake]: who sleeps.  [Msg]: [msg.rs]; [MsgProof]: which message is
      taken, the order of delivery, who sleeps.
    - [Futex]: [syscall/futex.rs] and the handle of a waiting task of
      [task/task_block.rs].  [FutexProof]: whom wakes and requeues take.
      [FutexWait]: waits, wakes, requeues and exits step by step, in any order.

    ** What the theorems show

    - Memory.  The frame allocator manages exactly the usable pages; a frame
      handed out is zeroed and owned by nobody else, across reference counting,
      the page caches and reclaim.  Writes and truncations of files reach
      exactly the right cached bytes.  Each operation on the set of areas is
      the intended change of the map from addresses to policies.  Page tables
      stay a tree of owned frames, and each operation is the intended change of
      the map from pages to entries; the cached walks do what the plain ones
      do.  Address spaces are private memories: the machine with shared
      frames, copy-on-write, demand paging and reclaim refines one in which
      every address space has a memory of its own and fork copies it; no
      program reaches a page table; fork, both kinds of fault, mapping and
      unmapping change exactly the pages they should and fail only for lack
      of memory.
    - Scheduling.  From boot on, under any sequence of operations on any harts,
      a task is held by at most one hart, queued at most once, never both, and
      never forgotten; [fetch] picks the right task; real-time bandwidth is
      enforced; affinities are respected; wakeups are delivered.  In every
      interleaving of atomic accesses one hart at most uses a kernel stack.
    - Locks.  A granted request changes exactly the bytes asked for; in every
      interleaving no two owners hold conflicting locks and no wakeup is lost;
      deadlock detection terminates and finds exactly the cycles.  [flock] is
      exclusive, leases go to one process at a time.
    - Filters.  What the two static checks accept, the interpreters run to the
      end on every packet without a panic, and the maps keep their shape; the
      kinds of the registers are right as long as no jump is taken.  A
      classic filter read back is the one attached.
    - Pipes.  The ring is a bounded queue of bytes under reads, writes and
      resizings; in any interleaving of critical sections, filters included,
      nothing panics, and without filters bytes come out once and in order;
      short writes are atomic; one reader and one writer never sleep without
      cause.
    - Descriptors.  A table is a map from descriptors to files that gives out
      the lowest free descriptor, and tells files of their descriptors; so the
      ends of a pipe are closed exactly when no process has them open.
    - Semaphores.  [semop] does all of its operations or none, and exactly when
      they are possible; exit applies what is to be undone; values and
      adjustments stay in range and keys consistent; whoever sleeps cannot
      run, if it tests for zero before it alters.
    - Messages.  [msgrcv] takes the message its type asks for; messages of one
      type come out once and in the order they were sent; whoever sleeps has
      no room, or no message that it accepts.
    - Futexes.  A wake takes the oldest waiters that match, a requeue wakes and
      moves them in order, an error changes nothing; in any interleaving of
      the sections under the locks and the accesses to a waiter's flag,
      whoever sleeps is queued or about to be woken, and a wait that was
      counted as woken returns 0, but for a deadline that passed before the
      first sleep.
    - Where the code does not do what it means to, a theorem exhibits it: the
      lost wakeup of [WakeRace], the freezer, two shapes of area merging, the
      undetected lock deadlock, fork of pages that are read-only or
      inaccessible at that moment ([MprotectFork]), the jumps the extended
      check ignores, the second reader and the resized writer of a pipe,
      the semaphore tested for zero after it was altered, the wake that a futex
      wait loses to its deadline.

    ** Bounds and fuel

    Loops that are not structural take fuel computed from the state, and the
    theorems show that it suffices: the run-queue loops the number of queued
    entities, the deadlock search the number of waits and locks, page walks the
    three levels, the BPF interpreters the length of the program (jumps lead
    forward), the copy of a write from user memory twice its buffers, a free
    identifier the number of sets and one.  The size assumptions of the
    theorems are [is_usize] ranges, the number of live frames ([has_room]: the
    reference counts cannot wrap), and that a call of [semop] has at most
    65535 operations, so that its sums are 32-bit integers.

    ** Not modelled

    - The loongarch64 port, boot code, traps and drivers: another configuration
      of the same kernel, control registers, assembly and devices.
    - The ext4 file system, the network stack and the allocator of the kernel
      heap are third-party packages; the sources only call them.
    - procfs, cgroupfs, mounts, ttys and most system-call entry points are glue
      that formats or parses text and copies structures to user memory.
    - Of the address space: building one from an ELF file, the kernel's own
      space ([new_kernel]), TLB and instruction-cache flushes, and the
      invariant checks that only debug builds run.  [MmRef] takes the lock
      and calls the operations.  The theorems on mapping and faults are about
      private anonymous memory; file mappings are modelled and executable,
      and proved about only through their page caches.
    - Of extended BPF: the copies of the attributes of the system call, the
      verifier log and the descriptors.  Of pipes: the counts of references to
      the ends, pending signals, the time and which waiting tasks still exist
      are arguments.
    - Of semaphores and messages: the text of [/proc/sysvipc] and the layout of
      the structures in user memory; what a call reads through a pointer is an
      argument, what it writes a result.
    - Of futexes: the lists of robust mutexes, the reading of user memory and
      the clocks, which are arguments.  [FutexWait] takes it that a wakeup sent
      to a task before it sleeps ends its next sleep: [SchedProps] shows this
      of the scheduler's operations as a whole, [WakeRace] the one race between
      their atomic accesses that breaks it.
    - Processes, signals, timers and the other IPC objects are within reach of
      the same techniques and not modelled. *)

From stdpp Require Export prelude gmap.
From Stdlib Require Export ZArith Lia ZifyBool Sorted.
Open Scope Z_scope.

(** ** Records with mutable fields

    [r {{ f := v; g := w }}] is the record [r] after the assignments, in order;
    the values are those of [r] before them.  A record type declares its eta
    expansion as an instance of [Fields], from which the setter of any field is
    computed. *)

Class Fields (R : Type) := fields : R -> R.
Class FieldSetter {R E : Type} (p : R -> E) := field_setter : E -> R -> R.

Ltac solve_setter :=
  lazymatch goal with
  | |- @FieldSetter ?R ?E ?p =>
      let inst := constr:(_ : Fields R) in
      let e := eval hnf in inst in
      exact (fun (v : E) (r : R) =>
        ltac:(let b := eval cbv beta in (e r) in
              match b with context C [p r] => let b' := context C [v] in exact b' end))
  end.
#[export] Hint Extern 1 (FieldSetter _) => solve_setter : typeclass_instances.

Definition assign {R E : Type} (p : R -> E) {s : FieldSetter p} (v : E) : R -> R := s v.

Declare Custom Entry field_assign.
Notation "p := v" := (assign p v)
  (in custom field_assign at level 1, p constr at level 1, v constr at level 99).
Notation "r {{ u }}" := (u r) (at level 1, left associativity, u custom field_assign at level 1).
Notation "r {{ u ; .. ; v ; w }}" := (w (v .. (u r) ..))
  (at level 1, left associativity, u custom field_assign at level 1,
   v custom field_assign at level 1, w custom field_assign at level 1).

(** ** Machine integers

    The kernel is built with the release profile (Makefile, [MODE ?= release])
    for 64-bit targets: plain arithmetic wraps, [debug_assert!] is compiled
    out.  An unsigned integer is a [Z]; the operations below are the ones the
    source names. *)

Abbreviation USIZE_MAX := 18446744073709551615.
Abbreviation U64_MAX := 18446744073709551615.
Abbreviation USIZE_MOD := 18446744073709551616.
Abbreviation U128_MAX := 340282366920938463463374607431768211455.

Definition is_usize (x : Z) : Prop := 0 <= x <= USIZE_MAX.
Definition is_u128 (x : Z) : Prop := 0 <= x <= U128_MAX.

(** [usize::saturating_add], [saturating_sub], [saturating_mul]. *)
Definition sat_add (a b : Z) : Z := Z.min USIZE_MAX (a + b).
Definition sat_sub (a b : Z) : Z := Z.max 0 (a - b).
Definition sat_mul (a b : Z) : Z := Z.min USIZE_MAX (a * b).

(** The same operations on [u128]. *)
Definition sat_add128 (a b : Z) : Z := Z.min U128_MAX (a + b).
Definition sat_mul128 (a b : Z) : Z := Z.min U128_MAX (a * b).

(** [+], [-], [*] and [<<] on [usize] in a release build. *)
Definition wadd (a b : Z) : Z := (a + b) mod USIZE_MOD.
Definition wsub (a b : Z) : Z := (a - b) mod USIZE_MOD.
Definition wmul (a b : Z) : Z := (a * b) mod USIZE_MOD.
Definition wshl (a n : Z) : Z := (Z.shiftl a n) mod USIZE_MOD.

(** [usize::checked_add] and [checked_sub]. *)
Definition checked_add (a b : Z) : option Z :=
  if a + b <=? USIZE_MAX then Some (a + b) else None.
Definition checked_sub (a b : Z) : option Z :=
  if b <=? a then Some (a - b) else None.

(** [!a] on [usize]. *)
Definition bnot (a : Z) : Z := USIZE_MAX - a.

(** [Ord::clamp]. *)
Definition clamp (x lo hi : Z) : Z := if x <? lo then lo else if hi <? x then hi else x.

(** [option.unwrap_or]. *)
Definition unwrap_or {A} (o : option A) (d : A) : A :=
  match o with Some x => x | None => d end.

(** [Vec::push], [Vec::pop] (from the back) and [Vec::swap_remove]. *)
Definition vec_push {A} (v : list A) (x : A) : list A := v ++ [x].
Definition vec_pop {A} (v : list A) : option (A * list A) :=
  match last v with Some x => Some (x, removelast v) | None => None end.
Definition vec_swap_remove {A} (v : list A) (i : nat) : list A :=
  match last v with
  | None => v
  | Some x =>
      if Nat.eqb i (length v - 1) then removelast v else <[i := x]> (removelast v)
  end.

(** [iter().position(p)] *)
Fixpoint position {A} (p : A -> bool) (l : list A) : option nat :=
  match l with
  | [] => None
  | x :: l' => if p x then Some O else S <$> position p l'
  end.

(** [loop { .. }] with an early exit, run at most [p] times.  The bound is binary,
    so that loops over pages can be run with bounds they never reach. *)
Fixpoint pos_loop {S R} (p : positive) (step : S -> S + R) (s : S) : S + R :=
  match p with
  | xH => step s
  | xO p => match pos_loop p step s with inl s => pos_loop p step s | inr r => inr r end
  | xI p =>
      match step s with
      | inl s => match pos_loop p step s with inl s => pos_loop p step s | inr r => inr r end
      | inr r => inr r
      end
  end.

(** [sort_unstable_by_key]: one of the orders it may produce.  The components
    that sort show their result does not depend on the order of equal keys. *)
Fixpoint insert_by {A} (key : A -> Z) (x : A) (l : list A) : list A :=
  match l with
  | [] => [x]
  | y :: l' => if key x <=? key y then x :: l else y :: insert_by key x l'
  end.
Fixpoint sort_by_key {A} (key : A -> Z) (l : list A) : list A :=
  match l with
  | [] => []
  | x :: l' => insert_by key x (sort_by_key key l')
  end.

(** ** Tactics *)

Ltac unfold_int :=
  unfold is_usize, is_u128, sat_add, sat_sub, sat_mul, sat_add128, sat_mul128,
    checked_add, checked_sub, clamp, bnot in *.

(** [lia] after unfolding the saturating and checked operations, splitting
    every conditional on a comparison. *)
Ltac case_if :=
  match goal with
  | |- context [if ?b then _ else _] => destruct b eqn:?
  | H : context [if ?b then _ else _] |- _ => destruct b eqn:?
  end.

Ltac ulia := unfold_int; repeat case_if; lia.


Create HintDb kernel.
Create Rewrite HintDb kernel.

(** ** Shared lemmas *)

Lemma wadd_small a b : 0 <= a + b <= USIZE_MAX -> wadd a b = a + b.
Proof. intros. apply Z.mod_small. lia. Qed.

Lemma wsub_small a b : 0 <= a - b <= USIZE_MAX -> wsub a b = a - b.
Proof. intros. apply Z.mod_small. lia. Qed.

Lemma wmul_small a b : 0 <= a * b <= USIZE_MAX -> wmul a b = a * b.
Proof. intros. apply Z.mod_small. lia. Qed.

Lemma wadd_range a b : is_usize (wadd a b).
Proof.
  unfold is_usize, wadd. pose proof (Z.mod_pos_bound (a + b) USIZE_MOD). lia.
Qed.

Lemma sat_add_small a b : a + b <= USIZE_MAX -> sat_add a b = a + b.
Proof. ulia. Qed.

Lemma sat_sub_small a b : b <= a -> sat_sub a b = a - b.
Proof. ulia. Qed.

#[export] Hint Rewrite wadd_small wsub_small wmul_small sat_add_small sat_sub_small
  using lia : kernel.
#[export] Hint Resolve wadd_range : kernel.

(** *** Vectors *)

Lemma vec_pop_Some {A} (v : list A) x v' : vec_pop v = Some (x, v') <-> v = v' ++ [x].
Proof.
  unfold vec_pop. induction v as [|y v IH] using rev_ind.
  - simpl. split; [done|]. by destruct v'.
  - rewrite last_snoc, removelast_last. split.
    + by intros [= -> ->].
    + by intros [-> ->]%app_inj_tail.
Qed.

Lemma vec_pop_None {A} (v : list A) : vec_pop v = None <-> v = [].
Proof.
  unfold vec_pop. destruct (last v) eqn:E.
  - split; [done|]. by intros ->.
  - apply last_None in E. done.
Qed.

Lemma position_Some {A} (p : A -> bool) l i :
  position p l = Some i -> exists x, l !! i = Some x /\ p x = true.
Proof.
  revert i. induction l as [|x l IH]; intros i; simpl; [done|].
  destruct (p x) eqn:E.
  - intros [= <-]. by exists x.
  - destruct (position p l) as [j|]; simpl; [|done]. intros [= <-]. by apply IH.
Qed.

Lemma position_None {A} (p : A -> bool) l :
  position p l = None -> forall x, x ∈ l -> p x = false.
Proof.
  induction l as [|y l IH]; simpl.
  - intros _ x Hx. by apply elem_of_nil in Hx.
  - destruct (p y) eqn:E; [done|]. destruct (position p l); simpl; [done|].
    intros _ x [->|?]%elem_of_cons; auto.
Qed.

(** [swap_remove(i)] removes exactly the element at [i]. *)
Lemma vec_swap_remove_perm {A} (v : list A) i x :
  v !! i = Some x -> v ≡ₚ x :: vec_swap_remove v i.
Proof.
  unfold vec_swap_remove. induction v as [|y v IH] using rev_ind; [done|]. clear IH.
  rewrite last_snoc, removelast_last, length_app. simpl. intros Hi.
  destruct (Nat.eqb_spec i (length v + 1 - 1)) as [->|Hne].
  - rewrite lookup_app_r in Hi by lia.
    replace (length v + 1 - 1 - length v)%nat with 0%nat in Hi by lia.
    injection Hi as ->. by rewrite Permutation_app_comm.
  - pose proof (lookup_lt_Some _ _ _ Hi) as Hlt. rewrite length_app in Hlt. simpl in Hlt.
    rewrite lookup_app_l in Hi by lia.
    rewrite <- (take_drop_middle _ _ _ Hi) at 1.
    rewrite insert_take_drop by lia. rewrite <- app_assoc. simpl.
    rewrite <- Permutation_middle. apply perm_skip, Permutation_app_head.
    by rewrite Permutation_app_comm.
Qed.

(** *** Sorting *)

Lemma insert_by_perm {A} (key : A -> Z) x l : insert_by key x l ≡ₚ x :: l.
Proof.
  induction l as [|y l IH]; simpl; [done|]. case_if; [done|].
  rewrite IH. apply Permutation_swap.
Qed.

Lemma sort_by_key_perm {A} (key : A -> Z) l : sort_by_key key l ≡ₚ l.
Proof. induction l as [|x l IH]; simpl; [done|]. by rewrite insert_by_perm, IH. Qed.

Definition sorted_by {A} (key : A -> Z) : list A -> Prop :=
  StronglySorted (fun a b => key a <= key b).

Lemma insert_by_sorted {A} (key : A -> Z) x l :
  sorted_by key l -> sorted_by key (insert_by key x l).
Proof.
  unfold sorted_by. induction l as [|y l IH]; simpl; intros Hs; [repeat constructor|].
  inversion Hs as [|?? Hs' Hall]; subst. destruct (key x <=? key y) eqn:E.
  - constructor; [done|]. constructor; [lia|]. eapply Forall_impl; [done|]. simpl. lia.
  - constructor; [auto|]. rewrite insert_by_perm. constructor; [lia|done].
Qed.

Lemma sort_by_key_sorted {A} (key : A -> Z) l : sorted_by key (sort_by_key key l).
Proof. induction l; simpl; [constructor|]. by apply insert_by_sorted. Qed.

Lemma sorted_suffix {A} (R : A -> A -> Prop) l1 l2 : StronglySorted R (l1 ++ l2) -> StronglySorted R l2.
Proof. induction l1 as [|x l1 IH]; simpl; [done|]. intros [Hs _]%StronglySorted_inv. auto. Qed.

Lemma elem_of_concat {A} (x : A) ls : x ∈ concat ls <-> exists l, x ∈ l /\ l ∈ ls.
Proof.
  induction ls as [|l ls IH]; simpl; [set_solver|]. rewrite elem_of_app, IH. set_solver.
Qed.

(** Sorting what is sorted changes nothing. *)
Lemma sort_by_key_id {A} (key : A -> Z) l : sorted_by key l -> sort_by_key key l = l.
Proof.
  induction l as [|x l IH]; simpl; [done|]. intros [Hs Hall]%StronglySorted_inv. rewrite IH by done.
  destruct l as [|y l]; simpl; [done|]. apply Forall_cons in Hall as [Hxy _].
  by destruct (key x <=? key y) eqn:E; [|lia].
Qed.

Lemma sorted_snoc {A} (R : A -> A -> Prop) l x :
  StronglySorted R l -> (forall y, y ∈ l -> R y x) -> StronglySorted R (l ++ [x]).
Proof.
  induction l as [|y l IH]; simpl; intros Hs Hx; [by repeat constructor|].
  apply StronglySorted_inv in Hs as [Hs Hall]. constructor; [apply IH; set_solver|].
  apply Forall_app. split; [done|]. apply Forall_singleton, Hx. left.
Qed.

Lemma sorted_app {A} (R : A -> A -> Prop) l1 l2 :
  StronglySorted R l1 -> StronglySorted R l2 -> (forall x y, x ∈ l1 -> y ∈ l2 -> R x y) -> StronglySorted R (l1 ++ l2).
Proof.
  intros H1 H2. induction H1 as [|x l1 H1 IH Hall]; intros Hx; simpl; [done|]. constructor.
  - apply IH. intros y z Hy Hz. apply Hx; [by right|done].
  - apply Forall_app. split; [done|]. apply Forall_forall. intros y Hy. apply Hx; [left|done].
Qed.

Lemma sorted_prefix {A} (R : A -> A -> Prop) l1 l2 : StronglySorted R (l1 ++ l2) -> StronglySorted R l1.
Proof.
  induction l1 as [|x l1 IH]; simpl; [constructor|]. intros [Hs Hall]%StronglySorted_inv.
  apply Forall_app in Hall as [Hall _]. constructor; auto.
Qed.

Lemma sorted_remove {A} (R : A -> A -> Prop) l1 x l2 : StronglySorted R (l1 ++ x :: l2) -> StronglySorted R (l1 ++ l2).
Proof.
  induction l1 as [|y l1 IH]; simpl; intros [Hs Hall]%StronglySorted_inv; [done|]. constructor; [auto|].
  apply Forall_app in Hall as [H1 [_ H2]%Forall_cons]. by apply Forall_app.
Qed.
