(* ===== verification/BTree.v ===== *)
(** * Ordered collections

    [alloc::collections::{BTreeMap, BTreeSet}] as the kernel uses them: an
    association list kept strictly sorted by key.  Iteration order is key
    order, [range(..k).next_back()] and [range(a..b)] are defined on the sorted
    list.  A [BTreeSet] is the list of its keys.  The laws proved here are the
    interface the components use. *)

From S2P Require Import Prelude.

(** ** Keys: a strict total order computed by a boolean *)

Class OrdKey (K : Type) := {
  key_ltb : K -> K -> bool;
  key_ltb_irrefl : forall k, key_ltb k k = false;
  key_ltb_trans : forall a b c,
    key_ltb a b = true -> key_ltb b c = true -> key_ltb a c = true;
  key_ltb_total : forall a b, key_ltb a b = false -> key_ltb b a = false -> a = b
}.

#[export] Instance OrdKey_Z : OrdKey Z.
Proof.
  refine {| key_ltb := Z.ltb |}; intros; lia.
Defined.

(** Tuples are compared lexicographically, as [#[derive(Ord)]] on tuples. *)
#[export] Instance OrdKey_prod {A B} `{OrdKey A, OrdKey B} : OrdKey (A * B).
Proof.
  refine {| key_ltb := fun x y =>
    key_ltb x.1 y.1 || (negb (key_ltb y.1 x.1) && key_ltb x.2 y.2) |}.
  - intros [a b]; simpl. by rewrite !key_ltb_irrefl.
  - intros [a1 b1] [a2 b2] [a3 b3]; simpl.
    destruct (key_ltb a1 a2) eqn:E12, (key_ltb a2 a1) eqn:E21,
      (key_ltb a2 a3) eqn:E23, (key_ltb a3 a2) eqn:E32; simpl; try done;
      intros; try (by rewrite (key_ltb_trans _ _ _ E12 E23)).
    + pose proof (key_ltb_total _ _ E23 E32); subst. by rewrite E12.
    + pose proof (key_ltb_total _ _ E23 E32); subst. by rewrite E12.
    + pose proof (key_ltb_total _ _ E12 E21); subst. by rewrite E23.
    + pose proof (key_ltb_total _ _ E12 E21); subst. by rewrite E23.
    + pose proof (key_ltb_total _ _ E12 E21); pose proof (key_ltb_total _ _ E23 E32); subst.
      rewrite !key_ltb_irrefl. simpl. by apply key_ltb_trans with b2.
  - intros [a1 b1] [a2 b2]; simpl.
    destruct (key_ltb a1 a2) eqn:E12, (key_ltb a2 a1) eqn:E21; simpl; try done.
    intros Hb1 Hb2. f_equal; by apply key_ltb_total.
Defined.

Section Order.
Context {K : Type} `{OrdKey K}.

Definition key_lt (a b : K) : Prop := key_ltb a b = true.

Definition key_eqb (a b : K) : bool := negb (key_ltb a b) && negb (key_ltb b a).

Lemma key_eqb_eq a b : key_eqb a b = true <-> a = b.
Proof.
  unfold key_eqb. split.
  - destruct (key_ltb a b) eqn:E1, (key_ltb b a) eqn:E2; simpl; try done.
    intros _. by apply key_ltb_total.
  - intros ->. by rewrite !key_ltb_irrefl.
Qed.

Lemma key_eqb_refl a : key_eqb a a = true.
Proof. by apply key_eqb_eq. Qed.

Lemma key_eqb_neq a b : key_eqb a b = false <-> a <> b.
Proof. rewrite <- not_true_iff_false. by rewrite key_eqb_eq. Qed.

Lemma key_lt_asym a b : key_lt a b -> key_ltb b a = false.
Proof.
  unfold key_lt. intros H1. destruct (key_ltb b a) eqn:H2; [|done].
  pose proof (key_ltb_trans _ _ _ H1 H2). by rewrite key_ltb_irrefl in *.
Qed.

Lemma key_lt_neq a b : key_lt a b -> a <> b.
Proof. unfold key_lt. intros Hl ->. by rewrite key_ltb_irrefl in Hl. Qed.

#[export] Instance key_lt_trans : Transitive key_lt.
Proof. intros ???. apply key_ltb_trans. Qed.

End Order.

(** ** Maps *)

Section Map.
Context {K V : Type} `{OrdKey K}.

Abbreviation bmap := (list (K * V)).

(** [BTreeMap::get] *)
Fixpoint bt_get (m : bmap) (k : K) : option V :=
  match m with
  | [] => None
  | (k', v) :: m' => if key_eqb k k' then Some v else bt_get m' k
  end.

(** [BTreeMap::insert], the map part of its result. *)
Fixpoint bt_insert (m : bmap) (k : K) (v : V) : bmap :=
  match m with
  | [] => [(k, v)]
  | (k', v') :: m' =>
      if key_ltb k k' then (k, v) :: m
      else if key_ltb k' k then (k', v') :: bt_insert m' k v
      else (k, v) :: m'
  end.

(** [BTreeMap::remove], the map part of its result. *)
Fixpoint bt_remove (m : bmap) (k : K) : bmap :=
  match m with
  | [] => []
  | (k', v') :: m' => if key_eqb k k' then m' else (k', v') :: bt_remove m' k
  end.

(** [range(..k).next_back()] and [range(..=k).next_back()]: the last entry whose
    key is below (or at) [k]. *)
Definition bt_last_lt (m : bmap) (k : K) : option (K * V) :=
  last (List.filter (fun e => key_ltb e.1 k) m).
Definition bt_last_le (m : bmap) (k : K) : option (K * V) :=
  last (List.filter (fun e => negb (key_ltb k e.1)) m).

(** [range(lo..hi)] in key order. *)
Definition bt_range (m : bmap) (lo hi : K) : bmap :=
  List.filter (fun e => negb (key_ltb e.1 lo) && key_ltb e.1 hi) m.

(** [values()] *)
Definition bt_values (m : bmap) : list V := map snd m.

(** The representation invariant. *)
Definition bt_wf (m : bmap) : Prop := StronglySorted key_lt (map fst m).

Lemma bt_wf_nil : bt_wf [].
Proof. constructor. Qed.

Lemma bt_wf_cons k v m :
  bt_wf ((k, v) :: m) <-> bt_wf m /\ (forall k' v', (k', v') ∈ m -> key_lt k k').
Proof.
  unfold bt_wf; simpl. split.
  - intros Hs. inversion Hs as [|?? Hs' Hall]; subst. split; [done|].
    intros k' v' Hin. rewrite Forall_forall in Hall. apply Hall.
    apply list_elem_of_fmap. by exists (k', v').
  - intros [Hs Hall]. constructor; [done|]. apply Forall_forall.
    intros k' [[k1 v1] [-> Hin]]%list_elem_of_fmap. simpl. eauto.
Qed.

Lemma bt_get_in m k v : bt_get m k = Some v -> (k, v) ∈ m.
Proof.
  induction m as [|[k' v'] m IH]; simpl; [done|]. destruct (key_eqb k k') eqn:E.
  - apply key_eqb_eq in E as ->. intros [= ->]. left.
  - intros. right. auto.
Qed.

Lemma bt_get_elem m k v : bt_wf m -> bt_get m k = Some v <-> (k, v) ∈ m.
Proof.
  induction m as [|[k' v'] m IH]; simpl; intros Hwf.
  - split; [done|]. by intros ?%elem_of_nil.
  - apply bt_wf_cons in Hwf as [Hwf Hlt]. rewrite elem_of_cons.
    destruct (key_eqb k k') eqn:E.
    + apply key_eqb_eq in E; subst. split; [intros; left; congruence|].
      intros [?|Hin]; [congruence|]. apply Hlt in Hin. by apply key_lt_neq in Hin.
    + rewrite IH by done. apply key_eqb_neq in E. split; [tauto|].
      intros [?|?]; [congruence|done].
Qed.

Lemma bt_get_None m k : bt_get m k = None <-> forall v, (k, v) ∉ m.
Proof.
  induction m as [|[k' v'] m IH]; simpl.
  - split; [|done]. intros _ v ?%elem_of_nil. done.
  - destruct (key_eqb k k') eqn:E.
    + apply key_eqb_eq in E; subst. split; [done|]. intros Hn.
      exfalso. apply (Hn v'). left.
    + apply key_eqb_neq in E. rewrite IH. split.
      * intros Hn v [?|?]%elem_of_cons; [congruence|]. by eapply Hn.
      * intros Hn v ?. apply (Hn v). by right.
Qed.

Lemma bt_insert_elem m k v k' v' :
  (k', v') ∈ bt_insert m k v -> (k' = k /\ v' = v) \/ ((k', v') ∈ m).
Proof.
  induction m as [|[k0 v0] m IH]; simpl.
  - intros ?%list_elem_of_singleton. left. split; congruence.
  - repeat case_if; rewrite ?elem_of_cons; naive_solver.
Qed.

Lemma bt_wf_insert m k v : bt_wf m -> bt_wf (bt_insert m k v).
Proof.
  induction m as [|[k0 v0] m IH]; simpl; intros Hwf.
  - apply bt_wf_cons. split; [apply bt_wf_nil|]. by intros ?? ?%elem_of_nil.
  - destruct (key_ltb k k0) eqn:E1.
    + apply bt_wf_cons. split; [done|]. apply bt_wf_cons in Hwf as [Hwf Hlt].
      intros k' v' [Heq|Hin]%elem_of_cons.
      * inv Heq. done.
      * etrans; [exact E1|eauto].
    + apply bt_wf_cons in Hwf as [Hwf Hlt]. destruct (key_ltb k0 k) eqn:E2.
      * apply bt_wf_cons. split; [auto|]. intros k' v' [[-> ->]|?]%bt_insert_elem; eauto.
      * pose proof (key_ltb_total _ _ E1 E2); subst. by apply bt_wf_cons.
Qed.

Lemma bt_get_insert m k v k' :
  bt_get (bt_insert m k v) k' = if key_eqb k' k then Some v else bt_get m k'.
Proof.
  induction m as [|[k0 v0] m IH]; simpl; [done|].
  destruct (key_ltb k k0) eqn:E1; [done|].
  destruct (key_ltb k0 k) eqn:E2; simpl.
  - rewrite IH. destruct (key_eqb k' k0) eqn:E3; [|done].
    apply key_eqb_eq in E3; subst. destruct (key_eqb k0 k) eqn:E4; [|done].
    apply key_eqb_eq in E4; subst. by rewrite key_ltb_irrefl in E2.
  - pose proof (key_ltb_total _ _ E1 E2); subst. by destruct (key_eqb k' k0).
Qed.

Lemma bt_insert_elem_iff m k v k' v' :
  bt_wf m ->
  (k', v') ∈ bt_insert m k v <-> (k' = k /\ v' = v) \/ (k' <> k /\ (k', v') ∈ m).
Proof.
  intros Hwf. rewrite <- !bt_get_elem by auto using bt_wf_insert.
  rewrite bt_get_insert. destruct (key_eqb k' k) eqn:E.
  - apply key_eqb_eq in E. naive_solver.
  - apply key_eqb_neq in E. naive_solver.
Qed.

Lemma bt_remove_sub m k e : e ∈ bt_remove m k -> e ∈ m.
Proof.
  induction m as [|[k0 v0] m IH]; simpl; [done|].
  case_if; rewrite ?elem_of_cons; naive_solver.
Qed.

Lemma bt_wf_remove m k : bt_wf m -> bt_wf (bt_remove m k).
Proof.
  induction m as [|[k0 v0] m IH]; simpl; intros Hwf; [done|].
  apply bt_wf_cons in Hwf as [Hwf Hlt]. case_if; [done|].
  apply bt_wf_cons. split; [auto|]. eauto using bt_remove_sub.
Qed.

Lemma bt_get_remove m k k' :
  bt_wf m -> bt_get (bt_remove m k) k' = if key_eqb k' k then None else bt_get m k'.
Proof.
  induction m as [|[k0 v0] m IH]; simpl; intros Hwf; [by case_if|].
  apply bt_wf_cons in Hwf as [Hwf Hlt]. destruct (key_eqb k k0) eqn:E.
  - apply key_eqb_eq in E; subst. destruct (key_eqb k' k0) eqn:E2; [|done].
    apply key_eqb_eq in E2; subst. apply bt_get_None. intros v Hin.
    apply Hlt in Hin. by apply key_lt_neq in Hin.
  - simpl. rewrite IH by done. destruct (key_eqb k' k0) eqn:E2; [|done].
    apply key_eqb_eq in E2; subst. destruct (key_eqb k0 k) eqn:E3; [|done].
    apply key_eqb_eq in E3; subst. by rewrite key_eqb_refl in E.
Qed.

Lemma bt_remove_elem_iff m k k' v' :
  bt_wf m -> (k', v') ∈ bt_remove m k <-> k' <> k /\ (k', v') ∈ m.
Proof.
  intros Hwf. rewrite <- !bt_get_elem by auto using bt_wf_remove.
  rewrite bt_get_remove by done. destruct (key_eqb k' k) eqn:E.
  - apply key_eqb_eq in E. naive_solver.
  - apply key_eqb_neq in E. naive_solver.
Qed.

Lemma bt_remove_absent m k : bt_get m k = None -> bt_remove m k = m.
Proof.
  induction m as [|[k0 v0] m IH]; simpl; [done|].
  destruct (key_eqb k k0); [done|]. intros. by rewrite IH.
Qed.

(** Two well-formed maps with the same bindings are the same list. *)
Lemma bt_ext m1 m2 :
  bt_wf m1 -> bt_wf m2 -> (forall k, bt_get m1 k = bt_get m2 k) -> m1 = m2.
Proof.
  revert m2. induction m1 as [|[k1 v1] m1 IH]; intros [|[k2 v2] m2] W1 W2 Hg.
  - done.
  - specialize (Hg k2). simpl in Hg. by rewrite key_eqb_refl in Hg.
  - specialize (Hg k1). simpl in Hg. by rewrite key_eqb_refl in Hg.
  - pose proof W1 as W1'. pose proof W2 as W2'.
    apply bt_wf_cons in W1 as [W1 L1]. apply bt_wf_cons in W2 as [W2 L2].
    assert ((k1, v1) ∈ (k2, v2) :: m2) as Hin1.
    { apply bt_get_elem; [done|]. rewrite <- Hg. apply bt_get_elem; [done|left]. }
    assert ((k2, v2) ∈ (k1, v1) :: m1) as Hin2.
    { apply bt_get_elem; [done|]. rewrite Hg. apply bt_get_elem; [done|left]. }
    assert ((k1, v1) = (k2, v2)) as Heq.
    { apply elem_of_cons in Hin1 as [?|Hin1]; [done|].
      apply elem_of_cons in Hin2 as [?|Hin2]; [done|].
      apply L2 in Hin1. apply L1 in Hin2. apply key_lt_asym in Hin1. unfold key_lt in *.
      congruence. }
    inv Heq. f_equal. apply IH; [done..|]. intros k. specialize (Hg k). simpl in Hg.
    destruct (key_eqb k k2) eqn:E; [|done]. apply key_eqb_eq in E; subst.
    transitivity (@None V); [|symmetry]; apply bt_get_None; intros v Hin;
      [apply L1 in Hin|apply L2 in Hin]; by apply key_lt_neq in Hin.
Qed.

(** *** Range queries *)

Lemma bt_filter_elem (P : K * V -> bool) (m : bmap) e :
  e ∈ List.filter P m <-> e ∈ m /\ P e = true.
Proof. rewrite !list_elem_of_In. by rewrite filter_In. Qed.

Lemma bt_wf_filter (P : K * V -> bool) (m : bmap) : bt_wf m -> bt_wf (List.filter P m).
Proof.
  induction m as [|[k v] m IH]; simpl; intros Hwf; [done|].
  apply bt_wf_cons in Hwf as [Hwf Hlt]. destruct (P (k, v)); [|auto].
  apply bt_wf_cons. split; [auto|]. intros k' v' Hin%bt_filter_elem. naive_solver.
Qed.

Lemma bt_last_max (m : bmap) k v :
  bt_wf m -> last m = Some (k, v) ->
  (k, v) ∈ m /\ forall k' v', (k', v') ∈ m -> k' = k \/ key_lt k' k.
Proof.
  induction m as [|[k0 v0] m IH]; simpl; intros Hwf Hl; [done|].
  apply bt_wf_cons in Hwf as [Hwf Hlt]. destruct m as [|e m].
  - inv Hl. split; [left|]. intros k' v' ?%list_elem_of_singleton. left. congruence.
  - destruct (IH Hwf Hl) as [Hin Hmax]. split; [by right|].
    intros k' v' [Heq|?]%elem_of_cons; [|eauto]. inv Heq. right. eauto.
Qed.

Lemma bt_last_filter_Some (P : K * V -> bool) (m : bmap) k v :
  bt_wf m -> last (List.filter P m) = Some (k, v) ->
  (k, v) ∈ m /\ P (k, v) = true /\
  forall k' v', (k', v') ∈ m -> P (k', v') = true -> k' = k \/ key_lt k' k.
Proof.
  intros Hwf Hl. apply bt_last_max in Hl as [Hin Hmax]; [|by apply bt_wf_filter].
  apply bt_filter_elem in Hin as [? ?]. split_and!; [done..|].
  intros. eapply Hmax, bt_filter_elem; eauto.
Qed.

Lemma bt_last_filter_None (P : K * V -> bool) (m : bmap) :
  last (List.filter P m) = None -> forall e, e ∈ m -> P e = false.
Proof.
  intros Hl%last_None e Hin. destruct (P e) eqn:E; [|done].
  assert (e ∈ List.filter P m) as Hf by by apply bt_filter_elem.
  rewrite Hl in Hf. by apply elem_of_nil in Hf.
Qed.

Lemma bt_last_lt_Some (m : bmap) k k' v :
  bt_wf m -> bt_last_lt m k = Some (k', v) ->
  (k', v) ∈ m /\ key_lt k' k /\
  forall k2 v2, (k2, v2) ∈ m -> key_lt k2 k -> k2 = k' \/ key_lt k2 k'.
Proof. intros Hwf Hl. by apply bt_last_filter_Some in Hl. Qed.

Lemma bt_last_lt_None (m : bmap) k :
  bt_last_lt m k = None -> forall k' v, (k', v) ∈ m -> key_ltb k' k = false.
Proof. intros Hl k' v Hin. by apply (bt_last_filter_None _ _ Hl (k', v)). Qed.

Lemma bt_last_le_Some (m : bmap) k k' v :
  bt_wf m -> bt_last_le m k = Some (k', v) ->
  (k', v) ∈ m /\ key_ltb k k' = false /\
  forall k2 v2, (k2, v2) ∈ m -> key_ltb k k2 = false -> k2 = k' \/ key_lt k2 k'.
Proof.
  intros Hwf Hl. apply bt_last_filter_Some in Hl as (? & Hk & Hmax); [|done].
  simpl in *. split_and!; [done|by apply negb_true_iff in Hk|].
  intros k2 v2 ? E. eapply Hmax; [done|]. simpl. by rewrite E.
Qed.

Lemma bt_last_le_None (m : bmap) k :
  bt_last_le m k = None -> forall k' v, (k', v) ∈ m -> key_lt k k'.
Proof.
  intros Hl k' v Hin. apply (bt_last_filter_None _ _ Hl (k', v)) in Hin.
  by apply negb_false_iff in Hin.
Qed.

Lemma bt_range_elem (m : bmap) lo hi k v :
  (k, v) ∈ bt_range m lo hi <-> (k, v) ∈ m /\ key_ltb k lo = false /\ key_lt k hi.
Proof.
  unfold bt_range. rewrite bt_filter_elem. simpl. rewrite andb_true_iff, negb_true_iff.
  done.
Qed.

Lemma bt_wf_range (m : bmap) lo hi : bt_wf m -> bt_wf (bt_range m lo hi).
Proof. apply bt_wf_filter. Qed.

Lemma bt_wf_unique (m : bmap) k v v' : bt_wf m -> (k, v) ∈ m -> (k, v') ∈ m -> v = v'.
Proof.
  intros Hwf H1 H2. apply bt_get_elem in H1, H2; [congruence|done..].
Qed.

(** *** Insertion and removal as permutations, for sums over a map *)

Lemma bt_get_above (m : bmap) k k0 :
  (forall k' v', (k', v') ∈ m -> key_lt k0 k') -> key_ltb k0 k = false -> bt_get m k = None.
Proof.
  intros Hlt Hk. apply bt_get_None. intros v Hin. apply Hlt in Hin.
  unfold key_lt in *. congruence.
Qed.

Lemma bt_remove_perm (m : bmap) k v : bt_get m k = Some v -> m ≡ₚ (k, v) :: bt_remove m k.
Proof.
  induction m as [|[k0 v0] m IH]; simpl; [done|]. destruct (key_eqb k k0) eqn:E.
  - apply key_eqb_eq in E; subst. intros [= ->]. done.
  - intros Hg. rewrite (IH Hg) at 1. apply Permutation_swap.
Qed.

Lemma bt_insert_perm (m : bmap) k v : bt_wf m -> bt_insert m k v ≡ₚ (k, v) :: bt_remove m k.
Proof.
  induction m as [|[k0 v0] m IH]; simpl; intros Hwf; [done|].
  apply bt_wf_cons in Hwf as [Hwf Hlt]. destruct (key_ltb k k0) eqn:E1.
  - assert (key_eqb k k0 = false) as -> by (apply key_eqb_neq, key_lt_neq; done).
    rewrite bt_remove_absent; [done|]. apply (bt_get_above _ _ k0); [done|].
    by apply key_lt_asym.
  - destruct (key_ltb k0 k) eqn:E2.
    + assert (key_eqb k k0 = false) as ->.
      { apply key_eqb_neq. intros ->. by rewrite key_ltb_irrefl in E2. }
      rewrite IH by done. apply Permutation_swap.
    + pose proof (key_ltb_total _ _ E1 E2); subst. by rewrite key_eqb_refl.
Qed.

Lemma bt_length_insert (m : bmap) k v :
  bt_wf m -> bt_get m k = None -> length (bt_insert m k v) = S (length m).
Proof.
  intros Hwf Hg. rewrite (bt_insert_perm _ _ _ Hwf). simpl. by rewrite bt_remove_absent.
Qed.

(** Replacing a value keeps the keys. *)
Lemma bt_insert_keys (m : bmap) k v w : bt_wf m -> bt_get m k = Some v -> map fst (bt_insert m k w) = map fst m.
Proof.
  induction m as [|[k' v'] m IH]; simpl; [done|]. intros [Hwf Hlt]%bt_wf_cons. destruct (key_eqb k k') eqn:Ek.
  - apply key_eqb_eq in Ek as ->. by rewrite key_ltb_irrefl.
  - intros Hg. assert (key_lt k' k) as Hk by (eapply Hlt, bt_get_in, Hg). rewrite (key_lt_asym _ _ Hk), Hk. simpl. f_equal. auto.
Qed.

Lemma bt_insert_all (P : K * V -> Prop) (m : bmap) k v : Forall P m -> P (k, v) -> Forall P (bt_insert m k v).
Proof. rewrite !Forall_forall. intros He Hkv [k' v'] [[-> ->]|Hin]%bt_insert_elem; auto. Qed.

Lemma bt_length_remove (m : bmap) k v :
  bt_get m k = Some v -> length m = S (length (bt_remove m k)).
Proof. intros Hg. by rewrite (bt_remove_perm _ _ _ Hg) at 1. Qed.

End Map.

#[export] Hint Resolve bt_wf_nil bt_wf_insert bt_wf_remove bt_wf_range bt_wf_filter : kernel.

(** ** Sorting and minima by an ordered key *)

Section Sorting.
Context {A K : Type} `{OrdKey K}.
Variable key : A -> K.

(** [sort_by] with a comparison by [key]; it is stable. *)
Fixpoint insert_ord (x : A) (l : list A) : list A :=
  match l with
  | [] => [x]
  | y :: l' => if key_ltb (key y) (key x) then y :: insert_ord x l' else x :: l
  end.
Definition sort_by_ord (l : list A) : list A := foldr insert_ord [] l.

(** [Iterator::min_by]: the first of the least elements. *)
Fixpoint min_by (l : list A) : option A :=
  match l with
  | [] => None
  | x :: l' =>
      match min_by l' with
      | None => Some x
      | Some y => if key_ltb (key y) (key x) then Some y else Some x
      end
  end.

Definition key_le (x y : A) : Prop := key_ltb (key y) (key x) = false.

Lemma key_le_trans x y z : key_le x y -> key_le y z -> key_le x z.
Proof.
  unfold key_le. intros Hxy Hyz. destruct (key_ltb (key z) (key x)) eqn:Hzx; [|done].
  destruct (key_ltb (key x) (key y)) eqn:E.
  - by rewrite (key_ltb_trans _ _ _ Hzx E) in Hyz.
  - pose proof (key_ltb_total _ _ E Hxy) as Heq. rewrite Heq in Hzx. congruence.
Qed.

Lemma insert_ord_perm x l : insert_ord x l ≡ₚ x :: l.
Proof.
  induction l as [|y l IH]; simpl; [done|]. case_if; [|done].
  rewrite IH. apply Permutation_swap.
Qed.

Lemma sort_by_ord_perm l : sort_by_ord l ≡ₚ l.
Proof. induction l as [|x l IH]; simpl; [done|]. by rewrite insert_ord_perm, IH. Qed.

Lemma insert_ord_sorted x l : StronglySorted key_le l -> StronglySorted key_le (insert_ord x l).
Proof.
  induction l as [|y l IH]; simpl; intros Hs; [repeat constructor|].
  apply StronglySorted_inv in Hs as [Hs Hall]. destruct (key_ltb (key y) (key x)) eqn:E.
  - constructor; [auto|]. rewrite insert_ord_perm. constructor; [|done].
    unfold key_le. by apply key_lt_asym.
  - constructor; [by constructor|]. constructor; [done|].
    eapply Forall_impl; [done|]. intros z Hz. by apply key_le_trans with y.
Qed.

Lemma sort_by_ord_sorted l : StronglySorted key_le (sort_by_ord l).
Proof. induction l; simpl; [constructor|]. by apply insert_ord_sorted. Qed.

Lemma min_by_spec l :
  match min_by l with
  | Some x => x ∈ l /\ Forall (key_le x) l
  | None => l = []
  end.
Proof.
  induction l as [|x l IH]; simpl; [done|]. destruct (min_by l) as [y|]; [|subst l].
  - destruct IH as [Hy Hall]. destruct (key_ltb (key y) (key x)) eqn:E; split.
    + by right.
    + constructor; [|done]. unfold key_le. by apply key_lt_asym.
    + by left.
    + constructor; [apply key_ltb_irrefl|]. eapply Forall_impl; [done|].
      intros z Hz. by apply key_le_trans with y.
  - split; [by left|]. repeat constructor. apply key_ltb_irrefl.
Qed.

End Sorting.

(** ** Sets *)

Section Set_.
Context {K : Type} `{OrdKey K}.

(** A [BTreeSet<K>] is a [BTreeMap<K, ()>]. *)
Abbreviation bset := (list (K * unit)).

(** [BTreeSet::insert], [remove], [contains], [iter().next()] and [iter()]. *)
Definition bs_insert (s : bset) (k : K) : bset := bt_insert s k tt.
Definition bs_remove (s : bset) (k : K) : bset := bt_remove s k.
Definition bs_contains (s : bset) (k : K) : bool := bool_decide (is_Some (bt_get s k)).
Definition bs_first (s : bset) : option K := fst <$> head s.
Definition bs_iter (s : bset) : list K := map fst s.

Lemma bs_elem (s : bset) k : bt_wf s -> k ∈ bs_iter s <-> bt_get s k = Some tt.
Proof.
  intros Hwf. rewrite bt_get_elem by done. unfold bs_iter. rewrite list_elem_of_fmap. split.
  - intros [[k' []] [-> Hin]]. done.
  - intros Hin. by exists (k, tt).
Qed.

Lemma bs_contains_elem (s : bset) k : bt_wf s -> bs_contains s k = true <-> k ∈ bs_iter s.
Proof.
  intros Hwf. unfold bs_contains. rewrite bool_decide_eq_true, bs_elem by done.
  split; [intros [[] ?]|]; eauto.
Qed.

Lemma bs_insert_elem (s : bset) k k' :
  bt_wf s -> k' ∈ bs_iter (bs_insert s k) <-> k' = k \/ k' ∈ bs_iter s.
Proof.
  intros Hwf. rewrite !bs_elem by eauto with kernel. unfold bs_insert.
  rewrite bt_get_insert. destruct (key_eqb k' k) eqn:E.
  - apply key_eqb_eq in E. naive_solver.
  - apply key_eqb_neq in E. naive_solver.
Qed.

Lemma bs_remove_elem (s : bset) k k' :
  bt_wf s -> k' ∈ bs_iter (bs_remove s k) <-> k' <> k /\ k' ∈ bs_iter s.
Proof.
  intros Hwf. rewrite !bs_elem by eauto with kernel. unfold bs_remove.
  rewrite bt_get_remove by done. destruct (key_eqb k' k) eqn:E.
  - apply key_eqb_eq in E. naive_solver.
  - apply key_eqb_neq in E. naive_solver.
Qed.

Lemma bs_ext (s1 s2 : bset) :
  bt_wf s1 -> bt_wf s2 -> (forall k, k ∈ bs_iter s1 <-> k ∈ bs_iter s2) -> s1 = s2.
Proof.
  intros W1 W2 He. apply bt_ext; [done..|]. intros k. specialize (He k).
  rewrite !bs_elem in He by done.
  destruct (bt_get s1 k) as [[]|], (bt_get s2 k) as [[]|]; naive_solver.
Qed.

(** The first element is the least one. *)
Lemma bs_first_min (s : bset) k :
  bt_wf s -> bs_first s = Some k ->
  k ∈ bs_iter s /\ forall k', k' ∈ bs_iter s -> k' = k \/ key_lt k k'.
Proof.
  intros Hwf Hf. destruct s as [|[k0 []] s]; [done|]. injection Hf as [= ->]. split; [left|].
  apply bt_wf_cons in Hwf as [_ Hlt]. unfold bs_iter. simpl.
  intros k' [->|[[k2 u] [-> Hin]]%list_elem_of_fmap]%elem_of_cons; [by left|].
  right. by eapply Hlt.
Qed.

End Set_.

#[export] Hint Unfold bs_insert bs_remove : kernel.
