(* ===== verification/Errno.v ===== *)
(** * Error numbers

    [SyscallError] and its conversion to the value a system call returns
    ([syscall/error.rs]), and the signed integers of the system calls. *)

From S2P Require Import Prelude.

Inductive SyscallError :=
| EPERM | ENOENT | ESRCH | EINTR | EIO | ENXIO | E2BIG | ENOEXEC | EBADF | ECHILD
| ENOMEM | EACCES | EFAULT | ENOTBLK | EBUSY | EEXIST | EXDEV | ENODEV | ENOTDIR | EISDIR
| EINVAL | ENFILE | EMFILE | ENOTTY | ETXTBSY | EFBIG | ENOSPC | ESPIPE | EROFS | EMLINK
| EPIPE | EDOM | ERANGE | EDEADLK | ENAMETOOLONG | ENOLCK | ENOSYS | ENOTEMPTY | ELOOP
| EAGAIN | ENOMSG | EIDRM | ENODATA | ENOPKG | EOVERFLOW | EBADFD | ENOTSOCK
| EDESTADDRREQ | EMSGSIZE | ENOPROTOOPT | EPROTONOSUPPORT | EOPNOTSUPP | EPFNOSUPPORT
| EAFNOSUPPORT | EADDRINUSE | EADDRNOTAVAIL | ENETDOWN | ENETUNREACH | ENOBUFS | EISCONN
| ENOTCONN | ETIMEDOUT | ECONNREFUSED | EALREADY | ECANCELED | EKEYREJECTED.

Definition errno (e : SyscallError) : Z :=
  match e with
  | EPERM => 1 | ENOENT => 2 | ESRCH => 3 | EINTR => 4 | EIO => 5 | ENXIO => 6 | E2BIG => 7
  | ENOEXEC => 8 | EBADF => 9 | ECHILD => 10 | ENOMEM => 12 | EACCES => 13 | EFAULT => 14
  | ENOTBLK => 15 | EBUSY => 16 | EEXIST => 17 | EXDEV => 18 | ENODEV => 19 | ENOTDIR => 20
  | EISDIR => 21 | EINVAL => 22 | ENFILE => 23 | EMFILE => 24 | ENOTTY => 25
  | ETXTBSY => 26 | EFBIG => 27 | ENOSPC => 28 | ESPIPE => 29 | EROFS => 30 | EMLINK => 31
  | EPIPE => 32 | EDOM => 33 | ERANGE => 34 | EDEADLK => 35 | ENAMETOOLONG => 36
  | ENOLCK => 37 | ENOSYS => 38 | ENOTEMPTY => 39 | ELOOP => 40 | EAGAIN => 11
  | ENOMSG => 42 | EIDRM => 43 | ENODATA => 61 | ENOPKG => 65 | EOVERFLOW => 75
  | EBADFD => 77 | ENOTSOCK => 88 | EDESTADDRREQ => 89 | EMSGSIZE => 90 | ENOPROTOOPT => 92
  | EPROTONOSUPPORT => 93 | EOPNOTSUPP => 95 | EPFNOSUPPORT => 96 | EAFNOSUPPORT => 97
  | EADDRINUSE => 98 | EADDRNOTAVAIL => 99 | ENETDOWN => 100 | ENETUNREACH => 101
  | ENOBUFS => 105 | EISCONN => 106 | ENOTCONN => 107 | ETIMEDOUT => 110
  | ECONNREFUSED => 111 | EALREADY => 114 | ECANCELED => 125 | EKEYREJECTED => 129
  end.

#[export] Instance SyscallError_eq_dec : EqDecision SyscallError.
Proof. solve_decision. Defined.

(** The negative value the system-call interface returns. *)
Definition err (e : SyscallError) : Z := - errno e.

(** ** Signed integers *)

Abbreviation I64_MAX := 9223372036854775807.
Abbreviation I64_MIN := (-9223372036854775808).
Abbreviation I32_MAX := 2147483647.
Abbreviation I32_MIN := (-2147483648).
Abbreviation I128_MAX := 170141183460469231731687303715884105727.

(** [i64::checked_add] and [checked_sub] of the exact result, and
    [saturating_add] and [saturating_sub]. *)
Definition i64_checked (x : Z) : option Z :=
  if (I64_MIN <=? x) && (x <=? I64_MAX) then Some x else None.
Definition i64_saturate (x : Z) : Z := Z.max I64_MIN (Z.min I64_MAX x).

(** Every error is a value no successful call returns, and different errors
    are different values. *)
Lemma err_negative e : -4095 <= err e < 0.
Proof. destruct e; vm_compute; by split. Qed.

Lemma err_inj e1 e2 : err e1 = err e2 -> e1 = e2.
Proof. destruct e1, e2; intros H; done || (vm_compute in H; discriminate H). Qed.
