(* ===== verification/Fallible.v ===== *)
(** * Fallible code

    The result of code that returns [Result<A, SyscallError>] and may panic,
    with the notation for the [?] operator. *)

From S2P Require Import Prelude.
From S2P Require Import Errno.

Declare Scope fallible_scope.
Delimit Scope fallible_scope with fallible.

(** [None] is a panic. *)
Definition Res (A : Type) : Type := option (SyscallError + A).

Definition Ok {A} (a : A) : Res A := Some (inr a).
Definition Err {A} (e : SyscallError) : Res A := Some (inl e).
Definition res_bind {A B} (r : Res A) (f : A -> Res B) : Res B :=
  match r with
  | Some (inr a) => f a
  | Some (inl e) => Err e
  | None => None
  end.

(** [let x = e?;] *)
Notation "'let?' x := e 'in' k" := (res_bind e (fun x => k))
  (at level 200, x binder, e at level 100, k at level 200) : fallible_scope.
Notation "'let?' ' x := e 'in' k" := (res_bind e (fun x => k))
  (at level 200, x strict pattern, e at level 100, k at level 200) : fallible_scope.
Open Scope fallible_scope.

(** [Option::ok_or]; and an operation that cannot fail but may panic. *)
Definition ok_or {A} (o : option A) (e : SyscallError) : Res A :=
  match o with Some a => Ok a | None => Err e end.
Definition or_panic {A} (o : option A) : Res A :=
  match o with Some a => Ok a | None => None end.

(** The computation returns: it does not panic. *)
Definition returns {A} (r : Res A) (P : SyscallError + A -> Prop) : Prop :=
  match r with Some v => P v | None => False end.

Lemma returns_impl {A} (r : Res A) (P Q : SyscallError + A -> Prop) :
  returns r P -> (forall v, P v -> Q v) -> returns r Q.
Proof. destruct r; simpl; auto. Qed.

Lemma returns_bind {A B} (r : Res A) (f : A -> Res B) (P : SyscallError + A -> Prop) (Q : SyscallError + B -> Prop) :
  returns r P -> (forall e, P (inl e) -> Q (inl e)) -> (forall a, P (inr a) -> returns (f a) Q) ->
  returns (res_bind r f) Q.
Proof. destruct r as [[e|a]|]; simpl; auto. Qed.

Lemma returns_ok {A} (a : A) (P : SyscallError + A -> Prop) : P (inr a) -> returns (Ok a) P.
Proof. done. Qed.

Lemma returns_err {A} e (P : SyscallError + A -> Prop) : P (inl e) -> returns (Err e) P.
Proof. done. Qed.

#[export] Hint Resolve returns_ok returns_err : kernel.
