(* ===== verification/Bytes.v ===== *)
(** * Bytes

    Encodings of integers as bytes ([to_le_bytes], [from_be_bytes] and their
    kin), slices of byte vectors, and byte strings as keys. *)

From S2P Require Import Prelude.
From S2P Require Import BTree.

Definition is_byte (b : Z) : Prop := 0 <= b < 256.

(** [to_le_bytes] of an integer of [n] bytes, [from_le_bytes], [from_be_bytes]. *)
Fixpoint le_encode (n : nat) (x : Z) : list Z :=
  match n with
  | O => []
  | S n => x mod 256 :: le_encode n (x / 256)
  end.
Fixpoint le_decode (l : list Z) : Z :=
  match l with
  | [] => 0
  | b :: l => b + 256 * le_decode l
  end.
Definition be_decode (l : list Z) : Z := le_decode (rev l).

(** [&v[start..start + len]] within [v], and [v[start..].copy_from_slice(data)];
    both panic outside. *)
Definition slice (v : list Z) (start len : Z) : option (list Z) :=
  if (0 <=? start) && (0 <=? len) && (start + len <=? Z.of_nat (length v))
  then Some (take (Z.to_nat len) (drop (Z.to_nat start) v)) else None.
Definition overwrite (v : list Z) (start : Z) (data : list Z) : option (list Z) :=
  if (0 <=? start) && (start + Z.of_nat (length data) <=? Z.of_nat (length v))
  then Some (take (Z.to_nat start) v ++ data ++ drop (Z.to_nat start + length data) v) else None.

(** [chunks_exact(n)] *)
Fixpoint chunks_exact (fuel n : nat) (l : list Z) : list (list Z) :=
  match fuel with
  | O => []
  | S fuel => if bool_decide (n <= length l)%nat then take n l :: chunks_exact fuel n (drop n l) else []
  end.

(** ** Lemmas *)

Lemma length_le_encode n x : length (le_encode n x) = n.
Proof. revert x. induction n; intros; simpl; auto. Qed.

Lemma le_encode_bytes n x : Forall is_byte (le_encode n x).
Proof.
  revert x. induction n as [|n IH]; intros x; simpl; constructor; auto.
  by apply Z.mod_pos_bound.
Qed.

Lemma le_decode_range l : Forall is_byte l -> 0 <= le_decode l < 256 ^ Z.of_nat (length l).
Proof.
  induction l as [|b l IH]; intros Hl; simpl le_decode; [simpl; lia|].
  apply Forall_cons in Hl as [Hb Hl]. specialize (IH Hl). unfold is_byte in Hb. simpl length.
  rewrite Nat2Z.inj_succ, Z.pow_succ_r by lia. lia.
Qed.

Lemma le_decode_encode n x : 0 <= x < 256 ^ Z.of_nat n -> le_decode (le_encode n x) = x.
Proof.
  revert x. induction n as [|n IH]; intros x Hx; simpl; [simpl in Hx; lia|].
  rewrite Nat2Z.inj_succ, Z.pow_succ_r in Hx by lia. rewrite IH; [pose proof (Z.div_mod x 256); lia|].
  split; [apply Z.div_pos; lia|]. apply Z.div_lt_upper_bound; lia.
Qed.

Lemma le_encode_decode l : Forall is_byte l -> le_encode (length l) (le_decode l) = l.
Proof.
  induction l as [|b l IH]; intros Hl; simpl; [done|]. apply Forall_cons in Hl as [Hb Hl].
  unfold is_byte in Hb. rewrite Z.mul_comm. f_equal; [rewrite Z.mod_add by done; by apply Z.mod_small|].
  rewrite Z.div_add, Z.div_small by lia. by apply IH.
Qed.

(** Deciding that a list holds bytes. *)
Lemma bytes_check l : forallb (fun b => (0 <=? b) && (b <? 256)) l = true -> Forall is_byte l.
Proof. induction l as [|b l IH]; simpl; [constructor|]. intros [Hb Hl]%andb_true_iff. constructor; [unfold is_byte; lia|auto]. Qed.

Lemma slice_Some v start len bs :
  slice v start len = Some bs <->
  0 <= start /\ 0 <= len /\ start + len <= Z.of_nat (length v) /\ bs = take (Z.to_nat len) (drop (Z.to_nat start) v).
Proof.
  unfold slice. case_if; split; try done; [intros [= <-]; split_and!; done || lia|by intros (_ & _ & _ & ->)|lia].
Qed.

Lemma slice_length v start len bs : slice v start len = Some bs -> length bs = Z.to_nat len.
Proof. intros (? & ? & ? & ->)%slice_Some. rewrite length_take, length_drop. lia. Qed.

Lemma slice_in_range v start len : 0 <= start -> 0 <= len -> start + len <= Z.of_nat (length v) -> is_Some (slice v start len).
Proof. intros. unfold slice. case_if; [by eexists|lia]. Qed.

Lemma overwrite_Some v start data v' :
  overwrite v start data = Some v' <->
  0 <= start /\ start + Z.of_nat (length data) <= Z.of_nat (length v) /\
  v' = take (Z.to_nat start) v ++ data ++ drop (Z.to_nat start + length data) v.
Proof.
  unfold overwrite. case_if; split; try done; [intros [= <-]; split_and!; done || lia|by intros (_ & _ & ->)|lia].
Qed.

Lemma overwrite_length v start data v' : overwrite v start data = Some v' -> length v' = length v.
Proof. intros (? & ? & ->)%overwrite_Some. rewrite !length_app, length_take, length_drop. lia. Qed.

Lemma overwrite_in_range v start data :
  0 <= start -> start + Z.of_nat (length data) <= Z.of_nat (length v) -> is_Some (overwrite v start data).
Proof. intros. unfold overwrite. case_if; [by eexists|lia]. Qed.

Lemma overwrite_lookup v start data v' (i : nat) : overwrite v start data = Some v' ->
  v' !! i = if (start <=? Z.of_nat i) && (Z.of_nat i <? start + Z.of_nat (length data)) then data !! (i - Z.to_nat start)%nat else v !! i.
Proof.
  intros (? & ? & ->)%overwrite_Some. case_if.
  - rewrite lookup_app_r by (rewrite length_take; lia). rewrite length_take, lookup_app_l by lia. f_equal. lia.
  - destruct (decide (i < Z.to_nat start)%nat).
    + rewrite lookup_app_l by (rewrite length_take; lia). by apply lookup_take_lt.
    + rewrite lookup_app_r by (rewrite length_take; lia). rewrite length_take, lookup_app_r by lia.
      rewrite lookup_drop. f_equal. lia.
Qed.

(** Cutting into chunks what was joined from chunks. *)
Lemma chunks_exact_concat n (ls : list (list Z)) fuel : (0 < n)%nat -> Forall (fun l => length l = n) ls ->
  (length ls < fuel)%nat -> chunks_exact fuel n (concat ls) = ls.
Proof.
  intros Hn. revert fuel. induction ls as [|l ls IH]; intros fuel Hls Hf; (destruct fuel as [|fuel]; [simpl in Hf; lia|]); simpl.
  - by rewrite bool_decide_false by lia.
  - apply Forall_cons in Hls as [Hl Hls]. simpl in Hf. rewrite bool_decide_true by (rewrite length_app; lia).
    rewrite take_app_length', drop_app_length' by done. f_equal. apply IH; [done|lia].
Qed.

(** ** Byte strings as keys, in lexicographic order *)

Fixpoint bytes_ltb (a b : list Z) : bool :=
  match a, b with
  | _, [] => false
  | [], _ :: _ => true
  | x :: a, y :: b => (x <? y) || ((x =? y) && bytes_ltb a b)
  end.

#[export] Instance OrdKey_bytes : OrdKey (list Z).
Proof.
  refine {| key_ltb := bytes_ltb |}.
  - induction k as [|x k IH]; simpl; [done|]. rewrite Z.ltb_irrefl, Z.eqb_refl. done.
  - induction a as [|x a IH]; intros [|y b] [|z c]; simpl; try done.
    intros H1 H2. specialize (IH b c).
    apply orb_true_iff in H1 as [H1|[H1 H1']%andb_true_iff]; apply orb_true_iff in H2 as [H2|[H2 H2']%andb_true_iff]; [lia..|].
    rewrite (IH H1' H2'). lia.
  - induction a as [|x a IH]; intros [|y b]; simpl; try done. intros H1 H2. specialize (IH b).
    apply orb_false_iff in H1 as [H1 H1']. apply orb_false_iff in H2 as [H2 H2']. assert (x = y) as -> by lia.
    rewrite Z.eqb_refl in H1', H2'. simpl in *. f_equal. by apply IH.
Defined.
