(* ===== verification/Ids.v ===== *)
(** * Identifier allocators

    [utils/id_allocator.rs] ([RecycleAllocator], used for kernel stacks, thread
    ids and trap-context slots) and the PID allocator and kernel-stack layout of
    [task/id.rs].  A failed [assert!] is the [None] result. *)

From S2P Require Import Prelude BTree.

(** ** What a client may rely on: a pool of identifiers *)

Class IdPool (P : Type) := {
  pool_inv : P -> Prop;
  pool_live : P -> Z -> Prop;
  pool_room : P -> Prop;
  pool_empty : P;
  pool_alloc : P -> Z * P;
  pool_dealloc : P -> Z -> option P;
  pool_empty_inv : pool_inv pool_empty;
  pool_empty_live : forall i, ~ pool_live pool_empty i;
  pool_alloc_ok : forall p i p',
    pool_inv p -> pool_room p -> pool_alloc p = (i, p') ->
    pool_inv p' /\ ~ pool_live p i /\ (forall j, pool_live p' j <-> pool_live p j \/ j = i);
  pool_dealloc_ok : forall p i,
    pool_inv p -> pool_live p i ->
    exists p', pool_dealloc p i = Some p' /\ pool_inv p' /\
      (forall j, pool_live p' j <-> pool_live p j /\ j <> i)
}.

(** ** RecycleAllocator *)

Module Recycle.

Record RecycleAllocator := mkRecycle {
  current : Z;
  recycled : list Z
}.

#[export] Instance fields_RecycleAllocator : Fields RecycleAllocator :=
  fun a => mkRecycle (current a) (recycled a).

Definition new : RecycleAllocator := {| current := 0; recycled := [] |}.

Definition alloc (a : RecycleAllocator) : Z * RecycleAllocator :=
  match vec_pop (recycled a) with
  | Some (id, rest) => (id, a {{ recycled := rest }})
  | None =>
      let a := a {{ current := wadd (current a) 1 }} in
      (wsub (current a) 1, a)
  end.

Definition dealloc (a : RecycleAllocator) (id : Z) : option RecycleAllocator :=
  if negb (id <? current a) then None
  else if existsb (fun i => i =? id) (recycled a) then None
  else Some (a {{ recycled := vec_push (recycled a) id }}).

Definition reserve (a : RecycleAllocator) (id : Z) : RecycleAllocator :=
  if current a <=? id then a {{ current := wadd id 1 }}
  else
    match position (fun r => r =? id) (recycled a) with
    | Some pos => a {{ recycled := vec_swap_remove (recycled a) pos }}
    | None => a
    end.

(** Identifiers handed out: below [current] and not waiting for reuse. *)
Definition live (a : RecycleAllocator) (i : Z) : Prop := 0 <= i < current a /\ i ∉ recycled a.

(** The counter has not reached the end of its range. *)
Definition room (a : RecycleAllocator) : Prop := current a < USIZE_MAX.

Definition inv (a : RecycleAllocator) : Prop :=
  0 <= current a /\ NoDup (recycled a) /\ (forall i, i ∈ recycled a -> 0 <= i < current a).

Lemma existsb_eqb_elem (l : list Z) id : existsb (fun i => i =? id) l = true <-> id ∈ l.
Proof.
  rewrite existsb_exists. split.
  - intros (x & Hin & ->%Z.eqb_eq). by apply list_elem_of_In.
  - intros Hin. exists id. split; [by apply list_elem_of_In|]. apply Z.eqb_refl.
Qed.

Lemma existsb_eqb_not_elem (l : list Z) id : existsb (fun i => i =? id) l = false <-> id ∉ l.
Proof. rewrite <- not_true_iff_false. by rewrite existsb_eqb_elem. Qed.

Lemma new_inv : inv new.
Proof. split_and!; simpl; [lia|constructor|]. by intros i ?%elem_of_nil. Qed.

Lemma new_live i : ~ live new i.
Proof. intros [? _]. simpl in *. lia. Qed.

Lemma alloc_ok a i a' :
  inv a -> room a -> alloc a = (i, a') ->
  inv a' /\ ~ live a i /\ (forall j, live a' j <-> live a j \/ j = i).
Proof.
  intros (Hc & Hnd & Hr) Hroom. unfold room in Hroom. unfold alloc. destruct (vec_pop (recycled a)) as [[id rest]|] eqn:Hp.
  - apply vec_pop_Some in Hp. intros [= <- <-]. rewrite Hp in Hnd, Hr.
    apply NoDup_app in Hnd as (Hnd & Hdis & _).
    split; [|split]; unfold inv, live; simpl.
    + split_and!; [done|done|]. intros i Hi. apply Hr. apply elem_of_app. by left.
    + intros [_ Hn]. apply Hn. rewrite Hp. apply elem_of_app. right. by left.
    + intros j. rewrite Hp, not_elem_of_app. destruct (decide (j = id)) as [->|Hne].
      * split; [by right|]. intros _. split; [apply Hr; apply elem_of_app; right; by left|].
        intros Hin. apply (Hdis id Hin). by left.
      * rewrite list_elem_of_singleton. naive_solver.
  - intros [= <- <-]. apply vec_pop_None in Hp.
    split; [|split]; unfold inv, live; simpl; rewrite ?Hp, ?wadd_small by lia; rewrite ?wsub_small by lia.
    + split_and!; [lia|constructor|]. by intros i ?%elem_of_nil.
    + intros [? _]. lia.
    + intros j. split; [intros [? ?]|intros [[? ?]|?]].
      * destruct (decide (j = current a)); [by right; lia|left; split; [lia|done]].
      * split; [lia|done].
      * split; [lia|apply not_elem_of_nil].
Qed.

Lemma dealloc_ok a i :
  inv a -> live a i ->
  exists a', dealloc a i = Some a' /\ inv a' /\ (forall j, live a' j <-> live a j /\ j <> i).
Proof.
  intros (Hc & Hnd & Hr) [Hi Hn]. unfold dealloc.
  assert ((i <? current a) = true) as -> by lia. simpl.
  rewrite (proj2 (existsb_eqb_not_elem _ _) Hn). eexists. split; [done|]. split.
  - unfold inv, vec_push; simpl. split_and!; [done| |].
    + apply NoDup_app. split_and!; [done| |apply NoDup_singleton].
      intros x Hx ->%list_elem_of_singleton. done.
    + intros x [?| ->%list_elem_of_singleton]%elem_of_app; auto.
  - intros j. unfold live, vec_push; simpl. rewrite not_elem_of_app, list_elem_of_singleton.
    naive_solver.
Qed.

Lemma dealloc_panics a i : inv a -> 0 <= i -> dealloc a i = None <-> ~ live a i.
Proof.
  intros (Hc & Hnd & Hr) H0. unfold dealloc, live.
  destruct (i <? current a) eqn:E; simpl.
  - destruct (existsb _ _) eqn:Ex.
    + apply existsb_eqb_elem in Ex. naive_solver.
    + apply existsb_eqb_not_elem in Ex. split; [done|]. intros Hn. exfalso.
      apply Hn. split; [lia|done].
  - split; [|done]. intros _ [? _]. lia.
Qed.

Lemma reserve_ok a i :
  inv a -> 0 <= i < USIZE_MAX ->
  inv (reserve a i) /\
  (forall j, live (reserve a i) j <-> live a j \/ j = i \/ current a <= j < i).
Proof.
  intros (Hc & Hnd & Hr) H0. unfold reserve. destruct (current a <=? i) eqn:E.
  - unfold inv, live; simpl. rewrite wadd_small by lia. split.
    + split_and!; [lia|done|]. intros j Hj. apply Hr in Hj. lia.
    + intros j. split.
      * intros [? ?]. destruct (decide (j < current a)); [left; split; [lia|done]|lia].
      * intros [[? ?]|?]; split; [lia|done|lia|].
        intros Hin. apply Hr in Hin. lia.
  - destruct (position _ _) as [pos|] eqn:Hp.
    + apply position_Some in Hp as (x & Hx & ->%Z.eqb_eq).
      pose proof (vec_swap_remove_perm _ _ _ Hx) as Hperm.
      simpl. revert Hperm. generalize (vec_swap_remove (recycled a) pos). intros l Hperm.
      rewrite Hperm in Hnd. apply NoDup_cons in Hnd as [Hni Hnd].
      unfold inv, live; simpl. split.
      * split_and!; [done|done|]. intros j Hj. apply Hr. rewrite Hperm. by right.
      * intros j. rewrite Hperm, not_elem_of_cons. split.
        -- intros [? ?]. destruct (decide (j = i)); [by right; left|left]. naive_solver.
        -- intros [(? & ? & ?)|[->|?]]; [done|split; [lia|done]|lia].
    + assert (i ∉ recycled a) as Hn.
      { intros Hin. pose proof (position_None _ _ Hp i Hin) as Hf. simpl in Hf. lia. }
      split; [by split_and!|]. intros j. split; [tauto|].
      intros [?|[->|?]]; [done|split; [lia|done]|lia].
Qed.

#[global] Instance recycle_pool : IdPool RecycleAllocator := {
  pool_inv := inv;
  pool_live := live;
  pool_room := room;
  pool_empty := new;
  pool_alloc := alloc;
  pool_dealloc := dealloc;
  pool_empty_inv := new_inv;
  pool_empty_live := new_live;
  pool_alloc_ok := alloc_ok;
  pool_dealloc_ok := dealloc_ok
}.

End Recycle.

(** ** The PID allocator *)

Module Pid.

Definition PID_MAX_DEFAULT : Z := 32768.
Definition PID_MAX_MIN : Z := 2.
Definition PID_MAX_HARD_LIMIT : Z := 4 * 1024 * 1024.

Definition clamp_pid_max (pid_max : Z) : Z := clamp pid_max PID_MAX_MIN PID_MAX_HARD_LIMIT.

Record PidAllocator := mkPid {
  next : Z;
  active : list (Z * unit)
}.
#[export] Instance fields_PidAllocator : Fields PidAllocator :=
  fun a => mkPid (next a) (active a).

Definition new : PidAllocator := {| next := 0; active := [] |}.

(** One iteration of the [for _ in 0..pid_max] loop, then the rest. *)
Fixpoint alloc_loop (fuel : nat) (pid_max : Z) (a : PidAllocator) : option Z * PidAllocator :=
  match fuel with
  | O => (None, a)
  | S fuel' =>
      let pid := next a in
      let a := a {{ next := if pid_max <=? wadd pid 1 then 1 else wadd pid 1 }} in
      if bs_contains (active a) pid then alloc_loop fuel' pid_max a
      else (Some pid, a {{ active := bs_insert (active a) pid }})
  end.

(** [PID_MAX_VALUE] is the static the sysctl writes. *)
Definition alloc (pid_max_value : Z) (a : PidAllocator) : option Z * PidAllocator :=
  let pid_max := clamp_pid_max pid_max_value in
  let a := if pid_max <=? next a then a {{ next := 1 }} else a in
  alloc_loop (Z.to_nat pid_max) pid_max a.

Definition dealloc (a : PidAllocator) (pid : Z) : PidAllocator :=
  if negb (bs_contains (active a) pid) then a
  else a {{ active := bs_remove (active a) pid }}.

Definition set_pid_max (pid_max : Z) : Z := clamp_pid_max pid_max.

Definition is_active (a : PidAllocator) (pid : Z) : Prop := pid ∈ bs_iter (active a).

Definition inv (a : PidAllocator) : Prop := bt_wf (active a) /\ 0 <= next a <= PID_MAX_HARD_LIMIT.

Lemma clamp_pid_max_range v : 2 <= clamp_pid_max v <= PID_MAX_HARD_LIMIT.
Proof. unfold clamp_pid_max, PID_MAX_MIN, PID_MAX_HARD_LIMIT. ulia. Qed.

(** The PID tried after [p] in the rotation over [[1, pid_max)]. *)
Definition succ_pid (pid_max p : Z) : Z := if pid_max <=? p + 1 then 1 else p + 1.

Fixpoint nth_pid (pid_max p : Z) (n : nat) : Z :=
  match n with O => p | S n' => nth_pid pid_max (succ_pid pid_max p) n' end.

Lemma nth_pid_closed pid_max p n :
  2 <= pid_max -> 1 <= p < pid_max ->
  nth_pid pid_max p n = (p - 1 + Z.of_nat n) mod (pid_max - 1) + 1.
Proof.
  intros Hm. revert p. induction n as [|n IH]; intros p Hp.
  - simpl. rewrite Z.mod_small; lia.
  - cbn [nth_pid]. unfold succ_pid. destruct (pid_max <=? p + 1) eqn:E.
    + rewrite IH by lia. f_equal.
      replace (p - 1 + Z.of_nat (S n)) with (1 - 1 + Z.of_nat n + 1 * (pid_max - 1)) by lia.
      by rewrite Z_mod_plus_full.
    + rewrite IH by lia. f_equal. f_equal. lia.
Qed.

(** Every PID of [[1, pid_max)] is reached within [pid_max - 1] steps. *)
Lemma nth_pid_complete pid_max p q :
  2 <= pid_max -> 1 <= p < pid_max -> 1 <= q < pid_max ->
  exists n, (n < Z.to_nat (pid_max - 1))%nat /\ nth_pid pid_max p n = q.
Proof.
  intros Hm Hp Hq. exists (Z.to_nat ((q - p) mod (pid_max - 1))).
  pose proof (Z.mod_pos_bound (q - p) (pid_max - 1) ltac:(lia)) as Hb. split; [lia|].
  rewrite nth_pid_closed by lia. rewrite Z2Nat.id by lia.
  rewrite Zplus_mod_idemp_r. replace (p - 1 + (q - p)) with (q - 1) by lia.
  rewrite Z.mod_small; lia.
Qed.

Lemma alloc_loop_spec fuel pid_max a :
  2 <= pid_max <= PID_MAX_HARD_LIMIT -> 0 <= next a < pid_max ->
  match alloc_loop fuel pid_max a with
  | (Some pid, a') =>
      exists n, (n < fuel)%nat /\ pid = nth_pid pid_max (next a) n /\
        bs_contains (active a) pid = false /\
        (forall m, (m < n)%nat -> bs_contains (active a) (nth_pid pid_max (next a) m) = true) /\
        a' = mkPid (succ_pid pid_max pid) (bs_insert (active a) pid)
  | (None, a') =>
      active a' = active a /\
      forall n, (n < fuel)%nat -> bs_contains (active a) (nth_pid pid_max (next a) n) = true
  end.
Proof.
  intros Hmax. unfold PID_MAX_HARD_LIMIT in Hmax. revert a. induction fuel as [|fuel IH]; intros a Hn.
  - simpl. split; [done|]. lia.
  - cbn [alloc_loop]. simpl. rewrite wadd_small by lia.
    destruct (bs_contains (active a) (next a)) eqn:E.
    + set (a1 := assign next _ a).
      assert (0 <= next a1 < pid_max) as Hn1 by (unfold a1; simpl; case_if; lia).
      specialize (IH a1 Hn1). destruct (alloc_loop fuel pid_max a1) as [[pid|] a'].
      * destruct IH as (n & Hlt & Hpid & Hc & Hprev & Ha'). exists (S n).
        split_and!; [lia|done|done| |done].
        intros [|m] Hm; [done|]. apply (Hprev m). lia.
      * destruct IH as [Hact Hall]. split; [done|]. intros [|n] Hlt; [done|].
        apply (Hall n). lia.
    + exists O. split_and!; [lia|done|done|lia|]. by destruct a.
Qed.

Lemma nth_pid_range pid_max p n :
  2 <= pid_max -> 0 <= p < pid_max -> 0 <= nth_pid pid_max p n < pid_max.
Proof.
  intros Hm. revert p. induction n as [|n IH]; intros p Hp; [done|]. cbn [nth_pid].
  apply IH. unfold succ_pid. case_if; lia.
Qed.

(** Starting anywhere, [pid_max] tries visit every PID of [[1, pid_max)]. *)
Lemma nth_pid_visits pid_max p q :
  2 <= pid_max -> 0 <= p < pid_max -> 1 <= q < pid_max ->
  exists n, (n < Z.to_nat pid_max)%nat /\ nth_pid pid_max p n = q.
Proof.
  intros Hm Hp Hq. destruct (decide (p = 0)) as [->|Hne].
  - destruct (nth_pid_complete pid_max (succ_pid pid_max 0) q) as (n & ? & ?); [lia| |lia|].
    { unfold succ_pid. case_if; lia. }
    exists (S n). split; [lia|done].
  - destruct (nth_pid_complete pid_max p q) as (n & ? & ?); [lia..|].
    exists n. split; [lia|done].
Qed.

(** A PID is never handed out twice, and allocation fails only when every PID
    of the rotation is taken. *)
Theorem alloc_spec pid_max_value a :
  inv a ->
  match alloc pid_max_value a with
  | (Some pid, a') =>
      inv a' /\ ~ is_active a pid /\ 0 <= pid < clamp_pid_max pid_max_value /\
      (forall q, is_active a' q <-> is_active a q \/ q = pid)
  | (None, a') =>
      active a' = active a /\ forall q, 1 <= q < clamp_pid_max pid_max_value -> is_active a q
  end.
Proof.
  intros [Hwf Hn]. unfold alloc. pose proof (clamp_pid_max_range pid_max_value) as Hm.
  set (pm := clamp_pid_max pid_max_value) in *.
  set (a1 := if pm <=? next a then _ else a).
  assert (0 <= next a1 < pm) as Hn1 by (unfold a1; case_if; simpl; lia).
  assert (active a1 = active a) as Ha1 by (unfold a1; by case_if).
  pose proof (alloc_loop_spec (Z.to_nat pm) pm a1 Hm Hn1) as Hs. rewrite Ha1 in Hs.
  destruct (alloc_loop (Z.to_nat pm) pm a1) as [[pid|] a'].
  - destruct Hs as (n & Hlt & Hpid & Hc & _ & ->).
    pose proof (nth_pid_range pm (next a1) n ltac:(lia) Hn1) as Hr. rewrite <- Hpid in Hr.
    unfold inv, is_active; simpl. split_and!.
    + unfold bs_insert. eauto with kernel.
    + unfold succ_pid. case_if; lia.
    + unfold succ_pid. case_if; lia.
    + rewrite <- bs_contains_elem by done. congruence.
    + lia.
    + lia.
    + intros q. rewrite bs_insert_elem by done. naive_solver.
  - destruct Hs as [-> Hall]. split; [done|]. intros q Hq. unfold is_active.
    destruct (nth_pid_visits pm (next a1) q) as (n & Hlt & <-); [lia..|].
    apply bs_contains_elem; [done|]. by apply Hall.
Qed.

Lemma alloc_spec_witness :
  exists pid a', alloc 32768 (mkPid 5 []) = (Some pid, a') /\ is_active a' pid.
Proof.
  pose proof (alloc_spec 32768 (mkPid 5 [])) as H.
  destruct (alloc 32768 (mkPid 5 [])) as [[pid|] a'] eqn:E; [|by vm_compute in E].
  exists pid, a'. split; [done|]. apply H; [|by right]. split; [apply bt_wf_nil|vm_compute; split; congruence].
Defined.

Theorem dealloc_spec a pid :
  inv a -> inv (dealloc a pid) /\
  (forall q, is_active (dealloc a pid) q <-> is_active a q /\ q <> pid).
Proof.
  intros [Hwf Hn]. unfold dealloc, inv, is_active.
  destruct (bs_contains (active a) pid) eqn:E; simpl.
  - split; [split; [unfold bs_remove; eauto with kernel|done]|].
    intros q. rewrite bs_remove_elem by done. naive_solver.
  - split; [done|]. intros q. split; [|naive_solver]. intros Hq. split; [done|]. intros ->.
    apply bs_contains_elem in Hq; [congruence|done].
Qed.

End Pid.

(** ** Kernel stacks: a client of the identifier pool

    Addresses of the riscv64 configuration ([config.rs]). *)

Module KStack.

Definition PAGE_SIZE : Z := 4096.
Definition KERNEL_STACK_SIZE : Z := 4096 * 8.
Definition TRAMPOLINE : Z := USIZE_MAX - PAGE_SIZE + 1.
Definition KERNEL_STACK_TOP : Z := TRAMPOLINE - 1073741824.

(** [(bottom, top)] of the stack with identifier [kstack_id]. *)
Definition kernel_stack_position (kstack_id : Z) : Z * Z :=
  let top := wsub KERNEL_STACK_TOP (wmul kstack_id (KERNEL_STACK_SIZE + PAGE_SIZE)) in
  let bottom := wsub top KERNEL_STACK_SIZE in
  (bottom, top).

(** Number of stacks that fit between the top of the window and the bottom of
    the kernel half of an Sv39 address space. *)
Definition MAX_STACKS : Z := 7000000.

Lemma kernel_stack_position_eq id :
  0 <= id < MAX_STACKS ->
  kernel_stack_position id =
    (KERNEL_STACK_TOP - id * 36864 - KERNEL_STACK_SIZE, KERNEL_STACK_TOP - id * 36864).
Proof.
  unfold kernel_stack_position, MAX_STACKS, KERNEL_STACK_TOP, TRAMPOLINE, KERNEL_STACK_SIZE,
    PAGE_SIZE. intros Hid.
  rewrite wmul_small by lia. rewrite (wsub_small _ (id * _)) by lia.
  rewrite wsub_small by lia. done.
Qed.

Section Client.
Context {P : Type} `{IdPool P}.

(** The allocator of stack identifiers and the identifiers of the live
    [KernelStack] values. *)
Record stacks := mkStacks { pool : P; held : list Z }.

(** [kstack_alloc] when the kernel mapping succeeds, [kstack_alloc] when it
    fails (the identifier is given back), and [Drop for KernelStack]. *)
Inductive step : stacks -> stacks -> Prop :=
| step_alloc s i p' :
    pool_room (pool s) -> pool_alloc (pool s) = (i, p') ->
    step s (mkStacks p' (i :: held s))
| step_alloc_oom s i p' p'' :
    pool_room (pool s) -> pool_alloc (pool s) = (i, p') -> pool_dealloc p' i = Some p'' ->
    step s (mkStacks p'' (held s))
| step_drop s h1 i h2 p' :
    held s = h1 ++ i :: h2 -> pool_dealloc (pool s) i = Some p' ->
    step s (mkStacks p' (h1 ++ h2)).

Definition stacks_inv (s : stacks) : Prop :=
  pool_inv (pool s) /\ NoDup (held s) /\ (forall i, i ∈ held s <-> pool_live (pool s) i).

Lemma step_inv s s' : stacks_inv s -> step s s' -> stacks_inv s'.
Proof.
  intros (Hi & Hnd & Hl) Hs. inversion Hs as [? i p' Hr Ha|? i p' p'' Hr Ha Hd|? h1 i h2 p' Hh Hd];
    subst; unfold stacks_inv; simpl.
  - destruct (pool_alloc_ok _ _ _ Hi Hr Ha) as (Hi' & Hn & Hl'). split_and!; [done| |].
    + apply NoDup_cons. split; [by rewrite Hl|done].
    + intros j. rewrite elem_of_cons, Hl', Hl. naive_solver.
  - destruct (pool_alloc_ok _ _ _ Hi Hr Ha) as (Hi' & Hn & Hl').
    destruct (pool_dealloc_ok p' i Hi') as (q & Hq & Hiq & Hlq); [apply Hl'; by right|].
    rewrite Hd in Hq. injection Hq as <-. split_and!; [done|done|].
    intros j. rewrite Hlq, Hl', Hl. naive_solver.
  - rewrite Hh in Hnd, Hl.
    destruct (pool_dealloc_ok (pool s) i Hi) as (q & Hq & Hiq & Hlq).
    { apply Hl. apply elem_of_app. right. by left. }
    rewrite Hd in Hq. injection Hq as <-.
    rewrite <- Permutation_middle in Hnd. apply NoDup_cons in Hnd as [Hni Hnd].
    split_and!; [done|done|]. intros j. rewrite Hlq, <- Hl.
    rewrite !elem_of_app in *. rewrite elem_of_cons. naive_solver.
Qed.

Definition initial : stacks := mkStacks pool_empty [].

Lemma initial_inv : stacks_inv initial.
Proof.
  split_and!; simpl; [apply pool_empty_inv|constructor|].
  intros i. split; [by intros ?%elem_of_nil|]. intros ?%pool_empty_live. done.
Qed.

Lemma reachable_inv s : rtc step initial s -> stacks_inv s.
Proof.
  intros Hr. pose proof initial_inv as Hi. revert Hi.
  induction Hr as [|x y z Hxy _ IH]; [done|]. intros Hx. apply IH. by eapply step_inv.
Qed.

(** In every reachable state the stacks in use are pairwise disjoint, with at
    least a guard page between any two of them. *)
Theorem stacks_disjoint s n m i j :
  rtc step initial s ->
  held s !! n = Some i -> held s !! m = Some j -> n <> m ->
  0 <= i < MAX_STACKS -> 0 <= j < MAX_STACKS ->
  (kernel_stack_position i).2 + PAGE_SIZE <= (kernel_stack_position j).1 \/
  (kernel_stack_position j).2 + PAGE_SIZE <= (kernel_stack_position i).1.
Proof.
  intros Hr Hi Hj Hnm Bi Bj. destruct (reachable_inv s Hr) as (_ & Hnd & _).
  assert (i <> j) as Hne by (intros ->; apply Hnm; by eapply NoDup_lookup).
  rewrite !kernel_stack_position_eq by done. simpl.
  unfold KERNEL_STACK_SIZE, PAGE_SIZE. lia.
Qed.

End Client.

(** Two stacks allocated one after the other. *)
Lemma two_stacks :
  rtc (step (P := Recycle.RecycleAllocator)) initial (mkStacks (Recycle.mkRecycle 2 []) [1; 0]).
Proof.
  eapply rtc_l; [apply (step_alloc initial 0 (Recycle.mkRecycle 1 [])); [vm_compute; reflexivity|reflexivity]|].
  eapply rtc_once. apply (step_alloc (mkStacks (Recycle.mkRecycle 1 []) [0]) 1); [vm_compute; reflexivity|reflexivity].
Qed.

Lemma stacks_disjoint_witness :
  (kernel_stack_position 1).2 + PAGE_SIZE <= (kernel_stack_position 0).1 \/
  (kernel_stack_position 0).2 + PAGE_SIZE <= (kernel_stack_position 1).1.
Proof.
  apply (stacks_disjoint _ 0 1 1 0 two_stacks); try reflexivity; try done; vm_compute; split; congruence.
Defined.

End KStack.
