(* ===== verification/Address.v ===== *)
(** * Physical and virtual addresses and page numbers

    [mm/address.rs] for the riscv64 configuration (56-bit physical and 39-bit
    virtual addresses, 4 KiB pages).  The four newtypes are their [usize]
    payload; [From] conversions keep the source's masks and its [assert_eq!]
    (the [None] result). *)

From S2P Require Import Prelude.

Definition PAGE_SIZE : Z := 4096.
Definition PAGE_SIZE_BITS : Z := 12.
Definition PA_WIDTH : Z := 56.
Definition VA_WIDTH : Z := 39.
Definition PPN_WIDTH : Z := PA_WIDTH - PAGE_SIZE_BITS.
Definition VPN_WIDTH : Z := VA_WIDTH - PAGE_SIZE_BITS.

(** ** Conversions between [usize] and the address types *)

Definition phys_addr (v : Z) : Z := Z.land v (Z.shiftl 1 PA_WIDTH - 1).
Definition phys_page_num (v : Z) : Z := Z.land v (Z.shiftl 1 PPN_WIDTH - 1).
Definition virt_addr (v : Z) : Z := Z.land v (Z.shiftl 1 VA_WIDTH - 1).
Definition virt_page_num (v : Z) : Z := Z.land v (Z.shiftl 1 VPN_WIDTH - 1).

(** [From<VirtAddr> for usize]: sign extension from bit 38. *)
Definition virt_addr_to_usize (va : Z) : Z :=
  if Z.shiftl 1 (VA_WIDTH - 1) <=? va then Z.lor va (bnot (Z.shiftl 1 VA_WIDTH - 1)) else va.

(** ** Pages of an address; [PhysAddr] and [VirtAddr] have the same methods *)

Definition floor (a : Z) : Z := a / PAGE_SIZE.
Definition ceil (a : Z) : Z := if a =? 0 then 0 else wadd (wsub a 1) PAGE_SIZE / PAGE_SIZE.
Definition page_offset (a : Z) : Z := Z.land a (PAGE_SIZE - 1).
Definition aligned (a : Z) : bool := page_offset a =? 0.

(** [From<VirtAddr> for VirtPageNum] and [From<PhysAddr> for PhysPageNum]. *)
Definition addr_to_page (a : Z) : option Z :=
  if page_offset a =? 0 then Some (floor a) else None.

(** [From<VirtPageNum> for VirtAddr] and [From<PhysPageNum> for PhysAddr]. *)
Definition page_to_addr (p : Z) : Z := wshl p PAGE_SIZE_BITS.

(** [VirtPageNum::indexes]: the loop fills the array from its last slot. *)
Fixpoint indexes_loop (n : nat) (vpn : Z) (idx : list Z) : list Z :=
  match n with
  | O => idx
  | S i => indexes_loop i (Z.shiftr vpn 9) (<[i := Z.land vpn 511]> idx)
  end.
Definition indexes (vpn : Z) : list Z := indexes_loop 3 vpn [0; 0; 0].

(** ** SimpleRange over page numbers *)

Record SimpleRange := mkRange { range_l : Z; range_r : Z }.

Definition range_new (start end_ : Z) : option SimpleRange :=
  if start <=? end_ then Some (mkRange start end_) else None.

(** [Iterator::next] of [SimpleRangeIterator] (its [current] and [end]). *)
Definition range_next (it : SimpleRange) : option (Z * SimpleRange) :=
  if range_l it =? range_r it then None
  else Some (range_l it, mkRange (wadd (range_l it) 1) (range_r it)).

(** [for x in range]: run the iterator until it is exhausted. *)
Fixpoint range_iter (fuel : nat) (it : SimpleRange) : option (list Z) :=
  match range_next it with
  | None => Some []
  | Some (x, it') =>
      match fuel with
      | O => None
      | S fuel' => cons x <$> range_iter fuel' it'
      end
  end.

(** ** Lemmas *)

Lemma land_mask x n : 0 <= n -> Z.land x (Z.shiftl 1 n - 1) = x mod 2 ^ n.
Proof.
  intros. rewrite Z.shiftl_1_l. rewrite <- Z.land_ones by done. by rewrite Z.ones_equiv.
Qed.

Lemma page_offset_mod a : page_offset a = a mod 4096.
Proof. unfold page_offset. change (PAGE_SIZE - 1) with (Z.shiftl 1 12 - 1). by apply land_mask. Qed.

Lemma virt_addr_mod v : virt_addr v = v mod 549755813888.
Proof. unfold virt_addr. by apply land_mask. Qed.

Lemma page_to_addr_eq p : 0 <= p < 4503599627370496 -> page_to_addr p = p * 4096.
Proof.
  intros. unfold page_to_addr, wshl. rewrite Z.shiftl_mul_pow2 by done.
  change (2 ^ PAGE_SIZE_BITS) with 4096. rewrite Z.mod_small; lia.
Qed.

Lemma ceil_eq a : 0 <= a <= USIZE_MAX - 4095 -> ceil a = (a + 4095) / 4096.
Proof.
  intros. unfold ceil, PAGE_SIZE. destruct (Z.eqb_spec a 0) as [->|]; [done|].
  rewrite wsub_small, wadd_small by lia. f_equal. lia.
Qed.

(** The bits set by sign extension are disjoint from a 39-bit address. *)
Lemma lor_sign_extend va :
  0 <= va < 549755813888 ->
  Z.lor va (bnot (Z.shiftl 1 VA_WIDTH - 1)) = va + (USIZE_MOD - 549755813888).
Proof.
  intros Hva. change (bnot _) with (Z.shiftl 33554431 39).
  replace (USIZE_MOD - 549755813888) with (Z.shiftl 33554431 39) by reflexivity.
  symmetry. apply Z.add_nocarry_lor.
  apply Z.bits_inj'. intros n Hn. rewrite Z.land_spec, Z.bits_0.
  destruct (decide (n < 39)).
  - rewrite Z.shiftl_spec_low by done. by rewrite andb_false_r.
  - destruct (decide (va = 0)) as [->|]; [by rewrite Z.bits_0|].
    rewrite Z.bits_above_log2; [done|lia|]. apply Z.log2_lt_pow2; [lia|].
    apply Z.lt_le_trans with (2 ^ 39); [lia|]. apply Z.pow_le_mono_r; lia.
Qed.

(** A [usize] that is a sign-extended 39-bit address. *)
Definition canonical (v : Z) : Prop :=
  0 <= v < 274877906944 \/ USIZE_MOD - 274877906944 <= v <= USIZE_MAX.

(** Reading a [usize] as a [VirtAddr] and writing it back gives the canonical
    address with the same low 39 bits; canonical addresses are unchanged. *)
Theorem virt_addr_roundtrip v :
  is_usize v ->
  canonical (virt_addr_to_usize (virt_addr v)) /\
  virt_addr (virt_addr_to_usize (virt_addr v)) = virt_addr v /\
  (canonical v -> virt_addr_to_usize (virt_addr v) = v).
Proof.
  unfold is_usize, canonical. intros Hv. rewrite !virt_addr_mod.
  pose proof (Z.mod_pos_bound v 549755813888 ltac:(lia)) as Hb.
  set (va := v mod 549755813888) in *. unfold virt_addr_to_usize.
  change (Z.shiftl 1 (VA_WIDTH - 1)) with 274877906944.
  destruct (274877906944 <=? va) eqn:E.
  - rewrite lor_sign_extend by lia. split_and!; [lia| |].
    + change (USIZE_MOD - 549755813888) with (33554431 * 549755813888).
      rewrite Z_mod_plus_full. by apply Z.mod_small.
    + intros Hc. pose proof (Z.div_mod v 549755813888 ltac:(lia)) as Hd.
      fold va in Hd. destruct Hc; [exfalso|].
      * assert (va = v) by (apply Z.mod_small; lia). lia.
      * assert (v / 549755813888 = 33554431) by lia.
        lia.
  - split_and!; [lia|by apply Z.mod_small|].
    intros Hc. pose proof (Z.div_mod v 549755813888 ltac:(lia)) as Hd. fold va in Hd.
    destruct Hc; [by apply Z.mod_small; lia|exfalso].
    assert (v / 549755813888 = 33554431) by lia.
    lia.
Qed.

Lemma virt_addr_roundtrip_witness : virt_addr_to_usize (virt_addr 18446744073709547520) = 18446744073709547520.
Proof. apply (virt_addr_roundtrip 18446744073709547520); [vm_compute; split; congruence|right; vm_compute; split; congruence]. Defined.

(** [floor] and [ceil] are the page below and the page above an address, and
    they agree exactly on aligned addresses. *)
Theorem floor_ceil_spec a :
  0 <= a <= USIZE_MAX - 4095 ->
  floor a * PAGE_SIZE <= a <= ceil a * PAGE_SIZE /\
  a = floor a * PAGE_SIZE + page_offset a /\
  ceil a <= floor a + 1 /\
  (aligned a = true <-> floor a = ceil a).
Proof.
  intros Ha. rewrite ceil_eq by done. unfold floor, aligned. rewrite page_offset_mod.
  unfold PAGE_SIZE. pose proof (Z.div_mod a 4096 ltac:(lia)).
  pose proof (Z.mod_pos_bound a 4096 ltac:(lia)).
  pose proof (Z.div_mod (a + 4095) 4096 ltac:(lia)).
  pose proof (Z.mod_pos_bound (a + 4095) 4096 ltac:(lia)).
  split_and!; lia.
Qed.

(** Page number to address and back; an address that is not the start of a page
    is refused. *)
Theorem page_addr_roundtrip p off :
  0 <= p < 4503599627370496 -> 0 <= off < PAGE_SIZE ->
  addr_to_page (page_to_addr p + off) = if off =? 0 then Some p else None.
Proof.
  unfold PAGE_SIZE. intros Hp Ho. rewrite page_to_addr_eq by done. unfold addr_to_page.
  rewrite page_offset_mod, Z.add_comm, Z_mod_plus_full, Z.mod_small by lia.
  destruct (Z.eqb_spec off 0) as [->|]; [|done]. unfold floor, PAGE_SIZE.
  f_equal. rewrite Z.add_0_l. by apply Z.div_mul.
Qed.

Lemma indexes_eq vpn :
  indexes vpn = [vpn / 262144 mod 512; vpn / 512 mod 512; vpn mod 512].
Proof.
  unfold indexes. simpl. change 511 with (Z.shiftl 1 9 - 1). rewrite !land_mask by done.
  rewrite !Z.shiftr_div_pow2 by done. change (2 ^ 9) with 512.
  rewrite Z.div_div by lia. done.
Qed.

(** The three page-table indexes are below 512 and determine the 27-bit virtual
    page number. *)
Theorem indexes_spec vpn :
  0 <= vpn < 134217728 ->
  exists i0 i1 i2, indexes vpn = [i0; i1; i2] /\
    0 <= i0 < 512 /\ 0 <= i1 < 512 /\ 0 <= i2 < 512 /\
    vpn = i0 * 262144 + i1 * 512 + i2.
Proof.
  intros Hv. rewrite indexes_eq. do 3 eexists. split; [done|].
  assert (vpn / 262144 mod 512 = vpn / 262144) as ->.
  { apply Z.mod_small. split; [apply Z.div_pos; lia|apply Z.div_lt_upper_bound; lia]. }
  pose proof (Z.div_mod vpn 512 ltac:(lia)). pose proof (Z.mod_pos_bound vpn 512 ltac:(lia)).
  pose proof (Z.div_mod (vpn / 512) 512 ltac:(lia)).
  pose proof (Z.mod_pos_bound (vpn / 512) 512 ltac:(lia)).
  rewrite Z.div_div in * by lia. change (512 * 512) with 262144 in *. lia.
Qed.

Lemma indexes_spec_witness : exists i0 i1 i2, indexes 1000000 = [i0; i1; i2] /\ 1000000 = i0 * 262144 + i1 * 512 + i2.
Proof. destruct (indexes_spec 1000000) as (i0 & i1 & i2 & H & _ & _ & _ & E); [lia|]. by exists i0, i1, i2. Defined.

(** The iterator of a range built by [new] stops, and yields each page of
    [[start, end)] once, in order. *)
Theorem range_iter_spec l r it :
  0 <= l -> r <= USIZE_MAX -> range_new l r = Some it ->
  range_iter (Z.to_nat (r - l)) it = Some (seqZ l (r - l)).
Proof.
  unfold range_new. intros Hl Hr. destruct (l <=? r) eqn:E; [|done]. intros [= <-].
  remember (Z.to_nat (r - l)) as n eqn:Hn. revert l Hl E Hn.
  induction n as [|n IH]; intros l Hl E Hn; simpl; unfold range_next; simpl.
  - destruct (Z.eqb_spec l r) as [->|]; [|lia]. rewrite Z.sub_diag. reflexivity.
  - destruct (Z.eqb_spec l r) as [->|]; [lia|].
    rewrite wadd_small by lia. rewrite IH by lia. simpl.
    rewrite (seqZ_cons l) by lia. do 3 f_equal; lia.
Qed.

Lemma range_iter_spec_witness : range_iter 3 (mkRange 5 8) = Some [5; 6; 7].
Proof. apply (range_iter_spec 5 8 (mkRange 5 8)); [lia..|reflexivity]. Defined.
