(* ===== verification/Ranges.v ===== *)
(** * Lists of half-open address ranges

    [mm/memory_set/range.rs]: the range lists behind [mlock], the page-alignment
    helpers and the mmap base randomisation.  A range is a pair [(start, end)];
    the list is the [Vec] in order. *)

From S2P Require Import Prelude Address.

Abbreviation ranges := (list (Z * Z)).

Definition push_range_merged (rs : ranges) (start end_ : Z) : ranges :=
  if end_ <=? start then rs
  else
    match last rs with
    | Some (ls, le) =>
        if start <=? le then vec_push (removelast rs) (ls, Z.max le end_)
        else vec_push rs (start, end_)
    | None => vec_push rs (start, end_)
    end.

Definition normalize_ranges (rs : ranges) : ranges :=
  foldl (fun merged r => push_range_merged merged r.1 r.2) [] (sort_by_key fst rs).

(** The pieces of [r] left by removing [[start, end_)], in the order pushed. *)
Definition trim_one (start end_ : Z) (r : Z * Z) : ranges :=
  if (end_ <=? r.1) || (r.2 <=? start) then [r]
  else (if r.1 <? start then [(r.1, start)] else []) ++
       (if end_ <? r.2 then [(end_, r.2)] else []).

Definition trim_ranges (rs : ranges) (start end_ : Z) : ranges :=
  if end_ <=? start then rs
  else normalize_ranges (rs ≫= trim_one start end_).

Definition ranges_total_len (rs : ranges) : Z :=
  foldl (fun acc r => wadd acc (sat_sub r.2 r.1)) 0 rs.

Definition ranges_overlap (rs : ranges) (start end_ : Z) : bool :=
  existsb (fun r => (r.1 <? end_) && (start <? r.2)) rs.

Definition range_overlap_len (start end_ other_start other_end : Z) : Z :=
  let overlap_start := Z.max start other_start in
  let overlap_end := Z.min end_ other_end in
  sat_sub overlap_end overlap_start.

Definition range_overlaps_except (start end_ other_start other_end : Z)
    (exclude : option (Z * Z)) : bool :=
  if (end_ <=? other_start) || (other_end <=? start) then false
  else
    match exclude with
    | None => true
    | Some (exclude_start, exclude_end) =>
        let left_end := Z.min other_end exclude_start in
        if (other_start <? left_end) && (other_start <? end_) && (start <? left_end) then true
        else
          let right_start := Z.max other_start exclude_end in
          (right_start <? other_end) && (right_start <? end_) && (start <? other_end)
    end.

Definition align_down_to_page (addr : Z) : Z := Z.land addr (bnot (PAGE_SIZE - 1)).
Definition align_up_to_page (len : Z) : Z := wmul (sat_add len (PAGE_SIZE - 1) / PAGE_SIZE) PAGE_SIZE.

Definition mix_mmap_aslr_seed (seed : Z) : Z :=
  let seed := Z.lxor seed (wshl seed 13) in
  let seed := Z.lxor seed (Z.shiftr seed 7) in
  Z.lxor seed (wshl seed 17).

Definition rotate_left (x n : Z) : Z := Z.lor (wshl x n) (Z.shiftr x (64 - n)).

Definition MMAP_ASLR_RANGE : Z := 256 * 1024 * 1024.

(** [MMAP_ASLR_SEQ] before the call and the cycle counter are inputs; the
    result is the offset and the new sequence number. *)
Definition next_mmap_aslr_offset (seq time : Z) : Z * Z :=
  let pages := MMAP_ASLR_RANGE / PAGE_SIZE in
  if pages =? 0 then (0, seq)
  else
    let seq := wadd seq 1 in
    let seed := Z.lxor time (rotate_left seq 11) in
    (wmul (mix_mmap_aslr_seed seed mod pages) PAGE_SIZE, seq).

(** ** Specification: the set of addresses a list covers *)

Definition covered (rs : ranges) (x : Z) : Prop := exists s e, (s, e) ∈ rs /\ s <= x < e.

(** Non-empty ranges in increasing order with a gap between any two of them;
    [lo] is below the first one. *)
Fixpoint norm_from (lo : Z) (rs : ranges) : Prop :=
  match rs with
  | [] => True
  | (s, e) :: rs' => lo < s /\ s < e /\ norm_from e rs'
  end.
Definition normalized (rs : ranges) : Prop := exists lo, norm_from lo rs.

(** ** Lemmas *)

Lemma covered_nil x : covered [] x <-> False.
Proof. split; [|done]. intros (s & e & Hin & _). by apply elem_of_nil in Hin. Qed.

Lemma covered_cons s e rs x : covered ((s, e) :: rs) x <-> s <= x < e \/ covered rs x.
Proof.
  unfold covered. setoid_rewrite elem_of_cons. split.
  - intros (s' & e' & [[= -> ->]|Hin] & Hx); [by left|right; eauto].
  - intros [Hx|(s' & e' & Hin & Hx)]; eauto 10.
Qed.

Lemma covered_app rs1 rs2 x : covered (rs1 ++ rs2) x <-> covered rs1 x \/ covered rs2 x.
Proof. unfold covered. setoid_rewrite elem_of_app. naive_solver. Qed.

Lemma covered_perm rs1 rs2 x : rs1 ≡ₚ rs2 -> covered rs1 x <-> covered rs2 x.
Proof. intros Hp. unfold covered. by setoid_rewrite Hp. Qed.

#[export] Hint Rewrite covered_nil covered_cons covered_app : kernel.

(** The end of the last range, [lo] when there is none. *)
Definition end_from (lo : Z) (rs : ranges) : Z :=
  match last rs with Some (_, e) => e | None => lo end.

Lemma end_from_cons lo s e rs : end_from lo ((s, e) :: rs) = end_from e rs.
Proof.
  unfold end_from. destruct rs as [|r rs]; [done|]. rewrite last_cons_cons.
  destruct (last (r :: rs)) eqn:E; [done|]. by apply last_None in E.
Qed.

Lemma end_from_snoc lo s e rs : end_from lo (rs ++ [(s, e)]) = e.
Proof. unfold end_from. by rewrite last_snoc. Qed.

Lemma norm_from_snoc lo rs s e :
  norm_from lo (rs ++ [(s, e)]) <-> norm_from lo rs /\ end_from lo rs < s /\ s < e.
Proof.
  revert lo. induction rs as [|[s0 e0] rs IH]; intros lo; simpl.
  - unfold end_from; simpl. tauto.
  - rewrite IH, end_from_cons. tauto.
Qed.

Lemma norm_from_end lo rs : norm_from lo rs -> lo <= end_from lo rs.
Proof.
  revert lo. induction rs as [|[s e] rs IH]; intros lo Hn; [done|].
  destruct Hn as (? & ? & Hn). specialize (IH _ Hn). rewrite end_from_cons. lia.
Qed.

Lemma norm_from_weaken lo lo' rs : lo' <= lo -> norm_from lo rs -> norm_from lo' rs.
Proof. destruct rs as [|[s e] rs]; simpl; [done|]. naive_solver lia. Qed.

Lemma norm_from_covered lo rs x : norm_from lo rs -> covered rs x -> lo < x.
Proof.
  revert lo. induction rs as [|[s e] rs IH]; intros lo; simpl.
  - by rewrite covered_nil.
  - intros (? & ? & Hn). rewrite covered_cons. intros [?|Hc]; [lia|].
    specialize (IH _ Hn Hc). lia.
Qed.

(** Pushing a range that starts at or after the start of the last one keeps the
    list normalized and adds its addresses. *)
Definition last_start_le (rs : ranges) (k : Z) : Prop :=
  match last rs with Some (ls, _) => ls <= k | None => True end.

Lemma push_range_merged_spec lo rs s e :
  norm_from lo rs -> lo < s -> last_start_le rs s ->
  norm_from lo (push_range_merged rs s e) /\
  last_start_le (push_range_merged rs s e) s /\
  (forall x, covered (push_range_merged rs s e) x <-> covered rs x \/ s <= x < e).
Proof.
  unfold push_range_merged, last_start_le. intros Hn Hlo Hls.
  destruct (e <=? s) eqn:E; [split_and!; [done|done|]; intros; split; [tauto|intros [?|?]; [done|lia]]|].
  destruct rs as [|[ls le] rs _] using rev_ind.
  - unfold vec_push; simpl. split_and!; [lia..|]. intros x.
    autorewrite with kernel. tauto.
  - rewrite last_snoc in *. apply norm_from_snoc in Hn as (Hn & Hend & Hlt).
    destruct (s <=? le) eqn:E2; unfold vec_push; rewrite ?removelast_last, ?last_snoc.
    + split_and!; [apply norm_from_snoc; split_and!; [done|lia..]|done|].
      intros x. autorewrite with kernel.
      assert (ls <= x < Z.max le e <-> ls <= x < le \/ s <= x < e) by lia. tauto.
    + split_and!; [|lia|].
      * apply norm_from_snoc. rewrite end_from_snoc. split_and!; [|lia..].
        apply norm_from_snoc. split_and!; [done|lia..].
      * intros x. autorewrite with kernel. tauto.
Qed.

Lemma last_start_le_mono rs k k' : k <= k' -> last_start_le rs k -> last_start_le rs k'.
Proof. unfold last_start_le. destruct (last rs) as [[??]|]; [lia|done]. Qed.

Lemma fold_push_spec lo rs acc :
  sorted_by fst rs -> norm_from lo acc -> Forall (fun r => lo < r.1 /\ last_start_le acc r.1) rs ->
  let out := foldl (fun merged r => push_range_merged merged r.1 r.2) acc rs in
  norm_from lo out /\ (forall x, covered out x <-> covered acc x \/ covered rs x).
Proof.
  revert acc. induction rs as [|[s e] rs IH]; intros acc Hs Hn Hf; simpl.
  - split; [done|]. intros x. rewrite covered_nil. tauto.
  - inversion Hs as [|?? Hs' Hall]; subst. inversion Hf as [|?? [Hlo Hls] Hf']; subst. simpl in *.
    destruct (push_range_merged_spec lo acc s e Hn Hlo Hls) as (Hn' & Hls' & Hc).
    destruct (IH (push_range_merged acc s e) Hs' Hn') as [Hn2 Hc2].
    { rewrite Forall_forall in *. intros r Hr. split; [by apply Hf'|].
      eapply last_start_le_mono; [|done]. by apply (Hall r Hr). }
    split; [done|]. intros x. rewrite Hc2, Hc, covered_cons. tauto.
Qed.

(** A bound below every start of a list. *)
Lemma exists_below (rs : ranges) : exists lo, Forall (fun r => lo < r.1) rs.
Proof.
  induction rs as [|[s e] rs [lo IH]]; [by exists 0|].
  exists (Z.min lo (s - 1)). constructor; [simpl; lia|].
  eapply Forall_impl; [done|]. simpl. lia.
Qed.

Lemma normalize_ranges_spec rs :
  normalized (normalize_ranges rs) /\
  (forall x, covered (normalize_ranges rs) x <-> covered rs x).
Proof.
  destruct (exists_below rs) as [lo Hlo]. unfold normalize_ranges.
  destruct (fold_push_spec lo (sort_by_key fst rs) []) as [Hn Hc].
  - apply sort_by_key_sorted.
  - done.
  - rewrite sort_by_key_perm. eapply Forall_impl; [done|]. by split.
  - split; [by exists lo|]. intros x. rewrite Hc, covered_nil.
    rewrite (covered_perm _ rs) by apply sort_by_key_perm. tauto.
Qed.

(** A normalized list is determined by the addresses it covers. *)
Lemma normalized_unique lo1 lo2 rs1 rs2 :
  norm_from lo1 rs1 -> norm_from lo2 rs2 ->
  (forall x, covered rs1 x <-> covered rs2 x) -> rs1 = rs2.
Proof.
  revert lo1 lo2 rs2. induction rs1 as [|[s1 e1] rs1 IH]; intros lo1 lo2 [|[s2 e2] rs2] H1 H2 Hc.
  - done.
  - destruct H2 as (_ & ? & _). specialize (Hc s2). rewrite covered_nil, covered_cons in Hc. lia.
  - destruct H1 as (_ & ? & _). specialize (Hc s1). rewrite covered_nil, covered_cons in Hc. lia.
  - destruct H1 as (Hl1 & Hlt1 & H1), H2 as (Hl2 & Hlt2 & H2).
    pose proof (fun x => norm_from_covered e1 rs1 x H1) as B1.
    pose proof (fun x => norm_from_covered e2 rs2 x H2) as B2.
    assert (forall x, s1 <= x < e1 \/ covered rs1 x <-> s2 <= x < e2 \/ covered rs2 x) as Hc'.
    { intros x. rewrite <- !covered_cons. apply Hc. }
    assert (s1 = s2) as ->.
    { destruct (proj1 (Hc' s1) ltac:(left; lia)) as [?|Hx%B2];
        destruct (proj2 (Hc' s2) ltac:(left; lia)) as [?|Hy%B1]; lia. }
    assert (e1 = e2) as ->.
    { destruct (Z.lt_trichotomy e1 e2) as [Hlt|[?|Hlt]]; [exfalso|done|exfalso].
      - destruct (proj2 (Hc' e1) ltac:(left; lia)) as [?|Hx%B1]; lia.
      - destruct (proj1 (Hc' e2) ltac:(left; lia)) as [?|Hx%B2]; lia. }
    f_equal. apply (IH e2 e2 rs2 H1 H2). intros x. specialize (Hc' x).
    split; intros Hx.
    + destruct (proj1 Hc' (or_intror Hx)) as [?|?]; [exfalso|done]. specialize (B1 x Hx). lia.
    + destruct (proj2 Hc' (or_intror Hx)) as [?|?]; [exfalso|done]. specialize (B2 x Hx). lia.
Qed.

(** [normalize_ranges] computes a canonical form: the output is sorted with gaps,
    covers the same addresses, and two lists have the same output exactly when
    they cover the same addresses (so the order of equal starts left open by
    [sort_unstable_by_key] cannot matter). *)
Theorem normalize_ranges_canonical rs :
  normalized (normalize_ranges rs) /\
  (forall x, covered (normalize_ranges rs) x <-> covered rs x) /\
  (forall rs', (forall x, covered rs x <-> covered rs' x) <->
     normalize_ranges rs = normalize_ranges rs').
Proof.
  destruct (normalize_ranges_spec rs) as [[lo Hn] Hc]. split_and!; [by exists lo|done|].
  intros rs'. destruct (normalize_ranges_spec rs') as [[lo' Hn'] Hc']. split.
  - intros He. apply (normalized_unique lo lo'); [done..|].
    intros x. by rewrite Hc, Hc', He.
  - intros He x. by rewrite <- Hc, <- Hc', He.
Qed.

Lemma covered_bind (f : Z * Z -> ranges) (rs : ranges) x :
  covered (rs ≫= f) x <-> exists r, r ∈ rs /\ covered (f r) x.
Proof.
  unfold covered. setoid_rewrite list_elem_of_bind. naive_solver.
Qed.

Lemma covered_trim_one s e r x :
  s < e -> covered (trim_one s e r) x <-> r.1 <= x < r.2 /\ ~ (s <= x < e).
Proof.
  intros Hlt. destruct r as [rs re]. unfold trim_one; simpl.
  destruct ((e <=? rs) || (re <=? s)) eqn:E1.
  - rewrite covered_cons, covered_nil. lia.
  - rewrite covered_app. destruct (rs <? s) eqn:E2, (e <? re) eqn:E3;
      rewrite ?covered_cons, ?covered_nil; lia.
Qed.

(** [trim_ranges] removes exactly the addresses of [[start, end)] and returns a
    normalized list; an empty interval changes nothing. *)
Theorem trim_ranges_spec rs start end_ :
  (forall x, covered (trim_ranges rs start end_) x <-> covered rs x /\ ~ (start <= x < end_)) /\
  (start < end_ -> normalized (trim_ranges rs start end_)) /\
  (end_ <= start -> trim_ranges rs start end_ = rs).
Proof.
  unfold trim_ranges. destruct (end_ <=? start) eqn:E.
  - split_and!; [|lia|done]. intros x. split; [intros; split; [done|lia]|tauto].
  - destruct (normalize_ranges_spec (rs ≫= trim_one start end_)) as [Hn Hc].
    split_and!; [|done|lia]. intros x. rewrite Hc, covered_bind.
    setoid_rewrite covered_trim_one; [|lia]. split.
    + intros ([s e] & Hin & Hx & Hout). split; [|done]. exists s, e. done.
    + intros [(s & e & Hin & Hx) Hout]. exists (s, e). done.
Qed.

(** The addresses of a list of ranges, with multiplicity. *)
Definition enumerate (rs : ranges) : list Z := rs ≫= (fun r => seqZ r.1 (r.2 - r.1)).

Lemma enumerate_elem rs x : x ∈ enumerate rs <-> covered rs x.
Proof.
  unfold enumerate, covered. rewrite list_elem_of_bind. split.
  - intros ([s e] & Hx%elem_of_seqZ & Hin). simpl in Hx. exists s, e. split; [done|lia].
  - intros (s & e & Hin & Hx). exists (s, e). split; [|done]. apply elem_of_seqZ. simpl. lia.
Qed.

Lemma enumerate_nodup lo rs : norm_from lo rs -> NoDup (enumerate rs).
Proof.
  revert lo. induction rs as [|[s e] rs IH]; intros lo; [constructor|].
  intros (_ & Hlt & Hn). unfold enumerate; simpl. apply NoDup_app. split_and!.
  - apply NoDup_seqZ.
  - intros x Hx%elem_of_seqZ Hin. apply enumerate_elem in Hin.
    apply (norm_from_covered _ _ _ Hn) in Hin. lia.
  - by eapply IH.
Qed.

Lemma ranges_total_len_eq rs acc :
  (forall s e, (s, e) ∈ rs -> s <= e) -> 0 <= acc ->
  acc + Z.of_nat (length (enumerate rs)) <= USIZE_MAX ->
  foldl (fun acc r => wadd acc (sat_sub r.2 r.1)) acc rs = acc + Z.of_nat (length (enumerate rs)).
Proof.
  revert acc. induction rs as [|[s e] rs IH]; intros acc Hle Ha Hb; simpl in *; [lia|].
  unfold enumerate in *; simpl in *. rewrite length_app, length_seqZ in *.
  assert (s <= e) by (apply Hle; left). rewrite sat_sub_small, wadd_small by lia.
  rewrite IH; [lia| |lia|lia]. intros. apply Hle. by right.
Qed.

(** On a normalized list [ranges_total_len] is the number of addresses covered
    (as long as that number is a [usize]). *)
Theorem ranges_total_len_spec rs :
  normalized rs ->
  exists l, NoDup l /\ (forall x, x ∈ l <-> covered rs x) /\
    (Z.of_nat (length l) <= USIZE_MAX -> ranges_total_len rs = Z.of_nat (length l)).
Proof.
  intros [lo Hn]. exists (enumerate rs). split_and!.
  - by eapply enumerate_nodup.
  - intros x. apply enumerate_elem.
  - intros Hb. unfold ranges_total_len. rewrite ranges_total_len_eq; [lia| |lia|lia].
    clear Hb. revert lo Hn. induction rs as [|[s0 e0] rs IH]; intros lo Hn s e; simpl in *.
    + by intros ?%elem_of_nil.
    + destruct Hn as (? & ? & Hn). intros [[= -> ->]|Hin]%elem_of_cons; [lia|]. by eapply IH.
Qed.

(** [range_overlaps_except] decides whether a non-empty range meets another
    non-empty one outside the excluded interval. *)
Theorem range_overlaps_except_spec start end_ os oe exclude :
  start < end_ -> os < oe ->
  range_overlaps_except start end_ os oe exclude = true <->
  exists x, start <= x < end_ /\ os <= x < oe /\
    match exclude with Some (xs, xe) => ~ (xs <= x < xe) | None => True end.
Proof.
  intros Hlt Ho. unfold range_overlaps_except.
  destruct ((end_ <=? os) || (oe <=? start)) eqn:E1.
  { split; [done|]. intros (x & ? & ? & _). lia. }
  destruct exclude as [[xs xe]|].
  - destruct ((os <? Z.min oe xs) && (os <? end_) && (start <? Z.min oe xs)) eqn:E2.
    + split; [|done]. intros _. exists (Z.max start os). lia.
    + split.
      * intros Hr. exists (Z.max (Z.max start os) xe). lia.
      * intros (x & ? & ? & ?). lia.
  - split; [|done]. intros _. exists (Z.max start os). split_and!; [lia..|done].
Qed.

Lemma bnot_mask_land addr :
  is_usize addr -> Z.land addr (bnot (PAGE_SIZE - 1)) = addr - addr mod 4096.
Proof.
  intros Ha. unfold is_usize in Ha. change (bnot (PAGE_SIZE - 1)) with (Z.ldiff (Z.ones 64) (Z.ones 12)).
  assert (Z.land addr (Z.ldiff (Z.ones 64) (Z.ones 12)) = Z.ldiff addr (Z.ones 12)) as ->.
  { apply Z.bits_inj'. intros n Hn. rewrite Z.land_spec, !Z.ldiff_spec.
    destruct (decide (n < 64)).
    - by rewrite (Z.ones_spec_low 64 n) by lia.
    - destruct (decide (addr = 0)) as [->|]; [by rewrite Z.bits_0|].
      rewrite (Z.bits_above_log2 addr n); [done|lia|].
      apply Z.log2_lt_pow2; [lia|]. apply Z.lt_le_trans with (2 ^ 64); [lia|].
      apply Z.pow_le_mono_r; lia. }
  rewrite Z.ldiff_ones_r by done. rewrite Z.shiftl_mul_pow2, Z.shiftr_div_pow2 by done.
  change (2 ^ 12) with 4096. pose proof (Z.div_mod addr 4096 ltac:(lia)). lia.
Qed.

(** Page alignment: the greatest page boundary at or below an address, and the
    least one at or above a length; the latter saturates instead of wrapping. *)
Theorem align_to_page_spec a :
  is_usize a ->
  (align_down_to_page a mod PAGE_SIZE = 0 /\ align_down_to_page a <= a < align_down_to_page a + PAGE_SIZE) /\
  (align_up_to_page a mod PAGE_SIZE = 0) /\
  (a <= USIZE_MAX - 4095 -> a <= align_up_to_page a < a + PAGE_SIZE) /\
  (USIZE_MAX - 4095 < a -> align_up_to_page a = USIZE_MAX - 4095).
Proof.
  intros Ha. unfold align_down_to_page, align_up_to_page. rewrite bnot_mask_land by done.
  unfold PAGE_SIZE, is_usize, sat_add in *. pose proof (Z.div_mod a 4096 ltac:(lia)).
  pose proof (Z.mod_pos_bound a 4096 ltac:(lia)).
  set (t := Z.min USIZE_MAX (a + (4096 - 1))).
  pose proof (Z.div_mod t 4096 ltac:(lia)). pose proof (Z.mod_pos_bound t 4096 ltac:(lia)).
  rewrite wmul_small by lia. split_and!.
  - replace (a - a mod 4096) with (a / 4096 * 4096) by lia. by apply Z.mod_mul.
  - lia.
  - lia.
  - by apply Z.mod_mul.
  - lia.
  - intros. assert (t = USIZE_MAX) as -> by lia. reflexivity.
Qed.

(** The randomised mmap base offset is page aligned and below 256 MiB. *)
Theorem next_mmap_aslr_offset_bounds seq time :
  let off := (next_mmap_aslr_offset seq time).1 in
  0 <= off < MMAP_ASLR_RANGE /\ off mod PAGE_SIZE = 0.
Proof.
  unfold next_mmap_aslr_offset. change (MMAP_ASLR_RANGE / PAGE_SIZE) with 65536. simpl.
  generalize (mix_mmap_aslr_seed (Z.lxor time (rotate_left (wadd seq 1) 11))). intros m.
  pose proof (Z.mod_pos_bound m 65536 ltac:(lia)). unfold MMAP_ASLR_RANGE, PAGE_SIZE.
  rewrite wmul_small by lia. split; [lia|]. by apply Z.mod_mul.
Qed.
