(* ===== verification/FrameAlloc.v ===== *)
(** * Physical frames

    [mm/frame_allocator.rs]: the stack-like frame allocator over the memory
    ranges reported by the device tree, the reference counts of frames, and
    [FrameTracker] ([new], [clone], [drop]); with the shared page caches of
    [mm/memory_set/backing.rs] that own trackers and are reclaimed when an
    allocation fails.  A [panic!] is the [None] result. *)

From S2P Require Import Prelude BTree Address Ranges.

(** ** StackFrameAllocator *)

Record FrameRange := mkFrameRange { fr_start : Z; fr_current : Z; fr_end : Z }.
#[export] Instance fields_FrameRange : Fields FrameRange :=
  fun r => mkFrameRange (fr_start r) (fr_current r) (fr_end r).

Record StackFrameAllocator := mkAlloc {
  sf_ranges : list FrameRange;
  recycled : list Z;
  recycled_set : list (Z * unit);
  managed_pages : Z
}.
#[export] Instance fields_StackFrameAllocator : Fields StackFrameAllocator :=
  fun a => mkAlloc (sf_ranges a) (recycled a) (recycled_set a) (managed_pages a).

Module StackAlloc.

Definition new : StackFrameAllocator := mkAlloc [] [] [] 0.

Definition add_range (a : StackFrameAllocator) (l r : Z) : StackFrameAllocator :=
  if r <=? l then a
  else
    a {{ managed_pages := sat_add (managed_pages a) (sat_sub r l);
         sf_ranges := vec_push (sf_ranges a) (mkFrameRange l l r) }}.

Definition init (a : StackFrameAllocator) (l r : Z) : StackFrameAllocator :=
  add_range (a {{ sf_ranges := []; recycled := []; recycled_set := []; managed_pages := 0 }}) l r.

(** [for range in self.ranges.iter_mut() { if cond(range) { ...; return } }]:
    take [n] pages off the first range that satisfies [cond]. *)
Fixpoint take_first (cond : FrameRange -> bool) (n : Z) (rs : list FrameRange)
    : option (Z * list FrameRange) :=
  match rs with
  | [] => None
  | r :: rs' =>
      if cond r then Some (fr_current r, r {{ fr_current := wadd (fr_current r) n }} :: rs')
      else
        match take_first cond n rs' with
        | Some (p, rs'') => Some (p, r :: rs'')
        | None => None
        end
  end.

Definition alloc_contiguous (a : StackFrameAllocator) (pages : Z)
    : option Z * StackFrameAllocator :=
  if pages =? 0 then (None, a)
  else
    match take_first (fun r => sat_add (fr_current r) pages <=? fr_end r) pages (sf_ranges a) with
    | Some (start, rs) => (Some (phys_page_num start), a {{ sf_ranges := rs }})
    | None => (None, a)
    end.

Definition was_allocated (a : StackFrameAllocator) (ppn : Z) : bool :=
  existsb (fun r => (fr_start r <=? ppn) && (ppn <? fr_current r)) (sf_ranges a).

Definition alloc (a : StackFrameAllocator) : option Z * StackFrameAllocator :=
  match vec_pop (recycled a) with
  | Some (ppn, rest) =>
      (Some (phys_page_num ppn),
       a {{ recycled := rest; recycled_set := bs_remove (recycled_set a) ppn }})
  | None =>
      match take_first (fun r => fr_current r <? fr_end r) 1 (sf_ranges a) with
      | Some (ppn, rs) => (Some (phys_page_num ppn), a {{ sf_ranges := rs }})
      | None => (None, a)
      end
  end.

Definition dealloc (a : StackFrameAllocator) (ppn : Z) : option StackFrameAllocator :=
  if negb (was_allocated a ppn) || bs_contains (recycled_set a) ppn then None
  else
    Some (a {{ recycled_set := bs_insert (recycled_set a) ppn;
               recycled := vec_push (recycled a) ppn }}).

Definition frame_available_pages (a : StackFrameAllocator) : Z :=
  Z.of_nat (length (recycled a)) +
  foldr (fun r acc => sat_sub (fr_end r) (fr_current r) + acc) 0 (sf_ranges a).

(** *** Invariant *)

(** Page numbers are 44 bits wide. *)
Abbreviation PPN_MOD := 17592186044416.

Definition bounds (rs : list FrameRange) : list (Z * Z) :=
  map (fun r => (fr_start r, fr_end r)) rs.

(** Ranges given by their bounds do not overlap. *)
Definition disjoint_bounds (bs : list (Z * Z)) : Prop :=
  ForallOrdPairs (fun b1 b2 => b1.2 <= b2.1 \/ b2.2 <= b1.1) bs.

Definition range_ok (r : FrameRange) : Prop :=
  0 <= fr_start r <= fr_current r /\ fr_current r <= fr_end r <= PPN_MOD.

Record alloc_inv (a : StackFrameAllocator) : Prop := {
  inv_range_ok : Forall range_ok (sf_ranges a);
  inv_disjoint : disjoint_bounds (bounds (sf_ranges a));
  inv_nodup : NoDup (recycled a);
  inv_set_wf : bt_wf (recycled_set a);
  inv_set : forall p, p ∈ bs_iter (recycled_set a) <-> p ∈ recycled a;
  inv_recycled : forall p, p ∈ recycled a -> was_allocated a p = true
}.

(** Frames handed out and not given back. *)
Definition live (a : StackFrameAllocator) (p : Z) : Prop :=
  was_allocated a p = true /\ p ∉ recycled a.

(** Frames of some registered range. *)
Definition managed (a : StackFrameAllocator) (p : Z) : Prop :=
  exists r, r ∈ sf_ranges a /\ fr_start r <= p < fr_end r.

Lemma was_allocated_spec a p :
  was_allocated a p = true <-> exists r, r ∈ sf_ranges a /\ fr_start r <= p < fr_current r.
Proof.
  unfold was_allocated. rewrite existsb_exists. setoid_rewrite list_elem_of_In.
  split; intros (r & Hin & Hr); exists r; (split; [done|lia]).
Qed.

Lemma take_first_Some cond n rs p rs' :
  take_first cond n rs = Some (p, rs') ->
  exists r1 r r2, rs = r1 ++ r :: r2 /\ cond r = true /\ p = fr_current r /\
    rs' = r1 ++ r {{ fr_current := wadd (fr_current r) n }} :: r2.
Proof.
  revert rs'. induction rs as [|r rs IH]; intros rs'; simpl; [done|].
  destruct (cond r) eqn:E.
  - intros [= <- <-]. by exists [], r, rs.
  - destruct (take_first cond n rs) as [[q rs1]|]; [|done]. intros [= -> <-].
    destruct (IH rs1 eq_refl) as (r1 & r0 & r2 & -> & ? & ? & ->).
    by exists (r :: r1), r0, r2.
Qed.

Lemma take_first_None cond n rs :
  take_first cond n rs = None -> forall r, r ∈ rs -> cond r = false.
Proof.
  induction rs as [|r rs IH]; simpl.
  - intros _ r Hr. by apply elem_of_nil in Hr.
  - destruct (cond r) eqn:E; [done|]. destruct (take_first cond n rs) as [[??]|]; [done|].
    intros _ r' [->|?]%elem_of_cons; auto.
Qed.

(** Distinct ranges of the list have disjoint bounds. *)
Lemma disjoint_bounds_middle rs1 r rs2 r' :
  disjoint_bounds (bounds (rs1 ++ r :: rs2)) -> r' ∈ rs1 ++ rs2 ->
  fr_end r <= fr_start r' \/ fr_end r' <= fr_start r.
Proof.
  unfold disjoint_bounds, bounds. induction rs1 as [|r1 rs1 IH]; simpl; intros Hd Hin.
  - inversion Hd as [|?? Hall _]; subst. rewrite Forall_forall in Hall.
    apply (Hall (fr_start r', fr_end r')). apply list_elem_of_fmap. by exists r'.
  - inversion Hd as [|?? Hall Hd']; subst. apply elem_of_cons in Hin as [->|Hin]; [|auto].
    rewrite Forall_forall in Hall. specialize (Hall (fr_start r, fr_end r)). simpl in Hall.
    apply or_comm, Hall, list_elem_of_fmap. exists r. split; [done|].
    apply elem_of_app. right. by left.
Qed.

Lemma phys_page_num_small p : 0 <= p < PPN_MOD -> phys_page_num p = p.
Proof.
  intros. unfold phys_page_num. rewrite land_mask by done. by apply Z.mod_small.
Qed.

(** Taking [n] pages off a range: the invariant is kept, exactly the pages
    [[p, p + n)] become allocated, and none of them was. *)
Lemma take_first_alloc a cond n p rs' :
  alloc_inv a -> 0 < n ->
  (forall r, range_ok r -> cond r = true -> fr_current r + n <= fr_end r) ->
  take_first cond n (sf_ranges a) = Some (p, rs') ->
  let a' := a {{ sf_ranges := rs' }} in
  alloc_inv a' /\ 0 <= p /\ p + n <= PPN_MOD /\
  (forall q, managed a' q <-> managed a q) /\
  (forall q, p <= q < p + n -> was_allocated a q = false) /\
  (forall q, was_allocated a' q = true <-> was_allocated a q = true \/ p <= q < p + n).
Proof.
  intros Hi Hn Hcond Ht. apply take_first_Some in Ht as (r1 & r & r2 & Hrs & Hc & -> & ->).
  destruct Hi as [Hok Hdis Hnd Hwf Hset Hrec]. rewrite Hrs in Hok, Hdis.
  assert (range_ok r) as Hr by (rewrite Forall_forall in Hok; apply Hok; apply elem_of_app; right; by left).
  specialize (Hcond r Hr Hc). unfold range_ok in Hr. rewrite wadd_small by lia.
  set (r' := assign fr_current _ r).
  assert (forall q, (exists x, x ∈ r1 ++ r' :: r2 /\ fr_start x <= q < fr_current x) <->
    (exists x, x ∈ r1 ++ r :: r2 /\ fr_start x <= q < fr_current x) \/
      fr_current r <= q < fr_current r + n) as Hwas.
  { intros q. setoid_rewrite elem_of_app. setoid_rewrite elem_of_cons. split.
    - intros (x & [?|[->|?]] & Hx); [by eauto 10| |by eauto 10]. simpl in Hx.
      destruct (decide (q < fr_current r)); [left; exists r; eauto with lia|right; lia].
    - intros [(x & [?|[->|?]] & Hx)|Hq]; [by eauto 10| |by eauto 10|];
        exists r'; (split; [tauto|simpl; lia]). }
  assert (forall q, fr_current r <= q < fr_current r + n -> was_allocated a q = false) as Hfresh.
  { intros q Hq. apply not_true_iff_false. rewrite was_allocated_spec, Hrs. intros (x & Hx & Hxq).
    assert (x = r \/ x ∈ r1 ++ r2) as [->|Hx2]
      by (rewrite elem_of_app, elem_of_cons in Hx; rewrite elem_of_app; tauto); [lia|].
    pose proof (disjoint_bounds_middle r1 r r2 x Hdis Hx2).
    rewrite Forall_forall in Hok. specialize (Hok x Hx). unfold range_ok in Hok. lia. }
  assert (forall q, was_allocated (a {{ sf_ranges := r1 ++ r' :: r2 }}) q = true <->
    was_allocated a q = true \/ fr_current r <= q < fr_current r + n) as Hwas'.
  { intros q. rewrite !was_allocated_spec, Hrs. apply Hwas. }
  split; [|split_and!; [lia|lia| |done|done]].
  - constructor; simpl; [| |done|done|done|].
    + apply Forall_app in Hok as [Hok1 Hok2]. apply Forall_app. split; [done|].
      inversion Hok2; subst. constructor; [|done]. unfold range_ok; simpl. lia.
    + unfold bounds in *. rewrite map_app in *. apply Hdis.
    + intros q Hq. apply Hwas'. left. by apply Hrec.
  - intros q. unfold managed; simpl. rewrite Hrs. setoid_rewrite elem_of_app.
    setoid_rewrite elem_of_cons. split; intros (x & [?|[->|?]] & Hx); simpl in Hx; eauto 10.
Qed.

(** Pages never handed out, summed over the ranges. *)
Definition tail_pages (rs : list FrameRange) : Z :=
  foldr (fun r acc => sat_sub (fr_end r) (fr_current r) + acc) 0 rs.

Lemma tail_pages_app rs1 rs2 : tail_pages (rs1 ++ rs2) = tail_pages rs1 + tail_pages rs2.
Proof. unfold tail_pages. induction rs1; simpl; lia. Qed.

Lemma take_first_tail cond n rs p rs' :
  Forall range_ok rs -> 0 <= n ->
  (forall r, range_ok r -> cond r = true -> fr_current r + n <= fr_end r) ->
  take_first cond n rs = Some (p, rs') -> tail_pages rs' = tail_pages rs - n.
Proof.
  intros Hok Hn Hcond (r1 & r & r2 & -> & Hc & -> & ->)%take_first_Some.
  apply Forall_app in Hok as [_ Hok]. inversion Hok as [|?? Hr _]; subst.
  specialize (Hcond r Hr Hc). unfold range_ok in Hr.
  rewrite !tail_pages_app. unfold tail_pages. simpl.
  rewrite wadd_small, !sat_sub_small by lia. lia.
Qed.

Lemma take_first_one_None rs :
  Forall range_ok rs -> take_first (fun r => fr_current r <? fr_end r) 1 rs = None ->
  tail_pages rs = 0 /\ forall r, r ∈ rs -> fr_current r = fr_end r.
Proof.
  intros Hok Hn. pose proof (take_first_None _ _ _ Hn) as Hall. simpl in Hall.
  rewrite Forall_forall in Hok. clear Hn.
  assert (forall r, r ∈ rs -> fr_current r = fr_end r) as Heq.
  { intros r Hr. specialize (Hall r Hr). specialize (Hok r Hr). unfold range_ok in Hok. lia. }
  split; [|done]. clear Hall Hok. induction rs as [|r rs IH]; [done|]. simpl.
  rewrite (Heq r) by (by left). rewrite IH; [unfold sat_sub; lia|].
  intros r' ?. apply Heq. by right.
Qed.

(** What a successful allocation of the pages [[p, p + n)] does: they were
    managed and not live, they become live, and nothing else changes. *)
Record allocates (a : StackFrameAllocator) (p n : Z) (a' : StackFrameAllocator) : Prop := {
  allocates_inv : alloc_inv a';
  allocates_bounds : 0 <= p /\ p + n <= PPN_MOD;
  allocates_managed : forall q, p <= q < p + n -> managed a q;
  allocates_fresh : forall q, p <= q < p + n -> ~ live a q;
  allocates_frame : forall q, managed a' q <-> managed a q;
  allocates_live : forall q, live a' q <-> live a q \/ p <= q < p + n;
  allocates_pages : frame_available_pages a' = frame_available_pages a - n
}.

Lemma take_first_allocates a cond n p rs' :
  alloc_inv a -> 0 < n ->
  (forall r, range_ok r -> cond r = true -> fr_current r + n <= fr_end r) ->
  take_first cond n (sf_ranges a) = Some (p, rs') ->
  allocates a p n (a {{ sf_ranges := rs' }}).
Proof.
  intros Hi Hn Hc Ht.
  pose proof (take_first_alloc a _ n p rs' Hi Hn Hc Ht) as (Hi' & ? & ? & Hm & Hf & Hw).
  pose proof (take_first_tail _ n _ p rs' (inv_range_ok a Hi) ltac:(lia) Hc Ht) as Htail.
  split; [done|done| | |done| |].
  - apply take_first_Some in Ht as (r1 & r & r2 & Hrs & Hcr & -> & _).
    pose proof (inv_range_ok a Hi) as Hok. rewrite Forall_forall in Hok.
    assert (r ∈ sf_ranges a) as Hr by (rewrite Hrs, elem_of_app; right; by left).
    specialize (Hok r Hr). specialize (Hc r Hok Hcr). unfold range_ok in Hok.
    intros q ?. exists r. split; [done|]. lia.
  - unfold live. intros q Hq [Hl _]. rewrite (Hf q Hq) in Hl. done.
  - intros q. unfold live. rewrite Hw. simpl. pose proof (Hf q) as Hfq.
    split; [tauto|]. intros [[? ?]|Hq]; (split; [tauto|]); [done|].
    intros Hrec%(inv_recycled a Hi). rewrite (Hfq Hq) in Hrec. done.
  - unfold frame_available_pages, tail_pages in *. simpl. lia.
Qed.

Lemma pop_recycled_allocates a p rest :
  alloc_inv a -> recycled a = rest ++ [p] ->
  allocates a p 1 (a {{ recycled := rest; recycled_set := bs_remove (recycled_set a) p }}).
Proof.
  intros [Hok Hdis Hnd Hwf Hset Hrec] Hpop.
  rewrite Hpop in Hnd. apply NoDup_app in Hnd as (Hnd & Hnot & _).
  assert (p ∉ rest) as Hp by (intros ?; eapply Hnot; [done|by left]).
  assert (forall q, q ∈ recycled a <-> q ∈ rest \/ q = p) as Hq
    by (intros q; rewrite Hpop, elem_of_app, list_elem_of_singleton; done).
  assert (was_allocated a p = true) as Hw by (apply Hrec, Hq; auto).
  pose proof Hw as (r & Hr & Hrp)%was_allocated_spec.
  rewrite Forall_forall in Hok. pose proof (Hok r Hr) as Hro. unfold range_ok in Hro.
  split; [|lia| | |done| |].
  - constructor; simpl; try done; [by apply Forall_forall|by apply bt_wf_remove| |].
    + intros q. rewrite bs_remove_elem, Hset, Hq by done.
      split; [tauto|]. intros Hin. split; [|auto]. by intros ->.
    + intros q ?. apply Hrec, Hq. auto.
  - intros q ?. exists r. split; [done|]. lia.
  - intros q ? [_ Hl]. apply Hl, Hq. right. lia.
  - intros q. unfold live, was_allocated; simpl. fold (was_allocated a q). rewrite Hq.
    destruct (decide (q = p)) as [->|]; [split; [lia|tauto]|].
    assert (~ p <= q < p + 1) by lia. tauto.
  - unfold frame_available_pages. simpl. rewrite Hpop, length_app. simpl. lia.
Qed.

(** One-page allocation.  Success allocates one page; failure happens only when
    every managed page is live, and changes nothing. *)
Lemma frame_alloc_spec a :
  alloc_inv a ->
  match alloc a with
  | (Some p, a') => allocates a p 1 a'
  | (None, a') => a' = a /\ frame_available_pages a = 0 /\ forall q, managed a q <-> live a q
  end.
Proof.
  intros Hi. unfold alloc. destruct (vec_pop (recycled a)) as [[p rest]|] eqn:Hpop.
  - apply vec_pop_Some in Hpop. pose proof (pop_recycled_allocates a p rest Hi Hpop) as Ha.
    destruct (allocates_bounds _ _ _ _ Ha). rewrite phys_page_num_small by lia. done.
  - apply vec_pop_None in Hpop.
    destruct (take_first _ 1 (sf_ranges a)) as [[p rs]|] eqn:Ht.
    + apply take_first_allocates in Ht as Ha; [|done|lia|intros; lia].
      destruct (allocates_bounds _ _ _ _ Ha). rewrite phys_page_num_small by lia. done.
    + destruct (take_first_one_None _ (inv_range_ok a Hi) Ht) as [Htail Hfull].
      split; [done|]. split.
      * unfold frame_available_pages, tail_pages in *. rewrite Hpop. simpl. lia.
      * intros q. unfold live, managed. rewrite was_allocated_spec, Hpop. split.
        -- intros (r & Hr & Hq). split; [|apply not_elem_of_nil]. exists r.
           split; [done|]. rewrite Hfull; done.
        -- intros [(r & Hr & Hq) _]. exists r. split; [done|]. rewrite <- Hfull; done.
Qed.

(** Contiguous allocation takes [pages] consecutive pages off one range, or
    changes nothing; it fails only when no range has that many pages left at
    its end. *)
Lemma alloc_contiguous_spec a pages :
  alloc_inv a -> 0 <= pages <= USIZE_MAX ->
  match alloc_contiguous a pages with
  | (Some p, a') => 0 < pages /\ allocates a p pages a'
  | (None, a') => a' = a /\ (pages = 0 \/
      forall r, r ∈ sf_ranges a -> fr_end r - fr_current r < pages)
  end.
Proof.
  intros Hi Hp. unfold alloc_contiguous. destruct (pages =? 0) eqn:E0; [split; [done|lia]|].
  destruct (take_first _ pages (sf_ranges a)) as [[p rs]|] eqn:Ht.
  - split; [lia|]. apply take_first_allocates in Ht as Ha; [|done|lia|].
    + destruct (allocates_bounds _ _ _ _ Ha). rewrite phys_page_num_small by lia. done.
    + unfold range_ok. intros. unfold sat_add in *. lia.
  - split; [done|]. right. intros r Hr. pose proof (take_first_None _ _ _ Ht r Hr) as Hf.
    pose proof (inv_range_ok a Hi) as Hok. rewrite Forall_forall in Hok.
    specialize (Hok r Hr). unfold range_ok, sat_add in *. simpl in Hf. lia.
Qed.

(** A page given back becomes available again; giving back a page that is not
    live panics. *)
Lemma frame_dealloc_spec a p :
  alloc_inv a ->
  match dealloc a p with
  | Some a' =>
      live a p /\ alloc_inv a' /\ (forall q, managed a' q <-> managed a q) /\
      (forall q, live a' q <-> live a q /\ q <> p) /\
      frame_available_pages a' = frame_available_pages a + 1
  | None => ~ live a p
  end.
Proof.
  intros [Hok Hdis Hnd Hwf Hset Hrec]. unfold dealloc, live.
  destruct (was_allocated a p) eqn:Hw; simpl; [|by intros []].
  destruct (bs_contains (recycled_set a) p) eqn:Hc.
  - apply bs_contains_elem, Hset in Hc; [|done]. tauto.
  - assert (p ∉ recycled a) as Hp.
    { intros Hin. apply Hset, bs_contains_elem in Hin; [|done]. congruence. }
    assert (forall q, q ∈ vec_push (recycled a) p <-> q ∈ recycled a \/ q = p) as Hq.
    { intros q. unfold vec_push. by rewrite elem_of_app, list_elem_of_singleton. }
    split_and!; try done.
    + constructor; simpl; try done.
      * unfold vec_push. apply NoDup_app. split_and!; [done| |apply NoDup_singleton].
        intros x Hx Hx'%list_elem_of_singleton. by subst.
      * by apply bt_wf_insert.
      * intros q. rewrite bs_insert_elem, Hset, Hq by done. tauto.
      * intros q [?| ->]%Hq; [by apply Hrec|done].
    + intros q. simpl. rewrite Hq.
      change (was_allocated (a {{ recycled_set := bs_insert (recycled_set a) p; recycled := vec_push (recycled a) p }}) q)
        with (was_allocated a q). tauto.
    + unfold frame_available_pages, vec_push. simpl. rewrite length_app. simpl. lia.
Qed.

(** ** Boot: [init_frame_allocator] *)

(** [config::MAX_RESERVED_MEMORY_REGIONS] and [MAX_PHYS_MEMORY_REGIONS]. *)
Definition MAX_RESERVED_MEMORY_REGIONS : nat := 16.
Definition MAX_PHYS_MEMORY_REGIONS : nat := 16.

(** The closure [add_exclusion]; the assertion fails when the array is full. *)
Definition add_exclusion (exclusions : ranges) (r : Z * Z) : option ranges :=
  let start := floor (phys_addr r.1) in
  let end_ := ceil (phys_addr r.2) in
  if end_ <=? start then Some exclusions
  else if Nat.ltb (length exclusions) (MAX_RESERVED_MEMORY_REGIONS + 1)
  then Some (vec_push exclusions (start, end_))
  else None.

Fixpoint add_exclusions (exclusions : ranges) (rs : list (Z * Z)) : option ranges :=
  match rs with
  | [] => Some exclusions
  | r :: rs' => exclusions' ← add_exclusion exclusions r; add_exclusions exclusions' rs'
  end.

(** One turn of the merge loop; [merged] is [exclusions[..merged_count]]. *)
Definition merge_exclusion (merged : ranges) (r : Z * Z) : ranges :=
  match last merged with
  | Some (ls, le) =>
      if r.1 <=? le then vec_push (removelast merged) (ls, Z.max le r.2)
      else vec_push merged r
  | None => vec_push merged r
  end.

Definition merge_exclusions (exclusions : ranges) : ranges :=
  foldl merge_exclusion [] (sort_by_key fst exclusions).

(** The loop over the exclusions for one physical range: the allocator and the
    cursor after it. *)
Fixpoint carve (exclusions : ranges) (cursor end_ppn : Z) (a : StackFrameAllocator)
    : Z * StackFrameAllocator :=
  match exclusions with
  | [] => (cursor, a)
  | (excluded_start, excluded_end) :: rest =>
      if excluded_end <=? cursor then carve rest cursor end_ppn a
      else if end_ppn <=? excluded_start then (cursor, a)
      else
        let a := if cursor <? excluded_start
                 then add_range a cursor (Z.min excluded_start end_ppn) else a in
        let cursor := Z.max cursor excluded_end in
        if end_ppn <=? cursor then (cursor, a) else carve rest cursor end_ppn a
  end.

Definition add_phys_range (exclusions : ranges) (a : StackFrameAllocator) (r : Z * Z)
    : StackFrameAllocator :=
  let start_ppn := ceil (phys_addr r.1) in
  let end_ppn := floor (phys_addr r.2) in
  if end_ppn <=? start_ppn then a
  else
    let (cursor, a) := carve exclusions start_ppn end_ppn a in
    if cursor <? end_ppn then add_range a cursor end_ppn else a.

(** [stext] and [ekernel] are the kernel image bounds, [reserved] and [mem] the
    ranges [for_each_reserved_range] and [for_each_phys_mem_range] visit. *)
Definition init_frame_allocator (stext ekernel : Z) (reserved mem : list (Z * Z))
    (a : StackFrameAllocator) : option StackFrameAllocator :=
  exclusions ← add_exclusions [] ((stext, ekernel) :: reserved);
  let merged := merge_exclusions exclusions in
  Some (foldl (add_phys_range merged) (init a 0 0) mem).

(** The pages of an exclusion and of a physical range. *)
Definition excluded_pages (r : Z * Z) : Z * Z := (floor (phys_addr r.1), ceil (phys_addr r.2)).
Definition memory_pages (r : Z * Z) : Z * Z := (ceil (phys_addr r.1), floor (phys_addr r.2)).

Lemma add_exclusions_spec acc rs ex :
  Forall (fun r => r.1 < r.2) acc -> add_exclusions acc rs = Some ex ->
  Forall (fun r => r.1 < r.2) ex /\
  forall x, covered ex x <-> covered acc x \/ covered (map excluded_pages rs) x.
Proof.
  revert acc. induction rs as [|r rs IH]; intros acc Hacc; simpl.
  - intros [= <-]. split; [done|]. intros x. rewrite covered_nil. tauto.
  - unfold add_exclusion. unfold excluded_pages at 1.
    generalize (floor (phys_addr r.1)), (ceil (phys_addr r.2)). intros s e.
    destruct (e <=? s) eqn:E; simpl.
    + intros Hex. destruct (IH _ Hacc Hex) as [Hne Hcov]. split; [done|].
      intros x. rewrite Hcov, covered_cons. assert (~ s <= x < e) by lia. tauto.
    + destruct (Nat.ltb _ _); simpl; [|done]. intros Hex. apply IH in Hex as [Hne Hcov].
      * split; [done|]. intros x. rewrite Hcov. unfold vec_push.
        rewrite covered_app, !covered_cons, covered_nil. tauto.
      * apply Forall_app. split; [done|]. constructor; [simpl; lia|constructor].
Qed.

(** The in-place merge is [normalize_ranges]. *)
Lemma merge_exclusions_normalize ex :
  Forall (fun r => r.1 < r.2) ex -> merge_exclusions ex = normalize_ranges ex.
Proof.
  intros Hne. unfold merge_exclusions, normalize_ranges.
  rewrite <- (sort_by_key_perm fst) in Hne. revert Hne. generalize (@nil (Z * Z)).
  induction (sort_by_key fst ex) as [|[s e] l IH]; intros acc Hne; [done|].
  inversion Hne as [|?? Hse Hne']; subst. simpl in *.
  rewrite <- IH by done. f_equal. unfold merge_exclusion, push_range_merged. simpl.
  destruct (e <=? s) eqn:E; [lia|done].
Qed.

Definition fresh_range (b : Z * Z) : FrameRange := mkFrameRange b.1 b.1 b.2.

Definition total (ps : ranges) : Z := foldr (fun b acc => b.2 - b.1 + acc) 0 ps.

Lemma total_app ps qs : total (ps ++ qs) = total ps + total qs.
Proof. unfold total. induction ps; simpl; lia. Qed.

(** [extends a ps a']: [a'] is [a] with the fresh ranges [ps] added. *)
Definition extends (a : StackFrameAllocator) (ps : ranges) (a' : StackFrameAllocator) : Prop :=
  sf_ranges a' = sf_ranges a ++ map fresh_range ps /\
  recycled a' = recycled a /\ recycled_set a' = recycled_set a /\ 0 <= total ps /\
  (managed_pages a' = managed_pages a + total ps \/
   USIZE_MAX <= managed_pages a + total ps /\ USIZE_MAX <= managed_pages a').

Lemma extends_refl a : extends a [] a.
Proof. unfold extends; simpl. rewrite app_nil_r. split_and!; try done. left. lia. Qed.

Lemma extends_trans a1 a2 a3 ps qs :
  extends a1 ps a2 -> extends a2 qs a3 -> extends a1 (ps ++ qs) a3.
Proof.
  unfold extends. intros (H1 & H2 & H3 & H7 & H8) (H4 & H5 & H6 & H9 & H10).
  rewrite map_app, app_assoc, total_app. split_and!; try congruence; lia.
Qed.

Lemma extends_add_range a l r : l < r -> extends a [(l, r)] (add_range a l r).
Proof.
  intros. unfold add_range. destruct (r <=? l) eqn:E; [lia|]. unfold extends, total. simpl.
  unfold sat_add, sat_sub. split_and!; try done; lia.
Qed.

(** Pages [ps] are increasing, non-empty and inside [[lo, hi)]. *)
Definition pieces_in (lo hi : Z) (ps : ranges) : Prop :=
  norm_from (lo - 1) ps /\ forall s e, (s, e) ∈ ps -> e <= hi.

Lemma pieces_in_nil lo hi : pieces_in lo hi [].
Proof. split; [done|]. by intros ?? ?%elem_of_nil. Qed.

Lemma pieces_in_cons lo hi s e ps :
  lo <= s -> s < e -> e <= hi -> pieces_in (e + 1) hi ps -> pieces_in lo hi ((s, e) :: ps).
Proof.
  intros ??? [Hn Hh]. split; [simpl; split_and!; [lia|lia|]|].
  - eapply norm_from_weaken; [|exact Hn]. lia.
  - intros s' e' [[= -> ->]|?]%elem_of_cons; eauto.
Qed.

Lemma pieces_in_weaken lo lo' hi ps : lo' <= lo -> pieces_in lo hi ps -> pieces_in lo' hi ps.
Proof. intros ? [Hn Hh]. split; [|done]. eapply norm_from_weaken; [|done]. lia. Qed.

(** [if c < end { add_range(c, end) }] *)
Definition add_piece (a : StackFrameAllocator) (c e : Z) : StackFrameAllocator :=
  if c <? e then add_range a c e else a.

Lemma add_piece_spec a c e :
  exists ps, extends a ps (add_piece a c e) /\ pieces_in c e ps /\
    (forall x, covered ps x <-> c <= x < e) /\
    (forall hi qs, e <= hi -> pieces_in (e + 1) hi qs -> pieces_in c hi (ps ++ qs)
                   \/ e <= c /\ ps = []).
Proof.
  unfold add_piece. destruct (c <? e) eqn:E.
  - exists [(c, e)]. split_and!; [apply extends_add_range; lia| | |].
    + apply pieces_in_cons; [lia..|apply pieces_in_nil].
    + intros x. rewrite covered_cons, covered_nil. tauto.
    + intros hi qs ??. left. by apply pieces_in_cons; try lia.
  - exists []. split_and!; [apply extends_refl|apply pieces_in_nil| |].
    + intros x. rewrite covered_nil. lia.
    + right. split; [lia|done].
Qed.

(** Covering [[cursor, hi)] minus the exclusions, one exclusion at a time. *)
Lemma uncovered_step cursor hi xs xe ex x :
  cursor < xe -> xs < xe -> norm_from xe ex ->
  cursor <= x < Z.min xs hi \/ Z.max cursor xe <= x < hi /\ ~ covered ex x <->
  cursor <= x < hi /\ ~ covered ((xs, xe) :: ex) x.
Proof.
  intros H1 H2 Hn. rewrite covered_cons. pose proof (norm_from_covered _ _ x Hn) as Hc. split.
  - intros [?|[? ?]]; (split; [lia|]); intros [?|Hce]; try lia; [apply Hc in Hce; lia|done].
  - intros [? Hno]. destruct (decide (x < xs)); [left; lia|right]. split; [|tauto].
    destruct (decide (x < xe)); [exfalso; apply Hno; left; lia|lia].
Qed.

(** The loop and the final [add_range]: over sorted, separated exclusions, they
    add exactly the pages of [[cursor, end_ppn)] that no exclusion covers. *)
Lemma carve_spec ex lo cursor end_ppn a :
  norm_from lo ex ->
  exists ps,
    extends a ps (let (c, a') := carve ex cursor end_ppn a in add_piece a' c end_ppn) /\
    pieces_in cursor end_ppn ps /\
    forall x, covered ps x <-> cursor <= x < end_ppn /\ ~ covered ex x.
Proof.
  revert lo cursor a. induction ex as [|[xs xe] ex IH]; intros lo cursor a Hn; simpl.
  - destruct (add_piece_spec a cursor end_ppn) as (ps & He & Hp & Hc & _). exists ps.
    split_and!; try done. intros x. rewrite Hc, covered_nil. tauto.
  - destruct Hn as (Hlo & Hx & Hn).
    destruct (xe <=? cursor) eqn:E1.
    { destruct (IH _ cursor a Hn) as (ps & He & Hp & Hc). exists ps. split_and!; try done.
      intros x. rewrite Hc, covered_cons. assert (cursor <= x -> ~ xs <= x < xe) by lia. tauto. }
    destruct (end_ppn <=? xs) eqn:E2.
    { destruct (add_piece_spec a cursor end_ppn) as (ps & He & Hp & Hc & _). exists ps.
      split_and!; try done.
      intros x. rewrite Hc, covered_cons. split; [|tauto]. intros Hr. split; [done|].
      intros [?|Hc']; [lia|]. apply (norm_from_covered _ _ _ Hn) in Hc'. lia. }
    assert ((if cursor <? xs then add_range a cursor (Z.min xs end_ppn) else a) =
      add_piece a cursor (Z.min xs end_ppn)) as ->.
    { unfold add_piece. destruct (cursor <? xs) eqn:?, (cursor <? Z.min xs end_ppn) eqn:?; lia || done. }
    destruct (add_piece_spec a cursor (Z.min xs end_ppn)) as (ps1 & He1 & Hp1 & Hc1 & Happ).
    set (a1 := add_piece a cursor _) in *.
    assert (exists ps2, extends a1 ps2 (let (c, a') := if end_ppn <=? Z.max cursor xe
        then (Z.max cursor xe, a1) else carve ex (Z.max cursor xe) end_ppn a1 in
        add_piece a' c end_ppn) /\ pieces_in (Z.max cursor xe) end_ppn ps2 /\
        forall x, covered ps2 x <-> Z.max cursor xe <= x < end_ppn /\ ~ covered ex x)
      as (ps2 & He2 & Hp2 & Hc2).
    { destruct (end_ppn <=? Z.max cursor xe) eqn:E3; [|by eapply IH].
      destruct (add_piece_spec a1 (Z.max cursor xe) end_ppn) as (ps & ? & ? & Hc & _).
      exists ps. split_and!; try done. intros x. rewrite Hc. lia. }
    exists (ps1 ++ ps2). split; [by eapply extends_trans|]. split.
    + destruct (Happ end_ppn ps2) as [?|[? ->]]; [lia| |done|].
      * eapply pieces_in_weaken; [|done]. lia.
      * eapply pieces_in_weaken; [|done]. lia.
    + intros x. rewrite covered_app, Hc1, Hc2. apply uncovered_step; [lia|done|done].
Qed.

(** Fresh ranges in which no page occurs twice keep the invariant. *)
Lemma extends_inv a ps a' :
  alloc_inv a -> extends a ps a' -> Forall (fun b => 0 <= b.1 < b.2 /\ b.2 <= PPN_MOD) ps ->
  disjoint_bounds (bounds (sf_ranges a) ++ ps) -> alloc_inv a'.
Proof.
  intros [Hok Hdis Hnd Hwf Hset Hrec] (Hr & Hrc & Hrs & _) Hps Hd.
  constructor; rewrite ?Hrc, ?Hrs, ?Hr; try done.
  - apply Forall_app. split; [done|]. apply Forall_fmap. eapply Forall_impl; [exact Hps|].
    intros b. unfold range_ok, compose; simpl. lia.
  - unfold bounds in *. rewrite map_app.
    assert (map (fun r => (fr_start r, fr_end r)) (map fresh_range ps) = ps) as ->; [|done].
    clear. induction ps as [|[s e] ps IH]; simpl; congruence.
  - intros p Hp%Hrec. rewrite was_allocated_spec in *. rewrite Hr.
    destruct Hp as (r & ? & ?). exists r. rewrite elem_of_app. auto.
Qed.

Lemma disjoint_bounds_app ps qs :
  disjoint_bounds ps -> disjoint_bounds qs ->
  (forall b1 b2, b1 ∈ ps -> b2 ∈ qs -> b1.2 <= b2.1 \/ b2.2 <= b1.1) ->
  disjoint_bounds (ps ++ qs).
Proof.
  unfold disjoint_bounds. induction ps as [|b ps IH]; simpl; intros Hp Hq Hc; [done|].
  inversion Hp as [|?? Hall Hp']; subst. constructor.
  - apply Forall_app. split; [done|]. apply Forall_forall. intros b2 ?. apply Hc; [by left|done].
  - apply IH; [done|done|]. intros b1 b2 ??. apply Hc; [by right|done].
Qed.

Lemma norm_from_disjoint lo ps : norm_from lo ps -> disjoint_bounds ps.
Proof.
  revert lo. induction ps as [|[s e] ps IH]; intros lo; simpl; [constructor|].
  intros (? & ? & Hn). constructor; [|by eapply IH]. apply Forall_forall.
  intros [s' e'] Hin. simpl. left.
  assert (e < s' /\ s' < e'); [|lia]. clear - Hn Hin. revert e Hn.
  induction ps as [|[s0 e0] ps IH]; intros e Hn; [by apply elem_of_nil in Hin|].
  destruct Hn as (? & ? & Hn). apply elem_of_cons in Hin as [[= -> ->]|Hin]; [lia|].
  destruct (IH Hin _ Hn). lia.
Qed.

Lemma pieces_in_elem lo hi ps s e : pieces_in lo hi ps -> (s, e) ∈ ps -> lo <= s < e /\ e <= hi.
Proof.
  intros [Hn Hh] Hin. specialize (Hh _ _ Hin). split; [|done]. clear Hh. revert lo Hn.
  induction ps as [|[s0 e0] ps IH]; intros lo Hn; [by apply elem_of_nil in Hin|].
  destruct Hn as (? & ? & Hn). apply elem_of_cons in Hin as [[= -> ->]|Hin]; [lia|].
  replace e0 with (e0 + 1 - 1) in Hn by lia. specialize (IH Hin _ Hn). lia.
Qed.

Lemma pieces_in_total lo hi ps : lo <= hi -> pieces_in lo hi ps -> total ps <= hi - lo.
Proof.
  unfold total. revert lo. induction ps as [|[s e] ps IH]; intros lo Hlh Hp; simpl; [lia|].
  pose proof (pieces_in_elem _ _ _ s e Hp ltac:(by left)). destruct Hp as [(? & ? & Hn) Hh].
  specialize (IH e ltac:(lia)). assert (pieces_in e hi ps); [|specialize (IH ltac:(done)); lia].
  split; [eapply norm_from_weaken; [|done]; lia|]. intros s' e' ?. eapply Hh. by right.
Qed.

Lemma phys_addr_range v : 0 <= phys_addr v < 72057594037927936.
Proof.
  unfold phys_addr. rewrite land_mask by done. apply (Z.mod_pos_bound v (2 ^ PA_WIDTH)). done.
Qed.

Lemma memory_pages_range r : 0 <= (memory_pages r).1 /\ (memory_pages r).2 <= PPN_MOD.
Proof.
  unfold memory_pages. simpl. pose proof (phys_addr_range r.1). pose proof (phys_addr_range r.2).
  rewrite ceil_eq by lia. unfold floor. change PAGE_SIZE with 4096. split; [apply Z.div_pos; lia|].
  apply Z.div_le_upper_bound; lia.
Qed.

(** One physical range: exactly its whole pages outside the exclusions are
    added. *)
Lemma add_phys_range_spec ex lo a r :
  norm_from lo ex ->
  exists ps, extends a ps (add_phys_range ex a r) /\
    (forall s e, (s, e) ∈ ps -> (memory_pages r).1 <= s < e /\ e <= (memory_pages r).2) /\
    disjoint_bounds ps /\ total ps <= PPN_MOD /\
    forall x, covered ps x <-> covered [memory_pages r] x /\ ~ covered ex x.
Proof.
  intros Hn. unfold add_phys_range. pose proof (memory_pages_range r) as Hr.
  change (ceil (phys_addr r.1)) with (memory_pages r).1.
  change (floor (phys_addr r.2)) with (memory_pages r).2.
  destruct ((memory_pages r).2 <=? (memory_pages r).1) eqn:E.
  - exists []. split_and!; [apply extends_refl|by intros ?? ?%elem_of_nil|constructor|done|].
    intros x. destruct (memory_pages r) as [s e]. rewrite covered_cons, covered_nil. simpl in E.
    split; [done|]. intros [[?|[]] _]. lia.
  - destruct (carve_spec ex lo (memory_pages r).1 (memory_pages r).2 a Hn) as (ps & He & Hp & Hc).
    exists ps. split_and!.
    + exact He.
    + intros s e ?. by eapply pieces_in_elem.
    + destruct Hp as [Hp _]. by eapply norm_from_disjoint.
    + apply pieces_in_total in Hp; lia.
    + intros x. rewrite Hc. destruct (memory_pages r) as [s e].
      rewrite covered_cons, covered_nil. simpl. tauto.
Qed.

Lemma add_phys_ranges_spec ex lo a mem :
  norm_from lo ex -> disjoint_bounds (map memory_pages mem) ->
  exists ps, extends a ps (foldl (add_phys_range ex) a mem) /\
    (forall s e, (s, e) ∈ ps ->
       exists r, r ∈ mem /\ (memory_pages r).1 <= s < e /\ e <= (memory_pages r).2) /\
    disjoint_bounds ps /\ total ps <= Z.of_nat (length mem) * PPN_MOD /\
    forall x, covered ps x <-> covered (map memory_pages mem) x /\ ~ covered ex x.
Proof.
  intros Hn. revert a. induction mem as [|r mem IH]; intros a Hd.
  - exists []. split_and!; [apply extends_refl|by intros ?? ?%elem_of_nil|constructor|done|].
    intros x. simpl. rewrite !covered_nil. tauto.
  - inversion Hd as [|?? Hall Hd']; subst.
    destruct (add_phys_range_spec ex lo a r Hn) as (ps & He & Hin & Hdp & Ht & Hc).
    destruct (IH (add_phys_range ex a r) Hd') as (qs & He' & Hin' & Hdq & Ht' & Hc').
    exists (ps ++ qs). split_and!.
    + by eapply extends_trans.
    + intros s e [Hp|Hq]%elem_of_app.
      * exists r. split; [by left|]. by apply Hin.
      * destruct (Hin' _ _ Hq) as (r' & ? & ?). exists r'. split; [by right|done].
    + apply disjoint_bounds_app; [done|done|]. intros [s1 e1] [s2 e2] Hp Hq. simpl.
      apply Hin in Hp. apply Hin' in Hq as (r' & Hr' & Hq). rewrite Forall_forall in Hall.
      assert (memory_pages r' ∈ map memory_pages mem) as Hm by (apply list_elem_of_fmap; by exists r').
      specialize (Hall _ Hm). lia.
    + rewrite total_app. simpl length. lia.
    + intros x. simpl. rewrite covered_app, Hc, Hc'. destruct (memory_pages r) as [s e].
      rewrite !covered_cons, covered_nil. tauto.
Qed.

Lemma init_inv a : alloc_inv (init a 0 0).
Proof.
  constructor; simpl; [constructor|constructor|apply NoDup_nil_2|apply bt_wf_nil|done|].
  by intros p ?%elem_of_nil.
Qed.

(** What boot leaves: the allocator invariant, no live page, every managed page
    available, and the managed pages are the whole pages of physical memory that
    touch neither the kernel image nor a reserved range. *)
Lemma init_frame_allocator_spec stext ekernel reserved mem a0 a :
  disjoint_bounds (map memory_pages mem) ->
  (length mem <= MAX_PHYS_MEMORY_REGIONS)%nat ->
  init_frame_allocator stext ekernel reserved mem a0 = Some a ->
  alloc_inv a /\ (forall p, ~ live a p) /\ frame_available_pages a = managed_pages a /\
  forall p, managed a p <->
    covered (map memory_pages mem) p /\ ~ covered (map excluded_pages ((stext, ekernel) :: reserved)) p.
Proof.
  intros Hd Hlen Hinit. unfold init_frame_allocator in Hinit.
  destruct (add_exclusions [] _) as [ex|] eqn:Hex; simpl in Hinit; [|done]. injection Hinit as <-.
  apply add_exclusions_spec in Hex as [Hne Hcov]; [|constructor].
  rewrite merge_exclusions_normalize by done.
  destruct (normalize_ranges_spec ex) as [[lo Hn] Hcov'].
  destruct (add_phys_ranges_spec _ lo (init a0 0 0) mem Hn Hd) as (ps & He & Hin & Hdp & Ht & Hc).
  set (a := foldl _ _ _) in *.
  assert (alloc_inv a) as Hi.
  { eapply extends_inv; [apply (init_inv a0)|exact He| |exact Hdp].
    apply Forall_forall. intros [s e] (r & _ & Hr)%Hin. pose proof (memory_pages_range r). simpl. lia. }
  destruct He as (Hr & Hrc & _ & Hpos & Hm). simpl in Hr, Hrc, Hm.
  split; [done|]. split; [|split].
  - intros p [Hw _]. apply was_allocated_spec in Hw as (r & Hin' & Hp). rewrite Hr in Hin'.
    apply list_elem_of_fmap in Hin' as (b & -> & _). simpl in Hp. lia.
  - assert (tail_pages (sf_ranges a) = total ps) as Heq.
    { rewrite Hr. clear - Hin. induction ps as [|[s e] ps IH]; [done|].
      unfold tail_pages, total in *. simpl. rewrite IH.
      - destruct (Hin s e) as (? & _ & ?); [by left|]. rewrite sat_sub_small by lia. lia.
      - intros ???. apply Hin. by right. }
    unfold frame_available_pages. fold (tail_pages (sf_ranges a)). rewrite Heq, Hrc. simpl.
    unfold MAX_PHYS_MEMORY_REGIONS in Hlen. lia.
  - intros p. transitivity (covered ps p).
    + unfold managed, covered. rewrite Hr. setoid_rewrite list_elem_of_fmap. split.
      * intros (r & ([s e] & -> & ?) & ?). eauto.
      * intros (s & e & ? & ?). exists (fresh_range (s, e)). split; [by exists (s, e)|done].
    + rewrite Hc, Hcov', Hcov, covered_nil. tauto.
Qed.

Lemma add_exclusions_total acc rs :
  (length acc + length rs <= MAX_RESERVED_MEMORY_REGIONS + 1)%nat ->
  exists ex, add_exclusions acc rs = Some ex.
Proof.
  revert acc. induction rs as [|r rs IH]; intros acc Hl; simpl in *; [eauto|].
  unfold add_exclusion. case_if; simpl; [apply IH; lia|].
  destruct (Nat.ltb_spec (length acc) 17) as [|H]; simpl in *; [|lia].
  apply IH. unfold vec_push. rewrite length_app. simpl. lia.
Qed.

(** Boot succeeds when the reserved ranges fit the table of exclusions, and
    leaves the allocator invariant, no live page, every managed page available;
    the managed pages are the whole pages of physical memory that touch neither
    the kernel image nor a reserved range. *)
Theorem init_frame_allocator_correct stext ekernel reserved mem a0 :
  disjoint_bounds (map memory_pages mem) ->
  (length mem <= MAX_PHYS_MEMORY_REGIONS)%nat -> (length reserved <= MAX_RESERVED_MEMORY_REGIONS)%nat ->
  exists a, init_frame_allocator stext ekernel reserved mem a0 = Some a /\
  alloc_inv a /\ (forall p, ~ live a p) /\ frame_available_pages a = managed_pages a /\
  forall p, managed a p <->
    covered (map memory_pages mem) p /\ ~ covered (map excluded_pages ((stext, ekernel) :: reserved)) p.
Proof.
  intros Hd Hm Hr. destruct (add_exclusions_total [] ((stext, ekernel) :: reserved)) as [ex Hex];
    [unfold MAX_RESERVED_MEMORY_REGIONS in *; simpl; lia|].
  assert (exists a, init_frame_allocator stext ekernel reserved mem a0 = Some a) as [a Ha]
    by (unfold init_frame_allocator; rewrite Hex; by eexists).
  exists a. split; [done|]. by apply (init_frame_allocator_spec stext ekernel reserved mem a0).
Qed.

End StackAlloc.

(** ** FrameTracker and the reference counts

    A tracker is its page number.  [fw_mem] is the content of the frames,
    [fw_rc] is [FRAME_REFCOUNTS]. *)

Record Frames := mkFrames {
  fw_alloc : StackFrameAllocator;
  fw_rc : gmap Z Z;
  fw_mem : Z -> list Z
}.
#[export] Instance fields_Frames : Fields Frames :=
  fun w => mkFrames (fw_alloc w) (fw_rc w) (fw_mem w).

Module Tracker.

Definition zero_page : list Z := replicate 4096 0.

(** [*ppn.get_bytes_array() = bytes] *)
Definition set_page (m : Z -> list Z) (p : Z) (bytes : list Z) : Z -> list Z :=
  fun q => if q =? p then bytes else m q.

(** [FrameTracker::new] *)
Definition new (w : Frames) (ppn : Z) : Frames :=
  w {{ fw_mem := set_page (fw_mem w) ppn zero_page; fw_rc := <[ppn := 1]> (fw_rc w) }}.

Definition clone (w : Frames) (ppn : Z) : Frames :=
  w {{ fw_rc := <[ppn := wadd (unwrap_or (fw_rc w !! ppn) 0) 1]> (fw_rc w) }}.

Definition drop (w : Frames) (ppn : Z) : option Frames :=
  match fw_rc w !! ppn with
  | None => Some w
  | Some cnt =>
      if cnt <=? 1 then
        a ← StackAlloc.dealloc (fw_alloc w) ppn;
        Some (w {{ fw_rc := delete ppn (fw_rc w); fw_alloc := a }})
      else Some (w {{ fw_rc := <[ppn := wsub cnt 1]> (fw_rc w) }})
  end.

Definition frame_refcount (w : Frames) (ppn : Z) : Z := unwrap_or (fw_rc w !! ppn) 0.

(** [for i in 0..pages { frames.push(FrameTracker::new(start + i)) }] *)
Fixpoint new_many (w : Frames) (start : Z) (n : nat) : Frames :=
  match n with
  | O => w
  | S n' => new_many (new w start) (wadd start 1) n'
  end.

Definition frame_alloc_contiguous (w : Frames) (pages : Z) : option (list Z) * Frames :=
  match StackAlloc.alloc_contiguous (fw_alloc w) pages with
  | (None, a) => (None, w {{ fw_alloc := a }})
  | (Some start, a) =>
      (Some (seqZ start pages), new_many (w {{ fw_alloc := a }}) start (Z.to_nat pages))
  end.

(** *** Ownership

    [T] is the multiset of the trackers in existence.  A frame is live exactly
    when some tracker refers to it, and its count is the number of them. *)

Definition count (T : list Z) (p : Z) : Z := Z.of_nat (count_occ Z.eq_dec T p).

Record owns (w : Frames) (T : list Z) : Prop := {
  owns_alloc : StackAlloc.alloc_inv (fw_alloc w);
  owns_live : forall p, StackAlloc.live (fw_alloc w) p <-> p ∈ T;
  owns_rc : forall p, fw_rc w !! p = if count T p =? 0 then None else Some (count T p)
}.

Lemma count_cons T p q : count (p :: T) q = (if decide (p = q) then 1 else 0) + count T q.
Proof. unfold count. simpl. destruct (Z.eq_dec p q), (decide (p = q)); lia. Qed.

Lemma count_elem T p : p ∈ T <-> 0 < count T p.
Proof.
  unfold count. rewrite list_elem_of_In, (count_occ_In Z.eq_dec). lia.
Qed.

Lemma count_nonneg T p : 0 <= count T p.
Proof. unfold count. lia. Qed.

Lemma count_length T p : count T p <= Z.of_nat (length T).
Proof. unfold count. induction T as [|q T IH]; simpl; [lia|]. destruct (Z.eq_dec q p); lia. Qed.

#[global] Instance owns_perm_proper w : Proper (Permutation ==> iff) (owns w).
Proof.
  assert (forall T T', T ≡ₚ T' -> owns w T -> owns w T') as H.
  { intros T T' Hp [Ha Hl Hr]. split; [done| |].
    - intros p. by rewrite Hl, Hp.
    - intros p. rewrite Hr. unfold count. by rewrite (Permutation_count_occ Z.eq_dec) in Hp; rewrite Hp. }
  intros T T' Hp. split; apply H; [done|by symmetry].
Qed.

(** A tracker made for freshly allocated pages. *)
Lemma new_owns w T p a :
  owns w T -> StackAlloc.allocates (fw_alloc w) p 1 a ->
  owns (new (w {{ fw_alloc := a }}) p) (p :: T) /\ p ∉ T.
Proof.
  intros [Ha Hl Hr] [Hinv Hb Hm Hf Hfr Hlv Hpg].
  assert (p ∉ T) as Hp by (rewrite <- Hl; apply Hf; lia). split; [|done]. split; simpl.
  - done.
  - intros q. rewrite Hlv, Hl, elem_of_cons. split; [intros [?|?]; [by right|left; lia]|].
    intros [->|?]; [right; lia|by left].
  - intros q. rewrite count_cons. destruct (decide (p = q)) as [->|Hne].
    + rewrite lookup_insert_eq. rewrite count_elem in Hp. pose proof (count_nonneg T q).
      replace (count T q) with 0 by lia. done.
    + by rewrite lookup_insert_ne, Hr by done.
Qed.

Lemma clone_owns w T p :
  owns w T -> p ∈ T -> Z.of_nat (length T) < USIZE_MAX -> owns (clone w p) (p :: T).
Proof.
  intros [Ha Hl Hr] Hp Hlen. pose proof (count_length T p). pose proof (proj1 (count_elem T p) Hp).
  split; simpl; [done| |].
  - intros q. rewrite Hl, elem_of_cons. split; [auto|]. by intros [->|?].
  - intros q. rewrite count_cons. destruct (decide (p = q)) as [<-|Hne].
    + rewrite lookup_insert_eq, Hr. destruct (count T p =? 0) eqn:E; [lia|]. simpl.
      rewrite wadd_small by lia. destruct (1 + count T p =? 0) eqn:E'; [lia|]. f_equal. lia.
    + by rewrite lookup_insert_ne, Hr by done.
Qed.

(** Same frame contents, same managed pages. *)
Definition same_memory (w w' : Frames) : Prop :=
  fw_mem w' = fw_mem w /\
  forall q, StackAlloc.managed (fw_alloc w') q <-> StackAlloc.managed (fw_alloc w) q.

(** Dropping a tracker never panics; the frame is freed with its last one. *)
Lemma drop_owns w T p :
  owns w (p :: T) -> Z.of_nat (length T) < USIZE_MAX ->
  exists w', drop w p = Some w' /\ owns w' T /\ same_memory w w'.
Proof.
  intros [Ha Hl Hr] Hlen. unfold drop. pose proof (count_nonneg T p) as Hc0.
  pose proof (count_length T p) as Hc1.
  pose proof (Hr p) as Hrp. rewrite count_cons in Hrp. destruct (decide (p = p)); [|done].
  destruct (1 + count T p =? 0) eqn:E0; [lia|]. rewrite Hrp.
  destruct (1 + count T p <=? 1) eqn:E1.
  - pose proof (StackAlloc.frame_dealloc_spec (fw_alloc w) p Ha) as Hd.
    assert (StackAlloc.live (fw_alloc w) p) as Hlp by (apply Hl; left).
    destruct (StackAlloc.dealloc (fw_alloc w) p) as [a|]; [|done]. simpl.
    destruct Hd as (_ & Ha' & Hm' & Hl' & _). eexists. split; [done|]. split; [|done]. split; simpl.
    + done.
    + assert (p ∉ T) by (rewrite count_elem; lia).
      intros q. rewrite Hl', Hl, elem_of_cons. destruct (decide (q = p)) as [->|]; tauto.
    + intros q. destruct (decide (p = q)) as [<-|Hne].
      * rewrite lookup_delete_eq. destruct (count T p =? 0) eqn:?; [done|lia].
      * rewrite lookup_delete_ne, Hr, count_cons by done. by destruct (decide (p = q)).
  - eexists. split; [done|]. split; [|done]. split; simpl; [done| |].
    + intros q. rewrite Hl, elem_of_cons. assert (p ∈ T) by (rewrite count_elem; lia).
      split; [|auto]. by intros [->|?].
    + intros q. destruct (decide (p = q)) as [<-|Hne].
      * rewrite lookup_insert_eq, wsub_small by lia. destruct (count T p =? 0) eqn:?; [lia|].
        f_equal. lia.
      * rewrite lookup_insert_ne, Hr, count_cons by done. by destruct (decide (p = q)).
Qed.

Lemma new_many_spec w start n :
  0 <= start -> start + Z.of_nat n <= StackAlloc.PPN_MOD ->
  fw_alloc (new_many w start n) = fw_alloc w /\
  forall q,
    (fw_rc (new_many w start n) !! q = if (start <=? q) && (q <? start + Z.of_nat n)
                                       then Some 1 else fw_rc w !! q) /\
    (fw_mem (new_many w start n) q = if (start <=? q) && (q <? start + Z.of_nat n)
                                     then zero_page else fw_mem w q).
Proof.
  revert w start. induction n as [|n IH]; intros w start H0 H1.
  - split; [done|]. intros q. destruct (_ && _) eqn:E; [lia|done].
  - change (new_many w start (S n)) with (new_many (new w start) (wadd start 1) n).
    rewrite wadd_small by lia.
    destruct (IH (new w start) (start + 1)) as [Ha Hq]; [lia..|]. rewrite Ha. split; [done|].
    intros q. destruct (Hq q) as [-> ->]. simpl. unfold set_page.
    destruct (decide (start = q)) as [<-|].
    + rewrite lookup_insert_eq.
      replace (start + 1 <=? start) with false by lia. replace (start <=? start) with true by lia.
      replace (start <? start + Z.of_nat (S n)) with true by lia.
      replace (start =? start) with true by lia. done.
    + rewrite lookup_insert_ne by done. replace (q =? start) with false by lia.
      replace ((start + 1 <=? q) && (q <? start + 1 + Z.of_nat n)) with
        ((start <=? q) && (q <? start + Z.of_nat (S n))) by lia. done.
Qed.

Lemma count_seqZ T start n q :
  0 <= n -> count (seqZ start n ++ T) q =
  (if (start <=? q) && (q <? start + n) then 1 else 0) + count T q.
Proof.
  intros Hn. unfold count. rewrite count_occ_app.
  assert (Z.of_nat (count_occ Z.eq_dec (seqZ start n) q) =
    if (start <=? q) && (q <? start + n) then 1 else 0); [|lia].
  destruct (_ && _) eqn:E.
  - pose proof (NoDup_ListNoDup (seqZ start n)) as [Hnd _]. specialize (Hnd (NoDup_seqZ _ _)).
    apply (NoDup_count_occ' Z.eq_dec) with (x := q) in Hnd; [lia|].
    apply list_elem_of_In, elem_of_seqZ. lia.
  - rewrite (proj1 (count_occ_not_In Z.eq_dec _ _)); [done|].
    rewrite <- list_elem_of_In, elem_of_seqZ. lia.
Qed.

(** Contiguous allocation: [pages] consecutive frames, all zeroed, each with
    one tracker, none of them owned before. *)
Lemma frame_alloc_contiguous_owns w T pages :
  owns w T -> 0 <= pages <= USIZE_MAX ->
  match frame_alloc_contiguous w pages with
  | (Some fs, w') =>
      exists start, fs = seqZ start pages /\ owns w' (fs ++ T) /\
        (forall p, p ∈ fs -> p ∉ T /\ fw_mem w' p = zero_page) /\
        (forall p, p ∈ T -> fw_mem w' p = fw_mem w p)
  | (None, w') => w' = w
  end.
Proof.
  intros Ho Hp. unfold frame_alloc_contiguous. pose proof Ho as [Ha Hl Hr].
  pose proof (StackAlloc.alloc_contiguous_spec (fw_alloc w) pages Ha Hp) as Hs.
  destruct (StackAlloc.alloc_contiguous (fw_alloc w) pages) as [[start|] a].
  - destruct Hs as [Hpos [Hinv Hb Hm Hf Hfr Hlv Hpg]]. exists start. split; [done|].
    destruct (new_many_spec (w {{ fw_alloc := a }}) start (Z.to_nat pages)) as [Hwa Hq]; [lia..|].
    rewrite !Z2Nat.id in Hq by lia.
    assert (forall p, p ∈ seqZ start pages -> p ∉ T) as Hno.
    { intros p ?%elem_of_seqZ. rewrite <- Hl. apply Hf. lia. }
    split; [|split].
    + split.
      * by rewrite Hwa.
      * intros p. rewrite Hwa. simpl. rewrite Hlv, Hl, elem_of_app, elem_of_seqZ. tauto.
      * intros p. destruct (Hq p) as [-> _]. rewrite count_seqZ by lia. simpl. rewrite Hr.
        destruct (_ && _) eqn:E; [|done]. specialize (Hno p). rewrite elem_of_seqZ, count_elem in Hno.
        pose proof (count_nonneg T p). replace (count T p) with 0 by lia. done.
    + intros p Hin. split; [by apply Hno|]. destruct (Hq p) as [_ ->].
      rewrite elem_of_seqZ in Hin. destruct (_ && _) eqn:E; [done|lia].
    + intros p Hin. destruct (Hq p) as [_ ->]. destruct (_ && _) eqn:E; [|done].
      exfalso. apply (Hno p); [apply elem_of_seqZ; lia|done].
  - destruct Hs as [-> _]. by destruct w.
Qed.

End Tracker.
