(* ===== verification/PageCache.v ===== *)
(** * Shared page caches and frame allocation

    [mm/memory_set/backing.rs]: the global caches of shared file pages and of
    shared anonymous pages, each entry owning a frame tracker, and
    [mm/frame_allocator.rs]'s [frame_alloc], which reclaims unreferenced file
    pages when the allocator is empty. *)

From S2P Require Import Prelude BTree Address Ranges FrameAlloc.

Record PageCache := mkPageCache {
  pc_frames : Frames;
  file_cache : list ((Z * Z * Z) * Z);
  anon_cache : list ((Z * Z) * Z);
  next_shared_anon_id : Z
}.
#[export] Instance fields_PageCache : Fields PageCache :=
  fun c => mkPageCache (pc_frames c) (file_cache c) (anon_cache c) (next_shared_anon_id c).

Definition shared_file_page_key (dev ino file_page : Z) : Z * Z * Z := (dev, ino, file_page).
Definition shared_anon_page_key (id page : Z) : Z * Z := (id, page).

(** [fetch_add] returns the value before the addition. *)
Definition allocate_shared_anon_id (c : PageCache) : Z * PageCache :=
  (next_shared_anon_id c, c {{ next_shared_anon_id := wadd (next_shared_anon_id c) 1 }}).

Definition shared_file_page_cache_get (c : PageCache) (dev ino file_page : Z)
    : option Z * PageCache :=
  match bt_get (file_cache c) (shared_file_page_key dev ino file_page) with
  | Some p => (Some p, c {{ pc_frames := Tracker.clone (pc_frames c) p }})
  | None => (None, c)
  end.

(** [entry(key).or_insert(frame).clone()]: on an occupied entry the tracker
    passed in is dropped. *)
Definition shared_file_page_cache_insert_or_get (c : PageCache) (dev ino file_page frame : Z)
    : option (Z * PageCache) :=
  let key := shared_file_page_key dev ino file_page in
  match bt_get (file_cache c) key with
  | Some p =>
      w ← Tracker.drop (pc_frames c) frame;
      Some (p, c {{ pc_frames := Tracker.clone w p }})
  | None =>
      Some (frame, c {{ file_cache := bt_insert (file_cache c) key frame;
                        pc_frames := Tracker.clone (pc_frames c) frame }})
  end.

Definition shared_anon_page_cache_get (c : PageCache) (id page : Z) : option Z * PageCache :=
  if id =? 0 then (None, c)
  else
    match bt_get (anon_cache c) (shared_anon_page_key id page) with
    | Some p => (Some p, c {{ pc_frames := Tracker.clone (pc_frames c) p }})
    | None => (None, c)
    end.

Definition shared_anon_page_cache_insert_or_get (c : PageCache) (id page frame : Z)
    : option (Z * PageCache) :=
  if id =? 0 then Some (frame, c)
  else
    let key := shared_anon_page_key id page in
    match bt_get (anon_cache c) key with
    | Some p =>
        w ← Tracker.drop (pc_frames c) frame;
        Some (p, c {{ pc_frames := Tracker.clone w p }})
    | None =>
        Some (frame, c {{ anon_cache := bt_insert (anon_cache c) key frame;
                          pc_frames := Tracker.clone (pc_frames c) frame }})
    end.

(** [page[off..off + len(data)].copy_from_slice(data)] *)
Definition splice (page : list Z) (off : nat) (data : list Z) : list Z :=
  take off page ++ data ++ drop (off + length data) page.

(** The [while copied < data.len()] loop; every turn copies at least one byte,
    so [length data] turns are enough. *)
Fixpoint write_loop (fuel : nat) (cache : list ((Z * Z * Z) * Z)) (dev ino write_off : Z)
    (data : list Z) (copied : Z) (m : Z -> list Z) : Z -> list Z :=
  match fuel with
  | O => m
  | S fuel' =>
      let len := Z.of_nat (length data) in
      if copied <? len then
        let file_off := sat_add write_off copied in
        let file_page := file_off / PAGE_SIZE in
        let page_off := Z.land file_off (PAGE_SIZE - 1) in
        let chunk := Z.min (PAGE_SIZE - page_off) (len - copied) in
        let m :=
          match bt_get cache (shared_file_page_key dev ino file_page) with
          | Some p =>
              Tracker.set_page m p
                (splice (m p) (Z.to_nat page_off)
                   (take (Z.to_nat chunk) (drop (Z.to_nat copied) data)))
          | None => m
          end in
        write_loop fuel' cache dev ino write_off data (wadd copied chunk) m
      else m
  end.

Definition shared_file_page_cache_write (c : PageCache) (dev ino write_off : Z) (data : list Z)
    : PageCache :=
  match data with
  | [] => c
  | _ =>
      let m := write_loop (length data) (file_cache c) dev ino write_off data 0
                 (fw_mem (pc_frames c)) in
      c {{ pc_frames := (pc_frames c) {{ fw_mem := m }} }}
  end.

(** [cache.remove(&key)], dropping the tracker it returns. *)
Definition remove_file_key (c : PageCache) (key : Z * Z * Z) : option PageCache :=
  match bt_get (file_cache c) key with
  | Some p =>
      w ← Tracker.drop (pc_frames c) p;
      Some (c {{ file_cache := bt_remove (file_cache c) key; pc_frames := w }})
  | None => Some c
  end.

Fixpoint remove_file_keys (c : PageCache) (keys : list (Z * Z * Z)) : option PageCache :=
  match keys with
  | [] => Some c
  | key :: keys' => c' ← remove_file_key c key; remove_file_keys c' keys'
  end.

(** [if eof_off != 0]: the bytes of the last page past the end are zeroed. *)
Definition zero_eof_tail (c : PageCache) (dev ino eof_page eof_off : Z) : PageCache :=
  if eof_off =? 0 then c
  else
    match bt_get (file_cache c) (shared_file_page_key dev ino eof_page) with
    | Some p =>
        let m := fw_mem (pc_frames c) in
        c {{ pc_frames := (pc_frames c) {{ fw_mem :=
              Tracker.set_page m p
                (splice (m p) (Z.to_nat eof_off)
                   (replicate (Z.to_nat (PAGE_SIZE - eof_off)) 0)) }} }}
    | None => c
    end.

Definition stale_key (dev ino remove_from : Z) (k : Z * Z * Z) : bool :=
  match k with (d, i, fp) => (d =? dev) && (i =? ino) && (remove_from <=? fp) end.

Definition shared_file_page_cache_resize (c : PageCache) (dev ino file_size : Z)
    : option PageCache :=
  let eof_page := file_size / PAGE_SIZE in
  let eof_off := Z.land file_size (PAGE_SIZE - 1) in
  let remove_from := if eof_off =? 0 then eof_page else sat_add eof_page 1 in
  let c := zero_eof_tail c dev ino eof_page eof_off in
  let stale_keys := List.filter (stale_key dev ino remove_from) (map fst (file_cache c)) in
  remove_file_keys c stale_keys.

Definition shared_file_page_cache_reclaim_unreferenced (c : PageCache)
    : option (Z * PageCache) :=
  let stale_keys :=
    map fst (List.filter (fun e => Tracker.frame_refcount (pc_frames c) e.2 <=? 1) (file_cache c)) in
  let reclaimed := Z.of_nat (length stale_keys) in
  c' ← remove_file_keys c stale_keys;
  Some (reclaimed, c').

(** [allocator.alloc()] and [FrameTracker::new] on success. *)
Definition try_frame_alloc (c : PageCache) : option Z * PageCache :=
  match StackAlloc.alloc (fw_alloc (pc_frames c)) with
  | (Some ppn, a) =>
      (Some ppn, c {{ pc_frames := Tracker.new ((pc_frames c) {{ fw_alloc := a }}) ppn }})
  | (None, a) => (None, c {{ pc_frames := (pc_frames c) {{ fw_alloc := a }} }})
  end.

Definition frame_alloc (c : PageCache) : option (option Z * PageCache) :=
  match try_frame_alloc c with
  | (Some ppn, c) => Some (Some ppn, c)
  | (None, c) =>
      '(reclaimed, c) ← shared_file_page_cache_reclaim_unreferenced c;
      if 0 <? reclaimed then Some (try_frame_alloc c) else Some (None, c)
  end.

(** ** Ownership

    [H] is the multiset of the trackers held outside the caches. *)

Definition trackers (c : PageCache) (H : list Z) : list Z :=
  H ++ bt_values (file_cache c) ++ bt_values (anon_cache c).

Record pc_owns (c : PageCache) (H : list Z) : Prop := {
  pco_owns : Tracker.owns (pc_frames c) (trackers c H);
  pco_file : bt_wf (file_cache c);
  pco_anon : bt_wf (anon_cache c);
  pco_room : Z.of_nat (length (trackers c H)) < USIZE_MAX
}.

Section Values.
Context {K : Type} `{OrdKey K}.
Implicit Types (m : list (K * Z)) (k : K).

Lemma values_remove m k p :
  bt_get m k = Some p -> bt_values m ≡ₚ p :: bt_values (bt_remove m k).
Proof. intros Hg%bt_remove_perm. unfold bt_values. by rewrite Hg at 1. Qed.

Lemma values_insert m k p :
  bt_wf m -> bt_get m k = None -> bt_values (bt_insert m k p) ≡ₚ p :: bt_values m.
Proof.
  intros Hwf Hg. unfold bt_values. rewrite bt_insert_perm by done. by rewrite bt_remove_absent.
Qed.

Lemma values_get m k p : bt_get m k = Some p -> p ∈ bt_values m.
Proof. intros Hg%values_remove. rewrite Hg. left. Qed.

End Values.

Lemma trackers_get_file c H k p : bt_get (file_cache c) k = Some p -> p ∈ trackers c H.
Proof. intros Hg%values_get. unfold trackers. rewrite !elem_of_app. auto. Qed.

Lemma trackers_get_anon c H k p : bt_get (anon_cache c) k = Some p -> p ∈ trackers c H.
Proof. intros Hg%values_get. unfold trackers. rewrite !elem_of_app. auto. Qed.

(** Handing out a clone of a cached page. *)
Lemma clone_pc_owns c H p :
  pc_owns c H -> p ∈ trackers c H -> Z.of_nat (length (trackers c H)) + 1 < USIZE_MAX ->
  pc_owns (c {{ pc_frames := Tracker.clone (pc_frames c) p }}) (p :: H).
Proof.
  intros [Ho Hf Ha Hr] Hp Hlen. split; simpl; try done.
  - change (trackers _ (p :: H)) with (p :: trackers c H). by apply Tracker.clone_owns.
  - unfold trackers in *. simpl. rewrite Nat2Z.inj_succ. lia.
Qed.

(** Dropping a tracker held outside the caches. *)
Lemma drop_pc_owns c H p :
  pc_owns c (p :: H) ->
  exists w, Tracker.drop (pc_frames c) p = Some w /\ pc_owns (c {{ pc_frames := w }}) H /\
    Tracker.same_memory (pc_frames c) w.
Proof.
  intros [Ho Hf Ha Hr]. unfold trackers in Ho, Hr. simpl in Ho, Hr.
  destruct (Tracker.drop_owns _ _ _ Ho) as (w & Hw & Ho' & Hs); [lia|].
  exists w. split; [done|]. split; [|done]. split; try done. unfold trackers. simpl. lia.
Qed.

Lemma pc_owns_perm c H H' : H ≡ₚ H' -> pc_owns c H -> pc_owns c H'.
Proof.
  intros Hp [Ho Hf Ha Hr]. unfold trackers in *. split; try done; unfold trackers.
  - by rewrite <- Hp.
  - by rewrite <- Hp.
Qed.

(** Moving an outside tracker into the file cache or the anonymous cache. *)
Lemma insert_file_pc_owns c H k p :
  pc_owns c (p :: H) -> bt_get (file_cache c) k = None ->
  pc_owns (c {{ file_cache := bt_insert (file_cache c) k p }}) H.
Proof.
  intros [Ho Hf Ha Hr] Hg.
  assert (trackers (c {{ file_cache := bt_insert (file_cache c) k p }}) H ≡ₚ trackers c (p :: H)) as Hp.
  { unfold trackers. simpl. rewrite values_insert by done. by rewrite Permutation_middle. }
  split; [by rewrite Hp|by apply bt_wf_insert|done|by rewrite Hp].
Qed.

Lemma insert_anon_pc_owns c H k p :
  pc_owns c (p :: H) -> bt_get (anon_cache c) k = None ->
  pc_owns (c {{ anon_cache := bt_insert (anon_cache c) k p }}) H.
Proof.
  intros [Ho Hf Ha Hr] Hg.
  assert (trackers (c {{ anon_cache := bt_insert (anon_cache c) k p }}) H ≡ₚ trackers c (p :: H)) as Hp.
  { unfold trackers. simpl. rewrite values_insert by done.
    by rewrite !app_assoc, <- Permutation_middle. }
  split; [by rewrite Hp|done|by apply bt_wf_insert|by rewrite Hp].
Qed.

(** Taking an entry out of the file cache. *)
Lemma trackers_take_file c H k p :
  bt_get (file_cache c) k = Some p ->
  trackers (c {{ file_cache := bt_remove (file_cache c) k }}) (p :: H) ≡ₚ trackers c H.
Proof.
  intros Hg. unfold trackers. simpl. rewrite (values_remove (file_cache c) k p Hg).
  apply Permutation_middle.
Qed.

Lemma take_file_pc_owns c H k p :
  pc_owns c H -> bt_get (file_cache c) k = Some p ->
  pc_owns (c {{ file_cache := bt_remove (file_cache c) k }}) (p :: H).
Proof.
  intros [Ho Hf Ha Hr] Hg. pose proof (trackers_take_file c H k p Hg) as Hp.
  split; [by rewrite Hp|by apply bt_wf_remove|done|by rewrite Hp].
Qed.

(** Looking a page up in the file cache hands out one more tracker of it. *)
Lemma file_get_owns c H dev ino page :
  pc_owns c H -> Z.of_nat (length (trackers c H)) + 1 < USIZE_MAX ->
  match shared_file_page_cache_get c dev ino page with
  | (Some p, c') => bt_get (file_cache c) (dev, ino, page) = Some p /\ pc_owns c' (p :: H)
  | (None, c') => bt_get (file_cache c) (dev, ino, page) = None /\ c' = c
  end.
Proof.
  intros Ho Hl. unfold shared_file_page_cache_get, shared_file_page_key.
  destruct (bt_get _ _) as [p|] eqn:E; [|done]. split; [done|].
  apply clone_pc_owns; [done| |done]. by eapply trackers_get_file.
Qed.

(** [insert_or_get] makes the key resolve to one frame for everyone: the cached
    one if there was one (the frame offered is released), else the one
    offered.  The caller gets a tracker of it. *)
Lemma file_insert_or_get_owns c H dev ino page frame :
  pc_owns c (frame :: H) -> Z.of_nat (length (trackers c H)) + 2 < USIZE_MAX ->
  exists p c',
    shared_file_page_cache_insert_or_get c dev ino page frame = Some (p, c') /\
    pc_owns c' (p :: H) /\
    p = unwrap_or (bt_get (file_cache c) (dev, ino, page)) frame /\
    forall k, bt_get (file_cache c') k =
      if key_eqb k (dev, ino, page) then Some p else bt_get (file_cache c) k.
Proof.
  intros Ho Hl. unfold shared_file_page_cache_insert_or_get, shared_file_page_key.
  destruct (bt_get _ _) as [p|] eqn:E.
  - destruct (drop_pc_owns _ _ _ Ho) as (w & Hw & Ho' & _). rewrite Hw. simpl.
    eexists _, _. split; [done|]. split_and!; [|done|].
    + eapply (clone_pc_owns _ H p) in Ho'; [exact Ho'| |unfold trackers in *; simpl; lia].
      by apply trackers_get_file with (k := (dev, ino, page)).
    + intros k. simpl. destruct (key_eqb k _) eqn:Ek; [|done]. apply key_eqb_eq in Ek. by subst.
  - eexists _, _. split; [done|]. split_and!; [|done|].
    + pose proof (insert_file_pc_owns _ _ _ _ Ho E) as Ho'.
      eapply clone_pc_owns in Ho'; [exact Ho'| |].
      * apply trackers_get_file with (k := (dev, ino, page)). simpl.
        by rewrite bt_get_insert, key_eqb_refl.
      * unfold trackers in *. simpl. rewrite values_insert by (done || apply Ho).
        rewrite length_app in *. simpl. lia.
    + intros k. simpl. by rewrite bt_get_insert.
Qed.

Lemma anon_get_owns c H id page :
  pc_owns c H -> Z.of_nat (length (trackers c H)) + 1 < USIZE_MAX ->
  match shared_anon_page_cache_get c id page with
  | (Some p, c') => id <> 0 /\ bt_get (anon_cache c) (id, page) = Some p /\ pc_owns c' (p :: H)
  | (None, c') => (id = 0 \/ bt_get (anon_cache c) (id, page) = None) /\ c' = c
  end.
Proof.
  intros Ho Hl. unfold shared_anon_page_cache_get, shared_anon_page_key.
  destruct (id =? 0) eqn:Ei; [split; [lia|done]|].
  destruct (bt_get _ _) as [p|] eqn:E; [|split; [by right|done]]. split_and!; [lia|done|].
  apply clone_pc_owns; [done| |done]. by eapply trackers_get_anon.
Qed.

(** The same for anonymous shared pages; the id 0 means "not shared" and
    leaves the caches alone. *)
Lemma anon_insert_or_get_owns c H id page frame :
  pc_owns c (frame :: H) -> Z.of_nat (length (trackers c H)) + 2 < USIZE_MAX ->
  exists p c',
    shared_anon_page_cache_insert_or_get c id page frame = Some (p, c') /\
    pc_owns c' (p :: H) /\
    (id = 0 -> p = frame /\ c' = c) /\
    (id <> 0 -> p = unwrap_or (bt_get (anon_cache c) (id, page)) frame /\
      forall k, bt_get (anon_cache c') k =
        if key_eqb k (id, page) then Some p else bt_get (anon_cache c) k).
Proof.
  intros Ho Hl. unfold shared_anon_page_cache_insert_or_get, shared_anon_page_key.
  destruct (id =? 0) eqn:Ei; [exists frame, c; split_and!; try done; lia|].
  destruct (bt_get _ _) as [p|] eqn:E.
  - destruct (drop_pc_owns _ _ _ Ho) as (w & Hw & Ho' & _). rewrite Hw. simpl.
    eexists _, _. split; [done|]. split_and!; [|lia|].
    + eapply (clone_pc_owns _ H p) in Ho'; [exact Ho'| |unfold trackers in *; simpl; lia].
      by apply trackers_get_anon with (k := (id, page)).
    + intros _. split; [done|]. intros k. simpl.
      destruct (key_eqb k _) eqn:Ek; [|done]. apply key_eqb_eq in Ek. by subst.
  - eexists _, _. split; [done|]. split_and!; [|lia|].
    + pose proof (insert_anon_pc_owns _ _ _ _ Ho E) as Ho'.
      eapply clone_pc_owns in Ho'; [exact Ho'| |].
      * apply trackers_get_anon with (k := (id, page)). simpl.
        by rewrite bt_get_insert, key_eqb_refl.
      * unfold trackers in *. simpl. rewrite values_insert by (done || apply Ho).
        rewrite !length_app in *. simpl. lia.
    + intros _. split; [done|]. intros k. simpl. by rewrite bt_get_insert.
Qed.

(** ** Removal, truncation and reclaim *)

Lemma remove_file_key_owns c H k :
  pc_owns c H ->
  exists c', remove_file_key c k = Some c' /\ pc_owns c' H /\
    file_cache c' = bt_remove (file_cache c) k /\ anon_cache c' = anon_cache c /\
    Tracker.same_memory (pc_frames c) (pc_frames c').
Proof.
  intros Ho. unfold remove_file_key. destruct (bt_get _ k) as [p|] eqn:E.
  - pose proof (take_file_pc_owns _ _ _ _ Ho E) as Ho'.
    destruct (drop_pc_owns _ _ _ Ho') as (w & Hw & Ho2 & Hs). simpl in Hw. rewrite Hw. simpl.
    eexists. split; [done|]. by split_and!.
  - exists c. split_and!; try done. by rewrite bt_remove_absent.
Qed.

Lemma remove_file_keys_owns c H keys :
  pc_owns c H ->
  exists c', remove_file_keys c keys = Some c' /\ pc_owns c' H /\
    (forall k, bt_get (file_cache c') k =
       if decide (k ∈ keys) then None else bt_get (file_cache c) k) /\
    anon_cache c' = anon_cache c /\ Tracker.same_memory (pc_frames c) (pc_frames c').
Proof.
  revert c. induction keys as [|k keys IH]; intros c Ho; simpl.
  - by exists c.
  - destruct (remove_file_key_owns c H k Ho) as (c1 & -> & Ho1 & Hf1 & Ha1 & Hs1). simpl.
    destruct (IH c1 Ho1) as (c2 & -> & Ho2 & Hf2 & Ha2 & Hm2 & Hs2).
    exists c2. split_and!; try done; [|congruence|].
    + intros k'. rewrite Hf2, Hf1, bt_get_remove by apply Ho.
      destruct (decide (k' ∈ keys)), (decide (k' ∈ k :: keys)) as [He|He]; try done.
      * exfalso. apply He. by right.
      * apply elem_of_cons in He as [->|?]; [|done]. by rewrite key_eqb_refl.
      * destruct (key_eqb k' k) eqn:Ek; [|done]. apply key_eqb_eq in Ek. subst.
        exfalso. apply He. left.
    + destruct Hs1 as [Hm1 Hs1]. split; [congruence|]. intros q. by rewrite Hs2, Hs1.
Qed.

Lemma remove_file_keys_length c keys c' :
  remove_file_keys c keys = Some c' -> (length (file_cache c') <= length (file_cache c))%nat.
Proof.
  revert c. induction keys as [|k keys IH]; intros c; simpl; [by intros [= ->]|].
  unfold remove_file_key. destruct (bt_get _ k) as [p|] eqn:E; simpl; [|apply IH].
  destruct (Tracker.drop _ p) as [w|]; simpl; [|done]. intros Hr%IH. simpl in Hr.
  rewrite (bt_length_remove _ _ _ E). lia.
Qed.

(** Keys of the map. *)
Lemma file_keys_get c H k :
  pc_owns c H -> k ∈ map fst (file_cache c) <-> is_Some (bt_get (file_cache c) k).
Proof.
  intros Ho. rewrite list_elem_of_fmap. split.
  - intros ([k' p] & -> & Hin). exists p. apply (bt_get_elem _ _ _ (pco_file _ _ Ho)). done.
  - intros [p Hg]. exists (k, p). split; [done|]. by apply (bt_get_elem _ _ _ (pco_file _ _ Ho)).
Qed.

(** *** The cached bytes of a file

    Byte [off] of file [(dev, ino)] as a process that maps the cached page
    sees it; [None] when the page is not cached. *)

Definition byte_at (cache : list ((Z * Z * Z) * Z)) (m : Z -> list Z) (dev ino off : Z) : option Z :=
  p ← bt_get cache (dev, ino, off / 4096); m p !! Z.to_nat (off mod 4096).

Definition cached_byte (c : PageCache) : Z -> Z -> Z -> option Z :=
  byte_at (file_cache c) (fw_mem (pc_frames c)).

(** No frame is cached under two keys. *)
Definition cache_injective (cache : list ((Z * Z * Z) * Z)) : Prop :=
  forall k1 k2 p, bt_get cache k1 = Some p -> bt_get cache k2 = Some p -> k1 = k2.

Definition full_pages (m : Z -> list Z) : Prop := forall p, length (m p) = 4096%nat.

Lemma splice_length page off data :
  (off + length data <= length page)%nat -> length (splice page off data) = length page.
Proof. intros. unfold splice. rewrite !length_app, length_take, length_drop. lia. Qed.

Lemma splice_lookup page off data i :
  (off + length data <= length page)%nat ->
  splice page off data !! i =
    if decide (off <= i < off + length data)%nat then data !! (i - off)%nat else page !! i.
Proof.
  intros Hl. unfold splice. destruct (decide (off <= i < off + length data)%nat) as [Hi|Hi].
  - rewrite lookup_app_r by (rewrite length_take; lia). rewrite length_take.
    rewrite lookup_app_l by lia. f_equal. lia.
  - destruct (decide (i < off)%nat).
    + rewrite lookup_app_l by (rewrite length_take; lia). by rewrite lookup_take_lt by lia.
    + rewrite !lookup_app_r by (rewrite ?length_take; lia).
      rewrite length_take, lookup_drop. f_equal. lia.
Qed.

Lemma full_pages_set m p page : full_pages m -> length page = 4096%nat -> full_pages (Tracker.set_page m p page).
Proof. intros Hf Hl q. unfold Tracker.set_page. by destruct (q =? p). Qed.

(** Overwriting bytes [[fo, fo + n)] of one cached page changes exactly those
    bytes of the file view. *)
Lemma byte_at_set cache m dev ino fo data p d i off :
  cache_injective cache -> full_pages m -> 0 <= fo -> 0 <= off ->
  fo mod 4096 + Z.of_nat (length data) <= 4096 ->
  bt_get cache (dev, ino, fo / 4096) = Some p ->
  byte_at cache (Tracker.set_page m p (splice (m p) (Z.to_nat (fo mod 4096)) data)) d i off =
    if bool_decide (d = dev /\ i = ino /\ fo <= off < fo + Z.of_nat (length data))
    then data !! Z.to_nat (off - fo) else byte_at cache m d i off.
Proof.
  intros Hinj Hfull Hfo Hoff Hlen Hg. unfold byte_at.
  pose proof (Z.div_mod fo 4096 ltac:(lia)). pose proof (Z.mod_pos_bound fo 4096 ltac:(lia)).
  pose proof (Z.div_mod off 4096 ltac:(lia)). pose proof (Z.mod_pos_bound off 4096 ltac:(lia)).
  destruct (bt_get cache (d, i, off / 4096)) as [q|] eqn:Eq; simpl.
  - unfold Tracker.set_page. destruct (q =? p) eqn:Epq.
    + assert (q = p) as -> by lia. pose proof (Hinj _ _ _ Eq Hg) as [= -> -> Hpage].
      rewrite splice_lookup by (rewrite Hfull; lia).
      destruct (decide _), (bool_decide _) eqn:Eb; rewrite ?bool_decide_eq_true, ?bool_decide_eq_false in Eb.
      * f_equal. lia.
      * exfalso. apply Eb. split_and!; [done|done|lia|lia].
      * exfalso. lia.
      * done.
    + rewrite bool_decide_false; [done|]. intros (-> & -> & ?).
      assert (off / 4096 = fo / 4096) as He by lia. rewrite He, Hg in Eq. simplify_eq. lia.
  - rewrite bool_decide_false; [done|]. intros (-> & -> & ?).
    assert (off / 4096 = fo / 4096) as He by lia. by rewrite He, Hg in Eq.
Qed.

Lemma byte_at_Some cache m d i off p :
  full_pages m -> 0 <= off -> bt_get cache (d, i, off / 4096) = Some p -> is_Some (byte_at cache m d i off).
Proof.
  intros Hm Hoff Hg. unfold byte_at. rewrite Hg. simpl. apply lookup_lt_is_Some_2. rewrite Hm.
  pose proof (Z.mod_pos_bound off 4096 ltac:(lia)). lia.
Qed.

(** Offsets within one page. *)
Lemma same_page fo off n :
  0 <= fo -> fo <= off < fo + n -> fo mod 4096 + n <= 4096 -> off / 4096 = fo / 4096.
Proof.
  intros. pose proof (Z.div_mod fo 4096 ltac:(lia)). pose proof (Z.mod_pos_bound fo 4096 ltac:(lia)).
  pose proof (Z.div_mod off 4096 ltac:(lia)). pose proof (Z.mod_pos_bound off 4096 ltac:(lia)). lia.
Qed.

(** One turn of the loop. *)
Lemma write_chunk cache m dev ino fo piece :
  cache_injective cache -> full_pages m -> 0 <= fo ->
  fo mod 4096 + Z.of_nat (length piece) <= 4096 ->
  let m1 := match bt_get cache (dev, ino, fo / 4096) with
            | Some p => Tracker.set_page m p (splice (m p) (Z.to_nat (fo mod 4096)) piece)
            | None => m
            end in
  full_pages m1 /\ forall d i off, 0 <= off -> byte_at cache m1 d i off =
    if bool_decide (d = dev /\ i = ino /\ fo <= off < fo + Z.of_nat (length piece) /\
                    is_Some (byte_at cache m d i off))
    then piece !! Z.to_nat (off - fo) else byte_at cache m d i off.
Proof.
  intros Hinj Hm Hfo Hlen m1. pose proof (Z.mod_pos_bound fo 4096 ltac:(lia)).
  destruct (bt_get cache (dev, ino, fo / 4096)) as [p|] eqn:E; subst m1.
  - split; [apply full_pages_set; [done|]; rewrite splice_length; rewrite Hm; lia|].
    intros d i off Hoff. rewrite (byte_at_set cache m dev ino) by done.
    erewrite bool_decide_ext; [done|]. split; [|tauto]. intros (-> & -> & Hr). split_and!; try done; try lia.
    eapply byte_at_Some; [done|done|]. by rewrite (same_page fo off _ Hfo Hr Hlen).
  - split; [done|]. intros d i off Hoff. rewrite bool_decide_false; [done|].
    intros (-> & -> & Hr & [b Hb]). unfold byte_at in Hb.
    by rewrite (same_page fo off _ Hfo Hr Hlen), E in Hb.
Qed.

Lemma write_loop_spec fuel cache dev ino wo data copied m :
  cache_injective cache -> full_pages m -> 0 <= wo -> 0 <= copied ->
  wo + Z.of_nat (length data) <= USIZE_MAX -> Z.of_nat (length data) - copied <= Z.of_nat fuel ->
  full_pages (write_loop fuel cache dev ino wo data copied m) /\
  forall d i off, 0 <= off ->
    byte_at cache (write_loop fuel cache dev ino wo data copied m) d i off =
    if bool_decide (d = dev /\ i = ino /\ wo + copied <= off < wo + Z.of_nat (length data) /\
                    is_Some (byte_at cache m d i off))
    then data !! Z.to_nat (off - wo) else byte_at cache m d i off.
Proof.
  intros Hinj. revert copied m. induction fuel as [|fuel IH]; intros copied m Hm Hwo Hc Hmax Hfuel; simpl.
  - split; [done|]. intros. rewrite bool_decide_false; [done|]. intros (_ & _ & ? & _). lia.
  - destruct (copied <? Z.of_nat (length data)) eqn:Ec.
    2: { split; [done|]. intros. rewrite bool_decide_false; [done|]. intros (_ & _ & ? & _). lia. }
    unfold shared_file_page_key. rewrite sat_add_small by lia. fold (page_offset (wo + copied)).
    rewrite page_offset_mod. change PAGE_SIZE with 4096. set (fo := wo + copied).
    set (chunk := Z.min (4096 - fo mod 4096) (Z.of_nat (length data) - copied)).
    pose proof (Z.mod_pos_bound fo 4096 ltac:(lia)) as Hmod. rewrite wadd_small by lia.
    set (piece := take (Z.to_nat chunk) (drop (Z.to_nat copied) data)).
    assert (Z.of_nat (length piece) = chunk) as Hpl.
    { subst piece. rewrite length_take, length_drop. lia. }
    destruct (write_chunk cache m dev ino fo piece) as [Hm1 Hb1]; [done|done|lia|lia|].
    set (m1 := match bt_get cache (dev, ino, fo / 4096) with Some p => _ | None => m end) in *.
    destruct (IH (copied + chunk) m1) as [Hf' Hb']; [done|done|lia|done|lia|].
    split; [done|]. intros d i off Hoff. rewrite Hb', Hb1, Hpl by done. clear Hb' Hb1 IH.
    assert (fo <= off < fo + chunk -> piece !! Z.to_nat (off - fo) = data !! Z.to_nat (off - wo) /\
      is_Some (data !! Z.to_nat (off - wo))) as Hpiece.
    { intros Hr. split; [|apply lookup_lt_is_Some_2; lia].
      subst piece. rewrite lookup_take_lt, lookup_drop by lia. f_equal. lia. }
    destruct (decide (d = dev /\ i = ino)) as [[-> ->]|Hne];
      [|by rewrite !(bool_decide_false (d = dev /\ _)) by tauto].
    destruct (byte_at cache m dev ino off) as [b|] eqn:Eb.
    2: { rewrite (bool_decide_false (_ /\ _ /\ _ /\ is_Some None)) by (intros (_ & _ & _ & [? [=]])).
         rewrite !bool_decide_false by (intros (_ & _ & _ & [? [=]])). done. }
    destruct (decide (fo <= off < fo + chunk)) as [Hr|Hr].
    + destruct (Hpiece Hr) as [Hp Hs]. rewrite (bool_decide_true (dev = dev /\ _ /\ fo <= off < _ /\ _)) by eauto.
      rewrite bool_decide_false by lia. rewrite bool_decide_true by (split_and!; try done; lia). done.
    + rewrite (bool_decide_false (dev = dev /\ _ /\ fo <= off < fo + chunk /\ _)) by tauto.
      erewrite bool_decide_ext; [done|]. split; intros (? & ? & ? & ?); (split_and!; try done; lia).
Qed.

(** A write through a file descriptor reaches every cached page: a mapped byte
    in the written range is the byte written, every other cached byte of every
    file is unchanged, and ownership is not affected. *)
Theorem shared_file_page_cache_write_coherent c H dev ino write_off data :
  pc_owns c H -> cache_injective (file_cache c) -> full_pages (fw_mem (pc_frames c)) ->
  0 <= write_off -> write_off + Z.of_nat (length data) <= USIZE_MAX ->
  let c' := shared_file_page_cache_write c dev ino write_off data in
  pc_owns c' H /\ full_pages (fw_mem (pc_frames c')) /\
  forall d i off, 0 <= off -> cached_byte c' d i off =
    if bool_decide (d = dev /\ i = ino /\ write_off <= off < write_off + Z.of_nat (length data) /\
                    is_Some (cached_byte c d i off))
    then data !! Z.to_nat (off - write_off) else cached_byte c d i off.
Proof.
  intros Ho Hinj Hfull Hwo Hmax. unfold shared_file_page_cache_write. destruct data as [|b data].
  - split_and!; try done. intros d i off ?.
    rewrite bool_decide_false; [done|]. simpl. intros (_ & _ & ? & _). lia.
  - destruct (write_loop_spec (length (b :: data)) (file_cache c) dev ino write_off (b :: data) 0
      (fw_mem (pc_frames c)) Hinj Hfull) as [Hf' Hb']; [lia..|]. cbv zeta.
    split_and!.
    + destruct Ho as [[] ? ? ?]. by split.
    + exact Hf'.
    + intros d i off Hoff. unfold cached_byte. simpl pc_frames. simpl file_cache. simpl fw_mem.
      rewrite Hb' by done. by rewrite Z.add_0_r.
Qed.

Lemma page_beyond_eof size off :
  0 <= size -> 0 <= off ->
  (if size mod 4096 =? 0 then size / 4096 else size / 4096 + 1) <= off / 4096 <->
  (size <= off /\ (off / 4096 <> size / 4096 \/ size mod 4096 = 0)).
Proof.
  intros. pose proof (Z.div_mod size 4096 ltac:(lia)). pose proof (Z.mod_pos_bound size 4096 ltac:(lia)).
  pose proof (Z.div_mod off 4096 ltac:(lia)). pose proof (Z.mod_pos_bound off 4096 ltac:(lia)).
  case_if; nia.
Qed.

(** Zeroing the end of the page that holds the end of file. *)
Lemma zero_eof_page cache m dev ino size p d i off :
  cache_injective cache -> full_pages m -> 0 <= size -> size mod 4096 <> 0 -> 0 <= off ->
  bt_get cache (dev, ino, size / 4096) = Some p ->
  byte_at cache (Tracker.set_page m p (splice (m p) (Z.to_nat (size mod 4096))
                   (replicate (Z.to_nat (4096 - size mod 4096)) 0))) d i off =
    if bool_decide (d = dev /\ i = ino /\ size <= off /\ off / 4096 = size / 4096)
    then Some 0 else byte_at cache m d i off.
Proof.
  intros Hinj Hm Hs Hne Hoff Hg. pose proof (Z.mod_pos_bound size 4096 ltac:(lia)).
  pose proof (Z.div_mod size 4096 ltac:(lia)).
  pose proof (Z.div_mod off 4096 ltac:(lia)). pose proof (Z.mod_pos_bound off 4096 ltac:(lia)).
  rewrite (byte_at_set cache m dev ino) by (rewrite ?length_replicate; done || lia).
  rewrite length_replicate, Z2Nat.id by lia.
  destruct (decide (d = dev /\ i = ino)) as [[-> ->]|];
    [|by rewrite !bool_decide_false by tauto].
  destruct (decide (size <= off /\ off / 4096 = size / 4096)) as [[? ?]|].
  - rewrite !bool_decide_true by (split_and!; lia || done).
    apply lookup_replicate_2. lia.
  - rewrite !bool_decide_false; [done|tauto|]. intros (_ & _ & ?).
    assert (off / 4096 = size / 4096) by (apply same_page with (n := 4096 - size mod 4096); lia). lia.
Qed.

(** Changing frame contents does not affect ownership. *)
Lemma set_mem_owns c H m :
  pc_owns c H -> pc_owns (c {{ pc_frames := (pc_frames c) {{ fw_mem := m }} }}) H.
Proof. intros [[] ? ? ?]. by split. Qed.

Lemma zero_eof_tail_spec c H dev ino size :
  pc_owns c H -> cache_injective (file_cache c) -> full_pages (fw_mem (pc_frames c)) -> 0 <= size ->
  let c1 := zero_eof_tail c dev ino (size / 4096) (size mod 4096) in
  pc_owns c1 H /\ file_cache c1 = file_cache c /\ forall d i off, 0 <= off ->
    cached_byte c1 d i off =
    if bool_decide (d = dev /\ i = ino /\ size <= off /\ off / 4096 = size / 4096 /\ size mod 4096 <> 0)
    then (fun _ => 0) <$> cached_byte c d i off else cached_byte c d i off.
Proof.
  intros Ho Hinj Hm Hs. unfold zero_eof_tail, shared_file_page_key.
  destruct (size mod 4096 =? 0) eqn:E0.
  { split_and!; try done. intros. rewrite bool_decide_false; [done|]. lia. }
  destruct (bt_get _ _) as [p|] eqn:Eg.
  - split_and!; [by apply set_mem_owns|done|]. intros d i off Hoff. unfold cached_byte.
    simpl file_cache. simpl pc_frames. simpl fw_mem. change PAGE_SIZE with 4096.
    rewrite (zero_eof_page _ _ dev ino) by (done || lia).
    destruct (decide (d = dev /\ i = ino /\ size <= off /\ off / 4096 = size / 4096)) as [Hd|];
      [|by rewrite !bool_decide_false by tauto].
    rewrite !bool_decide_true by (destruct_and!; split_and!; done || lia).
    destruct Hd as (-> & -> & _ & He).
    destruct (byte_at_Some (file_cache c) (fw_mem (pc_frames c)) dev ino off p) as [b ->];
      [done|done|by rewrite He|done].
  - split_and!; try done. intros d i off Hoff. case_bool_decide as Hd; [|done].
    destruct Hd as (-> & -> & _ & He & _). unfold cached_byte, byte_at. by rewrite He, Eg.
Qed.

(** The file view after the entries of some keys are removed. *)
Lemma byte_at_removed c c' m (keys : list (Z * Z * Z)) d i off :
  (forall k, bt_get (file_cache c') k =
     if decide (k ∈ keys) then None else bt_get (file_cache c) k) ->
  byte_at (file_cache c') m d i off =
    if bool_decide ((d, i, off / 4096) ∈ keys) then None else byte_at (file_cache c) m d i off.
Proof.
  intros Hk. unfold byte_at. rewrite Hk.
  by case_bool_decide; destruct (decide _).
Qed.

(** Truncation never leaves stale data behind: past the new end of file a
    cached byte reads zero (in the page that holds the end of file) or its page
    has left the cache, and nothing else changes. *)
Theorem shared_file_page_cache_resize_spec c H dev ino size :
  pc_owns c H -> cache_injective (file_cache c) -> full_pages (fw_mem (pc_frames c)) ->
  0 <= size <= USIZE_MAX ->
  exists c', shared_file_page_cache_resize c dev ino size = Some c' /\ pc_owns c' H /\
  forall d i off, 0 <= off -> cached_byte c' d i off =
    if bool_decide (d = dev /\ i = ino /\ size <= off) then
      if bool_decide (off / 4096 = size / 4096 /\ size mod 4096 <> 0)
      then (fun _ => 0) <$> cached_byte c d i off
      else None
    else cached_byte c d i off.
Proof.
  intros Ho Hinj Hfull Hs. unfold shared_file_page_cache_resize.
  fold (page_offset size). rewrite page_offset_mod. change PAGE_SIZE with 4096.
  assert (0 <= size / 4096 < USIZE_MAX) as Hq.
  { split; [apply Z.div_pos; lia|apply Z.div_lt_upper_bound; lia]. }
  rewrite sat_add_small by lia. cbv zeta.
  destruct (zero_eof_tail_spec c H dev ino size Ho Hinj Hfull ltac:(lia)) as (Ho1 & Hf1 & Hb1).
  set (c1 := zero_eof_tail _ _ _ _ _) in *. clearbody c1.
  destruct (remove_file_keys_owns c1 H (List.filter (stale_key dev ino
    (if size mod 4096 =? 0 then size / 4096 else size / 4096 + 1)) (map fst (file_cache c1))) Ho1)
    as (c' & -> & Ho' & Hk & _ & [Hm _]).
  exists c'. split; [done|]. split; [done|]. intros d i off Hoff.
  unfold cached_byte at 1. rewrite Hm, (byte_at_removed c1 c' _ _ d i off Hk).
  fold (cached_byte c1). rewrite Hb1 by done.
  pose proof (page_beyond_eof size off ltac:(lia) Hoff) as Hpb.
  destruct (decide (d = dev /\ i = ino /\ size <= off)) as [Hd|Hd].
  - rewrite (bool_decide_true (d = dev /\ i = ino /\ size <= off)) by done.
    destruct (decide (off / 4096 = size / 4096 /\ size mod 4096 <> 0)) as [He|He].
    + rewrite !(bool_decide_true (_ = _ /\ _)) by tauto. rewrite bool_decide_false; [done|].
      rewrite list_elem_of_In, filter_In. unfold stale_key. lia.
    + rewrite (bool_decide_false (off / 4096 = _ /\ _)) by done.
      rewrite (bool_decide_false (d = dev /\ _ /\ _ /\ _ /\ _)) by tauto.
      case_bool_decide as Hin; [done|].
      destruct (cached_byte c d i off) as [b|] eqn:Eb; [|done]. exfalso. apply Hin.
      rewrite list_elem_of_In, filter_In, <- list_elem_of_In. split.
      * rewrite file_keys_get by exact Ho1. rewrite Hf1. unfold cached_byte, byte_at in Eb.
        destruct (bt_get (file_cache c) _); done.
      * unfold stale_key. lia.
  - rewrite !(bool_decide_false (d = dev /\ _)) by tauto. rewrite bool_decide_false; [done|].
    rewrite list_elem_of_In, filter_In. unfold stale_key. lia.
Qed.

Lemma live_managed a p : StackAlloc.alloc_inv a -> StackAlloc.live a p -> StackAlloc.managed a p.
Proof.
  intros Hi [Hw _]. apply StackAlloc.was_allocated_spec in Hw as (r & Hr & Hp).
  pose proof (StackAlloc.inv_range_ok a Hi) as Hok. rewrite Forall_forall in Hok.
  specialize (Hok r Hr). unfold StackAlloc.range_ok in Hok. exists r. split; [done|lia].
Qed.

Lemma frame_refcount_count c H p :
  pc_owns c H -> Tracker.frame_refcount (pc_frames c) p = Tracker.count (trackers c H) p.
Proof.
  intros [Ho _ _ _]. unfold Tracker.frame_refcount. rewrite (Tracker.owns_rc _ _ Ho).
  case_if; simpl; lia.
Qed.

(** A cached frame with a single tracker is referenced by its entry only. *)
Lemma sole_entry c H k p :
  bt_get (file_cache c) k = Some p -> Tracker.count (trackers c H) p <= 1 ->
  p ∉ H /\ p ∉ bt_values (anon_cache c) /\ p ∉ bt_values (bt_remove (file_cache c) k).
Proof.
  intros Hg Hc. pose proof (trackers_take_file c H k p Hg) as Hp.
  unfold Tracker.count in Hc. rewrite (Permutation_count_occ Z.eq_dec) in Hp. rewrite <- Hp in Hc.
  unfold trackers in Hc. simpl in Hc. destruct (Z.eq_dec p p); [|done].
  set (l := H ++ bt_values (bt_remove (file_cache c) k) ++ bt_values (anon_cache c)) in *.
  assert (p ∉ l) as Hl by (rewrite Tracker.count_elem; unfold Tracker.count; lia).
  unfold l in Hl. rewrite !elem_of_app in Hl. tauto.
Qed.

(** Reclaim removes exactly the entries whose frame nobody else references, and
    when it removed one there is a free frame. *)
Lemma reclaim_owns c H :
  pc_owns c H ->
  exists n c', shared_file_page_cache_reclaim_unreferenced c = Some (n, c') /\ pc_owns c' H /\
    Tracker.same_memory (pc_frames c) (pc_frames c') /\ anon_cache c' = anon_cache c /\
    (forall k, bt_get (file_cache c') k =
       p ← bt_get (file_cache c) k; if Tracker.count (trackers c H) p <=? 1 then None else Some p) /\
    0 <= n /\ (length (file_cache c') <= length (file_cache c))%nat /\ (n = 0 -> c' = c) /\
    (0 < n -> exists p, StackAlloc.managed (fw_alloc (pc_frames c')) p /\
                        ~ StackAlloc.live (fw_alloc (pc_frames c')) p).
Proof.
  intros Ho. unfold shared_file_page_cache_reclaim_unreferenced.
  set (keys := map fst _). destruct (remove_file_keys_owns c H keys Ho) as (c' & Hrm & Ho' & Hk & Ha & Hs).
  rewrite Hrm. eexists _, c'. split; [done|].
  assert (forall k, k ∈ keys <-> exists p, bt_get (file_cache c) k = Some p /\
    Tracker.count (trackers c H) p <= 1) as Hkeys.
  { intros k. subst keys. rewrite list_elem_of_fmap. setoid_rewrite list_elem_of_In.
    setoid_rewrite filter_In. setoid_rewrite <- list_elem_of_In.
    setoid_rewrite (frame_refcount_count c H _ Ho). split.
    - intros ([k' p] & -> & Hin & Hc). exists p. simpl in *.
      split; [by apply (bt_get_elem _ _ _ (pco_file _ _ Ho))|lia].
    - intros (p & Hg & Hc). exists (k, p). simpl. split; [done|].
      split; [by apply (bt_get_elem _ _ _ (pco_file _ _ Ho))|lia]. }
  split_and!; try done; try lia; try by eapply remove_file_keys_length.
  - intros k. rewrite Hk. destruct (decide (k ∈ keys)) as [Hin|Hin]; rewrite Hkeys in Hin.
    + destruct Hin as (p & -> & Hc). simpl. case_if; [done|lia].
    + destruct (bt_get (file_cache c) k) as [p|] eqn:Eg; [|done]. simpl.
      case_if; [|done]. exfalso. apply Hin. exists p. split; [done|lia].
  - intros Hn. destruct keys; [simpl in Hrm; congruence|simpl in Hn; lia].
  - intros Hn. destruct keys as [|k keys']; [simpl in Hn; lia|].
    destruct (proj1 (Hkeys k) ltac:(left)) as (p & Hg & Hc). exists p.
    pose proof (sole_entry c H k p Hg Hc) as (Hn1 & Hn2 & Hn3). split.
    + apply (proj2 Hs), live_managed; [apply Ho|]. apply (Tracker.owns_live _ _ (pco_owns _ _ Ho)).
      by eapply trackers_get_file.
    + rewrite (Tracker.owns_live _ _ (pco_owns _ _ Ho')). unfold trackers. rewrite !elem_of_app, Ha.
      intros [?|[Hv|?]]; [done| |done]. apply Hn3. unfold bt_values in Hv.
      apply list_elem_of_fmap in Hv as ([k' q] & -> & Hin). simpl in *.
      apply (bt_get_elem _ _ _ (pco_file _ _ Ho')) in Hin. rewrite Hk in Hin.
      destruct (decide (k' ∈ _)) as [|Hnk]; [done|].
      eapply values_get with (k := k'). rewrite bt_get_remove by apply Ho.
      destruct (key_eqb k' k) eqn:Ek; [|done]. apply key_eqb_eq in Ek. subst. exfalso. apply Hnk. left.
Qed.

Lemma try_frame_alloc_owns c H :
  pc_owns c H -> Z.of_nat (length (trackers c H)) + 1 < USIZE_MAX ->
  match try_frame_alloc c with
  | (Some p, c') =>
      pc_owns c' (p :: H) /\ p ∉ trackers c H /\ trackers c' H = trackers c H /\
      fw_mem (pc_frames c') p = Tracker.zero_page /\
      (forall q, q <> p -> fw_mem (pc_frames c') q = fw_mem (pc_frames c) q)
  | (None, c') =>
      c' = c /\ forall q, StackAlloc.managed (fw_alloc (pc_frames c)) q <-> q ∈ trackers c H
  end.
Proof.
  intros Ho Hl. unfold try_frame_alloc. pose proof Ho as [Hown Hf Ha Hr].
  pose proof (StackAlloc.frame_alloc_spec _ (Tracker.owns_alloc _ _ Hown)) as Hs.
  destruct (StackAlloc.alloc _) as [[p|] a].
  - destruct (Tracker.new_owns _ _ _ _ Hown Hs) as [Hn Hp]. split_and!; try done.
    + split; try done. unfold trackers in *. simpl. lia.
    + simpl. unfold Tracker.set_page. by rewrite Z.eqb_refl.
    + intros q Hq. simpl. unfold Tracker.set_page. by destruct (q =? p) eqn:?; [lia|].
  - destruct Hs as (-> & _ & Hall). split; [by destruct c as [[] ? ? ?]|].
    intros q. by rewrite Hall, (Tracker.owns_live _ _ Hown).
Qed.

Lemma frame_alloc_owns c H :
  pc_owns c H -> Z.of_nat (length (trackers c H)) + 1 < USIZE_MAX ->
  exists r c', frame_alloc c = Some (r, c') /\
    match r with
    | Some p =>
        pc_owns c' (p :: H) /\ p ∉ trackers c' H /\
        Tracker.frame_refcount (pc_frames c') p = 1 /\
        fw_mem (pc_frames c') p = Tracker.zero_page /\
        (forall q, q <> p -> fw_mem (pc_frames c') q = fw_mem (pc_frames c) q) /\
        (length (trackers c' H) <= length (trackers c H))%nat
    | None =>
        c' = c /\ (forall q, StackAlloc.managed (fw_alloc (pc_frames c)) q -> q ∈ trackers c H) /\
        (forall k p, bt_get (file_cache c) k = Some p -> 1 < Tracker.count (trackers c H) p)
    end.
Proof.
  assert (forall c1 c2 p, pc_owns c2 (p :: H) -> p ∉ trackers c1 H -> trackers c2 H = trackers c1 H ->
    Tracker.frame_refcount (pc_frames c2) p = 1) as Hone.
  { intros c1 c2 p Ho Hn Heq. rewrite (frame_refcount_count c2 (p :: H)) by done.
    change (trackers c2 (p :: H)) with (p :: trackers c2 H).
    rewrite Tracker.count_cons, decide_True, Heq by done. rewrite Tracker.count_elem in Hn.
    pose proof (Tracker.count_nonneg (trackers c1 H) p). lia. }
  intros Ho Hl. unfold frame_alloc. pose proof (try_frame_alloc_owns c H Ho Hl) as Ht.
  destruct (try_frame_alloc c) as [[p|] c1].
  - destruct Ht as (Ho1 & Hn & Heq & Hz & Hm). eexists _, _. split; [done|]. rewrite Heq.
    split_and!; try done. by eapply Hone.
  - destruct Ht as [-> Hall].
    destruct (reclaim_owns c H Ho) as (n & c2 & -> & Ho2 & [Hm2 Hmg] & Ha & Hk & Hn0 & Hle & H0 & Hpos). simpl.
    destruct (0 <? n) eqn:En.
    + assert (length (trackers c2 H) <= length (trackers c H))%nat.
      { unfold trackers, bt_values. rewrite !length_app, !length_map, Ha. lia. }
      pose proof (try_frame_alloc_owns c2 H Ho2 ltac:(lia)) as Ht.
      destruct (try_frame_alloc c2) as [[p|] c3].
      * destruct Ht as (Ho3 & Hn & Heq & Hz & Hm). eexists _, _. split; [done|]. rewrite Heq.
        split_and!; try done; [by eapply Hone|]. intros q Hq. rewrite <- Hm2. by apply Hm.
      * destruct Ht as [_ Hall2]. destruct (Hpos ltac:(lia)) as (p & Hp & Hnl). exfalso.
        apply Hnl. rewrite (Tracker.owns_live _ _ (pco_owns _ _ Ho2)). by apply Hall2.
    + assert (n = 0) as -> by lia. rewrite H0 by done. eexists _, _. split; [done|].
      split_and!; [done|intros q; apply Hall|]. intros k p Hg. specialize (Hk k).
      rewrite H0, Hg in Hk by done. simpl in Hk. by case_if; [|lia].
Qed.

(** C29: [frame_alloc] always returns.  On success the frame is zeroed, was owned by
    nobody, gets its only tracker, and no owned frame changes; on failure
    nothing changed, every managed frame is owned, and no cached file page
    could have been reclaimed. *)
Theorem frame_alloc_correct c H :
  pc_owns c H -> Z.of_nat (length (trackers c H)) + 1 < USIZE_MAX ->
  exists r c', frame_alloc c = Some (r, c') /\
    match r with
    | Some p =>
        pc_owns c' (p :: H) /\ p ∉ trackers c' H /\
        Tracker.frame_refcount (pc_frames c') p = 1 /\
        fw_mem (pc_frames c') p = Tracker.zero_page /\
        (forall q, q ∈ trackers c' H -> fw_mem (pc_frames c') q = fw_mem (pc_frames c) q)
    | None =>
        c' = c /\ (forall q, StackAlloc.managed (fw_alloc (pc_frames c)) q -> q ∈ trackers c H) /\
        (forall k p, bt_get (file_cache c) k = Some p -> 1 < Tracker.count (trackers c H) p)
    end.
Proof.
  intros Ho Hl. destruct (frame_alloc_owns c H Ho Hl) as ([p|] & c' & -> & Hr); eexists _, _; (split; [done|]).
  - destruct Hr as (Ho' & Hn & Hc & Hz & Hm & _). split_and!; try done. intros q Hq. apply Hm. by intros ->.
  - done.
Qed.

(** The frames in existence have 44-bit numbers. *)
Lemma tracker_range c H p : pc_owns c H -> p ∈ trackers c H -> 0 <= p < StackAlloc.PPN_MOD.
Proof.
  intros [Ho _ _ _] Hp. apply (Tracker.owns_live _ _ Ho) in Hp.
  apply (live_managed _ _ (Tracker.owns_alloc _ _ Ho)) in Hp as (b & Hb & ?).
  pose proof (StackAlloc.inv_range_ok _ (Tracker.owns_alloc _ _ Ho)) as Hr. rewrite Forall_forall in Hr.
  destruct (Hr b Hb). lia.
Qed.
