(* ===== verification/MmExamples.v ===== *)
(** * A small machine

    Four megabytes of memory with the kernel in the first two, one cached file
    page: the theorems of [FrameAlloc] and [PageCache] evaluated there. *)

From S2P Require Import Prelude.
From S2P Require Import BTree.
From S2P Require Import Address.
From S2P Require Import Ranges.
From S2P Require Import FrameAlloc.
From S2P Require Import PageCache.

Definition small_memory : list (Z * Z) := [(2147483648, 2151677952)].
Definition kernel_start : Z := 2147483648.
Definition kernel_end : Z := 2149580800.

Lemma small_memory_disjoint : StackAlloc.disjoint_bounds (map StackAlloc.memory_pages small_memory).
Proof. apply FOP_cons; [apply Forall_nil_2|apply FOP_nil]. Qed.

Lemma init_frame_allocator_correct_witness :
  exists a, StackAlloc.init_frame_allocator kernel_start kernel_end [] small_memory StackAlloc.new = Some a /\
    StackAlloc.alloc_inv a /\ forall p, ~ StackAlloc.live a p.
Proof.
  destruct (StackAlloc.init_frame_allocator_correct kernel_start kernel_end [] small_memory StackAlloc.new)
    as (a & Ha & Hi & Hl & _); [apply small_memory_disjoint|apply Nat.leb_le; reflexivity..|]. by exists a.
Defined.

Definition booted : StackFrameAllocator :=
  unwrap_or (StackAlloc.init_frame_allocator kernel_start kernel_end [] small_memory StackAlloc.new) StackAlloc.new.

Definition empty_cache : PageCache := mkPageCache (mkFrames booted ∅ (fun _ => Tracker.zero_page)) [] [] 1.

Lemma no_trackers_owns a m n :
  StackAlloc.alloc_inv a -> (forall p, ~ StackAlloc.live a p) -> pc_owns (mkPageCache (mkFrames a ∅ m) [] [] n) [].
Proof.
  intros Hi Hl. constructor; [constructor; [done| |done]|apply bt_wf_nil..|done].
  intros p. split; [intros H; by apply Hl in H|intros H; by apply elem_of_nil in H].
Qed.

Lemma empty_cache_owns : pc_owns empty_cache [].
Proof.
  assert (StackAlloc.init_frame_allocator kernel_start kernel_end [] small_memory StackAlloc.new = Some booted) as E
    by (vm_compute; reflexivity).
  destruct (StackAlloc.init_frame_allocator_spec kernel_start kernel_end [] small_memory StackAlloc.new booted)
    as (Hi & Hl & _); [apply small_memory_disjoint|apply Nat.leb_le; reflexivity|exact E|].
  exact (no_trackers_owns booted _ 1 Hi Hl).
Qed.

Lemma frame_alloc_correct_witness :
  exists p c', frame_alloc empty_cache = Some (Some p, c') /\ pc_owns c' [p] /\
    fw_mem (pc_frames c') p = Tracker.zero_page.
Proof.
  destruct (frame_alloc_correct empty_cache [] empty_cache_owns) as (r & c' & E & H); [vm_compute; reflexivity|].
  destruct r as [p|]; [destruct H as (H1 & _ & _ & H2 & _); exists p, c'; exact (conj E (conj H1 H2))|].
  exfalso. assert ((fun r => bool_decide (r.1 = None)) <$> frame_alloc empty_cache = Some false) as E' by (vm_compute; reflexivity).
  by rewrite E in E'.
Defined.

(** The cache with the first page of file 2 of device 1 in frame 524800. *)
Definition one_page : PageCache :=
  match frame_alloc empty_cache with
  | Some (Some p, c) => match shared_file_page_cache_insert_or_get c 1 2 0 p with Some (_, c) => c | None => c end
  | _ => empty_cache
  end.

Lemma one_page_facts :
  exists p, pc_owns one_page [p] /\ file_cache one_page = [((1, 2, 0), p)] /\
    fw_mem (pc_frames one_page) = Tracker.set_page (fun _ => Tracker.zero_page) p Tracker.zero_page.
Proof.
  unfold one_page.
  destruct (try_frame_alloc empty_cache) as [r c1] eqn:Et.
  pose proof (try_frame_alloc_owns empty_cache [] empty_cache_owns ltac:(vm_compute; reflexivity)) as Ho.
  unfold frame_alloc. rewrite Et in Ho |- *.
  destruct r as [p|]; [|exfalso; assert (bool_decide ((try_frame_alloc empty_cache).1 = None) = false) as E
    by (vm_compute; reflexivity); by rewrite Et in E].
  assert (c1 = (try_frame_alloc empty_cache).2) as Ec by (by rewrite Et).
  destruct Ho as (Ho & _). simpl.
  destruct (file_insert_or_get_owns c1 [] 1 2 0 p Ho) as (q & c2 & E & Ho2 & Hq & _); [subst c1; vm_compute; reflexivity|].
  rewrite E. assert (file_cache c1 = []) as Ef by (subst c1; vm_compute; reflexivity).
  rewrite Ef in Hq. simpl in Hq. subst q. exists p. split; [done|].
  unfold shared_file_page_cache_insert_or_get in E. rewrite Ef in E. injection E as <-. split; [done|].
  simpl. unfold try_frame_alloc in Et. destruct (StackAlloc.alloc _) as [[x|] a]; [|done]. injection Et as <- <-. done.
Qed.

Lemma one_page_full : full_pages (fw_mem (pc_frames one_page)).
Proof.
  destruct one_page_facts as (p & _ & _ & ->). intros q. unfold Tracker.set_page. case_match; apply length_replicate.
Qed.

Lemma one_page_injective : cache_injective (file_cache one_page).
Proof.
  destruct one_page_facts as (p & _ & -> & _). intros k1 k2 q. simpl.
  destruct (key_eqb k1 (1, 2, 0)) eqn:E1, (key_eqb k2 (1, 2, 0)) eqn:E2; try done. intros _ _.
  apply key_eqb_eq in E1, E2. congruence.
Qed.

(** Two bytes written at offset 10 are seen through the mapping. *)
Lemma shared_file_page_cache_write_coherent_witness :
  cached_byte (shared_file_page_cache_write one_page 1 2 10 [65; 66]) 1 2 11 = Some 66.
Proof.
  destruct one_page_facts as (p & Ho & Ef & Em).
  destruct (shared_file_page_cache_write_coherent one_page [p] 1 2 10 [65; 66] Ho one_page_injective one_page_full)
    as (_ & _ & H); [lia|simpl; lia|]. rewrite (H 1 2 11) by lia. rewrite bool_decide_eq_true_2; [reflexivity|].
  split_and!; [done..|simpl; lia|simpl; lia|]. unfold cached_byte, byte_at. rewrite Ef, Em. simpl.
  unfold Tracker.set_page. destruct (decide _) || case_match; vm_compute; by eexists.
Defined.

(** Truncated to 4 bytes, byte 11 of the cached page reads zero. *)
Lemma shared_file_page_cache_resize_spec_witness :
  exists c', shared_file_page_cache_resize one_page 1 2 4 = Some c' /\
    cached_byte c' 1 2 11 = (fun _ => 0) <$> cached_byte one_page 1 2 11 /\ cached_byte c' 1 2 4096 = None.
Proof.
  destruct one_page_facts as (p & Ho & _ & _).
  destruct (shared_file_page_cache_resize_spec one_page [p] 1 2 4 Ho one_page_injective one_page_full)
    as (c' & E & _ & H); [lia|]. exists c'. split_and!; [done|by rewrite (H 1 2 11)|by rewrite (H 1 2 4096)].
Defined.
