(* ===== verification/VmRegion.v ===== *)
(** * Virtual memory areas

    [mm/memory_set/vma.rs], [impl VmRegion] and [impl VmaInsertArea]: one
    virtual memory area, its permissions and fault policy, and the operations
    that cut, join, move and resize it. *)

From S2P Require Import Prelude Address Ranges.

Inductive VmRegionKind := Mmap | Heap | Elf | Stack.
Inductive MapType := Identical | Framed | Lazy.

#[export] Instance VmRegionKind_eq_dec : EqDecision VmRegionKind.
Proof. solve_decision. Defined.
#[export] Instance MapType_eq_dec : EqDecision MapType.
Proof. solve_decision. Defined.

(** [bitflags MapPermission] *)
Module MapPermission.
Definition R : Z := 2.
Definition W : Z := 4.
Definition X : Z := 8.
Definition U : Z := 16.
Definition IO : Z := 32.
Definition contains (p q : Z) : bool := Z.land p q =? q.
End MapPermission.

(** [bitflags PTEFlags] of [arch/riscv64/mm/page_table.rs], and the conversion
    from permissions: a writable leaf is always readable. *)
Module PTEFlags.
Definition V : Z := 1.
Definition R : Z := 2.
Definition W : Z := 4.
Definition X : Z := 8.
Definition U : Z := 16.
Definition G : Z := 32.
Definition A : Z := 64.
Definition D : Z := 128.
Definition COW : Z := 256.
Definition SHARED : Z := 512.
Definition contains (f g : Z) : bool := Z.land f g =? g.

Definition from (perm : Z) : Z :=
  let flags := 0 in
  let flags := if MapPermission.contains perm MapPermission.R then Z.lor flags R else flags in
  let flags := if MapPermission.contains perm MapPermission.W
               then Z.lor flags (Z.lor R W) else flags in
  let flags := if MapPermission.contains perm MapPermission.X then Z.lor flags X else flags in
  if MapPermission.contains perm MapPermission.U then Z.lor flags U else flags.
End PTEFlags.

Record VmRegion := mkVmRegion {
  r_kind : VmRegionKind;
  r_start : Z;
  r_len : Z;
  r_prot : Z;
  r_map_type : MapType;
  r_map_perm : Z;
  r_file_valid_len : Z;
  r_sigbus_start : Z;
  r_shared : bool;
  r_may_write_upgrade : bool;
  r_file_backed : bool;
  r_file_dev : Z;
  r_file_ino : Z;
  r_file_offset : Z;
  r_backing_id : Z;
  r_memfd_id : Z;
  r_anon_shared_id : Z;
  r_sysv_shmid : Z;
  r_growsdown : bool;
  r_fork_inherited_anon : bool
}.
#[export] Instance fields_VmRegion : Fields VmRegion := fun r =>
  mkVmRegion (r_kind r) (r_start r) (r_len r) (r_prot r) (r_map_type r) (r_map_perm r)
    (r_file_valid_len r) (r_sigbus_start r) (r_shared r) (r_may_write_upgrade r)
    (r_file_backed r) (r_file_dev r) (r_file_ino r) (r_file_offset r) (r_backing_id r)
    (r_memfd_id r) (r_anon_shared_id r) (r_sysv_shmid r) (r_growsdown r)
    (r_fork_inherited_anon r).

#[export] Instance VmRegion_eq_dec : EqDecision VmRegion.
Proof. solve_decision. Defined.

Module Region.

Definition PROT_READ : Z := 1.
Definition PROT_WRITE : Z := 2.
Definition PROT_EXEC : Z := 4.

Definition end_ (r : VmRegion) : Z := sat_add (r_start r) (r_len r).

Definition overlaps (r : VmRegion) (start end__ : Z) : bool :=
  (r_start r <? end__) && (start <? end_ r).

Definition is_mmap (r : VmRegion) : bool := bool_decide (r_kind r = Mmap).

Definition has_backing_identity (r : VmRegion) : bool :=
  r_file_backed r || negb (r_backing_id r =? 0) || negb (r_memfd_id r =? 0)
  || negb (r_anon_shared_id r =? 0) || negb (r_sysv_shmid r =? 0).

Definition is_heap (r : VmRegion) : bool := bool_decide (r_kind r = Heap).
Definition is_stack (r : VmRegion) : bool := bool_decide (r_kind r = Stack).

Definition is_file_like (r : VmRegion) : bool :=
  r_file_backed r || negb (r_memfd_id r =? 0) || negb (r_sysv_shmid r =? 0).

Definition is_private_anonymous (r : VmRegion) : bool :=
  negb (r_shared r) && negb (is_file_like r).

Definition can_zero_fill_framed_refault (r : VmRegion) : bool :=
  bool_decide (r_map_type r = Framed) && is_stack r && is_private_anonymous r.

Definition can_file_framed_lazy_fault (r : VmRegion) : bool :=
  bool_decide (r_map_type r = Framed) && r_file_backed r && negb (r_backing_id r =? 0).

Definition can_file_framed_refault (r : VmRegion) : bool :=
  can_file_framed_lazy_fault r && negb (r_shared r).

Definition can_have_lazy_concrete (r : VmRegion) : bool :=
  bool_decide (r_map_type r = Lazy) || can_file_framed_lazy_fault r
  || can_zero_fill_framed_refault r.

Definition file_valid_len (r : VmRegion) : Z := Z.min (r_file_valid_len r) (r_len r).
Definition file_valid_end (r : VmRegion) : Z := sat_add (r_start r) (file_valid_len r).
Definition file_mapped_len (r : VmRegion) : Z :=
  Z.min (sat_sub (r_sigbus_start r) (r_start r)) (r_len r).

Definition permission_from_prot (prot : Z) : Z :=
  let perm := MapPermission.U in
  let perm := if Z.land prot PROT_READ =? 0 then perm else Z.lor perm MapPermission.R in
  let perm := if Z.land prot PROT_WRITE =? 0 then perm else Z.lor perm MapPermission.W in
  if Z.land prot PROT_EXEC =? 0 then perm else Z.lor perm MapPermission.X.

Definition prot_from_permission (permission : Z) : Z :=
  let prot := 0 in
  let prot := if MapPermission.contains permission MapPermission.R
              then Z.lor prot PROT_READ else prot in
  let prot := if MapPermission.contains permission MapPermission.W
              then Z.lor prot PROT_WRITE else prot in
  if MapPermission.contains permission MapPermission.X then Z.lor prot PROT_EXEC else prot.

Definition lazy_fault_policy (r : VmRegion) (fault_va access : Z) : option (Z * Z) :=
  if negb (can_have_lazy_concrete r) || (r_sigbus_start r <=? fault_va) then None
  else
    let perm := r_map_perm r in
    if MapPermission.contains perm access then
      let pte_flags := PTEFlags.from perm in
      let pte_flags := if r_shared r then Z.lor pte_flags PTEFlags.SHARED else pte_flags in
      Some (perm, pte_flags)
    else None.

Definition allows_cow_fault (r : VmRegion) (fault_va : Z) : bool :=
  (fault_va <? r_sigbus_start r) && MapPermission.contains (r_map_perm r) MapPermission.W
  && negb (r_shared r).

Definition set_prot (r : VmRegion) (prot : Z) : VmRegion :=
  r {{ r_prot := prot; r_map_perm := permission_from_prot prot }}.

Definition set_len (r : VmRegion) (len : Z) : VmRegion :=
  let old_len := r_len r in
  let was_full_valid := r_file_valid_len r =? old_len in
  let file_like := is_file_like r in
  let r := if negb file_like || was_full_valid then r {{ r_file_valid_len := len }}
           else r {{ r_file_valid_len := Z.min (r_file_valid_len r) len }} in
  let r := r {{ r_len := len }} in
  if negb file_like then r {{ r_sigbus_start := end_ r }}
  else if was_full_valid then r {{ r_sigbus_start := end_ r }}
  else r {{ r_sigbus_start := clamp (r_sigbus_start r) (r_start r) (end_ r) }}.

Definition set_len_and_file_valid (r : VmRegion) (len file_valid_len : Z) : VmRegion :=
  let r := set_len r len in
  if is_file_like r then
    let valid := Z.min file_valid_len len in
    r {{ r_file_valid_len := valid;
         r_sigbus_start := sat_add (r_start r) (Z.min (align_up_to_page valid) len) }}
  else r {{ r_file_valid_len := len; r_sigbus_start := end_ r }}.

Definition expand_down_to (r : VmRegion) (new_start : Z) : VmRegion :=
  if r_start r <=? new_start then r
  else
    let old_len := r_len r in
    let grown := wsub (r_start r) new_start in
    let r := r {{ r_start := new_start; r_len := sat_add (r_len r) grown }} in
    if negb (is_file_like r) then
      let r := if r_file_valid_len r =? old_len then r {{ r_file_valid_len := r_len r }} else r in
      r {{ r_sigbus_start := end_ r }}
    else
      r {{ r_file_valid_len := Z.min (r_file_valid_len r) (r_len r);
           r_sigbus_start := clamp (r_sigbus_start r) (r_start r) (end_ r) }}.

Definition base_compatible (r next : VmRegion) : bool :=
  (end_ r =? r_start next) && bool_decide (r_kind r = r_kind next)
  && (r_prot r =? r_prot next) && bool_decide (r_map_type r = r_map_type next)
  && (r_map_perm r =? r_map_perm next) && eqb (r_shared r) (r_shared next)
  && eqb (r_may_write_upgrade r) (r_may_write_upgrade next)
  && eqb (r_file_backed r) (r_file_backed next) && (r_file_dev r =? r_file_dev next)
  && (r_file_ino r =? r_file_ino next) && (r_backing_id r =? r_backing_id next)
  && (r_memfd_id r =? r_memfd_id next) && (r_anon_shared_id r =? r_anon_shared_id next)
  && (r_sysv_shmid r =? r_sysv_shmid next) && eqb (r_growsdown r) (r_growsdown next)
  && eqb (r_fork_inherited_anon r) (r_fork_inherited_anon next).

Definition can_merge_with (r next : VmRegion) : bool :=
  if negb (base_compatible r next) then false
  else if r_shared r && negb (has_backing_identity r) then false
  else if negb (r_anon_shared_id r =? 0) then
    (wadd (r_file_offset r) (r_len r) =? r_file_offset next)
    && (r_file_valid_len r =? r_len r) && (r_file_valid_len next =? r_len next)
    && (end_ r <=? r_sigbus_start r) && (end_ next <=? r_sigbus_start next)
  else if has_backing_identity r then
    (wadd (r_file_offset r) (r_len r) =? r_file_offset next)
    && (r_file_valid_len r =? r_len r) && (r_sigbus_start r =? r_sigbus_start next)
  else
    (r_file_valid_len r =? r_len r) && (r_file_valid_len next =? r_len next)
    && (end_ r <=? r_sigbus_start r) && (end_ next <=? r_sigbus_start next).

(** [None] is the [false] result, which leaves [self] as it is. *)
Definition merge_with (r next : VmRegion) : option VmRegion :=
  if negb (can_merge_with r next) then None
  else
    let anonymous := negb (has_backing_identity r) in
    let r := r {{ r_file_valid_len :=
                    Z.min (sat_add (r_file_valid_len r) (r_file_valid_len next))
                          (sat_add (r_len r) (r_len next)) }} in
    let r := r {{ r_len := wadd (r_len r) (r_len next) }} in
    if anonymous then Some (r {{ r_file_valid_len := r_len r; r_sigbus_start := end_ r }})
    else Some r.

Definition slice (r : VmRegion) (start len : Z) : VmRegion :=
  let end__ := sat_add start len in
  let file_delta := sat_sub start (r_start r) in
  let valid_end := sat_add (r_start r) (Z.min (r_file_valid_len r) (r_len r)) in
  r {{ r_start := start; r_len := len;
       r_file_offset := sat_add (r_file_offset r) file_delta;
       r_file_valid_len := Z.min (sat_sub valid_end start) len;
       r_sigbus_start := clamp (r_sigbus_start r) start end__ }}.

Definition move_to (r : VmRegion) (new_start : Z) : VmRegion :=
  let sigbus_delta := Z.min (sat_sub (r_sigbus_start r) (r_start r)) (r_len r) in
  r {{ r_start := new_start; r_sigbus_start := sat_add new_start sigbus_delta }}.

End Region.

(** ** VmaInsertArea *)

Inductive VmaInsertArea :=
  | LazyArea (start end_ : Z)
  | FramedArea (start end_ : Z)
  | SharedFrames (start end_ : Z) (frames : list Z).

Module InsertArea.

Definition bounds (a : VmaInsertArea) : Z * Z :=
  match a with
  | LazyArea start end_ | FramedArea start end_ | SharedFrames start end_ _ => (start, end_)
  end.

Definition map_type (a : VmaInsertArea) : MapType :=
  match a with LazyArea _ _ => Lazy | FramedArea _ _ | SharedFrames _ _ _ => Framed end.

Definition frame_count_matches_range (a : VmaInsertArea) : bool :=
  let (start, end_) := bounds a in
  if end_ <=? start then true
  else
    match a with
    | SharedFrames _ _ frames =>
        ((end_ - start) mod PAGE_SIZE =? 0)
        && (Z.of_nat (length frames) =? (end_ - start) / PAGE_SIZE)
    | _ => true
    end.

Definition compatible_with_region (a : VmaInsertArea) (region : VmRegion) : bool :=
  let (start, end_) := bounds a in
  if end_ <=? start then true
  else if (start <? r_start region) || (Region.end_ region <? end_)
          || negb (frame_count_matches_range a) then false
  else
    let file_like := r_file_backed region || negb (r_memfd_id region =? 0)
                     || negb (r_sysv_shmid region =? 0) in
    if r_sigbus_start region <=? start then file_like && bool_decide (map_type a = Lazy)
    else if r_sigbus_start region <? end_ then false
    else
      match r_map_type region with
      | Lazy => bool_decide (map_type a = Lazy)
      | Framed => bool_decide (map_type a = Framed)
      | Identical => false
      end.

Definition concrete_permission_from_region (a : VmaInsertArea) (region : VmRegion) : option Z :=
  if compatible_with_region a region then
    let (start, _) := bounds a in
    Some (if r_sigbus_start region <=? start then MapPermission.U else r_map_perm region)
  else None.

End InsertArea.

(** ** What an area says about one address

    Two areas are interchangeable at an address when they agree on the policy
    fields, on the file offset behind the address (for areas that have a
    backing), on whether the address holds file content, and on whether it is
    in the SIGBUS tail.  A shared anonymous area has no SIGBUS tail: its
    [sigbus_start] is not part of the view. *)

Record Page := mkPage {
  pg_policy : VmRegion;
  pg_offset : option Z;
  pg_valid : bool;
  pg_sigbus : bool
}.
#[export] Instance fields_Page : Fields Page :=
  fun p => mkPage (pg_policy p) (pg_offset p) (pg_valid p) (pg_sigbus p).
#[export] Instance Page_eq_dec : EqDecision Page.
Proof. solve_decision. Defined.

Module View.
Import Region.

(** The fields that do not depend on the position of the area. *)
Definition policy (r : VmRegion) : VmRegion :=
  r {{ r_start := 0; r_len := 0; r_file_valid_len := 0; r_sigbus_start := 0; r_file_offset := 0 }}.

Definition contains (r : VmRegion) (x : Z) : bool := (r_start r <=? x) && (x <? end_ r).

Definition page_at (r : VmRegion) (x : Z) : Page := {|
  pg_policy := policy r;
  pg_offset := if has_backing_identity r then Some (r_file_offset r + (x - r_start r)) else None;
  pg_valid := x <? r_start r + r_file_valid_len r;
  pg_sigbus := (r_anon_shared_id r =? 0) && (r_sigbus_start r <=? x)
|}.

Record region_wf (r : VmRegion) : Prop := {
  rwf_start : 0 <= r_start r;
  rwf_len : 0 < r_len r;
  rwf_end : r_start r + r_len r <= USIZE_MAX;
  rwf_valid : 0 <= r_file_valid_len r <= r_len r;
  rwf_sigbus : is_usize (r_sigbus_start r);
  rwf_offset : is_usize (r_file_offset r);
  rwf_backing : has_backing_identity r = true -> r_file_offset r + r_len r <= USIZE_MAX
}.

Lemma end_eq r : region_wf r -> end_ r = r_start r + r_len r.
Proof. intros []. unfold end_. by rewrite sat_add_small by lia. Qed.

Lemma contains_iff r x : region_wf r -> contains r x = true <-> r_start r <= x < r_start r + r_len r.
Proof. intros Hw. unfold contains. rewrite end_eq by done. lia. Qed.

Lemma contains_start r : region_wf r -> contains r (r_start r) = true.
Proof. intros Hw. apply contains_iff; [done|]. destruct Hw. lia. Qed.

(** *** slice *)

Lemma slice_policy r s l : policy (slice r s l) = policy r.
Proof. done. Qed.

Lemma slice_backing r s l : has_backing_identity (slice r s l) = has_backing_identity r.
Proof. done. Qed.

(** A cut inside an area is an area that says the same about every address of
    the cut. *)
Lemma slice_spec r s l :
  region_wf r -> r_start r <= s -> 0 < l -> s + l <= r_start r + r_len r ->
  region_wf (slice r s l) /\
  forall x, s <= x < s + l -> page_at (slice r s l) x = page_at r x.
Proof.
  intros [] Hs Hl He. unfold is_usize in *. split.
  - split; simpl; try lia.
    + unfold sat_add, sat_sub. lia.
    + rewrite sat_add_small by lia. unfold is_usize, clamp. repeat case_if; lia.
    + unfold is_usize, sat_add, sat_sub. lia.
    + rewrite slice_backing. intros Hb. specialize (rwf_backing0 Hb).
      rewrite sat_sub_small, sat_add_small by (unfold sat_sub; lia). lia.
  - intros x Hx. unfold page_at. rewrite slice_policy, slice_backing. f_equal; simpl.
    + destruct (has_backing_identity r) eqn:Hb; [|done]. specialize (rwf_backing0 eq_refl). f_equal.
      rewrite sat_sub_small, sat_add_small by (unfold sat_sub; lia). lia.
    + rewrite sat_add_small by lia. unfold sat_sub. lia.
    + rewrite sat_add_small by lia. unfold clamp. repeat case_if; lia.
Qed.

(** *** merge_with *)

Lemma base_compatible_spec r next :
  base_compatible r next = true ->
  end_ r = r_start next /\ policy r = policy next /\
  has_backing_identity next = has_backing_identity r.
Proof.
  unfold base_compatible. rewrite !andb_true_iff, !Z.eqb_eq, !bool_decide_eq_true, !eqb_true_iff.
  intros. destruct_and!. destruct r, next; simpl in *. subst. done.
Qed.

(** Joining two areas gives an area that covers both and says about every
    address what the one that held it said. *)
Lemma merge_with_spec r next r' :
  region_wf r -> region_wf next -> merge_with r next = Some r' ->
  r_start next = r_start r + r_len r /\ region_wf r' /\
  r_start r' = r_start r /\ r_len r' = r_len r + r_len next /\
  policy r' = policy r /\ policy r' = policy next /\
  (forall x, r_start r <= x < r_start next -> page_at r' x = page_at r x) /\
  (forall x, r_start next <= x < r_start next + r_len next -> page_at r' x = page_at next x).
Proof.
  intros Hw1 Hw2 Hm. unfold merge_with in Hm.
  destruct (can_merge_with r next) eqn:Hc; simpl in Hm; [|done].
  unfold can_merge_with in Hc. destruct (base_compatible r next) eqn:Hb; simpl in Hc; [|done].
  apply base_compatible_spec in Hb as (He & Hp & Hbi). rewrite end_eq in He by done.
  rewrite (end_eq r Hw1), (end_eq next Hw2) in Hc.
  assert (r_anon_shared_id next = r_anon_shared_id r) as Ha by exact (eq_sym (f_equal r_anon_shared_id Hp)).
  destruct Hw1, Hw2. unfold is_usize in *.
  destruct (r_shared r && negb (has_backing_identity r)); [done|].
  assert (wadd (r_len r) (r_len next) = r_len r + r_len next) as Hlen by (apply wadd_small; lia).
  destruct (has_backing_identity r) eqn:Hbr; simpl in Hm.
  - injection Hm as <-. specialize (rwf_backing0 eq_refl). specialize (rwf_backing1 Hbi).
    rewrite wadd_small in Hc by lia.
    assert (r_file_offset r + r_len r = r_file_offset next /\ r_file_valid_len r = r_len r /\
      (r_anon_shared_id r = 0 -> r_sigbus_start r = r_sigbus_start next)) as (Hc1 & Hc2 & Hc3)
      by (destruct (r_anon_shared_id r =? 0) eqn:?; simpl in Hc; lia).
    set (r' := assign r_len _ _).
    assert (policy r' = policy r) as Hp' by done. assert (has_backing_identity r' = true) as Hb' by exact Hbr.
    assert (r_len r' = r_len r + r_len next) as Hl' by exact Hlen.
    assert (r_file_valid_len r' = r_len r + r_file_valid_len next) as Hv'.
    { simpl. rewrite !sat_add_small by lia. lia. }
    assert (r_sigbus_start r' = r_sigbus_start r /\ r_start r' = r_start r /\
      r_file_offset r' = r_file_offset r /\ r_anon_shared_id r' = r_anon_shared_id r) as (Hs' & Hst' & Ho' & Han')
      by done.
    clearbody r'. unfold page_at. rewrite Hl', Hv', Hs', Hst', Ho', Han', Hp', Hb', Hbi, Hbr, Hp, Ha.
    split; [lia|]. split; [split; unfold is_usize; rewrite ?Hl', ?Hv', ?Hs', ?Hst', ?Ho'; lia|].
    split_and!; try done; intros x Hx; f_equal; try (f_equal; lia); try lia.
  - assert (r_anon_shared_id r = 0) as Hz.
    { unfold has_backing_identity in Hbr. rewrite !orb_false_iff in Hbr. lia. }
    rewrite Hz in Hc, Ha. simpl in Hc. injection Hm as <-.
    set (r1 := assign r_len _ _).
    set (r' := assign r_sigbus_start _ _).
    assert (policy r' = policy r) as Hp' by done. assert (has_backing_identity r' = false) as Hb' by exact Hbr.
    assert (r_len r' = r_len r + r_len next) as Hl' by exact Hlen.
    assert (r_file_valid_len r' = r_len r + r_len next) as Hv' by exact Hlen.
    assert (r_sigbus_start r' = r_start r + (r_len r + r_len next)) as Hs'.
    { simpl. unfold end_. simpl. rewrite Hlen. apply sat_add_small. lia. }
    assert (r_start r' = r_start r /\ r_file_offset r' = r_file_offset r /\
      r_anon_shared_id r' = r_anon_shared_id r) as (Hst' & Ho' & Han') by done.
    clearbody r'. unfold page_at. rewrite Hl', Hv', Hs', Hst', Han', Hp', Hb', Hbi, Hbr, Hp, Ha, Hz.
    split; [lia|]. split; [split; unfold is_usize; rewrite ?Hl', ?Hv', ?Hs', ?Hst', ?Ho'; try lia; congruence|].
    split_and!; try done; intros x Hx; f_equal; lia.
Qed.

(** *** set_prot, move_to *)

Definition page_set_prot (p : Page) (prot : Z) : Page :=
  p {{ pg_policy := set_prot (pg_policy p) prot }}.

Lemma set_prot_spec r prot :
  region_wf r ->
  region_wf (set_prot r prot) /\
  forall x, page_at (set_prot r prot) x = page_set_prot (page_at r x) prot.
Proof. intros []. by split. Qed.

(** A moved area says about [new_start + d] what it said about [start + d]. *)
Lemma move_to_spec r n :
  region_wf r -> 0 <= n -> n + r_len r <= USIZE_MAX ->
  region_wf (move_to r n) /\ r_start (move_to r n) = n /\ r_len (move_to r n) = r_len r /\
  forall x, n <= x < n + r_len r -> page_at (move_to r n) x = page_at r (x - n + r_start r).
Proof.
  intros [] Hn He. unfold is_usize in *.
  assert (policy (move_to r n) = policy r) as Hp by done.
  assert (has_backing_identity (move_to r n) = has_backing_identity r) as Hb by done.
  assert (r_sigbus_start (move_to r n) =
    n + Z.min (Z.max 0 (r_sigbus_start r - r_start r)) (r_len r)) as Hs.
  { simpl. unfold sat_add, sat_sub. lia. }
  split; [|split_and!; try done].
  - split; rewrite ?Hb, ?Hs; simpl; unfold is_usize; try lia; done.
  - intros x Hx. unfold page_at. rewrite Hp, Hb, Hs. simpl. f_equal.
    + case_if; [f_equal; lia|done].
    + lia.
    + f_equal. lia.
Qed.

(** *** set_len *)

(** The bookkeeping of [file_valid_len] and [sigbus_start] that the constructors
    of areas establish: an area with no file behind it is valid throughout, and
    a fully valid area has no SIGBUS tail. *)
Definition tail_ok (r : VmRegion) : Prop :=
  (is_file_like r = false -> r_file_valid_len r = r_len r) /\
  (r_file_valid_len r = r_len r -> end_ r <= r_sigbus_start r).

(** Shrinking keeps what the area says about the addresses left; growing a fully
    valid area makes the new addresses valid and free of SIGBUS. *)
Lemma set_len_spec r len :
  region_wf r -> tail_ok r -> 0 < len -> r_start r + len <= USIZE_MAX ->
  (has_backing_identity r = true -> r_file_offset r + len <= USIZE_MAX) ->
  let r' := set_len r len in
  region_wf r' /\ r_start r' = r_start r /\ r_len r' = len /\ policy r' = policy r /\
  (forall x, r_start r <= x < r_start r + Z.min len (r_len r) -> page_at r' x = page_at r x) /\
  (r_file_valid_len r = r_len r -> forall x, x < r_start r + len ->
     pg_valid (page_at r' x) = true /\ pg_sigbus (page_at r' x) = false).
Proof.
  intros Hw [Ht1 Ht2] Hl He Hb. rewrite end_eq in Ht2 by done. destruct Hw. unfold is_usize in *.
  set (full := r_file_valid_len r =? r_len r).
  assert (negb (is_file_like r) || full = full) as Hfull.
  { destruct (is_file_like r); simpl; [done|]. unfold full. rewrite Ht1 by done. lia. }
  assert (set_len r len = r {{
    r_file_valid_len := if full then len else Z.min (r_file_valid_len r) len; r_len := len;
    r_sigbus_start := if full then r_start r + len
                      else clamp (r_sigbus_start r) (r_start r) (r_start r + len) }}) as Heq.
  { unfold set_len. fold full. rewrite Hfull.
    assert (end_ ((r {{ r_file_valid_len := if full then len else Z.min (r_file_valid_len r) len }})
      {{ r_len := len }}) = r_start r + len) as He' by (unfold end_; simpl; apply sat_add_small; lia).
    destruct full eqn:Hf, (is_file_like r); simpl in *; rewrite ?He'; done. }
  cbv zeta. rewrite Heq. clear Heq Hfull. simpl.
  split; [|split_and!; try done].
  - split; simpl; unfold is_usize; try lia; try (destruct full eqn:?; lia); try done.
    destruct full; [lia|]. unfold clamp. repeat case_if; lia.
  - intros x Hx. unfold page_at. simpl. f_equal.
    + subst full. destruct (_ =? _) eqn:Hf; lia.
    + f_equal. subst full. destruct (_ =? _) eqn:Hf; [lia|]. unfold clamp. repeat case_if; lia.
  - intros Hv x Hx. assert (full = true) as -> by lia. lia.
Qed.

(** *** expand_down_to *)

Lemma no_backing r :
  has_backing_identity r = false -> is_file_like r = false /\ r_anon_shared_id r = 0.
Proof.
  unfold has_backing_identity, is_file_like. rewrite !orb_false_iff, !negb_false_iff. lia.
Qed.

(** Growing an area with no backing down to [n] keeps what it said and makes the
    new addresses valid, of the same policy and free of SIGBUS. *)
Lemma expand_down_to_spec r n :
  region_wf r -> tail_ok r -> has_backing_identity r = false -> 0 <= n < r_start r ->
  let r' := expand_down_to r n in
  region_wf r' /\ r_start r' = n /\ end_ r' = end_ r /\ policy r' = policy r /\
  forall x, n <= x < end_ r ->
    page_at r' x = if x <? r_start r then mkPage (policy r) None true false else page_at r x.
Proof.
  intros Hw [Ht1 Ht2] Hb Hn. rewrite end_eq in * by done.
  destruct (no_backing r Hb) as [Hf Ha]. specialize (Ht1 Hf). specialize (Ht2 Ht1).
  destruct Hw. unfold is_usize in *.
  assert (expand_down_to r n = r {{ r_start := n; r_len := r_len r + (r_start r - n);
    r_file_valid_len := r_len r + (r_start r - n); r_sigbus_start := r_start r + r_len r }}) as Heq.
  { unfold expand_down_to. destruct (r_start r <=? n) eqn:?; [lia|].
    rewrite wsub_small, sat_add_small by (rewrite ?wsub_small; lia).
    change (is_file_like _) with (is_file_like r). rewrite Hf. simpl.
    assert (r_file_valid_len r =? r_len r = true) as -> by lia. unfold end_. simpl.
    rewrite sat_add_small by lia. unfold assign, field_setter. simpl. f_equal. lia. }
  cbv zeta. rewrite Heq. clear Heq.
  split; [|split_and!; try done].
  - split; simpl; unfold is_usize; try lia. intros Hb'. exfalso.
    unfold has_backing_identity in *. simpl in *. congruence.
  - unfold end_. simpl. rewrite sat_add_small by lia. lia.
  - intros x Hx. unfold page_at, has_backing_identity in *. simpl. rewrite Hb, Ha. simpl.
    destruct (x <? r_start r) eqn:?; f_equal; lia.
Qed.

(** With a backing behind the area, [expand_down_to] moves the start without
    moving [file_offset]: the file offset behind every address of the area
    grows by the distance moved. *)
Lemma expand_down_to_offset r n x :
  region_wf r -> has_backing_identity r = true -> 0 <= n < r_start r ->
  pg_offset (page_at (expand_down_to r n) x) =
    option_map (fun o => o + (r_start r - n)) (pg_offset (page_at r x)).
Proof.
  intros Hw Hb Hn. unfold expand_down_to. destruct (r_start r <=? n) eqn:?; [lia|].
  change (is_file_like _) with (is_file_like r). unfold page_at.
  destruct (is_file_like r); simpl; [|destruct (r_file_valid_len r =? r_len r)];
    change (has_backing_identity _) with (has_backing_identity r);
    rewrite Hb; simpl; f_equal; lia.
Qed.

End View.

(** ** Permissions *)

Lemma land_bit_zero p k : 0 <= k -> (Z.land p (2 ^ k) =? 0) = negb (Z.testbit p k).
Proof.
  intros Hk. destruct (Z.testbit p k) eqn:E; simpl.
  - apply Z.eqb_neq. intros Heq. apply (f_equal (fun z => Z.testbit z k)) in Heq.
    rewrite Z.land_spec, E, Z.pow2_bits_true, Z.bits_0 in Heq by done. done.
  - apply Z.eqb_eq. apply Z.bits_inj'. intros n Hn. rewrite Z.land_spec, Z.pow2_bits_eqb, Z.bits_0 by done.
    destruct (Z.eqb_spec k n) as [->|]; [by rewrite E|by rewrite andb_false_r].
Qed.

Lemma land_7_bits p :
  0 <= p -> Z.land p 7 = Z.b2z (Z.testbit p 0) + 2 * Z.b2z (Z.testbit p 1) + 4 * Z.b2z (Z.testbit p 2).
Proof.
  intros Hp. change 7 with (Z.ones 3). rewrite Z.land_ones by done.
  rewrite !Z.testbit_spec' by done. change (2 ^ 0) with 1. change (2 ^ 1) with 2. change (2 ^ 2) with 4.
  change (2 ^ 3) with 8. rewrite Z.div_1_r. Z.to_euclidean_division_equations. lia.
Qed.

(** The three [prot] bits and the page permission bits correspond, in both
    directions, whatever other bits the argument has; the user bit is always
    set; and a leaf entry made from a permission is writable only if it is
    readable. *)
Theorem prot_permission_roundtrip prot :
  0 <= prot ->
  Region.prot_from_permission (Region.permission_from_prot prot) = Z.land prot 7 /\
  MapPermission.contains (Region.permission_from_prot prot) MapPermission.U = true /\
  (forall perm, PTEFlags.contains (PTEFlags.from perm) PTEFlags.W = true ->
     PTEFlags.contains (PTEFlags.from perm) PTEFlags.R = true /\
     MapPermission.contains perm MapPermission.W = true).
Proof.
  intros Hp. split_and!.
  - unfold Region.permission_from_prot, Region.PROT_READ, Region.PROT_WRITE, Region.PROT_EXEC.
    pose proof (land_bit_zero prot 0 ltac:(done)) as H0. pose proof (land_bit_zero prot 1 ltac:(done)) as H1.
    pose proof (land_bit_zero prot 2 ltac:(done)) as H2. change (2 ^ 0) with 1 in H0. change (2 ^ 1) with 2 in H1.
    change (2 ^ 2) with 4 in H2. rewrite H0, H1, H2.
    rewrite land_7_bits by done.
    by destruct (Z.testbit prot 0), (Z.testbit prot 1), (Z.testbit prot 2).
  - unfold Region.permission_from_prot. repeat case_if; done.
  - intros perm. unfold PTEFlags.from. repeat case_if; done.
Qed.
