(* ===== verification/VmRegionSet.v ===== *)
(** * The set of virtual memory areas of an address space

    [mm/memory_set/vma.rs], [impl VmRegionSet]: a [BTreeMap] from start address
    to area, and the operations behind [mmap], [munmap], [brk], [mprotect] and
    [mremap].  The specification is the map from addresses to what their area
    says about them ([vma_view]); each operation is shown to be the intended
    change of that map. *)

From S2P Require Import Prelude BTree Address Ranges VmRegion.

Abbreviation regions := (list (Z * VmRegion)).

Module VmaSet.
Import Region.

Definition new : regions := [].

Definition mark_fork_inherited_anonymous_mmap (s : regions) : regions :=
  map (fun e => (e.1, if bool_decide (r_kind e.2 = Mmap) && is_private_anonymous e.2
                      then e.2 {{ r_fork_inherited_anon := true }} else e.2)) s.

(** The [loop] of [count_after_insert_merged]; a turn that continues consumed a
    region, so [S (length s)] turns are enough. *)
Fixpoint count_next (fuel : nat) (s : regions) (merged : VmRegion) (count : Z) : Z :=
  match fuel with
  | O => count
  | S fuel' =>
      match bt_get s (end_ merged) with
      | None => count
      | Some next =>
          match merge_with merged next with
          | None => count
          | Some merged' => count_next fuel' s merged' (sat_sub count 1)
          end
      end
  end.

Definition count_after_insert_merged (s : regions) (region : VmRegion) : Z :=
  if r_len region =? 0 then Z.of_nat (length s)
  else
    let count := sat_add (Z.of_nat (length s)) 1 in
    let '(merged, count) :=
      match bt_last_lt s (r_start region) with
      | Some (_, prev) =>
          match merge_with prev region with
          | Some merged => (merged, sat_sub count 1)
          | None => (region, count)
          end
      | None => (region, count)
      end in
    count_next (S (length s)) s merged count.

Definition insert_unmerged (s : regions) (region : VmRegion) : regions :=
  if r_len region =? 0 then s else bt_insert s (r_start region) region.

(** The [loop] of [insert_merged]. *)
Fixpoint absorb_next (fuel : nat) (s : regions) (region : VmRegion) : regions * VmRegion :=
  match fuel with
  | O => (s, region)
  | S fuel' =>
      let next_key := end_ region in
      match bt_get s next_key with
      | None => (s, region)
      | Some next =>
          match merge_with region next with
          | None => (s, region)
          | Some region' => absorb_next fuel' (bt_remove s next_key) region'
          end
      end
  end.

(** The first step of [insert_merged]: joining with the area before. *)
Definition absorb_prev (s : regions) (region : VmRegion) : regions * VmRegion :=
  match bt_last_lt s (r_start region) with
  | Some (prev_key, prev) =>
      match merge_with prev region with
      | Some merged => (bt_remove s prev_key, merged)
      | None => (s, region)
      end
  | None => (s, region)
  end.

Definition insert_merged (s : regions) (region : VmRegion) : regions :=
  if r_len region =? 0 then s
  else
    let '(s, region) := absorb_prev s region in
    let '(s, region) := absorb_next (S (length s)) s region in
    insert_unmerged s region.

Definition push_merged (s : regions) (region : VmRegion) : regions := insert_merged s region.

Definition containing_addr (s : regions) (addr : Z) : option VmRegion :=
  match bt_last_le s addr with
  | Some (_, region) => if addr <? end_ region then Some region else None
  | None => None
  end.

Definition first_overlap_before_or_at (s : regions) (start end__ : Z) : option VmRegion :=
  if end__ <=? start then None
  else
    match bt_last_le s start with
    | Some (_, region) => if overlaps region start end__ then Some region else None
    | None => None
    end.

Definition any_overlap_where (s : regions) (start end__ : Z) (pred : VmRegion -> bool) : bool :=
  if end__ <=? start then false
  else
    match first_overlap_before_or_at s start end__ with
    | Some region => pred region
    | None => false
    end
    || existsb (fun e => pred e.2) (bt_range s (sat_add start 1) end__).

Definition overlaps_range (s : regions) (start end__ : Z) : bool :=
  any_overlap_where s start end__ (fun _ => true).

Definition any_overlap_except (s : regions) (start end__ : Z) (exclude : option (Z * Z)) : bool :=
  any_overlap_where s start end__ (fun region =>
    range_overlaps_except start end__ (r_start region) (end_ region) exclude).

(** The [while cursor < end] loop; the cursor moves to the end of an area each
    turn. *)
Fixpoint covers_loop (fuel : nat) (s : regions) (cursor end__ : Z) : bool :=
  match fuel with
  | O => false
  | S fuel' =>
      if cursor <? end__ then
        match containing_addr s cursor with
        | None => false
        | Some region =>
            let region_end := end_ region in
            if region_end <=? cursor then false
            else covers_loop fuel' s (Z.min region_end end__) end__
        end
      else true
  end.

Definition covers_range (s : regions) (start end__ : Z) : bool :=
  if end__ <=? start then true
  else covers_loop (S (length s)) s start end__.

Definition collect_overlaps_where (s : regions) (start end__ : Z) (pred : VmRegion -> bool)
    : list VmRegion :=
  if end__ <=? start then []
  else
    match first_overlap_before_or_at s start end__ with
    | Some region => if pred region then [region] else []
    | None => []
    end
    ++ List.filter pred (bt_values (bt_range s (sat_add start 1) end__)).

(** The part of an area inside a range, if any. *)
Definition clip (start end__ : Z) (region : VmRegion) : list VmRegion :=
  let ov_start := Z.max start (r_start region) in
  let ov_end := Z.min end__ (end_ region) in
  if ov_start <? ov_end then [slice region ov_start (ov_end - ov_start)] else [].

Definition snapshot_range (s : regions) (start end__ : Z) : list VmRegion :=
  if end__ <=? start then []
  else
    match first_overlap_before_or_at s start end__ with
    | Some region => clip start end__ region
    | None => []
    end
    ++ (bt_values (bt_range s (sat_add start 1) end__) ≫= clip start end__).

(** The body of the loops of [trim_range] and [trim_heap_range]. *)
Definition trim_one (start end__ : Z) (s : regions) (region : VmRegion) : regions :=
  let s := bt_remove s (r_start region) in
  let r_end := end_ region in
  let s := if r_start region <? start
           then insert_merged s (slice region (r_start region) (start - r_start region)) else s in
  if end__ <? r_end then insert_merged s (slice region end__ (r_end - end__)) else s.

Definition trim_range (s : regions) (start end__ : Z) : regions :=
  foldl (trim_one start end__) s (collect_overlaps_where s start end__ (fun _ => true)).

Definition trim_heap_range (s : regions) (start end__ : Z) : regions :=
  foldl (trim_one start end__) s (collect_overlaps_where s start end__ is_heap).

Definition write_denied (region : VmRegion) (new_prot : Z) : bool :=
  MapPermission.contains (permission_from_prot new_prot) MapPermission.W
  && negb (MapPermission.contains (r_map_perm region) MapPermission.W)
  && negb (r_may_write_upgrade region).

Definition can_mprotect_range (s : regions) (start end__ new_prot : Z) : bool :=
  let asks_write := MapPermission.contains (permission_from_prot new_prot) MapPermission.W in
  forallb (fun region =>
    if negb (overlaps region start end__) then true
    else negb asks_write || MapPermission.contains (r_map_perm region) MapPermission.W
         || r_may_write_upgrade region) (bt_values s).

(** The body of the second loop of [apply_mprotect_range]. *)
Definition mprotect_one (start end__ new_prot : Z) (s : regions) (region : VmRegion) : regions :=
  let s := bt_remove s (r_start region) in
  let r_end := end_ region in
  let s := if r_start region <? start
           then insert_merged s (slice region (r_start region) (start - r_start region)) else s in
  let ov_start := Z.max start (r_start region) in
  let ov_end := Z.min end__ r_end in
  let mid := set_prot (slice region ov_start (ov_end - ov_start)) new_prot in
  let s := insert_merged s mid in
  if end__ <? r_end then insert_merged s (slice region end__ (r_end - end__)) else s.

(** [None] is [Err(())]; the set is then as it was. *)
Definition apply_mprotect_range (s : regions) (start end__ new_prot : Z) : option regions :=
  let overlaps := collect_overlaps_where s start end__ (fun _ => true) in
  if existsb (fun region =>
       let ov_start := Z.max start (r_start region) in
       let ov_end := Z.min end__ (end_ region) in
       write_denied (slice region ov_start (ov_end - ov_start)) new_prot) overlaps
  then None
  else Some (foldl (mprotect_one start end__ new_prot) s overlaps).

Definition move_one (old_addr old_end new_start : Z) (s : regions) (region : VmRegion) : regions :=
  let s := bt_remove s (r_start region) in
  let r_end := end_ region in
  let ov_start := Z.max old_addr (r_start region) in
  let ov_end := Z.min old_end r_end in
  let s := if r_start region <? ov_start
           then insert_merged s (slice region (r_start region) (ov_start - r_start region)) else s in
  let moved_start := sat_add new_start (sat_sub ov_start old_addr) in
  let moved := move_to (slice region ov_start (ov_end - ov_start)) moved_start in
  let s := insert_merged s moved in
  if ov_end <? r_end then insert_merged s (slice region ov_end (r_end - ov_end)) else s.

Definition move_range_metadata_raw (s : regions) (old_addr old_len new_start : Z) : regions :=
  let old_end := sat_add old_addr old_len in
  foldl (move_one old_addr old_end new_start) s
    (collect_overlaps_where s old_addr old_end (fun _ => true)).

(** The boolean result and the set. *)
Definition isolate_range_raw (s : regions) (start len : Z) : bool * regions :=
  match checked_add start len with
  | None => (false, s)
  | Some end__ =>
      if end__ <=? start then (false, s)
      else
        match containing_addr s start with
        | None => (false, s)
        | Some region =>
            let r_end := end_ region in
            if r_end <? end__ then (false, s)
            else
              let s := bt_remove s (r_start region) in
              let s := if r_start region <? start
                       then insert_unmerged s (slice region (r_start region) (start - r_start region))
                       else s in
              let s := insert_unmerged s (slice region start len) in
              let s := if end__ <? r_end then insert_unmerged s (slice region end__ (r_end - end__))
                       else s in
              (true, s)
        end
  end.

Definition set_len_by_start (s : regions) (start len : Z) : bool * regions :=
  match bt_get s start with
  | None => (false, s)
  | Some region => (true, insert_merged (bt_remove s start) (set_len region len))
  end.

Definition set_len_and_file_valid_by_start (s : regions) (start len file_valid_len : Z)
    : bool * regions :=
  match bt_get s start with
  | None => (false, s)
  | Some region =>
      (true, insert_merged (bt_remove s start) (set_len_and_file_valid region len file_valid_len))
  end.

Definition set_file_valid_by_identity (s : regions) (start dev ino file_valid_len sigbus_start : Z)
    : bool * regions :=
  match bt_get s start with
  | None => (false, s)
  | Some region =>
      let s := bt_remove s start in
      if negb (r_file_dev region =? dev) || negb (r_file_ino region =? ino)
      then (false, insert_unmerged s region)
      else
        (true, insert_merged s (region {{ r_file_valid_len := file_valid_len;
                                          r_sigbus_start := sigbus_start }}))
  end.

(** The body of the loop of [file_copy_targets]: the updated area and the
    triple pushed, if any. *)
Definition copy_target (dev ino write_off write_end : Z) (region : VmRegion)
    : VmRegion * option (Z * Z * Z) :=
  if negb (r_file_backed region) || negb (r_file_dev region =? dev)
     || negb (r_file_ino region =? ino) then (region, None)
  else
    let mapped_len := file_mapped_len region in
    match checked_add (r_file_offset region) (r_len region) with
    | None => (region, None)
    | Some region_file_end =>
        match checked_add (r_file_offset region) mapped_len with
        | None => (region, None)
        | Some mapped_file_end =>
            let overlap_start := Z.max write_off (r_file_offset region) in
            let overlap_end := Z.min (Z.min write_end region_file_end) mapped_file_end in
            if overlap_end <=? overlap_start then (region, None)
            else
              let new_valid_len :=
                Z.min (Z.min (sat_sub write_end (r_file_offset region)) mapped_len) (r_len region) in
              let region' :=
                if r_file_valid_len region <? new_valid_len
                then region {{ r_file_valid_len := new_valid_len }} else region in
              (region', Some (wadd (r_start region) (overlap_start - r_file_offset region),
                              overlap_start - write_off, overlap_end - overlap_start))
        end
    end.

Fixpoint file_copy_targets_loop (dev ino write_off write_end : Z) (s : regions)
    : list (Z * Z * Z) * regions :=
  match s with
  | [] => ([], [])
  | (k, region) :: s' =>
      let '(region', target) := copy_target dev ino write_off write_end region in
      let '(pending, s'') := file_copy_targets_loop dev ino write_off write_end s' in
      (match target with Some t => t :: pending | None => pending end, (k, region') :: s'')
  end.

Definition file_copy_targets (s : regions) (dev ino write_off len : Z)
    : list (Z * Z * Z) * regions :=
  file_copy_targets_loop dev ino write_off (sat_add write_off len) s.

Definition growsdown_candidate_before (s : regions) (fault_page : Z) : option VmRegion :=
  old_start ← checked_add fault_page PAGE_SIZE;
  region ← bt_get s old_start;
  if r_growsdown region then Some region else None.

Definition expand_growsdown_at (s : regions) (old_start new_start : Z) : bool * regions :=
  match bt_get s old_start with
  | None => (false, s)
  | Some region =>
      let s := bt_remove s old_start in
      if negb (r_growsdown region) then (false, bt_insert s old_start region)
      else (true, push_merged s (expand_down_to region new_start))
  end.

End VmaSet.

(** ** Specification: the map from addresses to pages *)

Module VmaSpec.
Import Region View VmaSet.

Record vma_wf (s : regions) : Prop := {
  vwf_bt : bt_wf s;
  vwf_elem : forall k r, (k, r) ∈ s -> k = r_start r /\ region_wf r;
  vwf_disj : forall k1 r1 k2 r2, (k1, r1) ∈ s -> (k2, r2) ∈ s -> k1 < k2 -> end_ r1 <= k2
}.

Definition vma_view (s : regions) (x : Z) : option Page :=
  match List.find (fun e => contains e.2 x) s with
  | Some e => Some (page_at e.2 x)
  | None => None
  end.

Lemma view_Some s x p :
  vma_view s x = Some p -> exists k r, (k, r) ∈ s /\ contains r x = true /\ p = page_at r x.
Proof.
  unfold vma_view. destruct (List.find _ s) as [[k r]|] eqn:E; [|done]. intros [= <-].
  apply List.find_some in E as [Hin Hc]. exists k, r. split; [by apply list_elem_of_In|done].
Qed.

Lemma view_None s x : vma_view s x = None <-> forall k r, (k, r) ∈ s -> contains r x = false.
Proof.
  unfold vma_view. destruct (List.find _ s) as [[k r]|] eqn:E.
  - split; [done|]. intros Hn. apply List.find_some in E as [Hin Hc].
    apply list_elem_of_In in Hin. simpl in Hc. by rewrite (Hn k r Hin) in Hc.
  - split; [|done]. intros _ k r Hin. apply list_elem_of_In in Hin.
    by apply (List.find_none _ _ E (k, r)).
Qed.

(** At most one area contains an address. *)
Lemma contains_unique s k1 r1 k2 r2 x :
  vma_wf s -> (k1, r1) ∈ s -> (k2, r2) ∈ s -> contains r1 x = true -> contains r2 x = true ->
  k1 = k2 /\ r1 = r2.
Proof.
  intros Hw H1 H2 C1 C2. destruct (vwf_elem _ Hw _ _ H1) as [-> W1], (vwf_elem _ Hw _ _ H2) as [-> W2].
  apply contains_iff in C1; [|done]. apply contains_iff in C2; [|done].
  destruct (decide (r_start r1 = r_start r2)) as [He|Hne].
  - rewrite He in H1. split; [done|]. eapply bt_wf_unique; [apply Hw|done|done].
  - exfalso. destruct (decide (r_start r1 < r_start r2)).
    + pose proof (vwf_disj _ Hw _ _ _ _ H1 H2 ltac:(done)). rewrite end_eq in * by done. lia.
    + pose proof (vwf_disj _ Hw _ _ _ _ H2 H1 ltac:(lia)). rewrite end_eq in * by done. lia.
Qed.

Lemma view_elem s k r x :
  vma_wf s -> (k, r) ∈ s -> contains r x = true -> vma_view s x = Some (page_at r x).
Proof.
  intros Hw Hin Hc. destruct (vma_view s x) as [p|] eqn:E.
  - apply view_Some in E as (k' & r' & Hin' & Hc' & ->).
    destruct (contains_unique s k r k' r' x Hw Hin Hin' Hc Hc') as [_ ->]. done.
  - rewrite view_None in E. by rewrite (E k r Hin) in Hc.
Qed.

Lemma vma_wf_nil : vma_wf [].
Proof. split; [apply bt_wf_nil|..]; intros *; by intros ?%elem_of_nil. Qed.

(** The address range of [r] is free in [s]. *)
Definition free_for (s : regions) (r : VmRegion) : Prop :=
  forall x, contains r x = true -> vma_view s x = None.

Lemma free_for_disjoint s r k q :
  vma_wf s -> region_wf r -> free_for s r -> (k, q) ∈ s -> end_ q <= r_start r \/ end_ r <= k.
Proof.
  intros Hw Hr Hf Hin. destruct (vwf_elem _ Hw _ _ Hin) as [-> Wq].
  rewrite !end_eq by done. destruct (decide (r_start q <= r_start r)).
  - pose proof (Hf (r_start r) (contains_start r Hr)) as Hn. rewrite view_None in Hn.
    specialize (Hn _ _ Hin). apply not_true_iff_false in Hn. rewrite contains_iff in Hn by done. lia.
  - right. destruct (decide (r_start r + r_len r <= r_start q)); [done|]. exfalso.
    assert (contains r (r_start q) = true) as Hc by (apply contains_iff; [done|]; lia).
    specialize (Hf _ Hc). rewrite view_None in Hf. specialize (Hf _ _ Hin).
    by rewrite contains_start in Hf.
Qed.

Lemma free_for_fresh s r : vma_wf s -> region_wf r -> free_for s r -> bt_get s (r_start r) = None.
Proof.
  intros Hw Wr Hf. apply bt_get_None. intros q Hq. destruct (vwf_elem _ Hw _ _ Hq) as [He Wq].
  pose proof (Hf _ (contains_start r Wr)) as Hn. rewrite view_None in Hn.
  specialize (Hn _ _ Hq). rewrite He in Hn. by rewrite contains_start in Hn.
Qed.

(** Adding an area where nothing is mapped. *)
Lemma insert_view s r :
  vma_wf s -> region_wf r -> free_for s r ->
  vma_wf (bt_insert s (r_start r) r) /\
  forall x, vma_view (bt_insert s (r_start r) r) x =
    if contains r x then Some (page_at r x) else vma_view s x.
Proof.
  intros Hw Hr Hf. pose proof (vwf_bt _ Hw) as Hbt.
  assert (forall k q, (k, q) ∈ bt_insert s (r_start r) r ->
    (k = r_start r /\ q = r) \/ (k, q) ∈ s) as Hsub by (intros; by apply bt_insert_elem).
  assert ((r_start r, r) ∈ bt_insert s (r_start r) r) as Hin
    by (apply bt_insert_elem_iff; [done|]; by left).
  assert (vma_wf (bt_insert s (r_start r) r)) as Hw'.
  { split.
    - by apply bt_wf_insert.
    - intros k q [[-> ->]|?]%Hsub; [done|by apply Hw].
    - intros k1 r1 k2 r2 [[-> ->]|H1]%Hsub [[-> ->]|H2]%Hsub Hlt; [lia| | |by eapply Hw].
      + destruct (free_for_disjoint _ _ _ _ Hw Hr Hf H2); [|done].
        destruct (vwf_elem _ Hw _ _ H2) as [-> Wq]. rewrite end_eq in * by done. destruct Wq. lia.
      + destruct (free_for_disjoint _ _ _ _ Hw Hr Hf H1); [done|].
        rewrite end_eq in * by done. destruct Hr. lia. }
  split; [done|]. intros x. destruct (contains r x) eqn:Hc; [by eapply view_elem|].
  destruct (vma_view s x) as [p|] eqn:E.
  - apply view_Some in E as (k & q & Hq & Hcq & ->). eapply view_elem; [done| |done].
    apply bt_insert_elem_iff; [done|]. right. split; [|done]. intros ->.
    pose proof (free_for_fresh s r Hw Hr Hf) as Hn. by apply (proj1 (bt_get_None _ _) Hn) in Hq.
  - apply view_None. intros k q [[-> ->]|Hq]%Hsub; [done|]. rewrite view_None in E. by eapply E.
Qed.

(** Taking an area out. *)
Lemma remove_view s r :
  vma_wf s -> (r_start r, r) ∈ s ->
  vma_wf (bt_remove s (r_start r)) /\
  forall x, vma_view (bt_remove s (r_start r)) x = if contains r x then None else vma_view s x.
Proof.
  intros Hw Hin. pose proof (vwf_bt _ Hw) as Hbt.
  assert (forall k q, (k, q) ∈ bt_remove s (r_start r) <-> k <> r_start r /\ (k, q) ∈ s) as Hiff
    by (intros; by apply bt_remove_elem_iff).
  assert (vma_wf (bt_remove s (r_start r))) as Hw'.
  { split.
    - by apply bt_wf_remove.
    - intros k q [_ ?]%Hiff. by apply Hw.
    - intros k1 r1 k2 r2 [_ ?]%Hiff [_ ?]%Hiff. by eapply (vwf_disj _ Hw). }
  split; [done|]. intros x. destruct (contains r x) eqn:Hc.
  - apply view_None. intros k q [Hne Hq]%Hiff. apply not_true_iff_false. intros Hcq.
    destruct (contains_unique s _ _ _ _ x Hw Hq Hin Hcq Hc). done.
  - destruct (vma_view s x) as [p|] eqn:E.
    + apply view_Some in E as (k & q & Hq & Hcq & ->). eapply view_elem; [done| |done].
      apply Hiff. split; [|done]. intros ->. pose proof (bt_wf_unique _ _ _ _ Hbt Hin Hq). congruence.
    + rewrite view_None in E. apply view_None. intros k q [_ ?]%Hiff. by eapply E.
Qed.

(** The view of [s] with the area [r], not in the set yet, laid over it. *)
Definition view_with (s : regions) (r : VmRegion) (x : Z) : option Page :=
  if contains r x then Some (page_at r x) else vma_view s x.

Lemma merge_contains r1 r2 r' x :
  region_wf r1 -> region_wf r2 -> merge_with r1 r2 = Some r' ->
  contains r' x = contains r1 x || contains r2 x /\
  (contains r1 x = true -> page_at r' x = page_at r1 x) /\
  (contains r2 x = true -> page_at r' x = page_at r2 x).
Proof.
  intros W1 W2 Hm. destruct (merge_with_spec _ _ _ W1 W2 Hm) as (Hs & W' & Hst & Hl & _ & _ & H1 & H2).
  split; [|split].
  - unfold contains. rewrite !end_eq by done. rewrite Hst, Hl. destruct W1, W2. lia.
  - rewrite contains_iff by done. intros. apply H1. lia.
  - rewrite contains_iff by done. intros. by apply H2.
Qed.

(** Moving an adjacent area of the set into the area being inserted. *)
Lemma absorb_one s r q r' :
  vma_wf s -> region_wf r -> free_for s r -> (r_start q, q) ∈ s ->
  merge_with q r = Some r' \/ merge_with r q = Some r' ->
  let s' := bt_remove s (r_start q) in
  vma_wf s' /\ region_wf r' /\ free_for s' r' /\ (forall x, view_with s' r' x = view_with s r x).
Proof.
  intros Hw Wr Hf Hin Hm. destruct (vwf_elem _ Hw _ _ Hin) as [_ Wq].
  destruct (remove_view s q Hw Hin) as [Hw' Hv].
  assert (forall x, contains r' x = contains q x || contains r x /\
    (contains q x = true -> page_at r' x = page_at q x) /\
    (contains r x = true -> page_at r' x = page_at r x)) as Hc.
  { intros x. destruct Hm as [Hm|Hm]; [by apply merge_contains|].
    destruct (merge_contains r q r' x Wr Wq Hm) as (H1 & H2 & H3). rewrite orb_comm. done. }
  assert (region_wf r') as Wr'.
  { destruct Hm as [Hm|Hm]; [pose proof (merge_with_spec _ _ _ Wq Wr Hm)|
      pose proof (merge_with_spec _ _ _ Wr Wq Hm)]; tauto. }
  split; [done|]. split; [done|]. split.
  - intros x Hx. rewrite Hv. destruct (Hc x) as (Heq & _ & _). rewrite Heq in Hx.
    destruct (contains q x); [done|]. simpl in Hx. by apply Hf.
  - intros x. unfold view_with. rewrite Hv. destruct (Hc x) as (-> & Hq & Hr).
    destruct (contains q x) eqn:Eq; simpl.
    + rewrite Hq by done. destruct (contains r x) eqn:Er.
      * exfalso. specialize (Hf x Er). rewrite view_None in Hf. by rewrite (Hf _ _ Hin) in Eq.
      * symmetry. by eapply view_elem.
    + destruct (contains r x); [|done]. by rewrite Hr.
Qed.

(** What joining with neighbours may do to the rest of the set: [s'] is [s]
    without some areas, all of them inside [[lo, hi)] and of the policy of
    [r]. *)
Record absorbs (s : regions) (r : VmRegion) (s' : regions) (r' : VmRegion) : Prop := {
  ab_wf : vma_wf s';
  ab_region : region_wf r';
  ab_free : free_for s' r';
  ab_view : forall x, view_with s' r' x = view_with s r x;
  ab_policy : policy r' = policy r;
  ab_sub : forall e, e ∈ s' -> e ∈ s;
  ab_start : r_start r' <= r_start r;
  ab_end : end_ r <= end_ r';
  ab_keep : forall k q, (k, q) ∈ s -> (k, q) ∈ s' \/ r_start r' <= k < end_ r'
}.

Lemma absorbs_refl s r : vma_wf s -> region_wf r -> free_for s r -> absorbs s r s r.
Proof. intros. split; try done. auto. Qed.

Lemma absorbs_trans s r s1 r1 s2 r2 :
  absorbs s r s1 r1 -> absorbs s1 r1 s2 r2 -> absorbs s r s2 r2.
Proof.
  intros [_ _ _ V1 P1 Sub1 S1 E1 K1] [W2 R2 F2 V2 P2 Sub2 S2 E2 K2]. split; try done; try lia.
  - intros x. by rewrite V2, V1.
  - congruence.
  - auto.
  - intros k q [?|?]%K1; [|right; lia]. by apply K2.
Qed.

Lemma absorbs_one s r q r' :
  vma_wf s -> region_wf r -> free_for s r -> (r_start q, q) ∈ s ->
  merge_with q r = Some r' \/ merge_with r q = Some r' ->
  absorbs s r (bt_remove s (r_start q)) r'.
Proof.
  intros Hw Wr Hf Hin Hm. destruct (absorb_one s r q r' Hw Wr Hf Hin Hm) as (Hw' & Wr' & Hf' & Hv).
  destruct (vwf_elem _ Hw _ _ Hin) as [_ Wq].
  assert (policy r' = policy r /\ r_start r' <= r_start r /\ end_ r <= end_ r' /\
    r_start r' <= r_start q < end_ r') as (Hp & Hs & He & Hq).
  { rewrite !end_eq by done. destruct Wq, Wr.
    destruct Hm as [Hm|Hm]; apply merge_with_spec in Hm as (? & ? & ? & ? & ? & ? & _); try by split.
    - split_and!; [congruence|lia..].
    - split_and!; [congruence|lia..]. }
  split; try done.
  - intros e. apply bt_remove_sub.
  - intros k p Hk. rewrite bt_remove_elem_iff by apply Hw.
    destruct (decide (k = r_start q)) as [->|]; [right; lia|auto].
Qed.

Lemma absorb_prev_spec s r :
  vma_wf s -> region_wf r -> free_for s r ->
  absorbs s r (absorb_prev s r).1 (absorb_prev s r).2.
Proof.
  intros Hw Wr Hf. unfold absorb_prev. destruct (bt_last_lt s (r_start r)) as [[k q]|] eqn:E;
    [|by apply absorbs_refl].
  apply bt_last_lt_Some in E as (Hin & _ & _); [|apply Hw].
  destruct (merge_with q r) as [r'|] eqn:Hm; [|by apply absorbs_refl].
  destruct (vwf_elem _ Hw _ _ Hin) as [-> _]. apply absorbs_one; auto.
Qed.

Lemma absorb_next_spec fuel s r :
  vma_wf s -> region_wf r -> free_for s r ->
  absorbs s r (absorb_next fuel s r).1 (absorb_next fuel s r).2.
Proof.
  revert s r. induction fuel as [|fuel IH]; intros s r Hw Wr Hf; simpl; [by apply absorbs_refl|].
  destruct (bt_get s (end_ r)) as [q|] eqn:E; [|by apply absorbs_refl].
  apply bt_get_elem in E; [|apply Hw]. destruct (vwf_elem _ Hw _ _ E) as [Hk _].
  destruct (merge_with r q) as [r'|] eqn:Hm; [|by apply absorbs_refl].
  rewrite Hk in E |- *. assert (absorbs s r (bt_remove s (r_start q)) r') as Hab by (apply absorbs_one; auto).
  eapply absorbs_trans; [exact Hab|]. apply IH; apply Hab.
Qed.

(** The set [insert_merged] builds. *)
Lemma insert_merged_absorbs s r :
  vma_wf s -> region_wf r -> free_for s r ->
  exists s' r', absorbs s r s' r' /\ insert_merged s r = bt_insert s' (r_start r') r'.
Proof.
  intros Hw Wr Hf. unfold insert_merged. destruct (r_len r =? 0) eqn:E0; [destruct Wr; lia|].
  pose proof (absorb_prev_spec s r Hw Wr Hf) as H1. destruct (absorb_prev s r) as [s1 r1]. simpl in H1.
  pose proof (absorb_next_spec (S (length s1)) s1 r1) as H2.
  destruct (absorb_next (S (length s1)) s1 r1) as [s2 r2]. simpl in H2.
  assert (absorbs s r s2 r2) as H by (eapply absorbs_trans; [exact H1|]; apply H2; apply H1).
  exists s2, r2. split; [done|]. unfold insert_unmerged. destruct (ab_region _ _ _ _ H).
  by destruct (r_len r2 =? 0) eqn:?; [lia|].
Qed.

(** Inserting an area in a free range maps exactly that range, as the area says,
    and keeps the set well formed. *)
Lemma insert_merged_spec s r :
  vma_wf s -> region_wf r -> free_for s r ->
  vma_wf (insert_merged s r) /\ forall x, vma_view (insert_merged s r) x = view_with s r x.
Proof.
  intros Hw Wr Hf. destruct (insert_merged_absorbs s r Hw Wr Hf) as (s' & r' & Hab & ->).
  destruct (insert_view s' r') as [Hw' Hv]; [apply Hab..|]. split; [done|].
  intros x. rewrite Hv. apply Hab.
Qed.

(** An area of the set is kept as it is unless the whole range from it to the
    new area is of one policy. *)
Lemma insert_merged_keep s r k q :
  vma_wf s -> region_wf r -> free_for s r -> (k, q) ∈ s ->
  (k, q) ∈ insert_merged s r \/
  forall x, Z.min k (r_start r) <= x <= Z.max k (end_ r - 1) ->
    exists p, view_with s r x = Some p /\ pg_policy p = policy r.
Proof.
  intros Hw Wr Hf Hin. destruct (insert_merged_absorbs s r Hw Wr Hf) as (s' & r' & Hab & ->).
  destruct (ab_keep _ _ _ _ Hab _ _ Hin) as [Hin'|Hk].
  - left. apply bt_insert_elem_iff; [apply Hab|]. right. split; [|done]. intros ->.
    pose proof (free_for_fresh s' r' (ab_wf _ _ _ _ Hab) (ab_region _ _ _ _ Hab) (ab_free _ _ _ _ Hab)) as Hn.
    by apply (proj1 (bt_get_None _ _) Hn) in Hin'.
  - right. intros x Hx. rewrite <- (ab_view _ _ _ _ Hab). unfold view_with.
    pose proof (ab_region _ _ _ _ Hab) as Wr'. pose proof (ab_start _ _ _ _ Hab).
    pose proof (ab_end _ _ _ _ Hab). rewrite (end_eq r), (end_eq r') in * by done.
    assert (contains r' x = true) as -> by (apply contains_iff; [done|]; lia).
    eexists. split; [done|]. apply (ab_policy _ _ _ _ Hab).
Qed.

(** In particular when its policy differs. *)
Lemma insert_merged_keep_policy s r k q :
  vma_wf s -> region_wf r -> free_for s r -> (k, q) ∈ s -> end_ r <= k -> policy q <> policy r ->
  (k, q) ∈ insert_merged s r.
Proof.
  intros Hw Wr Hf Hin Hk Hp. destruct (insert_merged_keep s r k q Hw Wr Hf Hin) as [?|Hall]; [done|].
  destruct (vwf_elem _ Hw _ _ Hin) as [Hkq Wq]. exfalso.
  destruct (Hall k) as (p & Hp1 & Hp2); [lia|]. unfold view_with in Hp1.
  replace (contains r k) with false in Hp1 by (unfold contains; lia).
  rewrite (view_elem s k q k Hw Hin) in Hp1 by (rewrite Hkq; by apply contains_start).
  injection Hp1 as <-. done.
Qed.

(** *** Lookups *)

Lemma vma_wf_cons k r s :
  vma_wf ((k, r) :: s) ->
  k = r_start r /\ region_wf r /\ vma_wf s /\ forall k' q, (k', q) ∈ s -> end_ r <= k'.
Proof.
  intros [Hbt Hel Hd]. destruct (Hel k r) as [-> Wr]; [by left|].
  apply bt_wf_cons in Hbt as [Hbt Hlt]. split_and!; try done.
  - split; [done| |].
    + intros k' q ?. apply Hel. by right.
    + intros k1 r1 k2 r2 ??. apply (Hd k1 r1 k2 r2); by right.
  - intros k' q Hin. apply (Hd (r_start r) r k' q); [by left|by right|].
    specialize (Hlt _ _ Hin). unfold key_lt in Hlt. simpl in Hlt. lia.
Qed.

(** An area that contains an address is the last one that starts at or below it. *)
Lemma last_le_container s k r x :
  vma_wf s -> (k, r) ∈ s -> contains r x = true -> bt_last_le s x = Some (k, r).
Proof.
  intros Hw Hin Hc. destruct (vwf_elem _ Hw _ _ Hin) as [-> Wr].
  apply contains_iff in Hc; [|done].
  destruct (bt_last_le s x) as [[k' r']|] eqn:E.
  - apply bt_last_le_Some in E as (Hin' & Hle & Hmax); [|apply Hw].
    destruct (Hmax _ _ Hin) as [He|Hlt]; [simpl; lia| |].
    + subst. f_equal. f_equal. eapply bt_wf_unique; [apply Hw|done|done].
    + unfold key_lt in Hlt. simpl in Hlt, Hle.
      pose proof (vwf_disj _ Hw _ _ _ _ Hin Hin' ltac:(lia)). rewrite end_eq in * by done. lia.
  - pose proof (bt_last_le_None _ _ E _ _ Hin) as Hlt. unfold key_lt in Hlt. simpl in Hlt. lia.
Qed.

Lemma containing_addr_iff s x r :
  vma_wf s -> containing_addr s x = Some r <-> (r_start r, r) ∈ s /\ contains r x = true.
Proof.
  intros Hw. unfold containing_addr. split.
  - destruct (bt_last_le s x) as [[k q]|] eqn:E; [|done].
    apply bt_last_le_Some in E as (Hin & Hle & _); [|apply Hw].
    destruct (vwf_elem _ Hw _ _ Hin) as [-> Wq]. simpl in Hle.
    destruct (x <? end_ q) eqn:Hx; [|done]. intros [= ->]. split; [done|].
    unfold contains. lia.
  - intros [Hin Hc]. rewrite (last_le_container s (r_start r) r x Hw Hin Hc).
    unfold contains in Hc. by destruct (x <? end_ r) eqn:?; [|lia].
Qed.

(** The areas that overlap a range, in address order. *)
Definition overlapping (s : regions) (start end__ : Z) : list VmRegion :=
  List.filter (fun r => overlaps r start end__) (bt_values s).

Lemma overlapping_above s start end__ :
  vma_wf s -> 0 <= start < end__ -> end__ <= USIZE_MAX ->
  (forall k r, (k, r) ∈ s -> start < k) ->
  bt_values (bt_range s (sat_add start 1) end__) = overlapping s start end__ /\
  bt_last_le s start = None.
Proof.
  intros Hw Hr Hm Hab. rewrite sat_add_small by lia. unfold overlapping, bt_range, bt_last_le, bt_values.
  induction s as [|[k r] s IH]; [done|]. apply vma_wf_cons in Hw as (-> & Wr & Hw & Hlt).
  destruct IH as [IH1 IH2]; [done|intros k' q ?; eapply Hab; by right|].
  pose proof (Hab (r_start r) r ltac:(by left)). simpl.
  assert (overlaps r start end__ = (r_start r <? end__)) as ->.
  { unfold overlaps. rewrite end_eq by done. destruct Wr. lia. }
  replace (r_start r <? start + 1) with false by lia. replace (start <? r_start r) with true by lia. simpl.
  split; [|done]. destruct (r_start r <? end__); simpl; [f_equal|]; exact IH1.
Qed.

(** Areas that start at or below [start] and are followed by another such area
    end at or below it. *)
Lemma overlapping_split s start end__ :
  vma_wf s -> 0 <= start < end__ -> end__ <= USIZE_MAX ->
  overlapping s start end__ =
    match first_overlap_before_or_at s start end__ with Some r => [r] | None => [] end
    ++ bt_values (bt_range s (sat_add start 1) end__).
Proof.
  intros Hw Hr Hm. unfold first_overlap_before_or_at. destruct (end__ <=? start) eqn:?; [lia|].
  induction s as [|[k r] s IH]; [done|]. pose proof Hw as (-> & Wr & Hw' & Hlt)%vma_wf_cons.
  destruct (decide (start < r_start r)) as [Hs|Hs].
  { destruct (overlapping_above ((r_start r, r) :: s) start end__ Hw Hr Hm) as [H1 H2].
    - intros k' q [[= -> ->]|Hin]%elem_of_cons; [done|]. specialize (Hlt _ _ Hin).
      rewrite end_eq in Hlt by done. destruct Wr. lia.
    - by rewrite H1, H2. }
  assert (bt_range ((r_start r, r) :: s) (sat_add start 1) end__ =
    bt_range s (sat_add start 1) end__) as ->.
  { unfold bt_range. simpl. rewrite sat_add_small by lia.
    replace (r_start r <? start + 1) with true by lia. done. }
  unfold overlapping in *. simpl.
  destruct (bt_last_le s start) as [[k' q]|] eqn:E.
  - assert (overlaps r start end__ = false) as ->.
    { apply bt_last_le_Some in E as (Hin & Hle & _); [|apply Hw']. simpl in Hle.
      specialize (Hlt _ _ Hin). unfold overlaps. lia. }
    assert (bt_last_le ((r_start r, r) :: s) start = Some (k', q)) as ->.
    { unfold bt_last_le in *. simpl. replace (start <? r_start r) with false by lia. simpl.
      revert E. by destruct (List.filter _ s). }
    by rewrite IH.
  - destruct (overlapping_above s start end__ Hw' Hr Hm) as [H1 _].
    { intros k' q Hin. pose proof (bt_last_le_None _ _ E _ _ Hin) as Hk. unfold key_lt in Hk. simpl in Hk. lia. }
    unfold overlapping in H1. rewrite <- H1.
    assert (bt_last_le ((r_start r, r) :: s) start = Some (r_start r, r)) as ->.
    { unfold bt_last_le in *. simpl. replace (start <? r_start r) with false by lia. simpl.
      apply last_None in E. simpl in E. by rewrite E. }
    destruct (overlaps r start end__); done.
Qed.

Lemma overlapping_elem s start end__ r :
  vma_wf s -> r ∈ overlapping s start end__ <-> (r_start r, r) ∈ s /\ overlaps r start end__ = true.
Proof.
  intros Hw. unfold overlapping, bt_values. rewrite list_elem_of_In, filter_In, <- list_elem_of_In.
  rewrite list_elem_of_fmap. split.
  - intros [([k q] & -> & Hin) Ho]. simpl in *. destruct (vwf_elem _ Hw _ _ Hin) as [-> _]. done.
  - intros [Hin Ho]. split; [|done]. by exists (r_start r, r).
Qed.

(** [collect_overlaps_where] returns the overlapping areas that satisfy the
    predicate, in address order. *)
Lemma collect_overlaps_eq s start end__ pred :
  vma_wf s -> 0 <= start < end__ -> end__ <= USIZE_MAX ->
  collect_overlaps_where s start end__ pred = List.filter pred (overlapping s start end__).
Proof.
  intros Hw Hr Hm. unfold collect_overlaps_where. destruct (end__ <=? start) eqn:?; [lia|].
  rewrite overlapping_split by done. rewrite List.filter_app. f_equal.
  destruct (first_overlap_before_or_at s start end__); done.
Qed.

Lemma any_overlap_where_spec s start end__ pred :
  vma_wf s -> 0 <= start < end__ -> end__ <= USIZE_MAX ->
  any_overlap_where s start end__ pred = true <->
  exists r, (r_start r, r) ∈ s /\ overlaps r start end__ = true /\ pred r = true.
Proof.
  intros Hw Hr Hm. transitivity (exists r, r ∈ overlapping s start end__ /\ pred r = true).
  2: { setoid_rewrite (overlapping_elem s start end__ _ Hw). naive_solver. }
  rewrite overlapping_split by done. unfold any_overlap_where. destruct (end__ <=? start) eqn:?; [lia|].
  setoid_rewrite elem_of_app. rewrite orb_true_iff, existsb_exists.
  setoid_rewrite <- list_elem_of_In. unfold bt_values. setoid_rewrite list_elem_of_fmap.
  destruct (first_overlap_before_or_at s start end__) as [r|].
  - setoid_rewrite list_elem_of_singleton. naive_solver.
  - setoid_rewrite elem_of_nil. naive_solver.
Qed.

Lemma overlaps_contains r start end__ :
  region_wf r -> start < end__ ->
  overlaps r start end__ = true <-> exists x, start <= x < end__ /\ contains r x = true.
Proof.
  intros Wr Hr. unfold overlaps. setoid_rewrite (contains_iff r _ Wr). rewrite end_eq by done.
  destruct Wr. split.
  - intros. exists (Z.max start (r_start r)). lia.
  - intros (x & ? & ?). lia.
Qed.

(** Areas that end above the cursor. *)
Definition above (s : regions) (cursor : Z) : nat :=
  length (List.filter (fun e => cursor <? end_ e.2) s).

Lemma above_le s c c' : c <= c' -> (above s c' <= above s c)%nat.
Proof.
  intros Hc. unfold above. induction s as [|[k r] s IH]; simpl; [done|].
  destruct (c' <? end_ r) eqn:?, (c <? end_ r) eqn:?; simpl; lia.
Qed.

Lemma above_lt s c k r : (k, r) ∈ s -> c < end_ r -> (above s (end_ r) < above s c)%nat.
Proof.
  intros Hin Hc. unfold above. induction s as [|[k' r'] s IH]; [by apply elem_of_nil in Hin|].
  apply elem_of_cons in Hin as [[= -> ->]|Hin]; simpl.
  - replace (end_ r' <? end_ r') with false by lia. replace (c <? end_ r') with true by lia.
    pose proof (above_le s c (end_ r') ltac:(lia)). unfold above in *. simpl. lia.
  - specialize (IH Hin). destruct (end_ r <? end_ r') eqn:?, (c <? end_ r') eqn:?; simpl; lia.
Qed.

Lemma covers_loop_spec fuel s cursor end__ :
  vma_wf s -> (above s cursor < fuel)%nat ->
  covers_loop fuel s cursor end__ = true <->
  forall x, cursor <= x < end__ -> is_Some (vma_view s x).
Proof.
  intros Hw. revert cursor. induction fuel as [|fuel IH]; intros cursor Hf; [lia|]. simpl.
  destruct (cursor <? end__) eqn:Hc; [|split; [|done]; intros _ x ?; lia].
  destruct (containing_addr s cursor) as [r|] eqn:E.
  - apply containing_addr_iff in E as [Hin Hcon]; [|done].
    destruct (vwf_elem _ Hw _ _ Hin) as [_ Wr]. apply contains_iff in Hcon as Hcr; [|done].
    assert (forall x, cursor <= x < end_ r -> is_Some (vma_view s x)) as Hcov.
    { intros x Hx. erewrite view_elem; [eauto|done|done|]. apply contains_iff; [done|].
      rewrite end_eq in Hx by done. lia. }
    destruct (end_ r <=? cursor) eqn:?; [rewrite end_eq in * by done; lia|].
    pose proof (above_lt s cursor _ r Hin ltac:(lia)) as Hlt.
    destruct (decide (end_ r <= end__)).
    + rewrite Z.min_l by done. rewrite IH by lia. split.
      * intros Hall x Hx. destruct (decide (x < end_ r)); [apply Hcov; lia|apply Hall; lia].
      * intros Hall x Hx. apply Hall. lia.
    + rewrite Z.min_r by lia. split; [intros _ x Hx; apply Hcov; lia|]. intros _.
      destruct fuel as [|fuel]; [lia|]. simpl. by rewrite Z.ltb_irrefl.
  - split; [done|]. intros Hall. destruct (Hall cursor ltac:(lia)) as [p Hp].
    apply view_Some in Hp as (k & r & Hin & Hcon & _). destruct (vwf_elem _ Hw _ _ Hin) as [-> _].
    assert (containing_addr s cursor = Some r) by (by apply containing_addr_iff). congruence.
Qed.

(** *** Cutting areas *)

(** Reinserting a cut of an area whose addresses are free. *)
Lemma insert_slice s r lo len :
  vma_wf s -> region_wf r -> r_start r <= lo -> 0 < len -> lo + len <= end_ r ->
  (forall x, lo <= x < lo + len -> vma_view s x = None) ->
  let s' := insert_merged s (slice r lo len) in
  vma_wf s' /\
  (forall x, vma_view s' x = if (lo <=? x) && (x <? lo + len) then Some (page_at r x) else vma_view s x) /\
  (forall k q y, (k, q) ∈ s -> vma_view s y = None -> lo + len <= y < k -> (k, q) ∈ s').
Proof.
  intros Hw Wr Hlo Hlen He Hfree. rewrite end_eq in He by done.
  destruct (slice_spec r lo len Wr Hlo Hlen He) as [Ws Hp].
  assert (forall x, contains (slice r lo len) x = (lo <=? x) && (x <? lo + len)) as Hc.
  { intros x. unfold contains. rewrite end_eq by done. done. }
  assert (free_for s (slice r lo len)) as Hf.
  { intros x Hx. rewrite Hc in Hx. apply Hfree. lia. }
  destruct (insert_merged_spec s _ Hw Ws Hf) as [Hw' Hv]. split; [done|]. split.
  - intros x. rewrite Hv. unfold view_with. rewrite Hc.
    destruct ((lo <=? x) && (x <? lo + len)) eqn:E; [|done]. f_equal. apply Hp. lia.
  - intros k q y Hin Hy Hyk. destruct (insert_merged_keep s _ k q Hw Ws Hf Hin) as [?|Hall]; [done|].
    destruct (Hall y) as (p & Hp' & _).
    + rewrite end_eq by done. simpl. lia.
    + unfold view_with in Hp'. rewrite Hc, Hy in Hp'. destruct ((lo <=? y) && (y <? lo + len)) eqn:?; [lia|done].
Qed.

(** Taking an area out and putting back its part below [a]. *)
Definition cut_left (s : regions) (r : VmRegion) (a : Z) : regions :=
  if r_start r <? a
  then insert_merged (bt_remove s (r_start r)) (slice r (r_start r) (a - r_start r))
  else bt_remove s (r_start r).

Lemma cut_left_spec s r a :
  vma_wf s -> (r_start r, r) ∈ s -> a < end_ r ->
  vma_wf (cut_left s r a) /\
  (forall x, vma_view (cut_left s r a) x =
     if contains r x then (if x <? a then Some (page_at r x) else None) else vma_view s x) /\
  (forall k q, (k, q) ∈ s -> end_ r <= k -> (k, q) ∈ cut_left s r a).
Proof.
  intros Hw Hin Ho. destruct (vwf_elem _ Hw _ _ Hin) as [_ Wr].
  destruct (remove_view s r Hw Hin) as [Hw1 Hv1]. unfold cut_left.
  set (s1 := bt_remove s (r_start r)) in *. pose proof (end_eq r Wr) as Hend.
  assert (forall k q, (k, q) ∈ s -> end_ r <= k -> (k, q) ∈ s1) as Hk1.
  { intros k q Hq Hk. apply bt_remove_elem_iff; [apply Hw|]. split; [|done]. destruct Wr. lia. }
  destruct (r_start r <? a) eqn:Ea.
  - destruct (insert_slice s1 r (r_start r) (a - r_start r)) as (Hw2 & Hv2 & Hkeep); try lia; try done.
    { intros x Hx. rewrite Hv1. by rewrite (proj2 (contains_iff r x Wr)) by lia. }
    split; [done|]. split.
    + intros x. rewrite Hv2, Hv1. replace (r_start r + (a - r_start r)) with a by lia.
      destruct (contains r x) eqn:Hc; unfold contains in Hc; rewrite Hend in Hc.
      * replace (r_start r <=? x) with true by lia. simpl. done.
      * by replace ((r_start r <=? x) && (x <? a)) with false by lia.
    + intros k q Hq Hk. apply (Hkeep k q a); [by apply Hk1| |lia].
      rewrite Hv1. by rewrite (proj2 (contains_iff r a Wr)) by lia.
  - split; [done|]. split; [|done]. intros x. rewrite Hv1.
    destruct (contains r x) eqn:Hc; [|done]. unfold contains in Hc.
    by replace (x <? a) with false by lia.
Qed.

Lemma trim_one_spec s r a b :
  vma_wf s -> (r_start r, r) ∈ s -> overlaps r a b = true -> a < b ->
  let s' := trim_one a b s r in
  vma_wf s' /\
  (forall x, vma_view s' x = if contains r x && (a <=? x) && (x <? b) then None else vma_view s x) /\
  (forall k q, (k, q) ∈ s -> end_ r <= k < b -> (k, q) ∈ s').
Proof.
  intros Hw Hin Ho Hab. destruct (vwf_elem _ Hw _ _ Hin) as [_ Wr]. unfold overlaps in Ho.
  unfold trim_one. fold (cut_left s r a).
  destruct (cut_left_spec s r a Hw Hin ltac:(lia)) as (Hw2 & Hv2 & Hk2).
  set (s2 := cut_left s r a) in *. clearbody s2. pose proof (end_eq r Wr) as Hend.
  destruct (b <? end_ r) eqn:Eb.
  - destruct (insert_slice s2 r b (end_ r - b)) as (Hw3 & Hv3 & _); try lia; try done.
    { intros x Hx. rewrite Hv2. rewrite (proj2 (contains_iff r x Wr)) by lia.
      by replace (x <? a) with false by lia. }
    split; [done|]. split; [|intros; lia]. intros x. rewrite Hv3, Hv2.
    destruct (contains r x) eqn:Hc;
      [|by replace ((b <=? x) && (x <? b + (end_ r - b))) with false by (unfold contains in Hc; lia)].
    rewrite (view_elem s _ r x Hw Hin Hc). apply contains_iff in Hc; [|done]. simpl.
    destruct (x <? a) eqn:?, (b <=? x) eqn:?, (a <=? x) eqn:?, (x <? b) eqn:?, (x <? b + (end_ r - b)) eqn:?;
      simpl; done || lia.
  - split; [done|]. split; [|intros; apply Hk2; [done|lia]]. intros x. rewrite Hv2.
    destruct (contains r x) eqn:Hc; [|done].
    rewrite (view_elem s _ r x Hw Hin Hc). apply contains_iff in Hc; [|done]. simpl.
    destruct (x <? a) eqn:?, (a <=? x) eqn:?, (x <? b) eqn:?; simpl; done || lia.
Qed.

(** Areas in address order. *)
Definition in_order : list VmRegion -> Prop :=
  StronglySorted (fun r1 r2 => end_ r1 <= r_start r2).

Lemma trim_fold_spec L s a b :
  vma_wf s -> a < b -> in_order L ->
  (forall r, r ∈ L -> (r_start r, r) ∈ s /\ overlaps r a b = true) ->
  let s' := foldl (trim_one a b) s L in
  vma_wf s' /\
  forall x, vma_view s' x =
    if existsb (fun r => contains r x) L && (a <=? x) && (x <? b) then None else vma_view s x.
Proof.
  intros Hw Hab. revert s Hw. induction L as [|r L IH]; intros s Hw Hord HL; simpl; [done|].
  inversion Hord as [|?? Hord' Hall]; subst. destruct (HL r ltac:(by left)) as [Hin Ho].
  destruct (trim_one_spec s r a b Hw Hin Ho Hab) as (Hw1 & Hv1 & Hk1).
  destruct (IH (trim_one a b s r) Hw1 Hord') as [Hw' Hv'].
  { intros q Hq. destruct (HL q ltac:(by right)) as [Hinq Hoq]. split; [|done].
    apply Hk1; [done|]. rewrite Forall_forall in Hall. specialize (Hall q Hq). unfold overlaps in Hoq. lia. }
  split; [done|]. intros x. rewrite Hv', Hv1.
  destruct (contains r x), (existsb _ L), (a <=? x), (x <? b); done.
Qed.

Lemma values_in_order s : vma_wf s -> in_order (bt_values s).
Proof.
  unfold in_order, bt_values. induction s as [|[k r] s IH]; intros Hw; simpl; [constructor|].
  apply vma_wf_cons in Hw as (-> & _ & Hw & Hlt). constructor; [auto|].
  apply Forall_forall. intros q ([k' q'] & -> & Hin)%list_elem_of_fmap. simpl.
  pose proof (Hlt _ _ Hin). by destruct (vwf_elem _ Hw _ _ Hin) as [-> _].
Qed.

Lemma filter_in_order P L : in_order L -> in_order (List.filter P L).
Proof.
  unfold in_order. induction L as [|r L IH]; simpl; intros Ho; [done|].
  inversion Ho as [|?? Ho' Hall]; subst. destruct (P r); [|auto]. constructor; [auto|].
  apply Forall_forall. intros q Hq. rewrite Forall_forall in Hall. apply Hall.
  apply list_elem_of_In, filter_In in Hq as [Hq _]. by apply list_elem_of_In.
Qed.

Lemma overlapping_in_order s a b : vma_wf s -> in_order (overlapping s a b).
Proof. intros. by apply filter_in_order, values_in_order. Qed.

(** Which addresses of [[a, b)] an area of the list contains. *)
Lemma overlapping_contains s a b pred x :
  vma_wf s -> a <= x < b ->
  existsb (fun r => contains r x) (List.filter pred (overlapping s a b)) = true <->
  exists r, (r_start r, r) ∈ s /\ contains r x = true /\ pred r = true.
Proof.
  intros Hw Hx. rewrite existsb_exists. setoid_rewrite filter_In. setoid_rewrite <- list_elem_of_In.
  setoid_rewrite (overlapping_elem s a b _ Hw). split; [naive_solver|].
  intros (r & Hin & Hc & Hp). destruct (vwf_elem _ Hw _ _ Hin) as [_ Wr].
  exists r. split_and!; try done. apply overlaps_contains; [done|lia|eauto].
Qed.

Lemma trim_where_spec s a b pred :
  vma_wf s -> 0 <= a -> b <= USIZE_MAX ->
  let s' := foldl (trim_one a b) s (collect_overlaps_where s a b pred) in
  vma_wf s' /\
  (forall x, a <= x < b -> forall r, (r_start r, r) ∈ s -> contains r x = true ->
     vma_view s' x = if pred r then None else vma_view s x) /\
  (forall x, ~ a <= x < b -> vma_view s' x = vma_view s x) /\
  (forall x, vma_view s x = None -> vma_view s' x = None).
Proof.
  intros Hw Ha Hb. destruct (decide (a < b)) as [Hab|Hab].
  - rewrite collect_overlaps_eq by (done || lia).
    destruct (trim_fold_spec (List.filter pred (overlapping s a b)) s a b Hw Hab) as [Hw' Hv].
    { by apply filter_in_order, overlapping_in_order. }
    { intros r Hr. apply list_elem_of_In, filter_In in Hr as [Hr _].
      by apply list_elem_of_In, overlapping_elem in Hr. }
    split; [done|]. split_and!.
    + intros x Hx r Hin Hc. rewrite Hv. replace (a <=? x) with true by lia.
      replace (x <? b) with true by lia. rewrite !andb_true_r.
      pose proof (overlapping_contains s a b pred x Hw Hx) as Hiff.
      destruct (existsb _ _) eqn:E, (pred r) eqn:Ep; try done.
      * destruct (proj1 Hiff eq_refl) as (q & Hq & Hcq & Hp).
        destruct (contains_unique s _ _ _ _ x Hw Hin Hq Hc Hcq) as [_ ->]. congruence.
      * discriminate (proj2 Hiff (ex_intro _ r (conj Hin (conj Hc Ep)))).
    + intros x Hx. rewrite Hv. replace ((a <=? x) && (x <? b)) with false by lia.
      rewrite <- andb_assoc. replace ((a <=? x) && (x <? b)) with false by lia. by rewrite andb_false_r.
    + intros x Hx. rewrite Hv, Hx. by destruct (_ && _).
  - unfold collect_overlaps_where. destruct (b <=? a) eqn:?; [|lia]. simpl.
    split_and!; try done. intros x Hx. lia.
Qed.


(** [brk]'s bookkeeping: only heap addresses of the range are unmapped. *)
Theorem trim_heap_range_view s a b :
  vma_wf s -> 0 <= a -> b <= USIZE_MAX ->
  vma_wf (trim_heap_range s a b) /\
  forall x, vma_view (trim_heap_range s a b) x =
    match vma_view s x with
    | Some p => if (a <=? x) && (x <? b) && is_heap (pg_policy p) then None else Some p
    | None => None
    end.
Proof.
  intros Hw Ha Hb. destruct (trim_where_spec s a b is_heap Hw Ha Hb) as (Hw' & Hin & Hout & Hn).
  split; [done|]. intros x. destruct (vma_view s x) as [p|] eqn:Ev; [|by apply Hn].
  destruct ((a <=? x) && (x <? b)) eqn:E; [|rewrite <- Ev; apply Hout; lia].
  pose proof Ev as (k & r & Hr & Hc & ->)%view_Some. destruct (vwf_elem _ Hw _ _ Hr) as [-> _].
  unfold trim_heap_range. rewrite (Hin x ltac:(lia) r Hr Hc), Ev. done.
Qed.

(** *** mprotect *)

(** Putting back the part of an area at or above [b]. *)
Lemma put_right_spec s r b :
  vma_wf s -> region_wf r -> r_start r <= b ->
  (forall x, b <= x < end_ r -> vma_view s x = None) ->
  let s' := if b <? end_ r then insert_merged s (slice r b (end_ r - b)) else s in
  vma_wf s' /\
  (forall x, vma_view s' x = if (b <=? x) && (x <? end_ r) then Some (page_at r x) else vma_view s x).
Proof.
  intros Hw Wr Hb Hfree. cbv zeta. destruct (b <? end_ r) eqn:Eb.
  - destruct (insert_slice s r b (end_ r - b)) as (Hw3 & Hv3 & _); try lia; try done.
    { intros x Hx. apply Hfree. lia. }
    split; [done|]. intros x. rewrite Hv3. by replace (b + (end_ r - b)) with (end_ r) by lia.
  - split; [done|]. intros x. by replace ((b <=? x) && (x <? end_ r)) with false by lia.
Qed.

Lemma mprotect_one_spec s r a b np :
  vma_wf s -> (r_start r, r) ∈ s -> overlaps r a b = true -> a < b ->
  let s' := mprotect_one a b np s r in
  vma_wf s' /\
  (forall x, vma_view s' x = if contains r x && (a <=? x) && (x <? b)
     then Some (page_set_prot (page_at r x) np) else vma_view s x) /\
  (forall k q, (k, q) ∈ s -> end_ r <= k < b -> r_prot q <> np -> (k, q) ∈ s').
Proof.
  intros Hw Hin Ho Hab. destruct (vwf_elem _ Hw _ _ Hin) as [_ Wr]. unfold overlaps in Ho.
  unfold mprotect_one. fold (cut_left s r a).
  destruct (cut_left_spec s r a Hw Hin ltac:(lia)) as (Hw2 & Hv2 & Hk2).
  set (s2 := cut_left s r a) in *. clearbody s2. pose proof (end_eq r Wr) as Hend.
  set (lo := Z.max a (r_start r)). set (hi := Z.min b (end_ r)).
  pose proof (rwf_len _ Wr). cbv zeta.
  destruct (slice_spec r lo (hi - lo) Wr) as [Wsl Hpsl]; [lia..|].
  destruct (set_prot_spec _ np Wsl) as [Wmid Hpmid].
  set (mid := set_prot (slice r lo (hi - lo)) np) in *.
  assert (forall x, contains mid x = (lo <=? x) && (x <? hi)) as Hcm.
  { intros x. unfold contains. rewrite end_eq by done. simpl. lia. }
  assert (free_for s2 mid) as Hfree.
  { intros x Hx. rewrite Hcm in Hx. rewrite Hv2. rewrite (proj2 (contains_iff r x Wr)) by lia.
    by replace (x <? a) with false by lia. }
  destruct (insert_merged_spec s2 mid Hw2 Wmid Hfree) as [Hw3 Hv3].
  assert (forall k q, (k, q) ∈ s -> end_ r <= k -> r_prot q <> np -> (k, q) ∈ insert_merged s2 mid) as Hk3.
  { intros k q Hq Hk Hp. apply insert_merged_keep_policy; try done; [by apply Hk2| |].
    - rewrite (end_eq mid Wmid). simpl. lia.
    - intros Heq. apply Hp. exact (f_equal r_prot Heq). }
  destruct (put_right_spec (insert_merged s2 mid) r b Hw3 Wr ltac:(lia)) as [Hw4 Hv4].
  { intros x Hx. rewrite Hv3. unfold view_with. rewrite Hcm, Hv2.
    replace (x <? hi) with false by lia. rewrite andb_false_r, (proj2 (contains_iff r x Wr)) by lia.
    by replace (x <? a) with false by lia. }
  split; [done|]. split.
  - intros x. rewrite Hv4, Hv3. unfold view_with. rewrite Hcm, Hv2, Hpmid.
    destruct (contains r x) eqn:Hc; unfold contains in Hc; simpl.
    + rewrite (view_elem s _ r x Hw Hin Hc).
      destruct (decide (b <= x)); [|destruct (decide (a <= x))].
      * replace (b <=? x) with true by lia. replace (x <? end_ r) with true by lia.
        replace (x <? b) with false by lia. by rewrite andb_false_r.
      * replace (b <=? x) with false by lia. replace ((lo <=? x) && (x <? hi)) with true by lia.
        replace ((a <=? x) && (x <? b)) with true by lia. simpl. rewrite Hpsl by lia. done.
      * replace (b <=? x) with false by lia. replace (lo <=? x) with false by lia.
        replace (a <=? x) with false by lia. by replace (x <? a) with true by lia.
    + replace ((b <=? x) && (x <? end_ r)) with false by lia.
      by replace ((lo <=? x) && (x <? hi)) with false by lia.
  - intros k q Hq Hk Hp. destruct (b <? end_ r) eqn:?; [lia|]. apply Hk3; [done|lia|done].
Qed.

Lemma mprotect_fold_spec L s a b np :
  vma_wf s -> a < b -> in_order L ->
  (forall r, r ∈ L -> (r_start r, r) ∈ s /\ overlaps r a b = true) ->
  Forall (fun r => r_prot r <> np) (tail L) ->
  let s' := foldl (mprotect_one a b np) s L in
  vma_wf s' /\
  forall x, vma_view s' x = if existsb (fun r => contains r x) L && (a <=? x) && (x <? b)
    then option_map (fun p => page_set_prot p np) (vma_view s x) else vma_view s x.
Proof.
  intros Hw Hab. revert s Hw. induction L as [|r L IH]; intros s Hw Hord HL Hne; simpl; [done|].
  inversion Hord as [|?? Hord' Hall]; subst. destruct (HL r ltac:(by left)) as [Hin Ho].
  destruct (mprotect_one_spec s r a b np Hw Hin Ho Hab) as (Hw1 & Hv1 & Hk1).
  rewrite Forall_forall in Hall. simpl in Hne.
  destruct (IH (mprotect_one a b np s r) Hw1 Hord') as [Hw' Hv'].
  { intros q Hq. destruct (HL q ltac:(by right)) as [Hinq Hoq]. split; [|done].
    rewrite Forall_forall in Hne.
    apply Hk1; [done| |by apply Hne]. specialize (Hall q Hq). unfold overlaps in Hoq. lia. }
  { destruct L; [constructor|]. by inversion Hne. }
  split; [done|]. intros x. rewrite Hv', Hv1. destruct (contains r x) eqn:Hc; simpl.
  - assert (existsb (fun q => contains q x) L = false) as ->.
    { apply not_true_iff_false. rewrite existsb_exists. intros (q & Hq & Hcq).
      apply list_elem_of_In in Hq. destruct (HL q ltac:(by right)) as [Hinq _].
      destruct (contains_unique s _ _ _ _ x Hw Hin Hinq Hc Hcq) as [_ ->].
      specialize (Hall q Hq). destruct (vwf_elem _ Hw _ _ Hin) as [_ Wq].
      rewrite end_eq in Hall by done. destruct Wq. lia. }
    rewrite (view_elem s _ r x Hw Hin Hc). simpl. by destruct (a <=? x), (x <? b).
  - done.
Qed.

Lemma filter_all {A} (l : list A) : List.filter (fun _ => true) l = l.
Proof. induction l; simpl; congruence. Qed.

(** [can_mprotect_range] refuses exactly the requests some address denies. *)
Lemma can_mprotect_iff s a b np :
  vma_wf s -> a < b ->
  can_mprotect_range s a b np = false <->
  exists x p, a <= x < b /\ vma_view s x = Some p /\ write_denied (pg_policy p) np = true.
Proof.
  intros Hw Hr. unfold can_mprotect_range. rewrite <- not_true_iff_false, forallb_forall.
  assert (forall r, (if negb (overlaps r a b) then true
    else negb (MapPermission.contains (permission_from_prot np) MapPermission.W)
         || MapPermission.contains (r_map_perm r) MapPermission.W || r_may_write_upgrade r)
    = negb (overlaps r a b && write_denied (policy r) np)) as Heq.
  { intros r. unfold write_denied. simpl. destruct (overlaps r a b); [|done]. simpl.
    by destruct (MapPermission.contains _ _), (MapPermission.contains (r_map_perm r) _), (r_may_write_upgrade r). }
  setoid_rewrite Heq. split.
  - intros Hn. destruct (existsb (fun r => overlaps r a b && write_denied (policy r) np) (bt_values s)) eqn:E.
    + apply existsb_exists in E as (r & Hin & [Ho Hd]%andb_true_iff).
      apply list_elem_of_In in Hin. unfold bt_values in Hin.
      apply list_elem_of_fmap in Hin as ([k q] & -> & Hin). simpl in *.
      destruct (vwf_elem _ Hw _ _ Hin) as [-> Wq].
      apply overlaps_contains in Ho as (x & Hx & Hc); [|done|done].
      exists x, (page_at q x). split_and!; try lia; [by eapply view_elem|done].
    + exfalso. apply Hn. intros r Hin. apply negb_true_iff, not_true_iff_false. intros Hd.
      apply not_true_iff_false in E. apply E, existsb_exists. eauto.
  - intros (x & p & Hx & Hv & Hd) Hall. apply view_Some in Hv as (k & r & Hin & Hc & ->).
    destruct (vwf_elem _ Hw _ _ Hin) as [-> Wr]. specialize (Hall r). simpl in Hd.
    rewrite Hd, (proj2 (overlaps_contains r a b Wr Hr)) in Hall by eauto. discriminate Hall.
    apply list_elem_of_In. unfold bt_values. apply list_elem_of_fmap. by exists (r_start r, r).
Qed.

Lemma mprotect_denied_iff s a b np :
  vma_wf s -> 0 <= a < b -> b <= USIZE_MAX ->
  apply_mprotect_range s a b np = None <->
  exists x p, a <= x < b /\ vma_view s x = Some p /\ write_denied (pg_policy p) np = true.
Proof.
  intros Hw Hr Hm. unfold apply_mprotect_range. rewrite collect_overlaps_eq by done.
  rewrite filter_all. destruct (existsb _ _) eqn:E.
  - split; [intros _|done]. apply existsb_exists in E as (r & Hr' & Hd).
    apply list_elem_of_In, overlapping_elem in Hr' as [Hin Ho]; [|done].
    destruct (vwf_elem _ Hw _ _ Hin) as [_ Wr].
    apply overlaps_contains in Ho as (x & Hx & Hc); [|done|lia].
    exists x, (page_at r x). split_and!; [lia|lia|by eapply view_elem|done].
  - split; [done|]. intros (x & p & Hx & Hv & Hd). exfalso. apply not_true_iff_false in E. apply E.
    apply view_Some in Hv as (k & r & Hin & Hc & ->). destruct (vwf_elem _ Hw _ _ Hin) as [-> Wr].
    apply existsb_exists. exists r. split; [|done]. apply list_elem_of_In, overlapping_elem; [done|].
    split; [done|]. apply overlaps_contains; [done|lia|eauto].
Qed.

(** [mprotect]'s bookkeeping.  When no area but the first of the range has the
    requested protection already, the call changes the protection of exactly the
    addresses of the range; it is refused, with nothing changed, exactly when
    some address of the range may not become writable. *)
Theorem apply_mprotect_range_view s a b np :
  vma_wf s -> 0 <= a < b -> b <= USIZE_MAX ->
  Forall (fun r => r_prot r <> np) (tail (overlapping s a b)) ->
  match apply_mprotect_range s a b np with
  | Some s' =>
      vma_wf s' /\
      (forall x, vma_view s' x = if (a <=? x) && (x <? b)
         then option_map (fun p => page_set_prot p np) (vma_view s x) else vma_view s x) /\
      can_mprotect_range s a b np = true
  | None => can_mprotect_range s a b np = false
  end.
Proof.
  intros Hw Hr Hm Hne. pose proof (mprotect_denied_iff s a b np Hw Hr Hm) as Hden.
  pose proof (can_mprotect_iff s a b np Hw ltac:(lia)) as Hcan.
  destruct (apply_mprotect_range s a b np) as [s'|] eqn:E; [|tauto].
  unfold apply_mprotect_range in E. rewrite collect_overlaps_eq in E by done.
  rewrite filter_all in E. destruct (existsb _ _); [done|]. injection E as <-.
  destruct (mprotect_fold_spec (overlapping s a b) s a b np Hw ltac:(lia)) as [Hw' Hv]; try done.
  { by apply overlapping_in_order. }
  { intros r. by apply overlapping_elem. }
  split; [done|]. split.
  - intros x. rewrite Hv. destruct ((a <=? x) && (x <? b)) eqn:Ex.
    + rewrite <- andb_assoc, Ex, andb_true_r.
      pose proof (overlapping_contains s a b (fun _ => true) x Hw ltac:(lia)) as Hiff.
      rewrite filter_all in Hiff. destruct (existsb _ _) eqn:Ee; [done|].
      destruct (vma_view s x) as [p|] eqn:Ev; [|done]. exfalso.
      apply view_Some in Ev as (k & r & Hin & Hc & _). destruct (vwf_elem _ Hw _ _ Hin) as [-> _].
      discriminate (proj2 Hiff (ex_intro _ r (conj Hin (conj Hc eq_refl)))).
    + by rewrite <- andb_assoc, Ex, andb_false_r.
  - apply not_false_iff_true. rewrite Hcan, <- Hden. done.
Qed.

(** Areas for the examples: private anonymous, and shared anonymous. *)
Definition anon_area (start len prot : Z) : VmRegion :=
  mkVmRegion Mmap start len prot Lazy (permission_from_prot prot) len (start + len)
    false true false 0 0 0 0 0 0 0 false false.
Definition shared_anon_area (start len prot id off : Z) : VmRegion :=
  (anon_area start len prot) {{ r_shared := true; r_anon_shared_id := id; r_file_offset := off }}.

Lemma anon_area_wf start len prot :
  0 <= start -> 0 < len -> start + len <= USIZE_MAX -> region_wf (anon_area start len prot).
Proof. intros. split; simpl; unfold is_usize; lia || done. Qed.

(** Two adjacent areas, the second of which already has the protection asked
    for. *)
Definition adjacent_areas : regions :=
  [(4096, anon_area 4096 4096 1); (8192, anon_area 8192 4096 3)].

Lemma adjacent_areas_wf : vma_wf adjacent_areas.
Proof.
  destruct (insert_view [] (anon_area 8192 4096 3)) as [Hw1 Hv1];
    [apply vma_wf_nil|by apply anon_area_wf|done|].
  destruct (insert_view [(8192, anon_area 8192 4096 3)] (anon_area 4096 4096 1)) as [Hw2 _];
    [exact Hw1|by apply anon_area_wf| |exact Hw2].
  intros x Hx. change [(8192, anon_area 8192 4096 3)] with
    (bt_insert [] (r_start (anon_area 8192 4096 3)) (anon_area 8192 4096 3)). rewrite Hv1.
  unfold contains, end_, sat_add in *. simpl in *. case_if; [lia|done].
Qed.

(** Without the condition of [apply_mprotect_range_view] the result is not a
    set of areas any more: inserting the changed first area joins it with the
    second one, which is then inserted again, so that two areas claim the same
    addresses; and unmapping the second area leaves it mapped. *)
Theorem apply_mprotect_range_overlap :
  exists s', apply_mprotect_range adjacent_areas 4096 12288 3 = Some s' /\
    s' = [(4096, anon_area 4096 8192 3); (8192, anon_area 8192 4096 3)] /\
    ~ vma_wf s' /\
    vma_view (trim_range s' 8192 12288) 8192 <> None.
Proof.
  eexists. split; [vm_compute; reflexivity|]. split; [reflexivity|]. split.
  - intros Hw. pose proof (vwf_disj _ Hw 4096 (anon_area 4096 8192 3) 8192 (anon_area 8192 4096 3)) as Hd.
    assert (end_ (anon_area 4096 8192 3) <= 8192) as Hle.
    { apply Hd; [by left|by right; left|lia]. }
    vm_compute in Hle. by apply Hle.
  - vm_compute. done.
Qed.

Lemma shared_anon_can_merge start1 len1 len2 off prot id :
  id <> 0 -> 0 <= start1 -> 0 < len1 -> 0 < len2 -> start1 + len1 + len2 <= USIZE_MAX ->
  0 <= off -> off + len1 + len2 <= USIZE_MAX ->
  can_merge_with (shared_anon_area start1 len1 prot id off)
    (shared_anon_area (start1 + len1) len2 prot id (off + len1)) = true.
Proof.
  intros. unfold can_merge_with, base_compatible, has_backing_identity, end_. simpl.
  rewrite !sat_add_small, wadd_small, !Z.eqb_refl by lia. simpl.
  destruct (id =? 0) eqn:?; [lia|]. simpl. lia.
Qed.

(** Joining two shared anonymous areas keeps the [sigbus_start] of the first:
    faults in what was the second area are refused, although the area alone
    accepts them. *)
Theorem merge_shared_anon_refuses_faults start1 len1 len2 off prot id x :
  let r1 := shared_anon_area start1 len1 prot id off in
  let r2 := shared_anon_area (start1 + len1) len2 prot id (off + len1) in
  id <> 0 -> 0 <= start1 -> 0 < len1 -> 0 < len2 -> start1 + len1 + len2 <= USIZE_MAX ->
  0 <= off -> off + len1 + len2 <= USIZE_MAX -> start1 + len1 <= x < start1 + len1 + len2 ->
  exists r', merge_with r1 r2 = Some r' /\ contains r' x = true /\
  (forall access, lazy_fault_policy r' x access = None) /\
  lazy_fault_policy r2 x (permission_from_prot prot) <> None.
Proof.
  intros r1 r2 Hid ? ? ? ? ? ? Hx.
  assert (has_backing_identity r1 = true) as Hb.
  { unfold has_backing_identity. simpl. destruct (id =? 0) eqn:?; [lia|]. done. }
  unfold merge_with, r1, r2. rewrite shared_anon_can_merge by done. fold r1 r2. rewrite Hb. simpl.
  eexists. split; [done|]. split_and!.
  - unfold contains, end_. simpl. rewrite wadd_small, sat_add_small by lia. lia.
  - intros access. unfold lazy_fault_policy. simpl.
    by replace (start1 + len1 <=? x) with true by lia.
  - unfold lazy_fault_policy. simpl. replace (start1 + len1 + len2 <=? x) with false by lia. simpl.
    unfold MapPermission.contains. rewrite Z.land_diag, Z.eqb_refl. done.
Qed.

(** *** isolate_range_raw, move_range_metadata_raw *)

Lemma insert_unmerged_slice s r lo len :
  vma_wf s -> region_wf r -> r_start r <= lo -> 0 < len -> lo + len <= end_ r ->
  (forall x, lo <= x < lo + len -> vma_view s x = None) ->
  let s' := insert_unmerged s (slice r lo len) in
  vma_wf s' /\ bt_get s' lo = Some (slice r lo len) /\
  (forall k, k <> lo -> bt_get s' k = bt_get s k) /\
  (forall x, vma_view s' x = if (lo <=? x) && (x <? lo + len) then Some (page_at r x) else vma_view s x).
Proof.
  intros Hw Wr Hlo Hlen He Hfree. rewrite end_eq in He by done. unfold insert_unmerged. simpl r_len.
  destruct (len =? 0) eqn:?; [lia|]. destruct (slice_spec r lo len Wr Hlo Hlen He) as [Ws Hp].
  assert (forall x, contains (slice r lo len) x = (lo <=? x) && (x <? lo + len)) as Hc.
  { intros x. unfold contains. rewrite end_eq by done. done. }
  destruct (insert_view s (slice r lo len) Hw Ws) as [Hw' Hv].
  { intros x Hx. rewrite Hc in Hx. apply Hfree. lia. }
  split; [done|]. simpl r_start. split; [|split].
  - by rewrite bt_get_insert, key_eqb_refl.
  - intros k Hk. rewrite bt_get_insert. by rewrite (proj2 (key_eqb_neq k lo) Hk).
  - intros x. cbv zeta. change lo with (r_start (slice r lo len)) at 1. rewrite Hv, Hc.
    destruct ((lo <=? x) && (x <? lo + len)) eqn:E; [|done]. f_equal. apply Hp. lia.
Qed.

Lemma cut_left_unmerged s r a :
  vma_wf s -> (r_start r, r) ∈ s -> r_start r <= a < end_ r ->
  let s1 := bt_remove s (r_start r) in
  let s2 := if r_start r <? a then insert_unmerged s1 (slice r (r_start r) (a - r_start r)) else s1 in
  vma_wf s2 /\
  forall x, vma_view s2 x =
    if contains r x then (if x <? a then Some (page_at r x) else None) else vma_view s x.
Proof.
  intros Hw Hin Ha. destruct (vwf_elem _ Hw _ _ Hin) as [_ Wr].
  destruct (remove_view s r Hw Hin) as [Hw1 Hv1]. cbv zeta. destruct (r_start r <? a) eqn:Ea.
  - destruct (insert_unmerged_slice (bt_remove s (r_start r)) r (r_start r) (a - r_start r))
      as (Hw2 & _ & _ & Hv2); try lia; try done.
    { intros x Hx. rewrite Hv1. by replace (contains r x) with true by (unfold contains; lia). }
    split; [done|]. intros x. rewrite Hv2, Hv1. replace (r_start r + (a - r_start r)) with a by lia.
    destruct (contains r x) eqn:Hc; unfold contains in Hc.
    + by replace (r_start r <=? x) with true by lia.
    + by replace ((r_start r <=? x) && (x <? a)) with false by lia.
  - split; [done|]. intros x. rewrite Hv1. destruct (contains r x) eqn:Hc; [|done]. unfold contains in Hc.
    by replace (x <? a) with false by lia.
Qed.

(** [isolate_range_raw] succeeds exactly on a non-empty range inside one area; it
    then makes the range an area of its own and no address notices. *)
Theorem isolate_range_raw_view s start len :
  vma_wf s -> 0 <= start -> 0 <= len ->
  match isolate_range_raw s start len with
  | (true, s') =>
      vma_wf s' /\ (forall x, vma_view s' x = vma_view s x) /\
      exists r, bt_get s' start = Some r /\ r_start r = start /\ r_len r = len
  | (false, s') =>
      s' = s /\ ~ (0 < len /\ exists r, (r_start r, r) ∈ s /\ r_start r <= start /\ start + len <= end_ r)
  end.
Proof.
  intros Hw Hs Hl. unfold isolate_range_raw, checked_add. case_if.
  2: { split; [done|]. intros (_ & r & Hin & _ & He). destruct (vwf_elem _ Hw _ _ Hin) as [_ Wr].
       rewrite end_eq in He by done. destruct Wr. lia. }
  case_if; [split; [done|lia]|]. destruct (containing_addr s start) as [r|] eqn:E.
  2: { split; [done|]. intros (_ & r & Hin & H1 & H2). destruct (vwf_elem _ Hw _ _ Hin) as [_ Wr].
       assert (containing_addr s start = Some r); [|congruence].
       apply containing_addr_iff; [done|]. split; [done|]. unfold contains. lia. }
  apply containing_addr_iff in E as [Hin Hc]; [|done]. destruct (vwf_elem _ Hw _ _ Hin) as [_ Wr].
  pose proof (end_eq r Wr) as Hend. unfold contains in Hc. destruct (end_ r <? start + len) eqn:Ee.
  { split; [done|]. intros (_ & q & Hq & H1 & H2). destruct (vwf_elem _ Hw _ _ Hq) as [_ Wq].
    destruct (contains_unique s _ _ _ _ start Hw Hin Hq) as [_ ->];
      [unfold contains; lia|unfold contains; lia|lia]. }
  destruct (cut_left_unmerged s r start Hw Hin ltac:(lia)) as [Hw2 Hv2].
  set (s2 := if r_start r <? start then _ else _) in *. clearbody s2.
  destruct (insert_unmerged_slice s2 r start len) as (Hw3 & Hg3 & _ & Hv3); try lia; try done.
  { intros x Hx. rewrite Hv2. replace (contains r x) with true by (unfold contains; lia).
    by replace (x <? start) with false by lia. }
  set (s3 := insert_unmerged s2 _) in *. clearbody s3.
  assert (forall x, vma_view s3 x = if contains r x then
    (if x <? start + len then Some (page_at r x) else None) else vma_view s x) as Hv3'.
  { intros x. rewrite Hv3, Hv2. destruct (contains r x) eqn:Hcx; unfold contains in Hcx.
    - destruct (decide (x < start)), (decide (x < start + len)); try lia.
      + replace (start <=? x) with false by lia. simpl. replace (x <? start) with true by lia.
        by replace (x <? start + len) with true by lia.
      + by replace ((start <=? x) && (x <? start + len)) with true by lia; replace (x <? start + len) with true by lia.
      + replace (x <? start + len) with false by lia. rewrite andb_false_r. by replace (x <? start) with false by lia.
    - by replace ((start <=? x) && (x <? start + len)) with false by lia. }
  assert (forall x, contains r x = true -> vma_view s x = Some (page_at r x)) as Hvr
    by (intros; by eapply view_elem).
  destruct (start + len <? end_ r) eqn:Er.
  - destruct (insert_unmerged_slice s3 r (start + len) (end_ r - (start + len))) as (Hw4 & _ & Hk4 & Hv4);
      try lia; try done.
    { intros x Hx. rewrite Hv3'. replace (contains r x) with true by (unfold contains; lia).
      by replace (x <? start + len) with false by lia. }
    split; [done|]. split.
    + intros x. rewrite Hv4, Hv3'. destruct (contains r x) eqn:Hcx; [rewrite (Hvr x Hcx)|];
        unfold contains in Hcx.
      * destruct (x <? start + len) eqn:?; [by replace (start + len <=? x) with false by lia|].
        by replace ((start + len <=? x) && (x <? start + len + (end_ r - (start + len)))) with true by lia.
      * by replace ((start + len <=? x) && (x <? start + len + (end_ r - (start + len)))) with false by lia.
    + exists (slice r start len). rewrite Hk4 by lia. done.
  - split; [done|]. split; [|by exists (slice r start len)].
    intros x. rewrite Hv3'. destruct (contains r x) eqn:Hcx; [|done]. rewrite (Hvr x Hcx).
    unfold contains in Hcx. by replace (x <? start + len) with true by lia.
Qed.

Lemma overlapping_one s r a b :
  vma_wf s -> (r_start r, r) ∈ s -> r_start r <= a < b -> b <= end_ r -> overlapping s a b = [r].
Proof.
  intros Hw Hin Ha Hb. pose proof (overlapping_in_order s a b Hw) as Ho.
  assert (forall q, q ∈ overlapping s a b <-> q = r) as Hiff.
  { intros q. rewrite overlapping_elem by done. unfold overlaps. split.
    - intros [Hq Hoq]. destruct (vwf_elem _ Hw _ _ Hq) as [_ Wq]. rewrite end_eq in Hoq by done.
      destruct (contains_unique s _ _ _ _ (Z.max a (r_start q)) Hw Hq Hin) as [_ ->]; [| |done].
      + apply contains_iff; [done|]. destruct Wq. lia.
      + unfold contains. lia.
    - intros ->. split; [done|]. lia. }
  destruct (overlapping s a b) as [|q L].
  - pose proof (proj2 (Hiff r) eq_refl) as Hn. by apply elem_of_nil in Hn.
  - assert (q = r) as -> by (apply Hiff; left). destruct L as [|q2 L]; [done|].
    assert (q2 = r) as -> by (apply Hiff; right; left). inversion Ho as [|?? _ Hall]; subst.
    inversion Hall as [|?? Hle _]; subst. destruct (vwf_elem _ Hw _ _ Hin) as [_ Wr].
    rewrite end_eq in Hle by done. destruct Wr. lia.
Qed.

(** [mremap]'s bookkeeping: a range inside one area, moved to a free range, takes
    what was said about its addresses with it. *)
Theorem move_range_metadata_raw_view s r old len n :
  vma_wf s -> (r_start r, r) ∈ s -> r_start r <= old -> 0 < len -> old + len <= end_ r ->
  0 <= n -> n + len <= USIZE_MAX -> (forall x, n <= x < n + len -> vma_view s x = None) ->
  let s' := move_range_metadata_raw s old len n in
  vma_wf s' /\
  forall x, vma_view s' x = if (n <=? x) && (x <? n + len) then vma_view s (x - n + old)
                            else if (old <=? x) && (x <? old + len) then None else vma_view s x.
Proof.
  intros Hw Hin Hs Hl He Hn Hmax Hdest. destruct (vwf_elem _ Hw _ _ Hin) as [_ Wr].
  pose proof (end_eq r Wr) as Hend. pose proof Wr as [Hst _ Hre _ _ _ _]. unfold move_range_metadata_raw.
  rewrite sat_add_small by lia. rewrite collect_overlaps_eq, filter_all by (done || lia).
  rewrite (overlapping_one s r old (old + len)) by (done || lia). simpl. unfold move_one.
  rewrite (Z.max_l old (r_start r)), (Z.min_l (old + len) (end_ r)) by lia. fold (cut_left s r old).
  replace (sat_add n (sat_sub old old)) with n by (unfold sat_sub, sat_add; lia).
  replace (old + len - old) with len by lia.
  destruct (cut_left_spec s r old Hw Hin ltac:(lia)) as (Hw2 & Hv2 & _).
  set (s2 := cut_left s r old) in *. clearbody s2.
  destruct (slice_spec r old len Wr) as [Wsl Hpsl]; [lia..|].
  destruct (move_to_spec (slice r old len) n Wsl Hn Hmax) as (Wmv & Hms & Hml & Hmp). simpl r_len in *.
  set (mv := move_to (slice r old len) n) in *.
  assert (forall x, contains mv x = (n <=? x) && (x <? n + len)) as Hcm.
  { intros x. unfold contains. by rewrite end_eq by done. }
  assert (forall x, contains r x = true -> vma_view s x = Some (page_at r x)) as Hvr by (intros; by eapply view_elem).
  assert (forall x, n <= x < n + len -> contains r x = false) as Hdr.
  { intros x Hx. apply not_true_iff_false. intros Hc%Hvr. by rewrite (Hdest x Hx) in Hc. }
  destruct (insert_merged_spec s2 mv Hw2 Wmv) as [Hw3 Hv3].
  { intros x Hx. rewrite Hcm in Hx. rewrite Hv2, Hdr, Hdest by lia. done. }
  destruct (put_right_spec (insert_merged s2 mv) r (old + len) Hw3 Wr ltac:(lia)) as [Hw4 Hv4].
  { intros x Hx. rewrite Hv3. unfold view_with. rewrite Hcm, Hv2.
    assert (contains r x = true) as Hcx by (unfold contains; lia). rewrite Hcx.
    destruct (_ && _) eqn:En; [by rewrite (Hdr x) in Hcx by lia|]. by replace (x <? old) with false by lia. }
  split; [done|]. intros x. rewrite Hv4, Hv3. unfold view_with. rewrite Hcm, Hv2.
  destruct ((n <=? x) && (x <? n + len)) eqn:En.
  - pose proof (Hdr x ltac:(lia)) as Hcx. unfold contains in Hcx.
    replace ((old + len <=? x) && (x <? end_ r)) with false by lia. rewrite Hmp by lia. simpl r_start.
    rewrite Hpsl by lia. rewrite Hvr by (unfold contains; lia). done.
  - destruct (contains r x) eqn:Hcx; [rewrite (Hvr x Hcx)|]; unfold contains in Hcx.
    + destruct (decide (x < old)); [|destruct (decide (x < old + len))].
      * replace (old + len <=? x) with false by lia. replace (old <=? x) with false by lia.
        by replace (x <? old) with true by lia.
      * replace (old + len <=? x) with false by lia. replace ((old <=? x) && (x <? old + len)) with true by lia.
        by replace (x <? old) with false by lia.
      * replace ((old + len <=? x) && (x <? end_ r)) with true by lia.
        by replace (x <? old + len) with false by lia; rewrite andb_false_r.
    + replace ((old + len <=? x) && (x <? end_ r)) with false by lia.
      by replace ((old <=? x) && (x <? old + len)) with false by lia.
Qed.

(** *** Resizing *)

(** Replacing an area by one with the same policy at another size or start. *)
Lemma replace_view s r r' :
  vma_wf s -> (r_start r, r) ∈ s -> region_wf r' ->
  (forall x, contains r' x = true -> contains r x = false -> vma_view s x = None) ->
  let s' := insert_merged (bt_remove s (r_start r)) r' in
  vma_wf s' /\
  forall x, vma_view s' x = if contains r' x then Some (page_at r' x)
                            else if contains r x then None else vma_view s x.
Proof.
  intros Hw Hin Wr' Hfree. destruct (remove_view s r Hw Hin) as [Hw1 Hv1].
  destruct (insert_merged_spec (bt_remove s (r_start r)) r' Hw1 Wr') as [Hw2 Hv2].
  { intros x Hx. rewrite Hv1. destruct (contains r x) eqn:E; [done|]. by apply Hfree. }
  split; [done|]. intros x. rewrite Hv2. unfold view_with. by rewrite Hv1.
Qed.

(** [mremap] in place: shrinking unmaps the end of the area and leaves the rest;
    growing into free addresses leaves the old ones as they were and maps the
    new ones with the policy of the area, valid when all of the area was. *)
Theorem set_len_by_start_view s start r len :
  vma_wf s -> bt_get s start = Some r -> tail_ok r -> 0 < len -> start + len <= USIZE_MAX ->
  (has_backing_identity r = true -> r_file_offset r + len <= USIZE_MAX) ->
  (forall x, end_ r <= x < start + len -> vma_view s x = None) ->
  let '(ok, s') := set_len_by_start s start len in
  ok = true /\ vma_wf s' /\
  (forall x, ~ start <= x < Z.max (end_ r) (start + len) -> vma_view s' x = vma_view s x) /\
  (forall x, start <= x < Z.min (end_ r) (start + len) -> vma_view s' x = vma_view s x) /\
  (forall x, start + len <= x < end_ r -> vma_view s' x = None) /\
  (forall x, end_ r <= x < start + len -> exists p, vma_view s' x = Some p /\
     pg_policy p = policy r /\
     (r_file_valid_len r = r_len r -> pg_valid p = true /\ pg_sigbus p = false)).
Proof.
  intros Hw Hg Ht Hl He Hb Hfree. unfold set_len_by_start. rewrite Hg.
  apply bt_get_elem in Hg; [|apply Hw]. destruct (vwf_elem _ Hw _ _ Hg) as [-> Wr].
  destruct (set_len_spec r len Wr Ht Hl He Hb) as (Wr' & Hs' & Hl' & Hp' & Hpg & Hval).
  set (r' := set_len r len) in *. clearbody r'. pose proof (end_eq r Wr) as Hend.
  assert (forall x, contains r' x = (r_start r <=? x) && (x <? r_start r + len)) as Hc'.
  { intros x. unfold contains. rewrite end_eq by done. by rewrite Hs', Hl'. }
  assert (forall x, contains r x = (r_start r <=? x) && (x <? end_ r)) as Hc by done.
  destruct (replace_view s r r' Hw Hg Wr') as [Hw' Hv'].
  { intros x H1 H2. rewrite Hc' in H1. rewrite Hc in H2. apply Hfree. lia. }
  split; [done|]. split; [done|]. setoid_rewrite Hv'. setoid_rewrite Hc'. setoid_rewrite Hc.
  split_and!; intros x Hx.
  - replace ((r_start r <=? x) && (x <? r_start r + len)) with false by lia.
    by replace ((r_start r <=? x) && (x <? end_ r)) with false by lia.
  - replace ((r_start r <=? x) && (x <? r_start r + len)) with true by lia. rewrite Hpg by lia.
    symmetry. eapply view_elem; [done|done|]. rewrite Hc. lia.
  - replace ((r_start r <=? x) && (x <? r_start r + len)) with false by lia.
    destruct Wr. by replace ((r_start r <=? x) && (x <? end_ r)) with true by lia.
  - destruct Wr. replace ((r_start r <=? x) && (x <? r_start r + len)) with true by lia.
    eexists. split; [done|]. split; [done|]. intros Hf. apply Hval; [done|lia].
Qed.

(** Stack growth: the area of a growing stack is extended down to the fault page;
    the new addresses get its policy, and nothing else changes. *)
Theorem expand_growsdown_at_view s fault_page r :
  vma_wf s -> 0 <= fault_page -> growsdown_candidate_before s fault_page = Some r ->
  tail_ok r -> has_backing_identity r = false ->
  (forall x, fault_page <= x < r_start r -> vma_view s x = None) ->
  let '(ok, s') := expand_growsdown_at s (r_start r) fault_page in
  ok = true /\ vma_wf s' /\
  forall x, vma_view s' x = if (fault_page <=? x) && (x <? r_start r)
                            then Some (mkPage (policy r) None true false) else vma_view s x.
Proof.
  intros Hw Hf Hcand Ht Hb Hfree. unfold growsdown_candidate_before, checked_add in Hcand.
  destruct (fault_page + PAGE_SIZE <=? USIZE_MAX) eqn:Em; simpl in Hcand; [|done].
  destruct (bt_get s (fault_page + PAGE_SIZE)) as [q|] eqn:Hg; simpl in Hcand; [|done].
  destruct (r_growsdown q) eqn:Hgd; [|done]. injection Hcand as ->.
  pose proof Hg as Hin. apply bt_get_elem in Hin; [|apply Hw].
  destruct (vwf_elem _ Hw _ _ Hin) as [Hk Wr]. rewrite Hk in Hg, Hin.
  unfold expand_growsdown_at, push_merged. rewrite Hg, Hgd. simpl negb. cbv iota.
  change PAGE_SIZE with 4096 in Hk.
  destruct (expand_down_to_spec r fault_page Wr Ht Hb ltac:(lia)) as (Wr' & Hs' & He' & Hp' & Hpg).
  set (r' := expand_down_to r fault_page) in *. clearbody r'.
  destruct (replace_view s r r' Hw Hin Wr') as [Hw' Hv'].
  { intros x H1 H2. unfold contains in *. rewrite Hs', He' in H1. apply Hfree. lia. }
  split; [done|]. split; [done|]. intros x. rewrite Hv'. unfold contains at 1. rewrite Hs', He'.
  destruct ((fault_page <=? x) && (x <? end_ r)) eqn:E.
  - rewrite Hpg by lia. destruct (x <? r_start r) eqn:Ex.
    + by replace (fault_page <=? x) with true by lia.
    + rewrite andb_false_r. symmetry. eapply view_elem; [done|done|]. unfold contains. lia.
  - pose proof (end_eq r Wr). destruct Wr.
    replace ((fault_page <=? x) && (x <? r_start r)) with false by lia.
    by replace (contains r x) with false by (unfold contains; lia).
Qed.

(** *** The area limit *)

Lemma absorb_next_fuel fuel s r :
  (length s < fuel)%nat -> absorb_next (S fuel) s r = absorb_next fuel s r.
Proof.
  revert s r. induction fuel as [|fuel IH]; intros s r Hl; [lia|].
  change (absorb_next (S (S fuel)) s r) with
    (match bt_get s (end_ r) with
     | None => (s, r)
     | Some next => match merge_with r next with
                    | None => (s, r)
                    | Some r' => absorb_next (S fuel) (bt_remove s (end_ r)) r'
                    end
     end). simpl.
  destruct (bt_get s (end_ r)) as [q|] eqn:E; [|done]. destruct (merge_with r q); [|done].
  apply IH. pose proof (bt_length_remove _ _ _ E). lia.
Qed.

Lemma absorb_next_enough fuel s r :
  (length s < fuel)%nat -> absorb_next fuel s r = absorb_next (S (length s)) s r.
Proof.
  intros Hl. induction fuel as [|fuel IH]; [lia|].
  destruct (decide (length s = fuel)) as [->|]; [done|]. rewrite absorb_next_fuel by lia. apply IH. lia.
Qed.

(** [count_next] counts down once for every area [absorb_next] removes. *)
Lemma count_next_absorb fuel s s1 m c :
  vma_wf s1 -> region_wf m -> free_for s1 m -> Z.of_nat (length s1) <= c <= USIZE_MAX ->
  (forall k, end_ m <= k -> bt_get s k = bt_get s1 k) ->
  count_next fuel s m c =
    c - (Z.of_nat (length s1) - Z.of_nat (length (absorb_next fuel s1 m).1)).
Proof.
  revert s1 m c. induction fuel as [|fuel IH]; intros s1 m c Hw Wm Hf Hc Hag; simpl; [lia|].
  rewrite (Hag (end_ m)) by lia. destruct (bt_get s1 (end_ m)) as [q|] eqn:E; simpl; [|lia].
  destruct (merge_with m q) as [m'|] eqn:Hm; simpl; [|lia].
  pose proof (bt_length_remove _ _ _ E) as Hlen. apply bt_get_elem in E as Hin; [|apply Hw].
  destruct (vwf_elem _ Hw _ _ Hin) as [Hk Wq].
  assert (absorbs s1 m (bt_remove s1 (end_ m)) m') as Hab.
  { rewrite Hk in Hin |- *. apply absorbs_one; auto. }
  rewrite (IH (bt_remove s1 (end_ m)) m'); try apply Hab.
  - rewrite sat_sub_small by lia. lia.
  - rewrite sat_sub_small by lia. lia.
  - intros k Hkk. pose proof (merge_with_spec _ _ _ Wm Wq Hm) as (H1 & Wm' & H2 & H3 & _).
    rewrite (end_eq m' Wm') in Hkk. rewrite (end_eq m Wm) in *. destruct Wq.
    rewrite bt_get_remove by apply Hw. rewrite Hag by lia.
    assert (key_eqb k (r_start m + r_len m) = false) as ->; [|done]. apply key_eqb_neq. lia.
Qed.

(** The first step of [count_after_insert_merged] against [absorb_prev]. *)
Lemma count_prev_absorb s r :
  vma_wf s -> region_wf r -> free_for s r ->
  exists s1 m c, absorb_prev s r = (s1, m) /\ c = Z.of_nat (length s1) + 1 /\
    (match bt_last_lt s (r_start r) with
     | Some (_, prev) => match merge_with prev r with
                         | Some merged => (merged, sat_sub (Z.of_nat (length s) + 1) 1)
                         | None => (r, Z.of_nat (length s) + 1)
                         end
     | None => (r, Z.of_nat (length s) + 1)
     end) = (m, c) /\ (length s1 <= length s)%nat /\
    (forall k, end_ m <= k -> bt_get s k = bt_get s1 k).
Proof.
  intros Hw Wr Hf. pose proof (absorb_prev_spec s r Hw Wr Hf) as Hab. unfold absorb_prev in *.
  destruct (bt_last_lt s (r_start r)) as [[k q]|] eqn:El; [|by eexists _, _, _].
  apply bt_last_lt_Some in El as (Hin & Hlt & _); [|apply Hw].
  destruct (merge_with q r) as [m|] eqn:Hm; [|by eexists _, _, _].
  assert (bt_get s k = Some q) as Hgk by (by apply (bt_get_elem _ _ _ (vwf_bt _ Hw))).
  pose proof (bt_length_remove _ _ _ Hgk). eexists _, _, _. split; [done|]. split; [|split; [done|]].
  - rewrite sat_sub_small by lia. lia.
  - split; [lia|]. intros k' Hk'. rewrite bt_get_remove by apply Hw.
    unfold key_lt in Hlt. simpl in Hlt. pose proof (ab_end _ _ _ _ Hab) as Hend. simpl in Hend.
    rewrite (end_eq r Wr) in Hend. destruct Wr.
    assert (key_eqb k' k = false) as ->; [|done]. apply key_eqb_neq. lia.
Qed.

(** The number of areas [mmap] compares with the limit before inserting is the
    number of areas there will be. *)
Theorem count_after_insert_merged_correct s r :
  vma_wf s -> region_wf r -> free_for s r -> Z.of_nat (length s) < USIZE_MAX ->
  count_after_insert_merged s r = Z.of_nat (length (insert_merged s r)).
Proof.
  intros Hw Wr Hf Hlen. unfold count_after_insert_merged, insert_merged.
  destruct (r_len r =? 0) eqn:E0; [done|]. rewrite sat_add_small by lia.
  pose proof (absorb_prev_spec s r Hw Wr Hf) as Hab.
  destruct (count_prev_absorb s r Hw Wr Hf) as (s1 & m & c & Hp & Hc & -> & Hle & Hag).
  rewrite Hp in Hab |- *. simpl in Hab.
  rewrite (count_next_absorb _ s s1 m c (ab_wf _ _ _ _ Hab) (ab_region _ _ _ _ Hab) (ab_free _ _ _ _ Hab))
    by (done || lia).
  rewrite (absorb_next_enough (S (length s)) s1 m) by lia.
  pose proof (absorb_next_spec (S (length s1)) s1 m (ab_wf _ _ _ _ Hab) (ab_region _ _ _ _ Hab)
    (ab_free _ _ _ _ Hab)) as Hab2.
  destruct (absorb_next (S (length s1)) s1 m) as [s2 m2]. simpl in Hab2 |- *.
  unfold insert_unmerged. pose proof (ab_region _ _ _ _ Hab2) as Wm2. destruct (r_len m2 =? 0) eqn:Ez; [destruct Wm2; lia|].
  rewrite bt_length_insert; [lia|apply Hab2|]. apply free_for_fresh; apply Hab2.
Qed.

(** *** Propagating file writes *)

(** The area maps file [(dev, ino)]. *)
Definition maps_file (dev ino : Z) (r : VmRegion) : bool :=
  r_file_backed r && (r_file_dev r =? dev) && (r_file_ino r =? ino).

(** The file offset behind an address. *)
Definition offset_at (r : VmRegion) (x : Z) : Z := r_file_offset r + (x - r_start r).

(** Triple [(va, delta, n)] says bytes [delta, delta + n) of the written data go
    to addresses [va, va + n). *)
Lemma copy_target_spec dev ino wo we r :
  region_wf r -> 0 <= wo <= we -> we <= USIZE_MAX ->
  let '(r', t) := copy_target dev ino wo we r in
  region_wf r' /\ r_start r' = r_start r /\ r_len r' = r_len r /\ policy r' = policy r /\
  r_file_valid_len r <= r_file_valid_len r' /\
  (forall va d n, t = Some (va, d, n) -> maps_file dev ino r = true /\ 0 <= d /\ 0 < n /\ wo + d + n <= we /\
     r_start r <= va /\ va + n <= r_start r + r_len r /\ va + n <= r_sigbus_start r /\
     offset_at r va = wo + d) /\
  (forall x, contains r x = true -> maps_file dev ino r = true -> x < r_sigbus_start r ->
     wo <= offset_at r x < we -> exists va d n, t = Some (va, d, n) /\ va <= x < va + n /\
       x < r_start r + r_file_valid_len r').
Proof.
  intros Wr Hwo Hwe. unfold copy_target. pose proof Wr as [].
  fold (maps_file dev ino r). unfold is_usize in *.
  destruct (negb (r_file_backed r) || negb (r_file_dev r =? dev) || negb (r_file_ino r =? ino)) eqn:Em.
  { split_and!; try done; try lia. intros x _ Hm. exfalso. unfold maps_file in Hm. lia. }
  assert (maps_file dev ino r = true) as Hm by (unfold maps_file; lia).
  assert (has_backing_identity r = true) as Hb.
  { unfold maps_file in Hm. unfold has_backing_identity. destruct (r_file_backed r); [done|lia]. }
  specialize (rwf_backing0 Hb).
  assert (0 <= file_mapped_len r <= r_len r) as Hml by (unfold file_mapped_len, sat_sub; lia).
  unfold checked_add. destruct (r_file_offset r + r_len r <=? USIZE_MAX) eqn:?; [|lia].
  destruct (r_file_offset r + file_mapped_len r <=? USIZE_MAX) eqn:?; [|lia].
  case_if.
  { split_and!; try done; try lia. intros x Hc _ Hx Ho. exfalso. apply contains_iff in Hc; [|done].
    unfold offset_at, file_mapped_len, sat_sub in *. lia. }
  set (nv := Z.min _ (r_len r)).
  assert (0 <= nv <= r_len r) as Hnv by (subst nv; unfold sat_sub; lia).
  set (r' := if r_file_valid_len r <? nv then _ else r).
  assert (region_wf r' /\ r_start r' = r_start r /\ r_len r' = r_len r /\ policy r' = policy r /\
    r_file_valid_len r' = Z.max (r_file_valid_len r) nv) as (W' & ? & ? & ? & Hfv).
  { subst r'. destruct (r_file_valid_len r <? nv) eqn:?; split_and!; try done; try (simpl; lia);
      split; simpl; unfold is_usize; lia || done. }
  clearbody r'. rewrite wadd_small by (unfold file_mapped_len, sat_sub in *; lia).
  split_and!; try done; try lia.
  - intros va d n [= <- <- <-]. unfold offset_at, file_mapped_len, sat_sub in *. split_and!; try done; lia.
  - intros x Hc _ Hx Ho. apply contains_iff in Hc; [|done]. eexists _, _, _. split; [done|].
    unfold offset_at, file_mapped_len, sat_sub in *. subst nv. lia.
Qed.

Lemma file_copy_targets_loop_spec dev ino wo we s :
  vma_wf s -> 0 <= wo <= we -> we <= USIZE_MAX ->
  let '(pending, s') := file_copy_targets_loop dev ino wo we s in
  map fst s' = map fst s /\
  (forall k r', (k, r') ∈ s' -> exists r, (k, r) ∈ s /\ r' = (copy_target dev ino wo we r).1) /\
  (forall k r, (k, r) ∈ s -> (k, (copy_target dev ino wo we r).1) ∈ s') /\
  (forall t, t ∈ pending <-> exists k r, (k, r) ∈ s /\ (copy_target dev ino wo we r).2 = Some t).
Proof.
  intros Hw Hwo Hwe. induction s as [|[k r] s IH]; simpl.
  { split_and!; try done; try (intros ?? ?%elem_of_nil; done). intros t. rewrite elem_of_nil.
    split; [done|]. intros (? & ? & ?%elem_of_nil & _). done. }
  apply vma_wf_cons in Hw as (-> & Wr & Hw & Hlt). specialize (IH Hw).
  destruct (copy_target dev ino wo we r) as [r' t] eqn:Et.
  destruct (file_copy_targets_loop dev ino wo we s) as [pending s'] eqn:El.
  destruct IH as (Hk & Hb & Hf & Ht). split_and!.
  - simpl. by rewrite Hk.
  - intros k q [[= -> ->]|Hin]%elem_of_cons.
    + exists r. split; [by left|]. by rewrite Et.
    + destruct (Hb k q Hin) as (q0 & ? & ?). exists q0. split; [by right|done].
  - intros k q [[= -> ->]|Hin]%elem_of_cons; [rewrite Et; by left|]. right. by apply Hf.
  - intros t'. transitivity (t = Some t' \/ t' ∈ pending).
    { destruct t as [t0|]; rewrite ?elem_of_cons; naive_solver. }
    rewrite Ht. setoid_rewrite elem_of_cons. split.
    + intros [->|(k & q & ? & ?)]; [exists (r_start r), r; rewrite Et; eauto|eauto 10].
    + intros (k & q & [[= -> ->]|?] & Hq); [left; by rewrite Et in Hq|eauto 10].
Qed.

(** After a write of [len] bytes at [write_off] of a file, the triples returned
    send exactly the right bytes to exactly the resident addresses: every triple
    lies inside one area that maps the file, at the addresses whose file offsets
    are those of its bytes, and every address before the SIGBUS tail whose
    offset was written is in a triple (and is valid afterwards).  Areas keep
    their place and policy. *)
Theorem file_copy_targets_spec s dev ino write_off len :
  vma_wf s -> 0 <= write_off -> 0 <= len -> write_off + len <= USIZE_MAX ->
  let '(pending, s') := file_copy_targets s dev ino write_off len in
  vma_wf s' /\
  (forall va d n, (va, d, n) ∈ pending -> exists r, (r_start r, r) ∈ s /\ maps_file dev ino r = true /\
     0 <= d /\ d + n <= len /\
     forall j, 0 <= j < n -> contains r (va + j) = true /\ va + j < r_sigbus_start r /\
       offset_at r (va + j) = write_off + d + j) /\
  (forall r x, (r_start r, r) ∈ s -> contains r x = true -> maps_file dev ino r = true ->
     x < r_sigbus_start r -> write_off <= offset_at r x < write_off + len ->
     (exists va d n, (va, d, n) ∈ pending /\ va <= x < va + n) /\
     exists p, vma_view s' x = Some p /\ pg_policy p = policy r /\ pg_valid p = true).
Proof.
  intros Hw Hwo Hl Hmax. unfold file_copy_targets. rewrite sat_add_small by lia.
  pose proof (file_copy_targets_loop_spec dev ino write_off (write_off + len) s Hw ltac:(lia) Hmax) as Hs.
  destruct (file_copy_targets_loop _ _ _ _ s) as [pending s']. destruct Hs as (Hk & Hb & Hf & Ht).
  set (ct := copy_target dev ino write_off (write_off + len)) in *.
  assert (forall k r, (k, r) ∈ s -> let r' := (ct r).1 in k = r_start r /\ region_wf r /\ region_wf r' /\
    r_start r' = r_start r /\ r_len r' = r_len r /\ policy r' = policy r) as Hct.
  { intros k r Hin. destruct (vwf_elem _ Hw _ _ Hin) as [-> Wr].
    pose proof (copy_target_spec dev ino write_off (write_off + len) r Wr ltac:(lia) Hmax) as H.
    fold ct in H. destruct (ct r) as [r' t]. simpl. tauto. }
  assert (vma_wf s') as Hw'.
  { split.
    - unfold bt_wf. rewrite Hk. apply Hw.
    - intros k r' (r & Hin & ->)%Hb. destruct (Hct _ _ Hin) as (-> & _ & ? & -> & _). done.
    - intros k1 r1' k2 r2' (r1 & H1 & ->)%Hb (r2 & H2 & ->)%Hb Hlt.
      destruct (Hct _ _ H1) as (_ & W1 & W1' & Hs1 & Hl1 & _).
      pose proof (vwf_disj _ Hw _ _ _ _ H1 H2 Hlt). rewrite end_eq in * by done. lia. }
  split; [done|]. split.
  - intros va d n (k & r & Hin & Hc)%Ht. destruct (vwf_elem _ Hw _ _ Hin) as [-> Wr]. exists r. split; [done|].
    pose proof (copy_target_spec dev ino write_off (write_off + len) r Wr ltac:(lia) Hmax) as H.
    fold ct in H. destruct (ct r) as [r' t]. simpl in Hc.
    destruct H as (_ & _ & _ & _ & _ & H & _). destruct (H va d n Hc) as (Hm & ? & ? & ? & ? & ? & ? & Ho).
    split_and!; try done; try lia. intros j Hj. rewrite contains_iff by done. unfold offset_at in *. lia.
  - intros r x Hin Hc Hm Hx Ho. destruct (vwf_elem _ Hw _ _ Hin) as [_ Wr].
    pose proof (copy_target_spec dev ino write_off (write_off + len) r Wr ltac:(lia) Hmax) as H.
    pose proof (Hf _ _ Hin) as Hin'. destruct (Hct _ _ Hin) as (_ & _ & W' & Hs' & Hl' & Hp').
    fold ct in H. specialize (Ht). destruct (ct r) as [r' t] eqn:Ect. simpl in *.
    destruct H as (_ & _ & _ & _ & _ & _ & H). destruct (H x Hc Hm Hx Ho) as (va & d & n & -> & Hxv & Hv).
    split.
    + exists va, d, n. split; [|done]. apply Ht. exists (r_start r), r. by rewrite Ect.
    + exists (page_at r' x). split; [|split; [done|simpl; lia]].
      eapply view_elem; [done|done|]. rewrite contains_iff in * by done. lia.
Qed.

End VmaSpec.
