(* ===== verification/VmaExamples.v ===== *)
(** * Concrete address spaces

    The theorems of [VmRegionSet] and [VmRegion] evaluated on small address
    spaces: two adjacent anonymous areas, a growing stack, a file mapping. *)

From S2P Require Import Prelude.
From S2P Require Import BTree.
From S2P Require Import Address.
From S2P Require Import Ranges.
From S2P Require Import VmRegion.
From S2P Require Import VmRegionSet.
Import Region View VmaSet VmaSpec.

(** What the two adjacent areas say about an address outside them. *)
Lemma adjacent_areas_free x : ~ 4096 <= x < 12288 -> vma_view adjacent_areas x = None.
Proof.
  intros Hx. unfold vma_view, adjacent_areas. simpl. unfold contains, end_, sat_add. simpl.
  repeat (case_match; try done); lia.
Qed.


Lemma trim_heap_range_view_witness :
  vma_view (trim_heap_range adjacent_areas 4096 12288) 8192 <> None.
Proof.
  destruct (trim_heap_range_view adjacent_areas 4096 12288) as [_ H]; [apply adjacent_areas_wf|lia..|].
  rewrite (H 8192). vm_compute. done.
Defined.

Lemma apply_mprotect_range_view_witness :
  exists s', apply_mprotect_range adjacent_areas 4096 12288 1 = Some s' /\
    option_map pg_policy (vma_view s' 9000) = option_map pg_policy (option_map (fun p => page_set_prot p 1) (vma_view adjacent_areas 9000)).
Proof.
  pose proof (apply_mprotect_range_view adjacent_areas 4096 12288 1) as H.
  destruct (apply_mprotect_range adjacent_areas 4096 12288 1) as [s'|] eqn:E; [|by vm_compute in E].
  exists s'. split; [done|]. destruct H as (_ & H & _); [apply adjacent_areas_wf|lia|lia|by repeat constructor|].
  by rewrite (H 9000).
Defined.

Lemma merge_shared_anon_refuses_faults_witness :
  exists r', merge_with (shared_anon_area 4096 4096 3 7 0) (shared_anon_area 8192 4096 3 7 4096) = Some r' /\
    lazy_fault_policy r' 9000 (permission_from_prot 3) = None.
Proof.
  destruct (merge_shared_anon_refuses_faults 4096 4096 4096 0 3 7 9000) as (r' & H1 & _ & H2 & _); [lia..|].
  exists r'. split; [exact H1|apply H2].
Defined.

Lemma isolate_range_raw_view_witness :
  exists s', isolate_range_raw adjacent_areas 5000 1000 = (true, s') /\
    forall x, vma_view s' x = vma_view adjacent_areas x.
Proof.
  pose proof (isolate_range_raw_view adjacent_areas 5000 1000 adjacent_areas_wf) as H.
  destruct (isolate_range_raw adjacent_areas 5000 1000) as [[] s'] eqn:E; [|by vm_compute in E].
  exists s'. split; [done|]. by apply H.
Defined.

Lemma move_range_metadata_raw_view_witness :
  vma_view (move_range_metadata_raw adjacent_areas 4096 4096 65536) 65537 = vma_view adjacent_areas 4097.
Proof.
  destruct (move_range_metadata_raw_view adjacent_areas (anon_area 4096 4096 1) 4096 4096 65536) as [_ H];
    [apply adjacent_areas_wf|left|simpl; lia|lia|vm_compute; done|lia|lia| |apply (H 65537)].
  intros x Hx. apply adjacent_areas_free. lia.
Defined.

Lemma set_len_by_start_view_witness :
  option_map pg_policy (vma_view (set_len_by_start adjacent_areas 8192 8192).2 13000) = Some (policy (anon_area 8192 4096 3)).
Proof.
  pose proof (set_len_by_start_view adjacent_areas 8192 (anon_area 8192 4096 3) 8192) as H.
  destruct (set_len_by_start adjacent_areas 8192 8192) as [ok s'].
  destruct H as (_ & _ & _ & _ & _ & H);
    [apply adjacent_areas_wf|reflexivity|by split|lia|lia|done| |].
  - intros x Hx. apply adjacent_areas_free. unfold end_, sat_add in Hx. simpl in Hx. lia.
  - destruct (H 13000) as (p & E1 & E2 & _); [vm_compute; split; congruence|]. simpl. by rewrite E1, <- E2.
Defined.

(** A stack area that may grow down. *)
Definition stack_area : VmRegion := (anon_area 65536 4096 3) {{ r_growsdown := true }}.

Lemma stack_area_wf : vma_wf [(65536, stack_area)].
Proof.
  apply (insert_view [] stack_area); [apply vma_wf_nil| |done]. split; simpl; unfold is_usize; lia || done.
Qed.

Lemma expand_growsdown_at_view_witness :
  option_map pg_policy (vma_view (expand_growsdown_at [(65536, stack_area)] 65536 61440).2 62000) = Some (policy stack_area).
Proof.
  pose proof (expand_growsdown_at_view [(65536, stack_area)] 61440 stack_area) as H.
  change (r_start stack_area) with 65536 in H.
  destruct (expand_growsdown_at [(65536, stack_area)] 65536 61440) as [ok s'].
  destruct H as (_ & _ & H); [apply stack_area_wf|lia|vm_compute; reflexivity|by split|done| |].
  - intros x Hx. unfold vma_view. simpl. unfold contains, end_, sat_add. simpl.
    repeat (case_match; try done); lia.
  - simpl. by rewrite (H 62000).
Defined.

Lemma count_after_insert_merged_correct_witness :
  count_after_insert_merged adjacent_areas (anon_area 12288 4096 3) =
  Z.of_nat (length (insert_merged adjacent_areas (anon_area 12288 4096 3))).
Proof.
  apply count_after_insert_merged_correct;
    [apply adjacent_areas_wf|by apply anon_area_wf| |vm_compute; reflexivity].
  intros x Hx. apply adjacent_areas_free. unfold contains, end_, sat_add in Hx. simpl in Hx. lia.
Defined.

(** A private mapping of the first page of file 2 of device 1. *)
Definition file_area : VmRegion :=
  (anon_area 4096 4096 3) {{ r_file_backed := true; r_file_dev := 1; r_file_ino := 2 }}.

Lemma file_area_wf : vma_wf [(4096, file_area)].
Proof.
  apply (insert_view [] file_area); [apply vma_wf_nil| |done]. split; simpl; unfold is_usize; lia || done.
Qed.

Lemma file_copy_targets_spec_witness :
  exists va d n, (va, d, n) ∈ (file_copy_targets [(4096, file_area)] 1 2 100 50).1 /\ va <= 4220 < va + n.
Proof.
  pose proof (file_copy_targets_spec [(4096, file_area)] 1 2 100 50) as H.
  destruct (file_copy_targets [(4096, file_area)] 1 2 100 50) as [pending s'].
  destruct H as (_ & _ & H); [apply file_area_wf|lia..|].
  destruct (H file_area 4220) as [(va & d & n & H1 & H2) _];
    [left|reflexivity|reflexivity|vm_compute; reflexivity|vm_compute; split; congruence|].
  by exists va, d, n.
Defined.

Lemma expand_down_to_offset_witness :
  pg_offset (page_at (expand_down_to file_area 0) 4096) = Some 4096.
Proof.
  rewrite (expand_down_to_offset file_area 0 4096); [reflexivity| |reflexivity|vm_compute; split; congruence].
  split; simpl; unfold is_usize; lia || done.
Defined.

Lemma prot_permission_roundtrip_witness : prot_from_permission (permission_from_prot 5) = 5.
Proof. apply (prot_permission_roundtrip 5). lia. Defined.
