(* ===== verification/PageTable.v ===== *)
(** * Page tables (Sv39)

    [arch/riscv64/mm/page_table.rs]: page-table entries, the three-level walk,
    mapping and unmapping, and the variants that keep a cache of the two upper
    levels.  Page tables live in frames: an entry is eight bytes of a page, and
    new tables come from [frame_alloc].  The view of a table is the function
    from virtual page numbers to leaf entries; every operation is specified on
    it. *)

From S2P Require Import Prelude.
From S2P Require Import BTree.
From S2P Require Import Bytes.
From S2P Require Import Address.
From S2P Require Import FrameAlloc.
From S2P Require Import PageCache.
From S2P Require Import VmRegion.

(** ** Entries *)

Definition pte_new (ppn flags : Z) : Z := Z.lor (wshl ppn 10) flags.
Definition pte_empty : Z := 0.
Definition pte_ppn (bits : Z) : Z := phys_page_num (Z.land (Z.shiftr bits 10) (2 ^ 44 - 1)).
Definition pte_flags (bits : Z) : Z := Z.land bits 1023.
Definition pte_is_valid (bits : Z) : bool := negb (Z.land (pte_flags bits) PTEFlags.V =? 0).
Definition pte_readable (bits : Z) : bool := negb (Z.land (pte_flags bits) PTEFlags.R =? 0).
Definition pte_writable (bits : Z) : bool := negb (Z.land (pte_flags bits) PTEFlags.W =? 0).
Definition pte_executable (bits : Z) : bool := negb (Z.land (pte_flags bits) PTEFlags.X =? 0).

(** [ppn.get_pte_array()[idx]], read and written. *)
Definition pte_at (m : Z -> list Z) (ppn idx : Z) : Z :=
  le_decode (take 8 (drop (8 * Z.to_nat idx) (m ppn))).
Definition set_pte (m : Z -> list Z) (ppn idx bits : Z) : Z -> list Z :=
  Tracker.set_page m ppn (splice (m ppn) (8 * Z.to_nat idx) (le_encode 8 bits)).

(** The physical memory of a state, and the state after a write to it. *)
Abbreviation mem c := (fw_mem (pc_frames c)).
Definition with_mem (c : PageCache) (m : Z -> list Z) : PageCache :=
  c {{ pc_frames := (pc_frames c) {{ fw_mem := m }} }}.
Definition write_pte (c : PageCache) (ppn idx bits : Z) : PageCache :=
  with_mem c (set_pte (mem c) ppn idx bits).

(** ** Tables *)

Record PageTable := mkPageTable {
  pt_root_ppn : Z;
  pt_frames : list Z
}.
#[export] Instance fields_PageTable : Fields PageTable := fun t => mkPageTable (pt_root_ppn t) (pt_frames t).

Record PageWalkCache := mkWalkCache {
  wc_l0_idx : Z;
  wc_l0_ppn : Z;
  wc_l1_idx : Z;
  wc_l1_ppn : Z;
  wc_l0_valid : bool;
  wc_l1_valid : bool
}.
#[export] Instance fields_PageWalkCache : Fields PageWalkCache := fun w =>
  mkWalkCache (wc_l0_idx w) (wc_l0_ppn w) (wc_l1_idx w) (wc_l1_ppn w) (wc_l0_valid w) (wc_l1_valid w).

Definition walk_cache_new : PageWalkCache := mkWalkCache 0 0 0 0 false false.
Definition walk_cache_reset (w : PageWalkCache) : PageWalkCache :=
  w {{ wc_l0_valid := false; wc_l1_valid := false }}.

(** [frame_alloc().unwrap()] *)
Definition frame_alloc_unwrap (c : PageCache) : option (Z * PageCache) :=
  '(frame, c) ← frame_alloc c;
  frame ← frame;
  Some (frame, c).

Definition pt_new (c : PageCache) : option (PageTable * PageCache) :=
  '(frame, c) ← frame_alloc_unwrap c;
  Some (mkPageTable frame [frame], c).

Definition ROOT_ENTRIES : Z := 512.
Definition root_index_of_va (va : Z) : Z := Z.land (Z.shiftr va 30) (ROOT_ENTRIES - 1).
Definition root_entry_start (index : Z) : Z := wshl index 30.
Definition root_entry_end (index : Z) : Z := wshl (wadd index 1) 30.

Definition ensure_root_entry (c : PageCache) (pt : PageTable) (index : Z)
    : option (bool * PageCache * PageTable) :=
  if ROOT_ENTRIES <=? index then Some (false, c, pt)
  else if pte_is_valid (pte_at (mem c) (pt_root_ppn pt) index) then Some (true, c, pt)
  else
    '(frame, c) ← frame_alloc c;
    match frame with
    | None => Some (false, c, pt)
    | Some frame =>
        Some (true, write_pte c (pt_root_ppn pt) index (pte_new frame PTEFlags.V),
              pt {{ pt_frames := vec_push (pt_frames pt) frame }})
    end.

Definition share_root_entry_from (c : PageCache) (pt : PageTable) (index : Z) (source : PageTable)
    : bool * PageCache :=
  if ROOT_ENTRIES <=? index then (false, c)
  else
    let src := pte_at (mem c) (pt_root_ppn source) index in
    if negb (pte_is_valid src) then (false, c)
    else
      let dst := pte_at (mem c) (pt_root_ppn pt) index in
      if pte_is_valid dst then (dst =? src, c)
      else (true, write_pte c (pt_root_ppn pt) index src).

Definition mark_root_entry_global (c : PageCache) (pt : PageTable) (index : Z) : bool * PageCache :=
  if ROOT_ENTRIES <=? index then (false, c)
  else
    let pte := pte_at (mem c) (pt_root_ppn pt) index in
    if negb (pte_is_valid pte) then (false, c)
    else (true, write_pte c (pt_root_ppn pt) index (Z.lor pte PTEFlags.G)).

Definition from_token (satp : Z) : PageTable := mkPageTable (phys_page_num (Z.land satp (2 ^ 44 - 1))) [].
Definition token (pt : PageTable) : Z := Z.lor (wshl 8 60) (pt_root_ppn pt).

(** ** The walk *)

(** The loop of [find_pte] from a table on; the result is where the leaf entry is. *)
Fixpoint find_pte_loop (m : Z -> list Z) (ppn : Z) (idxs : list Z) : option (Z * Z) :=
  match idxs with
  | [] => None
  | [idx] => Some (ppn, idx)
  | idx :: idxs =>
      let pte := pte_at m ppn idx in
      if pte_is_valid pte then find_pte_loop m (pte_ppn pte) idxs else None
  end.
Definition find_pte (m : Z -> list Z) (pt : PageTable) (vpn : Z) : option (Z * Z) :=
  find_pte_loop m (pt_root_ppn pt) (indexes vpn).

(** The entry of an upper level, made if it is missing. *)
Definition ensure_entry (c : PageCache) (pt : PageTable) (t i : Z) : option (Z * PageCache * PageTable) :=
  let pte := pte_at (mem c) t i in
  if pte_is_valid pte then Some (pte, c, pt)
  else
    '(frame, c) ← frame_alloc_unwrap c;
    let pte := pte_new frame PTEFlags.V in
    Some (pte, write_pte c t i pte, pt {{ pt_frames := vec_push (pt_frames pt) frame }}).

Fixpoint find_pte_create_loop (c : PageCache) (pt : PageTable) (ppn : Z) (idxs : list Z)
    : option ((Z * Z) * PageCache * PageTable) :=
  match idxs with
  | [] => None
  | [idx] => Some ((ppn, idx), c, pt)
  | idx :: idxs =>
      '(pte, c, pt) ← ensure_entry c pt ppn idx;
      find_pte_create_loop c pt (pte_ppn pte) idxs
  end.
Definition find_pte_create (c : PageCache) (pt : PageTable) (vpn : Z)
    : option ((Z * Z) * PageCache * PageTable) :=
  find_pte_create_loop c pt (pt_root_ppn pt) (indexes vpn).

(** ** Mapping *)

Definition pt_map (c : PageCache) (pt : PageTable) (vpn ppn flags : Z) : option (PageCache * PageTable) :=
  '((t, i), c, pt) ← find_pte_create c pt vpn;
  if pte_is_valid (pte_at (mem c) t i) then None
  else Some (write_pte c t i (pte_new ppn (Z.lor flags PTEFlags.V)), pt).

Definition pt_unmap (c : PageCache) (pt : PageTable) (vpn : Z) : option PageCache :=
  '(t, i) ← find_pte (mem c) pt vpn;
  if pte_is_valid (pte_at (mem c) t i) then Some (write_pte c t i pte_empty) else None.

(** An update of a leaf entry that must be there and valid. *)
Definition update_leaf (c : PageCache) (pt : PageTable) (vpn : Z) (f : Z -> Z) : bool * PageCache :=
  match find_pte (mem c) pt vpn with
  | None => (false, c)
  | Some (t, i) =>
      let pte := pte_at (mem c) t i in
      if pte_is_valid pte then (true, write_pte c t i (f pte)) else (false, c)
  end.

Definition unmap_if_mapped (c : PageCache) (pt : PageTable) (vpn : Z) : bool * PageCache :=
  update_leaf c pt vpn (fun _ => pte_empty).
Definition set_flags (c : PageCache) (pt : PageTable) (vpn flags : Z) : bool * PageCache :=
  update_leaf c pt vpn (fun pte => pte_new (pte_ppn pte) (Z.lor flags PTEFlags.V)).
Definition remap (c : PageCache) (pt : PageTable) (vpn ppn flags : Z) : bool * PageCache :=
  update_leaf c pt vpn (fun _ => pte_new ppn (Z.lor flags PTEFlags.V)).

Definition translate (m : Z -> list Z) (pt : PageTable) (vpn : Z) : option Z :=
  '(t, i) ← find_pte m pt vpn; Some (pte_at m t i).

Definition translate_va (m : Z -> list Z) (pt : PageTable) (va : Z) : option Z :=
  pte ← translate m pt (floor va);
  Some (phys_addr (wadd (page_to_addr (pte_ppn pte)) (page_offset va))).

(** ** With a cache of the upper levels *)

Definition idx_at (idxs : list Z) (n : nat) : Z := nth n idxs 0.

Definition l0_hit (w : PageWalkCache) (idxs : list Z) : bool :=
  wc_l0_valid w && (wc_l0_idx w =? idx_at idxs 0).
Definition l1_hit (w : PageWalkCache) (idxs : list Z) : bool :=
  wc_l1_valid w && (wc_l1_idx w =? idx_at idxs 1).
Definition fill_l0 (w : PageWalkCache) (idxs : list Z) (pte : Z) : PageWalkCache :=
  w {{ wc_l0_idx := idx_at idxs 0; wc_l0_ppn := pte_ppn pte; wc_l0_valid := true; wc_l1_valid := false }}.
Definition fill_l1 (w : PageWalkCache) (idxs : list Z) (pte : Z) : PageWalkCache :=
  w {{ wc_l1_idx := idx_at idxs 1; wc_l1_ppn := pte_ppn pte; wc_l1_valid := true }}.

(** The first half of [translate_cached] and [set_flags_cached]: the table of the
    leaf entry, and the cache. *)
Definition walk_cached (m : Z -> list Z) (pt : PageTable) (idxs : list Z) (w : PageWalkCache)
    : option Z * PageWalkCache :=
  let pte_l0 := pte_at m (pt_root_ppn pt) (idx_at idxs 0) in
  if negb (l0_hit w idxs) && negb (pte_is_valid pte_l0) then (None, walk_cache_reset w)
  else
    let w := if l0_hit w idxs then w else fill_l0 w idxs pte_l0 in
    let pte_l1 := pte_at m (wc_l0_ppn w) (idx_at idxs 1) in
    if negb (l1_hit w idxs) && negb (pte_is_valid pte_l1) then (None, w {{ wc_l1_valid := false }})
    else
      let w := if l1_hit w idxs then w else fill_l1 w idxs pte_l1 in
      (Some (wc_l1_ppn w), w).

Definition translate_cached (m : Z -> list Z) (pt : PageTable) (vpn : Z) (w : PageWalkCache)
    : option Z * PageWalkCache :=
  let idxs := indexes vpn in
  match walk_cached m pt idxs w with
  | (None, w) => (None, w)
  | (Some t, w) =>
      let pte_leaf := pte_at m t (idx_at idxs 2) in
      (if pte_is_valid pte_leaf then Some pte_leaf else None, w)
  end.

Definition set_flags_cached (c : PageCache) (pt : PageTable) (vpn flags : Z) (w : PageWalkCache)
    : bool * PageCache * PageWalkCache :=
  let idxs := indexes vpn in
  match walk_cached (mem c) pt idxs w with
  | (None, w) => (false, c, w)
  | (Some t, w) =>
      let pte_leaf := pte_at (mem c) t (idx_at idxs 2) in
      if pte_is_valid pte_leaf
      then (true, write_pte c t (idx_at idxs 2) (pte_new (pte_ppn pte_leaf) (Z.lor flags PTEFlags.V)), w)
      else (false, c, w)
  end.

(** The two upper levels of [map_cached]. *)
Definition map_walk_cached (c : PageCache) (pt : PageTable) (idxs : list Z) (w : PageWalkCache)
    : option (PageCache * PageTable * PageWalkCache) :=
  '(c, pt, w) ←
    (if l0_hit w idxs then Some (c, pt, w)
     else
       '(pte_l0, c, pt) ← ensure_entry c pt (pt_root_ppn pt) (idx_at idxs 0);
       Some (c, pt, fill_l0 w idxs pte_l0));
  if l1_hit w idxs then Some (c, pt, w)
  else
    '(pte_l1, c, pt) ← ensure_entry c pt (wc_l0_ppn w) (idx_at idxs 1);
    Some (c, pt, fill_l1 w idxs pte_l1).

Definition map_cached (c : PageCache) (pt : PageTable) (vpn ppn flags : Z) (w : PageWalkCache)
    : option (PageCache * PageTable * PageWalkCache) :=
  let idxs := indexes vpn in
  '(c, pt, w) ← map_walk_cached c pt idxs w;
  let t := wc_l1_ppn w in
  let i := idx_at idxs 2 in
  if pte_is_valid (pte_at (mem c) t i) then None
  else Some (write_pte c t i (pte_new ppn (Z.lor flags PTEFlags.V)), pt, w).

#[global] Arguments pte_at : simpl never.
#[global] Arguments set_pte : simpl never.
#[global] Arguments write_pte : simpl never.

(** ** Words in pages *)

Lemma take_drop_splice_same (page : list Z) off n data :
  length data = n -> (off + n <= length page)%nat -> take n (drop off (splice page off data)) = data.
Proof.
  intros Hn Hle. unfold splice. rewrite drop_app_ge by (rewrite length_take; lia).
  rewrite length_take, Nat.min_l by lia. rewrite Nat.sub_diag, drop_0.
  by rewrite take_app_length'.
Qed.

Lemma take_drop_splice_other (page : list Z) off off' n data :
  (off + length data <= length page)%nat -> (off' + n <= off \/ off + length data <= off')%nat ->
  take n (drop off' (splice page off data)) = take n (drop off' page).
Proof.
  intros Hle Hd. apply list_eq. intros i. destruct (decide (i < n)%nat).
  - rewrite !lookup_take_lt, !lookup_drop by lia. rewrite splice_lookup by lia.
    case_if; [lia|done].
  - by rewrite !lookup_take_ge by lia.
Qed.

Definition is_index (i : Z) : Prop := 0 <= i < 512.
Definition is_pte (bits : Z) : Prop := 0 <= bits < 2 ^ 64.
Definition is_ppn (p : Z) : Prop := 0 <= p < 2 ^ 44.
Definition is_flags (f : Z) : Prop := 0 <= f < 1024.

Lemma pte_at_set m p i v q j :
  full_pages m -> is_index i -> is_index j -> is_pte v ->
  pte_at (set_pte m p i v) q j = if (q =? p) && (j =? i) then v else pte_at m q j.
Proof.
  unfold is_index, is_pte, pte_at, set_pte, Tracker.set_page. intros Hfull Hi Hj Hv.
  destruct (q =? p) eqn:Eq; cbn [andb]; [|done]. assert (q = p) as -> by lia.
  pose proof (Hfull p) as Hp. pose proof (length_le_encode 8 v) as Hlen.
  destruct (j =? i) eqn:Ej.
  - assert (j = i) as -> by lia. rewrite take_drop_splice_same by lia. by apply le_decode_encode.
  - rewrite take_drop_splice_other; [done|lia|]. rewrite Hlen. lia.
Qed.

Lemma set_pte_full m p i v : full_pages m -> is_index i -> full_pages (set_pte m p i v).
Proof.
  unfold is_index. intros Hf Hi. apply full_pages_set; [done|].
  rewrite splice_length; [apply Hf|]. rewrite length_le_encode, (Hf p). lia.
Qed.

(** ** Bits of an entry *)

Lemma pte_new_eq ppn flags : is_ppn ppn -> is_flags flags -> pte_new ppn flags = ppn * 1024 + flags.
Proof.
  unfold is_ppn, is_flags, pte_new, wshl. intros Hp Hf.
  rewrite Z.shiftl_mul_pow2 by lia. change (2 ^ 10) with 1024. rewrite Z.mod_small by lia.
  assert (Z.land (ppn * 1024) flags = 0) as H0.
  { assert (flags = Z.land (Z.ones 10) flags) as ->.
    { rewrite Z.land_comm, Z.land_ones by lia. change (2 ^ 10) with 1024. by rewrite Z.mod_small. }
    rewrite Z.land_assoc, Z.land_ones by lia. change (2 ^ 10) with 1024. by rewrite Z.mod_mul. }
  by rewrite <- Z.lxor_lor, <- Z.add_nocarry_lxor.
Qed.

Lemma pte_flags_eq bits : pte_flags bits = bits mod 1024.
Proof. unfold pte_flags. change 1023 with (Z.ones 10). by rewrite Z.land_ones by lia. Qed.

Lemma pte_ppn_eq bits : is_pte bits -> pte_ppn bits = bits / 1024 mod 2 ^ 44.
Proof.
  unfold pte_ppn, is_pte. intros Hb. change (2 ^ 44 - 1) with (Z.ones 44). rewrite Z.land_ones by lia.
  rewrite Z.shiftr_div_pow2 by lia. change (2 ^ 10) with 1024.
  apply StackAlloc.phys_page_num_small. change StackAlloc.PPN_MOD with (2 ^ 44). by apply Z.mod_pos_bound.
Qed.

Lemma pte_ppn_is_ppn bits : is_ppn (pte_ppn bits).
Proof.
  unfold pte_ppn, is_ppn. change (2 ^ 44 - 1) with (Z.ones 44). rewrite Z.land_ones by lia.
  pose proof (Z.mod_pos_bound (Z.shiftr bits 10) (2 ^ 44) ltac:(lia)).
  rewrite StackAlloc.phys_page_num_small; [done|]. by change StackAlloc.PPN_MOD with (2 ^ 44).
Qed.

(** What is written is read back. *)
Lemma pte_new_spec ppn flags :
  is_ppn ppn -> is_flags flags ->
  is_pte (pte_new ppn flags) /\ pte_ppn (pte_new ppn flags) = ppn /\ pte_flags (pte_new ppn flags) = flags.
Proof.
  intros Hp Hf. pose proof (pte_new_eq _ _ Hp Hf) as Heq. unfold is_ppn, is_flags in *.
  assert (is_pte (pte_new ppn flags)) as Hpte by (unfold is_pte; lia). split_and!; [done|..].
  - rewrite pte_ppn_eq, Heq by done. rewrite Z.div_add_l by lia. rewrite (Z.div_small flags) by lia.
    rewrite Z.add_0_r. by apply Z.mod_small.
  - rewrite pte_flags_eq, Heq, Z.add_comm, Z.mod_add by lia. by apply Z.mod_small.
Qed.

Lemma lor_flags a b : is_flags a -> is_flags b -> is_flags (Z.lor a b).
Proof.
  unfold is_flags. intros Ha Hb. split; [apply Z.lor_nonneg; lia|].
  destruct (Z.eq_dec (Z.lor a b) 0) as [->|Hne]; [lia|]. change 1024 with (2 ^ 10).
  assert (0 <= Z.lor a b) by (apply Z.lor_nonneg; lia).
  apply Z.log2_lt_cancel. rewrite Z.log2_lor by lia. rewrite (Z.log2_pow2 10) by lia.
  assert (forall x, 0 <= x < 1024 -> Z.log2 x < 10) as Hl.
  { intros x Hx. destruct (Z.eq_dec x 0); [subst; done|]. apply Z.log2_lt_pow2; lia. }
  apply Z.max_lub_lt; auto.
Qed.

Lemma pte_valid_new ppn flags :
  is_ppn ppn -> is_flags flags -> pte_is_valid (pte_new ppn (Z.lor flags PTEFlags.V)) = true.
Proof.
  intros Hp Hf. assert (is_flags PTEFlags.V) as HV by (unfold is_flags, PTEFlags.V; lia).
  destruct (pte_new_spec ppn _ Hp (lor_flags _ _ Hf HV)) as (_ & _ & Hflags).
  unfold pte_is_valid. rewrite Hflags. apply negb_true_iff, Z.eqb_neq. intros H0.
  assert (Z.testbit (Z.land (Z.lor flags PTEFlags.V) PTEFlags.V) 0 = false) as Hb by (by rewrite H0).
  rewrite Z.land_spec, Z.lor_spec in Hb. change (Z.testbit PTEFlags.V 0) with true in Hb.
  by rewrite orb_true_r in Hb.
Qed.

Lemma pte_valid_table frame : is_ppn frame -> pte_is_valid (pte_new frame PTEFlags.V) = true.
Proof.
  intros Hp. rewrite <- (pte_valid_new frame 0 Hp ltac:(unfold is_flags; lia)). by rewrite Z.lor_0_l.
Qed.

Lemma pte_zero_invalid : pte_is_valid 0 = false.
Proof. done. Qed.

Lemma pte_at_zero m p i : m p = Tracker.zero_page -> pte_at m p i = 0.
Proof.
  intros Hz. unfold pte_at. rewrite Hz. unfold Tracker.zero_page.
  rewrite drop_replicate, take_replicate. generalize (8 `min` (4096 - 8 * Z.to_nat i))%nat.
  induction n as [|n IH]; simpl; [done|]. by rewrite IH.
Qed.

(** ** The tree of tables *)

Definition next_table (m : Z -> list Z) (t i : Z) : option Z :=
  if pte_is_valid (pte_at m t i) then Some (pte_ppn (pte_at m t i)) else None.

(** The table at the end of a path of indexes. *)
Definition node (m : Z -> list Z) (root : Z) (path : list Z) : option Z :=
  foldl (fun t i => t ← t; next_table m t i) (Some root) path.

(** Paths to the tables of the three levels. *)
Definition path_ok (path : list Z) : Prop := (length path <= 2)%nat /\ Forall is_index path.

(** Every table is one of the frames [N], and reached by one path only. *)
Record pt_tree (m : Z -> list Z) (root : Z) (N : list Z) : Prop := {
  tree_in : forall path t, path_ok path -> node m root path = Some t -> t ∈ N;
  tree_inj : forall p q t, path_ok p -> path_ok q ->
    node m root p = Some t -> node m root q = Some t -> p = q
}.

(** The page is not a table. *)
Definition not_table (m : Z -> list Z) (root q : Z) : Prop :=
  forall path, path_ok path -> node m root path <> Some q.

(** The view: the leaf entry of a virtual page, [0] where there is none. *)
Definition i0 (vpn : Z) : Z := vpn / 262144 mod 512.
Definition i1 (vpn : Z) : Z := vpn / 512 mod 512.
Definition i2 (vpn : Z) : Z := vpn mod 512.
Definition pt_view (m : Z -> list Z) (root vpn : Z) : Z :=
  match node m root [i0 vpn; i1 vpn] with
  | Some t => pte_at m t (i2 vpn)
  | None => 0
  end.
Definition is_vpn (vpn : Z) : Prop := 0 <= vpn < 134217728.

Lemma index_mod x : is_index (x mod 512).
Proof. apply Z.mod_pos_bound. lia. Qed.

Lemma path_nil : path_ok [].
Proof. by split; [simpl; lia|]. Qed.

Lemma path_snoc_inv p i : path_ok (p ++ [i]) -> path_ok p /\ (length p <= 1)%nat /\ is_index i.
Proof.
  unfold path_ok. rewrite length_app, Forall_app, Forall_singleton. simpl.
  intros (? & ? & ?). split_and!; try done; lia.
Qed.

Lemma path_snoc p i : path_ok p -> (length p <= 1)%nat -> is_index i -> path_ok (p ++ [i]).
Proof.
  unfold path_ok. rewrite length_app, Forall_app, Forall_singleton. simpl.
  intros (? & ?) ? ?. split_and!; try done; lia.
Qed.

Lemma path_leaf vpn : path_ok [i0 vpn; i1 vpn].
Proof. split; [simpl; lia|]. repeat constructor; apply index_mod. Qed.

Lemma node_snoc m root p i : node m root (p ++ [i]) = t ← node m root p; next_table m t i.
Proof. unfold node. by rewrite foldl_app. Qed.

Lemma vpn_eq vpn vpn' : is_vpn vpn -> is_vpn vpn' -> i0 vpn = i0 vpn' -> i1 vpn = i1 vpn' -> i2 vpn = i2 vpn' ->
  vpn = vpn'.
Proof.
  assert (forall v, is_vpn v -> v = i0 v * 262144 + i1 v * 512 + i2 v) as H.
  { intros v Hv. unfold is_vpn, i0, i1, i2 in *.
    assert (v / 262144 mod 512 = v / 262144) as ->.
    { apply Z.mod_small. split; [apply Z.div_pos; lia|apply Z.div_lt_upper_bound; lia]. }
    pose proof (Z.div_mod v 512). pose proof (Z.div_mod (v / 512) 512).
    rewrite Z.div_div in * by lia. change (512 * 512) with 262144 in *. lia. }
  intros Hv Hv' H0 H1 H2. rewrite (H vpn), (H vpn'), H0, H1, H2 by done. done.
Qed.

Lemma indexes_i vpn : indexes vpn = [i0 vpn; i1 vpn; i2 vpn].
Proof. apply indexes_eq. Qed.

Lemma find_pte_node m pt vpn :
  find_pte m pt vpn = t ← node m (pt_root_ppn pt) [i0 vpn; i1 vpn]; Some (t, i2 vpn).
Proof.
  unfold find_pte. rewrite indexes_eq. cbn. unfold next_table, i0, i1, i2.
  destruct (pte_is_valid _); [|done]. cbn. by destruct (pte_is_valid _).
Qed.

(** The tables depend on the pages of the tables only. *)
Lemma node_agree m m' root N p :
  pt_tree m root N -> (forall t, t ∈ N -> m' t = m t) -> path_ok p -> node m' root p = node m root p.
Proof.
  intros Ht Hm. induction p as [|i p IH] using rev_ind; [done|]. intros Hp.
  destruct (path_snoc_inv _ _ Hp) as (Hp' & _ & _). rewrite !node_snoc, IH by done.
  destruct (node m root p) as [t|] eqn:E; [|done]. simpl. unfold next_table, pte_at.
  by rewrite Hm by (by eapply tree_in).
Qed.

Lemma tree_agree m m' root N N' :
  pt_tree m root N -> (forall t, t ∈ N -> m' t = m t) -> (forall t, t ∈ N -> t ∈ N') -> pt_tree m' root N'.
Proof.
  intros Ht Hm Hsub. split.
  - intros p t Hp. rewrite (node_agree m m' root N) by done. intros. by eapply Hsub, tree_in.
  - intros p q t Hp Hq. rewrite !(node_agree m m' root N) by done. by eapply tree_inj.
Qed.

Lemma view_agree m m' root N vpn :
  pt_tree m root N -> (forall t, t ∈ N -> m' t = m t) -> pt_view m' root vpn = pt_view m root vpn.
Proof.
  intros Ht Hm. unfold pt_view. rewrite (node_agree m m' root N) by (done || apply path_leaf).
  destruct (node m root _) as [t|] eqn:E; [|done]. unfold pte_at. rewrite Hm; [done|].
  eapply tree_in; [done| |done]. apply path_leaf.
Qed.

(** *** Writing a leaf entry *)

Section Leaf.
Context (m : Z -> list Z) (root t i v : Z) (N : list Z) (p : list Z).
Hypothesis Hfull : full_pages m.
Hypothesis Htree : pt_tree m root N.
Hypothesis Hp : path_ok p.
Hypothesis Hlen : length p = 2%nat.
Hypothesis Hnode : node m root p = Some t.
Hypothesis Hi : is_index i.
Hypothesis Hv : is_pte v.

Lemma leaf_node q : path_ok q -> node (set_pte m t i v) root q = node m root q.
Proof.
  induction q as [|j q IH] using rev_ind; [done|]. intros Hq.
  destruct (path_snoc_inv _ _ Hq) as (Hq' & Hl & Hj). rewrite !node_snoc, IH by done.
  destruct (node m root q) as [t'|] eqn:E; [|done]. simpl. unfold next_table.
  rewrite !pte_at_set by done. destruct (t' =? t) eqn:Et; [|done]. simpl.
  assert (t' = t) as -> by lia. assert (q = p) as -> by (by eapply tree_inj). lia.
Qed.

Lemma leaf_tree : pt_tree (set_pte m t i v) root N.
Proof.
  split.
  - intros q x Hq. rewrite leaf_node by done. by eapply tree_in.
  - intros q q' x Hq Hq'. rewrite !leaf_node by done. by eapply tree_inj.
Qed.

Lemma leaf_view vpn :
  pt_view (set_pte m t i v) root vpn =
    if decide ([i0 vpn; i1 vpn] = p /\ i2 vpn = i) then v else pt_view m root vpn.
Proof.
  pose proof (path_leaf vpn) as Hl. unfold pt_view. rewrite leaf_node by done.
  destruct (node m root [i0 vpn; i1 vpn]) as [t'|] eqn:E.
  - rewrite pte_at_set by (done || apply index_mod). case_decide as Hd.
    + destruct Hd as [<- <-]. assert (t' = t) as -> by congruence. by rewrite !Z.eqb_refl.
    + destruct (t' =? t) eqn:Et, (i2 vpn =? i) eqn:Ei; try done. exfalso. apply Hd.
      split; [|lia]. eapply tree_inj; [done..|]. rewrite Hnode. f_equal. lia.
  - case_decide as Hd; [|done]. destruct Hd as [<- _]. congruence.
Qed.

End Leaf.

(** *** Adding a table *)

Lemma table_pte f : is_ppn f -> is_pte (pte_new f PTEFlags.V) /\ pte_ppn (pte_new f PTEFlags.V) = f.
Proof. intros Hf. destruct (pte_new_spec f PTEFlags.V Hf) as (? & ? & _); [unfold is_flags, PTEFlags.V; lia|done]. Qed.

Section Grow.
Context (m : Z -> list Z) (root t i f : Z) (N : list Z) (p : list Z).
Hypothesis Hfull : full_pages m.
Hypothesis Htree : pt_tree m root N.
Hypothesis Hp : path_ok p.
Hypothesis Hlen : (length p <= 1)%nat.
Hypothesis Hnode : node m root p = Some t.
Hypothesis Hi : is_index i.
Hypothesis Hnew : next_table m t i = None.
Hypothesis Hf : is_ppn f.
Hypothesis Hfresh : f ∉ N.
Hypothesis Hzero : m f = Tracker.zero_page.

Abbreviation m' := (set_pte m t i (pte_new f PTEFlags.V)).

Lemma grow_next x j :
  is_index j -> next_table m' x j = if (x =? t) && (j =? i) then Some f else next_table m x j.
Proof.
  intros Hj. destruct (table_pte f Hf) as [Hb Hpp]. unfold next_table. rewrite pte_at_set by done.
  destruct ((x =? t) && (j =? i)); [|done]. by rewrite pte_valid_table, Hpp.
Qed.

Lemma grow_node q :
  path_ok q -> node m' root q = if decide (q = p ++ [i]) then Some f else node m root q.
Proof.
  induction q as [|j q IH] using rev_ind.
  { intros _. rewrite decide_False by (by destruct p). done. }
  intros Hq. destruct (path_snoc_inv _ _ Hq) as (Hq' & Hl & Hj). rewrite !node_snoc, IH by done.
  assert (t ∈ N) as Ht by (by apply (tree_in _ _ _ Htree p)). destruct (decide (q = p ++ [i])) as [->|Hne]; simpl.
  - rewrite decide_False by (intros Heq%(f_equal length); rewrite !length_app in Heq; simpl in Heq; lia).
    rewrite node_snoc, Hnode. simpl. rewrite Hnew. simpl. rewrite grow_next by done.
    destruct (f =? t) eqn:E; [assert (f = t) as -> by lia; done|]. simpl.
    unfold next_table. by rewrite pte_at_zero.
  - destruct (node m root q) as [t'|] eqn:E; simpl.
    + rewrite grow_next by done. case_decide as Hd.
      * apply app_inj_tail in Hd as [-> ->]. assert (t' = t) as -> by congruence. by rewrite !Z.eqb_refl.
      * destruct (t' =? t) eqn:Et, (j =? i) eqn:Ej; try done. exfalso. apply Hd.
        assert (t' = t) as -> by lia. assert (j = i) as -> by lia. f_equal. by eapply tree_inj.
    + rewrite decide_False; [done|]. intros [-> ->]%app_inj_tail. congruence.
Qed.

Lemma grow_tree : pt_tree m' root (f :: N).
Proof.
  split.
  - intros q x Hq. rewrite grow_node by done. case_decide.
    + intros [= <-]. left.
    + intros. right. by eapply tree_in.
  - intros q q' x Hq Hq'. rewrite !grow_node by done.
    repeat case_decide; try congruence; intros H1 H2.
    + exfalso. apply Hfresh. injection H1 as ->. by eapply tree_in in H2.
    + exfalso. apply Hfresh. injection H2 as ->. by eapply tree_in in H1.
    + by eapply tree_inj.
Qed.

Lemma grow_view vpn : pt_view m' root vpn = pt_view m root vpn.
Proof.
  pose proof (path_leaf vpn) as Hl. unfold pt_view. rewrite grow_node by done.
  destruct (table_pte f Hf) as [Hb _]. assert (t ∈ N) as Ht by (by apply (tree_in _ _ _ Htree p)). case_decide as Hd.
  - rewrite pte_at_set by (done || apply index_mod). destruct (f =? t) eqn:E; [assert (f = t) as -> by lia; done|].
    simpl. rewrite pte_at_zero by done. by rewrite Hd, node_snoc, Hnode; simpl; rewrite Hnew.
  - destruct (node m root [i0 vpn; i1 vpn]) as [t'|] eqn:E; [|done]. rewrite pte_at_set by (done || apply index_mod).
    destruct (t' =? t) eqn:Et; [|done]. assert (t' = t) as -> by lia.
    assert ([i0 vpn; i1 vpn] = p) as <- by (by eapply tree_inj). simpl in Hlen. lia.
Qed.

End Grow.

(** ** Operations on tables in memory *)

(** The state of a page table: the frames [H] are owned outside the caches, and
    the tables are among them. *)
Record pt_inv (c : PageCache) (H : list Z) (root : Z) : Prop := {
  pi_owns : pc_owns c H;
  pi_full : full_pages (mem c);
  pi_tree : pt_tree (mem c) root H
}.

Definition out_of_frames (c : PageCache) (H : list Z) : Prop :=
  forall q, StackAlloc.managed (fw_alloc (pc_frames c)) q -> q ∈ trackers c H.

Definition has_room (c : PageCache) (H : list Z) (n : Z) : Prop :=
  Z.of_nat (length (trackers c H)) + n < USIZE_MAX.

(** The table grew by the frames [new]: what it maps, and every page that is not
    a table, is as before. *)
Record pt_grown (c : PageCache) (H : list Z) (root : Z) (c' : PageCache) (new : list Z) : Prop := {
  pg_inv : pt_inv c' (new ++ H) root;
  pg_fresh : forall q, q ∈ new -> q ∉ H;
  pg_node : forall p x, path_ok p -> node (mem c) root p = Some x -> node (mem c') root p = Some x;
  pg_tables : forall p x, path_ok p -> node (mem c') root p = Some x ->
    node (mem c) root p = Some x \/ x ∈ new;
  pg_view : forall vpn, pt_view (mem c') root vpn = pt_view (mem c) root vpn;
  pg_mem : forall q, q ∈ H -> not_table (mem c) root q -> mem c' q = mem c q;
  pg_length : (length (trackers c' (new ++ H)) <= length (trackers c H) + length new)%nat
}.

Lemma pt_grown_refl c H root : pt_inv c H root -> pt_grown c H root c [].
Proof.
  intros Hinv. split; try done; simpl.
  - by intros q ?%elem_of_nil.
  - intros. by left.
  - lia.
Qed.

Lemma pt_grown_trans c H root c1 new1 c2 new2 :
  pt_grown c H root c1 new1 -> pt_grown c1 (new1 ++ H) root c2 new2 ->
  pt_grown c H root c2 (new2 ++ new1).
Proof.
  intros [I1 F1 N1 T1 V1 M1 L1] [I2 F2 N2 T2 V2 M2 L2]. split.
  - by rewrite <- app_assoc.
  - intros q [Hq|Hq]%elem_of_app; [|auto]. intros Hin. apply (F2 q Hq). apply elem_of_app. by right.
  - auto.
  - intros p x Hp Hx. destruct (T2 p x Hp Hx) as [Hx1|?]; [|set_solver].
    destruct (T1 p x Hp Hx1); [by left|set_solver].
  - intros vpn. by rewrite V2, V1.
  - intros q Hq Hnt. rewrite M2; [by apply M1|set_solver|]. intros p Hp Hx.
    destruct (T1 p q Hp Hx) as [?|Hn]; [by eapply Hnt|]. by eapply F1.
  - rewrite <- app_assoc, length_app. lia.
Qed.

Lemma with_mem_owns c H m : pc_owns c H -> pc_owns (with_mem c m) H.
Proof. apply set_mem_owns. Qed.

Lemma trackers_with_mem c m H : trackers (with_mem c m) H = trackers c H.
Proof. done. Qed.

Lemma frame_alloc_unwrap_spec c H :
  pc_owns c H -> has_room c H 1 ->
  match frame_alloc_unwrap c with
  | Some (f, c') =>
      pc_owns c' (f :: H) /\ f ∉ H /\ is_ppn f /\ mem c' f = Tracker.zero_page /\
      (forall q, q <> f -> mem c' q = mem c q) /\ (length (trackers c' H) <= length (trackers c H))%nat
  | None => out_of_frames c H
  end.
Proof.
  intros Ho Hl. unfold frame_alloc_unwrap.
  destruct (frame_alloc_owns c H Ho Hl) as ([f|] & c' & -> & Hr); simpl.
  - destruct Hr as (Ho' & Hn & _ & Hz & Hm & Hlen). split_and!; try done.
    + intros Hin. apply Hn. apply elem_of_app. by left.
    + by apply (tracker_range c' (f :: H) f Ho' ltac:(left)).
  - by destruct Hr as (_ & Hr & _).
Qed.

Lemma zero_page_full m m' f : full_pages m -> m' f = Tracker.zero_page -> (forall q, q <> f -> m' q = m q) -> full_pages m'.
Proof.
  intros Hf Hz Hm q. destruct (decide (q = f)) as [->|Hne].
  - rewrite Hz. unfold Tracker.zero_page. apply length_replicate.
  - rewrite Hm by done. apply Hf.
Qed.

Section Ensure.
Context (c : PageCache) (H : list Z) (root : Z) (pt : PageTable) (p : list Z) (t i : Z).
Hypothesis Hinv : pt_inv c H root.
Hypothesis Hroom : has_room c H 1.
Hypothesis Hp : path_ok p.
Hypothesis Hlen : (length p <= 1)%nat.
Hypothesis Hnode : node (mem c) root p = Some t.
Hypothesis Hi : is_index i.

Lemma ensure_entry_spec :
  match ensure_entry c pt t i with
  | Some (pte, c', pt') =>
      exists new, pt_grown c H root c' new /\ (length new <= 1)%nat /\
        pt' = pt {{ pt_frames := pt_frames pt ++ new }} /\
        node (mem c') root (p ++ [i]) = Some (pte_ppn pte)
  | None => out_of_frames c H
  end.
Proof.
  unfold ensure_entry. destruct (pte_is_valid (pte_at (mem c) t i)) eqn:Ev.
  { exists []. split_and!; [by apply pt_grown_refl|simpl; lia|by destruct pt; rewrite app_nil_r|].
    rewrite node_snoc, Hnode. simpl. unfold next_table. by rewrite Ev. }
  destruct Hinv as [Ho Hfull Ht]. pose proof (frame_alloc_unwrap_spec c H Ho Hroom) as Ha.
  destruct (frame_alloc_unwrap c) as [[f c1]|]; [|done]. simpl.
  destruct Ha as (Ho1 & Hfresh & Hf & Hz & Hm & Hl).
  assert (forall x, x ∈ H -> mem c1 x = mem c x) as HmH by (intros x Hx; apply Hm; by intros ->).
  pose proof (zero_page_full _ _ _ Hfull Hz Hm) as Hfull1.
  pose proof (tree_agree _ _ _ _ H Ht HmH ltac:(done)) as Ht1.
  assert (forall q, path_ok q -> node (mem c1) root q = node (mem c) root q) as Hn
    by (intros; by eapply node_agree).
  assert (node (mem c1) root p = Some t) as Hnode1 by (by rewrite Hn).
  assert (next_table (mem c1) t i = None) as Hnew.
  { unfold next_table, pte_at in *. rewrite HmH by (by apply (tree_in _ _ _ Ht p)). by rewrite Ev. }
  pose proof (grow_node _ root t i f H p Hfull1 Ht1 Hp Hlen Hnode1 Hi Hnew Hf Hfresh Hz) as Hgn.
  destruct (table_pte f Hf) as [_ Hpp]. exists [f]. split_and!; [|simpl; lia|done|].
  2: { cbn [mem write_pte]. rewrite Hgn by (by apply path_snoc). by rewrite decide_True, Hpp. }
  split; simpl.
  - split; [by apply with_mem_owns|by apply set_pte_full|by apply (grow_tree _ root t i f H p)].
  - by intros q ->%list_elem_of_singleton.
  - intros q x Hq Hx. rewrite Hgn, Hn by done. case_decide as Hd; [|done]. exfalso. subst q.
    rewrite node_snoc, Hnode in Hx. simpl in Hx. unfold next_table in Hx. by rewrite Ev in Hx.
  - intros q x Hq. rewrite Hgn, Hn by done. case_decide; [|by left].
    intros [= <-]. right. by apply list_elem_of_singleton.
  - intros vpn. rewrite (grow_view _ root t i f H p) by done. by eapply view_agree.
  - intros q Hq Hnt. unfold set_pte, Tracker.set_page. destruct (q =? t) eqn:E; [|by apply HmH].
    exfalso. apply (Hnt p Hp). rewrite Hnode. f_equal. lia.
  - unfold trackers in *. simpl. rewrite !length_app in *. lia.
Qed.

End Ensure.

(** *** [find_pte_create] *)

Lemma find_pte_create_spec c H pt vpn :
  pt_inv c H (pt_root_ppn pt) -> has_room c H 2 ->
  match find_pte_create c pt vpn with
  | Some ((t, i), c', pt') =>
      exists new, pt_grown c H (pt_root_ppn pt) c' new /\ (length new <= 2)%nat /\
        pt_root_ppn pt' = pt_root_ppn pt /\ pt_frames pt' ≡ₚ new ++ pt_frames pt /\
        node (mem c') (pt_root_ppn pt) [i0 vpn; i1 vpn] = Some t /\ i = i2 vpn
  | None => exists c' new, (length new <= 1)%nat /\ pt_grown c H (pt_root_ppn pt) c' new /\
      out_of_frames c' (new ++ H)
  end.
Proof.
  intros Hinv Hroom. unfold find_pte_create. rewrite indexes_eq. cbn.
  fold (i0 vpn) (i1 vpn) (i2 vpn).
  pose proof (ensure_entry_spec c H (pt_root_ppn pt) pt [] (pt_root_ppn pt) (i0 vpn) Hinv
    ltac:(unfold has_room in *; lia) path_nil ltac:(simpl; lia) eq_refl (index_mod _)) as H1.
  destruct (ensure_entry c pt (pt_root_ppn pt) (i0 vpn)) as [[[pte1 c1] pt1]|]; cbn.
  2: { exists c, []. split_and!; [simpl; lia|by apply pt_grown_refl|done]. }
  destruct H1 as (new1 & Hg1 & Hl1 & -> & Hn1). pose proof (pg_length _ _ _ _ _ Hg1) as Hlen1.
  pose proof (ensure_entry_spec c1 (new1 ++ H) (pt_root_ppn pt) (pt {{ pt_frames := pt_frames pt ++ new1 }})
    [i0 vpn] (pte_ppn pte1) (i1 vpn) (pg_inv _ _ _ _ _ Hg1) ltac:(unfold has_room in *; lia)
    ltac:(split; [simpl; lia|apply Forall_singleton, index_mod]) ltac:(simpl; lia) Hn1 (index_mod _)) as H2.
  destruct (ensure_entry c1 _ (pte_ppn pte1) (i1 vpn)) as [[[pte2 c2] pt2]|]; cbn.
  2: { exists c1, new1. split_and!; [lia|done|done]. }
  destruct H2 as (new2 & Hg2 & Hl2 & -> & Hn2). exists (new2 ++ new1). split_and!; try done.
  - by eapply pt_grown_trans.
  - rewrite length_app. lia.
  - simpl. rewrite (Permutation_app_comm (_ ++ new1) new2), (Permutation_app_comm (pt_frames pt) new1).
    by rewrite app_assoc.
Qed.

(** *** What the operations do to the view *)

(** A new leaf entry, everything else as before. *)
Definition view_set (m : Z -> list Z) (root vpn v : Z) (m' : Z -> list Z) : Prop :=
  forall vpn', is_vpn vpn' -> pt_view m' root vpn' = if vpn' =? vpn then v else pt_view m root vpn'.

Lemma write_leaf_spec c H root vpn t v :
  pt_inv c H root -> is_vpn vpn -> node (mem c) root [i0 vpn; i1 vpn] = Some t -> is_pte v ->
  let c' := write_pte c t (i2 vpn) v in
  pt_inv c' H root /\ view_set (mem c) root vpn v (mem c') /\
  (forall p, path_ok p -> node (mem c') root p = node (mem c) root p) /\
  (forall q, not_table (mem c) root q -> mem c' q = mem c q).
Proof.
  intros [Ho Hfull Ht] Hvpn Hn Hv. pose proof (path_leaf vpn) as Hp. pose proof (index_mod vpn) as Hi.
  split_and!.
  - split; [by apply with_mem_owns|by apply set_pte_full|].
    by apply (leaf_tree _ root t (i2 vpn) v H [i0 vpn; i1 vpn]).
  - intros vpn' Hvpn'. change (mem (write_pte c t (i2 vpn) v)) with (set_pte (mem c) t (i2 vpn) v).
    rewrite (leaf_view _ root t (i2 vpn) v H [i0 vpn; i1 vpn]) by done.
    case_decide as Hd.
    + destruct Hd as [[= H0 H1] H2]. assert (vpn' = vpn) as -> by (by apply vpn_eq). by rewrite Z.eqb_refl.
    + destruct (vpn' =? vpn) eqn:E; [|done]. exfalso. apply Hd. by assert (vpn' = vpn) as -> by lia.
  - intros p Hpp. by apply (leaf_node _ root t (i2 vpn) v H [i0 vpn; i1 vpn]).
  - intros q Hnt. unfold write_pte, with_mem, set_pte, Tracker.set_page. cbn. destruct (q =? t) eqn:E; [|done].
    exfalso. apply (Hnt _ Hp). rewrite Hn. f_equal. lia.
Qed.

Lemma view_node m root vpn t : node m root [i0 vpn; i1 vpn] = Some t -> pt_view m root vpn = pte_at m t (i2 vpn).
Proof. intros Hn. unfold pt_view. by rewrite Hn. Qed.

Lemma view_set_grown c H root c1 new vpn v m' :
  pt_grown c H root c1 new -> view_set (mem c1) root vpn v m' -> view_set (mem c) root vpn v m'.
Proof. intros Hg Hs vpn' Hvpn'. rewrite Hs by done. by rewrite (pg_view _ _ _ _ _ Hg). Qed.

Lemma leaf_flags flags : is_flags flags -> is_flags (Z.lor flags PTEFlags.V).
Proof. intros. apply lor_flags; [done|]. unfold is_flags, PTEFlags.V. lia. Qed.

(** [map] enters a translation and touches no other, allocating at most two
    tables; no page outside the tables changes.  It panics only when the page is
    mapped already or memory is exhausted. *)
Lemma pt_map_ok c H pt vpn ppn flags :
  pt_inv c H (pt_root_ppn pt) -> has_room c H 2 -> is_vpn vpn -> is_ppn ppn -> is_flags flags ->
  let root := pt_root_ppn pt in
  match pt_map c pt vpn ppn flags with
  | Some (c', pt') =>
      exists new, pt_inv c' (new ++ H) root /\ pt_root_ppn pt' = root /\ (length new <= 2)%nat /\
        pt_frames pt' ≡ₚ new ++ pt_frames pt /\
        pte_is_valid (pt_view (mem c) root vpn) = false /\
        view_set (mem c) root vpn (pte_new ppn (Z.lor flags PTEFlags.V)) (mem c') /\
        (forall q, q ∈ H -> not_table (mem c) root q -> mem c' q = mem c q) /\
        (forall p x, path_ok p -> node (mem c) root p = Some x -> node (mem c') root p = Some x)
  | None =>
      pte_is_valid (pt_view (mem c) root vpn) = true \/
      exists c' new, (length new <= 1)%nat /\ pt_grown c H root c' new /\ out_of_frames c' (new ++ H)
  end.
Proof.
  intros Hinv Hroom Hvpn Hppn Hfl root. subst root. unfold pt_map.
  pose proof (find_pte_create_spec c H pt vpn Hinv Hroom) as Hf.
  destruct (find_pte_create c pt vpn) as [[[[t i] c1] pt1]|]; simpl; [|by right].
  destruct Hf as (new & Hg & Hl & Hr & Hfr & Hn & ->).
  pose proof (view_node _ _ _ _ Hn) as Hvn. rewrite (pg_view _ _ _ _ _ Hg) in Hvn.
  destruct (pte_is_valid (pte_at (mem c1) t (i2 vpn))) eqn:Ev; [left; by rewrite Hvn|].
  destruct (pte_new_spec ppn _ Hppn (leaf_flags _ Hfl)) as [Hpte _].
  destruct (write_leaf_spec c1 (new ++ H) (pt_root_ppn pt) vpn t _ (pg_inv _ _ _ _ _ Hg) Hvpn Hn Hpte)
    as (Hinv' & Hvs & Hnodes & Hmem).
  exists new. split_and!; try done.
  - by rewrite Hvn.
  - by eapply view_set_grown.
  - intros q Hq Hnt. rewrite Hmem; [by apply (pg_mem _ _ _ _ _ Hg)|].
    intros p Hp Hx. destruct (pg_tables _ _ _ _ _ Hg p q Hp Hx) as [?|Hnew]; [by eapply Hnt|].
    by apply (pg_fresh _ _ _ _ _ Hg q Hnew).
  - intros p x Hp Hx. rewrite Hnodes by done. by apply (pg_node _ _ _ _ _ Hg).
Qed.

Lemma update_leaf_spec c H pt vpn f :
  pt_inv c H (pt_root_ppn pt) -> is_vpn vpn -> (forall pte, is_pte (f pte)) ->
  let pte := pt_view (mem c) (pt_root_ppn pt) vpn in
  let (ok, c') := update_leaf c pt vpn f in
  ok = pte_is_valid pte /\ (ok = false -> c' = c) /\
  (ok = true -> pt_inv c' H (pt_root_ppn pt) /\ view_set (mem c) (pt_root_ppn pt) vpn (f pte) (mem c') /\
     (forall p, path_ok p -> node (mem c') (pt_root_ppn pt) p = node (mem c) (pt_root_ppn pt) p) /\
     (forall q, not_table (mem c) (pt_root_ppn pt) q -> mem c' q = mem c q)).
Proof.
  intros Hinv Hvpn Hf pte. unfold update_leaf. rewrite find_pte_node. unfold pte, pt_view.
  destruct (node (mem c) (pt_root_ppn pt) [i0 vpn; i1 vpn]) as [t|] eqn:En; simpl; [|by rewrite pte_zero_invalid].
  destruct (pte_is_valid (pte_at (mem c) t (i2 vpn))) eqn:Ev; [|done]. split_and!; [done|done|].
  intros _. by apply write_leaf_spec.
Qed.

Lemma translate_view m pt vpn :
  translate m pt vpn =
    match node m (pt_root_ppn pt) [i0 vpn; i1 vpn] with Some _ => Some (pt_view m (pt_root_ppn pt) vpn) | None => None end.
Proof.
  unfold translate, pt_view. rewrite find_pte_node. by destruct (node m (pt_root_ppn pt) [i0 vpn; i1 vpn]).
Qed.

(** *** The cached walks *)

Record cache_ok (m : Z -> list Z) (root : Z) (w : PageWalkCache) : Prop := {
  co_l0 : wc_l0_valid w = true -> node m root [wc_l0_idx w] = Some (wc_l0_ppn w) /\ is_index (wc_l0_idx w);
  co_l1 : wc_l1_valid w = true -> wc_l0_valid w = true /\ is_index (wc_l1_idx w) /\
    node m root [wc_l0_idx w; wc_l1_idx w] = Some (wc_l1_ppn w)
}.

Lemma cache_ok_new m root : cache_ok m root walk_cache_new.
Proof. by split. Qed.

(** A cache stays right as long as tables are only added. *)
Lemma cache_ok_mono m m' root w :
  (forall p x, path_ok p -> node m root p = Some x -> node m' root p = Some x) ->
  cache_ok m root w -> cache_ok m' root w.
Proof.
  intros Hn [H0 H1]. split.
  - intros Hv. destruct (H0 Hv) as [Hx Hi]. split; [|done]. apply Hn; [|done].
    split; [simpl; lia|by apply Forall_singleton].
  - intros Hv. destruct (H1 Hv) as (Hv0 & Hi & Hx). destruct (H0 Hv0) as [_ Hi0]. split_and!; [done..|].
    apply Hn; [|done]. split; [simpl; lia|]. by rewrite !Forall_cons, Forall_nil.
Qed.

Lemma node_1 m root i : node m root [i] = next_table m root i.
Proof. done. Qed.

Lemma node_2 m root i j : node m root [i; j] = t ← node m root [i]; next_table m t j.
Proof. done. Qed.

Lemma l0_hit_spec m root w vpn :
  cache_ok m root w -> l0_hit w (indexes vpn) = true ->
  node m root [i0 vpn] = Some (wc_l0_ppn w) /\ wc_l0_idx w = i0 vpn.
Proof.
  intros [H0 _]. unfold l0_hit. rewrite indexes_i, andb_true_iff, Z.eqb_eq. cbn. intros [Hv Hi].
  destruct (H0 Hv) as [Hn _]. by rewrite <- Hi.
Qed.

Lemma fill_l0_ok m root w vpn pte :
  node m root [i0 vpn] = Some (pte_ppn pte) -> cache_ok m root (fill_l0 w (indexes vpn) pte).
Proof.
  intros Hn. unfold fill_l0. rewrite indexes_i. cbn. split; cbn; [|done].
  intros _. split; [done|]. apply index_mod.
Qed.

Lemma fill_l1_ok m root w vpn pte :
  cache_ok m root w -> wc_l0_valid w = true -> wc_l0_idx w = i0 vpn ->
  node m root [i0 vpn; i1 vpn] = Some (pte_ppn pte) -> cache_ok m root (fill_l1 w (indexes vpn) pte).
Proof.
  intros [H0 _] Hv Hi Hn. unfold fill_l1. rewrite indexes_i. cbn. split; cbn; [done|].
  intros _. split_and!; [done|apply index_mod|]. rewrite Hi. apply Hn.
Qed.

Lemma l1_hit_spec m root w vpn :
  cache_ok m root w -> wc_l0_idx w = i0 vpn -> l1_hit w (indexes vpn) = true ->
  node m root [i0 vpn; i1 vpn] = Some (wc_l1_ppn w).
Proof.
  intros [_ H1] Hi0. unfold l1_hit. rewrite indexes_i, andb_true_iff, Z.eqb_eq. cbn. intros [Hv Hi].
  destruct (H1 Hv) as (_ & _ & Hn). by rewrite <- Hi0, <- Hi.
Qed.

Lemma next_table_Some m t i : pte_is_valid (pte_at m t i) = true -> next_table m t i = Some (pte_ppn (pte_at m t i)).
Proof. unfold next_table. by intros ->. Qed.

Lemma next_table_None m t i : pte_is_valid (pte_at m t i) = false -> next_table m t i = None.
Proof. unfold next_table. by intros ->. Qed.

(** The state after the first level: a valid cache entry for the first index. *)
Lemma walk_cached_spec m pt vpn w :
  cache_ok m (pt_root_ppn pt) w ->
  let (t, w') := walk_cached m pt (indexes vpn) w in
  t = node m (pt_root_ppn pt) [i0 vpn; i1 vpn] /\ cache_ok m (pt_root_ppn pt) w'.
Proof.
  intros Hw. unfold walk_cached. set (root := pt_root_ppn pt) in *.
  assert (idx_at (indexes vpn) 0 = i0 vpn /\ idx_at (indexes vpn) 1 = i1 vpn) as [Hx0 Hx1] by by rewrite indexes_i.
  rewrite Hx0, Hx1. rewrite node_2.
  destruct (negb (l0_hit w (indexes vpn)) && negb (pte_is_valid (pte_at m root (i0 vpn)))) eqn:E0.
  { apply andb_true_iff in E0 as [_ E0%negb_true_iff]. rewrite node_1, next_table_None by done. by split. }
  set (w1 := if l0_hit w (indexes vpn) then w else fill_l0 w (indexes vpn) (pte_at m root (i0 vpn))).
  assert (cache_ok m root w1 /\ wc_l0_valid w1 = true /\ wc_l0_idx w1 = i0 vpn /\
    node m root [i0 vpn] = Some (wc_l0_ppn w1)) as (Hw1 & Hv1 & Hi1 & Hn1).
  { unfold w1. destruct (l0_hit w (indexes vpn)) eqn:Eh.
    - destruct (l0_hit_spec _ _ _ _ Hw Eh) as [? ?]. apply andb_true_iff in Eh as [? _]. done.
    - simpl in E0. apply negb_false_iff in E0.
      assert (node m root [i0 vpn] = Some (pte_ppn (pte_at m root (i0 vpn)))) as Hn by by apply next_table_Some.
      split_and!; [by apply fill_l0_ok|done|by unfold fill_l0; rewrite indexes_i|done]. }
  clearbody w1. rewrite Hn1. simpl.
  destruct (negb (l1_hit w1 (indexes vpn)) && negb (pte_is_valid (pte_at m (wc_l0_ppn w1) (i1 vpn)))) eqn:E1.
  { apply andb_true_iff in E1 as [_ E1%negb_true_iff]. rewrite next_table_None by done. split; [done|].
    destruct Hw1. split; cbn; done. }
  assert (node m root [i0 vpn; i1 vpn] = next_table m (wc_l0_ppn w1) (i1 vpn)) as Hn2 by (by rewrite node_2, Hn1).
  destruct (l1_hit w1 (indexes vpn)) eqn:Eh.
  - rewrite <- Hn2. split; [|done]. symmetry. by apply l1_hit_spec.
  - simpl in E1. apply negb_false_iff in E1. rewrite next_table_Some in * by done.
    split; [by unfold fill_l1; rewrite indexes_i|]. by apply fill_l1_ok.
Qed.

Lemma translate_cached_ok m pt vpn w :
  cache_ok m (pt_root_ppn pt) w ->
  (translate_cached m pt vpn w).1 =
    (pte ← translate m pt vpn; if pte_is_valid pte then Some pte else None) /\
  cache_ok m (pt_root_ppn pt) (translate_cached m pt vpn w).2.
Proof.
  intros Hw. unfold translate_cached. pose proof (walk_cached_spec m pt vpn w Hw) as Hs.
  destruct (walk_cached m pt (indexes vpn) w) as [t w'], Hs as [-> Hw'].
  rewrite translate_view. unfold pt_view. rewrite indexes_i.
  by destruct (node m (pt_root_ppn pt) [i0 vpn; i1 vpn]).
Qed.

Lemma set_flags_cached_ok c pt vpn flags w :
  cache_ok (mem c) (pt_root_ppn pt) w ->
  (set_flags_cached c pt vpn flags w).1 = set_flags c pt vpn flags /\
  cache_ok (mem c) (pt_root_ppn pt) (set_flags_cached c pt vpn flags w).2.
Proof.
  intros Hw. unfold set_flags_cached, set_flags, update_leaf.
  pose proof (walk_cached_spec (mem c) pt vpn w Hw) as Hs. rewrite find_pte_node.
  destruct (walk_cached (mem c) pt (indexes vpn) w) as [t w'], Hs as [-> Hw']. rewrite indexes_i.
  destruct (node (mem c) (pt_root_ppn pt) [i0 vpn; i1 vpn]) as [t|]; [|done]. cbn.
  by destruct (pte_is_valid (pte_at (mem c) t (i2 vpn))).
Qed.

(** A table that is there is found, and nothing is allocated. *)
Lemma ensure_entry_present c pt t i x :
  next_table (mem c) t i = Some x ->
  exists pte, ensure_entry c pt t i = Some (pte, c, pt) /\ pte_ppn pte = x.
Proof.
  unfold next_table, ensure_entry. destruct (pte_is_valid (pte_at (mem c) t i)); [|done].
  intros [= <-]. by eexists.
Qed.

Lemma level1_spec c H pt root vpn w :
  pt_inv c H root -> has_room c H 1 -> cache_ok (mem c) root w ->
  wc_l0_valid w = true -> wc_l0_idx w = i0 vpn -> node (mem c) root [i0 vpn] = Some (wc_l0_ppn w) ->
  let idxs := indexes vpn in
  match (if l1_hit w idxs then Some (c, pt, w)
         else '(pte_l1, c, pt) ← ensure_entry c pt (wc_l0_ppn w) (i1 vpn);
              Some (c, pt, fill_l1 w idxs pte_l1)),
        ensure_entry c pt (wc_l0_ppn w) (i1 vpn) with
  | Some (c2, pt2, w2), Some (pte, c2', pt2') =>
      c2' = c2 /\ pt2' = pt2 /\ pte_ppn pte = wc_l1_ppn w2 /\ cache_ok (mem c2) root w2
  | None, None => True
  | _, _ => False
  end.
Proof.
  intros Hinv Hroom Hw Hv Hi Hn idxs. destruct (l1_hit w idxs) eqn:Eh.
  - pose proof (l1_hit_spec _ _ _ _ Hw Hi Eh) as Hn2. rewrite node_2, Hn in Hn2. simpl in Hn2.
    destruct (ensure_entry_present c pt _ _ _ Hn2) as (pte & -> & Hpp). done.
  - pose proof (ensure_entry_spec c H root pt [i0 vpn] (wc_l0_ppn w) (i1 vpn) Hinv Hroom
      ltac:(split; [simpl; lia|apply Forall_singleton, index_mod]) ltac:(simpl; lia) Hn (index_mod _)) as Hs.
    destruct (ensure_entry c pt (wc_l0_ppn w) (i1 vpn)) as [[[pte c2] pt2]|]; cbn; [|done].
    destruct Hs as (new & Hg & _ & _ & Hn2). split_and!; [done..|].
    apply fill_l1_ok; [|done|done|done]. eapply cache_ok_mono; [|done]. apply (pg_node _ _ _ _ _ Hg).
Qed.

(** The upper levels of [map_cached] do what [find_pte_create] does. *)
Lemma map_walk_cached_spec c H pt vpn w :
  pt_inv c H (pt_root_ppn pt) -> has_room c H 2 -> cache_ok (mem c) (pt_root_ppn pt) w ->
  match map_walk_cached c pt (indexes vpn) w, find_pte_create c pt vpn with
  | Some (c1, pt1, w1), Some (loc, c1', pt1') =>
      c1' = c1 /\ pt1' = pt1 /\ loc = (wc_l1_ppn w1, i2 vpn) /\ cache_ok (mem c1) (pt_root_ppn pt) w1
  | None, None => True
  | _, _ => False
  end.
Proof.
  intros Hinv Hroom Hw. unfold map_walk_cached, find_pte_create.
  set (idxs := indexes vpn). assert (idxs = [i0 vpn; i1 vpn; i2 vpn]) as Hx by apply indexes_i.
  replace (idx_at idxs 0) with (i0 vpn) by by rewrite Hx.
  replace (idx_at idxs 1) with (i1 vpn) by by rewrite Hx.
  replace (find_pte_create_loop c pt (pt_root_ppn pt) idxs) with
    (find_pte_create_loop c pt (pt_root_ppn pt) [i0 vpn; i1 vpn; i2 vpn]) by by rewrite Hx.
  cbn [find_pte_create_loop]. destruct (l0_hit w idxs) eqn:Eh.
  - destruct (l0_hit_spec _ _ _ vpn Hw Eh) as [Hn Hi]. apply andb_true_iff in Eh as [Hv _].
    destruct (ensure_entry_present c pt _ _ _ Hn) as (pte & -> & Hpp). cbn. rewrite Hpp.
    pose proof (level1_spec c H pt (pt_root_ppn pt) vpn w Hinv ltac:(unfold has_room in *; lia) Hw Hv Hi Hn) as Hs.
    cbv zeta in Hs. fold idxs in Hs. destruct (if l1_hit w idxs then _ else _) as [[[c2 pt2] w2]|];
      destruct (ensure_entry c pt (wc_l0_ppn w) (i1 vpn)) as [[[pte2 c2'] pt2']|]; cbn; try done.
    destruct Hs as (-> & -> & Hl1 & Hc). by rewrite Hl1.
  - pose proof (ensure_entry_spec c H (pt_root_ppn pt) pt [] (pt_root_ppn pt) (i0 vpn) Hinv
      ltac:(unfold has_room in *; lia) path_nil ltac:(simpl; lia) eq_refl (index_mod _)) as H1.
    destruct (ensure_entry c pt (pt_root_ppn pt) (i0 vpn)) as [[[pte1 c1] pt1]|]; cbn; [|done].
    destruct H1 as (new1 & Hg1 & Hl1 & _ & Hn1). pose proof (pg_length _ _ _ _ _ Hg1) as Hlen1.
    assert (wc_l0_idx (fill_l0 w idxs pte1) = i0 vpn) as Hi by (unfold fill_l0; by rewrite Hx).
    pose proof (level1_spec c1 (new1 ++ H) pt1 (pt_root_ppn pt) vpn (fill_l0 w idxs pte1)
      (pg_inv _ _ _ _ _ Hg1) ltac:(unfold has_room in *; lia) (fill_l0_ok _ _ w vpn pte1 Hn1) eq_refl Hi Hn1) as Hs.
    cbv zeta in Hs. fold idxs in Hs. change (wc_l0_ppn (fill_l0 w idxs pte1)) with (pte_ppn pte1) in *.
    change (l1_hit (fill_l0 w idxs pte1) idxs) with false in *.
    destruct (ensure_entry c1 pt1 (pte_ppn pte1) (i1 vpn)) as [[[pte2 c2] pt2]|]; cbn in *; [|done].
    by destruct Hs as (_ & _ & Hpp & Hc).
Qed.


(** [unmap_if_mapped], [set_flags] and [remap] succeed exactly on a mapped page;
    they then change its entry alone (to nothing, to the new flags with the same
    frame, to the new frame and flags), and on failure nothing. *)
Theorem pt_updates_correct c H pt vpn ppn flags :
  pt_inv c H (pt_root_ppn pt) -> is_vpn vpn -> is_ppn ppn -> is_flags flags ->
  let root := pt_root_ppn pt in
  let pte := pt_view (mem c) root vpn in
  let updates := fun (r : bool * PageCache) v =>
    r.1 = pte_is_valid pte /\ (r.1 = false -> r.2 = c) /\
    (r.1 = true -> pt_inv r.2 H root /\ view_set (mem c) root vpn v (mem r.2) /\
      (forall q, not_table (mem c) root q -> mem r.2 q = mem c q)) in
  updates (unmap_if_mapped c pt vpn) 0 /\
  updates (set_flags c pt vpn flags) (pte_new (pte_ppn pte) (Z.lor flags PTEFlags.V)) /\
  updates (remap c pt vpn ppn flags) (pte_new ppn (Z.lor flags PTEFlags.V)) /\
  (forall r, pt_unmap c pt vpn = r <->
     r = if pte_is_valid pte then Some (unmap_if_mapped c pt vpn).2 else None).
Proof.
  intros Hinv Hvpn Hppn Hfl root pte updates.
  pose proof (leaf_flags _ Hfl) as Hlf.
  assert (forall p, is_ppn p -> is_pte (pte_new p (Z.lor flags PTEFlags.V))) as Hp
    by (intros p Hp; by apply pte_new_spec).
  assert (forall f, (forall x, is_pte (f x)) -> updates (update_leaf c pt vpn f) (f pte)) as Hu.
  { intros f Hf. pose proof (update_leaf_spec c H pt vpn f Hinv Hvpn Hf) as Hs. cbv zeta in Hs.
    unfold updates. destruct (update_leaf c pt vpn f) as [ok c']. cbn. naive_solver. }
  split_and!.
  - apply (Hu (fun _ => pte_empty)). intros _. unfold is_pte, pte_empty. lia.
  - apply (Hu (fun pte => pte_new (pte_ppn pte) (Z.lor flags PTEFlags.V))). intros x. apply Hp, pte_ppn_is_ppn.
  - apply (Hu (fun _ => pte_new ppn (Z.lor flags PTEFlags.V))). auto.
  - intros r. unfold pt_unmap, unmap_if_mapped, update_leaf. rewrite find_pte_node. unfold pte, pt_view.
    fold root. destruct (node (mem c) root [i0 vpn; i1 vpn]) as [t|]; cbn.
    + destruct (pte_is_valid (pte_at (mem c) t (i2 vpn))); by split.
    + by split.
Qed.

Lemma cached_walks_ok c H pt vpn ppn flags w :
  pt_inv c H (pt_root_ppn pt) -> has_room c H 2 -> is_vpn vpn -> is_ppn ppn -> is_flags flags ->
  cache_ok (mem c) (pt_root_ppn pt) w ->
  (fst <$> map_cached c pt vpn ppn flags w) = pt_map c pt vpn ppn flags /\
  (forall c' pt' w', map_cached c pt vpn ppn flags w = Some (c', pt', w') ->
     cache_ok (mem c') (pt_root_ppn pt') w') /\
  (translate_cached (mem c) pt vpn w).1 =
    (pte ← translate (mem c) pt vpn; if pte_is_valid pte then Some pte else None) /\
  cache_ok (mem c) (pt_root_ppn pt) (translate_cached (mem c) pt vpn w).2 /\
  (set_flags_cached c pt vpn flags w).1 = set_flags c pt vpn flags /\
  cache_ok (mem (set_flags c pt vpn flags).2) (pt_root_ppn pt) (set_flags_cached c pt vpn flags w).2.
Proof.
  intros Hinv Hroom Hvpn Hppn Hfl Hw.
  pose proof (map_walk_cached_spec c H pt vpn w Hinv Hroom Hw) as Hm.
  pose proof (find_pte_create_spec c H pt vpn Hinv Hroom) as Hf.
  destruct (translate_cached_ok (mem c) pt vpn w Hw) as [Ht Hct].
  destruct (set_flags_cached_ok c pt vpn flags w Hw) as [Hs Hcs].
  assert (cache_ok (mem (set_flags c pt vpn flags).2) (pt_root_ppn pt) (set_flags_cached c pt vpn flags w).2) as Hcs'.
  { eapply cache_ok_mono; [|done]. intros p x Hp Hx. unfold set_flags.
    pose proof (update_leaf_spec c H pt vpn (fun pte => pte_new (pte_ppn pte) (Z.lor flags PTEFlags.V)) Hinv Hvpn) as Hu.
    cbv zeta in Hu. destruct (update_leaf c pt vpn _) as [[|] c']; cbn.
    - destruct Hu as (_ & _ & Hu); [intros; by apply pte_new_spec; [apply pte_ppn_is_ppn|apply leaf_flags]|].
      destruct (Hu eq_refl) as (_ & _ & Hn & _). by rewrite Hn.
    - destruct Hu as (_ & Hu & _); [intros; by apply pte_new_spec; [apply pte_ppn_is_ppn|apply leaf_flags]|].
      by rewrite Hu. }
  unfold map_cached, pt_map. rewrite indexes_i in *. cbn [idx_at nth].
  destruct (map_walk_cached c pt _ w) as [[[c1 pt1] w1]|],
    (find_pte_create c pt vpn) as [[[[t i] c1'] pt1']|]; cbn; try done.
  destruct Hm as (-> & -> & [= -> ->] & Hc1), Hf as (new & Hg & _ & Hr & _ & Hn & _).
  split_and!; [by case_match| |done..]. intros c' pt' w'. case_match; [done|]. intros [= <- <- <-].
  destruct (write_leaf_spec c1 (new ++ H) (pt_root_ppn pt) vpn _ (pte_new ppn (Z.lor flags PTEFlags.V))
    (pg_inv _ _ _ _ _ Hg) Hvpn Hn) as (_ & _ & Hnodes & _); [by apply pte_new_spec, leaf_flags|].
  rewrite Hr. eapply cache_ok_mono; [|done]. intros p x Hp Hx. by rewrite Hnodes.
Qed.

(** C31: The cached walks are an optimisation and nothing else: with a cache left by
    earlier walks of the same table, [map_cached] maps what [map] maps,
    [translate_cached] finds the valid entries [translate] finds,
    [set_flags_cached] is [set_flags], and the cache they leave is right. *)
Theorem cached_walks_agree c H pt vpn ppn flags w :
  pt_inv c H (pt_root_ppn pt) -> has_room c H 2 -> is_vpn vpn -> is_ppn ppn -> is_flags flags ->
  cache_ok (mem c) (pt_root_ppn pt) w ->
  (fst <$> map_cached c pt vpn ppn flags w) = pt_map c pt vpn ppn flags /\
  (forall c' pt' w', map_cached c pt vpn ppn flags w = Some (c', pt', w') ->
     cache_ok (mem c') (pt_root_ppn pt') w') /\
  (translate_cached (mem c) pt vpn w).1 =
    (pte ← translate (mem c) pt vpn; if pte_is_valid pte then Some pte else None) /\
  cache_ok (mem c) (pt_root_ppn pt) (translate_cached (mem c) pt vpn w).2 /\
  (set_flags_cached c pt vpn flags w).1 = set_flags c pt vpn flags /\
  cache_ok (mem (set_flags c pt vpn flags).2) (pt_root_ppn pt) (set_flags_cached c pt vpn flags w).2.
Proof. apply cached_walks_ok. Qed.

(** A new table maps nothing. *)
Lemma pt_new_ok c H :
  pc_owns c H -> full_pages (mem c) -> has_room c H 1 ->
  match pt_new c with
  | Some (pt, c') =>
      pt_inv c' (pt_root_ppn pt :: H) (pt_root_ppn pt) /\ pt_frames pt = [pt_root_ppn pt] /\
      (forall vpn, pt_view (mem c') (pt_root_ppn pt) vpn = 0) /\
      (length (trackers c' (pt_root_ppn pt :: H)) <= S (length (trackers c H)))%nat
  | None => out_of_frames c H
  end.
Proof.
  intros Ho Hfull Hroom. unfold pt_new. pose proof (frame_alloc_unwrap_spec c H Ho Hroom) as Ha.
  destruct (frame_alloc_unwrap c) as [[f c']|]; cbn; [|done]. destruct Ha as (Ho' & Hn & Hf & Hz & Hm & Hl).
  assert (forall p x, node (mem c') f p = Some x -> p = [] /\ x = f) as Hnode.
  { intros p. induction p as [|i p IH] using rev_ind; intros x; [by intros [= <-]|].
    rewrite node_snoc. destruct (node (mem c') f p) as [t|] eqn:E; [|done]. simpl.
    destruct (IH t eq_refl) as [-> ->]. unfold next_table. by rewrite pte_at_zero. }
  split_and!; [|done| |].
  - split; [done|by eapply zero_page_full|]. split.
    + intros p x _ Hx. destruct (Hnode p x Hx) as [_ ->]. left.
    + intros p q x _ _ H1 H2. destruct (Hnode _ _ H1) as [-> _], (Hnode _ _ H2) as [-> _]. done.
  - intros vpn. unfold pt_view. destruct (node (mem c') f _) as [t|] eqn:E; [|done].
    by destruct (Hnode _ _ E) as [? _].
  - unfold trackers in *. simpl. lia.
Qed.
