(* ===== verification/PtExamples.v ===== *)
(** * A page table on the small machine

    A table created after boot, and one page mapped in it: the theorems of
    [PageTable] evaluated there. *)

From S2P Require Import Prelude.
From S2P Require Import BTree.
From S2P Require Import Address.
From S2P Require Import FrameAlloc.
From S2P Require Import PageCache.
From S2P Require Import MmExamples.
From S2P Require Import VmRegion.
From S2P Require Import PageTable.

Definition fresh_table : PageTable * PageCache :=
  match pt_new empty_cache with Some r => r | None => (mkPageTable 0 [], empty_cache) end.

Definition read_write : Z := Z.lor PTEFlags.R PTEFlags.W.

Lemma fresh_table_new : pt_new empty_cache = Some fresh_table.
Proof.
  unfold fresh_table. destruct (pt_new empty_cache) eqn:E; [done|].
  exfalso. assert (bool_decide (pt_root_ppn <$> (fst <$> pt_new empty_cache) = None) = false) as E' by (vm_compute; reflexivity).
  by rewrite E in E'.
Qed.

Lemma fresh_table_ok :
  pt_inv fresh_table.2 [pt_root_ppn fresh_table.1] (pt_root_ppn fresh_table.1) /\
  has_room fresh_table.2 [pt_root_ppn fresh_table.1] 2 /\
  forall vpn, pt_view (mem fresh_table.2) (pt_root_ppn fresh_table.1) vpn = 0.
Proof.
  pose proof (pt_new_ok empty_cache [] empty_cache_owns) as Hn. rewrite fresh_table_new in Hn.
  destruct fresh_table as [pt c]. destruct Hn as (Hi & _ & Hv & Hl); [by intros p|vm_compute; reflexivity|].
  split_and!; [done| |done]. unfold has_room. cbn [fst snd].
  change (length (trackers empty_cache [])) with 0%nat in Hl. lia.
Qed.


(** On the empty table the updates fail and change nothing; [unmap] panics. *)
Lemma pt_updates_correct_witness :
  unmap_if_mapped fresh_table.2 fresh_table.1 5 = (false, fresh_table.2) /\
  pt_unmap fresh_table.2 fresh_table.1 5 = None.
Proof.
  destruct fresh_table_ok as (Hi & _ & Hv).
  pose proof (pt_updates_correct fresh_table.2 [pt_root_ppn fresh_table.1] fresh_table.1 5 7 read_write Hi
    ltac:(split; [discriminate|reflexivity]) ltac:(split; [discriminate|reflexivity])
    ltac:(split; [discriminate|reflexivity])) as Hu. cbv zeta in Hu. rewrite Hv in Hu.
  change (pte_is_valid 0) with false in Hu. destruct Hu as ((H1 & H2 & _) & _ & _ & H3).
  split; [|by apply H3]. destruct (unmap_if_mapped fresh_table.2 fresh_table.1 5) as [b c].
  cbn in *. by rewrite H1, (H2 H1).
Defined.

Lemma cached_walks_agree_witness :
  (fst <$> map_cached fresh_table.2 fresh_table.1 5 7 read_write walk_cache_new) =
    pt_map fresh_table.2 fresh_table.1 5 7 read_write.
Proof.
  destruct fresh_table_ok as (Hi & Hr & _).
  apply (cached_walks_agree fresh_table.2 [pt_root_ppn fresh_table.1] fresh_table.1 5 7 read_write walk_cache_new Hi Hr
    ltac:(split; [discriminate|reflexivity]) ltac:(split; [discriminate|reflexivity])
    ltac:(split; [discriminate|reflexivity]) (cache_ok_new _ _)).
Defined.
