(* ===== verification/MapArea.v ===== *)
(** * Mapped areas

    [mm/memory_set/map_area.rs]: the areas of an address space that have page
    frames or may get some, with the frames they hold, the page-table flags
    saved while a page is inaccessible, and the operations that map, unmap,
    split and move them.  An operation that drops the last tracker of a frame
    frees it, so the frame store is threaded through. *)

From S2P Require Import Prelude.
From S2P Require Import BTree.
From S2P Require Import Address.
From S2P Require Import FrameAlloc.
From S2P Require Import PageCache.
From S2P Require Import VmRegion.
From S2P Require Import PageTable.

Record MapArea := mkMapArea {
  ma_range : SimpleRange;
  ma_frames : list (Z * Z);
  ma_saved : list (Z * Z);
  ma_charged : Z;
  ma_type : MapType;
  ma_perm : Z;
  ma_start_offset : Z
}.
#[export] Instance fields_MapArea : Fields MapArea := fun a =>
  mkMapArea (ma_range a) (ma_frames a) (ma_saved a) (ma_charged a) (ma_type a) (ma_perm a)
    (ma_start_offset a).

Inductive LazyFaultResult := Resolved | Oom | Invalid.
#[export] Instance LazyFaultResult_eq_dec : EqDecision LazyFaultResult.
Proof. solve_decision. Defined.

(** [vpn.0.checked_add(delta)] or [checked_sub(|delta|)] of a signed [delta]. *)
Definition shift_vpn_by_delta (vpn delta : Z) : option Z :=
  if 0 <=? delta then checked_add vpn delta else checked_sub vpn (- delta).

(** [flags.remove(f)] *)
Definition flags_remove (flags f : Z) : Z := Z.ldiff flags f.

Definition pte_flags_for_mprotect (new_perm : Z) (old_flags : option Z) : Z :=
  let pte_flags := PTEFlags.from new_perm in
  match old_flags with
  | None => pte_flags
  | Some old_flags =>
      let pte_flags :=
        if PTEFlags.contains old_flags PTEFlags.COW
        then flags_remove (flags_remove (Z.lor pte_flags PTEFlags.COW) PTEFlags.W) PTEFlags.D
        else pte_flags in
      if PTEFlags.contains old_flags PTEFlags.SHARED then
        let pte_flags := Z.lor pte_flags PTEFlags.SHARED in
        if PTEFlags.contains old_flags PTEFlags.D then Z.lor pte_flags PTEFlags.D else pte_flags
      else pte_flags
  end.

(** ** Trackers leaving scope *)

(** [drop(frame)] *)
Definition drop_frame (c : PageCache) (p : Z) : option PageCache :=
  w ← Tracker.drop (pc_frames c) p; Some (c {{ pc_frames := w }}).

(** [drop] of a collection of trackers *)
Fixpoint drop_frames (c : PageCache) (ps : list Z) : option PageCache :=
  match ps with
  | [] => Some c
  | p :: ps => c ← drop_frame c p; drop_frames c ps
  end.

Definition clone_frame (c : PageCache) (p : Z) : PageCache :=
  c {{ pc_frames := Tracker.clone (pc_frames c) p }}.

Module Area.

(** [for vpn in range] *)
Definition pages (r : SimpleRange) : list Z := seqZ (range_l r) (range_r r - range_l r).

Definition new (start_va end_va : Z) (map_type : MapType) (map_perm : Z) : option MapArea :=
  r ← range_new (floor start_va) (ceil end_va);
  Some (mkMapArea r [] [] 0 map_type map_perm (page_offset start_va)).

Definition from_another (another : MapArea) : MapArea :=
  another {{ ma_frames := []; ma_saved := [] }}.

Definition start_vpn (a : MapArea) : Z := range_l (ma_range a).
Definition end_vpn (a : MapArea) : Z := range_r (ma_range a).
Definition contains_perm (a : MapArea) (perm : Z) : bool := MapPermission.contains (ma_perm a) perm.
Definition is_lazy (a : MapArea) : bool := bool_decide (ma_type a = Lazy).
Definition is_identical (a : MapArea) : bool := bool_decide (ma_type a = Identical).
Definition area_flags (a : MapArea) : Z := PTEFlags.from (ma_perm a).
Definition page_count (a : MapArea) : Z := sat_sub (end_vpn a) (start_vpn a).
Definition tracked_frame_count (a : MapArea) : Z := Z.of_nat (length (ma_frames a)).
Definition charged_or_tracked_pages (a : MapArea) : Z :=
  Z.max (ma_charged a) (tracked_frame_count a).
Definition contains_vpn (a : MapArea) (vpn : Z) : bool :=
  (start_vpn a <=? vpn) && (vpn <? end_vpn a).
Definition overlaps_vpn_range (a : MapArea) (start end_ : Z) : bool :=
  (start_vpn a <? end_) && (start <? end_vpn a).
Definition has_exact_vpn_range (a : MapArea) (start end_ : Z) : bool :=
  (start_vpn a =? start) && (end_vpn a =? end_).
Definition tracked_frame (a : MapArea) (vpn : Z) : option Z := bt_get (ma_frames a) vpn.

(** [data_frames.insert(vpn, frame)]; a tracker that was there is dropped. *)
Definition insert_tracked_frame (c : PageCache) (a : MapArea) (vpn p : Z)
    : option (PageCache * MapArea) :=
  c ← match bt_get (ma_frames a) vpn with Some old => drop_frame c old | None => Some c end;
  Some (c, a {{ ma_frames := bt_insert (ma_frames a) vpn p }}).

Definition save_pte_flags (a : MapArea) (vpn flags : Z) : MapArea :=
  a {{ ma_saved := bt_insert (ma_saved a) vpn flags }}.
Definition take_saved_pte_flags (a : MapArea) (vpn : Z) : option Z * MapArea :=
  (bt_get (ma_saved a) vpn, a {{ ma_saved := bt_remove (ma_saved a) vpn }}).
Definition saved_pte_flags (a : MapArea) (vpn : Z) : option Z := bt_get (ma_saved a) vpn.
Definition set_saved_pte_flags (a : MapArea) (vpn flags : Z) : bool * MapArea :=
  match bt_get (ma_saved a) vpn with
  | Some _ => (true, a {{ ma_saved := bt_insert (ma_saved a) vpn flags }})
  | None => (false, a)
  end.

(** ** Splitting and moving *)

Definition descriptor_with_state (a : MapArea) (start end_ : Z) (frames saved : list (Z * Z))
    : option MapArea :=
  r ← range_new start end_;
  let area := (from_another a) {{ ma_range := r }} in
  let area := if start =? start_vpn a then area else area {{ ma_start_offset := 0 }} in
  Some (area {{ ma_frames := frames; ma_saved := saved }}).

(** [BTreeMap::split_off]: the entries below the key, and those from it on. *)
Definition split_off (m : list (Z * Z)) (key : Z) : list (Z * Z) * list (Z * Z) :=
  (List.filter (fun e => e.1 <? key) m, List.filter (fun e => key <=? e.1) m).

Definition split_around (a : MapArea) (start end_ : Z)
    : option (option MapArea * MapArea * option MapArea) :=
  let area_start := start_vpn a in
  let area_end := end_vpn a in
  let '(left_frames, mid_frames, right_frames) :=
    if is_identical a then ([], [], [])
    else
      let (remaining, right) := split_off (ma_frames a) end_ in
      let (left, mid) := split_off remaining start in
      (left, mid, right) in
  let (remaining_flags, right_flags) := split_off (ma_saved a) end_ in
  let (left_flags, mid_flags) := split_off remaining_flags start in
  left ← (if area_start <? start
          then Some <$> descriptor_with_state a area_start start left_frames left_flags
          else Some None);
  mid ← descriptor_with_state a start end_ mid_frames mid_flags;
  right ← (if end_ <? area_end
           then Some <$> descriptor_with_state a end_ area_end right_frames right_flags
           else Some None);
  Some (left, mid, right).

Fixpoint shift_keys (m : list (Z * Z)) (delta : Z) (acc : list (Z * Z)) : option (list (Z * Z)) :=
  match m with
  | [] => Some acc
  | (vpn, x) :: m => vpn ← shift_vpn_by_delta vpn delta; shift_keys m delta (bt_insert acc vpn x)
  end.

(** The outer option is a panic, the inner one the [None] result. *)
Definition move_by_delta (a : MapArea) (delta : Z) : option (option MapArea) :=
  match shift_vpn_by_delta (start_vpn a) delta, shift_vpn_by_delta (end_vpn a) delta with
  | Some new_start, Some new_end =>
      r ← range_new new_start new_end;
      let frames := if is_identical a then Some (ma_frames a) else shift_keys (ma_frames a) delta [] in
      match frames, shift_keys (ma_saved a) delta [] with
      | Some frames, Some saved =>
          Some (Some (a {{ ma_range := r; ma_frames := frames; ma_saved := saved }}))
      | _, _ => Some None
      end
  | _, _ => Some None
  end.

(** ** Mapping and unmapping *)

Definition remove_frame (c : PageCache) (a : MapArea) (vpn : Z) : option (PageCache * MapArea) :=
  match bt_get (ma_frames a) vpn with
  | Some p => c ← drop_frame c p; Some (c, a {{ ma_frames := bt_remove (ma_frames a) vpn }})
  | None => Some (c, a)
  end.

(** The first half of [unmap_one] and [unmap_one_maybe]: the area forgets the page. *)
Definition forget_page (c : PageCache) (a : MapArea) (vpn : Z) : option (PageCache * MapArea) :=
  '(c, a) ← (if is_identical a then Some (c, a) else remove_frame c a vpn);
  Some (c, a {{ ma_saved := bt_remove (ma_saved a) vpn }}).

Definition unmap_one (c : PageCache) (pt : PageTable) (a : MapArea) (vpn : Z)
    : option (PageCache * MapArea) :=
  '(c, a) ← forget_page c a vpn;
  if is_lazy a then Some ((unmap_if_mapped c pt vpn).2, a)
  else c ← pt_unmap c pt vpn; Some (c, a).

Definition unmap_one_maybe (c : PageCache) (pt : PageTable) (a : MapArea) (vpn : Z)
    : option (PageCache * MapArea) :=
  '(c, a) ← forget_page c a vpn;
  Some ((unmap_if_mapped c pt vpn).2, a).

Fixpoint unmap_pages_maybe (c : PageCache) (pt : PageTable) (a : MapArea) (vpns : list Z)
    : option (PageCache * MapArea) :=
  match vpns with
  | [] => Some (c, a)
  | vpn :: vpns => '(c, a) ← unmap_one_maybe c pt a vpn; unmap_pages_maybe c pt a vpns
  end.

Definition unmap_range_maybe (c : PageCache) (pt : PageTable) (a : MapArea) (start end_ : Z)
    : option (PageCache * MapArea) :=
  r ← range_new start end_; unmap_pages_maybe c pt a (pages r).

Definition unmap (c : PageCache) (pt : PageTable) (a : MapArea) : option (PageCache * MapArea) :=
  unmap_pages_maybe c pt a (pages (ma_range a)).

Definition map_one (c : PageCache) (pt : PageTable) (a : MapArea) (vpn : Z)
    : option (bool * PageCache * PageTable * MapArea) :=
  match ma_type a with
  | Lazy => Some (true, c, pt, a)
  | Identical =>
      '(c, pt) ← pt_map c pt vpn vpn (area_flags a); Some (true, c, pt, a)
  | Framed =>
      '(frame, c) ← frame_alloc c;
      match frame with
      | None => Some (false, c, pt, a)
      | Some ppn =>
          '(c, a) ← insert_tracked_frame c a vpn ppn;
          '(c, pt) ← pt_map c pt vpn ppn (area_flags a);
          Some (true, c, pt, a)
      end
  end.

(** The loop of [map] and [append_to]: on failure the pages mapped so far are
    unmapped again. *)
Fixpoint map_pages (c : PageCache) (pt : PageTable) (a : MapArea) (mapped vpns : list Z)
    : option (bool * PageCache * PageTable * MapArea) :=
  match vpns with
  | [] => Some (true, c, pt, a)
  | vpn :: vpns =>
      '(ok, c, pt, a) ← map_one c pt a vpn;
      if ok : bool then map_pages c pt a (vec_push mapped vpn) vpns
      else '(c, a) ← unmap_pages_maybe c pt a mapped; Some (false, c, pt, a)
  end.

Definition map (c : PageCache) (pt : PageTable) (a : MapArea)
    : option (bool * PageCache * PageTable * MapArea) :=
  if is_lazy a then Some (true, c, pt, a) else map_pages c pt a [] (pages (ma_range a)).

Definition append_to (c : PageCache) (pt : PageTable) (a : MapArea) (new_end : Z)
    : option (bool * PageCache * PageTable * MapArea) :=
  if is_lazy a then
    r ← range_new (start_vpn a) new_end; Some (true, c, pt, a {{ ma_range := r }})
  else
    r ← range_new (end_vpn a) new_end;
    '(ok, c, pt, a) ← map_pages c pt a [] (pages r);
    if ok : bool then r ← range_new (start_vpn a) new_end; Some (true, c, pt, a {{ ma_range := r }})
    else Some (false, c, pt, a).

Fixpoint unmap_pages (c : PageCache) (pt : PageTable) (a : MapArea) (vpns : list Z)
    : option (PageCache * MapArea) :=
  match vpns with
  | [] => Some (c, a)
  | vpn :: vpns => '(c, a) ← unmap_one c pt a vpn; unmap_pages c pt a vpns
  end.

Definition shrink_to (c : PageCache) (pt : PageTable) (a : MapArea) (new_end : Z)
    : option (PageCache * MapArea) :=
  r ← range_new new_end (end_vpn a);
  '(c, a) ← unmap_pages c pt a (pages r);
  r ← range_new (start_vpn a) new_end;
  Some (c, a {{ ma_range := r }}).

Definition prepend_to (a : MapArea) (new_start : Z) : option (bool * MapArea) :=
  if is_lazy a then
    r ← range_new new_start (end_vpn a);
    Some (true, a {{ ma_range := r; ma_start_offset := 0 }})
  else Some (false, a).

(** [copy_data]: page by page, the first one from the offset of the area on. *)
Fixpoint copy_loop (fuel : nat) (c : PageCache) (pt : PageTable) (vpn page_off : Z) (data : list Z)
    : option PageCache :=
  match data, fuel with
  | [], _ => Some c
  | _, O => None
  | _, S fuel =>
      pte ← translate (mem c) pt vpn;
      let to_copy := Z.min (PAGE_SIZE - page_off) (Z.of_nat (length data)) in
      let page := splice (mem c (pte_ppn pte)) (Z.to_nat page_off) (take (Z.to_nat to_copy) data) in
      copy_loop fuel (with_mem c (Tracker.set_page (mem c) (pte_ppn pte) page)) pt (wadd vpn 1) 0
        (drop (Z.to_nat to_copy) data)
  end.

Definition copy_data (c : PageCache) (pt : PageTable) (a : MapArea) (data : list Z) : option PageCache :=
  if bool_decide (ma_type a = Framed)
  then copy_loop (length data) c pt (start_vpn a) (ma_start_offset a) data else None.

End Area.
