(* ===== verification/World.v ===== *)
(** * Frames, tables and data pages

    The frame store as the address spaces share it: some frames are page
    tables, each with a single tracker, all other trackers belong to data pages.
    How the operations of [FrameAlloc], [PageCache] and [PageTable] keep the two
    apart. *)

From S2P Require Import Prelude.
From S2P Require Import BTree.
From S2P Require Import Address.
From S2P Require Import FrameAlloc.
From S2P Require Import PageCache.
From S2P Require Import VmRegion.
From S2P Require Import PageTable.
From S2P Require Import MapArea.

Abbreviation managed c := (StackAlloc.managed (fw_alloc (pc_frames c))).

(** ** What every operation keeps: the managed frames, and no new cached pages *)

Record evolves (c c' : PageCache) : Prop := {
  ev_file : file_cache c' `sublist_of` file_cache c;
  ev_anon : anon_cache c' = anon_cache c;
  ev_managed : forall q, managed c' q <-> managed c q
}.

#[export] Instance evolves_preorder : PreOrder evolves.
Proof.
  split; [done|]. intros c1 c2 c3 [F1 A1 M1] [F2 A2 M2]. split; [by etrans|congruence|].
  intros q. by rewrite M2, M1.
Qed.

Lemma evolves_trackers c c' H : evolves c c' -> trackers c' H ⊆+ trackers c H.
Proof.
  intros [Hf Ha _]. unfold trackers. rewrite Ha. apply submseteq_app; [done|].
  apply submseteq_app; [|done]. apply sublist_submseteq. by apply (fmap_sublist snd).
Qed.

Lemma evolves_elem c c' H p : evolves c c' -> p ∈ trackers c' H -> p ∈ trackers c H.
Proof. intros Hev Hp. eapply elem_of_submseteq; [done|by apply evolves_trackers]. Qed.

Lemma evolves_with_mem c m : evolves c (with_mem c m).
Proof. by split. Qed.

(** Every frame the machine has is in use. *)
Definition exhausted (c : PageCache) : Prop :=
  exists c' H, evolves c c' /\ pc_owns c' H /\ out_of_frames c' H.

Lemma exhausted_after c c' : evolves c c' -> exhausted c' -> exhausted c.
Proof. intros Hev (c1 & H & Hev1 & ? & ?). exists c1, H. split_and!; [by etrans|done..]. Qed.

Lemma bt_remove_sublist `{OrdKey K} {V} (m : list (K * V)) k : bt_remove m k `sublist_of` m.
Proof.
  induction m as [|[k' v] m IH]; simpl; [done|]. destruct (key_eqb k k'); [by constructor|by constructor].
Qed.

Lemma remove_file_keys_evolves c H keys :
  pc_owns c H -> exists c', remove_file_keys c keys = Some c' /\ pc_owns c' H /\ evolves c c'.
Proof.
  revert c. induction keys as [|k keys IH]; intros c Ho; simpl; [by exists c|].
  destruct (remove_file_key_owns c H k Ho) as (c1 & -> & Ho1 & Hf1 & Ha1 & Hs1 & Hg1). simpl.
  destruct (IH c1 Ho1) as (c2 & -> & Ho2 & Hev). exists c2. split_and!; [done..|].
  etrans; [|done]. split; [rewrite Hf1; apply bt_remove_sublist|done|done].
Qed.

Lemma try_frame_alloc_evolves c H :
  pc_owns c H -> evolves c (try_frame_alloc c).2.
Proof.
  intros Ho. unfold try_frame_alloc.
  pose proof (StackAlloc.frame_alloc_spec _ (Tracker.owns_alloc _ _ (pco_owns _ _ Ho))) as Hs.
  destruct (StackAlloc.alloc _) as [[p|] a]; cbn; split; try done; simpl.
  - apply (StackAlloc.allocates_frame _ _ _ _ Hs).
  - by destruct Hs as [-> _].
Qed.

Lemma try_frame_alloc_fails c H c' :
  pc_owns c H -> try_frame_alloc c = (None, c') -> c' = c.
Proof.
  intros Ho. unfold try_frame_alloc.
  pose proof (StackAlloc.frame_alloc_spec _ (Tracker.owns_alloc _ _ (pco_owns _ _ Ho))) as Hs.
  destruct (StackAlloc.alloc _) as [[p|] a]; [done|]. destruct Hs as [-> _]. intros [= <-].
  by destruct c as [[] ? ? ?].
Qed.

Lemma frame_alloc_evolves c H r c' : pc_owns c H -> frame_alloc c = Some (r, c') -> evolves c c'.
Proof.
  intros Ho. unfold frame_alloc. pose proof (try_frame_alloc_evolves c H Ho) as H1.
  destruct (try_frame_alloc c) as [[p|] c1] eqn:E; cbn in *; [by intros [= <- <-]|].
  rewrite (try_frame_alloc_fails _ _ _ Ho E). unfold shared_file_page_cache_reclaim_unreferenced.
  match goal with |- context [remove_file_keys c ?k] =>
    destruct (remove_file_keys_evolves c H k Ho) as (c2 & -> & Ho2 & H2) end.
  simpl. pose proof (try_frame_alloc_evolves c2 H Ho2) as H3.
  destruct (0 <? _); [|by intros [= <- <-]].
  destruct (try_frame_alloc c2) as [r2 c3]. cbn in H3. intros [= <- <-]. by etrans.
Qed.

(** ** Tables and data pages *)

(** [E] are the frames of page tables, each with its one tracker; [F] are the
    trackers of data pages held outside the global caches. *)
Record world_ok (c : PageCache) (E F : list Z) : Prop := {
  wk_owns : pc_owns c (E ++ F);
  wk_full : full_pages (mem c);
  wk_nodup : NoDup E;
  wk_apart : forall q, q ∈ E -> q ∉ trackers c F
}.

Lemma trackers_app c A B : trackers c (A ++ B) = A ++ trackers c B.
Proof. unfold trackers. by rewrite !app_assoc. Qed.

Lemma trackers_here c F q : q ∈ F -> q ∈ trackers c F.
Proof. intros Hq. unfold trackers. apply elem_of_app. by left. Qed.

Lemma trackers_cons c p B : trackers c (p :: B) = p :: trackers c B.
Proof. done. Qed.

Lemma trackers_perm c A B : A ≡ₚ B -> trackers c A ≡ₚ trackers c B.
Proof. intros Hp. unfold trackers. by rewrite Hp. Qed.

Lemma world_perm c E F E' F' : E ≡ₚ E' -> F ≡ₚ F' -> world_ok c E F -> world_ok c E' F'.
Proof.
  intros HE HF [Ho Hf Hn Ha]. split; [|done|by rewrite <- HE|].
  - eapply pc_owns_perm; [|done]. by rewrite HE, HF.
  - intros q Hq. rewrite <- HE in Hq. rewrite <- (trackers_perm c F F') by done. by apply Ha.
Qed.

#[export] Instance world_ok_Proper c : Proper ((≡ₚ) ==> (≡ₚ) ==> iff) (world_ok c).
Proof. intros E E' HE F F' HF. split; apply world_perm; by try symmetry. Qed.

(** A data page is not a table. *)
Lemma data_not_table c E F p : world_ok c E F -> p ∈ F -> p ∉ E.
Proof. intros Hw Hp HE. apply (wk_apart _ _ _ Hw p HE). unfold trackers. apply elem_of_app. by left. Qed.

Lemma world_with_mem c E F m : world_ok c E F -> full_pages m -> world_ok (with_mem c m) E F.
Proof. intros [Ho Hf Hn Ha] Hm. split; [by apply with_mem_owns|done..]. Qed.

Lemma set_page_ne m p page q : q <> p -> Tracker.set_page m p page q = m q.
Proof. intros Hne. unfold Tracker.set_page. destruct (q =? p) eqn:Eq; [lia|done]. Qed.
Lemma set_page_eq m p page : Tracker.set_page m p page p = page.
Proof. unfold Tracker.set_page. by rewrite Z.eqb_refl. Qed.

(** Allocation of a frame for a data page, or for a table. *)
Lemma frame_alloc_world c E F :
  world_ok c E F -> has_room c (E ++ F) 1 ->
  match frame_alloc c with
  | Some (Some p, c') =>
      evolves c c' /\ world_ok c' E (p :: F) /\ world_ok c' (p :: E) F /\
      p ∉ trackers c' (E ++ F) /\ p ∉ E ++ F /\ is_ppn p /\ mem c' p = Tracker.zero_page /\
      (forall q, q <> p -> mem c' q = mem c q)
  | Some (None, c') => c' = c /\ exhausted c
  | None => False
  end.
Proof.
  intros [Ho Hf Hn Ha] Hr. destruct (frame_alloc_owns c (E ++ F) Ho Hr) as (r & c' & Heq & Hp). rewrite Heq.
  destruct r as [p|].
  - destruct Hp as (Ho' & Hnp & _ & Hz & Hm & _). pose proof (frame_alloc_evolves _ _ _ _ Ho Heq) as Hev.
    pose proof (zero_page_full _ _ _ Hf Hz Hm) as Hf'.
    assert (p ∉ E /\ p ∉ trackers c' F) as [HpE HpF].
    { rewrite trackers_app, not_elem_of_app in Hnp. done. }
    split_and!; try done.
    + split; [|done|done|].
      * eapply pc_owns_perm; [|exact Ho']. apply Permutation_middle.
      * intros q Hq. rewrite trackers_cons. intros [->|Hin]%elem_of_cons; [done|].
        apply (Ha q Hq). by eapply evolves_elem.
    + split; [done|done|by constructor|]. intros q [->|Hq]%elem_of_cons; [done|].
      intros Hin. apply (Ha q Hq). by eapply evolves_elem.
    + intros Hin. apply Hnp. unfold trackers. rewrite !elem_of_app in *. tauto.
    + by apply (tracker_range c' (p :: E ++ F) p Ho' ltac:(left)).
  - destruct Hp as (-> & Hall & _). split; [done|]. exists c, (E ++ F). by split_and!.
Qed.

(** Dropping and cloning the tracker of a data page. *)
Lemma drop_frame_world c E F p :
  world_ok c E (p :: F) ->
  exists c', drop_frame c p = Some c' /\ world_ok c' E F /\ evolves c c' /\ mem c' = mem c /\
    file_cache c' = file_cache c.
Proof.
  intros [Ho Hf Hn Ha]. unfold drop_frame.
  destruct (drop_pc_owns c (E ++ F) p) as (w & -> & Ho' & Hm & Hg).
  { eapply pc_owns_perm; [|exact Ho]. symmetry. apply Permutation_middle. }
  simpl. eexists. split; [done|]. split_and!; [|by split|done|done]. split; simpl; [done| |done|].
  - intros q. rewrite Hm. apply Hf.
  - intros q Hq Hin. apply (Ha q Hq). rewrite trackers_cons. by right.
Qed.

Lemma clone_frame_world c E F p :
  world_ok c E F -> p ∈ trackers c F -> has_room c (E ++ F) 1 -> world_ok (clone_frame c p) E (p :: F).
Proof.
  intros [Ho Hf Hn Ha] Hp Hr. split; [|done|done|].
  - eapply pc_owns_perm; [apply Permutation_middle|]. apply clone_pc_owns; [done| |done].
    rewrite trackers_app, elem_of_app. by right.
  - intros q Hq. rewrite trackers_cons. intros [->|Hin]%elem_of_cons; [by eapply Ha|by eapply Ha].
Qed.

Lemma clone_frame_evolves c p : evolves c (clone_frame c p).
Proof. by split. Qed.

(** ** Counting trackers *)

Lemma count_app A B p : Tracker.count (A ++ B) p = Tracker.count A p + Tracker.count B p.
Proof. unfold Tracker.count. rewrite count_occ_app. lia. Qed.

Lemma count_perm A B p : A ≡ₚ B -> Tracker.count A p = Tracker.count B p.
Proof. unfold Tracker.count. intros Hp. by rewrite (proj1 (Permutation_count_occ Z.eq_dec A B) Hp). Qed.

Lemma count_submseteq A B p : A ⊆+ B -> Tracker.count A p <= Tracker.count B p.
Proof.
  intros (D & HD)%submseteq_Permutation. rewrite (count_perm _ _ _ HD), count_app.
  pose proof (Tracker.count_nonneg D p). lia.
Qed.

Lemma count_evolves c c' F p : evolves c c' -> Tracker.count (trackers c' F) p <= Tracker.count (trackers c F) p.
Proof. intros Hev. by apply count_submseteq, evolves_trackers. Qed.

Lemma count_trackers_app c A B p : Tracker.count (trackers c (A ++ B)) p = Tracker.count A p + Tracker.count (trackers c B) p.
Proof. rewrite trackers_app. apply count_app. Qed.

Lemma count_here c F p : p ∈ F -> 0 < Tracker.count (trackers c F) p.
Proof. intros Hp. by apply Tracker.count_elem, trackers_here. Qed.
