(* ===== verification/SpaceTable.v ===== *)
(** * One page table among many

    The operations of [PageTable] seen from the whole machine.  An address space
    owns the frames of its own tables; its root also points to tables of the
    kernel, which all address spaces share.  An operation on a user page writes
    to tables of its own address space and to nothing else: no other table, no
    kernel table and no data page changes. *)

From S2P Require Import Prelude.
From S2P Require Import BTree.
From S2P Require Import Address.
From S2P Require Import FrameAlloc.
From S2P Require Import PageCache.
From S2P Require Import VmRegion.
From S2P Require Import PageTable.
From S2P Require Import MapArea.
From S2P Require Import World.

(** How much room there is for further trackers. *)
Lemma has_room_evolves c c' H H' n n' :
  evolves c c' -> has_room c H n -> Z.of_nat (length H') + n' <= Z.of_nat (length H) + n -> has_room c' H' n'.
Proof.
  intros Hev. unfold has_room. pose proof (submseteq_length _ _ (evolves_trackers c c' [] Hev)) as Hl.
  unfold trackers in *. rewrite !length_app in *. simpl in *. lia.
Qed.

Section Table.

(** The entries of the root that lead to the kernel's tables [K]. *)
Context (shared : Z -> Prop) (K : list Z).

Definition user_vpn (vpn : Z) : Prop := is_vpn vpn /\ ~ shared (i0 vpn).

Record table_ok (m : Z -> list Z) (pt : PageTable) : Prop := {
  to_tree : pt_tree m (pt_root_ppn pt) (pt_frames pt ++ K);
  to_root : pt_root_ppn pt ∈ pt_frames pt;
  to_own : forall i p x, ~ shared i -> path_ok (i :: p) ->
    node m (pt_root_ppn pt) (i :: p) = Some x -> x ∈ pt_frames pt
}.

(** The table [pt] in a machine whose tables are the frames [E]. *)
Record table_in (c : PageCache) (E F : list Z) (pt : PageTable) : Prop := {
  ti_world : world_ok c E F;
  ti_table : table_ok (mem c) pt;
  ti_sub : forall q, q ∈ pt_frames pt ++ K -> q ∈ E;
  ti_sep : forall q, q ∈ K -> q ∉ pt_frames pt
}.

(** What an operation on a table may do: add the frames [new] to it, and write to
    its own frames. *)
Record tstep (c : PageCache) (E F : list Z) (pt : PageTable)
    (c' : PageCache) (pt' : PageTable) (new : list Z) : Prop := {
  ts_in : table_in c' (new ++ E) F pt';
  ts_evolves : evolves c c';
  ts_root : pt_root_ppn pt' = pt_root_ppn pt;
  ts_frames : pt_frames pt' = pt_frames pt ++ new;
  ts_node : forall p x, path_ok p -> node (mem c) (pt_root_ppn pt) p = Some x ->
    node (mem c') (pt_root_ppn pt) p = Some x;
  ts_mem : forall q, q ∉ pt_frames pt' -> mem c' q = mem c q;
  ts_kernel : forall i, shared i -> is_index i ->
    pte_at (mem c') (pt_root_ppn pt) i = pte_at (mem c) (pt_root_ppn pt) i
}.

Lemma tstep_refl c E F pt : table_in c E F pt -> tstep c E F pt c pt [].
Proof. intros Hin. split; try done. by rewrite app_nil_r. Qed.

Lemma tstep_trans c E F pt c1 pt1 new1 c2 pt2 new2 :
  tstep c E F pt c1 pt1 new1 -> tstep c1 (new1 ++ E) F pt1 c2 pt2 new2 ->
  tstep c E F pt c2 pt2 (new1 ++ new2).
Proof.
  intros [I1 V1 R1 F1 N1 M1 K1] [I2 V2 R2 F2 N2 M2 K2]. split.
  - destruct I2 as [W T S P]. split; [|done| |done].
    + eapply world_perm; [|done|done]. rewrite (Permutation_app_comm new1 new2). by rewrite app_assoc.
    + intros q Hq. apply S in Hq. rewrite !elem_of_app in *. tauto.
  - by etrans.
  - congruence.
  - by rewrite F2, F1, app_assoc.
  - intros p x Hp Hx. rewrite <- R1. apply N2; [done|]. rewrite R1. by apply N1.
  - intros q Hq. rewrite M2 by done. apply M1. rewrite F2 in Hq. set_solver.
  - intros i Hi Hx. rewrite <- R1, K2, R1 by done. by apply K1.
Qed.

(** A table depends on its own frames and the kernel's only. *)
Lemma table_agree m m' pt :
  table_ok m pt -> (forall q, q ∈ pt_frames pt ++ K -> m' q = m q) ->
  table_ok m' pt /\ (forall vpn, pt_view m' (pt_root_ppn pt) vpn = pt_view m (pt_root_ppn pt) vpn) /\
  (forall p, path_ok p -> node m' (pt_root_ppn pt) p = node m (pt_root_ppn pt) p).
Proof.
  intros [Ht Hr Ho] Hm. assert (forall p, path_ok p -> node m' (pt_root_ppn pt) p = node m (pt_root_ppn pt) p) as Hn
    by (intros; by eapply node_agree).
  split_and!; [|intros; by eapply view_agree|done]. split; [by eapply tree_agree|done|].
  intros i p x Hi Hp. rewrite Hn by done. by apply Ho.
Qed.

Lemma table_in_with_mem c E F pt m :
  table_in c E F pt -> full_pages m -> (forall q, q ∈ E -> m q = mem c q) -> table_in (with_mem c m) E F pt.
Proof.
  intros [W T S P] Hf Hm. split; [by apply world_with_mem|..|done|done].
  by apply (table_agree (mem c)); [|auto].
Qed.

(** The data pages may change hands. *)
Lemma table_in_data c E F pt c' F' :
  table_in c E F pt -> world_ok c' E F' -> (forall q, q ∈ E -> mem c' q = mem c q) -> table_in c' E F' pt.
Proof. intros [W T S P] W' Hm. split; [done|by apply (table_agree (mem c)); [|auto]|done..]. Qed.

(** The tables on the way to a user page belong to the address space. *)
Lemma leaf_own c E F pt vpn t :
  table_in c E F pt -> user_vpn vpn -> node (mem c) (pt_root_ppn pt) [i0 vpn; i1 vpn] = Some t -> t ∈ pt_frames pt.
Proof. intros Hin [_ Hs] Hn. eapply (to_own _ _ (ti_table _ _ _ _ Hin)); [done|apply path_leaf|done]. Qed.

Lemma tree_sub m root N N' : (forall q, q ∈ N -> q ∈ N') -> pt_tree m root N -> pt_tree m root N'.
Proof. intros Hs Ht. by eapply tree_agree. Qed.

Lemma table_inv c E F pt : table_in c E F pt -> pt_inv c (E ++ F) (pt_root_ppn pt).
Proof.
  intros [W T S _]. split; [apply W|apply W|]. eapply tree_sub; [|apply T].
  intros q Hq. apply elem_of_app. left. auto.
Qed.

(** ** Writing an entry *)

Lemma write_leaf_tstep c E F pt vpn t v :
  table_in c E F pt -> user_vpn vpn -> node (mem c) (pt_root_ppn pt) [i0 vpn; i1 vpn] = Some t -> is_pte v ->
  tstep c E F pt (write_pte c t (i2 vpn) v) pt [] /\
  view_set (mem c) (pt_root_ppn pt) vpn v (mem (write_pte c t (i2 vpn) v)).
Proof.
  intros Hin Hu Hn Hv. pose proof (leaf_own _ _ _ _ _ _ Hin Hu Hn) as Ht. pose proof (path_leaf vpn) as Hp.
  destruct (write_leaf_spec c (E ++ F) _ vpn t v (table_inv _ _ _ _ Hin) (proj1 Hu) Hn Hv) as (_ & Hvs & Hnode & _).
  split; [|done]. destruct Hin as [W T S P]. pose proof (set_pte_full _ t (i2 vpn) v (wk_full _ _ _ W) (index_mod _)) as Hf.
  split; [split|apply evolves_with_mem|done|by rewrite app_nil_r| | |]; simpl; try done.
  - by apply world_with_mem.
  - destruct T as [Ht' Hr Ho]. split; [|done|].
    + by apply (leaf_tree _ _ t (i2 vpn) v _ [i0 vpn; i1 vpn] (wk_full _ _ _ W) Ht' Hp eq_refl Hn (index_mod _) Hv).
    + intros i p x Hi Hpp. rewrite Hnode by done. by apply Ho.
  - intros p x Hpp. by rewrite Hnode.
  - intros q Hq. apply set_page_ne. by intros ->.
  - intros i Hi Hx. unfold pte_at, set_pte. rewrite set_page_ne; [done|]. intros <-.
    by pose proof (tree_inj _ _ _ (to_tree _ _ T) [] [i0 vpn; i1 vpn] _ path_nil Hp eq_refl Hn).
Qed.

Lemma update_leaf_tstep c E F pt vpn f :
  table_in c E F pt -> user_vpn vpn -> (forall pte, is_pte (f pte)) ->
  let pte := pt_view (mem c) (pt_root_ppn pt) vpn in
  let (ok, c') := update_leaf c pt vpn f in
  ok = pte_is_valid pte /\ tstep c E F pt c' pt [] /\
  view_set (mem c) (pt_root_ppn pt) vpn (if ok then f pte else pte) (mem c').
Proof.
  intros Hin Hu Hf pte. unfold update_leaf. rewrite find_pte_node. subst pte.
  assert (forall m root, view_set m root vpn (pt_view m root vpn) m) as Hsame.
  { intros m root v' _. destruct (v' =? vpn) eqn:Ev; [|done]. by assert (v' = vpn) as -> by lia. }
  destruct (node (mem c) (pt_root_ppn pt) [i0 vpn; i1 vpn]) as [t|] eqn:En; simpl.
  2: { split_and!; [unfold pt_view; by rewrite En|by apply tstep_refl|done]. }
  rewrite <- (view_node _ _ _ _ En). destruct (pte_is_valid _) eqn:Ev.
  - split; [done|]. by apply write_leaf_tstep.
  - split_and!; [done|by apply tstep_refl|done].
Qed.

(** ** Adding tables *)

Lemma ensure_tstep c E F pt p t i :
  table_in c E F pt -> has_room c (E ++ F) 1 -> path_ok p -> (length p <= 1)%nat ->
  node (mem c) (pt_root_ppn pt) p = Some t -> is_index i -> ~ shared (default i (head p)) ->
  match ensure_entry c pt t i with
  | Some (pte, c', pt') =>
      exists new, tstep c E F pt c' pt' new /\ (length new <= 1)%nat /\
        (forall vpn, pt_view (mem c') (pt_root_ppn pt) vpn = pt_view (mem c) (pt_root_ppn pt) vpn) /\
        node (mem c') (pt_root_ppn pt) (p ++ [i]) = Some (pte_ppn pte)
  | None => exhausted c
  end.
Proof.
  intros Hin Hr Hp Hl Hn Hi Hs. unfold ensure_entry. destruct (pte_is_valid (pte_at (mem c) t i)) eqn:Ev.
  { exists []. split_and!; [by apply tstep_refl|simpl; lia|done|].
    rewrite node_snoc, Hn. simpl. by apply next_table_Some. }
  destruct Hin as [W T S P]. pose proof (frame_alloc_world c E F W Hr) as Ha. unfold frame_alloc_unwrap.
  destruct (frame_alloc c) as [[[f|] c1]|]; [|by destruct Ha|done]. simpl.
  destruct Ha as (Hev & _ & W1 & _ & Hfr & Hf & Hz & Hm). rewrite not_elem_of_app in Hfr. destruct Hfr as [HfE HfF].
  assert (forall q, q ∈ pt_frames pt ++ K -> mem c1 q = mem c q) as HmE by (intros q ?%S; apply Hm; by intros ->).
  destruct (table_agree _ _ _ T HmE) as (T1 & Hv1 & Hn1). pose proof (wk_full _ _ _ W1) as Hf1.
  assert (f ∉ pt_frames pt ++ K) as HfN by (intros ?%S; done).
  assert (t ∈ pt_frames pt) as Ht.
  { destruct p as [|j p']; [injection Hn as <-; apply T|]. by eapply (to_own _ _ T). }
  assert (next_table (mem c1) t i = None) as Hnew.
  { apply next_table_None. unfold pte_at in *. by rewrite HmE by set_solver. }
  rewrite <- Hn1 in Hn by done.
  pose proof (grow_node _ _ t i f _ p Hf1 (to_tree _ _ T1) Hp Hl Hn Hi Hnew Hf HfN Hz) as Hgn.
  pose proof (grow_view _ _ t i f _ p Hf1 (to_tree _ _ T1) Hp Hl Hn Hi Hnew Hf HfN Hz) as Hgv.
  pose proof (grow_tree _ _ t i f _ p Hf1 (to_tree _ _ T1) Hp Hl Hn Hi Hnew Hf HfN Hz) as Hgt.
  exists [f]. split_and!; [|simpl; lia| |].
  - split; simpl; try done.
    + split; simpl.
      * by apply world_with_mem, set_pte_full.
      * split; simpl; [eapply tree_sub; [|exact Hgt]; set_solver|apply elem_of_app; left; apply T|].
        intros j q x Hj Hq. rewrite Hgn by done. case_decide; [intros [= <-]; set_solver|].
        intros Hx. apply elem_of_app. left. by eapply (to_own _ _ T1).
      * intros q Hq. rewrite elem_of_cons. destruct (decide (q = f)); [by left|]. right. apply S. set_solver.
      * intros q Hq. unfold vec_push. rewrite not_elem_of_app, list_elem_of_singleton. split; [by apply P|]. intros ->. set_solver.
    + by etrans; [|apply evolves_with_mem].
    + intros q x Hq Hx. rewrite Hgn, Hn1 by done. case_decide as Hd; [|done]. subst q.
      rewrite node_snoc, <- Hn1, Hn in Hx by done. simpl in Hx. unfold next_table, pte_at in *.
      rewrite HmE in Hnew by set_solver. congruence.
    + unfold vec_push. intros q Hq. unfold set_pte. rewrite set_page_ne by set_solver. apply Hm. set_solver.
    + intros j Hj Hx. rewrite pte_at_set by (done || by apply table_pte).
      assert (pte_at (mem c1) (pt_root_ppn pt) j = pte_at (mem c) (pt_root_ppn pt) j) as <-
        by (unfold pte_at; rewrite HmE; [done|]; apply elem_of_app; left; apply T).
      destruct ((pt_root_ppn pt =? t) && (j =? i)) eqn:Eb; [|done]. exfalso.
      apply andb_true_iff in Eb as [Et%Z.eqb_eq ->%Z.eqb_eq]. subst t. destruct p as [|j p]; [done|].
      by pose proof (tree_inj _ _ _ (to_tree _ _ T1) [] (j :: p) _ path_nil Hp eq_refl Hn).
  - intros vpn. cbn. by rewrite Hgv, Hv1.
  - cbn. rewrite Hgn by by apply path_snoc. destruct (table_pte f Hf) as [_ ->]. by rewrite decide_True.
Qed.

Lemma find_pte_create_tstep c E F pt vpn :
  table_in c E F pt -> has_room c (E ++ F) 2 -> user_vpn vpn ->
  match find_pte_create c pt vpn with
  | Some ((t, i), c', pt') =>
      exists new, tstep c E F pt c' pt' new /\ (length new <= 2)%nat /\
        (forall vpn, pt_view (mem c') (pt_root_ppn pt) vpn = pt_view (mem c) (pt_root_ppn pt) vpn) /\
        node (mem c') (pt_root_ppn pt) [i0 vpn; i1 vpn] = Some t /\ i = i2 vpn
  | None => exhausted c
  end.
Proof.
  intros Hin Hr [_ Hs]. unfold find_pte_create. rewrite indexes_i. cbn [find_pte_create_loop].
  assert (path_ok [i0 vpn]) as Hp1 by (split; [simpl; lia|apply Forall_singleton, index_mod]).
  pose proof (ensure_tstep c E F pt [] (pt_root_ppn pt) (i0 vpn) Hin ltac:(unfold has_room in *; lia)
    path_nil ltac:(simpl; lia) eq_refl (index_mod _) Hs) as H1.
  destruct (ensure_entry c pt (pt_root_ppn pt) (i0 vpn)) as [[[pte1 c1] pt1]|]; cbn; [|done].
  destruct H1 as (new1 & Ht1 & Hl1 & Hv1 & Hn1).
  assert (has_room c1 ((new1 ++ E) ++ F) 1) as Hr1.
  { eapply has_room_evolves; [apply Ht1|done|]. rewrite !length_app. lia. }
  rewrite <- (ts_root _ _ _ _ _ _ _ Ht1) in Hn1.
  pose proof (ensure_tstep c1 _ F pt1 [i0 vpn] (pte_ppn pte1) (i1 vpn) (ts_in _ _ _ _ _ _ _ Ht1) Hr1
    Hp1 ltac:(simpl; lia) Hn1 (index_mod _) Hs) as H2.
  destruct (ensure_entry c1 pt1 (pte_ppn pte1) (i1 vpn)) as [[[pte2 c2] pt2]|]; cbn.
  - destruct H2 as (new2 & Ht2 & Hl2 & Hv2 & Hn2). rewrite (ts_root _ _ _ _ _ _ _ Ht1) in *.
    exists (new1 ++ new2). split_and!; [by eapply tstep_trans|rewrite length_app; lia| |done|done].
    intros v. by rewrite Hv2, Hv1.
  - eapply exhausted_after; [apply Ht1|done].
Qed.

(** [map], among all other tables. *)
Lemma map_tstep c E F pt vpn ppn flags :
  table_in c E F pt -> has_room c (E ++ F) 2 -> user_vpn vpn -> is_ppn ppn -> is_flags flags ->
  match pt_map c pt vpn ppn flags with
  | Some (c', pt') =>
      exists new, tstep c E F pt c' pt' new /\ (length new <= 2)%nat /\
        pte_is_valid (pt_view (mem c) (pt_root_ppn pt) vpn) = false /\
        view_set (mem c) (pt_root_ppn pt) vpn (pte_new ppn (Z.lor flags PTEFlags.V)) (mem c')
  | None => pte_is_valid (pt_view (mem c) (pt_root_ppn pt) vpn) = true \/ exhausted c
  end.
Proof.
  intros Hin Hr Hu Hp Hfl. unfold pt_map. pose proof (find_pte_create_tstep c E F pt vpn Hin Hr Hu) as Hf.
  destruct (find_pte_create c pt vpn) as [[[[t i] c1] pt1]|]; simpl; [|by right].
  destruct Hf as (new & Ht & Hl & Hv & Hn & ->).
  pose proof (view_node _ _ _ _ Hn) as Hvn. rewrite Hv in Hvn. rewrite Hvn.
  destruct (pte_is_valid (pte_at (mem c1) t (i2 vpn))) eqn:Ev; [by left|].
  destruct (pte_new_spec ppn _ Hp (leaf_flags _ Hfl)) as [Hpte _]. rewrite <- (ts_root _ _ _ _ _ _ _ Ht) in Hn.
  destruct (write_leaf_tstep c1 _ F pt1 vpn t _ (ts_in _ _ _ _ _ _ _ Ht) Hu Hn Hpte) as [Ht2 Hvs].
  exists new. split_and!; [|done|done|].
  - rewrite <- (app_nil_r new). by eapply tstep_trans.
  - rewrite (ts_root _ _ _ _ _ _ _ Ht) in Hvs. intros v Hv'. rewrite Hvs by done. by rewrite Hv.
Qed.

(** A data page is not in any table. *)
Lemma data_kept c E F pt q : table_in c E F pt -> q ∈ trackers c F -> q ∉ pt_frames pt.
Proof. intros [W _ S _] Hq Hin. eapply (wk_apart _ _ _ W q); [apply S, elem_of_app; by left|done]. Qed.

(** What an operation on one table means for another one. *)
Lemma tstep_other c E F pt c' pt' new pt2 :
  tstep c E F pt c' pt' new -> table_in c E F pt2 -> (forall q, q ∈ pt_frames pt2 -> q ∉ pt_frames pt) ->
  table_in c' (new ++ E) F pt2 /\ (forall q, q ∈ pt_frames pt2 -> q ∉ pt_frames pt') /\
  (forall q, q ∈ pt_frames pt2 ++ K -> mem c' q = mem c q).
Proof.
  intros [I _ _ Hf _ Hm _] [W T S P] Ha. destruct I as [W' _ _ P'].
  assert (forall q, q ∈ pt_frames pt2 -> q ∉ pt_frames pt') as Ha'.
  { intros q Hq. rewrite Hf, not_elem_of_app. split; [auto|]. intros Hn.
    destruct (proj1 (NoDup_app new E) (wk_nodup _ _ _ W')) as (_ & HnE & _). apply (HnE q Hn), S, elem_of_app. by left. }
  assert (forall q, q ∈ pt_frames pt2 ++ K -> mem c' q = mem c q) as Hm'.
  { intros q Hq. apply Hm. apply elem_of_app in Hq as [Hq|Hq]; auto. }
  split_and!; [|done|done]. split; [done|by apply (table_agree (mem c))| |done].
  intros q Hq. apply elem_of_app. right. by apply S.
Qed.

(** A new table *)
Lemma new_table_in c E F :
  world_ok c E F -> (forall q, q ∈ K -> q ∈ E) -> has_room c (E ++ F) 1 ->
  match pt_new c with
  | Some (pt, c') => exists f, pt = mkPageTable f [f] /\ table_in c' (f :: E) F pt /\ evolves c c' /\ f ∉ E ++ F /\
      (forall q, q <> f -> mem c' q = mem c q) /\ (forall vpn, pt_view (mem c') f vpn = 0) /\ (forall i, pte_at (mem c') f i = 0)
  | None => exhausted c
  end.
Proof.
  intros W HK Hr. unfold pt_new, frame_alloc_unwrap. pose proof (frame_alloc_world c E F W Hr) as Ha.
  destruct (frame_alloc c) as [[[f|] c']|]; cbn; [|by destruct Ha|done].
  destruct Ha as (Hev & _ & W' & _ & Hfr & _ & Hz & Hm). exists f.
  assert (forall p x, node (mem c') f p = Some x -> p = [] /\ x = f) as Hnode.
  { intros p. induction p as [|i p IH] using rev_ind; intros x; [by intros [= <-]|].
    rewrite node_snoc. destruct (node (mem c') f p) as [t|] eqn:E1; [|done]. cbn.
    destruct (IH t eq_refl) as [-> ->]. unfold next_table. by rewrite pte_at_zero. }
  assert (f ∉ E) as HfE by (rewrite not_elem_of_app in Hfr; tauto).
  split_and!; try done.
  - split; [done| |set_solver|intros q Hq%HK; set_solver]. split; [split|set_solver|]; cbn [pt_root_ppn pt_frames].
    + intros p x _ Hx. destruct (Hnode p x Hx) as [_ ->]. left.
    + intros p q x _ _ H1 H2. destruct (Hnode _ _ H1) as [-> _], (Hnode _ _ H2) as [-> _]. done.
    + intros i p x _ _ Hx. by destruct (Hnode _ _ Hx).
  - intros vpn. unfold pt_view. destruct (node (mem c') f [i0 vpn; i1 vpn]) as [t|] eqn:E1; [|done]. by destruct (Hnode _ _ E1).
  - intros i. by apply pte_at_zero.
Qed.

(** [ensure_root_entry] is the first step of a walk that creates tables, except that
    it reports a lack of frames. *)
Lemma ensure_root_tstep c E F pt i :
  table_in c E F pt -> has_room c (E ++ F) 1 -> is_index i -> ~ shared i ->
  match ensure_root_entry c pt i with
  | Some (true, c', pt') => exists new, tstep c E F pt c' pt' new /\ (length new <= 1)%nat /\
      (forall vpn, pt_view (mem c') (pt_root_ppn pt) vpn = pt_view (mem c) (pt_root_ppn pt) vpn) /\
      pte_is_valid (pte_at (mem c') (pt_root_ppn pt) i) = true
  | Some (false, c', pt') => exhausted c
  | None => False
  end.
Proof.
  intros Hin Hr Hi Hs. pose proof (ensure_tstep c E F pt [] (pt_root_ppn pt) i Hin Hr path_nil ltac:(simpl; lia) eq_refl Hi Hs) as He.
  unfold ensure_root_entry, ensure_entry, frame_alloc_unwrap in *. destruct (Z.leb_spec ROOT_ENTRIES i) as [Hle|_]; [unfold ROOT_ENTRIES, is_index in *; lia|].
  destruct (pte_is_valid (pte_at (mem c) (pt_root_ppn pt) i)) eqn:Ev.
  { exists []. split_and!; [by apply tstep_refl|simpl; lia|done|done]. }
  pose proof (frame_alloc_world c E F (ti_world _ _ _ _ Hin) Hr) as Ha. destruct (frame_alloc c) as [[[f|] c1]|]; cbn [mbind option_bind] in He |- *; [|by destruct Ha|done].
  destruct He as (new & Ht & Hl & Hv & Hn). exists new. split_and!; [done..|].
  change (next_table (mem (write_pte c1 (pt_root_ppn pt) i (pte_new f PTEFlags.V))) (pt_root_ppn pt) i = Some (pte_ppn (pte_new f PTEFlags.V))) in Hn.
  unfold next_table in Hn. by destruct (pte_is_valid (pte_at (mem (write_pte _ _ _ _)) _ i)).
Qed.

End Table.
