(* ===== verification/Backing.v ===== *)
(** * File backings of an address space

    [mm/memory_set/backing.rs], [MmapBacking]: for each file or memfd mapped
    into an address space, the file, what of it is mapped, and the state of its
    resident pages, one of which may hold a tracker of a shared frame.  A file
    is named by a number. *)

From S2P Require Import Prelude.
From S2P Require Import BTree.
From S2P Require Import FrameAlloc.
From S2P Require Import PageCache.
From S2P Require Import VmRegion.
From S2P Require Import MapArea.

Inductive MmapBackingKind :=
| BackingFile (dev ino : Z)
| BackingMemfd (id : Z).

Record MmapBackingVmState := mkVmState {
  vs_vma_count : Z;
  vs_mapped_file_ranges : list (Z * Z);
  vs_valid_file_ranges : list (Z * Z)
}.
#[export] Instance fields_MmapBackingVmState : Fields MmapBackingVmState := fun s =>
  mkVmState (vs_vma_count s) (vs_mapped_file_ranges s) (vs_valid_file_ranges s).

Record MmapBackingPageState := mkPageState {
  ps_ref_count : Z;
  ps_dirty : bool;
  ps_frame : option Z
}.
#[export] Instance fields_MmapBackingPageState : Fields MmapBackingPageState := fun s =>
  mkPageState (ps_ref_count s) (ps_dirty s) (ps_frame s).

Record MmapBacking := mkBacking {
  bk_kind : MmapBackingKind;
  bk_file : Z;
  bk_vm_state : MmapBackingVmState;
  bk_resident_pages : list (Z * MmapBackingPageState)
}.
#[export] Instance fields_MmapBacking : Fields MmapBacking := fun b =>
  mkBacking (bk_kind b) (bk_file b) (bk_vm_state b) (bk_resident_pages b).

Module Backing.

Definition from_region (region : VmRegion) : option MmapBackingKind :=
  if negb (r_memfd_id region =? 0) then Some (BackingMemfd (r_memfd_id region))
  else if r_file_backed region then Some (BackingFile (r_file_dev region) (r_file_ino region))
  else None.

Definition matches_region (kind : MmapBackingKind) (region : VmRegion) : bool :=
  match kind with
  | BackingFile dev ino =>
      r_file_backed region && (r_memfd_id region =? 0) && (r_file_dev region =? dev)
      && (r_file_ino region =? ino)
  | BackingMemfd id => r_memfd_id region =? id
  end.

Definition vm_state_default : MmapBackingVmState := mkVmState 0 [] [].
Definition page_state_default : MmapBackingPageState := mkPageState 0 false None.

Definition new (region : VmRegion) (file : Z) : option MmapBacking :=
  kind ← from_region region; Some (mkBacking kind file vm_state_default []).

(** [resident_frame]: a clone of the tracker. *)
Definition resident_frame (c : PageCache) (b : MmapBacking) (file_page : Z) : option Z * PageCache :=
  match bt_get (bk_resident_pages b) file_page with
  | Some state =>
      match ps_frame state with
      | Some p => (Some p, clone_frame c p)
      | None => (None, c)
      end
  | None => (None, c)
  end.

(** [add_resident_page_ref] with the frame it may clone. *)
Definition add_resident_page_ref (c : PageCache) (b : MmapBacking) (file_page : Z) (frame : option Z)
    (dirty : bool) : PageCache * MmapBacking :=
  let state := unwrap_or (bt_get (bk_resident_pages b) file_page) page_state_default in
  let state := state {{ ps_ref_count := sat_add (ps_ref_count state) 1;
                        ps_dirty := ps_dirty state || dirty }} in
  let '(c, state) :=
    match frame, ps_frame state with
    | Some p, None => (clone_frame c p, state {{ ps_frame := Some p }})
    | _, _ => (c, state)
    end in
  (c, b {{ bk_resident_pages := bt_insert (bk_resident_pages b) file_page state }}).

Definition clear_dirty_page (b : MmapBacking) (file_page : Z) : MmapBacking :=
  match bt_get (bk_resident_pages b) file_page with
  | Some state =>
      b {{ bk_resident_pages := bt_insert (bk_resident_pages b) file_page (state {{ ps_dirty := false }}) }}
  | None => b
  end.

(** The trackers a backing holds. *)
Definition page_frames (pages : list (Z * MmapBackingPageState)) : list Z :=
  omap (fun e => ps_frame e.2) pages.
Definition frames (b : MmapBacking) : list Z := page_frames (bk_resident_pages b).

(** [replace_resident_pages]: the trackers of the old states are dropped. *)
Definition replace_resident_pages (c : PageCache) (b : MmapBacking)
    (pages : list (Z * MmapBackingPageState)) : option (PageCache * MmapBacking) :=
  c ← drop_frames c (frames b);
  Some (c, b {{ bk_resident_pages := pages }}).

Definition replace_vm_state (b : MmapBacking) (vm_state : MmapBackingVmState) : MmapBacking :=
  b {{ bk_vm_state := vm_state }}.

(** [clone()] of a backing clones its trackers. *)
Definition clone (c : PageCache) (b : MmapBacking) : PageCache := foldl clone_frame c (frames b).

End Backing.
