(* ===== verification/MemorySet.v ===== *)
(** * Address spaces

    [mm/memory_set.rs]: an address space joins a page table, the mapped areas
    with their frames, the set of virtual memory areas, the file backings and
    the layout of heap and mappings.  The operations here create and tear down
    mappings, change their protection, move and discard them.

    The frame store with the global page caches is threaded as a [PageCache];
    [None] is a panic.  [Kernel] is what an address space takes from the kernel
    proper: its page table, the bounds of physical memory and the address of
    the trampoline code.  TLB and instruction-cache flushes act on no state of
    the model. *)

From S2P Require Import Prelude.
From S2P Require Import BTree.
From S2P Require Import Ids.
From S2P Require Import Address.
From S2P Require Import Ranges.
From S2P Require Import FrameAlloc.
From S2P Require Import PageCache.
From S2P Require Import VmRegion.
From S2P Require Import VmRegionSet.
From S2P Require Import PageTable.
From S2P Require Import MapArea.
From S2P Require Import Backing.
Import Region VmaSet.

Definition USER_STACK_SIZE : Z := 4096 * 512.
Definition USER_HEAP_GAP : Z := 64 * 1024.
Definition USER_STACK_GUARD_GAP : Z := PAGE_SIZE * 256.
Definition TRAMPOLINE : Z := USIZE_MAX - PAGE_SIZE + 1.
Definition SIGRETURN_TRAMPOLINE : Z := TRAMPOLINE - PAGE_SIZE.
Definition TRAP_CONTEXT : Z := SIGRETURN_TRAMPOLINE - PAGE_SIZE.
Definition KERNEL_STACK_TOP : Z := TRAMPOLINE - 1073741824.
Definition DEFAULT_MMAP_BASE : Z := 223338299392.

Record ShmAttach := mkShmAttach {
  sa_ipc_ns_id : Z;
  sa_addr : Z;
  sa_shmid : Z;
  sa_len : Z;
  sa_attach_id : Z;
  sa_accounted : bool
}.
#[export] Instance fields_ShmAttach : Fields ShmAttach := fun a =>
  mkShmAttach (sa_ipc_ns_id a) (sa_addr a) (sa_shmid a) (sa_len a) (sa_attach_id a) (sa_accounted a).

Record Kernel := mkKernel {
  kn_page_table : PageTable;
  kn_phys_mem_start : Z;
  kn_phys_mem_end : Z;
  kn_strampoline : Z
}.

Record MemorySet := mkMemorySet {
  ms_page_table : PageTable;
  ms_areas : list MapArea;
  ms_vm_regions : regions;
  ms_sysv_shm_attaches : list ShmAttach;
  ms_mmap_backings : list (Z * MmapBacking);
  ms_next_mmap_backing_id : Z;
  ms_heap_start : Z;
  ms_brk : Z;
  ms_mmap_next : Z;
  ms_mmap_topdown_cursor : Z;
  ms_mmap_aslr_offset : Z;
  ms_mlocked_ranges : ranges;
  ms_mlockall_future : bool;
  ms_trap_context_slots : Recycle.RecycleAllocator;
  ms_has_user_kernel_mappings : bool
}.
#[export] Instance fields_MemorySet : Fields MemorySet := fun m =>
  mkMemorySet (ms_page_table m) (ms_areas m) (ms_vm_regions m) (ms_sysv_shm_attaches m)
    (ms_mmap_backings m) (ms_next_mmap_backing_id m) (ms_heap_start m) (ms_brk m)
    (ms_mmap_next m) (ms_mmap_topdown_cursor m) (ms_mmap_aslr_offset m) (ms_mlocked_ranges m)
    (ms_mlockall_future m) (ms_trap_context_slots m) (ms_has_user_kernel_mappings m).

Inductive MprotectError := AccessDenied | Unmapped.

Abbreviation mtranslate c ms vpn := (translate (mem c) (ms_page_table ms) vpn).

(** ** Shared memory attachments and trap-context slots *)

Definition shm_attach_end (a : ShmAttach) : Z := sat_add (sa_addr a) (sa_len a).

Definition shm_attach_contains_range (a : ShmAttach) (start len : Z) : bool :=
  match checked_add start len with
  | None => false
  | Some end_ => (sa_addr a <=? start) && (end_ <=? shm_attach_end a)
  end.

Definition replace_sysv_shm_attaches (ms : MemorySet) (attaches : list ShmAttach) : MemorySet :=
  ms {{ ms_sysv_shm_attaches := attaches }}.
Definition push_sysv_shm_attach (ms : MemorySet) (attach : ShmAttach) : MemorySet :=
  ms {{ ms_sysv_shm_attaches := vec_push (ms_sysv_shm_attaches ms) attach }}.
Definition take_sysv_shm_attaches (ms : MemorySet) : list ShmAttach * MemorySet :=
  (ms_sysv_shm_attaches ms, ms {{ ms_sysv_shm_attaches := [] }}).

(** The attachment at an address, and whether its accounting moved to another
    one with the same identifier. *)
Definition remove_sysv_shm_attach (ms : MemorySet) (shmaddr : Z)
    : option (ShmAttach * bool) * MemorySet :=
  match position (fun a => sa_addr a =? shmaddr) (ms_sysv_shm_attaches ms) with
  | None => (None, ms)
  | Some idx =>
      match ms_sysv_shm_attaches ms !! idx with
      | None => (None, ms)
      | Some attach =>
          let rest := take idx (ms_sysv_shm_attaches ms) ++ drop (S idx) (ms_sysv_shm_attaches ms) in
          match position (fun next => sa_attach_id next =? sa_attach_id attach) rest with
          | Some i =>
              if sa_accounted attach
              then (Some (attach, true),
                    ms {{ ms_sysv_shm_attaches := alter (fun a => a {{ sa_accounted := true }}) i rest }})
              else (Some (attach, false), ms {{ ms_sysv_shm_attaches := rest }})
          | None => (Some (attach, false), ms {{ ms_sysv_shm_attaches := rest }})
          end
      end
  end.

Definition alloc_trap_context_slot (ms : MemorySet) : Z * MemorySet :=
  let (slot, slots) := Recycle.alloc (ms_trap_context_slots ms) in
  (slot, ms {{ ms_trap_context_slots := slots }}).
Definition reserve_trap_context_slot (ms : MemorySet) (slot : Z) : MemorySet :=
  ms {{ ms_trap_context_slots := Recycle.reserve (ms_trap_context_slots ms) slot }}.
Definition dealloc_trap_context_slot (ms : MemorySet) (slot : Z) : option MemorySet :=
  slots ← Recycle.dealloc (ms_trap_context_slots ms) slot;
  Some (ms {{ ms_trap_context_slots := slots }}).

(** ** Locked ranges *)

Definition locked_bytes (ms : MemorySet) : Z := ranges_total_len (ms_mlocked_ranges ms).

Definition locked_overlap_bytes (ms : MemorySet) (start end__ : Z) : Z :=
  foldl (fun acc r => wadd acc (range_overlap_len start end__ r.1 r.2)) 0 (ms_mlocked_ranges ms).

Definition locked_ranges_overlap (ms : MemorySet) (start end__ : Z) : bool :=
  ranges_overlap (ms_mlocked_ranges ms) start end__.

Definition locked_bytes_after_add (ms : MemorySet) (start end__ : Z) : Z :=
  ranges_total_len (normalize_ranges (vec_push (ms_mlocked_ranges ms) (start, end__))).

Definition add_locked_range (ms : MemorySet) (start end__ : Z) : MemorySet :=
  ms {{ ms_mlocked_ranges := normalize_ranges (vec_push (ms_mlocked_ranges ms) (start, end__)) }}.

Definition trim_locked_ranges (ms : MemorySet) (start end__ : Z) : MemorySet :=
  ms {{ ms_mlocked_ranges := trim_ranges (ms_mlocked_ranges ms) start end__ }}.

(** What becomes of one locked range when [[old_addr, old_end)] moves. *)
Definition move_locked_range (old_addr old_end new_start : Z) (r : Z * Z) : ranges :=
  let (lock_start, lock_end) := r in
  if (old_end <=? lock_start) || (lock_end <=? old_addr) then [r]
  else
    let overlap_start := Z.max lock_start old_addr in
    let overlap_end := Z.min lock_end old_end in
    (if lock_start <? old_addr then [(lock_start, old_addr)] else []) ++
    [(sat_add new_start (sat_sub overlap_start old_addr),
      sat_add new_start (sat_sub overlap_end old_addr))] ++
    (if old_end <? lock_end then [(old_end, lock_end)] else []).

Definition move_locked_ranges (ms : MemorySet) (old_addr old_len new_start : Z) : MemorySet :=
  let old_end := sat_add old_addr old_len in
  if old_end <=? old_addr then ms
  else ms {{ ms_mlocked_ranges := normalize_ranges
               (concat (map (move_locked_range old_addr old_end new_start) (ms_mlocked_ranges ms))) }}.

Definition clear_mlock_state (ms : MemorySet) : MemorySet :=
  ms {{ ms_mlocked_ranges := []; ms_mlockall_future := false }}.

(** ** The set of virtual memory areas *)

Definition vm_region_user_range (region : VmRegion) : option (Z * Z) :=
  if r_start region <? end_ region then Some (r_start region, end_ region) else None.

Definition user_mapped_ranges (ms : MemorySet) : ranges :=
  foldl (fun ranges e => match vm_region_user_range e.2 with
                         | Some (start, end__) => push_range_merged ranges start end__
                         | None => ranges
                         end) [] (ms_vm_regions ms).

Definition max_user_mapped_end (ms : MemorySet) : Z :=
  foldl (fun acc e => match vm_region_user_range e.2 with
                      | Some (_, end__) => Z.max acc end__
                      | None => acc
                      end) 0 (ms_vm_regions ms).

Definition user_range_fully_mapped (ms : MemorySet) (start_va end_va : Z) : bool :=
  covers_range (ms_vm_regions ms) start_va end_va.

Definition vm_region_containing_addr (ms : MemorySet) (addr : Z) : option VmRegion :=
  containing_addr (ms_vm_regions ms) addr.

Definition locked_ranges_with_current_mappings (ms : MemorySet) : ranges :=
  let next := ms_mlocked_ranges ms ++ user_mapped_ranges ms in
  let next := match next with
              | [] => [(ms_heap_start ms, sat_add (ms_heap_start ms) PAGE_SIZE)]
              | _ => next
              end in
  normalize_ranges next.

Definition locked_bytes_after_mlockall_current (ms : MemorySet) : Z :=
  ranges_total_len (locked_ranges_with_current_mappings ms).
Definition lock_current_mappings (ms : MemorySet) : MemorySet :=
  ms {{ ms_mlocked_ranges := locked_ranges_with_current_mappings ms }}.

Definition vm_regions_total_len (ms : MemorySet) : Z :=
  foldl (fun acc e => if is_mmap e.2 then wadd acc (r_len e.2) else acc) 0 (ms_vm_regions ms).

Definition anon_private_writable_vm_bytes (ms : MemorySet) : Z :=
  foldl (fun sum e =>
    if is_mmap e.2 && is_private_anonymous e.2 && MapPermission.contains (r_map_perm e.2) MapPermission.W
    then sat_add sum (r_len e.2) else sum) 0 (ms_vm_regions ms).

Definition vm_regions_overlap (ms : MemorySet) (start end__ : Z) : bool :=
  overlaps_range (ms_vm_regions ms) start end__.

Definition shared_vm_region_overlaps (ms : MemorySet) (start end__ : Z) : bool :=
  any_overlap_where (ms_vm_regions ms) start end__ r_shared.

Definition vm_range_is_private_anonymous (ms : MemorySet) (start end__ : Z) : bool :=
  covers_range (ms_vm_regions ms) start end__
  && forallb is_private_anonymous (snapshot_range (ms_vm_regions ms) start end__).

Definition vm_region_containing (ms : MemorySet) (start end__ : Z) : option VmRegion :=
  region ← vm_region_containing_addr ms start;
  if is_mmap region && (end__ <=? end_ region) then Some region else None.

Definition page_overlaps_mmap_region (ms : MemorySet) (page_start : Z) : bool :=
  any_overlap_where (ms_vm_regions ms) page_start (sat_add page_start PAGE_SIZE) is_mmap.

Definition page_overlaps_mmap_region_started_before (ms : MemorySet) (page_start limit : Z) : bool :=
  any_overlap_where (ms_vm_regions ms) page_start (sat_add page_start PAGE_SIZE)
    (fun region => is_mmap region && (r_start region <? limit)).

(** ** The kernel's part of a user page table *)

Definition riscv_kernel_stack_root_range : Z * Z :=
  let end__ := wadd (root_index_of_va (wsub KERNEL_STACK_TOP 1)) 1 in
  (sat_sub end__ 1, end__).

Definition riscv_kernel_direct_root_range (k : Kernel) : Z * Z :=
  (root_index_of_va (kn_phys_mem_start k), wadd (root_index_of_va (sat_sub (kn_phys_mem_end k) 1)) 1).

Definition root_indexes (r : Z * Z) : list Z := seqZ r.1 (r.2 - r.1).

Definition riscv_root_range_overlaps (index start end__ : Z) : bool :=
  (root_entry_start index <? end__) && (start <? root_entry_end index).

Definition riscv_high_stack_window_overlaps (start end__ : Z) : bool :=
  let (root_start, root_end) := riscv_kernel_stack_root_range in
  let window_start := sat_sub KERNEL_STACK_TOP (sat_mul (sat_sub root_end root_start) 1073741824) in
  (window_start <? end__) && (start <? KERNEL_STACK_TOP).

Definition riscv_shared_kernel_range_overlaps (k : Kernel) (ms : MemorySet) (start end__ : Z) : bool :=
  if negb (ms_has_user_kernel_mappings ms) || (end__ <=? start) then false
  else existsb (fun index => riscv_root_range_overlaps index start end__)
         (root_indexes (riscv_kernel_direct_root_range k))
       || riscv_high_stack_window_overlaps start end__.

(** The end of the first shared window the range runs into. *)
Definition riscv_shared_kernel_overlap_end (k : Kernel) (ms : MemorySet) (start end__ : Z) : option Z :=
  if negb (ms_has_user_kernel_mappings ms) || (end__ <=? start) then None
  else
    let record old candidate := Some (match old with Some o => Z.min o candidate | None => candidate end) in
    let direct := foldl (fun acc index => if riscv_root_range_overlaps index start end__
                                          then record acc (root_entry_end index) else acc)
                    None (root_indexes (riscv_kernel_direct_root_range k)) in
    if riscv_high_stack_window_overlaps start end__ then record direct KERNEL_STACK_TOP else direct.

Definition page_align_up (value : Z) : Z := Z.land (sat_add value (PAGE_SIZE - 1)) (bnot (PAGE_SIZE - 1)).

Fixpoint share_roots (c : PageCache) (pt source : PageTable) (indexes : list Z) : bool * PageCache :=
  match indexes with
  | [] => (true, c)
  | index :: indexes =>
      let (ok, c) := share_root_entry_from c pt index source in
      if ok then share_roots c pt source indexes else (false, c)
  end.

Definition map_riscv_user_kernel_mappings (k : Kernel) (c : PageCache) (ms : MemorySet)
    : bool * PageCache * MemorySet :=
  if ms_has_user_kernel_mappings ms then (true, c, ms)
  else
    let (ok, c) := share_roots c (ms_page_table ms) (kn_page_table k)
                     (root_indexes (riscv_kernel_direct_root_range k)) in
    if negb ok then (false, c, ms)
    else
      let (ok, c) := share_roots c (ms_page_table ms) (kn_page_table k)
                       (root_indexes riscv_kernel_stack_root_range) in
      if negb ok then (false, c, ms)
      else (true, c, ms {{ ms_has_user_kernel_mappings := true }}).

(** [page_table.map(VirtAddr::from(va).into(), PhysAddr::from(strampoline).into(), flags)] *)
Definition map_trampoline_page (k : Kernel) (c : PageCache) (ms : MemorySet) (va flags : Z)
    : option (PageCache * MemorySet) :=
  vpn ← addr_to_page (virt_addr va);
  ppn ← addr_to_page (phys_addr (kn_strampoline k));
  '(c, pt) ← pt_map c (ms_page_table ms) vpn ppn flags;
  Some (c, ms {{ ms_page_table := pt }}).

Definition map_trampoline (k : Kernel) (c : PageCache) (ms : MemorySet) : option (PageCache * MemorySet) :=
  map_trampoline_page k c ms TRAMPOLINE
    (Z.lor (PTEFlags.from (Z.lor MapPermission.R MapPermission.X)) PTEFlags.G).

Definition map_sigreturn_trampoline_user (k : Kernel) (c : PageCache) (ms : MemorySet)
    : option (PageCache * MemorySet) :=
  map_trampoline_page k c ms SIGRETURN_TRAMPOLINE
    (PTEFlags.from (Z.lor (Z.lor MapPermission.R MapPermission.X) MapPermission.U)).

Definition map_user_trampoline_pages (k : Kernel) (c : PageCache) (ms : MemorySet)
    : option (bool * PageCache * MemorySet) :=
  '(c, ms) ← map_trampoline k c ms;
  '(c, ms) ← map_sigreturn_trampoline_user k c ms;
  Some (map_riscv_user_kernel_mappings k c ms).

(** [aslr] is the result of [next_mmap_aslr_offset]. *)
Definition new_bare (c : PageCache) (aslr : Z) : option (MemorySet * PageCache) :=
  '(pt, c) ← pt_new c;
  Some (mkMemorySet pt [] VmaSet.new [] [] 1 0 0 DEFAULT_MMAP_BASE 0 aslr [] false Recycle.new false, c).

(** ** Mapping areas *)

Definition sort_map_areas (areas : list MapArea) : list MapArea := sort_by_key Area.start_vpn areas.

Definition vm_region_map_area_type_compatible (region : VmRegion) (area : MapArea) : bool :=
  bool_decide (ma_type area = r_map_type region)
  || (can_have_lazy_concrete region && bool_decide (ma_type area = Lazy)).

Definition concrete_range_overlaps (k : Kernel) (ms : MemorySet) (start_va end_va : Z) : bool :=
  existsb (fun area => Area.overlaps_vpn_range area (floor start_va) (ceil end_va)) (ms_areas ms)
  || riscv_shared_kernel_range_overlaps k ms start_va end_va.

(** An area going out of scope drops its trackers. *)
Definition drop_area (c : PageCache) (a : MapArea) : option PageCache :=
  drop_frames c (bt_values (ma_frames a)).

Definition push_mapped_raw (ms : MemorySet) (a : MapArea) : MemorySet :=
  ms {{ ms_areas := sort_map_areas (vec_push (ms_areas ms) a) }}.

Definition try_push_raw (k : Kernel) (c : PageCache) (ms : MemorySet) (a : MapArea) (data : option (list Z))
    : option (bool * PageCache * MemorySet) :=
  let start_va := page_to_addr (Area.start_vpn a) in
  let end_va := page_to_addr (Area.end_vpn a) in
  if concrete_range_overlaps k ms start_va end_va then c ← drop_area c a; Some (false, c, ms)
  else
    '(ok, c, pt, a) ← Area.map c (ms_page_table ms) a;
    let ms := ms {{ ms_page_table := pt }} in
    if negb ok then c ← drop_area c a; Some (false, c, ms)
    else
      c ← match data with Some data => Area.copy_data c pt a data | None => Some c end;
      Some (true, c, push_mapped_raw ms a).

Definition try_insert_framed_area_raw (k : Kernel) (c : PageCache) (ms : MemorySet)
    (start_va end_va permission : Z) : option (bool * PageCache * MemorySet) :=
  a ← Area.new start_va end_va Framed permission; try_push_raw k c ms a None.

Definition try_insert_initial_trap_context (k : Kernel) (c : PageCache) (ms : MemorySet)
    : option (bool * PageCache * MemorySet) :=
  let (slot, ms) := alloc_trap_context_slot ms in
  a ← Area.new (virt_addr TRAP_CONTEXT) (virt_addr SIGRETURN_TRAMPOLINE) Framed
        (Z.lor MapPermission.R MapPermission.W);
  '(ok, c, ms) ← try_push_raw k c ms a None;
  if negb ok then ms ← dealloc_trap_context_slot ms slot; Some (ok, c, ms) else Some (ok, c, ms).

(** [areas[idx].append_to(..)], [prepend_to] *)
Definition update_area (ms : MemorySet) (idx : nat) (a : MapArea) : MemorySet :=
  ms {{ ms_areas := <[idx := a]> (ms_areas ms) }}.

Definition try_insert_lazy_area_raw (k : Kernel) (c : PageCache) (ms : MemorySet)
    (start_va end_va permission : Z) : option (bool * PageCache * MemorySet) :=
  let start := floor start_va in
  let end__ := ceil end_va in
  if end__ <=? start then Some (true, c, ms)
  else if concrete_range_overlaps k ms start_va end_va then Some (false, c, ms)
  else
    let same area := Area.is_lazy area && (ma_perm area =? permission) in
    match position (fun area => same area && (Area.end_vpn area =? start)) (ms_areas ms) with
    | Some idx =>
        a ← ms_areas ms !! idx;
        '(appended, c, pt, a) ← Area.append_to c (ms_page_table ms) a end__;
        let ms := (update_area ms idx a) {{ ms_page_table := pt }} in
        Some (appended, c, if appended : bool then ms {{ ms_areas := sort_map_areas (ms_areas ms) }} else ms)
    | None =>
        match position (fun area => same area && (Area.start_vpn area =? end__)) (ms_areas ms) with
        | Some idx =>
            a ← ms_areas ms !! idx;
            '(prepended, a) ← Area.prepend_to a start;
            let ms := update_area ms idx a in
            Some (prepended, c, if prepended : bool then ms {{ ms_areas := sort_map_areas (ms_areas ms) }} else ms)
        | None => a ← Area.new start_va end_va Lazy permission; try_push_raw k c ms a None
        end
    end.

Fixpoint map_shared_frames (c : PageCache) (pt : PageTable) (a : MapArea) (flags : Z)
    (pages : list (Z * Z)) : option (PageCache * PageTable * MapArea) :=
  match pages with
  | [] => Some (c, pt, a)
  | (vpn, frame) :: pages =>
      '(c, pt) ← pt_map c pt vpn frame flags;
      '(c, a) ← Area.insert_tracked_frame c a vpn frame;
      map_shared_frames c pt a flags pages
  end.

Definition is_mapped (m : Z -> list Z) (pt : PageTable) (vpn : Z) : bool :=
  match translate m pt vpn with Some pte => pte_is_valid pte | None => false end.

Definition try_insert_shared_frames_area_raw (k : Kernel) (c : PageCache) (ms : MemorySet)
    (start_va end_va permission : Z) (frames : list Z) : option (bool * PageCache * MemorySet) :=
  a ← Area.new start_va end_va Framed permission;
  let expected_pages := Area.page_count a in
  if expected_pages =? 0 then
    c ← drop_frames c frames; Some (bool_decide (frames = []), c, ms)
  else if negb (Z.of_nat (length frames) =? expected_pages) || concrete_range_overlaps k ms start_va end_va
          || existsb (is_mapped (mem c) (ms_page_table ms)) (Area.pages (ma_range a))
  then c ← drop_frames c frames; Some (false, c, ms)
  else
    '(c, pt, a) ← map_shared_frames c (ms_page_table ms) a (Z.lor (Area.area_flags a) PTEFlags.SHARED)
                    (zip (Area.pages (ma_range a)) frames);
    Some (true, c, push_mapped_raw (ms {{ ms_page_table := pt }}) a).

(** ** Unmapping *)

Definition opt_list {A} (o : option A) : list A := match o with Some x => [x] | None => [] end.

(** One area of [unmap_user_range]: what is left of it. *)
Definition unmap_from_area (c : PageCache) (pt : PageTable) (start_vpn end_vpn : Z) (a : MapArea)
    : option (PageCache * list MapArea) :=
  if negb (Area.contains_perm a MapPermission.U)
     || negb (Area.overlaps_vpn_range a start_vpn end_vpn) then Some (c, [a])
  else
    let ov_start := Z.max start_vpn (Area.start_vpn a) in
    let ov_end := Z.min end_vpn (Area.end_vpn a) in
    '(c, a) ← Area.unmap_range_maybe c pt a ov_start ov_end;
    '(lo, mid, hi) ← Area.split_around a ov_start ov_end;
    c ← drop_area c mid;
    Some (c, opt_list lo ++ opt_list hi).

Fixpoint unmap_from_areas (c : PageCache) (pt : PageTable) (start_vpn end_vpn : Z) (areas : list MapArea)
    : option (PageCache * list MapArea) :=
  match areas with
  | [] => Some (c, [])
  | a :: areas =>
      '(c, kept) ← unmap_from_area c pt start_vpn end_vpn a;
      '(c, rest) ← unmap_from_areas c pt start_vpn end_vpn areas;
      Some (c, kept ++ rest)
  end.

Definition vec_remove {A} (l : list A) (idx : nat) : list A := take idx l ++ drop (S idx) l.

Definition unmap_user_range (c : PageCache) (ms : MemorySet) (start_va end_va : Z)
    : option (PageCache * MemorySet) :=
  let start_vpn := floor start_va in
  let end_vpn := ceil end_va in
  if end_vpn <=? start_vpn then Some (c, ms)
  else
    match position (fun a => Area.contains_perm a MapPermission.U
                             && Area.has_exact_vpn_range a start_vpn end_vpn) (ms_areas ms) with
    | Some idx =>
        a ← ms_areas ms !! idx;
        '(c, a) ← Area.unmap c (ms_page_table ms) a;
        c ← drop_area c a;
        Some (c, ms {{ ms_areas := vec_remove (ms_areas ms) idx }})
    | None =>
        '(c, areas) ← unmap_from_areas c (ms_page_table ms) start_vpn end_vpn (ms_areas ms);
        Some (c, ms {{ ms_areas := sort_map_areas areas }})
    end.

(** [remove_area] and [remove_area_with_start_vpn] *)
Definition remove_area_where (c : PageCache) (ms : MemorySet) (p : MapArea -> bool)
    : option (PageCache * MemorySet) :=
  match position p (ms_areas ms) with
  | None => Some (c, ms)
  | Some idx =>
      a ← ms_areas ms !! idx;
      '(c, a) ← Area.unmap c (ms_page_table ms) a;
      c ← drop_area c a;
      Some (c, ms {{ ms_areas := vec_remove (ms_areas ms) idx }})
  end.
Definition remove_area (c : PageCache) (ms : MemorySet) (start_va end_va : Z)
    : option (PageCache * MemorySet) :=
  remove_area_where c ms (fun a => Area.has_exact_vpn_range a (floor start_va) (ceil end_va)).
Definition remove_area_with_start_vpn (c : PageCache) (ms : MemorySet) (start_va : Z)
    : option (PageCache * MemorySet) :=
  remove_area_where c ms (fun a => Area.start_vpn a =? floor start_va).

(** ** Protection *)

(** The part of [mprotect_user_range] for a page that is mapped, and for one that
    is not; [mid] is the part of the area in the range. *)
Definition mprotect_mapped (c : PageCache) (pt : PageTable) (mid : MapArea) (new_perm vpn pte : Z)
    : option (PageCache * PageTable * MapArea) :=
  if new_perm =? MapPermission.U then
    c ← pt_unmap c pt vpn; Some (c, pt, Area.save_pte_flags mid vpn (pte_flags pte))
  else
    let flags := pte_flags_for_mprotect new_perm (Some (pte_flags pte)) in
    let (_, mid) := Area.take_saved_pte_flags mid vpn in
    Some ((set_flags c pt vpn flags).2, pt, mid).

Definition mprotect_unmapped (c : PageCache) (pt : PageTable) (mid : MapArea) (new_perm vpn : Z)
    : option (PageCache * PageTable * MapArea) :=
  if new_perm =? MapPermission.U then Some (c, pt, mid)
  else
    match Area.tracked_frame mid vpn with
    | None => Some (c, pt, mid)
    | Some ppn =>
        let (old_flags, mid) := Area.take_saved_pte_flags mid vpn in
        '(c, pt) ← pt_map c pt vpn ppn (pte_flags_for_mprotect new_perm old_flags);
        Some (c, pt, mid)
    end.

Fixpoint mprotect_pages (c : PageCache) (pt : PageTable) (mid : MapArea) (new_perm : Z) (vpns : list Z)
    : option (PageCache * PageTable * MapArea) :=
  match vpns with
  | [] => Some (c, pt, mid)
  | vpn :: vpns =>
      '(c, pt, mid) ←
        match translate (mem c) pt vpn with
        | Some pte => if pte_is_valid pte then mprotect_mapped c pt mid new_perm vpn pte
                      else mprotect_unmapped c pt mid new_perm vpn
        | None => mprotect_unmapped c pt mid new_perm vpn
        end;
      mprotect_pages c pt mid new_perm vpns
  end.

Definition mprotect_area (c : PageCache) (pt : PageTable) (start_vpn end_vpn new_perm : Z) (a : MapArea)
    : option (PageCache * PageTable * list MapArea) :=
  if negb (Area.contains_perm a MapPermission.U)
     || negb (Area.overlaps_vpn_range a start_vpn end_vpn) then Some (c, pt, [a])
  else
    let ov_start := Z.max start_vpn (Area.start_vpn a) in
    let ov_end := Z.min end_vpn (Area.end_vpn a) in
    '(lo, mid, hi) ← Area.split_around a ov_start ov_end;
    r ← range_new ov_start ov_end;
    '(c, pt, mid) ← mprotect_pages c pt mid new_perm (Area.pages r);
    Some (c, pt, opt_list lo ++ [mid {{ ma_perm := new_perm }}] ++ opt_list hi).

Fixpoint mprotect_areas (c : PageCache) (pt : PageTable) (start_vpn end_vpn new_perm : Z)
    (areas : list MapArea) : option (PageCache * PageTable * list MapArea) :=
  match areas with
  | [] => Some (c, pt, [])
  | a :: areas =>
      '(c, pt, parts) ← mprotect_area c pt start_vpn end_vpn new_perm a;
      '(c, pt, rest) ← mprotect_areas c pt start_vpn end_vpn new_perm areas;
      Some (c, pt, parts ++ rest)
  end.

(** It always returns [true]. *)
Definition mprotect_user_range (c : PageCache) (ms : MemorySet) (start_va end_va new_perm : Z)
    : option (PageCache * MemorySet) :=
  '(c, pt, areas) ← mprotect_areas c (ms_page_table ms) (floor start_va) (ceil end_va) new_perm (ms_areas ms);
  Some (c, ms {{ ms_page_table := pt; ms_areas := sort_map_areas areas }}).

Definition set_pte_flags (c : PageCache) (ms : MemorySet) (vpn flags : Z) : bool * PageCache :=
  set_flags c (ms_page_table ms) vpn flags.

(** ** Moving *)

(** The pages of one area that move: unmapped, with what to map again where. *)
Fixpoint take_pages (c : PageCache) (pt : PageTable) (delta : Z) (vpns : list Z)
    : PageCache * option (list (Z * Z * Z)) :=
  match vpns with
  | [] => (c, Some [])
  | vpn :: vpns =>
      match translate (mem c) pt vpn with
      | Some pte =>
          if pte_is_valid pte then
            match shift_vpn_by_delta vpn delta with
            | None => (c, None)
            | Some new_vpn =>
                let '(c, rest) := take_pages (unmap_if_mapped c pt vpn).2 pt delta vpns in
                (c, cons (new_vpn, pte_ppn pte, pte_flags pte) <$> rest)
            end
          else take_pages c pt delta vpns
      | None => take_pages c pt delta vpns
      end
  end.

(** One area of [move_user_range_raw]: the pages to map again, the areas that
    stay and the part that moves. *)
Definition move_area (c : PageCache) (pt : PageTable) (start_vpn end_vpn delta : Z) (a : MapArea)
    : option (PageCache * option (list (Z * Z * Z) * list MapArea * MapArea)) :=
  let ov_start := Z.max start_vpn (Area.start_vpn a) in
  let ov_end := Z.min end_vpn (Area.end_vpn a) in
  r ← range_new ov_start ov_end;
  match take_pages c pt delta (Area.pages r) with
  | (c, None) => c ← drop_area c a; Some (c, None)
  | (c, Some ptes) =>
      '(lo, mid, hi) ← Area.split_around a ov_start ov_end;
      moved ← Area.move_by_delta mid delta;
      match moved with
      | None =>
          c ← drop_frames c (concat (map (fun a => bt_values (ma_frames a))
                               (opt_list lo ++ [mid] ++ opt_list hi)));
          Some (c, None)
      | Some moved => Some (c, Some (ptes, opt_list lo ++ opt_list hi, moved))
      end
  end.

(** The loop over the areas; [None] inside is the early [return false], which
    has dropped the area at hand and leaves the address space without areas. *)
Fixpoint move_areas (c : PageCache) (pt : PageTable) (start_vpn end_vpn delta : Z) (areas : list MapArea)
    (ptes : list (Z * Z * Z)) (kept moved : list MapArea)
    : option (PageCache * option (list (Z * Z * Z) * list MapArea * list MapArea)) :=
  match areas with
  | [] => Some (c, Some (ptes, kept, moved))
  | a :: areas =>
      if negb (Area.contains_perm a MapPermission.U)
         || negb (Area.overlaps_vpn_range a start_vpn end_vpn)
      then move_areas c pt start_vpn end_vpn delta areas ptes (vec_push kept a) moved
      else
        '(c, r) ← move_area c pt start_vpn end_vpn delta a;
        match r with
        | None =>
            c ← drop_frames c (concat (map (fun a => bt_values (ma_frames a)) (kept ++ moved ++ areas)));
            Some (c, None)
        | Some (ptes', rest, a') =>
            move_areas c pt start_vpn end_vpn delta areas (ptes ++ ptes') (kept ++ rest) (vec_push moved a')
        end
  end.

Fixpoint map_ptes (c : PageCache) (pt : PageTable) (ptes : list (Z * Z * Z)) : option (PageCache * PageTable) :=
  match ptes with
  | [] => Some (c, pt)
  | (vpn, ppn, flags) :: ptes => '(c, pt) ← pt_map c pt vpn ppn flags; map_ptes c pt ptes
  end.

Definition move_user_range_raw (c : PageCache) (ms : MemorySet) (old_start_va old_end_va new_start_va : Z)
    : option (bool * PageCache * MemorySet) :=
  let old_start_vpn := floor old_start_va in
  let old_end_vpn := ceil old_end_va in
  let delta := floor new_start_va - old_start_vpn in
  if old_end_vpn <=? old_start_vpn then Some (true, c, ms)
  else
    match shift_vpn_by_delta old_start_vpn delta, shift_vpn_by_delta old_end_vpn delta with
    | Some _, Some _ =>
        '(c, r) ← move_areas c (ms_page_table ms) old_start_vpn old_end_vpn delta (ms_areas ms) [] [] [];
        match r with
        | None => Some (false, c, ms {{ ms_areas := [] }})
        | Some (ptes, kept, moved) =>
            match moved with
            | [] => Some (false, c, ms {{ ms_areas := sort_map_areas kept }})
            | _ =>
                '(c, pt) ← map_ptes c (ms_page_table ms) ptes;
                Some (true, c, ms {{ ms_page_table := pt; ms_areas := sort_map_areas (kept ++ moved) }})
            end
        end
    | _, _ => Some (false, c, ms)
    end.

(** ** Discarding pages ([madvise(MADV_DONTNEED)]) *)

Fixpoint discard_lazy_areas (c : PageCache) (pt : PageTable) (start_vpn end_vpn : Z) (areas : list MapArea)
    : option (PageCache * list MapArea) :=
  match areas with
  | [] => Some (c, [])
  | a :: areas =>
      '(c, a) ←
        (if Area.is_lazy a && Area.contains_perm a MapPermission.U
            && Area.overlaps_vpn_range a start_vpn end_vpn
         then Area.unmap_range_maybe c pt a (Z.max start_vpn (Area.start_vpn a))
                (Z.min end_vpn (Area.end_vpn a))
         else Some (c, a));
      '(c, areas) ← discard_lazy_areas c pt start_vpn end_vpn areas;
      Some (c, a :: areas)
  end.

Definition discard_lazy_concrete_range (c : PageCache) (ms : MemorySet) (start_va end_va : Z)
    : option (PageCache * MemorySet) :=
  let start_vpn := floor start_va in
  let end_vpn := ceil end_va in
  if end_vpn <=? start_vpn then Some (c, ms)
  else
    '(c, areas) ← discard_lazy_areas c (ms_page_table ms) start_vpn end_vpn (ms_areas ms);
    Some (c, ms {{ ms_areas := areas }}).

Fixpoint discard_framed_areas (c : PageCache) (pt : PageTable) (start_vpn end_vpn permission : Z)
    (areas : list MapArea) : option (PageCache * list MapArea) :=
  match areas with
  | [] => Some (c, [])
  | a :: areas =>
      '(c, parts) ←
        (if negb (Area.contains_perm a MapPermission.U) || negb (bool_decide (ma_type a = Framed))
            || negb (ma_perm a =? permission) || negb (Area.overlaps_vpn_range a start_vpn end_vpn)
         then Some (c, [a])
         else
           let ov_start := Z.max start_vpn (Area.start_vpn a) in
           let ov_end := Z.min end_vpn (Area.end_vpn a) in
           '(lo, mid, hi) ← Area.split_around a ov_start ov_end;
           '(c, mid) ← Area.unmap c pt mid;
           c ← drop_area c mid;
           hole ← Area.new (page_to_addr ov_start) (page_to_addr ov_end) Lazy permission;
           Some (c, opt_list lo ++ [hole] ++ opt_list hi));
      '(c, rest) ← discard_framed_areas c pt start_vpn end_vpn permission areas;
      Some (c, parts ++ rest)
  end.

Definition discard_framed_concrete_to_lazy_range (c : PageCache) (ms : MemorySet)
    (start_va end_va permission : Z) : option (PageCache * MemorySet) :=
  let start_vpn := floor start_va in
  let end_vpn := ceil end_va in
  if end_vpn <=? start_vpn then Some (c, ms)
  else
    '(c, areas) ← discard_framed_areas c (ms_page_table ms) start_vpn end_vpn permission (ms_areas ms);
    Some (c, ms {{ ms_areas := sort_map_areas areas }}).

Definition discard_region (start end__ : Z) (st : PageCache * MemorySet) (region : VmRegion)
    : option (PageCache * MemorySet) :=
  let '(c, ms) := st in
  if r_shared region then Some (c, ms)
  else
    let s := virt_addr (Z.max start (r_start region)) in
    let e := virt_addr (Z.min end__ (end_ region)) in
    '(c, ms) ← (if bool_decide (r_map_type region = Lazy) || is_file_like region
                then discard_lazy_concrete_range c ms s e else Some (c, ms));
    if can_file_framed_refault region || can_zero_fill_framed_refault region then
      '(c, ms) ← discard_lazy_concrete_range c ms s e;
      discard_framed_concrete_to_lazy_range c ms s e (r_map_perm region)
    else Some (c, ms).

(** A left fold that stops at a panic. *)
Fixpoint foldl_opt {A B} (f : A -> B -> option A) (acc : A) (l : list B) : option A :=
  match l with
  | [] => Some acc
  | x :: l => acc ← f acc x; foldl_opt f acc l
  end.

Definition discard_madvise_dontneed_range (c : PageCache) (ms : MemorySet) (start_va end_va : Z)
    : option (PageCache * MemorySet) :=
  if end_va <=? start_va then Some (c, ms)
  else foldl_opt (discard_region start_va end_va) (c, ms) (snapshot_range (ms_vm_regions ms) start_va end_va).
