(* ===== verification/SpaceInv.v ===== *)
(** * What holds of an address space

    The areas of an address space are ordered and apart, their pages are user
    pages, and they track exactly the frames the page table maps user pages to.
    The frames of several address spaces lie side by side in one machine. *)

From S2P Require Import Prelude.
From S2P Require Import BTree.
From S2P Require Import Address.
From S2P Require Import FrameAlloc.
From S2P Require Import PageCache.
From S2P Require Import VmRegion.
From S2P Require Import PageTable.
From S2P Require Import MapArea.
From S2P Require Import World.
From S2P Require Import SpaceTable.
From S2P Require Import Backing.
From S2P Require Import MemorySet.

(** The page of [SIGRETURN_TRAMPOLINE]; the areas of a user end below it. *)
Definition TRAMPOLINES : Z := 134217726.

Definition area_before (a b : MapArea) : Prop := Area.end_vpn a <= Area.start_vpn b.
Definition area_keys (a : MapArea) : list Z := map fst (ma_frames a).
Definition area_values (a : MapArea) : list Z := bt_values (ma_frames a).

(** The trackers of the areas, and those of the mapping backings. *)
Definition area_frames (ms : MemorySet) : list Z := concat (map area_values (ms_areas ms)).
Definition backing_frames (ms : MemorySet) : list Z := concat (map (fun e => Backing.frames e.2) (ms_mmap_backings ms)).
Definition space_frames (ms : MemorySet) : list Z := area_frames ms ++ backing_frames ms.

Section Space.
Context (shared : Z -> Prop).

Definition user_page (vpn : Z) : Prop := user_vpn shared vpn /\ vpn < TRAMPOLINES.

Record area_ok (a : MapArea) : Prop := {
  ao_range : Area.start_vpn a < Area.end_vpn a;
  ao_pages : forall vpn, Area.start_vpn a <= vpn < Area.end_vpn a -> user_page vpn;
  ao_type : ma_type a <> Identical;
  ao_wf : bt_wf (ma_frames a);
  ao_keys : forall vpn, vpn ∈ area_keys a -> Area.start_vpn a <= vpn < Area.end_vpn a
}.

Record space_ok (m : Z -> list Z) (ms : MemorySet) : Prop := {
  so_areas : Forall area_ok (ms_areas ms);
  so_sorted : StronglySorted area_before (ms_areas ms);
  so_tracked : forall a vpn p, a ∈ ms_areas ms -> bt_get (ma_frames a) vpn = Some p ->
    pte_is_valid (pt_view m (pt_root_ppn (ms_page_table ms)) vpn) = true ->
    pte_ppn (pt_view m (pt_root_ppn (ms_page_table ms)) vpn) = p;
  so_valid : forall vpn, user_page vpn -> pte_is_valid (pt_view m (pt_root_ppn (ms_page_table ms)) vpn) = true ->
    exists a, a ∈ ms_areas ms /\
      bt_get (ma_frames a) vpn = Some (pte_ppn (pt_view m (pt_root_ppn (ms_page_table ms)) vpn))
}.

Lemma area_key_value a vpn p : (vpn, p) ∈ ma_frames a -> vpn ∈ area_keys a /\ p ∈ area_values a.
Proof. intros Hin. split; [by apply (list_elem_of_fmap_2 fst _ (vpn, p))|by apply (list_elem_of_fmap_2 snd _ (vpn, p))]. Qed.

Lemma area_keys_nodup a : area_ok a -> NoDup (area_keys a).
Proof.
  intros Ha. pose proof (ao_wf _ Ha) as Hwf. unfold area_keys, bt_wf in *.
  induction Hwf as [|k l _ IH Hall]; constructor; [|done].
  intros Hin. rewrite Forall_forall in Hall. apply Hall in Hin. by apply key_lt_neq in Hin.
Qed.

Lemma area_frames_elem ms a p : a ∈ ms_areas ms -> p ∈ area_values a -> p ∈ area_frames ms.
Proof. intros Ha Hp. apply elem_of_concat. exists (area_values a). split; [done|]. by apply (list_elem_of_fmap_2 area_values). Qed.

(** Pages of different areas are different. *)
Lemma before_keys a b vpn : area_ok a -> area_ok b -> area_before a b -> vpn ∈ area_keys a -> vpn ∉ area_keys b.
Proof. unfold area_before. intros Ha Hb Hab H1%(ao_keys _ Ha) H2%(ao_keys _ Hb). lia. Qed.

(** The invariant depends on the user part of the view only. *)
Lemma space_ok_view m m' ms :
  space_ok m ms ->
  (forall vpn, user_page vpn ->
     pte_is_valid (pt_view m' (pt_root_ppn (ms_page_table ms)) vpn) = pte_is_valid (pt_view m (pt_root_ppn (ms_page_table ms)) vpn) /\
     (pte_is_valid (pt_view m (pt_root_ppn (ms_page_table ms)) vpn) = true ->
      pte_ppn (pt_view m' (pt_root_ppn (ms_page_table ms)) vpn) = pte_ppn (pt_view m (pt_root_ppn (ms_page_table ms)) vpn))) ->
  space_ok m' ms.
Proof.
  intros [Sa Ss St Sv] Hv. split; [done..| |].
  - intros a vpn p Ha Hg Hval. rewrite Forall_forall in Sa. pose proof (Sa a Ha) as Hok.
    assert (user_page vpn) as Hu.
    { apply (ao_pages _ Hok), (ao_keys _ Hok). eapply area_key_value. by apply bt_get_in. }
    destruct (Hv vpn Hu) as [H1 H2]. rewrite H1 in Hval. rewrite H2 by done. eauto.
  - intros vpn Hu Hval. destruct (Hv vpn Hu) as [H1 H2]. rewrite H1 in Hval. rewrite H2 by done. auto.
Qed.

(** A user page belongs to one area. *)
Lemma space_area_unique m ms a b vpn :
  space_ok m ms -> a ∈ ms_areas ms -> b ∈ ms_areas ms -> Area.contains_vpn a vpn = true ->
  Area.contains_vpn b vpn = true -> a = b.
Proof.
  intros [Sa Ss _ _]. unfold Area.contains_vpn. rewrite !andb_true_iff, !Z.leb_le, !Z.ltb_lt.
  revert Sa Ss. generalize (ms_areas ms) as l. induction l as [|x l IH]; intros Sa Ss Ha Hb Hva Hvb.
  { by apply elem_of_nil in Ha. }
  apply Forall_cons in Sa as [Hx Sa]. apply StronglySorted_inv in Ss as [Ss Hall].
  rewrite Forall_forall in Hall. unfold area_before in Hall.
  apply elem_of_cons in Ha as [->|Ha], Hb as [->|Hb]; [done|..|auto].
  - apply Hall in Hb. lia.
  - apply Hall in Ha. lia.
Qed.

End Space.
