(* ===== verification/AreaProof.v ===== *)
(** * Mapping and unmapping the pages of an area

    [MapArea::map], [unmap] and their loops on a page table among others: each page
    gets a zeroed frame of its own, a failure undoes what was done, and no page
    outside the area changes. *)

From S2P Require Import Prelude.
From S2P Require Import BTree.
From S2P Require Import Address.
From S2P Require Import FrameAlloc.
From S2P Require Import PageCache.
From S2P Require Import VmRegion.
From S2P Require Import PageTable.
From S2P Require Import MapArea.
From S2P Require Import World.
From S2P Require Import SpaceTable.
From S2P Require Import Backing.
From S2P Require Import MemorySet.
From S2P Require Import SpaceInv.

Section AreaSteps.
Context (shared : Z -> Prop) (K : list Z).
Abbreviation table_in := (SpaceTable.table_in shared K).
Abbreviation user_vpn := (SpaceTable.user_vpn shared).
Abbreviation area_ok := (SpaceInv.area_ok shared).
Abbreviation view c pt vpn := (pt_view (mem c) (pt_root_ppn pt) vpn).

(** An area and the table its pages are in; [G] are the trackers of other data. *)
Record area_in (c : PageCache) (E G : list Z) (pt : PageTable) (a : MapArea) : Prop := {
  ai_table : table_in c E (area_values a ++ G) pt;
  ai_area : area_ok a;
  ai_ppn : forall vpn p, bt_get (ma_frames a) vpn = Some p -> pte_is_valid (view c pt vpn) = true -> pte_ppn (view c pt vpn) = p
}.

(** Operations on the pages [vpns] of an area: what they leave alone. *)
Record astep (c : PageCache) (E G : list Z) (pt : PageTable) (a : MapArea)
    (c' : PageCache) (E' : list Z) (pt' : PageTable) (a' : MapArea) (vpns : list Z) : Prop := {
  as_in : area_in c' E' G pt' a';
  as_area : a' = a {{ ma_frames := ma_frames a'; ma_saved := ma_saved a' }};
  as_evolves : evolves c c';
  as_root : pt_root_ppn pt' = pt_root_ppn pt;
  as_tables : exists new, E' ≡ₚ new ++ E /\ pt_frames pt' ≡ₚ new ++ pt_frames pt;
  as_keeps : forall q, q ∈ trackers c' G -> mem c' q = mem c q;
  as_others : forall q, q ∈ E -> q ∉ pt_frames pt -> mem c' q = mem c q;
  as_views : forall v, is_vpn v -> v ∉ vpns ->
    view c' pt' v = view c pt v /\ bt_get (ma_frames a') v = bt_get (ma_frames a) v /\
    (forall p, bt_get (ma_frames a) v = Some p -> mem c' p = mem c p);
  as_kernel : forall i, shared i -> is_index i -> pte_at (mem c') (pt_root_ppn pt) i = pte_at (mem c) (pt_root_ppn pt) i
}.

Lemma astep_refl c E G pt a vpns : area_in c E G pt a -> astep c E G pt a c E pt a vpns.
Proof. intros Hin. split; try done; [by destruct a|by exists []]. Qed.

Lemma astep_trans c E G pt a c1 E1 pt1 a1 v1 c2 E2 pt2 a2 v2 :
  astep c E G pt a c1 E1 pt1 a1 v1 -> astep c1 E1 G pt1 a1 c2 E2 pt2 a2 v2 ->
  astep c E G pt a c2 E2 pt2 a2 (v1 ++ v2).
Proof.
  intros [I1 A1 V1 R1 (n1 & HE1 & HF1) K1 O1 W1 Q1] [I2 A2 V2 R2 (n2 & HE2 & HF2) K2 O2 W2 Q2]. split.
  - done.
  - rewrite A2, A1. done.
  - by etrans.
  - congruence.
  - exists (n2 ++ n1). rewrite HE2, HE1, HF2, HF1, !app_assoc. done.
  - intros q Hq. rewrite K2 by done. apply K1. by eapply evolves_elem.
  - intros q Hq Hn. rewrite O2; [by apply O1|rewrite HE1; set_solver|].
    rewrite HF1, not_elem_of_app. split; [|done]. intros Hnew.
    pose proof (wk_nodup _ _ _ (ti_world _ _ _ _ _ _ (ai_table _ _ _ _ _ I1))) as Hnd. rewrite HE1 in Hnd.
    destruct (proj1 (NoDup_app _ _) Hnd) as (_ & Hd & _). by apply (Hd q).
  - intros v Hv. rewrite not_elem_of_app. intros [Hv1 Hv2]. destruct (W1 v Hv Hv1) as (H1 & H2 & H3).
    destruct (W2 v Hv Hv2) as (H4 & H5 & H6). rewrite H4, H5, H1, H2. split_and!; [done..|].
    intros p Hp. rewrite H6 by (by rewrite H2). auto.
  - intros i Hi Hx. rewrite <- R1, Q2, R1 by done. by apply Q1.
Qed.

Lemma astep_weaken c E G pt a c' E' pt' a' vpns vpns' :
  astep c E G pt a c' E' pt' a' vpns -> (forall v, v ∈ vpns -> v ∈ vpns') -> astep c E G pt a c' E' pt' a' vpns'.
Proof. intros [I1 A1 V1 R1 F1 K1 O1 W1 Q1] Hsub. split; try done. intros v Hv Hn. apply W1; auto. Qed.

(** ** One page *)

Lemma forget_page_ok c E G pt a vpn :
  area_in c E G pt a ->
  exists c1, Area.forget_page c a vpn =
      Some (c1, a {{ ma_frames := bt_remove (ma_frames a) vpn; ma_saved := bt_remove (ma_saved a) vpn }}) /\
    world_ok c1 E (bt_values (bt_remove (ma_frames a) vpn) ++ G) /\ evolves c c1 /\ mem c1 = mem c.
Proof.
  intros [[W _ _ _] Hok _]. unfold Area.forget_page, Area.remove_frame.
  assert (Area.is_identical a = false) as -> by (apply bool_decide_eq_false, (ao_type _ _ Hok)).
  destruct (bt_get (ma_frames a) vpn) as [p|] eqn:Eg.
  - assert (world_ok c E (p :: bt_values (bt_remove (ma_frames a) vpn) ++ G)) as W1.
    { eapply world_perm; [done| |exact W]. unfold area_values. by rewrite (values_remove _ _ _ Eg). }
    destruct (drop_frame_world _ _ _ _ W1) as (c1 & -> & W2 & V2 & M2 & _). cbn. by exists c1.
  - cbn. exists c. rewrite (bt_remove_absent _ _ Eg). split_and!; [by destruct a|done..].
Qed.

Lemma removed_area_ok a vpn (a' := a {{ ma_frames := bt_remove (ma_frames a) vpn; ma_saved := bt_remove (ma_saved a) vpn }}) :
  area_ok a -> area_ok a'.
Proof.
  intros [Ar Ap At Aw Ak]. split; try done; [by apply bt_wf_remove|].
  intros v ([v' p] & -> & Hin)%list_elem_of_fmap. apply Ak. eapply area_key_value. exact (bt_remove_sub _ _ _ Hin).
Qed.

(** An area that has changed its frame for a page, and a page table its entry for
    the page; a tracker may be dropped in the end. *)
Lemma page_astep c E G pt a c1 a1 F1 c2 pt2 new c3 vpn v :
  area_in c E G pt a -> area_ok a1 -> a1 = a {{ ma_frames := ma_frames a1; ma_saved := ma_saved a1 }} ->
  evolves c c1 -> (forall q, q ∈ E -> mem c1 q = mem c q) ->
  (forall w p, w <> vpn -> bt_get (ma_frames a) w = Some p -> mem c1 p = mem c p) ->
  (forall q, q ∈ trackers c1 G -> mem c1 q = mem c q) ->
  (forall w, w <> vpn -> bt_get (ma_frames a1) w = bt_get (ma_frames a) w) ->
  tstep shared K c1 E F1 pt c2 pt2 new -> view_set (mem c1) (pt_root_ppn pt) vpn v (mem c2) ->
  (forall q, q ∈ area_values a1 ++ G -> q ∈ F1) -> evolves c2 c3 -> mem c3 = mem c2 -> world_ok c3 (new ++ E) (area_values a1 ++ G) ->
  (forall p, bt_get (ma_frames a1) vpn = Some p -> pte_is_valid v = true -> pte_ppn v = p) -> is_vpn vpn ->
  astep c E G pt a c3 (new ++ E) pt2 a1 [vpn] /\ view c3 pt2 vpn = v.
Proof.
  intros Hin Hok1 Ha1 V1 ME Md MG Hg Ht Hvs HF1 V3 M3 W3 Hpv Hvpn. pose proof Hin as [HT Hok Hp]. rewrite M3.
  destruct (table_agree _ _ _ _ _ (ti_table _ _ _ _ _ _ HT) (fun q Hq => ME q (ti_sub _ _ _ _ _ _ HT q Hq))) as (_ & Hv1 & _).
  assert (forall w, is_vpn w -> view c2 pt2 w = if w =? vpn then v else view c pt w) as Hview.
  { intros w Hw. rewrite (ts_root _ _ _ _ _ _ _ _ _ Ht), Hvs by done. by rewrite Hv1. }
  assert (forall q, q ∈ trackers c3 (area_values a1 ++ G) -> mem c2 q = mem c1 q) as Hmd.
  { intros q Hq. apply (ts_mem _ _ _ _ _ _ _ _ _ Ht). eapply data_kept; [apply Ht|]. eapply evolves_elem in Hq; [|exact V3].
    unfold trackers in *. rewrite elem_of_app in Hq |- *. destruct Hq as [Hq|Hq]; [left; by apply HF1|by right]. }
  split; [|by rewrite Hview, Z.eqb_refl].
  pose proof (ts_in _ _ _ _ _ _ _ _ _ Ht) as [_ Tt Ts Td].
  split; rewrite ?M3; [split; rewrite ?M3; [by split; rewrite ?M3|done|]|done|etrans; [exact V1|etrans; [apply Ht|done]]|apply Ht| | | | |].
  - intros w p Hw Hval. assert (is_vpn w) as Hwv.
    { apply (ao_pages _ _ Hok1), (ao_keys _ _ Hok1). eapply area_key_value. by apply bt_get_in. }
    rewrite Hview in * by done. destruct (w =? vpn) eqn:Ew; [assert (w = vpn) as -> by lia; by apply Hpv|].
    rewrite Hg in Hw by lia. by apply Hp.
  - exists new. split; [done|]. rewrite (ts_frames _ _ _ _ _ _ _ _ _ Ht). apply Permutation_app_comm.
  - intros q Hq. rewrite Hmd by (rewrite trackers_app; apply elem_of_app; by right). apply MG. eapply evolves_elem; [etrans; [apply Ht|exact V3]|done].
  - intros q Hq Hn. rewrite (ts_mem _ _ _ _ _ _ _ _ _ Ht); [by apply ME|]. rewrite (ts_frames _ _ _ _ _ _ _ _ _ Ht), not_elem_of_app.
    split; [done|]. intros Hnew. pose proof (wk_nodup _ _ _ W3) as Hnd. destruct (proj1 (NoDup_app _ _) Hnd) as (_ & Hd & _). by apply (Hd q).
  - intros w Hw Hne. rewrite not_elem_of_cons in Hne. destruct Hne as [Hne _]. rewrite Hview, Hg by done.
    destruct (w =? vpn) eqn:Ew; [lia|]. split_and!; [done..|]. intros p Hgw. rewrite Hmd; [by eapply Md|].
    apply trackers_here, elem_of_app. left. eapply area_key_value. apply bt_get_in. by rewrite Hg.
  - intros i Hi Hx. rewrite (ts_kernel _ _ _ _ _ _ _ _ _ Ht) by done. unfold pte_at. rewrite ME; [done|].
    apply (ti_sub _ _ _ _ _ _ HT), elem_of_app. left. apply HT.
Qed.

(** [unmap_one_maybe]: whatever was there, the page is gone. *)
Lemma unmap_one_maybe_ok c E G pt a vpn :
  area_in c E G pt a -> Area.start_vpn a <= vpn < Area.end_vpn a ->
  exists c' a', Area.unmap_one_maybe c pt a vpn = Some (c', a') /\ astep c E G pt a c' E pt a' [vpn] /\
    pte_is_valid (view c' pt vpn) = false /\ bt_get (ma_frames a') vpn = None.
Proof.
  intros Hin Hr. pose proof Hin as [HT Hok Hp]. unfold Area.unmap_one_maybe.
  destruct (forget_page_ok _ _ _ _ _ vpn Hin) as (c1 & -> & W1 & V1 & M1). cbn [mbind option_bind].
  destruct (ao_pages _ _ Hok vpn Hr) as [Hu _].
  set (a1 := a {{ ma_frames := bt_remove (ma_frames a) vpn; ma_saved := bt_remove (ma_saved a) vpn }}).
  assert (table_in c1 E (area_values a1 ++ G) pt) as HT1 by (eapply table_in_data; [exact HT|exact W1|by rewrite M1]).
  pose proof (update_leaf_tstep shared K c1 E _ pt vpn (fun _ => pte_empty) HT1 Hu ltac:(intros; unfold is_pte, pte_empty; lia)) as Hup.
  cbv zeta in Hup. unfold unmap_if_mapped. destruct (update_leaf c1 pt vpn _) as [ok c2]. destruct Hup as (-> & Ht & Hvs). cbn [snd].
  assert (forall v, bt_get (ma_frames a1) v = if key_eqb v vpn then None else bt_get (ma_frames a) v) as Hg
    by (intros v; apply bt_get_remove, (ao_wf _ _ Hok)).
  exists c2, a1. split; [done|]. 
  destruct (page_astep c E G pt a c1 a1 (area_values a1 ++ G) c2 pt [] c2 vpn (if pte_is_valid (view c1 pt vpn) then pte_empty else view c1 pt vpn) Hin) as [Hs Hvn]; try done.
  - by apply removed_area_ok.
  - by rewrite M1.
  - by rewrite M1.
  - by rewrite M1.
  - intros w Hw. by rewrite Hg, (proj2 (key_eqb_neq w vpn)).
  - apply Ht.
  - intros p. by rewrite Hg, key_eqb_refl.
  - apply Hu.
  - split_and!; [done| |by rewrite Hg, key_eqb_refl]. rewrite Hvn. by destruct (pte_is_valid (view c1 pt vpn)) eqn:Ev.
Qed.

(** A step keeps the range of an area. *)
Lemma astep_range c E G pt a c' E' pt' a' vpns : astep c E G pt a c' E' pt' a' vpns ->
  Area.start_vpn a' = Area.start_vpn a /\ Area.end_vpn a' = Area.end_vpn a /\ Area.area_flags a' = Area.area_flags a /\
  ma_type a' = ma_type a /\ ma_range a' = ma_range a.
Proof. intros Hs. by rewrite (as_area _ _ _ _ _ _ _ _ _ _ Hs). Qed.

Lemma unmap_pages_maybe_ok vpns c E G pt a :
  area_in c E G pt a -> (forall v, v ∈ vpns -> Area.start_vpn a <= v < Area.end_vpn a) ->
  exists c' a', Area.unmap_pages_maybe c pt a vpns = Some (c', a') /\ astep c E G pt a c' E pt a' vpns /\
    (forall v, v ∈ vpns -> pte_is_valid (view c' pt v) = false /\ bt_get (ma_frames a') v = None).
Proof.
  revert c a. induction vpns as [|vpn vpns IH]; intros c a Hin Hr; cbn [Area.unmap_pages_maybe].
  { exists c, a. split_and!; [done|by apply astep_refl|by intros v ?%elem_of_nil]. }
  destruct (unmap_one_maybe_ok c E G pt a vpn Hin ltac:(apply Hr; left)) as (c1 & a1 & -> & S1 & V1 & B1). cbn [mbind option_bind].
  destruct (astep_range _ _ _ _ _ _ _ _ _ _ S1) as (R1 & R2 & _).
  destruct (IH c1 a1 (as_in _ _ _ _ _ _ _ _ _ _ S1)) as (c2 & a2 & -> & S2 & H2).
  { intros v Hv. rewrite R1, R2. apply Hr. by right. }
  exists c2, a2. split_and!; [done|by apply (astep_trans _ _ _ _ _ _ _ _ _ [vpn] _ _ _ _ vpns S1 S2)|].
  intros v Hv. destruct (decide (v ∈ vpns)) as [Hin2|Hn2]; [by apply H2|].
  apply elem_of_cons in Hv as [->|?]; [|done].
  assert (is_vpn vpn) as Hvpn by (apply (ao_pages _ _ (ai_area _ _ _ _ _ Hin)), Hr; left).
  destruct (as_views _ _ _ _ _ _ _ _ _ _ S2 vpn Hvpn Hn2) as (-> & -> & _). done.
Qed.

(** Unmapping only drops trackers. *)
Lemma unmap_pages_values vpns c pt a c' a' :
  Area.unmap_pages_maybe c pt a vpns = Some (c', a') -> area_values a' ⊆+ area_values a.
Proof.
  revert c a. induction vpns as [|v vs IH]; intros c a; cbn [Area.unmap_pages_maybe]; [by intros [= <- <-]|].
  unfold Area.unmap_one_maybe, Area.forget_page, Area.remove_frame.
  assert (forall a1 : MapArea, ma_frames a1 = bt_remove (ma_frames a) v \/ ma_frames a1 = ma_frames a -> area_values a1 ⊆+ area_values a) as Hsub.
  { intros a1 [H1|H1]; unfold area_values, bt_values; rewrite H1; [|done]. apply (fmap_submseteq snd), sublist_submseteq, bt_remove_sublist. }
  destruct (Area.is_identical a); cbn [mbind option_bind].
  - intros H%IH. etrans; [exact H|]. apply Hsub. by right.
  - destruct (bt_get (ma_frames a) v) as [p|]; cbn [mbind option_bind].
    + destruct (drop_frame c p) as [c1|]; cbn [mbind option_bind]; [|done]. intros H%IH. etrans; [exact H|]. apply Hsub. by left.
    + intros H%IH. etrans; [exact H|]. apply Hsub. by right.
Qed.

(** A page that [map_one] mapped: a zeroed frame nobody else has. *)
Definition page_mapped (c : PageCache) (G : list Z) (pt : PageTable) (a : MapArea) (v : Z) : Prop :=
  exists p, bt_get (ma_frames a) v = Some p /\ is_ppn p /\
    view c pt v = pte_new p (Z.lor (Area.area_flags a) PTEFlags.V) /\ mem c p = Tracker.zero_page /\ p ∉ trackers c G.

Lemma inserted_area_ok a vpn p (a' := a {{ ma_frames := bt_insert (ma_frames a) vpn p }}) :
  area_ok a -> Area.start_vpn a <= vpn < Area.end_vpn a -> area_ok a'.
Proof.
  intros [Ar Ap At Aw Ak] Hr. split; try done; [by apply bt_wf_insert|].
  intros v ([v' q] & -> & Hin)%list_elem_of_fmap. apply bt_insert_elem_iff in Hin as [[-> _]|[_ Hin]]; [done| |done].
  apply Ak. by eapply area_key_value.
Qed.

Lemma area_flags_ok a : is_flags (Area.area_flags a).
Proof. unfold is_flags, Area.area_flags, PTEFlags.from. repeat case_match; done. Qed.

Lemma map_one_ok c E G pt a vpn :
  area_in c E G pt a -> ma_type a = Framed -> Area.start_vpn a <= vpn < Area.end_vpn a ->
  bt_get (ma_frames a) vpn = None -> pte_is_valid (view c pt vpn) = false ->
  has_room c (E ++ area_values a ++ G) 3 ->
  match Area.map_one c pt a vpn with
  | Some (true, c', pt', a') => exists E', astep c E G pt a c' E' pt' a' [vpn] /\ page_mapped c' G pt' a' vpn /\
      (length E' <= length E + 2)%nat /\ (length (area_values a') <= length (area_values a) + 1)%nat /\
      (NoDup (area_values a) -> NoDup (area_values a'))
  | Some (false, c', pt', a') => c' = c /\ pt' = pt /\ a' = a /\ exhausted c
  | None => exhausted c
  end.
Proof.
  intros Hin Hty Hr Hg Hv Hroom. pose proof Hin as [HT Hok Hp]. unfold Area.map_one. rewrite Hty.
  destruct (ao_pages _ _ Hok vpn Hr) as [Hu _].
  pose proof (frame_alloc_world c E (area_values a ++ G) (ti_world _ _ _ _ _ _ HT) ltac:(unfold has_room in *; lia)) as Ha.
  destruct (frame_alloc c) as [[[p|] c1]|]; cbn [mbind option_bind]; [|by destruct Ha as [-> ?]|done].
  destruct Ha as (V1 & W1 & _ & HpT & HpE & Hpp & Hz & M1). unfold Area.insert_tracked_frame. rewrite Hg. cbn [mbind option_bind].
  set (a1 := a {{ ma_frames := bt_insert (ma_frames a) vpn p }}).
  assert (area_values a1 ≡ₚ p :: area_values a) as Hav by (by apply values_insert; [apply Hok|]).
  rewrite not_elem_of_app in HpE. destruct HpE as [HpE HpF]. rewrite trackers_app, not_elem_of_app in HpT. destruct HpT as [_ HpT].
  assert (table_in c1 E (area_values a1 ++ G) pt) as HT1.
  { eapply table_in_data; [exact HT| |intros q Hq; apply M1; by intros ->].
    eapply world_perm; [done| |exact W1]. by rewrite Hav. }
  assert (has_room c1 (E ++ area_values a1 ++ G) 2) as Hr1.
  { eapply has_room_evolves; [exact V1|exact Hroom|]. rewrite !length_app, Hav. cbn. lia. }
  destruct (table_agree _ _ _ _ _ (ti_table _ _ _ _ _ _ HT) (fun q Hq => M1 q (fun Heq => HpE (eq_ind _ (fun x => x ∈ E) (ti_sub _ _ _ _ _ _ HT q Hq) _ Heq)))) as (_ & Hv1 & _).
  pose proof (map_tstep shared K c1 E _ pt vpn p (Area.area_flags a1) HT1 Hr1 Hu Hpp (area_flags_ok a1)) as Hm.
  destruct (pt_map c1 pt vpn p (Area.area_flags a1)) as [[c2 pt2]|]; cbn [mbind option_bind].
  2: { destruct Hm as [Hm|Hm]; [rewrite Hv1, Hv in Hm; discriminate Hm|by eapply exhausted_after]. }
  destruct Hm as (new & Ht & Hl & _ & Hvs). destruct (pte_new_spec p _ Hpp (leaf_flags _ (area_flags_ok a1))) as (_ & Hpn & _).
  assert (forall w, bt_get (ma_frames a1) w = if key_eqb w vpn then Some p else bt_get (ma_frames a) w) as Hg1 by (intros; apply bt_get_insert).
  assert (forall w q, bt_get (ma_frames a) w = Some q -> q <> p) as Hdiff.
  { intros w q Hw ->. apply HpF, elem_of_app. left. eapply area_key_value. by apply bt_get_in. }
  destruct (page_astep c E G pt a c1 a1 (area_values a1 ++ G) c2 pt2 new c2 vpn (pte_new p (Z.lor (Area.area_flags a1) PTEFlags.V)) Hin) as [Hs Hvn]; try done.
  - by apply inserted_area_ok.
  - intros q Hq. apply M1. by intros ->.
  - intros w q _ Hw. apply M1. by eapply Hdiff.
  - intros q Hq. apply M1. intros ->. apply HpT. rewrite trackers_app. apply elem_of_app. by right.
  - intros w Hw. by rewrite Hg1, (proj2 (key_eqb_neq w vpn)).
  - apply Ht.
  - intros q. rewrite Hg1, key_eqb_refl. intros [= <-] _. done.
  - apply Hu.
  - exists (new ++ E). split_and!; [done| |rewrite length_app; lia|rewrite Hav; cbn; lia|].
    + exists p. rewrite Hg1, key_eqb_refl. split_and!; [done..| |].
      * rewrite (ts_mem _ _ _ _ _ _ _ _ _ Ht); [done|]. eapply data_kept; [apply Ht|].
        apply trackers_here, elem_of_app. left. rewrite Hav. left.
      * intros Hq. apply HpT. rewrite trackers_app. apply elem_of_app. right. eapply evolves_elem; [apply Ht|done].
    + rewrite Hav. intros Hnd. constructor; [|done]. intros Hq. apply HpF, elem_of_app. by left.
Qed.

(** Later steps on other pages keep a mapped page. *)
Lemma page_mapped_kept c E G pt a c' E' pt' a' vpns v :
  astep c E G pt a c' E' pt' a' vpns -> is_vpn v -> v ∉ vpns ->
  page_mapped c G pt a v -> page_mapped c' G pt' a' v.
Proof.
  intros Hs Hv Hn (p & H1 & H2 & H3 & H4 & H5). destruct (as_views _ _ _ _ _ _ _ _ _ _ Hs v Hv Hn) as (Hw & Hg & Hm).
  destruct (astep_range _ _ _ _ _ _ _ _ _ _ Hs) as (_ & _ & Hfl & _).
  exists p. rewrite Hw, Hg, Hfl, Hm by done. split_and!; try done. intros Hq. apply H5. eapply evolves_elem; [apply Hs|done].
Qed.

Definition untouched (c : PageCache) (pt : PageTable) (a : MapArea) (v : Z) : Prop :=
  bt_get (ma_frames a) v = None /\ pte_is_valid (view c pt v) = false.

(** The loop: every page mapped, or every page unmapped again. *)
Lemma map_pages_ok vpns c E G pt a mapped :
  area_in c E G pt a -> ma_type a = Framed ->
  (forall v, v ∈ mapped ++ vpns -> Area.start_vpn a <= v < Area.end_vpn a) -> NoDup vpns ->
  (forall v, v ∈ vpns -> v ∉ mapped /\ untouched c pt a v) ->
  has_room c (E ++ area_values a ++ G) (3 * Z.of_nat (length vpns)) ->
  match Area.map_pages c pt a mapped vpns with
  | Some (true, c', pt', a') => exists E', astep c E G pt a c' E' pt' a' vpns /\
      (forall v, v ∈ vpns -> page_mapped c' G pt' a' v) /\ (NoDup (area_values a) -> NoDup (area_values a'))
  | Some (false, c', pt', a') => exists E', astep c E G pt a c' E' pt' a' (vpns ++ mapped) /\
      (forall v, v ∈ vpns ++ mapped -> untouched c' pt' a' v) /\ exhausted c
  | None => exhausted c
  end.
Proof.
  revert c E pt a mapped. induction vpns as [|v vs IH]; intros c E pt a mapped Hin Hty Hr Hnd Hun Hroom; cbn [Area.map_pages].
  { exists E. split_and!; [by apply astep_refl|by intros w ?%elem_of_nil|done]. }
  apply NoDup_cons in Hnd as [Hv Hnd]. destruct (Hun v ltac:(left)) as [_ [Hg Hval]].
  pose proof (map_one_ok c E G pt a v Hin Hty ltac:(apply Hr, elem_of_app; right; left) Hg Hval) as Hm.
  specialize (Hm ltac:(cbn in Hroom; unfold has_room in *; lia)).
  assert (forall w, w ∈ mapped ++ v :: vs -> is_vpn w) as Hvpn by (intros w Hw; by apply (ao_pages _ _ (ai_area _ _ _ _ _ Hin)), Hr).
  destruct (Area.map_one c pt a v) as [[[[[] c1] pt1] a1]|]; cbn [mbind option_bind]; [| |done].
  - destruct Hm as (E1 & S1 & P1 & L1 & L2 & N1). destruct (astep_range _ _ _ _ _ _ _ _ _ _ S1) as (R1 & R2 & _ & R3 & _).
    assert (forall w, w ∈ vs -> w ∉ [v]) as Hne by (intros w Hw ->%list_elem_of_singleton; done).
    pose proof (IH c1 E1 pt1 a1 (vec_push mapped v) (as_in _ _ _ _ _ _ _ _ _ _ S1) ltac:(congruence)) as Hrec.
    unfold vec_push in *. ospecialize* Hrec.
    + intros w Hw. rewrite R1, R2. apply Hr. rewrite <- app_assoc in Hw. done.
    + done.
    + intros w Hw. destruct (Hun w ltac:(by right)) as [Hnm [Hgw Hvw]]. split; [rewrite not_elem_of_app; by split; [|apply Hne]|].
      destruct (as_views _ _ _ _ _ _ _ _ _ _ S1 w ltac:(apply Hvpn, elem_of_app; right; by right) (Hne w Hw)) as (Hw1 & Hw2 & _).
      unfold untouched. by rewrite Hw1, Hw2.
    + eapply has_room_evolves; [apply S1|exact Hroom|]. rewrite !length_app. cbn. lia.
    + destruct (Area.map_pages c1 pt1 a1 (mapped ++ [v]) vs) as [[[[[] c2] pt2] a2]|].
      * destruct Hrec as (E2 & S2 & P2 & N2). exists E2. split_and!; [exact (astep_trans _ _ _ _ _ _ _ _ _ [v] _ _ _ _ vs S1 S2)| |auto].
        intros w [->|Hw]%elem_of_cons; [|by apply P2]. eapply page_mapped_kept; [exact S2| |exact Hv|exact P1].
        apply Hvpn, elem_of_app. right. left.
      * destruct Hrec as (E2 & S2 & P2 & X2). exists E2. assert (forall w, w ∈ (v :: vs) ++ mapped <-> w ∈ vs ++ mapped ++ [v]) as Hperm
          by (intros w; rewrite !elem_of_app, elem_of_cons, list_elem_of_singleton; tauto).
        split_and!; [|by intros w ?%Hperm; apply P2|eapply exhausted_after; [apply S1|done]].
        eapply astep_weaken; [exact (astep_trans _ _ _ _ _ _ _ _ _ [v] _ _ _ _ _ S1 S2)|].
        intros w [Hw|Hw]%elem_of_app; apply Hperm; [|done]. rewrite !elem_of_app. auto.
      * eapply exhausted_after; [apply S1|done].
  - destruct Hm as (-> & -> & -> & Hx).
    destruct (unmap_pages_maybe_ok mapped c E G pt a Hin) as (c2 & a2 & -> & S2 & P2).
    { intros w Hw. apply Hr, elem_of_app. by left. }
    cbn [mbind option_bind]. exists E. split_and!; [| |done].
    + eapply astep_weaken; [exact S2|]. intros w Hw. apply elem_of_app. by right.
    + intros w Hw. destruct (decide (w ∈ mapped)) as [Hwm|Hwm]; [destruct (P2 w Hwm); by split|].
      apply elem_of_app in Hw as [Hw|?]; [|done]. destruct (Hun w Hw) as [_ [Hgw Hvw]].
      destruct (as_views _ _ _ _ _ _ _ _ _ _ S2 w ltac:(apply Hvpn, elem_of_app; by right) Hwm) as (Hw1 & Hw2 & _).
      unfold untouched. by rewrite Hw1, Hw2.
Qed.

End AreaSteps.
