(* ===== verification/NewSpace.v ===== *)
(** * New address spaces

    [MemorySet::new_bare] and the mappings every address space starts with: the
    trampolines, and the root entries that lead to the kernel's tables.  The
    tables of the kernel are shared by all, and stay as they are. *)

From S2P Require Import Prelude.
From S2P Require Import BTree.
From S2P Require Import Ids.
From S2P Require Import Address.
From S2P Require Import FrameAlloc.
From S2P Require Import PageCache.
From S2P Require Import VmRegion.
From S2P Require Import VmRegionSet.
From S2P Require Import PageTable.
From S2P Require Import MapArea.
From S2P Require Import World.
From S2P Require Import SpaceTable.
From S2P Require Import Backing.
From S2P Require Import MemorySet.
From S2P Require Import SpaceInv.

(** The entries of the root that are the kernel's. *)
Definition kernel_roots (k : Kernel) : list Z :=
  root_indexes (riscv_kernel_direct_root_range k) ++ root_indexes riscv_kernel_stack_root_range.
Definition kernel_index (k : Kernel) (i : Z) : Prop := i ∈ kernel_roots k.
#[export] Instance kernel_index_dec k i : Decision (kernel_index k i).
Proof. unfold kernel_index. apply _. Defined.

(** What the kernel's own page table provides: a tree of tables, with an entry in
    the root for each range it shares, none of them the last one, where the
    trampolines are. *)
Record kernel_ok (k : Kernel) (m : Z -> list Z) : Prop := {
  ko_tree : pt_tree m (pt_root_ppn (kn_page_table k)) (pt_frames (kn_page_table k));
  ko_root : forall i, kernel_index k i ->
    0 <= i < 511 /\ is_pte (pte_at m (pt_root_ppn (kn_page_table k)) i) /\
    pte_is_valid (pte_at m (pt_root_ppn (kn_page_table k)) i) = true;
  ko_trampoline : exists ppn, addr_to_page (phys_addr (kn_strampoline k)) = Some ppn /\ is_ppn ppn
}.

Lemma kernel_agree k m m' :
  kernel_ok k m -> (forall q, q ∈ pt_frames (kn_page_table k) -> m' q = m q) -> kernel_ok k m'.
Proof.
  intros [Kt Kr Ks] Hm. split; [by eapply tree_agree| |done]. intros i Hi. unfold pte_at.
  rewrite Hm by (by apply (tree_in _ _ _ Kt [] _ path_nil)). by apply Kr.
Qed.

Section NewSpace.
Context (k : Kernel).
Abbreviation K := (pt_frames (kn_page_table k)).
Abbreviation kroot := (pt_root_ppn (kn_page_table k)).
Abbreviation table_in := (SpaceTable.table_in (kernel_index k) K).
Abbreviation table_ok := (SpaceTable.table_ok (kernel_index k) K).
Abbreviation user_vpn := (SpaceTable.user_vpn (kernel_index k)).
Abbreviation user_page := (SpaceInv.user_page (kernel_index k)).
Abbreviation view c pt vpn := (pt_view (mem c) (pt_root_ppn pt) vpn).

(** The kernel's part of a root: the kernel's entry, or nothing yet. *)
Definition kernel_linked (m : Z -> list Z) (pt : PageTable) : Prop :=
  forall i, kernel_index k i ->
    pte_at m (pt_root_ppn pt) i = pte_at m kroot i \/ pte_is_valid (pte_at m (pt_root_ppn pt) i) = false.

Lemma kernel_root_in m : kernel_ok k m -> kroot ∈ K.
Proof. intros [Kt _ _]. by apply (tree_in _ _ _ Kt [] _ path_nil). Qed.

(** A shared entry leads where the kernel's leads. *)
Lemma linked_node m pt i p :
  pte_at m (pt_root_ppn pt) i = pte_at m kroot i -> node m (pt_root_ppn pt) (i :: p) = node m kroot (i :: p).
Proof. intros Heq. unfold node. cbn. unfold next_table at 2 4. by rewrite Heq. Qed.

Section Share.
Context (c : PageCache) (E F : list Z) (pt : PageTable) (i : Z).
Abbreviation root := (pt_root_ppn pt).
Abbreviation src := (pte_at (mem c) kroot i).
Abbreviation m' := (set_pte (mem c) root i src).
Hypothesis Hk : kernel_ok k (mem c).
Hypothesis Hin : table_in c E F pt.
Hypothesis Hl : kernel_linked (mem c) pt.
Hypothesis Hi : kernel_index k i.
Hypothesis Hinv : pte_is_valid (pte_at (mem c) root i) = false.

Lemma share_index : is_index i.
Proof. destruct (ko_root _ _ Hk i Hi) as [? _]. unfold is_index. lia. Qed.

Lemma share_root_own : root ∈ pt_frames pt /\ root ∉ K.
Proof.
  destruct Hin as [_ T _ Hs]. pose proof (to_root _ _ _ _ T) as Hr. split; [done|]. intros HK. by apply (Hs _ HK).
Qed.

Lemma share_mem q : q ∈ K -> m' q = mem c q.
Proof. intros Hq. apply set_page_ne. intros ->. by apply share_root_own. Qed.

Lemma share_root_pte j : is_index j -> pte_at m' root j = if j =? i then src else pte_at (mem c) root j.
Proof.
  intros Hj. destruct (ko_root _ _ Hk i Hi) as (_ & Hp & _).
  rewrite pte_at_set by (apply Hin || done || apply share_index). by rewrite Z.eqb_refl.
Qed.

Lemma share_node p :
  path_ok p -> node m' root p = if decide (head p = Some i) then node (mem c) kroot p else node (mem c) root p.
Proof.
  destruct Hin as [W T _ _]. destruct Hk as [Kt _ _]. intros Hp. destruct p as [|j p]; [done|].
  assert (path_ok [j]) as Hj by (destruct Hp as [_ [? _]%Forall_cons]; split; [simpl; lia|by apply Forall_singleton]).
  assert (is_index j) as Hji by (apply (path_snoc_inv [] j); done).
  case_decide as Hd; cbn in Hd.
  - injection Hd as ->. rewrite linked_node by (rewrite share_root_pte, Z.eqb_refl by done; unfold pte_at; by rewrite share_mem by by apply (kernel_root_in (mem c))).
    apply (node_agree _ _ _ K); [done|apply share_mem|done].
  - clear Hj. revert Hp. induction p as [|x p IH] using rev_ind; intros Hp.
    + rewrite !node_1. unfold next_table. rewrite share_root_pte by done.
      by destruct (j =? i) eqn:Ej; [assert (j = i) as -> by lia|].
    + change (j :: p ++ [x]) with ((j :: p) ++ [x]) in *. destruct (path_snoc_inv _ _ Hp) as (Hp' & _ & Hx).
      rewrite !node_snoc, IH by done. destruct (node (mem c) root (j :: p)) as [t|] eqn:En; [|done]. cbn.
      unfold next_table, pte_at, set_pte. rewrite set_page_ne; [done|]. intros ->.
      by pose proof (tree_inj _ _ _ (to_tree _ _ _ _ T) [] (j :: p) _ path_nil Hp' eq_refl En).
Qed.

(** Where a path of the table leads: to a table of its own, or the kernel's. *)
Lemma share_where p x :
  path_ok p -> node m' root p = Some x ->
  (x ∈ pt_frames pt /\ node (mem c) root p = Some x) \/ (x ∈ K /\ node (mem c) kroot p = Some x).
Proof.
  destruct Hin as [W T _ _]. destruct Hk as [Kt _ _]. intros Hp. rewrite share_node by done. case_decide as Hd.
  - intros Hx. right. split; [|done]. by eapply (tree_in _ _ _ Kt).
  - intros Hx. destruct p as [|j p]; [injection Hx as <-; left; split; [apply T|done]|].
    destruct (decide (kernel_index k j)) as [Hj|Hj]; [|left; split; [by eapply (to_own _ _ _ _ T)|done]].
    destruct (Hl j Hj) as [He|He].
    + rewrite linked_node in Hx by done. right. split; [by eapply (tree_in _ _ _ Kt)|done].
    + exfalso. assert (node (mem c) root [j] = None) as Hnone by by apply next_table_None.
      destruct p as [|x' [|? ?]]; [congruence|cbn in *; by rewrite Hnone in Hx|].
      destruct Hp as [Hp _]. simpl in Hp. lia.
Qed.

Lemma share_table : table_ok m' pt.
Proof.
  destruct Hin as [W T _ Hs]. destruct Hk as [Kt _ _]. split; [split|apply T|].
  - intros p x Hp Hx. apply elem_of_app. destruct (share_where _ _ Hp Hx) as [[? _]|[? _]]; auto.
  - intros p q x Hp Hq Hx Hy.
    destruct (share_where _ _ Hp Hx) as [[H1 N1]|[H1 N1]], (share_where _ _ Hq Hy) as [[H2 N2]|[H2 N2]].
    + by eapply (tree_inj _ _ _ (to_tree _ _ _ _ T)).
    + by destruct (Hs x).
    + by destruct (Hs x).
    + by eapply (tree_inj _ _ _ Kt).
  - intros j p x Hj Hp. rewrite share_node by done. case_decide as Hd; [by injection Hd as ->|].
    by eapply (to_own _ _ _ _ T).
Qed.

Lemma share_step :
  let c' := write_pte c root i src in
  table_in c' E F pt /\ kernel_ok k (mem c') /\ kernel_linked (mem c') pt /\ evolves c c' /\
  (forall q, q <> root -> mem c' q = mem c q) /\
  (forall vpn, user_vpn vpn -> view c' pt vpn = view c pt vpn).
Proof.
  pose proof share_table as HT. pose proof share_root_own as [Hr HrK]. cbv zeta.
  change (mem (write_pte c root i src)) with m'. split_and!.
  - destruct Hin as [W T S Hs]. split; [|done..].
    apply world_with_mem; [done|]. apply set_pte_full; [apply W|apply share_index].
  - eapply kernel_agree; [done|apply share_mem].
  - intros j Hj. assert (is_index j) by (destruct (ko_root _ _ Hk j Hj) as [? _]; unfold is_index; lia).
    assert (pte_at m' kroot j = pte_at (mem c) kroot j) as -> by (unfold pte_at; by rewrite share_mem by by apply (kernel_root_in (mem c))).
    rewrite share_root_pte by done. destruct (j =? i) eqn:Ej; [left; by assert (j = i) as -> by lia|]. by apply Hl.
  - apply evolves_with_mem.
  - intros q Hq. by apply set_page_ne.
  - intros vpn [_ Hu]. unfold pt_view. rewrite share_node by apply path_leaf.
    rewrite decide_False by (intros [= Heq]; apply Hu; by rewrite Heq). destruct (node (mem c) root _) as [t|] eqn:En; [|done].
    unfold pte_at, set_pte. rewrite set_page_ne; [done|]. intros ->.
    by pose proof (tree_inj _ _ _ (to_tree _ _ _ _ (ti_table _ _ _ _ _ _ Hin)) [] _ _ path_nil (path_leaf vpn) eq_refl En).
Qed.

End Share.

(** The kernel's mappings are all there. *)
Definition kernel_mapped (m : Z -> list Z) (pt : PageTable) : Prop :=
  forall i, kernel_index k i -> pte_at m (pt_root_ppn pt) i = pte_at m kroot i.

(** What [share_roots] leaves unchanged. *)
Record shares (c : PageCache) (E F : list Z) (pt : PageTable) (c' : PageCache) : Prop := {
  sh_in : table_in c' E F pt;
  sh_kernel : kernel_ok k (mem c');
  sh_linked : kernel_linked (mem c') pt;
  sh_evolves : evolves c c';
  sh_mem : forall q, q <> pt_root_ppn pt -> mem c' q = mem c q;
  sh_view : forall vpn, user_vpn vpn -> view c' pt vpn = view c pt vpn;
  sh_keeps : forall i, kernel_index k i -> pte_at (mem c) (pt_root_ppn pt) i = pte_at (mem c) kroot i ->
    pte_at (mem c') (pt_root_ppn pt) i = pte_at (mem c') kroot i
}.

Lemma shares_refl c E F pt :
  table_in c E F pt -> kernel_ok k (mem c) -> kernel_linked (mem c) pt -> shares c E F pt c.
Proof. intros. by split. Qed.

Lemma shares_trans c E F pt c1 c2 : shares c E F pt c1 -> shares c1 E F pt c2 -> shares c E F pt c2.
Proof.
  intros [_ _ _ V1 M1 W1 K1] [I2 O2 L2 V2 M2 W2 K2]. split; [done..|by etrans| | |].
  - intros q Hq. rewrite M2 by done. by apply M1.
  - intros vpn Hu. rewrite W2 by done. by apply W1.
  - auto.
Qed.

Lemma share_root_shares c E F pt i :
  kernel_ok k (mem c) -> table_in c E F pt -> kernel_linked (mem c) pt -> kernel_index k i ->
  let (ok, c') := share_root_entry_from c pt i (kn_page_table k) in
  ok = true /\ shares c E F pt c' /\ pte_at (mem c') (pt_root_ppn pt) i = pte_at (mem c') kroot i.
Proof.
  intros Hk Hin Hl Hi. unfold share_root_entry_from. destruct (ko_root _ _ Hk i Hi) as (Hr & Hp & Hv).
  destruct (ROOT_ENTRIES <=? i) eqn:E1; [unfold ROOT_ENTRIES in E1; lia|]. rewrite Hv. cbn [negb].
  destruct (pte_is_valid (pte_at (mem c) (pt_root_ppn pt) i)) eqn:Ed.
  - destruct (Hl i Hi) as [He|He]; [|congruence]. rewrite He, Z.eqb_refl. split_and!; [done|by apply shares_refl|done].
  - destruct (share_step c E F pt i Hk Hin Hl Hi Ed) as (I & O & L & V & M & W).
    assert (forall j, kernel_index k j -> is_index j) as Hidx
      by (intros j Hj; destruct (ko_root _ _ Hk j Hj) as [? _]; unfold is_index; lia).
    assert (forall j, kernel_index k j -> pte_at (mem (write_pte c (pt_root_ppn pt) i (pte_at (mem c) kroot i))) kroot j = pte_at (mem c) kroot j) as Hkr.
    { intros j Hj. unfold pte_at at 1. rewrite M; [done|]. intros Heq. destruct (share_root_own c E F pt Hin) as [_ Hn].
      apply Hn. rewrite <- Heq. by apply (kernel_root_in (mem c)). }
    split_and!; [done| |].
    + split; try done. intros j Hj He. rewrite Hkr by done.
      change (mem (write_pte c (pt_root_ppn pt) i (pte_at (mem c) kroot i))) with (set_pte (mem c) (pt_root_ppn pt) i (pte_at (mem c) kroot i)).
      rewrite (share_root_pte c E F pt i Hk Hin Hi) by auto. destruct (j =? i) eqn:Ej; [|done]. by assert (j = i) as -> by lia.
    + rewrite Hkr by done.
      change (mem (write_pte c (pt_root_ppn pt) i (pte_at (mem c) kroot i))) with (set_pte (mem c) (pt_root_ppn pt) i (pte_at (mem c) kroot i)).
      rewrite (share_root_pte c E F pt i Hk Hin Hi) by auto. by rewrite Z.eqb_refl.
Qed.

Lemma share_roots_shares idxs c E F pt :
  kernel_ok k (mem c) -> table_in c E F pt -> kernel_linked (mem c) pt -> Forall (kernel_index k) idxs ->
  let (ok, c') := share_roots c pt (kn_page_table k) idxs in
  ok = true /\ shares c E F pt c' /\
  (forall i, i ∈ idxs -> pte_at (mem c') (pt_root_ppn pt) i = pte_at (mem c') kroot i).
Proof.
  revert c. induction idxs as [|i idxs IH]; intros c Hk Hin Hl Hall; cbn.
  { split_and!; [done|by apply shares_refl|by intros i ?%elem_of_nil]. }
  apply Forall_cons in Hall as [Hi Hall]. pose proof (share_root_shares c E F pt i Hk Hin Hl Hi) as H1.
  destruct (share_root_entry_from c pt i (kn_page_table k)) as [ok c1]. destruct H1 as (-> & S1 & He).
  specialize (IH c1 (sh_kernel _ _ _ _ _ S1) (sh_in _ _ _ _ _ S1) (sh_linked _ _ _ _ _ S1) Hall).
  destruct (share_roots c1 pt (kn_page_table k) idxs) as [ok c2]. destruct IH as (-> & S2 & Hidx).
  split_and!; [done|by eapply shares_trans|]. intros j [->|Hj]%elem_of_cons; [|by apply Hidx].
  by apply (sh_keeps _ _ _ _ _ S2).
Qed.

Lemma kernel_mappings_ok c E F ms :
  kernel_ok k (mem c) -> table_in c E F (ms_page_table ms) -> kernel_linked (mem c) (ms_page_table ms) ->
  ms_has_user_kernel_mappings ms = false ->
  exists c', map_riscv_user_kernel_mappings k c ms = (true, c', ms {{ ms_has_user_kernel_mappings := true }}) /\
    shares c E F (ms_page_table ms) c' /\ kernel_mapped (mem c') (ms_page_table ms).
Proof.
  intros Hk Hin Hl Hno. unfold map_riscv_user_kernel_mappings. rewrite Hno.
  assert (Forall (kernel_index k) (root_indexes (riscv_kernel_direct_root_range k)) /\
    Forall (kernel_index k) (root_indexes riscv_kernel_stack_root_range)) as [H1 H2]
    by (rewrite <- Forall_app; apply Forall_forall; done).
  pose proof (share_roots_shares _ c E F _ Hk Hin Hl H1) as S1.
  destruct (share_roots c _ _ _) as [ok c1]. destruct S1 as (-> & S1 & I1). cbn [negb].
  pose proof (share_roots_shares _ c1 E F _ (sh_kernel _ _ _ _ _ S1) (sh_in _ _ _ _ _ S1) (sh_linked _ _ _ _ _ S1) H2) as S2.
  destruct (share_roots c1 _ _ _) as [ok c2]. destruct S2 as (-> & S2 & I2). cbn [negb].
  exists c2. split_and!; [done|by eapply shares_trans|].
  intros i Hi. pose proof Hi as [Hj|Hj]%elem_of_app; [|auto]. apply (sh_keeps _ _ _ _ _ S2); auto.
Qed.

(** No operation on a user page touches the kernel's tables, or the entries that
    lead to them. *)
Lemma tstep_kernel c E F pt c' pt' new :
  tstep (kernel_index k) K c E F pt c' pt' new -> kernel_ok k (mem c) ->
  kernel_ok k (mem c') /\ (forall q, q ∈ K -> mem c' q = mem c q) /\
  (kernel_linked (mem c) pt -> kernel_linked (mem c') pt') /\
  (kernel_mapped (mem c) pt -> kernel_mapped (mem c') pt').
Proof.
  intros [I _ Hr _ _ Hm Hkr] Hk. assert (forall q, q ∈ K -> mem c' q = mem c q) as HmK
    by (intros q Hq; apply Hm; by apply I).
  assert (forall i, kernel_index k i -> pte_at (mem c') (pt_root_ppn pt') i = pte_at (mem c) (pt_root_ppn pt) i /\
    pte_at (mem c') kroot i = pte_at (mem c) kroot i) as Hpte.
  { intros i Hi. rewrite Hr, Hkr; [|done|destruct (ko_root _ _ Hk i Hi) as [? _]; unfold is_index; lia].
    split; [done|]. unfold pte_at. rewrite HmK; [done|]. by apply (kernel_root_in (mem c)). }
  split_and!; [by eapply kernel_agree|done|..]; intros Hl i Hi; destruct (Hpte i Hi) as [-> ->]; by apply Hl.
Qed.

Lemma trampoline_index vpn : TRAMPOLINES <= vpn <= TRAMPOLINES + 1 -> is_vpn vpn /\ i0 vpn = 511.
Proof.
  unfold TRAMPOLINES. intros Hv. split; [unfold is_vpn; lia|]. unfold i0.
  assert (vpn = 134217726 \/ vpn = 134217727) as [-> | ->] by lia; done.
Qed.

Lemma map_trampoline_page_ok c E F ms va vpn flags :
  kernel_ok k (mem c) -> table_in c E F (ms_page_table ms) -> has_room c (E ++ F) 2 -> is_flags flags ->
  addr_to_page (virt_addr va) = Some vpn -> TRAMPOLINES <= vpn <= TRAMPOLINES + 1 ->
  pte_is_valid (view c (ms_page_table ms) vpn) = false ->
  match map_trampoline_page k c ms va flags with
  | Some (c', ms') => exists new pt', ms' = ms {{ ms_page_table := pt' }} /\
      tstep (kernel_index k) K c E F (ms_page_table ms) c' pt' new /\ (length new <= 2)%nat /\
      (forall v, is_vpn v -> v <> vpn -> view c' pt' v = view c (ms_page_table ms) v)
  | None => exhausted c
  end.
Proof.
  intros Hk Hin Hr Hf Hva Hvpn Hinv. unfold map_trampoline_page. destruct (ko_trampoline _ _ Hk) as (ppn & Hs & Hp).
  rewrite Hva, Hs. cbn [mbind option_bind]. assert (user_vpn vpn) as Hu.
  { destruct (trampoline_index vpn Hvpn) as [? Hi]. split; [done|].
    rewrite Hi. intros Hk'. destruct (ko_root _ _ Hk 511 Hk') as [? _]. lia. }
  pose proof (map_tstep (kernel_index k) K c E F (ms_page_table ms) vpn ppn flags Hin Hr Hu Hp Hf) as Hm.
  destruct (pt_map c (ms_page_table ms) vpn ppn flags) as [[c' pt']|]; cbn [mbind option_bind]; [|destruct Hm as [Hm|Hm]; [rewrite Hinv in Hm; discriminate|exact Hm]].
  destruct Hm as (new & Ht & Hl & _ & Hvs). exists new, pt'. split_and!; [done..|].
  intros v Hv Hne. rewrite (ts_root _ _ _ _ _ _ _ _ _ Ht), Hvs by done. by destruct (v =? vpn) eqn:E1; [lia|].
Qed.

Lemma new_bare_ok c E F aslr :
  world_ok c E F -> (forall q, q ∈ K -> q ∈ E) -> has_room c (E ++ F) 1 ->
  match new_bare c aslr with
  | Some (ms, c') => exists f, pt_frames (ms_page_table ms) = [f] /\ pt_root_ppn (ms_page_table ms) = f /\
      ms = mkMemorySet (ms_page_table ms) [] VmaSet.new [] [] 1 0 0 DEFAULT_MMAP_BASE 0 aslr [] false Recycle.new false /\
      table_in c' (f :: E) F (ms_page_table ms) /\ evolves c c' /\ f ∉ E ++ F /\
      (forall q, q <> f -> mem c' q = mem c q) /\ (forall vpn, view c' (ms_page_table ms) vpn = 0) /\
      (forall i, pte_at (mem c') f i = 0)
  | None => exhausted c
  end.
Proof.
  intros W HK Hr. unfold new_bare. pose proof (new_table_in (kernel_index k) K c E F W HK Hr) as Hn.
  destruct (pt_new c) as [[pt c']|]; cbn [mbind option_bind]; [|done]. destruct Hn as (f & -> & H1 & H2 & H3 & H4 & H5 & H6). by exists f.
Qed.

Lemma trampolines_ok c E F ms :
  kernel_ok k (mem c) -> table_in c E F (ms_page_table ms) -> has_room c (E ++ F) 4 ->
  kernel_linked (mem c) (ms_page_table ms) -> (forall vpn, view c (ms_page_table ms) vpn = 0) ->
  match ('(c, ms) ← map_trampoline k c ms; map_sigreturn_trampoline_user k c ms) with
  | Some (c', ms') => exists new pt', ms' = ms {{ ms_page_table := pt' }} /\
      tstep (kernel_index k) K c E F (ms_page_table ms) c' pt' new /\ (length new <= 4)%nat /\
      (forall v, is_vpn v -> v < TRAMPOLINES -> view c' pt' v = view c (ms_page_table ms) v)
  | None => exhausted c
  end.
Proof.
  intros Hk Hin Hr Hl Hv. unfold map_trampoline, map_sigreturn_trampoline_user.
  assert (forall f, (0 <=? f) && (f <? 1024) = true -> is_flags f) as Hfl by (unfold is_flags; intros; lia).
  pose proof (map_trampoline_page_ok c E F ms TRAMPOLINE (TRAMPOLINES + 1) _ Hk Hin ltac:(unfold has_room in *; lia)
    (Hfl (Z.lor (PTEFlags.from (Z.lor MapPermission.R MapPermission.X)) PTEFlags.G) eq_refl)
    eq_refl ltac:(unfold TRAMPOLINES; lia) ltac:(by rewrite Hv)) as H1.
  destruct (map_trampoline_page k c ms TRAMPOLINE _) as [[c1 ms1]|]; cbn [mbind option_bind]; [|done].
  destruct H1 as (n1 & pt1 & -> & T1 & L1 & V1). destruct (tstep_kernel _ _ _ _ _ _ _ T1 Hk) as (Hk1 & _).
  assert (has_room c1 ((n1 ++ E) ++ F) 2) as Hr1.
  { eapply has_room_evolves; [apply T1|done|]. rewrite !length_app. lia. }
  pose proof (map_trampoline_page_ok c1 _ F (ms {{ ms_page_table := pt1 }}) SIGRETURN_TRAMPOLINE TRAMPOLINES _ Hk1
    (ts_in _ _ _ _ _ _ _ _ _ T1) Hr1
    (Hfl (PTEFlags.from (Z.lor (Z.lor MapPermission.R MapPermission.X) MapPermission.U)) eq_refl)
    eq_refl ltac:(unfold TRAMPOLINES; lia)) as H2.
  cbn [ms_page_table] in H2. rewrite V1, Hv in H2 by (unfold is_vpn, TRAMPOLINES; lia). specialize (H2 eq_refl).
  destruct (map_trampoline_page k c1 _ SIGRETURN_TRAMPOLINE _) as [[c2 ms2]|]; [|eapply exhausted_after; [apply T1|done]].
  destruct H2 as (n2 & pt2 & -> & T2 & L2 & V2). exists (n1 ++ n2), pt2.
  split_and!; [done|by eapply tstep_trans|rewrite length_app; lia|].
  intros v Hvv Ht. rewrite V2, V1 by (done || lia). done.
Qed.

(** A new address space: everything a user can map is free, the kernel's mappings
    are there. *)
Lemma user_space_bare c E F aslr :
  world_ok c E F -> (forall q, q ∈ K -> q ∈ E) -> kernel_ok k (mem c) -> has_room c (E ++ F) 5 ->
  match ('(ms, c) ← new_bare c aslr; map_user_trampoline_pages k c ms) with
  | Some (ok, c', ms) => ok = true /\
      ms = mkMemorySet (ms_page_table ms) [] VmaSet.new [] [] 1 0 0 DEFAULT_MMAP_BASE 0 aslr [] false Recycle.new true /\
      table_in c' (pt_frames (ms_page_table ms) ++ E) F (ms_page_table ms) /\
      (length (pt_frames (ms_page_table ms)) <= 5)%nat /\ evolves c c' /\
      kernel_ok k (mem c') /\ kernel_mapped (mem c') (ms_page_table ms) /\
      (forall q, q ∉ pt_frames (ms_page_table ms) -> mem c' q = mem c q) /\
      (forall vpn, user_page vpn -> pte_is_valid (view c' (ms_page_table ms) vpn) = false)
  | None => exhausted c
  end.
Proof.
  intros W HK Hk Hr. pose proof (new_bare_ok c E F aslr W HK ltac:(unfold has_room in *; lia)) as H0.
  destruct (new_bare c aslr) as [[ms0 c0]|]; [|done]. cbn [mbind option_bind].
  destruct H0 as (f & Hfr0 & Hroot0 & Hms & I0 & V0 & HfE & M0 & W0 & Z0).
  assert (kernel_ok k (mem c0)) as Hk0.
  { eapply kernel_agree; [done|]. intros q Hq. apply M0. intros ->. set_solver. }
  assert (kernel_linked (mem c0) (ms_page_table ms0)) as L0 by (intros i _; right; by rewrite Hroot0, Z0).
  assert (has_room c0 ((f :: E) ++ F) 4) as Hr0 by (eapply has_room_evolves; [done..|]; cbn; rewrite !length_app; lia).
  pose proof (trampolines_ok c0 (f :: E) F ms0 Hk0 I0 Hr0 L0 W0) as H1. unfold map_user_trampoline_pages.
  destruct (map_trampoline k c0 ms0) as [[c1 ms1]|]; cbn [mbind option_bind] in *; [|by eapply exhausted_after].
  destruct (map_sigreturn_trampoline_user k c1 ms1) as [[c2 ms2]|]; [|by eapply exhausted_after].
  destruct H1 as (new & pt & -> & T & Hl & Hv). destruct (tstep_kernel _ _ _ _ _ _ _ T Hk0) as (Hk2 & _ & L2 & _).
  pose proof (ts_in _ _ _ _ _ _ _ _ _ T) as I2. cbn [mbind option_bind].
  destruct (kernel_mappings_ok c2 (new ++ f :: E) F (ms0 {{ ms_page_table := pt }}) Hk2) as (c3 & -> & S & Hm);
    [exact I2|exact (L2 L0)|by rewrite Hms|]. destruct S as [I3 O3 _ V3 M3 W3 _].
  change (ms_page_table (ms0 {{ ms_page_table := pt }})) with pt in *.
  pose proof (ts_frames _ _ _ _ _ _ _ _ _ T) as Hf. rewrite Hfr0 in Hf.
  pose proof (to_root _ _ _ _ (ti_table _ _ _ _ _ _ I3)) as Hroot.
  set (ms3 := ms0 {{ ms_page_table := pt; ms_has_user_kernel_mappings := true }}).
  assert (ms_page_table ms3 = pt) as Hpt by done.
  assert (ms3 = mkMemorySet pt [] VmaSet.new [] [] 1 0 0 DEFAULT_MMAP_BASE 0 aslr [] false Recycle.new true) as Hms3
    by (subst ms3; by rewrite Hms).
  clearbody ms3. rewrite Hpt. split_and!; [done|done| |rewrite Hf; cbn; lia| |done|done| |].
  - destruct I3 as [W' T' S' P']. rewrite Hf. split; [|done| |done].
    + eapply world_perm; [|done|exact W']. cbn. by rewrite <- Permutation_middle.
    + intros q Hq. apply S' in Hq. set_solver.
  - do 2 (etrans; [done|]). etrans; [apply T|done].
  - intros q Hq. rewrite M3, (ts_mem _ _ _ _ _ _ _ _ _ T) by (done || by intros ->). apply M0. intros ->.
    apply Hq. rewrite Hf. left.
  - intros vpn [Hu Ht]. rewrite W3 by done. rewrite Hv; [by rewrite W0|apply Hu|lia].
Qed.

End NewSpace.
