(* ===== verification/FileMmap.v ===== *)
(** * File mappings

    [mm/memory_set/file_mmap.rs]: the state of the files mapped into an address
    space, rebuilt from the areas and the page table after every change, the
    pages to write back, and what file writes and truncations do to the pages
    that are mapped. *)

From S2P Require Import Prelude.
From S2P Require Import BTree.
From S2P Require Import Address.
From S2P Require Import Ranges.
From S2P Require Import FrameAlloc.
From S2P Require Import PageCache.
From S2P Require Import VmRegion.
From S2P Require Import VmRegionSet.
From S2P Require Import PageTable.
From S2P Require Import MapArea.
From S2P Require Import Backing.
From S2P Require Import MemorySet.
Import Region VmaSet.

Definition shared_file_vm_regions_overlapping (ms : MemorySet) (start end__ : Z) : list VmRegion :=
  collect_overlaps_where (ms_vm_regions ms) start end__ (fun region => r_shared region && r_file_backed region).

(** The frame of a page, its flags, and whether it is mapped.  The source clones
    the tracker; the clone is modelled where it outlives the iteration. *)
Definition resident_page_for_vpn (c : PageCache) (ms : MemorySet) (area : MapArea) (vpn : Z)
    : option (Z * Z * bool) :=
  frame ← Area.tracked_frame area vpn;
  match mtranslate c ms vpn with
  | Some pte =>
      if pte_is_valid pte then Some (frame, pte_flags pte, true)
      else flags ← Area.saved_pte_flags area vpn; Some (frame, flags, false)
  | None => flags ← Area.saved_pte_flags area vpn; Some (frame, flags, false)
  end.

(** The pages of the areas that lie in [[start_vpn, end_vpn)] and user space. *)
Definition area_pages (ms : MemorySet) (start_vpn end_vpn : Z) : list (MapArea * Z) :=
  ms_areas ms ≫= fun area =>
    if negb (Area.contains_perm area MapPermission.U)
       || negb (Area.overlaps_vpn_range area start_vpn end_vpn) then []
    else pair area <$> Area.pages (mkRange (Z.max start_vpn (Area.start_vpn area))
                                           (Z.min end_vpn (Area.end_vpn area))).

(** ** Rebuilding the state of a backing *)

(** One page of [collect_mmap_backing_resident_pages]. *)
Definition collect_page (ms : MemorySet) (backing_id scan_start scan_end : Z) (region : VmRegion)
    (st : PageCache * list (Z * MmapBackingPageState)) (e : MapArea * Z)
    : PageCache * list (Z * MmapBackingPageState) :=
  let '(c, pages) := st in
  let '(area, vpn) := e in
  let page_start := sat_mul vpn PAGE_SIZE in
  if (page_start <? scan_start) || (scan_end <=? page_start) then st
  else
    match resident_page_for_vpn c ms area vpn with
    | None => st
    | Some (frame, flags, _) =>
        let file_page :=
          sat_add (r_file_offset region) (sat_sub page_start (r_start region)) / PAGE_SIZE in
        let state := unwrap_or (bt_get pages file_page) Backing.page_state_default in
        let old_dirty :=
          match bt_get (ms_mmap_backings ms) backing_id with
          | Some backing =>
              match bt_get (bk_resident_pages backing) file_page with
              | Some old => ps_dirty old
              | None => false
              end
          | None => false
          end in
        let state := state {{ ps_ref_count := sat_add (ps_ref_count state) 1;
                              ps_dirty := ps_dirty state || old_dirty
                                          || PTEFlags.contains flags PTEFlags.D }} in
        let '(c, state) :=
          if r_shared region && r_file_backed region then
            match ps_frame state with
            | Some _ => (c, state)
            | None => (clone_frame c frame, state {{ ps_frame := Some frame }})
            end
          else (c, state) in
        (c, bt_insert pages file_page state)
    end.

Definition collect_mmap_backing_resident_pages (c : PageCache) (ms : MemorySet) (backing_id : Z)
    : PageCache * list (Z * MmapBackingPageState) :=
  foldl (fun st e =>
    let region := e.2 : VmRegion in
    let scan_start := r_start region in
    let scan_end := Z.min (end_ region) (r_sigbus_start region) in
    if negb (r_backing_id region =? backing_id) || (scan_end <=? scan_start) then st
    else foldl (collect_page ms backing_id scan_start scan_end region) st
           (area_pages ms (floor (virt_addr scan_start)) (ceil (virt_addr scan_end))))
    (c, []) (ms_vm_regions ms).

Definition collect_mmap_backing_vm_state (ms : MemorySet) (backing_id : Z) : MmapBackingVmState :=
  let s := foldl (fun s e =>
    let region := e.2 : VmRegion in
    if negb (r_backing_id region =? backing_id) then s
    else
      let s := s {{ vs_vma_count := sat_add (vs_vma_count s) 1 }} in
      let start := r_file_offset region in
      let mapped_end := sat_add start (r_len region) in
      let valid_end := sat_add start (file_valid_len region) in
      let s := if start <? mapped_end
               then s {{ vs_mapped_file_ranges := vec_push (vs_mapped_file_ranges s) (start, mapped_end) }}
               else s in
      if start <? valid_end
      then s {{ vs_valid_file_ranges := vec_push (vs_valid_file_ranges s) (start, valid_end) }}
      else s) Backing.vm_state_default (ms_vm_regions ms) in
  s {{ vs_mapped_file_ranges := normalize_ranges (vs_mapped_file_ranges s);
       vs_valid_file_ranges := normalize_ranges (vs_valid_file_ranges s) }}.

Definition push_unique_backing_id (backing_ids : list Z) (backing_id : Z) : list Z :=
  if negb (backing_id =? 0) && negb (existsb (Z.eqb backing_id) backing_ids)
  then vec_push backing_ids backing_id else backing_ids.

Definition backing_ids_for_vma_range (ms : MemorySet) (start end__ : Z) : list Z :=
  foldl (fun ids region => push_unique_backing_id ids (r_backing_id region)) []
    (snapshot_range (ms_vm_regions ms) start end__).

Definition set_backing (ms : MemorySet) (backing_id : Z) (b : MmapBacking) : MemorySet :=
  ms {{ ms_mmap_backings := bt_insert (ms_mmap_backings ms) backing_id b }}.

(** The clones collected for a backing that is gone are dropped. *)
Definition refresh_mmap_backing_state (c : PageCache) (ms : MemorySet) (backing_id : Z)
    : option (PageCache * MemorySet) :=
  let '(c, pages) := collect_mmap_backing_resident_pages c ms backing_id in
  let vm_state := collect_mmap_backing_vm_state ms backing_id in
  match bt_get (ms_mmap_backings ms) backing_id with
  | Some b =>
      '(c, b) ← Backing.replace_resident_pages c (Backing.replace_vm_state b vm_state) pages;
      Some (c, set_backing ms backing_id b)
  | None => c ← drop_frames c (Backing.page_frames pages); Some (c, ms)
  end.

Definition refresh_mmap_backing_vm_state (ms : MemorySet) (backing_id : Z) : MemorySet :=
  match bt_get (ms_mmap_backings ms) backing_id with
  | Some b => set_backing ms backing_id
                (Backing.replace_vm_state b (collect_mmap_backing_vm_state ms backing_id))
  | None => ms
  end.

Definition refresh_mmap_backing_states (c : PageCache) (ms : MemorySet) (backing_ids : list Z)
    : option (PageCache * MemorySet) :=
  foldl_opt (fun st id => refresh_mmap_backing_state st.1 st.2 id) (c, ms) backing_ids.

Definition refresh_all_mmap_backing_states (c : PageCache) (ms : MemorySet) : option (PageCache * MemorySet) :=
  refresh_mmap_backing_states c ms (map fst (ms_mmap_backings ms)).

Definition mmap_backing_resident_frame (c : PageCache) (ms : MemorySet) (backing_id file_page : Z)
    : option Z * PageCache :=
  match bt_get (ms_mmap_backings ms) backing_id with
  | Some b => Backing.resident_frame c b file_page
  | None => (None, c)
  end.

Definition clear_mmap_backing_dirty_page (ms : MemorySet) (backing_id file_page : Z) : MemorySet :=
  match bt_get (ms_mmap_backings ms) backing_id with
  | Some b => set_backing ms backing_id (Backing.clear_dirty_page b file_page)
  | None => ms
  end.

(** [allocate_mmap_backing]: the backing of the same file, or a new one. *)
Definition allocate_mmap_backing (ms : MemorySet) (region : VmRegion) (file : option Z) : Z * MemorySet :=
  match file with
  | None => (0, ms)
  | Some file =>
      match Backing.new region file with
      | None => (0, ms)
      | Some backing =>
          match List.find (fun e => Backing.matches_region (bk_kind e.2) region) (ms_mmap_backings ms) with
          | Some (id, _) => (id, ms)
          | None =>
              let id := ms_next_mmap_backing_id ms in
              (id, (set_backing ms id backing) {{ ms_next_mmap_backing_id := sat_add id 1 }})
          end
      end
  end.

Definition backing_in_use (ms : MemorySet) (e : Z * MmapBacking) : bool :=
  existsb (fun r => let region := r.2 : VmRegion in
    (r_file_backed region || negb (r_memfd_id region =? 0)) && (r_backing_id region =? e.1)
    && Backing.matches_region (bk_kind e.2) region) (ms_vm_regions ms).

Definition prune_unused_mmap_backings (c : PageCache) (ms : MemorySet) : option (PageCache * MemorySet) :=
  let unused := List.filter (fun e => negb (backing_in_use ms e)) (ms_mmap_backings ms) in
  c ← drop_frames c (concat (map (fun e => Backing.frames e.2) unused));
  refresh_all_mmap_backing_states c
    (ms {{ ms_mmap_backings := List.filter (backing_in_use ms) (ms_mmap_backings ms) }}).

(** ** Writing back *)

Definition checked_mul (a b : Z) : option Z := if a * b <=? USIZE_MAX then Some (a * b) else None.

Definition shared_file_page_vpn_range (region : VmRegion) (file_page : Z) : option (Z * Z) :=
  page_start ← checked_mul file_page PAGE_SIZE;
  page_end ← checked_add page_start PAGE_SIZE;
  valid_end ← checked_add (r_file_offset region) (file_valid_len region);
  let overlap_start := Z.max page_start (r_file_offset region) in
  let overlap_end := Z.min page_end valid_end in
  if overlap_end <=? overlap_start then None
  else
    va_start ← checked_add (r_start region) (sat_sub overlap_start (r_file_offset region));
    va_end ← checked_add (r_start region) (sat_sub overlap_end (r_file_offset region));
    Some (floor (virt_addr va_start), ceil (virt_addr va_end)).

(** The references to a page in this address space, and whether one of them is
    dirty or may become so. *)
Definition shared_file_page_local_state (c : PageCache) (ms : MemorySet) (backing_id file_page ppn : Z)
    : Z * bool * bool :=
  foldl (fun st e =>
    let region := e.2 : VmRegion in
    if negb ((r_backing_id region =? backing_id) && r_shared region && r_file_backed region) then st
    else
      match shared_file_page_vpn_range region file_page with
      | None => st
      | Some (start_vpn, end_vpn) =>
          foldl (fun st e =>
            let '(local_refs, any_dirty, any_writable) := st in
            let '(area, vpn) := e in
            match Area.tracked_frame area vpn with
            | None => st
            | Some frame =>
                if negb (frame =? ppn) then st
                else
                  let flags :=
                    match mtranslate c ms vpn with
                    | Some pte => if pte_is_valid pte then Some (pte_flags pte) else Area.saved_pte_flags area vpn
                    | None => Area.saved_pte_flags area vpn
                    end in
                  (sat_add local_refs 1,
                   any_dirty || match flags with Some f => PTEFlags.contains f PTEFlags.D | None => false end,
                   any_writable || MapPermission.contains (r_map_perm region) MapPermission.W)
            end) st (area_pages ms start_vpn end_vpn)
      end) (0, false, false) (ms_vm_regions ms).

Definition page_state (ms : MemorySet) (backing_id file_page : Z) : option MmapBackingPageState :=
  b ← bt_get (ms_mmap_backings ms) backing_id; bt_get (bk_resident_pages b) file_page.

(** The reference count as the source compares it: the caller holds one clone. *)
Definition shared_file_page_has_external_refs (c : PageCache) (ms : MemorySet)
    (backing_id file_page ppn local_refs : Z) : bool :=
  let backing_state_ref :=
    match page_state ms backing_id file_page with
    | Some s => if bool_decide (ps_frame s = Some ppn) then 1 else 0
    | None => 0
    end in
  sat_add (sat_add (sat_add local_refs 1) backing_state_ref) 1
    <? wadd (Tracker.frame_refcount (pc_frames c) ppn) 1.

Definition shared_file_page_needs_writeback (c : PageCache) (ms : MemorySet)
    (backing_id file_page frame flags : Z) : bool :=
  if PTEFlags.contains flags PTEFlags.D then true
  else if match page_state ms backing_id file_page with Some s => ps_dirty s | None => false end then true
  else
    let '(local_refs, local_dirty, local_writable) :=
      shared_file_page_local_state c ms backing_id file_page frame in
    if local_dirty || local_writable then true
    else shared_file_page_has_external_refs c ms backing_id file_page frame local_refs.

Record MmapWritebackChunk := mkChunk {
  wc_file : Z;
  wc_backing_id : Z;
  wc_file_page : Z;
  wc_vpn : Z;
  wc_flags : Z;
  wc_has_valid_pte : bool;
  wc_file_offset : Z;
  wc_data : list Z
}.

Definition slice_bytes (page : list Z) (off len : Z) : list Z :=
  take (Z.to_nat len) (drop (Z.to_nat off) page).

Definition writeback_chunk (c : PageCache) (ms : MemorySet) (region : VmRegion) (file seg_start seg_end : Z)
    (e : MapArea * Z) : list MmapWritebackChunk :=
  let '(area, vpn) := e in
  let page_start := sat_mul vpn PAGE_SIZE in
  let copy_start := Z.max seg_start page_start in
  let copy_end := Z.min seg_end (sat_add page_start PAGE_SIZE) in
  if copy_end <=? copy_start then []
  else
    match resident_page_for_vpn c ms area vpn with
    | None => []
    | Some (frame, flags, has_valid_pte) =>
        let file_offset := sat_add (r_file_offset region) (sat_sub copy_start (r_start region)) in
        let file_page := file_offset / PAGE_SIZE in
        if negb (shared_file_page_needs_writeback c ms (r_backing_id region) file_page frame flags) then []
        else [mkChunk file (r_backing_id region) file_page vpn flags has_valid_pte file_offset
                (slice_bytes (mem c frame) (sat_sub copy_start page_start) (copy_end - copy_start))]
    end.

Definition collect_shared_file_mmap_writeback_chunks (c : PageCache) (ms : MemorySet) (start end__ : Z)
    : list MmapWritebackChunk :=
  shared_file_vm_regions_overlapping ms start end__ ≫= fun region =>
    match bt_get (ms_mmap_backings ms) (r_backing_id region) with
    | None => []
    | Some backing =>
        let seg_start := Z.max start (r_start region) in
        let seg_end := Z.min (Z.min end__ (end_ region)) (file_valid_end region) in
        if seg_end <=? seg_start then []
        else area_pages ms (floor (virt_addr (align_down_to_page seg_start))) (ceil (virt_addr seg_end))
               ≫= writeback_chunk c ms region (bk_file backing) seg_start seg_end
    end.

Fixpoint set_saved_in_areas (areas : list MapArea) (vpn flags : Z) : bool * list MapArea :=
  match areas with
  | [] => (false, [])
  | a :: areas =>
      if Area.contains_vpn a vpn then
        match Area.set_saved_pte_flags a vpn flags with
        | (true, a) => (true, a :: areas)
        | (false, a) => let (b, areas) := set_saved_in_areas areas vpn flags in (b, a :: areas)
        end
      else let (b, areas) := set_saved_in_areas areas vpn flags in (b, a :: areas)
  end.
Definition set_saved_pte_flags (ms : MemorySet) (vpn flags : Z) : bool * MemorySet :=
  let (b, areas) := set_saved_in_areas (ms_areas ms) vpn flags in (b, ms {{ ms_areas := areas }}).

Section Writeback.

(** The file system: [is_os_inode] tells the regular files; [pwrite] takes the
    offset and the bytes and returns the new state of the file system, or fails
    (in the write or the flush). *)
Variable FS : Type.
Variable is_os_inode : Z -> bool.
Variable pwrite : FS -> Z -> Z -> list Z -> option FS.

(** One chunk: [None] is the error result. *)
Definition writeback_one (clear_dirty : bool) (st : FS * PageCache * MemorySet * bool)
    (chunk : MmapWritebackChunk) : option (FS * PageCache * MemorySet * bool) :=
  let '(fs, c, ms, cleared) := st in
  if negb (is_os_inode (wc_file chunk)) then Some st
  else
    fs ← pwrite fs (wc_file chunk) (wc_file_offset chunk) (wc_data chunk);
    if clear_dirty && PTEFlags.contains (wc_flags chunk) PTEFlags.D then
      let flags := flags_remove (wc_flags chunk) PTEFlags.D in
      let '(changed, c, ms) :=
        if wc_has_valid_pte chunk
        then let (b, c) := set_pte_flags c ms (wc_vpn chunk) flags in (b, c, ms)
        else let (b, ms) := set_saved_pte_flags ms (wc_vpn chunk) flags in (b, c, ms) in
      if changed : bool
      then Some (fs, c, clear_mmap_backing_dirty_page ms (wc_backing_id chunk) (wc_file_page chunk), true)
      else Some (fs, c, ms, cleared)
    else Some (fs, c, ms, cleared).

(** The chunks up to the first failure, and whether one failed. *)
Fixpoint writeback_chunks (clear_dirty : bool) (st : FS * PageCache * MemorySet * bool)
    (chunks : list MmapWritebackChunk) : bool * (FS * PageCache * MemorySet * bool) :=
  match chunks with
  | [] => (true, st)
  | chunk :: chunks =>
      match writeback_one clear_dirty st chunk with
      | Some st => writeback_chunks clear_dirty st chunks
      | None => (false, st)
      end
  end.

(** [inl tt] is the error result; the pages written before it stay written. *)
Definition writeback_shared_file_mmap_range (fs : FS) (c : PageCache) (ms : MemorySet) (start end__ : Z)
    (clear_dirty : bool) : option ((unit + bool) * FS * PageCache * MemorySet) :=
  let chunks := collect_shared_file_mmap_writeback_chunks c ms start end__ in
  let ids := foldl (fun ids chunk => push_unique_backing_id ids (wc_backing_id chunk)) [] chunks in
  let '(ok, (fs, c, ms, cleared)) := writeback_chunks clear_dirty (fs, c, ms, false) chunks in
  if negb ok then Some (inl tt, fs, c, ms)
  else
    '(c, ms) ← refresh_mmap_backing_states c ms ids;
    Some (inr cleared, fs, c, ms).

End Writeback.

(** ** File writes and truncations *)

Definition has_writable_shared_memfd_mapping (ms : MemorySet) (memfd_id : Z) : bool :=
  existsb (fun e => let region := e.2 : VmRegion in
    (r_memfd_id region =? memfd_id) && r_shared region
    && MapPermission.contains (r_map_perm region) MapPermission.W) (ms_vm_regions ms).

Definition file_vm_copy_targets (ms : MemorySet) (dev ino write_off len : Z)
    : list (Z * Z * Z) * MemorySet :=
  let (pending, s) := file_copy_targets (ms_vm_regions ms) dev ino write_off len in
  (pending, ms {{ ms_vm_regions := s }}).

(** The frame a mirrored write goes to: of the first area with the page resident,
    unless the page is not a user page. *)
Fixpoint mirror_target (c : PageCache) (ms : MemorySet) (areas : list MapArea) (vpn : Z) : option Z :=
  match areas with
  | [] => None
  | area :: areas =>
      if negb (Area.contains_perm area MapPermission.U) || negb (Area.contains_vpn area vpn)
      then mirror_target c ms areas vpn
      else
        match resident_page_for_vpn c ms area vpn with
        | None => mirror_target c ms areas vpn
        | Some (frame, flags, _) => if PTEFlags.contains flags PTEFlags.U then Some frame else None
        end
  end.

Definition write_page_bytes (c : PageCache) (p off : Z) (data : list Z) : PageCache :=
  with_mem c (Tracker.set_page (mem c) p (splice (mem c p) (Z.to_nat off) data)).

Fixpoint copy_to_resident_loop (fuel : nat) (c : PageCache) (ms : MemorySet) (start : Z) (data : list Z)
    (copied : Z) : PageCache :=
  match fuel with
  | O => c
  | S fuel =>
      let total := Z.of_nat (length data) in
      if copied <? total then
        let va := sat_add start copied in
        let page_off := Z.land va (PAGE_SIZE - 1) in
        let len := Z.min (PAGE_SIZE - page_off) (total - copied) in
        let c := match mirror_target c ms (ms_areas ms) (floor (virt_addr va)) with
                 | Some frame => write_page_bytes c frame page_off (slice_bytes data copied len)
                 | None => c
                 end in
        copy_to_resident_loop fuel c ms start data (copied + len)
      else c
  end.
Definition copy_to_resident_user_bytes (c : PageCache) (ms : MemorySet) (start : Z) (data : list Z)
    : PageCache :=
  copy_to_resident_loop (length data) c ms start data 0.

Definition mirror_region (ms : MemorySet) (write_off write_end : Z) (data : list Z)
    (st : PageCache * list Z) (region : VmRegion) : PageCache * list Z :=
  let '(c, ids) := st in
  match checked_add (r_file_offset region) (r_len region),
        checked_add (r_file_offset region) (file_mapped_len region) with
  | Some region_file_end, Some mapped_file_end =>
      let overlap_start := Z.max write_off (r_file_offset region) in
      let overlap_end := Z.min (Z.min write_end region_file_end) mapped_file_end in
      if overlap_end <=? overlap_start then st
      else
        let dst := sat_add (r_start region) (sat_sub overlap_start (r_file_offset region)) in
        let src_off := sat_sub overlap_start write_off in
        (copy_to_resident_user_bytes c ms dst (slice_bytes data src_off (overlap_end - overlap_start)),
         push_unique_backing_id ids (r_backing_id region))
  | _, _ => st
  end.

Definition mirror_shared_file_write_to_resident_mmaps (c : PageCache) (ms : MemorySet) (dev ino write_off : Z)
    (data : list Z) : option (PageCache * MemorySet) :=
  match data with
  | [] => Some (c, ms)
  | _ =>
      let write_end := sat_add write_off (Z.of_nat (length data)) in
      let regions := List.filter (fun region =>
        r_shared region && r_file_backed region && (r_file_dev region =? dev) && (r_file_ino region =? ino))
        (bt_values (ms_vm_regions ms)) in
      match regions with
      | [] => Some (c, ms)
      | _ =>
          let (c, ids) := foldl (mirror_region ms write_off write_end data) (c, []) regions in
          refresh_mmap_backing_states c ms ids
      end
  end.

Fixpoint zero_mapped_loop (fuel : nat) (c : PageCache) (ms : MemorySet) (cur end__ : Z) : PageCache :=
  match fuel with
  | O => c
  | S fuel =>
      if cur <? end__ then
        let va := virt_addr cur in
        let len := Z.min (PAGE_SIZE - page_offset va) (end__ - cur) in
        let c := match mtranslate c ms (floor va) with
                 | Some pte =>
                     if pte_is_valid pte && PTEFlags.contains (pte_flags pte) PTEFlags.U
                     then write_page_bytes c (pte_ppn pte) (page_offset va) (replicate (Z.to_nat len) 0)
                     else c
                 | None => c
                 end in
        zero_mapped_loop fuel c ms (cur + len) end__
      else c
  end.
Definition zero_mapped_user_bytes (c : PageCache) (ms : MemorySet) (start end__ : Z) : PageCache :=
  zero_mapped_loop (S (Z.to_nat ((end__ - start) / PAGE_SIZE + 1))) c ms start end__.

Record SizeUpdate := mkSizeUpdate {
  su_start : Z;
  su_end : Z;
  su_old_valid_len : Z;
  su_new_valid_len : Z;
  su_old_sigbus : Z;
  su_new_sigbus : Z;
  su_perm : Z;
  su_backing_id : Z
}.

Definition size_update (dev ino file_size : Z) (region : VmRegion) : option SizeUpdate :=
  if negb (r_file_backed region) || negb (r_file_dev region =? dev) || negb (r_file_ino region =? ino) then None
  else
    let new_valid_len := Z.min (sat_sub file_size (r_file_offset region)) (r_len region) in
    let new_sigbus := sat_add (r_start region) (Z.min (align_up_to_page new_valid_len) (r_len region)) in
    Some (mkSizeUpdate (r_start region) (end_ region) (file_valid_len region) new_valid_len
            (r_sigbus_start region) new_sigbus (r_map_perm region) (r_backing_id region)).

(** The three loops of [update_file_vm_size]: shrinking metadata and clearing the
    rest of the last page; the new SIGBUS tails; the pages that become valid. *)
Definition shrink_valid (dev ino : Z) (st : PageCache * MemorySet) (u : SizeUpdate) : PageCache * MemorySet :=
  let '(c, ms) := st in
  let ms := if su_new_sigbus u <=? su_old_sigbus u
            then ms {{ ms_vm_regions := snd (set_file_valid_by_identity (ms_vm_regions ms) (su_start u) dev ino
                                          (su_new_valid_len u) (su_new_sigbus u)) }}
            else ms in
  if su_new_valid_len u <? su_old_valid_len u then
    let zero_start := sat_add (su_start u) (su_new_valid_len u) in
    let zero_end := sat_add (su_start u)
      (Z.min (Z.min (align_up_to_page (su_new_valid_len u)) (align_up_to_page (su_old_valid_len u)))
             (sat_sub (su_old_sigbus u) (su_start u))) in
    (if zero_start <? zero_end then zero_mapped_user_bytes c ms zero_start zero_end else c, ms)
  else (c, ms).

Definition make_sigbus_tail (k : Kernel) (st : bool * PageCache * MemorySet) (u : SizeUpdate)
    : option (bool * PageCache * MemorySet) :=
  let '(ok, c, ms) := st in
  if su_new_sigbus u <? su_old_sigbus u then
    '(c, ms) ← unmap_user_range c ms (virt_addr (su_new_sigbus u)) (virt_addr (su_end u));
    if su_new_sigbus u <? su_end u then
      '(inserted, c, ms) ← try_insert_lazy_area_raw k c ms (virt_addr (su_new_sigbus u)) (virt_addr (su_end u))
                             MapPermission.U;
      Some (ok && inserted, c, ms)
    else Some (ok, c, ms)
  else Some (ok, c, ms).

Definition make_tail_valid (k : Kernel) (dev ino : Z) (st : bool * PageCache * MemorySet) (u : SizeUpdate)
    : option (bool * PageCache * MemorySet) :=
  let '(ok, c, ms) := st in
  if su_old_sigbus u <? su_new_sigbus u then
    '(c, ms) ← unmap_user_range c ms (virt_addr (su_old_sigbus u)) (virt_addr (su_new_sigbus u));
    '(inserted, c, ms) ← try_insert_lazy_area_raw k c ms (virt_addr (su_old_sigbus u))
                           (virt_addr (su_new_sigbus u)) (su_perm u);
    if negb inserted then Some (false, c, ms)
    else Some (ok, c, ms {{ ms_vm_regions := snd (set_file_valid_by_identity (ms_vm_regions ms) (su_start u)
                                                dev ino (su_new_valid_len u) (su_new_sigbus u)) }})
  else Some (ok, c, ms).

Definition update_file_vm_size (k : Kernel) (c : PageCache) (ms : MemorySet) (dev ino file_size : Z)
    : option (bool * PageCache * MemorySet) :=
  let updates := omap (size_update dev ino file_size) (bt_values (ms_vm_regions ms)) in
  match updates with
  | [] => Some (true, c, ms)
  | _ =>
      let (c, ms) := foldl (shrink_valid dev ino) (c, ms) updates in
      st ← foldl_opt (make_sigbus_tail k) (true, c, ms) updates;
      '(ok, c, ms) ← foldl_opt (make_tail_valid k dev ino) st updates;
      '(c, ms) ← refresh_mmap_backing_states c ms
                   (foldl (fun ids u => push_unique_backing_id ids (su_backing_id u)) [] updates);
      Some (ok, c, ms)
  end.
