(* ===== verification/ForkCow.v ===== *)
(** * Copying address spaces

    [MemorySet::from_existed_user_cow] and [from_existed_user] of
    [mm/memory_set.rs]: the address space of a child process.  The first shares
    the user pages and makes the writable ones copy-on-write in both address
    spaces, the second copies every page. *)

From S2P Require Import Prelude.
From S2P Require Import BTree.
From S2P Require Import Ids.
From S2P Require Import Address.
From S2P Require Import FrameAlloc.
From S2P Require Import PageCache.
From S2P Require Import VmRegion.
From S2P Require Import VmRegionSet.
From S2P Require Import PageTable.
From S2P Require Import MapArea.
From S2P Require Import Backing.
From S2P Require Import MemorySet.

(** Where a copy is: the frame store, the page table of the child with its walk
    cache, the walk cache of the parent, and the area of the child. *)
Record CopyState := mkCopy {
  cp_world : PageCache;
  cp_table : PageTable;
  cp_dst_cache : PageWalkCache;
  cp_src_cache : PageWalkCache;
  cp_area : MapArea
}.
#[export] Instance fields_CopyState : Fields CopyState := fun s =>
  mkCopy (cp_world s) (cp_table s) (cp_dst_cache s) (cp_src_cache s) (cp_area s).

(** [memory_set.page_table.map_cached(vpn, ppn, flags, &mut dst_walk_cache)] *)
Definition copy_map (s : CopyState) (vpn ppn flags : Z) : option CopyState :=
  '(c, pt, w) ← map_cached (cp_world s) (cp_table s) vpn ppn flags (cp_dst_cache s);
  Some (s {{ cp_world := c; cp_table := pt; cp_dst_cache := w }}).

(** [new_area.insert_tracked_frame(vpn, frame)] *)
Definition copy_track (s : CopyState) (vpn p : Z) : option CopyState :=
  '(c, a) ← Area.insert_tracked_frame (cp_world s) (cp_area s) vpn p;
  Some (s {{ cp_world := c; cp_area := a }}).

(** [frame.ppn.get_bytes_array().copy_from_slice(src_ppn.get_bytes_array())] *)
Definition copy_page (c : PageCache) (dst src : Z) : PageCache :=
  with_mem c (Tracker.set_page (mem c) dst (mem c src)).

(** A page of an identical mapping. *)
Definition copy_identical_page (src : PageTable) (s : CopyState) (vpn : Z) : option CopyState :=
  match translate_cached (mem (cp_world s)) src vpn (cp_src_cache s) with
  | (None, w) => Some (s {{ cp_src_cache := w }})
  | (Some pte, w) =>
      let s := s {{ cp_src_cache := w }} in
      if pte_is_valid pte then copy_map s vpn (pte_ppn pte) (pte_flags pte) else Some s
  end.

(** The flags of a user page after the fork, and whether they change. *)
Definition cow_demote (src_flags : Z) : Z * bool :=
  let writable := PTEFlags.contains src_flags PTEFlags.W || PTEFlags.contains src_flags PTEFlags.D in
  if writable && negb (PTEFlags.contains src_flags PTEFlags.SHARED)
  then (Z.lor (flags_remove (flags_remove src_flags PTEFlags.W) PTEFlags.D) PTEFlags.COW, true)
  else (src_flags, false).

(** A page of a framed or lazy area in [from_existed_user_cow]. *)
Definition cow_page (src : PageTable) (s : CopyState) (e : Z * Z) : option CopyState :=
  let '(vpn, tracker) := e in
  match translate_cached (mem (cp_world s)) src vpn (cp_src_cache s) with
  | (None, w) => Some (s {{ cp_src_cache := w }})
  | (Some pte, w) =>
      let s := s {{ cp_src_cache := w }} in
      if negb (pte_is_valid pte) then Some s
      else
        let src_ppn := pte_ppn pte in
        let src_flags := pte_flags pte in
        if negb (PTEFlags.contains src_flags PTEFlags.U) then
          '(frame, c) ← frame_alloc (cp_world s);
          let s := s {{ cp_world := c }} in
          match frame with
          | None => Some s
          | Some frame =>
              let s := s {{ cp_world := copy_page (cp_world s) frame src_ppn }} in
              s ← copy_map s vpn frame src_flags;
              copy_track s vpn frame
          end
        else
          let (flags, demoted) := cow_demote src_flags in
          let s :=
            if demoted then
              let '(_, c, w) := set_flags_cached (cp_world s) src vpn flags (cp_src_cache s) in
              s {{ cp_world := c; cp_src_cache := w }}
            else s in
          s ← copy_map s vpn src_ppn flags;
          copy_track (s {{ cp_world := clone_frame (cp_world s) tracker }}) vpn tracker
  end.

(** A page of a framed or lazy area in [from_existed_user]. *)
Definition deep_page (src : PageTable) (area : MapArea) (s : CopyState) (vpn : Z) : option CopyState :=
  match translate_cached (mem (cp_world s)) src vpn (cp_src_cache s) with
  | (None, w) => Some (s {{ cp_src_cache := w }})
  | (Some pte, w) =>
      let s := s {{ cp_src_cache := w }} in
      if negb (pte_is_valid pte) then Some s
      else
        '(frame, c) ← frame_alloc (cp_world s);
        let s := s {{ cp_world := c }} in
        match frame with
        | None => Some s
        | Some frame =>
            let s := s {{ cp_world := copy_page (cp_world s) frame (pte_ppn pte) }} in
            s ← copy_map s vpn frame (Area.area_flags area);
            copy_track s vpn frame
        end
  end.

(** One area: the state starts with both walk caches reset. *)
Definition copy_area (deep : bool) (src : PageTable) (st : PageCache * MemorySet * PageWalkCache * PageWalkCache)
    (area : MapArea) : option (PageCache * MemorySet * PageWalkCache * PageWalkCache) :=
  let '(c, child, src_w, dst_w) := st in
  let s := mkCopy c (ms_page_table child) (walk_cache_reset dst_w) (walk_cache_reset src_w)
             (Area.from_another area) in
  s ← match ma_type area with
      | Identical => foldl_opt (copy_identical_page src) s (Area.pages (ma_range area))
      | _ => if deep then foldl_opt (deep_page src area) s (map fst (ma_frames area))
             else foldl_opt (cow_page src) s (ma_frames area)
      end;
  Some (cp_world s, push_mapped_raw (child {{ ms_page_table := cp_table s }}) (cp_area s),
        cp_src_cache s, cp_dst_cache s).

(** The clone of the backings clones their trackers. *)
Definition inherit_user_vm_metadata_from (c : PageCache) (ms parent : MemorySet) : PageCache * MemorySet :=
  (foldl (fun c e => Backing.clone c e.2) c (ms_mmap_backings parent),
   ms {{ ms_vm_regions := VmaSet.mark_fork_inherited_anonymous_mmap (ms_vm_regions parent);
         ms_sysv_shm_attaches := ms_sysv_shm_attaches parent;
         ms_mmap_backings := ms_mmap_backings parent;
         ms_next_mmap_backing_id := ms_next_mmap_backing_id parent;
         ms_heap_start := ms_heap_start parent;
         ms_brk := ms_brk parent;
         ms_mmap_next := ms_mmap_next parent;
         ms_mmap_topdown_cursor := ms_mmap_topdown_cursor parent;
         ms_mmap_aslr_offset := ms_mmap_aslr_offset parent;
         ms_trap_context_slots := ms_trap_context_slots parent }}).

(** The parent keeps its areas; its page table changes in memory only. *)
Definition copy_user_space (deep : bool) (k : Kernel) (c : PageCache) (user_space : MemorySet) (aslr : Z)
    : option (MemorySet * PageCache) :=
  '(child, c) ← new_bare c aslr;
  '(ok, c, child) ← map_user_trampoline_pages k c child;
  if negb ok then None
  else
    '(c, child, _, _) ← foldl_opt (copy_area deep (ms_page_table user_space))
                          (c, child, walk_cache_new, walk_cache_new) (ms_areas user_space);
    let (c, child) := inherit_user_vm_metadata_from c child user_space in
    Some (child, c).

Definition from_existed_user_cow := copy_user_space false.
Definition from_existed_user := copy_user_space true.
