(* ===== verification/ForkSteps.v ===== *)
(** * The steps of a copy-on-write fork

    Two page tables in one machine: that of the parent, whose writable pages are
    made copy-on-write, and that of the child, which gets the same frames.  What
    [cow_page] does to one page, and how pages, areas and whole address spaces
    follow from it. *)

From S2P Require Import Prelude.
From S2P Require Import BTree.
From S2P Require Import Address.
From S2P Require Import FrameAlloc.
From S2P Require Import PageCache.
From S2P Require Import VmRegion.
From S2P Require Import PageTable.
From S2P Require Import MapArea.
From S2P Require Import World.
From S2P Require Import SpaceTable.
From S2P Require Import Backing.
From S2P Require Import MemorySet.
From S2P Require Import ForkCow.

(** ** Flags *)

Lemma forall_flags (P : Z -> bool) : forallb P (seqZ 0 1024) = true -> forall f, is_flags f -> P f = true.
Proof. rewrite forallb_forall. intros HP f Hf. apply HP, list_elem_of_In, elem_of_seqZ. unfold is_flags in Hf. lia. Qed.

Definition is_flagsb (f : Z) : bool := (0 <=? f) && (f <? 1024).
Lemma is_flagsb_spec f : is_flagsb f = true <-> is_flags f.
Proof. unfold is_flagsb, is_flags. rewrite andb_true_iff, Z.leb_le, Z.ltb_lt. done. Qed.

Abbreviation has f g := (PTEFlags.contains f g).

(** A page a user program can store to without anyone else being meant to see it. *)
Definition private_writable (pte : Z) : bool :=
  let f := pte_flags pte in
  has f PTEFlags.V && has f PTEFlags.U && has f PTEFlags.W && negb (has f PTEFlags.SHARED).

Lemma cow_demote_flags f : is_flags f ->
  is_flags (cow_demote f).1 /\ negb (has (cow_demote f).1 PTEFlags.W) || has (cow_demote f).1 PTEFlags.SHARED = true /\
  has (Z.lor (cow_demote f).1 PTEFlags.V) PTEFlags.U = has f PTEFlags.U /\
  ((cow_demote f).2 = false -> (cow_demote f).1 = f).
Proof.
  intros Hf. rewrite <- is_flagsb_spec.
  pose proof (forall_flags (fun f => is_flagsb (cow_demote f).1 &&
    (negb (has (cow_demote f).1 PTEFlags.W) || has (cow_demote f).1 PTEFlags.SHARED) &&
    Bool.eqb (has (Z.lor (cow_demote f).1 PTEFlags.V) PTEFlags.U) (has f PTEFlags.U) &&
    ((cow_demote f).2 || ((cow_demote f).1 =? f))) ltac:(vm_compute; reflexivity) f Hf) as H.
  rewrite !andb_true_iff, eqb_true_iff in H. destruct H as [[[H1 H2] H3] H4]. split_and!; [done..|].
  intros Hd. rewrite Hd in H4. simpl in H4. lia.
Qed.

Lemma pte_flags_is_flags pte : is_flags (pte_flags pte).
Proof. rewrite pte_flags_eq. unfold is_flags. apply Z.mod_pos_bound. lia. Qed.

(** ** The entries of a page after the fork *)

Definition parent_pte (pte : Z) : Z :=
  let (flags, demoted) := cow_demote (pte_flags pte) in
  if demoted then pte_new (pte_ppn pte) (Z.lor flags PTEFlags.V) else pte.
Definition child_pte (pte : Z) : Z :=
  pte_new (pte_ppn pte) (Z.lor (cow_demote (pte_flags pte)).1 PTEFlags.V).

(** [old] is the entry before the fork, [par] and [chi] those of parent and child after
    it.  A page of the kernel (the trap context) is copied, unless memory is
    exhausted. *)
Definition page_forked (c c' : PageCache) (old par chi : Z) : Prop :=
  if negb (pte_is_valid old) then par = old /\ pte_is_valid chi = false
  else if has (pte_flags old) PTEFlags.U then par = parent_pte old /\ chi = child_pte old
  else par = old /\
    ((pte_is_valid chi = false /\ exhausted c) \/
     exists f, is_ppn f /\ chi = pte_new f (Z.lor (pte_flags old) PTEFlags.V) /\ mem c' f = mem c (pte_ppn old)).

Lemma demoted_pte pte (f := (cow_demote (pte_flags pte)).1) :
  is_pte (pte_new (pte_ppn pte) (Z.lor f PTEFlags.V)) /\ pte_ppn (pte_new (pte_ppn pte) (Z.lor f PTEFlags.V)) = pte_ppn pte /\
  pte_flags (pte_new (pte_ppn pte) (Z.lor f PTEFlags.V)) = Z.lor f PTEFlags.V /\
  pte_is_valid (pte_new (pte_ppn pte) (Z.lor f PTEFlags.V)) = true.
Proof.
  destruct (cow_demote_flags (pte_flags pte) (pte_flags_is_flags _)) as (Hf & _). fold f in Hf.
  destruct (pte_new_spec (pte_ppn pte) _ (pte_ppn_is_ppn pte) (leaf_flags _ Hf)) as (? & ? & ?).
  split_and!; [done..|]. apply pte_valid_new; [apply pte_ppn_is_ppn|done].
Qed.

Lemma parent_pte_spec pte : pte_is_valid pte = true ->
  pte_ppn (parent_pte pte) = pte_ppn pte /\ pte_is_valid (parent_pte pte) = true.
Proof.
  intros Hv. unfold parent_pte. destruct (demoted_pte pte) as (_ & Hp & _ & Hv'). revert Hp Hv'.
  destruct (cow_demote (pte_flags pte)) as [fl []]; cbn; auto.
Qed.

(** ** Two tables *)

Section Steps.

Context (shared : Z -> Prop) (K : list Z) (P : PageTable).
Abbreviation table_in := (SpaceTable.table_in shared K).
Abbreviation tstep := (SpaceTable.tstep shared K).
Abbreviation user_vpn := (SpaceTable.user_vpn shared).
Abbreviation view c pt vpn := (pt_view (mem c) (pt_root_ppn pt) vpn).

Record pair_in (c : PageCache) (E F : list Z) (C : PageTable) : Prop := {
  pr_parent : table_in c E F P;
  pr_child : table_in c E F C;
  pr_apart : forall q, q ∈ pt_frames P -> q ∉ pt_frames C
}.

(** All other tables, and the root entries of the kernel, are as before. *)
Record keeps_tables (c : PageCache) (E : list Z) (C : PageTable) (c' : PageCache) : Prop := {
  kt_mem : forall q, q ∈ E -> q ∉ pt_frames P -> q ∉ pt_frames C -> mem c' q = mem c q;
  kt_roots : forall i, shared i -> is_index i ->
    pte_at (mem c') (pt_root_ppn P) i = pte_at (mem c) (pt_root_ppn P) i /\
    pte_at (mem c') (pt_root_ppn C) i = pte_at (mem c) (pt_root_ppn C) i
}.

Lemma keeps_tables_trans c E C c1 E1 C1 c2 :
  keeps_tables c E C c1 -> keeps_tables c1 E1 C1 c2 -> pt_root_ppn C1 = pt_root_ppn C ->
  (forall q, q ∈ E -> q ∉ pt_frames C -> q ∈ E1 /\ q ∉ pt_frames C1) -> keeps_tables c E C c2.
Proof.
  intros [M1 R1] [M2 R2] Hr Hs. split.
  - intros q Hq HP HC. destruct (Hs q Hq HC). rewrite M2 by done. by apply M1.
  - intros i Hi Hx. destruct (R1 i Hi Hx) as [<- <-]. rewrite <- Hr. by apply R2.
Qed.

Lemma keeps_tables_mem c c' C E F :
  pair_in c E F C -> (forall q, q ∈ E -> mem c' q = mem c q) -> keeps_tables c E C c'.
Proof.
  intros [HP HC _] Hm. split; [auto|]. intros i _ _. unfold pte_at.
  rewrite !Hm; [done|..]; [apply (ti_sub _ _ _ _ _ _ HC)|apply (ti_sub _ _ _ _ _ _ HP)]; apply elem_of_app; left; [apply HC|apply HP].
Qed.

(** What is in the new frames: pages of the parent, or nothing anyone has. *)
Definition data_of (c c' : PageCache) (F vpns : list Z) (q : Z) : Prop :=
  q ∉ trackers c' F \/
  exists vpn, vpn ∈ vpns /\ pte_is_valid (view c P vpn) = true /\ q = pte_ppn (view c P vpn).

(** The frames a table got are not among those that were there. *)
Lemma new_frames_apart c E' F' C E C' new q :
  table_in c E' F' C' -> E' ≡ₚ new ++ E -> pt_frames C' ≡ₚ new ++ pt_frames C ->
  q ∈ E -> q ∉ pt_frames C -> q ∈ E' /\ q ∉ pt_frames C'.
Proof.
  intros [W _ _ _] HE HC Hq Hn. pose proof (wk_nodup _ _ _ W) as Hnd. rewrite HE in Hnd.
  destruct (proj1 (NoDup_app _ _) Hnd) as (_ & Hd & _).
  rewrite HE, HC, !elem_of_app. split; [by right|]. intros [?|?]; [by eapply Hd|done].
Qed.

(** The pages [vpns] have been forked, everything else is as it was: the other
    entries of both tables, and all data. *)
Record fstep (c : PageCache) (E F : list Z) (C : PageTable)
    (c' : PageCache) (E' F' : list Z) (C' : PageTable) (vpns : list Z) : Prop := {
  fs_pair : pair_in c' E' F' C';
  fs_evolves : evolves c c';
  fs_root : pt_root_ppn C' = pt_root_ppn C;
  fs_tables : exists new, E' ≡ₚ new ++ E /\ pt_frames C' ≡ₚ new ++ pt_frames C /\
    (length new <= 2 * length vpns)%nat;
  fs_data : exists new, F' ≡ₚ new ++ F /\ (length new <= length vpns)%nat /\ Forall (data_of c c' F vpns) new;
  fs_keeps : forall q, q ∈ trackers c' F -> mem c' q = mem c q;
  fs_pages : forall vpn, vpn ∈ vpns -> page_forked c c' (view c P vpn) (view c' P vpn) (view c' C' vpn);
  fs_tracked : forall vpn, vpn ∈ vpns -> pte_is_valid (view c' C' vpn) = true -> pte_ppn (view c' C' vpn) ∈ F';
  fs_other : forall vpn, is_vpn vpn -> vpn ∉ vpns ->
    view c' P vpn = view c P vpn /\ view c' C' vpn = view c C vpn;
  fs_nodes : forall p x, path_ok p -> (node (mem c) (pt_root_ppn P) p = Some x -> node (mem c') (pt_root_ppn P) p = Some x) /\
    (node (mem c) (pt_root_ppn C) p = Some x -> node (mem c') (pt_root_ppn C) p = Some x);
  fs_kernel : keeps_tables c E C c'
}.

Lemma fstep_refl c E F C : pair_in c E F C -> fstep c E F C c E F C [].
Proof.
  intros Hp. split; try done.
  - by exists [].
  - by exists [].
  - by intros ? ?%elem_of_nil.
  - by intros ? ?%elem_of_nil.
Qed.

(** Later steps keep the copy of a kernel page, and earlier ones the original. *)
Lemma page_forked_widen c c1 c2 c3 old par chi :
  evolves c c1 -> page_forked c1 c2 old par chi ->
  (pte_is_valid chi = true -> mem c3 (pte_ppn chi) = mem c2 (pte_ppn chi)) ->
  (pte_is_valid old = true -> mem c1 (pte_ppn old) = mem c (pte_ppn old)) ->
  page_forked c c3 old par chi.
Proof.
  intros Hev. unfold page_forked. destruct (pte_is_valid old); cbn; [|done].
  destruct (has (pte_flags old) PTEFlags.U); cbn; [done|].
  intros [Hpar [[? ?]|(f & Hf & -> & Hm)]] Hk Ho; (split; [done|]).
  { left. split; [done|]. by eapply exhausted_after. }
  right. exists f. split_and!; [done..|].
  destruct (pte_new_spec f _ Hf (leaf_flags _ (pte_flags_is_flags old))) as (_ & Hp & _). rewrite Hp in Hk.
  rewrite Hk, Hm; [by apply Ho|]. apply pte_valid_new; [done|apply pte_flags_is_flags].
Qed.

Lemma fstep_trans c E F C c1 E1 F1 C1 v1 c2 E2 F2 C2 v2 :
  fstep c E F C c1 E1 F1 C1 v1 -> fstep c1 E1 F1 C1 c2 E2 F2 C2 v2 ->
  (forall vpn, vpn ∈ v1 \/ vpn ∈ v2 -> is_vpn vpn) -> (forall vpn, vpn ∈ v1 -> vpn ∉ v2) ->
  (forall vpn, vpn ∈ v2 -> pte_is_valid (view c P vpn) = true -> pte_ppn (view c P vpn) ∈ F) ->
  fstep c E F C c2 E2 F2 C2 (v1 ++ v2).
Proof.
  intros [I1 V1 R1 (e1 & HE1 & HC1 & He1) (f1 & HF1 & Hf1 & D1) M1 G1 T1 O1 N1 K1]
    [I2 V2 R2 (e2 & HE2 & HC2 & He2) (f2 & HF2 & Hf2 & D2) M2 G2 T2 O2 N2 K2] Hvpn Hd Htr.
  assert (forall q, q ∈ F1 -> mem c2 q = mem c1 q) as MF1 by (intros; by apply M2, trackers_here).
  split; [done|by etrans|congruence|..].
  - exists (e2 ++ e1). rewrite HE2, HE1, HC2, HC1, !length_app. split_and!; [by rewrite app_assoc..|lia].
  - exists (f2 ++ f1). rewrite HF2, HF1, !length_app. split_and!; [by rewrite app_assoc|lia|].
    apply Forall_app. rewrite Forall_forall in D1, D2. split; apply Forall_forall; intros q Hq.
    + destruct (D2 q Hq) as [Hn|(vpn & Hin & Hv & ->)]; [left; intros Hin; apply Hn|right; exists vpn].
      * unfold trackers in *. rewrite HF1, !elem_of_app in *. tauto.
      * assert (vpn ∉ v1) as Hn by (intros ?; by eapply Hd).
        destruct (O1 vpn ltac:(auto) Hn) as [<- _]. split_and!; [apply elem_of_app; by right|done|done].
    + destruct (D1 q Hq) as [Hn|(vpn & Hin & Hv & ->)]; [left; intros Hin; apply Hn; by eapply evolves_elem|].
      right. exists vpn. split_and!; [apply elem_of_app; by left|done|done].
  - intros q Hq. rewrite M2; [apply M1; by eapply evolves_elem|].
    unfold trackers in *. rewrite HF1. rewrite !elem_of_app in *. tauto.
  - intros vpn [Hq|Hq]%elem_of_app.
    + destruct (O2 vpn ltac:(auto) ltac:(auto)) as [-> HC]. rewrite HC.
      eapply page_forked_widen; [reflexivity|by apply G1| |done]. intros Hv. by apply MF1, T1.
    + assert (vpn ∉ v1) as Hn by (intros ?; by eapply Hd).
      destruct (O1 vpn ltac:(auto) Hn) as [HP _]. specialize (G2 vpn Hq). rewrite HP in G2.
      eapply page_forked_widen; [done..|]. intros Hv. apply M1, trackers_here. auto.
  - intros vpn [Hq|Hq]%elem_of_app Hv; [|auto].
    destruct (O2 vpn ltac:(auto) ltac:(auto)) as [_ HC]. rewrite HC in *. rewrite HF2. apply elem_of_app. right. auto.
  - intros vpn Hv. rewrite not_elem_of_app. intros [? ?].
    destruct (O1 vpn Hv ltac:(done)) as [<- <-]. by apply O2.
  - intros p x Hp. destruct (N1 p x Hp) as [? ?], (N2 p x Hp) as [? ?]. rewrite R1 in *. auto.
  - eapply keeps_tables_trans; [done..|]. intros q Hq Hn. by eapply new_frames_apart; [apply I1|..].
Qed.

(** *** One page *)

Record copy_ok (s : CopyState) (E F : list Z) : Prop := {
  cpo_pair : pair_in (cp_world s) E F (cp_table s);
  cpo_src : cache_ok (mem (cp_world s)) (pt_root_ppn P) (cp_src_cache s);
  cpo_dst : cache_ok (mem (cp_world s)) (pt_root_ppn (cp_table s)) (cp_dst_cache s)
}.

Lemma demote_step s E F vpn fl :
  copy_ok s E F -> user_vpn vpn -> is_flags fl -> pte_is_valid (view (cp_world s) P vpn) = true ->
  has_room (cp_world s) (E ++ F) 2 ->
  let '(_, c', w) := set_flags_cached (cp_world s) P vpn fl (cp_src_cache s) in
  copy_ok (s {{ cp_world := c'; cp_src_cache := w }}) E F /\ evolves (cp_world s) c' /\
  view_set (mem (cp_world s)) (pt_root_ppn P) vpn
    (pte_new (pte_ppn (view (cp_world s) P vpn)) (Z.lor fl PTEFlags.V)) (mem c') /\
  (forall q, q ∉ pt_frames P -> mem c' q = mem (cp_world s) q) /\
  (forall p x, path_ok p -> node (mem (cp_world s)) (pt_root_ppn P) p = Some x -> node (mem c') (pt_root_ppn P) p = Some x) /\
  keeps_tables (cp_world s) E (cp_table s) c'.
Proof.
  intros [[HP HC Ha] Hs Hd] Hu Hf Hv Hr. set (c := cp_world s) in *.
  destruct (set_flags_cached_ok c P vpn fl _ Hs) as [Heq _].
  destruct (cached_walks_ok c (E ++ F) P vpn 0 fl _ (table_inv _ _ _ _ _ _ HP) Hr (proj1 Hu) ltac:(split; lia) Hf Hs)
    as (_ & _ & _ & _ & _ & Hcs).
  pose proof (update_leaf_tstep shared K c E F P vpn (fun pte => pte_new (pte_ppn pte) (Z.lor fl PTEFlags.V)) HP Hu) as Hup.
  cbv zeta in Hup. fold (set_flags c P vpn fl) in Hup.
  destruct (set_flags_cached c P vpn fl (cp_src_cache s)) as [[ok c'] w]. cbn in Heq, Hcs. subst.
  rewrite <- Heq in *. cbn in Hcs.
  destruct Hup as (-> & Ht & Hvs); [intros; by apply pte_new_spec; [apply pte_ppn_is_ppn|apply leaf_flags]|].
  rewrite Hv in Hvs. destruct (tstep_other _ _ _ _ _ _ _ _ _ _ Ht HC ltac:(set_solver)) as (HC' & Ha' & HmC).
  destruct (table_agree _ _ _ _ _ (ti_table _ _ _ _ _ _ HC) HmC) as (_ & HvC & HnC).
  split_and!; [|apply Ht|done|apply Ht|apply Ht|].
  2: { split; [intros q _ Hq _; by apply (ts_mem _ _ _ _ _ _ _ _ _ Ht)|]. intros i Hi Hx. split; [by apply (ts_kernel _ _ _ _ _ _ _ _ _ Ht)|].
       unfold pte_at. rewrite HmC; [done|]. apply elem_of_app. left. apply HC. }
  split; cbn; [split; [apply Ht|done|done]|done|]. eapply cache_ok_mono; [|done]. intros p x Hp Hx. by rewrite HnC.
Qed.

Lemma copy_map_step s E F vpn ppn fl :
  copy_ok s E F -> user_vpn vpn -> is_ppn ppn -> is_flags fl -> has_room (cp_world s) (E ++ F) 2 ->
  pte_is_valid (view (cp_world s) (cp_table s) vpn) = false ->
  match copy_map s vpn ppn fl with
  | Some s' =>
      exists new, copy_ok s' (new ++ E) F /\ evolves (cp_world s) (cp_world s') /\ (length new <= 2)%nat /\
        cp_area s' = cp_area s /\ pt_root_ppn (cp_table s') = pt_root_ppn (cp_table s) /\
        pt_frames (cp_table s') = pt_frames (cp_table s) ++ new /\
        view_set (mem (cp_world s)) (pt_root_ppn (cp_table s)) vpn (pte_new ppn (Z.lor fl PTEFlags.V)) (mem (cp_world s')) /\
        (forall q, q ∉ pt_frames (cp_table s') -> mem (cp_world s') q = mem (cp_world s) q) /\
        (forall p x, path_ok p -> node (mem (cp_world s)) (pt_root_ppn (cp_table s)) p = Some x ->
           node (mem (cp_world s')) (pt_root_ppn (cp_table s)) p = Some x) /\
        keeps_tables (cp_world s) E (cp_table s) (cp_world s')
  | None => exhausted (cp_world s)
  end.
Proof.
  intros [[HP HC Ha] Hs Hd] Hu Hp Hf Hr Hv. unfold copy_map. set (c := cp_world s) in *. set (C := cp_table s) in *.
  destruct (cached_walks_ok c (E ++ F) C vpn ppn fl _ (table_inv _ _ _ _ _ _ HC) Hr (proj1 Hu) Hp Hf Hd)
    as (Heq & Hcm & _).
  pose proof (map_tstep shared K c E F C vpn ppn fl HC Hr Hu Hp Hf) as Hm. rewrite <- Heq in Hm.
  destruct (map_cached c C vpn ppn fl (cp_dst_cache s)) as [[[c' C'] w]|]; cbn in *.
  - destruct Hm as (new & Ht & Hl & _ & Hvs).
    destruct (tstep_other _ _ _ _ _ _ _ _ _ _ Ht HP ltac:(done)) as (HP' & Ha' & HmP).
    destruct (table_agree _ _ _ _ _ (ti_table _ _ _ _ _ _ HP) HmP) as (_ & HvP & HnP).
    exists new. split_and!; [|apply Ht|done|done|apply Ht|apply Ht|done|apply Ht|apply Ht|].
    2: { split; [intros q Hq _ Hn; apply (ts_mem _ _ _ _ _ _ _ _ _ Ht)|].
         { eapply new_frames_apart; [apply Ht|reflexivity| |done|done].
           rewrite (ts_frames _ _ _ _ _ _ _ _ _ Ht). apply Permutation_app_comm. }
         intros i Hi Hx. split; [|by apply (ts_kernel _ _ _ _ _ _ _ _ _ Ht)].
         unfold pte_at. rewrite HmP; [done|]. apply elem_of_app. left. apply HP. }
    split; cbn; [split; [done|apply Ht|done]| |by apply Hcm].
    eapply cache_ok_mono; [|done]. intros p x Hpp Hx. by rewrite HnP.
  - destruct Hm as [Hm|Hm]; [congruence|done].
Qed.

Lemma view_kept c c' E F pt vpn :
  table_in c E F pt -> (forall q, q ∈ pt_frames pt ++ K -> mem c' q = mem c q) -> view c' pt vpn = view c pt vpn.
Proof. intros Hin Hm. by apply (table_agree _ _ _ _ _ (ti_table _ _ _ _ _ _ Hin) Hm). Qed.

(** The data pages change hands while both tables stay. *)
Lemma copy_ok_data s E F c' F' a :
  copy_ok s E F -> world_ok c' E F' -> (forall q, q ∈ E -> mem c' q = mem (cp_world s) q) ->
  copy_ok (s {{ cp_world := c'; cp_area := a }}) E F'.
Proof.
  intros [[HP HC Ha] Hs Hd] W' Hm.
  assert (forall pt, table_in (cp_world s) E F pt ->
    forall p x, path_ok p -> node (mem (cp_world s)) (pt_root_ppn pt) p = Some x -> node (mem c') (pt_root_ppn pt) p = Some x) as Hn.
  { intros pt [W T S _] p x Hp Hx. destruct (table_agree _ _ _ _ _ T (fun q Hq => Hm q (S q Hq))) as (_ & _ & Hn).
    by rewrite Hn. }
  split; cbn; [split; [by eapply table_in_data..|done]|eapply cache_ok_mono; [by apply Hn|done]..].
Qed.

(** The state of the copy after a page the child maps to the frame [p]. *)
Definition tracked_page (s s' : CopyState) (vpn p : Z) : Prop :=
  cp_area s' = (cp_area s) {{ ma_frames := bt_insert (ma_frames (cp_area s)) vpn p }}.

Lemma copy_track_fresh s vpn p :
  bt_get (ma_frames (cp_area s)) vpn = None ->
  copy_track s vpn p = Some (s {{ cp_area := (cp_area s) {{ ma_frames := bt_insert (ma_frames (cp_area s)) vpn p }} }}).
Proof. intros Hg. unfold copy_track, Area.insert_tracked_frame. rewrite Hg. cbn. by destruct s. Qed.

Lemma sep_parent c E F C q : pair_in c E F C -> q ∈ pt_frames P ++ K -> q ∉ pt_frames C.
Proof. intros [HP HC Ha] [Hq|Hq]%elem_of_app; [by apply Ha|by apply HC]. Qed.
Lemma sep_child c E F C q : pair_in c E F C -> q ∈ pt_frames C ++ K -> q ∉ pt_frames P.
Proof. intros [HP HC Ha] [Hq|Hq]%elem_of_app; [intros ?; by eapply Ha|by apply HP]. Qed.

Section OnePage.
Context (s : CopyState) (E F : list Z) (vpn tracker : Z).
Abbreviation c := (cp_world s).
Abbreviation C := (cp_table s).
Abbreviation old := (view c P vpn).
Hypothesis Hok : copy_ok s E F.
Hypothesis Hroom : has_room c (E ++ F) 3.
Hypothesis Hu : user_vpn vpn.
Hypothesis Htr : tracker ∈ F.
Hypothesis Hppn : pte_is_valid old = true -> pte_ppn old = tracker.
Hypothesis Hnew : pte_is_valid (view c C vpn) = false.
Hypothesis Hgone : bt_get (ma_frames (cp_area s)) vpn = None.

(** What is known of the state [s'] after the page. *)
Definition page_done (s' : CopyState) : Prop :=
  exists E' F', copy_ok s' E' F' /\ fstep c E F C (cp_world s') E' F' (cp_table s') [vpn] /\
    let chi := view (cp_world s') (cp_table s') vpn in
    if pte_is_valid chi
    then tracked_page s s' vpn (pte_ppn chi) /\ F' = pte_ppn chi :: F
    else cp_area s' = cp_area s /\ F' = F.

(** In the middle of a page: [par] and [chi] are its entries so far. *)
Record mid (s1 : CopyState) (E1 F1 : list Z) (par chi : Z) : Prop := {
  md_ok : copy_ok s1 E1 F1;
  md_evolves : evolves c (cp_world s1);
  md_area : cp_area s1 = cp_area s;
  md_root : pt_root_ppn (cp_table s1) = pt_root_ppn C;
  md_tables : exists new, E1 = new ++ E /\ pt_frames (cp_table s1) = pt_frames C ++ new /\ (length new <= 2)%nat;
  md_keeps : forall q, q ∈ trackers (cp_world s1) F -> mem (cp_world s1) q = mem c q;
  md_views : forall v, is_vpn v ->
    view (cp_world s1) P v = (if v =? vpn then par else view c P v) /\
    view (cp_world s1) (cp_table s1) v = (if v =? vpn then chi else view c C v);
  md_nodes : forall p x, path_ok p ->
    (node (mem c) (pt_root_ppn P) p = Some x -> node (mem (cp_world s1)) (pt_root_ppn P) p = Some x) /\
    (node (mem c) (pt_root_ppn C) p = Some x -> node (mem (cp_world s1)) (pt_root_ppn C) p = Some x);
  md_kernel : keeps_tables c E C (cp_world s1)
}.

Lemma mid_start w :
  cache_ok (mem c) (pt_root_ppn P) w -> mid (s {{ cp_src_cache := w }}) E F old (view c C vpn).
Proof.
  intros Hw. destruct Hok as [Hp Hs Hd]. split; try done.
  - exists []. split_and!; [done|by rewrite app_nil_r|simpl; lia].
  - cbn. intros v Hv. destruct (v =? vpn) eqn:Ev; [|done]. by assert (v = vpn) as -> by lia.
Qed.

Lemma mid_demote s1 fl chi (o := old) :
  mid s1 E F o chi -> is_flags fl -> pte_is_valid o = true ->
  let '(_, c', w) := set_flags_cached (cp_world s1) P vpn fl (cp_src_cache s1) in
  mid (s1 {{ cp_world := c'; cp_src_cache := w }}) E F (pte_new (pte_ppn o) (Z.lor fl PTEFlags.V)) chi.
Proof.
  intros [Mok Mev Ma Mr Mt Mk Mv Mn MK] Hf Hv. destruct (Mv vpn (proj1 Hu)) as [Hvp _]. rewrite Z.eqb_refl in Hvp.
  assert (has_room (cp_world s1) (E ++ F) 2) as Hr by (eapply has_room_evolves; [done..|lia]).
  pose proof (demote_step s1 E F vpn fl Mok Hu Hf ltac:(by rewrite Hvp) Hr) as Hd.
  destruct (set_flags_cached _ _ _ _ _) as [[ok c'] w]. destruct Hd as (Hok' & Hev & Hvs & Hm & Hn & HK). rewrite Hvp in Hvs.
  assert (forall q, q ∈ pt_frames (cp_table s1) ++ K -> mem c' q = mem (cp_world s1) q) as HmC
    by (intros q Hq; apply Hm; by eapply sep_child; [apply Mok|]).
  split; cbn; try done.
  - by etrans.
  - intros q Hq. rewrite Hm; [apply Mk; by eapply evolves_elem|]. by eapply data_kept; [apply Hok'|].
  - intros v Hvv. destruct (Mv v Hvv) as [H1 H2]. rewrite Hvs, H1 by done. split; [by destruct (v =? vpn)|].
    rewrite <- H2. by eapply view_kept; [apply Mok|].
  - intros p x Hp. destruct (Mn p x Hp) as [? N2]. split; [by auto|]. intros Hx.
    destruct (table_agree _ _ _ _ _ (ti_table _ _ _ _ _ _ (pr_child _ _ _ _ (cpo_pair _ _ _ Mok))) HmC) as (_ & _ & HN).
    rewrite <- Mr, HN by done. rewrite Mr. by apply N2.
  - destruct Mt as (n1 & HE & HCf & _). eapply keeps_tables_trans; [done..|]. intros q Hq Hnq.
    eapply new_frames_apart; [apply Mok|by rewrite <- HE| |done|done]. rewrite HCf. apply Permutation_app_comm.
Qed.

Lemma mid_map s1 F1 par chi ppn fl :
  mid s1 E F1 par chi -> (length F1 <= S (length F))%nat -> (forall q, q ∈ F -> q ∈ F1) ->
  is_ppn ppn -> is_flags fl -> pte_is_valid chi = false ->
  match copy_map s1 vpn ppn fl with
  | Some s2 => exists E2, mid s2 E2 F1 par (pte_new ppn (Z.lor fl PTEFlags.V)) /\ evolves (cp_world s1) (cp_world s2) /\
      (forall q, q ∈ trackers (cp_world s2) F1 -> mem (cp_world s2) q = mem (cp_world s1) q)
  | None => exhausted c
  end.
Proof.
  intros [Mok Mev Ma Mr (n1 & HE & HC & Hn1) Mk Mv Mn MK] Hl HF Hp Hf Hchi. destruct (Mv vpn (proj1 Hu)) as [_ Hvc]. rewrite Z.eqb_refl in Hvc.
  assert (has_room (cp_world s1) (E ++ F1) 2) as Hr by (eapply has_room_evolves; [done..|]; rewrite !length_app; lia).
  assert (n1 = []) as -> by (apply (f_equal length) in HE; rewrite length_app in HE; destruct n1; [done|simpl in HE; lia]).
  pose proof (copy_map_step s1 E F1 vpn ppn fl Mok Hu Hp Hf Hr ltac:(by rewrite Hvc)) as Hm.
  destruct (copy_map s1 vpn ppn fl) as [s2|]; [|by eapply exhausted_after].
  destruct Hm as (new & Hok2 & Hev2 & Hn2 & Ha2 & Hr2 & Hf2 & Hvs & Hm2 & Hnode2 & HK2).
  assert (forall q, q ∈ pt_frames P ++ K -> mem (cp_world s2) q = mem (cp_world s1) q) as HmP
    by (intros q Hq; apply Hm2; by eapply sep_parent; [apply Hok2|]).
  assert (forall q, q ∈ trackers (cp_world s2) F1 -> mem (cp_world s2) q = mem (cp_world s1) q) as HmF
    by (intros q Hq; apply Hm2; by eapply data_kept; [apply Hok2|]).
  exists (new ++ E). split; [|done]. split; [done|by etrans|congruence|congruence|..].
  - exists new. rewrite Hf2, HC, app_nil_r. done.
  - intros q Hq. rewrite HmF; [apply Mk; by eapply evolves_elem|]. unfold trackers in *. set_solver.
  - intros v Hvv. destruct (Mv v Hvv) as [H1 H2]. rewrite Hr2, Hvs, H2 by done. split; [|by destruct (v =? vpn)].
    rewrite <- H1. by eapply view_kept; [apply Mok|].
  - intros p x Hpp. destruct (Mn p x Hpp) as [N1 N2]. split; intros Hx.
    + destruct (table_agree _ _ _ _ _ (ti_table _ _ _ _ _ _ (pr_parent _ _ _ _ (cpo_pair _ _ _ Mok))) HmP) as (_ & _ & HN).
      rewrite HN by done. by apply N1.
    + rewrite <- Mr. apply Hnode2; [done|]. rewrite Mr. by apply N2.
  - eapply keeps_tables_trans; [done..|]. intros q Hq Hnq. by rewrite HC, app_nil_r.
Qed.

Lemma mid_fstep s1 E1 F1 c3 F' a par chi :
  mid s1 E1 F1 par chi -> world_ok c3 E1 F' -> evolves (cp_world s1) c3 -> mem c3 = mem (cp_world s1) ->
  F' = (if pte_is_valid chi then [pte_ppn chi] else []) ++ F -> page_forked c (cp_world s1) old par chi ->
  (pte_is_valid chi = true -> data_of c c3 F [vpn] (pte_ppn chi)) ->
  a = (if pte_is_valid chi then (cp_area s) {{ ma_frames := bt_insert (ma_frames (cp_area s)) vpn (pte_ppn chi) }} else cp_area s) ->
  page_done (s1 {{ cp_world := c3; cp_area := a }}).
Proof.
  intros [Mok Mev Ma Mr (n1 & HE & HC & Hn1) Mk Mv Mn MK] W Hev Hm HF Hpf Hdata Harea.
  pose proof (copy_ok_data s1 E1 F1 c3 F' a Mok W ltac:(intros; by rewrite Hm)) as Hok3.
  destruct (Mv vpn (proj1 Hu)) as [Hvp Hvc]. rewrite Z.eqb_refl in Hvp, Hvc.
  exists E1, F'. split_and!; [done| |].
  - split; cbn; [apply Hok3|by etrans|done|..].
    + exists n1. rewrite HE, HC. split_and!; [done|apply Permutation_app_comm|lia].
    + eexists. split; [by rewrite HF|]. destruct (pte_is_valid chi); simpl; (split; [lia|]); [apply Forall_singleton; auto|done].
    + intros q Hq. rewrite Hm. apply Mk. by eapply evolves_elem.
    + intros v ->%list_elem_of_singleton. rewrite Hm, Hvp, Hvc.
      eapply page_forked_widen; [reflexivity|done| |done]. intros _. by rewrite Hm.
    + intros v ->%list_elem_of_singleton. rewrite Hm, Hvc. intros Hv. rewrite HF, Hv. left.
    + intros v Hvv Hne. rewrite Hm. destruct (Mv v Hvv) as [-> ->].
      rewrite (proj2 (Z.eqb_neq v vpn)) by (intros ->; apply Hne; left). done.
    + intros p x Hp. rewrite Hm. by apply Mn.
    + destruct MK as [KM KR]. split; rewrite Hm; done.
  - cbn. rewrite Hm, Hvc. destruct (pte_is_valid chi); by subst.
Qed.

Lemma translated w o :
  translate_cached (mem c) P vpn (cp_src_cache s) = (o, w) ->
  cache_ok (mem c) (pt_root_ppn P) w /\ o = if pte_is_valid old then Some old else None.
Proof.
  intros Heq. destruct (translate_cached_ok (mem c) P vpn _ (cpo_src _ _ _ Hok)) as [Ht Hw].
  rewrite Heq in *. cbn [fst snd] in *. split; [done|]. rewrite Ht, translate_view. unfold pt_view.
  by destruct (node (mem c) (pt_root_ppn P) [i0 vpn; i1 vpn]).
Qed.

(** Nothing was mapped for the child. *)
Lemma skip_done s1 :
  mid s1 E F old (view c C vpn) ->
  (pte_is_valid old = true -> has (pte_flags old) PTEFlags.U = false /\ exhausted c) -> page_done s1.
Proof.
  intros Hm Hex. assert (s1 = s1 {{ cp_world := cp_world s1; cp_area := cp_area s }}) as ->
    by (rewrite <- (md_area _ _ _ _ _ Hm); by destruct s1).
  eapply mid_fstep; [done|apply Hm|done|done|by rewrite Hnew| |by rewrite Hnew|by rewrite Hnew].
  unfold page_forked. destruct (pte_is_valid old); cbn; [|done]. destruct (Hex eq_refl) as [-> ?]. split; [done|by left].
Qed.

Lemma user_page_done s1 :
  mid s1 E F (parent_pte old) (view c C vpn) -> pte_is_valid old = true -> has (pte_flags old) PTEFlags.U = true ->
  match (s2 ← copy_map s1 vpn (pte_ppn old) (cow_demote (pte_flags old)).1;
         copy_track (s2 {{ cp_world := clone_frame (cp_world s2) tracker }}) vpn tracker) with
  | Some s' => page_done s'
  | None => exhausted c
  end.
Proof.
  intros Hm Hv HU. destruct (demoted_pte old) as (Hpte & Hpp & _ & Hv').
  destruct (cow_demote_flags (pte_flags old) (pte_flags_is_flags _)) as (Hf & _).
  pose proof (mid_map s1 F _ _ (pte_ppn old) _ Hm ltac:(lia) ltac:(done) (pte_ppn_is_ppn _) Hf Hnew) as H2.
  destruct (copy_map s1 _ _ _) as [s2|]; cbn; [|done]. destruct H2 as (E2 & Hm2 & _ & _).
  rewrite copy_track_fresh by (cbn; by rewrite (md_area _ _ _ _ _ Hm2)). cbn.
  pose proof (md_ok _ _ _ _ _ Hm2) as Ho2. destruct (md_tables _ _ _ _ _ Hm2) as (n2 & -> & _ & Hl2).
  eapply (mid_fstep s2 _ F _ (tracker :: F)); [done| |apply clone_frame_evolves|done|..].
  - apply clone_frame_world; [apply Ho2|by apply trackers_here|].
    eapply has_room_evolves; [apply (md_evolves _ _ _ _ _ Hm2)|done|]. rewrite !length_app. lia.
  - by rewrite Hv', Hpp, (Hppn Hv).
  - unfold page_forked. rewrite Hv, HU. done.
  - intros _. right. exists vpn. rewrite Hpp. split_and!; [left|done|done].
  - rewrite Hv', Hpp, (Hppn Hv), (md_area _ _ _ _ _ Hm2). done.
Qed.

Lemma mid_copy s1 f c1 :
  mid s1 E F old (view c C vpn) -> frame_alloc (cp_world s1) = Some (Some f, c1) ->
  mid (s1 {{ cp_world := copy_page c1 f (pte_ppn old) }}) E (f :: F) old (view c C vpn) /\ is_ppn f /\ f ∉ trackers c1 F /\
  (pte_ppn old ∈ F -> mem (copy_page c1 f (pte_ppn old)) f = mem c (pte_ppn old)).
Proof.
  intros [Mok Mev Ma Mr Mt Mk Mv Mn MK] Hfa.
  assert (has_room (cp_world s1) (E ++ F) 1) as Hr by (eapply has_room_evolves; [done..|lia]).
  destruct Mok as [Hp Hs Hd]. pose proof (frame_alloc_world _ E F (ti_world _ _ _ _ _ _ (pr_parent _ _ _ _ Hp)) Hr) as Ha.
  rewrite Hfa in Ha. destruct Ha as (Hev & W & _ & HfT & HfEF & Hf & Hz & Hm). rewrite not_elem_of_app in HfEF. destruct HfEF as [HfE HfF].
  assert (forall q, q <> f -> mem (copy_page c1 f (pte_ppn old)) q = mem (cp_world s1) q) as Hm'
    by (intros q Hq; cbn; rewrite set_page_ne by done; by apply Hm).
  assert (full_pages (mem (copy_page c1 f (pte_ppn old)))) as Hfull
    by (apply full_pages_set; [apply W|apply (wk_full _ _ _ W)]).
  assert (forall q, q ∈ E -> mem (copy_page c1 f (pte_ppn old)) q = mem (cp_world s1) q) as HmE
    by (intros q Hq; apply Hm'; by intros ->).
  assert (copy_ok (s1 {{ cp_world := copy_page c1 f (pte_ppn old) }}) E (f :: F)) as Hok1.
  { pose proof (copy_ok_data s1 E F _ (f :: F) (cp_area s1) ltac:(by split) (world_with_mem _ _ _ _ W Hfull) HmE) as H.
    by destruct s1. }
  rewrite trackers_app, not_elem_of_app in HfT. destruct HfT as [_ HfT].
  assert (forall pt, table_in (cp_world s1) E F pt -> table_ok shared K (mem (cp_world s1)) pt /\
    (forall q, q ∈ pt_frames pt ++ K -> mem (copy_page c1 f (pte_ppn old)) q = mem (cp_world s1) q)) as HT.
  { intros pt [_ T S _]. split; [done|]. intros q Hq. by apply HmE, S. }
  split_and!; [|done|done|].
  - destruct (HT _ (pr_parent _ _ _ _ Hp)) as [TP MP], (HT _ (pr_child _ _ _ _ Hp)) as [TC MC].
    destruct (table_agree _ _ _ _ _ TP MP) as (_ & VP & NP), (table_agree _ _ _ _ _ TC MC) as (_ & VC & NC).
    split; cbn [cp_world cp_table cp_area]; try done.
    + do 2 (etrans; [done|]). apply evolves_with_mem.
    + intros q Hq. rewrite <- Mk by (by eapply evolves_elem; [apply Hev|]). apply Hm'. by intros ->.
    + intros v Hvv. rewrite VP, VC. by apply Mv.
    + intros p x Hpp. rewrite NP by done. rewrite <- Mr, NC, Mr by done. by apply Mn.
    + destruct Mt as (n1 & HE & HCf & _). eapply keeps_tables_trans; [done|by eapply keeps_tables_mem|done|].
      intros q Hq Hnq. eapply new_frames_apart; [apply Hp|by rewrite <- HE| |done|done]. rewrite HCf. apply Permutation_app_comm.
  - intros Hin. cbn. rewrite set_page_eq. rewrite Hm by (intros Heq; apply HfF; by rewrite <- Heq). by apply Mk, trackers_here.
Qed.

Lemma kernel_page_done s1 f c1 :
  mid s1 E F old (view c C vpn) -> pte_is_valid old = true -> has (pte_flags old) PTEFlags.U = false ->
  frame_alloc (cp_world s1) = Some (Some f, c1) ->
  match (s2 ← copy_map (s1 {{ cp_world := copy_page c1 f (pte_ppn old) }}) vpn f (pte_flags old); copy_track s2 vpn f) with
  | Some s' => page_done s'
  | None => exhausted c
  end.
Proof.
  intros Hm Hv HU Hfa. destruct (mid_copy s1 f c1 Hm Hfa) as (Hm1 & Hf & Hfresh & Hcopy).
  pose proof (pte_flags_is_flags old) as Hfl.
  pose proof (mid_map _ (f :: F) _ _ f _ Hm1 ltac:(simpl; lia) ltac:(set_solver) Hf Hfl Hnew) as H2.
  destruct (copy_map _ _ _ _) as [s2|]; cbn; [|done]. destruct H2 as (E2 & Hm2 & Hev2 & Hk2).
  rewrite copy_track_fresh by (cbn; by rewrite (md_area _ _ _ _ _ Hm2)).
  destruct (pte_new_spec f _ Hf (leaf_flags _ Hfl)) as (_ & Hpp & _). pose proof (pte_valid_new f _ Hf Hfl) as Hv'.
  assert (s2 {{ cp_area := (cp_area s2) {{ ma_frames := bt_insert (ma_frames (cp_area s2)) vpn f }} }} =
    s2 {{ cp_world := cp_world s2; cp_area := (cp_area s) {{ ma_frames := bt_insert (ma_frames (cp_area s)) vpn f }} }}) as ->
    by (rewrite (md_area _ _ _ _ _ Hm2); by destruct s2).
  eapply (mid_fstep s2 E2 (f :: F) _ (f :: F)); [done|apply (md_ok _ _ _ _ _ Hm2)|done|done|by rewrite Hv', Hpp| | |by rewrite Hv', Hpp].
  2: { intros _. rewrite Hpp. left. intros Hin. apply Hfresh. by eapply (evolves_elem _ _ _ _ Hev2) in Hin. }
  unfold page_forked. rewrite Hv, HU. cbn. split; [done|]. right. exists f. split_and!; [done..|].
  rewrite Hk2 by (apply trackers_here; left). apply Hcopy. fold old. by rewrite Hppn.
Qed.

Lemma cow_page_done :
  match cow_page P s (vpn, tracker) with Some s' => page_done s' | None => exhausted c end.
Proof.
  unfold cow_page. destruct (translate_cached _ _ _ _) as [o w] eqn:Et.
  destruct (translated _ _ Et) as [Hw ->]. pose proof (mid_start w Hw) as Hm.
  destruct (bool_dec (pte_is_valid old) true) as [Hv|Hv]; [|apply not_true_is_false in Hv]; rewrite Hv;
    [|by apply skip_done; [|congruence]].
  rewrite Hv. cbn [negb]. destruct (has (pte_flags old) PTEFlags.U) eqn:HU; cbn [negb].
  - pose proof (mid_demote _ (cow_demote (pte_flags old)).1 _ Hm (proj1 (cow_demote_flags _ (pte_flags_is_flags _))) Hv) as Hd.
    pose proof (fun s1 Hm1 => user_page_done s1 Hm1 Hv HU) as Hdone. unfold parent_pte in Hdone.
    destruct (cow_demote (pte_flags old)) as [fl []]; cbn in *; [|by apply Hdone].
    destruct (set_flags_cached _ _ _ _ _) as [[ok c'] w']. by apply Hdone.
  - assert (has_room c (E ++ F) 1) as Hr by (unfold has_room in *; lia).
    pose proof (frame_alloc_world c E F (ti_world _ _ _ _ _ _ (pr_parent _ _ _ _ (cpo_pair _ _ _ Hok))) Hr) as Ha.
    change (cp_world (s {{ cp_src_cache := w }})) with c. destruct (frame_alloc c) as [[[f|] c1]|] eqn:Ef; cbn; [|destruct Ha as [-> Hex]|done].
    + apply (kernel_page_done (s {{ cp_src_cache := w }}) f c1 Hm Hv HU Ef).
    + apply skip_done; [|done]. by destruct s.
Qed.

End OnePage.

(** *** The pages of an area *)

(** A page of the list to copy. *)
Record page_ready (s : CopyState) (F : list Z) (e : Z * Z) : Prop := {
  rd_user : user_vpn e.1;
  rd_data : e.2 ∈ F;
  rd_ppn : pte_is_valid (view (cp_world s) P e.1) = true -> pte_ppn (view (cp_world s) P e.1) = e.2;
  rd_new : pte_is_valid (view (cp_world s) (cp_table s) e.1) = false;
  rd_gone : bt_get (ma_frames (cp_area s)) e.1 = None
}.

(** The area [a'] is [a] with the frames the table now maps the pages [vpns] to;
    [new] are their trackers. *)
Record area_maps (c' : PageCache) (C' : PageTable) (vpns : list Z) (a a' : MapArea) (new : list Z) : Prop := {
  am_same : a' = a {{ ma_frames := ma_frames a' }};
  am_wf : bt_wf (ma_frames a');
  am_get : forall v, bt_get (ma_frames a') v =
    if bool_decide (v ∈ vpns) && pte_is_valid (view c' C' v) then Some (pte_ppn (view c' C' v)) else bt_get (ma_frames a) v;
  am_values : bt_values (ma_frames a') ≡ₚ new ++ bt_values (ma_frames a)
}.

Lemma page_done_area s E F vpn s' :
  page_done s E F vpn s' -> bt_wf (ma_frames (cp_area s)) -> bt_get (ma_frames (cp_area s)) vpn = None ->
  exists E' new, copy_ok s' E' (new ++ F) /\ (length new <= 1)%nat /\
    fstep (cp_world s) E F (cp_table s) (cp_world s') E' (new ++ F) (cp_table s') [vpn] /\
    area_maps (cp_world s') (cp_table s') [vpn] (cp_area s) (cp_area s') new.
Proof.
  intros (E' & F' & Hok & Hf & Hd) Hwf Hg. cbv zeta in Hd. exists E'.
  destruct (pte_is_valid _) eqn:Hv; destruct Hd as [Ha ->]; [unfold tracked_page in Ha; exists [pte_ppn (view (cp_world s') (cp_table s') vpn)]|exists []];
    (split_and!; [done|simpl; lia|done|]); rewrite Ha; split; cbn.
  - done.
  - by apply bt_wf_insert.
  - intros v. rewrite bt_get_insert. destruct (key_eqb v vpn) eqn:Ek.
    + apply key_eqb_eq in Ek as ->. by rewrite bool_decide_true, Hv by left.
    + apply key_eqb_neq in Ek. rewrite bool_decide_false; [done|]. by intros ?%list_elem_of_singleton.
  - by apply values_insert.
  - by destruct (cp_area s).
  - done.
  - intros v. destruct (decide (v = vpn)) as [->|Hne]; [by rewrite Hv, andb_false_r|].
    rewrite bool_decide_false; [done|]. by intros ?%list_elem_of_singleton.
  - done.
Qed.

Lemma area_maps_trans c1 C1 v1 a a1 n1 c2 C2 v2 a2 n2 :
  area_maps c1 C1 v1 a a1 n1 -> area_maps c2 C2 v2 a1 a2 n2 ->
  (forall v, v ∈ v1 -> view c2 C2 v = view c1 C1 v) ->
  (forall v, v ∈ v1 -> v ∉ v2) -> area_maps c2 C2 (v1 ++ v2) a a2 (n2 ++ n1).
Proof.
  intros [S1 W1 G1 V1] [S2 W2 G2 V2] Hv Hd. split; [|done| |].
  - rewrite S2, S1. done.
  - intros v. rewrite G2, G1. destruct (decide (v ∈ v1)) as [H1|H1].
    + rewrite (bool_decide_false (v ∈ v2)) by auto. rewrite (bool_decide_true (v ∈ v1)) by done.
      rewrite (bool_decide_true (v ∈ v1 ++ v2)) by set_solver. by rewrite Hv.
    + rewrite (bool_decide_false (v ∈ v1)) by done. rewrite (bool_decide_ext (v ∈ v1 ++ v2) (v ∈ v2)) by set_solver. done.
  - by rewrite V2, V1, app_assoc.
Qed.

Lemma fstep_room c E F C c' E' F' C' vpns n :
  fstep c E F C c' E' F' C' vpns -> has_room c (E ++ F) (3 * Z.of_nat (length vpns) + n) -> has_room c' (E' ++ F') n.
Proof.
  intros [_ Hev _ (e & HE & _ & He) (f & HF & Hf & _) _ _ _ _ _ _] Hr. eapply has_room_evolves; [done..|].
  rewrite HE, HF, !length_app. lia.
Qed.

Lemma page_ready_later s E F vpn s' E' F' new e :
  page_ready s F e -> e.1 <> vpn -> F' = new ++ F ->
  fstep (cp_world s) E F (cp_table s) (cp_world s') E' F' (cp_table s') [vpn] ->
  area_maps (cp_world s') (cp_table s') [vpn] (cp_area s) (cp_area s') new -> page_ready s' F' e.
Proof.
  intros [Hu Hd Hp Hn Hg] Hne -> Hf Ha.
  destruct (fs_other _ _ _ _ _ _ _ _ _ Hf e.1 (proj1 Hu)) as [H1 H2]; [by intros ?%list_elem_of_singleton|].
  split; rewrite ?H1, ?H2; try done.
  - apply elem_of_app. by right.
  - rewrite (am_get _ _ _ _ _ _ Ha), bool_decide_false; [done|]. by intros ?%list_elem_of_singleton.
Qed.

Lemma cow_pages_done l s E F :
  copy_ok s E F -> has_room (cp_world s) (E ++ F) (3 * Z.of_nat (length l)) ->
  Forall (page_ready s F) l -> NoDup (map fst l) -> bt_wf (ma_frames (cp_area s)) ->
  match foldl_opt (cow_page P) s l with
  | Some s' => exists E' new, copy_ok s' E' (new ++ F) /\
      fstep (cp_world s) E F (cp_table s) (cp_world s') E' (new ++ F) (cp_table s') (map fst l) /\
      area_maps (cp_world s') (cp_table s') (map fst l) (cp_area s) (cp_area s') new
  | None => exhausted (cp_world s)
  end.
Proof.
  revert s E F. induction l as [|[vpn tracker] l IH]; intros s E F Hok Hr Hrd Hnd Hwf; cbn [foldl_opt].
  { exists E, []. split_and!; [done|by apply fstep_refl, Hok|]. split; [by destruct (cp_area s)|done|done|done]. }
  apply Forall_cons in Hrd as [Hv Hrd]. apply NoDup_cons in Hnd as [Hni Hnd].
  destruct Hv as [Hu Hd Hp Hn Hg]. cbn in Hu, Hd, Hp, Hn, Hg. simpl length in Hr.
  pose proof (cow_page_done s E F vpn tracker Hok ltac:(unfold has_room in *; lia) Hu Hd Hp Hn Hg) as H1.
  destruct (cow_page P s (vpn, tracker)) as [s1|]; cbn; [|done].
  destruct (page_done_area _ _ _ _ _ H1 Hwf Hg) as (E1 & n1 & Hok1 & Hl1 & Hf1 & Ha1).
  assert (forall e, e ∈ l -> e.1 <> vpn) as Hne by (intros e He <-; apply Hni; by apply (list_elem_of_fmap_2 fst l e)).
  specialize (IH s1 E1 (n1 ++ F) Hok1). destruct (foldl_opt (cow_page P) s1 l) as [s2|].
  2: { eapply exhausted_after; [apply Hf1|]. apply IH; [|..|done|apply Ha1].
       - eapply fstep_room; [done|]. unfold has_room in *. simpl length. lia.
       - rewrite Forall_forall in *. intros e He. eapply page_ready_later; eauto. }
  destruct IH as (E2 & n2 & Hok2 & Hf2 & Ha2); [|..|done|apply Ha1|].
  - eapply fstep_room; [done|]. unfold has_room in *. simpl length. lia.
  - rewrite Forall_forall in *. intros e He. eapply page_ready_later; eauto.
  - rewrite Forall_forall in Hrd. exists E2, (n2 ++ n1). rewrite <- app_assoc.
    assert (forall v, v ∈ map fst l -> exists t, (v, t) ∈ l) as Hin.
    { intros v ([v' t] & -> & ?)%list_elem_of_fmap. by exists t. }
    assert (is_vpn vpn) by apply Hu. split_and!; [done| |].
    + apply (fstep_trans _ _ _ _ _ _ _ _ [vpn] _ _ _ _ (map fst l) Hf1 Hf2).
      * intros v [->%list_elem_of_singleton|(t & Hv)%Hin]; [done|]. apply (rd_user _ _ _ (Hrd _ Hv)).
      * by intros v ->%list_elem_of_singleton.
      * intros v (t & Hv)%Hin Hval. pose proof (rd_ppn _ _ _ (Hrd _ Hv) Hval) as Hpt. cbn in Hpt. rewrite Hpt. apply (rd_data _ _ _ (Hrd _ Hv)).
    + apply (area_maps_trans _ _ [vpn] _ _ _ _ _ (map fst l) _ _ Ha1 Ha2).
      * intros v ->%list_elem_of_singleton. by apply (fs_other _ _ _ _ _ _ _ _ _ Hf2).
      * by intros v ->%list_elem_of_singleton.
Qed.

End Steps.
