(* ===== verification/ForkProof.v ===== *)
(** * Fork, proved

    [from_existed_user_cow] on whole address spaces: the child has the areas and
    the pages of the parent, every page that was writable and private is
    copy-on-write in both, and no data changed. *)

From S2P Require Import Prelude.
From S2P Require Import BTree.
From S2P Require Import Address.
From S2P Require Import FrameAlloc.
From S2P Require Import PageCache.
From S2P Require Import VmRegion.
From S2P Require Import PageTable.
From S2P Require Import MapArea.
From S2P Require Import World.
From S2P Require Import SpaceTable.
From S2P Require Import Backing.
From S2P Require Import MemorySet.
From S2P Require Import SpaceInv.
From S2P Require Import NewSpace.
From S2P Require Import ForkCow.
From S2P Require Import ForkSteps.

Section Fork.
Context (shared : Z -> Prop) (K : list Z) (P : PageTable).
Abbreviation pair_in := (ForkSteps.pair_in shared K P).
Abbreviation fstep := (ForkSteps.fstep shared K P).
Abbreviation area_ok := (SpaceInv.area_ok shared).
Abbreviation view c pt vpn := (pt_view (mem c) (pt_root_ppn pt) vpn).

(** A tracked page of an area about to be copied. *)
Record entry_ready (c : PageCache) (F : list Z) (C : PageTable) (e : Z * Z) : Prop := {
  er_data : e.2 ∈ F;
  er_ppn : pte_is_valid (view c P e.1) = true -> pte_ppn (view c P e.1) = e.2;
  er_new : pte_is_valid (view c C e.1) = false
}.

(** The area of the child tracks the frames its table maps. *)
Record child_area (c : PageCache) (C : PageTable) (a a' : MapArea) : Prop := {
  ca_same : a' = (Area.from_another a) {{ ma_frames := ma_frames a' }};
  ca_wf : bt_wf (ma_frames a');
  ca_get : forall v, bt_get (ma_frames a') v =
    if bool_decide (v ∈ area_keys a) && pte_is_valid (view c C v) then Some (pte_ppn (view c C v)) else None
}.

Lemma reset_ok m root w : cache_ok m root (walk_cache_reset w).
Proof. split; intros Hv; discriminate Hv. Qed.

Lemma fstep_perm c E F C c' E' F' C' vpns F'' :
  F' ≡ₚ F'' -> fstep c E F C c' E' F' C' vpns -> fstep c E F C c' E' F'' C' vpns.
Proof.
  intros Hp [[HP HC Ha] Hev Hr Ht (n & HF & Hn) Hk Hg Htr Ho Hno HK].
  assert (forall pt, table_in shared K c' E' F' pt -> table_in shared K c' E' F'' pt) as Hti.
  { intros pt [W T S D]. split; [|done..]. by eapply world_perm. }
  split; try done.
  - split; auto.
  - exists n. by rewrite <- Hp.
  - intros vpn Hv Hval. rewrite <- Hp. auto.
Qed.

Lemma area_entries_ready c child w1 w2 a F :
  area_ok a -> Forall (entry_ready c F (ms_page_table child)) (ma_frames a) ->
  Forall (page_ready shared P (mkCopy c (ms_page_table child) (walk_cache_reset w2) (walk_cache_reset w1)
    (Area.from_another a)) F) (ma_frames a).
Proof.
  intros Ha Hready. rewrite Forall_forall in *. intros [vpn p] Hin. destruct (Hready _ Hin) as [Hd Hp Hn].
  split; try done. cbn. apply (ao_pages _ _ Ha), (ao_keys _ _ Ha). by eapply area_key_value.
Qed.

Lemma copy_area_done c child w1 w2 a E F :
  pair_in c E F (ms_page_table child) -> area_ok a ->
  has_room c (E ++ F) (3 * Z.of_nat (length (ma_frames a))) ->
  Forall (entry_ready c F (ms_page_table child)) (ma_frames a) ->
  match copy_area false P (c, child, w1, w2) a with
  | Some (c', child', _, _) => exists E' C' a',
      fstep c E F (ms_page_table child) c' E' (area_values a' ++ F) C' (area_keys a) /\
      child' = push_mapped_raw (child {{ ms_page_table := C' }}) a' /\ child_area c' C' a a'
  | None => exhausted c
  end.
Proof.
  intros Hp Ha Hr Hready. unfold copy_area.
  assert (forall X Y : option CopyState, match ma_type a with Identical => X | _ => Y end = Y) as Hty
    by (intros; pose proof (ao_type _ _ Ha); by destruct (ma_type a)).
  rewrite Hty. set (s := mkCopy c (ms_page_table child) (walk_cache_reset w2) (walk_cache_reset w1) (Area.from_another a)).
  assert (copy_ok shared K P s E F) as Hok by (split; [done|apply reset_ok..]).
  pose proof (cow_pages_done shared K P (ma_frames a) s E F Hok Hr) as Hd.
  destruct (foldl_opt (cow_page P) s (ma_frames a)) as [s'|]; cbn.
  - destruct Hd as (E' & new & _ & Hf & [As Aw Ag Av]); [|by apply (area_keys_nodup shared)|apply bt_wf_nil|].
    { by apply (area_entries_ready c child w1 w2). }
    exists E', (cp_table s'), (cp_area s'). split_and!; [|done|].
    + eapply fstep_perm; [|exact Hf]. unfold area_values. by rewrite Av, app_nil_r.
    + split; [done|done|]. intros v. rewrite Ag. done.
  - apply Hd; [by apply (area_entries_ready c child w1 w2)|by apply (area_keys_nodup shared)|apply bt_wf_nil].
Qed.

(** ** All areas *)

Definition all_keys (areas : list MapArea) : list Z := concat (map area_keys areas).
Definition all_values (areas : list MapArea) : list Z := concat (map area_values areas).

Lemma all_keys_elem areas v : v ∈ all_keys areas <-> exists a, a ∈ areas /\ v ∈ area_keys a.
Proof.
  unfold all_keys. rewrite elem_of_concat. split.
  - intros (l & Hv & (a & -> & Ha)%list_elem_of_fmap). eauto.
  - intros (a & Ha & Hv). exists (area_keys a). split; [done|]. by apply (list_elem_of_fmap_2 area_keys).
Qed.

Lemma keys_user a v : area_ok a -> v ∈ area_keys a -> is_vpn v.
Proof. intros Ha Hv%(ao_keys _ _ Ha). apply (ao_pages _ _ Ha) in Hv as [[? _] _]. done. Qed.

Lemma child_area_later c1 C1 c2 C2 a a' :
  child_area c1 C1 a a' -> (forall v, v ∈ area_keys a -> view c2 C2 v = view c1 C1 v) -> child_area c2 C2 a a'.
Proof.
  intros [Hs Hw Hg] Hv. split; [done|done|]. intros v. rewrite Hg.
  destruct (bool_decide (v ∈ area_keys a)) eqn:Eb; [|done]. apply bool_decide_eq_true in Eb. by rewrite Hv.
Qed.

Lemma push_sorted child C a :
  sorted_by Area.start_vpn (ms_areas child) ->
  (forall b, b ∈ ms_areas child -> Area.start_vpn b <= Area.start_vpn a) ->
  push_mapped_raw (child {{ ms_page_table := C }}) a = child {{ ms_page_table := C; ms_areas := ms_areas child ++ [a] }} /\
  sorted_by Area.start_vpn (ms_areas child ++ [a]).
Proof.
  intros Hs Hb. assert (sorted_by Area.start_vpn (ms_areas child ++ [a])) as Hs' by by apply sorted_snoc.
  split; [|done]. unfold push_mapped_raw, sort_map_areas, vec_push. cbn. by rewrite sort_by_key_id.
Qed.

Lemma entry_ready_later c F C c1 E1 F1 C1 E keys e :
  fstep c E F C c1 E1 F1 C1 keys -> is_vpn e.1 -> e.1 ∉ keys -> entry_ready c F C e -> entry_ready c1 F1 C1 e.
Proof.
  intros Hf Hv Hk [Hd Hp Hn]. destruct (fs_other _ _ _ _ _ _ _ _ _ _ _ _ Hf e.1 Hv Hk) as [H1 H2].
  split; rewrite ?H1, ?H2; try done. destruct (fs_data _ _ _ _ _ _ _ _ _ _ _ _ Hf) as (n & -> & _).
  apply elem_of_app. by right.
Qed.

Lemma copy_areas_done areas c child w1 w2 E F :
  pair_in c E F (ms_page_table child) -> Forall area_ok areas -> StronglySorted area_before areas ->
  sorted_by Area.start_vpn (ms_areas child) ->
  (forall b a, b ∈ ms_areas child -> a ∈ areas -> Area.start_vpn b <= Area.start_vpn a) ->
  has_room c (E ++ F) (3 * Z.of_nat (length (all_keys areas))) ->
  (forall a, a ∈ areas -> Forall (entry_ready c F (ms_page_table child)) (ma_frames a)) ->
  match foldl_opt (copy_area false P) (c, child, w1, w2) areas with
  | Some (c', child', _, _) => exists E' C' areas',
      fstep c E F (ms_page_table child) c' E' (all_values areas' ++ F) C' (all_keys areas) /\
      child' = child {{ ms_page_table := C'; ms_areas := ms_areas child ++ areas' }} /\
      Forall2 (child_area c' C') areas areas'
  | None => exhausted c
  end.
Proof.
  revert c child w1 w2 E F. induction areas as [|a areas IH]; intros c child w1 w2 E F Hp Hok Hs Hsc Hb Hr Hready.
  { cbn. exists E, (ms_page_table child), []. split_and!; [by apply fstep_refl|by destruct child; cbn; rewrite app_nil_r|done]. }
  apply Forall_cons in Hok as [Ha Hok]. apply StronglySorted_inv in Hs as [Hs Hall]. cbn [foldl_opt].
  assert (has_room c (E ++ F) (3 * Z.of_nat (length (ma_frames a)) + 3 * Z.of_nat (length (all_keys areas)))) as Hr'.
  { revert Hr. unfold all_keys, area_keys. simpl. rewrite length_app, length_map. unfold has_room. lia. }
  pose proof (copy_area_done c child w1 w2 a E F Hp Ha ltac:(unfold has_room in *; lia) ltac:(apply Hready; left)) as H1.
  destruct (copy_area false P (c, child, w1, w2) a) as [[[[c1 child1] w1'] w2']|]; cbn; [|done].
  destruct H1 as (E1 & C1 & a' & Hf1 & -> & Hc1).
  assert (Area.start_vpn a' = Area.start_vpn a) as Hst by (by rewrite (ca_same _ _ _ _ Hc1)).
  assert (forall b, b ∈ areas -> area_before a b) as Hbefore by (by rewrite Forall_forall in Hall).
  assert (forall v b, b ∈ areas -> v ∈ area_keys b -> is_vpn v /\ v ∉ area_keys a) as Hkeys.
  { intros v b Hbin Hv. rewrite Forall_forall in Hok. split; [by eapply keys_user; [apply Hok|]|].
    intros Hva. by apply (before_keys shared a b v Ha (Hok _ Hbin) (Hbefore _ Hbin) Hva). }
  destruct (push_sorted child C1 a' Hsc) as [-> Hsc']; [intros b Hbin; rewrite Hst; apply Hb; [done|left]|].
  specialize (IH c1 (child {{ ms_page_table := C1; ms_areas := ms_areas child ++ [a'] }}) w1' w2' E1 (area_values a' ++ F)).
  cbn [ms_page_table ms_areas] in IH.
  assert (has_room c1 (E1 ++ area_values a' ++ F) (3 * Z.of_nat (length (all_keys areas)))) as Hr1.
  { eapply fstep_room; [done|]. unfold area_keys. by rewrite length_map. }
  assert (forall b, b ∈ areas -> Forall (entry_ready c1 (area_values a' ++ F) C1) (ma_frames b)) as Hready1.
  { intros b Hbin. pose proof (Hready b ltac:(by right)) as Hrb. rewrite Forall_forall in *. intros e He.
    destruct (Hkeys e.1 b Hbin) as [? ?]; [by destruct e; eapply area_key_value|]. eapply entry_ready_later; eauto. }
  specialize (IH (fs_pair _ _ _ _ _ _ _ _ _ _ _ _ Hf1) Hok Hs Hsc').
  assert (forall b x, b ∈ ms_areas child ++ [a'] -> x ∈ areas -> Area.start_vpn b <= Area.start_vpn x) as Hb1.
  { intros b x [Hbin| ->%list_elem_of_singleton]%elem_of_app Hx; [apply Hb; [done|by right]|].
    rewrite Hst. apply Hbefore in Hx. unfold area_before in Hx. pose proof (ao_range _ _ Ha). lia. }
  specialize (IH Hb1 Hr1 Hready1).
  destruct (foldl_opt (copy_area false P) _ areas) as [[[[c2 child2] w3] w4]|]; [|by eapply exhausted_after; [apply Hf1|]].
  destruct IH as (E2 & C2 & areas' & Hf2 & -> & Hc2). exists E2, C2, (a' :: areas'). split_and!.
  - change (all_keys (a :: areas)) with (area_keys a ++ all_keys areas).
    eapply fstep_perm; [|eapply (fstep_trans shared K P _ _ _ _ _ _ _ _ _ _ _ _ _ _ Hf1 Hf2)].
    + change (all_values (a' :: areas')) with (area_values a' ++ all_values areas'). rewrite !app_assoc.
      by rewrite (Permutation_app_comm (all_values areas')).
    + intros v [Hv|(b & Hbin & Hv)%all_keys_elem]; [by eapply keys_user|by eapply Hkeys].
    + intros v Hv (b & Hbin & Hvb)%all_keys_elem. by apply (Hkeys v b Hbin Hvb).
    + intros v (b & Hbin & ([v' p] & -> & Hvb)%list_elem_of_fmap)%all_keys_elem Hval.
      pose proof (Hready b ltac:(by right)) as Hrb. rewrite Forall_forall in Hrb. destruct (Hrb _ Hvb) as [Hd Hpp _].
      cbn in *. by rewrite Hpp.
  - cbn. by rewrite <- app_assoc.
  - constructor; [|done]. eapply child_area_later; [done|]. intros v Hv.
    apply (fs_other _ _ _ _ _ _ _ _ _ _ _ _ Hf2); [by eapply keys_user|].
    intros (b & Hbin & Hvb)%all_keys_elem. by apply (Hkeys v b Hbin Hvb).
Qed.

End Fork.

(** ** Whole address spaces *)

(** The clones of trackers that are there already. *)
Lemma clone_frames_world ps c E F :
  world_ok c E F -> (forall p, p ∈ ps -> p ∈ F) -> has_room c (E ++ F) (Z.of_nat (length ps)) ->
  let c' := foldl clone_frame c ps in
  world_ok c' E (ps ++ F) /\ evolves c c' /\ mem c' = mem c.
Proof.
  revert c F. induction ps as [|p ps IH]; intros c F W Hp Hr; cbn; [done|].
  assert (world_ok (clone_frame c p) E (p :: F)) as W1.
  { apply clone_frame_world; [done|apply trackers_here, Hp; left|]. unfold has_room in *. simpl in Hr. lia. }
  destruct (IH (clone_frame c p) (p :: F) W1) as (W2 & V2 & M2); [set_solver| |].
  { eapply has_room_evolves; [apply clone_frame_evolves|done|]. simpl. rewrite !length_app. simpl. lia. }
  split_and!; [|by etrans; [apply (clone_frame_evolves c p)|]|done].
  eapply world_perm; [done| |done]. by rewrite <- Permutation_middle.
Qed.

Lemma clone_backings bs c :
  foldl (fun c e => Backing.clone c e.2) c bs =
  foldl clone_frame c (concat (map (fun e : Z * MmapBacking => Backing.frames e.2) bs)).
Proof. revert c. induction bs as [|b bs IH]; intros c; cbn; [done|]. by rewrite foldl_app, IH. Qed.

Section ForkSpace.
Context (k : Kernel).
Abbreviation K := (pt_frames (kn_page_table k)).
Abbreviation shared := (kernel_index k).
Abbreviation user_page := (SpaceInv.user_page shared).
Abbreviation view c ms vpn := (pt_view (mem c) (pt_root_ppn (ms_page_table ms)) vpn).

(** An address space in a machine: its tables among [E], its data pages among [F]. *)
Record space_in (c : PageCache) (E F : list Z) (ms : MemorySet) : Prop := {
  si_table : table_in shared K c E F (ms_page_table ms);
  si_mapped : kernel_mapped k (mem c) (ms_page_table ms);
  si_space : space_ok shared (mem c) ms;
  si_frames : forall q, q ∈ space_frames ms -> q ∈ F
}.

(** The metadata a child inherits. *)
Definition same_metadata (parent child : MemorySet) : Prop :=
  ms_sysv_shm_attaches child = ms_sysv_shm_attaches parent /\
  ms_mmap_backings child = ms_mmap_backings parent /\
  ms_next_mmap_backing_id child = ms_next_mmap_backing_id parent /\
  ms_heap_start child = ms_heap_start parent /\ ms_brk child = ms_brk parent /\
  ms_mmap_next child = ms_mmap_next parent /\ ms_trap_context_slots child = ms_trap_context_slots parent /\
  ms_vm_regions child = VmRegionSet.VmaSet.mark_fork_inherited_anonymous_mmap (ms_vm_regions parent) /\
  Forall2 (fun a a' => a' = (Area.from_another a) {{ ma_frames := ma_frames a' }}) (ms_areas parent) (ms_areas child).

Record forked (c : PageCache) (E F : list Z) (parent : MemorySet) (c' : PageCache) (child : MemorySet) : Prop := {
  fk_evolves : evolves c c';
  fk_kernel : kernel_ok k (mem c');
  fk_parent : space_in c' (pt_frames (ms_page_table child) ++ E) (space_frames child ++ F) parent;
  fk_child : space_in c' (pt_frames (ms_page_table child) ++ E) (space_frames child ++ F) child;
  fk_pages : forall vpn, user_page vpn -> page_forked c c' (view c parent vpn) (view c' parent vpn) (view c' child vpn);
  fk_data : forall q, q ∈ trackers c' F -> mem c' q = mem c q;
  fk_tables : forall q, q ∈ E -> q ∉ pt_frames (ms_page_table parent) -> mem c' q = mem c q;
  fk_frames : forall q, q ∈ space_frames child -> q ∈ space_frames parent \/ q ∉ trackers c' F;
  fk_metadata : same_metadata parent child
}.

(** A user page that is mapped is a tracked page of an area. *)
Lemma mapped_key m ms vpn :
  space_ok shared m ms -> user_page vpn -> pte_is_valid (pt_view m (pt_root_ppn (ms_page_table ms)) vpn) = true ->
  vpn ∈ all_keys (ms_areas ms).
Proof.
  intros Hs Hu Hv. destruct (so_valid _ _ _ Hs vpn Hu Hv) as (a & Ha & Hg). apply all_keys_elem. exists a.
  split; [done|]. eapply area_key_value. by apply bt_get_in.
Qed.

Lemma page_forked_parent c c' old par chi : page_forked c c' old par chi ->
  pte_is_valid par = pte_is_valid old /\ (pte_is_valid old = true -> pte_ppn par = pte_ppn old).
Proof.
  unfold page_forked. destruct (pte_is_valid old) eqn:Ev; cbn; [|by intros [-> _]].
  destruct (has (pte_flags old) PTEFlags.U); [|by intros [-> _]]. intros [-> _].
  by destruct (parent_pte_spec old Ev) as [-> ->].
Qed.

Lemma child_area_ok c' C' a a' : area_ok shared a -> child_area c' C' a a' ->
  area_ok shared a' /\ Area.start_vpn a' = Area.start_vpn a /\ Area.end_vpn a' = Area.end_vpn a /\
  (forall v, v ∈ area_keys a' -> v ∈ area_keys a).
Proof.
  intros [Ar Ap At Aw Ak] [Cs Cw Cg].
  assert (forall v, v ∈ area_keys a' -> v ∈ area_keys a) as Hk.
  { intros v ([v' p] & -> & Hin)%list_elem_of_fmap. apply bt_get_elem in Hin; [|done]. rewrite Cg in Hin. cbn.
    destruct (bool_decide (v' ∈ area_keys a)) eqn:Eb; [by apply bool_decide_eq_true in Eb|done]. }
  assert (Area.start_vpn a' = Area.start_vpn a /\ Area.end_vpn a' = Area.end_vpn a /\ ma_type a' = ma_type a) as (H1 & H2 & H3)
    by (by rewrite Cs).
  split_and!; [|done..]. split; rewrite ?H1, ?H2, ?H3; auto.
Qed.

Lemma child_areas_sorted c' C' areas areas' :
  Forall2 (child_area c' C') areas areas' -> Forall (area_ok shared) areas -> StronglySorted area_before areas ->
  Forall (area_ok shared) areas' /\ StronglySorted area_before areas'.
Proof.
  intros Ha. induction Ha as [|a a' l l' Hca Hl IH]; intros Hok Hsort; [split; constructor|].
  apply Forall_cons in Hok as [Hoka Hok]. apply StronglySorted_inv in Hsort as [Hsort Hall].
  destruct (child_area_ok _ _ _ _ Hoka Hca) as (Hok' & _ & Hend & _). destruct (IH Hok Hsort) as [IH1 IH2].
  split; constructor; try done. clear IH IH1 IH2 Hsort. induction Hl as [|b b' l l' Hcb Hl IH]; constructor.
  - apply Forall_cons in Hall as [Hb _]. apply Forall_cons in Hok as [Hokb _].
    destruct (child_area_ok _ _ _ _ Hokb Hcb) as (_ & Hst & _). unfold area_before in *. lia.
  - apply IH; by eapply Forall_cons.
Qed.

Section Assemble.
Context (c c' : PageCache) (E F E' F' : list Z) (parent : MemorySet) (C C' : PageTable) (areas' : list MapArea).
Abbreviation P := (ms_page_table parent).
Hypothesis Hs : space_ok shared (mem c) parent.
Hypothesis Hnew : forall vpn, user_page vpn -> pte_is_valid (pt_view (mem c) (pt_root_ppn C) vpn) = false.
Hypothesis Hf : fstep shared K P c E F C c' E' F' C' (all_keys (ms_areas parent)).
Hypothesis Ha : Forall2 (child_area c' C') (ms_areas parent) areas'.

Lemma fork_pages vpn : user_page vpn ->
  page_forked c c' (view c parent vpn) (view c' parent vpn) (pt_view (mem c') (pt_root_ppn C') vpn).
Proof.
  intros Hu. destruct (decide (vpn ∈ all_keys (ms_areas parent))) as [Hk|Hk]; [by apply (fs_pages _ _ _ _ _ _ _ _ _ _ _ _ Hf)|].
  destruct (fs_other _ _ _ _ _ _ _ _ _ _ _ _ Hf vpn (proj1 (proj1 Hu)) Hk) as [-> ->].
  unfold page_forked. destruct (pte_is_valid (view c parent vpn)) eqn:Ev; cbn.
  - exfalso. apply Hk. by eapply mapped_key.
  - split; [done|by apply Hnew].
Qed.

Lemma fork_parent_ok : space_ok shared (mem c') parent.
Proof. eapply space_ok_view; [done|]. intros vpn Hu. by eapply page_forked_parent, fork_pages. Qed.

Lemma fork_child_ok child :
  ms_page_table child = C' -> ms_areas child = areas' -> space_ok shared (mem c') child.
Proof.
  intros Ht Hareas. destruct (child_areas_sorted _ _ _ _ Ha (so_areas _ _ _ Hs) (so_sorted _ _ _ Hs)) as [H1 H2]. split; rewrite ?Hareas, ?Ht; [done..| |].
  - intros a' vpn p Hin Hg Hv. destruct (proj1 (list_elem_of_lookup _ _) Hin) as (i & Hi).
    destruct (Forall2_lookup_r _ _ _ _ _ Ha Hi) as (a & _ & [_ _ Cg]). rewrite Cg, Hv, andb_true_r in Hg.
    by destruct (bool_decide _); inversion Hg.
  - intros vpn Hu Hv. assert (vpn ∈ all_keys (ms_areas parent)) as (a & Hin & Hk)%all_keys_elem.
    { apply (mapped_key (mem c)); [done..|]. pose proof (fork_pages vpn Hu) as Hp. unfold page_forked in Hp.
      destruct (pte_is_valid (view c parent vpn)); cbn in Hp; [done|]. destruct Hp. congruence. }
    destruct (proj1 (list_elem_of_lookup _ _) Hin) as (i & Hi).
    destruct (Forall2_lookup_l _ _ _ _ _ Ha Hi) as (a' & Hi' & [_ _ Cg]). exists a'.
    split; [by eapply list_elem_of_lookup_2|]. by rewrite Cg, bool_decide_true, Hv.
Qed.

End Assemble.

(** The trackers a fork may add: five tables for the trampolines, a frame and two
    tables for each page, and those of the backings. *)
Definition fork_room (ms : MemorySet) : Z :=
  5 + 3 * Z.of_nat (length (all_keys (ms_areas ms))) + Z.of_nat (length (backing_frames ms)).

(** The parent next to a new table. *)
Lemma parent_beside c E F parent c1 C :
  space_in c E F parent -> table_in shared K c1 (pt_frames C ++ E) F C ->
  (forall q, q ∉ pt_frames C -> mem c1 q = mem c q) ->
  pair_in shared K (ms_page_table parent) c1 (pt_frames C ++ E) F C /\
  (forall vpn, view c1 parent vpn = view c parent vpn).
Proof.
  intros [[W T S D] _ _ _] HC Hm. destruct (proj1 (NoDup_app _ _) (wk_nodup _ _ _ (ti_world _ _ _ _ _ _ HC))) as (_ & Hnd & _).
  assert (forall q, q ∈ pt_frames (ms_page_table parent) ++ K -> q ∉ pt_frames C) as Hap
    by (intros q Hq Hin; by apply (Hnd q Hin), S).
  destruct (table_agree _ _ _ _ _ T (fun q Hq => Hm q (Hap q Hq))) as (T1 & V1 & _).
  split; [|done]. split; [|done|intros q Hq; apply Hap, elem_of_app; by left].
  split; [apply HC|done| |done]. intros q Hq. apply elem_of_app. right. by apply S.
Qed.

Lemma parent_entries c E F parent c1 C a :
  space_in c E F parent -> (forall vpn, view c1 parent vpn = view c parent vpn) ->
  (forall vpn, user_page vpn -> pte_is_valid (pt_view (mem c1) (pt_root_ppn C) vpn) = false) ->
  a ∈ ms_areas parent -> Forall (entry_ready (ms_page_table parent) c1 F C) (ma_frames a).
Proof.
  intros [_ _ Hs Hfr] Hv Hnew Ha. pose proof (so_areas _ _ _ Hs) as Hok. rewrite Forall_forall in Hok.
  specialize (Hok a Ha). apply Forall_forall. intros [vpn p] Hin. destruct (area_key_value _ _ _ Hin) as [Hk Hp].
  split; cbn.
  - apply Hfr, elem_of_app. left. by eapply area_frames_elem.
  - rewrite Hv. apply (so_tracked _ _ _ Hs a); [done|]. apply bt_get_elem; [apply Hok|done].
  - by apply Hnew, (ao_pages _ _ Hok), (ao_keys _ _ Hok).
Qed.

(** The backings are cloned last; what the address spaces are does not change. *)
Lemma space_in_clone c E F ps ms :
  space_in c E F ms -> (forall p, p ∈ ps -> p ∈ F) -> has_room c (E ++ F) (Z.of_nat (length ps)) ->
  space_in (foldl clone_frame c ps) E (ps ++ F) ms.
Proof.
  intros [T M S Hf] Hp Hr. destruct (clone_frames_world ps c E F (ti_world _ _ _ _ _ _ T) Hp Hr) as (W & _ & Hm).
  split; rewrite ?Hm; try done; [|intros q Hq; apply elem_of_app; right; auto].
  eapply table_in_data; [done|done|by rewrite Hm].
Qed.

Lemma fstep_kernel_mem c E F P C c' E' F' C' vpns :
  pair_in shared K P c E F C -> fstep shared K P c E F C c' E' F' C' vpns ->
  forall q, q ∈ K -> mem c' q = mem c q.
Proof.
  intros [HP HC _] Hf q Hq. apply (kt_mem _ _ _ _ _ _ (fs_kernel _ _ _ _ _ _ _ _ _ _ _ _ Hf)).
  - apply HP, elem_of_app. by right.
  - by apply HP.
  - by apply HC.
Qed.

Lemma mapped_after c E F P C c' E' F' C' vpns pt :
  pair_in shared K P c E F C -> fstep shared K P c E F C c' E' F' C' vpns -> kernel_ok k (mem c) ->
  pt_root_ppn pt = pt_root_ppn P \/ pt_root_ppn pt = pt_root_ppn C ->
  kernel_mapped k (mem c) pt -> kernel_mapped k (mem c') pt.
Proof.
  intros Hp Hf Hk Hpt Hm i Hi. pose proof (fstep_kernel_mem _ _ _ _ _ _ _ _ _ _ Hp Hf) as HK.
  destruct (fs_kernel _ _ _ _ _ _ _ _ _ _ _ _ Hf) as [_ Hr].
  destruct (Hr i Hi) as [H1 H2]; [destruct (ko_root _ _ Hk i Hi) as [? _]; unfold is_index; lia|].
  assert (pte_at (mem c') (pt_root_ppn (kn_page_table k)) i = pte_at (mem c) (pt_root_ppn (kn_page_table k)) i) as ->.
  { unfold pte_at. rewrite HK; [done|]. by apply (kernel_root_in k (mem c)). }
  rewrite <- Hm by done. by destruct Hpt as [-> | ->].
Qed.

(** After the areas, before the backings. *)
Lemma forked_areas c E F parent c1 child c2 E2 C2 areas' :
  space_in c E F parent ->
  pair_in shared K (ms_page_table parent) c1 (pt_frames (ms_page_table child) ++ E) F (ms_page_table child) ->
  kernel_ok k (mem c1) -> kernel_mapped k (mem c1) (ms_page_table child) ->
  kernel_mapped k (mem c1) (ms_page_table parent) ->
  (forall vpn, view c1 parent vpn = view c parent vpn) ->
  (forall vpn, user_page vpn -> pte_is_valid (view c1 child vpn) = false) ->
  fstep shared K (ms_page_table parent) c1 (pt_frames (ms_page_table child) ++ E) F (ms_page_table child)
    c2 E2 (all_values areas' ++ F) C2 (all_keys (ms_areas parent)) ->
  Forall2 (child_area c2 C2) (ms_areas parent) areas' ->
  forall child2, ms_page_table child2 = C2 -> ms_areas child2 = areas' ->
    ms_mmap_backings child2 = ms_mmap_backings parent ->
  (forall ps, has_room c2 (E2 ++ all_values areas' ++ F) (Z.of_nat (length ps)) -> ps = backing_frames parent ->
   space_in (foldl clone_frame c2 ps) (pt_frames C2 ++ E) (space_frames child2 ++ F) parent /\
   space_in (foldl clone_frame c2 ps) (pt_frames C2 ++ E) (space_frames child2 ++ F) child2) /\
  (forall vpn, user_page vpn -> page_forked c1 c2 (view c parent vpn) (view c2 parent vpn) (view c2 child2 vpn)).
Proof.
  intros Hsp Hpair Hk Hmc Hmp Hv Hnew Hf Ha child2 Ht Hareas Hb.
  assert (space_ok shared (mem c1) parent) as Hs1.
  { eapply space_ok_view; [apply Hsp|]. intros vpn _. by rewrite Hv. }
  pose proof (fork_pages c1 c2 _ _ _ _ parent _ _ Hs1 Hnew Hf) as Hpages.
  pose proof (fs_root _ _ _ _ _ _ _ _ _ _ _ _ Hf) as Hroot.
  split; [|intros vpn Hu; rewrite <- Hv, Ht; by apply Hpages]. intros ps Hr ->.
  destruct (fs_pair _ _ _ _ _ _ _ _ _ _ _ _ Hf) as [HP HC _].
  destruct (fs_tables _ _ _ _ _ _ _ _ _ _ _ _ Hf) as (new & HE & HCf & _).
  assert (forall q, q ∈ backing_frames parent -> q ∈ F) as HbF
    by (intros q Hq; apply (si_frames _ _ _ _ Hsp), elem_of_app; by right).
  assert (backing_frames parent ++ all_values areas' ++ F ≡ₚ space_frames child2 ++ F) as HF.
  { unfold space_frames, area_frames, backing_frames. rewrite Hareas, Hb. unfold all_values. rewrite !app_assoc.
    by rewrite (Permutation_app_comm (concat (map area_values areas'))). }
  assert (E2 ≡ₚ pt_frames C2 ++ E) as HE' by (rewrite HE, HCf; by rewrite app_assoc).
  assert (forall ms, space_in c2 E2 (all_values areas' ++ F) ms ->
    space_in (foldl clone_frame c2 (backing_frames parent)) (pt_frames C2 ++ E) (space_frames child2 ++ F) ms) as Hwrap.
  { intros ms Hms. destruct (space_in_clone _ _ _ (backing_frames parent) ms Hms) as [[W T S D] M So Fr];
      [intros q Hq; apply elem_of_app; right; auto|done|].
    split; [|done|done|intros q Hq; rewrite <- HF; auto]. split; [by eapply world_perm|done|intros q Hq; rewrite <- HE'; auto|done]. }
  split; apply Hwrap.
  - split; [done| |by eapply fork_parent_ok|].
    + eapply mapped_after; [done|done|done|by left|done].
    + intros q Hq. apply elem_of_app. right. by apply Hsp.
  - split; rewrite ?Ht; [done| |by eapply (fork_child_ok c1 c2)|].
    + intros i Hi. rewrite Hroot. eapply (mapped_after c1 _ _ _ _ c2 _ _ _ _ (ms_page_table child)); [done|done|done|by right|done|done].
    + intros q [Hq|Hq]%elem_of_app; apply elem_of_app.
      * left. unfold area_frames in Hq. by rewrite Hareas in Hq.
      * right. apply HbF. unfold backing_frames in *. by rewrite Hb in Hq.
Qed.

(** The frame of a mapped user page is data. *)
Lemma mapped_data c E F ms vpn :
  space_in c E F ms -> user_page vpn -> pte_is_valid (view c ms vpn) = true -> pte_ppn (view c ms vpn) ∈ F.
Proof.
  intros [_ _ Hs Hfr] Hu Hv. destruct (so_valid _ _ _ Hs vpn Hu Hv) as (a & Ha & Hg).
  apply Hfr, elem_of_app. left. eapply area_frames_elem; [done|]. eapply area_key_value. by apply bt_get_in.
Qed.

Lemma child_frames_from c E F parent c1 C E1 c2 E2 areas' C2 c3 q :
  space_in c E F parent -> (forall vpn, view c1 parent vpn = view c parent vpn) ->
  fstep shared K (ms_page_table parent) c1 E1 F C c2 E2 (all_values areas' ++ F) C2 (all_keys (ms_areas parent)) ->
  evolves c2 c3 -> q ∈ all_values areas' -> q ∈ space_frames parent \/ q ∉ trackers c3 F.
Proof.
  intros Hsp Hv Hf Hev Hq. destruct (fs_data _ _ _ _ _ _ _ _ _ _ _ _ Hf) as (new & HF & _ & Hd).
  apply Permutation_app_inv_r in HF. rewrite HF in Hq. rewrite Forall_forall in Hd.
  destruct (Hd q Hq) as [Hn|(vpn & (a & Ha & Hk)%all_keys_elem & Hval & ->)].
  - right. intros Hin. apply Hn. by eapply evolves_elem.
  - left. apply elem_of_app. left. rewrite Hv in *. pose proof (si_space _ _ _ _ Hsp) as Hs.
    pose proof (so_areas _ _ _ Hs) as Hok. rewrite Forall_forall in Hok. specialize (Hok a Ha).
    destruct (so_valid _ _ _ Hs vpn (ao_pages _ _ Hok _ (ao_keys _ _ Hok _ Hk)) Hval) as (b & Hb & Hg).
    eapply area_frames_elem; [exact Hb|]. eapply area_key_value. by apply bt_get_in.
Qed.

Lemma fork_finish c E F parent c1 child c2 E2 C2 areas' child3 :
  space_in c E F parent -> kernel_ok k (mem c1) -> evolves c c1 ->
  pair_in shared K (ms_page_table parent) c1 (pt_frames (ms_page_table child) ++ E) F (ms_page_table child) ->
  (forall vpn, view c1 parent vpn = view c parent vpn) ->
  kernel_mapped k (mem c1) (ms_page_table child) -> kernel_mapped k (mem c1) (ms_page_table parent) ->
  (forall q, q ∉ pt_frames (ms_page_table child) -> mem c1 q = mem c q) ->
  (forall vpn, user_page vpn -> pte_is_valid (view c1 child vpn) = false) ->
  has_room c2 (E2 ++ all_values areas' ++ F) (Z.of_nat (length (backing_frames parent))) ->
  fstep shared K (ms_page_table parent) c1 (pt_frames (ms_page_table child) ++ E) F (ms_page_table child)
    c2 E2 (all_values areas' ++ F) C2 (all_keys (ms_areas parent)) ->
  Forall2 (child_area c2 C2) (ms_areas parent) areas' ->
  ms_page_table child3 = C2 -> ms_areas child3 = areas' -> same_metadata parent child3 ->
  forked c E F parent (foldl clone_frame c2 (backing_frames parent)) child3.
Proof.
  intros Hsp Hk1 V1 Hpair Hv Hmc Hmp M1 Hnew Hr Hf Ha Ht Hareas Hmeta. pose proof (pr_child _ _ _ _ _ _ _ Hpair) as HC.
  assert (forall q, q ∈ trackers c1 F -> mem c1 q = mem c q) as MF by (intros q Hq; apply M1; by eapply data_kept).
  assert (forall q, q ∈ backing_frames parent -> q ∈ F) as HbF
    by (intros q Hq; apply (si_frames _ _ _ _ Hsp), elem_of_app; by right).
  destruct (clone_frames_world (backing_frames parent) c2 E2 (all_values areas' ++ F)) as (_ & V3 & M3);
    [apply Hf|intros q Hq; apply elem_of_app; right; auto|done|].
  destruct (forked_areas c E F parent c1 child c2 E2 C2 areas' Hsp Hpair Hk1 Hmc Hmp Hv Hnew Hf Ha child3 Ht Hareas (proj1 (proj2 Hmeta))) as [Hspaces Hpages].
  destruct (Hspaces _ Hr eq_refl) as [HP3 HC3]. rewrite <- Ht in HP3, HC3.
  pose proof (fs_evolves _ _ _ _ _ _ _ _ _ _ _ _ Hf) as V2.
  split; [by do 2 (etrans; [done|])| |done|done| | | | |done].
  - rewrite M3. eapply kernel_agree; [exact Hk1|]. by eapply fstep_kernel_mem.
  - intros vpn Hu. rewrite M3. eapply page_forked_widen; [exact V1|by apply Hpages|by rewrite M3|].
    intros Hval. apply MF, trackers_here. by eapply mapped_data.
  - intros q Hq. rewrite M3. assert (q ∈ trackers c2 F) as Hq2 by (by eapply evolves_elem).
    rewrite (fs_keeps _ _ _ _ _ _ _ _ _ _ _ _ Hf) by done. apply MF. by eapply evolves_elem.
  - intros q Hq Hn. assert (q ∉ pt_frames (ms_page_table child)) as Hn'.
    { destruct (proj1 (NoDup_app _ _) (wk_nodup _ _ _ (ti_world _ _ _ _ _ _ HC))) as (_ & Hnd & _). intros Hin. by eapply Hnd. }
    rewrite M3, (kt_mem _ _ _ _ _ _ (fs_kernel _ _ _ _ _ _ _ _ _ _ _ _ Hf)) by (done || apply elem_of_app; by right). by apply M1.
  - intros q [Hq|Hq]%elem_of_app.
    + unfold area_frames in Hq. rewrite Hareas in Hq. by eapply child_frames_from.
    + left. apply elem_of_app. right. unfold backing_frames in *. by rewrite (proj1 (proj2 Hmeta)) in Hq.
Qed.

Lemma fork_cow_ok c E F parent aslr :
  kernel_ok k (mem c) -> (forall q, q ∈ K -> q ∈ E) -> space_in c E F parent -> has_room c (E ++ F) (fork_room parent) ->
  match from_existed_user_cow k c parent aslr with
  | Some (child, c') => forked c E F parent c' child
  | None => exhausted c
  end.
Proof.
  intros Hk HK Hsp Hr. unfold from_existed_user_cow, copy_user_space. pose proof Hsp as [[W T S D] Hmp Hs Hfr].
  assert (0 <= Z.of_nat (length (all_keys (ms_areas parent))) /\ 0 <= Z.of_nat (length (backing_frames parent))) as [Hn1 Hn2] by lia.
  pose proof (user_space_bare k c E F aslr W HK Hk ltac:(unfold has_room, fork_room in *; lia)) as H0.
  destruct (new_bare c aslr) as [[ms0 c0]|]; cbn [mbind option_bind] in *; [|done].
  destruct (map_user_trampoline_pages k c0 ms0) as [[[ok c1] child]|]; cbn [mbind option_bind]; [|done].
  destruct H0 as (-> & Hms & HC & Hl & V1 & Hk1 & Hmc & M1 & Hnew). cbn [negb].
  destruct (parent_beside c E F parent c1 (ms_page_table child) Hsp HC M1) as [Hpair Hv].
  assert (has_room c1 ((pt_frames (ms_page_table child) ++ E) ++ F) (3 * Z.of_nat (length (all_keys (ms_areas parent))) + Z.of_nat (length (backing_frames parent)))) as Hr1.
  { eapply has_room_evolves; [done..|]. unfold fork_room. rewrite !length_app. lia. }
  assert (kernel_mapped k (mem c1) (ms_page_table parent)) as Hmp1.
  { intros i Hi. specialize (Hmp i Hi). unfold pte_at in *. destruct Hpair as [HP1 HC1 Hap].
    rewrite !M1; [done|by apply HC1, (kernel_root_in k (mem c))|apply Hap, T]. }
  pose proof (copy_areas_done shared K (ms_page_table parent) (ms_areas parent) c1 child walk_cache_new walk_cache_new
    _ F Hpair (so_areas _ _ _ Hs) (so_sorted _ _ _ Hs)) as H2.
  assert (ms_areas child = []) as Hch by by rewrite Hms. rewrite Hch in H2.
  specialize (H2 ltac:(constructor) ltac:(by intros ? ? ?%elem_of_nil) ltac:(unfold has_room in *; lia)
    (fun a Ha => parent_entries c E F parent c1 (ms_page_table child) a Hsp Hv Hnew Ha)).
  destruct (foldl_opt _ _ _) as [[[[c2 child2] w1] w2]|]; cbn [mbind option_bind]; [|by eapply exhausted_after].
  destruct H2 as (E2 & C2 & areas' & Hf & -> & Ha). unfold inherit_user_vm_metadata_from. rewrite clone_backings.
  eapply (fork_finish c E F parent c1 child c2); [done|done|done|exact Hpair|exact Hv|done|done|exact M1|exact Hnew| |exact Hf|exact Ha|done|done|].
  - eapply fstep_room; [exact Hf|]. by exact Hr1.
  - unfold same_metadata. split_and!; try done. cbn. eapply Forall2_impl; [exact Ha|]. by intros a a' [? _ _].
Qed.


End ForkSpace.
