(* ===== verification/Fault.v ===== *)
(** * Page faults

    [mm/memory_set/fault.rs]: copy-on-write faults, faults on pages that are
    mapped on demand, and the growth of stacks. *)

From S2P Require Import Prelude.
From S2P Require Import BTree.
From S2P Require Import Address.
From S2P Require Import Ranges.
From S2P Require Import FrameAlloc.
From S2P Require Import PageCache.
From S2P Require Import VmRegion.
From S2P Require Import VmRegionSet.
From S2P Require Import PageTable.
From S2P Require Import MapArea.
From S2P Require Import Backing.
From S2P Require Import MemorySet.
From S2P Require Import FileMmap.
From S2P Require Import ForkCow.
Import Region VmaSet.

Definition fault_hits_mmap_sigbus_tail (ms : MemorySet) (addr : Z) : bool :=
  match vm_region_containing_addr ms addr with
  | Some region => r_sigbus_start region <=? addr
  | None => false
  end.

(** [cow_diag_stats]: areas, tracked frames, pages of identical areas, and the
    areas of each type. *)
Definition cow_diag_stats (ms : MemorySet) : Z * Z * Z * Z * Z * Z :=
  let '(frames, identical_vpns, lazy, framed, identical) :=
    foldl (fun st area =>
      let '(frames, identical_vpns, lazy, framed, identical) := st in
      let frames := sat_add frames (Area.tracked_frame_count area) in
      match ma_type area with
      | Lazy => (frames, identical_vpns, sat_add lazy 1, framed, identical)
      | Framed => (frames, identical_vpns, lazy, sat_add framed 1, identical)
      | Identical => (frames, sat_add identical_vpns (Area.page_count area), lazy, framed, sat_add identical 1)
      end) (0, 0, 0, 0, 0) (ms_areas ms) in
  (Z.of_nat (length (ms_areas ms)), frames, identical_vpns, lazy, framed, identical).

(** ** Copy on write *)

(** [new_flags.remove(COW); insert(W); insert(D)] *)
Definition cow_resolved_flags (flags : Z) : Z :=
  Z.lor (Z.lor (flags_remove flags PTEFlags.COW) PTEFlags.W) PTEFlags.D.

(** The new frame goes to the first area, identical ones apart, with the page;
    without one its tracker is dropped. *)
Definition track_new_frame (c : PageCache) (ms : MemorySet) (vpn frame : Z) : option (PageCache * MemorySet) :=
  match position (fun a => negb (Area.is_identical a) && Area.contains_vpn a vpn) (ms_areas ms) with
  | Some idx =>
      a ← ms_areas ms !! idx;
      '(c, a) ← Area.insert_tracked_frame c a vpn frame;
      Some (c, update_area ms idx a)
  | None => c ← drop_frame c frame; Some (c, ms)
  end.

Definition resolve_cow_fault (c : PageCache) (ms : MemorySet) (fault_va : Z)
    : option (bool * PageCache * MemorySet) :=
  let vpn := floor (virt_addr fault_va) in
  match vm_region_containing_addr ms fault_va with
  | None => Some (false, c, ms)
  | Some region =>
      if negb (allows_cow_fault region fault_va) then Some (false, c, ms)
      else
        match mtranslate c ms vpn with
        | None => Some (false, c, ms)
        | Some pte =>
            let flags := pte_flags pte in
            if negb (PTEFlags.contains flags PTEFlags.COW) || PTEFlags.contains flags PTEFlags.SHARED
            then Some (false, c, ms)
            else
              '(frame, c) ← frame_alloc c;
              match frame with
              | None => Some (false, c, ms)
              | Some frame =>
                  let c := copy_page c frame (pte_ppn pte) in
                  let (remapped, c) := remap c (ms_page_table ms) vpn frame (cow_resolved_flags flags) in
                  if negb remapped then c ← drop_frame c frame; Some (false, c, ms)
                  else '(c, ms) ← track_new_frame c ms vpn frame; Some (true, c, ms)
              end
        end
  end.

(** ** Pages mapped on demand *)

Section LazyFault.

(** [pread file off len]: what [OSInode::pread_at] writes to the front of the
    buffer; [None] if the file is not an [OSInode]. *)
Variable pread : Z -> Z -> Z -> option (list Z).
(** [cgroup_charge_anon_current(pid, bytes)] *)
Variable charge : Z -> bool.

(** The number of the page in its file or shared object. *)
Definition backing_page (region : VmRegion) (page_start : Z) : Z :=
  sat_add (r_file_offset region) (sat_sub page_start (r_start region)) / PAGE_SIZE.

Definition shared_inode_backed (region : VmRegion) : bool :=
  r_shared region && r_file_backed region && (r_memfd_id region =? 0).
Definition shared_anon_backed (region : VmRegion) : bool :=
  r_shared region && negb (r_anon_shared_id region =? 0).

(** [cached_shared_frame]: a clone of the frame of a shared page that exists. *)
Definition cached_shared_frame (c : PageCache) (ms : MemorySet) (region : VmRegion) (page_start : Z)
    : option Z * PageCache :=
  let page := backing_page region page_start in
  if shared_inode_backed region then
    if r_backing_id region =? 0 then (None, c)
    else
      match shared_file_page_cache_get c (r_file_dev region) (r_file_ino region) page with
      | (Some p, c) => (Some p, c)
      | (None, c) => mmap_backing_resident_frame c ms (r_backing_id region) page
      end
  else if shared_anon_backed region then shared_anon_page_cache_get c (r_anon_shared_id region) page
  else (None, c).

(** The content of a new page of a file mapping. *)
Definition read_file_page (c : PageCache) (ms : MemorySet) (region : VmRegion) (page_start frame : Z) : PageCache :=
  if negb (r_file_backed region) then c
  else
    match bt_get (ms_mmap_backings ms) (r_backing_id region) with
    | None => c
    | Some backing =>
        let region_delta := sat_sub page_start (r_start region) in
        let file_off := sat_add (r_file_offset region) region_delta in
        let read_len := Z.min (sat_sub (file_valid_len region) region_delta) PAGE_SIZE in
        if 0 <? read_len then
          match pread (bk_file backing) file_off read_len with
          | Some data => write_page_bytes c frame 0 (take (Z.to_nat read_len) data)
          | None => c
          end
        else c
    end.

(** The frame the page gets in the end: the one of the global caches for shared
    pages. *)
Definition shared_frame (c : PageCache) (region : VmRegion) (page_start frame : Z) : option (Z * PageCache) :=
  let page := backing_page region page_start in
  if shared_inode_backed region && negb (r_backing_id region =? 0)
  then shared_file_page_cache_insert_or_get c (r_file_dev region) (r_file_ino region) page frame
  else if shared_anon_backed region
  then shared_anon_page_cache_insert_or_get c (r_anon_shared_id region) page frame
  else Some (frame, c).

(** The cgroup charge of an area; [None] when it is refused. *)
Definition charge_area (region : VmRegion) (perm : Z) (area : MapArea) : option MapArea :=
  let accounted_pages := Area.charged_or_tracked_pages area in
  let new_charge_pages := sat_sub (Area.page_count area) accounted_pages in
  if (0 <? new_charge_pages) && is_private_anonymous region
     && MapPermission.contains perm MapPermission.U && MapPermission.contains perm MapPermission.W
  then if charge (sat_mul new_charge_pages PAGE_SIZE)
       then Some (area {{ ma_charged := sat_add accounted_pages new_charge_pages }}) else None
  else Some area.

(** The last steps: the page-table entry, the tracker, the resident page of the
    backing. *)
Definition install_page (c : PageCache) (ms : MemorySet) (region : VmRegion) (pte_flags idx_page vpn frame : Z)
    (idx : nat) (area : MapArea) : option (PageCache * MemorySet) :=
  '(c, pt) ← pt_map c (ms_page_table ms) vpn frame pte_flags;
  '(c, area) ← Area.insert_tracked_frame c area vpn frame;
  let ms := (update_area ms idx area) {{ ms_page_table := pt }} in
  if r_backing_id region =? 0 then Some (c, ms)
  else
    match bt_get (ms_mmap_backings ms) (r_backing_id region) with
    | None => Some (c, ms)
    | Some backing =>
        let (c, backing) := Backing.add_resident_page_ref c backing idx_page
          (if shared_inode_backed region then Some frame else None)
          (PTEFlags.contains pte_flags PTEFlags.D) in
        Some (c, set_backing ms (r_backing_id region) backing)
    end.

(** A tracker that is not used is dropped on the way out. *)
Definition drop_unused (c : PageCache) (frame : option Z) : option PageCache :=
  match frame with Some p => drop_frame c p | None => Some c end.

(** The body of the loop, for the first lazy area with the page. *)
Definition fault_in_area (c : PageCache) (ms : MemorySet) (region : VmRegion) (perm pte_flags vpn : Z)
    (cached : option Z) (idx : nat) (area : MapArea) : option (LazyFaultResult * PageCache * MemorySet) :=
  let page_start := sat_mul vpn PAGE_SIZE in
  if is_mapped (mem c) (ms_page_table ms) vpn then
    c ← drop_unused c cached; Some (Invalid, c, ms)
  else
    '(frame, c) ← match cached with
                  | Some p => Some (Some p, c)
                  | None =>
                      '(frame, c) ← frame_alloc c;
                      Some (frame, match frame with
                                   | Some p => read_file_page c ms region page_start p
                                   | None => c
                                   end)
                  end;
    match frame with
    | None => Some (Oom, c, ms)
    | Some frame =>
        '(frame, c) ← shared_frame c region page_start frame;
        match charge_area region perm area with
        | None => c ← drop_frame c frame; Some (Oom, c, ms)
        | Some area =>
            '(c, ms) ← install_page c ms region pte_flags (backing_page region page_start) vpn frame idx area;
            Some (Resolved, c, ms)
        end
    end.

Definition resolve_lazy_fault (c : PageCache) (ms : MemorySet) (fault_va access : Z)
    : option (LazyFaultResult * PageCache * MemorySet) :=
  let vpn := floor (virt_addr fault_va) in
  match vm_region_containing_addr ms fault_va with
  | None => Some (Invalid, c, ms)
  | Some region =>
      match lazy_fault_policy region fault_va access with
      | None => Some (Invalid, c, ms)
      | Some (perm, pte_flags) =>
          let (cached, c) := cached_shared_frame c ms region (sat_mul vpn PAGE_SIZE) in
          match position (fun a => Area.is_lazy a && Area.contains_vpn a vpn) (ms_areas ms) with
          | None => c ← drop_unused c cached; Some (Invalid, c, ms)
          | Some idx =>
              area ← ms_areas ms !! idx;
              fault_in_area c ms region perm pte_flags vpn cached idx area
          end
      end
  end.

(** ** Stacks that grow down *)

Definition map_area_range_overlaps_except (ms : MemorySet) (start end__ : Z) (exclude : option (Z * Z)) : bool :=
  let start_vpn := floor (virt_addr start) in
  let end_vpn := ceil (virt_addr end__) in
  existsb (fun area =>
    range_overlaps_except start end__ (sat_mul (Area.start_vpn area) PAGE_SIZE)
      (sat_mul (Area.end_vpn area) PAGE_SIZE) exclude
    && Area.overlaps_vpn_range area start_vpn end_vpn) (ms_areas ms).

Definition vm_region_range_overlaps_except (ms : MemorySet) (start end__ : Z) (exclude : option (Z * Z)) : bool :=
  any_overlap_except (ms_vm_regions ms) start end__ exclude.

Definition try_expand_growsdown (k : Kernel) (c : PageCache) (ms : MemorySet) (fault_va access : Z)
    : option (LazyFaultResult * PageCache * MemorySet) :=
  let fault_page := Z.land fault_va (bnot (PAGE_SIZE - 1)) in
  match growsdown_candidate_before (ms_vm_regions ms) fault_page with
  | None => Some (Invalid, c, ms)
  | Some region =>
      let perm := r_map_perm region in
      if negb (MapPermission.contains perm access) then Some (Invalid, c, ms)
      else if concrete_range_overlaps k ms (virt_addr fault_page) (virt_addr (r_start region))
      then Some (Invalid, c, ms)
      else
        match checked_sub fault_page USER_STACK_GUARD_GAP with
        | None => Some (Invalid, c, ms)
        | Some next_guard_start =>
            if map_area_range_overlaps_except ms next_guard_start fault_page None
               || vm_region_range_overlaps_except ms next_guard_start fault_page None
            then Some (Invalid, c, ms)
            else
              '(inserted, c, ms) ← try_insert_lazy_area_raw k c ms (virt_addr fault_page)
                                     (virt_addr (r_start region)) perm;
              if negb inserted then Some (Invalid, c, ms)
              else
                let (expanded, s) := expand_growsdown_at (ms_vm_regions ms) (r_start region) fault_page in
                let ms := ms {{ ms_vm_regions := s }} in
                if negb expanded then Some (Invalid, c, ms) else resolve_lazy_fault c ms fault_va access
        end
  end.

End LazyFault.
