(* ===== verification/CowFault.v ===== *)
(** * Copy-on-write faults, proved

    [resolve_cow_fault] gives the faulting page a frame of its own: the same
    bytes, writable, tracked by the area of the page; the tracker of the old frame
    is dropped.  No other page of any address space changes. *)

From S2P Require Import Prelude.
From S2P Require Import BTree.
From S2P Require Import Address.
From S2P Require Import FrameAlloc.
From S2P Require Import PageCache.
From S2P Require Import VmRegion.
From S2P Require Import PageTable.
From S2P Require Import MapArea.
From S2P Require Import World.
From S2P Require Import SpaceTable.
From S2P Require Import Backing.
From S2P Require Import MemorySet.
From S2P Require Import SpaceInv.
From S2P Require Import NewSpace.
From S2P Require Import ForkCow.
From S2P Require Import ForkSteps.
From S2P Require Import ForkProof.
From S2P Require Import Fault.

Lemma update_split {A} (l : list A) i a :
  l !! i = Some a -> exists l1 l2, l = l1 ++ a :: l2 /\ (forall b, <[i := b]> l = l1 ++ b :: l2) /\ length l1 = i.
Proof.
  intros Hi. pose proof (lookup_lt_Some _ _ _ Hi). exists (take i l), (drop (S i) l).
  split_and!; [by rewrite take_drop_middle|intros b; by apply insert_take_drop|rewrite length_take; lia].
Qed.

Section CowFault.
Context (k : Kernel).
Abbreviation K := (pt_frames (kn_page_table k)).
Abbreviation shared := (kernel_index k).
Abbreviation user_page := (SpaceInv.user_page shared).
Abbreviation space_in := (ForkProof.space_in k).
Abbreviation area_ok := (SpaceInv.area_ok shared).
Abbreviation view c ms vpn := (pt_view (mem c) (pt_root_ppn (ms_page_table ms)) vpn).

(** ** Another frame for a tracked page *)

Section Retrack.
Context (a : MapArea) (vpn f old : Z).
Hypothesis Hok : area_ok a.
Hypothesis Hget : bt_get (ma_frames a) vpn = Some old.
Abbreviation a' := (a {{ ma_frames := bt_insert (ma_frames a) vpn f }}).

Lemma retrack_key : Area.start_vpn a <= vpn < Area.end_vpn a.
Proof. apply (ao_keys _ _ Hok). eapply area_key_value. by apply bt_get_in. Qed.

Lemma retrack_values : exists rest, area_values a ≡ₚ old :: rest /\ area_values a' ≡ₚ f :: rest.
Proof.
  exists (bt_values (bt_remove (ma_frames a) vpn)). unfold area_values. cbn. split; [by apply values_remove|].
  unfold bt_values. rewrite (bt_insert_perm _ _ _ (ao_wf _ _ Hok)). done.
Qed.

Lemma retrack_ok : area_ok a'.
Proof.
  destruct Hok as [Ar Ap At Aw Ak]. split; cbn; try done; [by apply bt_wf_insert|].
  intros v ([v' p] & -> & Hin)%list_elem_of_fmap. apply bt_insert_elem_iff in Hin as [[-> _]|[_ Hin]]; [|..|done]; cbn.
  - apply retrack_key.
  - apply Ak. by eapply area_key_value.
Qed.

End Retrack.

Lemma sorted_split l1 a l2 :
  StronglySorted area_before (l1 ++ a :: l2) ->
  (forall b, b ∈ l1 -> area_before b a) /\ (forall b, b ∈ l2 -> area_before a b).
Proof.
  induction l1 as [|x l1 IH]; cbn; intros [Hs Hall]%StronglySorted_inv.
  - split; [by intros b ?%elem_of_nil|by apply Forall_forall].
  - destruct (IH Hs) as [H1 H2]. split; [|done]. intros b [->|Hb]%elem_of_cons; [|auto].
    rewrite Forall_forall in Hall. apply Hall. set_solver.
Qed.

Lemma sorted_replace l1 a a' l2 :
  Area.start_vpn a' = Area.start_vpn a -> Area.end_vpn a' = Area.end_vpn a ->
  StronglySorted area_before (l1 ++ a :: l2) -> StronglySorted area_before (l1 ++ a' :: l2).
Proof.
  intros Hs He. unfold area_before. induction l1 as [|x l1 IH]; cbn; intros [Hss Hall]%StronglySorted_inv.
  - constructor; [done|]. rewrite He. done.
  - constructor; [auto|]. apply Forall_app in Hall as [H1 [H2 H3]%Forall_cons]. apply Forall_app. split; [done|].
    constructor; [by rewrite Hs|done].
Qed.

(** The invariant, with the page [vpn] moved to the frame [f]. *)
Lemma space_ok_retrack m m' ms ms' i a vpn f old :
  space_ok shared m ms -> ms_areas ms !! i = Some a -> bt_get (ma_frames a) vpn = Some old ->
  ms_page_table ms' = ms_page_table ms ->
  ms_areas ms' = <[i := a {{ ma_frames := bt_insert (ma_frames a) vpn f }}]> (ms_areas ms) ->
  (forall v, is_vpn v -> v <> vpn ->
     pt_view m' (pt_root_ppn (ms_page_table ms)) v = pt_view m (pt_root_ppn (ms_page_table ms)) v) ->
  pte_ppn (pt_view m' (pt_root_ppn (ms_page_table ms)) vpn) = f -> space_ok shared m' ms'.
Proof.
  intros [Sa Ss St Sv] Hi Hg Ht Hareas Hv Hf. destruct (update_split _ _ _ Hi) as (l1 & l2 & Hl & Hup & _).
  rewrite Hup in Hareas. rewrite Hl in Sa, Ss, St, Sv. apply Forall_app in Sa as [Sa1 [Sa Sa2]%Forall_cons].
  pose proof (retrack_key _ _ _ Sa Hg) as Hkey. destruct (sorted_split _ _ _ Ss) as [B1 B2].
  pose proof (retrack_ok a vpn f old Sa Hg) as Hok'. rewrite Forall_forall in Sa1, Sa2.
  assert (forall b v, b ∈ l1 ++ l2 -> v ∈ area_keys b -> is_vpn v /\ v <> vpn) as Hother.
  { intros b v Hb Hkv. assert (area_ok b) as Hbok by (apply elem_of_app in Hb as [?|?]; auto).
    split; [by eapply keys_user|]. intros ->. apply (ao_keys _ _ Hbok) in Hkv. unfold area_before in *.
    apply elem_of_app in Hb as [Hb|Hb]; [specialize (B1 b Hb)|specialize (B2 b Hb)]; lia. }
  split; rewrite ?Hareas, ?Ht.
  - apply Forall_app. split; [by apply Forall_forall|]. constructor; [done|by apply Forall_forall].
  - by apply (sorted_replace _ a).
  - intros b v p Hb Hgv Hval. destruct (decide (v = vpn)) as [->|Hne].
    + rewrite Hf. apply elem_of_app in Hb as [Hb|[->|Hb]%elem_of_cons].
      * destruct (Hother b vpn) as [_ []]; [set_solver|eapply area_key_value; by apply bt_get_in|done].
      * cbn in Hgv. rewrite bt_get_insert, key_eqb_refl in Hgv. congruence.
      * destruct (Hother b vpn) as [_ []]; [set_solver|eapply area_key_value; by apply bt_get_in|done].
    + assert (exists b0, b0 ∈ l1 ++ a :: l2 /\ bt_get (ma_frames b0) v = Some p /\ area_ok b0) as (b0 & Hb0 & Hg0 & Hok0).
      { apply elem_of_app in Hb as [Hb|[->|Hb]%elem_of_cons]; [exists b; split_and!; auto; set_solver| |exists b; split_and!; auto; set_solver].
        exists a. cbn in Hgv. rewrite bt_get_insert in Hgv. rewrite (proj2 (key_eqb_neq v vpn)) in Hgv by done.
        split_and!; [set_solver|done|done]. }
      assert (is_vpn v) as Hvv by (eapply keys_user; [exact Hok0|eapply area_key_value; by apply bt_get_in]).
      rewrite Hv in * by done. by eapply St.
  - intros v Hu Hval. destruct (decide (v = vpn)) as [->|Hne].
    + exists (a {{ ma_frames := bt_insert (ma_frames a) vpn f }}). split; [set_solver|]. cbn. by rewrite bt_get_insert, key_eqb_refl, Hf.
    + rewrite Hv in * by (done || apply Hu). destruct (Sv v Hu Hval) as (b & [Hb|[->|Hb]%elem_of_cons]%elem_of_app & Hgb).
      * exists b. split; [set_solver|done].
      * eexists. split; [apply elem_of_app; right; left|]. cbn. rewrite bt_get_insert.
        by rewrite (proj2 (key_eqb_neq v vpn)) by done.
      * exists b. split; [set_solver|done].
Qed.

(** ** The fault *)

Lemma area_frames_update ms ms' i a a' old f :
  ms_areas ms !! i = Some a -> ms_areas ms' = <[i := a']> (ms_areas ms) ->
  ms_mmap_backings ms' = ms_mmap_backings ms ->
  (exists rest, area_values a ≡ₚ old :: rest /\ area_values a' ≡ₚ f :: rest) ->
  exists rest, space_frames ms ≡ₚ old :: rest /\ space_frames ms' ≡ₚ f :: rest.
Proof.
  intros Hi Hu Hb (r & Ho & Hf). destruct (update_split _ _ _ Hi) as (l1 & l2 & Hl & Hup & _).
  exists (r ++ concat (map area_values l1) ++ concat (map area_values l2) ++ backing_frames ms).
  unfold space_frames, area_frames. rewrite Hu, Hup, Hl, !map_app, !concat_app. cbn [map concat].
  unfold backing_frames. rewrite Hb, Ho, Hf. split; solve_Permutation.
Qed.

(** What a fault at a page does. *)
Record cow_resolved (c : PageCache) (F : list Z) (ms : MemorySet) (vpn : Z)
    (c' : PageCache) (F' : list Z) : Prop := {
  cr_old : pte_is_valid (view c ms vpn) = true;
  cr_frames : exists rest, F ≡ₚ pte_ppn (view c ms vpn) :: rest /\ F' ≡ₚ pte_ppn (view c' ms vpn) :: rest;
  cr_fresh : pte_ppn (view c' ms vpn) ∉ trackers c' F;
  cr_bytes : mem c' (pte_ppn (view c' ms vpn)) = mem c (pte_ppn (view c ms vpn));
  cr_writable : private_writable (view c' ms vpn) = has (pte_flags (view c ms vpn)) PTEFlags.U;
  cr_user : has (pte_flags (view c' ms vpn)) PTEFlags.U = has (pte_flags (view c ms vpn)) PTEFlags.U
}.

Lemma cow_resolved_flags_ok f : is_flags f -> has f PTEFlags.V = true -> has f PTEFlags.SHARED = false ->
  is_flags (cow_resolved_flags f) /\
  (let g := Z.lor (cow_resolved_flags f) PTEFlags.V in
   has g PTEFlags.V && has g PTEFlags.U && has g PTEFlags.W && negb (has g PTEFlags.SHARED) = has f PTEFlags.U /\
   has g PTEFlags.U = has f PTEFlags.U).
Proof.
  intros Hf. pose proof (forall_flags (fun f => negb (has f PTEFlags.V) || has f PTEFlags.SHARED ||
    (is_flagsb (cow_resolved_flags f) &&
     let g := Z.lor (cow_resolved_flags f) PTEFlags.V in
     Bool.eqb (has g PTEFlags.V && has g PTEFlags.U && has g PTEFlags.W && negb (has g PTEFlags.SHARED)) (has f PTEFlags.U) &&
     Bool.eqb (has g PTEFlags.U) (has f PTEFlags.U)))
    ltac:(vm_compute; reflexivity) f Hf) as H.
  cbv beta in H. intros HV HS. rewrite HV, HS in H. cbn [negb orb] in H. apply andb_true_iff in H as [H1 H2].
  apply andb_true_iff in H2 as [H2 H3]. split; [by apply is_flagsb_spec|]. split; by apply eqb_prop.
Qed.

Lemma pte_is_valid_has pte : pte_is_valid pte = has (pte_flags pte) PTEFlags.V.
Proof.
  pose proof (forall_flags (fun f => Bool.eqb (negb (Z.land f PTEFlags.V =? 0)) (has f PTEFlags.V))
    ltac:(vm_compute; reflexivity) (pte_flags pte) (pte_flags_is_flags pte)) as H.
  by apply eqb_prop in H.
Qed.

Lemma translate_some m pt vpn pte :
  translate m pt vpn = Some pte -> pt_view m (pt_root_ppn pt) vpn = pte.
Proof. rewrite translate_view. by destruct (node m (pt_root_ppn pt) _) as [t|]; [intros [= <-]|]. Qed.

Lemma update_leaf_invalid c pt vpn g :
  pte_is_valid (pt_view (mem c) (pt_root_ppn pt) vpn) = false -> update_leaf c pt vpn g = (false, c).
Proof.
  unfold update_leaf, pt_view. rewrite find_pte_node.
  destruct (node (mem c) (pt_root_ppn pt) [i0 vpn; i1 vpn]) as [t|]; cbn; [|done]. by intros ->.
Qed.

(** The new frame takes the place of the old one in the area of the page. *)
Lemma track_new_frame_ok c E F R ms vpn f old m0 :
  space_ok shared m0 ms -> world_ok c E (f :: F) -> F ≡ₚ space_frames ms ++ R ->
  user_page vpn -> pte_is_valid (pt_view m0 (pt_root_ppn (ms_page_table ms)) vpn) = true ->
  pte_ppn (pt_view m0 (pt_root_ppn (ms_page_table ms)) vpn) = old ->
  exists c' ms' i a rest, track_new_frame c ms vpn f = Some (c', ms') /\
    ms_areas ms !! i = Some a /\ bt_get (ma_frames a) vpn = Some old /\
    ms' = update_area ms i (a {{ ma_frames := bt_insert (ma_frames a) vpn f }}) /\
    F ≡ₚ old :: rest /\ space_frames ms' ++ R ≡ₚ f :: rest /\
    world_ok c' E (f :: rest) /\ evolves c c' /\ mem c' = mem c.
Proof.
  intros Hs W HF Hu Hv Hold. destruct (so_valid _ _ _ Hs vpn Hu Hv) as (a & Ha & Hg). rewrite Hold in Hg.
  pose proof (so_areas _ _ _ Hs) as Hall. rewrite Forall_forall in Hall. pose proof (Hall a Ha) as Hok.
  pose proof (retrack_key _ _ _ Hok Hg) as Hkey.
  assert (Area.contains_vpn a vpn = true) as Hc by (unfold Area.contains_vpn; lia).
  unfold track_new_frame. destruct (position _ (ms_areas ms)) as [i|] eqn:Ep.
  2: { exfalso. pose proof (position_None _ _ Ep a Ha) as Hn. cbv beta in Hn. rewrite Hc, andb_true_r in Hn. unfold Area.is_identical in Hn.
       apply negb_false_iff, bool_decide_eq_true in Hn. by apply (ao_type _ _ Hok). }
  destruct (position_Some _ _ _ Ep) as (b & Hb & [_ Hcb]%andb_true_iff).
  assert (b = a) as -> by (eapply space_area_unique; [done|by eapply list_elem_of_lookup_2|done..]).
  rewrite Hb. cbn [mbind option_bind]. unfold Area.insert_tracked_frame. rewrite Hg. cbn [mbind option_bind].
  destruct (area_frames_update ms (update_area ms i (a {{ ma_frames := bt_insert (ma_frames a) vpn f }})) i a
    (a {{ ma_frames := bt_insert (ma_frames a) vpn f }}) old f Hb eq_refl eq_refl (retrack_values a vpn f old Hok Hg)) as (rest & H1 & H2).
  assert (F ≡ₚ old :: (rest ++ R)) as HF' by (rewrite HF, H1; done).
  assert (world_ok c E (old :: f :: rest ++ R)) as W'.
  { eapply world_perm; [done| |exact W]. rewrite HF'. apply Permutation_swap. }
  destruct (drop_frame_world _ _ _ _ W') as (c' & -> & W2 & V2 & M2 & _). cbn [mbind option_bind].
  eexists c', _, i, a, (rest ++ R). split_and!; try done. by rewrite H2.
Qed.

(** The state after a fault, whether it was resolved or not. *)
Record fault_done (c : PageCache) (E F R : list Z) (ms : MemorySet) (vpn : Z)
    (ok : bool) (c' : PageCache) (ms' : MemorySet) : Prop := {
  fd_table : ms_page_table ms' = ms_page_table ms;
  fd_evolves : evolves c c';
  fd_space : space_in c' E (space_frames ms' ++ R) ms';
  fd_tables : forall q, q ∈ E -> q ∉ pt_frames (ms_page_table ms) -> mem c' q = mem c q;
  fd_views : forall v, is_vpn v -> v <> vpn -> view c' ms v = view c ms v;
  fd_data : forall q, q ∈ trackers c' F -> mem c' q = mem c q;
  fd_page : if ok then cow_resolved c F ms vpn c' (space_frames ms' ++ R)
            else ms' = ms /\ view c' ms vpn = view c ms vpn
}.

Lemma space_in_perm c E F F' ms : F ≡ₚ F' -> space_in c E F ms -> space_in c E F' ms.
Proof.
  intros Hp [[W T S D] M So Hf]. split; [|done|done|intros q Hq; rewrite <- Hp; auto].
  split; [by eapply world_perm|done..].
Qed.

Lemma fault_refused c E F R ms vpn :
  space_in c E F ms -> F ≡ₚ space_frames ms ++ R -> fault_done c E F R ms vpn false c ms.
Proof. intros Hs HF. split; try done. by eapply space_in_perm. Qed.

(** An allocation that is given back. *)
Lemma fault_undone c E F R ms vpn f c1 c2 :
  space_in c E F ms -> F ≡ₚ space_frames ms ++ R -> kernel_ok k (mem c) -> evolves c c1 -> world_ok c1 E (f :: F) ->
  f ∉ E -> f ∉ trackers c1 F -> (forall q, q <> f -> mem c1 q = mem c q) -> drop_frame c1 f = Some c2 ->
  fault_done c E F R ms vpn false c2 ms.
Proof.
  intros [[W T S D] M So Hf] HF Hk Hev W1 HfE HfT Hm Hd.
  destruct (drop_frame_world _ _ _ _ W1) as (c2' & Hd' & W2 & V2 & M2 & _). rewrite Hd in Hd'. injection Hd' as <-.
  assert (forall q, q ∈ E -> mem c2 q = mem c q) as HmE by (intros q Hq; rewrite M2; apply Hm; by intros ->).
  destruct (table_agree _ _ _ _ _ T (fun q Hq => HmE q (S q Hq))) as (T2 & Hv2 & _).
  split; [done|by etrans| |auto|by intros|..].
  - eapply space_in_perm; [exact HF|]. split; [split; [done|done|done|done]| |eapply space_ok_view; [done|intros; by rewrite Hv2]|done].
    intros i Hi. unfold pte_at. rewrite !HmE; [by apply M|apply S, elem_of_app; right; by apply (kernel_root_in k (mem c))|apply S, elem_of_app; left; apply T].
  - intros q Hq. rewrite M2. apply Hm. intros ->. apply HfT. by eapply evolves_elem.
  - split; [done|]. apply Hv2.
Qed.

Section Resolve.
Context (c : PageCache) (E F R : list Z) (ms : MemorySet) (vpn f : Z) (c1 : PageCache).
Abbreviation old := (view c ms vpn).
Abbreviation new_pte := (pte_new f (Z.lor (cow_resolved_flags (pte_flags old)) PTEFlags.V)).
Abbreviation c1' := (copy_page c1 f (pte_ppn old)).
Hypothesis Hk : kernel_ok k (mem c).
Hypothesis Hsp : space_in c E F ms.
Hypothesis HF : F ≡ₚ space_frames ms ++ R.
Hypothesis Hu : user_page vpn.
Hypothesis Hval : pte_is_valid old = true.
Hypothesis HS : has (pte_flags old) PTEFlags.SHARED = false.
Hypothesis Hev : evolves c c1.
Hypothesis W1 : world_ok c1 E (f :: F).
Hypothesis HfE : f ∉ E.
Hypothesis HfT : f ∉ trackers c1 F.
Hypothesis Hf : is_ppn f.
Hypothesis Hm : forall q, q <> f -> mem c1 q = mem c q.

Lemma new_pte_spec : is_pte new_pte /\ pte_ppn new_pte = f /\ private_writable new_pte = has (pte_flags old) PTEFlags.U /\
  has (pte_flags new_pte) PTEFlags.U = has (pte_flags old) PTEFlags.U.
Proof.
  pose proof Hval as Hv. rewrite pte_is_valid_has in Hv.
  destruct (cow_resolved_flags_ok _ (pte_flags_is_flags old) Hv HS) as [Hfl [Hpw HpU]].
  destruct (pte_new_spec f _ Hf (leaf_flags _ Hfl)) as (Hpte & Hpp & Hpf).
  unfold private_writable. rewrite Hpf. split_and!; done.
Qed.

Lemma copied_mem q : q <> f -> mem c1' q = mem c q.
Proof. intros Hq. cbn. rewrite set_page_ne by done. by apply Hm. Qed.

Lemma copied_in :
  table_in shared K c1' E (f :: F) (ms_page_table ms) /\ (forall v, view c1' ms v = view c ms v).
Proof.
  destruct Hsp as [HT _ _ _].
  assert (world_ok c1' E (f :: F)) as W1' by (apply world_with_mem; [done|]; apply full_pages_set; [apply W1|apply (wk_full _ _ _ W1)]).
  assert (forall q, q ∈ E -> mem c1' q = mem c q) as HmE by (intros q Hq; apply copied_mem; by intros ->).
  split; [by eapply table_in_data|].
  by destruct (table_agree _ _ _ _ _ (ti_table _ _ _ _ _ _ HT) (fun q Hq => HmE q (ti_sub _ _ _ _ _ _ HT q Hq))) as (_ & Hv1 & _).
Qed.

Lemma remapped :
  let '(ok, c2) := remap c1' (ms_page_table ms) vpn f (cow_resolved_flags (pte_flags old)) in
  ok = true /\ tstep shared K c1' E (f :: F) (ms_page_table ms) c2 (ms_page_table ms) [] /\
  (forall v, is_vpn v -> view c2 ms v = if v =? vpn then new_pte else view c ms v).
Proof.
  destruct copied_in as [HT1 Hv1]. destruct new_pte_spec as [Hpte _].
  pose proof (update_leaf_tstep shared K c1' E (f :: F) _ vpn (fun _ => new_pte) HT1 (proj1 Hu) (fun _ => Hpte)) as Hup.
  cbv zeta in Hup. unfold remap. destruct (update_leaf c1' (ms_page_table ms) vpn (fun _ => new_pte)) as [ok c2].
  rewrite Hv1, Hval in Hup. destruct Hup as (-> & Ht & Hvs). split_and!; [done|done|].
  intros v Hv. rewrite Hvs by done. by rewrite Hv1.
Qed.

Lemma resolved_mapped c2 :
  tstep shared K c1' E (f :: F) (ms_page_table ms) c2 (ms_page_table ms) [] -> kernel_mapped k (mem c2) (ms_page_table ms).
Proof.
  intros Ht. destruct Hsp as [HT HM _ _].
  assert (forall q, q ∈ pt_frames (ms_page_table ms) ++ K -> mem c1' q = mem c q) as HmE.
  { intros q Hq%(ti_sub _ _ _ _ _ _ HT). apply copied_mem. by intros ->. }
  destruct (tstep_kernel k _ _ _ _ _ _ _ Ht) as (_ & _ & _ & HMk).
  { eapply kernel_agree; [exact Hk|]. intros q Hq. apply HmE, elem_of_app. by right. }
  apply HMk. intros i Hi. unfold pte_at. rewrite !HmE; [by apply HM|..]; apply elem_of_app.
  - right. by apply (kernel_root_in k (mem c)).
  - left. apply HT.
Qed.

Lemma resolved :
  let '(ok, c2) := remap c1' (ms_page_table ms) vpn f (cow_resolved_flags (pte_flags old)) in
  ok = true /\ exists c3 ms', track_new_frame c2 ms vpn f = Some (c3, ms') /\ fault_done c E F R ms vpn true c3 ms'.
Proof.
  pose proof remapped as Hr. destruct (remap c1' _ _ _ _) as [ok c2]. destruct Hr as (-> & Ht & Hv2). split; [done|].
  destruct Hsp as [HT HM Hs Hfr]. destruct new_pte_spec as (_ & Hpp & Hpw & HpU).
  pose proof (ts_in _ _ _ _ _ _ _ _ _ Ht) as I2. cbn [app] in I2.
  destruct (track_new_frame_ok c2 E F R ms vpn f (pte_ppn old) (mem c) Hs (ti_world _ _ _ _ _ _ I2) HF Hu Hval eq_refl)
    as (c3 & ms' & i & a & rest & Htr & Hi & Hg & -> & HFo & HFn & W3 & V3 & M3).
  eexists c3, _. split; [done|].
  assert (view c3 ms vpn = new_pte) as Hvn by (rewrite M3, Hv2, Z.eqb_refl by apply Hu; done).
  assert (forall v, is_vpn v -> v <> vpn -> view c3 ms v = view c ms v) as Hvo.
  { intros v Hv Hne. rewrite M3, Hv2 by done. by destruct (v =? vpn) eqn:Ev; [lia|]. }
  assert (evolves c1' c3) as Hev13 by (etrans; [apply Ht|done]).
  assert (f ∉ trackers c3 F) as HfT3 by (intros Hin; apply HfT; by eapply (evolves_elem c1' c3)).
  assert (forall q, q <> f -> q ∉ pt_frames (ms_page_table ms) -> mem c3 q = mem c q) as Hm3.
  { intros q Hq Hn. rewrite M3, (ts_mem _ _ _ _ _ _ _ _ _ Ht) by done. by apply copied_mem. }
  assert (forall q, q ∈ trackers c3 (f :: F) -> q ∉ pt_frames (ms_page_table ms)) as Hdt.
  { intros q Hq. eapply data_kept; [exact I2|]. by eapply evolves_elem. }
  assert (f ∉ pt_frames (ms_page_table ms)) as Hfn by (apply Hdt; left).
  split; [done|etrans; [exact Hev|]; etrans; [apply (evolves_with_mem c1 (mem c1'))|exact Hev13]| | |done| |].
  - split; [|rewrite M3; by apply resolved_mapped| |intros q Hq; apply elem_of_app; by left].
    + eapply table_in_data; [exact I2|by eapply world_perm|by rewrite M3].
    + eapply space_ok_retrack; [exact Hs|exact Hi|exact Hg|done|done|exact Hvo|]. by rewrite Hvn, Hpp.
  - intros q Hq Hn. apply Hm3; [by intros ->|done].
  - intros q Hq. apply Hm3; [by intros ->|]. apply Hdt. rewrite trackers_cons. by right.
  - split; [done| | | | |by rewrite Hvn].
    + exists rest. by rewrite Hvn, Hpp.
    + by rewrite Hvn, Hpp.
    + rewrite Hvn, Hpp, M3, (ts_mem _ _ _ _ _ _ _ _ _ Ht) by done. cbn. rewrite set_page_eq. apply Hm.
      intros Heq. apply HfT, (trackers_here c1 F f). rewrite HFo, Heq. left.
    + by rewrite Hvn.
Qed.

End Resolve.

(** A page whose copy-on-write faults are to be resolved. *)
Definition cow_page (c : PageCache) (ms : MemorySet) (va : Z) : Prop :=
  exists region, vm_region_containing_addr ms va = Some region /\ Region.allows_cow_fault region va = true /\
    pte_is_valid (view c ms (floor (virt_addr va))) = true /\
    has (pte_flags (view c ms (floor (virt_addr va)))) PTEFlags.COW = true /\
    has (pte_flags (view c ms (floor (virt_addr va)))) PTEFlags.SHARED = false.

Lemma invalid_no_page c ms va pte : mtranslate c ms (floor (virt_addr va)) = pte ->
  match pte with Some pte => pte_is_valid pte = false | None => True end -> ~ cow_page c ms va.
Proof.
  intros <- Hp (region & _ & _ & Hv & _). rewrite translate_view in Hp. unfold pt_view in *.
  destruct (node (mem c) (pt_root_ppn (ms_page_table ms)) _) as [t|]; [congruence|]. discriminate Hv.
Qed.

(** The handler always returns; it resolves the fault exactly when the page is a
    private copy-on-write page of a region that allows it and there is memory. *)
Lemma resolve_cow_ok c E F R ms va (vpn := floor (virt_addr va)) :
  kernel_ok k (mem c) -> space_in c E F ms -> F ≡ₚ space_frames ms ++ R -> user_page vpn -> has_room c (E ++ F) 1 ->
  exists ok c' ms', resolve_cow_fault c ms va = Some (ok, c', ms') /\ fault_done c E F R ms vpn ok c' ms' /\
    (if ok then cow_page c ms va else ~ cow_page c ms va \/ exhausted c).
Proof.
  intros Hk Hsp HF Hu Hr. unfold resolve_cow_fault. fold vpn.
  pose proof (fault_refused c E F R ms vpn Hsp HF) as Hno.
  assert (~ cow_page c ms va -> exists ok c' ms', Some (false, c, ms) = Some (ok, c', ms') /\ fault_done c E F R ms vpn ok c' ms' /\
    (if ok then cow_page c ms va else ~ cow_page c ms va \/ exhausted c)) as Hrefuse 
    by (intros Hn; exists false, c, ms; exact (conj eq_refl (conj Hno (or_introl Hn)))).
  destruct (vm_region_containing_addr ms va) as [region|] eqn:Er; [|apply Hrefuse; intros (r & Hx & _); congruence].
  destruct (Region.allows_cow_fault region va) eqn:Eal; cbn [negb]; [|apply Hrefuse; intros (r & Hx & Hy & _); congruence].
  destruct (mtranslate c ms vpn) as [pte|] eqn:Et; [|by apply Hrefuse, (invalid_no_page _ _ _ _ Et)]. pose proof (translate_some _ _ _ _ Et) as Hp.
  destruct (negb (has (pte_flags pte) PTEFlags.COW) || has (pte_flags pte) PTEFlags.SHARED) eqn:Ef.
  { apply Hrefuse. intros (r & _ & _ & _ & Hc & Hs). fold vpn in Hc, Hs. rewrite Hp in Hc, Hs. by rewrite Hc, Hs in Ef. }
  apply orb_false_iff in Ef as [HC HS]. apply negb_false_iff in HC. subst pte.
  pose proof (frame_alloc_world c E F (ti_world _ _ _ _ _ _ (si_table _ _ _ _ _ Hsp)) Hr) as Ha.
  destruct (frame_alloc c) as [[[f|] c1]|]; cbn [mbind option_bind]; [|destruct Ha as [-> Hx]; exists false, c, ms; exact (conj eq_refl (conj Hno (or_intror Hx)))|done].
  destruct Ha as (Hev & W1 & _ & HfT & HfEF & Hf & _ & Hm). rewrite trackers_app, not_elem_of_app in HfT.
  rewrite not_elem_of_app in HfEF. destruct HfT as [HfE HfT], HfEF as [_ HfF].
  destruct (bool_dec (pte_is_valid (view c ms vpn)) true) as [Hval|Hval%not_true_is_false].
  - pose proof (resolved c E F R ms vpn f c1 Hk Hsp HF Hu Hval HS Hev W1 HfE HfT Hf Hm) as Hres.
    destruct (remap _ _ _ _ _) as [ok c2]. destruct Hres as (-> & c3 & ms' & -> & Hd). cbn. exists true, c3, ms'. split; [done|]. split; [done|].
    by exists region.
  - destruct (copied_in c E F ms vpn f c1 Hsp W1 HfE Hm) as [HT1 Hv1].
    unfold remap. rewrite update_leaf_invalid by (by rewrite Hv1). cbn [negb].
    destruct (drop_frame_world _ E F f (ti_world _ _ _ _ _ _ HT1)) as (c2 & Hdrop & _). rewrite Hdrop. cbn.
    exists false, c2, ms. split; [done|]. split; [|left; by apply (invalid_no_page _ _ _ _ Et)].
    eapply (fault_undone c E F R ms vpn f (copy_page c1 f (pte_ppn (view c ms vpn)))); try done.
    + etrans; [exact Hev|]. apply evolves_with_mem.
    + apply HT1.
    + by apply copied_mem.
Qed.


End CowFault.
