(* ===== verification/SpaceMap.v ===== *)
(** * Mapping and unmapping in an address space

    The operations of [mm/memory_set.rs] that add areas to an address space, take
    pages from it and bring in pages on demand.  Each is a step of the address
    space: the pages it is about change as they should, the others keep their
    entries and their bytes, no frame gains a second owner, and what belongs to
    other address spaces is left alone. *)

From S2P Require Import Prelude.
From S2P Require Import BTree.
From S2P Require Import Address.
From S2P Require Import Ranges.
From S2P Require Import FrameAlloc.
From S2P Require Import PageCache.
From S2P Require Import VmRegion.
From S2P Require Import PageTable.
From S2P Require Import MapArea.
From S2P Require Import World.
From S2P Require Import SpaceTable.
From S2P Require Import Backing.
From S2P Require Import MemorySet.
From S2P Require Import SpaceInv.
From S2P Require Import AreaProof.
From S2P Require Import NewSpace.
From S2P Require Import ForkCow.
From S2P Require Import ForkSteps.
From S2P Require Import ForkProof.
From S2P Require Import Fault.
From S2P Require Import CowFault.

Section SpaceSteps.
Context (k : Kernel).
Abbreviation K := (pt_frames (kn_page_table k)).
Abbreviation shared := (kernel_index k).
Abbreviation user_page := (SpaceInv.user_page shared).
Abbreviation area_ok := (SpaceInv.area_ok shared).
Abbreviation space_in := (ForkProof.space_in k).
Abbreviation view c ms vpn := (pt_view (mem c) (pt_root_ppn (ms_page_table ms)) vpn).
Abbreviation tables ms := (pt_frames (ms_page_table ms)).

(** A step of an address space that changes the pages [vpns]; [G] are the trackers
    that are not its own. *)
Record sstep (c : PageCache) (E G : list Z) (ms : MemorySet) (c' : PageCache) (E' : list Z) (ms' : MemorySet)
    (vpns : list Z) : Prop := {
  ss_in : space_in c' E' (space_frames ms' ++ G) ms';
  ss_kernel : kernel_ok k (mem c');
  ss_evolves : evolves c c';
  ss_tables : exists new, E' ≡ₚ new ++ E /\ tables ms' ≡ₚ new ++ tables ms;
  ss_views : forall v, user_page v -> v ∉ vpns -> view c' ms' v = view c ms v /\
    (pte_is_valid (view c ms v) = true -> mem c' (pte_ppn (view c ms v)) = mem c (pte_ppn (view c ms v)));
  ss_data : forall q, q ∈ trackers c' G -> mem c' q = mem c q;
  ss_others : forall q, q ∈ E -> q ∉ tables ms -> mem c' q = mem c q;
  ss_count : forall q, Tracker.count (space_frames ms') q <= Tracker.count (space_frames ms) q \/
    (q ∉ trackers c' G /\ Tracker.count (space_frames ms') q <= 1);
  ss_new : forall v, user_page v -> v ∈ vpns -> private_writable (view c' ms' v) = true ->
    Tracker.count (trackers c' (space_frames ms' ++ G)) (pte_ppn (view c' ms' v)) = 1
}.

Lemma sstep_refl c E G ms : kernel_ok k (mem c) -> space_in c E (space_frames ms ++ G) ms -> sstep c E G ms c E ms [].
Proof. intros Hk Hin. split; try done; [by exists []|by left|by intros v _ ?%elem_of_nil]. Qed.

(** A frame of its own stays its own. *)
Lemma sstep_sole c E G ms c' E' ms' vpns q :
  sstep c E G ms c' E' ms' vpns -> Tracker.count (trackers c (space_frames ms ++ G)) q = 1 -> q ∈ space_frames ms' ++ G ->
  Tracker.count (trackers c' (space_frames ms' ++ G)) q = 1.
Proof.
  intros Hs Hc Hq. pose proof (count_here c' _ _ Hq) as Hpos. rewrite !count_trackers_app in *.
  pose proof (count_evolves c c' G q (ss_evolves _ _ _ _ _ _ _ _ Hs)).
  destruct (ss_count _ _ _ _ _ _ _ _ Hs q) as [?|[Hn ?]]; [lia|]. rewrite Tracker.count_elem in Hn.
  pose proof (Tracker.count_nonneg (trackers c' G) q). lia.
Qed.

Lemma mapped_own c E F ms v : space_in c E F ms -> user_page v -> pte_is_valid (view c ms v) = true ->
  pte_ppn (view c ms v) ∈ space_frames ms.
Proof.
  intros Hin Hu Hval. destruct (so_valid _ _ _ (si_space _ _ _ _ _ Hin) v Hu Hval) as (a & Ha & Hg). apply elem_of_app. left.
  eapply area_frames_elem; [done|]. eapply area_key_value. by apply bt_get_in.
Qed.

Lemma private_valid pte : private_writable pte = true -> pte_is_valid pte = true.
Proof. rewrite pte_is_valid_has. unfold private_writable. rewrite !andb_true_iff. tauto. Qed.

Lemma sstep_trans c E G ms c1 E1 ms1 v1 c2 E2 ms2 v2 :
  sstep c E G ms c1 E1 ms1 v1 -> sstep c1 E1 G ms1 c2 E2 ms2 v2 -> sstep c E G ms c2 E2 ms2 (v1 ++ v2).
Proof.
  intros S1 S2. pose proof S1 as [I1 K1 V1 (n1 & HE1 & HT1) W1 D1 O1 C1 N1]. pose proof S2 as [I2 K2 V2 (n2 & HE2 & HT2) W2 D2 O2 C2 N2].
  split; [done|done|by etrans|exists (n2 ++ n1); by rewrite HE2, HE1, HT2, HT1, !app_assoc|..].
  - intros v Hu [H1 H2]%not_elem_of_app. destruct (W1 v Hu H1) as [A1 B1]. destruct (W2 v Hu H2) as [A2 B2]. rewrite A1 in A2, B2.
    split; [done|]. intros Hval. rewrite B2 by done. auto.
  - intros q Hq. rewrite D2 by done. apply D1. by eapply evolves_elem.
  - intros q Hq Hn. rewrite O2; [auto|rewrite HE1; set_solver|]. rewrite HT1, not_elem_of_app. split; [|done]. intros Hnew.
    pose proof (wk_nodup _ _ _ (ti_world _ _ _ _ _ _ (si_table _ _ _ _ _ I1))) as Hnd. rewrite HE1 in Hnd.
    destruct (proj1 (NoDup_app _ _) Hnd) as (_ & Hd & _). by apply (Hd q).
  - intros q. destruct (C2 q) as [H2|?]; [|auto]. destruct (C1 q) as [H1|[H1 H1']]; [left; lia|]. right.
    split; [|lia]. intros Hq. apply H1. by eapply evolves_elem.
  - intros v Hu Hv Hpw. destruct (decide (v ∈ v2)) as [Hin|Hout]; [by apply N2|].
    apply elem_of_app in Hv as [Hv|?]; [|done]. destruct (W2 v Hu Hout) as [A2 _]. rewrite A2 in *.
    eapply sstep_sole; [exact S2|by apply N1|]. apply elem_of_app. left. rewrite <- A2.
    eapply mapped_own; [exact I2|done|]. rewrite A2. by apply private_valid.
Qed.

(** ** Steps of one area *)

Section OneArea.
Context (c : PageCache) (E G : list Z) (ms : MemorySet) (a : MapArea) (rest : list MapArea).
Context (c' : PageCache) (E' : list Z) (ms' : MemorySet) (a' : MapArea) (vpns : list Z).
Abbreviation X := (concat (map area_values rest) ++ backing_frames ms ++ G).
Hypothesis Hk : kernel_ok k (mem c).
Hypothesis Hin : space_in c E (space_frames ms ++ G) ms.
Hypothesis Hold : ms_areas ms ≡ₚ a :: rest \/ (ms_areas ms ≡ₚ rest /\ ma_frames a = []).
Hypothesis Hs : astep shared K c E X (ms_page_table ms) a c' E' (ms_page_table ms') a' vpns.
Hypothesis Hnew : ms_areas ms' ≡ₚ a' :: rest \/ (ms_areas ms' ≡ₚ rest /\ ma_frames a' = []).
Hypothesis Hsorted : StronglySorted area_before (ms_areas ms').
Hypothesis Hback : ms_mmap_backings ms' = ms_mmap_backings ms.
Hypothesis Hapart : forall b v, b ∈ rest -> v ∈ area_keys b -> v ∉ vpns.
Hypothesis Hmapped : forall v, v ∈ vpns -> pte_is_valid (view c' ms' v) = true ->
  bt_get (ma_frames a') v = Some (pte_ppn (view c' ms' v)).
Hypothesis Hcount : forall q, Tracker.count (area_values a') q <= Tracker.count (area_values a) q \/
  (q ∉ trackers c' X /\ Tracker.count (area_values a') q <= 1).
Hypothesis Hfresh : forall v, user_page v -> v ∈ vpns -> private_writable (view c' ms' v) = true ->
  pte_ppn (view c' ms' v) ∉ trackers c' X /\ Tracker.count (area_values a') (pte_ppn (view c' ms' v)) <= 1.

Lemma among_areas areas x : areas ≡ₚ x :: rest \/ (areas ≡ₚ rest /\ ma_frames x = []) ->
  concat (map area_values areas) ≡ₚ area_values x ++ concat (map area_values rest) /\
  (forall b, b ∈ areas -> b = x \/ b ∈ rest) /\ (forall b, b ∈ rest -> b ∈ areas) /\
  (forall v p, bt_get (ma_frames x) v = Some p -> x ∈ areas).
Proof.
  intros [Hp|[Hp He]].
  - split_and!; [by rewrite Hp|intros b; by rewrite Hp, elem_of_cons|intros b Hb; rewrite Hp; by right|intros _ _ _; rewrite Hp; left].
  - split_and!; [rewrite Hp; unfold area_values at 2; by rewrite He|intros b; rewrite Hp; auto|intros b; by rewrite Hp|intros v p; by rewrite He].
Qed.

Lemma one_old : space_frames ms ++ G ≡ₚ area_values a ++ X /\
  area_frames ms ≡ₚ area_values a ++ concat (map area_values rest) /\
  (forall b, b ∈ ms_areas ms -> b = a \/ b ∈ rest) /\ (forall b, b ∈ rest -> b ∈ ms_areas ms).
Proof.
  destruct (among_areas _ _ Hold) as (Hf & H1 & H2 & _). fold (area_frames ms) in Hf.
  split_and!; [unfold space_frames; rewrite Hf; by rewrite <- !app_assoc|done..].
Qed.

Lemma one_new : space_frames ms' ++ G ≡ₚ area_values a' ++ X /\ backing_frames ms' = backing_frames ms /\
  area_frames ms' ≡ₚ area_values a' ++ concat (map area_values rest).
Proof.
  destruct (among_areas _ _ Hnew) as (Hf & _). fold (area_frames ms') in Hf.
  unfold space_frames, backing_frames. rewrite Hback. split_and!; [|done|done]. rewrite Hf. by rewrite <- !app_assoc.
Qed.

(** Which pages the unchanged views are about. *)
Lemma one_tracked v p b : b ∈ rest -> bt_get (ma_frames b) v = Some p ->
  user_page v /\ v ∉ vpns /\ p ∈ X.
Proof.
  intros Hb Hg. destruct one_old as (_ & _ & _ & Hsub). pose proof (so_areas _ _ _ (si_space _ _ _ _ _ Hin)) as Hok.
  rewrite Forall_forall in Hok. pose proof (Hok b (Hsub b Hb)) as Hb'.
  destruct (area_key_value _ _ _ (bt_get_in _ _ _ Hg)) as [Hkey Hval]. split_and!.
  - by apply (ao_pages _ _ Hb'), (ao_keys _ _ Hb').
  - by eapply Hapart.
  - apply elem_of_app. left. apply elem_of_concat. exists (area_values b). split; [done|]. by apply (list_elem_of_fmap_2 area_values).
Qed.

Lemma one_space_ok : space_ok shared (mem c') ms'.
Proof.
  destruct one_old as (_ & _ & Hb1 & Hb2). destruct Hin as [_ _ [Sa Ss St Sv] _]. rewrite Forall_forall in Sa.
  pose proof (as_in _ _ _ _ _ _ _ _ _ _ _ _ Hs) as [_ Ha' Hp']. destruct (among_areas _ _ Hnew) as (_ & Hb3 & Hb4 & Hb5). split; [|done|..].
  - apply Forall_forall. intros b Hb. destruct (Hb3 b Hb) as [->|Hbr]; auto.
  - intros b v p Hb Hg Hval. destruct (Hb3 b Hb) as [->|Hbr]; [by apply Hp'|].
    destruct (one_tracked v p b Hbr Hg) as (Hu & Hn & _). destruct (as_views _ _ _ _ _ _ _ _ _ _ _ _ Hs v ltac:(apply Hu) Hn) as (Hv & _ & _).
    rewrite Hv in *. by apply (St b); [apply Hb2|..].
  - intros v Hu Hval. destruct (decide (v ∈ vpns)) as [Hv|Hv]; [exists a'; split; [eapply Hb5|]; by apply Hmapped|].
    destruct (as_views _ _ _ _ _ _ _ _ _ _ _ _ Hs v ltac:(apply Hu) Hv) as (Hw & Hg & _). rewrite Hw in *.
    destruct (Sv v Hu Hval) as (b & Hb & Hgb). destruct (Hb1 b Hb) as [->|Hbr]; [|exists b; auto].
    exists a'. rewrite <- Hg in Hgb. split; [by eapply Hb5|done].
Qed.

Lemma one_kernel : kernel_ok k (mem c') /\ kernel_mapped k (mem c') (ms_page_table ms').
Proof.
  destruct Hin as [[W T S D] M _ _].
  assert (forall q, q ∈ K -> mem c' q = mem c q) as HK.
  { intros q Hq. apply (as_others _ _ _ _ _ _ _ _ _ _ _ _ Hs); [apply S, elem_of_app; by right|by apply D]. }
  split; [by eapply kernel_agree|]. intros i Hi. destruct (ko_root _ _ Hk i Hi) as [Hi' _].
  rewrite (as_root _ _ _ _ _ _ _ _ _ _ _ _ Hs), (as_kernel _ _ _ _ _ _ _ _ _ _ _ _ Hs) by (done || unfold is_index; lia).
  unfold pte_at. rewrite (HK (pt_root_ppn (kn_page_table k))) by (by eapply kernel_root_in). by apply M.
Qed.

Lemma one_sstep : sstep c E G ms c' E' ms' vpns.
Proof.
  destruct one_old as (HF & HA & _ & _). destruct one_new as (HF' & HB & HA'). destruct one_kernel as [Hk' Hm'].
  pose proof (as_in _ _ _ _ _ _ _ _ _ _ _ _ Hs) as [[W' T' S' D'] _ _]. split; try done.
  - split; [|done|exact one_space_ok|intros q Hq; apply elem_of_app; by left].
    split; [eapply world_perm; [done|symmetry; exact HF'|exact W']|done..].
  - apply Hs.
  - apply Hs.
  - intros v Hu Hn. destruct (as_views _ _ _ _ _ _ _ _ _ _ _ _ Hs v ltac:(apply Hu) Hn) as (Hv & _ & Hm). split; [done|].
    intros Hval. destruct (so_valid _ _ _ (si_space _ _ _ _ _ Hin) v Hu Hval) as (b & Hb & Hg).
    destruct one_old as (_ & _ & Hb1 & _). destruct (Hb1 b Hb) as [->|Hbr]; [by apply Hm|].
    apply (as_keeps _ _ _ _ _ _ _ _ _ _ _ _ Hs), trackers_here. by eapply one_tracked.
  - intros q Hq. apply (as_keeps _ _ _ _ _ _ _ _ _ _ _ _ Hs). rewrite !trackers_app, !elem_of_app. auto.
  - apply Hs.
  - intros q. unfold space_frames. rewrite HB, !count_app, (count_perm _ _ _ HA), (count_perm _ _ _ HA'), !count_app.
    destruct (Hcount q) as [Hc|[Hn Hc]]; [left; lia|right]. rewrite !trackers_app, !not_elem_of_app in Hn. destruct Hn as (N1 & N2 & N3).
    split; [done|]. rewrite Tracker.count_elem in N1, N2.
    pose proof (Tracker.count_nonneg (concat (map area_values rest)) q). pose proof (Tracker.count_nonneg (backing_frames ms) q). lia.
  - intros v Hu Hv Hpw. destruct (Hfresh v Hu Hv Hpw) as [Hn Hc]. rewrite (count_perm _ _ _ (trackers_perm c' _ _ HF')), count_trackers_app.
    rewrite Tracker.count_elem in Hn. pose proof (Tracker.count_nonneg (trackers c' X) (pte_ppn (view c' ms' v))).
    assert (0 < Tracker.count (area_values a') (pte_ppn (view c' ms' v))); [|lia]. apply Tracker.count_elem.
    eapply area_key_value. apply bt_get_in, Hmapped; [done|]. rewrite pte_is_valid_has. unfold private_writable in Hpw. rewrite !andb_true_iff in Hpw. tauto.
Qed.

End OneArea.

(** ** New areas *)

Definition apart_from (a b : MapArea) : Prop := area_before a b \/ area_before b a.

(** Sorting areas that do not overlap. *)
Lemma sort_areas_sorted areas :
  Forall (fun a => Area.start_vpn a < Area.end_vpn a) areas -> NoDup (map Area.start_vpn areas) ->
  (forall a b, a ∈ areas -> b ∈ areas -> a = b \/ apart_from a b) ->
  StronglySorted area_before (sort_map_areas areas).
Proof.
  intros Hne Hnd Hap. unfold sort_map_areas. pose proof (sort_by_key_perm Area.start_vpn areas) as Hp.
  pose proof (sort_by_key_sorted Area.start_vpn areas) as Hs. rewrite <- Hp in Hne, Hnd.
  assert (forall a b, a ∈ sort_by_key Area.start_vpn areas -> b ∈ sort_by_key Area.start_vpn areas -> a = b \/ apart_from a b) as Hap'
    by (intros a b; rewrite Hp; auto). clear Hap Hp. revert Hne Hnd Hap' Hs. generalize (sort_by_key Area.start_vpn areas) as l.
  induction l as [|x l IH]; intros Hne Hnd Hap Hs; [constructor|].
  apply StronglySorted_inv in Hs as [Hs Hall]. apply Forall_cons in Hne as [Hx Hne]. cbn in Hnd. apply NoDup_cons in Hnd as [Hnx Hnd].
  constructor; [apply IH; try done; intros a b Ha Hb; apply Hap; by right|]. rewrite Forall_forall in Hall, Hne |- *. intros y Hy.
  destruct (Hap x y ltac:(left) ltac:(by right)) as [->|[Hb|Hb]]; [|done|].
  - destruct Hnx. by apply (list_elem_of_fmap_2 Area.start_vpn).
  - unfold area_before in *. specialize (Hall y Hy). specialize (Hne y Hy). cbn in *. lia.
Qed.

Lemma sorted_starts areas : Forall area_ok areas -> StronglySorted area_before areas -> NoDup (map Area.start_vpn areas).
Proof.
  induction areas as [|x l IH]; intros Hok Hs; cbn; [constructor|]. apply StronglySorted_inv in Hs as [Hs Hall].
  apply Forall_cons in Hok as [Hx Hok]. constructor; [|auto]. intros (y & Hy & Hin)%list_elem_of_fmap.
  rewrite Forall_forall in Hall. specialize (Hall y Hin). pose proof (ao_range _ _ Hx). unfold area_before in Hall. lia.
Qed.

Lemma sorted_apart areas a b : StronglySorted area_before areas -> a ∈ areas -> b ∈ areas -> a = b \/ apart_from a b.
Proof.
  unfold apart_from. induction areas as [|x l IH]; [by intros _ ?%elem_of_nil|]. intros [Hs Hall]%StronglySorted_inv.
  rewrite Forall_forall in Hall. intros [->|Ha]%elem_of_cons [->|Hb]%elem_of_cons; auto.
Qed.

(** Sorting areas one of which is new. *)
Lemma add_area_sorted areas l a :
  areas ≡ₚ a :: l -> Forall area_ok l -> StronglySorted area_before l -> area_ok a ->
  (forall b, b ∈ l -> apart_from a b) -> StronglySorted area_before (sort_map_areas areas).
Proof.
  intros Hp Hok Hs Ha Hap. apply sort_areas_sorted.
  - rewrite Hp. constructor; [apply Ha|]. eapply Forall_impl; [exact Hok|]. intros x Hx. apply Hx.
  - rewrite Hp. cbn. constructor; [|by apply sorted_starts]. intros (b & Heq & Hb)%list_elem_of_fmap.
    rewrite Forall_forall in Hok. pose proof (ao_range _ _ (Hok b Hb)). pose proof (ao_range _ _ Ha).
    destruct (Hap b Hb) as [H1|H1]; unfold area_before in H1; lia.
  - unfold apart_from in *. intros x y. rewrite Hp, !elem_of_cons. intros [->|Hx] [->|Hy]; auto.
    + destruct (Hap x Hx); auto.
    + by apply (sorted_apart l).
Qed.

Lemma push_area_sorted ms a :
  Forall area_ok (ms_areas ms) -> StronglySorted area_before (ms_areas ms) -> area_ok a ->
  (forall b, b ∈ ms_areas ms -> apart_from a b) ->
  StronglySorted area_before (ms_areas (push_mapped_raw ms a)) /\ ms_areas (push_mapped_raw ms a) ≡ₚ a :: ms_areas ms.
Proof.
  intros Hok Hs Ha Hap. change (ms_areas (push_mapped_raw ms a)) with (sort_map_areas (ms_areas ms ++ [a])).
  assert (ms_areas ms ++ [a] ≡ₚ a :: ms_areas ms) as Hp by (symmetry; apply Permutation_cons_append).
  split; [by eapply add_area_sorted|]. unfold sort_map_areas. by rewrite sort_by_key_perm.
Qed.

(** The page range of a new area. *)
Lemma page_bounds v w : 0 <= v -> v < w -> w <= TRAMPOLINES ->
  floor (page_to_addr v) = v /\ ceil (page_to_addr w) = w.
Proof.
  unfold TRAMPOLINES. intros H1 H2 H3. rewrite !page_to_addr_eq by lia. unfold floor, PAGE_SIZE. rewrite Z.div_mul by done.
  split; [done|]. rewrite ceil_eq by lia. symmetry. by apply (Z.div_unique_pos _ _ _ 4095); lia.
Qed.

Lemma no_overlap_apart (ms : MemorySet) a start end_ :
  start = Area.start_vpn a -> end_ = Area.end_vpn a ->
  existsb (fun b => Area.overlaps_vpn_range b start end_) (ms_areas ms) = false ->
  forall b, b ∈ ms_areas ms -> apart_from a b.
Proof.
  intros -> -> Hno b Hb. unfold apart_from, area_before. apply not_true_iff_false in Hno.
  destruct (decide (Area.end_vpn a <= Area.start_vpn b \/ Area.end_vpn b <= Area.start_vpn a)) as [|Hn]; [done|].
  destruct Hno. apply existsb_exists. exists b. split; [by apply list_elem_of_In|]. unfold Area.overlaps_vpn_range. lia.
Qed.

(** A page of a new area is not mapped yet. *)
Lemma new_area_unmapped c E F ms a v :
  space_in c E F ms -> area_ok a -> (forall b, b ∈ ms_areas ms -> apart_from a b) ->
  Area.start_vpn a <= v < Area.end_vpn a -> pte_is_valid (view c ms v) = false.
Proof.
  intros Hin Ha Hap Hv. apply not_true_iff_false. intros Hval.
  destruct (so_valid _ _ _ (si_space _ _ _ _ _ Hin) v (ao_pages _ _ Ha v Hv) Hval) as (b & Hb & Hg).
  pose proof (so_areas _ _ _ (si_space _ _ _ _ _ Hin)) as Hok. rewrite Forall_forall in Hok.
  pose proof (ao_keys _ _ (Hok b Hb) v ltac:(eapply area_key_value; by apply bt_get_in)).
  destruct (Hap b Hb) as [H1|H1]; unfold area_before in H1; lia.
Qed.

(** What a page of a new area shows. *)
Definition new_page (c' : PageCache) (G : list Z) (ms' : MemorySet) (a' : MapArea) (v : Z) : Prop :=
  if Area.is_lazy a' then pte_is_valid (view c' ms' v) = false
  else page_mapped c' G (ms_page_table ms') a' v.

Lemma pages_elem a v : v ∈ Area.pages (ma_range a) <-> Area.start_vpn a <= v < Area.end_vpn a.
Proof. unfold Area.pages, Area.start_vpn, Area.end_vpn. rewrite elem_of_seqZ. lia. Qed.

Section Push.
Context (c : PageCache) (E G : list Z) (ms : MemorySet) (a : MapArea).
Hypothesis Hk : kernel_ok k (mem c).
Hypothesis Hin : space_in c E (space_frames ms ++ G) ms.
Hypothesis Ha : area_ok a.
Hypothesis Hempty : ma_frames a = [].
Hypothesis Hap : forall b, b ∈ ms_areas ms -> apart_from a b.
Abbreviation pages := (Area.pages (ma_range a)).
Abbreviation X := (concat (map area_values (ms_areas ms)) ++ backing_frames ms ++ G).

Lemma push_area_in : area_in shared K c E X (ms_page_table ms) a.
Proof.
  split; [|done|intros v p; by rewrite Hempty]. unfold area_values at 1. rewrite Hempty. cbn.
  destruct Hin as [[W T S D] _ _ _]. split; try done. unfold space_frames, area_frames in W. by rewrite <- app_assoc in W.
Qed.

(** The keys of other areas are other pages. *)
Lemma push_apart b v : b ∈ ms_areas ms -> v ∈ area_keys b -> v ∉ pages.
Proof.
  intros Hb Hv Hp%pages_elem. pose proof (so_areas _ _ _ (si_space _ _ _ _ _ Hin)) as Hok. rewrite Forall_forall in Hok.
  pose proof (ao_keys _ _ (Hok b Hb) v Hv). destruct (Hap b Hb) as [H1|H1]; unfold area_before in H1; lia.
Qed.

(** An area whose pages are mapped, or none of them, joins the others. *)
Lemma push_sstep c' E' pt' a' :
  astep shared K c E X (ms_page_table ms) a c' E' pt' a' pages ->
  (forall v, v ∈ pages -> page_mapped c' X pt' a' v) \/ (forall v, v ∈ pages -> untouched c' pt' a' v) ->
  NoDup (area_values a') ->
  sstep c E G ms c' E' (push_mapped_raw (ms {{ ms_page_table := pt' }}) a') pages.
Proof.
  intros Hs Hp Hnd. destruct (astep_range _ _ _ _ _ _ _ _ _ _ _ _ Hs) as (R1 & R2 & _).
  pose proof (as_in _ _ _ _ _ _ _ _ _ _ _ _ Hs) as [_ Ha' _]. pose proof (si_space _ _ _ _ _ Hin) as [Sa Ss _ _].
  destruct (push_area_sorted (ms {{ ms_page_table := pt' }}) a' Sa Ss Ha') as [Hsort Hperm].
  { intros b Hb. destruct (Hap b Hb) as [H1|H1]; unfold apart_from, area_before in *; rewrite R1, R2; auto. }
  assert (forall q, q ∈ area_values a' -> q ∉ trackers c' X) as Hfr.
  { intros q Hq. apply list_elem_of_fmap in Hq as ([v q'] & -> & Hvq). cbn.
    pose proof (ao_keys _ _ Ha' v ltac:(by eapply area_key_value)) as Hr. rewrite R1, R2 in Hr. apply pages_elem in Hr.
    pose proof (proj2 (bt_get_elem _ v q' (ao_wf _ _ Ha')) Hvq) as Hg. destruct Hp as [Hp|Hp]; [|destruct (Hp v Hr) as [Hn _]; congruence].
    destruct (Hp v Hr) as (p & Hg' & _ & _ & _ & Hn). congruence. }
  assert (forall q, Tracker.count (area_values a') q <= 1) as Hone.
  { intros q. apply NoDup_ListNoDup in Hnd. rewrite (NoDup_count_occ Z.eq_dec) in Hnd. unfold Tracker.count. specialize (Hnd q). lia. }
  assert (forall v, v ∈ pages -> pte_is_valid (pt_view (mem c') (pt_root_ppn pt') v) = true ->
    bt_get (ma_frames a') v = Some (pte_ppn (pt_view (mem c') (pt_root_ppn pt') v))) as Hmap.
  { intros v Hv Hval. destruct Hp as [Hp|Hp]; [|destruct (Hp v Hv) as [_ Hn]; congruence].
    destruct (Hp v Hv) as (p & Hg & Hpp & -> & _). rewrite Hg. f_equal. symmetry. apply pte_new_spec; [done|]. apply leaf_flags, area_flags_ok. }
  apply (one_sstep c E G ms a (ms_areas ms) c' E' _ a'); try done.
  - by right.
  - by left.
  - apply push_apart.
  - intros q. destruct (decide (q ∈ area_values a')) as [Hq|Hq]; [right; auto|left].
    rewrite Tracker.count_elem in Hq. pose proof (Tracker.count_nonneg (area_values a) q). lia.
  - intros v Hu Hv Hpw. split; [|auto]. eapply Hfr, area_key_value, bt_get_in, Hmap; [done|]. by apply private_valid.
Qed.

(** An area none of whose pages could be mapped leaves nothing behind. *)
Lemma push_undone c' E' pt' a' :
  astep shared K c E X (ms_page_table ms) a c' E' pt' a' pages -> (forall v, v ∈ pages -> untouched c' pt' a' v) ->
  ma_frames a' = [] /\ sstep c E G ms c' E' (ms {{ ms_page_table := pt' }}) pages.
Proof.
  intros Hs Hp. destruct (astep_range _ _ _ _ _ _ _ _ _ _ _ _ Hs) as (R1 & R2 & _).
  pose proof (as_in _ _ _ _ _ _ _ _ _ _ _ _ Hs) as [_ Ha' _]. pose proof (si_space _ _ _ _ _ Hin) as [_ Ss _ _].
  assert (ma_frames a' = []) as He.
  { destruct (ma_frames a') as [|[v p] l] eqn:Ef; [done|]. assert ((v, p) ∈ ma_frames a') as Hvp by (rewrite Ef; left).
    pose proof (ao_keys _ _ Ha' v ltac:(by eapply area_key_value)) as Hr. rewrite R1, R2 in Hr. apply pages_elem in Hr.
    destruct (Hp v Hr) as [Hn _]. apply (bt_get_elem _ _ _ (ao_wf _ _ Ha')) in Hvp. congruence. }
  assert (forall v, v ∈ pages -> pte_is_valid (pt_view (mem c') (pt_root_ppn pt') v) = false) as Hn by (intros v Hv; by apply Hp).
  split; [done|]. apply (one_sstep c E G ms a (ms_areas ms) c' E' _ a'); try done.
  - by right.
  - by right.
  - apply push_apart.
  - intros v Hv Hval. specialize (Hn v Hv). cbn in Hval. congruence.
  - intros q. left. unfold area_values. by rewrite He, Hempty.
  - intros v _ Hv Hpw%private_valid. specialize (Hn v Hv). cbn in Hpw. congruence.
Qed.

Lemma push_mapped_ok :
  has_room c (E ++ space_frames ms ++ G) (3 * Area.page_count a) ->
  match Area.map c (ms_page_table ms) a with
  | Some (true, c', pt', a') => exists E', let ms' := push_mapped_raw (ms {{ ms_page_table := pt' }}) a' in
      sstep c E G ms c' E' ms' pages /\ ma_range a' = ma_range a /\ ma_type a' = ma_type a /\ ma_perm a' = ma_perm a /\
      (forall v, v ∈ pages -> new_page c' X ms' a' v)
  | Some (false, c', pt', a') => ma_frames a' = [] /\ exhausted c /\ exists E', let ms' := ms {{ ms_page_table := pt' }} in
      sstep c E G ms c' E' ms' pages /\ (forall v, v ∈ pages -> pte_is_valid (view c' ms' v) = false)
  | None => exhausted c
  end.
Proof.
  intros Hroom. pose proof push_area_in as Hai. unfold Area.map, new_page.
  assert (forall v, v ∈ pages -> untouched c (ms_page_table ms) a v) as Hun.
  { intros v Hv%pages_elem. split; [by rewrite Hempty|by eapply new_area_unmapped]. }
  assert (NoDup (area_values a)) as Hnd by (unfold area_values; rewrite Hempty; constructor).
  destruct (Area.is_lazy a) eqn:El.
  { exists E. cbv zeta. split_and!; [apply push_sstep; [by apply astep_refl|by right|done]|done..|]. intros v Hv. rewrite El. by apply (Hun v). }
  assert (ma_type a = Framed) as Hty.
  { unfold Area.is_lazy in El. apply bool_decide_eq_false in El. pose proof (ao_type _ _ Ha). by destruct (ma_type a). }
  pose proof (ao_range _ _ Ha) as Hr.
  pose proof (map_pages_ok shared K pages c E X (ms_page_table ms) a [] Hai Hty) as Hm. ospecialize* Hm.
  - intros v Hv. by apply pages_elem.
  - apply NoDup_seqZ.
  - intros v Hv. split; [by intros ?%elem_of_nil|auto].
  - unfold area_values at 1. rewrite Hempty. cbn. unfold space_frames, area_frames in Hroom. rewrite <- app_assoc in Hroom.
    unfold Area.page_count, Area.pages, sat_sub, Area.start_vpn, Area.end_vpn in *. rewrite length_seqZ. rewrite Z2Nat.id by lia. by rewrite Z.max_r in Hroom by lia.
  - destruct (Area.map_pages c (ms_page_table ms) a [] pages) as [[[[[] c'] pt'] a']|]; [| |done].
    + destruct Hm as (E' & S & P & N). destruct (astep_range _ _ _ _ _ _ _ _ _ _ _ _ S) as (_ & _ & _ & Ht & Hra).
      exists E'. cbv zeta. split_and!; [apply push_sstep; auto|done|done|by rewrite (as_area _ _ _ _ _ _ _ _ _ _ _ _ S)|].
      intros v Hv. assert (Area.is_lazy a' = false) as -> by (unfold Area.is_lazy in *; by rewrite Ht). by apply P.
    + destruct Hm as (E' & S & P & Hx). rewrite app_nil_r in S, P. destruct (push_undone _ _ _ _ S P) as [He S'].
      split_and!; [done..|]. exists E'. cbv zeta. split; [done|]. intros v Hv. by apply (P v).
Qed.

(** [try_push_raw] of an area without data *)
Lemma try_push_ok :
  has_room c (E ++ space_frames ms ++ G) (3 * Area.page_count a) ->
  concrete_range_overlaps k ms (page_to_addr (Area.start_vpn a)) (page_to_addr (Area.end_vpn a)) = false ->
  match try_push_raw k c ms a None with
  | Some (true, c', ms') => exists E' a', sstep c E G ms c' E' ms' pages /\ ms' = push_mapped_raw (ms {{ ms_page_table := ms_page_table ms' }}) a' /\
      ma_range a' = ma_range a /\ ma_type a' = ma_type a /\ ma_perm a' = ma_perm a /\ (forall v, v ∈ pages -> new_page c' X ms' a' v)
  | Some (false, c', ms') => exhausted c /\ exists E', sstep c E G ms c' E' ms' pages /\
      ms' = ms {{ ms_page_table := ms_page_table ms' }} /\ (forall v, v ∈ pages -> pte_is_valid (view c' ms' v) = false)
  | None => exhausted c
  end.
Proof.
  intros Hroom Hno. unfold try_push_raw. rewrite Hno. pose proof (push_mapped_ok Hroom) as Hm.
  destruct (Area.map c (ms_page_table ms) a) as [[[[[] c'] pt'] a']|]; cbn [mbind option_bind negb]; [| |done].
  - destruct Hm as (E' & Hm). exists E', a'. cbv zeta in Hm. destruct Hm as (H1 & H2 & H3 & H4 & H5). by split_and!.
  - destruct Hm as (He & Hx & E' & H1 & H2). unfold drop_area. rewrite He. cbn. split; [done|]. exists E'. by split_and!.
Qed.

End Push.

(** The pages from one address to another. *)
Definition va_pages (start_va end_va : Z) : list Z := seqZ (floor start_va) (ceil end_va - floor start_va).

Lemma new_area start_va end_va map_type perm :
  floor start_va < ceil end_va -> map_type <> Identical -> (forall v, v ∈ va_pages start_va end_va -> user_page v) ->
  exists a, Area.new start_va end_va map_type perm = Some a /\ area_ok a /\ ma_frames a = [] /\
    Area.start_vpn a = floor start_va /\ Area.end_vpn a = ceil end_va /\ ma_type a = map_type /\ ma_perm a = perm /\
    Area.pages (ma_range a) = va_pages start_va end_va /\
    floor (page_to_addr (floor start_va)) = floor start_va /\ ceil (page_to_addr (ceil end_va)) = ceil end_va.
Proof.
  intros Hlt Hty Hu. unfold Area.new, range_new. destruct (floor start_va <=? ceil end_va) eqn:El; [|lia]. cbn [mbind option_bind].
  eexists. split; [done|]. unfold va_pages in Hu. assert (forall v, floor start_va <= v < ceil end_va -> user_page v) as Hu'
    by (intros v Hv; apply Hu, elem_of_seqZ; lia).
  destruct (Hu' (floor start_va) ltac:(lia)) as [[Hv _] _]. destruct (Hu' (ceil end_va - 1) ltac:(lia)) as [_ Hv'].
  pose proof (page_bounds (floor start_va) (ceil end_va) ltac:(unfold is_vpn in Hv; lia) Hlt ltac:(lia)) as [B1 B2].
  split_and!; try done. split; try done; [by apply bt_wf_nil|by intros v ?%elem_of_nil].
Qed.

Lemma overlaps_apart ms a start_va end_va :
  Area.start_vpn a = floor start_va -> Area.end_vpn a = ceil end_va ->
  floor (page_to_addr (floor start_va)) = floor start_va -> ceil (page_to_addr (ceil end_va)) = ceil end_va ->
  concrete_range_overlaps k ms (page_to_addr (floor start_va)) (page_to_addr (ceil end_va)) = false ->
  forall b, b ∈ ms_areas ms -> apart_from a b.
Proof.
  intros H1 H2 B1 B2 Hno. unfold concrete_range_overlaps in Hno. apply orb_false_iff in Hno as [Hno _]. rewrite B1, B2 in Hno.
  by eapply no_overlap_apart.
Qed.

(** A new area gives each of its pages a zeroed frame nobody else has; or nothing
    changes, because of an overlap; or there are no frames left, and nothing is
    mapped. *)
Lemma insert_framed_ok c E G ms start_va end_va perm (pages := va_pages start_va end_va) :
  kernel_ok k (mem c) -> space_in c E (space_frames ms ++ G) ms -> floor start_va < ceil end_va ->
  (forall v, v ∈ pages -> user_page v) -> has_room c (E ++ space_frames ms ++ G) (3 * (ceil end_va - floor start_va)) ->
  match try_insert_framed_area_raw k c ms start_va end_va perm with
  | Some (true, c', ms') => exists E' a', sstep c E G ms c' E' ms' pages /\
      ms' = push_mapped_raw (ms {{ ms_page_table := ms_page_table ms' }}) a' /\ ma_perm a' = perm /\
      (forall v, v ∈ pages -> page_mapped c' (space_frames ms ++ G) (ms_page_table ms') a' v)
  | Some (false, c', ms') =>
      (c' = c /\ ms' = ms /\ concrete_range_overlaps k ms (page_to_addr (floor start_va)) (page_to_addr (ceil end_va)) = true) \/
      (exhausted c /\ exists E', sstep c E G ms c' E' ms' pages /\
         ms' = ms {{ ms_page_table := ms_page_table ms' }} /\
         (forall v, v ∈ pages -> pte_is_valid (view c ms v) = false /\ pte_is_valid (view c' ms' v) = false))
  | None => exhausted c
  end.
Proof.
  intros Hk Hin Hlt Hu Hroom. unfold try_insert_framed_area_raw.
  destruct (new_area start_va end_va Framed perm Hlt ltac:(done) Hu) as (a & -> & Ha & He & R1 & R2 & Hty & Hpm & Hpg & B1 & B2).
  cbn [mbind option_bind]. subst pages. rewrite <- Hpg.
  destruct (concrete_range_overlaps k ms (page_to_addr (floor start_va)) (page_to_addr (ceil end_va))) eqn:Eo.
  { unfold try_push_raw. rewrite R1, R2, Eo. unfold drop_area. rewrite He. cbn. by left. }
  pose proof (try_push_ok c E G ms a Hk Hin Ha He (overlaps_apart ms a _ _ R1 R2 B1 B2 Eo)) as Hp.
  rewrite R1, R2 in Hp. ospecialize* Hp; [|done|].
  { unfold Area.page_count, sat_sub. rewrite R1, R2. by rewrite Z.max_r by lia. }
  destruct (try_push_raw k c ms a None) as [[[[] c'] ms']|]; [| |done].
  - destruct Hp as (E' & a' & H1 & H2 & _ & H3 & H4 & H5). exists E', a'. split_and!; [done|done|congruence|].
    intros v Hv. specialize (H5 v Hv). unfold new_page, Area.is_lazy in H5. rewrite H3, Hty in H5. cbn in H5.
    unfold space_frames, area_frames. by rewrite <- app_assoc.
  - destruct Hp as [Hx (E' & H1 & H2 & H3)]. right. split; [done|]. exists E'. split_and!; [done..|].
    intros v Hv. split; [|by apply H3]. eapply new_area_unmapped; [exact Hin|exact Ha|by apply (overlaps_apart ms a _ _ R1 R2 B1 B2 Eo)|by apply pages_elem].
Qed.


End SpaceSteps.
