(* ===== verification/SpaceUnmap.v ===== *)
(** * Unmapping, and pages on demand

    [unmap_user_range], which may split the areas it cuts, the lazy areas that are
    merged with their neighbours, and the faults that bring in their pages: each a
    step of the address space. *)

From S2P Require Import Prelude.
From S2P Require Import BTree.
From S2P Require Import Address.
From S2P Require Import Ranges.
From S2P Require Import FrameAlloc.
From S2P Require Import PageCache.
From S2P Require Import VmRegion.
From S2P Require Import VmRegionSet.
From S2P Require Import PageTable.
From S2P Require Import MapArea.
From S2P Require Import World.
From S2P Require Import SpaceTable.
From S2P Require Import Backing.
From S2P Require Import MemorySet.
From S2P Require Import SpaceInv.
From S2P Require Import AreaProof.
From S2P Require Import NewSpace.
From S2P Require Import ForkCow.
From S2P Require Import ForkSteps.
From S2P Require Import ForkProof.
From S2P Require Import Fault.
From S2P Require Import CowFault.
From S2P Require Import SpaceMap.

(** ** Other areas for the same pages *)

Definition tracked (areas : list MapArea) (v p : Z) : Prop := exists a, a ∈ areas /\ bt_get (ma_frames a) v = Some p.

Definition retiled (l l' : list MapArea) : Prop :=
  concat (map area_values l') ≡ₚ concat (map area_values l) /\ (forall v p, tracked l' v p <-> tracked l v p).

Lemma tracked_app l1 l2 v p : tracked (l1 ++ l2) v p <-> tracked l1 v p \/ tracked l2 v p.
Proof.
  unfold tracked. setoid_rewrite elem_of_app. firstorder.
Qed.

Lemma retiled_app l1 l2 l1' l2' : retiled l1 l1' -> retiled l2 l2' -> retiled (l1 ++ l2) (l1' ++ l2').
Proof.
  intros [P1 T1] [P2 T2]. split; [by rewrite !map_app, !concat_app, P1, P2|]. intros v p. by rewrite !tracked_app, T1, T2.
Qed.
Lemma retiled_refl l : retiled l l.
Proof. done. Qed.
Lemma retiled_perm l l' : l ≡ₚ l' -> retiled l l'.
Proof. intros Hp. split; [by rewrite Hp|]. intros v p. unfold tracked. by setoid_rewrite Hp. Qed.

Section Unmapping.
Context (k : Kernel).
Abbreviation K := (pt_frames (kn_page_table k)).
Abbreviation shared := (kernel_index k).
Abbreviation user_page := (SpaceInv.user_page shared).
Abbreviation area_ok := (SpaceInv.area_ok shared).
Abbreviation space_in := (ForkProof.space_in k).
Abbreviation sstep := (SpaceMap.sstep k).
Abbreviation view c ms vpn := (pt_view (mem c) (pt_root_ppn (ms_page_table ms)) vpn).

Lemma retile_sstep c E G ms ms' :
  kernel_ok k (mem c) -> space_in c E (space_frames ms ++ G) ms ->
  ms_page_table ms' = ms_page_table ms -> ms_mmap_backings ms' = ms_mmap_backings ms ->
  Forall area_ok (ms_areas ms') -> StronglySorted area_before (ms_areas ms') -> retiled (ms_areas ms) (ms_areas ms') ->
  sstep c E G ms c E ms' [].
Proof.
  intros Hk Hin Hpt Hb Hok Hsort [Hp Ht].
  assert (space_frames ms' ≡ₚ space_frames ms) as Hf by (unfold space_frames, area_frames, backing_frames; by rewrite Hb, Hp).
  split; try done; rewrite ?Hpt; try done.
  - destruct Hin as [[W T S D] M [Sa Ss St Sv] Fr]. split; rewrite ?Hpt; [|done| |intros q Hq; apply elem_of_app; by left].
    + split; [eapply world_perm; [done|by rewrite Hf|exact W]|done..].
    + split; rewrite ?Hpt; [done|done| |].
      * intros a v p Ha Hg. destruct (proj1 (Ht v p)) as (b & Hb' & Hgb); [by exists a|]. by apply (St b).
      * intros v Hu Hval. by apply Ht, Sv.
  - by exists [].
  - intros q. left. by rewrite (count_perm _ _ _ Hf).
  - by intros v _ ?%elem_of_nil.
Qed.

(** ** Splitting *)

Lemma filter_split {A} (f : A -> bool) (l : list A) : List.filter f l ++ List.filter (fun x => negb (f x)) l ≡ₚ l.
Proof. induction l as [|x l IH]; cbn; [done|]. destruct (f x); cbn; [by rewrite IH|]. by rewrite <- Permutation_middle, IH. Qed.

Lemma split_off_spec (m : list (Z * Z)) key lo hi : bt_wf m -> Area.split_off m key = (lo, hi) ->
  lo ++ hi ≡ₚ m /\ bt_wf lo /\ bt_wf hi /\ (forall e, e ∈ lo <-> e ∈ m /\ e.1 < key) /\ (forall e, e ∈ hi <-> e ∈ m /\ key <= e.1).
Proof.
  intros Hwf [= <- <-]. split_and!; [|by apply bt_wf_filter..| |].
  - rewrite <- (filter_split (fun e => e.1 <? key) m) at 3. apply Permutation_app_head. apply reflexive_eq, filter_ext. intros e. lia.
  - intros e. rewrite bt_filter_elem, Z.ltb_lt. done.
  - intros e. rewrite bt_filter_elem, Z.leb_le. done.
Qed.

Lemma tracked_one a v p : area_ok a -> tracked [a] v p <-> (v, p) ∈ ma_frames a.
Proof.
  intros Ha. split; [by intros (x & ->%list_elem_of_singleton & ?%bt_get_in)|]. intros Hin. exists a.
  split; [left|]. by apply bt_get_elem; [apply Ha|].
Qed.

(** The parts of an area, in order. *)
Definition parts (lo : option MapArea) (mid : MapArea) (hi : option MapArea) : list MapArea := opt_list lo ++ mid :: opt_list hi.

Lemma part_ok a start end_ fs saved :
  area_ok a -> Area.start_vpn a <= start -> start < end_ -> end_ <= Area.end_vpn a ->
  bt_wf fs -> (forall e, e ∈ fs -> start <= e.1 < end_) ->
  exists b, Area.descriptor_with_state a start end_ fs saved = Some b /\ area_ok b /\ ma_frames b = fs /\
    Area.start_vpn b = start /\ Area.end_vpn b = end_ /\ ma_perm b = ma_perm a /\ ma_type b = ma_type a.
Proof.
  intros [Ar Ap At Aw Ak] H1 H2 H3 Hwf Hkeys. unfold Area.descriptor_with_state, range_new. destruct (start <=? end_) eqn:El; [|lia].
  cbn [mbind option_bind]. eexists. split; [done|]. destruct (start =? Area.start_vpn a); (split_and!; [|done..]; split; try done; cbn).
  all: try (intros v Hv; apply Ap; unfold Area.start_vpn, Area.end_vpn in *; cbn in *; lia).
  all: intros v (e & -> & He)%list_elem_of_fmap; by apply Hkeys.
Qed.

(** An optional part: there is none when it would be empty. *)
Lemma opt_part_ok (present : bool) a start end_ fs saved :
  area_ok a -> Area.start_vpn a <= start -> (if present then start < end_ else fs = []) -> end_ <= Area.end_vpn a ->
  bt_wf fs -> (forall e, e ∈ fs -> start <= e.1 < end_) ->
  exists o, (if present then Some <$> Area.descriptor_with_state a start end_ fs saved else Some None) = Some o /\
    Forall area_ok (opt_list o) /\ concat (map area_values (opt_list o)) = map snd fs /\
    (forall v p, tracked (opt_list o) v p <-> (v, p) ∈ fs) /\
    (forall b, b ∈ opt_list o -> Area.start_vpn b = start /\ Area.end_vpn b = end_ /\ ma_perm b = ma_perm a) /\
    (forall R, StronglySorted R (opt_list o)).
Proof.
  intros Ha H1 H2 H3 Hwf Hkeys. destruct present.
  - destruct (part_ok a start end_ fs saved Ha H1 H2 H3 Hwf Hkeys) as (b & -> & Hb & Hf & Hs & He & Hp & _).
    exists (Some b). cbn. split_and!; [done|by constructor|by unfold area_values, bt_values; rewrite Hf, app_nil_r|..].
    + intros v p. rewrite <- Hf. by apply tracked_one.
    + by intros x ->%list_elem_of_singleton.
    + intros R. constructor; constructor.
  - subst fs. exists None. cbn. split_and!; [done|constructor|done|..].
    + intros v p. split; [by intros (x & ?%elem_of_nil & _)|by intros ?%elem_of_nil].
    + by intros b ?%elem_of_nil.
    + constructor.
Qed.

Lemma split_around_ok a start end_ :
  area_ok a -> Area.start_vpn a <= start -> start < end_ -> end_ <= Area.end_vpn a ->
  exists lo mid hi, Area.split_around a start end_ = Some (lo, mid, hi) /\
    Forall area_ok (parts lo mid hi) /\ StronglySorted area_before (parts lo mid hi) /\ retiled [a] (parts lo mid hi) /\
    (forall b, b ∈ parts lo mid hi -> Area.start_vpn a <= Area.start_vpn b /\ Area.end_vpn b <= Area.end_vpn a /\ ma_perm b = ma_perm a) /\
    Area.start_vpn mid = start /\ Area.end_vpn mid = end_ /\
    (forall v p, (v, p) ∈ ma_frames mid <-> (v, p) ∈ ma_frames a /\ start <= v < end_).
Proof.
  intros Ha H1 H2 H3. unfold Area.split_around. assert (Area.is_identical a = false) as ->
    by (apply bool_decide_eq_false, (ao_type _ _ Ha)).
  assert (forall e, e ∈ ma_frames a -> Area.start_vpn a <= e.1 < Area.end_vpn a) as Hkeys.
  { intros [v p] He. apply (ao_keys _ _ Ha). by eapply area_key_value. }
  destruct (Area.split_off (ma_frames a) end_) as [rem hf] eqn:E1. destruct (Area.split_off rem start) as [lf mf] eqn:E2.
  destruct (split_off_spec _ _ _ _ (ao_wf _ _ Ha) E1) as (P1 & W1 & W2 & L1 & L2).
  destruct (split_off_spec _ _ _ _ W1 E2) as (P2 & W3 & W4 & L3 & L4).
  destruct (Area.split_off (ma_saved a) end_) as [rem' hs]. destruct (Area.split_off rem' start) as [ls ms].
  assert (forall fs : list (Z * Z), (forall e, e ∉ fs) -> fs = []) as Hnil by (intros [|e l] He; [done|destruct (He e); left]).
  destruct (opt_part_ok (Area.start_vpn a <? start) a (Area.start_vpn a) start lf ls Ha ltac:(lia)) as (lo & -> & O1 & O2 & O3 & O4 & O5); [|lia|done|..].
  { destruct (Z.ltb_spec (Area.start_vpn a) start); [done|]. apply Hnil. intros e [He Hlt]%L3. apply L1 in He as [He _]. specialize (Hkeys e He). lia. }
  { intros e [He Hlt]%L3. apply L1 in He as [He _]. specialize (Hkeys e He). lia. }
  cbn [mbind option_bind]. destruct (part_ok a start end_ mf ms Ha H1 H2 H3 W4) as (mid & -> & Q1 & Q2 & Q3 & Q4 & Q5 & _).
  { intros e [He Hge]%L4. apply L1 in He as [He Hlt]. lia. }
  cbn [mbind option_bind].
  destruct (opt_part_ok (end_ <? Area.end_vpn a) a end_ (Area.end_vpn a) hf hs Ha ltac:(lia)) as (hi & -> & R1 & R2 & R3 & R4 & R5); [|lia|done|..].
  { destruct (Z.ltb_spec end_ (Area.end_vpn a)); [done|]. apply Hnil. intros e [He Hlt]%L2. specialize (Hkeys e He). lia. }
  { intros e [He Hlt]%L2. specialize (Hkeys e He). lia. }
  cbn [mbind option_bind]. exists lo, mid, hi. split; [done|]. unfold parts. split_and!; try done.
  - apply Forall_app. split; [done|]. by constructor.
  - apply sorted_app; [done| |].
    + constructor; [done|]. apply Forall_forall. intros b Hb. destruct (R4 b Hb) as (? & ? & _). unfold area_before. lia.
    + intros x y Hx Hy. destruct (O4 x Hx) as (? & ? & _). unfold area_before.
      apply elem_of_cons in Hy as [->|Hy]; [lia|]. destruct (R4 y Hy) as (? & ? & _). lia.
  - split.
    + rewrite map_app, concat_app. cbn [map concat]. rewrite O2, R2, app_nil_r. unfold area_values, bt_values. rewrite Q2.
      rewrite <- P1, <- P2, !map_app. by rewrite <- app_assoc.
    + intros v p. change (mid :: opt_list hi) with ([mid] ++ opt_list hi). rewrite !tracked_app, O3, R3, !tracked_one, Q2 by done.
      rewrite L3, L4, L1, L2. cbn. destruct (Z.lt_ge_cases v end_), (Z.lt_ge_cases v start); tauto.
  - intros b. rewrite elem_of_app, elem_of_cons. intros [Hb|[->|Hb]].
    + destruct (O4 b Hb) as (? & ? & ?). split_and!; [lia|lia|done].
    + split_and!; [lia|lia|done].
    + destruct (R4 b Hb) as (? & ? & ?). split_and!; [lia|lia|done].
  - intros v p. rewrite Q2, L4, L1. cbn. tauto.
Qed.

(** An empty part can be left out. *)
Lemma retiled_drop a lo mid hi : retiled [a] (parts lo mid hi) -> ma_frames mid = [] -> retiled [a] (opt_list lo ++ opt_list hi).
Proof.
  intros [Hp Ht] He. unfold parts in *. split.
  - rewrite <- Hp, !map_app, !concat_app. cbn [map concat]. unfold area_values at 4. by rewrite He.
  - intros v p. rewrite <- Ht. change (mid :: opt_list hi) with ([mid] ++ opt_list hi). rewrite !tracked_app.
    split; [tauto|]. intros [?|[(x & ->%list_elem_of_singleton & Hg)|?]]; [by left|by rewrite He in Hg|by right].
Qed.

(** Areas within the place of another one. *)
Lemma sorted_within kept a rest pieces :
  StronglySorted area_before (kept ++ a :: rest) -> StronglySorted area_before pieces ->
  (forall b, b ∈ pieces -> Area.start_vpn a <= Area.start_vpn b /\ Area.end_vpn b <= Area.end_vpn a) ->
  Area.start_vpn a < Area.end_vpn a ->
  StronglySorted area_before (kept ++ pieces ++ rest).
Proof.
  intros Hs Hp Hin Hlt. destruct (sorted_split _ _ _ Hs) as [B1 B2]. unfold area_before in *.
  assert (StronglySorted area_before rest) as Hr by (apply sorted_suffix in Hs; by apply StronglySorted_inv in Hs as [? _]).
  apply sorted_app; [by eapply sorted_prefix|apply sorted_app; [done|done|]|].
  - intros x y Hx Hy. destruct (Hin x Hx). specialize (B2 y Hy). lia.
  - intros x y Hx [Hy|Hy]%elem_of_app; specialize (B1 x Hx); [destruct (Hin y Hy); lia|]. specialize (B2 y Hy). lia.
Qed.

(** ** Taking pages away *)

(** The pages an area loses to a range. *)
Definition lost (start end_ : Z) (a : MapArea) : list Z :=
  if Area.contains_perm a MapPermission.U && Area.overlaps_vpn_range a start end_
  then seqZ (Z.max start (Area.start_vpn a)) (Z.min end_ (Area.end_vpn a) - Z.max start (Area.start_vpn a)) else [].

Lemma lost_in start end_ a v : v ∈ lost start end_ a -> Area.start_vpn a <= v < Area.end_vpn a /\ start <= v < end_.
Proof. unfold lost. case_match; [rewrite elem_of_seqZ; lia|by intros ?%elem_of_nil]. Qed.

Section OneUnmap.
Context (c : PageCache) (E G : list Z) (ms : MemorySet) (kept rest : list MapArea) (a : MapArea) (start end_ : Z).
Hypothesis Hk : kernel_ok k (mem c).
Hypothesis Hin : space_in c E (space_frames ms ++ G) ms.
Hypothesis Hareas : ms_areas ms = kept ++ a :: rest.
Hypothesis Hlt : start < end_.
Abbreviation X := (concat (map area_values (kept ++ rest)) ++ backing_frames ms ++ G).

Lemma unmap_perm : ms_areas ms ≡ₚ a :: kept ++ rest.
Proof. rewrite Hareas. symmetry. apply Permutation_middle. Qed.

Lemma unmap_area_ok : area_ok a.
Proof. pose proof (so_areas _ _ _ (si_space _ _ _ _ _ Hin)) as Hok. rewrite Hareas in Hok. by apply Forall_app in Hok as [_ [? _]%Forall_cons]. Qed.

Lemma unmap_area_in : area_in shared K c E X (ms_page_table ms) a.
Proof.
  destruct Hin as [[W T S D] _ [Sa _ St _] _]. split; [|apply unmap_area_ok|].
  - split; try done. eapply world_perm; [done| |exact W]. unfold space_frames, area_frames. rewrite unmap_perm. cbn [map concat]. by rewrite <- !app_assoc.
  - intros v p Hg. apply (St a); [rewrite Hareas; apply elem_of_app; right; left|done].
Qed.

Lemma other_area_key l1 x l2 b v : Forall area_ok (l1 ++ x :: l2) -> StronglySorted area_before (l1 ++ x :: l2) ->
  b ∈ l1 ++ l2 -> v ∈ area_keys b -> Area.start_vpn x <= v < Area.end_vpn x -> False.
Proof.
  intros Sa Ss Hb Hkv Hv. destruct (sorted_split _ _ _ Ss) as [B1 B2]. rewrite Forall_app, Forall_cons, !Forall_forall in Sa. destruct Sa as (S1 & _ & S2).
  assert (area_ok b) as Hbok by (apply elem_of_app in Hb as [?|?]; auto).
  pose proof (ao_keys _ _ Hbok v Hkv). unfold area_before in *. apply elem_of_app in Hb as [Hb|Hb]; [specialize (B1 b Hb)|specialize (B2 b Hb)]; lia.
Qed.

(** The pages [vpns] of [a] are unmapped: it keeps its place in the list. *)
Lemma unmap_pages_sstep vpns :
  (forall v, v ∈ vpns -> Area.start_vpn a <= v < Area.end_vpn a) ->
  exists c' a', Area.unmap_pages_maybe c (ms_page_table ms) a vpns = Some (c', a') /\
    sstep c E G ms c' E (ms {{ ms_areas := kept ++ a' :: rest }}) vpns /\
    ma_range a' = ma_range a /\ ma_perm a' = ma_perm a /\
    (forall v, v ∈ vpns -> pte_is_valid (view c' ms v) = false /\ bt_get (ma_frames a') v = None).
Proof.
  intros Hv. destruct (unmap_pages_maybe_ok shared K vpns c E X (ms_page_table ms) a unmap_area_in Hv) as (c' & a' & Heq & Hs & Hn).
  exists c', a'. destruct (astep_range _ _ _ _ _ _ _ _ _ _ _ _ Hs) as (R1 & R2 & _ & _ & R3).
  split_and!; [done| |done|by rewrite (as_area _ _ _ _ _ _ _ _ _ _ _ _ Hs)|done].
  pose proof (si_space _ _ _ _ _ Hin) as [Sa Ss _ _]. rewrite Hareas in Sa, Ss.
  apply (one_sstep k c E G ms a (kept ++ rest) c' E _ a'); try done.
  - left. apply unmap_perm.
  - left. symmetry. apply Permutation_middle.
  - by apply (sorted_replace kept a a' rest).
  - intros b v Hb Hkv Hvv. apply Hv in Hvv. by eapply other_area_key.
  - intros v Hvv Hval. destruct (Hn v Hvv) as [Hf _]. cbn in Hval. congruence.
  - intros q. left. apply count_submseteq. by eapply unmap_pages_values.
  - intros v _ Hvv Hpw%private_valid. destruct (Hn v Hvv) as [Hf _]. cbn in Hpw. congruence.
Qed.

Lemma same_areas (x : MemorySet) : x {{ ms_areas := ms_areas x }} = x.
Proof. by destruct x. Qed.

(** One area of the loop: what is left of it takes its place. *)
Lemma unmap_from_area_ok :
  exists c' pieces, unmap_from_area c (ms_page_table ms) start end_ a = Some (c', pieces) /\
    sstep c E G ms c' E (ms {{ ms_areas := kept ++ pieces ++ rest }}) (lost start end_ a) /\
    (forall v, v ∈ lost start end_ a -> pte_is_valid (view c' ms v) = false).
Proof.
  unfold unmap_from_area, lost. rewrite <- negb_andb.
  destruct (Area.contains_perm a MapPermission.U && Area.overlaps_vpn_range a start end_) eqn:Eo; cbn [negb].
  2: { exists c, [a]. split_and!; [done| |by intros v ?%elem_of_nil]. cbn [app]. rewrite <- Hareas, same_areas. by apply sstep_refl. }
  pose proof unmap_area_ok as Ha. pose proof (ao_range _ _ Ha) as Hne. apply andb_true_iff in Eo as [_ Eo]. unfold Area.overlaps_vpn_range in Eo.
  set (lo0 := Z.max start (Area.start_vpn a)) in *. set (hi0 := Z.min end_ (Area.end_vpn a)) in *.
  unfold Area.unmap_range_maybe, range_new. destruct (lo0 <=? hi0) eqn:El; [|lia]. cbn [mbind option_bind].
  change (Area.pages (mkRange lo0 hi0)) with (seqZ lo0 (hi0 - lo0)).
  destruct (unmap_pages_sstep (seqZ lo0 (hi0 - lo0))) as (c1 & a1 & -> & S1 & R1 & R2 & N1); [intros v Hv; apply elem_of_seqZ in Hv; lia|].
  cbn [mbind option_bind]. set (ms1 := ms {{ ms_areas := kept ++ a1 :: rest }}) in *.
  pose proof (ss_in _ _ _ _ _ _ _ _ _ S1) as Hin1. pose proof (si_space _ _ _ _ _ Hin1) as [Sa Ss _ _].
  change (ms_areas ms1) with (kept ++ a1 :: rest) in Sa, Ss. apply Forall_app in Sa as [Sa1 [Ha1 Sa2]%Forall_cons].
  assert (Area.start_vpn a1 = Area.start_vpn a /\ Area.end_vpn a1 = Area.end_vpn a) as [Q1 Q2] by (unfold Area.start_vpn, Area.end_vpn; by rewrite R1).
  destruct (split_around_ok a1 lo0 hi0 Ha1 ltac:(lia) ltac:(lia) ltac:(lia)) as (lo & mid & hi & -> & P1 & P2 & P3 & P4 & _ & _ & P5).
  cbn [mbind option_bind]. assert (ma_frames mid = []) as Hmid.
  { destruct (ma_frames mid) as [|[v p] l]; [done|]. destruct (proj1 (P5 v p)) as [Hvp Hr]; [left|].
    destruct (N1 v ltac:(apply elem_of_seqZ; lia)) as [_ Hg]. apply (bt_get_elem _ _ _ (ao_wf _ _ Ha1)) in Hvp. congruence. }
  unfold drop_area. rewrite Hmid. cbn [bt_values map drop_frames mbind option_bind]. exists c1, (opt_list lo ++ opt_list hi).
  split_and!; [done| |by intros v Hv; apply N1]. unfold parts in P1, P2, P4. rewrite <- (app_nil_r (seqZ lo0 (hi0 - lo0))).
  eapply sstep_trans; [exact S1|]. apply retile_sstep; try done.
  - apply S1.
  - change (Forall area_ok (kept ++ (opt_list lo ++ opt_list hi) ++ rest)). apply Forall_app in P1 as [? [_ ?]%Forall_cons]. rewrite !Forall_app. done.
  - change (StronglySorted area_before (kept ++ (opt_list lo ++ opt_list hi) ++ rest)).
    apply (sorted_within kept a1); [done|by eapply sorted_remove| |lia]. intros b Hb. destruct (P4 b) as (? & ? & _); [|lia].
    rewrite elem_of_app, elem_of_cons in *. tauto.
  - change (retiled (kept ++ [a1] ++ rest) (kept ++ (opt_list lo ++ opt_list hi) ++ rest)).
    apply retiled_app, retiled_app; [done|by eapply retiled_drop|done].
Qed.

End OneUnmap.

(** The loop over the areas. *)
Lemma unmap_from_areas_ok areas kept c E G ms start end_ :
  start < end_ -> kernel_ok k (mem c) -> space_in c E (space_frames ms ++ G) ms -> ms_areas ms = kept ++ areas ->
  exists c' areas', unmap_from_areas c (ms_page_table ms) start end_ areas = Some (c', areas') /\
    sstep c E G ms c' E (ms {{ ms_areas := kept ++ areas' }}) (concat (map (lost start end_) areas)) /\
    (forall v, v ∈ concat (map (lost start end_) areas) -> pte_is_valid (view c' ms v) = false).
Proof.
  intros Hlt. revert kept c ms. induction areas as [|a areas IH]; intros kept c ms Hk Hin Hareas; cbn [unmap_from_areas map concat].
  { exists c, []. split_and!; [done| |by intros v ?%elem_of_nil]. rewrite <- Hareas, same_areas. by apply sstep_refl. }
  destruct (unmap_from_area_ok c E G ms kept areas a start end_ Hk Hin Hareas Hlt) as (c1 & pieces & -> & S1 & N1).
  cbn [mbind option_bind]. set (ms1 := ms {{ ms_areas := kept ++ pieces ++ areas }}) in *.
  destruct (IH (kept ++ pieces) c1 ms1) as (c2 & rest & Heq & S2 & N2); [apply S1|apply S1|by rewrite <- app_assoc|].
  change (ms_page_table ms1) with (ms_page_table ms) in Heq. rewrite Heq. cbn [mbind option_bind]. exists c2, (pieces ++ rest).
  split_and!; [done| |].
  - change (ms1 {{ ms_areas := (kept ++ pieces) ++ rest }}) with (ms {{ ms_areas := (kept ++ pieces) ++ rest }}) in S2.
    rewrite <- app_assoc in S2. by eapply sstep_trans.
  - intros v Hv. destruct (decide (v ∈ concat (map (lost start end_) areas))) as [H2|H2]; [by apply N2|].
    apply elem_of_app in Hv as [Hv|?]; [|done]. assert (user_page v) as Hu.
    { apply (ao_pages _ _ (unmap_area_ok c E G ms kept areas a Hin Hareas)). by apply lost_in in Hv as [? _]. }
    destruct (ss_views _ _ _ _ _ _ _ _ _ S2 v Hu H2) as [Hvw _].
    change (view c2 (ms1 {{ ms_areas := (kept ++ pieces) ++ rest }}) v) with (view c2 ms v) in Hvw.
    rewrite Hvw. by apply N1.
Qed.

(** A step about more pages, as long as those are not mapped. *)
Lemma sstep_weaken c E G ms c' E' ms' vpns vpns' :
  sstep c E G ms c' E' ms' vpns -> (forall v, v ∈ vpns -> v ∈ vpns') ->
  (forall v, user_page v -> v ∈ vpns' -> v ∉ vpns -> pte_is_valid (view c' ms' v) = false) ->
  sstep c E G ms c' E' ms' vpns'.
Proof.
  intros [I1 K1 V1 T1 W1 D1 O1 C1 N1] Hsub Hinv. split; try done.
  - intros v Hu Hn. apply W1; auto.
  - intros v Hu Hv Hpw. destruct (decide (v ∈ vpns)) as [|Hn]; [by apply N1|]. apply private_valid in Hpw. by rewrite Hinv in Hpw.
Qed.

(** An area that is unmapped as a whole. *)
Lemma unmap_exact_ok c E G ms idx a :
  kernel_ok k (mem c) -> space_in c E (space_frames ms ++ G) ms -> ms_areas ms !! idx = Some a ->
  exists c' a', Area.unmap c (ms_page_table ms) a = Some (c', a') /\ drop_area c' a' = Some c' /\
    sstep c E G ms c' E (ms {{ ms_areas := vec_remove (ms_areas ms) idx }}) (Area.pages (ma_range a)) /\
    (forall v, v ∈ Area.pages (ma_range a) -> pte_is_valid (view c' ms v) = false).
Proof.
  intros Hk Hin Hidx. destruct (update_split _ _ _ Hidx) as (kept & rest & Hareas & _ & Hlen).
  destruct (unmap_pages_sstep c E G ms kept rest a Hk Hin Hareas (Area.pages (ma_range a)) ltac:(intros v; apply pages_elem)) as (c' & a' & Heq & S1 & R1 & _ & N1).
  exists c', a'. split; [done|]. pose proof (ss_in _ _ _ _ _ _ _ _ _ S1) as Hin1. pose proof (si_space _ _ _ _ _ Hin1) as [Sa Ss _ _].
  change (ms_areas (ms {{ ms_areas := kept ++ a' :: rest }})) with (kept ++ a' :: rest) in Sa, Ss.
  apply Forall_app in Sa as [Sa1 [Ha' Sa2]%Forall_cons]. assert (ma_frames a' = []) as He.
  { destruct (ma_frames a') as [|[v p] l] eqn:Ef; [done|]. assert ((v, p) ∈ ma_frames a') as Hvp by (rewrite Ef; left).
    pose proof (ao_keys _ _ Ha' v ltac:(by eapply area_key_value)) as Hr. unfold Area.start_vpn, Area.end_vpn in Hr. rewrite R1 in Hr.
    destruct (N1 v (proj2 (pages_elem a v) Hr)) as [_ Hg]. apply (bt_get_elem _ _ _ (ao_wf _ _ Ha')) in Hvp. congruence. }
  split_and!; [unfold drop_area; by rewrite He| |by intros v Hv; apply N1].
  assert (vec_remove (ms_areas ms) idx = kept ++ rest) as ->.
  { unfold vec_remove. rewrite Hareas, <- Hlen. by rewrite take_app_length, drop_app_ge, Nat.sub_succ_l, Nat.sub_diag by lia. }
  rewrite <- (app_nil_r (Area.pages (ma_range a))). eapply sstep_trans; [exact S1|]. apply retile_sstep; try done.
  - apply S1.
  - by apply Forall_app.
  - by eapply sorted_remove.
  - change (retiled (kept ++ [a'] ++ rest) (kept ++ rest)). apply (retiled_app kept _ kept rest (retiled_refl _)).
    change rest with ([] ++ rest) at 2. apply retiled_app; [|done]. split; [cbn; unfold area_values; by rewrite He|].
    intros v p. split; [by intros (x & ?%elem_of_nil & _)|]. intros (x & ->%list_elem_of_singleton & Hg). by rewrite He in Hg.
Qed.

(** [unmap_user_range]: of user areas, the pages of the range are gone. *)
Lemma unmap_user_range_ok c E G ms start_va end_va (pages := va_pages start_va end_va) :
  kernel_ok k (mem c) -> space_in c E (space_frames ms ++ G) ms ->
  (forall a, a ∈ ms_areas ms -> Area.overlaps_vpn_range a (floor start_va) (ceil end_va) = true ->
     Area.contains_perm a MapPermission.U = true) ->
  exists c' ms', unmap_user_range c ms start_va end_va = Some (c', ms') /\ sstep c E G ms c' E ms' pages /\
    ms' = ms {{ ms_areas := ms_areas ms' }} /\ (forall v, user_page v -> v ∈ pages -> pte_is_valid (view c' ms' v) = false).
Proof.
  intros Hk Hin Huser. unfold unmap_user_range. subst pages. unfold va_pages.
  destruct (Z.leb_spec (ceil end_va) (floor start_va)) as [Hle|Hlt].
  { exists c, ms. rewrite seqZ_nil by lia. split_and!; [done|by apply sstep_refl|by rewrite same_areas|by intros v _ ?%elem_of_nil]. }
  destruct (position _ (ms_areas ms)) as [idx|] eqn:Ep.
  - apply position_Some in Ep as (a & Hidx & Hx). rewrite Hidx. cbn [mbind option_bind].
    apply andb_true_iff in Hx as [_ Hx]. unfold Area.has_exact_vpn_range in Hx.
    destruct (unmap_exact_ok c E G ms idx a Hk Hin Hidx) as (c' & a' & -> & Hdrop & S1 & N1). cbn [mbind option_bind]. rewrite Hdrop. cbn [mbind option_bind].
    eexists _, _. split; [done|]. assert (Area.pages (ma_range a) = seqZ (floor start_va) (ceil end_va - floor start_va)) as Hpg.
    { unfold Area.pages, Area.start_vpn, Area.end_vpn in *. f_equal; lia. }
    rewrite Hpg in S1, N1. split_and!; [done|done|]. intros v _ Hv. by apply N1.
  - destruct (unmap_from_areas_ok (ms_areas ms) [] c E G ms _ _ Hlt Hk Hin eq_refl) as (c' & areas' & -> & S1 & N1). cbn [mbind option_bind].
    eexists _, _. split; [done|]. pose proof (si_space _ _ _ _ _ (ss_in _ _ _ _ _ _ _ _ _ S1)) as [Sa Ss _ _].
    assert (sort_map_areas areas' = areas') as ->.
    { apply sort_by_key_id. cbn in Sa, Ss. clear -Sa Ss. induction Ss as [|x l Ss IH Hall]; [constructor|]. apply Forall_cons in Sa as [Hx Sa].
      constructor; [by apply IH|]. eapply Forall_impl; [exact Hall|]. intros y Hy. pose proof (ao_range _ _ Hx). unfold area_before in Hy. cbn. lia. }
    assert (forall v, user_page v -> v ∈ seqZ (floor start_va) (ceil end_va - floor start_va) -> pte_is_valid (view c' ms v) = false) as Hgone.
    { intros v Hu Hv. destruct (decide (v ∈ concat (map (lost (floor start_va) (ceil end_va)) (ms_areas ms)))) as [|Hn]; [by apply N1|].
      apply not_true_iff_false. intros Hval. destruct (ss_views _ _ _ _ _ _ _ _ _ S1 v Hu Hn) as [Hvw _].
      change (view c' (ms {{ ms_areas := [] ++ areas' }}) v) with (view c' ms v) in Hvw. rewrite Hvw in Hval.
      destruct (so_valid _ _ _ (si_space _ _ _ _ _ Hin) v Hu Hval) as (a & Ha & Hg). apply Hn, elem_of_concat. exists (lost (floor start_va) (ceil end_va) a).
      split; [|by apply (list_elem_of_fmap_2 (lost _ _))]. pose proof (so_areas _ _ _ (si_space _ _ _ _ _ Hin)) as Hok. rewrite Forall_forall in Hok.
      pose proof (ao_keys _ _ (Hok a Ha) v ltac:(eapply area_key_value; by apply bt_get_in)) as Hr. apply elem_of_seqZ in Hv.
      assert (Area.overlaps_vpn_range a (floor start_va) (ceil end_va) = true) as Ho by (unfold Area.overlaps_vpn_range; lia).
      unfold lost. rewrite (Huser a Ha Ho), Ho. cbn [andb]. apply elem_of_seqZ. lia. }
    split_and!; [|done|exact Hgone]. eapply sstep_weaken; [exact S1| |intros v Hu Hv _; by apply Hgone].
    intros v (l & Hv & (a & -> & _)%list_elem_of_fmap)%elem_of_concat. apply lost_in in Hv as [_ ?]. apply elem_of_seqZ. lia.
Qed.


End Unmapping.
