(* ===== verification/DemandPage.v ===== *)
(** * Pages on demand, proved

    Lazy areas ([try_insert_lazy_area_raw]) reserve pages without frames, and a
    fault on a page of one ([resolve_lazy_fault]) gives the page a zeroed frame of
    its own.  The theorems are about private anonymous memory: pages of files and of
    shared memory take their frames from the caches of [PageCache]. *)

From S2P Require Import Prelude.
From S2P Require Import BTree.
From S2P Require Import Address.
From S2P Require Import Ranges.
From S2P Require Import FrameAlloc.
From S2P Require Import PageCache.
From S2P Require Import VmRegion.
From S2P Require Import VmRegionSet.
From S2P Require Import PageTable.
From S2P Require Import MapArea.
From S2P Require Import World.
From S2P Require Import SpaceTable.
From S2P Require Import Backing.
From S2P Require Import MemorySet.
From S2P Require Import SpaceInv.
From S2P Require Import AreaProof.
From S2P Require Import NewSpace.
From S2P Require Import FileMmap.
From S2P Require Import ForkCow.
From S2P Require Import ForkSteps.
From S2P Require Import ForkProof.
From S2P Require Import Fault.
From S2P Require Import CowFault.
From S2P Require Import SpaceMap.
From S2P Require Import SpaceUnmap.
Import Region VmaSet.

Section DemandPage.
Context (k : Kernel).
Abbreviation K := (pt_frames (kn_page_table k)).
Abbreviation shared := (kernel_index k).
Abbreviation user_page := (SpaceInv.user_page shared).
Abbreviation area_ok := (SpaceInv.area_ok shared).
Abbreviation space_in := (ForkProof.space_in k).
Abbreviation sstep := (SpaceMap.sstep k).
Abbreviation view c ms vpn := (pt_view (mem c) (pt_root_ppn (ms_page_table ms)) vpn).

(** ** Lazy areas *)

(** Work on frames that belong to nobody. *)
Lemma idle_sstep c E G ms c' :
  kernel_ok k (mem c) -> space_in c E (space_frames ms ++ G) ms -> evolves c c' -> world_ok c' E (space_frames ms ++ G) ->
  (forall q, q ∈ E -> mem c' q = mem c q) -> (forall q, q ∈ trackers c' (space_frames ms ++ G) -> mem c' q = mem c q) ->
  sstep c E G ms c' E ms [].
Proof.
  intros Hk Hin Hev W' HE HF. pose proof Hin as [[W T S D] M So Fr].
  destruct (table_agree _ _ _ _ _ T (fun q Hq => HE q (S q Hq))) as (T' & Hv & _).
  assert (forall q, q ∈ K -> mem c' q = mem c q) as HK by (intros q Hq; apply HE, S, elem_of_app; by right).
  split; try done.
  - split; [split; try done| |eapply space_ok_view; [done|intros; by rewrite Hv]|done].
    intros i Hi. unfold pte_at. rewrite HE by (apply S, elem_of_app; left; apply T). rewrite HK by (by eapply kernel_root_in). by apply M.
  - by eapply kernel_agree.
  - by exists [].
  - intros v Hu _. split; [by rewrite Hv|]. intros Hval. apply HF, trackers_here, elem_of_app. left. by eapply mapped_own.
  - intros q Hq. apply HF. rewrite trackers_app. apply elem_of_app. by right.
  - intros q Hq _. by apply HE.
  - by left.
  - by intros v _ ?%elem_of_nil.
Qed.

(** A lazy area takes in more pages that no other area has. *)
Lemma extend_sstep c E G ms idx a a' areas' :
  kernel_ok k (mem c) -> space_in c E (space_frames ms ++ G) ms -> ms_areas ms !! idx = Some a ->
  ma_frames a' = ma_frames a -> area_ok a' ->
  (forall b, b ∈ ms_areas ms -> b = a \/ apart_from a' b) -> areas' = sort_map_areas (<[idx := a']> (ms_areas ms)) ->
  sstep c E G ms c E (ms {{ ms_areas := areas' }}) [].
Proof.
  intros Hk Hin Hidx Hf Ha' Hap ->. destruct (update_split _ _ _ Hidx) as (l1 & l2 & Hl & Hup & _).
  pose proof (si_space _ _ _ _ _ Hin) as [Sa Ss _ _]. rewrite Hl in Sa, Ss. rewrite Hup.
  assert (area_ok a /\ Forall area_ok (l1 ++ l2)) as [Ha Sa'] by (rewrite Forall_app, Forall_cons in *; tauto).
  assert (sort_map_areas (l1 ++ a' :: l2) ≡ₚ l1 ++ a' :: l2) as Hp by apply sort_by_key_perm.
  apply retile_sstep; try done; change (ms_areas (ms {{ ms_areas := sort_map_areas (l1 ++ a' :: l2) }})) with (sort_map_areas (l1 ++ a' :: l2)).
  - rewrite Hp. rewrite Forall_app, Forall_cons in *. tauto.
  - apply (add_area_sorted k _ (l1 ++ l2) a'); [symmetry; apply Permutation_middle|done|by eapply sorted_remove|done|].
    intros b Hb. assert (b ∈ ms_areas ms) as Hbm by (rewrite Hl; apply elem_of_app in Hb as [?|?]; apply elem_of_app; [by left|right; by right]).
    destruct (Hap b Hbm) as [->|]; [|done]. exfalso. pose proof (ao_range _ _ Ha). destruct (sorted_split _ _ _ Ss) as [B1 B2]. unfold area_before in *.
    apply elem_of_app in Hb as [Hb|Hb]; [specialize (B1 a Hb)|specialize (B2 a Hb)]; lia.
  - rewrite Hl. assert (retiled (l1 ++ [a] ++ l2) (l1 ++ [a'] ++ l2)) as [R1 R2].
    { apply retiled_app, retiled_app; [done| |done]. split; [cbn; unfold area_values; by rewrite Hf|]. intros v p. rewrite !tracked_one by done. by rewrite Hf. }
    destruct (retiled_perm _ _ Hp) as [P1 P2]. split; [by rewrite <- P1|]. intros v p. rewrite <- R2. symmetry. apply P2.
Qed.

Lemma indexed_area_ok c E G ms idx a : space_in c E (space_frames ms ++ G) ms -> ms_areas ms !! idx = Some a -> area_ok a.
Proof.
  intros Hin Hidx. pose proof (so_areas _ _ _ (si_space _ _ _ _ _ Hin)) as Hok. rewrite Forall_forall in Hok. apply Hok. by eapply list_elem_of_lookup_2.
Qed.

Section LazyArea.
Context (c : PageCache) (E G : list Z) (ms : MemorySet) (start_va end_va permission : Z).
Hypothesis Hk : kernel_ok k (mem c).
Hypothesis Hin : space_in c E (space_frames ms ++ G) ms.
Hypothesis Hu : forall v, v ∈ va_pages start_va end_va -> user_page v.

(** The range with the new pages. *)
Hypothesis Hlt : floor start_va < ceil end_va.
Hypothesis Hno : existsb (fun b => Area.overlaps_vpn_range b (floor start_va) (ceil end_va)) (ms_areas ms) = false.

Lemma lazy_free b : b ∈ ms_areas ms -> Area.end_vpn b <= floor start_va \/ ceil end_va <= Area.start_vpn b.
Proof.
  intros Hb. destruct (decide (Area.end_vpn b <= floor start_va \/ ceil end_va <= Area.start_vpn b)) as [|Hn]; [done|].
  rewrite <- not_true_iff_false in Hno. destruct Hno. apply existsb_exists. exists b. split; [by apply list_elem_of_In|].
  unfold Area.overlaps_vpn_range. lia.
Qed.

(** The neighbour [a] takes in the new pages. *)
Lemma lazy_merge idx a a' :
  ms_areas ms !! idx = Some a -> Area.is_lazy a = true -> ma_frames a' = ma_frames a -> ma_type a' = ma_type a ->
  (Area.end_vpn a = floor start_va /\ Area.start_vpn a' = Area.start_vpn a /\ Area.end_vpn a' = ceil end_va) \/
  (Area.start_vpn a = ceil end_va /\ Area.start_vpn a' = floor start_va /\ Area.end_vpn a' = Area.end_vpn a) ->
  sstep c E G ms c E (ms {{ ms_areas := sort_map_areas (<[idx := a']> (ms_areas ms)) }}) [] /\
  a' ∈ sort_map_areas (<[idx := a']> (ms_areas ms)) /\
  (forall v, v ∈ va_pages start_va end_va -> Area.contains_vpn a' v = true).
Proof.
  intros Hidx Hlazy Hf Hty Hside. pose proof (si_space _ _ _ _ _ Hin) as [Sa Ss _ _]. rewrite Forall_forall in Sa.
  pose proof (list_elem_of_lookup_2 _ _ _ Hidx) as Ha. pose proof (Sa a Ha) as [A1 A2 A3 A4 A5].
  assert (area_ok a') as Ha'.
  { split; [destruct Hside; lia| |by rewrite Hty|by rewrite Hf|].
    - intros v Hv. destruct (decide (floor start_va <= v < ceil end_va)); [apply Hu; unfold va_pages; apply elem_of_seqZ; lia|apply A2; destruct Hside; lia].
    - intros v Hv. unfold area_keys in *. rewrite Hf in Hv. specialize (A5 v Hv). destruct Hside; lia. }
  split_and!.
  - apply (extend_sstep c E G ms idx a a'); try done. intros b Hb.
    destruct (sorted_apart (ms_areas ms) a b Ss Ha Hb) as [->|Hab]; [by left|right].
    pose proof (lazy_free b Hb). pose proof (ao_range _ _ (Sa b Hb)). unfold apart_from, area_before in *. destruct Hside; lia.
  - unfold sort_map_areas. rewrite sort_by_key_perm. eapply list_elem_of_lookup_2, list_lookup_insert_eq. by eapply lookup_lt_Some.
  - intros v Hv. unfold va_pages in Hv. apply elem_of_seqZ in Hv. unfold Area.contains_vpn. destruct Hside; lia.
Qed.

Lemma lazy_new a :
  area_ok a -> ma_frames a = [] -> Area.start_vpn a = floor start_va -> Area.end_vpn a = ceil end_va ->
  sstep c E G ms c E (push_mapped_raw ms a) [] /\ a ∈ ms_areas (push_mapped_raw ms a) /\
  (forall v, v ∈ va_pages start_va end_va -> Area.contains_vpn a v = true).
Proof.
  intros Ha He R1 R2. pose proof (si_space _ _ _ _ _ Hin) as [Sa Ss _ _].
  destruct (push_area_sorted k ms a Sa Ss Ha) as [Hsort Hp].
  { intros b Hb. pose proof (lazy_free b Hb). unfold apart_from, area_before. lia. }
  split_and!; [|rewrite Hp; left|intros v Hv; apply elem_of_seqZ in Hv; unfold Area.contains_vpn; lia].
  apply retile_sstep; try done; [rewrite Hp; by constructor|].
  destruct (retiled_perm _ _ Hp) as [P1 P2]. split; [rewrite <- P1; cbn; by rewrite (eq_refl : area_values a = bt_values (ma_frames a)), He|].
  intros v p. rewrite <- P2. change (a :: ms_areas ms) with ([a] ++ ms_areas ms). rewrite tracked_app.
  split; [|by right]. intros [(x & ->%list_elem_of_singleton & Hg)|?]; [by rewrite He in Hg|done].
Qed.

End LazyArea.

(** [try_insert_lazy_area_raw] changes no page and no frame; when it succeeds, the
    pages belong to a lazy area with the permission. *)
Lemma insert_lazy_ok c E G ms start_va end_va permission :
  kernel_ok k (mem c) -> space_in c E (space_frames ms ++ G) ms ->
  (forall v, v ∈ va_pages start_va end_va -> user_page v) ->
  exists r ms', try_insert_lazy_area_raw k c ms start_va end_va permission = Some (r, c, ms') /\
    sstep c E G ms c E ms' [] /\ (r = false -> ms' = ms) /\
    (r = true -> forall v, v ∈ va_pages start_va end_va ->
       exists a, a ∈ ms_areas ms' /\ Area.is_lazy a = true /\ Area.contains_vpn a v = true /\ ma_perm a = permission).
Proof.
  intros Hk Hin Hu. unfold try_insert_lazy_area_raw. destruct (Z.leb_spec (ceil end_va) (floor start_va)) as [Hle|Hlt].
  { exists true, ms. split_and!; [done|by apply sstep_refl|done|]. unfold va_pages. rewrite seqZ_nil by lia. by intros _ v ?%elem_of_nil. }
  destruct (concrete_range_overlaps k ms start_va end_va) eqn:Eo.
  { exists false, ms. split_and!; [done|by apply sstep_refl|done|done]. }
  unfold concrete_range_overlaps in Eo. apply orb_false_iff in Eo as [Hno _].
  destruct (position _ (ms_areas ms)) as [idx|] eqn:E1.
  { apply position_Some in E1 as (a & Hidx & Hp). rewrite Hidx. cbn [mbind option_bind]. rewrite !andb_true_iff in Hp. destruct Hp as [[Hl Hpm] He].
    unfold Area.append_to, range_new. rewrite Hl. pose proof (ao_range _ _ (indexed_area_ok c E G ms idx a Hin Hidx)) as Hne.
    destruct (Area.start_vpn a <=? ceil end_va) eqn:El; [|lia]. cbn [mbind option_bind].
    set (a' := a {{ ma_range := mkRange (Area.start_vpn a) (ceil end_va) }}).
    destruct (lazy_merge c E G ms start_va end_va Hk Hin Hu Hlt Hno idx a a' Hidx Hl eq_refl eq_refl) as (S1 & M1 & C1).
    { left. split_and!; [lia|reflexivity|reflexivity]. }
    exists true, (ms {{ ms_areas := sort_map_areas (<[idx := a']> (ms_areas ms)) }}).
    split; [by destruct ms|]. split_and!; [exact S1|done|]. intros _ v Hv. eexists. split; [exact M1|]. split_and!; [exact Hl|by apply C1|cbn; lia]. }
  clear E1. destruct (position _ (ms_areas ms)) as [idx|] eqn:E2.
  { apply position_Some in E2 as (a & Hidx & Hp). rewrite Hidx. cbn [mbind option_bind]. rewrite !andb_true_iff in Hp. destruct Hp as [[Hl Hpm] He].
    unfold Area.prepend_to, range_new. rewrite Hl. pose proof (ao_range _ _ (indexed_area_ok c E G ms idx a Hin Hidx)) as Hne.
    destruct (floor start_va <=? Area.end_vpn a) eqn:El; [|lia]. cbn [mbind option_bind].
    set (a' := a {{ ma_range := mkRange (floor start_va) (Area.end_vpn a); ma_start_offset := 0 }}).
    destruct (lazy_merge c E G ms start_va end_va Hk Hin Hu Hlt Hno idx a a' Hidx Hl eq_refl eq_refl) as (S1 & M1 & C1).
    { right. split_and!; [lia|reflexivity|reflexivity]. }
    exists true, (ms {{ ms_areas := sort_map_areas (<[idx := a']> (ms_areas ms)) }}).
    split; [by destruct ms|]. split_and!; [exact S1|done|]. intros _ v Hv. eexists. split; [exact M1|]. split_and!; [exact Hl|by apply C1|cbn; lia]. }
  destruct (new_area k start_va end_va Lazy permission Hlt ltac:(done) Hu) as (a & -> & Ha & He & R1 & R2 & Hty & Hpm & _).
  cbn [mbind option_bind]. unfold try_push_raw. destruct (concrete_range_overlaps k ms _ _).
  { unfold drop_area. rewrite He. cbn. exists false, ms. split_and!; [done|by apply sstep_refl|done|done]. }
  unfold Area.map. assert (Area.is_lazy a = true) as Hl by (unfold Area.is_lazy; by rewrite Hty). rewrite Hl. cbn [mbind option_bind negb].
  destruct (lazy_new c E G ms start_va end_va Hk Hin Hno a Ha He R1 R2) as (S1 & M1 & C1).
  exists true, (push_mapped_raw ms a). split_and!; [by destruct ms|done|done|]. intros _ v Hv. exists a. split_and!; auto.
Qed.

(** ** Faults *)

Lemma insert_tracked_ok c E X a vpn p (a1 := a {{ ma_frames := bt_insert (ma_frames a) vpn p }}) :
  area_ok a -> world_ok c E (p :: area_values a ++ X) ->
  exists c', Area.insert_tracked_frame c a vpn p = Some (c', a1) /\ world_ok c' E (area_values a1 ++ X) /\ evolves c c' /\
    mem c' = mem c /\ exists rest, area_values a1 ≡ₚ p :: rest /\ rest ⊆+ area_values a.
Proof.
  intros Ha W. unfold Area.insert_tracked_frame. assert (area_values a1 ≡ₚ p :: bt_values (bt_remove (ma_frames a) vpn)) as Hv.
  { unfold area_values, a1, bt_values. cbn. by rewrite (bt_insert_perm _ _ _ (ao_wf _ _ Ha)). }
  assert (bt_values (bt_remove (ma_frames a) vpn) ⊆+ area_values a) as Hsub
    by (apply (fmap_submseteq snd), sublist_submseteq, bt_remove_sublist).
  destruct (bt_get (ma_frames a) vpn) as [old|] eqn:Eg.
  - assert (world_ok c E (old :: p :: bt_values (bt_remove (ma_frames a) vpn) ++ X)) as W1.
    { eapply world_perm; [done| |exact W]. unfold area_values. rewrite (values_remove _ _ _ Eg). cbn. solve_Permutation. }
    destruct (drop_frame_world _ _ _ _ W1) as (c1 & -> & W2 & V2 & M2 & _). cbn [mbind option_bind]. exists c1.
    split_and!; [done| |done|done|by eexists]. eapply world_perm; [done| |exact W2]. by rewrite Hv.
  - cbn [mbind option_bind]. exists c. split_and!; [done| |done|done|by eexists]. eapply world_perm; [done| |exact W].
    rewrite Hv. rewrite bt_remove_absent by done. done.
Qed.

(** An area that has got a frame for one of its pages. *)
Lemma installed_sstep c E G ms idx a l1 l2 vpn p rest c' E' pt' pte (a1 := a {{ ma_frames := bt_insert (ma_frames a) vpn p }})
    (X := concat (map area_values (l1 ++ l2)) ++ backing_frames ms ++ G) :
  kernel_ok k (mem c) -> space_in c E (space_frames ms ++ G) ms -> ms_areas ms = l1 ++ a :: l2 ->
  (forall b, <[idx := b]> (ms_areas ms) = l1 ++ b :: l2) -> Area.start_vpn a <= vpn < Area.end_vpn a ->
  astep shared K c E X (ms_page_table ms) a c' E' pt' a1 [vpn] ->
  pt_view (mem c') (pt_root_ppn pt') vpn = pte -> pte_ppn pte = p -> area_values a1 ≡ₚ p :: rest -> rest ⊆+ area_values a ->
  p ∉ area_values a -> p ∉ trackers c' X ->
  sstep c E G ms c' E' ((update_area ms idx a1) {{ ms_page_table := pt' }}) [vpn].
Proof.
  intros Hk Hin Hl Hup Hr Hs Hvn Hpn Hav Hsub Hpa HpX. pose proof (si_space _ _ _ _ _ Hin) as [Sa Ss _ _]. rewrite Hl in Sa, Ss.
  rewrite Tracker.count_elem in Hpa. assert (Tracker.count (area_values a1) p <= 1) as Hone.
  { rewrite (count_perm _ _ _ Hav), Tracker.count_cons, decide_True by done. pose proof (count_submseteq _ _ p Hsub). lia. }
  apply (one_sstep k c E G ms a (l1 ++ l2) c' E' _ a1); try done.
  - left. exact (unmap_perm ms l1 l2 a Hl).
  - left. change (<[idx := a1]> (ms_areas ms) ≡ₚ a1 :: l1 ++ l2). rewrite Hup. symmetry. apply Permutation_middle.
  - change (StronglySorted area_before (<[idx := a1]> (ms_areas ms))). rewrite Hup. by apply (sorted_replace l1 a).
  - intros b v Hb Hkv ->%list_elem_of_singleton. by eapply other_area_key.
  - intros v ->%list_elem_of_singleton _. change (bt_get (ma_frames a1) vpn = Some (pte_ppn (pt_view (mem c') (pt_root_ppn pt') vpn))).
    rewrite Hvn, Hpn. unfold a1. cbn. by rewrite bt_get_insert, key_eqb_refl.
  - intros q. destruct (decide (p = q)) as [<-|Hne]; [by right|left]. rewrite (count_perm _ _ _ Hav), Tracker.count_cons, decide_False by done.
    by apply count_submseteq.
  - intros v _ ->%list_elem_of_singleton _. change (pte_ppn (pt_view (mem c') (pt_root_ppn pt') vpn) ∉ trackers c' X /\
      Tracker.count (area_values a1) (pte_ppn (pt_view (mem c') (pt_root_ppn pt') vpn)) <= 1). by rewrite Hvn, Hpn.
Qed.

(** A new frame for a page of an area that is not mapped; the area may have had a
    frame for it before, whose tracker is dropped. *)
Lemma install_ok c E G ms idx a vpn flags p c1 :
  kernel_ok k (mem c) -> space_in c E (space_frames ms ++ G) ms -> ms_areas ms !! idx = Some a ->
  Area.start_vpn a <= vpn < Area.end_vpn a -> is_flags flags -> pte_is_valid (view c ms vpn) = false ->
  evolves c c1 -> world_ok c1 E (p :: space_frames ms ++ G) -> p ∉ trackers c1 (E ++ space_frames ms ++ G) -> p ∉ E -> is_ppn p ->
  mem c1 p = Tracker.zero_page -> (forall q, q <> p -> mem c1 q = mem c q) ->
  has_room c1 (E ++ p :: space_frames ms ++ G) 2 ->
  match ('(c, pt) ← pt_map c1 (ms_page_table ms) vpn p flags;
         '(c, area) ← Area.insert_tracked_frame c a vpn p;
         Some (c, (update_area ms idx area) {{ ms_page_table := pt }})) with
  | Some (c', ms') => exists E', sstep c E G ms c' E' ms' [vpn] /\ view c' ms' vpn = pte_new p (Z.lor flags PTEFlags.V) /\
      mem c' p = Tracker.zero_page
  | None => exhausted c
  end.
Proof.
  intros Hk Hin Hidx Hr Hfl Hval V1 W1 HpT HpE Hpp Hz M1 Hroom. destruct (update_split _ _ _ Hidx) as (l1 & l2 & Hl & Hup & _).
  pose proof (unmap_area_in k c E G ms l1 l2 a Hin Hl) as Hai. pose proof (unmap_area_ok k c E G ms l1 l2 a Hin Hl) as Ha.
  set (X := concat (map area_values (l1 ++ l2)) ++ backing_frames ms ++ G) in *.
  assert (space_frames ms ++ G ≡ₚ area_values a ++ X) as HF.
  { unfold space_frames, area_frames, X. rewrite (unmap_perm ms l1 l2 a Hl). cbn [map concat]. by rewrite <- !app_assoc. }
  pose proof Hin as [HT _ [Sa Ss _ _] _]. destruct (ao_pages _ _ Ha vpn Hr) as [Hu _].
  assert (table_in shared K c1 E (p :: space_frames ms ++ G) (ms_page_table ms)) as HT1
    by (eapply table_in_data; [exact HT|exact W1|intros q Hq; apply M1; by intros ->]).
  destruct (table_agree _ _ _ _ _ (ti_table _ _ _ _ _ _ HT) (fun q Hq => M1 q (fun Heq => HpE (eq_ind _ (fun x => x ∈ E) (ti_sub _ _ _ _ _ _ HT q Hq) _ Heq)))) as (_ & Hv1 & _).
  pose proof (map_tstep shared K c1 E _ (ms_page_table ms) vpn p flags HT1 Hroom Hu Hpp Hfl) as Hm.
  destruct (pt_map c1 (ms_page_table ms) vpn p flags) as [[c2 pt2]|]; cbn [mbind option_bind].
  2: { destruct Hm as [Hm|Hm]; [rewrite Hv1, Hval in Hm; discriminate Hm|by eapply exhausted_after]. }
  destruct Hm as (new & Ht & Hlen & _ & Hvs). destruct (pte_new_spec p _ Hpp (leaf_flags _ Hfl)) as (_ & Hpn & _).
  set (a1 := a {{ ma_frames := bt_insert (ma_frames a) vpn p }}).
  assert (world_ok c2 (new ++ E) (p :: area_values a ++ X)) as W2
    by (eapply world_perm; [done| |apply (ts_in _ _ _ _ _ _ _ _ _ Ht)]; by rewrite HF).
  destruct (insert_tracked_ok c2 (new ++ E) X a vpn p Ha W2) as (c3 & -> & W3 & V3 & M3 & rest & Hav & Hsub). cbn [mbind option_bind]. fold a1 in W3, Hav |- *.
  assert (forall w, bt_get (ma_frames a1) w = if key_eqb w vpn then Some p else bt_get (ma_frames a) w) as Hg1 by (intros; apply bt_get_insert).
  assert (forall w q, bt_get (ma_frames a) w = Some q -> q <> p) as Hdiff.
  { intros w q Hw ->. apply HpT, trackers_here, elem_of_app. right. rewrite HF. apply elem_of_app. left. eapply area_key_value. by apply bt_get_in. }
  assert (p ∉ trackers c1 X /\ p ∉ area_values a) as [HpX Hpa].
  { rewrite trackers_app, not_elem_of_app in HpT. destruct HpT as [_ HpT]. rewrite (trackers_perm c1 _ _ HF), trackers_app, not_elem_of_app in HpT. tauto. }
  destruct (page_astep shared K c E X (ms_page_table ms) a c1 a1 (p :: space_frames ms ++ G) c2 pt2 new c3 vpn (pte_new p (Z.lor flags PTEFlags.V)) Hai)
    as [Hs Hvn]; try done.
  - by apply inserted_area_ok.
  - intros q Hq. apply M1. by intros ->.
  - intros w q _ Hw. apply M1. by eapply Hdiff.
  - intros q Hq. apply M1. by intros ->.
  - intros w Hw. by rewrite Hg1, (proj2 (key_eqb_neq w vpn)).
  - intros q Hq. rewrite Hav in Hq. rewrite HF. rewrite elem_of_cons, !elem_of_app, elem_of_cons in *.
    destruct Hq as [[?|Hq]|?]; [by left| |by right; right]. right. left. by eapply elem_of_submseteq.
  - intros q. rewrite Hg1, key_eqb_refl. by intros [= <-] _.
  - apply Hu.
  - exists (new ++ E). split_and!; [|exact Hvn|].
    + eapply (installed_sstep c E G ms idx a l1 l2 vpn p rest); try done. intros HqX. apply HpX.
      eapply evolves_elem; [etrans; [apply Ht|exact V3]|done].
    + rewrite M3, (ts_mem _ _ _ _ _ _ _ _ _ Ht); [done|]. eapply data_kept; [apply Ht|]. apply trackers_here. left.
Qed.


Section FaultInArea.
Context (pread : Z -> Z -> Z -> option (list Z)) (charge : Z -> bool).
Context (c : PageCache) (E G : list Z) (ms : MemorySet) (region : VmRegion) (perm flags vpn : Z) (idx : nat) (a : MapArea).
Hypothesis Hk : kernel_ok k (mem c).
Hypothesis Hin : space_in c E (space_frames ms ++ G) ms.
Hypothesis Hidx : ms_areas ms !! idx = Some a.
Hypothesis Hr : Area.start_vpn a <= vpn < Area.end_vpn a.
Hypothesis Hprivate : r_shared region = false.
Hypothesis Hanon : r_file_backed region = false.
Hypothesis Hback : r_backing_id region = 0.
Hypothesis Hflags : is_flags flags.
Hypothesis Hroom : has_room c (E ++ space_frames ms ++ G) 3.

(** The accounting of an area is no part of what it maps. *)
Lemma charge_sstep ac : charge_area charge region perm a = Some ac ->
  ma_frames ac = ma_frames a /\ ma_range ac = ma_range a /\ area_ok ac /\ sstep c E G ms c E (update_area ms idx ac) [].
Proof.
  intros Hc. assert (ma_frames ac = ma_frames a /\ ma_range ac = ma_range a /\ ma_type ac = ma_type a) as (Hf & Hra & Hty).
  { unfold charge_area in Hc. repeat case_match; by simplify_eq. }
  pose proof (indexed_area_ok c E G ms idx a Hin Hidx) as Ha. assert (area_ok ac) as Hac.
  { destruct Ha as [A1 A2 A3 A4 A5]. unfold Area.start_vpn, Area.end_vpn, area_keys in *.
    split; unfold Area.start_vpn, Area.end_vpn, area_keys; rewrite ?Hf, ?Hra, ?Hty; done. }
  split_and!; [done..|]. destruct (update_split _ _ _ Hidx) as (l1 & l2 & Hl & Hup & _).
  pose proof (si_space _ _ _ _ _ Hin) as [Sa Ss _ _]. rewrite Hl in Sa, Ss. apply Forall_app in Sa as [S1 [_ S2]%Forall_cons].
  apply retile_sstep; try done.
  - change (Forall area_ok (<[idx := ac]> (ms_areas ms))). rewrite Hup. apply Forall_app. by split; [|constructor].
  - change (StronglySorted area_before (<[idx := ac]> (ms_areas ms))). rewrite Hup.
    apply (sorted_replace l1 a); unfold Area.start_vpn, Area.end_vpn; rewrite ?Hra; done.
  - change (retiled (ms_areas ms) (<[idx := ac]> (ms_areas ms))). rewrite Hup, Hl. apply (retiled_app l1 (a :: l2) l1 (ac :: l2)); [done|].
    apply (retiled_app [a] l2 [ac] l2); [|done]. split; [cbn; unfold area_values; by rewrite Hf|].
    intros v p. rewrite !tracked_one by done. by rewrite Hf.
Qed.

(** What a fault on a page of a lazy area does. *)
Definition faulted (c : PageCache) (E G : list Z) (ms : MemorySet) (vpn flags : Z) (r : LazyFaultResult) (c' : PageCache) (ms' : MemorySet) : Prop :=
  match r with
  | Resolved => pte_is_valid (view c ms vpn) = false /\ exists E' p, sstep c E G ms c' E' ms' [vpn] /\
      is_ppn p /\ view c' ms' vpn = pte_new p (Z.lor flags PTEFlags.V) /\ mem c' p = Tracker.zero_page
  | _ => ms' = ms /\ sstep c E G ms c' E ms []
  end.

Lemma mapped_view m pt v : is_mapped m pt v = pte_is_valid (pt_view m (pt_root_ppn pt) v).
Proof.
  unfold is_mapped. rewrite translate_view. unfold pt_view. by destruct (node _ _ _) as [t|].
Qed.

Lemma install_page_ok c1 ac p :
  charge_area charge region perm a = Some ac -> pte_is_valid (view c ms vpn) = false ->
  frame_alloc c = Some (Some p, c1) ->
  match install_page c1 ms region flags (backing_page region (sat_mul vpn PAGE_SIZE)) vpn p idx ac with
  | Some (c', ms') => faulted c E G ms vpn flags Resolved c' ms'
  | None => exhausted c
  end.
Proof.
  intros Hc Hval Hal. destruct (charge_sstep ac Hc) as (Hf & Hra & Hac & S0). set (ms1 := update_area ms idx ac) in *.
  pose proof (ss_in _ _ _ _ _ _ _ _ _ S0) as Hin1. assert (ms_areas ms1 !! idx = Some ac) as Hidx1.
  { change (<[idx := ac]> (ms_areas ms) !! idx = Some ac). apply list_lookup_insert_eq. by eapply lookup_lt_Some. }
  assert (length (space_frames ms1) = length (space_frames ms)) as Hlen.
  { unfold space_frames. rewrite !length_app. change (backing_frames ms1) with (backing_frames ms). f_equal.
    unfold area_frames. change (ms_areas ms1) with (<[idx := ac]> (ms_areas ms)). destruct (update_split _ _ _ Hidx) as (l1 & l2 & Hl & Hup & _).
    rewrite Hup, Hl, !map_app, !concat_app, !length_app. cbn. rewrite !length_app. unfold area_values, bt_values. by rewrite Hf. }
  pose proof (frame_alloc_world c E (space_frames ms1 ++ G) (ti_world _ _ _ _ _ _ (si_table _ _ _ _ _ Hin1))) as Ha.
  rewrite Hal in Ha. destruct Ha as (V1 & W1 & _ & HpT & HpE & Hpp & Hz & M1).
  { unfold has_room, trackers in *. rewrite !length_app in *. lia. }
  rewrite not_elem_of_app in HpE. destruct HpE as [HpE _].
  assert (Area.start_vpn ac <= vpn < Area.end_vpn ac) as Hr1 by (unfold Area.start_vpn, Area.end_vpn in *; by rewrite Hra).
  assert (has_room c1 (E ++ p :: space_frames ms1 ++ G) 2) as Hroom1.
  { eapply has_room_evolves; [exact V1|exact Hroom|]. rewrite !length_app. cbn [length]. rewrite length_app. lia. }
  pose proof (install_ok c E G ms1 idx ac vpn flags p c1 Hk Hin1 Hidx1 Hr1 Hflags Hval V1 W1 HpT HpE Hpp Hz M1 Hroom1) as Hi.
  unfold install_page. change (ms_page_table ms1) with (ms_page_table ms) in Hi.
  destruct (pt_map c1 (ms_page_table ms) vpn p flags) as [[c2 pt2]|]; cbn [mbind option_bind] in Hi |- *; [|exact Hi].
  destruct (Area.insert_tracked_frame c2 ac vpn p) as [[c3 a3]|]; cbn [mbind option_bind] in Hi |- *; [|exact Hi].
  rewrite Hback. cbn [Z.eqb]. split; [exact Hval|]. destruct Hi as (E' & S1 & Hv & Hz'). exists E', p.
  assert (update_area ms1 idx a3 = update_area ms idx a3) as Hup.
  { unfold ms1, update_area. cbn. by rewrite list_insert_insert, decide_True. }
  rewrite Hup in S1, Hv. split_and!; [|exact Hpp|exact Hv|exact Hz']. exact (sstep_trans k c E G ms c E ms1 [] _ _ _ _ S0 S1).
Qed.

Lemma fault_in_area_ok :
  match fault_in_area pread charge c ms region perm flags vpn None idx a with
  | Some (r, c', ms') => faulted c E G ms vpn flags r c' ms'
  | None => exhausted c
  end.
Proof.
  unfold fault_in_area. rewrite mapped_view. destruct (pte_is_valid (view c ms vpn)) eqn:Hval.
  { cbn. split; [done|]. by apply sstep_refl. }
  pose proof (frame_alloc_world c E (space_frames ms ++ G) (ti_world _ _ _ _ _ _ (si_table _ _ _ _ _ Hin)) ltac:(unfold has_room in *; lia)) as Ha.
  pose proof install_page_ok as Hi. destruct (frame_alloc c) as [[[p|] c1]|]; cbn [mbind option_bind faulted];
    [|destruct Ha as [-> _]; exact (conj eq_refl (sstep_refl k c E G ms Hk Hin))|destruct Ha].
  unfold read_file_page, shared_frame, shared_inode_backed, shared_anon_backed. rewrite Hanon, Hprivate. cbn [negb andb mbind option_bind].
  destruct Ha as (V1 & W1 & _ & HpT & HpE & Hpp & Hz & M1).
  destruct (charge_area charge region perm a) as [ac|] eqn:Hc.
  - specialize (Hi c1 ac p eq_refl Hval eq_refl). destruct (install_page c1 ms region flags _ vpn p idx ac) as [[c2 ms2]|]; done.
  - destruct (drop_frame_world _ _ _ _ W1) as (c2 & -> & W2 & V2 & M2 & _). cbn [mbind option_bind faulted]. split; [done|].
    clear Hi. apply idle_sstep; [exact Hk|exact Hin|by etrans|exact W2|..]; rewrite M2; intros q Hq; apply M1; intros ->.
    + apply HpE, elem_of_app. by left.
    + apply HpT. rewrite trackers_app. apply elem_of_app. right. by eapply evolves_elem.
Qed.

End FaultInArea.

(** [resolve_lazy_fault] on private anonymous memory. *)
Lemma resolve_lazy_ok pread charge c E G ms fault_va access (vpn := floor (virt_addr fault_va)) :
  kernel_ok k (mem c) -> space_in c E (space_frames ms ++ G) ms -> has_room c (E ++ space_frames ms ++ G) 3 ->
  (forall r, vm_region_containing_addr ms fault_va = Some r ->
     r_shared r = false /\ r_file_backed r = false /\ r_backing_id r = 0) ->
  match resolve_lazy_fault pread charge c ms fault_va access with
  | Some (r, c', ms') => exists flags, is_flags flags /\ faulted c E G ms vpn flags r c' ms' /\
      (r = Resolved -> exists region, vm_region_containing_addr ms fault_va = Some region /\ flags = PTEFlags.from (r_map_perm region) /\
         MapPermission.contains (r_map_perm region) access = true)
  | None => exhausted c
  end.
Proof.
  intros Hk Hin Hroom Hreg. unfold resolve_lazy_fault. fold vpn.
  assert (forall r : Z -> Prop, exists flags, is_flags flags /\ faulted c E G ms vpn flags Invalid c ms /\ (Invalid = Resolved -> r flags)) as Hinv.
  { intros r. exists 0. split_and!; [unfold is_flags; lia| |done]. cbn. split; [done|by apply sstep_refl]. }
  destruct (vm_region_containing_addr ms fault_va) as [region|]; [|refine (Hinv _)].
  destruct (Hreg region eq_refl) as (Hsh & Hfb & Hb). unfold lazy_fault_policy. destruct (negb _ || _); [refine (Hinv _)|].
  destruct (MapPermission.contains (r_map_perm region) access) eqn:Hacc; [|refine (Hinv _)]. rewrite Hsh.
  unfold cached_shared_frame, shared_inode_backed, shared_anon_backed. rewrite Hsh. cbn [andb].
  destruct (position _ (ms_areas ms)) as [idx|] eqn:Ep; [|refine (Hinv _)]. apply position_Some in Ep as (a & Hidx & Ha). rewrite Hidx. cbn [mbind option_bind].
  apply andb_true_iff in Ha as [_ Ha]. unfold Area.contains_vpn in Ha.
  assert (is_flags (PTEFlags.from (r_map_perm region))) as Hfl by (unfold is_flags, PTEFlags.from; repeat case_match; done).
  pose proof (fault_in_area_ok pread charge c E G ms region (r_map_perm region) _ vpn idx a Hk Hin Hidx ltac:(lia) Hsh Hfb Hb Hfl Hroom) as Hf.
  destruct (fault_in_area _ _ _ _ _ _ _ _ _ _ _) as [[[r c'] ms']|]; [|done].
  exists (PTEFlags.from (r_map_perm region)). split_and!; [done|done|]. intros _. by exists region.
Qed.


End DemandPage.
