(* ===== verification/Isolation.v ===== *)
(** * Address spaces are private memories

    A machine with any number of address spaces, which store to their pages, take
    copy-on-write faults and fork.  To its programs it is a machine in which every
    address space has a memory of its own, a fork copies that memory, and a fault
    does nothing: the sharing of frames cannot be observed. *)

From S2P Require Import Prelude.
From S2P Require Import BTree.
From S2P Require Import Address.
From S2P Require Import FrameAlloc.
From S2P Require Import PageCache.
From S2P Require Import VmRegion.
From S2P Require Import PageTable.
From S2P Require Import MapArea.
From S2P Require Import World.
From S2P Require Import SpaceTable.
From S2P Require Import Backing.
From S2P Require Import MemorySet.
From S2P Require Import SpaceInv.
From S2P Require Import NewSpace.
From S2P Require Import ForkCow.
From S2P Require Import ForkSteps.
From S2P Require Import ForkProof.
From S2P Require Import Fault.
From S2P Require Import CowFault.
From S2P Require Import AreaProof.
From S2P Require Import SpaceMap.
From S2P Require Import SpaceUnmap.
From S2P Require Import DemandPage.

(** ** The machine *)

Record Machine := mkMachine {
  mc_world : PageCache;
  mc_spaces : list MemorySet
}.

Inductive Event :=
  | EStore (i : nat) (vpn off byte : Z)
  | ECow (i : nat) (va : Z)
  | EFork (i : nat) (aslr : Z)
  | EMap (i : nat) (start_va end_va perm : Z) (ok : bool)
  | EReserve (i : nat) (start_va end_va perm : Z)
  | EFault (i : nat) (va access : Z)
  | EUnmap (i : nat) (start_va end_va : Z)
  | ENew (aslr : Z)
  | EMeta (i : nat).

Section Isolation.
Context (k : Kernel) (R : list Z) (pread : Z -> Z -> Z -> option (list Z)) (charge : Z -> bool).
Abbreviation K := (pt_frames (kn_page_table k)).
Abbreviation shared := (kernel_index k).
Abbreviation user_page := (SpaceInv.user_page shared).
Abbreviation space_in := (ForkProof.space_in k).
Abbreviation view c ms vpn := (pt_view (mem c) (pt_root_ppn (ms_page_table ms)) vpn).
Abbreviation tables ms := (pt_frames (ms_page_table ms)).

(** The frames of all page tables, and the trackers of all data pages; [R] are
    trackers held elsewhere. *)
Definition all_tables (spaces : list MemorySet) : list Z := concat (map (fun ms => tables ms) spaces) ++ K.
Definition all_data (spaces : list MemorySet) : list Z := concat (map space_frames spaces) ++ R.

(** A private page that can be stored to has its frame for itself. *)
Definition isolated (c : PageCache) (F : list Z) (ms : MemorySet) : Prop :=
  forall vpn, user_page vpn -> private_writable (view c ms vpn) = true ->
    Tracker.count (trackers c F) (pte_ppn (view c ms vpn)) = 1.

Record machine_in (c : PageCache) (E F : list Z) (spaces : list MemorySet) : Prop := {
  mi_kernel : kernel_ok k (mem c);
  mi_spaces : forall ms, ms ∈ spaces -> space_in c E F ms /\ isolated c F ms
}.
Definition machine_ok (s : Machine) : Prop :=
  world_ok (mc_world s) (all_tables (mc_spaces s)) (all_data (mc_spaces s)) /\
  machine_in (mc_world s) (all_tables (mc_spaces s)) (all_data (mc_spaces s)) (mc_spaces s).

(** What a program sees of a page. *)
Definition sees (c : PageCache) (ms : MemorySet) (vpn : Z) : option (list Z) :=
  let pte := view c ms vpn in
  if pte_is_valid pte && has (pte_flags pte) PTEFlags.U then Some (mem c (pte_ppn pte)) else None.

(** The processor stores to a page that is mapped writable; the handlers of faults
    and forks, and the operations that map and unmap memory, run to their end.
    Memory is mapped in the user part of an address space; faults on demand are
    those on private anonymous memory, and what is unmapped belongs to user areas.
    [EMeta] is any change of what an address space keeps besides its table, its
    areas and its backings: regions, the break, locked ranges. *)
Inductive step : Machine -> Event -> Machine -> Prop :=
  | step_store c spaces i ms vpn off byte :
      spaces !! i = Some ms -> user_page vpn -> 0 <= off < PAGE_SIZE ->
      private_writable (view c ms vpn) = true ->
      let p := pte_ppn (view c ms vpn) in
      step (mkMachine c spaces) (EStore i vpn off byte)
        (mkMachine (with_mem c (Tracker.set_page (mem c) p (<[Z.to_nat off := byte]> (mem c p)))) spaces)
  | step_cow c spaces i ms va ok c' ms' :
      spaces !! i = Some ms -> user_page (floor (virt_addr va)) ->
      has_room c (all_tables spaces ++ all_data spaces) 1 ->
      resolve_cow_fault c ms va = Some (ok, c', ms') ->
      step (mkMachine c spaces) (ECow i va) (mkMachine c' (<[i := ms']> spaces))
  | step_fork c spaces i ms aslr c' child :
      spaces !! i = Some ms -> has_room c (all_tables spaces ++ all_data spaces) (fork_room ms) ->
      from_existed_user_cow k c ms aslr = Some (child, c') ->
      step (mkMachine c spaces) (EFork i aslr) (mkMachine c' (spaces ++ [child]))
  | step_map c spaces i ms start_va end_va perm ok c' ms' :
      spaces !! i = Some ms -> floor start_va < ceil end_va -> (forall v, v ∈ va_pages start_va end_va -> user_page v) ->
      has_room c (all_tables spaces ++ all_data spaces) (3 * (ceil end_va - floor start_va)) ->
      try_insert_framed_area_raw k c ms start_va end_va perm = Some (ok, c', ms') ->
      step (mkMachine c spaces) (EMap i start_va end_va perm ok) (mkMachine c' (<[i := ms']> spaces))
  | step_reserve c spaces i ms start_va end_va perm ok c' ms' :
      spaces !! i = Some ms -> (forall v, v ∈ va_pages start_va end_va -> user_page v) ->
      try_insert_lazy_area_raw k c ms start_va end_va perm = Some (ok, c', ms') ->
      step (mkMachine c spaces) (EReserve i start_va end_va perm) (mkMachine c' (<[i := ms']> spaces))
  | step_fault c spaces i ms va access r c' ms' :
      spaces !! i = Some ms -> has_room c (all_tables spaces ++ all_data spaces) 3 ->
      (forall region, vm_region_containing_addr ms va = Some region ->
         r_shared region = false /\ r_file_backed region = false /\ r_backing_id region = 0) ->
      resolve_lazy_fault pread charge c ms va access = Some (r, c', ms') ->
      step (mkMachine c spaces) (EFault i va access) (mkMachine c' (<[i := ms']> spaces))
  | step_unmap c spaces i ms start_va end_va c' ms' :
      spaces !! i = Some ms ->
      (forall a, a ∈ ms_areas ms -> Area.overlaps_vpn_range a (floor start_va) (ceil end_va) = true ->
         Area.contains_perm a MapPermission.U = true) ->
      unmap_user_range c ms start_va end_va = Some (c', ms') ->
      step (mkMachine c spaces) (EUnmap i start_va end_va) (mkMachine c' (<[i := ms']> spaces))
  | step_new c spaces aslr ok c' ms :
      has_room c (all_tables spaces ++ all_data spaces) 5 ->
      ('(ms, c) ← new_bare c aslr; map_user_trampoline_pages k c ms) = Some (ok, c', ms) ->
      step (mkMachine c spaces) (ENew aslr) (mkMachine c' (spaces ++ [ms]))
  | step_meta c spaces i ms ms' :
      spaces !! i = Some ms -> ms_page_table ms' = ms_page_table ms -> ms_areas ms' = ms_areas ms ->
      ms_mmap_backings ms' = ms_mmap_backings ms ->
      step (mkMachine c spaces) (EMeta i) (mkMachine c (<[i := ms']> spaces)).

Inductive run : Machine -> list Event -> Machine -> Prop :=
  | run_nil s : run s [] s
  | run_cons s ev s1 evs s2 : step s ev s1 -> run s1 evs s2 -> run s (ev :: evs) s2.

(** ** The specification: memories that are not shared *)

Definition Memory := Z -> option (list Z).

Inductive spec_step : list Memory -> Event -> list Memory -> Prop :=
  | spec_store ms i m vpn off byte page :
      ms !! i = Some m -> m vpn = Some page ->
      spec_step ms (EStore i vpn off byte)
        (<[i := fun v => if v =? vpn then Some (<[Z.to_nat off := byte]> page) else m v]> ms)
  | spec_cow ms i va : spec_step ms (ECow i va) ms
  | spec_fork ms i m aslr : ms !! i = Some m -> spec_step ms (EFork i aslr) (ms ++ [m])
  | spec_map ms i m start_va end_va perm :
      ms !! i = Some m ->
      spec_step ms (EMap i start_va end_va perm true)
        (<[i := fun v => if bool_decide (v ∈ va_pages start_va end_va)
                         then if has (PTEFlags.from perm) PTEFlags.U then Some Tracker.zero_page else None else m v]> ms)
  | spec_map_failed ms i start_va end_va perm : spec_step ms (EMap i start_va end_va perm false) ms
  | spec_reserve ms i start_va end_va perm : spec_step ms (EReserve i start_va end_va perm) ms
  | spec_fault ms i m va access :
      ms !! i = Some m -> m (floor (virt_addr va)) = None ->
      spec_step ms (EFault i va access)
        (<[i := fun v => if v =? floor (virt_addr va) then Some Tracker.zero_page else m v]> ms)
  | spec_fault_refused ms i va access : spec_step ms (EFault i va access) ms
  | spec_unmap ms i m start_va end_va :
      ms !! i = Some m ->
      spec_step ms (EUnmap i start_va end_va)
        (<[i := fun v => if bool_decide (v ∈ va_pages start_va end_va) then None else m v]> ms)
  | spec_new ms aslr : spec_step ms (ENew aslr) (ms ++ [fun _ => None])
  | spec_meta ms i : spec_step ms (EMeta i) ms.

Inductive spec_run : list Memory -> list Event -> list Memory -> Prop :=
  | spec_nil A : spec_run A [] A
  | spec_cons A ev A1 evs A2 : spec_step A ev A1 -> spec_run A1 evs A2 -> spec_run A (ev :: evs) A2.

Definition represents (s : Machine) (memories : list Memory) : Prop :=
  Forall2 (fun ms m => forall vpn, user_page vpn -> m vpn = sees (mc_world s) ms vpn) (mc_spaces s) memories.

(** ** Address spaces that stand by *)

(** The frame of a mapped page is among those of its address space. *)
Lemma mapped_frame m ms vpn :
  space_ok shared m ms -> user_page vpn ->
  let pte := pt_view m (pt_root_ppn (ms_page_table ms)) vpn in
  pte_is_valid pte = true -> pte_ppn pte ∈ space_frames ms.
Proof.
  intros Hs Hu pte Hval. destruct (so_valid _ _ _ Hs vpn Hu Hval) as (a & Ha & Hg). apply elem_of_app. left.
  eapply area_frames_elem; [done|]. eapply area_key_value. by apply bt_get_in.
Qed.

Lemma bystander c E F ms c' E' F' :
  space_in c E F ms -> isolated c F ms -> kernel_ok k (mem c) -> world_ok c' E' F' ->
  (forall q, q ∈ tables ms ++ K -> mem c' q = mem c q) -> (forall q, q ∈ E -> q ∈ E') ->
  (forall q, q ∈ space_frames ms -> q ∈ F' /\ mem c' q = mem c q) ->
  (forall q, q ∈ space_frames ms -> Tracker.count (trackers c F) q = 1 -> Tracker.count (trackers c' F') q <= 1) ->
  space_in c' E' F' ms /\ isolated c' F' ms /\ (forall vpn, user_page vpn -> sees c' ms vpn = sees c ms vpn).
Proof.
  intros Hsp Hiso Hk W' Hm HE HF Hc. pose proof Hsp as [[W T S D] M Sp Fr].
  destruct (table_agree _ _ _ _ _ T Hm) as (T' & Hv & _).
  assert (forall vpn, user_page vpn -> pte_is_valid (view c ms vpn) = true -> pte_ppn (view c ms vpn) ∈ space_frames ms) as Hd.
  { intros vpn Hu Hval. by eapply mapped_frame. }
  split_and!.
  - split; [split; [done|done|intros q Hq; by apply HE, S|done]| |eapply space_ok_view; [done|intros; by rewrite Hv]|intros q Hq; by apply HF].
    intros i Hi. unfold pte_at. rewrite !Hm; [by apply M|..]; apply elem_of_app; [right; by apply (kernel_root_in k (mem c))|left; apply T].
  - intros vpn Hu. rewrite Hv. intros Hpw. assert (pte_is_valid (view c ms vpn) = true) as Hval.
    { rewrite pte_is_valid_has. unfold private_writable in Hpw. rewrite !andb_true_iff in Hpw. tauto. }
    specialize (Hd vpn Hu Hval). destruct (HF _ Hd) as [HinF _]. pose proof (count_here c' F' _ HinF).
    specialize (Hc _ Hd (Hiso vpn Hu Hpw)). lia.
  - intros vpn Hu. unfold sees. rewrite Hv. destruct (pte_is_valid (view c ms vpn)) eqn:Ev; [|done]. cbn.
    destruct (HF _ (Hd vpn Hu Ev)) as [_ ->]. done.
Qed.

Lemma space_in_perms cc E1 E2 F1 F2 x : E1 ≡ₚ E2 -> F1 ≡ₚ F2 -> space_in cc E1 F1 x -> space_in cc E2 F2 x.
Proof.
  intros HE HF Hs. eapply space_in_perm; [exact HF|]. destruct Hs as [[W T S D] M So Fr]. split; [|done..].
  split; [by apply (world_perm _ E1 F1)|done|intros q Hq; rewrite <- HE; auto|done].
Qed.

(** Two pages with one frame are two trackers. *)
Lemma two_pages m ms v w :
  space_ok shared m ms -> user_page v -> user_page w -> v <> w ->
  let pte x := pt_view m (pt_root_ppn (ms_page_table ms)) x in
  pte_is_valid (pte v) = true -> pte_is_valid (pte w) = true -> pte_ppn (pte v) = pte_ppn (pte w) ->
  2 <= Tracker.count (area_frames ms) (pte_ppn (pte v)).
Proof.
  intros Hs Hv Hw Hne pte Vv Vw Hp. destruct (so_valid _ _ _ Hs v Hv Vv) as (a & Ha & Hga).
  destruct (so_valid _ _ _ Hs w Hw Vw) as (b & Hb & Hgb). fold (pte v) in Hga. fold (pte w) in Hgb.
  pose proof (so_areas _ _ _ Hs) as Hok. rewrite Forall_forall in Hok. specialize (Hok a Ha).
  unfold area_frames. apply list_elem_of_split in Ha as (l1 & l2 & Hl). rewrite Hl in *.
  rewrite map_app, concat_app. cbn [map concat]. rewrite !count_app.
  pose proof (Tracker.count_nonneg (concat (map area_values l1)) (pte_ppn (pte v))).
  pose proof (Tracker.count_nonneg (concat (map area_values l2)) (pte_ppn (pte v))).
  assert (0 < Tracker.count (area_values a) (pte_ppn (pte v))) as Hca.
  { apply Tracker.count_elem. eapply area_key_value. by apply bt_get_in. }
  assert (forall l, b ∈ l -> 0 < Tracker.count (concat (map area_values l)) (pte_ppn (pte v))) as Hcb.
  { intros l Hin. apply Tracker.count_elem, elem_of_concat. exists (area_values b).
    split; [rewrite Hp; eapply area_key_value; by apply bt_get_in|by apply (list_elem_of_fmap_2 area_values)]. }
  apply elem_of_app in Hb as [Hb|[->|Hb]%elem_of_cons]; [specialize (Hcb _ Hb); lia| |specialize (Hcb _ Hb); lia].
  assert (2 <= Tracker.count (area_values a) (pte_ppn (pte v))); [|lia].
  unfold area_values. rewrite (count_perm _ _ _ (values_remove _ _ _ Hga)), Tracker.count_cons, decide_True by done.
  assert (bt_get (bt_remove (ma_frames a) v) w = Some (pte_ppn (pte w))) as Hg2.
  { rewrite bt_get_remove by apply (ao_wf _ _ Hok). by rewrite (proj2 (key_eqb_neq w v)). }
  rewrite Hp, (count_perm _ _ _ (values_remove _ _ _ Hg2)), Tracker.count_cons, decide_True by done.
  pose proof (Tracker.count_nonneg (bt_values (bt_remove (bt_remove (ma_frames a) v) w)) (pte_ppn (pte w))). lia.
Qed.

(** The trackers of one address space among those of all. *)
Lemma all_data_split l1 ms l2 : all_data (l1 ++ ms :: l2) ≡ₚ space_frames ms ++ all_data (l1 ++ l2).
Proof. unfold all_data. rewrite !map_app, !concat_app. cbn [map concat]. solve_Permutation. Qed.
Lemma all_tables_split l1 ms l2 : all_tables (l1 ++ ms :: l2) ≡ₚ tables ms ++ all_tables (l1 ++ l2).
Proof. unfold all_tables. rewrite !map_app, !concat_app. cbn [map concat]. solve_Permutation. Qed.

Lemma space_in_all l ms q : ms ∈ l -> q ∈ space_frames ms -> q ∈ all_data l.
Proof.
  intros Hms Hq. apply elem_of_app. left. apply elem_of_concat. exists (space_frames ms).
  split; [done|]. by apply (list_elem_of_fmap_2 space_frames).
Qed.
Lemma tables_in_all l ms q : ms ∈ l -> q ∈ tables ms -> q ∈ all_tables l.
Proof.
  intros Hms Hq. apply elem_of_app. left. apply elem_of_concat. exists (tables ms).
  split; [done|]. by apply (list_elem_of_fmap_2 (fun ms => tables ms)).
Qed.

(** A frame with one tracker belongs to one address space. *)
Lemma sole_owner c l1 ms l2 ms2 q :
  Tracker.count (trackers c (all_data (l1 ++ ms :: l2))) q = 1 -> q ∈ space_frames ms -> ms2 ∈ l1 ++ l2 -> q ∉ space_frames ms2.
Proof.
  intros Hc Hq Hin Hq2. rewrite (count_perm _ _ _ (trackers_perm c _ _ (all_data_split l1 ms l2))) in Hc.
  rewrite count_trackers_app in Hc. apply Tracker.count_elem in Hq.
  pose proof (count_here c _ q (space_in_all _ _ _ Hin Hq2)). lia.
Qed.

(** The tables of two address spaces are different frames. *)
Lemma tables_apart c F l1 ms l2 ms2 q :
  world_ok c (all_tables (l1 ++ ms :: l2)) F -> ms2 ∈ l1 ++ l2 -> q ∈ tables ms2 ++ K -> q ∉ tables ms.
Proof.
  intros W Hin Hq. pose proof (wk_nodup _ _ _ W) as Hnd. rewrite all_tables_split in Hnd.
  destruct (proj1 (NoDup_app _ _) Hnd) as (_ & Hd & _). intros Hqm. apply (Hd q Hqm).
  apply elem_of_app in Hq as [Hq|Hq]; [by eapply tables_in_all|apply elem_of_app; by right].
Qed.

(** The result of a step of the address space [ms], which becomes [ms']: the
    others see what they saw. *)
Definition stepped (c : PageCache) (l1 : list MemorySet) (ms : MemorySet) (l2 : list MemorySet)
    (c' : PageCache) (ms' : MemorySet) (l3 : list MemorySet) : Prop :=
  machine_ok (mkMachine c' (l1 ++ ms' :: l2 ++ l3)) /\
  (forall ms2 vpn, ms2 ∈ l1 ++ l2 -> user_page vpn -> sees c' ms2 vpn = sees c ms2 vpn).

Lemma sees_here c ms vpn : private_writable (view c ms vpn) = true ->
  pte_is_valid (view c ms vpn) = true /\ sees c ms vpn = Some (mem c (pte_ppn (view c ms vpn))).
Proof.
  unfold private_writable, sees. rewrite pte_is_valid_has, !andb_true_iff. intros [[[-> ->] _] _]. done.
Qed.

(** *** Stores *)

Section Store.
Context (c : PageCache) (l1 : list MemorySet) (ms : MemorySet) (l2 : list MemorySet) (vpn off byte : Z).
Abbreviation spaces := (l1 ++ ms :: l2).
Abbreviation p := (pte_ppn (view c ms vpn)).
Abbreviation page := (<[Z.to_nat off := byte]> (mem c p)).
Abbreviation c' := (with_mem c (Tracker.set_page (mem c) p page)).
Hypothesis Hok : machine_ok (mkMachine c spaces).
Hypothesis Hu : user_page vpn.
Hypothesis Hpw : private_writable (view c ms vpn) = true.

Lemma store_here : ms ∈ spaces.
Proof. apply elem_of_app. right. left. Qed.

Lemma store_frame : p ∈ space_frames ms /\ Tracker.count (trackers c (all_data spaces)) p = 1.
Proof.
  destruct Hok as [_ [_ Hall]]. destruct (Hall ms store_here) as [Hsp Hiso]. destruct (sees_here _ _ _ Hpw) as [Hval _].
  split; [|by apply Hiso]. eapply mapped_frame; [apply Hsp|done|done].
Qed.

Lemma store_tables q : q ∈ all_tables spaces -> mem c' q = mem c q.
Proof.
  intros Hq. destruct Hok as [W [_ Hall]]. destruct (Hall ms store_here) as [Hsp _].
  apply set_page_ne. intros ->. eapply (data_not_table _ _ _ _ W); [|exact Hq].
  apply (si_frames _ _ _ _ _ Hsp), store_frame.
Qed.

Lemma store_keeps ms2 : ms2 ∈ spaces ->
  space_in c' (all_tables spaces) (all_data spaces) ms2 /\ isolated c' (all_data spaces) ms2 /\
  (forall v, view c' ms2 v = view c ms2 v).
Proof.
  intros Hin. destruct Hok as [W [Hk Hall]]. destruct (Hall ms2 Hin) as [[T2 M2 S2 F2] I2]. cbn [mc_world mc_spaces] in *.
  destruct (table_agree _ _ _ _ _ (ti_table _ _ _ _ _ _ T2) (fun q Hq => store_tables q (ti_sub _ _ _ _ _ _ T2 q Hq))) as (_ & Hv & _).
  assert (full_pages (mem c')) as Hfull.
  { apply full_pages_set; [apply W|]. rewrite length_insert. apply (wk_full _ _ _ W). }
  split_and!; [|intros v Hvv; rewrite Hv; by apply I2|done].
  split; [| |eapply space_ok_view; [done|intros; by rewrite Hv]|done].
  - eapply table_in_data; [done|by apply world_with_mem|apply store_tables].
  - intros i Hi. unfold pte_at. rewrite !store_tables; [by apply M2|..]; apply (ti_sub _ _ _ _ _ _ T2), elem_of_app;
      [right; by apply (kernel_root_in k (mem c))|left; apply T2].
Qed.

(** Another mapped page has another frame. *)
Lemma store_other ms2 v : ms2 ∈ l1 ++ l2 \/ (ms2 = ms /\ v <> vpn) -> user_page v ->
  pte_is_valid (view c ms2 v) = true -> pte_ppn (view c ms2 v) <> p.
Proof.
  intros Hcase Hv Hval Heq. destruct store_frame as [Hp Hc]. destruct Hok as [W [_ Hall]]. cbn [mc_world mc_spaces] in *.
  destruct Hcase as [Hin|[-> Hne]].
  - destruct (Hall ms2 ltac:(set_solver)) as [Hsp2 _]. apply (sole_owner c l1 ms l2 ms2 p Hc Hp Hin). rewrite <- Heq.
    eapply mapped_frame; [apply Hsp2|done|done].
  - destruct (Hall ms store_here) as [Hsp _]. destruct (sees_here _ _ _ Hpw) as [Hval' _].
    pose proof (two_pages (mem c) ms v vpn (si_space _ _ _ _ _ Hsp) Hv Hu Hne Hval Hval' Heq) as H2. cbv beta zeta in H2. rewrite Heq in H2.
    rewrite (count_perm _ _ _ (trackers_perm c _ _ (all_data_split l1 ms l2))), count_trackers_app in Hc.
    unfold space_frames in Hc. rewrite count_app in Hc.
    pose proof (Tracker.count_nonneg (backing_frames ms) p).
    pose proof (Tracker.count_nonneg (trackers c (all_data (l1 ++ l2))) p). lia.
Qed.

Lemma store_sees ms2 v : ms2 ∈ l1 ++ l2 \/ (ms2 = ms /\ v <> vpn) -> user_page v -> sees c' ms2 v = sees c ms2 v.
Proof.
  intros Hcase Hv. assert (ms2 ∈ spaces) as Hin by (destruct Hcase as [?|[-> _]]; [set_solver|apply store_here]).
  destruct (store_keeps ms2 Hin) as (_ & _ & Hview). unfold sees. rewrite Hview.
  destruct (pte_is_valid (view c ms2 v)) eqn:Ev; [|done]. destruct (has _ _); [|done]. cbn. f_equal.
  apply set_page_ne. by apply store_other.
Qed.

Lemma store_ok :
  stepped c l1 ms l2 c' ms [] /\
  (forall v, user_page v -> sees c' ms v = if v =? vpn then Some page else sees c ms v).
Proof.
  split; [split|].
  - rewrite app_nil_r. destruct Hok as [W [Hk Hall]]. split; [|split].
    + apply (store_keeps ms store_here).
    + eapply kernel_agree; [exact Hk|]. intros q Hq. apply store_tables, elem_of_app. by right.
    + intros ms2 Hin. by destruct (store_keeps ms2 Hin) as (? & ? & _).
  - intros ms2 v Hin Hv. apply store_sees; auto.
  - intros v Hv. destruct (v =? vpn) eqn:Ev; [|apply store_sees; [right; split; [done|lia]|done]].
    assert (v = vpn) as -> by lia. destruct (store_keeps ms store_here) as (_ & _ & Hview).
    destruct (sees_here c' ms vpn) as [_ ->]; [by rewrite Hview|]. rewrite Hview. cbn. by rewrite set_page_eq.
Qed.

End Store.

(** *** Copy-on-write faults *)

Section Cow.
Context (c : PageCache) (l1 : list MemorySet) (ms : MemorySet) (l2 : list MemorySet) (vpn : Z).
Context (ok : bool) (c' : PageCache) (ms' : MemorySet).
Abbreviation E := (all_tables (l1 ++ ms :: l2)).
Abbreviation F := (all_data (l1 ++ ms :: l2)).
Abbreviation F' := (all_data (l1 ++ ms' :: l2)).
Hypothesis Hok : machine_ok (mkMachine c (l1 ++ ms :: l2)).
Hypothesis Hu : user_page vpn.
Hypothesis Hd : fault_done k c E F (all_data (l1 ++ l2)) ms vpn ok c' ms'.

Lemma cow_tables_eq : all_tables (l1 ++ ms' :: l2) = E.
Proof. unfold all_tables. rewrite !map_app. cbn. by rewrite (fd_table _ _ _ _ _ _ _ _ _ _ Hd). Qed.

Lemma cow_data q : q ∈ F -> mem c' q = mem c q.
Proof. intros Hq. apply (fd_data _ _ _ _ _ _ _ _ _ _ Hd), trackers_here, Hq. Qed.

(** Frames that were there have no more trackers than before; a new frame has one. *)
Lemma cow_count q : q ∈ F -> Tracker.count (trackers c' F') q <= Tracker.count (trackers c F) q.
Proof.
  intros Hq. rewrite (count_perm _ _ _ (trackers_perm c' _ _ (all_data_split l1 ms' l2))).
  etrans; [|by apply (count_evolves c c'), Hd]. pose proof (fd_page _ _ _ _ _ _ _ _ _ _ Hd) as Hp. destruct ok.
  - destruct Hp as [_ (rest & HFo & HFn) Hfresh _ _ _]. rewrite (count_perm _ _ _ (trackers_perm c' _ _ HFn)).
    rewrite (count_perm _ _ _ (trackers_perm c' _ _ HFo)), !trackers_cons, !Tracker.count_cons.
    rewrite (decide_False (P := pte_ppn (view c' ms vpn) = q)) by (intros Heq; apply Hfresh; rewrite Heq; by apply trackers_here).
    destruct (decide _); lia.
  - destruct Hp as [-> _]. by rewrite (count_perm _ _ _ (trackers_perm c' _ _ (all_data_split l1 ms l2))).
Qed.

Lemma cow_count_new : ok = true -> Tracker.count (trackers c' F') (pte_ppn (view c' ms vpn)) = 1.
Proof.
  intros Heq. pose proof (fd_page _ _ _ _ _ _ _ _ _ _ Hd) as Hp. rewrite Heq in Hp.
  destruct Hp as [_ (rest & HFo & HFn) Hfresh _ _ _].
  rewrite (count_perm _ _ _ (trackers_perm c' _ _ (all_data_split l1 ms' l2))).
  rewrite (count_perm _ _ _ (trackers_perm c' _ _ HFn)), trackers_cons, Tracker.count_cons, decide_True by done.
  assert (pte_ppn (view c' ms vpn) ∉ trackers c' rest) as Hn.
  { intros Hin. apply Hfresh. rewrite (trackers_perm c' _ _ HFo), trackers_cons. by right. }
  rewrite Tracker.count_elem in Hn. pose proof (Tracker.count_nonneg (trackers c' rest) (pte_ppn (view c' ms vpn))). lia.
Qed.

(** Of its other pages, the address space sees what it saw. *)
Lemma cow_same_page v : user_page v -> view c' ms v = view c ms v ->
  (private_writable (view c' ms v) = true -> Tracker.count (trackers c' F') (pte_ppn (view c' ms v)) <= 1) /\
  sees c' ms v = sees c ms v.
Proof.
  intros Hv Heq. destruct Hok as [_ [_ Hall]]. destruct (Hall ms ltac:(apply elem_of_app; right; left)) as [Hsp Hiso].
  cbn [mc_world mc_spaces] in *.
  assert (pte_is_valid (view c ms v) = true -> pte_ppn (view c ms v) ∈ F) as Hin.
  { intros Hval. apply (si_frames _ _ _ _ _ Hsp). eapply mapped_frame; [apply Hsp|done|done]. }
  split.
  - rewrite Heq. intros Hpw. rewrite <- (Hiso v Hv Hpw). apply cow_count, Hin. by apply sees_here.
  - unfold sees. rewrite Heq. destruct (pte_is_valid (view c ms v)) eqn:Ev; [|done]. by rewrite cow_data by auto.
Qed.

Lemma cow_page_spec v : user_page v ->
  (private_writable (view c' ms v) = true -> Tracker.count (trackers c' F') (pte_ppn (view c' ms v)) <= 1) /\
  sees c' ms v = sees c ms v.
Proof.
  intros Hv. destruct (decide (v = vpn)) as [->|Hne].
  2: { apply cow_same_page; [done|]. apply (fd_views _ _ _ _ _ _ _ _ _ _ Hd); [apply Hv|done]. }
  pose proof (fd_page _ _ _ _ _ _ _ _ _ _ Hd) as Hp. pose proof cow_count_new as Hone.
  pose proof (cow_same_page vpn Hv) as Hsame. destruct ok.
  - split; [intros _; rewrite Hone by done; lia|]. destruct Hp as [Hval _ _ Hb Hw HU]. unfold sees. rewrite Hval, HU.
    destruct (has (pte_flags (view c ms vpn)) PTEFlags.U) eqn:EU; [|by rewrite !andb_false_r].
    destruct (sees_here _ _ _ Hw) as [-> _]. cbn. by rewrite Hb.
  - destruct Hp as [_ Hp]. by apply Hsame.
Qed.

Lemma cow_ok : stepped c l1 ms l2 c' ms' [] /\ (forall v, user_page v -> sees c' ms' v = sees c ms v).
Proof.
  destruct Hok as [W [Hk Hall]]. cbn [mc_world mc_spaces] in *.
  pose proof (fd_space _ _ _ _ _ _ _ _ _ _ Hd) as Hsp'. pose proof (fd_table _ _ _ _ _ _ _ _ _ _ Hd) as Ht.
  apply (space_in_perm k c' E _ F') in Hsp'; [|by rewrite all_data_split].
  assert (forall ms2, ms2 ∈ l1 ++ l2 -> space_in c' E F' ms2 /\ isolated c' F' ms2 /\
    (forall v, user_page v -> sees c' ms2 v = sees c ms2 v)) as Hby.
  { intros ms2 Hin. destruct (Hall ms2 ltac:(set_solver)) as [Hsp2 Hiso2].
    apply (bystander c E F); try done.
    - apply Hsp'.
    - intros q Hq. apply (fd_tables _ _ _ _ _ _ _ _ _ _ Hd); [by apply (ti_sub _ _ _ _ _ _ (si_table _ _ _ _ _ Hsp2))|by eapply tables_apart].
    - intros q Hq. split; [apply (space_in_all _ ms2); [set_solver|done]|]. apply cow_data. by apply (si_frames _ _ _ _ _ Hsp2).
    - intros q Hq Hc. rewrite <- Hc. apply cow_count. by apply (si_frames _ _ _ _ _ Hsp2). }
  assert (forall v, view c' ms' v = view c' ms v) as Hview by (intros; by rewrite Ht).
  split; [split|].
  - rewrite app_nil_r. split; cbn [mc_world mc_spaces]; rewrite cow_tables_eq; [apply Hsp'|]. split.
    + eapply kernel_agree; [exact Hk|]. intros q Hq. apply (fd_tables _ _ _ _ _ _ _ _ _ _ Hd).
      * apply elem_of_app. by right.
      * destruct (Hall ms ltac:(apply elem_of_app; right; left)) as [Hsp _]. by apply (si_table _ _ _ _ _ Hsp).
    + intros ms2 [Hin|[->|Hin]%elem_of_cons]%elem_of_app; [destruct (Hby ms2 ltac:(set_solver)) as (? & ? & _); done| |destruct (Hby ms2 ltac:(set_solver)) as (? & ? & _); done].
      split; [done|]. intros v Hv. rewrite Hview. intros Hpw. destruct (cow_page_spec v Hv) as [Hle _]. specialize (Hle Hpw).
      assert (pte_ppn (view c' ms v) ∈ F') as Hin; [|pose proof (count_here c' F' _ Hin); lia].
      apply (si_frames _ _ _ _ _ Hsp'). rewrite <- Hview. eapply mapped_frame; [apply Hsp'|done|]. rewrite Hview. by apply sees_here.
  - intros ms2 v Hin Hv. by apply Hby.
  - intros v Hv. destruct (cow_page_spec v Hv) as [_ <-]. unfold sees. by rewrite Hview.
Qed.

End Cow.

(** *** Forks *)

Definition private_flags (f : Z) : bool :=
  has f PTEFlags.V && has f PTEFlags.U && has f PTEFlags.W && negb (has f PTEFlags.SHARED).

Lemma forked_flags f : is_flags f ->
  private_flags (Z.lor (cow_demote f).1 PTEFlags.V) = false /\ ((cow_demote f).2 = false -> private_flags f = false) /\
  has (Z.lor (cow_demote f).1 PTEFlags.V) PTEFlags.U = has f PTEFlags.U /\ has (Z.lor f PTEFlags.V) PTEFlags.U = has f PTEFlags.U.
Proof.
  intros Hf. pose proof (forall_flags (fun f => negb (private_flags (Z.lor (cow_demote f).1 PTEFlags.V)) &&
    ((cow_demote f).2 || negb (private_flags f)) &&
    Bool.eqb (has (Z.lor (cow_demote f).1 PTEFlags.V) PTEFlags.U) (has f PTEFlags.U) &&
    Bool.eqb (has (Z.lor f PTEFlags.V) PTEFlags.U) (has f PTEFlags.U)) ltac:(vm_compute; reflexivity) f Hf) as H.
  cbv beta in H. rewrite !andb_true_iff, !eqb_true_iff, negb_true_iff in H. destruct H as [[[H1 H2] H3] H4].
  split_and!; [done| |done|done]. intros Hd. rewrite Hd in H2. cbn in H2. by apply negb_true_iff.
Qed.

(** The entries of a page that was forked: neither can be stored to, and both
    show the page as it was. *)
Lemma page_forked_entries c c' old par chi : page_forked c c' old par chi ->
  private_writable par = false /\ private_writable chi = false /\
  pte_is_valid par = pte_is_valid old /\ (pte_is_valid old = true -> pte_ppn par = pte_ppn old) /\
  has (pte_flags par) PTEFlags.U = has (pte_flags old) PTEFlags.U /\
  (pte_is_valid chi && has (pte_flags chi) PTEFlags.U = pte_is_valid old && has (pte_flags old) PTEFlags.U) /\
  (pte_is_valid chi && has (pte_flags chi) PTEFlags.U = true -> pte_ppn chi = pte_ppn old).
Proof.
  assert (forall pte, pte_is_valid pte = false -> private_writable pte = false) as Hinv.
  { intros pte. rewrite pte_is_valid_has. unfold private_writable. by intros ->. }
  destruct (forked_flags (pte_flags old) (pte_flags_is_flags _)) as (P1 & P2 & U1 & U2).
  destruct (demoted_pte old) as (_ & Dp & Df & Dv).
  unfold page_forked. destruct (pte_is_valid old) eqn:Ev; cbn [negb].
  2: { intros [-> Hc]. rewrite Hc. split_and!; try done; auto. }
  destruct (has (pte_flags old) PTEFlags.U) eqn:EU.
  - intros [-> ->]. assert (private_writable (child_pte old) = false /\ has (pte_flags (child_pte old)) PTEFlags.U = true /\
      pte_is_valid (child_pte old) = true /\ pte_ppn (child_pte old) = pte_ppn old) as (C1 & C2 & C3 & C4).
    { unfold child_pte, private_writable. rewrite Df. by split_and!. }
    rewrite C3, C2, C4. assert (parent_pte old = child_pte old \/ (parent_pte old = old /\ private_writable old = false)) as [->|[-> Hp]].
    { unfold parent_pte, child_pte. destruct (cow_demote (pte_flags old)) as [fl []]; [by left|]. right. split; [done|]. by apply P2. }
    + by rewrite C1, C2, C3, C4.
    + by rewrite Hp, EU, Ev.
  - assert (forall f, has f PTEFlags.U = false -> private_flags f = false) as HU
      by (unfold private_flags; intros f ->; by rewrite andb_false_r).
    intros [-> Hchi]. rewrite Ev, EU. assert (private_writable old = false) by by apply HU.
    destruct Hchi as [[Hc _]|(f & Hf & -> & _)]; [rewrite Hc; split_and!; try done; auto|].
    destruct (pte_new_spec f _ Hf (leaf_flags _ (pte_flags_is_flags old))) as (_ & _ & Hfl).
    unfold private_writable. rewrite Hfl, U2, !andb_false_r. by split_and!.
Qed.

Section Fork.
Context (c : PageCache) (l1 : list MemorySet) (ms : MemorySet) (l2 : list MemorySet).
Context (c' : PageCache) (child : MemorySet).
Abbreviation E := (all_tables (l1 ++ ms :: l2)).
Abbreviation F := (all_data (l1 ++ ms :: l2)).
Abbreviation spaces' := (l1 ++ ms :: l2 ++ [child]).
Hypothesis Hok : machine_ok (mkMachine c (l1 ++ ms :: l2)).
Hypothesis Hf : forked k c E F ms c' child.

Lemma fork_lists : all_tables spaces' ≡ₚ tables child ++ E /\ all_data spaces' ≡ₚ space_frames child ++ F.
Proof.
  unfold all_tables, all_data. change (l1 ++ ms :: l2 ++ [child]) with (l1 ++ (ms :: l2) ++ [child]).
  rewrite app_assoc, !map_app, !concat_app. cbn [map concat]. split; solve_Permutation.
Qed.

(** Neither parent nor child has a page it can store to privately. *)
Lemma fork_isolated x : x = ms \/ x = child -> isolated c' (all_data spaces') x.
Proof.
  intros Hx vpn Hu Hpw. exfalso.
  destruct (page_forked_entries _ _ _ _ _ (fk_pages _ _ _ _ _ _ _ Hf vpn Hu)) as (H1 & H2 & _).
  destruct Hx as [-> | ->]; congruence.
Qed.

Lemma fork_frame v : user_page v -> pte_is_valid (view c ms v) = true ->
  mem c' (pte_ppn (view c ms v)) = mem c (pte_ppn (view c ms v)).
Proof.
  intros Hv Hval. destruct Hok as [_ [_ Hall]]. destruct (Hall ms ltac:(apply elem_of_app; right; left)) as [Hsp _].
  apply (fk_data _ _ _ _ _ _ _ Hf), trackers_here, (si_frames _ _ _ _ _ Hsp). eapply mapped_frame; [apply Hsp|done|done].
Qed.

Lemma fork_sees v : user_page v -> sees c' ms v = sees c ms v /\ sees c' child v = sees c ms v.
Proof.
  intros Hv. destruct (page_forked_entries _ _ _ _ _ (fk_pages _ _ _ _ _ _ _ Hf v Hv)) as (_ & _ & Pv & Pp & PU & Cv & Cp).
  pose proof (fork_frame v Hv) as Hm. unfold sees. rewrite Cv, Pv, PU.
  destruct (pte_is_valid (view c ms v) && has (pte_flags (view c ms v)) PTEFlags.U) eqn:Eb; [|done].
  apply andb_true_iff in Eb as [Ev _]. by rewrite Pp, Cp, Hm.
Qed.

Lemma fork_bystander ms2 : ms2 ∈ l1 ++ l2 ->
  space_in c' (tables child ++ E) (space_frames child ++ F) ms2 /\ isolated c' (space_frames child ++ F) ms2 /\
  (forall v, user_page v -> sees c' ms2 v = sees c ms2 v).
Proof.
  intros Hin. destruct Hok as [W [Hk Hall]]. cbn [mc_world mc_spaces] in *. destruct (Hall ms2 ltac:(set_solver)) as [Hsp2 Hiso2].
  apply (bystander c E F); try done.
  - apply (fk_parent _ _ _ _ _ _ _ Hf).
  - intros q Hq. apply (fk_tables _ _ _ _ _ _ _ Hf); [by apply (ti_sub _ _ _ _ _ _ (si_table _ _ _ _ _ Hsp2))|by eapply tables_apart].
  - intros q Hq. apply elem_of_app. by right.
  - intros q Hq. apply (si_frames _ _ _ _ _ Hsp2) in Hq. split; [apply elem_of_app; by right|].
    by apply (fk_data _ _ _ _ _ _ _ Hf), trackers_here.
  - intros q Hq Hc. rewrite count_trackers_app. pose proof (count_evolves c c' F q (fk_evolves _ _ _ _ _ _ _ Hf)).
    assert (q ∉ space_frames child) as Hn; [|rewrite Tracker.count_elem in Hn; lia]. intros Hqc.
    destruct (fk_frames _ _ _ _ _ _ _ Hf q Hqc) as [Hqm|Hqm].
    + by apply (sole_owner c l1 ms l2 ms2 q).
    + apply Hqm, trackers_here. by apply (si_frames _ _ _ _ _ Hsp2).
Qed.

Lemma fork_ok : stepped c l1 ms l2 c' ms [child].
Proof.
  destruct fork_lists as [HE HF]. symmetry in HE, HF.
  assert (forall x, space_in c' (tables child ++ E) (space_frames child ++ F) x -> space_in c' (all_tables spaces') (all_data spaces') x) as Hsp
    by (intros x; by apply space_in_perms).
  split; [split; [|split]|]; cbn [mc_world mc_spaces].
  - apply (si_table _ _ _ _ _ (Hsp _ (fk_parent _ _ _ _ _ _ _ Hf))).
  - apply Hf.
  - intros x [Hx|[->|[Hx| ->%list_elem_of_singleton]%elem_of_app]%elem_of_cons]%elem_of_app.
    + destruct (fork_bystander x ltac:(set_solver)) as (H1 & H2 & _). split; [by apply Hsp|].
      intros v Hv Hpw. rewrite <- (count_perm _ _ _ (trackers_perm c' _ _ HF)). by apply H2.
    + split; [apply Hsp, Hf|apply fork_isolated; auto].
    + destruct (fork_bystander x ltac:(set_solver)) as (H1 & H2 & _). split; [by apply Hsp|].
      intros v Hv Hpw. rewrite <- (count_perm _ _ _ (trackers_perm c' _ _ HF)). by apply H2.
    + split; [apply Hsp, Hf|apply fork_isolated; auto].
  - intros ms2 v Hin Hv. by apply fork_bystander.
Qed.

End Fork.

(** *** Mapping, unmapping, pages on demand *)

Section Steps.
Context (c : PageCache) (l1 : list MemorySet) (ms : MemorySet) (l2 : list MemorySet).
Context (c' : PageCache) (E' : list Z) (ms' : MemorySet) (vpns : list Z).
Abbreviation E := (all_tables (l1 ++ ms :: l2)).
Abbreviation G := (all_data (l1 ++ l2)).
Hypothesis Hok : machine_ok (mkMachine c (l1 ++ ms :: l2)).
Hypothesis Hs : sstep k c E G ms c' E' ms' vpns.

Lemma steps_lists : E' ≡ₚ all_tables (l1 ++ ms' :: l2) /\ space_frames ms' ++ G ≡ₚ all_data (l1 ++ ms' :: l2).
Proof.
  split; [|by rewrite all_data_split]. destruct (ss_tables _ _ _ _ _ _ _ _ _ Hs) as (new & -> & HT).
  rewrite all_tables_split, (all_tables_split l1 ms'), HT. by rewrite app_assoc.
Qed.

Lemma steps_bystander ms2 : ms2 ∈ l1 ++ l2 ->
  space_in c' E' (space_frames ms' ++ G) ms2 /\ isolated c' (space_frames ms' ++ G) ms2 /\
  (forall v, user_page v -> sees c' ms2 v = sees c ms2 v).
Proof.
  intros Hin. destruct Hok as [W [Hk Hall]]. cbn [mc_world mc_spaces] in *. destruct (Hall ms2 ltac:(set_solver)) as [Hsp2 Hiso2].
  destruct (ss_tables _ _ _ _ _ _ _ _ _ Hs) as (new & HE & _).
  apply (bystander c E (all_data (l1 ++ ms :: l2))); try done.
  - apply (si_table _ _ _ _ _ (ss_in _ _ _ _ _ _ _ _ _ Hs)).
  - intros q Hq. apply (ss_others _ _ _ _ _ _ _ _ _ Hs); [by apply (ti_sub _ _ _ _ _ _ (si_table _ _ _ _ _ Hsp2))|by eapply tables_apart].
  - intros q Hq. rewrite HE. apply elem_of_app. by right.
  - intros q Hq. pose proof (space_in_all _ _ _ Hin Hq) as HqG. split; [apply elem_of_app; by right|].
    by apply (ss_data _ _ _ _ _ _ _ _ _ Hs), trackers_here.
  - intros q Hq Hc. rewrite (count_perm _ _ _ (trackers_perm c _ _ (all_data_split l1 ms l2))) in Hc.
    rewrite (sstep_sole _ _ _ _ _ _ _ _ _ q Hs Hc); [done|]. apply elem_of_app. right. by eapply space_in_all.
Qed.

Lemma steps_own v : user_page v -> v ∉ vpns -> sees c' ms' v = sees c ms v.
Proof.
  intros Hv Hn. destruct (ss_views _ _ _ _ _ _ _ _ _ Hs v Hv Hn) as [Hw Hm]. unfold sees. rewrite Hw.
  destruct (pte_is_valid (view c ms v)); [|done]. by rewrite Hm.
Qed.

Lemma steps_isolated : isolated c' (space_frames ms' ++ G) ms'.
Proof.
  intros v Hv Hpw. destruct (decide (v ∈ vpns)) as [Hin|Hn]; [by apply (ss_new _ _ _ _ _ _ _ _ _ Hs)|].
  destruct Hok as [_ [_ Hall]]. destruct (Hall ms ltac:(apply elem_of_app; right; left)) as [_ Hiso]. cbn [mc_world mc_spaces] in *.
  pose proof (private_valid _ Hpw) as Hval. pose proof (mapped_own _ _ _ _ _ _ (ss_in _ _ _ _ _ _ _ _ _ Hs) Hv Hval) as Hfr.
  destruct (ss_views _ _ _ _ _ _ _ _ _ Hs v Hv Hn) as [Hw _]. rewrite Hw in *. eapply sstep_sole; [exact Hs| |apply elem_of_app; by left].
  rewrite <- (count_perm _ _ _ (trackers_perm c _ _ (all_data_split l1 ms l2))). by apply Hiso.
Qed.

Lemma steps_ok : stepped c l1 ms l2 c' ms' [].
Proof.
  destruct steps_lists as [HE HF]. assert (forall x, space_in c' E' (space_frames ms' ++ G) x -> isolated c' (space_frames ms' ++ G) x ->
    space_in c' (all_tables (l1 ++ ms' :: l2)) (all_data (l1 ++ ms' :: l2)) x /\ isolated c' (all_data (l1 ++ ms' :: l2)) x) as Hperm.
  { intros x Hx Hi. split; [by eapply space_in_perms|]. intros v Hv Hpw. rewrite <- (count_perm _ _ _ (trackers_perm c' _ _ HF)). by apply Hi. }
  pose proof (Hperm ms' (ss_in _ _ _ _ _ _ _ _ _ Hs) steps_isolated) as Hms'.
  split; [rewrite app_nil_r; split; [apply Hms'|split]|]; cbn [mc_world mc_spaces].
  - apply Hs.
  - intros x Hx. rewrite elem_of_app, elem_of_cons in Hx. destruct Hx as [Hx|[->|Hx]]; [|done|];
      (destruct (steps_bystander x ltac:(set_solver)) as (H1 & H2 & _); by apply Hperm).
  - intros ms2 v Hin Hv. by apply steps_bystander.
Qed.

End Steps.

(** ** The simulation *)

Lemma represents_later c c' l A :
  (forall ms v, ms ∈ l -> user_page v -> sees c' ms v = sees c ms v) ->
  Forall2 (fun ms m => forall v, user_page v -> m v = sees c ms v) l A ->
  Forall2 (fun ms m => forall v, user_page v -> m v = sees c' ms v) l A.
Proof.
  intros Hs Hl. induction Hl as [|x b l B Hx Hl IH]; constructor; [|apply IH; set_solver].
  intros v Hv. rewrite Hs by (done || left). auto.
Qed.

Lemma represents_split c l1 ms l2 A :
  represents (mkMachine c (l1 ++ ms :: l2)) A ->
  exists A1 m A2, A = A1 ++ m :: A2 /\ length A1 = length l1 /\ (forall v, user_page v -> m v = sees c ms v) /\
    forall c' ms' m', (forall ms2 v, ms2 ∈ l1 ++ l2 -> user_page v -> sees c' ms2 v = sees c ms2 v) ->
      (forall v, user_page v -> m' v = sees c' ms' v) -> represents (mkMachine c' (l1 ++ ms' :: l2)) (A1 ++ m' :: A2).
Proof.
  unfold represents. cbn [mc_world mc_spaces]. intros Hr.
  apply Forall2_app_inv_l in Hr as (A1 & A' & H1 & (m & A2 & Hm & H2 & ->)%Forall2_cons_inv_l & ->).
  exists A1, m, A2. split_and!; [done|symmetry; by eapply Forall2_length|done|]. intros c' ms' m' Hs Hm'.
  apply Forall2_app; [|constructor; [done|]]; (eapply represents_later; [|done]; intros x v Hx; apply Hs; set_solver).
Qed.

Lemma steps_simulated c l1 ms l2 c' E' ms' vpns A :
  machine_ok (mkMachine c (l1 ++ ms :: l2)) ->
  sstep k c (all_tables (l1 ++ ms :: l2)) (all_data (l1 ++ l2)) ms c' E' ms' vpns ->
  represents (mkMachine c (l1 ++ ms :: l2)) A ->
  machine_ok (mkMachine c' (l1 ++ ms' :: l2)) /\
  exists m, A !! length l1 = Some m /\ (forall v, user_page v -> m v = sees c ms v) /\
    forall m', (forall v, user_page v -> v ∈ vpns -> m' v = sees c' ms' v) -> (forall v, user_page v -> v ∉ vpns -> m' v = m v) ->
      represents (mkMachine c' (l1 ++ ms' :: l2)) (<[length l1 := m']> A).
Proof.
  intros Hok Hs Hr. destruct (steps_ok c l1 ms l2 c' E' ms' vpns Hok Hs) as [Hok' Hse]. rewrite app_nil_r in Hok'. split; [done|].
  destruct (represents_split _ _ _ _ _ Hr) as (A1 & m & A2 & -> & Hlen & Hm & Hrep). exists m.
  split_and!; [rewrite <- Hlen; by apply list_lookup_middle|done|]. intros m' H1 H2.
  rewrite <- Hlen, <- (Nat.add_0_r (length A1)), insert_app_r. cbn. apply Hrep; [done|]. intros v Hv.
  destruct (decide (v ∈ vpns)) as [Hi|Hn]; [auto|]. rewrite H2, Hm by done. symmetry. by eapply steps_own.
Qed.

(** A step that shows nothing. *)
Lemma steps_unseen c l1 ms l2 c' E' ms' vpns A :
  machine_ok (mkMachine c (l1 ++ ms :: l2)) ->
  sstep k c (all_tables (l1 ++ ms :: l2)) (all_data (l1 ++ l2)) ms c' E' ms' vpns ->
  represents (mkMachine c (l1 ++ ms :: l2)) A ->
  (forall v, user_page v -> v ∈ vpns -> sees c' ms' v = sees c ms v) ->
  machine_ok (mkMachine c' (l1 ++ ms' :: l2)) /\ represents (mkMachine c' (l1 ++ ms' :: l2)) A.
Proof.
  intros Hok Hs Hr Hv. destruct (steps_simulated c l1 ms l2 c' E' ms' vpns A Hok Hs Hr) as (Hok' & m & Hl & Hm & Hrep). split; [done|].
  rewrite <- (list_insert_id A (length l1) m Hl). apply Hrep; [|done]. intros v Hu Hi. rewrite Hv by done. auto.
Qed.

Lemma sees_unmapped c ms v : pte_is_valid (view c ms v) = false -> sees c ms v = None.
Proof. unfold sees. by intros ->. Qed.

Lemma sees_new c ms v p flags : is_ppn p -> is_flags flags -> view c ms v = pte_new p (Z.lor flags PTEFlags.V) ->
  sees c ms v = if has flags PTEFlags.U then Some (mem c p) else None.
Proof.
  intros Hp Hf Hv. destruct (pte_new_spec p _ Hp (leaf_flags _ Hf)) as (_ & Hpn & Hfl). unfold sees. rewrite pte_is_valid_has, Hv, Hpn, Hfl.
  pose proof (forall_flags (fun f => has (Z.lor f PTEFlags.V) PTEFlags.V && Bool.eqb (has (Z.lor f PTEFlags.V) PTEFlags.U) (has f PTEFlags.U))
    ltac:(vm_compute; reflexivity) flags Hf) as H. cbv beta in H. apply andb_true_iff in H as [-> ->%eqb_prop]. done.
Qed.

(** The address space the step is about, among the others. *)
Lemma own_space c l1 ms l2 : machine_ok (mkMachine c (l1 ++ ms :: l2)) ->
  kernel_ok k (mem c) /\ space_in c (all_tables (l1 ++ ms :: l2)) (space_frames ms ++ all_data (l1 ++ l2)) ms.
Proof.
  intros [W [Hk Hall]]. split; [done|]. destruct (Hall ms ltac:(apply elem_of_app; right; left)) as [Hsp _].
  eapply space_in_perm; [|exact Hsp]. apply all_data_split.
Qed.

Lemma room_split c l1 ms l2 n : has_room c (all_tables (l1 ++ ms :: l2) ++ all_data (l1 ++ ms :: l2)) n ->
  has_room c (all_tables (l1 ++ ms :: l2) ++ space_frames ms ++ all_data (l1 ++ l2)) n.
Proof. unfold has_room, trackers. rewrite !length_app. by rewrite (Permutation_length (all_data_split l1 ms l2)), length_app. Qed.

Lemma map_simulated c l1 ms l2 start_va end_va perm ok c' ms' A :
  machine_ok (mkMachine c (l1 ++ ms :: l2)) -> represents (mkMachine c (l1 ++ ms :: l2)) A ->
  floor start_va < ceil end_va -> (forall v, v ∈ va_pages start_va end_va -> user_page v) ->
  has_room c (all_tables (l1 ++ ms :: l2) ++ all_data (l1 ++ ms :: l2)) (3 * (ceil end_va - floor start_va)) ->
  try_insert_framed_area_raw k c ms start_va end_va perm = Some (ok, c', ms') ->
  exists A', spec_step A (EMap (length l1) start_va end_va perm ok) A' /\
    machine_ok (mkMachine c' (l1 ++ ms' :: l2)) /\ represents (mkMachine c' (l1 ++ ms' :: l2)) A'.
Proof.
  intros Hok Hr Hlt Hu Hroom Heq. destruct (own_space _ _ _ _ Hok) as [Hk Hsp].
  pose proof (insert_framed_ok k c _ _ ms start_va end_va perm Hk Hsp Hlt Hu (room_split _ _ _ _ _ Hroom)) as Hi.
  rewrite Heq in Hi. destruct ok.
  - destruct Hi as (E' & a' & Hs & _ & Hpm & Hp). destruct (steps_simulated _ _ _ _ _ _ _ _ _ Hok Hs Hr) as (Hok' & m & Hl & _ & Hrep).
    eexists. split; [by eapply spec_map|]. split; [exact Hok'|]. apply Hrep; intros v Hv Hin.
    + rewrite bool_decide_true by done. destruct (Hp v Hin) as (p & _ & Hpp & Hview & Hz & _).
      rewrite (sees_new c' ms' v p _ Hpp (area_flags_ok a') Hview), Hz. unfold Area.area_flags. by rewrite Hpm.
    + by rewrite bool_decide_false.
  - exists A. split; [constructor|]. destruct Hi as [(-> & -> & _)|(_ & E' & Hs & _ & Hn)]; [by split|].
    eapply steps_unseen; [done|exact Hs|done|]. intros v Hv Hin. by rewrite !sees_unmapped by (by apply Hn).
Qed.

Lemma fault_simulated c l1 ms l2 va access r c' ms' A :
  machine_ok (mkMachine c (l1 ++ ms :: l2)) -> represents (mkMachine c (l1 ++ ms :: l2)) A ->
  has_room c (all_tables (l1 ++ ms :: l2) ++ all_data (l1 ++ ms :: l2)) 3 ->
  (forall region, vm_region_containing_addr ms va = Some region ->
     r_shared region = false /\ r_file_backed region = false /\ r_backing_id region = 0) ->
  resolve_lazy_fault pread charge c ms va access = Some (r, c', ms') ->
  exists A', spec_step A (EFault (length l1) va access) A' /\
    machine_ok (mkMachine c' (l1 ++ ms' :: l2)) /\ represents (mkMachine c' (l1 ++ ms' :: l2)) A'.
Proof.
  intros Hok Hr Hroom Hreg Heq. destruct (own_space _ _ _ _ Hok) as [Hk Hsp].
  pose proof (resolve_lazy_ok k pread charge c _ _ ms va access Hk Hsp (room_split _ _ _ _ _ Hroom) Hreg) as Hf. rewrite Heq in Hf.
  destruct Hf as (flags & Hfl & Hd & _). set (vpn := floor (virt_addr va)) in *.
  assert (r <> Resolved -> exists A', spec_step A (EFault (length l1) va access) A' /\
    machine_ok (mkMachine c' (l1 ++ ms' :: l2)) /\ represents (mkMachine c' (l1 ++ ms' :: l2)) A') as Hrefused.
  { intros Hne. exists A. split; [by apply spec_fault_refused|]. destruct r; [done|..]; destruct Hd as [-> Hs];
      (eapply steps_unseen; [done|exact Hs|done|by intros v _ ?%elem_of_nil]). }
  destruct r; [|by apply Hrefused..]. destruct Hd as [Hval (E' & p & Hs & Hp & Hview & Hz)].
  pose proof (sees_new c' ms' vpn p flags Hp Hfl Hview) as Hsee. rewrite Hz in Hsee.
  destruct (has flags PTEFlags.U).
  - destruct (steps_simulated _ _ _ _ _ _ _ _ _ Hok Hs Hr) as (Hok' & m & Hl & Hm & Hrep).
    destruct (decide (user_page vpn)) as [Hu|Hn].
    + eexists. split; [eapply spec_fault; [exact Hl|]; fold vpn; rewrite Hm by done; by apply sees_unmapped|].
      split; [exact Hok'|]. fold vpn. apply Hrep; intros v Hv; rewrite list_elem_of_singleton; [intros ->|intros Hne].
      * by rewrite Z.eqb_refl.
      * by rewrite (proj2 (Z.eqb_neq v vpn)).
    + exists A. split; [by apply spec_fault_refused|]. split; [done|]. rewrite <- (list_insert_id A (length l1) m Hl).
      apply Hrep; [|done]. by intros v Hv ->%list_elem_of_singleton.
  - exists A. split; [by apply spec_fault_refused|]. eapply steps_unseen; [done|exact Hs|done|].
    intros v _ ->%list_elem_of_singleton. rewrite Hsee. symmetry. by apply sees_unmapped.
Qed.

Lemma unmap_simulated c l1 ms l2 start_va end_va c' ms' A :
  machine_ok (mkMachine c (l1 ++ ms :: l2)) -> represents (mkMachine c (l1 ++ ms :: l2)) A ->
  (forall a, a ∈ ms_areas ms -> Area.overlaps_vpn_range a (floor start_va) (ceil end_va) = true -> Area.contains_perm a MapPermission.U = true) ->
  unmap_user_range c ms start_va end_va = Some (c', ms') ->
  exists A', spec_step A (EUnmap (length l1) start_va end_va) A' /\
    machine_ok (mkMachine c' (l1 ++ ms' :: l2)) /\ represents (mkMachine c' (l1 ++ ms' :: l2)) A'.
Proof.
  intros Hok Hr Huser Heq. destruct (own_space _ _ _ _ Hok) as [Hk Hsp].
  destruct (unmap_user_range_ok k c _ _ ms start_va end_va Hk Hsp Huser) as (c1 & ms1 & Heq' & Hs & _ & Hn).
  rewrite Heq in Heq'. injection Heq' as <- <-.
  destruct (steps_simulated _ _ _ _ _ _ _ _ _ Hok Hs Hr) as (Hok' & m & Hl & Hm & Hrep).
  eexists. split; [by eapply spec_unmap|]. split; [exact Hok'|]. apply Hrep; intros v Hv Hin.
  - rewrite bool_decide_true by done. symmetry. apply sees_unmapped. auto.
  - by rewrite bool_decide_false.
Qed.

Lemma store_simulated c l1 ms l2 vpn off byte A (p := pte_ppn (view c ms vpn)) :
  machine_ok (mkMachine c (l1 ++ ms :: l2)) -> represents (mkMachine c (l1 ++ ms :: l2)) A ->
  user_page vpn -> private_writable (view c ms vpn) = true ->
  let s' := mkMachine (with_mem c (Tracker.set_page (mem c) p (<[Z.to_nat off := byte]> (mem c p)))) (l1 ++ ms :: l2) in
  exists A', spec_step A (EStore (length l1) vpn off byte) A' /\ machine_ok s' /\ represents s' A'.
Proof.
  intros Hok Hr Hu Hpw s'. destruct (represents_split _ _ _ _ _ Hr) as (A1 & m & A2 & -> & Hlen & Hm & Hrep).
  destruct (store_ok c l1 ms l2 vpn off byte Hok Hu Hpw) as [[Hok' Hs] Hsee]. rewrite app_nil_r in Hok'.
  destruct (sees_here _ _ _ Hpw) as [_ Hpage]. eexists. split; [|split; [exact Hok'|]].
  - eapply (spec_store _ _ m vpn off byte); [rewrite <- Hlen; by apply list_lookup_middle|]. rewrite Hm by done. exact Hpage.
  - rewrite <- Hlen, <- (Nat.add_0_r (length A1)), insert_app_r. cbn. apply Hrep; [done|].
    intros v Hv. rewrite Hsee by done. destruct (v =? vpn); [done|]. by apply Hm.
Qed.

Lemma cow_simulated c l1 ms l2 va ok c' ms' A :
  machine_ok (mkMachine c (l1 ++ ms :: l2)) -> represents (mkMachine c (l1 ++ ms :: l2)) A ->
  user_page (floor (virt_addr va)) -> has_room c (all_tables (l1 ++ ms :: l2) ++ all_data (l1 ++ ms :: l2)) 1 ->
  resolve_cow_fault c ms va = Some (ok, c', ms') ->
  machine_ok (mkMachine c' (l1 ++ ms' :: l2)) /\ represents (mkMachine c' (l1 ++ ms' :: l2)) A.
Proof.
  intros Hok Hr Hu Hroom Hres. destruct (represents_split _ _ _ _ _ Hr) as (A1 & m & A2 & -> & Hlen & Hm & Hrep).
  destruct Hok as [W [Hk Hall]]. cbn [mc_world mc_spaces] in *. destruct (Hall ms ltac:(apply elem_of_app; right; left)) as [Hsp _].
  destruct (resolve_cow_ok k c _ _ (all_data (l1 ++ l2)) ms va Hk Hsp (all_data_split l1 ms l2) Hu Hroom) as (ok1 & c1 & ms1 & Heq & Hd & _).
  rewrite Hres in Heq. injection Heq as <- <- <-.
  destruct (cow_ok c l1 ms l2 _ ok c' ms' ltac:(by split) Hu Hd) as [[Hok' Hs] Hsee]. rewrite app_nil_r in Hok'.
  split; [exact Hok'|]. apply Hrep; [done|]. intros v Hv. rewrite Hsee by done. by apply Hm.
Qed.

Lemma fork_simulated c l1 ms l2 aslr c' child A :
  machine_ok (mkMachine c (l1 ++ ms :: l2)) -> represents (mkMachine c (l1 ++ ms :: l2)) A ->
  has_room c (all_tables (l1 ++ ms :: l2) ++ all_data (l1 ++ ms :: l2)) (fork_room ms) ->
  from_existed_user_cow k c ms aslr = Some (child, c') ->
  let s' := mkMachine c' ((l1 ++ ms :: l2) ++ [child]) in
  exists A', spec_step A (EFork (length l1) aslr) A' /\ machine_ok s' /\ represents s' A'.
Proof.
  intros Hok Hr Hroom Hfork s'. destruct (represents_split _ _ _ _ _ Hr) as (A1 & m & A2 & -> & Hlen & Hm & Hrep).
  pose proof Hok as [W [Hk Hall]]. cbn [mc_world mc_spaces] in *. destruct (Hall ms ltac:(apply elem_of_app; right; left)) as [Hsp _].
  pose proof (fork_cow_ok k c _ _ ms aslr Hk ltac:(intros q Hq; apply elem_of_app; by right) Hsp Hroom) as Hf. rewrite Hfork in Hf.
  destruct (fork_ok c l1 ms l2 c' child Hok Hf) as [Hok' Hs]. eexists. split; [eapply spec_fork; rewrite <- Hlen; by apply list_lookup_middle|].
  unfold s'. rewrite <- app_assoc. split; [exact Hok'|].
  pose proof (Hrep c' ms m Hs (fun v Hv => eq_trans (Hm v Hv) (eq_sym (proj1 (fork_sees c l1 ms l2 c' child Hok Hf v Hv))))) as Hr1.
  unfold represents in *. cbn [mc_world mc_spaces] in *. change (l1 ++ (ms :: l2) ++ [child]) with (l1 ++ ms :: l2 ++ [child]).
  change (l1 ++ ms :: l2 ++ [child]) with (l1 ++ (ms :: l2) ++ [child]). rewrite app_assoc. apply Forall2_app; [exact Hr1|].
  constructor; [|constructor]. intros v Hv. destruct (fork_sees c l1 ms l2 c' child Hok Hf v Hv) as [_ ->]. by apply Hm.
Qed.

(** A new address space shows nothing; the others see what they saw. *)
Lemma new_simulated c spaces aslr ok c' ms A :
  machine_ok (mkMachine c spaces) -> represents (mkMachine c spaces) A ->
  has_room c (all_tables spaces ++ all_data spaces) 5 ->
  ('(ms, c) ← new_bare c aslr; map_user_trampoline_pages k c ms) = Some (ok, c', ms) ->
  machine_ok (mkMachine c' (spaces ++ [ms])) /\ represents (mkMachine c' (spaces ++ [ms])) (A ++ [fun _ => None]).
Proof.
  intros [W [Hk Hall]] Hr Hroom Heq. cbn [mc_world mc_spaces] in *.
  pose proof (user_space_bare k c _ _ aslr W ltac:(intros q Hq; apply elem_of_app; by right) Hk Hroom) as Hb. rewrite Heq in Hb.
  destruct Hb as (_ & Hms & HT & _ & Hev & Hk' & Hmap & Hmem & Hno).
  assert (space_frames ms = []) as Hfr by (rewrite Hms; done).
  assert (all_tables (spaces ++ [ms]) ≡ₚ tables ms ++ all_tables spaces) as HE
    by (unfold all_tables; rewrite map_app, concat_app; cbn [map concat]; solve_Permutation).
  assert (all_data (spaces ++ [ms]) = all_data spaces) as HF
    by (unfold all_data; rewrite map_app, concat_app; cbn [map concat]; by rewrite Hfr, !app_nil_r).
  assert (forall x, x ∈ spaces -> space_in c' (tables ms ++ all_tables spaces) (all_data spaces) x /\ isolated c' (all_data spaces) x /\
    (forall v, user_page v -> sees c' x v = sees c x v)) as Hby.
  { intros x Hx. destruct (Hall x Hx) as [Hsp Hiso]. pose proof (wk_nodup _ _ _ (ti_world _ _ _ _ _ _ HT)) as Hnd.
    destruct (proj1 (NoDup_app _ _) Hnd) as (_ & Hd & _).
    assert (forall q, q ∈ all_tables spaces -> mem c' q = mem c q) as HmE by (intros q Hq; apply Hmem; intros Hn; by apply (Hd q)).
    apply (bystander c (all_tables spaces) (all_data spaces)); try done.
    - apply HT.
    - intros q Hq. by apply HmE, (ti_sub _ _ _ _ _ _ (si_table _ _ _ _ _ Hsp)).
    - intros q Hq. apply elem_of_app. by right.
    - intros q Hq. apply (si_frames _ _ _ _ _ Hsp) in Hq. split; [done|]. apply Hmem. intros Hn.
      apply (data_not_table _ _ _ q (ti_world _ _ _ _ _ _ HT) Hq). apply elem_of_app. by left.
    - intros q Hq <-. by apply count_evolves. }
  assert (space_in c' (tables ms ++ all_tables spaces) (all_data spaces) ms) as Hsp.
  { assert (ms_areas ms = []) as Ha by (rewrite Hms; done). split; [done|done| |by rewrite Hfr; intros q ?%elem_of_nil].
    split; rewrite ?Ha; [constructor|constructor|by intros a v p ?%elem_of_nil|]. intros v Hv Hval. by rewrite Hno in Hval. }
  assert (isolated c' (all_data spaces) ms) as Hiso by (intros v Hv Hpw%private_valid; by rewrite Hno in Hpw).
  split; [split; [|split]|].
  - cbn [mc_world mc_spaces]. rewrite HF. eapply world_perm; [symmetry; exact HE|done|apply HT].
  - done.
  - cbn [mc_world mc_spaces]. rewrite HF. intros x [Hx| ->%list_elem_of_singleton]%elem_of_app.
    + destruct (Hby x Hx) as (H1 & H2 & _). split; [|done]. eapply space_in_perms; [symmetry; exact HE|done|exact H1].
    + split; [|done]. eapply space_in_perms; [symmetry; exact HE|done|exact Hsp].
  - unfold represents in *. cbn [mc_world mc_spaces] in *. apply Forall2_app.
    + eapply represents_later; [|exact Hr]. intros x v Hx. by apply Hby.
    + constructor; [|constructor]. intros v Hv. symmetry. apply sees_unmapped. by apply Hno.
Qed.

(** Each step of the machine is one of the specification. *)
Lemma step_simulated s ev s' A :
  machine_ok s -> represents s A -> step s ev s' ->
  exists A', spec_step A ev A' /\ machine_ok s' /\ represents s' A'.
Proof.
  intros Hok Hr Hstep. destruct Hstep as [c spaces i ms vpn off byte Hi Hu Hoff Hpw p|c spaces i ms va ok c' ms' Hi Hu Hroom Hres|
    c spaces i ms aslr c' child Hi Hroom Hfork|c spaces i ms start_va end_va perm ok c' ms' Hi Hlt Hu Hroom Heq|
    c spaces i ms start_va end_va perm ok c' ms' Hi Hu Heq|c spaces i ms va access r c' ms' Hi Hroom Hreg Heq|
    c spaces i ms start_va end_va c' ms' Hi Huser Heq|c spaces aslr ok c' ms Hroom Heq|c spaces i ms ms' Hi H1 H2 H3];
    [..|eexists; split; [constructor|by eapply new_simulated]|];
    destruct (update_split _ _ _ Hi) as (l1 & l2 & -> & Hup & <-); rewrite ?Hup.
  - by apply store_simulated.
  - exists A. split; [constructor|]. by eapply cow_simulated.
  - by eapply fork_simulated.
  - by eapply map_simulated.
  - exists A. split; [constructor|]. destruct (own_space _ _ _ _ Hok) as [Hk Hsp].
    destruct (insert_lazy_ok k c _ _ ms start_va end_va perm Hk Hsp Hu) as (r & ms1 & Heq' & Hs & _). rewrite Heq in Heq'. injection Heq' as <- <- <-.
    eapply steps_unseen; [done|exact Hs|done|by intros v _ ?%elem_of_nil].
  - by eapply fault_simulated.
  - by eapply unmap_simulated.
  - exists A. split; [constructor|]. destruct (own_space _ _ _ _ Hok) as [Hk Hsp]. pose proof (si_space _ _ _ _ _ Hsp) as [Sa Ss _ _].
    eapply steps_unseen; [done|apply (retile_sstep k c _ _ ms ms' Hk Hsp H1 H3); rewrite H2; done|done|by intros v _ ?%elem_of_nil].
Qed.

(** A machine shows some memories. *)
Lemma represents_some s : exists A, represents s A.
Proof.
  exists (map (fun ms v => sees (mc_world s) ms v) (mc_spaces s)). unfold represents. generalize (mc_spaces s) as l.
  induction l; constructor; auto.
Qed.

Lemma run_ok s evs s' : machine_ok s -> run s evs s' -> machine_ok s'.
Proof.
  intros Hok Hrun. induction Hrun as [|s ev s1 evs s2 Hstep _ IH]; [done|]. apply IH.
  destruct (represents_some s) as [A HA]. by destruct (step_simulated _ _ _ _ Hok HA Hstep) as (_ & _ & Hok1 & _).
Qed.

(** C8: Frames keep their kind: in every state a machine reaches, no page of a program is a
    page table of anyone, and a page a program can store to privately has a frame that
    no other page, of this program or of another one, is mapped to. *)
Theorem frames_typed s evs s' i ms v (p := pte_ppn (view (mc_world s') ms v)) :
  machine_ok s -> run s evs s' -> mc_spaces s' !! i = Some ms -> user_page v -> pte_is_valid (view (mc_world s') ms v) = true ->
  p ∉ all_tables (mc_spaces s') /\
  (private_writable (view (mc_world s') ms v) = true ->
   forall j ms2 w, mc_spaces s' !! j = Some ms2 -> user_page w -> pte_is_valid (view (mc_world s') ms2 w) = true ->
     pte_ppn (view (mc_world s') ms2 w) = p -> i = j /\ v = w).
Proof.
  intros Hok Hrun Hi Hv Hval. pose proof (run_ok _ _ _ Hok Hrun) as Hok'. clear Hok Hrun. destruct s' as [c spaces]. cbn [mc_world mc_spaces] in *.
  destruct (update_split _ _ _ Hi) as (l1 & l2 & -> & _ & <-). destruct (own_space _ _ _ _ Hok') as [_ Hsp].
  pose proof (mapped_own _ _ _ _ _ _ Hsp Hv Hval) as Hp. fold p in Hp. pose proof Hok' as [W [_ Hall]]. cbn [mc_world mc_spaces] in *.
  split; [apply (data_not_table _ _ _ _ W); eapply space_in_all; [apply elem_of_app; right; left|done]|].
  intros Hpw j ms2 w Hj Hw Hvalw Heq. destruct (Hall ms ltac:(apply elem_of_app; right; left)) as [_ Hiso]. specialize (Hiso v Hv Hpw). fold p in Hiso.
  destruct (decide (j = length l1)) as [->|Hne].
  - rewrite list_lookup_middle in Hj by done. injection Hj as <-. split; [done|]. destruct (decide (v = w)) as [|Hvw]; [done|].
    pose proof (two_pages (mem c) ms v w (si_space _ _ _ _ _ Hsp) Hv Hw Hvw Hval Hvalw (eq_sym Heq)) as H2. cbv beta zeta in H2. fold p in H2.
    rewrite (count_perm _ _ _ (trackers_perm c _ _ (all_data_split l1 ms l2))), count_trackers_app in Hiso. unfold space_frames in Hiso.
    rewrite count_app in Hiso. pose proof (Tracker.count_nonneg (backing_frames ms) p). pose proof (Tracker.count_nonneg (trackers c (all_data (l1 ++ l2))) p). lia.
  - exfalso. assert (ms2 ∈ l1 ++ l2) as Hin.
    { apply elem_of_app. destruct (decide (j < length l1)%nat) as [Hlt|Hge].
      - rewrite lookup_app_l in Hj by done. left. by eapply list_elem_of_lookup_2.
      - rewrite lookup_app_r in Hj by lia. destruct (j - length l1)%nat eqn:Ej; [lia|]. right. by eapply list_elem_of_lookup_2. }
    apply (sole_owner c l1 ms l2 ms2 p Hiso Hp Hin). rewrite <- Heq. eapply mapped_own; [|done|done].
    by destruct (Hall ms2 ltac:(set_solver)).
Qed.

(** C1: Whatever a machine with address spaces does, each program sees a memory of its
    own: a store of one shows in no other, a child starts with what its parent had,
    memory that is mapped or faulted in is zero, and memory that is unmapped is
    gone.  Copy-on-write, sharing of frames and reclaim cannot be seen. *)
Theorem private_memories s evs s' A :
  machine_ok s -> represents s A -> run s evs s' ->
  exists A', spec_run A evs A' /\ machine_ok s' /\ represents s' A'.
Proof.
  intros Hok Hr Hrun. revert A Hok Hr. induction Hrun as [s|s ev s1 evs s2 Hstep Hrun IH]; intros A Hok Hr.
  { exists A. by split; [constructor|]. }
  destruct (step_simulated _ _ _ _ Hok Hr Hstep) as (A1 & HA1 & Hok1 & Hr1).
  destruct (IH A1 Hok1 Hr1) as (A2 & HA2 & Hok2 & Hr2). exists A2. split; [by econstructor|done].
Qed.

End Isolation.
