(* ===== verification/SpaceExamples.v ===== *)
(** * Address spaces on the small machine

    The machine of [MmExamples] with a kernel page table, and a program on it that
    maps a page, writes to it, forks, and writes again: the theorems about address
    spaces evaluated there. *)

From S2P Require Import Prelude.
From S2P Require Import BTree.
From S2P Require Import Address.
From S2P Require Import FrameAlloc.
From S2P Require Import PageCache.
From S2P Require Import MmExamples.
From S2P Require Import VmRegion.
From S2P Require Import VmRegionSet.
From S2P Require Import PageTable.
From S2P Require Import MapArea.
From S2P Require Import World.
From S2P Require Import SpaceTable.
From S2P Require Import Backing.
From S2P Require Import MemorySet.
From S2P Require Import SpaceInv.
From S2P Require Import NewSpace.
From S2P Require Import FileMmap.
From S2P Require Import ForkCow.
From S2P Require Import ForkSteps.
From S2P Require Import ForkProof.
From S2P Require Import Fault.
From S2P Require Import CowFault.
From S2P Require Import SpaceMap.
From S2P Require Import SpaceUnmap.
From S2P Require Import DemandPage.
From S2P Require Import Isolation.

Lemma forallb_elem {A} (f : A -> bool) l x : forallb f l = true -> x ∈ l -> f x = true.
Proof. intros Hall Hx%list_elem_of_In. by apply (proj1 (forallb_forall f l) Hall). Qed.

Definition is_some {A} (o : option A) : bool := match o with Some _ => true | None => false end.
Lemma some_value {A} (o : option A) d : is_some o = true -> o = Some (unwrap_or o d).
Proof. by destruct o. Qed.

(** ** The kernel's table *)

Definition table_0 : PageTable * PageCache := unwrap_or (pt_new empty_cache) (mkPageTable 0 [], empty_cache).
Definition table_1 : bool * PageCache * PageTable :=
  unwrap_or (ensure_root_entry table_0.2 table_0.1 2) (false, empty_cache, table_0.1).
Definition table_2 : bool * PageCache * PageTable :=
  unwrap_or (ensure_root_entry table_1.1.2 table_1.2 510) (false, empty_cache, table_0.1).

Definition small_kernel : Kernel := mkKernel table_2.2 2147483648 2151677952 2147483648.
Definition booted_machine : Machine := mkMachine table_2.1.2 [].

Lemma empty_world : world_ok empty_cache [] [].
Proof.
  split; [apply empty_cache_owns|intros p; reflexivity|constructor|by intros q ?%elem_of_nil].
Qed.

Abbreviation alone := (fun _ : Z => False).

(** A table that owns all table frames, after one more root entry. *)
Lemma next_root c E pt i c' pt' :
  table_in alone [] c E [] pt -> E ≡ₚ pt_frames pt -> has_room c E 1 -> is_index i ->
  ensure_root_entry c pt i = Some (true, c', pt') ->
  exists E', table_in alone [] c' E' [] pt' /\ E' ≡ₚ pt_frames pt' /\ pt_root_ppn pt' = pt_root_ppn pt.
Proof.
  intros T HE Hr Hi Heq. pose proof (ensure_root_tstep alone [] c E [] pt i T ltac:(by rewrite app_nil_r) Hi ltac:(by intros [])) as H.
  rewrite Heq in H. destruct H as (new & Ht & _). exists (new ++ E). split_and!; [apply Ht| |apply Ht].
  rewrite (ts_frames _ _ _ _ _ _ _ _ _ Ht), HE. apply Permutation_app_comm.
Qed.

Lemma table_0_in : table_in alone [] table_0.2 (pt_frames table_0.1) [] table_0.1.
Proof.
  pose proof (new_table_in alone [] empty_cache [] [] empty_world (fun q Hq => Hq) ltac:(vm_compute; reflexivity)) as H0.
  rewrite (some_value (pt_new empty_cache) (mkPageTable 0 [], empty_cache)) in H0 by (vm_compute; reflexivity). fold table_0 in H0.
  destruct table_0 as [pt0 c0]. destruct H0 as (f & -> & T0 & _). exact T0.
Qed.

Lemma table_1_eq : ensure_root_entry table_0.2 table_0.1 2 = Some (true, table_1.1.2, table_1.2).
Proof.
  rewrite (some_value (ensure_root_entry table_0.2 table_0.1 2) (false, empty_cache, table_0.1)) by (vm_compute; reflexivity).
  fold table_1. assert (table_1.1.1 = true) as H by (vm_compute; reflexivity). destruct table_1 as [[b c1] pt1]. cbn in H. by rewrite H.
Qed.

Lemma table_2_eq : ensure_root_entry table_1.1.2 table_1.2 510 = Some (true, table_2.1.2, table_2.2).
Proof.
  rewrite (some_value (ensure_root_entry table_1.1.2 table_1.2 510) (false, empty_cache, table_0.1)) by (vm_compute; reflexivity).
  fold table_2. assert (table_2.1.1 = true) as H by (vm_compute; reflexivity). destruct table_2 as [[b c1] pt1]. cbn in H. by rewrite H.
Qed.

Lemma kernel_table_in : table_in alone [] table_2.1.2 (pt_frames table_2.2) [] table_2.2.
Proof.
  destruct (next_root _ _ _ 2 _ _ table_0_in ltac:(done) ltac:(vm_compute; reflexivity) ltac:(done) table_1_eq) as (E1 & T1 & HE1 & _).
  assert (has_room table_1.1.2 E1 1) as Hr by (unfold has_room, trackers; rewrite length_app, HE1; vm_compute; reflexivity).
  destruct (next_root _ _ _ 510 _ _ T1 HE1 Hr ltac:(done) table_2_eq) as (E2 & T2 & HE2 & _).
  destruct T2 as [W T S D]. split; [by eapply world_perm|done|intros q Hq; rewrite <- HE2; auto|done].
Qed.

Lemma small_kernel_ok : kernel_ok small_kernel (mem table_2.1.2).
Proof.
  split.
  - pose proof (to_tree _ _ _ _ (ti_table _ _ _ _ _ _ kernel_table_in)) as Ht. by rewrite app_nil_r in Ht.
  - assert (forallb (fun i => (0 <=? i) && (i <? 511) && (pte_at (mem table_2.1.2) (pt_root_ppn table_2.2) i <? 2 ^ 54)
      && (0 <=? pte_at (mem table_2.1.2) (pt_root_ppn table_2.2) i)
      && pte_is_valid (pte_at (mem table_2.1.2) (pt_root_ppn table_2.2) i)) (kernel_roots small_kernel) = true) as Hall by (vm_compute; reflexivity).
    intros i Hi%list_elem_of_In. rewrite forallb_forall in Hall. specialize (Hall i Hi). rewrite !andb_true_iff in Hall.
    change (kn_page_table small_kernel) with table_2.2. unfold is_pte. destruct Hall as [[[[H1 H2] H3] H4] H5]. split_and!; try done; lia.
  - exists 524288. by vm_compute.
Qed.

Lemma booted_ok : machine_ok small_kernel [] booted_machine.
Proof.
  split; [apply kernel_table_in|]. split; [apply small_kernel_ok|]. by intros ms ?%elem_of_nil.
Qed.

(** ** A program *)

Definition read_write_user : Z := Z.lor (Z.lor MapPermission.R MapPermission.W) MapPermission.U.
Definition no_space : MemorySet :=
  mkMemorySet (mkPageTable 0 []) [] VmaSet.new [] [] 1 0 0 DEFAULT_MMAP_BASE 0 0 [] false Ids.Recycle.new false.
Definition no_file : Z -> Z -> Z -> option (list Z) := fun _ _ _ => None.
Definition no_limit : Z -> bool := fun _ => true.

Abbreviation cache_of s := (mc_world s).
Definition space (s : Machine) (i : nat) : MemorySet := nth i (mc_spaces s) no_space.

(** Its first address space, a region of one page at 65536, a lazy area for it, the
    page, a byte in it, the child, and another byte after the fork. *)
Definition run_new : bool * PageCache * MemorySet :=
  unwrap_or ('(ms, c) ← new_bare (cache_of booted_machine) 0; map_user_trampoline_pages small_kernel c ms)
    (false, empty_cache, no_space).
Definition s_new : Machine := mkMachine run_new.1.2 [run_new.2].
Definition with_region : MemorySet :=
  run_new.2 {{ ms_vm_regions := [(65536, VmaSpec.anon_area 65536 4096 3)] }}.
Definition s_region : Machine := mkMachine run_new.1.2 [with_region].
Definition run_reserve : bool * PageCache * MemorySet :=
  unwrap_or (try_insert_lazy_area_raw small_kernel run_new.1.2 with_region 65536 69632 read_write_user)
    (false, empty_cache, no_space).
Definition s_reserve : Machine := mkMachine run_reserve.1.2 [run_reserve.2].
Definition run_fault : LazyFaultResult * PageCache * MemorySet :=
  unwrap_or (resolve_lazy_fault no_file no_limit run_reserve.1.2 run_reserve.2 65536 MapPermission.W)
    (Invalid, empty_cache, no_space).
Definition s_fault : Machine := mkMachine run_fault.1.2 [run_fault.2].
Definition store (s : Machine) (i : nat) (vpn off byte : Z) : Machine :=
  let p := pte_ppn (pt_view (mem (mc_world s)) (pt_root_ppn (ms_page_table (space s i))) vpn) in
  mkMachine (with_mem (mc_world s) (Tracker.set_page (mem (mc_world s)) p (<[Z.to_nat off := byte]> (mem (mc_world s) p)))) (mc_spaces s).
Definition s_store : Machine := store s_fault 0 16 0 7.
Definition run_fork : MemorySet * PageCache :=
  unwrap_or (from_existed_user_cow small_kernel (cache_of s_store) (space s_store 0) 0) (no_space, empty_cache).
Definition s_fork : Machine := mkMachine run_fork.2 (mc_spaces s_store ++ [run_fork.1]).
Definition run_cow : bool * PageCache * MemorySet :=
  unwrap_or (resolve_cow_fault (cache_of s_fork) (space s_fork 0) 65536) (false, empty_cache, no_space).
Definition s_cow : Machine := mkMachine run_cow.1.2 (<[0%nat := run_cow.2]> (mc_spaces s_fork)).
Definition s_end : Machine := store s_cow 0 16 0 9.

Definition byte_seen (s : Machine) (i : nat) (vpn : Z) : option Z :=
  page ← sees (cache_of s) (space s i) vpn; head page.

Abbreviation step_of := (step small_kernel [] no_file no_limit).

(** What a page number of the user part is. *)
Lemma page_16 : user_page (kernel_index small_kernel) 16.
Proof. split; [split; [done|]|done]. intros Hi. assert (bool_decide (kernel_index small_kernel (i0 16)) = false) as H by (vm_compute; reflexivity). by apply bool_decide_eq_false in H. Qed.

Lemma pages_65536 v : v ∈ va_pages 65536 69632 -> user_page (kernel_index small_kernel) v.
Proof. intros Hv. assert (va_pages 65536 69632 = [16]) as H by (vm_compute; reflexivity). rewrite H in Hv. apply list_elem_of_singleton in Hv as ->. apply page_16. Qed.

Lemma pair_eq {A B} (o : option (A * B)) d : is_some o = true -> o = Some ((unwrap_or o d).1, (unwrap_or o d).2).
Proof. by destruct o as [[a b]|]. Qed.
Lemma triple_eq {A B C} (o : option (A * B * C)) d : is_some o = true -> o = Some ((unwrap_or o d).1.1, (unwrap_or o d).1.2, (unwrap_or o d).2).
Proof. by destruct o as [[[a b] c]|]. Qed.

Lemma step_born : step_of booted_machine (ENew 0) s_new.
Proof.
  eapply (step_new small_kernel [] no_file no_limit (cache_of booted_machine) [] 0 run_new.1.1); [vm_compute; reflexivity|].
  unfold run_new. apply (triple_eq _ (false, empty_cache, no_space)). vm_compute. reflexivity.
Qed.

Lemma step_regions : step_of s_new (EMeta 0) s_region.
Proof.
  unfold s_new, s_region, with_region. destruct run_new as [[b c] ms]. cbn [fst snd].
  by apply (step_meta small_kernel [] no_file no_limit c [ms] 0 ms).
Qed.

Lemma step_reserved : step_of s_region (EReserve 0 65536 69632 read_write_user) s_reserve.
Proof.
  apply (step_reserve small_kernel [] no_file no_limit run_new.1.2 [with_region] 0 with_region 65536 69632 read_write_user run_reserve.1.1);
    [reflexivity|apply pages_65536|]. unfold run_reserve. apply (triple_eq _ (false, empty_cache, no_space)). vm_compute. reflexivity.
Qed.

Lemma region_private r : vm_region_containing_addr run_reserve.2 65536 = Some r ->
  r_shared r = false /\ r_file_backed r = false /\ r_backing_id r = 0.
Proof.
  assert (vm_region_containing_addr run_reserve.2 65536 = Some (VmaSpec.anon_area 65536 4096 3)) as H by (vm_compute; reflexivity).
  rewrite H. intros [= <-]. exact (conj eq_refl (conj eq_refl eq_refl)).
Qed.

Lemma step_faulted : step_of s_reserve (EFault 0 65536 MapPermission.W) s_fault.
Proof.
  apply (step_fault small_kernel [] no_file no_limit run_reserve.1.2 [run_reserve.2] 0 run_reserve.2 65536 MapPermission.W run_fault.1.1);
    [reflexivity|vm_compute; reflexivity| |].
  - exact region_private.
  - unfold run_fault. apply (triple_eq _ (Invalid, empty_cache, no_space)). vm_compute. reflexivity.
Qed.

Lemma space_at s i : is_Some (mc_spaces s !! i) -> mc_spaces s !! i = Some (space s i).
Proof. intros [ms Hms]. rewrite Hms. unfold space. by erewrite nth_lookup_Some by exact Hms. Qed.

Lemma step_stored s i vpn off byte :
  is_Some (mc_spaces s !! i) -> user_page (kernel_index small_kernel) vpn -> 0 <= off < PAGE_SIZE ->
  private_writable (pt_view (mem (cache_of s)) (pt_root_ppn (ms_page_table (space s i))) vpn) = true ->
  step_of s (EStore i vpn off byte) (store s i vpn off byte).
Proof.
  intros Hs%space_at Hu Hoff Hpw. unfold store. revert Hs Hpw. generalize (space s i) as ms. intros ms Hs Hpw. destruct s as [c spaces].
  by apply (step_store small_kernel [] no_file no_limit c spaces i ms vpn off byte).
Qed.

Lemma step_forks s i aslr child c' :
  is_Some (mc_spaces s !! i) ->
  has_room (cache_of s) (all_tables small_kernel (mc_spaces s) ++ all_data [] (mc_spaces s)) (fork_room (space s i)) ->
  from_existed_user_cow small_kernel (cache_of s) (space s i) aslr = Some (child, c') ->
  step_of s (EFork i aslr) (mkMachine c' (mc_spaces s ++ [child])).
Proof.
  intros Hs%space_at. generalize dependent (space s i). intros ms Hs Hroom Heq. destruct s as [c spaces].
  by apply (step_fork small_kernel [] no_file no_limit c spaces i ms aslr c' child).
Qed.

Lemma step_copies s i va ok c' ms' :
  is_Some (mc_spaces s !! i) -> user_page (kernel_index small_kernel) (floor (virt_addr va)) ->
  has_room (cache_of s) (all_tables small_kernel (mc_spaces s) ++ all_data [] (mc_spaces s)) 1 ->
  resolve_cow_fault (cache_of s) (space s i) va = Some (ok, c', ms') ->
  step_of s (ECow i va) (mkMachine c' (<[i := ms']> (mc_spaces s))).
Proof.
  intros Hs%space_at. generalize dependent (space s i). intros ms Hs Hu Hroom Heq. destruct s as [c spaces].
  by apply (step_cow small_kernel [] no_file no_limit c spaces i ms va ok c' ms').
Qed.

Lemma run_fork_eq : from_existed_user_cow small_kernel (cache_of s_store) (space s_store 0) 0 = Some (run_fork.1, run_fork.2).
Proof. unfold run_fork. apply (pair_eq _ (no_space, empty_cache)). vm_compute. reflexivity. Qed.

Lemma run_cow_eq : resolve_cow_fault (cache_of s_fork) (space s_fork 0) 65536 = Some (run_cow.1.1, run_cow.1.2, run_cow.2).
Proof. unfold run_cow. apply (triple_eq _ (false, empty_cache, no_space)). vm_compute. reflexivity. Qed.

Definition first_trace : list Event :=
  [ENew 0; EMeta 0; EReserve 0 65536 69632 read_write_user; EFault 0 65536 MapPermission.W; EStore 0 16 0 7].
Definition trace : list Event := first_trace ++ [EFork 0 0; ECow 0 65536; EStore 0 16 0 9].
Abbreviation run_of := (run small_kernel [] no_file no_limit).

Lemma run_app s evs s1 evs2 s2 : run_of s evs s1 -> run_of s1 evs2 s2 -> run_of s (evs ++ evs2) s2.
Proof. intros H1 H2. induction H1 as [|s ev s' evs s1 Hs _ IH]; [exact H2|]. exact (run_cons _ _ _ _ _ _ _ _ _ Hs (IH H2)). Qed.

Lemma run_new_ok : run_of booted_machine [ENew 0] s_new.
Proof. eapply run_cons; [apply step_born|apply run_nil]. Qed.
Lemma run_reserve_ok : run_of booted_machine [ENew 0; EMeta 0; EReserve 0 65536 69632 read_write_user] s_reserve.
Proof. eapply run_cons; [apply step_born|]. eapply run_cons; [apply step_regions|]. eapply run_cons; [apply step_reserved|apply run_nil]. Qed.
Lemma run_store_ok : run_of booted_machine first_trace s_store.
Proof.
  apply (run_app _ [ENew 0; EMeta 0; EReserve 0 65536 69632 read_write_user] _ [EFault 0 65536 MapPermission.W; EStore 0 16 0 7] _ run_reserve_ok).
  eapply run_cons; [apply step_faulted|]. apply (run_cons _ _ _ _ _ _ s_store); [|apply run_nil].
  apply (step_stored s_fault); [by eexists|apply page_16|done|vm_compute; reflexivity].
Qed.
Lemma run_fork_ok : run_of booted_machine (first_trace ++ [EFork 0 0]) s_fork.
Proof.
  apply (run_app _ _ _ _ _ run_store_ok), (run_cons _ _ _ _ _ _ s_fork); [|apply run_nil].
  apply (step_forks s_store); [by eexists|vm_compute; reflexivity|apply run_fork_eq].
Qed.
Lemma trace_runs : run_of booted_machine trace s_end.
Proof.
  apply (run_app _ (first_trace ++ [EFork 0 0]) _ [ECow 0 65536; EStore 0 16 0 9] _ run_fork_ok).
  apply (run_cons _ _ _ _ _ _ s_cow).
  { apply (step_copies s_fork 0 65536 run_cow.1.1); [by eexists|apply page_16|vm_compute; reflexivity|apply run_cow_eq]. }
  apply (run_cons _ _ _ _ _ _ s_end); [|apply run_nil].
  apply (step_stored s_cow); [by eexists|apply page_16|done|vm_compute; reflexivity].
Qed.

(** After the fork the parent writes 9, and the child still sees 7. *)
Lemma private_memories_witness :
  exists A, spec_run [] trace A /\ represents small_kernel s_end A /\ byte_seen s_end 0 16 = Some 9 /\ byte_seen s_end 1 16 = Some 7.
Proof.
  destruct (private_memories small_kernel [] no_file no_limit booted_machine trace s_end [] booted_ok (List.Forall2_nil _) trace_runs)
    as (A & H1 & _ & H2). exists A. split_and!; [exact H1|exact H2|vm_compute; reflexivity|vm_compute; reflexivity].
Defined.

(** The only address space of a machine that was reached. *)
Lemma alone_in evs c ms : run_of booted_machine evs (mkMachine c [ms]) ->
  kernel_ok small_kernel (mem c) /\ space_in small_kernel c (all_tables small_kernel [ms]) (space_frames ms ++ []) ms.
Proof. intros Hr. exact (own_space small_kernel [] c [] ms [] (run_ok _ _ _ _ _ _ _ booted_ok Hr)). Qed.

Lemma frames_typed_witness :
  pte_ppn (pt_view (mem (cache_of s_store)) (pt_root_ppn (ms_page_table run_fault.2)) 16) ∉ all_tables small_kernel [run_fault.2].
Proof.
  apply (frames_typed small_kernel [] no_file no_limit booted_machine first_trace s_store 0 run_fault.2 16 booted_ok run_store_ok eq_refl page_16).
  vm_compute. reflexivity.
Defined.





