(* ===== verification/VmaOps.v ===== *)
(** * Operations on user mappings

    The operations of [mm/memory_set.rs] behind [mmap], [munmap], [mprotect],
    [mremap] and [brk]: they change the set of virtual memory areas, the mapped
    areas and the page table together, and undo their work when a step fails
    ([mm/memory_set/rollback.rs]). *)

From S2P Require Import Prelude.
From S2P Require Import BTree.
From S2P Require Import Ids.
From S2P Require Import Address.
From S2P Require Import Ranges.
From S2P Require Import FrameAlloc.
From S2P Require Import PageCache.
From S2P Require Import VmRegion.
From S2P Require Import VmRegionSet.
From S2P Require Import PageTable.
From S2P Require Import MapArea.
From S2P Require Import Backing.
From S2P Require Import MemorySet.
From S2P Require Import FileMmap.
Import Region VmaSet.

(** ** Unmapping *)

Definition trim_vm_regions (c : PageCache) (ms : MemorySet) (start end__ : Z) : option (PageCache * MemorySet) :=
  prune_unused_mmap_backings c (ms {{ ms_vm_regions := trim_range (ms_vm_regions ms) start end__ }}).

Definition trim_heap_regions (ms : MemorySet) (start end__ : Z) : MemorySet :=
  ms {{ ms_vm_regions := trim_heap_range (ms_vm_regions ms) start end__ }}.

Definition unmap_heap_vma_range (c : PageCache) (ms : MemorySet) (start_va end_va : Z)
    : option (PageCache * MemorySet) :=
  '(c, ms) ← unmap_user_range c ms start_va end_va;
  Some (c, trim_locked_ranges (trim_heap_regions ms start_va end_va) start_va end_va).

Definition unmap_user_vma_range (c : PageCache) (ms : MemorySet) (start_va end_va : Z)
    : option (PageCache * MemorySet) :=
  '(c, ms) ← unmap_user_range c ms start_va end_va;
  '(c, ms) ← trim_vm_regions c ms start_va end_va;
  Some (c, trim_locked_ranges ms start_va end_va).

(** ** Snapshots *)

Record UserRangeSnapshot := mkSnapshot {
  sn_start : Z;
  sn_end : Z;
  sn_areas : list MapArea;
  sn_vm_regions : list VmRegion;
  sn_locked_ranges : ranges;
  sn_ptes : list (Z * Z * Z);
  sn_backing_entries : list (Z * MmapBacking);
  sn_next_mmap_backing_id : Z
}.

(** [area.clone().split_around(..)]: all trackers of the area are cloned, those
    of the parts left over are dropped again. *)
Definition snapshot_area (c : PageCache) (a : MapArea) (ov_start ov_end : Z) : option (PageCache * MapArea) :=
  let c := foldl clone_frame c (bt_values (ma_frames a)) in
  '(lo, mid, hi) ← Area.split_around a ov_start ov_end;
  c ← drop_frames c (concat (map (fun a => bt_values (ma_frames a)) (opt_list lo ++ opt_list hi)));
  Some (c, mid).

Definition snapshot_ptes (c : PageCache) (pt : PageTable) (vpns : list Z) : list (Z * Z * Z) :=
  omap (fun vpn =>
    pte ← translate (mem c) pt vpn;
    if pte_is_valid pte then Some (vpn, pte_ppn pte, pte_flags pte) else None) vpns.

Fixpoint snapshot_areas (c : PageCache) (pt : PageTable) (start_vpn end_vpn : Z) (areas : list MapArea)
    : option (PageCache * list MapArea * list (Z * Z * Z)) :=
  match areas with
  | [] => Some (c, [], [])
  | a :: areas =>
      if negb (Area.contains_perm a MapPermission.U)
         || negb (Area.overlaps_vpn_range a start_vpn end_vpn)
      then snapshot_areas c pt start_vpn end_vpn areas
      else
        let ov_start := Z.max start_vpn (Area.start_vpn a) in
        let ov_end := Z.min end_vpn (Area.end_vpn a) in
        if ov_end <=? ov_start then snapshot_areas c pt start_vpn end_vpn areas
        else
          let ptes := snapshot_ptes c pt (Area.pages (mkRange ov_start ov_end)) in
          '(c, mid) ← snapshot_area c a ov_start ov_end;
          '(c, mids, rest) ← snapshot_areas c pt start_vpn end_vpn areas;
          Some (c, mid :: mids, ptes ++ rest)
  end.

Definition snapshot_backing (ms : MemorySet) (st : PageCache * list (Z * MmapBacking)) (region : VmRegion)
    : PageCache * list (Z * MmapBacking) :=
  let '(c, entries) := st in
  let id := r_backing_id region in
  if negb (r_file_backed region || negb (r_memfd_id region =? 0)) || (id =? 0)
     || existsb (fun e => e.1 =? id) entries then st
  else
    match bt_get (ms_mmap_backings ms) id with
    | Some b => (Backing.clone c b, vec_push entries (id, b))
    | None => st
    end.

Definition snapshot_user_range (c : PageCache) (ms : MemorySet) (start end__ : Z)
    : option (PageCache * UserRangeSnapshot) :=
  '(c, areas, ptes) ← snapshot_areas c (ms_page_table ms) (floor (virt_addr start)) (ceil (virt_addr end__))
                        (ms_areas ms);
  let vm_regions := snapshot_range (ms_vm_regions ms) start end__ in
  let (c, backing_entries) := foldl (snapshot_backing ms) (c, []) vm_regions in
  let locked_ranges := omap (fun r =>
    let ov_start := Z.max start r.1 in
    let ov_end := Z.min end__ r.2 in
    if ov_start <? ov_end then Some (ov_start, ov_end) else None) (ms_mlocked_ranges ms) in
  Some (c, mkSnapshot start end__ areas vm_regions locked_ranges ptes backing_entries
             (ms_next_mmap_backing_id ms)).

(** [mmap_backings.insert(id, backing)]: a backing that is replaced drops its
    trackers. *)
Definition restore_backing (st : PageCache * MemorySet) (e : Z * MmapBacking) : option (PageCache * MemorySet) :=
  let '(c, ms) := st in
  c ← match bt_get (ms_mmap_backings ms) e.1 with
      | Some old => drop_frames c (Backing.frames old)
      | None => Some c
      end;
  Some (c, set_backing ms e.1 e.2).

Definition restore_user_range (c : PageCache) (ms : MemorySet) (sn : UserRangeSnapshot)
    : option (PageCache * MemorySet) :=
  '(c, ms) ← unmap_user_vma_range c ms (virt_addr (sn_start sn)) (virt_addr (sn_end sn));
  let ms := ms {{ ms_areas := sort_map_areas (ms_areas ms ++ sn_areas sn) }} in
  '(c, pt) ← map_ptes c (ms_page_table ms) (sn_ptes sn);
  let ms := ms {{ ms_page_table := pt;
                  ms_vm_regions := foldl push_merged (ms_vm_regions ms) (sn_vm_regions sn) }} in
  '(c, ms) ← foldl_opt restore_backing (c, ms) (sn_backing_entries sn);
  let next_live := sat_add (foldl (fun acc e => Z.max acc e.1) 0 (ms_mmap_backings ms)) 1 in
  Some (c, ms {{ ms_mlocked_ranges := normalize_ranges (ms_mlocked_ranges ms ++ sn_locked_ranges sn);
                 ms_next_mmap_backing_id := Z.max (sn_next_mmap_backing_id sn) next_live }}).

(** A snapshot that is not restored drops what it holds. *)
Definition drop_snapshot (c : PageCache) (sn : UserRangeSnapshot) : option PageCache :=
  c ← drop_frames c (concat (map (fun a => bt_values (ma_frames a)) (sn_areas sn)));
  drop_frames c (concat (map (fun e => Backing.frames e.2) (sn_backing_entries sn))).

Fixpoint capture_ranges (c : PageCache) (ms : MemorySet) (rs : ranges)
    : option (PageCache * list UserRangeSnapshot) :=
  match rs with
  | [] => Some (c, [])
  | (start, end__) :: rs =>
      '(c, sn) ← snapshot_user_range c ms start end__;
      '(c, sns) ← capture_ranges c ms rs;
      Some (c, sn :: sns)
  end.

(** [UserRangeRollback::capture] and [restore] *)
Definition capture (c : PageCache) (ms : MemorySet) (rs : ranges) : option (PageCache * list UserRangeSnapshot) :=
  capture_ranges c ms (normalize_ranges (List.filter (fun r => r.1 <? r.2) rs)).
Definition restore (c : PageCache) (ms : MemorySet) (sns : list UserRangeSnapshot)
    : option (PageCache * MemorySet) :=
  foldl_opt (fun st sn => restore_user_range st.1 st.2 sn) (c, ms) (rev sns).
Definition discard_rollback (c : PageCache) (sns : list UserRangeSnapshot) : option PageCache :=
  foldl_opt drop_snapshot c sns.

(** The two ends of an operation with a rollback: [return false] after
    [rollback.restore], and [return true]. *)
Definition rolled_back (c : PageCache) (ms : MemorySet) (sns : list UserRangeSnapshot)
    : option (bool * PageCache * MemorySet) :=
  '(c, ms) ← restore c ms sns; Some (false, c, ms).
Definition committed (c : PageCache) (ms : MemorySet) (sns : list UserRangeSnapshot)
    : option (bool * PageCache * MemorySet) :=
  c ← discard_rollback c sns; Some (true, c, ms).

(** ** Inserting *)

Definition push_vm_region (c : PageCache) (ms : MemorySet) (region : VmRegion) : option (PageCache * MemorySet) :=
  let ms := ms {{ ms_vm_regions := push_merged (ms_vm_regions ms) region }} in
  if r_backing_id region =? 0 then Some (c, ms) else refresh_mmap_backing_state c ms (r_backing_id region).

(** One area of an insertion, inside [[start, end)].  Frames that are not used
    are dropped. *)
Definition try_insert_vma_area_raw_in_region (k : Kernel) (c : PageCache) (ms : MemorySet)
    (area : VmaInsertArea) (region : VmRegion) (start end__ : Z) : option (bool * PageCache * MemorySet) :=
  let frames := match area with SharedFrames _ _ fs => fs | _ => [] end in
  match InsertArea.concrete_permission_from_region area region with
  | None => c ← drop_frames c frames; Some (false, c, ms)
  | Some perm =>
      let (area_start, area_end) := InsertArea.bounds area in
      if area_end <=? area_start then
        c ← drop_frames c frames; Some (bool_decide (frames = []), c, ms)
      else if (area_start <? start) || (end__ <? area_end) then
        c ← drop_frames c frames; Some (false, c, ms)
      else
        let s := virt_addr area_start in
        let e := virt_addr area_end in
        match area with
        | LazyArea _ _ => try_insert_lazy_area_raw k c ms s e perm
        | FramedArea _ _ => try_insert_framed_area_raw k c ms s e perm
        | SharedFrames _ _ fs => try_insert_shared_frames_area_raw k c ms s e perm fs
        end
  end.

Definition insert_area_frames (areas : list VmaInsertArea) : list Z :=
  concat (map (fun area => match area with SharedFrames _ _ fs => fs | _ => [] end) areas).

Fixpoint insert_areas (k : Kernel) (c : PageCache) (ms : MemorySet) (region : VmRegion) (start end__ : Z)
    (areas : list VmaInsertArea) : option (bool * PageCache * MemorySet) :=
  match areas with
  | [] => Some (true, c, ms)
  | area :: areas =>
      '(ok, c, ms) ← try_insert_vma_area_raw_in_region k c ms area region start end__;
      if ok : bool then insert_areas k c ms region start end__ areas
      else c ← drop_frames c (insert_area_frames areas); Some (false, c, ms)
  end.

Definition try_insert_user_vma_raw (k : Kernel) (c : PageCache) (ms : MemorySet) (region : VmRegion)
    (areas : list VmaInsertArea) (lock_range : bool) (backing_file : option Z)
    : option (bool * PageCache * MemorySet) :=
  let start := r_start region in
  let end__ := end_ region in
  '(ok, c, ms) ← insert_areas k c ms region start end__ areas;
  if negb ok then Some (false, c, ms)
  else
    let '(region, ms, refused) :=
      if r_file_backed region || negb (r_memfd_id region =? 0) then
        let (id, ms) := allocate_mmap_backing ms region backing_file in
        (region {{ r_backing_id := id }}, ms, id =? 0)
      else (region, ms, false) in
    if refused : bool then Some (false, c, ms)
    else
      let backing_id := r_backing_id region in
      let lazy_backing_insert := negb (backing_id =? 0) && bool_decide (r_map_type region = Lazy) in
      let ms := ms {{ ms_vm_regions := push_merged (ms_vm_regions ms) region }} in
      '(c, ms) ← (if backing_id =? 0 then Some (c, ms)
                  else if lazy_backing_insert then Some (c, refresh_mmap_backing_vm_state ms backing_id)
                  else refresh_mmap_backing_state c ms backing_id);
      Some (true, c, if lock_range then add_locked_range ms start end__ else ms).

(** [max_map_count] is [vm_max_map_count()]; [post_insert] the callback. *)
Definition try_insert_user_vma_with (k : Kernel) (max_map_count : Z) (c : PageCache) (ms : MemorySet)
    (region : VmRegion) (areas : list VmaInsertArea) (lock_range : bool) (backing_file : option Z)
    (post_insert : PageCache -> MemorySet -> option (bool * PageCache * MemorySet))
    : option (bool * PageCache * MemorySet) :=
  let start := r_start region in
  let end__ := end_ region in
  if (end__ <=? start) || vm_regions_overlap ms start end__
     || (sat_add max_map_count 1 <? count_after_insert_merged (ms_vm_regions ms) region)
     || negb (forallb (fun area => InsertArea.compatible_with_region area region) areas)
     || ((r_file_backed region || negb (r_memfd_id region =? 0)) && bool_decide (backing_file = None))
  then c ← drop_frames c (insert_area_frames areas); Some (false, c, ms)
  else
    '(c, rollback) ← capture c ms [(start, end__)];
    '(ok, c, ms) ← try_insert_user_vma_raw k c ms region areas lock_range backing_file;
    if negb ok then rolled_back c ms rollback
    else
      '(ok, c, ms) ← post_insert c ms;
      if ok : bool then committed c ms rollback else rolled_back c ms rollback.

Definition no_post_insert (c : PageCache) (ms : MemorySet) : option (bool * PageCache * MemorySet) :=
  Some (true, c, ms).

Definition try_insert_user_vma (k : Kernel) (max_map_count : Z) (c : PageCache) (ms : MemorySet)
    (region : VmRegion) (areas : list VmaInsertArea) (lock_range : bool) (backing_file : option Z)
    : option (bool * PageCache * MemorySet) :=
  try_insert_user_vma_with k max_map_count c ms region areas lock_range backing_file no_post_insert.

Definition try_replace_user_vma_with (k : Kernel) (max_map_count : Z) (c : PageCache) (ms : MemorySet)
    (region : VmRegion) (areas : list VmaInsertArea) (lock_range : bool) (backing_file : option Z)
    (post_insert : PageCache -> MemorySet -> option (bool * PageCache * MemorySet))
    : option (bool * PageCache * MemorySet) :=
  let start := r_start region in
  let end__ := end_ region in
  '(c, snapshot) ← snapshot_user_range c ms start end__;
  '(c, ms) ← unmap_user_vma_range c ms (virt_addr start) (virt_addr end__);
  '(ok, c, ms) ← try_insert_user_vma k max_map_count c ms region areas lock_range backing_file;
  if negb ok then rolled_back c ms [snapshot]
  else
    '(ok, c, ms) ← post_insert c ms;
    if ok : bool then committed c ms [snapshot] else rolled_back c ms [snapshot].

Definition try_replace_user_vma (k : Kernel) (max_map_count : Z) (c : PageCache) (ms : MemorySet)
    (region : VmRegion) (areas : list VmaInsertArea) (lock_range : bool) (backing_file : option Z)
    : option (bool * PageCache * MemorySet) :=
  try_replace_user_vma_with k max_map_count c ms region areas lock_range backing_file no_post_insert.

(** A private anonymous region with the given kind, protection and type. *)
Definition plain_region (kind : VmRegionKind) (start end__ prot : Z) (map_type : MapType) (perm file_offset : Z)
    : VmRegion :=
  mkVmRegion kind start (end__ - start) prot map_type perm (end__ - start) end__ false true false 0 0 file_offset
    0 0 0 0 false false.

Definition static_user_region (kind : VmRegionKind) (start_va end_va : Z) (map_type : MapType) (map_perm : Z)
    : option VmRegion :=
  if negb (MapPermission.contains map_perm MapPermission.U) then None
  else
    let start := sat_mul (floor start_va) PAGE_SIZE in
    let end__ := sat_mul (ceil end_va) PAGE_SIZE in
    if end__ <=? start then None
    else Some (plain_region kind start end__ (prot_from_permission map_perm) map_type map_perm 0).

(** [None] inside is the failure; otherwise the page behind the range. *)
Definition try_insert_static_user_framed_range (k : Kernel) (c : PageCache) (ms : MemorySet)
    (kind : VmRegionKind) (start_va end_va permission : Z) (data : option (list Z))
    : option (option Z * PageCache * MemorySet) :=
  let region := static_user_region kind start_va end_va Framed permission in
  a ← Area.new start_va end_va Framed permission;
  let end_vpn := Area.end_vpn a in
  if end_vpn <=? Area.start_vpn a then Some (Some end_vpn, c, ms)
  else
    '(ok, c, ms) ← try_push_raw k c ms a data;
    if negb ok then Some (None, c, ms)
    else
      '(c, ms) ← match region with Some region => push_vm_region c ms region | None => Some (c, ms) end;
      Some (Some end_vpn, c, ms).

Definition try_insert_heap_lazy_range (k : Kernel) (max_map_count : Z) (c : PageCache) (ms : MemorySet)
    (start end__ permission : Z) : option (bool * PageCache * MemorySet) :=
  if end__ <=? start then Some (true, c, ms)
  else
    let region := plain_region Heap start end__ (Z.lor PROT_READ PROT_WRITE) Lazy permission
                    (sat_sub start (ms_heap_start ms)) in
    try_insert_user_vma k max_map_count c ms region [LazyArea start end__] (ms_mlockall_future ms) None.

Definition try_insert_stack_framed_range (k : Kernel) (max_map_count : Z) (c : PageCache) (ms : MemorySet)
    (start end__ permission : Z) : option (bool * PageCache * MemorySet) :=
  if (end__ <=? start) || negb (MapPermission.contains permission MapPermission.U) then Some (false, c, ms)
  else
    let region := plain_region Stack start end__ (prot_from_permission permission) Framed permission 0 in
    try_insert_user_vma k max_map_count c ms region [FramedArea start end__] (ms_mlockall_future ms) None.

(** ** mprotect *)

(** One region of the range: its valid part gets the new protection, its SIGBUS
    tail none. *)
Definition mprotect_region (st : PageCache * MemorySet) (region : VmRegion) : option (PageCache * MemorySet) :=
  let '(c, ms) := st in
  let valid_end := Z.min (end_ region) (r_sigbus_start region) in
  '(c, ms) ← (if r_start region <? valid_end
              then mprotect_user_range c ms (virt_addr (r_start region)) (virt_addr valid_end) (r_map_perm region)
              else Some (c, ms));
  if valid_end <? end_ region
  then mprotect_user_range c ms (virt_addr valid_end) (virt_addr (end_ region)) MapPermission.U
  else Some (c, ms).

Definition mprotect_user_vma_range (c : PageCache) (ms : MemorySet) (start_va end_va new_prot : Z)
    : option ((MprotectError + unit) * PageCache * MemorySet) :=
  if negb (can_mprotect_range (ms_vm_regions ms) start_va end_va new_prot) then Some (inl AccessDenied, c, ms)
  else if negb (user_range_fully_mapped ms start_va end_va) then Some (inl Unmapped, c, ms)
  else
    match apply_mprotect_range (ms_vm_regions ms) start_va end_va new_prot with
    | None => Some (inl AccessDenied, c, ms)
    | Some s =>
        let ms := ms {{ ms_vm_regions := s }} in
        '(c, ms) ← foldl_opt mprotect_region (c, ms) (snapshot_range s start_va end_va);
        '(c, ms) ← refresh_mmap_backing_states c ms (backing_ids_for_vma_range ms start_va end_va);
        Some (inr tt, c, ms)
    end.

(** ** mremap *)

Definition move_user_vma_range (c : PageCache) (ms : MemorySet) (old_addr old_len new_start : Z)
    : option (bool * PageCache * MemorySet) :=
  match checked_add old_addr old_len with
  | None => Some (false, c, ms)
  | Some old_end =>
      '(ok, c, ms) ← move_user_range_raw c ms (virt_addr old_addr) (virt_addr old_end) (virt_addr new_start);
      if negb ok then Some (false, c, ms)
      else
        let ids := backing_ids_for_vma_range ms old_addr old_end in
        let ms := ms {{ ms_vm_regions := move_range_metadata_raw (ms_vm_regions ms) old_addr old_len new_start }} in
        let ms := move_locked_ranges ms old_addr old_len new_start in
        let ids := match checked_add new_start old_len with
                   | Some new_end => foldl push_unique_backing_id ids (backing_ids_for_vma_range ms new_start new_end)
                   | None => ids
                   end in
        '(c, ms) ← refresh_mmap_backing_states c ms ids;
        Some (true, c, ms)
  end.

Definition move_user_vma_range_replacing (c : PageCache) (ms : MemorySet) (old_addr old_len new_start : Z)
    : option (bool * PageCache * MemorySet) :=
  match checked_add old_addr old_len, checked_add new_start old_len with
  | Some old_end, Some new_end =>
      '(c, rollback) ← capture c ms [(old_addr, old_end); (new_start, new_end)];
      '(c, ms) ← unmap_user_vma_range c ms (virt_addr new_start) (virt_addr new_end);
      '(ok, c, ms) ← move_user_vma_range c ms old_addr old_len new_start;
      if ok : bool then committed c ms rollback else rolled_back c ms rollback
  | _, _ => Some (false, c, ms)
  end.

Definition refresh_region_at (c : PageCache) (ms : MemorySet) (start : Z) : option (PageCache * MemorySet) :=
  match vm_region_containing_addr ms start with
  | Some region => if r_backing_id region =? 0 then Some (c, ms)
                   else refresh_mmap_backing_state c ms (r_backing_id region)
  | None => Some (c, ms)
  end.

Definition set_vm_region_len_by_start (c : PageCache) (ms : MemorySet) (start len : Z)
    : option (bool * PageCache * MemorySet) :=
  match set_len_by_start (ms_vm_regions ms) start len with
  | (true, s) => '(c, ms) ← refresh_region_at c (ms {{ ms_vm_regions := s }}) start; Some (true, c, ms)
  | (false, s) => Some (false, c, ms {{ ms_vm_regions := s }})
  end.

Definition set_vm_region_len_and_file_valid_by_start (c : PageCache) (ms : MemorySet)
    (start len file_valid_len : Z) : option (bool * PageCache * MemorySet) :=
  match set_len_and_file_valid_by_start (ms_vm_regions ms) start len file_valid_len with
  | (true, s) => '(c, ms) ← refresh_region_at c (ms {{ ms_vm_regions := s }}) start; Some (true, c, ms)
  | (false, s) => Some (false, c, ms {{ ms_vm_regions := s }})
  end.

(** The areas for the new part follow each other without a gap up to its end. *)
Fixpoint grow_areas_contiguous (cursor target_new_end : Z) (areas : list VmaInsertArea) : bool :=
  match areas with
  | [] => cursor =? target_new_end
  | area :: areas =>
      let (area_start, area_end) := InsertArea.bounds area in
      if area_end <=? area_start then grow_areas_contiguous cursor target_new_end areas
      else if negb (area_start =? cursor) || (target_new_end <? area_end) then false
      else grow_areas_contiguous area_end target_new_end areas
  end.

(** The part of [try_grow_user_vma_range_with_layout] after the rollback is
    captured; [false] asks for the rollback. *)
Definition grow_user_vma (k : Kernel) (c : PageCache) (ms : MemorySet)
    (old_addr old_len target_start new_len target_old_end target_new_end : Z) (grow_areas : list VmaInsertArea)
    (final_file_valid_len : option Z)
    (populate_grow : PageCache -> MemorySet -> option (bool * PageCache * MemorySet))
    : option (bool * PageCache * MemorySet) :=
  let fail c ms := c ← drop_frames c (insert_area_frames grow_areas); Some (false, c, ms) in
  '(ok, c, ms) ← (if target_start =? old_addr
                  then let (ok, s) := isolate_range_raw (ms_vm_regions ms) old_addr old_len in
                       Some (ok, c, ms {{ ms_vm_regions := s }})
                  else move_user_vma_range c ms old_addr old_len target_start);
  if negb ok then fail c ms
  else
    match vm_region_containing_addr ms target_start with
    | None => fail c ms
    | Some grown =>
        if negb (r_start grown =? target_start) || negb (end_ grown =? target_old_end) then fail c ms
        else
          let grown := match final_file_valid_len with
                       | Some l => set_len_and_file_valid grown new_len l
                       | None => set_len grown new_len
                       end in
          '(ok, c, ms) ← insert_areas k c ms grown target_old_end target_new_end grow_areas;
          if negb ok then Some (false, c, ms)
          else
            '(ok, c, ms) ← populate_grow c ms;
            if negb ok then Some (false, c, ms)
            else
              '(ok, c, ms) ← match final_file_valid_len with
                             | Some l => set_vm_region_len_and_file_valid_by_start c ms target_start new_len l
                             | None => set_vm_region_len_by_start c ms target_start new_len
                             end;
              if negb ok then Some (false, c, ms)
              else '(c, ms) ← refresh_region_at c ms target_start; Some (true, c, ms)
    end.

Definition try_grow_user_vma_range_with_layout (k : Kernel) (c : PageCache) (ms : MemorySet)
    (old_addr old_len target_start new_len : Z) (grow_areas : list VmaInsertArea)
    (final_file_valid_len : option Z)
    (populate_grow : PageCache -> MemorySet -> option (bool * PageCache * MemorySet))
    : option (bool * PageCache * MemorySet) :=
  let refuse := c ← drop_frames c (insert_area_frames grow_areas); Some (false, c, ms) in
  if new_len <=? old_len then refuse
  else
    match checked_add old_addr old_len, checked_add target_start old_len, checked_add target_start new_len with
    | Some old_end, Some target_old_end, Some target_new_end =>
        if negb (grow_areas_contiguous target_old_end target_new_end grow_areas) then refuse
        else
          '(c, rollback) ← capture c ms [(old_addr, old_end); (target_start, target_new_end)];
          '(ok, c, ms) ← grow_user_vma k c ms old_addr old_len target_start new_len target_old_end
                           target_new_end grow_areas final_file_valid_len populate_grow;
          if ok : bool then committed c ms rollback else rolled_back c ms rollback
    | _, _, _ => refuse
    end.
