(* ===== verification/MmLayout.v ===== *)
(** * The layout of an address space

    [mm/memory_set/layout.rs]: the program break, and the search for a free
    range for [mmap], from the top down or from the heap up. *)

From S2P Require Import Prelude.
From S2P Require Import BTree.
From S2P Require Import Address.
From S2P Require Import Ranges.
From S2P Require Import FrameAlloc.
From S2P Require Import PageCache.
From S2P Require Import VmRegion.
From S2P Require Import VmRegionSet.
From S2P Require Import PageTable.
From S2P Require Import MapArea.
From S2P Require Import MemorySet.
From S2P Require Import FileMmap.
From S2P Require Import Fault.
From S2P Require Import VmaOps.
Import Region VmaSet.

(** [aslr] is the result of [next_mmap_aslr_offset]. *)
Definition reset_user_layout (ms : MemorySet) (ustack_base aslr : Z) : MemorySet :=
  let heap_start := sat_add (sat_add ustack_base USER_STACK_SIZE) USER_HEAP_GAP in
  clear_mlock_state (ms {{ ms_heap_start := heap_start; ms_brk := heap_start;
                           ms_mmap_next := DEFAULT_MMAP_BASE; ms_mmap_topdown_cursor := 0;
                           ms_mmap_aslr_offset := aslr }}).

Definition heap_size (ms : MemorySet) : Z := sat_sub (ms_brk ms) (ms_heap_start ms).

Definition note_mmap_end (ms : MemorySet) (end__ : Z) : MemorySet :=
  if ms_mmap_next ms <? end__ then ms {{ ms_mmap_next := end__ }} else ms.

(** ** Free ranges *)

Definition growdown_guard_range_overlaps_except (ms : MemorySet) (start end__ : Z) (exclude : option (Z * Z))
    : bool :=
  existsb (fun e =>
    let region := e.2 : VmRegion in
    r_growsdown region
    && negb match exclude with
            | Some (s, x) => (s <=? r_start region) && (end_ region <=? x)
            | None => false
            end
    && range_overlaps_except start end__ (sat_sub (r_start region) USER_STACK_GUARD_GAP) (r_start region) exclude)
    (ms_vm_regions ms).

Definition user_range_is_free_except (ms : MemorySet) (start end__ user_va_top : Z) (exclude : option (Z * Z))
    : bool :=
  (start <? end__) && (end__ <=? user_va_top) && negb (vm_region_range_overlaps_except ms start end__ exclude).

Definition user_range_is_free (ms : MemorySet) (start end__ user_va_top : Z) : bool :=
  user_range_is_free_except ms start end__ user_va_top None.

Definition user_range_is_mmap_placeable_except (ms : MemorySet) (start end__ user_va_top : Z)
    (exclude : option (Z * Z)) : bool :=
  user_range_is_free_except ms start end__ user_va_top exclude
  && negb (growdown_guard_range_overlaps_except ms start end__ exclude).

(** More turns than a page-wise loop over [usize] addresses can take. *)
Definition page_turns : positive := 4503599627370497.

Section Search.
Variables (ms : MemorySet) (len user_va_top : Z) (exclude : option (Z * Z)).

Definition placeable (start end__ : Z) : bool :=
  user_range_is_mmap_placeable_except ms start end__ user_va_top exclude.

(** The result of a search that may also end without an answer. *)
Inductive Search := Found (start : Z) | Overflowed | Next (cursor : Z).

(** The inner [while] in front of an occupied range. *)
Definition ascend_turn (range_start : Z) (cursor : Z) : Z + Search :=
  if negb (cursor <? range_start) then inr (Next cursor)
  else
    match checked_add cursor len with
    | None => inr Overflowed
    | Some e =>
        if e <=? range_start then
          if placeable cursor e then inr (Found cursor)
          else match checked_add cursor PAGE_SIZE with
               | None => inr Overflowed
               | Some next => inl next
               end
        else inr (Next cursor)
    end.

(** The closure given to [for_each_occupied_user_range_ascending]. *)
Definition ascend_range (cursor range_start range_end : Z) : Search :=
  if range_end <=? cursor then Next cursor
  else
    match pos_loop page_turns (ascend_turn range_start) cursor with
    | inr (Next _) => Next (align_up_to_page range_end)
    | inr r => r
    | inl cursor => Next cursor
    end.

Fixpoint ascend (cursor : Z) (occupied : list (Z * Z)) : Search :=
  match occupied with
  | [] => Next cursor
  | (range_start, range_end) :: occupied =>
      match ascend_range cursor range_start range_end with
      | Next cursor => ascend cursor occupied
      | r => r
      end
  end.

(** The last [loop]. *)
Definition ascend_tail_turn (cursor : Z) : Z + option Z :=
  match checked_add cursor len with
  | None => inr None
  | Some e =>
      if (user_va_top <? e) || (e <=? cursor) then inr None
      else if placeable cursor e then inr (Some cursor)
      else match checked_add cursor PAGE_SIZE with
           | None => inr None
           | Some next => inl next
           end
  end.

Definition occupied_ranges : list (Z * Z) := omap vm_region_user_range (bt_values (ms_vm_regions ms)).

Definition loop_result {S R} (r : S + option R) : option R := match r with inr r => r | inl _ => None end.

Definition find_free_user_range_from_occupied (min_start : Z) : option Z :=
  if len =? 0 then None
  else
    match ascend (align_up_to_page min_start) occupied_ranges with
    | Found start => Some start
    | Overflowed => None
    | Next cursor => loop_result (pos_loop page_turns ascend_tail_turn cursor)
    end.

(** The [loop] of [find_placeable_user_range_in_hole_down]. *)
Definition descend_turn (hole_start hole_end : Z) (cursor : Z) : Z + option Z :=
  match checked_add cursor len with
  | None => inr None
  | Some e =>
      if (cursor <? hole_start) || (hole_end <? e) then inr None
      else if placeable cursor e then inr (Some cursor)
      else if cursor <? PAGE_SIZE then inr None
      else inl (sat_sub cursor PAGE_SIZE)
  end.

Definition find_placeable_user_range_in_hole_down (hole_start hole_end : Z) : option Z :=
  if (len =? 0) || (hole_end <=? hole_start) || (sat_sub hole_end hole_start <? len) then None
  else
    top ← checked_sub hole_end len;
    loop_result (pos_loop page_turns (descend_turn hole_start hole_end) (align_down_to_page top)).

(** The closure given to [for_each_occupied_user_range_descending], and the hole
    below the last range. *)
Fixpoint descend (min_start cursor_end : Z) (occupied : list (Z * Z)) : option Z :=
  match occupied with
  | [] => find_placeable_user_range_in_hole_down min_start cursor_end
  | (range_start, range_end) :: occupied =>
      if range_end <=? min_start then find_placeable_user_range_in_hole_down min_start cursor_end
      else if cursor_end <=? range_start then descend min_start cursor_end occupied
      else
        match (if range_end <? cursor_end
               then find_placeable_user_range_in_hole_down (Z.max range_end min_start) cursor_end
               else None) with
        | Some start => Some start
        | None =>
            let cursor_end := align_down_to_page (Z.min range_start cursor_end) in
            if min_start <? cursor_end then descend min_start cursor_end occupied
            else find_placeable_user_range_in_hole_down min_start cursor_end
        end
  end.

Definition find_free_user_range_below_from_occupied (min_start max_end : Z) : option Z :=
  if len =? 0 then None
  else
    let min_start := align_up_to_page min_start in
    let cursor_end := align_down_to_page (Z.min max_end user_va_top) in
    if cursor_end <=? min_start then None
    else descend min_start cursor_end (rev occupied_ranges).

End Search.

(** The hint, if it is not null and free. *)
Definition hint_range (ms : MemorySet) (hint : option Z) (len user_va_top : Z) : option Z :=
  h ← hint;
  if h =? 0 then None
  else
    let start := align_down_to_page h in
    e ← checked_add start len;
    if user_range_is_mmap_placeable_except ms start e user_va_top None then Some start else None.

(** The range right below the last mapping, if it is free.  The outer option is
    the early return of [checked_add(len)?]. *)
Definition cursor_range (ms : MemorySet) (len user_va_top floor_ ceiling : Z) : option (option Z) :=
  let cursor_ceiling :=
    if (floor_ <? ms_mmap_topdown_cursor ms) && (ms_mmap_topdown_cursor ms <=? ceiling)
    then ms_mmap_topdown_cursor ms else ceiling in
  match checked_sub cursor_ceiling len with
  | None => Some None
  | Some top =>
      let start := align_down_to_page top in
      if start <? floor_ then Some None
      else
        e ← checked_add start len;
        Some (if user_range_is_mmap_placeable_except ms start e user_va_top None then Some start else None)
  end.

Definition find_free_mmap_range (ms : MemorySet) (hint : option Z) (len user_va_top : Z)
    : option Z * MemorySet :=
  let place start := (Some start, ms {{ ms_mmap_topdown_cursor := start }}) in
  if len =? 0 then (None, ms)
  else
    match hint_range ms hint len user_va_top with
    | Some start => (Some start, ms)
    | None =>
        let fallback := align_up_to_page (sat_add (ms_brk ms) USER_HEAP_GAP) in
        let topdown_floor := Z.max fallback DEFAULT_MMAP_BASE in
        let aslr_offset := Z.min (ms_mmap_aslr_offset ms) (sat_sub user_va_top topdown_floor) in
        let topdown_ceiling := align_down_to_page (sat_sub user_va_top aslr_offset) in
        match cursor_range ms len user_va_top topdown_floor topdown_ceiling with
        | None => (None, ms)
        | Some (Some start) => place start
        | Some None =>
            match find_free_user_range_below_from_occupied ms len user_va_top None topdown_floor topdown_ceiling with
            | Some start => place start
            | None =>
                match find_free_user_range_from_occupied ms len user_va_top None fallback with
                | Some start => place start
                | None => (None, ms)
                end
            end
        end
    end.

(** ** The program break *)

Record BrkUpdate := mkBrkUpdate {
  bu_old_brk : Z;
  bu_new_brk : Z;
  bu_heap_start : Z;
  bu_old_end : Z;
  bu_new_end : Z;
  bu_success : bool
}.
#[export] Instance fields_BrkUpdate : Fields BrkUpdate := fun b =>
  mkBrkUpdate (bu_old_brk b) (bu_new_brk b) (bu_heap_start b) (bu_old_end b) (bu_new_end b) (bu_success b).

Definition result_brk (b : BrkUpdate) : Z := if bu_success b then bu_new_brk b else bu_old_brk b.

Section Brk.
Variable k : Kernel.
Variable max_map_count : Z.
(** A page is taken by a System V segment; the overcommit policy refuses. *)
Variable shm_blocks_page : Z -> bool.
Variable overcommit_rejects : Z -> bool.

(** A page the heap may take. *)
Definition heap_page_free (ms : MemorySet) (old_end cur : Z) : bool :=
  negb (shm_blocks_page cur) && negb (page_overlaps_mmap_region_started_before ms cur old_end)
  && negb (page_overlaps_mmap_region ms cur)
  && negb (user_range_fully_mapped ms (virt_addr cur) (virt_addr (wadd cur PAGE_SIZE))).

(** The loop that collects the runs of free pages; [run] is the start of the run
    the inner loop is in.  [None] is the early [return false]. *)
Fixpoint heap_runs (ms : MemorySet) (old_end : Z) (pages : list Z) (run : option Z) : option (list (Z * Z)) :=
  match pages with
  | [] => Some []
  | cur :: pages =>
      let next := wadd cur PAGE_SIZE in
      match run with
      | Some start =>
          if heap_page_free ms old_end cur then
            match pages with
            | [] => Some [(start, next)]
            | _ => heap_runs ms old_end pages (Some start)
            end
          else cons (start, cur) <$>
                 (if shm_blocks_page cur then None
                  else if page_overlaps_mmap_region_started_before ms cur old_end
                  then heap_runs ms old_end pages None else None)
      | None =>
          if shm_blocks_page cur then None
          else if page_overlaps_mmap_region_started_before ms cur old_end then heap_runs ms old_end pages None
          else if page_overlaps_mmap_region ms cur
                  || user_range_fully_mapped ms (virt_addr cur) (virt_addr next) then None
          else
            match pages with
            | [] => Some [(cur, next)]
            | _ => heap_runs ms old_end pages (Some cur)
            end
      end
  end.

Definition heap_perm : Z := Z.lor (Z.lor MapPermission.R MapPermission.W) MapPermission.U.

Fixpoint insert_heap_runs (c : PageCache) (ms : MemorySet) (runs : list (Z * Z))
    : option (bool * PageCache * MemorySet) :=
  match runs with
  | [] => Some (true, c, ms)
  | (start, end__) :: runs =>
      '(ok, c, ms) ← try_insert_heap_lazy_range k max_map_count c ms start end__ heap_perm;
      if ok : bool then insert_heap_runs c ms runs else Some (false, c, ms)
  end.

(** The pages of [[start, end)], both page aligned. *)
Definition page_starts (start end__ : Z) : list Z :=
  map (fun i => start + i * PAGE_SIZE) (seqZ 0 ((end__ - start + PAGE_SIZE - 1) / PAGE_SIZE)).

Definition try_grow_brk_with_holes (c : PageCache) (ms : MemorySet) (old_end new_end : Z)
    : option (bool * PageCache * MemorySet) :=
  match heap_runs ms old_end (page_starts old_end new_end) None with
  | None => Some (false, c, ms)
  | Some runs =>
      '(c, rollback) ← capture c ms [(old_end, new_end)];
      '(ok, c, ms) ← insert_heap_runs c ms runs;
      if ok : bool then committed c ms rollback else rolled_back c ms rollback
  end.

Definition shrink_brk_with_holes (c : PageCache) (ms : MemorySet) (new_end old_end : Z)
    : option (PageCache * MemorySet) :=
  foldl_opt (fun st cur =>
    if page_overlaps_mmap_region st.2 cur then Some st
    else unmap_heap_vma_range st.1 st.2 (virt_addr cur) (virt_addr (wadd cur PAGE_SIZE)))
    (c, ms) (page_starts new_end old_end).

Definition try_update_brk_with_holes (c : PageCache) (ms : MemorySet) (new_brk user_va_top relative_compat_max : Z)
    : option (BrkUpdate * PageCache * MemorySet) :=
  let old_brk := ms_brk ms in
  let heap_start := ms_heap_start ms in
  let new_brk :=
    if (new_brk <? heap_start) && (new_brk <=? relative_compat_max) then
      match checked_add old_brk new_brk with
      | Some candidate => if old_brk <? candidate then candidate else new_brk
      | None => new_brk
      end
    else new_brk in
  let old_end := align_up_to_page old_brk in
  let result := mkBrkUpdate old_brk new_brk heap_start old_end old_end false in
  if (new_brk <? heap_start) || (user_va_top <? new_brk) then Some (result, c, ms)
  else
    let new_end := align_up_to_page new_brk in
    let result := result {{ bu_new_end := new_end }} in
    if user_va_top <? new_end then Some (result, c, ms)
    else if (old_end <? new_end) && overcommit_rejects (sat_sub new_end old_end) then Some (result, c, ms)
    else
      '(ok, c, ms) ←
        (if old_end <? new_end then try_grow_brk_with_holes c ms old_end new_end
         else if new_end <? old_end then
           '(c, ms) ← shrink_brk_with_holes c ms new_end old_end; Some (true, c, ms)
         else Some (true, c, ms));
      if negb ok then Some (result, c, ms)
      else Some (result {{ bu_success := true }}, c, ms {{ ms_brk := new_brk }}).

End Brk.
