(* ===== verification/MprotectFork.v ===== *)
(** * mprotect around a fork

    Two programs on the small machine that do not see private memories: a page that
    is read-only when its process forks, and one that is inaccessible then. *)

From S2P Require Import Prelude.
From S2P Require Import BTree.
From S2P Require Import Address.
From S2P Require Import FrameAlloc.
From S2P Require Import PageCache.
From S2P Require Import MmExamples.
From S2P Require Import VmRegion.
From S2P Require Import VmRegionSet.
From S2P Require Import PageTable.
From S2P Require Import MapArea.
From S2P Require Import Backing.
From S2P Require Import MemorySet.
From S2P Require Import FileMmap.
From S2P Require Import ForkCow.
From S2P Require Import ForkSteps.
From S2P Require Import Fault.
From S2P Require Import VmaOps.
From S2P Require Import Isolation.
From S2P Require Import SpaceExamples.

(** The system calls as steps of the machine; [None] is a panic or a failure. *)
Definition do_mprotect (i : nat) (prot : Z) (s : Machine) : option Machine :=
  '(r, c, ms) ← mprotect_user_vma_range (mc_world s) (space s i) 65536 69632 prot;
  match r with inr _ => Some (mkMachine c (<[i := ms]> (mc_spaces s))) | inl _ => None end.
Definition do_fork (i : nat) (s : Machine) : option Machine :=
  '(child, c) ← from_existed_user_cow small_kernel (mc_world s) (space s i) 0;
  Some (mkMachine c (mc_spaces s ++ [child])).
(** A store the processor carries out. *)
Definition do_store (i : nat) (byte : Z) (s : Machine) : option Machine :=
  let pte := pt_view (mem (mc_world s)) (pt_root_ppn (ms_page_table (space s i))) 16 in
  if pte_is_valid pte && has (pte_flags pte) PTEFlags.U && has (pte_flags pte) PTEFlags.W
  then Some (store s i 16 0 byte) else None.
Definition do_fault (i : nat) (s : Machine) : option Machine :=
  '(r, c, ms) ← resolve_lazy_fault no_file no_limit (mc_world s) (space s i) 65536 MapPermission.R;
  Some (mkMachine c (<[i := ms]> (mc_spaces s))).

Definition PROT_NONE : Z := 0.
Definition PROT_READ : Z := 1.
Definition PROT_READ_WRITE : Z := 3.

(** The parent makes its page read-only, forks, and makes it writable again. *)
Definition reprotected : option Machine :=
  s ← do_mprotect 0 PROT_READ s_store; s ← do_fork 0 s; do_mprotect 0 PROT_READ_WRITE s.

(** A private page that is read-only when its process forks stays shared without the
    copy-on-write mark: after mprotect has made it writable again, a store of the parent
    shows in the child. *)
Theorem fork_of_read_only_page_shares :
  (s ← reprotected; byte_seen s 1 16) = Some 7 /\
  (s ← reprotected; s ← do_store 0 9 s; byte_seen s 1 16) = Some 9.
Proof. split; vm_compute; reflexivity. Qed.

(** The parent makes its page inaccessible, forks, and both make it accessible again;
    the child has to fault its page in. *)
Definition revealed : option Machine :=
  s ← do_mprotect 0 PROT_NONE s_store; s ← do_fork 0 s;
  s ← do_mprotect 0 PROT_READ_WRITE s; s ← do_mprotect 1 PROT_READ_WRITE s; do_fault 1 s.

(** A private page that is inaccessible when its process forks is not given to the child:
    afterwards the parent still has what it stored there, the child zeros. *)
Theorem fork_of_inaccessible_page_loses_it :
  (s ← revealed; byte_seen s 0 16) = Some 7 /\ (s ← revealed; byte_seen s 1 16) = Some 0.
Proof. split; vm_compute; reflexivity. Qed.
