(* ===== verification/Sched.v ===== *)
(** * Scheduling policies and real-time bandwidth

    [task/sched.rs]: policies, priorities and the sysctl values behind
    [/proc/sys/kernel/sched_*]; [task/manager/rt.rs]: the real-time bandwidth
    limit of each hart and the counters of ready tasks.  The atomics are state;
    a compare-and-swap that no other hart interferes with succeeds, so the retry
    loops are a single update. *)

From S2P Require Import Prelude.

(** ** Policies and priorities *)

Inductive SchedClass := ClassFair | ClassFifo | ClassRr.
#[export] Instance SchedClass_eq_dec : EqDecision SchedClass.
Proof. solve_decision. Defined.

Definition SCHED_OTHER : Z := 0.
Definition SCHED_FIFO : Z := 1.
Definition SCHED_RR : Z := 2.
Definition SCHED_BATCH : Z := 3.
Definition SCHED_IDLE : Z := 5.
Definition SCHED_DEADLINE : Z := 6.

Definition NICE_MIN : Z := -20.
Definition NICE_MAX : Z := 19.
Definition RT_PRIO_MIN : Z := 1.
Definition RT_PRIO_MAX : Z := 99.
Definition RT_PRIO_LEVELS : nat := Z.to_nat (RT_PRIO_MAX - RT_PRIO_MIN + 1).

Definition RR_TIMESLICE_MS : Z := 100.
Definition RT_PERIOD_US_DEFAULT : Z := 1000000.
Definition RT_RUNTIME_US_DEFAULT : Z := 950000.
Definition RT_SYSCTL_MAX_US : Z := 2147483647.

Record Sysctl := mkSysctl { rr_timeslice_ms : Z; rt_period_us : Z; rt_runtime_us : Z }.
#[export] Instance fields_Sysctl : Fields Sysctl :=
  fun s => mkSysctl (rr_timeslice_ms s) (rt_period_us s) (rt_runtime_us s).

Definition sysctl_default : Sysctl :=
  mkSysctl RR_TIMESLICE_MS RT_PERIOD_US_DEFAULT RT_RUNTIME_US_DEFAULT.

(** [(x).div_ceil(10)] *)
Definition div_ceil (a b : Z) : Z := (a + b - 1) / b.

Definition rr_timeslice_ticks (s : Sysctl) : Z :=
  Z.max 1 (div_ceil (Z.max (rr_timeslice_ms s) 1) 10).

Definition in_range (lo x hi : Z) : bool := (lo <=? x) && (x <=? hi).

(** The setters return the value applied, [None] where the upper layer answers
    [EINVAL]. *)
Definition set_rr_timeslice_ms_from_procfs (s : Sysctl) (value : Z) : option Z * Sysctl :=
  if value =? -1 then (Some RR_TIMESLICE_MS, s {{ rr_timeslice_ms := RR_TIMESLICE_MS }})
  else if in_range 1 value RT_SYSCTL_MAX_US then (Some value, s {{ rr_timeslice_ms := value }})
  else (None, s).

Definition set_rt_period_us_from_procfs (s : Sysctl) (value : Z) : option Z * Sysctl :=
  if negb (in_range 1 value RT_SYSCTL_MAX_US) then (None, s)
  else
    let runtime := rt_runtime_us s in
    if negb (runtime =? -1) && (value <? runtime) then (None, s)
    else (Some value, s {{ rt_period_us := value }}).

Definition set_rt_runtime_us_from_procfs (s : Sysctl) (value : Z) : option Z * Sysctl :=
  if negb (in_range (-1) value RT_SYSCTL_MAX_US) then (None, s)
  else if negb (value =? -1) && (rt_period_us s <? value) then (None, s)
  else (Some value, s {{ rt_runtime_us := value }}).

Definition clamp_nice (nice : Z) : Z := clamp nice NICE_MIN NICE_MAX.

Definition check_policy (policy : Z) : bool :=
  (policy =? SCHED_OTHER) || (policy =? SCHED_FIFO) || (policy =? SCHED_RR)
  || (policy =? SCHED_BATCH) || (policy =? SCHED_IDLE) || (policy =? SCHED_DEADLINE).

Definition sched_class (policy : Z) : option SchedClass :=
  if policy =? SCHED_FIFO then Some ClassFifo
  else if policy =? SCHED_RR then Some ClassRr
  else if (policy =? SCHED_OTHER) || (policy =? SCHED_BATCH) || (policy =? SCHED_IDLE)
  then Some ClassFair
  else None.

Definition policy_priority_min (policy : Z) : option Z :=
  if (policy =? SCHED_FIFO) || (policy =? SCHED_RR) then Some RT_PRIO_MIN
  else if (policy =? SCHED_OTHER) || (policy =? SCHED_BATCH) || (policy =? SCHED_IDLE)
          || (policy =? SCHED_DEADLINE) then Some 0
  else None.

Definition policy_priority_max (policy : Z) : option Z :=
  if (policy =? SCHED_FIFO) || (policy =? SCHED_RR) then Some RT_PRIO_MAX
  else if (policy =? SCHED_OTHER) || (policy =? SCHED_BATCH) || (policy =? SCHED_IDLE)
          || (policy =? SCHED_DEADLINE) then Some 0
  else None.

Definition valid_priority_for_policy (policy priority : Z) : bool :=
  match policy_priority_min policy, policy_priority_max policy with
  | Some min, Some max => (min <=? priority) && (priority <=? max)
  | _, _ => false
  end.

Definition normalized_rt_priority (priority : Z) : Z := clamp priority RT_PRIO_MIN RT_PRIO_MAX.

Definition rt_queue_index (priority : Z) : Z := RT_PRIO_MAX - normalized_rt_priority priority.

(** What the procfs files keep true: the runtime is [-1] (no limit) or at most
    the period. *)
Record sysctl_ok (s : Sysctl) : Prop := {
  so_rr : 1 <= rr_timeslice_ms s <= RT_SYSCTL_MAX_US;
  so_period : 1 <= rt_period_us s <= RT_SYSCTL_MAX_US;
  so_runtime : rt_runtime_us s = -1 \/ 0 <= rt_runtime_us s <= rt_period_us s
}.

(** The setters of the scheduler sysctls: a rejected value changes nothing, an
    accepted one is stored, and the three values stay consistent. *)
Theorem sysctl_setters_ok s value :
  sysctl_ok s ->
  (let '(r, s') := set_rr_timeslice_ms_from_procfs s value in
   sysctl_ok s' /\ (r = None -> s' = s) /\ (forall v, r = Some v -> rr_timeslice_ms s' = v)) /\
  (let '(r, s') := set_rt_period_us_from_procfs s value in
   sysctl_ok s' /\ (r = None -> s' = s) /\ (forall v, r = Some v -> v = value /\ rt_period_us s' = v)) /\
  (let '(r, s') := set_rt_runtime_us_from_procfs s value in
   sysctl_ok s' /\ (r = None -> s' = s) /\ (forall v, r = Some v -> v = value /\ rt_runtime_us s' = v)).
Proof.
  intros [H1 H2 H3]. unfold set_rr_timeslice_ms_from_procfs, set_rt_period_us_from_procfs,
    set_rt_runtime_us_from_procfs, in_range, RT_SYSCTL_MAX_US, RR_TIMESLICE_MS in *.
  split_and!; repeat case_if; (split_and!; [split; simpl; unfold RT_SYSCTL_MAX_US; lia|done|]);
    intros v [= <-]; done.
Qed.

Lemma sysctl_setters_ok_witness : sysctl_ok (set_rt_runtime_us_from_procfs sysctl_default 500000).2.
Proof.
  destruct (sysctl_setters_ok sysctl_default 500000) as (_ & _ & H); [constructor; vm_compute; intuition congruence|].
  destruct (set_rt_runtime_us_from_procfs sysctl_default 500000). apply H.
Defined.

(** The queue index of a priority is in range, and a strictly higher priority
    has a strictly smaller index; priorities outside [1, 99] are clamped. *)
Theorem rt_queue_index_order p q :
  0 <= rt_queue_index p < Z.of_nat RT_PRIO_LEVELS /\
  (RT_PRIO_MIN <= p <= RT_PRIO_MAX -> RT_PRIO_MIN <= q <= RT_PRIO_MAX ->
   (p < q <-> rt_queue_index q < rt_queue_index p)) /\
  rt_queue_index (normalized_rt_priority p) = rt_queue_index p.
Proof.
  unfold rt_queue_index, normalized_rt_priority, RT_PRIO_LEVELS, RT_PRIO_MIN, RT_PRIO_MAX, clamp.
  repeat case_if; simpl; lia.
Qed.

(** ** Real-time bandwidth of one hart *)

Definition USEC_TO_NSEC : Z := 1000.

Record RtBandwidth := mkRt { rt_period_start_ns : Z; rt_runtime_remaining_ns : Z; rt_throttled : bool }.
#[export] Instance fields_RtBandwidth : Fields RtBandwidth :=
  fun b => mkRt (rt_period_start_ns b) (rt_runtime_remaining_ns b) (rt_throttled b).

Definition rt_bandwidth_init : RtBandwidth := mkRt 0 0 false.

Definition rt_bandwidth_ns (s : Sysctl) : option (Z * Z) :=
  let runtime_us := rt_runtime_us s in
  if runtime_us <? 0 then None
  else
    let period_us := Z.max (rt_period_us s) 1 in
    let period_ns := Z.max (sat_mul period_us USEC_TO_NSEC) 1 in
    let runtime_ns := Z.min (sat_mul (Z.max runtime_us 0) USEC_TO_NSEC) period_ns in
    Some (period_ns, runtime_ns).

Definition refresh_rt_bandwidth (s : Sysctl) (now_ns : Z) (b : RtBandwidth) : bool * RtBandwidth :=
  match rt_bandwidth_ns s with
  | None => (false, mkRt now_ns USIZE_MAX false)
  | Some (period_ns, runtime_ns) =>
      let period_start := rt_period_start_ns b in
      if period_start =? 0 then
        let throttled := runtime_ns =? 0 in
        (throttled, mkRt now_ns runtime_ns throttled)
      else
        let elapsed := sat_sub now_ns period_start in
        if period_ns <=? elapsed then
          let periods := elapsed / period_ns in
          let new_start := sat_add period_start (sat_mul periods period_ns) in
          let throttled := runtime_ns =? 0 in
          (throttled, mkRt new_start runtime_ns throttled)
        else
          let remaining := rt_runtime_remaining_ns b in
          if runtime_ns <? remaining then
            let throttled := runtime_ns =? 0 in
            (throttled, b {{ rt_runtime_remaining_ns := runtime_ns; rt_throttled := throttled }})
          else
            let throttled := (runtime_ns =? 0) || (remaining =? 0) || rt_throttled b in
            (throttled, b {{ rt_throttled := throttled }})
  end.

Definition account_rt_runtime (s : Sysctl) (now_ns delta_ns : Z) (b : RtBandwidth) : RtBandwidth :=
  if delta_ns =? 0 then b
  else
    let (throttled, b) := refresh_rt_bandwidth s now_ns b in
    if throttled then b
    else
      match rt_bandwidth_ns s with
      | None => b
      | Some _ =>
          let delta := Z.min delta_ns USIZE_MAX in
          let next := sat_sub (rt_runtime_remaining_ns b) delta in
          let b := b {{ rt_runtime_remaining_ns := next }} in
          if next =? 0 then b {{ rt_throttled := true }} else b
      end.

(** *** Within one period *)

(** Charges [(now, delta)] in order. *)
Definition account_all (s : Sysctl) (b : RtBandwidth) (charges : list (Z * Z)) : RtBandwidth :=
  foldl (fun b c => account_rt_runtime s c.1 c.2 b) b charges.

Definition charged (charges : list (Z * Z)) : Z := foldr (fun c acc => c.2 + acc) 0 charges.

(** State of a hart that started a period at [start] with budget [runtime] and
    was charged [used] since. *)
Definition in_period (start runtime used : Z) (b : RtBandwidth) : Prop :=
  rt_period_start_ns b = start /\ rt_runtime_remaining_ns b = sat_sub runtime used /\
  rt_throttled b = (runtime <=? used).

Lemma account_in_period s period runtime start used now delta b :
  rt_bandwidth_ns s = Some (period, runtime) -> 0 < runtime ->
  0 < start -> start <= now < start + period -> 0 <= used -> 0 <= delta <= U64_MAX ->
  in_period start runtime used b ->
  in_period start runtime (used + delta) (account_rt_runtime s now delta b).
Proof.
  intros Hbw Hr Hs Hn Hu Hd (H1 & H2 & H3). unfold account_rt_runtime.
  destruct (delta =? 0) eqn:E0.
  { unfold in_period. replace (used + delta) with used by lia. done. }
  unfold refresh_rt_bandwidth. rewrite Hbw, H1, H2, H3. unfold sat_sub in *.
  destruct (start =? 0) eqn:?; [lia|]. destruct (period <=? Z.max 0 (now - start)) eqn:?; [lia|].
  destruct (runtime <? Z.max 0 (runtime - used)) eqn:?; [lia|].
  destruct (runtime <=? used) eqn:Hthr.
  - rewrite orb_true_r. unfold in_period, sat_sub. simpl. rewrite H1, H2. split_and!; lia.
  - assert ((runtime =? 0) || (Z.max 0 (runtime - used) =? 0) || false = false) as -> by lia.
    simpl. rewrite H2. unfold in_period, sat_sub. case_if; simpl; rewrite ?H1; split_and!; lia.
Qed.

Lemma account_all_in_period s period runtime start used charges b :
  rt_bandwidth_ns s = Some (period, runtime) -> 0 < runtime -> 0 < start -> 0 <= used ->
  Forall (fun c => start <= c.1 < start + period /\ 0 <= c.2 <= U64_MAX) charges ->
  in_period start runtime used b ->
  in_period start runtime (used + charged charges) (account_all s b charges).
Proof.
  intros Hbw Hr Hs. revert used b. induction charges as [|[now delta] charges IH]; intros used b Hu Hc Hb.
  - unfold charged; simpl. by rewrite Z.add_0_r.
  - inversion Hc as [|?? [Hn Hd] Hc']; subst. simpl in Hn, Hd. unfold charged. simpl.
    rewrite Z.add_assoc. apply IH; [lia|done|]. by eapply account_in_period.
Qed.

Lemma refresh_in_period s period runtime start used now b :
  rt_bandwidth_ns s = Some (period, runtime) -> 0 < runtime ->
  0 < start -> start <= now < start + period -> 0 <= used ->
  in_period start runtime used b ->
  (refresh_rt_bandwidth s now b).1 = (runtime <=? used) /\
  in_period start runtime used (refresh_rt_bandwidth s now b).2.
Proof.
  intros Hbw Hr Hs Hn Hu (H1 & H2 & H3). unfold refresh_rt_bandwidth, in_period.
  rewrite Hbw, H1, H2, H3. unfold sat_sub in *.
  destruct (start =? 0) eqn:?; [lia|]. destruct (period <=? Z.max 0 (now - start)) eqn:?; [lia|].
  destruct (runtime <? Z.max 0 (runtime - used)) eqn:?; [lia|]. simpl. rewrite H1, H2.
  split_and!; try done; lia.
Qed.

Lemma refresh_new_period s period runtime start now b :
  rt_bandwidth_ns s = Some (period, runtime) -> 0 < period -> 0 < runtime -> 0 < start ->
  rt_period_start_ns b = start -> start + period <= now <= USIZE_MAX ->
  let '(t, b') := refresh_rt_bandwidth s now b in
  t = false /\ exists k, 0 < k /\ in_period (start + k * period) runtime 0 b' /\
    start + k * period <= now < start + k * period + period.
Proof.
  intros Hbw Hp Hr Hs Hb Hn. unfold refresh_rt_bandwidth. rewrite Hbw, Hb.
  destruct (start =? 0) eqn:?; [lia|]. rewrite sat_sub_small by lia.
  destruct (period <=? now - start) eqn:?; [|lia].
  pose proof (Z.div_mod (now - start) period ltac:(lia)) as Hdm.
  pose proof (Z.mod_pos_bound (now - start) period ltac:(lia)) as Hmod.
  assert (0 < (now - start) / period) by (apply Z.div_str_pos; lia).
  assert ((now - start) / period * period <= now - start) by lia.
  unfold sat_mul. rewrite Z.min_r by lia. rewrite sat_add_small by lia.
  split; [lia|]. exists ((now - start) / period). split; [done|]. split; [|lia].
  unfold in_period, sat_sub. simpl. split_and!; lia.
Qed.

(** C35: Real-time bandwidth is enforced: in a period that started at [start], the
    real-time class of the hart is throttled exactly when the charges reached
    the runtime, and stays so for the rest of the period; the first check after
    the period lifts the throttle, grants the full runtime, and starts the
    period that contains the time of the check. *)
Theorem rt_bandwidth_enforced s period runtime start charges b :
  rt_bandwidth_ns s = Some (period, runtime) -> 0 < runtime -> 0 < start ->
  in_period start runtime 0 b ->
  Forall (fun c => start <= c.1 < start + period /\ 0 <= c.2 <= U64_MAX) charges ->
  let b' := account_all s b charges in
  (forall now, start <= now < start + period ->
     (refresh_rt_bandwidth s now b').1 = (runtime <=? charged charges)) /\
  (forall now, start + period <= now <= USIZE_MAX ->
     let '(t, b'') := refresh_rt_bandwidth s now b' in
     t = false /\ exists k, 0 < k /\ in_period (start + k * period) runtime 0 b'' /\
       start + k * period <= now < start + k * period + period).
Proof.
  intros Hbw Hr Hs Hb Hc b'. pose proof (account_all_in_period s period runtime start 0 charges b
    Hbw Hr Hs ltac:(lia) Hc Hb) as Hb'. fold b' in Hb'. rewrite Z.add_0_l in Hb'.
  assert (0 <= charged charges).
  { unfold charged. clear -Hc. induction Hc as [|c l [_ H] _ IH]; simpl; lia. }
  assert (0 < period) as Hp.
  { unfold rt_bandwidth_ns in Hbw. case_if; [done|]. injection Hbw as <- <-. lia. }
  split.
  - intros now Hn. by destruct (refresh_in_period s period runtime start (charged charges) now b') as [-> _].
  - intros now Hn. eapply refresh_new_period; try done. apply Hb'.
Qed.

(** 950 ms of the default second are used up; the class is throttled, and no
    longer in the next period. *)
Lemma rt_bandwidth_enforced_witness :
  let b := account_all sysctl_default (mkRt 1000 950000000 false) [(2000, 900000000); (3000, 50000000)] in
  (refresh_rt_bandwidth sysctl_default 4000 b).1 = true /\
  (refresh_rt_bandwidth sysctl_default 1000001000 b).1 = false.
Proof.
  destruct (rt_bandwidth_enforced sysctl_default 1000000000 950000000 1000 [(2000, 900000000); (3000, 50000000)]
    (mkRt 1000 950000000 false)) as [H1 H2];
    [reflexivity|lia|lia|done|repeat constructor; simpl; lia|].
  split; [by rewrite H1 by lia|]. specialize (H2 1000001000 ltac:(lia)).
  destruct (refresh_rt_bandwidth _ _ _) as [t b]. apply H2.
Defined.

(** With [sched_rt_runtime_us = -1] nothing is ever throttled, and with runtime
    0 everything is. *)
Theorem rt_bandwidth_limits s now b :
  (rt_runtime_us s < 0 -> (refresh_rt_bandwidth s now b).1 = false /\
     forall delta, 0 < delta -> (refresh_rt_bandwidth s now (account_rt_runtime s now delta b)).1 = false) /\
  (rt_runtime_us s = 0 -> (refresh_rt_bandwidth s now b).1 = true).
Proof.
  unfold account_rt_runtime, refresh_rt_bandwidth, rt_bandwidth_ns. split.
  - intros Hr. destruct (rt_runtime_us s <? 0) eqn:?; [|lia]. split; [done|].
    intros delta Hd. by destruct (delta =? 0) eqn:?; [lia|].
  - intros ->. assert (forall x, Z.min (sat_mul (Z.max 0 0) USEC_TO_NSEC) (Z.max x 1) = 0) as Hz
      by (intros; change (sat_mul (Z.max 0 0) USEC_TO_NSEC) with 0; lia).
    rewrite Hz. change (0 <? 0) with false. cbv iota. repeat case_if; done.
Qed.

(** A second look at the same time changes nothing. *)
Lemma refresh_idempotent s now b :
  0 <= now <= USIZE_MAX -> 0 <= rt_period_start_ns b ->
  refresh_rt_bandwidth s now (refresh_rt_bandwidth s now b).2 = refresh_rt_bandwidth s now b.
Proof.
  intros Hn Hs. unfold refresh_rt_bandwidth at 2 3.
  destruct (rt_bandwidth_ns s) as [[period runtime]|] eqn:Hbw.
  2: { simpl. unfold refresh_rt_bandwidth. by rewrite Hbw. }
  assert (0 < period /\ 0 <= runtime) as [Hp Hr].
  { unfold rt_bandwidth_ns, USEC_TO_NSEC, sat_mul in Hbw. case_if; [done|]. injection Hbw as <- <-. lia. }
  assert (forall start rem thr, 0 <= start <= now -> now - start < period -> rem <= runtime ->
    (thr = (runtime =? 0) || (rem =? 0) || thr) ->
    (start = 0 -> now = 0 /\ rem = runtime /\ thr = (runtime =? 0)) ->
    refresh_rt_bandwidth s now (mkRt start rem thr) = (thr, mkRt start rem thr)) as Hstable.
  { intros start rem thr H1 H2 H3 H4 H5. unfold refresh_rt_bandwidth. rewrite Hbw. simpl.
    destruct (start =? 0) eqn:E0.
    - destruct H5 as (-> & -> & ->); [lia|]. assert (start = 0) as -> by lia. done.
    - rewrite sat_sub_small by lia. destruct (period <=? now - start) eqn:?; [lia|].
      destruct (runtime <? rem) eqn:?; [lia|]. by rewrite <- H4. }
  destruct (rt_period_start_ns b =? 0) eqn:E0.
  - simpl. apply Hstable; lia.
  - destruct (period <=? sat_sub now (rt_period_start_ns b)) eqn:E1.
    + assert (sat_sub now (rt_period_start_ns b) = now - rt_period_start_ns b) as E2 by (unfold sat_sub in *; lia).
      rewrite E2 in *. set (k := (now - rt_period_start_ns b) / period).
      pose proof (Z.div_mod (now - rt_period_start_ns b) period ltac:(lia)) as Hdm. fold k in Hdm.
      pose proof (Z.mod_pos_bound (now - rt_period_start_ns b) period ltac:(lia)) as Hmod.
      assert (0 < k) by (apply Z.div_str_pos; lia).
      assert (sat_mul k period = k * period) as -> by (unfold sat_mul; lia).
      rewrite sat_add_small by lia. simpl. apply Hstable; first [lia | nia].
    + destruct (runtime <? rt_runtime_remaining_ns b) eqn:E2.
      * destruct b as [st rem thr]. simpl in *. unfold sat_sub in *. destruct (decide (st <= now)).
        -- apply Hstable; simpl; lia.
        -- unfold refresh_rt_bandwidth. rewrite Hbw. simpl. rewrite E0. unfold sat_sub. rewrite E1.
           destruct (runtime <? runtime) eqn:?; [lia|]. by destruct (runtime =? 0).
      * destruct b as [st rem thr]. simpl in *. unfold refresh_rt_bandwidth. rewrite Hbw. simpl.
        rewrite E0, E1, E2. by destruct (runtime =? 0), (rem =? 0), thr.
Qed.
