(* ===== verification/TaskBlock.v ===== *)
(** * Task control blocks

    [task/task_block.rs]: the part of [TaskControlBlock] the scheduler reads and
    writes, the operations on its [on_cpu] word, and run-time accounting.  A
    task is named by its address ([fair_task_id], [Arc::as_ptr]); the atomics
    and the fields of the inner lock are fields of one record.  [on_cpu] holds
    the hart that runs the task, or [OFF_CPU]; its top bit marks a wakeup that
    arrived while the task was still running. *)

From S2P Require Import Prelude.

Inductive TaskStatus := StReady | StRunning | StBlocked.
#[export] Instance TaskStatus_eq_dec : EqDecision TaskStatus.
Proof. solve_decision. Defined.

Definition is_ready (s : TaskStatus) : bool := bool_decide (s = StReady).
Definition is_blocked (s : TaskStatus) : bool := bool_decide (s = StBlocked).

Inductive PendingWakeup := PwNone | PwNormal | PwSync (hart : Z).

Record TCB := mkTCB {
  t_cpu_id : Z;
  t_on_cpu : Z;
  t_wakeup_sync_hart : Z;
  t_in_ready_queue : bool;
  t_ready_queue_hart : Z;
  t_status : TaskStatus;
  t_has_res : bool;
  t_cgroup_frozen : bool;
  t_wake_on_cgroup_thaw : bool;
  t_parked_by_cgroup : bool;
  t_policy : Z;
  t_priority : Z;
  t_affinity : Z;
  t_nice : Z;
  t_rr_ticks : Z;
  t_fair_group_id : Z;
  t_fair_group_shares : Z;
  t_fair_vruntime_ns : Z;
  t_fair_vlag_ns : Z;
  t_fair_startup_credit_ns : Z;
  t_fair_deadline_ns : Z;
  t_fair_runtime_checkpoint_ns : Z;
  t_cpu_time_ns : Z;
  t_runtime_start_ns : Z
}.
#[export] Instance fields_TCB : Fields TCB := fun t =>
  mkTCB (t_cpu_id t) (t_on_cpu t) (t_wakeup_sync_hart t) (t_in_ready_queue t)
    (t_ready_queue_hart t) (t_status t) (t_has_res t) (t_cgroup_frozen t)
    (t_wake_on_cgroup_thaw t) (t_parked_by_cgroup t) (t_policy t) (t_priority t)
    (t_affinity t) (t_nice t) (t_rr_ticks t) (t_fair_group_id t) (t_fair_group_shares t)
    (t_fair_vruntime_ns t) (t_fair_vlag_ns t) (t_fair_startup_credit_ns t)
    (t_fair_deadline_ns t) (t_fair_runtime_checkpoint_ns t) (t_cpu_time_ns t)
    (t_runtime_start_ns t).

(** [config.rs] *)
Definition MAX_HARTS : Z := 12.

Definition OFF_CPU : Z := USIZE_MAX.
Definition WAKE_PENDING_BIT : Z := 9223372036854775808.

(** A task that is not running, queued nowhere, in the root fair group, with
    the default policy and affinity. *)
#[export] Instance TCB_inhabited : Inhabited TCB := populate
  (mkTCB 0 OFF_CPU OFF_CPU false OFF_CPU StReady true false false false
     0 0 0 0 0 0 1024 0 0 0 0 0 0 0).

Module Tcb.

Definition running_hart (t : TCB) : option Z :=
  if t_on_cpu t =? OFF_CPU then None
  else Some (Z.land (t_on_cpu t) (bnot WAKE_PENDING_BIT)).

Definition is_on_cpu (t : TCB) : bool := bool_decide (is_Some (running_hart t)).

Definition defer_wakeup_if_on_cpu (sync_source_hart : option Z) (t : TCB) : bool * TCB :=
  let t := match sync_source_hart with
           | Some source_hart => t {{ t_wakeup_sync_hart := source_hart }}
           | None => t
           end in
  let previous := t_on_cpu t in
  (negb (previous =? OFF_CPU), t {{ t_on_cpu := Z.lor previous WAKE_PENDING_BIT }}).

Definition try_mark_on_cpu (hart_id : Z) (t : TCB) : bool * TCB :=
  let t := t {{ t_cpu_id := hart_id }} in
  if t_on_cpu t =? OFF_CPU then (true, t {{ t_on_cpu := hart_id }}) else (false, t).

Definition finish_running (t : TCB) : PendingWakeup * TCB :=
  let previous := t_on_cpu t in
  let sync_hart := t_wakeup_sync_hart t in
  let t := t {{ t_on_cpu := OFF_CPU; t_wakeup_sync_hart := OFF_CPU }} in
  (if (previous =? OFF_CPU) || (Z.land previous WAKE_PENDING_BIT =? 0) then PwNone
   else if sync_hart =? OFF_CPU then PwNormal
   else PwSync sync_hart, t).

(** The compare-and-swap loop runs at most once against a quiet word. *)
Definition discard_deferred_wakeup (t : TCB) : TCB :=
  let current := t_on_cpu t in
  let t := if negb (current =? OFF_CPU) && negb (Z.land current WAKE_PENDING_BIT =? 0)
           then t {{ t_on_cpu := Z.land current (bnot WAKE_PENDING_BIT) }} else t in
  t {{ t_wakeup_sync_hart := OFF_CPU }}.

Definition has_deferred_wakeup (t : TCB) : bool :=
  negb (t_on_cpu t =? OFF_CPU) && negb (Z.land (t_on_cpu t) WAKE_PENDING_BIT =? 0).

Definition account_runtime_until (now_ns : Z) (t : TCB) : Z * TCB :=
  let delta_ns := sat_sub now_ns (t_runtime_start_ns t) in
  (delta_ns,
   if 0 <? delta_ns
   then t {{ t_cpu_time_ns := sat_add (t_cpu_time_ns t) delta_ns; t_runtime_start_ns := now_ns }}
   else t).

Definition begin_runtime_slice (now_ns : Z) (t : TCB) : TCB := t {{ t_runtime_start_ns := now_ns }}.

Definition cpu_time_total_ns (now_ns : Z) (t : TCB) : Z :=
  if is_on_cpu t then sat_add (t_cpu_time_ns t) (sat_sub now_ns (t_runtime_start_ns t))
  else t_cpu_time_ns t.

(** ** The [on_cpu] word

    [word h p]: running on hart [h], with a wakeup pending when [p]. *)
Definition word (h : Z) (p : bool) : Z := if p then Z.lor h WAKE_PENDING_BIT else h.

(** Harts are numbered well below the pending bit. *)
Definition hart_ok (h : Z) : Prop := 0 <= h < MAX_HARTS.

Ltac all_harts :=
  match goal with
  | H : hart_ok ?h |- _ =>
      let G := fresh in
      assert (h = 0 \/ h = 1 \/ h = 2 \/ h = 3 \/ h = 4 \/ h = 5 \/ h = 6 \/ h = 7 \/ h = 8
              \/ h = 9 \/ h = 10 \/ h = 11) as G by (unfold hart_ok, MAX_HARTS in H; lia);
      clear H; repeat (destruct G as [->|G]); [..|subst h]
  end.

Lemma word_not_off h p : hart_ok h -> (word h p =? OFF_CPU) = false.
Proof. intros. all_harts; by destruct p. Qed.

Lemma word_pending h p : hart_ok h -> (Z.land (word h p) WAKE_PENDING_BIT =? 0) = negb p.
Proof. intros. all_harts; by destruct p. Qed.

Lemma word_hart h p : hart_ok h -> Z.land (word h p) (bnot WAKE_PENDING_BIT) = h.
Proof. intros. all_harts; by destruct p. Qed.

Lemma word_defer h p : hart_ok h -> Z.lor (word h p) WAKE_PENDING_BIT = word h true.
Proof. intros. all_harts; by destruct p. Qed.

Lemma off_defer : Z.lor OFF_CPU WAKE_PENDING_BIT = OFF_CPU.
Proof. done. Qed.

Lemma word_inj h p h' p' : hart_ok h -> hart_ok h' -> word h p = word h' p' -> h = h' /\ p = p'.
Proof.
  intros Hh Hh' He. pose proof (word_hart h p Hh) as E. rewrite He, word_hart in E by done.
  subst h'. pose proof (word_pending h p Hh) as E. rewrite He, word_pending in E by done.
  split; [done|]. destruct p, p'; done.
Qed.

Lemma word_plain h : hart_ok h ->
  (h =? OFF_CPU) = false /\ Z.land h (bnot WAKE_PENDING_BIT) = h /\ (Z.land h WAKE_PENDING_BIT =? 0) = true.
Proof. intros. all_harts; done. Qed.

#[export] Hint Rewrite word_not_off word_pending word_hart word_defer using done : kernel.

(** The handshake between a waker and the hart that switches a task out.  A
    wakeup that finds the task on a CPU is recorded and delivered by
    [finish_running], exactly once, whatever the order of other wakeups before
    it; one that finds the task off CPU leaves the word unchanged and tells the
    caller to wake the task itself; discarding drops the recorded wakeup and
    nothing else. *)
Theorem wakeup_handshake t h p sync :
  hart_ok h -> t_on_cpu t = word h p ->
  let (deferred, t1) := defer_wakeup_if_on_cpu sync t in
  deferred = true /\ running_hart t1 = Some h /\ has_deferred_wakeup t1 = true /\
  (let (w, t2) := finish_running t1 in
   w <> PwNone /\ t_on_cpu t2 = OFF_CPU /\ running_hart t2 = None /\
   (finish_running t2).1 = PwNone /\
   (defer_wakeup_if_on_cpu None t2).1 = false /\
   t_on_cpu (defer_wakeup_if_on_cpu None t2).2 = OFF_CPU /\
   (forall s, sync = Some s -> s <> OFF_CPU -> w = PwSync s)) /\
  (let t3 := discard_deferred_wakeup t1 in
   running_hart t3 = Some h /\ (finish_running t3).1 = PwNone).
Proof.
  intros Hh Hw.
  unfold defer_wakeup_if_on_cpu, finish_running, discard_deferred_wakeup, running_hart,
    has_deferred_wakeup.
  destruct sync as [s|]; simpl; rewrite Hw; autorewrite with kernel; simpl;
    split_and!; try done; try (by case_if).
  all: try (destruct (word_plain h Hh) as (E1 & E2 & E3); rewrite ?E1, ?E2, ?E3; done).
  intros s' [= <-] Hs. destruct (s =? OFF_CPU) eqn:E; [lia|done].
Qed.

(** A wakeup meets a task on hart 3. *)
Lemma wakeup_handshake_witness :
  let t := (inhabitant : TCB) {{ t_on_cpu := 3 }} in
  (defer_wakeup_if_on_cpu None t).1 = true /\ (finish_running (defer_wakeup_if_on_cpu None t).2).1 <> PwNone.
Proof.
  pose proof (wakeup_handshake ((inhabitant : TCB) {{ t_on_cpu := 3 }}) 3 false None) as H. cbv zeta.
  destruct (defer_wakeup_if_on_cpu None _) as [d t1]. destruct H as (-> & _ & _ & H & _); [done..|].
  split; [done|]. simpl snd. destruct (finish_running t1) as [w t2]. apply H.
Defined.

(** Only one hart can take a task: [try_mark_on_cpu] succeeds exactly on a task
    that is off CPU, and the word then names that hart until [finish_running]. *)
Lemma try_mark_on_cpu_spec t h :
  hart_ok h -> (t_on_cpu t = OFF_CPU \/ exists h' p, hart_ok h' /\ t_on_cpu t = word h' p) ->
  let (ok, t') := try_mark_on_cpu h t in
  (ok = true <-> t_on_cpu t = OFF_CPU) /\
  t_on_cpu t' = (if ok then word h false else t_on_cpu t) /\
  (ok = true -> running_hart t' = Some h).
Proof.
  intros Hh Ht. unfold try_mark_on_cpu, running_hart. simpl.
  destruct (t_on_cpu t =? OFF_CPU) eqn:E; simpl.
  - split_and!; [split; [lia|done]|done|]. intros _.
    pose proof (word_not_off h false Hh) as E1. pose proof (word_hart h false Hh) as E2.
    simpl in E1, E2. by rewrite E1, E2.
  - split_and!; [split; [done|lia]|done|done].
Qed.

(** ** Run-time accounting *)

(** What the accounting of a running task keeps: the accounted time plus the
    open slice is the total, and closing the slice at [now] leaves the total
    unchanged, opens an empty slice, and never loses or double counts time. *)
Lemma account_runtime_total t now later :
  is_on_cpu t = true -> 0 <= t_runtime_start_ns t <= now -> now <= later ->
  0 <= t_cpu_time_ns t -> t_cpu_time_ns t + (later - t_runtime_start_ns t) <= U64_MAX ->
  let (delta, t') := account_runtime_until now t in
  delta = now - t_runtime_start_ns t /\
  t_cpu_time_ns t' = cpu_time_total_ns now t /\
  cpu_time_total_ns later t' = cpu_time_total_ns later t.
Proof.
  intros Hon Hs Hl Hc Hb. unfold account_runtime_until. rewrite sat_sub_small by lia.
  split; [done|]. unfold cpu_time_total_ns.
  case_if; [|rewrite Hon; split; [ulia|done]].
  assert (forall c r, is_on_cpu (t {{ t_cpu_time_ns := c; t_runtime_start_ns := r }}) = is_on_cpu t)
    as -> by done.
  rewrite Hon. simpl. split; ulia.
Qed.

End Tcb.
