(* ===== verification/FairGroup.v ===== *)
(** * Fair scheduling entities

    [task/manager/fair.rs]: the fair (EEVDF) groups of a run queue, their
    entities, weights and virtual times, and the placement of an entity when its
    task is queued.  A [BTreeMap] keyed by task id and a [BTreeSet] ordered by
    (deadline, vruntime, id) hold the entities; the weighted sums behind the
    average virtual time are maintained incrementally with saturating [u128]
    arithmetic. *)

From S2P Require Import Prelude.
From S2P Require Import BTree.
From S2P Require Import Sched.
From S2P Require Import TaskBlock.

Record FairTaskEntity := mkEntity {
  e_vruntime : Z;
  e_deadline : Z;
  e_weight : Z;
  e_task : Z
}.

Record FairGroupQueue := mkGroup {
  g_shares : Z;
  g_vruntime : Z;
  g_min_task_vruntime : Z;
  g_vruntime_weighted_sum : Z;
  g_weight_sum : Z;
  g_tasks : list (Z * FairTaskEntity);
  g_task_order : list ((Z * Z * Z) * unit)
}.
#[export] Instance fields_FairGroupQueue : Fields FairGroupQueue := fun g =>
  mkGroup (g_shares g) (g_vruntime g) (g_min_task_vruntime g) (g_vruntime_weighted_sum g)
    (g_weight_sum g) (g_tasks g) (g_task_order g).

Inductive EnqueueKind := EnqInitial | EnqWakeup | EnqRequeue.
#[export] Instance EnqueueKind_eq_dec : EqDecision EnqueueKind.
Proof. solve_decision. Defined.

Module Group.

Definition new (vruntime : Z) : FairGroupQueue := mkGroup 1024 vruntime vruntime 0 0 [] [].

Definition len (g : FairGroupQueue) : Z := Z.of_nat (length (g_tasks g)).

Definition is_empty (g : FairGroupQueue) : bool :=
  match g_tasks g with [] => true | _ => false end.

Definition unlink_task (g : FairGroupQueue) (task_id : Z) : option FairTaskEntity * FairGroupQueue :=
  match bt_get (g_tasks g) task_id with
  | None => (None, g)
  | Some entity =>
      (Some entity,
       g {{ g_tasks := bt_remove (g_tasks g) task_id;
            g_task_order := bs_remove (g_task_order g) (e_deadline entity, e_vruntime entity, task_id);
            g_vruntime_weighted_sum :=
              sat_sub (g_vruntime_weighted_sum g) (sat_mul128 (e_vruntime entity) (e_weight entity));
            g_weight_sum := sat_sub (g_weight_sum g) (e_weight entity) }})
  end.

Definition insert_task (g : FairGroupQueue) (task_id task vruntime deadline weight : Z) : FairGroupQueue :=
  let old := bt_get (g_tasks g) task_id in
  let g := g {{ g_tasks := bt_insert (g_tasks g) task_id (mkEntity vruntime deadline weight task) }} in
  let g := match old with
           | Some old =>
               g {{ g_task_order := bs_remove (g_task_order g) (e_deadline old, e_vruntime old, task_id);
                    g_vruntime_weighted_sum :=
                      sat_sub (g_vruntime_weighted_sum g) (sat_mul128 (e_vruntime old) (e_weight old));
                    g_weight_sum := sat_sub (g_weight_sum g) (e_weight old) }}
           | None => g
           end in
  g {{ g_vruntime_weighted_sum :=
         sat_add128 (g_vruntime_weighted_sum g) (sat_mul128 vruntime weight);
       g_weight_sum := sat_add128 (g_weight_sum g) weight;
       g_task_order := bs_insert (g_task_order g) (deadline, vruntime, task_id) }}.

Definition avg_task_vruntime_with (g : FairGroupQueue) (current : option (Z * Z)) : option Z :=
  let weighted_sum := g_vruntime_weighted_sum g in
  let weight_sum := g_weight_sum g in
  let '(weighted_sum, weight_sum) :=
    match current with
    | Some (vruntime, weight) =>
        (sat_add128 weighted_sum (sat_mul128 vruntime weight), sat_add128 weight_sum weight)
    | None => (weighted_sum, weight_sum)
    end in
  if weight_sum =? 0 then None
  else Some (Z.max (weighted_sum / weight_sum) (g_min_task_vruntime g)).

Definition avg_task_vruntime (g : FairGroupQueue) : option Z := avg_task_vruntime_with g None.

End Group.

(** ** Weights and slices *)

Inductive ReadyQueueSlot := SlotRt (idx : Z) | SlotFair.

Definition task_queue_slot (t : TCB) : ReadyQueueSlot :=
  match sched_class (t_policy t) with
  | Some ClassFifo | Some ClassRr => SlotRt (rt_queue_index (t_priority t))
  | Some ClassFair | None => SlotFair
  end.

Definition is_fair_slot (s : ReadyQueueSlot) : bool :=
  match s with SlotFair => true | SlotRt _ => false end.

Definition fair_group_id_and_shares (t : TCB) : Z * Z :=
  (t_fair_group_id t, Z.max (t_fair_group_shares t) 1).

Definition NICE_WEIGHTS : list Z :=
  [88761; 71755; 56483; 46273; 36291; 29154; 23254; 18705; 14949; 11916; 9548; 7620; 6100;
   4904; 3906; 3121; 2501; 1991; 1586; 1277; 1024; 820; 655; 526; 423; 335; 272; 215; 172;
   137; 110; 87; 70; 56; 45; 36; 29; 23; 18; 15].

Definition fair_nice_weight (nice : Z) : Z :=
  NICE_WEIGHTS !!! Z.to_nat (clamp nice (-20) 19 + 20).

Definition NICE_0_LOAD : Z := 1024.

Definition scale_fair_delta (delta_ns weight : Z) : Z :=
  Z.max (delta_ns * NICE_0_LOAD / Z.max weight 1) 1.

Definition FAIR_BASE_SLICE_NS : Z := 2000000.

Definition fair_entity_vslice_ns (nice : Z) (kind : EnqueueKind) : Z :=
  let vslice := scale_fair_delta FAIR_BASE_SLICE_NS (fair_nice_weight nice) in
  if bool_decide (kind = EnqInitial) then Z.max (vslice / 2) 1 else vslice.

(** [time.rs], with [TICKS_PER_SEC = 100]. *)
Definition TICKS_PER_SEC : Z := 100.
Definition tick_period_ns : Z := Z.max (1000000000 / TICKS_PER_SEC) 1.

Definition fair_lag_limit_ns (nice : Z) : Z :=
  sat_add128 (fair_entity_vslice_ns nice EnqRequeue) tick_period_ns.

Definition fair_wakeup_lag_cap_ns (nice : Z) : Z := sat_mul128 (fair_lag_limit_ns nice) 2.

Definition fair_startup_credit_cap_ns : Z := 50000000.

Definition inflate_fair_lag_ns (vlag load weight : Z) : Z :=
  if load =? 0 then vlag else sat_mul128 vlag (sat_add128 load weight) / load.

(** ** Placement *)

(** Result [(vruntime, deadline)], the group and the task after. *)
Definition place_fair_task_entity (g : FairGroupQueue) (t : TCB) (kind : EnqueueKind)
    (current_entity : option (Z * Z)) : (Z * Z) * FairGroupQueue * TCB :=
  let avg_vruntime :=
    unwrap_or (Group.avg_task_vruntime_with g current_entity) (g_min_task_vruntime g) in
  let t := if t_fair_vruntime_ns t <? g_min_task_vruntime g
           then t {{ t_fair_vruntime_ns := g_min_task_vruntime g }} else t in
  let current_ns := t_cpu_time_ns t in
  let delta_ns := sat_sub current_ns (t_fair_runtime_checkpoint_ns t) in
  let '(g, t) :=
    if 0 <? delta_ns then
      (g {{ g_vruntime := sat_add128 (g_vruntime g) (scale_fair_delta delta_ns (Z.max (g_shares g) 1)) }},
       t {{ t_fair_vruntime_ns :=
              sat_add128 (t_fair_vruntime_ns t) (scale_fair_delta delta_ns (fair_nice_weight (t_nice t))) }})
    else (g, t) in
  let placement_vruntime := Z.max avg_vruntime (g_min_task_vruntime g) in
  let weight := fair_nice_weight (t_nice t) in
  let saved_vlag := Z.min (t_fair_vlag_ns t) (fair_wakeup_lag_cap_ns (t_nice t)) in
  let startup_credit := Z.min (t_fair_startup_credit_ns t) fair_startup_credit_cap_ns in
  let t := t {{ t_fair_vlag_ns := 0; t_fair_startup_credit_ns := 0 }} in
  let load := sat_add128 (g_weight_sum g) (unwrap_or (snd <$> current_entity) 0) in
  let t :=
    match kind with
    | EnqInitial => t {{ t_fair_vruntime_ns := placement_vruntime }}
    | EnqWakeup =>
        let effective_vlag := Z.max saved_vlag startup_credit in
        if (0 <? effective_vlag) && (0 <? load) then
          let inflated := inflate_fair_lag_ns effective_vlag load weight in
          t {{ t_fair_vruntime_ns := sat_sub placement_vruntime inflated }}
        else if placement_vruntime <? t_fair_vruntime_ns t then
          t {{ t_fair_vruntime_ns := placement_vruntime }}
        else t
    | EnqRequeue =>
        if 0 <? startup_credit then
          if 0 <? load then
            let inflated := inflate_fair_lag_ns startup_credit load weight in
            let credited_vruntime := sat_sub placement_vruntime inflated in
            if credited_vruntime <? t_fair_vruntime_ns t
            then t {{ t_fair_vruntime_ns := credited_vruntime }} else t
          else if placement_vruntime <? t_fair_vruntime_ns t then
            t {{ t_fair_vruntime_ns := placement_vruntime }}
          else t
        else t
    end in
  let t := t {{ t_fair_runtime_checkpoint_ns := current_ns }} in
  let vruntime := t_fair_vruntime_ns t in
  let deadline := sat_add128 vruntime (fair_entity_vslice_ns (t_nice t) kind) in
  ((vruntime, deadline), g, t {{ t_fair_deadline_ns := deadline }}).

(** CPU time of a task at [now], the running slice included
    (the expression [fair.rs] repeats for the task at hand). *)
Definition current_runtime_ns (t : TCB) (now_ns : Z) : Z :=
  if Tcb.is_on_cpu t then sat_add (t_cpu_time_ns t) (sat_sub now_ns (t_runtime_start_ns t))
  else t_cpu_time_ns t.

Definition fair_task_vruntime_deadline_at (t : TCB) (now_ns : Z) : Z * Z :=
  let delta_ns := sat_sub (current_runtime_ns t now_ns) (t_fair_runtime_checkpoint_ns t) in
  (sat_add128 (t_fair_vruntime_ns t) (scale_fair_delta delta_ns (fair_nice_weight (t_nice t))),
   t_fair_deadline_ns t).

Definition is_fair_task (t : TCB) : bool := bool_decide (sched_class (t_policy t) = Some ClassFair).

Definition prime_fair_timer_wakeup_lag (t : TCB) : TCB :=
  if negb (is_fair_task t) then t
  else t {{ t_fair_vlag_ns := Z.max (t_fair_vlag_ns t) (fair_wakeup_lag_cap_ns (t_nice t)) }}.

Definition prime_fair_sync_wakeup_lag (t : TCB) : TCB :=
  if negb (is_fair_task t) then t
  else t {{ t_fair_vlag_ns := Z.max (t_fair_vlag_ns t) (fair_lag_limit_ns (t_nice t)) }}.

Definition protect_fair_fork_parent (now_ns : Z) (t : TCB) : TCB :=
  if negb (is_fair_task t) then t
  else
    let (vruntime, _) := fair_task_vruntime_deadline_at t now_ns in
    if t_fair_deadline_ns t =? 0 then
      t {{ t_fair_deadline_ns := sat_add128 vruntime (fair_entity_vslice_ns (t_nice t) EnqRequeue) }}
    else t.

Definition prime_fair_startup_credit (now_ns credit_ns : Z) (t : TCB) : TCB :=
  if negb (is_fair_task t) then t
  else
    let (vruntime, _) := fair_task_vruntime_deadline_at t now_ns in
    t {{ t_fair_deadline_ns := Z.max (t_fair_deadline_ns t) (sat_add128 vruntime credit_ns);
         t_fair_startup_credit_ns :=
           Z.max (t_fair_startup_credit_ns t) (Z.min credit_ns fair_startup_credit_cap_ns) }}.

Definition prime_fair_exec_start (now_ns : Z) (t : TCB) : TCB :=
  prime_fair_startup_credit now_ns fair_startup_credit_cap_ns t.

Definition THREAD_GROUP_STARTUP_MAX_THREADS : Z := 16.

Definition prime_fair_thread_group_start (now_ns thread_count : Z) (t : TCB) : TCB :=
  if THREAD_GROUP_STARTUP_MAX_THREADS <? thread_count then t
  else prime_fair_startup_credit now_ns fair_startup_credit_cap_ns t.

(** ** Invariant of a group *)

Definition weighted (ts : list (Z * FairTaskEntity)) : Z :=
  foldr (fun p acc => e_vruntime (snd p) * e_weight (snd p) + acc) 0 ts.
Definition weights (ts : list (Z * FairTaskEntity)) : Z :=
  foldr (fun p acc => e_weight (snd p) + acc) 0 ts.

Record entity_ok (id : Z) (e : FairTaskEntity) : Prop := {
  eo_task : e_task e = id;
  eo_vruntime : 0 <= e_vruntime e;
  eo_weight : 0 < e_weight e
}.

(** The index holds exactly the keys of the entities and the sums are the exact
    sums: nothing was lost to saturation. *)
Record group_wf (g : FairGroupQueue) : Prop := {
  gw_tasks : bt_wf (g_tasks g);
  gw_order : bt_wf (g_task_order g);
  gw_index : forall d v id, (d, v, id) ∈ bs_iter (g_task_order g) <->
    exists e, bt_get (g_tasks g) id = Some e /\ e_deadline e = d /\ e_vruntime e = v;
  gw_entity : forall id e, bt_get (g_tasks g) id = Some e -> entity_ok id e;
  gw_sum : g_vruntime_weighted_sum g = weighted (g_tasks g) /\ weighted (g_tasks g) <= U128_MAX;
  gw_weight : g_weight_sum g = weights (g_tasks g) /\ weights (g_tasks g) <= U128_MAX;
  gw_min : 0 <= g_min_task_vruntime g
}.

(** There is room for an entity of this virtual time and weight. *)
Definition fits (g : FairGroupQueue) (vruntime weight : Z) : Prop :=
  weighted (g_tasks g) + vruntime * weight <= U128_MAX /\ weights (g_tasks g) + weight <= U128_MAX.

#[export] Instance weighted_perm : Proper (Permutation ==> eq) weighted.
Proof. intros l l' Hp. unfold weighted. induction Hp; simpl; lia. Qed.
#[export] Instance weights_perm : Proper (Permutation ==> eq) weights.
Proof. intros l l' Hp. unfold weights. induction Hp; simpl; lia. Qed.

Lemma weighted_cons p ts : weighted (p :: ts) = e_vruntime p.2 * e_weight p.2 + weighted ts.
Proof. done. Qed.
Lemma weights_cons p ts : weights (p :: ts) = e_weight p.2 + weights ts.
Proof. done. Qed.

Lemma weighted_nonneg ts :
  (forall id e, (id, e) ∈ ts -> entity_ok id e) -> 0 <= weighted ts /\ 0 <= weights ts.
Proof.
  induction ts as [|[id e] ts IH]; intros Hok; [done|].
  rewrite weighted_cons, weights_cons. simpl.
  destruct (Hok id e) as [_ H1 H2]; [left|]. destruct IH as [H3 H4].
  { intros id' e' Hin. apply Hok. by right. }
  nia.
Qed.

Lemma group_elem g id e : group_wf g -> (id, e) ∈ g_tasks g <-> bt_get (g_tasks g) id = Some e.
Proof. intros W. by rewrite bt_get_elem by apply W. Qed.

Lemma group_new_wf v : 0 <= v -> group_wf (Group.new v).
Proof.
  intros Hv. constructor; simpl; try done.
  - apply bt_wf_nil.
  - apply bt_wf_nil.
  - intros d v' id. split; [intros H; inversion H|intros (e & ? & _); done].
Qed.

Lemma group_set_wf g shares vr m :
  group_wf g -> 0 <= m -> group_wf (g {{ g_shares := shares; g_vruntime := vr; g_min_task_vruntime := m }}).
Proof. intros [? ? ? ? ? ? ?] Hm. by constructor. Qed.

(** [unlink_task] on a present task: exactly that entity goes. *)
Lemma unlink_task_wf g id e :
  group_wf g -> bt_get (g_tasks g) id = Some e ->
  let g' := (Group.unlink_task g id).2 in
  (Group.unlink_task g id).1 = Some e /\ group_wf g' /\
  g_tasks g' = bt_remove (g_tasks g) id /\
  g_vruntime g' = g_vruntime g /\ g_shares g' = g_shares g /\
  g_min_task_vruntime g' = g_min_task_vruntime g.
Proof.
  intros W He. unfold Group.unlink_task. rewrite He. simpl. split_and!; try done.
  destruct W as [W1 W2 W3 W4 [W5 W5'] [W6 W6'] W7].
  pose proof (bt_remove_perm _ _ _ He) as Hp.
  pose proof (weighted_perm _ _ Hp) as Hw. pose proof (weights_perm _ _ Hp) as Hw'.
  rewrite weighted_cons in Hw. rewrite weights_cons in Hw'. simpl in Hw, Hw'.
  destruct (weighted_nonneg (bt_remove (g_tasks g) id)) as [N1 N2].
  { intros id' e' Hin. apply W4. apply bt_get_elem; [done|]. by eapply bt_remove_sub. }
  destruct (W4 _ _ He) as [_ V1 V2].
  assert (sat_mul128 (e_vruntime e) (e_weight e) = e_vruntime e * e_weight e) as Hm
    by (unfold sat_mul128; lia).
  constructor; simpl.
  - by apply bt_wf_remove.
  - by apply bt_wf_remove.
  - intros d v id'. rewrite bs_remove_elem, W3 by done. split.
    + intros (Hne & e' & He' & <- & <-). exists e'. split; [|done].
      rewrite bt_get_remove by done. destruct (key_eqb id' id) eqn:E; [|done].
      apply key_eqb_eq in E as ->. rewrite He in He'. injection He' as <-. done.
    + intros (e' & He' & <- & <-). rewrite bt_get_remove in He' by done.
      destruct (key_eqb id' id) eqn:E; [done|]. apply key_eqb_neq in E.
      split; [congruence|]. by exists e'.
  - intros id' e' He'. rewrite bt_get_remove in He' by done. case_if; [done|]. by apply W4.
  - rewrite W5, Hm. unfold sat_sub. lia.
  - rewrite W6. unfold sat_sub. lia.
  - done.
Qed.

Lemma unlink_task_absent g id :
  bt_get (g_tasks g) id = None -> Group.unlink_task g id = (None, g).
Proof. intros H. unfold Group.unlink_task. by rewrite H. Qed.

(** [insert_task] of a task the group does not hold. *)
Lemma insert_task_wf g id v d w :
  group_wf g -> bt_get (g_tasks g) id = None -> 0 <= v -> 0 < w -> fits g v w ->
  let g' := Group.insert_task g id id v d w in
  group_wf g' /\ g_tasks g' = bt_insert (g_tasks g) id (mkEntity v d w id) /\
  g_vruntime g' = g_vruntime g /\ g_shares g' = g_shares g /\
  g_min_task_vruntime g' = g_min_task_vruntime g.
Proof.
  intros [W1 W2 W3 W4 [W5 W5'] [W6 W6'] W7] Hn Hv Hw [F1 F2].
  unfold Group.insert_task. rewrite Hn. simpl. split_and!; try done.
  pose proof (bt_insert_perm (g_tasks g) id (mkEntity v d w id) W1) as Hp.
  rewrite bt_remove_absent in Hp by done.
  pose proof (weighted_perm _ _ Hp) as E1. pose proof (weights_perm _ _ Hp) as E2.
  rewrite weighted_cons in E1. rewrite weights_cons in E2. simpl in E1, E2.
  destruct (weighted_nonneg (g_tasks g)) as [N1 N2].
  { intros id' e' Hin. apply W4. by apply bt_get_elem. }
  constructor; simpl.
  - by apply bt_wf_insert.
  - by apply bt_wf_insert.
  - intros d' v' id'. rewrite bs_insert_elem, W3, bt_get_insert by done.
    destruct (key_eqb id' id) eqn:E.
    + apply key_eqb_eq in E as ->. rewrite Hn. split.
      * intros [[= -> ->]|(e & ? & _)]; [|done]. eexists. done.
      * intros (e & [= <-] & <- & <-). by left.
    + apply key_eqb_neq in E. naive_solver.
  - intros id' e'. rewrite bt_get_insert. destruct (key_eqb id' id) eqn:E; [|apply W4].
    apply key_eqb_eq in E as ->. intros [= <-]. by constructor.
  - rewrite W5, E1. unfold sat_add128, sat_mul128. lia.
  - rewrite W6, E2. unfold sat_add128. lia.
  - done.
Qed.

(** ** Averages *)

Lemma weights_pos ts :
  (forall id e, (id, e) ∈ ts -> entity_ok id e) -> ts <> [] -> 0 < weights ts.
Proof.
  destruct ts as [|[id e] ts]; [done|]. intros Hok _.
  rewrite weights_cons. simpl. destruct (Hok id e) as [_ _ H2]; [left|].
  destruct (weighted_nonneg ts) as [_ N2]; [|lia].
  intros id' e' Hin. apply Hok. by right.
Qed.

Lemma weighted_above ts a :
  (forall id e, (id, e) ∈ ts -> entity_ok id e /\ a <= e_vruntime e) -> a * weights ts <= weighted ts.
Proof.
  induction ts as [|[id e] ts IH]; intros Hok; [simpl; lia|].
  rewrite weighted_cons, weights_cons. simpl.
  destruct (Hok id e) as [[_ _ H1] H2]; [left|].
  assert (a * weights ts <= weighted ts) by (apply IH; intros ?? Hin; apply Hok; by right). nia.
Qed.

(** The average is the exact weighted average, never below the group's
    monotone base, and some entity is eligible: its virtual time is at most the
    average. *)
Lemma avg_task_vruntime_spec g :
  group_wf g -> g_tasks g <> [] ->
  exists avg, Group.avg_task_vruntime g = Some avg /\
    avg = Z.max (weighted (g_tasks g) / weights (g_tasks g)) (g_min_task_vruntime g) /\
    exists id e, bt_get (g_tasks g) id = Some e /\ e_vruntime e <= avg.
Proof.
  intros W Hne. unfold Group.avg_task_vruntime, Group.avg_task_vruntime_with. simpl.
  destruct (gw_sum g W) as [-> _], (gw_weight g W) as [-> _].
  assert (forall id e, (id, e) ∈ g_tasks g -> entity_ok id e) as Hok.
  { intros id e Hin. apply (gw_entity g W). by apply group_elem. }
  pose proof (weights_pos _ Hok Hne) as Hpos.
  destruct (weights (g_tasks g) =? 0) eqn:?; [lia|]. eexists. split; [done|]. split; [done|].
  set (avg := weighted (g_tasks g) / weights (g_tasks g)).
  destruct (decide (Exists (fun p => e_vruntime (snd p) <= avg) (g_tasks g))) as [Hex|Hno].
  - apply Exists_exists in Hex as ([id e] & Hin & Hle). simpl in Hle. exists id, e.
    split; [by apply group_elem|lia].
  - exfalso. assert ((avg + 1) * weights (g_tasks g) <= weighted (g_tasks g)) as Hge.
    { apply weighted_above. intros id e Hin. split; [by apply Hok|].
      destruct (decide (e_vruntime e <= avg)); [|lia]. exfalso. apply Hno, Exists_exists.
      by exists (id, e). }
    pose proof (Z.mul_succ_div_gt (weighted (g_tasks g)) _ Hpos). fold avg in H. lia.
Qed.

(** ** Weights *)

Lemma nice_weight_table :
  forallb (fun i => (NICE_WEIGHTS !!! S i <? NICE_WEIGHTS !!! i) && (0 <? NICE_WEIGHTS !!! S i)) (seq 0 39)
  = true.
Proof. vm_compute. done. Qed.

Lemma nice_weight_step i : (i < 39)%nat ->
  0 < NICE_WEIGHTS !!! S i /\ NICE_WEIGHTS !!! S i < NICE_WEIGHTS !!! i.
Proof.
  intros Hi. pose proof nice_weight_table as H. rewrite forallb_forall in H.
  specialize (H i). rewrite in_seq in H. specialize (H ltac:(lia)). lia.
Qed.

Lemma nice_weight_mono i j : (i < j < 40)%nat -> NICE_WEIGHTS !!! j < NICE_WEIGHTS !!! i.
Proof.
  intros [Hij Hj]. induction j as [|j IH]; [lia|].
  destruct (nice_weight_step j) as [_ Hs]; [lia|].
  destruct (decide (i = j)) as [->|]; [done|]. specialize (IH ltac:(lia) ltac:(lia)). lia.
Qed.

Lemma fair_nice_weight_range nice : 15 <= fair_nice_weight nice <= 88761.
Proof.
  unfold fair_nice_weight. set (i := Z.to_nat (clamp nice (-20) 19 + 20)).
  assert (i < 40)%nat as Hi by (subst i; ulia).
  split.
  - destruct (decide (i = 39%nat)) as [->|]; [done|].
    pose proof (nice_weight_mono i 39 ltac:(lia)). change (NICE_WEIGHTS !!! 39%nat) with 15 in H. lia.
  - destruct (decide (i = 0%nat)) as [->|]; [done|].
    pose proof (nice_weight_mono 0 i ltac:(lia)). change (NICE_WEIGHTS !!! 0%nat) with 88761 in H. lia.
Qed.

(** A nicer task has a strictly smaller weight, so the same run time moves its
    virtual time at least as far; nice values outside [-20, 19] are clamped,
    and nice 0 charges real time. *)
Theorem fair_charge_order nice nice' delta :
  -20 <= nice < nice' -> nice' <= 19 -> 0 <= delta ->
  fair_nice_weight nice' < fair_nice_weight nice /\
  scale_fair_delta delta (fair_nice_weight nice) <= scale_fair_delta delta (fair_nice_weight nice') /\
  scale_fair_delta delta (fair_nice_weight 0) = Z.max delta 1 /\
  (forall n, fair_nice_weight n = fair_nice_weight (clamp n (-20) 19)).
Proof.
  intros H1 H2 H3.
  assert (fair_nice_weight nice' < fair_nice_weight nice) as Hlt.
  { unfold fair_nice_weight. apply nice_weight_mono. ulia. }
  pose proof (fair_nice_weight_range nice) as Hr. pose proof (fair_nice_weight_range nice') as Hr'.
  split; [done|]. split.
  - unfold scale_fair_delta, NICE_0_LOAD. rewrite !Z.max_l with (m := 1) (n := fair_nice_weight _) by lia.
    apply Z.max_le_compat_r, Z.div_le_compat_l; lia.
  - split; [|intros n; unfold fair_nice_weight; do 3 f_equal; ulia].
    unfold scale_fair_delta. change (Z.max (fair_nice_weight 0) 1) with NICE_0_LOAD.
    rewrite Z.div_mul by done. done.
Qed.

Lemma scale_fair_delta_pos delta weight : 0 <= delta -> 1 <= scale_fair_delta delta weight.
Proof. unfold scale_fair_delta. lia. Qed.

Lemma fair_entity_vslice_pos nice kind : 1 <= fair_entity_vslice_ns nice kind.
Proof.
  unfold fair_entity_vslice_ns, scale_fair_delta. case_if; lia.
Qed.

(** ** Placement *)

(** Times and credits a TCB carries. *)
Record fair_fields_ok (t : TCB) : Prop := {
  ff_vruntime : 0 <= t_fair_vruntime_ns t <= U128_MAX;
  ff_vlag : 0 <= t_fair_vlag_ns t;
  ff_credit : 0 <= t_fair_startup_credit_ns t;
  ff_time : 0 <= t_cpu_time_ns t;
  ff_checkpoint : 0 <= t_fair_runtime_checkpoint_ns t
}.

(** The virtual time at which a group's queue stands for a task entering it. *)
Definition placement (g : FairGroupQueue) (current : option (Z * Z)) : Z :=
  Z.max (unwrap_or (Group.avg_task_vruntime_with g current) (g_min_task_vruntime g))
    (g_min_task_vruntime g).

Definition entity_load (g : FairGroupQueue) (current : option (Z * Z)) : Z :=
  sat_add128 (g_weight_sum g) (unwrap_or (snd <$> current) 0).

(** What the task owes since it was last placed: its virtual time raised to the
    group's base, plus the weighted run time. *)
Definition charged_vruntime (g : FairGroupQueue) (t : TCB) : Z :=
  let base := Z.max (t_fair_vruntime_ns t) (g_min_task_vruntime g) in
  let delta := sat_sub (t_cpu_time_ns t) (t_fair_runtime_checkpoint_ns t) in
  if 0 <? delta then sat_add128 base (scale_fair_delta delta (fair_nice_weight (t_nice t))) else base.

Definition credit (t : TCB) (kind : EnqueueKind) : Z :=
  let startup := Z.min (t_fair_startup_credit_ns t) fair_startup_credit_cap_ns in
  match kind with
  | EnqInitial => 0
  | EnqWakeup => Z.max (Z.min (t_fair_vlag_ns t) (fair_wakeup_lag_cap_ns (t_nice t))) startup
  | EnqRequeue => startup
  end.

(** The virtual time given to the task, in closed form. *)
Definition placed_vruntime (g : FairGroupQueue) (t : TCB) (kind : EnqueueKind)
    (current : option (Z * Z)) : Z :=
  let p := placement g current in
  let c := credit t kind in
  let load := entity_load g current in
  let lagged := sat_sub p (inflate_fair_lag_ns c load (fair_nice_weight (t_nice t))) in
  match kind with
  | EnqInitial => p
  | EnqWakeup => if (0 <? c) && (0 <? load) then lagged else Z.min (charged_vruntime g t) p
  | EnqRequeue =>
      if 0 <? c then Z.min (charged_vruntime g t) (if 0 <? load then lagged else p)
      else charged_vruntime g t
  end.

Lemma place_fair_task_entity_eq g t kind current :
  let '((v, d), g', t') := place_fair_task_entity g t kind current in
  v = placed_vruntime g t kind current /\
  d = sat_add128 v (fair_entity_vslice_ns (t_nice t) kind) /\
  g' = g {{ g_vruntime :=
    let delta := sat_sub (t_cpu_time_ns t) (t_fair_runtime_checkpoint_ns t) in
    if 0 <? delta then sat_add128 (g_vruntime g) (scale_fair_delta delta (Z.max (g_shares g) 1))
    else g_vruntime g }} /\
  t' = t {{ t_fair_vruntime_ns := v; t_fair_vlag_ns := 0; t_fair_startup_credit_ns := 0;
            t_fair_deadline_ns := d; t_fair_runtime_checkpoint_ns := t_cpu_time_ns t }}.
Proof.
  unfold place_fair_task_entity, placed_vruntime, charged_vruntime, placement, entity_load, credit.
  cbv zeta.
  destruct (t_fair_vruntime_ns t <? g_min_task_vruntime g) eqn:E1;
    [rewrite Z.max_r with (n := t_fair_vruntime_ns t) by lia
    |rewrite Z.max_l with (n := t_fair_vruntime_ns t) by lia];
  cbn -[Z.max Z.min sat_add128 sat_sub sat_mul128 Z.ltb inflate_fair_lag_ns fair_entity_vslice_ns
        scale_fair_delta fair_nice_weight fair_wakeup_lag_cap_ns fair_startup_credit_cap_ns];
  destruct (0 <? sat_sub (t_cpu_time_ns t) (t_fair_runtime_checkpoint_ns t));
  destruct kind;
  cbn -[Z.max Z.min sat_add128 sat_sub sat_mul128 Z.ltb inflate_fair_lag_ns fair_entity_vslice_ns
        scale_fair_delta fair_nice_weight fair_wakeup_lag_cap_ns fair_startup_credit_cap_ns].
  all: repeat match goal with |- context [if ?b then _ else _] => destruct b eqn:? end.
  all: cbn -[Z.max Z.min sat_add128 sat_sub sat_mul128 Z.ltb inflate_fair_lag_ns fair_entity_vslice_ns
        scale_fair_delta fair_nice_weight fair_wakeup_lag_cap_ns fair_startup_credit_cap_ns].
  all: split_and!; try done; try lia; destruct t, g; try done; simpl in *; try (f_equal; lia).
Qed.

Definition current_ok (current : option (Z * Z)) : Prop :=
  forall v w, current = Some (v, w) -> 0 <= v /\ 0 < w.

Lemma avg_nonneg g current :
  group_wf g -> current_ok current ->
  0 <= unwrap_or (Group.avg_task_vruntime_with g current) (g_min_task_vruntime g).
Proof.
  intros W Hc. pose proof (gw_min g W). unfold Group.avg_task_vruntime_with.
  destruct current as [[v w]|]; case_if; simpl; lia.
Qed.

Lemma placement_nonneg g current : group_wf g -> current_ok current -> 0 <= placement g current.
Proof. intros W Hc. pose proof (avg_nonneg g current W Hc). unfold placement. lia. Qed.

Lemma charged_vruntime_bounds g t :
  group_wf g -> fair_fields_ok t -> g_min_task_vruntime g <= U128_MAX ->
  g_min_task_vruntime g <= charged_vruntime g t <= U128_MAX /\ t_fair_vruntime_ns t <= charged_vruntime g t.
Proof.
  intros W [F1 _ _ F4 F5] Hm. pose proof (gw_min g W). unfold charged_vruntime. case_if; [|lia].
  pose proof (scale_fair_delta_pos (sat_sub (t_cpu_time_ns t) (t_fair_runtime_checkpoint_ns t))
    (fair_nice_weight (t_nice t)) ltac:(lia)). unfold sat_add128. lia.
Qed.

Lemma inflate_nonneg c load w : 0 <= c -> 0 <= load -> 0 <= w -> 0 <= inflate_fair_lag_ns c load w.
Proof.
  intros. unfold inflate_fair_lag_ns. case_if; [done|].
  apply Z.div_pos; [unfold sat_mul128, sat_add128; nia|lia].
Qed.

Lemma entity_load_nonneg g current : group_wf g -> current_ok current -> 0 <= entity_load g current.
Proof.
  intros W Hc. unfold entity_load. destruct (gw_weight g W) as [-> _].
  destruct (weighted_nonneg (g_tasks g)) as [_ N].
  { intros id e Hin. apply (gw_entity g W). by apply group_elem. }
  destruct current as [[v w]|]; simpl; [destruct (Hc v w eq_refl)|]; unfold sat_add128; lia.
Qed.

Lemma credit_nonneg t kind : fair_fields_ok t -> 0 <= credit t kind.
Proof.
  intros [_ F2 F3 _ _]. unfold credit, fair_startup_credit_cap_ns, fair_wakeup_lag_cap_ns,
    fair_lag_limit_ns, sat_mul128, sat_add128, tick_period_ns.
  pose proof (fair_entity_vslice_pos (t_nice t) EnqRequeue). destruct kind; lia.
Qed.

Lemma placed_vruntime_nonneg g t kind current :
  group_wf g -> fair_fields_ok t -> g_min_task_vruntime g <= U128_MAX -> current_ok current ->
  0 <= placed_vruntime g t kind current.
Proof.
  intros W F Hm Hc. pose proof (placement_nonneg g current W Hc).
  destruct (charged_vruntime_bounds g t W F Hm) as [[H1 _] _]. pose proof (gw_min g W).
  unfold placed_vruntime, sat_sub. destruct kind; cbv zeta; repeat case_if; lia.
Qed.

Lemma placed_vruntime_le g t kind current :
  group_wf g -> fair_fields_ok t -> g_min_task_vruntime g <= U128_MAX -> current_ok current ->
  placed_vruntime g t kind current <= U128_MAX.
Proof.
  intros W F Hm Hc. assert (placement g current <= U128_MAX) as Hp.
  { unfold placement, Group.avg_task_vruntime_with. pose proof (gw_sum g W) as [-> Hs].
    destruct (weighted_nonneg (g_tasks g)) as [N1 N2].
    { intros id e Hin. apply (gw_entity g W). by apply group_elem. }
    pose proof (gw_weight g W) as [-> Hw].
    assert (forall a b, 0 <= a <= U128_MAX -> 0 < b -> a / b <= U128_MAX) as Hd.
    { intros a b Ha Hb. transitivity a; [|lia]. apply Z.div_le_upper_bound; nia. }
    destruct current as [[v w]|]; cbv zeta iota; case_if; simpl; try lia.
    - destruct (Hc v w eq_refl). apply Z.max_lub; [apply Z.max_lub|]; [|lia..].
      apply Hd; unfold sat_add128, sat_mul128 in *; nia.
    - apply Z.max_lub; [apply Z.max_lub|]; [|lia..]. apply Hd; lia. }
  destruct (charged_vruntime_bounds g t W F Hm) as [[H1 H2] _].
  pose proof (inflate_nonneg (credit t kind) (entity_load g current) (fair_nice_weight (t_nice t))
    (credit_nonneg t kind F) (entity_load_nonneg g current W Hc)
    ltac:(pose proof (fair_nice_weight_range (t_nice t)); lia)).
  unfold placed_vruntime, sat_sub. destruct kind; cbv zeta; repeat case_if; lia.
Qed.

(** Placement of a task in its group: the group's entities are untouched and its
    virtual time does not go back; the task's credits are spent and its run time
    up to now is charged once.  A new task starts at the queue's virtual time; a
    woken task is placed no later than that, and earlier only by the credit it
    saved (bounded by the caps, and scaled for its weight); a preempted task
    without startup credit keeps its charged virtual time, which never goes
    below the group's base.  The deadline is one slice later. *)
Theorem place_fair_task_entity_spec g t kind current :
  group_wf g -> fair_fields_ok t -> g_min_task_vruntime g <= U128_MAX ->
  g_vruntime g <= U128_MAX -> current_ok current ->
  let '((v, d), g', t') := place_fair_task_entity g t kind current in
  (group_wf g' /\ g_tasks g' = g_tasks g /\ g_vruntime g <= g_vruntime g') /\
  fair_fields_ok t' /\
  (t_fair_vlag_ns t' = 0 /\ t_fair_startup_credit_ns t' = 0 /\
   t_fair_vruntime_ns t' = v /\ t_fair_deadline_ns t' = d /\ charged_vruntime g t' = Z.max v (g_min_task_vruntime g)) /\
  0 <= v /\ (v < U128_MAX -> v < d) /\
  (kind = EnqInitial -> v = placement g current) /\
  (kind = EnqWakeup ->
     v <= placement g current /\
     Z.min (charged_vruntime g t)
       (placement g current - inflate_fair_lag_ns (credit t EnqWakeup) (entity_load g current)
          (fair_nice_weight (t_nice t))) <= v) /\
  (kind = EnqRequeue -> t_fair_startup_credit_ns t = 0 -> v = charged_vruntime g t).
Proof.
  intros W F Hm Hg Hc. pose proof (place_fair_task_entity_eq g t kind current) as Heq.
  destruct (place_fair_task_entity g t kind current) as [[[v d] g'] t'].
  destruct Heq as (-> & -> & -> & ->).
  pose proof (placed_vruntime_nonneg g t kind current W F Hm Hc) as Hv.
  pose proof (fair_entity_vslice_pos (t_nice t) kind) as Hs.
  destruct F as [F1 F2 F3 F4 F5].
  split_and!; try done.
  - destruct W. by constructor.
  - simpl. case_if; [|lia]. pose proof (scale_fair_delta_pos
      (sat_sub (t_cpu_time_ns t) (t_fair_runtime_checkpoint_ns t)) (Z.max (g_shares g) 1) ltac:(lia)).
    unfold sat_add128. lia.
  - pose proof (placed_vruntime_le g t kind current W ltac:(by constructor) Hm Hc).
    constructor; simpl; lia.
  - unfold charged_vruntime. simpl. assert (sat_sub (t_cpu_time_ns t) (t_cpu_time_ns t) = 0) as -> by ulia.
    done.
  - intros. unfold sat_add128. lia.
  - by intros ->.
  - intros ->. unfold placed_vruntime, sat_sub in *. cbv zeta in *.
    pose proof (placement_nonneg g current W Hc).
    pose proof (inflate_nonneg (credit t EnqWakeup) (entity_load g current) (fair_nice_weight (t_nice t))
      (credit_nonneg t EnqWakeup ltac:(by constructor)) (entity_load_nonneg g current W Hc)
      ltac:(pose proof (fair_nice_weight_range (t_nice t)); lia)).
    case_if; lia.
  - intros -> Hz. unfold placed_vruntime, credit. rewrite Hz. done.
Qed.

(** A new task in a group whose virtual time is 5000. *)
Lemma place_fair_task_entity_spec_witness :
  (place_fair_task_entity (Group.new 5000) inhabitant EnqInitial None).1.1.1 = placement (Group.new 5000) None.
Proof.
  pose proof (place_fair_task_entity_spec (Group.new 5000) inhabitant EnqInitial None) as H.
  destruct (place_fair_task_entity (Group.new 5000) inhabitant EnqInitial None) as [[[v d] g'] t'].
  destruct H as (_ & _ & _ & _ & _ & H & _); [by apply group_new_wf|constructor; simpl; lia|done|done|done|].
  by apply H.
Defined.
