(* ===== verification/RunQueue.v ===== *)
(** * Run queues

    [task/manager/run_queue.rs] with [HartRunQueue] of [task/manager/fair.rs]
    and the ready counters of [task/manager/rt.rs]: one run queue per hart, with
    99 real-time FIFOs and the fair groups; choosing the hart of a task, adding
    a task, fetching the next one, removing one.

    An operation holds the locks it takes for its whole duration and is one
    transaction on the state: the task control blocks by address, and per hart
    its run queue, counters, bandwidth and [Processor].  The clock reading an
    operation makes is its argument [now].  [Processor::try_lock] fails when
    another hart holds the lock; [h_proc_locked] is that part of the state. *)

From S2P Require Import Prelude.
From S2P Require Import BTree.
From S2P Require Import Sched.
From S2P Require Import TaskBlock.
From S2P Require Import FairGroup.

Record HartRunQueue := mkRq {
  rq_rt_queues : list (list Z);
  rq_fair_groups : list (Z * FairGroupQueue);
  rq_fair_order : list ((Z * Z) * unit);
  rq_min_fair_vruntime : Z
}.
#[export] Instance fields_HartRunQueue : Fields HartRunQueue := fun r =>
  mkRq (rq_rt_queues r) (rq_fair_groups r) (rq_fair_order r) (rq_min_fair_vruntime r).

Record Hart := mkHart {
  h_rq : HartRunQueue;
  h_ready_rt : list Z;
  h_ready_fair : Z;
  h_bandwidth : RtBandwidth;
  h_current : option Z;
  h_pending_ready : option Z;
  h_pending_blocked : option Z;
  h_proc_locked : bool;
  h_need_resched : bool
}.
#[export] Instance fields_Hart : Fields Hart := fun h =>
  mkHart (h_rq h) (h_ready_rt h) (h_ready_fair h) (h_bandwidth h) (h_current h)
    (h_pending_ready h) (h_pending_blocked h) (h_proc_locked h) (h_need_resched h).

Record System := mkSys {
  s_tcbs : gmap Z TCB;
  s_harts : list Hart;
  s_sysctl : Sysctl;
  s_online : Z;
  s_active : Z;
  s_next_hart : Z;
  s_ipis : list Z
}.
#[export] Instance fields_System : Fields System := fun s =>
  mkSys (s_tcbs s) (s_harts s) (s_sysctl s) (s_online s) (s_active s) (s_next_hart s) (s_ipis s).

Module Rq.

Definition new : HartRunQueue := mkRq (replicate RT_PRIO_LEVELS []) [] [] 0.

Definition fair_len (r : HartRunQueue) : Z :=
  foldr (fun p acc => Group.len (snd p) + acc) 0 (rq_fair_groups r).

Definition rt_len (r : HartRunQueue) : Z :=
  foldr (fun q acc => Z.of_nat (length q) + acc) 0 (rq_rt_queues r).

Definition len (r : HartRunQueue) : Z := rt_len r + fair_len r.

Definition unlink_fair_group (r : HartRunQueue) (group_id : Z) : HartRunQueue :=
  match bt_get (rq_fair_groups r) group_id with
  | Some group => r {{ rq_fair_order := bs_remove (rq_fair_order r) (g_vruntime group, group_id) }}
  | None => r
  end.

Definition relink_fair_group_if_runnable (r : HartRunQueue) (group_id : Z) : HartRunQueue :=
  match bt_get (rq_fair_groups r) group_id with
  | Some group =>
      if negb (Group.is_empty group)
      then r {{ rq_fair_order := bs_insert (rq_fair_order r) (g_vruntime group, group_id) }}
      else r
  | None => r
  end.

(** The end of an operation on a group: an empty group goes, a non-empty one is
    indexed again. *)
Definition close_group (r : HartRunQueue) (group_id : Z) (group : FairGroupQueue) : HartRunQueue :=
  let r := r {{ rq_fair_groups := bt_insert (rq_fair_groups r) group_id group }} in
  if Group.is_empty group then r {{ rq_fair_groups := bt_remove (rq_fair_groups r) group_id }}
  else relink_fair_group_if_runnable r group_id.

End Rq.

#[export] Instance Hart_inhabited : Inhabited Hart := populate
  (mkHart Rq.new (replicate RT_PRIO_LEVELS 0) 0 rt_bandwidth_init None None None false false).

Definition tcb (s : System) (task : Z) : TCB := s_tcbs s !!! task.
Definition upd_tcb (s : System) (task : Z) (f : TCB -> TCB) : System :=
  s {{ s_tcbs := <[task := f (tcb s task)]> (s_tcbs s) }}.
Definition hart (s : System) (hart_id : Z) : Hart := s_harts s !!! Z.to_nat hart_id.
Definition upd_hart (s : System) (hart_id : Z) (f : Hart -> Hart) : System :=
  s {{ s_harts := alter f (Z.to_nat hart_id) (s_harts s) }}.

(** ** Ready counters *)

Definition inc_count (c : Z) : Z := wadd c 1.
Definition dec_count (c : Z) : Z := if 0 <? c then c - 1 else c.

Definition inc_ready_rt_count (h : Hart) (rt_idx : Z) : Hart :=
  h {{ h_ready_rt := alter inc_count (Z.to_nat rt_idx) (h_ready_rt h) }}.
Definition inc_ready_fair_count (h : Hart) : Hart :=
  h {{ h_ready_fair := inc_count (h_ready_fair h) }}.

Definition rt_bandwidth_throttled (s : System) (hart_id now : Z) : bool * System :=
  let (throttled, b) := refresh_rt_bandwidth (s_sysctl s) now (h_bandwidth (hart s hart_id)) in
  (throttled, upd_hart s hart_id (fun h => h {{ h_bandwidth := b }})).

(** [READY_RT_COUNTS[..n].any(> 0)] *)
Definition any_ready_rt (h : Hart) (n : Z) : bool :=
  existsb (fun c => 0 <? c) (take (Z.to_nat n) (h_ready_rt h)).

Definition has_ready_rt_count_higher_than (s : System) (hart_id priority now : Z) : bool * System :=
  let (throttled, s) := rt_bandwidth_throttled s hart_id now in
  if throttled then (false, s)
  else (any_ready_rt (hart s hart_id) (rt_queue_index (clamp priority RT_PRIO_MIN RT_PRIO_MAX)), s).

Definition has_ready_rt_count_at_or_above (s : System) (hart_id priority now : Z) : bool * System :=
  let (throttled, s) := rt_bandwidth_throttled s hart_id now in
  if throttled then (false, s)
  else (any_ready_rt (hart s hart_id) (rt_queue_index (clamp priority RT_PRIO_MIN RT_PRIO_MAX) + 1), s).

(** ** Choosing a hart *)

Definition harts : list Z := seqZ 0 MAX_HARTS.

(** [mask & (1 << hart_id) != 0] *)
Definition in_mask (mask hart_id : Z) : bool := negb (Z.land mask (wshl 1 hart_id) =? 0).

Definition hart_bit (hart_id : Z) : Z := if hart_id <? 64 then wshl 1 hart_id else 0.

Definition trailing_zeros (x : Z) : Z :=
  unwrap_or (Z.of_nat <$> position (fun i => Z.testbit x i) (seqZ 0 64)) 64.

Definition mark_hart_online (s : System) (hart_id : Z) : System :=
  if (hart_id <? MAX_HARTS) && in_mask (s_active s) hart_id
  then s {{ s_online := Z.lor (s_online s) (wshl 1 hart_id) }} else s.

Definition online_hart_mask (s : System) : Z :=
  let active := s_active s in
  let mask := Z.land (s_online s) active in
  if negb (mask =? 0) then mask
  else if active =? 0 then 1 else wshl 1 (trailing_zeros active).

Definition pick_online_hart (s : System) (start : Z) : Z :=
  let mask := online_hart_mask s in
  unwrap_or (List.find (in_mask mask) (map (fun i => (start + i) mod MAX_HARTS) harts)) 0.

Definition select_hart_for_new_task (s : System) : Z * System :=
  let start := s_next_hart s mod MAX_HARTS in
  (pick_online_hart s start, s {{ s_next_hart := wadd (s_next_hart s) 1 }}).

Definition pick_least_loaded_hart_from_mask (s : System) (mask : Z) : Z :=
  let '(best_hart, _) :=
    foldl (fun '(best_hart, best_len) hart_id =>
      if negb (in_mask mask hart_id) then (best_hart, best_len)
      else
        let len := Rq.len (h_rq (hart s hart_id)) in
        if len <? best_len then (Some hart_id, len) else (best_hart, best_len))
      (None, USIZE_MAX) harts in
  unwrap_or best_hart (pick_online_hart s 0).

Definition pick_online_hart_from_mask (s : System) (mask : Z) : Z :=
  unwrap_or (List.find (in_mask mask) harts) (pick_online_hart s 0).

Definition allowed_hart_mask_for_task (t : TCB) (online_mask : Z) : Z :=
  let affinity_mask :=
    if t_affinity t =? 0 then online_mask else Z.land (t_affinity t) online_mask in
  if affinity_mask =? 0 then online_mask else affinity_mask.

Definition set_cpu_id (s : System) (task hart_id : Z) : System :=
  upd_tcb s task (fun t => t {{ t_cpu_id := hart_id }}).

Definition resolve_enqueue_hart (s : System) (task current_hart mask : Z) (kind : EnqueueKind)
    : Z * System :=
  let allowed_mask := allowed_hart_mask_for_task (tcb s task) mask in
  if is_fair_slot (task_queue_slot (tcb s task)) then
    if bool_decide (kind = EnqInitial) && in_mask allowed_mask current_hart then
      (current_hart, set_cpu_id s task current_hart)
    else
      let picked := pick_least_loaded_hart_from_mask s allowed_mask in
      (picked, set_cpu_id s task picked)
  else
    let desired := t_cpu_id (tcb s task) mod MAX_HARTS in
    if in_mask allowed_mask desired then (desired, s)
    else if in_mask allowed_mask current_hart then
      (current_hart, set_cpu_id s task current_hart)
    else
      let picked := pick_online_hart_from_mask s allowed_mask in
      (picked, set_cpu_id s task picked).

Definition resolve_wakeup_hart (s : System) (task current_hart mask : Z) : Z * System :=
  let allowed_mask := allowed_hart_mask_for_task (tcb s task) mask in
  let previous := t_cpu_id (tcb s task) mod MAX_HARTS in
  if is_fair_slot (task_queue_slot (tcb s task)) then
    let picked := pick_least_loaded_hart_from_mask s allowed_mask in
    (picked, set_cpu_id s task picked)
  else if negb (Z.land allowed_mask (hart_bit previous) =? 0) then (previous, s)
  else if negb (Z.land allowed_mask (hart_bit current_hart) =? 0) then
    (current_hart, set_cpu_id s task current_hart)
  else
    let picked := pick_online_hart_from_mask s allowed_mask in
    (picked, set_cpu_id s task picked).

Definition resolve_sync_wakeup_hart (s : System) (task source_hart mask : Z) : Z * System :=
  let allowed_mask := allowed_hart_mask_for_task (tcb s task) mask in
  if is_fair_slot (task_queue_slot (tcb s task)) then
    if negb (Z.land allowed_mask (hart_bit source_hart) =? 0) then
      (source_hart, set_cpu_id s task source_hart)
    else
      let previous := t_cpu_id (tcb s task) mod MAX_HARTS in
      if negb (Z.land allowed_mask (hart_bit previous) =? 0) then (previous, s)
      else
        let picked := pick_online_hart_from_mask s allowed_mask in
        (picked, set_cpu_id s task picked)
  else resolve_wakeup_hart s task source_hart mask.

(** ** Adding a task *)

Definition current_task_on_hart (s : System) (hart_id : Z) : option Z :=
  if (0 <=? hart_id) && (hart_id <? MAX_HARTS) then
    if h_proc_locked (hart s hart_id) then None else h_current (hart s hart_id)
  else None.

Definition current_fair_entity_for_group (s : System) (hart_id group_id now_ns : Z) : option (Z * Z) :=
  match current_task_on_hart s hart_id with
  | None => None
  | Some current =>
      let t := tcb s current in
      if negb (Tcb.is_on_cpu t) then None
      else if negb (t_fair_group_id t =? group_id) || negb (is_fair_task t) then None
      else Some (fst (fair_task_vruntime_deadline_at t now_ns), fair_nice_weight (t_nice t))
  end.

Definition push_back {A} (x : A) (q : list A) : list A := q ++ [x].

Definition add_rt (h : Hart) (task idx : Z) : Hart :=
  let rq := h_rq h in
  inc_ready_rt_count
    (h {{ h_rq := rq {{ rq_rt_queues := alter (push_back task) (Z.to_nat idx) (rq_rt_queues rq) }} }}) idx.

(** The fair branch of [add] on the run queue and the TCB. *)
Definition add_fair (h : Hart) (t : TCB) (task : Z) (kind : EnqueueKind)
    (current_entity : option (Z * Z)) : Hart * TCB :=
  let (group_id, shares) := fair_group_id_and_shares t in
  let rq := h_rq h in
  let min_vruntime := rq_min_fair_vruntime rq in
  let rq := Rq.unlink_fair_group rq group_id in
  let group := unwrap_or (bt_get (rq_fair_groups rq) group_id) (Group.new min_vruntime) in
  let group := group {{ g_shares := Z.max shares 1 }} in
  let '((task_vruntime, deadline), group, t) := place_fair_task_entity group t kind current_entity in
  let weight := fair_nice_weight (t_nice t) in
  let group := Group.insert_task group task task task_vruntime deadline weight in
  let rq := rq {{ rq_fair_groups := bt_insert (rq_fair_groups rq) group_id group }} in
  let rq := Rq.relink_fair_group_if_runnable rq group_id in
  (inc_ready_fair_count (h {{ h_rq := rq }}), t).

Definition add (s : System) (task hart_id : Z) (kind : EnqueueKind) (now : Z)
    : option bool * System :=
  if negb (t_ready_queue_hart (tcb s task) =? OFF_CPU) then (None, s)
  else
    let s := upd_tcb s task (fun t =>
      t {{ t_ready_queue_hart := hart_id; t_in_ready_queue := true; t_cpu_id := hart_id }}) in
    if negb (t_ready_queue_hart (tcb s task) =? hart_id) then
      (None, upd_tcb s task (fun t => t {{ t_in_ready_queue := false }}))
    else
      let was_empty := Rq.len (h_rq (hart s hart_id)) =? 0 in
      match task_queue_slot (tcb s task) with
      | SlotRt idx => (Some was_empty, upd_hart s hart_id (fun h => add_rt h task idx))
      | SlotFair =>
          let (group_id, _) := fair_group_id_and_shares (tcb s task) in
          let current_entity := current_fair_entity_for_group s hart_id group_id now in
          let (h, t) := add_fair (hart s hart_id) (tcb s task) task kind current_entity in
          (Some was_empty, upd_tcb (upd_hart s hart_id (fun _ => h)) task (fun _ => t))
      end.

(** ** Fetching the next task *)

Abbreviation tcbs := (gmap Z TCB).
Definition upd (m : tcbs) (task : Z) (f : TCB -> TCB) : tcbs := <[task := f (m !!! task)]> m.

(** [ready_queue_hart.compare_exchange(hart_id, OFF_CPU)] and
    [in_ready_queue.store(false)]. *)
Definition dequeue_mark (m : tcbs) (hart_id task : Z) : bool * tcbs :=
  let still_queued_here := t_ready_queue_hart (m !!! task) =? hart_id in
  (still_queued_here,
   upd m task (fun t =>
     (if still_queued_here then t {{ t_ready_queue_hart := OFF_CPU }} else t)
       {{ t_in_ready_queue := false }})).

(** [pop_ready_rt_candidate] on one queue and its counter. *)
Fixpoint pop_ready_rt_candidate (m : tcbs) (queue : list Z) (count hart_id : Z)
    : option Z * tcbs * list Z * Z :=
  match queue with
  | [] => (None, m, [], count)
  | candidate :: queue =>
      let count := dec_count count in
      let (still_queued_here, m) := dequeue_mark m hart_id candidate in
      if negb still_queued_here then pop_ready_rt_candidate m queue count hart_id
      else if is_ready (t_status (m !!! candidate)) then
        let (ok, t) := Tcb.try_mark_on_cpu hart_id (m !!! candidate) in
        let m := upd m candidate (fun _ => t) in
        if ok then (Some candidate, m, queue, count)
        else pop_ready_rt_candidate m queue count hart_id
      else pop_ready_rt_candidate m queue count hart_id
  end.

(** The loop of [fetch] over the real-time queues, highest priority first. *)
Fixpoint fetch_rt (m : tcbs) (queues : list (list Z)) (counts : list Z) (hart_id : Z)
    : option Z * tcbs * list (list Z) * list Z :=
  match queues, counts with
  | q :: queues, c :: counts =>
      let '(picked, m, q, c) := pop_ready_rt_candidate m q c hart_id in
      match picked with
      | Some _ => (picked, m, q :: queues, c :: counts)
      | None =>
          let '(picked, m, queues, counts) := fetch_rt m queues counts hart_id in
          (picked, m, q :: queues, c :: counts)
      end
  | _, _ => (None, m, queues, counts)
  end.

Definition queued_here (m : tcbs) (hart_id task : Z) : bool :=
  t_ready_queue_hart (m !!! task) =? hart_id.
(** [queued_here && status == Ready] *)
Definition candidate_ok (m : tcbs) (hart_id task : Z) : bool :=
  queued_here m hart_id task && is_ready (t_status (m !!! task)).

(** The scan of [prune_fair_group_front] after the first entity. *)
Fixpoint scan_eligible (m : tcbs) (g : FairGroupQueue) (hart_id eligible : Z)
    (order : list (Z * Z * Z)) (fallback : Z * Z) : Z :=
  match order with
  | [] => snd fallback
  | (deadline, vruntime, task_id) :: order =>
      match bt_get (g_tasks g) task_id with
      | None => scan_eligible m g hart_id eligible order fallback
      | Some entity =>
          if negb (e_vruntime entity =? vruntime) || negb (e_deadline entity =? deadline) then
            scan_eligible m g hart_id eligible order fallback
          else if candidate_ok m hart_id (e_task entity) then
            if e_vruntime entity <=? eligible then task_id
            else scan_eligible m g hart_id eligible order
              (if e_vruntime entity <? fst fallback then (e_vruntime entity, task_id) else fallback)
          else scan_eligible m g hart_id eligible order fallback
      end
  end.

(** A stale entry of the front: the entity goes, and the task's marks with it. *)
Definition drop_stale (m : tcbs) (hart_id candidate : Z) : tcbs :=
  upd m candidate (fun t =>
    (if t_ready_queue_hart t =? hart_id then t {{ t_ready_queue_hart := OFF_CPU }} else t)
      {{ t_in_ready_queue := false }}).

Fixpoint prune_loop (fuel : nat) (m : tcbs) (g : FairGroupQueue) (count hart_id eligible : Z)
    : option Z * tcbs * FairGroupQueue * Z :=
  match fuel with
  | O => (None, m, g, count)
  | S fuel =>
      match bs_first (g_task_order g) with
      | None => (None, m, g, count)
      | Some (deadline, vruntime, task_id) =>
          match bt_get (g_tasks g) task_id with
          | None =>
              prune_loop fuel m
                (g {{ g_task_order := bs_remove (g_task_order g) (deadline, vruntime, task_id) }})
                count hart_id eligible
          | Some entity =>
              if negb (e_vruntime entity =? vruntime) || negb (e_deadline entity =? deadline) then
                prune_loop fuel m
                  (g {{ g_task_order :=
                          bs_insert (bs_remove (g_task_order g) (deadline, vruntime, task_id))
                            (e_deadline entity, e_vruntime entity, task_id) }})
                  count hart_id eligible
              else
                let candidate := e_task entity in
                if candidate_ok m hart_id candidate then
                  if e_vruntime entity <=? eligible then (Some task_id, m, g, count)
                  else
                    (Some (scan_eligible m g hart_id eligible (tail (bs_iter (g_task_order g)))
                             (e_vruntime entity, task_id)), m, g, count)
                else
                  prune_loop fuel (drop_stale m hart_id candidate) (snd (Group.unlink_task g task_id))
                    (dec_count count) hart_id eligible
          end
      end
  end.

(** Every turn of the loop drops an index entry or replaces a wrong one. *)
Definition prune_fair_group_front (m : tcbs) (g : FairGroupQueue) (count hart_id : Z)
    : option Z * tcbs * FairGroupQueue * Z :=
  let eligible_vruntime := unwrap_or (Group.avg_task_vruntime g) (g_min_task_vruntime g) in
  prune_loop (S (2 * length (g_task_order g))) m g count hart_id eligible_vruntime.

Fixpoint pop_fair_loop (fuel : nat) (m : tcbs) (rq : HartRunQueue) (count hart_id : Z)
    : option Z * tcbs * HartRunQueue * Z :=
  match fuel with
  | O => (None, m, rq, count)
  | S fuel =>
      match bs_first (rq_fair_order rq) with
      | None => (None, m, rq, count)
      | Some (indexed_vruntime, group_id) =>
          let rq := rq {{ rq_fair_order := bs_remove (rq_fair_order rq) (indexed_vruntime, group_id) }} in
          match bt_get (rq_fair_groups rq) group_id with
          | None => pop_fair_loop fuel m rq count hart_id
          | Some group =>
              if negb (g_vruntime group =? indexed_vruntime) then
                pop_fair_loop fuel m (Rq.relink_fair_group_if_runnable rq group_id) count hart_id
              else
                let '(front, m, group, count) := prune_fair_group_front m group count hart_id in
                let '(entity, group) :=
                  match front with
                  | Some task_id => Group.unlink_task group task_id
                  | None => (None, group)
                  end in
                match entity with
                | None => pop_fair_loop fuel m (Rq.close_group rq group_id group) count hart_id
                | Some entity =>
                    let count := dec_count count in
                    let group := group {{ g_min_task_vruntime :=
                      Z.max (g_min_task_vruntime group) (e_vruntime entity) }} in
                    let rq := rq {{ rq_min_fair_vruntime :=
                      Z.max (rq_min_fair_vruntime rq) (g_vruntime group) }} in
                    let rq := Rq.close_group rq group_id group in
                    let task := e_task entity in
                    let (still_queued_here, m) := dequeue_mark m hart_id task in
                    if negb still_queued_here then pop_fair_loop fuel m rq count hart_id
                    else
                      let m := upd m task (fun t =>
                        t {{ t_fair_runtime_checkpoint_ns := t_cpu_time_ns t }}) in
                      let (ok, t) := Tcb.try_mark_on_cpu hart_id (m !!! task) in
                      let m := upd m task (fun _ => t) in
                      if ok then (Some task, m, rq, count)
                      else pop_fair_loop fuel m rq count hart_id
                end
          end
      end
  end.

(** Every turn drops a task, a group or an index entry, or replaces a wrong
    index entry. *)
Definition pop_ready_fair_candidate (m : tcbs) (rq : HartRunQueue) (count hart_id : Z)
    : option Z * tcbs * HartRunQueue * Z :=
  pop_fair_loop (S (2 * length (rq_fair_order rq) + Z.to_nat (Rq.fair_len rq))) m rq count hart_id.

Definition fetch (s : System) (hart_id now : Z) : option Z * System :=
  let (throttled, s) := rt_bandwidth_throttled s hart_id now in
  let h := hart s hart_id in
  let '(picked, m, queues, counts) :=
    if throttled then (None, s_tcbs s, rq_rt_queues (h_rq h), h_ready_rt h)
    else fetch_rt (s_tcbs s) (rq_rt_queues (h_rq h)) (h_ready_rt h) hart_id in
  let rq := (h_rq h) {{ rq_rt_queues := queues }} in
  let '(picked, m, rq, fair_count) :=
    match picked with
    | Some _ => (picked, m, rq, h_ready_fair h)
    | None => pop_ready_fair_candidate m rq (h_ready_fair h) hart_id
    end in
  (picked,
   upd_hart (s {{ s_tcbs := m }}) hart_id (fun h =>
     h {{ h_rq := rq; h_ready_rt := counts; h_ready_fair := fair_count }})).

(** ** Removing a task *)

(** [q.retain(|t| !Arc::ptr_eq(t, &task))] with the counter and the number removed. *)
Definition retain_other (task : Z) (q : list Z) : list Z := List.filter (fun t => negb (t =? task)) q.

Fixpoint remove_rt (queues : list (list Z)) (counts : list Z) (task removed : Z)
    : list (list Z) * list Z * Z :=
  match queues, counts with
  | q :: queues, c :: counts =>
      let q' := retain_other task q in
      let removed_now := sat_sub (Z.of_nat (length q)) (Z.of_nat (length q')) in
      let c' := Nat.iter (Z.to_nat removed_now) dec_count c in
      let '(queues, counts, removed) := remove_rt queues counts task (sat_add removed removed_now) in
      (q' :: queues, c' :: counts, removed)
  | _, _ => (queues, counts, removed)
  end.

Definition remove_fair_task_from_group (rq : HartRunQueue) (count group_id task_id : Z)
    : Z * HartRunQueue * Z :=
  let rq := Rq.unlink_fair_group rq group_id in
  match bt_get (rq_fair_groups rq) group_id with
  | None => (0, rq, count)
  | Some group =>
      let (entity, group) := Group.unlink_task group task_id in
      let '(removed, count) :=
        match entity with Some _ => (1, dec_count count) | None => (0, count) end in
      (removed, Rq.close_group rq group_id group, count)
  end.

(** The search over the groups, up to the first that held the task. *)
Fixpoint remove_from_groups (rq : HartRunQueue) (count : Z) (group_ids : list Z) (task_id : Z)
    : Z * HartRunQueue * Z :=
  match group_ids with
  | [] => (0, rq, count)
  | group_id :: group_ids =>
      let '(removed, rq, count) := remove_fair_task_from_group rq count group_id task_id in
      if 0 <? removed then (removed, rq, count)
      else remove_from_groups rq count group_ids task_id
  end.

Definition remove_from_hart (h : Hart) (t : TCB) (task : Z) : Z * Hart :=
  let '(queues, counts, removed) := remove_rt (rq_rt_queues (h_rq h)) (h_ready_rt h) task 0 in
  let rq := (h_rq h) {{ rq_rt_queues := queues }} in
  let (group_id, _) := fair_group_id_and_shares t in
  let '(fair_removed, rq, fair_count) :=
    remove_fair_task_from_group rq (h_ready_fair h) group_id task in
  let '(fair_removed, rq, fair_count) :=
    if fair_removed =? 0 then remove_from_groups rq fair_count (map fst (rq_fair_groups rq)) task
    else (fair_removed, rq, fair_count) in
  (sat_add removed fair_removed,
   h {{ h_rq := rq; h_ready_rt := counts; h_ready_fair := fair_count }}).

Definition remove (s : System) (task : Z) : Z * System :=
  let queued_hart := t_ready_queue_hart (tcb s task) in
  let s := upd_tcb s task (fun t => t {{ t_ready_queue_hart := OFF_CPU }}) in
  let '(removed, s) :=
    if queued_hart <? MAX_HARTS then
      let (removed, h) := remove_from_hart (hart s queued_hart) (tcb s task) task in
      (removed, upd_hart s queued_hart (fun _ => h))
    else (0, s) in
  (removed, upd_tcb s task (fun t => t {{ t_in_ready_queue := false }})).

Definition ready_queue_lengths (s : System) : list Z := map (fun h => Rq.len (h_rq h)) (s_harts s).
Definition has_ready_tasks (s : System) : bool := existsb (fun h => 0 <? Rq.len (h_rq h)) (s_harts s).

(** ** Dequeued tasks

    [t'] is [t] after it left a run queue without being run; only its marks, its
    preferred hart and its run-time checkpoint may differ. *)
Record left_queue (t t' : TCB) : Prop := {
  lq_hart : t_ready_queue_hart t' = OFF_CPU;
  lq_flag : t_in_ready_queue t' = false;
  lq_on_cpu : t_on_cpu t' = t_on_cpu t;
  lq_status : t_status t' = t_status t;
  lq_fields : fair_fields_ok t -> fair_fields_ok t';
  lq_same : t_has_res t' = t_has_res t /\ t_policy t' = t_policy t /\
            t_priority t' = t_priority t /\ t_wakeup_sync_hart t' = t_wakeup_sync_hart t /\
            t_affinity t' = t_affinity t
}.

(** [t'] is [t] after [hart_id] took it to run it. *)
Record taken_by (hart_id : Z) (t t' : TCB) : Prop := {
  tb_hart : t_ready_queue_hart t' = OFF_CPU;
  tb_flag : t_in_ready_queue t' = false;
  tb_on_cpu : t_on_cpu t' = hart_id;
  tb_cpu : t_cpu_id t' = hart_id;
  tb_status : t_status t' = t_status t;
  tb_fields : fair_fields_ok t -> fair_fields_ok t';
  tb_same : t_has_res t' = t_has_res t /\ t_policy t' = t_policy t /\
            t_priority t' = t_priority t /\ t_wakeup_sync_hart t' = t_wakeup_sync_hart t /\
            t_affinity t' = t_affinity t
}.

(** A queued task a hart may run now. *)
Definition runnable (m : tcbs) (task : Z) : bool :=
  is_ready (t_status (m !!! task)) && (t_on_cpu (m !!! task) =? OFF_CPU).

(** The tasks [ds] left the queue unrun, [picked] was taken, no other task
    changed. *)
Record dequeued (m m' : tcbs) (hart_id : Z) (ds : list Z) (picked : option Z) : Prop := {
  dq_dropped : forall t, t ∈ ds -> left_queue (m !!! t) (m' !!! t) /\ runnable m t = false;
  dq_picked : forall t, picked = Some t -> taken_by hart_id (m !!! t) (m' !!! t) /\ runnable m t = true;
  dq_others : forall t, t ∉ ds -> picked <> Some t -> m' !!! t = m !!! t
}.

Lemma upd_same m t f : upd m t f !!! t = f (m !!! t).
Proof. apply lookup_total_insert_eq. Qed.
Lemma upd_other m t t' f : t <> t' -> upd m t f !!! t' = m !!! t'.
Proof. apply lookup_total_insert_ne. Qed.

#[export] Hint Rewrite upd_same : kernel.
#[export] Hint Rewrite upd_other using done : kernel.

Lemma fair_fields_checkpoint (t : TCB) :
  fair_fields_ok t -> fair_fields_ok (t {{ t_fair_runtime_checkpoint_ns := t_cpu_time_ns t }}).
Proof. intros [? ? ? ? ?]. by constructor. Qed.

(** Dropping one more task first. *)
Lemma dequeued_drop m m1 m' hart_id d ds picked :
  dequeued m1 m' hart_id ds picked ->
  left_queue (m !!! d) (m1 !!! d) -> runnable m d = false ->
  (forall t, t <> d -> m1 !!! t = m !!! t) -> d ∉ ds -> picked <> Some d ->
  dequeued m m' hart_id (d :: ds) picked.
Proof.
  intros [H1 H2 H3] Hl Hr Ho Hd Hp. constructor.
  - intros t [->|Ht]%elem_of_cons.
    + rewrite H3 by done. done.
    + assert (t <> d) as Hne by naive_solver. specialize (H1 t Ht).
      unfold runnable in *. by rewrite <- (Ho t Hne).
  - intros t Ht. assert (t <> d) as Hne by naive_solver. specialize (H2 t Ht).
    unfold runnable in *. by rewrite <- (Ho t Hne).
  - intros t Ht Hp'. rewrite not_elem_of_cons in Ht. rewrite H3 by naive_solver. apply Ho. naive_solver.
Qed.

Lemma dequeued_nil m hart_id : dequeued m m hart_id [] None.
Proof. constructor; intros; try done. by apply not_elem_of_nil in H. Qed.

(** *** Real-time queues *)

(** [pop_ready_rt_candidate] returns the first runnable task of the queue and
    drops the stale ones before it. *)
Lemma pop_ready_rt_candidate_spec m q hart_id :
  NoDup q -> hart_id <> OFF_CPU -> (forall t, t ∈ q -> t_ready_queue_hart (m !!! t) = hart_id) ->
  let '(picked, m', q', c') := pop_ready_rt_candidate m q (Z.of_nat (length q)) hart_id in
  picked = List.find (runnable m) q /\ c' = Z.of_nat (length q') /\
  (picked = None -> q' = []) /\
  exists ds, q = ds ++ option_list picked ++ q' /\ dequeued m m' hart_id ds picked.
Proof.
  intros Hnd Hoff. revert m. induction q as [|t q IH]; intros m Hq; simpl.
  { split_and!; try done. exists []. split; [done|]. apply dequeued_nil. }
  apply NoDup_cons in Hnd as [Hnt Hnd]. specialize (IH Hnd).
  assert (dec_count (Z.of_nat (S (length q))) = Z.of_nat (length q)) as -> by (unfold dec_count; case_if; lia).
  unfold dequeue_mark. rewrite (Hq t) by left. rewrite Z.eqb_refl. simpl.
  set (m1 := upd m t _).
  assert (forall t', t' <> t -> m1 !!! t' = m !!! t') as Ho by (intros; unfold m1; by rewrite upd_other).
  assert (left_queue (m !!! t) (m1 !!! t)) as Hl1.
  { unfold m1. rewrite upd_same. constructor; try done. intros []; by constructor. }
  assert (t_status (m1 !!! t) = t_status (m !!! t)) as Hst by apply Hl1.
  assert (t_on_cpu (m1 !!! t) = t_on_cpu (m !!! t)) as Hon by apply Hl1.
  assert (forall m2 : tcbs, left_queue (m !!! t) (m2 !!! t) -> (forall t', t' <> t -> m2 !!! t' = m !!! t') ->
    runnable m t = false ->
    let '(picked, m', q', c') := pop_ready_rt_candidate m2 q (Z.of_nat (length q)) hart_id in
    picked = List.find (runnable m) (t :: q) /\ c' = Z.of_nat (length q') /\
    (picked = None -> q' = []) /\
    exists ds, t :: q = ds ++ option_list picked ++ q' /\ dequeued m m' hart_id ds picked) as Hskip.
  { intros m2 Hl Ho2 Hr. specialize (IH m2).
    destruct (pop_ready_rt_candidate m2 q (Z.of_nat (length q)) hart_id) as [[[picked m'] q'] c'].
    assert (forall t', t' ∈ q -> t' <> t) as Hne by naive_solver.
    destruct IH as (Hp & Hc & Hn & ds & Hds & Hdq).
    { intros t' Ht'. rewrite Ho2 by auto. apply Hq. by right. }
    split_and!; [|done..|].
    - rewrite Hp. simpl. rewrite Hr. clear -Ho2 Hne.
      induction q as [|x q IHq]; simpl; [done|]. unfold runnable at 1 3.
      rewrite (Ho2 x) by (apply Hne; left). case_if; [done|]. apply IHq.
      intros t' Ht'. apply Hne. by right.
    - exists (t :: ds). split; [by rewrite Hds|]. apply dequeued_drop with m2; try done.
      + intros Hin. apply Hnt. rewrite Hds. apply elem_of_app. by left.
      + intros ->. apply Hnt. rewrite Hds. simpl. set_solver. }
  destruct (is_ready (t_status (m1 !!! t))) eqn:Hr.
  - unfold Tcb.try_mark_on_cpu. simpl. rewrite Hon.
    destruct (t_on_cpu (m !!! t) =? OFF_CPU) eqn:Hoc.
    + assert (runnable m t = true) as Hrun by (unfold runnable; rewrite <- Hst, Hr, Hoc; done).
      rewrite Hrun. split_and!; [done|done|done|]. exists []. split; [done|]. constructor.
      * intros t' Ht'. by apply not_elem_of_nil in Ht'.
      * intros t' [= <-]. split; [|done]. unfold m1. rewrite !upd_same.
        constructor; try done. intros []; by constructor.
      * intros t' _ Hne. assert (t' <> t) by naive_solver. rewrite upd_other by done. auto.
    + apply Hskip; [| |unfold runnable; rewrite <- Hst, Hr, Hoc; done].
      * rewrite upd_same. unfold m1. rewrite upd_same. constructor; try done. intros []; by constructor.
      * intros t' Hne. rewrite upd_other by done. auto.
  - apply Hskip; [done..|]. unfold runnable. by rewrite <- Hst, Hr.
Qed.

Definition lengths (queues : list (list Z)) : list Z := map (fun q => Z.of_nat (length q)) queues.

Lemma dequeued_then m m1 m2 hart_id ds1 ds2 picked :
  dequeued m m1 hart_id ds1 None -> dequeued m1 m2 hart_id ds2 picked ->
  (forall t, t ∈ ds1 -> t ∉ ds2 /\ picked <> Some t) ->
  dequeued m m2 hart_id (ds1 ++ ds2) picked.
Proof.
  intros [H1 H2 H3] [G1 G2 G3] Hdis.
  assert (forall t, t ∉ ds1 -> runnable m1 t = runnable m t) as Hr
    by (intros t Ht; unfold runnable; by rewrite H3).
  constructor.
  - intros t [Ht|Ht]%elem_of_app.
    + destruct (Hdis t Ht). rewrite G3 by done. by apply H1.
    + assert (t ∉ ds1) by (intros Hin; by destruct (Hdis t Hin)). rewrite <- (H3 t), <- Hr by done. by apply G1.
  - intros t Ht. assert (t ∉ ds1) by (intros Hin; by destruct (Hdis t Hin)). rewrite <- (H3 t), <- Hr by done.
    by apply G2.
  - intros t Ht Hp. rewrite not_elem_of_app in Ht. rewrite G3 by naive_solver. apply H3; naive_solver.
Qed.

Lemma find_ext {A} (p p' : A -> bool) l :
  (forall x, x ∈ l -> p x = p' x) -> List.find p l = List.find p' l.
Proof.
  induction l as [|x l IH]; intros He; simpl; [done|]. rewrite (He x) by left.
  case_if; [done|]. apply IH. intros y Hy. apply He. by right.
Qed.

Lemma find_app {A} (p : A -> bool) l l' :
  List.find p (l ++ l') = match List.find p l with Some x => Some x | None => List.find p l' end.
Proof. induction l as [|x l IH]; simpl; [done|]. by case_if. Qed.

(** [fetch]'s loop over the real-time queues returns the first runnable task of
    the highest priority that has one. *)
Lemma fetch_rt_spec m queues hart_id :
  NoDup (concat queues) -> hart_id <> OFF_CPU ->
  (forall t, t ∈ concat queues -> t_ready_queue_hart (m !!! t) = hart_id) ->
  let '(picked, m', queues', counts') := fetch_rt m queues (lengths queues) hart_id in
  picked = List.find (runnable m) (concat queues) /\
  counts' = lengths queues' /\ length queues' = length queues /\
  (picked = None -> concat queues' = []) /\
  exists ds, concat queues = ds ++ option_list picked ++ concat queues' /\
    dequeued m m' hart_id ds picked.
Proof.
  intros Hnd Hoff. revert m. induction queues as [|q queues IH]; intros m Hq; simpl.
  { split_and!; try done. exists []. split; [done|apply dequeued_nil]. }
  simpl in Hnd. apply NoDup_app in Hnd as (Hn1 & Hn2 & Hn3).
  pose proof (pop_ready_rt_candidate_spec m q hart_id Hn1 Hoff) as Hpop.
  destruct (pop_ready_rt_candidate m q (Z.of_nat (length q)) hart_id) as [[[picked m1] q1] c1].
  destruct Hpop as (Hp & Hc & Hnone & ds & Hds & Hdq).
  { intros t Ht. apply Hq. simpl. apply elem_of_app. by left. }
  destruct picked as [t|].
  - simpl. split_and!; [by rewrite find_app, <- Hp|by rewrite Hc|done|done|].
    exists ds. split; [|done]. rewrite Hds, <- !app_assoc. done.
  - rewrite Hnone in * by done. simpl in Hds. rewrite app_nil_r in Hds. subst ds.
    assert (forall t, t ∈ concat queues -> m1 !!! t = m !!! t) as Hsame.
    { intros t Ht. apply Hdq; [|done]. intros Hin. by apply (Hn2 t). }
    specialize (IH Hn3 m1).
    destruct (fetch_rt m1 queues (lengths queues) hart_id) as [[[p2 m2] qs2] cs2].
    destruct IH as (Hp2 & Hc2 & Hl2 & Hnone2 & ds2 & Hds2 & Hdq2).
    { intros t Ht. rewrite Hsame by done. apply Hq. simpl. apply elem_of_app. by right. }
    simpl. split_and!.
    + rewrite find_app, <- Hp, Hp2. apply find_ext. intros t Ht. unfold runnable. by rewrite Hsame.
    + by rewrite Hc, Hc2.
    + by rewrite Hl2.
    + done.
    + exists (q ++ ds2). split; [by rewrite Hds2, <- app_assoc|].
      apply dequeued_then with m1; [done..|]. intros t Ht. specialize (Hn2 t Ht). rewrite Hds2 in Hn2.
      split; [set_solver|]. intros ->. apply Hn2. simpl. set_solver.
Qed.

(** *** Fair groups *)

Definition task_ids (g : FairGroupQueue) : list Z := map fst (g_tasks g).

Lemma task_ids_elem g t : group_wf g -> t ∈ task_ids g <-> is_Some (bt_get (g_tasks g) t).
Proof.
  intros W. unfold task_ids. rewrite list_elem_of_fmap. split.
  - intros [[id e] [-> Hin]]. exists e. by apply group_elem.
  - intros [e He]. exists (t, e). split; [done|]. by apply group_elem.
Qed.

Lemma task_ids_nodup g : group_wf g -> NoDup (task_ids g).
Proof.
  intros W. pose proof (gw_tasks g W) as Hs. unfold task_ids, bt_wf in *.
  induction Hs as [|k l Hs IH Hall]; constructor; [|done].
  intros Hin. rewrite Forall_forall in Hall. by apply (key_lt_neq k k (Hall k Hin)).
Qed.

Lemma unlink_task_ids g id e :
  group_wf g -> bt_get (g_tasks g) id = Some e ->
  task_ids g ≡ₚ id :: task_ids (Group.unlink_task g id).2.
Proof.
  intros W He. destruct (unlink_task_wf g id e W He) as (_ & _ & Ht & _). unfold task_ids.
  rewrite Ht. change (id :: map fst (bt_remove (g_tasks g) id))
    with (map fst ((id, e) :: bt_remove (g_tasks g) id)).
  apply (fmap_Permutation fst), bt_remove_perm. done.
Qed.

(** What the picker of a group chooses among the ready entities: the eligible one
    with the earliest deadline (then virtual time, then id), or, when none is eligible, the one with the
    smallest virtual time. *)
Definition eevdf_choice (m : tcbs) (hart_id : Z) (g : FairGroupQueue) (eligible id : Z) : Prop :=
  exists e, bt_get (g_tasks g) id = Some e /\ candidate_ok m hart_id id = true /\
    ((e_vruntime e <= eligible /\
      forall id' e', bt_get (g_tasks g) id' = Some e' -> candidate_ok m hart_id id' = true ->
        e_vruntime e' <= eligible ->
        id' = id \/ key_lt (e_deadline e, e_vruntime e, id) (e_deadline e', e_vruntime e', id')) \/
     (forall id' e', bt_get (g_tasks g) id' = Some e' -> candidate_ok m hart_id id' = true ->
        eligible < e_vruntime e' /\ e_vruntime e <= e_vruntime e')).

(** A key of the index that names an entity. *)
Definition valid_key (g : FairGroupQueue) (k : Z * Z * Z) : Prop :=
  exists e, bt_get (g_tasks g) k.2 = Some e /\ e_deadline e = k.1.1 /\ e_vruntime e = k.1.2.

Lemma key_lt_deadline d v i d' v' i' : key_lt (d, v, i) (d', v', i') -> d <= d'.
Proof. unfold key_lt. simpl. lia. Qed.

(** The scan over the rest of the index: either the first eligible ready entity,
    or the best fallback. *)
Lemma scan_eligible_spec m g hart_id eligible order fv fid :
  group_wf g -> Forall (valid_key g) order ->
  let id := scan_eligible m g hart_id eligible order (fv, fid) in
  (exists l1 d v l2, order = l1 ++ (d, v, id) :: l2 /\ v <= eligible /\ candidate_ok m hart_id id = true /\
     forall d' v' id', (d', v', id') ∈ l1 -> candidate_ok m hart_id id' = true -> eligible < v') \/
  ((forall d' v' id', (d', v', id') ∈ order -> candidate_ok m hart_id id' = true -> eligible < v') /\
   exists v, ((v, id) = (fv, fid) \/
              exists d, (d, v, id) ∈ order /\ candidate_ok m hart_id id = true) /\ v <= fv /\
     forall d' v' id', (d', v', id') ∈ order -> candidate_ok m hart_id id' = true -> v <= v').
Proof.
  intros W. revert fv fid. induction order as [|[[d v] t] order IH]; intros fv fid Hv.
  { right. split; [intros ??? H; by apply not_elem_of_nil in H|]. exists fv. split_and!; [by left|lia|].
    intros ??? H; by apply not_elem_of_nil in H. }
  inversion Hv as [|?? (e & He & Hd & Hvr) Hv']; subst. simpl in *. rewrite He, Hd, Hvr, !Z.eqb_refl. simpl.
  rewrite (eo_task _ _ (gw_entity g W _ _ He)).
  assert (forall fv' fid', fv' <= fv ->
    (fv' = fv /\ fid' = fid \/ (fv' = v /\ fid' = t /\ candidate_ok m hart_id t = true)) ->
    (candidate_ok m hart_id t = true -> eligible < v /\ fv' <= v) ->
    let id := scan_eligible m g hart_id eligible order (fv', fid') in
    (exists l1 d0 v0 l2, (d, v, t) :: order = l1 ++ (d0, v0, id) :: l2 /\ v0 <= eligible /\
       candidate_ok m hart_id id = true /\
       forall d' v' id', (d', v', id') ∈ l1 -> candidate_ok m hart_id id' = true -> eligible < v') \/
    ((forall d' v' id', (d', v', id') ∈ (d, v, t) :: order -> candidate_ok m hart_id id' = true -> eligible < v') /\
     exists v0, ((v0, id) = (fv, fid) \/
                exists d0, (d0, v0, id) ∈ (d, v, t) :: order /\ candidate_ok m hart_id id = true) /\ v0 <= fv /\
       forall d' v' id', (d', v', id') ∈ (d, v, t) :: order -> candidate_ok m hart_id id' = true -> v0 <= v'))
    as Hstep.
  { intros fv' fid' Hle Hcase Hel. specialize (IH fv' fid' Hv'). cbv zeta in *.
    destruct IH as [(l1 & d0 & v0 & l2 & Ho & Hv0 & Hc & Hl1)|(Hno & v0 & Hor & Hle0 & Hmin)].
    - left. exists ((d, v, t) :: l1), d0, v0, l2. split_and!; [simpl; by f_equal|done|done|].
      intros d' v' id' [[= -> -> ->]|Hin]%elem_of_cons Hcand; [by apply Hel|by eapply Hl1].
    - right. split.
      + intros d' v' id' [[= -> -> ->]|Hin]%elem_of_cons Hcand; [by apply Hel|by eapply Hno].
      + exists v0. split_and!; [|lia|].
        * destruct Hor as [[= -> ->]|(d0 & Hin & Hc)]; [|right; exists d0; split; [by right|done]].
          destruct Hcase as [[-> ->]|(-> & -> & Hc)]; [by left|]. right. exists d.
          split; [left|done].
        * intros d' v' id' [[= -> -> ->]|Hin]%elem_of_cons Hcand; [|by eapply Hmin].
          destruct (Hel Hcand). lia. }
  destruct (candidate_ok m hart_id t) eqn:Hc; [|apply Hstep; [lia|by left|done]].
  destruct (v <=? eligible) eqn:Hel.
  - left. exists [], d, v, order. split_and!; [done|lia|done|].
    intros d' v' id' H. by apply not_elem_of_nil in H.
  - destruct (v <? fv) eqn:Hlt; apply Hstep; first [lia | by left | by right].
Qed.

Lemma first_key g k :
  group_wf g -> bs_first (g_task_order g) = Some k ->
  valid_key g k /\ Forall (valid_key g) (tail (bs_iter (g_task_order g))) /\
  bs_iter (g_task_order g) = k :: tail (bs_iter (g_task_order g)) /\
  StronglySorted key_lt (bs_iter (g_task_order g)).
Proof.
  intros W Hf. pose proof (gw_order g W) as Hs.
  assert (forall k', k' ∈ bs_iter (g_task_order g) -> valid_key g k') as Hv.
  { intros [[d v] id] Hin. by apply (gw_index g W). }
  unfold bs_first, bs_iter in *. destruct (g_task_order g) as [|[k0 []] order]; [done|].
  injection Hf as ->. simpl in *. split_and!; [apply Hv; left| |done|done].
  apply Forall_forall. intros k' Hk'. apply Hv. by right.
Qed.

Lemma no_first g : group_wf g -> bs_first (g_task_order g) = None -> g_tasks g = [].
Proof.
  intros W Hf. destruct (g_tasks g) as [|[id e] ts] eqn:E; [done|]. exfalso.
  assert (bt_get (g_tasks g) id = Some e) as He by (apply group_elem; [done|rewrite E; left]).
  assert ((e_deadline e, e_vruntime e, id) ∈ bs_iter (g_task_order g)) as Hin
    by (apply (gw_index g W); by exists e).
  destruct (g_task_order g) as [|[k []] o]; [by apply not_elem_of_nil in Hin|done].
Qed.

(** The entry the picker returns, when the first entity of the index is ready. *)
Lemma front_choice m g hart_id eligible d v t :
  group_wf g -> bs_first (g_task_order g) = Some (d, v, t) -> candidate_ok m hart_id t = true ->
  eevdf_choice m hart_id g eligible
    (if v <=? eligible then t
     else scan_eligible m g hart_id eligible (tail (bs_iter (g_task_order g))) (v, t)).
Proof.
  intros W Hf Hc. destruct (first_key g _ W Hf) as ((e & He & Hd & Hv) & Hvs & Hl & Hs). simpl in *.
  set (l := tail (bs_iter (g_task_order g))) in *. rewrite Hl in Hs.
  assert (forall id' e', bt_get (g_tasks g) id' = Some e' ->
    (e_deadline e', e_vruntime e', id') ∈ (d, v, t) :: l) as Hall.
  { intros id' e' He'. rewrite <- Hl. apply (gw_index g W). by exists e'. }
  destruct (v <=? eligible) eqn:Hel.
  - exists e. split_and!; [done..|]. left. split; [lia|]. intros id' e' He' _ _.
    apply Hall in He' as [[= Hd' Hv' Ht']|Hin]%elem_of_cons; [by left|right].
    apply StronglySorted_inv in Hs as [_ Hs]. rewrite Forall_forall in Hs.
    apply Hs in Hin. by rewrite Hd, Hv.
  - destruct (scan_eligible_spec m g hart_id eligible l v t W Hvs)
      as [(l1 & d0 & v0 & l2 & Ho & Hv0 & Hc0 & Hl1)|(Hno & v0 & Hor & Hle & Hmin)].
    + set (id := scan_eligible _ _ _ _ _ _) in *. rewrite Ho in *.
      assert (valid_key g (d0, v0, id)) as (e0 & He0 & Hd0 & Hv0').
      { rewrite Forall_forall in Hvs. apply Hvs. set_solver. }
      simpl in *. exists e0. split_and!; [done..|]. left. split; [lia|]. intros id' e' He' Hc' Hel'.
      apply Hall in He'. rewrite app_comm_cons in He', Hs.
      apply elem_of_app in He' as [[[= Hd' Hv' Ht']|Hin]%elem_of_cons|[[= Hd' Hv' Ht']|Hin]%elem_of_cons].
      * lia.
      * specialize (Hl1 _ _ _ Hin Hc'). lia.
      * by left.
      * right. apply sorted_suffix in Hs. apply StronglySorted_inv in Hs as [_ Hs].
        rewrite Forall_forall in Hs. apply Hs in Hin. by rewrite Hd0, Hv0'.
    + set (id := scan_eligible _ _ _ _ _ _) in *.
      assert (exists e0, bt_get (g_tasks g) id = Some e0 /\ e_vruntime e0 = v0 /\
                candidate_ok m hart_id id = true) as (e0 & He0 & Hv0 & Hc0).
      { destruct Hor as [[= -> ->]|(d0 & Hin & Hc0)]; [by exists e|].
        rewrite Forall_forall in Hvs. destruct (Hvs _ Hin) as (e0 & ? & _ & ?). by exists e0. }
      exists e0. split_and!; [done..|]. right. intros id' e' He' Hc'.
      apply Hall in He' as [[= Hd' Hv' Ht']|Hin]%elem_of_cons; [lia|].
      specialize (Hno _ _ _ Hin Hc'). specialize (Hmin _ _ _ Hin Hc'). lia.
Qed.

(** Fields of a group the picker leaves alone. *)
Definition same_group (g g' : FairGroupQueue) : Prop :=
  g_vruntime g' = g_vruntime g /\ g_shares g' = g_shares g /\
  g_min_task_vruntime g' = g_min_task_vruntime g.

Lemma unlink_order_length g id e :
  group_wf g -> bt_get (g_tasks g) id = Some e ->
  length (g_task_order g) = S (length (g_task_order (Group.unlink_task g id).2)).
Proof.
  intros W He. unfold Group.unlink_task. rewrite He. simpl. unfold bs_remove.
  apply bt_length_remove with tt. apply bs_elem; [apply W|]. apply (gw_index g W). by exists e.
Qed.

Lemma drop_stale_left m hart_id t :
  t_ready_queue_hart (m !!! t) = hart_id -> left_queue (m !!! t) (drop_stale m hart_id t !!! t).
Proof.
  intros Hq. unfold drop_stale. rewrite upd_same, Hq, Z.eqb_refl. constructor; try done.
  intros []; by constructor.
Qed.

Lemma prune_loop_spec fuel m g count hart_id eligible :
  group_wf g -> hart_id <> OFF_CPU ->
  (forall t, t ∈ task_ids g -> t_ready_queue_hart (m !!! t) = hart_id) ->
  (length (g_task_order g) < fuel)%nat -> Z.of_nat (length (task_ids g)) <= count ->
  let '(picked, m', g', c') := prune_loop fuel m g count hart_id eligible in
  group_wf g' /\ same_group g g' /\
  (exists ds, task_ids g ≡ₚ ds ++ task_ids g' /\ dequeued m m' hart_id ds None /\
     c' = count - Z.of_nat (length ds) /\ (ds = [] -> g' = g /\ m' = m)) /\
  match picked with
  | None => g_tasks g' = []
  | Some id => eevdf_choice m' hart_id g' eligible id
  end.
Proof.
  intros W Hoff. revert m g count W. induction fuel as [|fuel IH]; intros m g count W Hq Hf Hc; [lia|].
  simpl. destruct (bs_first (g_task_order g)) as [[[d v] t]|] eqn:Ek.
  2: { split_and!; try done; [|by apply no_first]. exists []. split_and!; [done|apply dequeued_nil|simpl; lia|done..]. }
  destruct (first_key g _ W Ek) as ((e & He & Hd & Hv) & _). simpl in He, Hd, Hv.
  rewrite He, Hd, Hv, !Z.eqb_refl. simpl. rewrite (eo_task _ _ (gw_entity g W _ _ He)).
  destruct (candidate_ok m hart_id t) eqn:Ec.
  { pose proof (front_choice m g hart_id eligible d v t W Ek Ec) as Hch.
    assert (exists ds, task_ids g ≡ₚ ds ++ task_ids g /\ dequeued m m hart_id ds None /\
              count = count - Z.of_nat (length ds) /\ (ds = [] -> g = g /\ m = m)) as Hds
      by (exists []; split_and!; [done|apply dequeued_nil|simpl; lia|done..]).
    destruct (v <=? eligible); split_and!; try done. }
  destruct (unlink_task_wf g t e W He) as (_ & W' & Ht' & Hv' & Hs' & Hm').
  pose proof (unlink_task_ids g t e W He) as Hids.
  pose proof (unlink_order_length g t e W He) as Hlen.
  set (g1 := (Group.unlink_task g t).2) in *.
  assert (t ∉ task_ids g1) as Hnt.
  { pose proof (task_ids_nodup g W) as Hnd. rewrite Hids in Hnd. by apply NoDup_cons in Hnd as [? _]. }
  assert (t ∈ task_ids g) as Hint by (rewrite Hids; left).
  assert (forall t', t' <> t -> drop_stale m hart_id t !!! t' = m !!! t') as Ho
    by (intros; unfold drop_stale; by rewrite upd_other).
  assert (dec_count count = count - 1) as -> by (rewrite Hids in Hc; simpl in Hc; unfold dec_count; case_if; lia).
  specialize (IH (drop_stale m hart_id t) g1 (count - 1) W').
  destruct (prune_loop fuel (drop_stale m hart_id t) g1 (count - 1) hart_id eligible) as [[[p m'] g'] c'].
  destruct IH as (Wg & (Hs1 & Hs2 & Hs3) & (ds & Hp & Hdq & Hcc & _) & Hpick).
  - intros t' Hin. rewrite Ho by naive_solver. apply Hq. rewrite Hids. by right.
  - lia.
  - rewrite Hids in Hc. simpl in Hc. lia.
  - split_and!; [done|unfold same_group; by rewrite Hs1, Hs2, Hs3| |done].
    exists (t :: ds). split_and!; [by rewrite Hids, Hp| |simpl; lia|done..].
    apply dequeued_drop with (drop_stale m hart_id t); try done.
    + by apply drop_stale_left, Hq.
    + unfold candidate_ok, queued_here in Ec. rewrite (Hq t Hint), Z.eqb_refl in Ec. simpl in Ec.
      unfold runnable. by rewrite Ec.
    + intros Hin. apply Hnt. rewrite Hp. apply elem_of_app. by left.
Qed.

Lemma prune_fair_group_front_spec m g count hart_id :
  group_wf g -> g_tasks g <> [] -> hart_id <> OFF_CPU ->
  (forall t, t ∈ task_ids g -> t_ready_queue_hart (m !!! t) = hart_id) ->
  Z.of_nat (length (task_ids g)) <= count ->
  exists avg, Group.avg_task_vruntime g = Some avg /\
  let '(picked, m', g', c') := prune_fair_group_front m g count hart_id in
  group_wf g' /\ same_group g g' /\
  (exists ds, task_ids g ≡ₚ ds ++ task_ids g' /\ dequeued m m' hart_id ds None /\
     c' = count - Z.of_nat (length ds) /\ (ds = [] -> g' = g /\ m' = m)) /\
  match picked with
  | None => g_tasks g' = []
  | Some id => eevdf_choice m' hart_id g' avg id
  end.
Proof.
  intros W Hne Hoff Hq Hc. destruct (avg_task_vruntime_spec g W Hne) as (avg & Ha & _).
  exists avg. split; [done|]. unfold prune_fair_group_front. rewrite Ha.
  change (unwrap_or (Some avg) (g_min_task_vruntime g)) with avg. cbv zeta.
  apply prune_loop_spec; try done. lia.
Qed.

(** *** The groups of a run queue *)

Abbreviation groups := (list (Z * FairGroupQueue)).

Definition fair_queued (gs : groups) : list Z := concat (map (fun p => task_ids (snd p)) gs).
Definition others (gs : groups) (group_id : Z) : list Z := fair_queued (bt_remove gs group_id).

Definition group_ok (g : FairGroupQueue) : Prop :=
  group_wf g /\ 0 <= g_vruntime g <= U128_MAX /\ g_min_task_vruntime g <= U128_MAX.

(** The groups and their index, [except] the group that is being worked on. *)
Record fair_wf_except (except : option Z) (rq : HartRunQueue) : Prop := {
  fw_groups : bt_wf (rq_fair_groups rq);
  fw_group : forall id g, bt_get (rq_fair_groups rq) id = Some g ->
    group_ok g /\ (except <> Some id -> g_tasks g <> []);
  fw_order : bt_wf (rq_fair_order rq);
  fw_index : forall v id, (v, id) ∈ bs_iter (rq_fair_order rq) <->
    except <> Some id /\ exists g, bt_get (rq_fair_groups rq) id = Some g /\ g_vruntime g = v;
  fw_nodup : NoDup (fair_queued (rq_fair_groups rq));
  fw_min : 0 <= rq_min_fair_vruntime rq <= U128_MAX
}.
Definition fair_wf : HartRunQueue -> Prop := fair_wf_except None.

#[export] Instance fair_queued_perm : Proper (Permutation ==> Permutation) fair_queued.
Proof.
  intros l l' Hp. unfold fair_queued. induction Hp; simpl.
  - done.
  - by rewrite IHHp.
  - rewrite !app_assoc. by rewrite (Permutation_app_comm (task_ids y.2)).
  - by rewrite IHHp1.
Qed.

Lemma fair_queued_get gs id g :
  bt_get gs id = Some g -> fair_queued gs ≡ₚ task_ids g ++ others gs id.
Proof. intros Hg. unfold others. by rewrite (bt_remove_perm _ _ _ Hg) at 1. Qed.

Lemma fair_queued_insert gs id g :
  bt_wf gs -> fair_queued (bt_insert gs id g) ≡ₚ task_ids g ++ others gs id.
Proof. intros W. unfold others. by rewrite (bt_insert_perm _ _ _ W). Qed.

Lemma others_absent gs id : bt_get gs id = None -> others gs id = fair_queued gs.
Proof. intros H. unfold others. by rewrite bt_remove_absent. Qed.

Lemma others_insert gs id g : bt_wf gs -> others (bt_insert gs id g) id = others gs id.
Proof.
  intros W. unfold others. f_equal. apply bt_ext; eauto with kernel. intros k.
  rewrite !bt_get_remove, bt_get_insert by eauto with kernel. by case_if.
Qed.

Lemma fair_queued_elem gs t :
  bt_wf gs -> t ∈ fair_queued gs <-> exists id g, bt_get gs id = Some g /\ t ∈ task_ids g.
Proof.
  intros W. unfold fair_queued. rewrite elem_of_concat. split.
  - intros (l & Ht & ([id g] & -> & Hin)%list_elem_of_fmap). exists id, g. simpl in Ht. split; [by apply bt_get_elem|exact Ht].
  - intros (id & g & Hg & Ht). exists (task_ids g). split; [done|]. apply list_elem_of_fmap. exists (id, g).
    split; [done|]. by apply bt_get_elem in Hg.
Qed.

Lemma fair_len_eq rq : Rq.fair_len rq = Z.of_nat (length (fair_queued (rq_fair_groups rq))).
Proof.
  unfold Rq.fair_len, fair_queued. induction (rq_fair_groups rq) as [|[id g] gs IH]; simpl; [done|].
  rewrite IH, length_app. unfold Group.len, task_ids. rewrite length_map. lia.
Qed.

(** Taking a group out of the index, and putting it back. *)
Lemma unlink_fair_group_wf rq id :
  fair_wf rq -> fair_wf_except (Some id) (Rq.unlink_fair_group rq id).
Proof.
  intros [W1 W2 W3 W4 W5 W6]. unfold Rq.unlink_fair_group.
  destruct (bt_get (rq_fair_groups rq) id) as [g|] eqn:E.
  - constructor; simpl; try done.
    + intros id' g' Hg'. destruct (W2 id' g' Hg'). auto.
    + by apply bt_wf_remove.
    + intros v id'. rewrite bs_remove_elem, W4 by done. split.
      * intros (Hne & _ & g' & Hg' & Hv). split; [|by exists g']. intros [= <-].
        rewrite E in Hg'. injection Hg' as <-. by subst.
      * intros (Hne & g' & Hg' & Hv). split_and!; [naive_solver|done|by exists g'].
  - constructor; try done.
    + intros id' g' Hg'. destruct (W2 id' g' Hg'). auto.
    + intros v id'. rewrite W4. split; intros (Hne & g' & Hg' & Hv); split; try done; try (by exists g').
      intros [= <-]. by rewrite E in Hg'.
Qed.

Lemma unlink_fair_group_same rq id :
  rq_fair_groups (Rq.unlink_fair_group rq id) = rq_fair_groups rq /\
  rq_rt_queues (Rq.unlink_fair_group rq id) = rq_rt_queues rq /\
  rq_min_fair_vruntime (Rq.unlink_fair_group rq id) = rq_min_fair_vruntime rq.
Proof. unfold Rq.unlink_fair_group. by destruct (bt_get _ _). Qed.

Lemma is_empty_spec g : Group.is_empty g = bool_decide (g_tasks g = []).
Proof. unfold Group.is_empty. by destruct (g_tasks g). Qed.

Lemma store_group_wf rq id g :
  fair_wf_except (Some id) rq -> group_ok g -> NoDup (task_ids g ++ others (rq_fair_groups rq) id) ->
  g_tasks g <> [] ->
  let rq' := Rq.relink_fair_group_if_runnable
               (rq {{ rq_fair_groups := bt_insert (rq_fair_groups rq) id g }}) id in
  fair_wf rq' /\ rq_fair_groups rq' = bt_insert (rq_fair_groups rq) id g /\
  rq_rt_queues rq' = rq_rt_queues rq /\
  fair_queued (rq_fair_groups rq') ≡ₚ task_ids g ++ others (rq_fair_groups rq) id.
Proof.
  intros [W1 W2 W3 W4 W5 W6] Hok Hnd Hne. unfold Rq.relink_fair_group_if_runnable. simpl.
  rewrite bt_get_insert, key_eqb_refl, is_empty_spec, bool_decide_eq_false_2 by done. simpl.
  split_and!; [|done..|by apply fair_queued_insert].
  constructor; simpl.
  - by apply bt_wf_insert.
  - intros id' g'. rewrite bt_get_insert. destruct (key_eqb id' id) eqn:E.
    + intros [= <-]. auto.
    + apply key_eqb_neq in E. intros Hg'. destruct (W2 _ _ Hg') as [Hok' Hne'].
      split; [done|]. intros _. apply Hne'. congruence.
  - by apply bt_wf_insert.
  - intros v id'. rewrite bs_insert_elem, W4, bt_get_insert by done. destruct (key_eqb id' id) eqn:E.
    + apply key_eqb_eq in E as ->. naive_solver.
    + apply key_eqb_neq in E. naive_solver.
  - by rewrite fair_queued_insert.
  - done.
Qed.

Lemma close_group_wf rq id g :
  fair_wf_except (Some id) rq -> group_ok g -> NoDup (task_ids g ++ others (rq_fair_groups rq) id) ->
  fair_wf (Rq.close_group rq id g) /\
  fair_queued (rq_fair_groups (Rq.close_group rq id g)) ≡ₚ task_ids g ++ others (rq_fair_groups rq) id /\
  rq_rt_queues (Rq.close_group rq id g) = rq_rt_queues rq.
Proof.
  intros W Hok Hnd. unfold Rq.close_group. rewrite is_empty_spec. case_bool_decide as He.
  - assert (task_ids g = []) as Hids by (unfold task_ids; by rewrite He).
    destruct W as [W1 W2 W3 W4 W5 W6].
    assert (bt_remove (bt_insert (rq_fair_groups rq) id g) id = bt_remove (rq_fair_groups rq) id) as Hr.
    { apply bt_ext; eauto with kernel. intros k.
      rewrite !bt_get_remove, bt_get_insert by eauto with kernel. by case_if. }
    simpl. rewrite Hr. rewrite Hids in *. split; [|done]. constructor; simpl; try done.
    + by apply bt_wf_remove.
    + intros id' g'. rewrite bt_get_remove by done. destruct (key_eqb id' id) eqn:E; [done|].
      apply key_eqb_neq in E. intros Hg'. destruct (W2 _ _ Hg') as [? Hne].
      split; [done|]. intros _. apply Hne. congruence.
    + intros v id'. rewrite W4, bt_get_remove by done. destruct (key_eqb id' id) eqn:E.
      * apply key_eqb_eq in E as ->. naive_solver.
      * apply key_eqb_neq in E. naive_solver.
  - destruct (store_group_wf rq id g W Hok Hnd He) as (? & _ & ? & ?). done.
Qed.

Lemma entity_vruntime_le g id e :
  group_wf g -> bt_get (g_tasks g) id = Some e -> e_vruntime e <= U128_MAX.
Proof.
  intros W He. destruct (gw_sum g W) as [_ Hs].
  pose proof (bt_remove_perm _ _ _ He) as Hp. rewrite Hp, weighted_cons in Hs. simpl in Hs.
  destruct (weighted_nonneg (bt_remove (g_tasks g) id)) as [N _].
  { intros id' e' Hin. apply (gw_entity g W). apply group_elem; [done|]. by eapply bt_remove_sub. }
  destruct (gw_entity g W _ _ He). nia.
Qed.

(** The group at the front of the index. *)
Lemma front_group rq v id :
  fair_wf rq -> bs_first (rq_fair_order rq) = Some (v, id) ->
  exists g, bt_get (rq_fair_groups rq) id = Some g /\ g_vruntime g = v /\ group_ok g /\ g_tasks g <> [] /\
    fair_wf_except (Some id) (rq {{ rq_fair_order := bs_remove (rq_fair_order rq) (v, id) }}) /\
    forall id' g', bt_get (rq_fair_groups rq) id' = Some g' -> v <= g_vruntime g'.
Proof.
  intros W Hf. destruct (bs_first_min _ _ (fw_order _ _ W) Hf) as [Hin Hmin].
  apply (fw_index _ _ W) in Hin as (_ & g & Hg & Hv). exists g.
  destruct (fw_group _ _ W _ _ Hg) as [Hok Hne].
  split_and!; try done; [by apply Hne| |].
  - pose proof (unlink_fair_group_wf rq id W) as Hu. unfold Rq.unlink_fair_group in Hu.
    by rewrite Hg, Hv in Hu.
  - intros id' g' Hg'. destruct (Hmin (g_vruntime g', id')) as [[= -> ->]|Hlt].
    + apply (fw_index _ _ W). split; [done|]. by exists g'.
    + lia.
    + unfold key_lt in Hlt. simpl in Hlt. lia.
Qed.

Lemma no_front_group rq :
  fair_wf rq -> bs_first (rq_fair_order rq) = None -> fair_queued (rq_fair_groups rq) = [].
Proof.
  intros W Hf. destruct (rq_fair_groups rq) as [|[id g] gs] eqn:E; [done|]. exfalso.
  assert (bt_get (rq_fair_groups rq) id = Some g) as Hg.
  { apply bt_get_elem; [apply W|]. rewrite E. left. }
  assert ((g_vruntime g, id) ∈ bs_iter (rq_fair_order rq)) as Hin.
  { apply (fw_index _ _ W). split; [done|]. by exists g. }
  destruct (rq_fair_order rq) as [|[k []] o]; [by apply not_elem_of_nil in Hin|done].
Qed.

(** Claiming a fair task that left its group. *)
Lemma claim_fair_task m hart_id t :
  candidate_ok m hart_id t = true ->
  let m1 := (dequeue_mark m hart_id t).2 in
  let m2 := upd m1 t (fun t => t {{ t_fair_runtime_checkpoint_ns := t_cpu_time_ns t }}) in
  let r := Tcb.try_mark_on_cpu hart_id (m2 !!! t) in
  let m3 := upd m2 t (fun _ => r.2) in
  (dequeue_mark m hart_id t).1 = true /\ r.1 = runnable m t /\
  dequeued m m3 hart_id (if r.1 then [] else [t]) (if r.1 then Some t else None).
Proof.
  intros Hc. unfold candidate_ok, queued_here in Hc. apply andb_true_iff in Hc as [Hq Hr].
  unfold dequeue_mark. rewrite Hq. simpl. rewrite !upd_same. unfold Tcb.try_mark_on_cpu. simpl.
  unfold runnable. rewrite Hr. simpl.
  assert (forall f f' f'' t', t' <> t -> upd (upd (upd m t f) t f') t f'' !!! t' = m !!! t') as Ho
    by (intros; by rewrite !upd_other).
  destruct (t_on_cpu (m !!! t) =? OFF_CPU) eqn:E; simpl; split_and!; try done; constructor.
  - intros t' Ht'. by apply not_elem_of_nil in Ht'.
  - intros t' [= <-]. unfold runnable. rewrite Hr, E. split; [|done]. rewrite upd_same.
    constructor; try done. intros []; by constructor.
  - intros t' _ Hne. apply Ho. naive_solver.
  - intros t' Ht'%list_elem_of_singleton. subst t'. unfold runnable. rewrite E, andb_false_r.
    split; [|done]. rewrite upd_same. constructor; try done. intros []; by constructor.
  - done.
  - intros t' Ht' _. apply Ho. set_solver.
Qed.

Lemma group_ok_pop g id e :
  group_ok g -> bt_get (g_tasks g) id = Some e ->
  let g' := (Group.unlink_task g id).2 in
  group_ok (g' {{ g_min_task_vruntime := Z.max (g_min_task_vruntime g') (e_vruntime e) }}).
Proof.
  intros (W & Hv & Hm) He. destruct (unlink_task_wf g id e W He) as (_ & W' & _ & Hv' & _ & Hm').
  pose proof (entity_vruntime_le g id e W He). pose proof (gw_min g W).
  split; [|simpl; rewrite Hv', Hm'; lia].
  apply (group_set_wf _ (g_shares (Group.unlink_task g id).2) (g_vruntime (Group.unlink_task g id).2)); [done|].
  rewrite Hm'. lia.
Qed.

(** The outcome of the fair picker on a hart's groups. *)
Definition pop_result (m : tcbs) (rq : HartRunQueue) (hart_id : Z)
    (res : option Z * tcbs * HartRunQueue * Z) : Prop :=
  let '(picked, m', rq', c') := res in
  fair_wf rq' /\ c' = Rq.fair_len rq' /\ rq_rt_queues rq' = rq_rt_queues rq /\
  (picked = None -> fair_queued (rq_fair_groups rq') = []) /\
  exists ds, fair_queued (rq_fair_groups rq) ≡ₚ ds ++ option_list picked ++ fair_queued (rq_fair_groups rq') /\
    dequeued m m' hart_id ds picked.

Lemma pop_result_after m m2 rq rq2 hart_id ds res :
  NoDup (fair_queued (rq_fair_groups rq)) ->
  fair_queued (rq_fair_groups rq) ≡ₚ ds ++ fair_queued (rq_fair_groups rq2) ->
  rq_rt_queues rq2 = rq_rt_queues rq -> dequeued m m2 hart_id ds None ->
  pop_result m2 rq2 hart_id res -> pop_result m rq hart_id res.
Proof.
  intros Hnd Hp Hrt Hdq. destruct res as [[[picked m'] rq'] c']. intros (W & Hc & Hrt' & Hn & ds2 & Hp2 & Hdq2).
  split_and!; [done|done|by rewrite Hrt'|done|]. exists (ds ++ ds2). split.
  - by rewrite Hp, Hp2, <- app_assoc.
  - apply dequeued_then with m2; [done..|]. rewrite Hp in Hnd. apply NoDup_app in Hnd as (_ & Hd & _).
    intros t Ht. specialize (Hd t Ht). rewrite Hp2 in Hd. split; [set_solver|].
    intros ->. apply Hd. simpl. set_solver.
Qed.

Lemma pop_fair_loop_spec fuel m rq hart_id :
  fair_wf rq -> hart_id <> OFF_CPU ->
  (forall t, t ∈ fair_queued (rq_fair_groups rq) -> t_ready_queue_hart (m !!! t) = hart_id) ->
  (length (fair_queued (rq_fair_groups rq)) < fuel)%nat ->
  let res := pop_fair_loop fuel m rq (Rq.fair_len rq) hart_id in
  pop_result m rq hart_id res /\
  (forall v id g avg, bs_first (rq_fair_order rq) = Some (v, id) -> bt_get (rq_fair_groups rq) id = Some g ->
     Group.avg_task_vruntime g = Some avg -> (forall t, t ∈ task_ids g -> runnable m t = true) ->
     exists t, res.1.1.1 = Some t /\ eevdf_choice m hart_id g avg t).
Proof.
  intros W Hoff. revert m rq W. induction fuel as [|fuel IH]; intros m rq W Hq Hf; [lia|].
  cbn [pop_fair_loop]. destruct (bs_first (rq_fair_order rq)) as [[v gid]|] eqn:Ef.
  2: { split; [|done]. split_and!; try done; [by intros; apply no_front_group|].
       exists []. split; [done|apply dequeued_nil]. }
  destruct (front_group rq v gid W Ef) as (g & Hg & Hv & Hok & Hne & We & _).
  set (rq1 := rq {{ rq_fair_order := _ }}) in *.
  change (rq_fair_groups rq1) with (rq_fair_groups rq). rewrite Hg, Hv, Z.eqb_refl. simpl negb. cbv iota.
  pose proof (fair_queued_get _ _ _ Hg) as Hperm.
  pose proof (fw_nodup _ _ W) as Hnd0. pose proof Hnd0 as Hnd. rewrite Hperm in Hnd.
  assert (forall t, t ∈ task_ids g -> t_ready_queue_hart (m !!! t) = hart_id) as Hqg
    by (intros t Ht; apply Hq; rewrite Hperm; set_solver).
  rewrite fair_len_eq.
  destruct (prune_fair_group_front_spec m g (Z.of_nat (length (fair_queued (rq_fair_groups rq)))) hart_id
    (proj1 Hok) Hne Hoff Hqg) as (avg & Havg & Hpr); [rewrite Hperm, length_app; lia|].
  destruct (prune_fair_group_front m g _ hart_id) as [[[front m1] g1] c1].
  destruct Hpr as (W1 & (Hs1 & Hs2 & Hs3) & (ds & Hds & Hdq & Hc1 & Hsame) & Hfront).
  assert (group_ok g1) as Hok1 by (destruct Hok as (? & ? & ?); split; [done|rewrite Hs1, Hs3; done]).
  rewrite Hds, <- app_assoc in Hnd. apply NoDup_app in Hnd as (Hnd1 & Hnd2 & Hnd3).
  rewrite Hds, <- app_assoc in Hperm.
  (* a turn of the loop that dropped [ds2] from the group's tasks *)
  assert (forall m2 g2 ds2 rqb c2, group_ok g2 -> ds2 <> [] -> task_ids g ≡ₚ ds2 ++ task_ids g2 ->
    dequeued m m2 hart_id ds2 None -> c2 = Z.of_nat (length (fair_queued (rq_fair_groups rq))) - Z.of_nat (length ds2) ->
    fair_wf_except (Some gid) rqb -> rq_fair_groups rqb = rq_fair_groups rq -> rq_rt_queues rqb = rq_rt_queues rq ->
    pop_result m rq hart_id (pop_fair_loop fuel m2 (Rq.close_group rqb gid g2) c2 hart_id)) as Hcont.
  { intros m2 g2 ds2 rqb c2 Hok2 Hne2 Hids Hdq2 Hc2 Wb Hgb Hrb.
    pose proof (fair_queued_get _ _ _ Hg) as Hperm2. rewrite Hids, <- app_assoc in Hperm2.
    pose proof Hnd0 as Hndq. rewrite Hperm2 in Hndq. apply NoDup_app in Hndq as (_ & Hdis & Hndq).
    destruct (close_group_wf rqb gid g2 Wb Hok2) as (Wc & Hqc & Hrc); [by rewrite Hgb|].
    rewrite Hgb in Hqc.
    assert (forall t, t ∈ fair_queued (rq_fair_groups (Rq.close_group rqb gid g2)) -> t ∉ ds2) as Hdis'
      by (intros t Ht Hin; rewrite Hqc in Ht; by apply (Hdis t)).
    rewrite <- Hqc in Hperm2.
    apply pop_result_after with m2 (Rq.close_group rqb gid g2) ds2; try done; [by rewrite Hrc|].
    replace c2 with (Rq.fair_len (Rq.close_group rqb gid g2)).
    2: { rewrite fair_len_eq, Hc2, Hperm2, length_app. lia. }
    rewrite Hperm2, length_app in Hf. destruct ds2 as [|d ds2]; [done|]. simpl in Hf.
    apply IH; [done| |lia]. intros t Ht. rewrite (dq_others _ _ _ _ _ Hdq2); [|by apply Hdis'|done].
    apply Hq. rewrite Hperm2. set_solver. }
  assert (task_ids g <> []) as Hnz by (unfold task_ids; by destruct (g_tasks g)).
  destruct front as [id|].
  2: { assert (ds <> []) as Hdne.
       { intros ->. apply Hnz, Permutation_nil_r. rewrite Hds. unfold task_ids. by rewrite Hfront. }
       split; [by apply Hcont with ds|]. intros v' id' g' avg' [= <- <-] Hg' _ Hrun. exfalso.
       rewrite Hg in Hg'. injection Hg' as <-. destruct ds as [|d ds]; [done|].
       destruct (dq_dropped _ _ _ _ _ Hdq d) as [_ Hr]; [left|]. rewrite Hrun in Hr; [done|].
       rewrite Hds. left. }
  destruct Hfront as (e & He & Hcand & Hch).
  destruct (unlink_task_wf g1 id e W1 He) as (Hu & _). pose proof (unlink_task_ids g1 id e W1 He) as Hids1.
  pose proof (group_ok_pop g1 id e Hok1 He) as Hok2. simpl in Hok2.
  destruct (Group.unlink_task g1 id) as [entity g2]. simpl in Hu, Hids1, Hok2. subst entity.
  rewrite (eo_task _ _ (gw_entity g1 W1 _ _ He)).
  destruct (claim_fair_task m1 hart_id id Hcand) as (Hstill & Hrun & Hdq1).
  destruct (dequeue_mark m1 hart_id id) as [still m2]. simpl in Hstill, Hrun, Hdq1. subst still. simpl negb. cbv iota.
  set (m3 := upd m2 id _) in *.
  destruct (Tcb.try_mark_on_cpu hart_id (m3 !!! id)) as [ok t4]. simpl in Hrun, Hdq1.
  assert (forall t, t ∈ ds -> t <> id) as Hdid.
  { intros t Ht ->. apply (Hnd2 _ Ht). rewrite Hids1. set_solver. }
  assert (dec_count c1 = Z.of_nat (length (fair_queued (rq_fair_groups rq))) - Z.of_nat (length ds) - 1) as Hc2.
  { rewrite Hc1. rewrite Hperm, Hids1, !length_app. simpl. unfold dec_count. case_if; lia. }
  set (g3 := g2 {{ g_min_task_vruntime := _ }}) in *. change (task_ids g2) with (task_ids g3) in Hids1.
  set (rqb := rq1 {{ rq_min_fair_vruntime := _ }}).
  assert (fair_wf_except (Some gid) rqb) as Wb.
  { destruct We as [A1 A2 A3 A4 A5 A6]. constructor; try done. simpl.
    destruct Hok2 as (_ & Hv3 & _). simpl in Hv3, A6. lia. }
  destruct ok.
  - split.
    + destruct (close_group_wf rqb gid g3 Wb Hok2) as (Wc & Hqc & Hrc).
      { rewrite Hids1 in Hnd3. by apply NoDup_cons in Hnd3 as [_ ?]. }
      change (rq_fair_groups rqb) with (rq_fair_groups rq) in Hqc.
      rewrite Hids1 in Hperm. simpl in Hperm. rewrite <- Hqc in Hperm.
      split_and!; [done| |done|done|].
      * rewrite fair_len_eq, Hc2, Hperm, length_app. simpl. lia.
      * exists ds. split; [done|]. rewrite <- (app_nil_r ds). apply dequeued_then with m1; [done..|].
        intros t Ht. split; [set_solver|]. specialize (Hdid t Ht). congruence.
    + intros v' id' g' avg' [= <- <-] Hg' Ha' Hall. rewrite Hg in Hg'. injection Hg' as <-.
      rewrite Havg in Ha'. injection Ha' as <-. exists id. split; [done|].
      destruct ds as [|d ds].
      * destruct (Hsame eq_refl) as [-> ->]. by exists e.
      * destruct (dq_dropped _ _ _ _ _ Hdq d) as [_ Hr]; [left|]. rewrite Hall in Hr; [done|]. rewrite Hds. left.
  - assert (dequeued m (upd m3 id (fun _ => t4)) hart_id (ds ++ [id]) None) as Hdq3.
    { apply dequeued_then with m1; [done..|]. intros t Ht. split; [|done]. specialize (Hdid t Ht). set_solver. }
    split.
    + apply Hcont with (ds ++ [id]); try done.
      * by destruct ds.
      * rewrite Hds, Hids1, <- app_assoc. done.
      * rewrite Hc2, length_app. simpl. lia.
    + intros v' id' g' avg' [= <- <-] Hg' _ Hall. exfalso. rewrite Hg in Hg'. injection Hg' as <-.
      destruct (dq_dropped _ _ _ _ _ Hdq3 id) as [_ Hr]; [set_solver|]. rewrite Hall in Hr; [done|].
      rewrite Hds, Hids1. set_solver.
Qed.
