(* ===== verification/RunQueueInv.v ===== *)
(** * The run queues' invariant

    The invariant of [RunQueue]'s state and what [fetch], [add] and [remove]
    ([task/manager/run_queue.rs]) do to it: the counters agree with the queues,
    a task is queued at most once, and its marks say where. *)

From S2P Require Import Prelude.
From S2P Require Import BTree.
From S2P Require Import Sched.
From S2P Require Import TaskBlock.
From S2P Require Import FairGroup.
From S2P Require Import RunQueue.

(** ** Invariant of the run queues *)

Definition rt_queued (h : Hart) : list Z := concat (rq_rt_queues (h_rq h)).
Definition queued (h : Hart) : list Z := rt_queued h ++ fair_queued (rq_fair_groups (h_rq h)).

Record hart_wf (h : Hart) : Prop := {
  hw_fair : fair_wf (h_rq h);
  hw_levels : length (rq_rt_queues (h_rq h)) = RT_PRIO_LEVELS;
  hw_rt_counts : h_ready_rt h = lengths (rq_rt_queues (h_rq h));
  hw_fair_count : h_ready_fair h = Rq.fair_len (h_rq h);
  hw_nodup : NoDup (queued h)
}.

(** The counters agree with the queues, a task is queued at most once, and its
    marks say where. *)
Record sys_wf (s : System) : Prop := {
  sw_length : length (s_harts s) = Z.to_nat MAX_HARTS;
  sw_hart : forall h, Tcb.hart_ok h -> hart_wf (hart s h);
  sw_queued : forall h t, Tcb.hart_ok h -> t ∈ queued (hart s h) <-> t_ready_queue_hart (tcb s t) = h;
  sw_place : forall t, t_ready_queue_hart (tcb s t) = OFF_CPU \/ Tcb.hart_ok (t_ready_queue_hart (tcb s t));
  sw_flag : forall t, t_in_ready_queue (tcb s t) = negb (t_ready_queue_hart (tcb s t) =? OFF_CPU);
  sw_fields : forall t, fair_fields_ok (tcb s t)
}.

Lemma hart_ok_off h : Tcb.hart_ok h -> h <> OFF_CPU.
Proof. unfold Tcb.hart_ok, MAX_HARTS, OFF_CPU. lia. Qed.

Lemma hart_upd_same s h f :
  length (s_harts s) = Z.to_nat MAX_HARTS -> Tcb.hart_ok h -> hart (upd_hart s h f) h = f (hart s h).
Proof.
  intros Hl Hh. unfold hart, upd_hart. simpl. unfold Tcb.hart_ok, MAX_HARTS in *.
  rewrite list_lookup_total_alter. rewrite decide_True by lia. done.
Qed.

Lemma hart_upd_other s h h' f : Tcb.hart_ok h -> Tcb.hart_ok h' -> h <> h' -> hart (upd_hart s h f) h' = hart s h'.
Proof.
  intros Hh Hh' Hne. unfold hart, upd_hart. simpl. unfold Tcb.hart_ok in *.
  rewrite list_lookup_total_alter. rewrite decide_False by lia. done.
Qed.

Lemma tcb_upd_same s t f : tcb (upd_tcb s t f) t = f (tcb s t).
Proof. apply lookup_total_insert_eq. Qed.
Lemma tcb_upd_other s t t' f : t <> t' -> tcb (upd_tcb s t f) t' = tcb s t'.
Proof. apply lookup_total_insert_ne. Qed.
Lemma upd_hart_length s h f : length (s_harts (upd_hart s h f)) = length (s_harts s).
Proof. unfold upd_hart. simpl. apply length_alter. Qed.

#[export] Hint Rewrite tcb_upd_same upd_hart_length : kernel.
#[export] Hint Rewrite tcb_upd_other using done : kernel.
#[export] Hint Resolve hart_ok_off : kernel.

(** An update of a task that leaves its place in the queues alone. *)
Lemma upd_tcb_wf s task f :
  sys_wf s ->
  (let t := tcb s task in
   t_ready_queue_hart (f t) = t_ready_queue_hart t /\ t_in_ready_queue (f t) = t_in_ready_queue t /\
   (fair_fields_ok t -> fair_fields_ok (f t))) ->
  sys_wf (upd_tcb s task f).
Proof.
  intros W (H1 & H2 & H3).
  assert (forall t, t_ready_queue_hart (tcb (upd_tcb s task f) t) = t_ready_queue_hart (tcb s t) /\
    t_in_ready_queue (tcb (upd_tcb s task f) t) = t_in_ready_queue (tcb s t) /\
    fair_fields_ok (tcb (upd_tcb s task f) t)) as Ht.
  { intros t. destruct (decide (task = t)) as [->|Hne].
    - rewrite tcb_upd_same. split_and!; [done..|]. apply H3, W.
    - rewrite tcb_upd_other by done. split_and!; [done..|]. apply W. }
  constructor; try apply W.
  - intros h t Hh. rewrite (proj1 (Ht t)). by apply (sw_queued _ W).
  - intros t. rewrite (proj1 (Ht t)). apply W.
  - intros t. rewrite (proj1 (Ht t)), (proj1 (proj2 (Ht t))). apply W.
  - intros t. apply Ht.
Qed.

Lemma rq_len_eq h : Rq.len (h_rq h) = Z.of_nat (length (queued h)).
Proof.
  unfold Rq.len, queued. rewrite fair_len_eq, length_app. unfold rt_queued, Rq.rt_len.
  induction (rq_rt_queues (h_rq h)) as [|q qs IH]; simpl; [lia|]. rewrite length_app. lia.
Qed.

(** The processor part of a hart and the masks are untouched. *)
Definition same_proc (s s' : System) (hart_id : Z) : Prop :=
  h_current (hart s' hart_id) = h_current (hart s hart_id) /\
  h_pending_ready (hart s' hart_id) = h_pending_ready (hart s hart_id) /\
  h_pending_blocked (hart s' hart_id) = h_pending_blocked (hart s hart_id) /\
  s_active s' = s_active s /\ s_online s' = s_online s.

(** A hart's queue after [ds] and [picked] left it. *)
Record hart_dequeued (s s' : System) (hart_id : Z) (ds : list Z) (picked : option Z) : Prop := {
  hd_perm : queued (hart s hart_id) ≡ₚ ds ++ option_list picked ++ queued (hart s' hart_id);
  hd_tcbs : dequeued (s_tcbs s) (s_tcbs s') hart_id ds picked;
  hd_wf : hart_wf (hart s' hart_id);
  hd_others : forall h, Tcb.hart_ok h -> h <> hart_id -> hart s' h = hart s h;
  hd_proc : same_proc s s' hart_id;
  hd_length : length (s_harts s') = length (s_harts s)
}.

Lemma hart_dequeued_wf s s' hart_id ds picked :
  sys_wf s -> Tcb.hart_ok hart_id -> hart_dequeued s s' hart_id ds picked -> sys_wf s'.
Proof.
  intros W Hh [Hp Hdq Hw Ho _ Hl].
  pose proof (hw_nodup _ (sw_hart _ W _ Hh)) as Hnd. rewrite Hp, app_assoc in Hnd.
  apply NoDup_app in Hnd as (_ & Hdis & Hnd).
  assert (forall t, t ∈ ds ++ option_list picked -> t_ready_queue_hart (tcb s' t) = OFF_CPU /\
            t_in_ready_queue (tcb s' t) = false /\ fair_fields_ok (tcb s' t)) as Hout.
  { intros t [Ht|Ht]%elem_of_app.
    - destruct (dq_dropped _ _ _ _ _ Hdq t Ht) as [Hlq _]. split_and!; [apply Hlq..|].
      apply (lq_fields _ _ Hlq), (sw_fields _ W).
    - destruct picked as [t'|]; simpl in Ht; [|by apply not_elem_of_nil in Ht].
      apply list_elem_of_singleton in Ht as ->.
      destruct (dq_picked _ _ _ _ _ Hdq t' eq_refl) as [Htb _]. split_and!; [apply Htb..|].
      apply (tb_fields _ _ _ Htb), (sw_fields _ W). }
  assert (forall t, t ∉ ds ++ option_list picked -> tcb s' t = tcb s t) as Hin.
  { intros t Ht. apply Hdq; [set_solver|]. intros ->. apply Ht. simpl. set_solver. }
  constructor.
  - rewrite Hl. apply W.
  - intros h Hok. destruct (decide (h = hart_id)) as [->|Hne]; [done|]. rewrite Ho by done. by apply W.
  - intros h t Hok. destruct (decide (t ∈ ds ++ option_list picked)) as [Ht|Ht].
    + destruct (Hout t Ht) as (-> & _ & _). split; [|intros <-; exfalso; by apply (hart_ok_off OFF_CPU)].
      intros Hq. exfalso. destruct (decide (h = hart_id)) as [->|Hne]; [by apply (Hdis t)|].
      rewrite Ho in Hq by done. apply (sw_queued _ W) in Hq; [|done].
      assert (t ∈ queued (hart s hart_id)) as Hq' by (rewrite Hp, app_assoc; set_solver).
      apply (sw_queued _ W) in Hq'; [congruence|done].
    + rewrite Hin by done. rewrite <- (sw_queued _ W) by done.
      destruct (decide (h = hart_id)) as [->|Hne]; [|by rewrite Ho].
      rewrite Hp, app_assoc, elem_of_app. naive_solver.
  - intros t. destruct (decide (t ∈ ds ++ option_list picked)) as [Ht|Ht].
    + left. by destruct (Hout t Ht).
    + rewrite Hin by done. apply W.
  - intros t. destruct (decide (t ∈ ds ++ option_list picked)) as [Ht|Ht].
    + by destruct (Hout t Ht) as (-> & -> & _).
    + rewrite Hin by done. apply W.
  - intros t. destruct (decide (t ∈ ds ++ option_list picked)) as [Ht|Ht].
    + by destruct (Hout t Ht) as (_ & _ & ?).
    + rewrite Hin by done. apply W.
Qed.

Lemma throttled_spec s hart_id now :
  length (s_harts s) = Z.to_nat MAX_HARTS -> Tcb.hart_ok hart_id ->
  let r := rt_bandwidth_throttled s hart_id now in
  r.1 = (refresh_rt_bandwidth (s_sysctl s) now (h_bandwidth (hart s hart_id))).1 /\
  s_tcbs r.2 = s_tcbs s /\ length (s_harts r.2) = length (s_harts s) /\
  hart r.2 hart_id = (hart s hart_id) {{ h_bandwidth :=
    (refresh_rt_bandwidth (s_sysctl s) now (h_bandwidth (hart s hart_id))).2 }} /\
  forall h, Tcb.hart_ok h -> h <> hart_id -> hart r.2 h = hart s h.
Proof.
  intros Hl Hh. unfold rt_bandwidth_throttled.
  destruct (refresh_rt_bandwidth _ _ _) as [b bw]. simpl. split_and!; try done.
  - by rewrite length_alter.
  - by rewrite hart_upd_same.
  - intros h Hok Hne. by rewrite hart_upd_other.
Qed.

Lemma throttled_masks s hart_id now :
  s_active (rt_bandwidth_throttled s hart_id now).2 = s_active s /\
  s_online (rt_bandwidth_throttled s hart_id now).2 = s_online s.
Proof. unfold rt_bandwidth_throttled. by destruct (refresh_rt_bandwidth _ _ _). Qed.

(** The hart's state after [fetch] stored what the pickers left. *)
Definition fetched (h : Hart) (rq : HartRunQueue) (counts : list Z) (fair_count : Z) : Hart :=
  h {{ h_rq := rq; h_ready_rt := counts; h_ready_fair := fair_count }}.

Lemma hart_wf_fetched h rq queues :
  fair_wf rq -> rq_rt_queues rq = queues -> length queues = RT_PRIO_LEVELS ->
  NoDup (concat queues ++ fair_queued (rq_fair_groups rq)) ->
  hart_wf (fetched h rq (lengths queues) (Rq.fair_len rq)).
Proof. intros W Hq Hl Hnd. constructor; simpl; try done; try (by rewrite Hq). unfold queued, rt_queued. simpl. by rewrite Hq. Qed.

(** What [fetch] picks: the first runnable task of the highest real-time
    priority, unless the class is throttled; otherwise a fair task. *)
Definition rt_candidate (s : System) (hart_id now : Z) : option Z :=
  if (rt_bandwidth_throttled s hart_id now).1 then None
  else List.find (runnable (s_tcbs s)) (rt_queued (hart s hart_id)).

Lemma fair_wf_rt rq queues : fair_wf rq -> fair_wf (rq {{ rq_rt_queues := queues }}).
Proof. intros [? ? ? ? ? ?]. by constructor. Qed.

Lemma eevdf_choice_ext m m' hart_id g eligible id :
  group_wf g -> (forall t, t ∈ task_ids g -> m' !!! t = m !!! t) ->
  eevdf_choice m' hart_id g eligible id -> eevdf_choice m hart_id g eligible id.
Proof.
  intros W Heq. assert (forall t e, bt_get (g_tasks g) t = Some e ->
    candidate_ok m' hart_id t = candidate_ok m hart_id t) as Hc.
  { intros t e He. unfold candidate_ok, queued_here. rewrite Heq; [done|]. apply task_ids_elem; [done|by exists e]. }
  intros (e & He & Hok & Hch). exists e. split_and!; [done|by rewrite <- (Hc _ _ He)|].
  destruct Hch as [[Hel Hmin]|Hno]; [left|right].
  - split; [done|]. intros id' e' He' Hok'. apply (Hmin id'); [done|by rewrite (Hc _ _ He')].
  - intros id' e' He' Hok'. apply (Hno id'); [done|by rewrite (Hc _ _ He')].
Qed.

Lemma fetch_spec s hart_id now :
  sys_wf s -> Tcb.hart_ok hart_id ->
  let '(picked, s') := fetch s hart_id now in
  (exists ds, hart_dequeued s s' hart_id ds picked) /\
  (is_Some (rt_candidate s hart_id now) -> picked = rt_candidate s hart_id now) /\
  (picked = None -> fair_queued (rq_fair_groups (h_rq (hart s' hart_id))) = [] /\
     ((rt_bandwidth_throttled s hart_id now).1 = false -> rt_queued (hart s' hart_id) = [])) /\
  (rt_candidate s hart_id now = None ->
   forall v id g avg, bs_first (rq_fair_order (h_rq (hart s hart_id))) = Some (v, id) ->
     bt_get (rq_fair_groups (h_rq (hart s hart_id))) id = Some g ->
     Group.avg_task_vruntime g = Some avg ->
     (forall t, t ∈ task_ids g -> runnable (s_tcbs s) t = true) ->
     exists t, picked = Some t /\ eevdf_choice (s_tcbs s) hart_id g avg t).
Proof.
  intros W Hh. pose proof (sw_hart _ W _ Hh) as Hw. unfold fetch, rt_candidate.
  destruct (throttled_spec s hart_id now (sw_length _ W) Hh) as (_ & Hm & Hl1 & Hs1 & Ho1).
  destruct (throttled_masks s hart_id now) as [Hact Hon].
  destruct (rt_bandwidth_throttled s hart_id now) as [thr s1]. simpl in *. rewrite Hs1, Hm. simpl.
  pose proof (hw_nodup _ Hw) as Hnd. unfold queued in Hnd. apply NoDup_app in Hnd as (Hn1 & Hn2 & Hn3).
  assert (forall t, t ∈ queued (hart s hart_id) -> t_ready_queue_hart (s_tcbs s !!! t) = hart_id) as Hq
    by (intros t Ht; by apply (sw_queued _ W)).
  set (q0 := rq_rt_queues (h_rq (hart s hart_id))) in *.
  set (fq := fair_queued (rq_fair_groups (h_rq (hart s hart_id)))) in *.
  change (rt_queued (hart s hart_id)) with (concat q0) in *.
  rewrite (hw_rt_counts _ Hw), (hw_fair_count _ Hw). fold q0.
  (* the real-time phase *)
  set (rt := if thr then _ else _).
  assert (let '(p, m', qs', cs') := rt in
    p = (if thr then None else List.find (runnable (s_tcbs s)) (concat q0)) /\
    cs' = lengths qs' /\ length qs' = length q0 /\ (p = None -> thr = false -> concat qs' = []) /\
    exists ds, concat q0 ≡ₚ ds ++ option_list p ++ concat qs' /\ dequeued (s_tcbs s) m' hart_id ds p) as Hrt.
  { unfold rt. destruct thr.
    - split_and!; try done. exists []. split; [done|apply dequeued_nil].
    - pose proof (fetch_rt_spec (s_tcbs s) q0 hart_id Hn1 (hart_ok_off _ Hh)) as Hr.
      destruct (fetch_rt _ _ _ _) as [[[p m'] qs'] cs']. destruct Hr as (? & ? & ? & ? & ds & Hds & ?).
      { intros t Ht. apply Hq. apply elem_of_app. by left. }
      split_and!; try done; [auto|]. exists ds. by rewrite <- Hds. }
  clearbody rt. destruct rt as [[[p m1] qs1] cs1]. destruct Hrt as (Hp & -> & Hl & Hrtn & ds1 & Hds1 & Hdq1).
  assert (forall rq m fc picked ds, fair_wf rq -> rq_rt_queues rq = qs1 -> fc = Rq.fair_len rq ->
    queued (hart s hart_id) ≡ₚ ds ++ option_list picked ++ concat qs1 ++ fair_queued (rq_fair_groups rq) ->
    dequeued (s_tcbs s) m hart_id ds picked ->
    hart_dequeued s (upd_hart (s1 {{ s_tcbs := m }}) hart_id (fun h => fetched h rq (lengths qs1) fc))
      hart_id ds picked) as Hfin.
  { intros rq m fc picked ds Wf Hrtq -> Hperm Hdq. constructor.
    - rewrite hart_upd_same by (try done; simpl; rewrite Hl1; apply W). unfold queued at 2, rt_queued. simpl.
      by rewrite Hrtq.
    - done.
    - rewrite hart_upd_same by (try done; simpl; rewrite Hl1; apply W).
      apply hart_wf_fetched; try done; [by rewrite Hl; apply Hw|].
      pose proof (hw_nodup _ Hw) as Hnd. rewrite Hperm, app_assoc in Hnd. by apply NoDup_app in Hnd as (_ & _ & ?).
    - intros h Hok Hne. rewrite hart_upd_other by done. by apply Ho1.
    - unfold same_proc. rewrite hart_upd_same by (try done; simpl; rewrite Hl1; apply W). simpl.
      change (hart (s1 {{ s_tcbs := m }}) hart_id) with (hart s1 hart_id). by rewrite Hs1.
    - rewrite upd_hart_length. simpl. done. }
  rewrite <- Hp.
  destruct p as [t|].
  { split_and!; [|done..].
    exists ds1. apply Hfin; [by apply fair_wf_rt, Hw|done..| |done].
    unfold queued, rt_queued. fold q0 fq. simpl. fold fq. by rewrite Hds1, <- !app_assoc. }
  assert (forall t, t ∈ fq -> m1 !!! t = s_tcbs s !!! t) as Hm1.
  { intros t Ht. apply Hdq1; [|done]. intros Hin. apply (Hn2 t); [|done].
    rewrite Hds1. set_solver. }
  set (rq0 := (h_rq (hart s hart_id)) {{ rq_rt_queues := qs1 }}).
  change (Rq.fair_len (h_rq (hart s hart_id))) with (Rq.fair_len rq0). unfold pop_ready_fair_candidate.
  destruct (pop_fair_loop_spec (S (2 * length (rq_fair_order rq0) + Z.to_nat (Rq.fair_len rq0))) m1 rq0 hart_id
    (fair_wf_rt _ _ (hw_fair _ Hw)) (hart_ok_off _ Hh)) as [Hres Hchoice].
  { intros t Ht. rewrite Hm1 by done. apply Hq, elem_of_app. by right. }
  { rewrite fair_len_eq. lia. }
  destruct (pop_fair_loop _ m1 rq0 (Rq.fair_len rq0) hart_id) as [[[p2 m2] rq2] c2].
  destruct Hres as (W2 & Hc2 & Hrt2 & Hnone2 & ds2 & Hds2 & Hdq2).
  split_and!.
  - exists (ds1 ++ ds2). apply Hfin; try done.
    + unfold queued, rt_queued. fold q0. rewrite Hds1. simpl.
      change (rq_fair_groups rq0) with (rq_fair_groups (h_rq (hart s hart_id))) in Hds2. rewrite Hds2.
      rewrite <- !app_assoc. f_equiv. rewrite !(app_assoc ds2). apply Permutation_app_swap_app.
    + apply dequeued_then with m1; [done..|]. intros t Ht.
      assert (t ∉ fq) as Hnot by (apply Hn2; rewrite Hds1; set_solver).
      change fq with (fair_queued (rq_fair_groups rq0)) in Hnot. rewrite Hds2 in Hnot.
      split; [set_solver|]. intros ->. apply Hnot. simpl. set_solver.
  - intros []; done.
  - intros ->. rewrite hart_upd_same by (try done; simpl; rewrite Hl1; apply W). unfold rt_queued. simpl.
    rewrite Hrt2. auto.
  - intros _ v id g avg Hf Hg Ha Hrun.
    assert (forall t, t ∈ task_ids g -> m1 !!! t = s_tcbs s !!! t) as Hmg.
    { intros t Ht. apply Hm1. unfold fq. apply fair_queued_elem; [apply Hw|]. by exists id, g. }
    simpl in Hchoice. destruct (Hchoice v id g avg Hf Hg Ha) as (t & -> & Hch).
    { intros t Ht. unfold runnable. rewrite Hmg by done. by apply Hrun. }
    exists t. split; [done|]. eapply eevdf_choice_ext; [|exact Hmg|done].
    by apply (fw_group _ _ (hw_fair _ Hw) _ _ Hg).
Qed.

(** ** Adding *)

(** The group a fair task enters on a hart, before it is placed. *)
Definition entered_group (h : Hart) (t : TCB) : FairGroupQueue :=
  (unwrap_or (bt_get (rq_fair_groups (h_rq h)) (t_fair_group_id t))
     (Group.new (rq_min_fair_vruntime (h_rq h))))
    {{ g_shares := Z.max (Z.max (t_fair_group_shares t) 1) 1 }}.

(** The counters and the sums of the group have room for the task. *)
Definition add_room (s : System) (task hart_id : Z) (kind : EnqueueKind) (now : Z) : Prop :=
  let h := hart s hart_id in
  let t := tcb s task in
  Z.of_nat (length (queued h)) < USIZE_MAX /\
  fits (entered_group h t)
    (placed_vruntime (entered_group h t) t kind
       (current_fair_entity_for_group s hart_id (t_fair_group_id t) now))
    (fair_nice_weight (t_nice t)).

Lemma entered_group_ok h t :
  hart_wf h -> group_ok (entered_group h t) /\
  (forall id, bt_get (g_tasks (entered_group h t)) id <> None ->
     id ∈ fair_queued (rq_fair_groups (h_rq h))) /\
  fair_queued (rq_fair_groups (h_rq h)) ≡ₚ
    task_ids (entered_group h t) ++ others (rq_fair_groups (h_rq h)) (t_fair_group_id t).
Proof.
  intros Hw. unfold entered_group. set (gid := t_fair_group_id t).
  destruct (bt_get (rq_fair_groups (h_rq h)) gid) as [g|] eqn:E; simpl.
  - destruct (fw_group _ _ (hw_fair _ Hw) _ _ E) as [(W & Hv & Hm) _]. split_and!.
    + split; [|done]. apply (group_set_wf g _ (g_vruntime g) (g_min_task_vruntime g)); [done|].
      apply (gw_min g W).
    + intros id Hid. apply fair_queued_elem; [apply (hw_fair _ Hw)|]. exists gid, g. split; [done|].
      apply task_ids_elem; [done|]. by apply not_eq_None_Some in Hid.
    + exact (fair_queued_get _ _ _ E).
  - pose proof (fw_min _ _ (hw_fair _ Hw)). split_and!.
    + split; [|simpl; lia]. apply (group_set_wf (Group.new (rq_min_fair_vruntime (h_rq h))) (Z.max (Z.max (t_fair_group_shares t) 1) 1)
        (rq_min_fair_vruntime (h_rq h)) (rq_min_fair_vruntime (h_rq h))); [apply group_new_wf|]; lia.
    + done.
    + by rewrite others_absent.
Qed.

Lemma current_entity_ok s hart_id group_id now :
  sys_wf s -> current_ok (current_fair_entity_for_group s hart_id group_id now).
Proof.
  intros W v w. unfold current_fair_entity_for_group.
  destruct (current_task_on_hart s hart_id) as [c|]; [|done]. repeat case_if; try done.
  intros [= <- <-]. pose proof (fair_nice_weight_range (t_nice (tcb s c))).
  destruct (sw_fields _ W c) as [F1 _ _ _ _]. split; [|lia]. simpl.
  pose proof (scale_fair_delta_pos (sat_sub (current_runtime_ns (tcb s c) now)
    (t_fair_runtime_checkpoint_ns (tcb s c))) (fair_nice_weight (t_nice (tcb s c))) ltac:(ulia)).
  unfold sat_add128. lia.
Qed.

(** What [add] changes of the task, besides its fair virtual time. *)
Record entered_queue (hart_id : Z) (t t' : TCB) : Prop := {
  eq_hart : t_ready_queue_hart t' = hart_id;
  eq_flag : t_in_ready_queue t' = true;
  eq_cpu : t_cpu_id t' = hart_id;
  eq_on_cpu : t_on_cpu t' = t_on_cpu t;
  eq_status : t_status t' = t_status t;
  eq_fields : fair_fields_ok t';
  eq_same : t_has_res t' = t_has_res t /\ t_policy t' = t_policy t /\
            t_priority t' = t_priority t /\ t_wakeup_sync_hart t' = t_wakeup_sync_hart t /\
            t_cgroup_frozen t' = t_cgroup_frozen t /\ t_affinity t' = t_affinity t
}.

Lemma add_fair_spec h t task kind cur :
  hart_wf h -> fair_fields_ok t -> current_ok cur -> task ∉ queued h ->
  t_ready_queue_hart t = t_cpu_id t -> t_in_ready_queue t = true ->
  Z.of_nat (length (queued h)) < USIZE_MAX ->
  fits (entered_group h t) (placed_vruntime (entered_group h t) t kind cur) (fair_nice_weight (t_nice t)) ->
  let (h', t') := add_fair h t task kind cur in
  hart_wf h' /\ queued h' ≡ₚ task :: queued h /\ rt_queued h' = rt_queued h /\
  entered_queue (t_cpu_id t) t t' /\
  (h_current h' = h_current h /\ h_pending_ready h' = h_pending_ready h /\
   h_pending_blocked h' = h_pending_blocked h).
Proof.
  intros Hw F Hcur Hnq E1 E2 Hroom Hfits. unfold add_fair, fair_group_id_and_shares.
  destruct (entered_group_ok h t Hw) as ((W & Hv & Hm) & Hsub & Hperm).
  destruct (unlink_fair_group_same (h_rq h) (t_fair_group_id t)) as (Eg & Er & Em). rewrite Eg.
  change (unwrap_or (bt_get (rq_fair_groups (h_rq h)) (t_fair_group_id t))
    (Group.new (rq_min_fair_vruntime (h_rq h)))) {{ g_shares := Z.max (Z.max (t_fair_group_shares t) 1) 1 }}
    with (entered_group h t).
  set (g0 := entered_group h t) in *.
  pose proof (place_fair_task_entity_eq g0 t kind cur) as Hplace.
  pose proof (placed_vruntime_nonneg g0 t kind cur W F Hm Hcur) as Hv0.
  pose proof (placed_vruntime_le g0 t kind cur W F Hm Hcur) as Hv1.
  destruct (place_fair_task_entity g0 t kind cur) as [[[v d] g1] t1].
  destruct Hplace as (Ev & Ed & Eg1 & Et1). rewrite <- Ev in *.
  assert (group_ok g1 /\ g_tasks g1 = g_tasks g0) as [(W1 & Hb1 & Hm1) Ht1].
  { split; [|by rewrite Eg1]. subst g1. split; [|split; [|done]].
    - clearbody g0. destruct W. by constructor.
    - change (0 <= (if 0 <? sat_sub (t_cpu_time_ns t) (t_fair_runtime_checkpoint_ns t)
        then sat_add128 (g_vruntime g0) (scale_fair_delta
          (sat_sub (t_cpu_time_ns t) (t_fair_runtime_checkpoint_ns t)) (Z.max (g_shares g0) 1))
        else g_vruntime g0) <= U128_MAX).
      case_if; [|done]. pose proof (scale_fair_delta_pos
        (sat_sub (t_cpu_time_ns t) (t_fair_runtime_checkpoint_ns t)) (Z.max (g_shares g0) 1) ltac:(lia)).
      unfold sat_add128. lia. }
  assert (t_nice t1 = t_nice t) as -> by by rewrite Et1.
  assert (bt_get (g_tasks g1) task = None) as Hnone.
  { rewrite Ht1. destruct (bt_get (g_tasks g0) task) eqn:E; [|done]. exfalso. apply Hnq, elem_of_app.
    right. apply Hsub. by rewrite E. }
  pose proof (fair_nice_weight_range (t_nice t)).
  destruct (insert_task_wf g1 task v d (fair_nice_weight (t_nice t)) W1 Hnone) as (W2 & Hts & Hv2 & _ & Hm2);
    [lia|lia|unfold fits in *; by rewrite Ht1|].
  set (g2 := Group.insert_task g1 task task v d (fair_nice_weight (t_nice t))) in *.
  assert (task_ids g2 ≡ₚ task :: task_ids g0) as Hids.
  { unfold task_ids. rewrite Hts, Ht1. rewrite (bt_insert_perm _ _ _ (gw_tasks g0 W)).
    rewrite bt_remove_absent by (by rewrite <- Ht1). done. }
  destruct (store_group_wf (Rq.unlink_fair_group (h_rq h) (t_fair_group_id t)) (t_fair_group_id t) g2)
    as (W3 & Hg3 & Hr3 & Hq3).
  - by apply unlink_fair_group_wf, Hw.
  - split; [done|]. rewrite Hv2, Hm2. done.
  - rewrite Eg, Hids. simpl. rewrite <- Hperm. apply NoDup_cons.
    split; [intros Hin; apply Hnq, elem_of_app; by right|]. apply (hw_fair _ Hw).
  - intros He. unfold task_ids in Hids. rewrite He in Hids. by apply Permutation_nil_l in Hids.
  - rewrite Eg in *. set (rq3 := Rq.relink_fair_group_if_runnable _ _) in *.
    assert (queued (inc_ready_fair_count (h {{ h_rq := rq3 }})) ≡ₚ task :: queued h) as Hq.
    { unfold queued, rt_queued. simpl. rewrite Hr3, Er, Hq3, Hids. simpl. rewrite <- Hperm.
      by rewrite <- Permutation_middle. }
    split_and!.
    + constructor; simpl; try done.
      * rewrite Hr3, Er. apply Hw.
      * rewrite Hr3, Er. apply Hw.
      * rewrite (hw_fair_count _ Hw), !fair_len_eq, Hq3, Hids. simpl. rewrite <- Hperm.
        unfold inc_count. unfold queued in Hroom. rewrite length_app in Hroom. rewrite wadd_small; lia.
      * rewrite Hq. apply NoDup_cons. split; [done|apply Hw].
    + done.
    + unfold rt_queued. simpl. by rewrite Hr3, Er.
    + destruct F as [F1 F2 F3 F4 F5]. subst t1. constructor; try done; constructor; simpl; lia.
    + done.
    + done.
    + done.
Qed.

Record hart_enqueued (s s' : System) (hart_id task : Z) : Prop := {
  he_perm : queued (hart s' hart_id) ≡ₚ task :: queued (hart s hart_id);
  he_task : entered_queue hart_id (tcb s task) (tcb s' task);
  he_tcbs : forall t, t <> task -> tcb s' t = tcb s t;
  he_wf : hart_wf (hart s' hart_id);
  he_others : forall h, Tcb.hart_ok h -> h <> hart_id -> hart s' h = hart s h;
  he_proc : same_proc s s' hart_id;
  he_length : length (s_harts s') = length (s_harts s)
}.

Lemma hart_enqueued_wf s s' hart_id task :
  sys_wf s -> Tcb.hart_ok hart_id -> t_ready_queue_hart (tcb s task) = OFF_CPU ->
  hart_enqueued s s' hart_id task -> sys_wf s'.
Proof.
  intros W Hh Hoff [Hp Ht Ho Hw Hoh _ Hl]. constructor.
  - rewrite Hl. apply W.
  - intros h Hok. destruct (decide (h = hart_id)) as [->|Hne]; [done|]. rewrite Hoh by done. by apply W.
  - intros h t Hok. destruct (decide (t = task)) as [->|Hnt].
    + rewrite (eq_hart _ _ _ Ht). destruct (decide (h = hart_id)) as [->|Hne].
      * rewrite Hp. set_solver.
      * rewrite Hoh, (sw_queued _ W), Hoff by done. apply hart_ok_off in Hok. split; congruence.
    + rewrite Ho by done. rewrite <- (sw_queued _ W) by done.
      destruct (decide (h = hart_id)) as [->|Hne]; [|by rewrite Hoh].
      rewrite Hp. set_solver.
  - intros t. destruct (decide (t = task)) as [->|Hnt]; [right; by rewrite (eq_hart _ _ _ Ht)|].
    rewrite Ho by done. apply W.
  - intros t. destruct (decide (t = task)) as [->|Hnt]; [|rewrite Ho by done; apply W].
    rewrite (eq_hart _ _ _ Ht), (eq_flag _ _ _ Ht). apply hart_ok_off, Z.eqb_neq in Hh. by rewrite Hh.
  - intros t. destruct (decide (t = task)) as [->|Hnt]; [by apply Ht|]. rewrite Ho by done. apply W.
Qed.

Lemma lengths_alter qs i x :
  (forall q, qs !! i = Some q -> Z.of_nat (length q) < USIZE_MAX) ->
  lengths (alter (push_back x) i qs) = alter inc_count i (lengths qs).
Proof.
  unfold lengths. revert i. induction qs as [|q qs IH]; intros [|i] Hb; try done.
  - specialize (Hb q eq_refl). simpl. unfold push_back, inc_count. rewrite length_app, wadd_small; simpl; f_equal; lia.
  - change (Z.of_nat (length q) :: map (fun q => Z.of_nat (length q)) (alter (push_back x) i qs) =
      Z.of_nat (length q) :: alter inc_count i (map (fun q => Z.of_nat (length q)) qs)). f_equal. apply IH. intros q' Hq'. by apply Hb.
Qed.

Lemma concat_alter {A} (qs : list (list A)) i x :
  (i < length qs)%nat -> concat (alter (push_back x) i qs) ≡ₚ x :: concat qs.
Proof.
  revert i. induction qs as [|q qs IH]; intros [|i] Hi; simpl in Hi; try lia.
  - simpl. unfold push_back. rewrite <- app_assoc. symmetry. apply Permutation_middle.
  - change (q ++ concat (alter (push_back x) i qs) ≡ₚ x :: q ++ concat qs). rewrite IH by lia. symmetry. apply Permutation_middle.
Qed.

Lemma add_rt_spec h task idx :
  hart_wf h -> task ∉ queued h -> 0 <= idx < Z.of_nat RT_PRIO_LEVELS ->
  Z.of_nat (length (queued h)) < USIZE_MAX ->
  hart_wf (add_rt h task idx) /\ queued (add_rt h task idx) ≡ₚ task :: queued h.
Proof.
  intros Hw Hnq Hidx Hroom.
  assert (queued (add_rt h task idx) ≡ₚ task :: queued h) as Hq.
  { unfold queued, rt_queued. simpl. rewrite concat_alter; [done|]. rewrite (hw_levels _ Hw). lia. }
  split; [|done]. constructor.
  - destruct (hw_fair _ Hw). by constructor.
  - simpl. rewrite length_alter. apply Hw.
  - simpl. rewrite lengths_alter; [by rewrite (hw_rt_counts _ Hw)|].
    intros q Hin. apply list_elem_of_lookup_2 in Hin. unfold queued, rt_queued in Hroom.
    apply elem_of_Permutation in Hin as [qs' Hqs]. assert (length (concat (rq_rt_queues (h_rq h))) =
      length (concat (q :: qs'))) as Hlen.
    { clear -Hqs. induction Hqs; simpl; rewrite ?length_app in *; simpl in *; lia. }
    rewrite length_app, Hlen in Hroom. simpl in Hroom. rewrite length_app in Hroom. lia.
  - simpl. apply Hw.
  - rewrite Hq. apply NoDup_cons. split; [done|apply Hw].
Qed.

Lemma slot_index_range t idx : task_queue_slot t = SlotRt idx -> 0 <= idx < Z.of_nat RT_PRIO_LEVELS.
Proof.
  unfold task_queue_slot. assert (0 <= rt_queue_index (t_priority t) < Z.of_nat RT_PRIO_LEVELS).
  { unfold rt_queue_index, normalized_rt_priority, RT_PRIO_LEVELS, RT_PRIO_MIN, RT_PRIO_MAX, clamp.
    repeat case_if; simpl; lia. }
  destruct (sched_class (t_policy t)) as [[]|]; by intros [= <-].
Qed.

Lemma not_queued s task h :
  sys_wf s -> Tcb.hart_ok h -> t_ready_queue_hart (tcb s task) = OFF_CPU -> task ∉ queued (hart s h).
Proof.
  intros W Hh Hoff Hin. apply (sw_queued _ W) in Hin; [|done]. apply (hart_ok_off h); congruence.
Qed.

Definition mark_queued (hart_id : Z) (t : TCB) : TCB :=
  t {{ t_ready_queue_hart := hart_id; t_in_ready_queue := true; t_cpu_id := hart_id }}.

(** The marks [add] sets do not influence placement. *)
Lemma mark_queued_same hart_id t h kind cur :
  task_queue_slot (mark_queued hart_id t) = task_queue_slot t /\
  t_fair_group_id (mark_queued hart_id t) = t_fair_group_id t /\
  t_nice (mark_queued hart_id t) = t_nice t /\
  entered_group h (mark_queued hart_id t) = entered_group h t /\
  placed_vruntime (entered_group h t) (mark_queued hart_id t) kind cur =
    placed_vruntime (entered_group h t) t kind cur /\
  (fair_fields_ok t -> fair_fields_ok (mark_queued hart_id t)).
Proof. split_and!; try done. intros []. by constructor. Qed.

Lemma mark_queued_current s task hart_id group_id now :
  current_fair_entity_for_group (upd_tcb s task (mark_queued hart_id)) hart_id group_id now =
  current_fair_entity_for_group s hart_id group_id now.
Proof.
  unfold current_fair_entity_for_group.
  change (current_task_on_hart (upd_tcb s task (mark_queued hart_id)) hart_id)
    with (current_task_on_hart s hart_id).
  destruct (current_task_on_hart s hart_id) as [c|]; [|done].
  destruct (decide (task = c)) as [->|Hne]; [rewrite tcb_upd_same|by rewrite tcb_upd_other].
  by generalize (tcb s c).
Qed.

Lemma entered_mark_queued hart_id t :
  fair_fields_ok t -> entered_queue hart_id t (mark_queued hart_id t).
Proof. intros []. constructor; try done; by constructor. Qed.

Lemma entered_after_mark hart_id t t' :
  entered_queue hart_id (mark_queued hart_id t) t' -> entered_queue hart_id t t'.
Proof. intros []. by constructor. Qed.

(** [add]: a task already queued is left alone; any other is queued on the hart,
    once, and nothing else changes. *)
Lemma add_spec s task hart_id kind now :
  sys_wf s -> Tcb.hart_ok hart_id ->
  (t_ready_queue_hart (tcb s task) = OFF_CPU -> add_room s task hart_id kind now) ->
  let '(r, s') := add s task hart_id kind now in
  if t_ready_queue_hart (tcb s task) =? OFF_CPU then
    r = Some (bool_decide (queued (hart s hart_id) = [])) /\ hart_enqueued s s' hart_id task
  else r = None /\ s' = s.
Proof.
  intros W Hh Hroom. unfold add. destruct (t_ready_queue_hart (tcb s task) =? OFF_CPU) eqn:Eoff; [|done].
  simpl negb. cbv iota. apply Z.eqb_eq in Eoff. specialize (Hroom Eoff). destruct Hroom as [Hroom Hfits].
  change (fun t : TCB => t {{ t_ready_queue_hart := hart_id; t_in_ready_queue := true; t_cpu_id := hart_id }})
    with (mark_queued hart_id).
  set (s1 := upd_tcb s task (mark_queued hart_id)).
  assert (tcb s1 task = mark_queued hart_id (tcb s task)) as Ht1 by apply tcb_upd_same.
  assert (forall t, t <> task -> tcb s1 t = tcb s t) as Ho1 by (intros; unfold s1; by rewrite tcb_upd_other).
  assert (forall h, hart s1 h = hart s h) as Hh1 by done.
  assert (length (s_harts s1) = Z.to_nat MAX_HARTS) as Hl1 by apply (sw_length _ W).
  assert (t_ready_queue_hart (mark_queued hart_id (tcb s task)) = hart_id) as Hmk by done.
  rewrite Ht1, Hmk, Z.eqb_refl. simpl negb. cbv iota. rewrite Hh1, rq_len_eq.
  assert ((Z.of_nat (length (queued (hart s hart_id))) =? 0) = bool_decide (queued (hart s hart_id) = [])) as ->.
  { destruct (queued (hart s hart_id)); [done|]. rewrite bool_decide_eq_false_2 by done. simpl. lia. }
  pose proof (not_queued s task hart_id W Hh Eoff) as Hnq. pose proof (sw_hart _ W _ Hh) as Hw.
  pose proof (sw_fields _ W task) as F. unfold fair_group_id_and_shares.
  destruct (mark_queued_same hart_id (tcb s task) (hart s hart_id) kind
    (current_fair_entity_for_group s hart_id (t_fair_group_id (tcb s task)) now)) as (E1 & E2 & E3 & E4 & E5 & E6).
  rewrite E1, E2. destruct (task_queue_slot (tcb s task)) as [idx|] eqn:Eslot.
  - split; [done|]. apply slot_index_range in Eslot.
    destruct (add_rt_spec (hart s hart_id) task idx Hw Hnq Eslot Hroom) as [Hw' Hq'].
    constructor.
    + rewrite hart_upd_same by done. by rewrite Hh1.
    + change (entered_queue hart_id (tcb s task) (tcb s1 task)). rewrite Ht1. by apply entered_mark_queued.
    + exact Ho1.
    + rewrite hart_upd_same by done. by rewrite Hh1.
    + intros h Hok Hne. by rewrite hart_upd_other.
    + unfold same_proc. by rewrite hart_upd_same.
    + exact (upd_hart_length s1 hart_id _).
  - unfold s1 at 1. rewrite mark_queued_current.
    set (cur := current_fair_entity_for_group s hart_id (t_fair_group_id (tcb s task)) now) in *.
    pose proof (add_fair_spec (hart s hart_id) (mark_queued hart_id (tcb s task)) task kind cur Hw (E6 F)) as Hadd.
    destruct (add_fair (hart s hart_id) (mark_queued hart_id (tcb s task)) task kind cur) as [h' t'].
    destruct Hadd as (Hw' & Hq' & _ & Het & Hproc); [by apply current_entity_ok|done..| |].
    { by rewrite E3, E4, E5. }
    split; [done|].
    assert (forall h, hart (upd_tcb (upd_hart s1 hart_id (fun _ => h')) task (fun _ => t')) h
        = hart (upd_hart s1 hart_id (fun _ => h')) h) as Hh2 by done.
    constructor.
    + by rewrite Hh2, hart_upd_same.
    + rewrite tcb_upd_same. by apply entered_after_mark.
    + intros t Hne. rewrite tcb_upd_other by done. by apply Ho1.
    + by rewrite Hh2, hart_upd_same.
    + intros h Hok Hne. by rewrite Hh2, hart_upd_other.
    + unfold same_proc. rewrite Hh2, hart_upd_same by done. destruct Hproc as (? & ? & ?). split_and!; done.
    + exact (upd_hart_length s1 hart_id _).
Qed.

(** ** Removing *)

Lemma retain_absent task q : task ∉ q -> retain_other task q = q.
Proof.
  unfold retain_other. induction q as [|t q IH]; intros Hn; simpl; [done|].
  rewrite not_elem_of_cons in Hn. destruct (t =? task) eqn:E; [lia|]. simpl. f_equal. apply IH. naive_solver.
Qed.

Lemma retain_present task q : NoDup q -> task ∈ q -> q ≡ₚ task :: retain_other task q.
Proof.
  induction q as [|t q IH]; intros Hnd Hin; [by apply not_elem_of_nil in Hin|].
  apply NoDup_cons in Hnd as [Hnt Hnd]. unfold retain_other. simpl.
  destruct (t =? task) eqn:E; simpl.
  - assert (t = task) as -> by lia. fold (retain_other task q). by rewrite retain_absent.
  - assert (task ∈ q) as Hq by (apply elem_of_cons in Hin as [->|]; [lia|done]).
    fold (retain_other task q). rewrite (IH Hnd Hq) at 1. apply Permutation_swap.
Qed.

Lemma iter_dec n c : 0 <= c -> Z.of_nat n <= c -> Nat.iter n dec_count c = c - Z.of_nat n.
Proof.
  revert c. induction n as [|n IH]; intros c Hc Hn; simpl; [lia|].
  rewrite IH by lia. unfold dec_count. case_if; lia.
Qed.

Lemma remove_rt_spec queues task removed :
  NoDup (concat queues) -> 0 <= removed <= 1 -> (removed = 1 -> task ∉ concat queues) ->
  let '(queues', counts', removed') := remove_rt queues (lengths queues) task removed in
  counts' = lengths queues' /\ length queues' = length queues /\
  removed' = removed + (if decide (task ∈ concat queues) then 1 else 0) /\
  (if decide (task ∈ concat queues) then concat queues ≡ₚ task :: concat queues' else queues' = queues).
Proof.
  revert removed. induction queues as [|q queues IH]; intros removed Hnd Hr Hone; simpl.
  { split_and!; try done; lia. }
  simpl in Hnd. apply NoDup_app in Hnd as (Hn1 & Hn2 & Hn3). simpl in Hone.
  destruct (decide (task ∈ q)) as [Hin|Hnin].
  - assert (removed = 0) as -> by (destruct (decide (removed = 1)); [exfalso; apply Hone; set_solver|lia]).
    pose proof (retain_present task q Hn1 Hin) as Hp. pose proof (Permutation_length Hp) as Hl. simpl in Hl.
    assert (sat_sub (Z.of_nat (length q)) (Z.of_nat (length (retain_other task q))) = 1) as -> by ulia.
    change (Nat.iter (Z.to_nat 1) dec_count (Z.of_nat (length q))) with (dec_count (Z.of_nat (length q))).
    change (sat_add 0 1) with 1. specialize (IH 1 Hn3).
    destruct (remove_rt queues (lengths queues) task 1) as [[qs' cs'] r'].
    destruct IH as (Hc & Hlen & Hr' & Hqs); [lia|by intros; apply Hn2|].
    assert (task ∉ concat queues) as Hnq by (by apply Hn2).
    rewrite (decide_False (P := task ∈ concat queues)) in Hr' by done.
    rewrite (decide_False (P := task ∈ concat queues)) in Hqs by done. subst qs'.
    simpl. destruct (decide (task ∈ q ++ concat queues)) as [_|Hx]; [|exfalso; set_solver]. split_and!.
    + simpl. rewrite Hc. f_equal. unfold dec_count. case_if; lia.
    + simpl. lia.
    + lia.
    + exact (Permutation_app_tail (concat queues) Hp).
  - rewrite (retain_absent task q) by done.
    assert (sat_sub (Z.of_nat (length q)) (Z.of_nat (length q)) = 0) as -> by ulia.
    assert (sat_add removed 0 = removed) as -> by ulia.
    specialize (IH removed Hn3 Hr). change (Nat.iter (Z.to_nat 0) dec_count (Z.of_nat (length q))) with (Z.of_nat (length q)).
    destruct (remove_rt queues (lengths queues) task removed) as [[qs' cs'] r'].
    destruct IH as (Hc & Hlen & Hr' & Hqs); [intros H1; specialize (Hone H1); set_solver|].
    assert (task ∈ q ++ concat queues <-> task ∈ concat queues) as Hiff by set_solver.
    simpl. destruct (decide (task ∈ concat queues)) as [Hin'|Hnin'].
    + destruct (decide (task ∈ q ++ concat queues)) as [_|Hx]; [|exfalso; set_solver]. split_and!; [by rewrite Hc|simpl; lia|done|].
      simpl. rewrite Hqs. symmetry. apply Permutation_middle.
    + destruct (decide (task ∈ q ++ concat queues)) as [Hx|_]; [exfalso; set_solver|]. split_and!; [by rewrite Hc|simpl; lia|done|by rewrite Hqs].
Qed.

Lemma close_group_same rq id g :
  bt_wf (rq_fair_groups rq) -> bt_get (rq_fair_groups rq) id = Some g -> g_tasks g <> [] ->
  rq_fair_groups (Rq.close_group rq id g) = rq_fair_groups rq.
Proof.
  intros W Hg Hne. unfold Rq.close_group, Rq.relink_fair_group_if_runnable.
  rewrite is_empty_spec, bool_decide_eq_false_2 by done. simpl.
  rewrite bt_get_insert, key_eqb_refl, is_empty_spec, bool_decide_eq_false_2 by done. simpl.
  apply bt_ext; eauto with kernel. intros k. rewrite bt_get_insert. destruct (key_eqb k id) eqn:E; [|done].
  by apply key_eqb_eq in E as ->.
Qed.

Definition group_holds (rq : HartRunQueue) (group_id task : Z) : Prop :=
  exists g, bt_get (rq_fair_groups rq) group_id = Some g /\ task ∈ task_ids g.

Lemma remove_fair_task_from_group_spec rq group_id task :
  fair_wf rq ->
  let '(removed, rq', c') := remove_fair_task_from_group rq (Rq.fair_len rq) group_id task in
  fair_wf rq' /\ c' = Rq.fair_len rq' /\ rq_rt_queues rq' = rq_rt_queues rq /\
  (group_holds rq group_id task -> removed = 1 /\
     fair_queued (rq_fair_groups rq) ≡ₚ task :: fair_queued (rq_fair_groups rq')) /\
  (~ group_holds rq group_id task -> removed = 0 /\ rq_fair_groups rq' = rq_fair_groups rq).
Proof.
  intros W. unfold remove_fair_task_from_group, group_holds.
  pose proof (unlink_fair_group_wf rq group_id W) as Wu.
  destruct (unlink_fair_group_same rq group_id) as (Eg & Er & Em). rewrite Eg.
  destruct (bt_get (rq_fair_groups rq) group_id) as [g|] eqn:E.
  2: { assert (Rq.unlink_fair_group rq group_id = rq) as -> by (unfold Rq.unlink_fair_group; by rewrite E).
       split_and!; try done. by intros (g & ? & _). }
  destruct (fw_group _ _ W _ _ E) as [Hok Hne]. specialize (Hne ltac:(done)). pose proof Hok as (Wg & Hv & Hm).
  pose proof (fair_queued_get _ _ _ E) as Hperm. pose proof (fw_nodup _ _ W) as Hnd. rewrite Hperm in Hnd.
  destruct (bt_get (g_tasks g) task) as [e|] eqn:Ee.
  - destruct (unlink_task_wf g task e Wg Ee) as (Hu & Wg' & _ & Hv' & _ & Hm').
    pose proof (unlink_task_ids g task e Wg Ee) as Hids.
    destruct (Group.unlink_task g task) as [entity g']. simpl in *. subst entity.
    rewrite Hids in Hnd, Hperm. simpl in Hnd, Hperm. apply NoDup_cons in Hnd as [Hnt Hnd].
    destruct (close_group_wf (Rq.unlink_fair_group rq group_id) group_id g' Wu) as (Wc & Hq & Hr).
    { split; [done|]. rewrite Hv', Hm'. done. }
    { by rewrite Eg. }
    rewrite Eg in Hq. rewrite <- Hq in Hperm. split_and!; [done| |by rewrite Hr|done|].
    + rewrite !fair_len_eq, Hperm. simpl length. unfold dec_count. case_if; lia.
    + intros Hno. exfalso. apply Hno. exists g. split; [done|]. rewrite Hids. left.
  - rewrite unlink_task_absent by done.
    assert (task ∉ task_ids g) as Hnt.
    { rewrite task_ids_elem by done. rewrite Ee. by intros []. }
    assert (rq_fair_groups (Rq.close_group (Rq.unlink_fair_group rq group_id) group_id g) = rq_fair_groups rq) as Hsame.
    { rewrite close_group_same; rewrite ?Eg; try done. apply W. }
    destruct (close_group_wf (Rq.unlink_fair_group rq group_id) group_id g Wu Hok) as (Wc & Hq & Hr); [by rewrite Eg|].
    split_and!; [done| |by rewrite Hr| |done].
    + by rewrite !fair_len_eq, Hsame.
    + intros (g' & [= <-] & Hin). done.
Qed.

Lemma remove_from_groups_spec rq group_ids task :
  fair_wf rq ->
  let '(removed, rq', c') := remove_from_groups rq (Rq.fair_len rq) group_ids task in
  fair_wf rq' /\ c' = Rq.fair_len rq' /\ rq_rt_queues rq' = rq_rt_queues rq /\
  ((exists id, id ∈ group_ids /\ group_holds rq id task) -> removed = 1 /\
     fair_queued (rq_fair_groups rq) ≡ₚ task :: fair_queued (rq_fair_groups rq')) /\
  (~ (exists id, id ∈ group_ids /\ group_holds rq id task) -> removed = 0 /\ rq_fair_groups rq' = rq_fair_groups rq).
Proof.
  revert rq. induction group_ids as [|id ids IH]; intros rq W; simpl.
  { split_and!; try done. intros (id & Hin & _). by apply not_elem_of_nil in Hin. }
  pose proof (remove_fair_task_from_group_spec rq id task W) as Hr.
  destruct (remove_fair_task_from_group rq (Rq.fair_len rq) id task) as [[r1 rq1] c1].
  destruct Hr as (W1 & -> & Hrt1 & Hyes & Hno).
  assert (Decision (group_holds rq id task)) as Hdec.
  { unfold group_holds. destruct (bt_get (rq_fair_groups rq) id) as [g|].
    - destruct (decide (task ∈ task_ids g)); [left; by exists g|right; by intros (g' & [= <-] & ?)].
    - right. by intros (g' & ? & _). }
  destruct Hdec as [Hh|Hh].
  - destruct (Hyes Hh) as [-> Hp]. simpl. split_and!; try done.
    intros Hn. exfalso. apply Hn. exists id. split; [left|done].
  - destruct (Hno Hh) as [-> Hg]. simpl. specialize (IH rq1 W1).
    destruct (remove_from_groups rq1 (Rq.fair_len rq1) ids task) as [[r2 rq2] c2].
    unfold group_holds in IH. rewrite Hg in IH. destruct IH as (W2 & Hc2 & Hrt2 & Hy2 & Hn2).
    split_and!; [done|done|by rewrite Hrt2| |].
    + intros (id' & Hin & Hh'). apply Hy2. exists id'. split; [|done].
      apply elem_of_cons in Hin as [->|]; done.
    + intros Hn. apply Hn2. intros (id' & Hin & Hh'). apply Hn. exists id'. split; [by right|done].
Qed.

Lemma fair_holds rq task :
  fair_wf rq -> task ∈ fair_queued (rq_fair_groups rq) ->
  exists id, id ∈ map fst (rq_fair_groups rq) /\ group_holds rq id task.
Proof.
  intros W (id & g & Hg & Hin)%fair_queued_elem; [|apply W]. exists id. split; [|by exists g].
  apply list_elem_of_fmap. exists (id, g). split; [done|]. apply bt_get_elem in Hg; [done|apply W].
Qed.

Lemma remove_from_hart_spec h t task :
  hart_wf h -> task ∈ queued h ->
  let (removed, h') := remove_from_hart h t task in
  removed = 1 /\ hart_wf h' /\ queued h ≡ₚ task :: queued h' /\
  h' = h {{ h_rq := h_rq h'; h_ready_rt := h_ready_rt h'; h_ready_fair := h_ready_fair h' }}.
Proof.
  intros Hw Hin. pose proof (hw_nodup _ Hw) as Hnd. pose proof Hnd as Hnd'.
  unfold queued in Hnd', Hin. apply NoDup_app in Hnd' as (Hn1 & Hn2 & Hn3).
  unfold remove_from_hart. rewrite (hw_rt_counts _ Hw), (hw_fair_count _ Hw).
  pose proof (remove_rt_spec (rq_rt_queues (h_rq h)) task 0 Hn1 ltac:(lia) ltac:(done)) as Hrt.
  destruct (remove_rt _ _ task 0) as [[qs cs] r]. destruct Hrt as (Hcs & Hlq & Hr & Hqs).
  set (rq0 := (h_rq h) {{ rq_rt_queues := qs }}).
  assert (fair_wf rq0) as W0 by (destruct (hw_fair _ Hw); by constructor).
  change (Rq.fair_len (h_rq h)) with (Rq.fair_len rq0). unfold fair_group_id_and_shares.
  pose proof (remove_fair_task_from_group_spec rq0 (t_fair_group_id t) task W0) as H1.
  destruct (remove_fair_task_from_group rq0 (Rq.fair_len rq0) (t_fair_group_id t) task) as [[r1 rq1] c1].
  destruct H1 as (W1 & -> & Hrt1 & Hy1 & Hno1).
  pose proof (remove_from_groups_spec rq1 (map fst (rq_fair_groups rq1)) task W1) as H2.
  assert (let '(fr, rq', c') := if r1 =? 0 then
      remove_from_groups rq1 (Rq.fair_len rq1) (map fst (rq_fair_groups rq1)) task else (r1, rq1, Rq.fair_len rq1) in
    fair_wf rq' /\ c' = Rq.fair_len rq' /\ rq_rt_queues rq' = qs /\
    (task ∈ fair_queued (rq_fair_groups rq0) -> fr = 1 /\
       fair_queued (rq_fair_groups rq0) ≡ₚ task :: fair_queued (rq_fair_groups rq')) /\
    (task ∉ fair_queued (rq_fair_groups rq0) -> fr = 0 /\ rq_fair_groups rq' = rq_fair_groups rq0)) as Hfair.
  { assert (forall id, group_holds rq0 id task -> task ∈ fair_queued (rq_fair_groups rq0)) as Hsub
      by (intros id (g & Hg & Hi); apply fair_queued_elem; [apply W0|by exists id, g]).
    assert (Decision (group_holds rq0 (t_fair_group_id t) task)) as [Hh|Hh].
    { unfold group_holds. destruct (bt_get (rq_fair_groups rq0) (t_fair_group_id t)) as [g|].
      - destruct (decide (task ∈ task_ids g)); [left; by exists g|right; by intros (g' & [= <-] & ?)].
      - right. by intros (g' & ? & _). }
    - destruct (Hy1 Hh) as [-> Hp1]. simpl. split_and!; try done. intros Hn. exfalso. by apply Hn, (Hsub _ Hh).
    - destruct (Hno1 Hh) as [-> Hg1]. simpl.
      destruct (remove_from_groups rq1 (Rq.fair_len rq1) (map fst (rq_fair_groups rq1)) task) as [[r2 rq2] c2].
      unfold group_holds in H2. rewrite Hg1 in H2. destruct H2 as (W2 & Hc2 & Hrt2 & Hy2 & Hno2).
      split_and!; [done|done|by rewrite Hrt2| |].
      + intros Hq. apply Hy2. by apply fair_holds.
      + intros Hn. apply Hno2. intros (id & _ & Hh'). by apply Hn, (Hsub id). }
  destruct (if r1 =? 0 then _ else _) as [[fr rq2] c2]. destruct Hfair as (W2 & -> & Hrt2 & Hyes & Hno).
  set (h' := h {{ h_rq := rq2; h_ready_rt := cs; h_ready_fair := Rq.fair_len rq2 }}).
  change (fair_queued (rq_fair_groups rq0)) with (fair_queued (rq_fair_groups (h_rq h))) in *.
  assert (sat_add r fr = 1 /\ queued h ≡ₚ task :: queued h') as [Hrem Hperm].
  { unfold queued, rt_queued. change (rq_rt_queues (h_rq h')) with (rq_rt_queues rq2). rewrite Hrt2.
    change (rq_fair_groups (h_rq h')) with (rq_fair_groups rq2).
    destruct (decide (task ∈ concat (rq_rt_queues (h_rq h)))) as [Hi|Hi].
    - destruct (Hno (Hn2 _ Hi)) as [-> ->]. split; [ulia|]. by rewrite Hqs.
    - assert (task ∈ fair_queued (rq_fair_groups (h_rq h))) as Hf by (unfold rt_queued in Hin; set_solver).
      destruct (Hyes Hf) as [-> Hp]. split; [ulia|]. rewrite Hqs, Hp. symmetry. apply Permutation_middle. }
  split_and!; try done. constructor; simpl; try done.
  - rewrite Hrt2, Hlq. apply Hw.
  - by rewrite Hcs, Hrt2.
  - rewrite Hperm in Hnd. by apply NoDup_cons in Hnd as [_ ?].
Qed.

(** One task left the queue it was in, if any. *)
Lemma task_left_wf s s' task :
  sys_wf s -> length (s_harts s') = length (s_harts s) ->
  left_queue (tcb s task) (tcb s' task) -> (forall t, t <> task -> tcb s' t = tcb s t) ->
  (forall h, Tcb.hart_ok h -> hart_wf (hart s' h)) ->
  (forall h, Tcb.hart_ok h -> queued (hart s h) ≡ₚ
     (if t_ready_queue_hart (tcb s task) =? h then [task] else []) ++ queued (hart s' h)) ->
  sys_wf s'.
Proof.
  intros W Hlen Hl Ho Hw Hp. constructor.
  - rewrite Hlen. apply W.
  - done.
  - intros h t Hk. destruct (decide (t = task)) as [->|Hne].
    + rewrite (lq_hart _ _ Hl). split; [|intros <-; by apply hart_ok_off in Hk]. intros Hi. exfalso.
      pose proof (hw_nodup _ (sw_hart _ W _ Hk)) as Hnd. specialize (Hp h Hk).
      assert (task ∈ queued (hart s h)) as Hq by (rewrite Hp; set_solver).
      apply (sw_queued _ W) in Hq; [|done]. rewrite Hp, Hq, Z.eqb_refl in Hnd.
      by apply NoDup_cons in Hnd as [? _].
    + rewrite Ho, <- (sw_queued _ W), (Hp h Hk) by done. case_if; set_solver.
  - intros t. destruct (decide (t = task)) as [->|Hne]; [left; apply Hl|]. rewrite Ho by done. apply W.
  - intros t. destruct (decide (t = task)) as [->|Hne]; [by rewrite (lq_flag _ _ Hl), (lq_hart _ _ Hl)|].
    rewrite Ho by done. apply W.
  - intros t. destruct (decide (t = task)) as [->|Hne]; [apply Hl, W|]. rewrite Ho by done. apply W.
Qed.

Lemma cleared_left t :
  left_queue t (t {{ t_ready_queue_hart := OFF_CPU; t_in_ready_queue := false }}).
Proof. constructor; try done. intros []; by constructor. Qed.

(** [remove]: a queued task is taken out of the one queue it is in, and the
    number removed says so; nothing else changes. *)
Lemma remove_spec s task :
  sys_wf s ->
  let '(removed, s') := remove s task in
  sys_wf s' /\ removed = (if t_ready_queue_hart (tcb s task) =? OFF_CPU then 0 else 1) /\
  left_queue (tcb s task) (tcb s' task) /\
  (forall t, t <> task -> tcb s' t = tcb s t) /\
  (forall h, Tcb.hart_ok h -> queued (hart s h) ≡ₚ
     (if t_ready_queue_hart (tcb s task) =? h then [task] else []) ++ queued (hart s' h)) /\
  (forall h, Tcb.hart_ok h -> h_current (hart s' h) = h_current (hart s h) /\
     h_pending_ready (hart s' h) = h_pending_ready (hart s h) /\
     h_pending_blocked (hart s' h) = h_pending_blocked (hart s h)).
Proof.
  intros W. unfold remove.
  set (s1 := upd_tcb s task (fun t => t {{ t_ready_queue_hart := OFF_CPU }})).
  assert (forall s2, s_tcbs s2 = s_tcbs s1 ->
    let s3 := upd_tcb s2 task (fun t => t {{ t_in_ready_queue := false }}) in
    left_queue (tcb s task) (tcb s3 task) /\ (forall t, t <> task -> tcb s3 t = tcb s t)) as Htcb.
  { intros s2 E2 s3. assert (tcb s2 task = (tcb s task) {{ t_ready_queue_hart := OFF_CPU }}) as E3.
    { unfold tcb at 1. rewrite E2. apply (tcb_upd_same s task). }
    split.
    - unfold s3. rewrite tcb_upd_same, E3. apply cleared_left.
    - intros t Hne. unfold s3. rewrite tcb_upd_other by done. unfold tcb at 1. rewrite E2.
      by apply (tcb_upd_other s task t). }
  remember (t_ready_queue_hart (tcb s task)) as q eqn:Hq.
  assert (q = OFF_CPU \/ Tcb.hart_ok q) as [Hoff|Hok] by (rewrite Hq; apply W).
  - assert ((q <? MAX_HARTS) = false) as -> by (rewrite Hoff; done).
    destruct (Htcb s1 eq_refl) as [Hl Ho]. set (s3 := upd_tcb s1 task _) in *.
    assert (forall h, hart s3 h = hart s h) as Hh3 by done.
    assert (forall h, Tcb.hart_ok h -> queued (hart s h) ≡ₚ (if q =? h then [task] else []) ++ queued (hart s3 h))
      as Hp by (intros h Hk%hart_ok_off; rewrite Hh3; by replace (q =? h) with false by lia).
    split_and!; try done; [|by rewrite Hoff]. rewrite Hq in Hp.
    apply (task_left_wf s s3 task); try done. intros h Hk. rewrite Hh3. by apply W.
  - assert ((q <? MAX_HARTS) = true) as -> by (destruct Hok; lia).
    assert ((q =? OFF_CPU) = false) as -> by (by apply Z.eqb_neq, hart_ok_off).
    change (hart s1 q) with (hart s q).
    assert (task ∈ queued (hart s q)) as Hin by (by apply (sw_queued _ W)).
    pose proof (remove_from_hart_spec (hart s q) (tcb s1 task) task (sw_hart _ W _ Hok) Hin) as Hr.
    destruct (remove_from_hart (hart s q) (tcb s1 task) task) as [removed h'].
    destruct Hr as (-> & Hw' & Hp & Heq). set (s2 := upd_hart s1 q (fun _ => h')).
    destruct (Htcb s2 eq_refl) as [Hl Ho]. set (s3 := upd_tcb s2 task _) in *.
    assert (hart s3 q = h') as Hh3 by (apply (hart_upd_same s1); [apply W|done]).
    assert (forall h, Tcb.hart_ok h -> h <> q -> hart s3 h = hart s h) as Hho.
    { intros h Hk Hne. by apply (hart_upd_other s1). }
    assert (forall h, Tcb.hart_ok h -> queued (hart s h) ≡ₚ (if q =? h then [task] else []) ++ queued (hart s3 h)) as Hp3.
    { intros h Hk. destruct (decide (h = q)) as [->|Hne]; [by rewrite Z.eqb_refl, Hh3|].
      rewrite Hho by done. by replace (q =? h) with false by lia. }
    split_and!; try done.
    + rewrite Hq in Hp3. apply (task_left_wf s s3 task); try done.
      * unfold s3. simpl. apply length_alter.
      * intros h Hk. destruct (decide (h = q)) as [->|Hne]; [by rewrite Hh3|]. rewrite Hho by done. by apply W.
    + intros h Hk. destruct (decide (h = q)) as [->|Hne]; [|by rewrite Hho]. rewrite Hh3, Heq. done.
Qed.
