(* ===== verification/HartSelect.v ===== *)
(** * Choosing a hart

    The hart a task is queued on ([task/manager.rs], [task/manager/run_queue.rs])
    is online, allowed by the task's affinity when the affinity names an online
    hart, and, for the fair class, the least loaded of those. *)

From S2P Require Import Prelude.
From S2P Require Import Sched.
From S2P Require Import TaskBlock.
From S2P Require Import FairGroup.
From S2P Require Import RunQueue.
From S2P Require Import RunQueueInv.

(** A set of harts below [MAX_HARTS], not empty. *)
Definition mask_ok (mask : Z) : Prop := 0 < mask < 2 ^ MAX_HARTS.

Lemma wshl_1 h : 0 <= h < 64 -> wshl 1 h = 2 ^ h.
Proof.
  intros Hh. unfold wshl. rewrite Z.shiftl_1_l. apply Z.mod_small. split; [apply Z.pow_nonneg; lia|].
  change USIZE_MOD with (2 ^ 64). apply Z.pow_lt_mono_r; lia.
Qed.

Lemma land_bit m h : 0 <= h < 64 -> negb (Z.land m (wshl 1 h) =? 0) = Z.testbit m h.
Proof.
  intros Hh. rewrite wshl_1 by done. destruct (Z.testbit m h) eqn:E.
  - apply negb_true_iff, Z.eqb_neq. intros Hz.
    assert (Z.testbit (Z.land m (2 ^ h)) h = true) as Ht.
    { by rewrite Z.land_spec, E, Z.pow2_bits_true by lia. }
    rewrite Hz, Z.bits_0 in Ht. done.
  - apply negb_false_iff, Z.eqb_eq, Z.bits_inj'. intros n Hn. rewrite Z.land_spec, Z.bits_0.
    destruct (decide (n = h)) as [->|Hne]; [by rewrite E|].
    by rewrite Z.pow2_bits_false, andb_false_r by lia.
Qed.

Lemma in_mask_testbit m h : Tcb.hart_ok h -> in_mask m h = Z.testbit m h.
Proof. intros [? ?]. unfold MAX_HARTS in *. apply land_bit. lia. Qed.

Lemma hart_bit_testbit m h : Tcb.hart_ok h -> negb (Z.land m (hart_bit h) =? 0) = Z.testbit m h.
Proof.
  intros [? ?]. unfold MAX_HARTS, hart_bit in *. destruct (h <? 64) eqn:?; [|lia]. apply land_bit. lia.
Qed.

(** A non-empty mask has a hart. *)
Lemma mask_ok_bit m : mask_ok m -> exists h, Tcb.hart_ok h /\ Z.testbit m h = true.
Proof.
  intros [H1 H2]. exists (Z.log2 m). split; [|apply Z.bit_log2; lia].
  split; [apply Z.log2_nonneg|]. apply Z.log2_lt_pow2; lia.
Qed.

Lemma mask_bit_ok m h : mask_ok m -> 0 <= h -> Z.testbit m h = true -> Tcb.hart_ok h.
Proof.
  intros [H1 H2] Hh Hb. split; [done|]. destruct (Z_lt_le_dec h MAX_HARTS); [done|].
  rewrite Z.bits_above_log2 in Hb; [done|lia|]. apply Z.log2_lt_pow2; [lia|].
  eapply Z.lt_le_trans; [exact H2|]. apply Z.pow_le_mono_r; lia.
Qed.

Lemma elem_of_harts h : h ∈ harts <-> Tcb.hart_ok h.
Proof. unfold harts, Tcb.hart_ok. rewrite elem_of_seqZ. lia. Qed.

(** [land] with an online mask keeps the bounds. *)
Lemma land_mask_bounds a m : mask_ok m -> 0 <= a -> Z.land a m <> 0 -> mask_ok (Z.land a m).
Proof.
  intros [H1 H2] Ha Hne. assert (0 <= Z.land a m) by (apply Z.land_nonneg; lia).
  split; [lia|]. destruct (decide (Z.land a m = 0)); [done|].
  apply Z.log2_lt_pow2; [lia|]. eapply Z.le_lt_trans; [apply Z.log2_land; lia|].
  assert (Z.log2 m < MAX_HARTS) by (apply Z.log2_lt_pow2; lia). lia.
Qed.

(** The harts a task may use: its affinity where that meets the online harts,
    all online harts otherwise. *)
Lemma allowed_mask_spec t online :
  mask_ok online -> 0 <= t_affinity t ->
  let allowed := allowed_hart_mask_for_task t online in
  mask_ok allowed /\
  (forall h, Z.testbit allowed h = true -> Z.testbit online h = true) /\
  (Z.land (t_affinity t) online <> 0 -> allowed = Z.land (t_affinity t) online) /\
  (Z.land (t_affinity t) online = 0 -> allowed = online).
Proof.
  intros Hon Ha. unfold allowed_hart_mask_for_task. destruct (t_affinity t =? 0) eqn:E0.
  - assert (t_affinity t = 0) as -> by lia. rewrite Z.land_0_l.
    destruct Hon as [H1 H2]. destruct (online =? 0) eqn:?; [lia|]. split_and!; done.
  - destruct (Z.land (t_affinity t) online =? 0) eqn:E1; split_and!; try done; try lia.
    + apply land_mask_bounds; [done..|lia].
    + intros h. rewrite Z.land_spec. by intros [_ ?]%andb_true_iff.
Qed.

Lemma find_in_mask m l h : List.find (in_mask m) l = Some h -> h ∈ l /\ in_mask m h = true.
Proof. intros [Hin Hm]%find_some. split; [by apply list_elem_of_In|done]. Qed.

Lemma pick_online_hart_from_mask_spec s m :
  mask_ok m -> let h := pick_online_hart_from_mask s m in Tcb.hart_ok h /\ Z.testbit m h = true.
Proof.
  intros Hm. unfold pick_online_hart_from_mask. destruct (List.find (in_mask m) harts) as [h|] eqn:E; simpl.
  - apply find_in_mask in E as [Hin Hi]. apply elem_of_harts in Hin. by rewrite <- in_mask_testbit.
  - exfalso. destruct (mask_ok_bit m Hm) as (h & Hh & Hb).
    assert (in_mask m h = false) as Hf
      by (apply (find_none _ _ E); apply list_elem_of_In; by apply elem_of_harts).
    rewrite in_mask_testbit in Hf by done. congruence.
Qed.

(** The fold of [pick_least_loaded_hart_from_mask] over the harts seen so far. *)
Definition least_loaded (s : System) (m : Z) (seen : list Z) (best : option Z) (best_len : Z) : Prop :=
  (forall h, h ∈ seen -> in_mask m h = true -> best_len <= Rq.len (h_rq (hart s h))) /\
  match best with
  | None => best_len = USIZE_MAX
  | Some b => in_mask m b = true /\ b ∈ harts /\ Rq.len (h_rq (hart s b)) = best_len
  end.

Definition lengths_fit (s : System) : Prop :=
  forall h, Tcb.hart_ok h -> Rq.len (h_rq (hart s h)) < USIZE_MAX.

Lemma pick_least_loaded_spec s m :
  mask_ok m -> lengths_fit s ->
  let b := pick_least_loaded_hart_from_mask s m in
  Tcb.hart_ok b /\ Z.testbit m b = true /\
  forall h, Tcb.hart_ok h -> Z.testbit m h = true ->
    Rq.len (h_rq (hart s b)) <= Rq.len (h_rq (hart s h)).
Proof.
  intros Hm Hfit. unfold pick_least_loaded_hart_from_mask.
  set (step := fun '(best_hart, best_len) hart_id => _).
  assert (forall todo seen best len, seen ++ todo = harts -> least_loaded s m seen best len ->
    let '(b, l) := foldl step (best, len) todo in least_loaded s m harts b l) as Hfold.
  { induction todo as [|h todo IH]; intros seen best len Hall Hl; simpl.
    - by rewrite app_nil_r in Hall; subst.
    - assert (h ∈ harts) as Hin by (rewrite <- Hall; set_solver).
      assert ((seen ++ [h]) ++ todo = harts) as Hall' by by rewrite <- app_assoc.
      destruct Hl as [Hl1 Hl2]. destruct (in_mask m h) eqn:Em; simpl.
      + destruct (Rq.len (h_rq (hart s h)) <? len) eqn:Elt; apply (IH (seen ++ [h])); try done; split; try done.
        * intros h' [Hh'| ->%list_elem_of_singleton]%elem_of_app Hm'; [specialize (Hl1 h' Hh' Hm')|]; lia.
        * intros h' [Hh'| ->%list_elem_of_singleton]%elem_of_app Hm'; [by apply Hl1|lia].
      + apply (IH (seen ++ [h])); try done. split; [|done].
        intros h' [Hh'| ->%list_elem_of_singleton]%elem_of_app Hm'; [by apply Hl1|congruence]. }
  specialize (Hfold harts [] None USIZE_MAX eq_refl).
  destruct (foldl step (None, USIZE_MAX) harts) as [b l]. destruct Hfold as [H1 H2].
  { split; [|done]. intros h Hh. by apply not_elem_of_nil in Hh. }
  assert (forall h, Tcb.hart_ok h -> Z.testbit m h = true -> l <= Rq.len (h_rq (hart s h))) as Hmin.
  { intros h Hh Hb. apply H1; [by apply elem_of_harts|by rewrite in_mask_testbit]. }
  destruct b as [b|]; simpl.
  - destruct H2 as (Hb & Hin%elem_of_harts & Hlen). rewrite in_mask_testbit in Hb by done.
    split_and!; [done..|]. intros h Hh Hbit. rewrite Hlen. by apply Hmin.
  - exfalso. destruct (mask_ok_bit m Hm) as (h & Hh & Hb). specialize (Hmin h Hh Hb).
    specialize (Hfit h Hh). lia.
Qed.

(** What choosing a hart may change: the task's preferred hart. *)
Definition only_cpu_id (s s' : System) (task : Z) : Prop :=
  s' = s \/ exists h, s' = set_cpu_id s task h.

Section Resolve.

Context (s : System) (task cur : Z).
Context (Hcur : Tcb.hart_ok cur) (Hfit : lengths_fit s) (Haff : 0 <= t_affinity (tcb s task)).
Context (mask : Z) (Hmask : mask_ok mask).

Let allowed := allowed_hart_mask_for_task (tcb s task) mask.

Definition resolved (r : Z * System) : Prop :=
  Tcb.hart_ok r.1 /\ Z.testbit allowed r.1 = true /\ only_cpu_id s r.2 task.

Lemma allowed_ok : mask_ok allowed.
Proof. by apply allowed_mask_spec. Qed.

Lemma resolved_picked h :
  Tcb.hart_ok h -> Z.testbit allowed h = true -> resolved (h, set_cpu_id s task h).
Proof. intros. split_and!; [done..|]. right. by exists h. Qed.

Lemma resolved_kept h : Tcb.hart_ok h -> Z.testbit allowed h = true -> resolved (h, s).
Proof. intros. split_and!; [done..|]. by left. Qed.

Lemma previous_ok t : Tcb.hart_ok (t mod MAX_HARTS).
Proof. unfold Tcb.hart_ok. apply Z.mod_pos_bound. done. Qed.

Lemma resolve_enqueue_hart_spec kind : resolved (resolve_enqueue_hart s task cur mask kind).
Proof.
  unfold resolve_enqueue_hart. fold allowed. pose proof allowed_ok as Ha.
  destruct (is_fair_slot _).
  - case_if.
    + apply resolved_picked; [done|]. rewrite <- in_mask_testbit by done. by destruct (bool_decide _).
    + destruct (pick_least_loaded_spec s allowed Ha Hfit) as (H1 & H2 & _). by apply resolved_picked.
  - rewrite !in_mask_testbit by (try done; apply previous_ok). repeat case_if.
    + apply resolved_kept; [apply previous_ok|done].
    + by apply resolved_picked.
    + destruct (pick_online_hart_from_mask_spec s allowed Ha). by apply resolved_picked.
Qed.

Lemma resolve_wakeup_hart_spec cur' : Tcb.hart_ok cur' -> resolved (resolve_wakeup_hart s task cur' mask).
Proof.
  intros Hcur'. unfold resolve_wakeup_hart. fold allowed. pose proof allowed_ok as Ha.
  rewrite !hart_bit_testbit by (try done; apply previous_ok). repeat case_if.
  - destruct (pick_least_loaded_spec s allowed Ha Hfit) as (H1 & H2 & _). by apply resolved_picked.
  - apply resolved_kept; [apply previous_ok|done].
  - by apply resolved_picked.
  - destruct (pick_online_hart_from_mask_spec s allowed Ha). by apply resolved_picked.
Qed.

Lemma resolve_sync_wakeup_hart_spec source :
  Tcb.hart_ok source -> resolved (resolve_sync_wakeup_hart s task source mask).
Proof.
  intros Hsrc. unfold resolve_sync_wakeup_hart. fold allowed. pose proof allowed_ok as Ha.
  rewrite !hart_bit_testbit by (try done; apply previous_ok). repeat case_if.
  - by apply resolved_picked.
  - apply resolved_kept; [apply previous_ok|done].
  - destruct (pick_online_hart_from_mask_spec s allowed Ha). by apply resolved_picked.
  - by apply resolve_wakeup_hart_spec.
Qed.

End Resolve.

(** ** Online harts *)

Lemma trailing_zeros_spec x : mask_ok x -> Tcb.hart_ok (trailing_zeros x) /\ Z.testbit x (trailing_zeros x) = true.
Proof.
  intros Hx. unfold trailing_zeros. destruct (position (fun i => Z.testbit x i) (seqZ 0 64)) as [i|] eqn:E; simpl.
  - apply position_Some in E as (y & Hy & Hb). apply lookup_seqZ in Hy as [-> Hi]. simpl in Hb.
    split; [|done]. by apply (mask_bit_ok x); [..|lia|].
  - exfalso. destruct (mask_ok_bit x Hx) as (h & Hh & Hb).
    rewrite (position_None _ _ E h) in Hb; [done|]. apply elem_of_seqZ. unfold Tcb.hart_ok, MAX_HARTS in Hh. lia.
Qed.

(** The online mask names at least one hart, and only active ones. *)
Lemma online_hart_mask_spec s :
  mask_ok (s_active s) -> 0 <= s_online s ->
  mask_ok (online_hart_mask s) /\
  forall h, 0 <= h -> Z.testbit (online_hart_mask s) h = true -> Z.testbit (s_active s) h = true.
Proof.
  intros Ha Ho. unfold online_hart_mask. destruct (Z.land (s_online s) (s_active s) =? 0) eqn:E; simpl.
  - destruct (s_active s =? 0) eqn:E0; [destruct Ha; lia|].
    destruct (trailing_zeros_spec (s_active s) Ha) as [[H1 H2] Hb]. unfold MAX_HARTS in H2.
    rewrite wshl_1 by lia. split.
    + split; [apply Z.pow_pos_nonneg; lia|]. apply Z.pow_lt_mono_r; unfold MAX_HARTS; lia.
    + intros h Hh. destruct (decide (h = trailing_zeros (s_active s))) as [->|Hne]; [done|].
      by rewrite Z.pow2_bits_false by lia.
  - split; [apply land_mask_bounds; [done..|lia]|].
    intros h _. rewrite Z.land_spec. by intros [_ ?]%andb_true_iff.
Qed.

Lemma pick_online_hart_spec s start :
  mask_ok (online_hart_mask s) -> 0 <= start ->
  let h := pick_online_hart s start in
  Tcb.hart_ok h /\ Z.testbit (online_hart_mask s) h = true /\
  (Tcb.hart_ok start -> Z.testbit (online_hart_mask s) start = true -> h = start).
Proof.
  intros Hm Hs. unfold pick_online_hart. set (l := map (fun i => (start + i) mod MAX_HARTS) harts).
  assert (forall h, Tcb.hart_ok h -> h ∈ l) as Hall.
  { intros h [H1 H2]. apply list_elem_of_fmap. exists ((h - start) mod MAX_HARTS). split.
    - rewrite Z.add_mod_idemp_r by done. replace (start + (h - start)) with h by lia.
      by rewrite Z.mod_small.
    - apply elem_of_harts. apply Z.mod_pos_bound. done. }
  destruct (List.find (in_mask (online_hart_mask s)) l) as [h|] eqn:E; simpl.
  - pose proof E as Ef. apply find_in_mask in E as [Hin Hi].
    apply list_elem_of_fmap in Hin as (i & -> & _). pose proof (previous_ok (start + i)) as Hok.
    rewrite in_mask_testbit in Hi by done. split_and!; [done..|]. intros Hst Hb.
    unfold l, harts in Ef. rewrite (seqZ_cons 0 MAX_HARTS) in Ef by done. cbn [map List.find] in Ef.
    rewrite Z.add_0_r, (Z.mod_small start) in Ef by done. rewrite in_mask_testbit, Hb in Ef by done.
    by injection Ef.
  - exfalso. destruct (mask_ok_bit _ Hm) as (h & Hh & Hb).
    assert (in_mask (online_hart_mask s) h = false) as Hf
      by (apply (find_none _ _ E); apply list_elem_of_In; by apply Hall).
    rewrite in_mask_testbit in Hf by done. congruence.
Qed.

(** Placement of a task respects hart hot-plug and affinity.  Whatever way a
    task becomes runnable, the hart chosen is online; it is one of the task's
    affinity when the affinity meets the online harts; nothing but the task's
    preferred hart changes; and a fair task that wakes up goes to a least
    loaded hart of those. *)
Theorem placement_respects_affinity s task cur kind source :
  mask_ok (s_active s) -> 0 <= s_online s -> lengths_fit s -> 0 <= t_affinity (tcb s task) ->
  Tcb.hart_ok cur -> Tcb.hart_ok source ->
  let online := online_hart_mask s in
  let ok := fun r : Z * System =>
    Tcb.hart_ok r.1 /\ Z.testbit online r.1 = true /\ Z.testbit (s_active s) r.1 = true /\
    (Z.land (t_affinity (tcb s task)) online <> 0 -> Z.testbit (t_affinity (tcb s task)) r.1 = true) /\
    only_cpu_id s r.2 task in
  ok (resolve_enqueue_hart s task cur online kind) /\
  ok (resolve_wakeup_hart s task cur online) /\
  ok (resolve_sync_wakeup_hart s task source online) /\
  (task_queue_slot (tcb s task) = SlotFair ->
   forall h, Tcb.hart_ok h -> Z.testbit (allowed_hart_mask_for_task (tcb s task) online) h = true ->
     Rq.len (h_rq (hart s (resolve_wakeup_hart s task cur online).1)) <= Rq.len (h_rq (hart s h))).
Proof.
  intros Hact Hon Hfit Haff Hcur Hsrc online ok.
  destruct (online_hart_mask_spec s Hact Hon) as [Hm Hsub]. fold online in Hm, Hsub.
  destruct (allowed_mask_spec (tcb s task) online Hm Haff) as (Hma & Hal & Hin & _).
  assert (forall r, resolved s task online r -> ok r) as Hok.
  { intros r (H1 & H2 & H3). pose proof (Hal _ H2) as Ho. split_and!; try done; [apply Hsub; [apply H1|done]|].
    intros Hne. rewrite (Hin Hne), Z.land_spec in H2. by apply andb_true_iff in H2 as [? _]. }
  split_and!.
  - by apply Hok, resolve_enqueue_hart_spec.
  - by apply Hok, resolve_wakeup_hart_spec.
  - by apply Hok, resolve_sync_wakeup_hart_spec.
  - intros Hslot h Hh Hb. unfold resolve_wakeup_hart. rewrite Hslot. simpl.
    by apply (pick_least_loaded_spec s _ Hma Hfit).
Qed.

Definition select_n (n : nat) (s : System) : System := Nat.iter n (fun s => (select_hart_for_new_task s).2) s.

Lemma select_n_next n s :
  0 <= s_next_hart s -> s_next_hart s + Z.of_nat n <= USIZE_MAX ->
  s_next_hart (select_n n s) = s_next_hart s + Z.of_nat n /\
  online_hart_mask (select_n n s) = online_hart_mask s.
Proof.
  intros H0. induction n as [|n IH]; intros Hn; simpl; [split; [lia|done]|].
  destruct IH as [H1 H2]; [lia|]. unfold select_n in *. rewrite H1. split; [rewrite wadd_small; lia|done].
Qed.

(** [select_hart_for_new_task] rotates over the online harts: it always returns
    an online hart, and any twelve successive calls return each online hart. *)
Theorem select_hart_rotates s :
  mask_ok (s_active s) -> 0 <= s_online s -> 0 <= s_next_hart s -> s_next_hart s + MAX_HARTS <= USIZE_MAX ->
  Z.testbit (online_hart_mask s) (select_hart_for_new_task s).1 = true /\
  forall h, Tcb.hart_ok h -> Z.testbit (online_hart_mask s) h = true ->
    exists n, (n < 12)%nat /\ (select_hart_for_new_task (select_n n s)).1 = h.
Proof.
  intros Ha Ho Hn Hb. destruct (online_hart_mask_spec s Ha Ho) as [Hm _]. split.
  - apply (pick_online_hart_spec s (s_next_hart s mod MAX_HARTS) Hm). by apply Z.mod_pos_bound.
  - intros h [Hh1 Hh2] Hbit. set (n := Z.to_nat ((h - s_next_hart s) mod MAX_HARTS)).
    pose proof (Z.mod_pos_bound (h - s_next_hart s) MAX_HARTS ltac:(done)) as Hmod.
    unfold MAX_HARTS in *. exists n. split; [subst n; lia|].
    destruct (select_n_next n s Hn) as [E1 E2]; [subst n; lia|]. unfold select_hart_for_new_task. cbn [fst].
    rewrite E1. assert ((s_next_hart s + Z.of_nat n) mod MAX_HARTS = h) as ->.
    { unfold MAX_HARTS. subst n. rewrite Z2Nat.id by lia. rewrite Z.add_mod_idemp_r by done.
      replace (s_next_hart s + (h - s_next_hart s)) with h by lia. by apply Z.mod_small. }
    apply (pick_online_hart_spec (select_n n s) h); rewrite ?E2; try done.
Qed.
