(* ===== verification/Preempt.v ===== *)
(** * Preemption decisions

    When a running task must give way: on a scheduler tick
    ([should_preempt_current_on_tick] of [task/processor.rs]), and when another
    task wakes up ([wakeup_should_preempt_*]), with the fair-class rules of
    [task/manager/fair.rs].  The reader of the real-time bandwidth refreshes it,
    so the decisions pass the state on. *)

From S2P Require Import Prelude.
From S2P Require Import BTree.
From S2P Require Import Sched.
From S2P Require Import TaskBlock.
From S2P Require Import FairGroup.
From S2P Require Import RunQueue.
From S2P Require Import RunQueueInv.

(** ** The next fair task of a hart *)

Fixpoint peek_loop (m : tcbs) (g : FairGroupQueue) (hart_id eligible : Z) (order : list (Z * Z * Z))
    (fallback : option (Z * Z)) : option Z :=
  match order with
  | [] => snd <$> fallback
  | (_, vruntime, task_id) :: order =>
      match bt_get (g_tasks g) task_id with
      | None => peek_loop m g hart_id eligible order fallback
      | Some entity =>
          if negb (e_vruntime entity =? vruntime) then peek_loop m g hart_id eligible order fallback
          else if negb (candidate_ok m hart_id (e_task entity)) then
            peek_loop m g hart_id eligible order fallback
          else if e_vruntime entity <=? eligible then Some task_id
          else
            peek_loop m g hart_id eligible order
              (match fallback with
               | Some (fallback_vruntime, _) =>
                   if e_vruntime entity <? fallback_vruntime then Some (e_vruntime entity, task_id)
                   else fallback
               | None => Some (e_vruntime entity, task_id)
               end)
      end
  end.

Definition peek_fair_group_task (m : tcbs) (g : FairGroupQueue) (hart_id : Z) : option Z :=
  let eligible_vruntime := unwrap_or (Group.avg_task_vruntime g) (g_min_task_vruntime g) in
  peek_loop m g hart_id eligible_vruntime (bs_iter (g_task_order g)) None.

Fixpoint next_on_hart_loop (m : tcbs) (rq : HartRunQueue) (hart_id : Z) (order : list (Z * Z))
    : option (Z * Z) :=
  match order with
  | [] => None
  | (indexed_vruntime, candidate_group_id) :: order =>
      match bt_get (rq_fair_groups rq) candidate_group_id with
      | None => next_on_hart_loop m rq hart_id order
      | Some group =>
          if negb (g_vruntime group =? indexed_vruntime) then next_on_hart_loop m rq hart_id order
          else
            match peek_fair_group_task m group hart_id with
            | None => next_on_hart_loop m rq hart_id order
            | Some candidate_task_id => Some (candidate_group_id, candidate_task_id)
            end
      end
  end.

Definition fair_task_is_next_on_hart (s : System) (task hart_id : Z) : bool :=
  let hart_id := hart_id mod MAX_HARTS in
  let rq := h_rq (hart s hart_id) in
  match next_on_hart_loop (s_tcbs s) rq hart_id (bs_iter (rq_fair_order rq)) with
  | Some (group_id, task_id) => (group_id =? t_fair_group_id (tcb s task)) && (task_id =? task)
  | None => false
  end.

(** ** Fair class *)

Definition fair_current_deadline_expired (s : System) (hart_id task now_ns : Z) : bool :=
  if h_ready_fair (hart s (hart_id mod MAX_HARTS)) =? 0 then false
  else
    let (vruntime, deadline) := fair_task_vruntime_deadline_at (tcb s task) now_ns in
    (deadline =? 0) || (deadline <=? vruntime).

Definition fair_wakeup_preempts_current_on_hart (s : System) (current woken hart_id now_ns : Z) : bool :=
  let (current_vruntime, current_deadline) := fair_task_vruntime_deadline_at (tcb s current) now_ns in
  if (current_deadline =? 0) || (current_deadline <=? current_vruntime) then true
  else
    let (woken_vruntime, woken_deadline) := fair_task_vruntime_deadline_at (tcb s woken) now_ns in
    let current_group_id := t_fair_group_id (tcb s current) in
    let current_weight := fair_nice_weight (t_nice (tcb s current)) in
    let current_full_slice := fair_entity_vslice_ns (t_nice (tcb s current)) EnqRequeue in
    let woken_group_id := t_fair_group_id (tcb s woken) in
    let woken_eligible :=
      match bt_get (rq_fair_groups (h_rq (hart s (hart_id mod MAX_HARTS)))) woken_group_id with
      | Some group =>
          let current_for_group :=
            if current_group_id =? woken_group_id then Some (current_vruntime, current_weight) else None in
          let avg_vruntime :=
            unwrap_or (Group.avg_task_vruntime_with group current_for_group) (g_min_task_vruntime group) in
          woken_vruntime <=? avg_vruntime
      | None => woken_vruntime <=? current_vruntime
      end in
    if woken_eligible && (woken_deadline <? current_deadline) then true
    else
      let woken_slice := sat_sub woken_deadline woken_vruntime in
      woken_eligible && (woken_slice <? current_full_slice).

Definition record_fair_sleep_lag (s : System) (hart_id task now_ns : Z) : System :=
  let t := tcb s task in
  if negb (is_fair_task t) then s
  else
    let rq := h_rq (hart s (hart_id mod MAX_HARTS)) in
    let (task_vruntime, _) := fair_task_vruntime_deadline_at t now_ns in
    let (group_id, _) := fair_group_id_and_shares t in
    let task_weight := fair_nice_weight (t_nice t) in
    let avg_vruntime :=
      unwrap_or
        (match bt_get (rq_fair_groups rq) group_id with
         | Some group => Group.avg_task_vruntime_with group (Some (task_vruntime, task_weight))
         | None => None
         end) (rq_min_fair_vruntime rq) in
    upd_tcb s task (fun t =>
      t {{ t_fair_vlag_ns := Z.min (sat_sub avg_vruntime task_vruntime) (fair_lag_limit_ns (t_nice t)) }}).

(** ** Wakeup preemption *)

Definition task_sched_class_and_priority (t : TCB) : SchedClass * Z :=
  (unwrap_or (sched_class (t_policy t)) ClassFair, t_priority t).

Definition wakeup_should_preempt_task (s : System) (current woken target_hart now : Z) : bool :=
  if current =? woken then false
  else
    let (current_class, current_priority) := task_sched_class_and_priority (tcb s current) in
    let (woken_class, woken_priority) := task_sched_class_and_priority (tcb s woken) in
    match woken_class, current_class with
    | (ClassFifo | ClassRr), ClassFair => true
    | (ClassFifo | ClassRr), (ClassFifo | ClassRr) => current_priority <? woken_priority
    | ClassFair, ClassFair =>
        fair_wakeup_preempts_current_on_hart s current woken target_hart now
        || fair_task_is_next_on_hart s woken target_hart
    | ClassFair, (ClassFifo | ClassRr) => false
    end.

(** [local] is the hart that executes; both variants look at the current task of
    the target and take an idle hart, or one whose processor is locked, as one
    to preempt. *)
Definition wakeup_should_preempt_target_hart (s : System) (local woken target_hart now : Z)
    : bool * System :=
  if MAX_HARTS <=? target_hart then (false, s)
  else
    let is_rt := match fst (task_sched_class_and_priority (tcb s woken)) with
                 | ClassFifo | ClassRr => true | ClassFair => false end in
    let (throttled, s) :=
      if is_rt then rt_bandwidth_throttled s target_hart now else (false, s) in
    if throttled then (false, s)
    else
      match current_task_on_hart s target_hart with
      | None => (true, s)
      | Some current => (wakeup_should_preempt_task s current woken target_hart now, s)
      end.

Definition send_ipi (s : System) (hart_id : Z) : System := s {{ s_ipis := s_ipis s ++ [hart_id] }}.
Definition set_need_resched (s : System) (hart_id : Z) : System :=
  upd_hart s hart_id (fun h => h {{ h_need_resched := true }}).

Definition request_reschedule_for_wakeup (s : System) (local woken target_hart now : Z) : System :=
  if (MAX_HARTS <=? target_hart) || negb (in_mask (online_hart_mask s) target_hart) then s
  else
    let (preempt, s) := wakeup_should_preempt_target_hart s local woken target_hart now in
    if negb preempt then s
    else
      let s := set_need_resched s target_hart in
      if negb (target_hart =? local) then send_ipi s target_hart else s.

Definition request_reschedule_harts (s : System) (local target_mask : Z) : System :=
  let target_mask := Z.land target_mask (online_hart_mask s) in
  let s := foldl (fun s h => if in_mask target_mask h then set_need_resched s h else s) s harts in
  foldl (fun s h => if negb (h =? local) && in_mask target_mask h then send_ipi s h else s) s harts.

(** ** Tick preemption *)

Definition set_rr_ticks (s : System) (task ticks : Z) : System :=
  upd_tcb s task (fun t => t {{ t_rr_ticks := ticks }}).

Definition should_preempt_current_on_tick (s : System) (local now : Z) : bool * System :=
  match h_current (hart s local) with
  | None => (false, s)
  | Some task =>
      let policy := t_policy (tcb s task) in
      let rt_prio := t_priority (tcb s task) in
      match sched_class policy with
      | Some ClassFair | None =>
          let (rt_ready, s) := has_ready_rt_count_at_or_above s local RT_PRIO_MIN now in
          if rt_ready then (true, s)
          else if fair_current_deadline_expired s local task now then (true, set_rr_ticks s task 0)
          else (false, s)
      | Some ClassFifo =>
          let (throttled, s) := rt_bandwidth_throttled s local now in
          if throttled then (true, s) else has_ready_rt_count_higher_than s local rt_prio now
      | Some ClassRr =>
          let (throttled, s) := rt_bandwidth_throttled s local now in
          if throttled then (true, s)
          else
            let (higher, s) := has_ready_rt_count_higher_than s local rt_prio now in
            if higher then (true, s)
            else
              let rr_ticks := sat_add (t_rr_ticks (tcb s task)) 1 in
              let s := set_rr_ticks s task rr_ticks in
              if rr_ticks <? rr_timeslice_ticks (s_sysctl s) then (false, s)
              else has_ready_rt_count_at_or_above (set_rr_ticks s task 0) local rt_prio now
      end
  end.

Definition should_preempt_current_on_syscall_return (s : System) (local now : Z) : bool * System :=
  let '(throttled_rt, s) :=
    match h_current (hart s local) with
    | Some task =>
        match sched_class (t_policy (tcb s task)) with
        | Some ClassFifo | Some ClassRr => rt_bandwidth_throttled s local now
        | _ => (false, s)
        end
    | None => (false, s)
    end in
  if throttled_rt then (true, s)
  else
    let (rt_ready, s) := has_ready_rt_count_at_or_above s local RT_PRIO_MIN now in
    if rt_ready then should_preempt_current_on_tick s local now else (false, s).

(** ** The peek agrees with the pick *)

(** With a fallback in hand, the two scans are the same. *)
Lemma peek_loop_scan m g hart_id eligible order fv fid :
  Forall (valid_key g) order ->
  peek_loop m g hart_id eligible order (Some (fv, fid)) =
  Some (scan_eligible m g hart_id eligible order (fv, fid)).
Proof.
  revert fv fid. induction order as [|[[d v] t] order IH]; intros fv fid Hv; simpl; [done|].
  inversion Hv as [|?? (e & He & Hd & Hvr) Hv']; subst. simpl in *. rewrite He, Hd, Hvr, !Z.eqb_refl. simpl.
  destruct (candidate_ok m hart_id (e_task e)); simpl; [|by apply IH].
  case_if; [done|]. case_if; by apply IH.
Qed.

Lemma peek_choice m g hart_id avg :
  group_wf g -> g_tasks g <> [] -> Group.avg_task_vruntime g = Some avg ->
  (forall t, t ∈ task_ids g -> candidate_ok m hart_id t = true) ->
  exists id, peek_fair_group_task m g hart_id = Some id /\ eevdf_choice m hart_id g avg id.
Proof.
  intros W Hne Ha Hall. unfold peek_fair_group_task. rewrite Ha. cbn [unwrap_or].
  destruct (bs_first (g_task_order g)) as [[[d v] t]|] eqn:Ef; [|by apply no_first in Ef].
  destruct (first_key g _ W Ef) as ((e & He & Hd & Hv) & Hvs & Hl & _). simpl in He, Hd, Hv.
  assert (candidate_ok m hart_id t = true) as Hc.
  { apply Hall, task_ids_elem; [done|by exists e]. }
  pose proof (front_choice m g hart_id avg d v t W Ef Hc) as Hch.
  eexists. split; [|exact Hch]. rewrite Hl. simpl. rewrite He, Hv, Z.eqb_refl. simpl.
  rewrite (eo_task _ _ (gw_entity g W _ _ He)), Hc. simpl. case_if; [done|]. by rewrite peek_loop_scan.
Qed.

(** With every entity ready the choice is the eligible one of least key. *)
Lemma eevdf_choice_unique m hart_id g avg id id' :
  group_wf g -> g_tasks g <> [] -> Group.avg_task_vruntime g = Some avg ->
  (forall t, t ∈ task_ids g -> candidate_ok m hart_id t = true) ->
  eevdf_choice m hart_id g avg id -> eevdf_choice m hart_id g avg id' -> id = id'.
Proof.
  intros W Hne Ha Hall. destruct (avg_task_vruntime_spec g W Hne) as (avg' & Ha' & _ & i0 & e0 & He0 & Hel0).
  rewrite Ha in Ha'. injection Ha' as <-.
  assert (candidate_ok m hart_id i0 = true) as Hc0 by (apply Hall, task_ids_elem; [done|by exists e0]).
  intros (e & He & Hc & [[Hel Hmin]|Hno]) (e' & He' & Hc' & [[Hel' Hmin']|Hno']).
  - destruct (Hmin id' e' He' Hc' Hel') as [->|Hlt]; [done|].
    destruct (Hmin' id e He Hc Hel) as [->|Hlt']; [done|]. apply key_lt_asym in Hlt.
    unfold key_lt in Hlt'. congruence.
  - specialize (Hno' i0 e0 He0 Hc0). lia.
  - specialize (Hno i0 e0 He0 Hc0). lia.
  - specialize (Hno i0 e0 He0 Hc0). lia.
Qed.

Lemma front_order rq v id :
  bs_first (rq_fair_order rq) = Some (v, id) ->
  bs_iter (rq_fair_order rq) = (v, id) :: tail (bs_iter (rq_fair_order rq)).
Proof. unfold bs_first, bs_iter. destruct (rq_fair_order rq) as [|[k []] o]; [done|]. simpl. by intros [= ->]. Qed.

(** The wakeup path's question "is the woken task the one the run queue would
    pick next" is answered by the picker's own rule: for a hart whose queued
    fair tasks are all runnable, and with no real-time task to run, the task
    [fair_task_is_next_on_hart] accepts is exactly the task [fetch] returns. *)
Theorem next_on_hart_is_fetched s task hart_id now :
  sys_wf s -> Tcb.hart_ok hart_id -> rt_candidate s hart_id now = None ->
  (forall t, t ∈ fair_queued (rq_fair_groups (h_rq (hart s hart_id))) -> runnable (s_tcbs s) t = true) ->
  group_holds (h_rq (hart s hart_id)) (t_fair_group_id (tcb s task)) task ->
  fair_task_is_next_on_hart s task hart_id = true <-> (fetch s hart_id now).1 = Some task.
Proof.
  intros W Hh Hrt Hrun (g0 & Hg0 & Hin0). pose proof (hw_fair _ (sw_hart _ W _ Hh)) as Wf.
  pose proof (fetch_spec s hart_id now W Hh) as Hf. destruct (fetch s hart_id now) as [picked s'].
  destruct Hf as (_ & _ & _ & Hpick). specialize (Hpick Hrt). simpl.
  unfold fair_task_is_next_on_hart. rewrite (Z.mod_small hart_id) by apply Hh.
  destruct (bs_first (rq_fair_order (h_rq (hart s hart_id)))) as [[v gid]|] eqn:Ef.
  2: { apply no_front_group in Ef; [|done]. pose proof (fair_queued_get _ _ _ Hg0) as Hp. rewrite Ef in Hp.
       apply Permutation_nil_l, eq_sym, app_nil in Hp as [Hp _]. rewrite Hp in Hin0. by apply not_elem_of_nil in Hin0. }
  destruct (front_group _ _ _ Wf Ef) as (g & Hg & Hv & (Wg & _) & Hne & _).
  destruct (avg_task_vruntime_spec g Wg Hne) as (avg & Ha & _).
  assert (forall t, t ∈ task_ids g -> runnable (s_tcbs s) t = true) as Hrg.
  { intros t Ht. apply Hrun, fair_queued_elem; [apply Wf|by exists gid, g]. }
  assert (forall t, t ∈ task_ids g -> candidate_ok (s_tcbs s) hart_id t = true) as Hcg.
  { intros t Ht. unfold candidate_ok, queued_here. specialize (Hrg t Ht). unfold runnable in Hrg.
    apply andb_true_iff in Hrg as [-> _]. rewrite andb_true_r. apply Z.eqb_eq, (sw_queued _ W); [done|].
    apply elem_of_app. right. apply fair_queued_elem; [apply Wf|by exists gid, g]. }
  destruct (Hpick v gid g avg eq_refl Hg Ha Hrg) as (t & -> & Hch).
  destruct (peek_choice _ g hart_id avg Wg Hne Ha Hcg) as (t' & Hpk & Hch').
  assert (t = t') as <- by (by eapply eevdf_choice_unique).
  rewrite (front_order _ _ _ Ef). simpl. rewrite Hg, Hv, Z.eqb_refl. simpl. rewrite Hpk. simpl.
  assert (t ∈ task_ids g) as Htg by (destruct Hch as (e & He & _); apply task_ids_elem; [done|by exists e]).
  split.
  - intros [_ ?]%andb_true_iff. f_equal. lia.
  - intros [= ->]. rewrite Z.eqb_refl, andb_true_r. apply Z.eqb_eq.
    (* the task is in one group only *)
    destruct (decide (gid = t_fair_group_id (tcb s task))) as [->|Hdiff]; [done|]. exfalso.
    pose proof (fw_nodup _ _ Wf) as Hnd. rewrite (fair_queued_get _ _ _ Hg) in Hnd.
    apply NoDup_app in Hnd as (_ & Hdis & _). apply (Hdis task Htg).
    unfold others. apply fair_queued_elem; [apply bt_wf_remove, Wf|].
    exists (t_fair_group_id (tcb s task)), g0. split; [|done].
    rewrite bt_get_remove by apply Wf. destruct (key_eqb _ _) eqn:E; [|done]. apply key_eqb_eq in E. congruence.
Qed.

(** ** Counters and queues *)

(** Some real-time task is queued on the hart at one of the first [n] levels. *)
Definition rt_queued_below (h : Hart) (n : Z) : Prop :=
  exists i q t, (i < Z.to_nat n)%nat /\ rq_rt_queues (h_rq h) !! i = Some q /\ t ∈ q.

Lemma any_ready_rt_spec h n : hart_wf h -> any_ready_rt h n = true <-> rt_queued_below h n.
Proof.
  intros Hw. unfold any_ready_rt, rt_queued_below. rewrite existsb_exists, (hw_rt_counts _ Hw). split.
  - intros (c & Hc & Hpos). apply list_elem_of_In, list_elem_of_lookup in Hc as [i Hi].
    rewrite lookup_take_Some in Hi. destruct Hi as [Hi Hlt]. unfold lengths in Hi.
    rewrite list_lookup_fmap in Hi. destruct (rq_rt_queues (h_rq h) !! i) as [q|] eqn:E; [|done].
    simpl in Hi. injection Hi as <-. destruct q as [|t q]; [done|]. exists i, (t :: q), t.
    split_and!; [done|done|left].
  - intros (i & q & t & Hi & Hq & Ht). exists (Z.of_nat (length q)). split.
    + apply list_elem_of_In, list_elem_of_lookup. exists i. apply lookup_take_Some. split; [|done].
      unfold lengths. rewrite list_lookup_fmap, Hq. done.
    + destruct q; [by apply not_elem_of_nil in Ht|]. simpl. lia.
Qed.

(** The state but for the bandwidth of the harts. *)
Record same_queues (s s' : System) : Prop := {
  sq_tcbs : s_tcbs s' = s_tcbs s;
  sq_sysctl : s_sysctl s' = s_sysctl s;
  sq_length : length (s_harts s') = length (s_harts s);
  sq_hart : forall h, Tcb.hart_ok h -> exists b, hart s' h = (hart s h) {{ h_bandwidth := b }}
}.

Lemma same_queues_refl s : same_queues s s.
Proof. constructor; try done. intros h _. exists (h_bandwidth (hart s h)). by destruct (hart s h). Qed.

Lemma same_queues_trans s1 s2 s3 : same_queues s1 s2 -> same_queues s2 s3 -> same_queues s1 s3.
Proof.
  intros [? ? ? H1] [? ? ? H2]. constructor; try congruence. intros h Hh.
  destruct (H1 h Hh) as [b1 E1], (H2 h Hh) as [b2 E2]. exists b2. by rewrite E2, E1.
Qed.

Lemma same_queues_wf s s' : sys_wf s -> same_queues s s' -> sys_wf s'.
Proof.
  intros W [Ht _ Hl Hh]. assert (forall t, tcb s' t = tcb s t) as Hts by (intros; unfold tcb; by rewrite Ht).
  assert (forall h, Tcb.hart_ok h -> queued (hart s' h) = queued (hart s h)) as Hq.
  { intros h Hok. destruct (Hh h Hok) as [b ->]. done. }
  constructor.
  - rewrite Hl. apply W.
  - intros h Hok. destruct (Hh h Hok) as [b ->]. destruct (sw_hart _ W h Hok). by constructor.
  - intros h t Hok. rewrite Hts, Hq by done. by apply W.
  - intros t. rewrite Hts. apply W.
  - intros t. rewrite Hts. apply W.
  - intros t. rewrite Hts. apply W.
Qed.

Lemma throttled_same_queues s h now :
  length (s_harts s) = Z.to_nat MAX_HARTS -> Tcb.hart_ok h -> same_queues s (rt_bandwidth_throttled s h now).2.
Proof.
  intros Hl Hh. destruct (throttled_spec s h now Hl Hh) as (_ & Ht & Hlen & Hhart & Ho).
  constructor; try done.
  - unfold rt_bandwidth_throttled. by destruct (refresh_rt_bandwidth _ _ _).
  - intros h' Hok. destruct (decide (h' = h)) as [->|Hne]; [by eexists|].
    rewrite Ho by done. exists (h_bandwidth (hart s h')). by destruct (hart s h').
Qed.

(** The clock and the period starts are in range. *)
Definition clock_ok (s : System) (now : Z) : Prop :=
  0 <= now <= USIZE_MAX /\ forall h, Tcb.hart_ok h -> 0 <= rt_period_start_ns (h_bandwidth (hart s h)).

Lemma throttled_again s h now :
  length (s_harts s) = Z.to_nat MAX_HARTS -> Tcb.hart_ok h -> clock_ok s now ->
  let s' := (rt_bandwidth_throttled s h now).2 in
  (rt_bandwidth_throttled s' h now).1 = (rt_bandwidth_throttled s h now).1 /\
  h_bandwidth (hart (rt_bandwidth_throttled s' h now).2 h) = h_bandwidth (hart s' h).
Proof.
  intros Hl Hh [Hn Hs] s'. destruct (throttled_spec s h now Hl Hh) as (E1 & _ & Hlen & Hhart & _). fold s' in Hlen, Hhart.
  assert (length (s_harts s') = Z.to_nat MAX_HARTS) as Hl' by (by rewrite Hlen).
  destruct (throttled_spec s' h now Hl' Hh) as (E2 & _ & _ & Hhart' & _).
  assert (s_sysctl s' = s_sysctl s) as Hsys by apply (throttled_same_queues s h now Hl Hh).
  rewrite E1, E2, Hhart', Hhart, Hsys. simpl. by rewrite refresh_idempotent by auto.
Qed.

Lemma clamp_index p : rt_queue_index (clamp p RT_PRIO_MIN RT_PRIO_MAX) = rt_queue_index p.
Proof. unfold rt_queue_index, normalized_rt_priority, RT_PRIO_MIN, RT_PRIO_MAX. ulia. Qed.

Lemma has_ready_higher_spec s h p now :
  sys_wf s -> Tcb.hart_ok h ->
  let r := has_ready_rt_count_higher_than s h p now in
  (r.1 = true <-> (rt_bandwidth_throttled s h now).1 = false /\ rt_queued_below (hart s h) (rt_queue_index p)) /\
  same_queues s r.2.
Proof.
  intros W Hh. unfold has_ready_rt_count_higher_than. rewrite clamp_index.
  pose proof (throttled_same_queues s h now (sw_length _ W) Hh) as Hs.
  destruct (rt_bandwidth_throttled s h now) as [thr s1]. simpl in *. destruct thr; simpl; split; try done.
  - split; [done|]. by intros [? _].
  - destruct (sq_hart _ _ Hs h Hh) as [b Hb]. rewrite any_ready_rt_spec by (by apply (same_queues_wf s s1)).
    rewrite Hb. unfold rt_queued_below. simpl. naive_solver.
Qed.

Lemma has_ready_at_or_above_spec s h p now :
  sys_wf s -> Tcb.hart_ok h ->
  let r := has_ready_rt_count_at_or_above s h p now in
  (r.1 = true <-> (rt_bandwidth_throttled s h now).1 = false /\ rt_queued_below (hart s h) (rt_queue_index p + 1)) /\
  same_queues s r.2.
Proof.
  intros W Hh. unfold has_ready_rt_count_at_or_above. rewrite clamp_index.
  pose proof (throttled_same_queues s h now (sw_length _ W) Hh) as Hs.
  destruct (rt_bandwidth_throttled s h now) as [thr s1]. simpl in *. destruct thr; simpl; split; try done.
  - split; [done|]. by intros [? _].
  - destruct (sq_hart _ _ Hs h Hh) as [b Hb]. rewrite any_ready_rt_spec by (by apply (same_queues_wf s s1)).
    rewrite Hb. unfold rt_queued_below. simpl. naive_solver.
Qed.

Lemma set_rr_ticks_wf s task ticks : sys_wf s -> sys_wf (set_rr_ticks s task ticks).
Proof. intros W. apply upd_tcb_wf; [done|]. split_and!; try done. intros []; by constructor. Qed.

Lemma throttled_bandwidth s s' h now :
  s_sysctl s' = s_sysctl s -> h_bandwidth (hart s' h) = h_bandwidth (hart s h) ->
  (rt_bandwidth_throttled s' h now).1 = (rt_bandwidth_throttled s h now).1.
Proof. intros E1 E2. unfold rt_bandwidth_throttled. rewrite E1, E2. by destruct (refresh_rt_bandwidth _ _ _). Qed.

Lemma deadline_expired_same s s' local task now :
  same_queues s s' -> fair_current_deadline_expired s' local task now = fair_current_deadline_expired s local task now.
Proof.
  intros [Ht _ _ Hh]. unfold fair_current_deadline_expired, tcb. rewrite Ht.
  destruct (Hh (local mod MAX_HARTS)) as [b ->]; [|done]. unfold Tcb.hart_ok. by apply Z.mod_pos_bound.
Qed.

(** What a scheduler tick does to the running task, by class.  A FIFO task gives
    way only when the real-time bandwidth of the hart is used up or a task of
    strictly higher priority is queued.  A round-robin task also gives way when
    its time slice is over and a task of its own priority is queued, and its
    slice restarts then or when it is over.  A fair task gives way to any
    real-time task that is queued while the class is not throttled, and
    otherwise when it used up its request and another fair task is queued. *)
Theorem tick_preemption s local now task :
  sys_wf s -> Tcb.hart_ok local -> clock_ok s now -> h_current (hart s local) = Some task ->
  let throttled := (rt_bandwidth_throttled s local now).1 = true in
  let idx := rt_queue_index (t_priority (tcb s task)) in
  let below := rt_queued_below (hart s local) in
  let ticks := sat_add (t_rr_ticks (tcb s task)) 1 in
  let slice := rr_timeslice_ticks (s_sysctl s) in
  let r := should_preempt_current_on_tick s local now in
  match sched_class (t_policy (tcb s task)) with
  | Some ClassFifo => r.1 = true <-> throttled \/ below idx
  | Some ClassRr =>
      (r.1 = true <-> throttled \/ below idx \/ (slice <= ticks /\ below (idx + 1))) /\
      (~ throttled -> ~ below idx -> t_rr_ticks (tcb r.2 task) = if ticks <? slice then ticks else 0)
  | Some ClassFair | None =>
      r.1 = true <-> (~ throttled /\ below (Z.of_nat RT_PRIO_LEVELS)) \/
        fair_current_deadline_expired s local task now = true
  end.
Proof.
  intros W Hh Hc Hcur throttled idx below ticks slice r. unfold r, should_preempt_current_on_tick. rewrite Hcur. clear r.
  pose proof (throttled_same_queues s local now (sw_length _ W) Hh) as Hs1.
  destruct (throttled_again s local now (sw_length _ W) Hh Hc) as [Hag Hbw].
  assert (forall s1 n, same_queues s s1 -> rt_queued_below (hart s1 local) n <-> below n) as Hbelow.
  { intros s1 n Hs. destruct (sq_hart _ _ Hs local Hh) as [b ->]. done. }
  assert (forall s1 t, same_queues s s1 -> tcb s1 t = tcb s t) as Htcb.
  { intros s1 t Hs. unfold tcb. by rewrite (sq_tcbs _ _ Hs). }
  destruct (sched_class (t_policy (tcb s task))) as [[]|].
  1,4: destruct (has_ready_at_or_above_spec s local RT_PRIO_MIN now W Hh) as [Hr Hs2];
    destruct (has_ready_rt_count_at_or_above s local RT_PRIO_MIN now) as [b s2]; simpl in Hr, Hs2;
    change (rt_queue_index RT_PRIO_MIN + 1) with (Z.of_nat RT_PRIO_LEVELS) in Hr;
    fold below in Hr; unfold throttled; rewrite not_true_iff_false, <- Hr;
    rewrite (deadline_expired_same s s2) by done; destruct b; simpl;
    destruct (fair_current_deadline_expired s local task now); simpl; naive_solver.
  - unfold throttled. destruct (rt_bandwidth_throttled s local now) as [thr s1]. simpl in *.
    destruct thr; simpl; [naive_solver|]. pose proof (same_queues_wf _ _ W Hs1) as W1.
    destruct (has_ready_higher_spec s1 local (t_priority (tcb s task)) now W1 Hh) as [-> _].
    rewrite Hag, (Hbelow s1) by done. unfold idx. naive_solver.
  - unfold throttled. destruct (rt_bandwidth_throttled s local now) as [thr s1]. simpl in *.
    destruct thr; simpl; [naive_solver|]. pose proof (same_queues_wf _ _ W Hs1) as W1.
    destruct (has_ready_higher_spec s1 local (t_priority (tcb s task)) now W1 Hh) as [Hr Hs2].
    rewrite Hag, (Hbelow s1) in Hr by done. fold idx in Hr.
    destruct (has_ready_rt_count_higher_than s1 local (t_priority (tcb s task)) now) as [higher s2] eqn:E2.
    simpl in Hr, Hs2. destruct higher; simpl; [naive_solver|].
    assert (~ below idx) as Hnb by naive_solver. pose proof (same_queues_trans _ _ _ Hs1 Hs2) as Hs02.
    assert ((rt_bandwidth_throttled s2 local now).1 = false) as Hthr2.
    { unfold has_ready_rt_count_higher_than in E2. destruct (rt_bandwidth_throttled s1 local now) as [t1 s1'] eqn:E1.
      simpl in Hag. subst t1. injection E2 as _ <-. rewrite (throttled_bandwidth s1), E1; [done|apply Hs2|exact Hbw]. }
    rewrite (Htcb s2), (sq_sysctl _ _ Hs02) by done. fold ticks slice.
    destruct (ticks <? slice) eqn:Elt; simpl.
    + split; [|intros _ _; unfold set_rr_ticks; by rewrite tcb_upd_same].
      split; [done|]. intros [?|[?|[? _]]]; [done..|lia].
    + set (s4 := set_rr_ticks (set_rr_ticks s2 task ticks) task 0).
      assert (sys_wf s4) as W4 by (by apply set_rr_ticks_wf, set_rr_ticks_wf, (same_queues_wf s s2)).
      destruct (has_ready_at_or_above_spec s4 local (t_priority (tcb s task)) now W4 Hh) as [Hr4 Hs4].
      assert ((rt_bandwidth_throttled s4 local now).1 = false) as Hthr4
        by (rewrite <- Hthr2; by apply throttled_bandwidth).
      rewrite Hthr4 in Hr4. change (hart s4 local) with (hart s2 local) in Hr4. rewrite (Hbelow s2) in Hr4 by done.
      split.
      * rewrite Hr4. unfold idx. split; [intros [_ ?]; right; right; split; [lia|done]|].
        intros [?|[?|[_ ?]]]; done.
      * intros _ _. unfold tcb at 1. rewrite (sq_tcbs _ _ Hs4). unfold s4, set_rr_ticks.
        change (t_rr_ticks (tcb (upd_tcb (upd_tcb s2 task (fun t => t {{ t_rr_ticks := ticks }})) task
          (fun t => t {{ t_rr_ticks := 0 }})) task) = 0). by rewrite tcb_upd_same.
Qed.
