(* ===== verification/Wakeup.v ===== *)
(** * Waking, blocking and dispatching

    [task/manager.rs]: queueing new, preempted and woken tasks, batches of
    wakeups, refreshing a task's place after its policy changed;
    [task/processor.rs]: charging run time, giving up the CPU, the part of the
    idle loop that handles the task switched out and dispatches the next one;
    [fs/cgroupfs/file.rs]: freezing a thread.  [local] is the hart that
    executes; the operations start where the checks for fatal signals and the
    saving of registers are done. *)

From S2P Require Import Prelude.
From S2P Require Import BTree.
From S2P Require Import Sched.
From S2P Require Import TaskBlock.
From S2P Require Import FairGroup.
From S2P Require Import RunQueue.
From S2P Require Import RunQueueInv.
From S2P Require Import HartSelect.
From S2P Require Import Preempt.

(** ** Queueing *)

(** [.filter(|hart| *hart < MAX_HARTS)] of a [usize]. *)
Definition hart_in_range (h : Z) : option Z :=
  if (0 <=? h) && (h <? MAX_HARTS) then Some h else None.

Definition enqueue_task_with_wakeup_flags (s : System) (local task : Z) (kind : EnqueueKind)
    (sync_source_hart : option Z) (now : Z) : option (Z * bool) * System :=
  let mask := online_hart_mask s in
  let cur := local mod MAX_HARTS in
  let (hart_id, s) :=
    match kind with
    | EnqWakeup =>
        match (match sync_source_hart with Some h => hart_in_range h | None => None end) with
        | Some source => resolve_sync_wakeup_hart s task source mask
        | None => resolve_wakeup_hart s task cur mask
        end
    | _ => resolve_enqueue_hart s task cur mask kind
    end in
  let (queued, s) := add s task hart_id kind now in
  ((fun was_empty => (hart_id, was_empty)) <$> queued, s).

Definition enqueue_task (s : System) (local task : Z) (kind : EnqueueKind) (now : Z) :=
  enqueue_task_with_wakeup_flags s local task kind None now.

Definition add_task (s : System) (local task now : Z) : option Z * System :=
  let local_hart := local mod MAX_HARTS in
  let s := match task_queue_slot (tcb s task), h_current (hart s local) with
           | SlotFair, Some parent => upd_tcb s parent (protect_fair_fork_parent now)
           | _, _ => s
           end in
  let (r, s) := enqueue_task s local task EnqInitial now in
  match r with
  | None => (None, s)
  | Some (hart_id, was_empty) =>
      let (preempt, s) :=
        match task_queue_slot (tcb s task) with
        | SlotRt _ => wakeup_should_preempt_target_hart s local_hart task hart_id now
        | SlotFair => (false, s)
        end in
      let s := if preempt then request_reschedule_for_wakeup s local_hart task hart_id now
               else if negb (local_hart =? hart_id) && was_empty then send_ipi s hart_id else s in
      (Some hart_id, s)
  end.

Definition requeue_task (s : System) (local task now : Z) : option Z * System :=
  let local_hart := local mod MAX_HARTS in
  let (r, s) := enqueue_task s local task EnqRequeue now in
  match r with
  | None => (None, s)
  | Some (hart_id, was_empty) =>
      (Some hart_id, if negb (local_hart =? hart_id) && was_empty then send_ipi s hart_id else s)
  end.

(** ** Wakeups *)

Record WakeupBatch := mkBatch { kick_mask : Z; resched_mask : Z }.
#[export] Instance fields_WakeupBatch : Fields WakeupBatch :=
  fun b => mkBatch (kick_mask b) (resched_mask b).
Definition batch_default : WakeupBatch := mkBatch 0 0.

Definition note_idle_kick (b : WakeupBatch) (local_hart target_hart : Z) (was_empty : bool) : WakeupBatch :=
  if negb (target_hart =? local_hart) && was_empty
  then b {{ kick_mask := Z.lor (kick_mask b) (hart_bit target_hart) }} else b.

Definition note_resched (b : WakeupBatch) (target_hart : Z) : WakeupBatch :=
  b {{ resched_mask := Z.lor (resched_mask b) (hart_bit target_hart) }}.

Definition note_enqueued (s : System) (b : WakeupBatch) (local_hart task target_hart : Z)
    (was_empty : bool) (now : Z) : System * WakeupBatch :=
  let b := note_idle_kick b local_hart target_hart was_empty in
  let (preempt, s) := wakeup_should_preempt_target_hart s local_hart task target_hart now in
  (s, if preempt then note_resched b target_hart else b).

Definition note_signal_enqueued (s : System) (b : WakeupBatch) (local_hart task target_hart : Z)
    (was_empty : bool) (now : Z) : System * WakeupBatch :=
  let b := note_idle_kick b local_hart target_hart was_empty in
  match task_queue_slot (tcb s task) with
  | SlotRt _ =>
      let (preempt, s) := wakeup_should_preempt_target_hart s local_hart task target_hart now in
      (s, if preempt then note_resched b target_hart else b)
  | SlotFair => (s, b)
  end.

Definition flush (s : System) (local_hart : Z) (b : WakeupBatch) : System :=
  let kick_only_mask := Z.land (kick_mask b) (bnot (resched_mask b)) in
  let s := request_reschedule_harts s local_hart (resched_mask b) in
  foldl (fun s target_hart =>
    if negb (target_hart =? local_hart) && negb (Z.land kick_only_mask (hart_bit target_hart) =? 0)
    then send_ipi s target_hart else s) s harts.

(** [wake_if_blocked_inner], once the task is known to be off CPU. *)
Definition wake_if_blocked_inner (s : System) (local task : Z) (batch : WakeupBatch)
    (allow_fair_preempt : bool) (sync_source_hart : option Z) (now : Z) : System * WakeupBatch :=
  let t := tcb s task in
  if negb (t_has_res t) then (s, batch)
  else if negb (is_blocked (t_status t)) then (s, batch)
  else if t_cgroup_frozen t then
    (upd_tcb s task (fun t => t {{ t_wake_on_cgroup_thaw := true }}), batch)
  else
    let s := upd_tcb s task (fun t =>
      t {{ t_status := StReady; t_parked_by_cgroup := false; t_wake_on_cgroup_thaw := false }}) in
    let (r, s) := enqueue_task_with_wakeup_flags s local task EnqWakeup sync_source_hart now in
    match r with
    | None => (s, batch)
    | Some (hart_id, was_empty) =>
        if allow_fair_preempt
        then note_enqueued s batch (local mod MAX_HARTS) task hart_id was_empty now
        else note_signal_enqueued s batch (local mod MAX_HARTS) task hart_id was_empty now
    end.

Definition take_pending_sync_hart (s : System) (task : Z) : option Z * System :=
  (hart_in_range (t_wakeup_sync_hart (tcb s task)),
   upd_tcb s task (fun t => t {{ t_wakeup_sync_hart := OFF_CPU }})).

Definition wakeup_task_with_batch_inner (s : System) (local task : Z) (batch : WakeupBatch)
    (allow_fair_preempt : bool) (sync_source_hart : option Z) (now : Z) : System * WakeupBatch :=
  let sync_source_hart := match sync_source_hart with Some h => hart_in_range h | None => None end in
  let (deferred, t) := Tcb.defer_wakeup_if_on_cpu sync_source_hart (tcb s task) in
  let s := upd_tcb s task (fun _ => t) in
  if deferred then (s, batch)
  else
    let (pending_sync_source, s) := take_pending_sync_hart s task in
    let effective_sync_source :=
      match sync_source_hart with Some h => Some h | None => pending_sync_source end in
    wake_if_blocked_inner s local task batch allow_fair_preempt effective_sync_source now.

Definition wakeup_task (s : System) (local task now : Z) : System :=
  let (s, batch) := wakeup_task_with_batch_inner s local task batch_default true None now in
  flush s (local mod MAX_HARTS) batch.

Definition wakeup_sync_task_on_hart (s : System) (local task source_hart now : Z) : System :=
  let (s, batch) := wakeup_task_with_batch_inner s local task batch_default true (Some source_hart) now in
  flush s (local mod MAX_HARTS) batch.

Definition wakeup_sync_task (s : System) (local task now : Z) : System :=
  wakeup_sync_task_on_hart s local task (local mod MAX_HARTS) now.

Definition wakeup_all (s : System) (local : Z) (tasks : list Z) (allow_fair_preempt : bool)
    (sync : option Z) (now : Z) : System :=
  let (s, batch) :=
    foldl (fun '(s, b) task => wakeup_task_with_batch_inner s local task b allow_fair_preempt sync now)
      (s, batch_default) tasks in
  flush s (local mod MAX_HARTS) batch.

Definition wakeup_tasks (s : System) (local : Z) (tasks : list Z) (now : Z) : System :=
  wakeup_all s local tasks true None now.
Definition wakeup_sync_tasks (s : System) (local : Z) (tasks : list Z) (now : Z) : System :=
  wakeup_all s local tasks true (Some (local mod MAX_HARTS)) now.
Definition wakeup_signal_tasks (s : System) (local : Z) (tasks : list Z) (now : Z) : System :=
  wakeup_all s local tasks false None now.

(** ** Refreshing a task's place *)

Definition refresh_task_runqueue (s : System) (local task now : Z) : System :=
  if negb (t_in_ready_queue (tcb s task)) then s
  else
    let (removed, s) := remove s task in
    if removed =? 0 then s
    else
      let cur := local mod MAX_HARTS in
      let (hart_id, s) := resolve_enqueue_hart s task cur (online_hart_mask s) EnqRequeue in
      let (r, s) := add s task hart_id EnqRequeue now in
      match r with
      | Some _ => request_reschedule_for_wakeup s cur task hart_id now
      | None => s
      end.

(** [refresh_process_runqueues]: all tasks are moved first, the preemption
    checks follow. *)
Fixpoint requeue_each (s : System) (cur mask : Z) (tasks : list Z) (now : Z) : list (Z * Z) * System :=
  match tasks with
  | [] => ([], s)
  | task :: tasks =>
      if negb (t_in_ready_queue (tcb s task)) then requeue_each s cur mask tasks now
      else
        let (removed, s) := remove s task in
        if removed =? 0 then requeue_each s cur mask tasks now
        else
          let (hart_id, s) := resolve_enqueue_hart s task cur mask EnqRequeue in
          let (r, s) := add s task hart_id EnqRequeue now in
          let (moved, s) := requeue_each s cur mask tasks now in
          (match r with Some _ => (task, hart_id) :: moved | None => moved end, s)
  end.

Definition refresh_process_runqueues (s : System) (local : Z) (tasks : list Z) (now : Z) : System :=
  let cur := local mod MAX_HARTS in
  let (moved, s) := requeue_each s cur (online_hart_mask s) tasks now in
  foldl (fun s '(task, hart_id) => request_reschedule_for_wakeup s cur task hart_id now) s moved.

Definition remove_task (s : System) (task : Z) : System := snd (remove s task).

(** ** The processor of a hart *)

Definition is_rt_class (policy : Z) : bool :=
  match sched_class policy with Some ClassFifo | Some ClassRr => true | _ => false end.

Definition charge_task_runtime_for_scheduler (s : System) (local task now : Z) : System :=
  let policy := t_policy (tcb s task) in
  let (delta_ns, t) := Tcb.account_runtime_until now (tcb s task) in
  let s := upd_tcb s task (fun _ => t) in
  if is_rt_class policy then
    upd_hart s local (fun h =>
      h {{ h_bandwidth := account_rt_runtime (s_sysctl s) now delta_ns (h_bandwidth h) }})
  else s.

Definition take_current_task (s : System) (local : Z) : option Z * System :=
  (h_current (hart s local), upd_hart s local (fun h => h {{ h_current := None }})).

(** [suspend_current_and_run_next_unchecked] up to the context switch. *)
Definition suspend_current (s : System) (local now : Z) : System :=
  let (current, s) := take_current_task s local in
  match current with
  | None => s
  | Some task =>
      let s := charge_task_runtime_for_scheduler s local task now in
      let s := upd_tcb s task (fun t => t {{ t_status := StReady; t_rr_ticks := 0 }}) in
      upd_hart s local (fun h => h {{ h_pending_ready := Some task }})
  end.

(** [block_current_and_run_next] up to the context switch. *)
Definition block_current (s : System) (local now : Z) : System :=
  let (current, s) := take_current_task s local in
  match current with
  | None => s
  | Some task =>
      let s := charge_task_runtime_for_scheduler s local task now in
      let should_block := negb (is_ready (t_status (tcb s task))) in
      let s := if should_block then upd_tcb s task (fun t => t {{ t_status := StBlocked }}) else s in
      let s := set_rr_ticks s task 0 in
      if should_block then
        upd_hart (record_fair_sleep_lag s local task now) local (fun h => h {{ h_pending_blocked := Some task }})
      else upd_hart s local (fun h => h {{ h_pending_ready := Some task }})
  end.

(** The idle loop's handling of the task that was switched out. *)
Definition idle_pending_blocked (s : System) (local now : Z) : System :=
  match h_pending_blocked (hart s local) with
  | None => s
  | Some task =>
      let s := upd_hart s local (fun h => h {{ h_pending_blocked := None }}) in
      let (pending_wakeup, t) := Tcb.finish_running (tcb s task) in
      let s := upd_tcb s task (fun _ => t) in
      match pending_wakeup with
      | PwNone => s
      | PwNormal => wakeup_task s local task now
      | PwSync sync_hart =>
          if sync_hart <? MAX_HARTS then wakeup_sync_task_on_hart s local task sync_hart now
          else wakeup_task s local task now
      end
  end.

Definition idle_pending_ready (s : System) (local now : Z) : System :=
  match h_pending_ready (hart s local) with
  | None => s
  | Some task =>
      let s := upd_hart s local (fun h => h {{ h_pending_ready := None }}) in
      let (_, t) := Tcb.finish_running (tcb s task) in
      let s := upd_tcb s task (fun _ => t) in
      snd (requeue_task s local task now)
  end.

(** The dispatch of the idle loop: fetch a task and make it the current one. *)
Definition dispatch (s : System) (local now : Z) : System :=
  let (t, s) := fetch s local now in
  match t with
  | None => s
  | Some task =>
      let s := upd_tcb s task (Tcb.begin_runtime_slice now) in
      let s := upd_tcb s task (fun t => t {{ t_status := StRunning }}) in
      upd_hart s local (fun h => h {{ h_current := Some task }})
  end.

(** One round of the idle loop, the background cleanup and the timer left out. *)
Definition idle_round (s : System) (local now : Z) : System :=
  dispatch (idle_pending_ready (idle_pending_blocked s local now) local now) local now.

(** ** Freezing a thread *)

Definition set_thread_freezer_state (s : System) (local task : Z) (frozen is_current : bool) (now : Z)
    : bool * System :=
  let s := if frozen then
             upd_tcb s task (fun t => t {{ t_cgroup_frozen := true; t_wake_on_cgroup_thaw := false }})
           else s in
  if frozen && negb (is_blocked (t_status (tcb s task))) then
    (is_current, upd_tcb s task (fun t => t {{ t_status := StBlocked; t_parked_by_cgroup := true }}))
  else
    let should_wake := t_parked_by_cgroup (tcb s task) || t_wake_on_cgroup_thaw (tcb s task) in
    let s := upd_tcb s task (fun t =>
      t {{ t_cgroup_frozen := false; t_parked_by_cgroup := false; t_wake_on_cgroup_thaw := false }}) in
    (false, if should_wake then wakeup_task s local task now else s).
