(* ===== verification/SchedInv.v ===== *)
(** * The scheduler's invariant

    What holds of the whole scheduler state between operations: a task runs on
    at most one hart and the [on_cpu] word says which, a task on a CPU is in no
    run queue, and no task is lost: a started task is on a CPU, in a run queue,
    or blocked.  Every operation of [Wakeup] keeps it. *)

From S2P Require Import Prelude.
From S2P Require Import BTree.
From S2P Require Import Sched.
From S2P Require Import TaskBlock.
From S2P Require Import FairGroup.
From S2P Require Import RunQueue.
From S2P Require Import RunQueueInv.
From S2P Require Import HartSelect.
From S2P Require Import Preempt.
From S2P Require Import Wakeup.

(** ** Room in the sums *)

Definition VMAX : Z := 2 ^ 90.

(** Virtual times and queue lengths far from the width of the sums. *)
Record sys_small (s : System) : Prop := {
  ss_len : forall h, Tcb.hart_ok h -> Z.of_nat (length (queued (hart s h))) < 2 ^ 19;
  ss_vruntime : forall t, t_fair_vruntime_ns (tcb s t) <= VMAX;
  ss_time : forall t, t_cpu_time_ns (tcb s t) <= U64_MAX;
  ss_rq : forall h, Tcb.hart_ok h -> rq_min_fair_vruntime (h_rq (hart s h)) <= VMAX;
  ss_group : forall h id g, Tcb.hart_ok h -> bt_get (rq_fair_groups (h_rq (hart s h))) id = Some g ->
    g_min_task_vruntime g <= VMAX /\
    forall t e, bt_get (g_tasks g) t = Some e -> e_vruntime e <= VMAX /\ e_weight e <= 2 ^ 17
}.

(** Run time since a checkpoint moves a virtual time by less than this. *)
Definition VSTEP : Z := 2 ^ 71.

Lemma scale_fair_delta_small delta nice :
  0 <= delta <= U64_MAX -> scale_fair_delta delta (fair_nice_weight nice) <= VSTEP.
Proof.
  intros Hd. pose proof (fair_nice_weight_range nice). unfold scale_fair_delta, NICE_0_LOAD, VSTEP.
  apply Z.max_lub; [|lia]. rewrite Z.max_l by lia. apply Z.div_le_upper_bound; [lia|].
  change (2 ^ 71) with (U64_MAX * 128 + 128). nia.
Qed.

Lemma weighted_below ts a w :
  0 <= a -> (forall id e, (id, e) ∈ ts -> entity_ok id e /\ e_vruntime e <= a /\ e_weight e <= w) ->
  weighted ts <= a * weights ts /\ weights ts <= w * Z.of_nat (length ts).
Proof.
  intros Ha. induction ts as [|[id e] ts IH]; intros Hok; [simpl; lia|].
  rewrite weighted_cons, weights_cons. simpl.
  destruct (Hok id e) as ([_ H1 H2] & H3 & H4); [left|].
  destruct IH as [IH1 IH2]; [intros ?? Hin; apply Hok; by right|]. split; [nia|lia].
Qed.

Section Room.

Context (s : System) (W : sys_wf s) (Hsm : sys_small s).
Context (h : Z) (Hh : Tcb.hart_ok h).

Lemma entered_group_small t :
  let g := entered_group (hart s h) t in
  g_min_task_vruntime g <= VMAX /\
  (forall i e, bt_get (g_tasks g) i = Some e -> e_vruntime e <= VMAX /\ e_weight e <= 2 ^ 17) /\
  Z.of_nat (length (g_tasks g)) < 2 ^ 19.
Proof.
  intros g. pose proof (ss_len _ Hsm h Hh) as Hlen. pose proof (ss_rq _ Hsm h Hh) as Hrq.
  unfold g, entered_group.
  destruct (bt_get (rq_fair_groups (h_rq (hart s h))) (t_fair_group_id t)) as [g0|] eqn:E; cbn [unwrap_or].
  - destruct (ss_group _ Hsm h _ _ Hh E) as [Hm He]. split_and!; [done..|]. simpl.
    unfold queued in Hlen. rewrite (fair_queued_get _ _ _ E) in Hlen. rewrite !length_app in Hlen.
    unfold task_ids in Hlen. rewrite length_map in Hlen. lia.
  - split_and!; done.
Qed.

Lemma current_entity_small gid now v w :
  0 <= now <= U64_MAX ->
  current_fair_entity_for_group s h gid now = Some (v, w) -> v <= VMAX + VSTEP /\ w <= 2 ^ 17.
Proof.
  intros Hn. unfold current_fair_entity_for_group. destruct (current_task_on_hart s h) as [c|]; [|done].
  repeat case_if; try done. intros [= <- <-]. pose proof (fair_nice_weight_range (t_nice (tcb s c))).
  split; [|lia]. pose proof (ss_vruntime _ Hsm c). pose proof (ss_time _ Hsm c) as Htime.
  destruct (sw_fields _ W c) as [F1 _ _ F4 F5].
  assert (0 <= sat_sub (current_runtime_ns (tcb s c) now) (t_fair_runtime_checkpoint_ns (tcb s c)) <= U64_MAX) as Hd.
  { unfold current_runtime_ns, sat_sub, sat_add. case_if; lia. }
  pose proof (scale_fair_delta_small _ (t_nice (tcb s c)) Hd). unfold sat_add128. lia.
Qed.

Lemma placement_small t gid now :
  0 <= now <= U64_MAX ->
  placement (entered_group (hart s h) t) (current_fair_entity_for_group s h gid now) <= VMAX + VSTEP.
Proof.
  intros Hn. destruct (entered_group_ok (hart s h) t (sw_hart _ W _ Hh)) as ((Wg & _) & _ & _).
  destruct (entered_group_small t) as (Hm & He & Hlen). set (g := entered_group (hart s h) t) in *.
  pose proof (current_entity_ok s h gid now W) as Hcok.
  pose proof (fun v w => current_entity_small gid now v w Hn) as Hcs.
  destruct (weighted_below (g_tasks g) VMAX (2 ^ 17)) as [Hb1 Hb2]; [done| |].
  { intros i e Hin. apply group_elem in Hin; [|done]. split; [by apply (gw_entity g Wg)|by apply (He i)]. }
  destruct (weighted_nonneg (g_tasks g)) as [N1 N2].
  { intros i e Hin. apply (gw_entity g Wg). by apply group_elem. }
  assert (VMAX = 2 ^ 90 /\ VSTEP = 2 ^ 71) as [EV ES] by done.
  unfold placement, Group.avg_task_vruntime_with.
  destruct (gw_sum g Wg) as [-> _], (gw_weight g Wg) as [-> _].
  destruct (current_fair_entity_for_group s h gid now) as [[v w]|]; cbv zeta iota.
  - destruct (Hcok v w eq_refl) as [Hv Hw]. destruct (Hcs v w eq_refl) as [Hv2 Hw2].
    assert (sat_add128 (weights (g_tasks g)) w = weights (g_tasks g) + w) as -> by (unfold sat_add128; lia).
    case_if; [lia|]. cbn [unwrap_or]. apply Z.max_lub; [apply Z.max_lub|]; [|lia..].
    apply Z.div_le_upper_bound; [lia|]. unfold sat_add128, sat_mul128. nia.
  - case_if; cbn [unwrap_or]; [lia|]. apply Z.max_lub; [apply Z.max_lub|]; [|lia..].
    apply Z.div_le_upper_bound; [lia|]. nia.
Qed.

Lemma charged_small t : charged_vruntime (entered_group (hart s h) (tcb s t)) (tcb s t) <= VMAX + VSTEP.
Proof.
  destruct (entered_group_small (tcb s t)) as (Hm & _). pose proof (ss_vruntime _ Hsm t).
  pose proof (ss_time _ Hsm t) as Htime. destruct (sw_fields _ W t) as [F1 _ _ F4 F5].
  unfold charged_vruntime. case_if; [|unfold VSTEP; lia].
  pose proof (scale_fair_delta_small (sat_sub (t_cpu_time_ns (tcb s t)) (t_fair_runtime_checkpoint_ns (tcb s t)))
    (t_nice (tcb s t)) ltac:(unfold sat_sub; lia)). unfold sat_add128. lia.
Qed.

(** There is room for any task on any hart. *)
Lemma small_room task kind now : 0 <= now <= U64_MAX -> add_room s task h kind now.
Proof.
  intros Hn. unfold add_room. pose proof (ss_len _ Hsm h Hh). split; [lia|].
  destruct (entered_group_ok (hart s h) (tcb s task) (sw_hart _ W _ Hh)) as ((Wg & _ & Hmin) & _ & _).
  destruct (entered_group_small (tcb s task)) as (Hm & He & Hlen).
  pose proof (placement_small (tcb s task) (t_fair_group_id (tcb s task)) now Hn) as Hp.
  pose proof (charged_small task) as Hc. set (g := entered_group (hart s h) (tcb s task)) in *.
  set (cur := current_fair_entity_for_group s h (t_fair_group_id (tcb s task)) now) in *.
  assert (current_ok cur) as Hcok by (by apply current_entity_ok).
  pose proof (fair_nice_weight_range (t_nice (tcb s task))) as Hw.
  destruct (weighted_below (g_tasks g) VMAX (2 ^ 17)) as [Hb1 Hb2]; [done| |].
  { intros i e Hin. apply group_elem in Hin; [|done]. split; [by apply (gw_entity g Wg)|by apply (He i)]. }
  destruct (weighted_nonneg (g_tasks g)) as [N1 N2].
  { intros i e Hin. apply (gw_entity g Wg). by apply group_elem. }
  assert (placed_vruntime g (tcb s task) kind cur <= VMAX + VSTEP) as Hv.
  { pose proof (inflate_nonneg (credit (tcb s task) kind) (entity_load g cur) (fair_nice_weight (t_nice (tcb s task)))
      (credit_nonneg _ kind (sw_fields _ W task)) (entity_load_nonneg g cur Wg Hcok) ltac:(lia)).
    pose proof (placement_nonneg g cur Wg Hcok).
    unfold placed_vruntime, sat_sub. destruct kind; cbv zeta; repeat case_if; lia. }
  pose proof (placed_vruntime_nonneg g (tcb s task) kind cur Wg (sw_fields _ W task) Hmin Hcok).
  assert (VMAX = 2 ^ 90 /\ VSTEP = 2 ^ 71) as [EV ES] by done. split.
  - assert (weights (g_tasks g) <= 2 ^ 36) by lia. nia.
  - lia.
Qed.

End Room.

(** ** The invariant *)

(** The tasks a hart holds: the one it runs, or the one it just switched out. *)
Definition held (h : Hart) : list Z :=
  option_list (h_current h) ++ option_list (h_pending_ready h) ++ option_list (h_pending_blocked h).

(** [live]: the tasks that were started.  [moving]: a task between two places,
    inside an operation. *)
Record cpu_wf (live : gset Z) (moving : option Z) (s : System) : Prop := {
  cw_wf : sys_wf s;
  cw_held : forall h t, Tcb.hart_ok h -> t ∈ held (hart s h) ->
    t ∈ live /\ exists p, t_on_cpu (tcb s t) = Tcb.word h p;
  cw_off : forall t, t_on_cpu (tcb s t) = OFF_CPU \/ exists h, Tcb.hart_ok h /\ t ∈ held (hart s h);
  cw_one : forall h, Tcb.hart_ok h -> (length (held (hart s h)) <= 1)%nat;
  cw_queued : forall t, t_ready_queue_hart (tcb s t) <> OFF_CPU -> t_on_cpu (tcb s t) = OFF_CPU /\ t ∈ live;
  cw_running : forall t, t_status (tcb s t) = StRunning -> t_on_cpu (tcb s t) <> OFF_CPU;
  cw_placed : forall t, t ∈ live -> moving <> Some t -> t_on_cpu (tcb s t) = OFF_CPU ->
    t_ready_queue_hart (tcb s t) = OFF_CPU -> t_status (tcb s t) = StBlocked;
  cw_pending : forall h t, Tcb.hart_ok h ->
    (h_pending_blocked (hart s h) = Some t -> t_status (tcb s t) = StBlocked) /\
    (h_pending_ready (hart s h) = Some t -> t_status (tcb s t) <> StRunning);
  cw_masks : mask_ok (s_active s) /\ 0 <= s_online s /\ forall t, 0 <= t_affinity (tcb s t)
}.

(** A task is held by one hart, and not at all when it is off CPU. *)
Lemma held_unique live moving s h h' t :
  cpu_wf live moving s -> Tcb.hart_ok h -> Tcb.hart_ok h' ->
  t ∈ held (hart s h) -> t ∈ held (hart s h') -> h = h'.
Proof.
  intros W Hh Hh' H1 H2. destruct (cw_held _ _ _ W h t Hh H1) as (_ & p & E).
  destruct (cw_held _ _ _ W h' t Hh' H2) as (_ & p' & E'). rewrite E in E'.
  by apply Tcb.word_inj in E' as [-> _].
Qed.

Lemma held_on_cpu live moving s h t :
  cpu_wf live moving s -> Tcb.hart_ok h -> t ∈ held (hart s h) -> t_on_cpu (tcb s t) <> OFF_CPU.
Proof.
  intros W Hh Hin. destruct (cw_held _ _ _ W h t Hh Hin) as (_ & p & ->).
  by apply Z.eqb_neq, Tcb.word_not_off.
Qed.

(** ** Changes that do not matter *)

(** [f] keeps what the invariant says of a task. *)
Record keeps (f : TCB -> TCB) : Prop := {
  ke_on_cpu : forall t, t_on_cpu (f t) = t_on_cpu t;
  ke_hart : forall t, t_ready_queue_hart (f t) = t_ready_queue_hart t;
  ke_flag : forall t, t_in_ready_queue (f t) = t_in_ready_queue t;
  ke_status : forall t, t_status (f t) = t_status t;
  ke_affinity : forall t, t_affinity (f t) = t_affinity t;
  ke_fields : forall t, fair_fields_ok t -> fair_fields_ok (f t)
}.

Lemma keeps_wf live moving s task f : cpu_wf live moving s -> keeps f -> cpu_wf live moving (upd_tcb s task f).
Proof.
  intros W [K1 K2 K3 K4 K5 K6].
  assert (forall t, t_on_cpu (tcb (upd_tcb s task f) t) = t_on_cpu (tcb s t) /\
    t_ready_queue_hart (tcb (upd_tcb s task f) t) = t_ready_queue_hart (tcb s t) /\
    t_status (tcb (upd_tcb s task f) t) = t_status (tcb s t) /\
    t_affinity (tcb (upd_tcb s task f) t) = t_affinity (tcb s t)) as Ht.
  { intros t. destruct (decide (task = t)) as [->|Hne]; [rewrite tcb_upd_same; auto|by rewrite tcb_upd_other]. }
  destruct W as [W1 W2 W3 W4 W5 W6 W7 Wp (W8 & W9 & W10)]. constructor.
  - apply upd_tcb_wf; auto.
  - intros h t Hh Hin. rewrite (proj1 (Ht t)). by apply W2.
  - intros t. rewrite (proj1 (Ht t)). apply W3.
  - done.
  - intros t. destruct (Ht t) as (-> & -> & _). apply W5.
  - intros t. destruct (Ht t) as (-> & _ & -> & _). apply W6.
  - intros t. destruct (Ht t) as (-> & -> & -> & _). apply W7.
  - intros h t Hh. destruct (Ht t) as (_ & _ & -> & _). by apply Wp.
  - split_and!; [done..|]. intros t. destruct (Ht t) as (_ & _ & _ & ->). apply W10.
Qed.

(** The state but for bandwidth, reschedule requests and interrupts sent. *)
Record same_sched (s s' : System) : Prop := {
  sc_tcbs : s_tcbs s' = s_tcbs s;
  sc_masks : s_active s' = s_active s /\ s_online s' = s_online s;
  sc_length : length (s_harts s') = length (s_harts s);
  sc_hart : forall h, Tcb.hart_ok h -> exists b r,
    hart s' h = (hart s h) {{ h_bandwidth := b; h_need_resched := r }}
}.

#[export] Instance same_sched_refl : Reflexive same_sched.
Proof.
  intros s. constructor; try done. intros h _.
  exists (h_bandwidth (hart s h)), (h_need_resched (hart s h)). by destruct (hart s h).
Qed.
#[export] Instance same_sched_trans : Transitive same_sched.
Proof.
  intros s1 s2 s3 [? [? ?] ? Ha] [? [? ?] ? Hb]. constructor; try (split; congruence); try congruence.
  intros h Hh. destruct (Ha h Hh) as (b1 & r1 & E1), (Hb h Hh) as (b2 & r2 & E2). exists b2, r2. by rewrite E2, E1.
Qed.

Lemma same_sched_wf live moving s s' : cpu_wf live moving s -> same_sched s s' -> cpu_wf live moving s'.
Proof.
  intros W [Ht [Ha Ho] Hl Hh]. assert (forall t, tcb s' t = tcb s t) as Hts by (intros; unfold tcb; by rewrite Ht).
  assert (forall h, Tcb.hart_ok h -> queued (hart s' h) = queued (hart s h) /\ held (hart s' h) = held (hart s h)) as Hq.
  { intros h Hok. by destruct (Hh h Hok) as (b & r & ->). }
  destruct W as [[A1 A2 A3 A4 A5 A6] W2 W3 W4 W5 W6 W7 Wp W8]. constructor; [constructor|..].
  - by rewrite Hl.
  - intros h Hok. destruct (Hh h Hok) as (b & r & ->). destruct (A2 h Hok). by constructor.
  - intros h t Hok. rewrite Hts, (proj1 (Hq h Hok)). by apply A3.
  - intros t. rewrite Hts. apply A4.
  - intros t. rewrite Hts. apply A5.
  - intros t. rewrite Hts. apply A6.
  - intros h t Hok. rewrite Hts, (proj2 (Hq h Hok)). by apply W2.
  - intros t. rewrite Hts. destruct (W3 t) as [?|(h & Hok & Hin)]; [by left|right]. exists h.
    by rewrite (proj2 (Hq h Hok)).
  - intros h Hok. rewrite (proj2 (Hq h Hok)). by apply W4.
  - intros t. rewrite Hts. apply W5.
  - intros t. rewrite Hts. apply W6.
  - intros t. rewrite Hts. apply W7.
  - intros h t Hok. rewrite Hts. destruct (Hh h Hok) as (b & r & ->). by apply Wp.
  - rewrite Ha, Ho. destruct W8 as (? & ? & ?). split_and!; try done. intros t. by rewrite Hts.
Qed.

Lemma upd_hart_same_sched s h f :
  (forall x, exists b r, f x = x {{ h_bandwidth := b; h_need_resched := r }}) ->
  length (s_harts s) = Z.to_nat MAX_HARTS -> Tcb.hart_ok h -> same_sched s (upd_hart s h f).
Proof.
  intros Hf Hl Hh. constructor; try done; [apply upd_hart_length|]. intros h' Hh'.
  destruct (decide (h = h')) as [<-|Hne]; [rewrite hart_upd_same by done; apply Hf|].
  rewrite hart_upd_other by done. exists (h_bandwidth (hart s h')), (h_need_resched (hart s h')). by destruct (hart s h').
Qed.

Lemma set_need_resched_same s h :
  length (s_harts s) = Z.to_nat MAX_HARTS -> Tcb.hart_ok h -> same_sched s (set_need_resched s h).
Proof. intros Hl Hh. apply upd_hart_same_sched; try done. intros x. exists (h_bandwidth x), true. by destruct x. Qed.

Lemma throttled_same_sched s h now :
  length (s_harts s) = Z.to_nat MAX_HARTS -> Tcb.hart_ok h -> same_sched s (rt_bandwidth_throttled s h now).2.
Proof.
  intros Hl Hh. unfold rt_bandwidth_throttled. destruct (refresh_rt_bandwidth _ _ _) as [thr b].
  apply upd_hart_same_sched; try done. intros x. exists b, (h_need_resched x). by destruct x.
Qed.

Lemma send_ipi_same s h : same_sched s (send_ipi s h).
Proof. constructor; try done. intros x _. exists (h_bandwidth (hart s x)), (h_need_resched (hart s x)). unfold send_ipi, hart. simpl. by destruct (s_harts s !!! _). Qed.

Lemma target_hart_same_sched s local task target now :
  length (s_harts s) = Z.to_nat MAX_HARTS -> 0 <= target ->
  same_sched s (wakeup_should_preempt_target_hart s local task target now).2.
Proof.
  intros Hl Ht. unfold wakeup_should_preempt_target_hart. destruct (MAX_HARTS <=? target) eqn:E; [done|].
  assert (forall b s1, same_sched s s1 ->
    same_sched s (if b : bool then (false, s1) else
      match current_task_on_hart s1 target with
      | None => (true, s1)
      | Some current => (wakeup_should_preempt_task s1 current task target now, s1)
      end).2) as Hcase.
  { intros b s1 Hs. destruct b; [done|]. by destruct (current_task_on_hart s1 target). }
  destruct (task_sched_class_and_priority (tcb s task)) as [[] p]; simpl fst; cbv iota.
  - by apply (Hcase false).
  - pose proof (throttled_same_sched s target now Hl ltac:(split; lia)) as Hs.
    destruct (rt_bandwidth_throttled s target now) as [thr s1]. by apply Hcase.
  - pose proof (throttled_same_sched s target now Hl ltac:(split; lia)) as Hs.
    destruct (rt_bandwidth_throttled s target now) as [thr s1]. by apply Hcase.
Qed.

Lemma request_reschedule_same s local task target now :
  length (s_harts s) = Z.to_nat MAX_HARTS -> 0 <= target ->
  same_sched s (request_reschedule_for_wakeup s local task target now).
Proof.
  intros Hl Ht. unfold request_reschedule_for_wakeup. destruct (MAX_HARTS <=? target) eqn:E; [done|].
  simpl. case_if; [done|].
  pose proof (target_hart_same_sched s local task target now Hl Ht) as Hs.
  destruct (wakeup_should_preempt_target_hart s local task target now) as [p s1]. simpl in Hs.
  destruct p; [|done]. simpl. assert (length (s_harts s1) = Z.to_nat MAX_HARTS) as Hl1 by (by rewrite (sc_length _ _ Hs)).
  pose proof (set_need_resched_same s1 target Hl1 ltac:(split; lia)) as Hs2. case_if.
  - etrans; [exact Hs|]. etrans; [exact Hs2|]. apply send_ipi_same.
  - by etrans.
Qed.

Lemma foldl_same_sched (f : System -> Z -> System) l s :
  (forall s h, length (s_harts s) = Z.to_nat MAX_HARTS -> h ∈ l -> same_sched s (f s h)) ->
  length (s_harts s) = Z.to_nat MAX_HARTS -> same_sched s (foldl f s l).
Proof.
  revert s. induction l as [|x l IH]; intros s Hf Hl; simpl; [done|].
  pose proof (Hf s x Hl ltac:(left)) as Hs. etrans; [exact Hs|]. apply IH.
  - intros s' h Hl' Hin. apply Hf; [done|by right].
  - by rewrite (sc_length _ _ Hs).
Qed.

Lemma flush_same s local b :
  length (s_harts s) = Z.to_nat MAX_HARTS -> same_sched s (flush s local b).
Proof.
  intros Hl. unfold flush.
  assert (same_sched s (request_reschedule_harts s local (resched_mask b))) as H1.
  { unfold request_reschedule_harts. set (m := Z.land _ _).
    assert (same_sched s (foldl (fun s h => if in_mask m h then set_need_resched s h else s) s harts)) as H0.
    { apply foldl_same_sched; [|done]. intros s' h Hl' Hin%elem_of_harts. case_if; [|done]. by apply set_need_resched_same. }
    etrans; [exact H0|]. apply foldl_same_sched; [|by rewrite (sc_length _ _ H0)].
    intros s' h Hl' _. case_if; [|done]. apply send_ipi_same. }
  etrans; [exact H1|]. apply foldl_same_sched; [|by rewrite (sc_length _ _ H1)].
  intros s' h Hl' _. case_if; [|done]. apply send_ipi_same.
Qed.

(** ** Queueing a task *)

Lemma small_upd_tcb s task f :
  sys_small s -> (let t := tcb s task in
    t_fair_vruntime_ns (f t) = t_fair_vruntime_ns t /\ t_cpu_time_ns (f t) = t_cpu_time_ns t) ->
  sys_small (upd_tcb s task f).
Proof.
  intros [H1 H2 H3 H4 H5] [E1 E2]. constructor; try done.
  - intros t. destruct (decide (task = t)) as [->|Hne]; [rewrite tcb_upd_same, E1|rewrite tcb_upd_other by done]; auto.
  - intros t. destruct (decide (task = t)) as [->|Hne]; [rewrite tcb_upd_same, E2|rewrite tcb_upd_other by done]; auto.
Qed.

Lemma small_lengths_fit s : sys_small s -> lengths_fit s.
Proof. intros Hs h Hh. rewrite rq_len_eq. pose proof (ss_len _ Hs h Hh). lia. Qed.

Lemma cpu_id_keeps h : keeps (fun t => t {{ t_cpu_id := h }}).
Proof. constructor; try done. intros t []; by constructor. Qed.

Lemma only_cpu_id_spec live moving s s' task :
  only_cpu_id s s' task -> cpu_wf live moving s -> sys_small s ->
  cpu_wf live moving s' /\ sys_small s' /\ (forall h, hart s' h = hart s h) /\
  s_active s' = s_active s /\ s_online s' = s_online s /\
  (forall t, t <> task -> tcb s' t = tcb s t) /\
  exists h, tcb s' task = (tcb s task) {{ t_cpu_id := h }}.
Proof.
  intros [->|(h & ->)] W Hs.
  - split_and!; try done. exists (t_cpu_id (tcb s task)). by destruct (tcb s task).
  - split_and!; try done.
    + apply keeps_wf; [done|apply cpu_id_keeps].
    + by apply small_upd_tcb.
    + intros t Hne. unfold set_cpu_id. by rewrite tcb_upd_other.
    + exists h. unfold set_cpu_id. by rewrite tcb_upd_same.
Qed.

(** [moving] may forget a task that is in a queue or blocked. *)
Lemma cpu_wf_settled live task s :
  cpu_wf live (Some task) s ->
  (t_on_cpu (tcb s task) = OFF_CPU -> t_ready_queue_hart (tcb s task) = OFF_CPU -> t_status (tcb s task) = StBlocked) ->
  cpu_wf live None s.
Proof.
  intros [W1 W2 W3 W4 W5 W6 W7 Wp W8] Hb. constructor; try done.
  intros t Hl _. destruct (decide (t = task)) as [->|Hne]; [done|]. apply W7; [done|congruence].
Qed.

Lemma cpu_wf_moving live task s : cpu_wf live None s -> cpu_wf live (Some task) s.
Proof. intros [W1 W2 W3 W4 W5 W6 W7 Wp W8]. constructor; try done. intros t Hl _. by apply W7. Qed.

Lemma held_proc s s' h :
  same_proc s s' h -> held (hart s' h) = held (hart s h).
Proof. intros (E1 & E2 & E3 & _). unfold held. by rewrite E1, E2, E3. Qed.

Lemma enqueued_wf live s s' h task :
  cpu_wf live (Some task) s -> Tcb.hart_ok h -> task ∈ live -> t_on_cpu (tcb s task) = OFF_CPU ->
  t_ready_queue_hart (tcb s task) = OFF_CPU -> hart_enqueued s s' h task -> cpu_wf live None s'.
Proof.
  intros W Hh Hlive Hoff Hq He. pose proof (hart_enqueued_wf s s' h task (cw_wf _ _ _ W) Hh Hq He) as W'.
  destruct He as [Hp Ht Ho Hw Hoh Hproc Hl].
  assert (forall h', Tcb.hart_ok h' -> held (hart s' h') = held (hart s h')) as Hheld.
  { intros h' Hok. destruct (decide (h' = h)) as [->|Hne]; [by apply held_proc|by rewrite Hoh]. }
  assert (forall t, t_on_cpu (tcb s' t) = t_on_cpu (tcb s t) /\ t_status (tcb s' t) = t_status (tcb s t)
            /\ t_affinity (tcb s' t) = t_affinity (tcb s t)) as Hts.
  { intros t. destruct (decide (t = task)) as [->|Hne]; [|by rewrite Ho].
    destruct (eq_same _ _ _ Ht) as (_ & _ & _ & _ & _ & Ea). by rewrite (eq_on_cpu _ _ _ Ht), (eq_status _ _ _ Ht). }
  destruct W as [W1 W2 W3 W4 W5 W6 W7 Wp (W8 & W9 & W10)]. pose proof Hproc as (_ & Epr & Epb & Ea & Eo).
  constructor; try done.
  - intros h' t Hok. rewrite Hheld by done. rewrite (proj1 (Hts t)). by apply W2.
  - intros t. rewrite (proj1 (Hts t)). destruct (W3 t) as [?|(h' & Hok & Hin)]; [by left|right].
    exists h'. by rewrite Hheld.
  - intros h' Hok. rewrite Hheld by done. by apply W4.
  - intros t Hne. rewrite (proj1 (Hts t)). destruct (decide (t = task)) as [->|Hd]; [done|].
    apply W5. by rewrite <- Ho.
  - intros t. destruct (Hts t) as (-> & -> & _). apply W6.
  - intros t Hl' _. destruct (Hts t) as (-> & -> & _). destruct (decide (t = task)) as [->|Hd].
    + rewrite (eq_hart _ _ _ Ht). intros _ E. by apply hart_ok_off in Hh.
    + rewrite Ho by done. apply W7; [done|congruence].
  - intros h' t Hok. destruct (Hts t) as (_ & -> & _). destruct (decide (h' = h)) as [->|Hne].
    + rewrite Epr, Epb. by apply Wp.
    + rewrite Hoh by done. by apply Wp.
  - rewrite Ea, Eo. split_and!; [done..|]. intros t. destruct (Hts t) as (_ & _ & ->). apply W10.
Qed.

(** Whatever way a task is queued, it ends in a run queue. *)
Lemma enqueue_wf live s local task kind sync now :
  cpu_wf live (Some task) s -> sys_small s -> Tcb.hart_ok local -> 0 <= now <= U64_MAX ->
  task ∈ live -> t_on_cpu (tcb s task) = OFF_CPU ->
  let '(r, s') := enqueue_task_with_wakeup_flags s local task kind sync now in
  cpu_wf live None s' /\ t_ready_queue_hart (tcb s' task) <> OFF_CPU /\
  t_status (tcb s' task) = t_status (tcb s task) /\
  (forall h e, r = Some (h, e) -> Tcb.hart_ok h).
Proof.
  intros W Hsm Hl Hn Hlive Hoff. unfold enqueue_task_with_wakeup_flags. rewrite (Z.mod_small local) by apply Hl.
  destruct (cw_masks _ _ _ W) as (Hact & Hon & Haff).
  destruct (online_hart_mask_spec s Hact Hon) as [Hm _]. pose proof (small_lengths_fit s Hsm) as Hfit.
  set (r := match kind with EnqWakeup => _ | _ => _ end).
  assert (resolved s task (online_hart_mask s) r) as (Hr1 & _ & Hr2).
  { unfold r. destruct kind; [by apply resolve_enqueue_hart_spec| |by apply resolve_enqueue_hart_spec].
    destruct sync as [h|]; [|by apply resolve_wakeup_hart_spec].
    unfold hart_in_range. case_if; [|by apply resolve_wakeup_hart_spec].
    apply resolve_sync_wakeup_hart_spec; try done. split; lia. }
  destruct r as [h s1]. simpl in Hr1, Hr2.
  destruct (only_cpu_id_spec _ _ _ _ _ Hr2 W Hsm) as (W1 & Hsm1 & Hh1 & _ & _ & Ho1 & (c & Ht1)).
  pose proof (add_spec s1 task h kind now (cw_wf _ _ _ W1) Hr1) as Hadd.
  destruct (add s1 task h kind now) as [q s2].
  specialize (Hadd (fun _ => small_room s1 (cw_wf _ _ _ W1) Hsm1 h Hr1 task kind now Hn)).
  assert (t_on_cpu (tcb s1 task) = OFF_CPU) as Hoff1 by (rewrite Ht1; exact Hoff).
  assert (t_status (tcb s1 task) = t_status (tcb s task)) as Hst1 by (by rewrite Ht1).
  destruct (t_ready_queue_hart (tcb s1 task) =? OFF_CPU) eqn:E.
  - apply Z.eqb_eq in E. destruct Hadd as [-> He]. split_and!.
    + by apply (enqueued_wf live s1 s2 h task).
    + rewrite (eq_hart _ _ _ (he_task _ _ _ _ He)). by apply hart_ok_off.
    + by rewrite (eq_status _ _ _ (he_task _ _ _ _ He)).
    + intros h' e [= <- _]. done.
  - destruct Hadd as [-> ->]. apply Z.eqb_neq in E. split_and!; try done.
    apply (cpu_wf_settled _ task); [done|]. by intros.
Qed.

(** ** Changes of one task *)

Record keeps_at (t t' : TCB) : Prop := {
  ka_off : t_on_cpu t' = OFF_CPU <-> t_on_cpu t = OFF_CPU;
  ka_word : forall h p, Tcb.hart_ok h -> t_on_cpu t = Tcb.word h p -> exists p', t_on_cpu t' = Tcb.word h p';
  ka_hart : t_ready_queue_hart t' = t_ready_queue_hart t;
  ka_flag : t_in_ready_queue t' = t_in_ready_queue t;
  ka_affinity : 0 <= t_affinity t -> 0 <= t_affinity t';
  ka_fields : fair_fields_ok t -> fair_fields_ok t'
}.

Lemma task_upd_wf live moving s task t' :
  cpu_wf live moving s -> keeps_at (tcb s task) t' ->
  (t_status t' = StRunning -> t_on_cpu t' <> OFF_CPU) ->
  (t_status t' = t_status (tcb s task) \/ t_status t' = StBlocked \/
   (moving = Some task /\ t_on_cpu (tcb s task) = OFF_CPU)) ->
  cpu_wf live moving (upd_tcb s task (fun _ => t')).
Proof.
  intros W [K1 K2 K3 K4 K5 K6] Hrun Hst. pose proof W as [W1 W2 W3 W4 W5 W6 W7 Wp (W8 & W9 & W10)].
  assert (forall t, t <> task -> tcb (upd_tcb s task (fun _ => t')) t = tcb s t) as Ho
    by (intros; by rewrite tcb_upd_other).
  assert (tcb (upd_tcb s task (fun _ => t')) task = t') as Ht by by rewrite tcb_upd_same.
  constructor; try done.
  - apply upd_tcb_wf; [done|]. by cbv zeta.
  - intros h t Hh Hin. destruct (W2 h t Hh Hin) as (Hl & p & Hp). split; [done|].
    destruct (decide (t = task)) as [->|Hne]; [rewrite Ht|rewrite Ho by done]; eauto.
  - intros t. destruct (decide (t = task)) as [->|Hne]; [rewrite Ht, K1|rewrite Ho by done]; apply W3.
  - intros t. destruct (decide (t = task)) as [->|Hne]; [rewrite Ht, K3, K1|rewrite Ho by done]; apply W5.
  - intros t. destruct (decide (t = task)) as [->|Hne]; [by rewrite Ht|rewrite Ho by done]; apply W6.
  - intros t Hl Hm. destruct (decide (t = task)) as [->|Hne]; [rewrite Ht, K3, K1|rewrite Ho by done]; [|by apply W7].
    intros E1 E2. destruct Hst as [->|[?|[-> _]]]; [by apply W7|done|done].
  - intros h t Hh. destruct (decide (t = task)) as [->|Hne]; [rewrite Ht|rewrite Ho by done; by apply Wp].
    destruct Hst as [->|[->|[_ Hoff]]]; [by apply Wp|done|].
    assert (task ∉ held (hart s h)) as Hnh by (intros Hin; by apply (held_on_cpu live moving s h task)).
    unfold held in Hnh. split; intros E; change (hart (upd_tcb s task _) h) with (hart s h) in E;
      rewrite E in Hnh; set_solver.
  - split_and!; [done..|]. intros t. destruct (decide (t = task)) as [->|Hne]; [rewrite Ht|rewrite Ho by done]; auto.
Qed.

(** The update leaves the word and the fair fields alone. *)
Lemma keeps_at_plain t t' :
  t_on_cpu t' = t_on_cpu t -> t_ready_queue_hart t' = t_ready_queue_hart t ->
  t_in_ready_queue t' = t_in_ready_queue t -> (0 <= t_affinity t -> 0 <= t_affinity t') ->
  (fair_fields_ok t -> fair_fields_ok t') -> keeps_at t t'.
Proof. intros E1 E2 E3 E4 E5. constructor; try done; [by rewrite E1|intros h p _; rewrite E1; eauto]. Qed.

Lemma defer_wf live s task sync :
  cpu_wf live None s ->
  let r := Tcb.defer_wakeup_if_on_cpu sync (tcb s task) in
  let s' := upd_tcb s task (fun _ => r.2) in
  cpu_wf live None s' /\ (sys_small s -> sys_small s') /\
  (r.1 = false <-> t_on_cpu (tcb s task) = OFF_CPU) /\
  t_status (tcb s' task) = t_status (tcb s task) /\ t_has_res (tcb s' task) = t_has_res (tcb s task) /\
  t_cgroup_frozen (tcb s' task) = t_cgroup_frozen (tcb s task) /\
  (t_on_cpu (tcb s' task) = OFF_CPU <-> t_on_cpu (tcb s task) = OFF_CPU) /\
  (r.1 = true -> Tcb.has_deferred_wakeup (tcb s' task) = true).
Proof.
  intros W r s'. set (t := tcb s task).
  assert (t_on_cpu t = OFF_CPU \/ exists h p, Tcb.hart_ok h /\ t_on_cpu t = Tcb.word h p) as Hcase.
  { destruct (cw_off _ _ _ W task) as [?|(h & Hh & Hin)]; [by left|right].
    destruct (cw_held _ _ _ W h task Hh Hin) as (_ & p & Hp). by exists h, p. }
  set (t0 := match sync with Some h => t {{ t_wakeup_sync_hart := h }} | None => t end).
  assert (r = (negb (t_on_cpu t =? OFF_CPU), t0 {{ t_on_cpu := Z.lor (t_on_cpu t) WAKE_PENDING_BIT }})) as Er.
  { unfold r, t0, Tcb.defer_wakeup_if_on_cpu. fold t. by destruct sync. }
  assert (tcb s' task = r.2) as Ht by apply tcb_upd_same.
  assert (t_on_cpu r.2 = OFF_CPU <-> t_on_cpu t = OFF_CPU) as Hoff.
  { rewrite Er. simpl. destruct Hcase as [->|(h & p & Hh & ->)]; [done|]. rewrite Tcb.word_defer by done.
    rewrite <- !Z.eqb_eq, !Tcb.word_not_off by done. done. }
  assert (keeps_at t r.2) as Hk.
  { constructor; try done.
    - intros h p Hh Hw. exists true. rewrite Er. simpl. by rewrite Hw, Tcb.word_defer.
    - rewrite Er. unfold t0. by destruct sync.
    - rewrite Er. unfold t0. by destruct sync.
    - rewrite Er. unfold t0. by destruct sync.
    - rewrite Er. unfold t0. intros []. destruct sync; by constructor. }
  assert (t_status r.2 = t_status t) as Est by (rewrite Er; unfold t0; by destruct sync).
  split_and!.
  - apply task_upd_wf; [done..| |by left]. rewrite Est, Hoff. apply (cw_running _ _ _ W).
  - intros Hs. apply small_upd_tcb; [done|]. cbv zeta. rewrite Er. unfold t0, t. by destruct sync.
  - rewrite Er. simpl. rewrite negb_false_iff. apply Z.eqb_eq.
  - by rewrite Ht.
  - rewrite Ht, Er. unfold t0. by destruct sync.
  - rewrite Ht, Er. unfold t0. by destruct sync.
  - by rewrite Ht.
  - rewrite Ht, Er. simpl. intros Hd. unfold Tcb.has_deferred_wakeup. simpl.
    destruct Hcase as [Ho|(h & p & Hh & Hw)]; [rewrite Ho in Hd; done|].
    rewrite Hw, Tcb.word_defer by done. by rewrite Tcb.word_not_off, Tcb.word_pending by done.
Qed.

(** ** Wakeups *)

(** A waiting task that a wakeup must make runnable. *)
Definition wakeable (t : TCB) : Prop :=
  t_has_res t = true /\ t_status t = StBlocked /\ t_cgroup_frozen t = false.

Section Step.

Context (live : gset Z) (local now : Z).
Context (Hlocal : Tcb.hart_ok local) (Hnow : 0 <= now <= U64_MAX).

Lemma note_same s b task h e allow :
  length (s_harts s) = Z.to_nat MAX_HARTS -> Tcb.hart_ok h ->
  same_sched s (if allow : bool then note_enqueued s b local task h e now
                else note_signal_enqueued s b local task h e now).1.
Proof.
  intros Hl [Hh _]. pose proof (target_hart_same_sched s local task h now Hl Hh) as Hs.
  unfold note_enqueued, note_signal_enqueued. destruct allow, (task_queue_slot (tcb s task));
    try done; by destruct (wakeup_should_preempt_target_hart s local task h now).
Qed.

Lemma wake_if_blocked_wf s task batch allow sync :
  cpu_wf live None s -> sys_small s -> task ∈ live -> t_on_cpu (tcb s task) = OFF_CPU ->
  let s' := (wake_if_blocked_inner s local task batch allow sync now).1 in
  cpu_wf live None s' /\
  (wakeable (tcb s task) -> t_status (tcb s' task) = StReady /\ t_ready_queue_hart (tcb s' task) <> OFF_CPU).
Proof.
  intros W Hsm Hlive Hoff. unfold wake_if_blocked_inner.
  destruct (t_has_res (tcb s task)) eqn:Eres; simpl negb; cbv iota.
  2: { split; [done|]. intros [E _]. congruence. }
  destruct (is_blocked (t_status (tcb s task))) eqn:Eb; simpl negb; cbv iota.
  2: { split; [done|]. intros (_ & E & _). unfold is_blocked in Eb. rewrite E in Eb. done. }
  destruct (t_cgroup_frozen (tcb s task)) eqn:Ef.
  { split; [|intros (_ & _ & E); congruence]. simpl. apply keeps_wf; [done|].
    constructor; try done. intros t []; by constructor. }
  set (f := fun t : TCB => t {{ t_status := StReady; t_parked_by_cgroup := false; t_wake_on_cgroup_thaw := false }}).
  assert (cpu_wf live (Some task) (upd_tcb s task f)) as W1.
  { apply (task_upd_wf live (Some task) s task (f (tcb s task))); [by apply cpu_wf_moving| |done|by right; right].
    apply keeps_at_plain; try done. intros []; by constructor. }
  assert (tcb (upd_tcb s task f) task = f (tcb s task)) as Et by apply tcb_upd_same.
  pose proof (enqueue_wf live (upd_tcb s task f) local task EnqWakeup sync now W1
    (small_upd_tcb s task f Hsm (conj eq_refl eq_refl)) Hlocal Hnow Hlive) as He.
  rewrite Et in He. specialize (He Hoff).
  destruct (enqueue_task_with_wakeup_flags (upd_tcb s task f) local task EnqWakeup sync now) as [r s2].
  destruct He as (W2 & Hq & Hst & Hr). change (t_status (f (tcb s task))) with StReady in Hst.
  destruct r as [[h e]|]; [|done]. rewrite (Z.mod_small local) by apply Hlocal.
  pose proof (note_same s2 batch task h e allow (sw_length _ (cw_wf _ _ _ W2)) (Hr h e eq_refl)) as Hs.
  set (s3 := (if allow then _ else _).1) in *. split; [by apply (same_sched_wf _ _ s2)|].
  intros _. unfold tcb. rewrite (sc_tcbs _ _ Hs). done.
Qed.

Lemma wakeup_inner_wf s task batch allow sync :
  cpu_wf live None s -> sys_small s -> task ∈ live ->
  let s' := (wakeup_task_with_batch_inner s local task batch allow sync now).1 in
  cpu_wf live None s' /\
  (t_on_cpu (tcb s task) = OFF_CPU -> wakeable (tcb s task) ->
     t_status (tcb s' task) = StReady /\ t_ready_queue_hart (tcb s' task) <> OFF_CPU) /\
  (t_on_cpu (tcb s task) <> OFF_CPU ->
     Tcb.has_deferred_wakeup (tcb s' task) = true /\ t_status (tcb s' task) = t_status (tcb s task)).
Proof.
  intros W Hsm Hlive. unfold wakeup_task_with_batch_inner.
  set (sync' := match sync with Some h => hart_in_range h | None => None end).
  destruct (defer_wf live s task sync' W) as (W1 & Hsm1 & Hd & Hst & Hres & Hfr & Hoff & Hdef).
  destruct (Tcb.defer_wakeup_if_on_cpu sync' (tcb s task)) as [d t] eqn:Ed. cbn [fst snd] in *.
  set (s1 := upd_tcb s task (fun _ => t)) in *.
  destruct d.
  - simpl. split_and!; [done| |].
    + intros Ho. apply Hd in Ho. done.
    + intros _. by split; [apply Hdef|].
  - assert (t_on_cpu (tcb s task) = OFF_CPU) as Ho by (by apply Hd). apply Hoff in Ho as Ho1.
    unfold take_pending_sync_hart.
    set (f := fun t : TCB => t {{ t_wakeup_sync_hart := OFF_CPU }}). set (s2 := upd_tcb s1 task f).
    set (eff := match sync' with Some h => Some h | None => _ end).
    assert (tcb s2 task = f (tcb s1 task)) as Et by apply tcb_upd_same.
    destruct (wake_if_blocked_wf s2 task batch allow eff) as [W3 Hw].
    + apply keeps_wf; [done|]. constructor; try done. intros x []; by constructor.
    + apply small_upd_tcb; [by apply Hsm1|done].
    + done.
    + by rewrite Et.
    + split_and!; [done| |by intros].
      intros _ (R1 & R2 & R3). apply Hw. unfold wakeable. rewrite Et.
      change (t_has_res (tcb s1 task) = true /\ t_status (tcb s1 task) = StBlocked /\ t_cgroup_frozen (tcb s1 task) = false).
      by rewrite Hres, Hst, Hfr.
Qed.

Lemma wakeup_flush_wf s task allow sync :
  cpu_wf live None s -> sys_small s -> task ∈ live ->
  let '(s1, b) := wakeup_task_with_batch_inner s local task batch_default allow sync now in
  let s' := flush s1 (local mod MAX_HARTS) b in
  cpu_wf live None s' /\
  (t_on_cpu (tcb s task) = OFF_CPU -> wakeable (tcb s task) ->
     t_status (tcb s' task) = StReady /\ t_ready_queue_hart (tcb s' task) <> OFF_CPU) /\
  (t_on_cpu (tcb s task) <> OFF_CPU ->
     Tcb.has_deferred_wakeup (tcb s' task) = true /\ t_status (tcb s' task) = t_status (tcb s task)).
Proof.
  intros W Hsm Hlive.
  pose proof (wakeup_inner_wf s task batch_default allow sync W Hsm Hlive) as Hin.
  destruct (wakeup_task_with_batch_inner s local task batch_default allow sync now) as [s1 b]. simpl in Hin.
  destruct Hin as (W1 & Hw). pose proof (flush_same s1 (local mod MAX_HARTS) b (sw_length _ (cw_wf _ _ _ W1))) as Hs.
  assert (tcb (flush s1 (local mod MAX_HARTS) b) task = tcb s1 task) as Et by (unfold tcb; by rewrite (sc_tcbs _ _ Hs)).
  cbv zeta. rewrite Et. split; [by apply (same_sched_wf _ _ s1)|exact Hw].
Qed.

End Step.
