(* ===== verification/SchedSteps.v ===== *)
(** * Scheduler histories

    The operations that move a task between a CPU, the pending slots of the
    idle loop and the run queues, each shown to keep [cpu_wf]; then the step
    relation of the whole scheduler, every step one operation of one hart, and
    what holds of every state it reaches. *)

From S2P Require Import Prelude.
From S2P Require Import BTree.
From S2P Require Import Sched.
From S2P Require Import TaskBlock.
From S2P Require Import FairGroup.
From S2P Require Import RunQueue.
From S2P Require Import RunQueueInv.
From S2P Require Import HartSelect.
From S2P Require Import Preempt.
From S2P Require Import Wakeup.
From S2P Require Import SchedInv.

(** ** What the invariant reads of a hart *)

Definition hart_view (h : Hart) : HartRunQueue * list Z * Z * list (option Z) :=
  (h_rq h, h_ready_rt h, h_ready_fair h, [h_current h; h_pending_ready h; h_pending_blocked h]).

Lemma view_queued h h' : hart_view h' = hart_view h -> queued h' = queued h /\ held h' = held h.
Proof. intros [= E1 E2 E3 E4 E5 E6]. unfold queued, rt_queued, held. by rewrite E1, E4, E5, E6. Qed.

Lemma view_hart_wf h h' :
  h_rq h' = h_rq h -> h_ready_rt h' = h_ready_rt h -> h_ready_fair h' = h_ready_fair h -> hart_wf h -> hart_wf h'.
Proof.
  intros E1 E2 E3 [A1 A2 A3 A4 A5]. constructor; try congruence. unfold queued, rt_queued in *. by rewrite E1.
Qed.

Lemma hart_upd_view s h h' f :
  length (s_harts s) = Z.to_nat MAX_HARTS -> Tcb.hart_ok h -> Tcb.hart_ok h' ->
  hart (upd_hart s h f) h' = if decide (h = h') then f (hart s h) else hart s h'.
Proof. intros Hl Hh Hh'. case_decide; subst; [by apply hart_upd_same|by apply hart_upd_other]. Qed.

Lemma upd_hart_ext s h f g : f (hart s h) = g (hart s h) -> upd_hart s h f = upd_hart s h g.
Proof.
  unfold upd_hart, hart. intros E. assert (alter f (Z.to_nat h) (s_harts s) = alter g (Z.to_nat h) (s_harts s)) as ->; [|done].
  apply list_alter_ext; [|done]. intros x Ex. by rewrite (list_lookup_total_correct _ _ _ Ex) in E.
Qed.

(** ** Switching out *)

(** [task] went from [h_current] of [local] to one of its pending slots. *)
Record handed_over (s s' : System) (local task : Z) (blocked : bool) : Prop := {
  ho_task : keeps_at (tcb s task) (tcb s' task) /\ t_on_cpu (tcb s' task) = t_on_cpu (tcb s task);
  ho_status : if blocked then t_status (tcb s' task) = StBlocked else t_status (tcb s' task) = StReady;
  ho_others : forall t, t <> task -> tcb s' t = tcb s t;
  ho_hart : hart_view (hart s' local) =
    (h_rq (hart s local), h_ready_rt (hart s local), h_ready_fair (hart s local),
     [None; if blocked then h_pending_ready (hart s local) else Some task;
            if blocked then Some task else h_pending_blocked (hart s local)]);
  ho_harts : forall h, Tcb.hart_ok h -> h <> local -> hart_view (hart s' h) = hart_view (hart s h);
  ho_masks : s_active s' = s_active s /\ s_online s' = s_online s;
  ho_length : length (s_harts s') = length (s_harts s)
}.

Lemma handed_over_sys_wf s s' local task blocked :
  sys_wf s -> Tcb.hart_ok local -> handed_over s s' local task blocked -> sys_wf s'.
Proof.
  intros [A1 A2 A3 A4 A5 A6] Hloc [[K _] _ Ho Hh Hhs _ Hl].
  assert (forall h, Tcb.hart_ok h -> h_rq (hart s' h) = h_rq (hart s h) /\
    h_ready_rt (hart s' h) = h_ready_rt (hart s h) /\ h_ready_fair (hart s' h) = h_ready_fair (hart s h)) as Hrq.
  { intros h Hok. destruct (decide (h = local)) as [->|Hne].
    - by injection Hh as ? ? ?.
    - by injection (Hhs h Hok Hne) as ? ? ?. }
  assert (forall t, t_ready_queue_hart (tcb s' t) = t_ready_queue_hart (tcb s t) /\
    t_in_ready_queue (tcb s' t) = t_in_ready_queue (tcb s t) /\ fair_fields_ok (tcb s' t)) as Ht.
  { intros t. destruct (decide (t = task)) as [->|Hne]; [|by rewrite Ho].
    split_and!; [apply K|apply K|apply (ka_fields _ _ K), A6]. }
  constructor.
  - by rewrite Hl.
  - intros h Hok. destruct (Hrq h Hok) as (? & ? & ?). apply (view_hart_wf (hart s h)); auto.
  - intros h t Hok. rewrite (proj1 (Ht t)). unfold queued, rt_queued. rewrite (proj1 (Hrq h Hok)). by apply A3.
  - intros t. rewrite (proj1 (Ht t)). apply A4.
  - intros t. destruct (Ht t) as (-> & -> & _). apply A5.
  - intros t. apply Ht.
Qed.

Lemma held_current live s local task :
  cpu_wf live None s -> Tcb.hart_ok local -> h_current (hart s local) = Some task ->
  h_pending_ready (hart s local) = None /\ h_pending_blocked (hart s local) = None.
Proof.
  intros W Hh E. pose proof (cw_one _ _ _ W local Hh) as Hl. unfold held in Hl. rewrite E in Hl.
  destruct (h_pending_ready (hart s local)), (h_pending_blocked (hart s local)); simpl in Hl; (done || lia).
Qed.

Lemma handed_over_wf live s s' local task blocked :
  cpu_wf live None s -> Tcb.hart_ok local -> h_current (hart s local) = Some task ->
  handed_over s s' local task blocked -> cpu_wf live None s'.
Proof.
  intros W Hloc Hcur H. pose proof (handed_over_sys_wf _ _ _ _ _ (cw_wf _ _ _ W) Hloc H) as W'.
  destruct (held_current _ _ _ _ W Hloc Hcur) as [Epr Epb].
  assert (task ∈ held (hart s local)) as Htask by (unfold held; rewrite Hcur; left).
  pose proof (held_on_cpu _ _ _ _ _ W Hloc Htask) as Hon.
  destruct W as [W1 W2 W3 W4 W5 W6 W7 Wp (W8 & W9 & W10)]. destruct H as [[K E] Hst Ho Hh Hhs [Ea Eo] Hl].
  rewrite Epr, Epb in Hh. injection Hh as _ _ _ Hc1 Hc2 Hc3.
  assert (forall h, Tcb.hart_ok h -> held (hart s' h) = held (hart s h)) as Hheld.
  { intros h Hok. destruct (decide (h = local)) as [->|Hne]; [|by apply view_queued, Hhs].
    unfold held. rewrite Hc1, Hc2, Hc3, Hcur, Epr, Epb. by destruct blocked. }
  assert (forall t, t_on_cpu (tcb s' t) = t_on_cpu (tcb s t) /\
            t_ready_queue_hart (tcb s' t) = t_ready_queue_hart (tcb s t)) as Hts.
  { intros t. destruct (decide (t = task)) as [->|Hne]; [split; [done|apply K]|by rewrite Ho]. }
  constructor; try done.
  - intros h t Hok. rewrite Hheld, (proj1 (Hts t)) by done. by apply W2.
  - intros t. rewrite (proj1 (Hts t)). destruct (W3 t) as [?|(h & Hok & Hin)]; [by left|right].
    exists h. by rewrite Hheld.
  - intros h Hok. rewrite Hheld by done. by apply W4.
  - intros t. destruct (Hts t) as (-> & ->). apply W5.
  - intros t. rewrite (proj1 (Hts t)). destruct (decide (t = task)) as [->|Hne]; [done|]. rewrite Ho by done. apply W6.
  - intros t Hl' _. destruct (Hts t) as (-> & ->). destruct (decide (t = task)) as [->|Hne]; [done|].
    rewrite Ho by done. by apply W7.
  - intros h t Hok. destruct (decide (h = local)) as [->|Hne].
    + rewrite Hc2, Hc3. destruct blocked; (split; [|]); intros [= <-]; [done|]. by rewrite Hst.
    + injection (Hhs h Hok Hne) as _ _ _ _ -> ->.
      destruct (decide (t = task)) as [->|Hd]; [|rewrite Ho by done; by apply Wp].
      assert (task ∉ held (hart s h)) as Hn.
      { intros Hin. destruct (W2 h task Hok Hin) as (_ & p & E1), (W2 local task Hloc Htask) as (_ & p' & E2).
        rewrite E1 in E2. by apply Tcb.word_inj in E2 as [? _]. }
      unfold held in Hn. split; intros E'; rewrite E' in Hn; set_solver.
  - rewrite Ea, Eo. split_and!; [done..|]. intros t.
    destruct (decide (t = task)) as [->|Hne]; [by apply (ka_affinity _ _ K)|by rewrite Ho].
Qed.

(** Charging run time changes the task's clock and the bandwidth account. *)
Lemma charge_view s local task now :
  length (s_harts s) = Z.to_nat MAX_HARTS -> Tcb.hart_ok local ->
  let s' := charge_task_runtime_for_scheduler s local task now in
  tcb s' task = (Tcb.account_runtime_until now (tcb s task)).2 /\
  (forall t, t <> task -> tcb s' t = tcb s t) /\
  (forall h, Tcb.hart_ok h -> hart_view (hart s' h) = hart_view (hart s h)) /\
  (s_active s' = s_active s /\ s_online s' = s_online s) /\ length (s_harts s') = length (s_harts s).
Proof.
  intros Hl Hh. unfold charge_task_runtime_for_scheduler.
  destruct (Tcb.account_runtime_until now (tcb s task)) as [d t].
  assert (tcb (upd_tcb s task (fun _ => t)) task = t) as E by by rewrite tcb_upd_same.
  assert (forall x, x <> task -> tcb (upd_tcb s task (fun _ => t)) x = tcb s x) as E'
    by (intros; by rewrite tcb_upd_other).
  destruct (is_rt_class (t_policy (tcb s task))); simpl; [|done].
  split_and!; try done; [|apply length_alter]. intros h Hok. rewrite hart_upd_view by done. by case_decide; subst.
Qed.

Lemma account_keeps now t : keeps_at t (Tcb.account_runtime_until now t).2.
Proof.
  unfold Tcb.account_runtime_until. simpl. destruct (0 <? _) eqn:E; apply keeps_at_plain; try done.
  apply Z.ltb_lt in E. intros []. constructor; simpl; try done. unfold sat_add, sat_sub in *. lia.
Qed.

Lemma keeps_at_trans t1 t2 t3 : keeps_at t1 t2 -> keeps_at t2 t3 -> keeps_at t1 t3.
Proof.
  intros [A1 A2 A3 A4 A5 A6] [B1 B2 B3 B4 B5 B6]. constructor; [by rewrite B1| |congruence|congruence|auto|auto].
  intros h p Hh E. destruct (A2 h p Hh E) as (p' & E'). by apply (B2 h p').
Qed.

Lemma account_same now t :
  t_on_cpu (Tcb.account_runtime_until now t).2 = t_on_cpu t /\
  t_status (Tcb.account_runtime_until now t).2 = t_status t.
Proof. unfold Tcb.account_runtime_until. simpl. by destruct (0 <? _). Qed.

(** The common end of both ways of giving the CPU up: [s3] is the state after
    the run time is charged and the task's fields are updated. *)
Lemma switch_out s local task now s3 (blocked : bool) :
  let s1 := charge_task_runtime_for_scheduler (upd_hart s local (fun h => h {{ h_current := None }})) local task now in
  length (s_harts s) = Z.to_nat MAX_HARTS -> Tcb.hart_ok local ->
  s_harts s3 = s_harts s1 -> s_active s3 = s_active s1 /\ s_online s3 = s_online s1 ->
  (forall t, t <> task -> tcb s3 t = tcb s1 t) ->
  keeps_at (tcb s1 task) (tcb s3 task) -> t_on_cpu (tcb s3 task) = t_on_cpu (tcb s1 task) ->
  t_status (tcb s3 task) = (if blocked then StBlocked else StReady) ->
  handed_over s (upd_hart s3 local (fun h =>
    if blocked then h {{ h_pending_blocked := Some task }} else h {{ h_pending_ready := Some task }})) local task blocked.
Proof.
  intros s1 Hl Hh E1 [E2 E3] E4 E5 E6 E7. set (s0 := upd_hart s local _) in s1.
  assert (length (s_harts s0) = Z.to_nat MAX_HARTS) as Hl0 by (unfold s0; by rewrite upd_hart_length).
  destruct (charge_view s0 local task now Hl0 Hh) as (Et & Eo & Eh & [Ea Eon] & El). fold s1 in Et, Eo, Eh, Ea, Eon, El.
  assert (forall h, hart s3 h = hart s1 h) as Eh3 by (intros; unfold hart; by rewrite E1).
  assert (length (s_harts s3) = Z.to_nat MAX_HARTS) as Hl3 by congruence.
  change (tcb s0 task) with (tcb s task) in Et.
  constructor.
  - change (tcb (upd_hart s3 local _) task) with (tcb s3 task). split.
    + eapply keeps_at_trans; [|exact E5]. rewrite Et. apply account_keeps.
    + rewrite E6, Et. apply account_same.
  - change (tcb (upd_hart s3 local _) task) with (tcb s3 task). by destruct blocked.
  - intros t Hne. transitivity (tcb s3 t); [done|]. rewrite E4 by done. by apply Eo.
  - rewrite hart_upd_same, Eh3 by done. specialize (Eh local Hh). unfold s0 in Eh.
    rewrite hart_upd_same in Eh by done. injection Eh as H1 H2 H3 H4 H5 H6. unfold hart_view.
    destruct blocked; cbn [h_rq h_ready_rt h_ready_fair h_current h_pending_ready h_pending_blocked]; simpl;
      by rewrite H1, H2, H3, H4, ?H5, ?H6.
  - intros h Hok Hne. rewrite hart_upd_other, Eh3, Eh by done. unfold s0. by rewrite hart_upd_other.
  - simpl. by rewrite E2, E3, Ea, Eon.
  - rewrite upd_hart_length, E1, El. apply upd_hart_length.
Qed.

Lemma suspend_handed_over s local task now :
  length (s_harts s) = Z.to_nat MAX_HARTS -> Tcb.hart_ok local -> h_current (hart s local) = Some task ->
  handed_over s (suspend_current s local now) local task false.
Proof.
  intros Hl Hh Hc. unfold suspend_current, take_current_task. rewrite Hc.
  apply (switch_out s local task now _ false); try done; [by intros; rewrite tcb_upd_other|..]; rewrite tcb_upd_same;
    try done. apply keeps_at_plain; try done. intros []; by constructor.
Qed.

(** Recording the lag of a task going to sleep changes that field alone. *)
Lemma sleep_lag_view s local task now :
  let s' := record_fair_sleep_lag s local task now in
  s_harts s' = s_harts s /\ (s_active s' = s_active s /\ s_online s' = s_online s) /\
  (forall t, t <> task -> tcb s' t = tcb s t) /\
  exists v, (fair_fields_ok (tcb s task) -> 0 <= v) /\ tcb s' task = (tcb s task) {{ t_fair_vlag_ns := v }}.
Proof.
  unfold record_fair_sleep_lag. destruct (is_fair_task (tcb s task)); simpl negb; cbv iota.
  - destruct (fair_task_vruntime_deadline_at (tcb s task) now) as [v d].
    destruct (fair_group_id_and_shares (tcb s task)) as [gid sh].
    split_and!; try done; [by intros; rewrite tcb_upd_other|]. rewrite tcb_upd_same. eexists. split; [|reflexivity].
    intros _. unfold sat_sub. apply Z.min_glb; [lia|].
    pose proof (fair_entity_vslice_pos (t_nice (tcb s task)) EnqRequeue).
    unfold fair_lag_limit_ns, sat_add128, tick_period_ns, TICKS_PER_SEC. lia.
  - split_and!; try done. exists (t_fair_vlag_ns (tcb s task)). split; [by intros []|]. by destruct (tcb s task).
Qed.

Lemma block_handed_over s local task now :
  length (s_harts s) = Z.to_nat MAX_HARTS -> Tcb.hart_ok local -> h_current (hart s local) = Some task ->
  handed_over s (block_current s local now) local task (negb (is_ready (t_status (tcb s task)))).
Proof.
  intros Hl Hh Hc. unfold block_current, take_current_task. rewrite Hc.
  set (s0 := upd_hart s local _). set (s1 := charge_task_runtime_for_scheduler s0 local task now).
  assert (length (s_harts s0) = Z.to_nat MAX_HARTS) as Hl0 by (unfold s0; by rewrite upd_hart_length).
  destruct (charge_view s0 local task now Hl0 Hh) as (Et & _). fold s1 in Et.
  assert (t_status (tcb s1 task) = t_status (tcb s task)) as Est by (rewrite Et; apply account_same).
  rewrite Est. destruct (is_ready (t_status (tcb s task))) eqn:Er; simpl negb; cbv iota zeta.
  - apply (switch_out s local task now _ false); try done; [by intros; unfold set_rr_ticks; rewrite tcb_upd_other|..];
      unfold set_rr_ticks; rewrite tcb_upd_same; fold s0 s1; try done.
    + apply keeps_at_plain; try done. intros []; by constructor.
    + simpl. rewrite Est. unfold is_ready in Er. by destruct (t_status (tcb s task)).
  - set (s2 := set_rr_ticks _ task 0).
    assert (tcb s2 task = (tcb s1 task) {{ t_status := StBlocked; t_rr_ticks := 0 }}) as E2.
    { unfold s2, set_rr_ticks. by rewrite !tcb_upd_same. }
    assert (forall t, t <> task -> tcb s2 t = tcb s1 t) as Eo2 by (intros; unfold s2, set_rr_ticks; by rewrite !tcb_upd_other).
    destruct (sleep_lag_view s2 local task now) as (L1 & [L2 L3] & L4 & v & L5 & L6).
    apply (switch_out s local task now (record_fair_sleep_lag s2 local task now) true); try done.
    + intros t Hne. rewrite L4 by done. by apply Eo2.
    + fold s0 s1. rewrite L6, E2. apply keeps_at_plain; try done. intros [F1 F2 F3 F4 F5]. constructor; try done.
      apply L5. rewrite E2. by constructor.
    + by rewrite L6, E2.
    + by rewrite L6, E2.
Qed.

(** ** Leaving the CPU *)

Lemma upd_hart_sys_wf s h f :
  sys_wf s -> Tcb.hart_ok h ->
  (let x := hart s h in h_rq (f x) = h_rq x /\ h_ready_rt (f x) = h_ready_rt x /\ h_ready_fair (f x) = h_ready_fair x) ->
  sys_wf (upd_hart s h f).
Proof.
  intros [A1 A2 A3 A4 A5 A6] Hh (E1 & E2 & E3). constructor; try done; [by rewrite upd_hart_length| |].
  - intros h' Hok. rewrite hart_upd_view by done. case_decide; [|auto].
    apply (view_hart_wf (hart s h)); auto.
  - intros h' t Hok. rewrite hart_upd_view by done. case_decide; [subst h'|by apply A3].
    unfold queued, rt_queued. rewrite E1. by apply A3.
Qed.

(** The idle loop empties the slot that holds [task] and clears its word. *)
Definition release (s : System) (local task : Z) : System :=
  upd_tcb (upd_hart s local (fun h => h {{ h_pending_ready := None; h_pending_blocked := None }}))
    task (fun t => (Tcb.finish_running t).2).

Lemma release_wf live s local task :
  cpu_wf live None s -> Tcb.hart_ok local -> task ∈ held (hart s local) -> h_current (hart s local) = None ->
  t_status (tcb s task) <> StRunning ->
  let s' := release s local task in
  cpu_wf live (Some task) s' /\ task ∈ live /\ t_on_cpu (tcb s' task) = OFF_CPU.
Proof.
  intros W Hloc Hin Hcur Hst. pose proof (held_on_cpu _ _ _ _ _ W Hloc Hin) as Hon. unfold release.
  set (s1 := upd_hart s local _). set (s' := upd_tcb s1 task _).
  assert (tcb s' task = (Tcb.finish_running (tcb s task)).2) as Et by apply tcb_upd_same.
  assert (forall t, t <> task -> tcb s' t = tcb s t) as Eo by (intros; unfold s'; by rewrite tcb_upd_other).
  pose proof (sw_length _ (cw_wf _ _ _ W)) as Hl.
  assert (forall h, Tcb.hart_ok h -> hart s' h = if decide (local = h) then
      (hart s local) {{ h_pending_ready := None; h_pending_blocked := None }} else hart s h) as Eh
    by (intros; unfold s', s1; by apply hart_upd_view).
  assert (held (hart s' local) = []) as Hnone by (rewrite Eh, decide_True by done; unfold held; simpl; by rewrite Hcur).
  pose proof W as [W1 W2 W3 W4 W5 W6 W7 Wp (W8 & W9 & W10)].
  assert (forall h t, Tcb.hart_ok h -> t ∈ held (hart s' h) -> h <> local /\ t <> task /\ t ∈ held (hart s h)) as Hheld.
  { intros h t Hok Ht. destruct (decide (local = h)) as [<-|Hne]; [rewrite Hnone in Ht; set_solver|].
    rewrite Eh, decide_False in Ht by done. split_and!; [done| |done]. intros ->.
    by apply Hne, (held_unique live None s local h task). }
  split_and!; [constructor|by apply (W2 local)|by rewrite Et].
  - apply upd_tcb_wf; [apply upd_hart_sys_wf; [done..|by cbv zeta]|].
    change (tcb s1 task) with (tcb s task). split_and!; try done. intros []; by constructor.
  - intros h t Hok Ht. destruct (Hheld h t Hok Ht) as (_ & Hne & Ht'). rewrite Eo by done. by apply W2.
  - intros t. destruct (decide (t = task)) as [->|Hne]; [left; by rewrite Et|]. rewrite Eo by done.
    destruct (W3 t) as [?|(h & Hok & Ht)]; [by left|right]. exists h. split; [done|].
    rewrite Eh by done. case_decide as Hd; [|done]. subst h. exfalso.
    pose proof (W4 local Hloc) as H1. destruct (held (hart s local)) as [|x [|]]; simpl in H1; [set_solver| |lia]. set_solver.
  - intros h Hok. rewrite Eh by done. case_decide; [|by apply W4]. unfold held. simpl. rewrite Hcur. simpl. lia.
  - intros t. destruct (decide (t = task)) as [->|Hne]; [|rewrite Eo by done; apply W5].
    rewrite Et. simpl. split; [done|]. by apply (W2 local).
  - intros t. destruct (decide (t = task)) as [->|Hne]; [by rewrite Et|rewrite Eo by done; apply W6].
  - intros t Hlv Hm. assert (t <> task) as Hne by congruence. rewrite Eo by done. by apply W7.
  - intros h t Hok. destruct (decide (t = task)) as [->|Hne].
    + split; intros E; (destruct (Hheld h task Hok) as (_ & ? & _); [unfold held; rewrite E; set_solver|done]).
    + rewrite Eo by done. rewrite Eh by done. case_decide; [simpl; by split; intros|by apply Wp].
  - split_and!; [done..|]. intros t. destruct (decide (t = task)) as [->|Hne]; [rewrite Et; apply (W10 task)|by rewrite Eo].
Qed.

Lemma small_release s local task :
  sys_small s -> length (s_harts s) = Z.to_nat MAX_HARTS -> Tcb.hart_ok local -> sys_small (release s local task).
Proof.
  intros [H1 H2 H3 H4 H5] Hl Hh. apply small_upd_tcb; [|done].
  assert (forall h, Tcb.hart_ok h -> h_rq (hart (upd_hart s local (fun h =>
    h {{ h_pending_ready := None; h_pending_blocked := None }})) h) = h_rq (hart s h)) as E.
  { intros h Hok. rewrite hart_upd_view by done. case_decide; by subst. }
  constructor; try done.
  - intros h Hok. unfold queued, rt_queued. rewrite E by done. by apply H1.
  - intros h Hok. rewrite E by done. by apply H4.
  - intros h id g Hok. rewrite E by done. by apply H5.
Qed.

Section Idle.

Context (live : gset Z) (local now : Z).
Context (Hlocal : Tcb.hart_ok local) (Hnow : 0 <= now <= U64_MAX).

Lemma held_pending s :
  cpu_wf live None s ->
  (h_pending_blocked (hart s local) <> None -> h_current (hart s local) = None /\ h_pending_ready (hart s local) = None) /\
  (h_pending_ready (hart s local) <> None -> h_current (hart s local) = None /\ h_pending_blocked (hart s local) = None).
Proof.
  intros W. pose proof (cw_one _ _ _ W local Hlocal) as H. unfold held in H.
  destruct (h_current (hart s local)), (h_pending_ready (hart s local)), (h_pending_blocked (hart s local));
    simpl in H; split; (done || lia).
Qed.

(** Clearing the one occupied slot is [release]. *)
Lemma release_blocked s task :
  cpu_wf live None s -> h_pending_blocked (hart s local) = Some task ->
  upd_tcb (upd_hart s local (fun h => h {{ h_pending_blocked := None }})) task
    (fun _ => (Tcb.finish_running (tcb s task)).2) = release s local task.
Proof.
  intros W E. destruct (held_pending s W) as [H _]. destruct H as [_ H]; [by rewrite E|]. unfold release.
  replace (upd_hart s local (fun h => h {{ h_pending_ready := None; h_pending_blocked := None }}))
    with (upd_hart s local (fun h => h {{ h_pending_blocked := None }})); [done|].
  apply upd_hart_ext. destruct (hart s local). simpl in *. by subst.
Qed.

Lemma idle_pending_blocked_wf s :
  cpu_wf live None s -> sys_small s ->
  let s' := idle_pending_blocked s local now in
  cpu_wf live None s' /\
  (forall task, h_pending_blocked (hart s local) = Some task ->
     Tcb.has_deferred_wakeup (tcb s task) = true -> wakeable (tcb s task) ->
     t_status (tcb s' task) = StReady /\ t_ready_queue_hart (tcb s' task) <> OFF_CPU).
Proof.
  intros W Hsm. unfold idle_pending_blocked. destruct (h_pending_blocked (hart s local)) as [task|] eqn:Ep; [|done].
  change (tcb (upd_hart s local _) task) with (tcb s task).
  destruct (held_pending s W) as [H _]. destruct H as [Hc _]; [by rewrite Ep|].
  assert (t_status (tcb s task) = StBlocked) as Hst by (by apply (cw_pending _ _ _ W local task)).
  pose proof (release_blocked s task W Ep) as Er.
  destruct (release_wf live s local task W Hlocal) as (W1 & Hlive & Hoff); [unfold held; rewrite Ep; set_solver|done|congruence|].
  pose proof (small_release s local task Hsm (sw_length _ (cw_wf _ _ _ W)) Hlocal) as Hsm1.
  assert (tcb (release s local task) task = (Tcb.finish_running (tcb s task)).2) as Et by apply tcb_upd_same.
  assert (t_status (tcb (release s local task) task) = StBlocked) as Hst1 by (rewrite Et; exact Hst).
  apply cpu_wf_settled in W1; [|done].
  assert (Tcb.has_deferred_wakeup (tcb s task) = false \/ (Tcb.finish_running (tcb s task)).1 <> PwNone) as Hdef.
  { unfold Tcb.has_deferred_wakeup, Tcb.finish_running. simpl.
    destruct (t_on_cpu (tcb s task) =? OFF_CPU), (Z.land _ _ =? 0); simpl; auto. right. by case_if. }
  destruct (Tcb.finish_running (tcb s task)) as [pw t]. cbn [fst snd] in *. rewrite Er. clear Er.
  pose proof (fun sync => wakeup_flush_wf live local now Hlocal Hnow (release s local task) task true sync W1 Hsm1 Hlive) as Hw.
  assert (wakeable (tcb s task) -> wakeable (tcb (release s local task) task)) as Hwk
    by (unfold release; rewrite tcb_upd_same; exact id).
  assert (forall sync s', (let (s1, b) := wakeup_task_with_batch_inner (release s local task) local task batch_default true sync now in
             flush s1 (local mod MAX_HARTS) b) = s' ->
     cpu_wf live None s' /\ (forall task0, Some task = Some task0 -> Tcb.has_deferred_wakeup (tcb s task0) = true ->
       wakeable (tcb s task0) -> t_status (tcb s' task0) = StReady /\ t_ready_queue_hart (tcb s' task0) <> OFF_CPU)) as Hgo.
  { intros sync s' <-. specialize (Hw sync). destruct (wakeup_task_with_batch_inner _ local task _ _ _ _) as [s1 b].
    destruct Hw as (H1 & H2 & _). split; [done|]. intros ? [= <-] _ Hwk'. by apply H2; [|apply Hwk]. }
  destruct pw as [| |h].
  - split; [done|]. intros ? [= <-] E. destruct Hdef; congruence.
  - by apply (Hgo None).
  - destruct (h <? MAX_HARTS); [by apply (Hgo (Some h))|by apply (Hgo None)].
Qed.

Lemma requeue_wf s task :
  cpu_wf live (Some task) s -> sys_small s -> task ∈ live -> t_on_cpu (tcb s task) = OFF_CPU ->
  cpu_wf live None (requeue_task s local task now).2.
Proof.
  intros W Hsm Hlive Hoff. unfold requeue_task, enqueue_task.
  pose proof (enqueue_wf live s local task EnqRequeue None now W Hsm Hlocal Hnow Hlive Hoff) as He.
  destruct (enqueue_task_with_wakeup_flags s local task EnqRequeue None now) as [r s2]. destruct He as (W2 & _).
  destruct r as [[h e]|]; [|done]. simpl.
  destruct (negb _ && e); [|done]. by eapply same_sched_wf; [|apply send_ipi_same].
Qed.

Lemma idle_pending_ready_wf s :
  cpu_wf live None s -> sys_small s -> cpu_wf live None (idle_pending_ready s local now).
Proof.
  intros W Hsm. unfold idle_pending_ready. destruct (h_pending_ready (hart s local)) as [task|] eqn:Ep; [|done].
  change (tcb (upd_hart s local _) task) with (tcb s task).
  destruct (held_pending s W) as [_ H]. destruct H as [Hc Hb]; [by rewrite Ep|].
  assert (t_status (tcb s task) <> StRunning) as Hst by (by apply (cw_pending _ _ _ W local task)).
  assert (upd_tcb (upd_hart s local (fun h => h {{ h_pending_ready := None }})) task
    (fun _ => (Tcb.finish_running (tcb s task)).2) = release s local task) as Er.
  { unfold release. rewrite (upd_hart_ext s local _ (fun h => h {{ h_pending_ready := None; h_pending_blocked := None }})); [done|].
    destruct (hart s local). simpl in *. by subst. }
  destruct (release_wf live s local task W Hlocal) as (W1 & Hlive & Hoff); [unfold held; rewrite Ep; set_solver|done..|].
  pose proof (small_release s local task Hsm (sw_length _ (cw_wf _ _ _ W)) Hlocal) as Hsm1.
  destruct (Tcb.finish_running (tcb s task)) as [pw t]. cbn [snd] in Er. rewrite Er. by apply requeue_wf.
Qed.

End Idle.

(** ** Dispatch *)

(** [s'] is [s1], the state after the fetch, with the fetched task current. *)
Record dispatched (s1 s' : System) (local : Z) (picked : option Z) : Prop := {
  di_others : forall t, picked <> Some t -> tcb s' t = tcb s1 t;
  di_task : forall t, picked = Some t -> keeps_at (tcb s1 t) (tcb s' t) /\ t_on_cpu (tcb s' t) = t_on_cpu (tcb s1 t);
  di_hart : forall h, Tcb.hart_ok h -> hart s' h =
    if decide (local = h) then
      match picked with Some t => (hart s1 h) {{ h_current := Some t }} | None => hart s1 h end
    else hart s1 h;
  di_masks : s_active s' = s_active s1 /\ s_online s' = s_online s1;
  di_length : length (s_harts s') = length (s_harts s1)
}.

Lemma dispatched_sys_wf s1 s' local picked : sys_wf s1 -> dispatched s1 s' local picked -> sys_wf s'.
Proof.
  intros [A1 A2 A3 A4 A5 A6] [Ho Ht Hh _ Hl].
  assert (forall h, Tcb.hart_ok h -> h_rq (hart s' h) = h_rq (hart s1 h) /\
    h_ready_rt (hart s' h) = h_ready_rt (hart s1 h) /\ h_ready_fair (hart s' h) = h_ready_fair (hart s1 h)) as Hrq.
  { intros h Hok. rewrite Hh by done. case_decide; [destruct picked|]; by subst. }
  assert (forall t, t_ready_queue_hart (tcb s' t) = t_ready_queue_hart (tcb s1 t) /\
    t_in_ready_queue (tcb s' t) = t_in_ready_queue (tcb s1 t) /\ fair_fields_ok (tcb s' t)) as Hts.
  { intros t. destruct (decide (picked = Some t)) as [E|Hne]; [|by rewrite Ho].
    destruct (Ht t E) as [K _]. split_and!; [apply K|apply K|apply (ka_fields _ _ K), A6]. }
  constructor.
  - by rewrite Hl.
  - intros h Hok. destruct (Hrq h Hok) as (? & ? & ?). apply (view_hart_wf (hart s1 h)); auto.
  - intros h t Hok. rewrite (proj1 (Hts t)). unfold queued, rt_queued. rewrite (proj1 (Hrq h Hok)). by apply A3.
  - intros t. rewrite (proj1 (Hts t)). apply A4.
  - intros t. destruct (Hts t) as (-> & -> & _). apply A5.
  - intros t. apply Hts.
Qed.

(** What the fetch did to each task: took it, or dropped it blocked, or nothing. *)
Lemma fetched_task live s s1 local ds picked t :
  cpu_wf live None s -> Tcb.hart_ok local -> hart_dequeued s s1 local ds picked ->
  t_affinity (tcb s1 t) = t_affinity (tcb s t) /\
  if decide (picked = Some t) then
    t_on_cpu (tcb s t) = OFF_CPU /\ t_on_cpu (tcb s1 t) = local /\ t_ready_queue_hart (tcb s1 t) = OFF_CPU /\
    t_status (tcb s1 t) = StReady /\ t ∈ live
  else t_on_cpu (tcb s1 t) = t_on_cpu (tcb s t) /\ t_status (tcb s1 t) = t_status (tcb s t) /\
    (t_ready_queue_hart (tcb s1 t) = t_ready_queue_hart (tcb s t) \/
     t_ready_queue_hart (tcb s1 t) = OFF_CPU /\ t_status (tcb s t) = StBlocked).
Proof.
  intros W Hh [Hp [Hd Hk Ho] _ _ _ _].
  assert (t ∈ queued (hart s local) -> t_on_cpu (tcb s t) = OFF_CPU /\ t ∈ live) as Hq.
  { intros Hin. apply (cw_queued _ _ _ W). apply (sw_queued _ (cw_wf _ _ _ W)) in Hin; [|done]. rewrite Hin. by apply hart_ok_off. }
  case_decide as E.
  - destruct (Hk t E) as [T Hr]. destruct Hq as [Hoff Hl]; [rewrite Hp, E; set_solver|].
    destruct (tb_same _ _ _ T) as (_ & _ & _ & _ & Ea). unfold tcb in *.
    rewrite (tb_on_cpu _ _ _ T), (tb_hart _ _ _ T), (tb_status _ _ _ T), Ea. split_and!; try done.
    unfold runnable in Hr. unfold is_ready in Hr. destruct (t_status (s_tcbs s !!! t)); done.
  - destruct (decide (t ∈ ds)) as [Hin|Hnd].
    2: { assert (tcb s1 t = tcb s t) as -> by (by apply Ho). split_and!; auto. }
    destruct (Hd t Hin) as [L Hr]. destruct Hq as [Hoff _]; [rewrite Hp; set_solver|].
    destruct (lq_same _ _ L) as (_ & _ & _ & _ & Ea). unfold tcb in *.
    rewrite (lq_on_cpu _ _ L), (lq_hart _ _ L), (lq_status _ _ L), Ea. split_and!; try done. right. split; [done|].
    unfold runnable in Hr. rewrite Hoff in Hr. pose proof (cw_running _ _ _ W t) as Hrun. unfold tcb in Hrun.
    unfold is_ready in Hr. destruct (t_status (s_tcbs s !!! t)); [done|by destruct Hrun|done].
Qed.

Lemma dispatched_wf live s s1 s' local ds picked :
  cpu_wf live None s -> Tcb.hart_ok local -> held (hart s local) = [] ->
  hart_dequeued s s1 local ds picked -> dispatched s1 s' local picked -> cpu_wf live None s'.
Proof.
  intros W Hloc Hnone Hdq Hdi.
  pose proof (dispatched_sys_wf _ _ _ _ (hart_dequeued_wf _ _ _ _ _ (cw_wf _ _ _ W) Hloc Hdq) Hdi) as W'.
  pose proof (fun t => fetched_task live s s1 local ds picked t W Hloc Hdq) as Hf.
  pose proof W as [W1 W2 W3 W4 W5 W6 W7 Wp (W8 & W9 & W10)].
  destruct Hdq as [_ _ _ Hoh (Ec & Er & Eb & Ea & Eo) _]. destruct Hdi as [Ho Ht Hh [Ea' Eo'] _].
  unfold held in Hnone. apply app_eq_nil in Hnone as [N1 [N2 N3]%app_eq_nil].
  assert (forall h, Tcb.hart_ok h -> held (hart s' h) = if decide (local = h) then option_list picked else held (hart s h)) as Hheld.
  { intros h Hok. rewrite Hh by done. case_decide as Hd; [subst h|by rewrite Hoh].
    unfold held. destruct picked; simpl; rewrite ?Ec, Er, Eb, ?N1, N2, N3; done. }
  assert (forall t, if decide (picked = Some t) then
      t_on_cpu (tcb s t) = OFF_CPU /\ t_on_cpu (tcb s' t) = local /\ t_ready_queue_hart (tcb s' t) = OFF_CPU /\ t ∈ live
    else t_on_cpu (tcb s' t) = t_on_cpu (tcb s t) /\ t_status (tcb s' t) = t_status (tcb s t) /\
      (t_ready_queue_hart (tcb s' t) = t_ready_queue_hart (tcb s t) \/
       t_ready_queue_hart (tcb s' t) = OFF_CPU /\ t_status (tcb s t) = StBlocked)) as Hts.
  { intros t. destruct (Hf t) as [_ H]. case_decide as E; [|by rewrite Ho].
    destruct (Ht t E) as [K Ek]. rewrite Ek, (ka_hart _ _ K). naive_solver. }
  assert (forall t, t_on_cpu (tcb s t) = OFF_CPU -> forall h, Tcb.hart_ok h -> t ∉ held (hart s h)) as Hoffh.
  { intros t Hoff h Hok Hin. by apply (held_on_cpu live None s h t). }
  constructor; try done.
  - intros h t Hok. rewrite Hheld by done. case_decide as Hd; [subst h|]; specialize (Hts t).
    + intros Hin. assert (picked = Some t) as E by (destruct picked; set_solver). rewrite decide_True in Hts by done. destruct Hts as (_ & -> & _ & ?). split; [done|].
      by exists false.
    + intros Hin. case_decide; [by destruct (Hoffh t (proj1 Hts) h)|]. rewrite (proj1 Hts). by apply W2.
  - intros t. specialize (Hts t). case_decide as E.
    + right. exists local. rewrite Hheld, decide_True, E by done. set_solver.
    + rewrite (proj1 Hts). destruct (W3 t) as [?|(h & Hok & Hin)]; [by left|right]. exists h. split; [done|].
      rewrite Hheld by done. case_decide; [|done]. subst h. unfold held in Hin. rewrite N1, N2, N3 in Hin. set_solver.
  - intros h Hok. rewrite Hheld by done. case_decide; [destruct picked; simpl; lia|by apply W4].
  - intros t Hq. specialize (Hts t). case_decide; [naive_solver|]. destruct Hts as (-> & _ & [E|[? _]]); [|done].
    apply W5. by rewrite <- E.
  - intros t. specialize (Hts t). case_decide; [|destruct Hts as (-> & -> & _); apply W6].
    destruct Hts as (_ & -> & _). intros _. by apply hart_ok_off.
  - intros t Hl Hm. specialize (Hts t). case_decide.
    + destruct Hts as (_ & -> & _). intros E. by apply hart_ok_off in Hloc.
    + destruct Hts as (-> & -> & [->|[_ ?]]); [by apply W7|done].
  - intros h t Hok. assert (h_pending_ready (hart s' h) = h_pending_ready (hart s h) /\
      h_pending_blocked (hart s' h) = h_pending_blocked (hart s h)) as [-> ->].
    { rewrite Hh by done. case_decide as Hd; [subst h; destruct picked; by simpl; rewrite Er, Eb|by rewrite Hoh]. }
    specialize (Hts t). case_decide; [|destruct Hts as (_ & -> & _); by apply Wp].
    specialize (Hoffh t (proj1 Hts) h Hok). unfold held in Hoffh. split; intros E; rewrite E in Hoffh; set_solver.
  - rewrite Ea', Eo', Ea, Eo. split_and!; [done..|]. intros t. destruct (Hf t) as [E _].
    destruct (decide (picked = Some t)) as [Ep|Hne]; [apply (ka_affinity _ _ (proj1 (Ht t Ep)))|rewrite Ho by done];
      rewrite E; apply W10.
Qed.

Lemma dispatch_wf live s local now :
  cpu_wf live None s -> Tcb.hart_ok local -> held (hart s local) = [] -> cpu_wf live None (dispatch s local now).
Proof.
  intros W Hh Hn. unfold dispatch. pose proof (fetch_spec s local now (cw_wf _ _ _ W) Hh) as Hf.
  destruct (fetch s local now) as [picked s1]. destruct Hf as [[ds Hdq] _].
  apply (dispatched_wf live s s1 _ local ds picked); [done..|].
  assert (length (s_harts s1) = Z.to_nat MAX_HARTS) as Hl
    by (rewrite (hd_length _ _ _ _ _ Hdq); apply (cw_wf _ _ _ W)).
  destruct picked as [task|].
  - set (s2 := upd_tcb _ task _). assert (tcb s2 task = (tcb s1 task) {{ t_runtime_start_ns := now; t_status := StRunning }}) as Et.
    { unfold s2. by rewrite !tcb_upd_same. }
    constructor; try done.
    + intros t Hne. change (tcb s2 t = tcb s1 t). unfold s2. rewrite !tcb_upd_other by congruence. done.
    + intros t [= <-]. change (keeps_at (tcb s1 task) (tcb s2 task) /\ t_on_cpu (tcb s2 task) = t_on_cpu (tcb s1 task)).
      rewrite Et. split; [|done]. apply keeps_at_plain; try done. intros []; by constructor.
    + intros h Hok. rewrite hart_upd_view by done. case_decide; by subst.
    + by rewrite upd_hart_length.
  - constructor; try done. intros h Hok. by case_decide.
Qed.

(** ** The remaining operations *)

Lemma same_view_wf live moving s s' :
  cpu_wf live moving s -> s_tcbs s' = s_tcbs s -> s_active s' = s_active s -> 0 <= s_online s' ->
  length (s_harts s') = length (s_harts s) ->
  (forall h, Tcb.hart_ok h -> hart_view (hart s' h) = hart_view (hart s h)) -> cpu_wf live moving s'.
Proof.
  intros [[A1 A2 A3 A4 A5 A6] W2 W3 W4 W5 W6 W7 Wp (W8 & W9 & W10)] Et Ea Eo El Eh.
  assert (forall t, tcb s' t = tcb s t) as Hts by (intros; unfold tcb; by rewrite Et).
  constructor; [constructor|..]; try (intros t; rewrite Hts; auto); try done; try congruence.
  - intros h Hok. injection (Eh h Hok) as E1 E2 E3 _ _ _. apply (view_hart_wf (hart s h)); auto.
  - intros h t Hok. rewrite Hts. destruct (view_queued _ _ (Eh h Hok)) as [-> _]. by apply A3.
  - intros h t Hok. rewrite Hts. destruct (view_queued _ _ (Eh h Hok)) as [_ ->]. by apply W2.
  - destruct (W3 t) as [?|(h & Hok & Hin)]; [by left|right]. exists h.
    by destruct (view_queued _ _ (Eh h Hok)) as [_ ->].
  - intros h Hok. destruct (view_queued _ _ (Eh h Hok)) as [_ ->]. by apply W4.
  - intros h t Hok. rewrite Hts. injection (Eh h Hok) as _ _ _ _ -> ->. by apply Wp.
  - rewrite Ea. split_and!; [done..|]. intros t. rewrite Hts. apply W10.
Qed.

(** A new task: nothing of the state mentions it yet. *)
Lemma fresh_wf live s task :
  cpu_wf live None s -> task ∉ live ->
  cpu_wf ({[task]} ∪ live) (Some task) s /\ t_on_cpu (tcb s task) = OFF_CPU.
Proof.
  intros [W1 W2 W3 W4 W5 W6 W7 Wp W8] Hn. split.
  - constructor; try done.
    + intros h t Hok Hin. destruct (W2 h t Hok Hin). set_solver.
    + intros t Hq. destruct (W5 t Hq). set_solver.
    + intros t Hl Hm. apply W7; [set_solver|done].
  - destruct (W3 task) as [?|(h & Hok & Hin)]; [done|]. by destruct (W2 h task Hok Hin).
Qed.

Lemma protect_keeps now : keeps (protect_fair_fork_parent now).
Proof.
  assert (forall t, protect_fair_fork_parent now t = t \/ exists v, protect_fair_fork_parent now t = t {{ t_fair_deadline_ns := v }}) as H.
  { intros t. unfold protect_fair_fork_parent. case_if; [by left|]. destruct (fair_task_vruntime_deadline_at t now).
    case_if; [right; by eexists|by left]. }
  constructor; intros t; destruct (H t) as [->|[v ->]]; try done. intros []; by constructor.
Qed.

Lemma small_protect s task now : sys_small s -> sys_small (upd_tcb s task (protect_fair_fork_parent now)).
Proof.
  intros Hs. apply small_upd_tcb; [done|]. cbv zeta. unfold protect_fair_fork_parent. case_if; [done|].
  destruct (fair_task_vruntime_deadline_at (tcb s task) now). by case_if.
Qed.

Lemma add_task_wf live s local task now :
  cpu_wf live None s -> sys_small s -> Tcb.hart_ok local -> 0 <= now <= U64_MAX -> task ∉ live ->
  let s' := (add_task s local task now).2 in
  cpu_wf ({[task]} ∪ live) None s' /\ t_ready_queue_hart (tcb s' task) <> OFF_CPU.
Proof.
  intros W Hsm Hh Hnow Hfresh. destruct (fresh_wf live s task W Hfresh) as [W0 Hoff]. unfold add_task, enqueue_task.
  set (s0 := match task_queue_slot (tcb s task) with SlotFair => _ | _ => s end).
  assert (cpu_wf ({[task]} ∪ live) (Some task) s0 /\ sys_small s0 /\ t_on_cpu (tcb s0 task) = OFF_CPU) as (W1 & Hsm1 & Hoff1).
  { unfold s0. destruct (task_queue_slot (tcb s task)); [done|]. destruct (h_current (hart s local)) as [parent|] eqn:Ec; [|done].
    split_and!; [apply keeps_wf; [done|apply protect_keeps]|by apply small_protect|].
    assert (parent <> task) as Hne.
    { intros ->. apply (held_on_cpu _ _ _ local task W Hh); [|done]. unfold held. rewrite Ec. set_solver. }
    by rewrite tcb_upd_other. }
  pose proof (enqueue_wf _ s0 local task EnqInitial None now W1 Hsm1 Hh Hnow ltac:(set_solver) Hoff1) as He.
  destruct (enqueue_task_with_wakeup_flags s0 local task EnqInitial None now) as [r s2]. destruct He as (W2 & Hq & _ & Hr).
  destruct r as [[h e]|]; [|done]. pose proof (Hr h e eq_refl) as Hok. pose proof (sw_length _ (cw_wf _ _ _ W2)) as Hl.
  set (p := match task_queue_slot (tcb s2 task) with SlotRt _ => _ | _ => _ end).
  assert (same_sched s2 p.2) as Hp.
  { unfold p. destruct (task_queue_slot (tcb s2 task)); [|done]. apply target_hart_same_sched; [done|apply Hok]. }
  destruct p as [pre s3]. simpl in Hp |- *.
  assert (length (s_harts s3) = Z.to_nat MAX_HARTS) as Hl3 by (by rewrite (sc_length _ _ Hp)).
  match goal with |- cpu_wf _ _ ?S /\ _ => assert (same_sched s2 S) as HS end.
  { etrans; [exact Hp|]. destruct pre; [apply request_reschedule_same; [done|apply Hok]|].
    destruct (_ && e); [apply send_ipi_same|done]. }
  split; [by apply (same_sched_wf _ _ s2)|]. unfold tcb. by rewrite (sc_tcbs _ _ HS).
Qed.

Lemma remove_masks s task : s_active (remove s task).2 = s_active s /\ s_online (remove s task).2 = s_online s.
Proof. unfold remove. case_if; [|done]. by destruct (remove_from_hart _ _ _) as [r h]. Qed.

Lemma remove_wf live s task :
  cpu_wf live None s -> cpu_wf live (Some task) (remove s task).2.
Proof.
  intros W. pose proof (remove_spec s task (cw_wf _ _ _ W)) as Hr. destruct (remove_masks s task) as [Ea Eo].
  destruct (remove s task) as [r s1]. simpl in *. destruct Hr as (W' & _ & L & Ho & _ & Hp).
  assert (forall h, Tcb.hart_ok h -> held (hart s1 h) = held (hart s h)) as Hheld.
  { intros h Hok. destruct (Hp h Hok) as (E1 & E2 & E3). unfold held. by rewrite E1, E2, E3. }
  assert (forall t, t_on_cpu (tcb s1 t) = t_on_cpu (tcb s t) /\ t_status (tcb s1 t) = t_status (tcb s t) /\
    t_affinity (tcb s1 t) = t_affinity (tcb s t)) as Hts.
  { intros t. destruct (decide (t = task)) as [->|Hne]; [|by rewrite Ho].
    destruct (lq_same _ _ L) as (_ & _ & _ & _ & ->). by rewrite (lq_on_cpu _ _ L), (lq_status _ _ L). }
  destruct W as [W1 W2 W3 W4 W5 W6 W7 Wp (W8 & W9 & W10)]. constructor; try done.
  - intros h t Hok. rewrite Hheld by done. rewrite (proj1 (Hts t)). by apply W2.
  - intros t. rewrite (proj1 (Hts t)). destruct (W3 t) as [?|(h & Hok & Hin)]; [by left|right]. exists h. by rewrite Hheld.
  - intros h Hok. rewrite Hheld by done. by apply W4.
  - intros t Hq. destruct (decide (t = task)) as [->|Hne]; [by rewrite (lq_hart _ _ L) in Hq|].
    rewrite Ho in * by done. by apply W5.
  - intros t. destruct (Hts t) as (-> & -> & _). apply W6.
  - intros t Hl Hm. assert (t <> task) as Hne by congruence. rewrite Ho by done. by apply W7.
  - intros h t Hok. destruct (Hp h Hok) as (_ & -> & ->), (Hts t) as (_ & -> & _). by apply Wp.
  - rewrite Ea, Eo. split_and!; [done..|]. intros t. destruct (Hts t) as (_ & _ & ->). apply W10.
Qed.

Lemma refresh_wf live s local task now :
  cpu_wf live None s -> sys_small (remove s task).2 -> Tcb.hart_ok local -> 0 <= now <= U64_MAX ->
  cpu_wf live None (refresh_task_runqueue s local task now).
Proof.
  intros W Hsm Hh Hnow. unfold refresh_task_runqueue.
  destruct (t_in_ready_queue (tcb s task)) eqn:Ef; [|done]. simpl negb. cbv iota.
  pose proof (sw_flag _ (cw_wf _ _ _ W) task) as Hf. rewrite Ef in Hf.
  assert (t_ready_queue_hart (tcb s task) <> OFF_CPU) as Hq by (intros E; rewrite E in Hf; done).
  destruct (cw_queued _ _ _ W task Hq) as [Hoff Hlive].
  pose proof (remove_spec s task (cw_wf _ _ _ W)) as Hr. pose proof (remove_wf live s task W) as W1.
  destruct (remove s task) as [r s1]. simpl in W1, Hsm. destruct Hr as (_ & -> & L & _).
  rewrite (proj2 (Z.eqb_neq _ _) Hq). simpl Z.eqb. cbv iota.
  assert (t_on_cpu (tcb s1 task) = OFF_CPU) as Hoff1 by (by rewrite (lq_on_cpu _ _ L)).
  pose proof (enqueue_wf live s1 local task EnqRequeue None now W1 Hsm Hh Hnow Hlive Hoff1) as He.
  unfold enqueue_task_with_wakeup_flags in He.
  destruct (resolve_enqueue_hart s1 task (local mod MAX_HARTS) (online_hart_mask s1) EnqRequeue) as [h s2].
  destruct (add s2 task h EnqRequeue now) as [q s3]. destruct He as (W3 & _ & _ & Hr).
  destruct q as [e|]; [|done]. apply (same_sched_wf _ _ s3); [done|].
  apply request_reschedule_same; [apply (cw_wf _ _ _ W3)|apply (Hr h e eq_refl)].
Qed.

Lemma set_rr_ticks_cpu_wf live s task v : cpu_wf live None s -> cpu_wf live None (set_rr_ticks s task v).
Proof. intros W. apply keeps_wf; [done|]. constructor; try done. intros t []; by constructor. Qed.

Lemma ready_above_same s h p now :
  length (s_harts s) = Z.to_nat MAX_HARTS -> Tcb.hart_ok h ->
  same_sched s (has_ready_rt_count_at_or_above s h p now).2 /\ same_sched s (has_ready_rt_count_higher_than s h p now).2.
Proof.
  intros Hl Hh. pose proof (throttled_same_sched s h now Hl Hh) as Hs.
  unfold has_ready_rt_count_at_or_above, has_ready_rt_count_higher_than.
  destruct (rt_bandwidth_throttled s h now) as [t s1]. simpl in Hs. split; repeat case_if; done.
Qed.

Lemma tick_wf live s local now :
  cpu_wf live None s -> Tcb.hart_ok local -> cpu_wf live None (should_preempt_current_on_tick s local now).2.
Proof.
  intros W Hh. unfold should_preempt_current_on_tick. destruct (h_current (hart s local)) as [task|]; [|done].
  assert (forall s1, cpu_wf live None s1 -> forall p, cpu_wf live None (has_ready_rt_count_at_or_above s1 local p now).2 /\
    cpu_wf live None (has_ready_rt_count_higher_than s1 local p now).2) as Hr.
  { intros s1 W1 p. destruct (ready_above_same s1 local p now (sw_length _ (cw_wf _ _ _ W1)) Hh).
    split; by apply (same_sched_wf _ _ s1). }
  assert (cpu_wf live None (rt_bandwidth_throttled s local now).2) as Ht.
  { apply (same_sched_wf _ _ s); [done|]. by apply throttled_same_sched; [apply (cw_wf _ _ _ W)|]. }
  assert (cpu_wf live None (let (rt_ready, s0) := has_ready_rt_count_at_or_above s local RT_PRIO_MIN now in
    if rt_ready then (true, s0) else if fair_current_deadline_expired s0 local task now
    then (true, set_rr_ticks s0 task 0) else (false, s0)).2) as Hfair.
  { destruct (Hr s W RT_PRIO_MIN) as [H1 _]. destruct (has_ready_rt_count_at_or_above s local RT_PRIO_MIN now) as [b s1].
    destruct b; [done|]. case_if; [by apply set_rr_ticks_cpu_wf|done]. }
  destruct (rt_bandwidth_throttled s local now) as [thr s1]. simpl in Ht.
  destruct (sched_class (t_policy (tcb s task))) as [[]|]; try done; (destruct thr; [done|]).
  - by apply Hr.
  - destruct (Hr s1 Ht (t_priority (tcb s task))) as [_ H2].
    destruct (has_ready_rt_count_higher_than s1 local (t_priority (tcb s task)) now) as [b s2]. destruct b; [done|].
    case_if; [by apply set_rr_ticks_cpu_wf|]. apply Hr. by do 2 apply set_rr_ticks_cpu_wf.
Qed.

(** Fields of a task that neither the queues nor the CPU word depend on. *)
Lemma flags_wf live moving s task t' :
  cpu_wf live moving s ->
  t_on_cpu t' = t_on_cpu (tcb s task) -> t_ready_queue_hart t' = t_ready_queue_hart (tcb s task) ->
  t_in_ready_queue t' = t_in_ready_queue (tcb s task) -> 0 <= t_affinity t' -> fair_fields_ok t' ->
  (t_status t' = t_status (tcb s task) \/ t_status t' = StBlocked) ->
  cpu_wf live moving (upd_tcb s task (fun _ => t')).
Proof.
  intros W E1 E2 E3 E4 E5 E6. apply task_upd_wf; [done|by apply keeps_at_plain| |by destruct E6; auto].
  destruct E6 as [->| ->]; [|done]. rewrite E1. apply (cw_running _ _ _ W).
Qed.

Lemma freezer_wf live s local task frozen is_current now :
  cpu_wf live None s -> sys_small s -> Tcb.hart_ok local -> 0 <= now <= U64_MAX -> task ∈ live ->
  cpu_wf live None (set_thread_freezer_state s local task frozen is_current now).2.
Proof.
  intros W Hsm Hh Hnow Hl. unfold set_thread_freezer_state.
  set (f := fun t : TCB => t {{ t_cgroup_frozen := true; t_wake_on_cgroup_thaw := false }}).
  set (s1 := if frozen then upd_tcb s task f else s).
  assert (cpu_wf live None s1 /\ sys_small s1) as [W1 Hsm1].
  { unfold s1. destruct frozen; [|done]. split; [|by apply small_upd_tcb]. apply keeps_wf; [done|].
    constructor; try done. intros t []; by constructor. }
  destruct (frozen && _).
  - apply (flags_wf _ _ _ _ _ W1); try done; [apply W1|destruct (sw_fields _ (cw_wf _ _ _ W1) task); by constructor|by right].
  - cbv zeta. set (g := fun t : TCB => t {{ t_cgroup_frozen := false; t_parked_by_cgroup := false; t_wake_on_cgroup_thaw := false }}).
    assert (cpu_wf live None (upd_tcb s1 task g)) as W2.
    { apply keeps_wf; [done|]. constructor; try done. intros t []; by constructor. }
    simpl. destruct (_ || _); [|done]. unfold wakeup_task.
    pose proof (wakeup_flush_wf live local now Hh Hnow (upd_tcb s1 task g) task true None W2
      (small_upd_tcb s1 task g Hsm1 (conj eq_refl eq_refl)) Hl) as Hw.
    destruct (wakeup_task_with_batch_inner _ _ _ _ _ _ _) as [s3 b]. apply Hw.
Qed.

(** ** Histories

    Each step is one operation of one hart.  [task_start] is [add_task] of a
    task that was not started yet; a batch of wakeups ([wakeup_tasks] and its
    variants) is [task_wake] once per task and one [wake_flush].  [task_set]
    stands for the writes other parts of the kernel make to a task: scheduling
    attributes, affinity, CPU accounting, and [Blocked] by a stop signal or a
    wait. *)
Record may_set (t t' : TCB) : Prop := {
  ms_on_cpu : t_on_cpu t' = t_on_cpu t;
  ms_hart : t_ready_queue_hart t' = t_ready_queue_hart t;
  ms_flag : t_in_ready_queue t' = t_in_ready_queue t;
  ms_affinity : 0 <= t_affinity t';
  ms_fields : fair_fields_ok t';
  ms_status : t_status t' = t_status t \/ t_status t' = StBlocked
}.

Inductive sched_step : gset Z * System -> gset Z * System -> Prop :=
| task_start live s local task now :
    Tcb.hart_ok local -> 0 <= now <= U64_MAX -> sys_small s -> task ∉ live ->
    sched_step (live, s) ({[task]} ∪ live, (add_task s local task now).2)
| task_wake live s local task batch allow sync now :
    Tcb.hart_ok local -> 0 <= now <= U64_MAX -> sys_small s -> task ∈ live ->
    sched_step (live, s) (live, (wakeup_task_with_batch_inner s local task batch allow sync now).1)
| wake_flush live s local batch : Tcb.hart_ok local -> sched_step (live, s) (live, flush s (local mod MAX_HARTS) batch)
| cpu_suspend live s local now : Tcb.hart_ok local -> sched_step (live, s) (live, suspend_current s local now)
| cpu_block live s local now : Tcb.hart_ok local -> sched_step (live, s) (live, block_current s local now)
| idle_blocked live s local now :
    Tcb.hart_ok local -> 0 <= now <= U64_MAX -> sys_small s ->
    sched_step (live, s) (live, idle_pending_blocked s local now)
| idle_ready live s local now :
    Tcb.hart_ok local -> 0 <= now <= U64_MAX -> sys_small s ->
    sched_step (live, s) (live, idle_pending_ready s local now)
| idle_dispatch live s local now :
    Tcb.hart_ok local -> held (hart s local) = [] -> sched_step (live, s) (live, dispatch s local now)
| task_refresh live s local task now :
    Tcb.hart_ok local -> 0 <= now <= U64_MAX -> sys_small (remove s task).2 ->
    sched_step (live, s) (live, refresh_task_runqueue s local task now)
| task_freeze live s local task frozen is_current now :
    Tcb.hart_ok local -> 0 <= now <= U64_MAX -> sys_small s -> task ∈ live ->
    sched_step (live, s) (live, (set_thread_freezer_state s local task frozen is_current now).2)
| task_set live s task t' : may_set (tcb s task) t' -> sched_step (live, s) (live, upd_tcb s task (fun _ => t'))
| hart_tick live s local now :
    Tcb.hart_ok local -> sched_step (live, s) (live, (should_preempt_current_on_tick s local now).2)
| hart_online live s hart_id : Tcb.hart_ok hart_id -> sched_step (live, s) (live, mark_hart_online s hart_id)
| hart_lock live s hart_id locked resched :
    Tcb.hart_ok hart_id ->
    sched_step (live, s) (live, upd_hart s hart_id (fun h => h {{ h_proc_locked := locked; h_need_resched := resched }}))
| sysctl_set live s c : sched_step (live, s) (live, s {{ s_sysctl := c }}).

(** The state at boot: nothing started, every queue empty. *)
Definition boot_hart : Hart := mkHart Rq.new (replicate RT_PRIO_LEVELS 0) 0 rt_bandwidth_init None None None false false.
Definition boot (active : Z) : System :=
  mkSys ∅ (replicate (Z.to_nat MAX_HARTS) boot_hart) sysctl_default 0 active 0 [].

Lemma switch_out_wf live s local now :
  cpu_wf live None s -> Tcb.hart_ok local ->
  cpu_wf live None (suspend_current s local now) /\ cpu_wf live None (block_current s local now).
Proof.
  intros W Hh. pose proof (sw_length _ (cw_wf _ _ _ W)) as Hl.
  destruct (h_current (hart s local)) as [task|] eqn:Ec.
  - split; [apply (handed_over_wf live s _ local task false)|eapply (handed_over_wf live s _ local task)]; try done;
      [by apply suspend_handed_over|by apply block_handed_over].
  - unfold suspend_current, block_current, take_current_task. rewrite Ec.
    assert (cpu_wf live None (upd_hart s local (fun h => h {{ h_current := None }}))) as W'; [|done].
    apply (same_view_wf live None s); try done; [apply W|by rewrite upd_hart_length|].
    intros h Hok. rewrite hart_upd_view by done. case_decide; [subst h|done]. unfold hart_view. simpl. by rewrite Ec.
Qed.

Lemma sched_step_wf c c' : sched_step c c' -> cpu_wf c.1 None c.2 -> cpu_wf c'.1 None c'.2.
Proof.
  intros H. destruct H; cbn [fst snd]; intros W.
  - by apply add_task_wf.
  - by apply wakeup_inner_wf.
  - eapply same_sched_wf; [done|]. apply flush_same. apply (cw_wf _ _ _ W).
  - by apply switch_out_wf.
  - by apply switch_out_wf.
  - by apply idle_pending_blocked_wf.
  - by apply idle_pending_ready_wf.
  - by apply dispatch_wf.
  - by apply refresh_wf.
  - by apply freezer_wf.
  - destruct H. by apply flags_wf.
  - by apply tick_wf.
  - unfold mark_hart_online. case_if; [|done]. apply (same_view_wf live None s); try done.
    simpl. apply Z.lor_nonneg. split; [apply W|]. rewrite wshl_1 by (unfold Tcb.hart_ok, MAX_HARTS in *; lia).
    apply Z.pow_nonneg. lia.
  - apply (same_view_wf live None s); try done; [apply W|by rewrite upd_hart_length|].
    intros h Hok. rewrite hart_upd_view; [|apply (cw_wf _ _ _ W)|done..]. by case_decide; subst.
  - apply (same_view_wf live None s); try done. apply W.
Qed.

Lemma boot_hart_eq active h : Tcb.hart_ok h -> hart (boot active) h = boot_hart.
Proof.
  intros Hh. unfold hart, boot. cbn [s_harts]. apply list_lookup_total_correct, lookup_replicate.
  unfold Tcb.hart_ok in Hh. split; [done|lia].
Qed.

Lemma boot_tcb active t : tcb (boot active) t = inhabitant.
Proof. exact (lookup_total_empty (M := gmap Z) t). Qed.

Lemma boot_hart_wf : hart_wf boot_hart.
Proof.
  constructor; try done; [|vm_compute; constructor].
  constructor; try done; try constructor.
  - intros H. by apply elem_of_nil in H.
  - by intros (_ & g & ? & _).
Qed.

Lemma boot_wf active : mask_ok active -> cpu_wf ∅ None (boot active).
Proof.
  intros Hm. pose proof (boot_tcb active) as Ht.
  constructor; [constructor|..]; try (intros t; rewrite Ht; auto); try done.
  - intros h Hh. rewrite boot_hart_eq by done. apply boot_hart_wf.
  - intros h t Hh. rewrite boot_hart_eq, Ht by done. change (queued boot_hart) with (@nil Z). split; [set_solver|].
    intros E. by apply hart_ok_off in Hh.
  - intros h t Hh. rewrite boot_hart_eq by done. simpl. set_solver.
  - intros h Hh. rewrite boot_hart_eq by done. simpl. lia.
  - intros h t Hh. by rewrite boot_hart_eq, Ht.
Qed.

Lemma boot_small active : sys_small (boot active).
Proof.
  pose proof (boot_tcb active) as Ht.
  constructor; try (intros t; rewrite Ht; done); intros h; intros; rewrite boot_hart_eq in * by done; done.
Qed.

Lemma reachable_wf active live s :
  mask_ok active -> rtc sched_step (∅ : gset Z, boot active) (live, s) -> cpu_wf live None s.
Proof.
  intros Hm H. pose proof (boot_wf active Hm) as W. change (cpu_wf (live, s).1 None (live, s).2).
  remember (∅ : gset Z, boot active) as c0 eqn:Ec. assert (cpu_wf c0.1 None c0.2) as W0 by (by rewrite Ec). clear Ec W.
  induction H as [|a b c Hab _ IH]; [done|]. by apply IH, (sched_step_wf a).
Qed.


(** A task is created on hart 0 and dispatched there. *)
Definition started : System := (add_task (boot 1) 0 5 0).2.
Definition running : System := dispatch started 0 0.

Lemma running_current : h_current (hart running 0) = Some 5.
Proof. vm_compute. reflexivity. Qed.

Lemma started_reachable : rtc sched_step (∅ : gset Z, boot 1) ({[5]} ∪ ∅, started).
Proof.
  apply rtc_once, task_start; [done|done|apply boot_small|apply not_elem_of_empty].
Qed.

Lemma running_reachable : rtc sched_step (∅ : gset Z, boot 1) ({[5]} ∪ ∅, running).
Proof.
  eapply rtc_r; [apply started_reachable|]. apply idle_dispatch; [done|]. vm_compute. reflexivity.
Qed.


Lemma queued_somewhere live s task :
  cpu_wf live None s -> t_ready_queue_hart (tcb s task) <> OFF_CPU ->
  exists h, Tcb.hart_ok h /\ task ∈ queued (hart s h).
Proof.
  intros W Hq. destruct (sw_place _ (cw_wf _ _ _ W) task) as [?|Hh]; [done|].
  exists (t_ready_queue_hart (tcb s task)). split; [done|]. by apply (sw_queued _ (cw_wf _ _ _ W)).
Qed.

(** Waking a blocked task of any reachable state makes it ready and puts it in
    the run queue of some hart; a task that a hart still has is marked instead,
    and keeps its status. *)
Theorem wakeup_task_effect active live s local task now :
  mask_ok active -> rtc sched_step (∅ : gset Z, boot active) (live, s) ->
  Tcb.hart_ok local -> 0 <= now <= U64_MAX -> sys_small s -> task ∈ live ->
  t_has_res (tcb s task) = true -> t_cgroup_frozen (tcb s task) = false ->
  let s' := wakeup_task s local task now in
  (Tcb.running_hart (tcb s task) = None -> t_status (tcb s task) = StBlocked ->
     t_status (tcb s' task) = StReady /\ exists h, Tcb.hart_ok h /\ task ∈ queued (hart s' h)) /\
  (is_Some (Tcb.running_hart (tcb s task)) ->
     Tcb.has_deferred_wakeup (tcb s' task) = true /\ t_status (tcb s' task) = t_status (tcb s task)).
Proof.
  intros Hm Hr Hh Hnow Hsm Hl Hres Hfz. pose proof (reachable_wf _ _ _ Hm Hr) as W.
  pose proof (wakeup_flush_wf live local now Hh Hnow s task true None W Hsm Hl) as Hw.
  cbv zeta. unfold wakeup_task. destruct (wakeup_task_with_batch_inner s local task batch_default true None now) as [s1 b].
  destruct Hw as (W1 & Hw1 & Hw2). unfold Tcb.running_hart.
  destruct (t_on_cpu (tcb s task) =? OFF_CPU) eqn:E; [apply Z.eqb_eq in E|apply Z.eqb_neq in E]; split.
  - intros _ Hst. destruct (Hw1 E) as [Hs Hq]; [done|]. split; [done|]. by apply (queued_somewhere live).
  - by intros [? ?].
  - done.
  - intros _. by apply Hw2.
Qed.
