(* ===== verification/SchedProps.v ===== *)
(** * What the scheduler promises its callers

    The behaviour of the run-queue operations and of the paths that cross
    several of them (a wakeup that meets a task going to sleep, the freezer),
    stated over the states of [SchedSteps]. *)

From S2P Require Import Prelude.
From S2P Require Import BTree.
From S2P Require Import Sched.
From S2P Require Import TaskBlock.
From S2P Require Import FairGroup.
From S2P Require Import RunQueue.
From S2P Require Import RunQueueInv.
From S2P Require Import HartSelect.
From S2P Require Import Preempt.
From S2P Require Import Wakeup.
From S2P Require Import SchedInv.
From S2P Require Import SchedSteps.


Lemma hart_0 : Tcb.hart_ok 0.
Proof. done. Qed.

Lemma started_wf : sys_wf started.
Proof. apply (reachable_wf 1 _ _ ltac:(done) started_reachable). Qed.
Lemma running_wf : sys_wf running.
Proof. apply (reachable_wf 1 _ _ ltac:(done) running_reachable). Qed.


(** Queueing a task puts it in the queue of that hart and in no other, once: a
    second attempt is refused and changes nothing.  [remove] finds it there and
    leaves every queue with the tasks it had before. *)
Theorem add_remove_roundtrip s task hart_id kind now kind' hart_id' now' :
  sys_wf s -> Tcb.hart_ok hart_id -> t_ready_queue_hart (tcb s task) = OFF_CPU ->
  add_room s task hart_id kind now ->
  let (r, s1) := add s task hart_id kind now in
  r = Some (bool_decide (queued (hart s hart_id) = [])) /\ sys_wf s1 /\
  queued (hart s1 hart_id) ≡ₚ task :: queued (hart s hart_id) /\
  (forall h, Tcb.hart_ok h -> h <> hart_id -> hart s1 h = hart s h) /\
  add s1 task hart_id' kind' now' = (None, s1) /\
  let (n, s2) := remove s1 task in
  n = 1 /\ sys_wf s2 /\ t_ready_queue_hart (tcb s2 task) = OFF_CPU /\
  forall h, Tcb.hart_ok h -> queued (hart s2 h) ≡ₚ queued (hart s h).
Proof.
  intros W Hh Hq Hroom. pose proof (add_spec s task hart_id kind now W Hh (fun _ => Hroom)) as Ha.
  destruct (add s task hart_id kind now) as [r s1]. rewrite Hq, Z.eqb_refl in Ha. destruct Ha as [-> He].
  pose proof (hart_enqueued_wf s s1 hart_id task W Hh Hq He) as W1.
  pose proof (eq_hart _ _ _ (he_task _ _ _ _ He)) as Hq1.
  split_and!; [done|done|apply He|intros h Hok Hne; by apply (he_others _ _ _ _ He)| |].
  { unfold add. rewrite Hq1. by rewrite (proj2 (Z.eqb_neq _ _) (hart_ok_off _ Hh)). }
  pose proof (remove_spec s1 task W1) as Hr. destruct (remove s1 task) as [n s2]. rewrite Hq1 in Hr.
  rewrite (proj2 (Z.eqb_neq _ _) (hart_ok_off _ Hh)) in Hr. destruct Hr as (W2 & -> & L & _ & Hp & _).
  split_and!; [done..|apply L|]. intros h Hok. specialize (Hp h Hok). destruct (hart_id =? h) eqn:E.
  - apply Z.eqb_eq in E as <-. rewrite (he_perm _ _ _ _ He) in Hp. by apply Permutation_cons_inv in Hp.
  - apply Z.eqb_neq in E. rewrite (he_others _ _ _ _ He h Hok) in Hp by done. by rewrite Hp.
Qed.

Lemma add_remove_roundtrip_witness :
  (add (boot 1) 5 0 EnqInitial 0).1 = Some true /\ (remove (add (boot 1) 5 0 EnqInitial 0).2 5).1 = 1.
Proof.
  assert (sys_wf (boot 1)) as W by apply (boot_wf 1 ltac:(done)).
  assert (add_room (boot 1) 5 0 EnqInitial 0) as R by (apply small_room; [done|apply boot_small|done|done]).
  assert (t_ready_queue_hart (tcb (boot 1) 5) = OFF_CPU) as Q by (by rewrite boot_tcb).
  assert (queued (hart (boot 1) 0) = []) as E by (vm_compute; reflexivity).
  revert W R Q E. generalize (boot 1). intros s W R Q E.
  pose proof (add_remove_roundtrip s 5 0 EnqInitial 0 EnqInitial 0 0 W hart_0 Q R) as H.
  destruct (add s 5 0 EnqInitial 0) as [r s1]. destruct H as (-> & _ & _ & _ & _ & H). split.
  - simpl. by rewrite E.
  - simpl. destruct (remove s1 5). apply H.
Defined.

(** ** A wakeup that meets a task going to sleep *)

(** A task that a hart has is only marked. *)
Lemma wakeup_running s local task now :
  length (s_harts s) = Z.to_nat MAX_HARTS -> t_on_cpu (tcb s task) <> OFF_CPU ->
  let s' := wakeup_task s local task now in
  tcb s' task = (Tcb.defer_wakeup_if_on_cpu None (tcb s task)).2 /\
  forall h, Tcb.hart_ok h -> hart_view (hart s' h) = hart_view (hart s h).
Proof.
  intros Hl Hon. unfold wakeup_task, wakeup_task_with_batch_inner.
  assert ((Tcb.defer_wakeup_if_on_cpu None (tcb s task)).1 = true) as E.
  { unfold Tcb.defer_wakeup_if_on_cpu. simpl. by rewrite (proj2 (Z.eqb_neq _ _) Hon). }
  destruct (Tcb.defer_wakeup_if_on_cpu None (tcb s task)) as [d t]. simpl in E. subst d. cbv iota zeta.
  pose proof (flush_same (upd_tcb s task (fun _ => t)) (local mod MAX_HARTS) batch_default Hl) as F. split.
  - unfold tcb at 1. rewrite (sc_tcbs _ _ F). apply (tcb_upd_same s task (fun _ => t)).
  - intros h Hok. by destruct (sc_hart _ _ F h Hok) as (b & r & ->).
Qed.

Lemma account_flags now t :
  t_has_res (Tcb.account_runtime_until now t).2 = t_has_res t /\
  t_cgroup_frozen (Tcb.account_runtime_until now t).2 = t_cgroup_frozen t.
Proof. unfold Tcb.account_runtime_until. simpl. by destruct (0 <? _). Qed.

Lemma block_flags s local task now :
  length (s_harts s) = Z.to_nat MAX_HARTS -> Tcb.hart_ok local -> h_current (hart s local) = Some task ->
  t_has_res (tcb (block_current s local now) task) = t_has_res (tcb s task) /\
  t_cgroup_frozen (tcb (block_current s local now) task) = t_cgroup_frozen (tcb s task).
Proof.
  intros Hl Hh Hc. unfold block_current, take_current_task. rewrite Hc.
  set (s0 := upd_hart s local _).
  assert (length (s_harts s0) = Z.to_nat MAX_HARTS) as Hl0 by (unfold s0; by rewrite upd_hart_length).
  destruct (charge_view s0 local task now Hl0 Hh) as (Et & _).
  set (s1 := charge_task_runtime_for_scheduler s0 local task now) in *.
  assert (t_has_res (tcb s1 task) = t_has_res (tcb s task) /\
    t_cgroup_frozen (tcb s1 task) = t_cgroup_frozen (tcb s task)) as [E1 E2] by (rewrite Et; apply account_flags).
  rewrite <- E1, <- E2. destruct (is_ready (t_status (tcb s1 task))); simpl negb; cbv iota zeta.
  - change (tcb (upd_hart ?x _ _) task) with (tcb x task). unfold set_rr_ticks. by rewrite tcb_upd_same.
  - set (s2 := set_rr_ticks _ task 0). change (tcb (upd_hart ?x _ _) task) with (tcb x task).
    destruct (sleep_lag_view s2 local task now) as (_ & _ & _ & v & _ & ->). unfold s2, set_rr_ticks.
    by rewrite !tcb_upd_same.
Qed.

Lemma defer_flags t :
  t_has_res (Tcb.defer_wakeup_if_on_cpu None t).2 = t_has_res t /\
  t_cgroup_frozen (Tcb.defer_wakeup_if_on_cpu None t).2 = t_cgroup_frozen t /\
  t_status (Tcb.defer_wakeup_if_on_cpu None t).2 = t_status t.
Proof. done. Qed.

Lemma deferred_word t t' : t_on_cpu t' = t_on_cpu t -> Tcb.has_deferred_wakeup t' = Tcb.has_deferred_wakeup t.
Proof. unfold Tcb.has_deferred_wakeup. by intros ->. Qed.

Section Delivery.

Context (live : gset Z) (local task : Z) (Hlocal : Tcb.hart_ok local).

(** The hart's current task, about to block, that a wakeup must not miss. *)
Record sleeper (s : System) : Prop := {
  sl_wf : cpu_wf live None s;
  sl_current : h_current (hart s local) = Some task;
  sl_status : t_status (tcb s task) <> StReady;
  sl_flags : t_has_res (tcb s task) = true /\ t_cgroup_frozen (tcb s task) = false
}.

(** The same task once it gave the CPU up. *)
Record asleep (s : System) : Prop := {
  as_wf : cpu_wf live None s;
  as_pending : h_pending_blocked (hart s local) = Some task;
  as_wakeable : wakeable (tcb s task)
}.

Lemma sleeper_on_cpu s : sleeper s -> t_on_cpu (tcb s task) <> OFF_CPU /\ task ∈ live.
Proof.
  intros [W Hc _ _]. assert (task ∈ held (hart s local)) as Hin by (unfold held; rewrite Hc; left).
  split; [by apply (held_on_cpu live None s local task)|by apply (cw_held _ _ _ W local task)].
Qed.

Lemma asleep_on_cpu s : asleep s -> t_on_cpu (tcb s task) <> OFF_CPU /\ task ∈ live.
Proof.
  intros [W Hp _]. assert (task ∈ held (hart s local)) as Hin by (unfold held; rewrite Hp; set_solver).
  split; [by apply (held_on_cpu live None s local task)|by apply (cw_held _ _ _ W local task)].
Qed.

Lemma sleeper_block s now :
  sleeper s -> asleep (block_current s local now) /\
  Tcb.has_deferred_wakeup (tcb (block_current s local now) task) = Tcb.has_deferred_wakeup (tcb s task).
Proof.
  intros [W Hc Hst [Hr Hf]]. pose proof (sw_length _ (cw_wf _ _ _ W)) as Hl.
  pose proof (block_handed_over s local task now Hl Hlocal Hc) as Ho.
  replace (negb (is_ready (t_status (tcb s task)))) with true in Ho by (by destruct (t_status (tcb s task))).
  destruct (block_flags s local task now Hl Hlocal Hc) as [E1 E2]. split.
  - constructor; [by apply (handed_over_wf live s _ local task true)| |].
    + by injection (ho_hart _ _ _ _ _ Ho) as _ _ _ _ _ ?.
    + split_and!; [by rewrite E1|apply (ho_status _ _ _ _ _ Ho)|by rewrite E2].
  - apply deferred_word, (ho_task _ _ _ _ _ Ho).
Qed.

Lemma wake_marks waker s now :
  Tcb.hart_ok waker ->
  cpu_wf live None s -> sys_small s -> 0 <= now <= U64_MAX -> task ∈ live -> t_on_cpu (tcb s task) <> OFF_CPU ->
  let s' := wakeup_task s waker task now in
  cpu_wf live None s' /\ Tcb.has_deferred_wakeup (tcb s' task) = true /\
  (forall h, Tcb.hart_ok h -> hart_view (hart s' h) = hart_view (hart s h)) /\
  t_has_res (tcb s' task) = t_has_res (tcb s task) /\
  t_cgroup_frozen (tcb s' task) = t_cgroup_frozen (tcb s task) /\ t_status (tcb s' task) = t_status (tcb s task).
Proof.
  intros Hwaker W Hs Hn Hlive Hon. destruct (wakeup_running s waker task now (sw_length _ (cw_wf _ _ _ W)) Hon) as [Et Ev].
  pose proof (wakeup_flush_wf live waker now Hwaker Hn s task true None W Hs Hlive) as Hw.
  unfold wakeup_task in *. destruct (wakeup_task_with_batch_inner s waker task batch_default true None now) as [s1 b].
  destruct Hw as (W1 & _ & Hd). rewrite Et at 2 3 4. split_and!; try done. by apply Hd.
Qed.

Lemma asleep_idle s now :
  asleep s -> sys_small s -> 0 <= now <= U64_MAX -> Tcb.has_deferred_wakeup (tcb s task) = true ->
  let s' := idle_pending_blocked s local now in
  t_status (tcb s' task) = StReady /\ exists h, Tcb.hart_ok h /\ task ∈ queued (hart s' h).
Proof.
  intros [W Hp Hw] Hs Hn Hd. destruct (idle_pending_blocked_wf live local now Hlocal Hn s W Hs) as [W' Hgo].
  destruct (Hgo task Hp Hd Hw) as [Hst Hq]. split; [done|]. by apply (queued_somewhere live).
Qed.

End Delivery.

(** No wakeup is lost to a task that goes to sleep: whether it arrives just
    before or just after the task gives its CPU up, once the idle loop of that
    hart has run the task is ready and in some run queue. *)
Theorem deferred_wakeup_delivered active live s local waker task now now' now'' :
  mask_ok active -> rtc sched_step (∅ : gset Z, boot active) (live, s) ->
  Tcb.hart_ok local -> Tcb.hart_ok waker -> 0 <= now <= U64_MAX -> 0 <= now'' <= U64_MAX ->
  h_current (hart s local) = Some task -> t_status (tcb s task) <> StReady ->
  t_has_res (tcb s task) = true -> t_cgroup_frozen (tcb s task) = false ->
  (let s1 := block_current (wakeup_task s waker task now) local now' in
   let s2 := idle_pending_blocked s1 local now'' in
   sys_small s -> sys_small s1 ->
   t_status (tcb s2 task) = StReady /\ exists h, Tcb.hart_ok h /\ task ∈ queued (hart s2 h)) /\
  (let s1 := wakeup_task (block_current s local now') waker task now in
   let s2 := idle_pending_blocked s1 local now'' in
   sys_small (block_current s local now') -> sys_small s1 ->
   t_status (tcb s2 task) = StReady /\ exists h, Tcb.hart_ok h /\ task ∈ queued (hart s2 h)).
Proof.
  intros Hm Hr Hl Hwk Hn Hn'' Hc Hst Hres Hfz. pose proof (reachable_wf _ _ _ Hm Hr) as W.
  assert (sleeper live local task s) as S by done. split; cbv zeta; intros Hs Hs1.
  - destruct (sleeper_on_cpu live local task Hl s S) as [Hon Hlive].
    destruct (wake_marks live task waker s now Hwk W Hs Hn Hlive Hon) as (W1 & Hd & Ev & E1 & E2 & E3).
    assert (sleeper live local task (wakeup_task s waker task now)) as S1.
    { constructor; [done| |by rewrite E3|by rewrite E1, E2]. by injection (Ev local Hl) as _ _ _ -> _ _. }
    destruct (sleeper_block live local task Hl _ now' S1) as [A Hd'].
    apply (asleep_idle live); [done..|]. by rewrite Hd'.
  - destruct (sleeper_block live local task Hl _ now' S) as [A _].
    destruct (asleep_on_cpu live local task Hl _ A) as [Hon Hlive].
    destruct (wake_marks live task waker _ now Hwk (as_wf _ _ _ _ A) Hs Hn Hlive Hon) as (W1 & Hd & Ev & E1 & E2 & E3).
    apply (asleep_idle live); [done| |done..]. destruct A as [_ Hp (Hw1 & Hw2 & Hw3)].
    constructor; [done| |unfold wakeable; by rewrite E1, E2, E3]. by injection (Ev local Hl) as _ _ _ _ _ ->.
Qed.

(** ** Small states, decided *)

Definition small_group (g : FairGroupQueue) : bool :=
  (g_min_task_vruntime g <=? VMAX) &&
  forallb (fun e => (e_vruntime e.2 <=? VMAX) && (e_weight e.2 <=? 2 ^ 17)) (g_tasks g).

Definition small_hart (h : Hart) : bool :=
  (Z.of_nat (length (queued h)) <? 2 ^ 19) && (rq_min_fair_vruntime (h_rq h) <=? VMAX) &&
  forallb (fun e => small_group e.2) (rq_fair_groups (h_rq h)).

Definition small_tcb (t : TCB) : bool :=
  (t_fair_vruntime_ns t <=? VMAX) && (t_cpu_time_ns t <=? U64_MAX).

Definition small_sys (s : System) : bool :=
  forallb (fun e => small_tcb e.2) (map_to_list (s_tcbs s)) && forallb small_hart (s_harts s).

Lemma bt_get_elem_of {V} (m : list (Z * V)) k v : bt_get m k = Some v -> (k, v) ∈ m.
Proof.
  induction m as [|[k' v'] m IH]; simpl; [done|]. destruct (key_eqb k k') eqn:E.
  - intros [= ->]. apply key_eqb_eq in E as ->. left.
  - intros H. right. auto.
Qed.

Lemma small_group_hart h id g :
  small_hart h = true -> bt_get (rq_fair_groups (h_rq h)) id = Some g -> small_group g = true.
Proof.
  unfold small_hart. rewrite !andb_true_iff, forallb_forall. intros [_ H] Hg.
  apply (H (id, g)). by apply list_elem_of_In, bt_get_elem_of.
Qed.

Lemma small_sys_sound s : length (s_harts s) = Z.to_nat MAX_HARTS -> small_sys s = true -> sys_small s.
Proof.
  unfold small_sys. rewrite andb_true_iff, !forallb_forall. intros Hl [Ht Hh].
  assert (forall t, small_tcb (tcb s t) = true) as Htcb.
  { intros t. unfold tcb. destruct (s_tcbs s !! t) as [x|] eqn:E.
    - rewrite (lookup_total_correct _ _ _ E). by apply (Ht (t, x)), list_elem_of_In, elem_of_map_to_list.
    - unfold lookup_total, map_lookup_total. by rewrite E. }
  assert (forall h, Tcb.hart_ok h -> small_hart (hart s h) = true) as Hhart.
  { intros h [H0 H1]. apply Hh, list_elem_of_In, list_elem_of_lookup_2 with (i := Z.to_nat h).
    apply list_lookup_lookup_total_lt. lia. }
  constructor.
  - intros h Hok. specialize (Hhart h Hok). unfold small_hart in Hhart. lia.
  - intros t. specialize (Htcb t). unfold small_tcb in Htcb. lia.
  - intros t. specialize (Htcb t). unfold small_tcb in Htcb. lia.
  - intros h Hok. specialize (Hhart h Hok). unfold small_hart in Hhart. lia.
  - intros h id g Hok Hg. pose proof (small_group_hart _ _ _ (Hhart h Hok) Hg) as Hs. unfold small_group in Hs.
    apply andb_true_iff in Hs as [Hm Hf]. split; [lia|]. intros t e He. rewrite forallb_forall in Hf.
    specialize (Hf (t, e)). simpl in Hf. rewrite <- list_elem_of_In in Hf. specialize (Hf (bt_get_elem_of _ _ _ He)). lia.
Qed.

(** Task 5 runs on hart 0; hart 1 wakes it before, or after, it blocks. *)
Lemma deferred_wakeup_delivered_witness :
  let s2 := idle_pending_blocked (block_current (wakeup_task running 1 5 10) 0 20) 0 30 in
  let s2' := idle_pending_blocked (wakeup_task (block_current running 0 20) 1 5 10) 0 30 in
  t_status (tcb s2 5) = StReady /\ t_status (tcb s2' 5) = StReady.
Proof.
  assert (t_status (tcb running 5) = StRunning /\ t_has_res (tcb running 5) = true /\
    t_cgroup_frozen (tcb running 5) = false) as (E1 & E2 & E3) by (split_and!; vm_compute; reflexivity).
  assert (sys_small running /\ sys_small (block_current (wakeup_task running 1 5 10) 0 20) /\
    sys_small (block_current running 0 20) /\ sys_small (wakeup_task (block_current running 0 20) 1 5 10)) as (S1 & S2 & S3 & S4).
  { split_and!; apply small_sys_sound; vm_compute; reflexivity. }
  pose proof running_reachable as Hr. pose proof running_current as Hc.
  revert Hr Hc E1 E2 E3 S1 S2 S3 S4. generalize running. intros s Hr Hc E1 E2 E3 S1 S2 S3 S4.
  assert (Tcb.hart_ok 1) as H1 by done.
  destruct (deferred_wakeup_delivered 1 _ s 0 1 5 10 20 30 ltac:(done) Hr hart_0 H1 ltac:(done) ltac:(done) Hc
    ltac:(congruence) E2 E3) as [Ha Hb].
  split; [apply (Ha S1 S2)|apply (Hb S3 S4)].
Defined.

(** ** The freezer *)

(** Freezing a thread that is already blocked takes the path that thaws it: the
    frozen mark is cleared again, so the next wakeup makes the thread run; and
    if the thread was blocked because it is frozen already, freezing it once
    more wakes it up. *)
Theorem freeze_blocked_thread active live s local task is_current now :
  mask_ok active -> rtc sched_step (∅ : gset Z, boot active) (live, s) ->
  Tcb.hart_ok local -> 0 <= now <= U64_MAX -> sys_small s -> task ∈ live ->
  t_has_res (tcb s task) = true -> t_status (tcb s task) = StBlocked -> Tcb.running_hart (tcb s task) = None ->
  let (must_block, s') := set_thread_freezer_state s local task true is_current now in
  must_block = false /\
  if t_parked_by_cgroup (tcb s task) then
    t_status (tcb s' task) = StReady /\ exists h, Tcb.hart_ok h /\ task ∈ queued (hart s' h)
  else wakeable (tcb s' task).
Proof.
  intros Hm Hr Hh Hn Hs Hlive Hres Hst Hoff. pose proof (reachable_wf _ _ _ Hm Hr) as W.
  unfold set_thread_freezer_state.
  set (f := fun t : TCB => t {{ t_cgroup_frozen := true; t_wake_on_cgroup_thaw := false }}).
  set (g := fun t : TCB => t {{ t_cgroup_frozen := false; t_parked_by_cgroup := false; t_wake_on_cgroup_thaw := false }}).
  assert (tcb (upd_tcb s task f) task = f (tcb s task)) as E1 by apply tcb_upd_same.
  assert (tcb (upd_tcb (upd_tcb s task f) task g) task = g (f (tcb s task))) as E2 by (by rewrite !tcb_upd_same).
  cbv zeta iota. rewrite E1. simpl t_status. rewrite Hst. simpl andb. cbv iota. split; [done|].
  change (t_parked_by_cgroup (f (tcb s task)) || t_wake_on_cgroup_thaw (f (tcb s task)))
    with (t_parked_by_cgroup (tcb s task) || false). rewrite orb_false_r.
  destruct (t_parked_by_cgroup (tcb s task)); [|by rewrite E2].
  assert (cpu_wf live None (upd_tcb (upd_tcb s task f) task g)) as W2.
  { apply keeps_wf; [apply keeps_wf|]; [done|constructor; try done; intros t []; by constructor..]. }
  pose proof (wakeup_flush_wf live local now Hh Hn _ task true None W2
    (small_upd_tcb _ task g (small_upd_tcb s task f Hs (conj eq_refl eq_refl)) (conj eq_refl eq_refl)) Hlive) as Hw.
  unfold wakeup_task. destruct (wakeup_task_with_batch_inner _ local task batch_default true None now) as [s3 b].
  destruct Hw as (W3 & Hw & _). rewrite E2 in Hw. destruct Hw as [Hst' Hq].
  - unfold Tcb.running_hart in Hoff. destruct (t_on_cpu (tcb s task) =? OFF_CPU) eqn:E; [by apply Z.eqb_eq in E|done].
  - by split_and!.
  - split; [done|]. by apply (queued_somewhere live).
Qed.

(** Task 5 of hart 0 blocked; the freezer of hart 1 freezes it. *)
Definition blocked : System := idle_pending_blocked (block_current running 0 10) 0 20.

Lemma blocked_reachable : rtc sched_step (∅ : gset Z, boot 1) ({[5]} ∪ ∅, blocked).
Proof.
  eapply rtc_r; [eapply rtc_r; [apply running_reachable|by apply cpu_block with (now := 10)]|].
  apply idle_blocked; [done|done|]. apply small_sys_sound; vm_compute; reflexivity.
Qed.

Lemma freeze_blocked_thread_witness :
  wakeable (tcb (set_thread_freezer_state blocked 1 5 true false 30).2 5).
Proof.
  assert (t_has_res (tcb blocked 5) = true /\ t_status (tcb blocked 5) = StBlocked /\
    Tcb.running_hart (tcb blocked 5) = None /\ t_parked_by_cgroup (tcb blocked 5) = false) as (E1 & E2 & E3 & E4)
    by (split_and!; vm_compute; reflexivity).
  assert (sys_small blocked) as S by (apply small_sys_sound; vm_compute; reflexivity).
  pose proof blocked_reachable as Hr. revert Hr S E1 E2 E3 E4. generalize blocked. intros s Hr S E1 E2 E3 E4.
  assert (Tcb.hart_ok 1) as H1 by done. assert (5 ∈ {[5]} ∪ (∅ : gset Z)) as Hin by set_solver.
  pose proof (freeze_blocked_thread 1 _ s 1 5 false 30 ltac:(done) Hr H1 ltac:(done) S Hin E1 E2 E3) as H.
  destruct (set_thread_freezer_state s 1 5 true false 30) as [m s']. rewrite E4 in H. apply H.
Defined.

(** A thread frozen and thawed while its hart switches it out is never run
    again: the wakeup of the thaw is recorded in the CPU word, the idle loop
    drops it when it requeues the thread, and the next dispatch drops the thread,
    whose status the freeze set.  At the end it is not frozen, blocked, on no
    CPU, in no queue, and nothing is left that would wake it. *)
Theorem thaw_lost_while_switching_out :
  let s1 := suspend_current running 0 10 in
  let s2 := (set_thread_freezer_state s1 1 5 true false 20).2 in
  let s3 := (set_thread_freezer_state s2 1 5 false false 30).2 in
  let s4 := dispatch (idle_pending_ready s3 0 40) 0 50 in
  rtc sched_step (∅ : gset Z, boot 1) ({[5]} ∪ ∅, s4) /\
  t_cgroup_frozen (tcb s4 5) = false /\ t_parked_by_cgroup (tcb s4 5) = false /\
  t_wake_on_cgroup_thaw (tcb s4 5) = false /\ t_status (tcb s4 5) = StBlocked /\
  Tcb.running_hart (tcb s4 5) = None /\ t_ready_queue_hart (tcb s4 5) = OFF_CPU.
Proof.
  cbv zeta. split.
  - assert (5 ∈ {[5]} ∪ (∅ : gset Z)) as Hin by set_solver.
    eapply rtc_r; [|by apply idle_dispatch; [|vm_compute; reflexivity]].
    eapply rtc_r; [|apply idle_ready; [done|done|apply small_sys_sound; vm_compute; reflexivity]].
    eapply rtc_r; [|apply task_freeze; [done|done|apply small_sys_sound; vm_compute; reflexivity|done]].
    eapply rtc_r; [|apply task_freeze; [done|done|apply small_sys_sound; vm_compute; reflexivity|done]].
    eapply rtc_r; [apply running_reachable|by apply cpu_suspend].
  - split_and!; vm_compute; reflexivity.
Qed.

(** ** The other theorems of the scheduler on concrete states *)

Lemma wakeup_task_effect_witness :
  t_status (tcb (wakeup_task blocked 1 5 30) 5) = StReady.
Proof.
  assert (t_has_res (tcb blocked 5) = true /\ t_status (tcb blocked 5) = StBlocked /\
    Tcb.running_hart (tcb blocked 5) = None /\ t_cgroup_frozen (tcb blocked 5) = false) as (E1 & E2 & E3 & E4)
    by (split_and!; vm_compute; reflexivity).
  assert (sys_small blocked) as S by (apply small_sys_sound; vm_compute; reflexivity).
  pose proof blocked_reachable as Hr. revert Hr S E1 E2 E3 E4. generalize blocked. intros s Hr S E1 E2 E3 E4.
  assert (Tcb.hart_ok 1) as H1 by done. assert (5 ∈ {[5]} ∪ (∅ : gset Z)) as Hin by set_solver.
  destruct (wakeup_task_effect 1 _ s 1 5 30 ltac:(done) Hr H1 ltac:(done) S Hin E1 E4) as [H _].
  by apply H.
Defined.

Lemma placement_respects_affinity_witness :
  Z.testbit (online_hart_mask (boot 3)) (resolve_wakeup_hart (boot 3) 5 1 (online_hart_mask (boot 3))).1 = true.
Proof.
  assert (0 <= t_affinity (tcb (boot 3) 5)) as Ha by (by rewrite boot_tcb).
  assert (mask_ok (s_active (boot 3)) /\ 0 <= s_online (boot 3)) as [Hm Ho] by done.
  pose proof (small_lengths_fit _ (boot_small 3)) as Hl.
  revert Ha Hm Ho Hl. generalize (boot 3). intros s Ha Hm Ho Hl. assert (Tcb.hart_ok 1) as H1 by done.
  destruct (placement_respects_affinity s 5 1 EnqWakeup 0 Hm Ho Hl Ha H1 hart_0) as (_ & H & _). apply H.
Defined.

Lemma select_hart_rotates_witness :
  Z.testbit (online_hart_mask (boot 3)) (select_hart_for_new_task (boot 3)).1 = true.
Proof. apply (select_hart_rotates (boot 3)); vm_compute; (split; congruence) || congruence. Defined.

(** Task 5, alone in the queue of hart 0, is the next one and is fetched. *)
Lemma next_on_hart_is_fetched_witness : (fetch started 0 0).1 = Some 5.
Proof.
  assert (rt_candidate started 0 0 = None) as Hr by (vm_compute; reflexivity).
  assert (fair_queued (rq_fair_groups (h_rq (hart started 0))) = [5]) as Hq by (vm_compute; reflexivity).
  assert (runnable (s_tcbs started) 5 = true) as Hrun by (vm_compute; reflexivity).
  assert (fair_task_is_next_on_hart started 5 0 = true) as Hn by (vm_compute; reflexivity).
  assert (group_holds (h_rq (hart started 0)) (t_fair_group_id (tcb started 5)) 5) as Hg.
  { unfold group_holds. eexists. split; [vm_compute; reflexivity|]. vm_compute. left. }
  pose proof started_wf as W.
  revert W Hr Hq Hrun Hn Hg. generalize started. intros s W Hr Hq Hrun Hn Hg.
  apply (next_on_hart_is_fetched s 5 0 0 W hart_0 Hr); [|done|done]. intros t. rewrite Hq. set_solver.
Defined.

Lemma clock_ok_check s now :
  length (s_harts s) = Z.to_nat MAX_HARTS -> 0 <= now <= USIZE_MAX ->
  forallb (fun h => 0 <=? rt_period_start_ns (h_bandwidth h)) (s_harts s) = true -> clock_ok s now.
Proof.
  intros Hl Hn Hf. split; [done|]. intros h [H0 H1]. rewrite forallb_forall in Hf. apply Z.leb_le, Hf, list_elem_of_In.
  apply list_elem_of_lookup_2 with (i := Z.to_nat h), list_lookup_lookup_total_lt. lia.
Qed.

(** Task 5 runs alone on hart 0: a tick does not preempt it. *)
Lemma tick_preemption_witness : (should_preempt_current_on_tick running 0 100).1 = false.
Proof.
  assert (clock_ok running 100) as Hc by (apply clock_ok_check; vm_compute; (split; congruence) || reflexivity).
  assert (sched_class (t_policy (tcb running 5)) = Some ClassFair) as Es by (vm_compute; reflexivity).
  assert (fair_current_deadline_expired running 0 5 100 = false) as Ed by (vm_compute; reflexivity).
  assert (rt_queued (hart running 0) = []) as Eq by (vm_compute; reflexivity).
  pose proof running_wf as W.
  pose proof running_current as Hcur. revert W Hcur Hc Es Ed Eq. generalize running. intros s W Hcur Hc Es Ed Eq.
  pose proof (tick_preemption s 0 100 5 W hart_0 Hc Hcur) as H. cbv zeta in H. rewrite Es in H.
  destruct (should_preempt_current_on_tick s 0 100) as [[] s'] eqn:E; [|done]. exfalso.
  destruct (proj1 H eq_refl) as [[_ (i & q & t & _ & Hi & Ht)]|Hb]; [|congruence].
  assert (t ∈ rt_queued (hart s 0)) as Hin.
  { unfold rt_queued. apply elem_of_concat. exists q. split; [done|by apply list_elem_of_lookup_2 with (i := i)]. }
  rewrite Eq in Hin. set_solver.
Defined.
