(* ===== verification/WakeRace.v ===== *)
(** * The wakeup protocol, step by step

    [Wakeup] runs each scheduler operation as one transaction.  Here the same
    operations are cut at their atomic accesses, for one task, any number of
    wakers and any number of harts: [wakeup_task_with_batch_inner] and [add]
    ([task/manager.rs], [task/manager/run_queue.rs]), the pop of [fetch], and
    the way off the CPU through the idle loop ([task/processor.rs]).  The CPU
    word excludes two harts in every interleaving; the handshake does not
    exclude losing the task. *)

From S2P Require Import Prelude.
From S2P Require Import TaskBlock.

(** Where a call of [wakeup_task] is: before [defer_wakeup_if_on_cpu]; past it,
    having found the task off CPU; past the status update; in [add], having
    set [ready_queue_hart] but not holding the queue's lock yet. *)
Inductive WakerPc :=
| WStart
| WNotDeferred
| WMadeReady
| WMarked (hart : Z).

(** Where a hart is with the task: elsewhere; popped it from its queue; saw it
    ready; took it; runs it; switched it out to block or to yield. *)
Inductive HartPc :=
| HElsewhere
| HPopped
| HSawReady
| HTook
| HRuns
| HPendingBlocked
| HPendingReady.

#[export] Instance HartPc_eq_dec : EqDecision HartPc.
Proof. solve_decision. Defined.

Record Race := mkRace {
  ra_task : TCB;
  ra_queues : list Z;
  ra_wakers : list WakerPc;
  ra_harts : Z -> HartPc
}.
#[export] Instance fields_Race : Fields Race := fun r =>
  mkRace (ra_task r) (ra_queues r) (ra_wakers r) (ra_harts r).

Definition set_hart (f : Z -> HartPc) (h : Z) (pc : HartPc) : Z -> HartPc :=
  fun h' => if h' =? h then pc else f h'.

(** Removing the entry of the task from the queue of one hart. *)
Definition pop_entry (h : Z) (l : list Z) : list Z := List.filter (fun h' => negb (h' =? h)) l.

Inductive race_step (r : Race) : Race -> Prop :=
(** [defer_wakeup_if_on_cpu]: the waker is done if the task was on a CPU. *)
| race_defer i deferred t :
    ra_wakers r !! i = Some WStart -> Tcb.defer_wakeup_if_on_cpu None (ra_task r) = (deferred, t) ->
    race_step r (r {{ ra_task := t;
      ra_wakers := <[i := if deferred then WStart else WNotDeferred]> (ra_wakers r) }})
(** [wake_if_blocked_inner] under the task's lock. *)
| race_make_ready i :
    ra_wakers r !! i = Some WNotDeferred ->
    race_step r
      (if is_blocked (t_status (ra_task r)) then
         r {{ ra_task := (ra_task r) {{ t_status := StReady }};
              ra_wakers := <[i := WMadeReady]> (ra_wakers r) }}
       else r {{ ra_wakers := <[i := WStart]> (ra_wakers r) }})
(** [add]: the compare-and-swap of [ready_queue_hart]. *)
| race_mark i h :
    ra_wakers r !! i = Some WMadeReady -> Tcb.hart_ok h ->
    race_step r
      (if t_ready_queue_hart (ra_task r) =? OFF_CPU then
         r {{ ra_task := (ra_task r) {{ t_ready_queue_hart := h }};
              ra_wakers := <[i := WMarked h]> (ra_wakers r) }}
       else r {{ ra_wakers := <[i := WStart]> (ra_wakers r) }})
(** [add] with the queue's lock. *)
| race_push i h :
    ra_wakers r !! i = Some (WMarked h) ->
    race_step r
      (if t_ready_queue_hart (ra_task r) =? h then
         r {{ ra_queues := h :: ra_queues r; ra_wakers := <[i := WStart]> (ra_wakers r) }}
       else r {{ ra_wakers := <[i := WStart]> (ra_wakers r) }})
(** [fetch]: the entry leaves the queue and the mark is cleared. *)
| race_pop h :
    ra_harts r h = HElsewhere -> h ∈ ra_queues r -> Tcb.hart_ok h ->
    race_step r
      (if t_ready_queue_hart (ra_task r) =? h then
         r {{ ra_task := (ra_task r) {{ t_ready_queue_hart := OFF_CPU }};
              ra_queues := pop_entry h (ra_queues r); ra_harts := set_hart (ra_harts r) h HPopped }}
       else r {{ ra_queues := pop_entry h (ra_queues r) }})
| race_check h :
    ra_harts r h = HPopped ->
    race_step r (r {{ ra_harts := set_hart (ra_harts r) h
      (if is_ready (t_status (ra_task r)) then HSawReady else HElsewhere) }})
| race_take h taken t :
    ra_harts r h = HSawReady -> Tcb.hart_ok h -> Tcb.try_mark_on_cpu h (ra_task r) = (taken, t) ->
    race_step r (r {{ ra_task := t; ra_harts := set_hart (ra_harts r) h (if taken then HTook else HElsewhere) }})
(** The dispatch of the idle loop, then the ways off the CPU. *)
| race_run h :
    ra_harts r h = HTook ->
    race_step r (r {{ ra_task := (ra_task r) {{ t_status := StRunning }};
                      ra_harts := set_hart (ra_harts r) h HRuns }})
| race_block h :
    ra_harts r h = HRuns -> is_ready (t_status (ra_task r)) = false ->
    race_step r (r {{ ra_task := (ra_task r) {{ t_status := StBlocked }};
                      ra_harts := set_hart (ra_harts r) h HPendingBlocked }})
| race_yield h :
    ra_harts r h = HRuns ->
    race_step r (r {{ ra_task := (ra_task r) {{ t_status := StReady }};
                      ra_harts := set_hart (ra_harts r) h HPendingReady }})
(** The idle loop: the word is cleared; a recorded wakeup is made good, a task
    that yielded is queued again. *)
| race_idle_blocked h pending t :
    ra_harts r h = HPendingBlocked -> Tcb.finish_running (ra_task r) = (pending, t) ->
    race_step r (r {{ ra_task := t; ra_harts := set_hart (ra_harts r) h HElsewhere;
      ra_wakers := match pending with PwNone => ra_wakers r | _ => ra_wakers r ++ [WStart] end }})
| race_idle_ready h pending t :
    ra_harts r h = HPendingReady -> Tcb.finish_running (ra_task r) = (pending, t) ->
    race_step r (r {{ ra_task := t; ra_harts := set_hart (ra_harts r) h HElsewhere;
      ra_wakers := ra_wakers r ++ [WMadeReady] }}).

(** A task that sleeps, and [n] wakers about to wake it. *)
Definition sleeping (n : nat) : Race :=
  mkRace (inhabitant {{ t_status := StBlocked }}) [] (replicate n WStart) (fun _ => HElsewhere).

(** ** One hart at a time *)

(** The hart has the task: its kernel stack is in use there. *)
Definition owns_stack (pc : HartPc) : bool :=
  match pc with HTook | HRuns | HPendingBlocked | HPendingReady => true | _ => false end.

Record race_inv (r : Race) : Prop := {
  ri_owner : forall h, owns_stack (ra_harts r h) = true ->
    Tcb.hart_ok h /\ exists p, t_on_cpu (ra_task r) = Tcb.word h p;
  ri_word : t_on_cpu (ra_task r) = OFF_CPU \/ exists h, owns_stack (ra_harts r h) = true
}.

Lemma set_hart_same f h pc : set_hart f h pc h = pc.
Proof. unfold set_hart. by rewrite Z.eqb_refl. Qed.
Lemma set_hart_other f h h' pc : h' <> h -> set_hart f h pc h' = f h'.
Proof. unfold set_hart. by intros ->%Z.eqb_neq. Qed.

(** Two owners are the same hart. *)
Lemma race_one_owner r h h' :
  race_inv r -> owns_stack (ra_harts r h) = true -> owns_stack (ra_harts r h') = true -> h' = h.
Proof.
  intros I H H'. destruct (ri_owner _ I h H) as (Hok & p & E), (ri_owner _ I h' H') as (Hok' & p' & E').
  rewrite E in E'. by apply Tcb.word_inj in E' as [-> _].
Qed.

(** Steps that leave the word and the owners alone. *)
Lemma race_inv_same r r' :
  race_inv r -> t_on_cpu (ra_task r') = t_on_cpu (ra_task r) ->
  (forall h, owns_stack (ra_harts r' h) = owns_stack (ra_harts r h)) -> race_inv r'.
Proof.
  intros [I1 I2] Ew Eo. constructor; rewrite Ew.
  - intros h. rewrite Eo. apply I1.
  - destruct I2 as [?|(h & Hh)]; [by left|right]. exists h. by rewrite Eo.
Qed.

Lemma owns_set_hart r h pc :
  owns_stack pc = owns_stack (ra_harts r h) ->
  forall h', owns_stack (set_hart (ra_harts r) h pc h') = owns_stack (ra_harts r h').
Proof. intros E h'. destruct (decide (h' = h)) as [->|Hne]; [by rewrite set_hart_same|by rewrite set_hart_other]. Qed.

(** The owner leaves the CPU. *)
Lemma race_inv_finish r h pending t queues wakers :
  race_inv r -> owns_stack (ra_harts r h) = true -> Tcb.finish_running (ra_task r) = (pending, t) ->
  race_inv (mkRace t queues wakers (set_hart (ra_harts r) h HElsewhere)).
Proof.
  intros I Hh [= _ <-]. constructor; simpl; [|by left]. intros h' Hown. exfalso.
  destruct (decide (h' = h)) as [->|Hne]; [by rewrite set_hart_same in Hown|rewrite set_hart_other in Hown by done].
  by apply Hne, (race_one_owner r h h').
Qed.

Lemma race_inv_take r h taken t queues wakers :
  race_inv r -> Tcb.hart_ok h -> owns_stack (ra_harts r h) = false ->
  Tcb.try_mark_on_cpu h (ra_task r) = (taken, t) ->
  race_inv (mkRace t queues wakers (set_hart (ra_harts r) h (if taken then HTook else HElsewhere))).
Proof.
  intros I Hok Hh Ht. unfold Tcb.try_mark_on_cpu in Ht. simpl in Ht.
  destruct (t_on_cpu (ra_task r) =? OFF_CPU) eqn:E; injection Ht as <- <-.
  - apply Z.eqb_eq in E. constructor; simpl.
    + intros h' Hown. destruct (decide (h' = h)) as [->|Hne]; [split; [done|by exists false]|].
      rewrite set_hart_other in Hown by done. destruct (ri_owner _ I h' Hown) as (Hok' & p & Ew).
      rewrite E in Ew. pose proof (Tcb.word_not_off h' p Hok') as H. by rewrite <- Ew in H.
    + right. exists h. by rewrite set_hart_same.
  - apply (race_inv_same r); [done..|]. by apply owns_set_hart.
Qed.

Lemma race_step_inv r r' : race_step r r' -> race_inv r -> race_inv r'.
Proof.
  intros Hs I.
  destruct Hs as [i d t _ Hd|i _|i h _ _|i h _|h Hh _ _|h Hh|h b t Hh Hok Ht|h Hh|h Hh _|h Hh|h p t Hh Hp|h p t Hh Hp].
  - assert (t_on_cpu t = Z.lor (t_on_cpu (ra_task r)) WAKE_PENDING_BIT) as Et by (injection Hd as _ <-; done).
    destruct I as [I1 I2]. constructor; simpl; [|destruct I2 as [E|?]; [left; by rewrite Et, E|by right]].
    intros h Hh. destruct (I1 h Hh) as (Hok & p & E). split; [done|]. exists true. by rewrite Et, E, Tcb.word_defer.
  - apply (race_inv_same r); [done|by case_if|by case_if].
  - apply (race_inv_same r); [done|by case_if|by case_if].
  - apply (race_inv_same r); [done|by case_if|by case_if].
  - case_if; [|by apply (race_inv_same r)]. apply (race_inv_same r); [done..|]. apply owns_set_hart. by rewrite Hh.
  - apply (race_inv_same r); [done..|]. apply owns_set_hart. rewrite Hh. by case_if.
  - apply race_inv_take; [done..|by rewrite Hh|done].
  - apply (race_inv_same r); [done..|]. apply owns_set_hart. by rewrite Hh.
  - apply (race_inv_same r); [done..|]. apply owns_set_hart. by rewrite Hh.
  - apply (race_inv_same r); [done..|]. apply owns_set_hart. by rewrite Hh.
  - apply (race_inv_finish r h p); [done|by rewrite Hh|done].
  - apply (race_inv_finish r h p); [done|by rewrite Hh|done].
Qed.

(** C36: In every interleaving of any number of wakers and harts, at most one hart
    uses the task's kernel stack, and the CPU word names it. *)
Theorem one_hart_owns_stack n r :
  rtc race_step (sleeping n) r ->
  forall h, owns_stack (ra_harts r h) = true ->
    Tcb.running_hart (ra_task r) = Some h /\ forall h', owns_stack (ra_harts r h') = true -> h' = h.
Proof.
  intros Hr. assert (race_inv r) as I.
  { assert (race_inv (sleeping n)) as I0 by (constructor; [done|by left]). clear -Hr I0.
    induction Hr as [|a b c Hab _ IH]; [done|]. by apply IH, (race_step_inv a). }
  intros h Hh. destruct (ri_owner _ I h Hh) as (Hok & p & E). split; [|intros h' Hh'; by apply (race_one_owner r)].
  unfold Tcb.running_hart. by rewrite E, Tcb.word_not_off, Tcb.word_hart.
Qed.

(** ** Losing the task *)

(** The task is ready but nowhere: on no CPU, in no queue, and nobody is about
    to put it in one. *)
Record lost (r : Race) : Prop := {
  lo_status : t_status (ra_task r) = StReady;
  lo_word : t_on_cpu (ra_task r) = OFF_CPU;
  lo_queues : ra_queues r = [];
  lo_wakers : Forall (fun w => w = WStart \/ w = WNotDeferred) (ra_wakers r);
  lo_harts : forall h, ra_harts r h = HElsewhere
}.

Lemma lost_step r r' : race_step r r' -> lost r -> lost r'.
Proof.
  intros Hs [L1 L2 L3 L4 L5].
  destruct Hs as [i d t _ Hd|i _|i h Hi _|i h Hi|h _ Hq _|h Hh|h b t Hh Hok Ht|h Hh|h Hh _|h Hh|h p t Hh Hp|h p t Hh Hp];
    try (by rewrite L5 in Hh).
  - injection Hd as <- <-. constructor; simpl; try done; [by rewrite L2|].
    apply Forall_insert; [done|]. case_if; auto.
  - rewrite L1. constructor; try done. apply Forall_insert; [done|by left].
  - destruct (Forall_lookup_1 _ _ _ _ L4 Hi) as [?|?]; done.
  - destruct (Forall_lookup_1 _ _ _ _ L4 Hi) as [?|?]; done.
  - rewrite L3 in Hq. set_solver.
Qed.

(** ** Concrete runs *)

Inductive RaceLabel :=
| LDefer (i : nat) | LMakeReady (i : nat) | LMark (i : nat) (h : Z) | LPush (i : nat) (h : Z)
| LPop (h : Z) | LCheck (h : Z) | LTake (h : Z) | LRun (h : Z) | LBlock (h : Z) | LIdleBlocked (h : Z).

(** The step a label names, where it can be taken. *)
Definition race_exec (l : RaceLabel) (r : Race) : option Race :=
  match l with
  | LDefer i =>
      match ra_wakers r !! i with
      | Some WStart =>
          let (deferred, t) := Tcb.defer_wakeup_if_on_cpu None (ra_task r) in
          Some (r {{ ra_task := t; ra_wakers := <[i := if deferred then WStart else WNotDeferred]> (ra_wakers r) }})
      | _ => None
      end
  | LMakeReady i =>
      match ra_wakers r !! i with
      | Some WNotDeferred =>
          Some (if is_blocked (t_status (ra_task r)) then
            r {{ ra_task := (ra_task r) {{ t_status := StReady }}; ra_wakers := <[i := WMadeReady]> (ra_wakers r) }}
          else r {{ ra_wakers := <[i := WStart]> (ra_wakers r) }})
      | _ => None
      end
  | LMark i h =>
      match ra_wakers r !! i with
      | Some WMadeReady =>
          if (0 <=? h) && (h <? MAX_HARTS) then
            Some (if t_ready_queue_hart (ra_task r) =? OFF_CPU then
              r {{ ra_task := (ra_task r) {{ t_ready_queue_hart := h }}; ra_wakers := <[i := WMarked h]> (ra_wakers r) }}
            else r {{ ra_wakers := <[i := WStart]> (ra_wakers r) }})
          else None
      | _ => None
      end
  | LPush i h =>
      match ra_wakers r !! i with
      | Some (WMarked h') =>
          if h =? h' then
            Some (if t_ready_queue_hart (ra_task r) =? h then
              r {{ ra_queues := h :: ra_queues r; ra_wakers := <[i := WStart]> (ra_wakers r) }}
            else r {{ ra_wakers := <[i := WStart]> (ra_wakers r) }})
          else None
      | _ => None
      end
  | LPop h =>
      if bool_decide (ra_harts r h = HElsewhere) && bool_decide (h ∈ ra_queues r) && (0 <=? h) && (h <? MAX_HARTS) then
        Some (if t_ready_queue_hart (ra_task r) =? h then
          r {{ ra_task := (ra_task r) {{ t_ready_queue_hart := OFF_CPU }};
               ra_queues := pop_entry h (ra_queues r); ra_harts := set_hart (ra_harts r) h HPopped }}
        else r {{ ra_queues := pop_entry h (ra_queues r) }})
      else None
  | LCheck h =>
      if bool_decide (ra_harts r h = HPopped) then
        Some (r {{ ra_harts := set_hart (ra_harts r) h
          (if is_ready (t_status (ra_task r)) then HSawReady else HElsewhere) }})
      else None
  | LTake h =>
      if bool_decide (ra_harts r h = HSawReady) && (0 <=? h) && (h <? MAX_HARTS) then
        let (taken, t) := Tcb.try_mark_on_cpu h (ra_task r) in
        Some (r {{ ra_task := t; ra_harts := set_hart (ra_harts r) h (if taken then HTook else HElsewhere) }})
      else None
  | LRun h =>
      if bool_decide (ra_harts r h = HTook) then
        Some (r {{ ra_task := (ra_task r) {{ t_status := StRunning }}; ra_harts := set_hart (ra_harts r) h HRuns }})
      else None
  | LBlock h =>
      if bool_decide (ra_harts r h = HRuns) && negb (is_ready (t_status (ra_task r))) then
        Some (r {{ ra_task := (ra_task r) {{ t_status := StBlocked }}; ra_harts := set_hart (ra_harts r) h HPendingBlocked }})
      else None
  | LIdleBlocked h =>
      if bool_decide (ra_harts r h = HPendingBlocked) then
        let (pending, t) := Tcb.finish_running (ra_task r) in
        Some (r {{ ra_task := t; ra_harts := set_hart (ra_harts r) h HElsewhere;
          ra_wakers := match pending with PwNone => ra_wakers r | _ => ra_wakers r ++ [WStart] end }})
      else None
  end.

Fixpoint race_run_labels (ls : list RaceLabel) (r : Race) : option Race :=
  match ls with
  | [] => Some r
  | l :: ls => match race_exec l r with Some r' => race_run_labels ls r' | None => None end
  end.

Lemma race_exec_sound l r r' : race_exec l r = Some r' -> race_step r r'.
Proof.
  destruct l as [i|i|i h|i h|h|h|h|h|h|h]; simpl; intros E.
  - destruct (ra_wakers r !! i) as [[]|] eqn:Ei; try done. injection E as <-. by eapply race_defer.
  - destruct (ra_wakers r !! i) as [[]|] eqn:Ei; try done. injection E as <-. by apply race_make_ready.
  - destruct (ra_wakers r !! i) as [[]|] eqn:Ei; try done. case_if; [|done]. injection E as <-. apply race_mark; [done|].
    unfold Tcb.hart_ok. lia.
  - destruct (ra_wakers r !! i) as [[]|] eqn:Ei; try done. case_match eqn:Eh; [|done]. apply Z.eqb_eq in Eh as ->.
    injection E as <-. by apply race_push.
  - case_match eqn:Eh; [|done]. injection E as <-. rewrite !andb_true_iff, !bool_decide_eq_true in Eh.
    apply race_pop; try naive_solver. unfold Tcb.hart_ok. lia.
  - case_match eqn:Eh; [|done]. injection E as <-. apply race_check. by apply bool_decide_eq_true in Eh.
  - case_match eqn:Eh; [|done]. rewrite !andb_true_iff, bool_decide_eq_true in Eh.
    destruct (Tcb.try_mark_on_cpu h (ra_task r)) as [b t] eqn:Et. injection E as <-.
    apply race_take; [naive_solver| |done]. unfold Tcb.hart_ok. lia.
  - case_match eqn:Eh; [|done]. injection E as <-. apply race_run. by apply bool_decide_eq_true in Eh.
  - case_match eqn:Eh; [|done]. injection E as <-. rewrite andb_true_iff, bool_decide_eq_true, negb_true_iff in Eh.
    destruct Eh. by apply race_block.
  - case_match eqn:Eh; [|done]. injection E as <-. eapply race_idle_blocked; [|done]. by apply bool_decide_eq_true in Eh.
Qed.

Lemma race_run_sound ls r r' : race_run_labels ls r = Some r' -> rtc race_step r r'.
Proof.
  revert r. induction ls as [|l ls IH]; intros r; simpl; [by intros [= ->]|].
  destruct (race_exec l r) as [r1|] eqn:E; [|done]. intros H.
  eapply rtc_l; [by apply (race_exec_sound l)|auto].
Qed.

(** The interleaving that loses the task. *)
Definition losing_run : list RaceLabel :=
  [LDefer 0; LDefer 1; LMakeReady 0; LMark 0 0; LPush 0 0; LPop 0; LCheck 0; LTake 0; LRun 0; LBlock 0;
   LMakeReady 1; LMark 1 1; LPush 1 1; LPop 1; LCheck 1; LTake 1; LIdleBlocked 0].

Lemma losing_run_lost : exists r, race_run_labels losing_run (sleeping 2) = Some r /\ lost r.
Proof.
  eexists. split; [vm_compute; reflexivity|]. constructor; try reflexivity; [repeat constructor|].
  intros h. simpl. repeat case_match; done.
Qed.

Lemma lost_forever r r' : lost r -> rtc race_step r r' -> lost r'.
Proof. intros L H. induction H as [|a b c Hab _ IH]; [done|]. by apply IH, (lost_step a). Qed.

(** The wakeup protocol can lose the task.  Two wakers meet a sleeping task; the
    second finds it off CPU and is then delayed.  The first queues it on hart
    0, which runs it until it goes to sleep again.  Now the second waker goes
    on: it makes the task ready and queues it on hart 1, which pops it before
    hart 0 has cleared the CPU word, fails to take it, and drops the entry; hart
    0 then clears the word and finds no recorded wakeup.  From there on no
    wakeup, however many come, makes the task run again. *)
Theorem wakeup_race_loses_task :
  exists r, rtc race_step (sleeping 2) r /\ lost r /\ forall r', rtc race_step r r' -> lost r'.
Proof.
  destruct losing_run_lost as (r & Hr & L). exists r. split_and!; [by apply (race_run_sound losing_run)|done|].
  intros r' H. by apply (lost_forever r).
Qed.

(** Hart 0 takes the task of [sleeping 1] once its waker queued it there. *)
Definition taking_run : list RaceLabel :=
  [LDefer 0; LMakeReady 0; LMark 0 0; LPush 0 0; LPop 0; LCheck 0; LTake 0].

Lemma one_hart_owns_stack_witness :
  match race_run_labels taking_run (sleeping 1) with
  | Some r => Tcb.running_hart (ra_task r) = Some 0
  | None => False
  end.
Proof.
  destruct (race_run_labels taking_run (sleeping 1)) as [r|] eqn:E; [|by vm_compute in E].
  apply (one_hart_owns_stack 1 r); [by apply (race_run_sound taking_run)|].
  vm_compute in E. injection E as <-. reflexivity.
Defined.
