(* ===== verification/RecordLocks.v ===== *)
(** * Record locks, [flock] locks and leases

    [syscall/filesystem/lock_utils.rs] and the locking commands of
    [syscall/filesystem/fcntl.rs]: the tables of byte-range locks, of whole-file
    locks and of leases, and the pure routines on them.  The view of a lock
    table is the relation "owner [o] has a lock of type [t] on byte [x]"; the
    routines are specified on it.  [RecordWait] has the blocking requests. *)

From S2P Require Import Prelude.
From S2P Require Import BTree.
From S2P Require Import Errno.

Abbreviation F_RDLCK := 0.
Abbreviation F_WRLCK := 1.
Abbreviation F_UNLCK := 2.

(** ** Data *)

Inductive RecordLockOwner :=
| Process (pid : Z)
| OpenFile (id : Z).

#[export] Instance RecordLockOwner_eq_dec : EqDecision RecordLockOwner.
Proof. solve_decision. Defined.

(** [#[derive(Ord)]]: by variant, then by payload. *)
Definition owner_key (o : RecordLockOwner) : Z * Z :=
  match o with Process pid => (0, pid) | OpenFile id => (1, id) end.

(** [FileLockKey]: device and inode. *)
Abbreviation FileLockKey := (Z * Z)%type.

Record RecordLock := mkRecordLock {
  rl_owner : RecordLockOwner;
  rl_owner_pid : Z;
  rl_lock_type : Z;
  rl_start : Z;
  rl_end : option Z
}.
#[export] Instance fields_RecordLock : Fields RecordLock := fun l =>
  mkRecordLock (rl_owner l) (rl_owner_pid l) (rl_lock_type l) (rl_start l) (rl_end l).

#[export] Instance RecordLock_eq_dec : EqDecision RecordLock.
Proof. solve_decision. Defined.

Record WaitingRecordLock := mkWaiting {
  wl_key : FileLockKey;
  wl_req_type : Z;
  wl_start : Z;
  wl_end : option Z
}.

Record FcntlFlock := mkFlock {
  l_type : Z;
  l_whence : Z;
  l_start : Z;
  l_len : Z;
  l_pid : Z
}.
#[export] Instance fields_FcntlFlock : Fields FcntlFlock := fun f =>
  mkFlock (l_type f) (l_whence f) (l_start f) (l_len f) (l_pid f).

(** ** Ranges of bytes *)

Definition range_end_i128 (end_ : option Z) : Z := unwrap_or end_ I128_MAX.

Definition ranges_overlap (a_start : Z) (a_end : option Z) (b_start : Z) (b_end : option Z) : bool :=
  (a_start <=? range_end_i128 b_end) && (b_start <=? range_end_i128 a_end).

Definition max_range_end (a b : option Z) : option Z :=
  match a, b with
  | None, _ | _, None => None
  | Some x, Some y => Some (Z.max x y)
  end.

Definition ranges_touch_or_overlap_sorted (left_end : option Z) (right_start : Z) : bool :=
  match left_end with
  | None => true
  | Some end_ => right_start <=? i64_saturate (end_ + 1)
  end.

(** ** Conflicts *)

Definition lock_conflicts (req_type req_start : Z) (req_end : option Z) (owner : RecordLockOwner)
    (existing : RecordLock) : bool :=
  if bool_decide (rl_owner existing = owner) || (rl_lock_type existing =? F_UNLCK) then false
  else if negb (ranges_overlap req_start req_end (rl_start existing) (rl_end existing)) then false
  else if req_type =? F_RDLCK then rl_lock_type existing =? F_WRLCK
  else if req_type =? F_WRLCK then
    (rl_lock_type existing =? F_RDLCK) || (rl_lock_type existing =? F_WRLCK)
  else false.

(** The order of the answers of [F_GETLK]. *)
Definition conflict_key (l : RecordLock) : Z * Z * (Z * Z) * Z :=
  (rl_start l, range_end_i128 (rl_end l), owner_key (rl_owner l), rl_owner_pid l).

Definition first_conflicting_lock (locks : list RecordLock) (req_type req_start : Z)
    (req_end : option Z) (owner : RecordLockOwner) : option RecordLock :=
  min_by conflict_key (List.filter (lock_conflicts req_type req_start req_end owner) locks).

(** ** The list of the locks of a file *)

Definition record_key (l : RecordLock) : Z * Z * Z * Z * Z * Z :=
  (owner_key (rl_owner l), rl_start l, range_end_i128 (rl_end l), rl_lock_type l, rl_owner_pid l).

(** One round of the merge loop; the last element of [merged] is the open one. *)
Definition merge_push (merged : list RecordLock) (lock : RecordLock) : list RecordLock :=
  match last merged with
  | Some last_ =>
      if bool_decide (rl_owner last_ = rl_owner lock) && (rl_lock_type last_ =? rl_lock_type lock)
         && ranges_touch_or_overlap_sorted (rl_end last_) (rl_start lock)
      then removelast merged ++ [last_ {{ rl_end := max_range_end (rl_end last_) (rl_end lock) }}]
      else vec_push merged lock
  | None => vec_push merged lock
  end.

Definition normalize_record_locks (locks : list RecordLock) : list RecordLock :=
  let locks := List.filter (fun lock => negb (rl_lock_type lock =? F_UNLCK)) locks in
  foldl merge_push [] (sort_by_ord record_key locks).

(** What is left of one lock of the owner: a part before the range, and a part
    behind it. *)
Definition left_part (req_start : Z) (lock : RecordLock) : list RecordLock :=
  if rl_start lock <? req_start then [lock {{ rl_end := Some (req_start - 1) }}] else [].

Definition right_part (req_end : option Z) (lock : RecordLock) : list RecordLock :=
  match req_end with
  | Some req_end_value =>
      if req_end_value <? I64_MAX then
        let right_start := req_end_value + 1 in
        let has_right := match rl_end lock with
                         | None => true
                         | Some lock_end => right_start <=? lock_end
                         end in
        if has_right then [lock {{ rl_start := right_start }}] else []
      else []
  | None => []
  end.

Definition split_lock (owner : RecordLockOwner) (req_start : Z) (req_end : option Z)
    (lock : RecordLock) : list RecordLock :=
  if negb (bool_decide (rl_owner lock = owner))
     || negb (ranges_overlap req_start req_end (rl_start lock) (rl_end lock)) then [lock]
  else left_part req_start lock ++ right_part req_end lock.

Definition apply_record_lock_for_owner (locks : list RecordLock) (owner : RecordLockOwner)
    (owner_pid req_type req_start : Z) (req_end : option Z) : bool * list RecordLock :=
  let updated := concat (map (split_lock owner req_start req_end) locks) in
  let updated := if negb (req_type =? F_UNLCK)
                 then vec_push updated (mkRecordLock owner owner_pid req_type req_start req_end)
                 else updated in
  let updated := normalize_record_locks updated in
  (negb (bool_decide (locks = updated)), updated).

Definition collect_conflict_process_owners (locks : list RecordLock) (req_type req_start : Z)
    (req_end : option Z) (owner_pid : Z) : list Z :=
  let owner := Process owner_pid in
  bs_iter (foldl (fun owners lock =>
    if lock_conflicts req_type req_start req_end owner lock then
      match rl_owner lock with
      | Process pid => bs_insert owners pid
      | OpenFile _ => owners
      end
    else owners) [] locks).

(** ** Ranges from user space *)

(** The offset and the size of the file, when it is an inode. *)
Definition flock_base (os_inode : option (Z * Z)) (whence : Z) : Z + Z :=
  if whence =? 0 then inr 0
  else if (whence =? 1) || (whence =? 2) then
    match os_inode with
    | None => inl (err EINVAL)
    | Some (offset, size) =>
        let v := if whence =? 1 then offset else size in
        if v <=? I64_MAX then inr v else inl (err EOVERFLOW)
    end
  else inl (err EINVAL).

Definition lock_range_from_flock (os_inode : option (Z * Z)) (flock : FcntlFlock)
    : Z + (Z * option Z) :=
  match flock_base os_inode (l_whence flock) with
  | inl e => inl e
  | inr base =>
      match i64_checked (base + l_start flock) with
      | None => inl (err EOVERFLOW)
      | Some start =>
          if start <? 0 then inl (err EINVAL)
          else if 0 <? l_len flock then
            match i64_checked (start + (l_len flock - 1)) with
            | None => inl (err EOVERFLOW)
            | Some end_ => inr (start, Some end_)
            end
          else if l_len flock =? 0 then inr (start, None)
          else
            match i64_checked (start + l_len flock), i64_checked (start - 1) with
            | None, _ | _, None => inl (err EOVERFLOW)
            | Some neg_start, Some end_ =>
                if neg_start <? 0 then inl (err EINVAL) else inr (neg_start, Some end_)
            end
      end
  end.

(** ** The view of a list of locks *)

(** Owner [o] has a lock of type [ty] on byte [x]. *)
Definition covers (l : RecordLock) (x : Z) : Prop :=
  rl_start l <= x <= range_end_i128 (rl_end l).
Definition holds (locks : list RecordLock) (o : RecordLockOwner) (x ty : Z) : Prop :=
  exists l, l ∈ locks /\ rl_owner l = o /\ rl_lock_type l = ty /\ covers l x.

Definition in_range (start : Z) (end_ : option Z) (x : Z) : Prop := start <= x <= range_end_i128 end_.

Definition lock_ok (l : RecordLock) : Prop :=
  0 <= rl_start l <= I64_MAX /\
  match rl_end l with Some e => rl_start l <= e <= I64_MAX | None => True end /\
  (rl_lock_type l = F_RDLCK \/ rl_lock_type l = F_WRLCK).

(** What a table of locks promises, at every offset a file can have: an owner has
    one type of lock on a byte, and two owners share a byte only for reading. *)
Record locks_ok (locks : list RecordLock) : Prop := {
  lo_ok : Forall lock_ok locks;
  lo_type : forall o x t1 t2, x <= I64_MAX -> holds locks o x t1 -> holds locks o x t2 -> t1 = t2;
  lo_shared : forall o1 o2 x t1 t2, x <= I64_MAX -> o1 <> o2 ->
    holds locks o1 x t1 -> holds locks o2 x t2 -> t1 = F_RDLCK /\ t2 = F_RDLCK
}.

Definition request_ok (req_type req_start : Z) (req_end : option Z) : Prop :=
  0 <= req_start <= I64_MAX /\
  match req_end with Some e => req_start <= e <= I64_MAX | None => True end /\
  (req_type = F_RDLCK \/ req_type = F_WRLCK \/ req_type = F_UNLCK).

Lemma holds_nil o x t : ~ holds [] o x t.
Proof. intros (l & Hl & _). by apply elem_of_nil in Hl. Qed.

Lemma holds_app l1 l2 o x t : holds (l1 ++ l2) o x t <-> holds l1 o x t \/ holds l2 o x t.
Proof.
  unfold holds. split.
  - intros (l & [?|?]%elem_of_app & ?); [left|right]; eauto.
  - intros [(l & ? & ?)|(l & ? & ?)]; exists l; rewrite elem_of_app; tauto.
Qed.

Lemma holds_single l o x t :
  holds [l] o x t <-> rl_owner l = o /\ rl_lock_type l = t /\ covers l x.
Proof.
  unfold holds. split.
  - by intros (l' & ->%list_elem_of_singleton & ?).
  - intros ?. exists l. by rewrite list_elem_of_singleton.
Qed.

Lemma holds_perm l1 l2 o x t : l1 ≡ₚ l2 -> holds l1 o x t <-> holds l2 o x t.
Proof. intros Hp. unfold holds. by setoid_rewrite Hp. Qed.

Lemma holds_concat ls o x t : holds (concat ls) o x t <-> exists l, l ∈ ls /\ holds l o x t.
Proof.
  unfold holds. setoid_rewrite elem_of_concat. split.
  - intros (l & (ls' & ? & ?) & ?). exists ls'. eauto.
  - intros (ls' & ? & l & ? & ?). exists l. eauto.
Qed.

(** ** Normalization keeps the view *)

(** Sorted by the start within an owner. *)
Definition lock_le (a b : RecordLock) : Prop := rl_owner a = rl_owner b -> rl_start a <= rl_start b.

Lemma owner_key_inj o1 o2 : owner_key o1 = owner_key o2 -> o1 = o2.
Proof. destruct o1, o2; simpl; congruence. Qed.

Lemma key_le_lock_le a b : key_le record_key a b -> lock_le a b.
Proof.
  unfold key_le, lock_le, record_key. intros Hle Ho. rewrite Ho in Hle.
  apply Z.nlt_ge. intros Hlt. apply Z.ltb_lt in Hlt. revert Hle.
  destruct (owner_key (rl_owner b)) as [i j]. cbn. rewrite !Z.ltb_irrefl, Hlt. done.
Qed.

Lemma merge_covers a l x :
  lock_ok a -> lock_ok l -> rl_start a <= rl_start l ->
  ranges_touch_or_overlap_sorted (rl_end a) (rl_start l) = true ->
  covers (a {{ rl_end := max_range_end (rl_end a) (rl_end l) }}) x <-> covers a x \/ covers l x.
Proof.
  unfold lock_ok, covers, ranges_touch_or_overlap_sorted, max_range_end, range_end_i128, i64_saturate.
  destruct a as [? ? ? sa ea], l as [? ? ? sl el]. cbn. destruct ea, el; cbn; lia.
Qed.

Lemma merge_ok a l :
  lock_ok a -> lock_ok l -> lock_ok (a {{ rl_end := max_range_end (rl_end a) (rl_end l) }}).
Proof.
  unfold lock_ok, max_range_end.
  destruct a as [? ? ? sa ea], l as [? ? ? sl el]. cbn. destruct ea, el; cbn; lia.
Qed.

(** The sortedness the loop needs of what is merged and what is left. *)
Definition ready_for (merged : list RecordLock) (l : RecordLock) : Prop :=
  forall a, last merged = Some a -> lock_le a l.

Lemma merge_push_cases merged l :
  (exists m a, merged = m ++ [a] /\ rl_owner a = rl_owner l /\ rl_lock_type a = rl_lock_type l /\
     ranges_touch_or_overlap_sorted (rl_end a) (rl_start l) = true /\
     merge_push merged l = m ++ [a {{ rl_end := max_range_end (rl_end a) (rl_end l) }}]) \/
  (merge_push merged l = merged ++ [l]).
Proof.
  unfold merge_push. destruct merged as [|a m _] using rev_ind; [by right|].
  rewrite last_snoc, removelast_last. case_match eqn:E; [|by right].
  left. exists m, a. rewrite !andb_true_iff in E.
  destruct E as ((Ho%bool_decide_eq_true & Ht%Z.eqb_eq) & Hr). done.
Qed.

Lemma merge_push_spec merged l :
  Forall lock_ok merged -> lock_ok l -> ready_for merged l ->
  Forall lock_ok (merge_push merged l) /\
  (forall o x t, holds (merge_push merged l) o x t <-> holds merged o x t \/ holds [l] o x t) /\
  (forall b, lock_le l b -> ready_for merged b -> ready_for (merge_push merged l) b).
Proof.
  intros Hm Hl Hr. destruct (merge_push_cases merged l) as [(m & a & -> & Ho & Ht & Htouch & ->)| ->].
  - rewrite Forall_app, Forall_singleton in Hm. destruct Hm as [Hm Ha].
    assert (rl_start a <= rl_start l) as Hle by (apply Hr; [by rewrite last_snoc|done]).
    split_and!.
    + apply Forall_app. split; [done|]. apply Forall_singleton. by apply merge_ok.
    + intros o x t. rewrite !holds_app, !holds_single, merge_covers by done. cbn. naive_solver.
    + intros b Hb Hrb c. rewrite last_snoc. intros [= <-]. apply (Hrb a). by rewrite last_snoc.
  - split_and!.
    + apply Forall_app. split; [done|]. by apply Forall_singleton.
    + intros o x t. by rewrite holds_app.
    + intros b Hb _ c. rewrite last_snoc. by intros [= <-].
Qed.

Lemma merge_fold_spec ls merged :
  Forall lock_ok merged -> Forall lock_ok ls -> StronglySorted lock_le ls ->
  Forall (ready_for merged) ls ->
  Forall lock_ok (foldl merge_push merged ls) /\
  forall o x t, holds (foldl merge_push merged ls) o x t <-> holds merged o x t \/ holds ls o x t.
Proof.
  revert merged. induction ls as [|l ls IH]; intros merged Hm Hls Hs Hr; simpl.
  - split; [done|]. intros o x t. split; [by left|]. intros [?|H]; [done|]. by apply holds_nil in H.
  - apply Forall_cons in Hls as [Hl Hls]. apply StronglySorted_inv in Hs as [Hs Hall].
    apply Forall_cons in Hr as [Hr Hrs].
    destruct (merge_push_spec _ _ Hm Hl Hr) as (Hok & Hh & Hrdy).
    destruct (IH (merge_push merged l)) as [IHok IHh]; [done..| |].
    { apply Forall_forall. intros b Hb. apply Hrdy; [|by eapply Forall_forall in Hrs].
      by eapply Forall_forall in Hall. }
    split; [done|]. intros o x t. rewrite IHh, Hh.
    change (l :: ls) with ([l] ++ ls). rewrite holds_app. tauto.
Qed.

Lemma sorted_impl {A} (R S : A -> A -> Prop) l :
  (forall a b, R a b -> S a b) -> StronglySorted R l -> StronglySorted S l.
Proof.
  intros HRS. induction 1 as [|x l Hs IH Hall]; constructor; [done|].
  eapply Forall_impl; [done|]. auto.
Qed.

Lemma filter_not_unlck locks :
  Forall lock_ok locks -> List.filter (fun lock => negb (rl_lock_type lock =? F_UNLCK)) locks = locks.
Proof.
  induction 1 as [|l ls Hl _ IH]; simpl; [done|]. rewrite IH.
  destruct (rl_lock_type l =? 2) eqn:E; simpl; [|done]. destruct Hl as (_ & _ & Ht). lia.
Qed.

Lemma normalize_record_locks_spec locks :
  Forall lock_ok locks ->
  Forall lock_ok (normalize_record_locks locks) /\
  forall o x t, holds (normalize_record_locks locks) o x t <-> holds locks o x t.
Proof.
  intros Hok. unfold normalize_record_locks. rewrite filter_not_unlck by done.
  destruct (merge_fold_spec (sort_by_ord record_key locks) []) as [Hok' Hh].
  - constructor.
  - by rewrite sort_by_ord_perm.
  - eapply sorted_impl; [|apply sort_by_ord_sorted]. apply key_le_lock_le.
  - apply Forall_true. intros l a. by rewrite last_nil.
  - split; [done|]. intros o x t. rewrite Hh, (holds_perm _ _ _ _ _ (sort_by_ord_perm _ locks)).
    split; [intros [H|?]; [by apply holds_nil in H|done]|by right].
Qed.

(** ** Applying a request *)

Section Request.
Context (req_type req_start : Z) (req_end : option Z) (owner : RecordLockOwner).
Hypothesis Hreq : request_ok req_type req_start req_end.

Lemma ranges_overlap_iff s e :
  s <= range_end_i128 e ->
  ranges_overlap req_start req_end s e = true <->
  exists x, in_range req_start req_end x /\ s <= x <= range_end_i128 e.
Proof.
  unfold ranges_overlap, in_range. intros Hse. rewrite andb_true_iff, !Z.leb_le.
  assert (req_start <= range_end_i128 req_end).
  { destruct Hreq as (? & ? & _). unfold range_end_i128. destruct req_end; simpl; lia. }
  split.
  - intros [H1 H2]. exists (Z.max req_start s). lia.
  - intros (x & H1 & H2). lia.
Qed.

Lemma lock_ok_nonempty l : lock_ok l -> rl_start l <= range_end_i128 (rl_end l).
Proof. intros (? & ? & _). unfold range_end_i128. destruct (rl_end l); simpl; lia. Qed.

(** [lock_conflicts] is: some byte is in both ranges, the owners differ, and one
    of the two locks is for writing. *)
Lemma lock_conflicts_iff l :
  lock_ok l ->
  lock_conflicts req_type req_start req_end owner l = true <->
  rl_owner l <> owner /\ req_type <> F_UNLCK /\ (req_type = F_WRLCK \/ rl_lock_type l = F_WRLCK) /\
  exists x, in_range req_start req_end x /\ covers l x.
Proof.
  intros Hl. pose proof (lock_ok_nonempty l Hl) as Hne.
  pose proof (ranges_overlap_iff (rl_start l) (rl_end l) Hne) as Hov.
  destruct Hl as (_ & _ & Ht), Hreq as (_ & _ & Hty). unfold lock_conflicts.
  destruct (decide (rl_owner l = owner)) as [Ho|Ho].
  { rewrite bool_decide_true by done. simpl. naive_solver. }
  rewrite bool_decide_false by done. destruct (rl_lock_type l =? 2) eqn:E2; [lia|]. simpl.
  destruct (ranges_overlap _ _ _ _) eqn:Eo; simpl.
  - destruct Hov as [Hx _]. specialize (Hx eq_refl). destruct (req_type =? 0) eqn:E0; [|destruct (req_type =? 1) eqn:E1].
    all: rewrite ?orb_true_iff, ?Z.eqb_eq; unfold covers in *; naive_solver lia.
  - split; [done|]. intros (_ & _ & _ & Hx). by apply (proj2 Hov) in Hx.
Qed.

Lemma left_part_spec l :
  lock_ok l -> ranges_overlap req_start req_end (rl_start l) (rl_end l) = true ->
  Forall lock_ok (left_part req_start l) /\
  forall o x t, holds (left_part req_start l) o x t <-> holds [l] o x t /\ x < req_start.
Proof.
  intros Hl Hov. unfold left_part, ranges_overlap in *. destruct Hreq as (Hr1 & Hr2 & _).
  destruct l as [lo lp lt ls le], Hl as (H1 & H2 & H3). simpl in *.
  assert (req_start <= range_end_i128 le) as Hle by lia. clear Hov.
  destruct (ls <? req_start) eqn:E; split.
  - apply Forall_singleton. unfold lock_ok. cbn. lia.
  - intros o x t. rewrite !holds_single. unfold covers. cbn. naive_solver lia.
  - constructor.
  - intros o x t. rewrite holds_single. unfold covers. cbn. split; [by intros ?%holds_nil|lia].
Qed.

Lemma right_part_spec l :
  lock_ok l -> ranges_overlap req_start req_end (rl_start l) (rl_end l) = true ->
  Forall lock_ok (right_part req_end l) /\
  forall o x t, x <= I64_MAX ->
    holds (right_part req_end l) o x t <-> holds [l] o x t /\ range_end_i128 req_end < x.
Proof.
  intros Hl Hov. unfold right_part, ranges_overlap, range_end_i128 in *. destruct Hreq as (Hr1 & Hr2 & _).
  destruct l as [lo lp lt ls le], Hl as (H1 & H2 & H3). simpl in *.
  assert (forall o x t, x <= I64_MAX -> holds [mkRecordLock lo lp lt ls le] o x t /\
    unwrap_or req_end I128_MAX < x -> exists e, req_end = Some e /\ e < x /\ x <= unwrap_or le I128_MAX) as Hx.
  { intros o x t Hx [(_ & _ & Hc)%holds_single Hlt]. unfold covers in Hc. simpl in Hc.
    destruct req_end; simpl in *; [eexists; split; [done|]; unfold range_end_i128 in Hc; lia|lia]. }
  destruct req_end as [re|]; simpl in *; [destruct (re <? I64_MAX) eqn:E1; [destruct le as [le|]; simpl in *;
    [destruct (re + 1 <=? le) eqn:E2|]|]|].
  all: split; [first [constructor; fail|apply Forall_singleton; unfold lock_ok; cbn; lia]|intros o x t Hx64].
  all: try (split; [by intros ?%holds_nil|intros (e & ? & ? & ?)%Hx; [simplify_eq; lia|done]]).
  all: rewrite !holds_single; unfold covers; cbn; naive_solver lia.
Qed.

Lemma split_lock_spec l :
  lock_ok l ->
  Forall lock_ok (split_lock owner req_start req_end l) /\
  forall o x t, x <= I64_MAX ->
    holds (split_lock owner req_start req_end l) o x t <->
    holds [l] o x t /\ ~ (o = owner /\ in_range req_start req_end x).
Proof.
  intros Hl. unfold split_lock.
  destruct (decide (rl_owner l = owner)) as [Ho|Ho].
  2: { rewrite bool_decide_false by done. simpl. split; [by apply Forall_singleton|].
       intros o x t _. rewrite holds_single. naive_solver. }
  rewrite bool_decide_true by done. simpl.
  destruct (ranges_overlap req_start req_end (rl_start l) (rl_end l)) eqn:Eo; simpl.
  - destruct (left_part_spec l Hl Eo) as [Hok1 Hh1], (right_part_spec l Hl Eo) as [Hok2 Hh2].
    split; [by apply Forall_app|]. intros o x t Hx. rewrite holds_app, Hh1, Hh2 by done.
    rewrite holds_single. unfold in_range. split.
    + intros [[? ?]|[? ?]]; (split; [done|lia]).
    + intros [(<- & ? & ?) Hno]. destruct (Z.lt_ge_cases x req_start) as [?|?]; [by left|right].
      split; [done|]. apply Z.nle_gt. intros ?. by apply Hno.
  - split; [by apply Forall_singleton|]. intros o x t _. split; [|tauto]. intros Hh. split; [done|].
    intros [_ Hin]. apply holds_single in Hh as (_ & _ & Hc).
    assert (ranges_overlap req_start req_end (rl_start l) (rl_end l) = true); [|congruence].
    apply ranges_overlap_iff; [by apply lock_ok_nonempty|]. by exists x.
Qed.
End Request.

(** The view of the table after a request was applied. *)
Definition view_after (locks : list RecordLock) (req_type req_start : Z) (req_end : option Z)
    (owner : RecordLockOwner) (locks' : list RecordLock) : Prop :=
  forall o x t, x <= I64_MAX ->
    holds locks' o x t <->
    (o = owner /\ in_range req_start req_end x /\ t = req_type /\ req_type <> F_UNLCK) \/
    (~ (o = owner /\ in_range req_start req_end x) /\ holds locks o x t).

Lemma apply_record_lock_view locks owner owner_pid req_type req_start req_end :
  Forall lock_ok locks -> request_ok req_type req_start req_end ->
  let locks' := (apply_record_lock_for_owner locks owner owner_pid req_type req_start req_end).2 in
  Forall lock_ok locks' /\ view_after locks req_type req_start req_end owner locks'.
Proof.
  intros Hok Hreq. unfold apply_record_lock_for_owner. cbn [snd].
  set (new := mkRecordLock owner owner_pid req_type req_start req_end).
  set (parts := concat (map (split_lock owner req_start req_end) locks)).
  assert (Forall lock_ok parts /\ forall o x t, x <= I64_MAX ->
    holds parts o x t <-> ~ (o = owner /\ in_range req_start req_end x) /\ holds locks o x t) as [Hp Hph].
  { rewrite Forall_forall in Hok. split.
    - apply Forall_concat, Forall_map, Forall_forall. intros l Hl. simpl.
      by apply (split_lock_spec req_type), Hok.
    - intros o x t Hx. unfold parts. rewrite holds_concat. split.
      + intros (ls & (l & -> & Hl)%list_elem_of_fmap & Hh).
        apply (split_lock_spec req_type) in Hh as [Hh ?]; [|by auto..].
        split; [done|]. apply holds_single in Hh. by exists l.
      + intros [Hno (l & Hl & Hh)]. exists (split_lock owner req_start req_end l).
        split; [by apply list_elem_of_fmap_2|].
        apply (split_lock_spec req_type); [by auto..|]. split; [by apply holds_single|done]. }
  destruct (normalize_record_locks_spec
    (if negb (req_type =? F_UNLCK) then vec_push parts new else parts)) as [Hok' Hh'].
  { destruct Hreq as (? & ? & ?), (req_type =? F_UNLCK) eqn:E; simpl; [done|]. apply Forall_app. split; [done|].
    apply Forall_singleton. split; [done|split; [done|]]. simpl. lia. }
  split; [done|]. intros o x t Hx. rewrite Hh', <- Hph by done.
  destruct (req_type =? F_UNLCK) eqn:E; simpl.
  - assert (req_type = F_UNLCK) by lia. tauto.
  - assert (req_type <> F_UNLCK) by lia. unfold vec_push. rewrite holds_app, holds_single.
    unfold covers, in_range, new. simpl. naive_solver.
Qed.

Lemma no_conflict_shared locks owner req_type req_start req_end o x t :
  locks_ok locks -> request_ok req_type req_start req_end ->
  existsb (lock_conflicts req_type req_start req_end owner) locks = false ->
  o <> owner -> req_type <> F_UNLCK -> in_range req_start req_end x -> holds locks o x t ->
  req_type = F_RDLCK /\ t = F_RDLCK.
Proof.
  intros [Hok _ _] Hreq Hno Ho Hu Hin (l & Hl & <- & <- & Hc).
  assert (lock_ok l) as Hlok by (by eapply Forall_forall in Hok).
  assert (lock_conflicts req_type req_start req_end owner l = false) as Hfalse.
  { apply not_true_iff_false. intros Hconf. rewrite <- not_true_iff_false in Hno.
    apply Hno, existsb_exists. exists l. by rewrite <- list_elem_of_In. }
  destruct (decide (req_type = F_WRLCK \/ rl_lock_type l = F_WRLCK)) as [Hw|Hw].
  - assert (lock_conflicts req_type req_start req_end owner l = true); [|congruence].
    apply lock_conflicts_iff; [done..|]. split_and!; [done..|]. by exists x.
  - destruct Hreq as (_ & _ & ?), Hlok as (_ & _ & ?). lia.
Qed.

Lemma apply_record_lock_ok locks owner owner_pid req_type req_start req_end :
  locks_ok locks -> request_ok req_type req_start req_end ->
  existsb (lock_conflicts req_type req_start req_end owner) locks = false ->
  let (changed, locks') := apply_record_lock_for_owner locks owner owner_pid req_type req_start req_end in
  locks_ok locks' /\ view_after locks req_type req_start req_end owner locks' /\
  (changed = false <-> locks' = locks).
Proof.
  intros Hok Hreq Hno.
  destruct (apply_record_lock_view locks owner owner_pid req_type req_start req_end) as [Hok' Hv];
    [apply Hok|done|].
  destruct (apply_record_lock_for_owner _ _ _ _ _ _) as [changed locks'] eqn:Ea. simpl in *.
  pose proof (fun o x t => no_conflict_shared _ _ _ _ _ o x t Hok Hreq Hno) as Hsh. destruct Hok as [Hlok Hty Hs]. split_and!.
  - split; [done| |].
    + intros o x t1 t2 Hx H1%Hv H2%Hv; [|done..]. naive_solver.
    + intros o1 o2 x t1 t2 Hx Hne H1%Hv H2%Hv; [|done..].
      destruct H1 as [(-> & Hin & -> & Hu)|[Hn1 H1]], H2 as [(-> & Hin2 & -> & Hu2)|[Hn2 H2]]; [done| | |].
      * by eapply Hsh.
      * apply and_comm. by eapply Hsh.
      * eauto.
  - done.
  - unfold apply_record_lock_for_owner in Ea. injection Ea as <- <-.
    rewrite negb_false_iff, bool_decide_eq_true. by split.
Qed.

(** C28: A request that conflicts with no lock is granted exactly: the owner gets the
    requested lock on every byte of the range (or loses what it had there), every
    other lock on every byte stays, and no two owners can share a byte that one
    of them has locked for writing.  When the call reports no change there was
    none. *)
Theorem apply_record_lock_correct locks owner owner_pid req_type req_start req_end :
  locks_ok locks -> request_ok req_type req_start req_end ->
  existsb (lock_conflicts req_type req_start req_end owner) locks = false ->
  let (changed, locks') := apply_record_lock_for_owner locks owner owner_pid req_type req_start req_end in
  locks_ok locks' /\ view_after locks req_type req_start req_end owner locks' /\
  (changed = false <-> locks' = locks).
Proof. apply apply_record_lock_ok. Qed.

(** ** What the readers of a table learn *)

(** [F_GETLK] answers with no lock exactly when none conflicts on any byte, and
    otherwise with a conflicting lock that starts first. *)
Theorem first_conflicting_lock_spec locks req_type req_start req_end owner :
  Forall lock_ok locks -> request_ok req_type req_start req_end ->
  match first_conflicting_lock locks req_type req_start req_end owner with
  | Some l =>
      l ∈ locks /\ lock_conflicts req_type req_start req_end owner l = true /\
      forall l', l' ∈ locks -> lock_conflicts req_type req_start req_end owner l' = true ->
        rl_start l <= rl_start l'
  | None =>
      forall o x t, holds locks o x t -> o <> owner -> in_range req_start req_end x ->
        req_type = F_UNLCK \/ (req_type = F_RDLCK /\ t = F_RDLCK)
  end.
Proof.
  intros Hok Hreq. unfold first_conflicting_lock.
  pose proof (min_by_spec conflict_key
    (List.filter (lock_conflicts req_type req_start req_end owner) locks)) as Hmin.
  destruct (min_by _ _) as [l|].
  - destruct Hmin as [[Hl Hc]%list_elem_of_In%filter_In Hall]. rewrite list_elem_of_In.
    split_and!; [done..|]. intros l' Hl' Hc'.
    assert (key_le conflict_key l l') as Hle.
    { eapply Forall_forall in Hall; [done|]. by apply list_elem_of_In, filter_In; rewrite <- list_elem_of_In. }
    unfold key_le, conflict_key in Hle. apply Z.nlt_ge. intros Hlt%Z.ltb_lt. revert Hle.
    cbn. by rewrite Hlt.
  - intros o x t (l & Hl & <- & <- & Hc) Ho Hin.
    assert (lock_ok l) as Hlok by (by eapply Forall_forall in Hok).
    assert (lock_conflicts req_type req_start req_end owner l <> true) as Hno.
    { intros Ht. assert (l ∈ List.filter (lock_conflicts req_type req_start req_end owner) locks) as Hin'.
      { apply list_elem_of_In, filter_In. by rewrite <- list_elem_of_In. }
      rewrite Hmin in Hin'. by apply elem_of_nil in Hin'. }
    rewrite lock_conflicts_iff in Hno by done. destruct Hreq as (_ & _ & Ht), Hlok as (_ & _ & Htl).
    destruct (decide (req_type = F_UNLCK)) as [->|Hu]; [by left|right].
    destruct (decide (req_type = F_WRLCK \/ rl_lock_type l = F_WRLCK)) as [Hw|Hw]; [|lia].
    exfalso. apply Hno. split_and!; [done..|]. by exists x.
Qed.

(** A range from user space, once accepted, is not empty and does not leave the
    offsets of a file. *)
Lemma lock_range_from_flock_ok os_inode flock start end_ ty :
  match os_inode with Some (offset, size) => 0 <= offset /\ 0 <= size | None => True end ->
  (ty = F_RDLCK \/ ty = F_WRLCK \/ ty = F_UNLCK) ->
  lock_range_from_flock os_inode flock = inr (start, end_) -> request_ok ty start end_.
Proof.
  intros Hin Hty. unfold lock_range_from_flock, request_ok.
  destruct (flock_base os_inode (l_whence flock)) as [e|base]; [done|]. unfold i64_checked.
  repeat (case_match; simplify_eq; try done); intros; simplify_eq; split_and!; lia.
Qed.

Lemma collect_conflict_process_owners_elem locks ty s e p q :
  q ∈ collect_conflict_process_owners locks ty s e p <->
  exists l, l ∈ locks /\ rl_owner l = Process q /\ lock_conflicts ty s e (Process p) l = true.
Proof.
  unfold collect_conflict_process_owners.
  assert (forall acc, bt_wf acc ->
    let f := fun owners lock => if lock_conflicts ty s e (Process p) lock then
      match rl_owner lock with Process pid => bs_insert owners pid | OpenFile _ => owners end else owners in
    q ∈ bs_iter (foldl f acc locks) <-> q ∈ bs_iter acc \/
      exists l, l ∈ locks /\ rl_owner l = Process q /\ lock_conflicts ty s e (Process p) l = true) as H.
  { induction locks as [|l locks IH]; intros acc Hwf; simpl.
    - split; [by left|]. intros [?|(l & Hl & _)]; [done|]. by apply elem_of_nil in Hl.
    - rewrite IH by (repeat case_match; eauto using bt_wf_insert).
      assert ((exists l0, l0 ∈ l :: locks /\ rl_owner l0 = Process q /\
                 lock_conflicts ty s e (Process p) l0 = true) <->
              (rl_owner l = Process q /\ lock_conflicts ty s e (Process p) l = true) \/
              exists l0, l0 ∈ locks /\ rl_owner l0 = Process q /\
                lock_conflicts ty s e (Process p) l0 = true) as ->.
      { split.
        - intros (l0 & [->|?]%elem_of_cons & ?); [by left|right; by exists l0].
        - intros [?|(l0 & ? & ?)]; [exists l|exists l0]; (split; [|done]); [left|by right]. }
      destruct (lock_conflicts ty s e (Process p) l) eqn:Ec; [|intuition congruence].
      destruct (rl_owner l) as [pid|id] eqn:Eo; [rewrite bs_insert_elem by done|];
        intuition congruence. }
  rewrite H by apply bt_wf_nil. split; [|by right].
  intros [Hn|?]; [by apply elem_of_nil in Hn|done].
Qed.

(** ** Instances *)

(** Process 1 has the first ten bytes for writing; process 2 reads behind them. *)
Definition some_locks : list RecordLock :=
  [mkRecordLock (Process 1) 1 F_WRLCK 0 (Some 9); mkRecordLock (Process 2) 2 F_RDLCK 20 None].

Lemma some_locks_ok : locks_ok some_locks.
Proof.
  assert (forall o x t, holds some_locks o x t ->
    (o = Process 1 /\ t = F_WRLCK /\ 0 <= x <= 9) \/ (o = Process 2 /\ t = F_RDLCK /\ 20 <= x)) as Hh.
  { intros o x t (l & Hl & <- & <- & Hc). unfold covers in Hc.
    apply elem_of_cons in Hl as [->|Hl]; [|apply list_elem_of_singleton in Hl as ->]; cbn in Hc; cbn; [left|right]; (split; [done|lia]). }
  split.
  - repeat constructor; cbn; lia.
  - intros o x t1 t2 _ H1%Hh H2%Hh. naive_solver lia.
  - intros o1 o2 x t1 t2 _ Hne H1%Hh H2%Hh. naive_solver lia.
Qed.

(** Process 1 gives up the middle of its range. *)
Lemma apply_record_lock_correct_witness :
  let (changed, locks') := apply_record_lock_for_owner some_locks (Process 1) 1 F_UNLCK 3 (Some 5) in
  locks_ok locks' /\ view_after some_locks F_UNLCK 3 (Some 5) (Process 1) locks' /\
  (changed = false <-> locks' = some_locks).
Proof.
  apply (apply_record_lock_correct some_locks (Process 1) 1 F_UNLCK 3 (Some 5)).
  - apply some_locks_ok.
  - unfold request_ok. lia.
  - vm_compute. reflexivity.
Defined.

Lemma first_conflicting_lock_spec_witness :
  match first_conflicting_lock some_locks F_WRLCK 15 None (Process 3) with
  | Some l =>
      l ∈ some_locks /\ lock_conflicts F_WRLCK 15 None (Process 3) l = true /\
      forall l', l' ∈ some_locks -> lock_conflicts F_WRLCK 15 None (Process 3) l' = true ->
        rl_start l <= rl_start l'
  | None =>
      forall o x t, holds some_locks o x t -> o <> Process 3 -> in_range 15 None x ->
        F_WRLCK = F_UNLCK \/ (F_WRLCK = F_RDLCK /\ t = F_RDLCK)
  end.
Proof.
  apply (first_conflicting_lock_spec some_locks F_WRLCK 15 None (Process 3)).
  - apply some_locks_ok.
  - unfold request_ok. lia.
Defined.
