(* ===== verification/RecordWait.v ===== *)
(** * Blocking requests for record locks

    The state of [syscall/filesystem/lock_utils.rs] (lock table, wait queues,
    blocked processes), deadlock detection, and the loop of [F_SETLK] and
    [F_SETLKW] in [syscall_fcntl].  Each step of [lock_step] is what a thread does
    under one acquisition of one lock, so every interleaving of any number of
    threads is covered.  Kernel code is not preempted (a timer interrupt in
    kernel mode only sets a flag), so that a wakeup of a thread that has not
    gone to sleep yet is kept by the scheduler until it does: [th_woken]. *)

From S2P Require Import Prelude.
From S2P Require Import BTree.
From S2P Require Import Errno.
From S2P Require Import RecordLocks.

Record LockState := mkLockState {
  ls_locks : list (FileLockKey * list RecordLock);
  ls_waiters : list (FileLockKey * list Z);
  ls_blocked : list (Z * WaitingRecordLock)
}.
#[export] Instance fields_LockState : Fields LockState := fun s =>
  mkLockState (ls_locks s) (ls_waiters s) (ls_blocked s).

Definition no_locks : LockState := mkLockState [] [] [].

(** The locks of a file; a missing entry is an empty list. *)
Definition locks_of (s : LockState) (key : FileLockKey) : list RecordLock :=
  unwrap_or (bt_get (ls_locks s) key) [].
Definition waiters_of (s : LockState) (key : FileLockKey) : list Z :=
  unwrap_or (bt_get (ls_waiters s) key) [].

(** Store a list, dropping an entry that becomes empty. *)
Definition store_locks (s : LockState) (key : FileLockKey) (locks : list RecordLock) : LockState :=
  s {{ ls_locks := match locks with
                   | [] => bt_remove (ls_locks s) key
                   | _ => bt_insert (ls_locks s) key locks
                   end }}.

(** ** Wait queues and blocked processes *)

Definition set_record_lock_waiting (s : LockState) (pid : Z) (w : WaitingRecordLock) : LockState :=
  s {{ ls_blocked := bt_insert (ls_blocked s) pid w }}.

Definition clear_record_lock_waiting (s : LockState) (pid : Z) : LockState :=
  s {{ ls_blocked := bt_remove (ls_blocked s) pid }}.

Definition enqueue_record_lock_waiter (s : LockState) (key : FileLockKey) (task : Z) : LockState :=
  let queue := waiters_of s key in
  let queue := if existsb (Z.eqb task) queue then queue else vec_push queue task in
  s {{ ls_waiters := bt_insert (ls_waiters s) key queue }}.

Definition remove_record_lock_waiter (s : LockState) (key : FileLockKey) (task : Z) : LockState :=
  match bt_get (ls_waiters s) key with
  | None => s
  | Some queue =>
      match List.filter (fun waiter => negb (waiter =? task)) queue with
      | [] => s {{ ls_waiters := bt_remove (ls_waiters s) key }}
      | queue => s {{ ls_waiters := bt_insert (ls_waiters s) key queue }}
      end
  end.

Definition take_record_lock_waiters (s : LockState) (key : FileLockKey) : list Z * LockState :=
  (waiters_of s key, s {{ ls_waiters := bt_remove (ls_waiters s) key }}).

(** ** Releasing the locks of a process *)

(** The change of [remove_process_record_locks_for_key] to the table: the keys
    whose waiters it wakes, and the new table. *)
Definition remove_process_record_locks_for_key (s : LockState) (owner_pid : Z) (key : FileLockKey)
    : list FileLockKey * LockState :=
  match bt_get (ls_locks s) key with
  | None => ([], s)
  | Some locks =>
      let locks' := List.filter (fun lock => negb (bool_decide (rl_owner lock = Process owner_pid))) locks in
      (if Nat.eqb (length locks') (length locks) then [] else [key], store_locks s key locks')
  end.

(** The loop of [release_all_record_locks_for_owner] over the keys of the table. *)
Definition release_key (owner_pid : Z) (acc : list FileLockKey * LockState) (key : FileLockKey)
    : list FileLockKey * LockState :=
  let (changed, s) := acc in
  match bt_get (ls_locks s) key with
  | None => (changed, s)
  | Some locks =>
      let locks' := List.filter (fun lock => negb (rl_owner_pid lock =? owner_pid)) locks in
      (if Nat.eqb (length locks') (length locks) then changed else vec_push changed key,
       store_locks s key locks')
  end.

Definition release_all_record_locks_for_owner (s : LockState) (owner_pid : Z)
    : list FileLockKey * LockState :=
  let s := clear_record_lock_waiting s owner_pid in
  foldl (release_key owner_pid) ([], s) (map fst (ls_locks s)).

(** ** Deadlock detection *)

(** The processes a blocked process waits for. *)
Definition blocked_on (s : LockState) (pid : Z) : list Z :=
  match bt_get (ls_blocked s) pid with
  | None => []
  | Some waiting =>
      match bt_get (ls_locks s) (wl_key waiting) with
      | None => []
      | Some locks =>
          collect_conflict_process_owners locks (wl_req_type waiting) (wl_start waiting)
            (wl_end waiting) pid
      end
  end.

Fixpoint detect_loop (fuel : nat) (s : LockState) (waiter_pid : Z) (stack : list Z)
    (visited : list (Z * unit)) : option bool :=
  match fuel with
  | O => None
  | S fuel =>
      match vec_pop stack with
      | None => Some false
      | Some (pid, stack) =>
          if pid =? waiter_pid then Some true
          else if bs_contains visited pid then detect_loop fuel s waiter_pid stack visited
          else
            let visited := bs_insert visited pid in
            let new := List.filter (fun owner => negb (bs_contains visited owner)) (blocked_on s pid) in
            detect_loop fuel s waiter_pid (stack ++ new) visited
      end
  end.

(** Every pass of the loop takes one entry off the stack, and only the first
    visit of a blocked process adds entries. *)
Definition detect_fuel (s : LockState) (conflict_owners : list Z) : nat :=
  S (length conflict_owners +
     sum_list (map (fun e => length (blocked_on s e.1)) (ls_blocked s))).

Definition detect_record_lock_deadlock (s : LockState) (waiter_pid : Z) (conflict_owners : list Z)
    : option bool :=
  detect_loop (detect_fuel s conflict_owners) s waiter_pid conflict_owners [].

(** Process [p] is recorded as blocked by a lock of process [q]. *)
Definition waits_for (s : LockState) (p q : Z) : Prop := q ∈ blocked_on s p.

(** The work left: the stack, and the edges of the processes not visited. *)
Definition detect_work (s : LockState) (stack : list Z) (visited : list (Z * unit)) : nat :=
  (length stack +
  sum_list (map (fun e => if bs_contains visited e.1 then O else length (blocked_on s e.1)) (ls_blocked s)))%nat.

Lemma blocked_on_key s pid : blocked_on s pid <> [] -> exists w, (pid, w) ∈ ls_blocked s.
Proof.
  unfold blocked_on. destruct (bt_get (ls_blocked s) pid) as [w|] eqn:E; [|done]. intros _.
  exists w. by apply bt_get_in.
Qed.

Lemma bs_contains_insert (visited : list (Z * unit)) p q :
  bs_contains (bs_insert visited p) q = (q =? p) || bs_contains visited q.
Proof.
  unfold bs_contains, bs_insert. rewrite bt_get_insert.
  destruct (q =? p) eqn:E; simpl.
  - assert (q = p) as -> by lia. by rewrite key_eqb_refl.
  - assert (key_eqb q p = false) as ->; [|done]. apply key_eqb_neq. lia.
Qed.

(** Visiting a process pays for the entries it pushes. *)
Lemma detect_work_visit s stack visited pid new :
  bs_contains visited pid = false -> (length new <= length (blocked_on s pid))%nat ->
  (detect_work s (stack ++ new) (bs_insert visited pid) <= detect_work s stack visited)%nat.
Proof.
  intros Hv Hnew. unfold detect_work. rewrite length_app.
  set (f := fun e : Z * WaitingRecordLock => if bs_contains visited e.1 then O else length (blocked_on s e.1)).
  set (g := fun e : Z * WaitingRecordLock =>
    if bs_contains (bs_insert visited pid) e.1 then O else length (blocked_on s e.1)).
  assert (forall l, (sum_list (map g l) <= sum_list (map f l))%nat) as Hle.
  { induction l as [|e l IH]; simpl; [done|]. unfold f at 1, g at 1. rewrite bs_contains_insert.
    destruct (e.1 =? pid), (bs_contains visited e.1); simpl; lia. }
  assert (forall l, (exists w, (pid, w) ∈ l) ->
    (sum_list (map g l) + length (blocked_on s pid) <= sum_list (map f l))%nat) as Hpay.
  { induction l as [|e l IH]; intros [w Hw]; [by apply elem_of_nil in Hw|]. simpl.
    apply elem_of_cons in Hw as [<-|Hw].
    - unfold f at 1, g at 1. simpl. rewrite bs_contains_insert, Z.eqb_refl, Hv. simpl.
      specialize (Hle l). lia.
    - assert (g e <= f e)%nat.
      { unfold f, g. rewrite bs_contains_insert. destruct (e.1 =? pid), (bs_contains visited e.1); simpl; lia. }
      specialize (IH (ex_intro _ w Hw)). lia. }
  destruct (blocked_on s pid) as [|q qs] eqn:Eb.
  - simpl in Hnew. specialize (Hle (ls_blocked s)). lia.
  - rewrite <- Eb in *. assert (blocked_on s pid <> []) as Hne by (by rewrite Eb).
    specialize (Hpay _ (blocked_on_key s pid Hne)). lia.
Qed.

(** What the loop keeps: everything seen is reachable, the waiter was not seen,
    and the edges of a visited process lead to something seen. *)
Record detect_inv (s : LockState) (waiter : Z) (owners stack : list Z) (visited : list (Z * unit)) : Prop := {
  di_wf : bt_wf visited;
  di_sound : forall p, p ∈ stack -> exists o, o ∈ owners /\ rtc (waits_for s) o p;
  di_reached : forall p, bs_contains visited p = true -> exists o, o ∈ owners /\ rtc (waits_for s) o p;
  di_start : forall o, o ∈ owners -> o ∈ stack \/ bs_contains visited o = true;
  di_edges : forall p q, bs_contains visited p = true -> waits_for s p q ->
    q ∈ stack \/ bs_contains visited q = true;
  di_waiter : bs_contains visited waiter = false
}.

Lemma detect_inv_skip s waiter owners stack visited pid :
  detect_inv s waiter owners (stack ++ [pid]) visited -> bs_contains visited pid = true ->
  detect_inv s waiter owners stack visited.
Proof.
  intros [Hwf Hs Hr Ho He Hw] Hp. split; try done.
  - intros p Hin. apply Hs. set_solver.
  - intros o [[?| ->%list_elem_of_singleton]%elem_of_app|?]%Ho; auto.
  - intros p q Hv Hq. destruct (He p q Hv Hq) as [[?| ->%list_elem_of_singleton]%elem_of_app|?]; auto.
Qed.

Lemma detect_inv_visit s waiter owners stack visited pid :
  detect_inv s waiter owners (stack ++ [pid]) visited -> pid <> waiter ->
  let visited' := bs_insert visited pid in
  let new := List.filter (fun owner => negb (bs_contains visited' owner)) (blocked_on s pid) in
  detect_inv s waiter owners (stack ++ new) visited'.
Proof.
  intros [Hwf Hs Hr Ho He Hw] Hp visited' new.
  assert (forall q, bs_contains visited' q = true <-> q = pid \/ bs_contains visited q = true) as Hv'.
  { intros q. unfold visited'. rewrite bs_contains_insert, orb_true_iff, Z.eqb_eq. done. }
  assert (forall q, q ∈ new <-> q ∈ blocked_on s pid /\ bs_contains visited' q = false) as Hnew.
  { intros q. unfold new. rewrite list_elem_of_In, filter_In, <- list_elem_of_In, negb_true_iff. done. }
  destruct (Hs pid) as (o & Hoo & Hrtc); [set_solver|]. split.
  - by apply bt_wf_insert.
  - intros p [?|[Hq _]%Hnew]%elem_of_app; [apply Hs; set_solver|].
    exists o. split; [done|]. by eapply rtc_r.
  - intros p [->|?]%Hv'; [by exists o|auto].
  - intros o' [[?| ->%list_elem_of_singleton]%elem_of_app|?]%Ho; rewrite elem_of_app, Hv'; auto.
  - intros p q [->|Hvp]%Hv' Hq.
    + destruct (bs_contains visited' q) eqn:E; [by right|left]. apply elem_of_app. right. by apply Hnew.
    + destruct (He p q Hvp Hq) as [[?| ->%list_elem_of_singleton]%elem_of_app|?];
        rewrite elem_of_app, Hv'; auto.
  - apply not_true_iff_false. rewrite Hv', Hw. by intros [->|?].
Qed.

Lemma detect_loop_correct fuel s waiter owners stack visited :
  detect_inv s waiter owners stack visited -> (detect_work s stack visited < fuel)%nat ->
  exists b, detect_loop fuel s waiter stack visited = Some b /\
    (b = true <-> exists o, o ∈ owners /\ rtc (waits_for s) o waiter).
Proof.
  revert stack visited. induction fuel as [|fuel IH]; intros stack visited Hinv Hfuel; [lia|]. simpl.
  destruct (vec_pop stack) as [[pid stack']|] eqn:Epop.
  - apply vec_pop_Some in Epop as ->. destruct (pid =? waiter) eqn:Ew.
    { assert (pid = waiter) as -> by lia. exists true. split; [done|]. split; [|done]. intros _.
      apply (di_sound _ _ _ _ _ Hinv). set_solver. }
    destruct (bs_contains visited pid) eqn:Ev.
    { apply IH; [by eapply detect_inv_skip|]. unfold detect_work in *. rewrite length_app in Hfuel.
      simpl in Hfuel. lia. }
    apply IH; [apply detect_inv_visit; [done|lia]|].
    pose proof (detect_work_visit s stack' visited pid
      (List.filter (fun owner => negb (bs_contains (bs_insert visited pid) owner)) (blocked_on s pid))) as Hpay.
    specialize (Hpay Ev (List.filter_length_le _ _)).
    unfold detect_work in *. rewrite length_app in Hfuel. simpl in Hfuel. lia.
  - apply vec_pop_None in Epop as ->. exists false. split; [done|]. split; [done|].
    intros (o & Ho & Hrtc). destruct Hinv as [_ _ _ Hstart Hedges Hw].
    assert (forall p, rtc (waits_for s) o p -> bs_contains visited p = true) as Hall.
    { apply (rtc_ind_r (fun p => bs_contains visited p = true)).
      - destruct (Hstart o Ho) as [Hn|?]; [by apply elem_of_nil in Hn|done].
      - intros p q _ Hpq Hp. destruct (Hedges p q Hp Hpq) as [Hn|?]; [by apply elem_of_nil in Hn|done]. }
    rewrite (Hall _ Hrtc) in Hw. done.
Qed.

(** C32: Deadlock detection terminates, and answers yes exactly when a chain of
    recorded waits leads from one of the conflicting owners back to the process
    that is about to wait. *)
Theorem detect_record_lock_deadlock_correct s waiter_pid conflict_owners :
  exists b, detect_record_lock_deadlock s waiter_pid conflict_owners = Some b /\
    (b = true <-> exists o, o ∈ conflict_owners /\ rtc (waits_for s) o waiter_pid).
Proof.
  apply detect_loop_correct.
  - split; try done.
    + apply bt_wf_nil.
    + intros p Hp. by exists p.
    + intros o. by left.
  - unfold detect_work, detect_fuel. apply Nat.lt_succ_r, Nat.add_le_mono_l.
    induction (ls_blocked s) as [|e l IH]; simpl; [done|]. lia.
Qed.

(** ** Requests *)

(** What the call reads of the file behind the descriptor. *)
Record LockFile := mkLockFile {
  lf_key : option FileLockKey;
  lf_os_inode : option (Z * Z);
  lf_readable : bool;
  lf_writable : bool;
  lf_id : Z
}.

Record LockRequest := mkLockRequest {
  lr_key : FileLockKey;
  lr_type : Z;
  lr_start : Z;
  lr_end : option Z;
  lr_owner : RecordLockOwner;
  lr_pid : Z;
  lr_is_ofd : bool;
  lr_blocking : bool
}.

(** The checks of the lock commands, before the table is looked at. *)
Definition fcntl_lock_request (file : LockFile) (owner_pid : Z) (is_ofd blocking : bool)
    (flock : FcntlFlock) : Z + LockRequest :=
  if is_ofd && negb (l_pid flock =? 0) then inl (err EINVAL)
  else
    match lf_key file with
    | None => inl (err EINVAL)
    | Some key =>
        let owner := if is_ofd then OpenFile (lf_id file) else Process owner_pid in
        match lock_range_from_flock (lf_os_inode file) flock with
        | inl e => inl e
        | inr (start, end_) =>
            let r := mkLockRequest key (l_type flock) start end_ owner owner_pid is_ofd blocking in
            if l_type flock =? F_RDLCK then if lf_readable file then inr r else inl (err EBADF)
            else if l_type flock =? F_WRLCK then if lf_writable file then inr r else inl (err EBADF)
            else if l_type flock =? F_UNLCK then inr r
            else inl (err EINVAL)
        end
    end.

Definition as_i32 (x : Z) : Z := (x + 2147483648) mod 4294967296 - 2147483648.

(** [F_GETLK] and [F_OFD_GETLK]: the answer written back to the caller. *)
Definition fcntl_getlk (s : LockState) (r : LockRequest) (flock : FcntlFlock) : FcntlFlock :=
  match first_conflicting_lock (locks_of s (lr_key r)) (l_type flock) (lr_start r) (lr_end r) (lr_owner r) with
  | Some lock =>
      flock {{ l_type := rl_lock_type lock; l_whence := 0; l_start := rl_start lock;
               l_len := match rl_end lock with
                        | Some lock_end => i64_saturate (i64_saturate (lock_end - rl_start lock) + 1)
                        | None => 0
                        end;
               l_pid := match rl_owner lock with Process pid => as_i32 pid | OpenFile _ => -1 end }}
  | None => flock {{ l_type := F_UNLCK }}
  end.

Definition conflicts (s : LockState) (r : LockRequest) : bool :=
  existsb (lock_conflicts (lr_type r) (lr_start r) (lr_end r) (lr_owner r)) (locks_of s (lr_key r)).

(** ** Threads *)

(** How a thread leaves its wait: back to the top of the loop, out of the loop,
    or through the clean-up behind it. *)
Inductive Leave :=
| LRetry
| LBreak (ret : Z)
| LDone (ret : Z).

(** Where a thread is in a lock command, between two critical sections. *)
Inductive SetlkPc :=
| PcIdle
| PcTry (r : LockRequest)
| PcNotify (keys : list FileLockKey) (tasks : list Z) (after : option LockRequest)
| PcConflict (r : LockRequest) (owners : list Z)
| PcPark (r : LockRequest)
| PcEnqueue (r : LockRequest)
| PcRecheck (r : LockRequest)
| PcAsleep (r : LockRequest)
| PcRemove (r : LockRequest) (how : Leave)
| PcClear (r : LockRequest) (how : Leave).

Record Thread := mkThread {
  th_pid : Z;
  th_pc : SetlkPc;
  th_woken : bool;
  th_ret : option Z
}.
#[export] Instance fields_Thread : Fields Thread := fun t =>
  mkThread (th_pid t) (th_pc t) (th_woken t) (th_ret t).

Inductive Action :=
| ACall (file : LockFile) (is_ofd blocking : bool) (flock : FcntlFlock)
| AClose (key : FileLockKey)
| AExit
| AContinue (signal : bool).

(** The critical section at the top of the loop. *)
Definition try_lock (s : LockState) (r : LockRequest) : LockState * SetlkPc :=
  if conflicts s r then
    let owners := if lr_is_ofd r then []
                  else collect_conflict_process_owners (locks_of s (lr_key r)) (lr_type r)
                         (lr_start r) (lr_end r) (lr_pid r) in
    (s, if lr_blocking r then PcConflict r owners else PcRemove r (LDone (err EAGAIN)))
  else
    let (changed, locks) :=
      apply_record_lock_for_owner (locks_of s (lr_key r)) (lr_owner r) (lr_pid r) (lr_type r)
        (lr_start r) (lr_end r) in
    (store_locks s (lr_key r) locks, PcNotify (if changed then [lr_key r] else []) [] (Some r)).

(** One step of a thread: new tables, new state of the thread, and a task it
    wakes.  [signal] is the answer of [has_pending_unmasked_signal]. *)
Definition continue_step (s : LockState) (task : Z) (th : Thread) (signal : bool)
    : option (LockState * Thread * option Z) :=
  let go s pc := Some (s, th {{ th_pc := pc }}, None) in
  match th_pc th with
  | PcIdle => None
  | PcTry r => let (s, pc) := try_lock s r in go s pc
  | PcNotify keys (t :: tasks) after => Some (s, th {{ th_pc := PcNotify keys tasks after }}, Some t)
  | PcNotify (key :: keys) [] after =>
      let (tasks, s) := take_record_lock_waiters s key in go s (PcNotify keys tasks after)
  | PcNotify [] [] (Some r) => go s (PcRemove r (LDone 0))
  | PcNotify [] [] None => go s PcIdle
  | PcConflict r owners =>
      if negb (lr_is_ofd r) && bool_decide (detect_record_lock_deadlock s (lr_pid r) owners = Some true)
      then go s (PcRemove r (LDone (err EDEADLK))) else go s (PcPark r)
  | PcPark r =>
      let w := mkWaiting (lr_key r) (lr_type r) (lr_start r) (lr_end r) in
      go (if lr_is_ofd r then s else set_record_lock_waiting s (lr_pid r) w) (PcEnqueue r)
  | PcEnqueue r => go (enqueue_record_lock_waiter s (lr_key r) task) (PcRecheck r)
  | PcRecheck r =>
      if negb (conflicts s r) then go s (PcRemove r LRetry)
      else if signal then go s (PcRemove r (LBreak (err EINTR)))
      else go s (PcAsleep r)
  | PcAsleep r =>
      if th_woken th then
        Some (s, th {{ th_pc := if signal then PcRemove r (LBreak (err EINTR)) else PcTry r;
                       th_woken := false }}, None)
      else None
  | PcRemove r how =>
      let remove := match how with LDone _ => lr_blocking r | _ => true end in
      go (if remove then remove_record_lock_waiter s (lr_key r) task else s) (PcClear r how)
  | PcClear r how =>
      let s := if lr_is_ofd r then s else clear_record_lock_waiting s (lr_pid r) in
      match how with
      | LRetry => go s (PcTry r)
      | LBreak ret => go s (PcRemove r (LDone ret))
      | LDone ret => Some (s, th {{ th_pc := PcIdle; th_ret := Some ret }}, None)
      end
  end.

(** The first step of a system call, or the next step of one. *)
Definition thread_step (s : LockState) (task : Z) (th : Thread) (a : Action)
    : option (LockState * Thread * option Z) :=
  match a, th_pc th with
  | AContinue signal, _ => continue_step s task th signal
  | ACall file is_ofd blocking flock, PcIdle =>
      match fcntl_lock_request file (th_pid th) is_ofd blocking flock with
      | inl e => Some (s, th {{ th_ret := Some e }}, None)
      | inr r =>
          Some (if is_ofd then s else clear_record_lock_waiting s (th_pid th),
                th {{ th_pc := PcTry r }}, None)
      end
  | AClose key, PcIdle =>
      let (keys, s) := remove_process_record_locks_for_key s (th_pid th) key in
      Some (s, th {{ th_pc := PcNotify keys [] None }}, None)
  | AExit, PcIdle =>
      let (keys, s) := release_all_record_locks_for_owner s (th_pid th) in
      Some (s, th {{ th_pc := PcNotify keys [] None }}, None)
  | _, _ => None
  end.

Definition wake (task : option Z) (threads : gmap Z Thread) : gmap Z Thread :=
  match task with
  | Some t => alter (fun th => th {{ th_woken := true }}) t threads
  | None => threads
  end.

(** The offset and the size of a file are unsigned. *)
Definition action_ok (a : Action) : Prop :=
  match a with
  | ACall file _ _ _ =>
      match lf_os_inode file with Some (offset, size) => 0 <= offset /\ 0 <= size | None => True end
  | _ => True
  end.

(** The system: threads start, make steps, or are woken for other reasons. *)
Inductive lock_step : LockState * gmap Z Thread -> LockState * gmap Z Thread -> Prop :=
| lock_spawn s threads t pid :
    threads !! t = None ->
    lock_step (s, threads) (s, <[t := mkThread pid PcIdle false None]> threads)
| lock_other_wakeup s threads t :
    lock_step (s, threads) (s, wake (Some t) threads)
| lock_thread s threads t th a s' th' woken :
    threads !! t = Some th -> action_ok a -> thread_step s t th a = Some (s', th', woken) ->
    lock_step (s, threads) (s', wake woken (<[t := th']> threads)).

(** ** The invariant *)

Definition pc_request (pc : SetlkPc) : option LockRequest :=
  match pc with
  | PcIdle => None
  | PcNotify _ _ after => after
  | PcTry r | PcConflict r _ | PcPark r | PcEnqueue r | PcRecheck r | PcAsleep r
  | PcRemove r _ | PcClear r _ => Some r
  end.

(** The wakeups a thread is about to make: queues it will take, and tasks it took. *)
Definition keys_due (pc : SetlkPc) : list FileLockKey :=
  match pc with PcNotify keys _ _ => keys | _ => [] end.
Definition tasks_due (pc : SetlkPc) : list Z :=
  match pc with PcNotify _ tasks _ => tasks | _ => [] end.

(** The thread is in a wait queue; the flag says that it sleeps. *)
Definition waiting_pc (pc : SetlkPc) : option (LockRequest * bool) :=
  match pc with
  | PcRecheck r => Some (r, false)
  | PcAsleep r => Some (r, true)
  | _ => None
  end.

Definition wake_due (threads : gmap Z Thread) (task : Z) : Prop :=
  exists u pc, th_pc <$> threads !! u = Some pc /\ task ∈ tasks_due pc.
Definition notify_due (threads : gmap Z Thread) (key : FileLockKey) : Prop :=
  exists u pc, th_pc <$> threads !! u = Some pc /\ key ∈ keys_due pc.

(** Someone will wake the task, or it is in the queue; if it sleeps, its request
    cannot be granted or someone will take the queue. *)
Definition cared_for (s : LockState) (threads : gmap Z Thread) (task : Z) (r : LockRequest)
    (asleep : bool) : Prop :=
  wake_due threads task \/
  (task ∈ waiters_of s (lr_key r) /\
   (asleep = true -> conflicts s r = true \/ notify_due threads (lr_key r))).

Definition req_ok (r : LockRequest) : Prop := request_ok (lr_type r) (lr_start r) (lr_end r).

Record tables_ok (s : LockState) : Prop := {
  to_locks_wf : bt_wf (ls_locks s);
  to_waiters_wf : bt_wf (ls_waiters s);
  to_locks : forall key, locks_ok (locks_of s key)
}.

Record world_ok (w : LockState * gmap Z Thread) : Prop := {
  wo_tables : tables_ok w.1;
  wo_requests : forall t th r, w.2 !! t = Some th -> pc_request (th_pc th) = Some r -> req_ok r;
  wo_cared : forall t th r asleep, w.2 !! t = Some th ->
    waiting_pc (th_pc th) = Some (r, asleep) -> th_woken th = false -> cared_for w.1 w.2 t r asleep
}.

(** *** The tables *)

Lemma locks_of_store s key locks key' :
  bt_wf (ls_locks s) ->
  locks_of (store_locks s key locks) key' = if key_eqb key' key then locks else locks_of s key'.
Proof.
  intros Hwf. unfold locks_of, store_locks. cbn. destruct locks as [|l locks].
  - rewrite bt_get_remove by done. by case_if.
  - rewrite bt_get_insert. by case_if.
Qed.

Lemma locks_ok_nil : locks_ok [].
Proof. split; [constructor|..]; intros; exfalso; by eapply holds_nil. Qed.

(** Fewer locks are still compatible. *)
Lemma locks_ok_filter f locks : locks_ok locks -> locks_ok (List.filter f locks).
Proof.
  intros [Hok Ht Hs].
  assert (forall o x t, holds (List.filter f locks) o x t -> holds locks o x t) as Hsub.
  { intros o x t (l & [Hl _]%list_elem_of_In%filter_In & ?). exists l. by rewrite list_elem_of_In. }
  split; [|eauto..].
  apply Forall_forall. intros l [Hl _]%list_elem_of_In%filter_In.
  eapply Forall_forall in Hok; [done|]. by apply list_elem_of_In.
Qed.

Lemma store_tables_ok s key locks : tables_ok s -> locks_ok locks -> tables_ok (store_locks s key locks).
Proof.
  intros [Hl Hw Hok] Hlocks. split.
  - unfold store_locks. cbn. destruct locks; eauto with kernel.
  - done.
  - intros key'. rewrite locks_of_store by done. by case_if.
Qed.

Lemma filter_same_length {A} (f : A -> bool) l : length (List.filter f l) = length l -> List.filter f l = l.
Proof.
  induction l as [|x l IH]; simpl; [done|]. destruct (f x); simpl.
  - intros [= H]. by rewrite IH.
  - pose proof (List.filter_length_le f l). lia.
Qed.

(** *** What one step of a thread guarantees to the others *)

Record step_keeps (u : Z) (s : LockState) (pc : SetlkPc) (s' : LockState) (pc' : SetlkPc) (woken : option Z)
    : Prop := {
  sk_tasks : forall t, t ∈ tasks_due pc -> t ∈ tasks_due pc' \/ woken = Some t;
  sk_keys : forall key, key ∈ keys_due pc -> key ∈ keys_due pc' \/
    forall t, t ∈ waiters_of s key -> t ∈ tasks_due pc';
  sk_waiters : forall key t, t <> u -> t ∈ waiters_of s key ->
    t ∈ waiters_of s' key \/ t ∈ tasks_due pc';
  sk_locks : forall key, locks_of s' key = locks_of s key \/ key ∈ keys_due pc'
}.

(** A step that changes no wait queue and no lock, and wakes nobody. *)
Lemma step_keeps_same u s s' pc pc' :
  keys_due pc = [] -> tasks_due pc = [] ->
  ls_locks s' = ls_locks s -> ls_waiters s' = ls_waiters s -> step_keeps u s pc s' pc' None.
Proof.
  intros Hk Ht Hl Hw. split; unfold waiters_of, locks_of; rewrite ?Hk, ?Ht, ?Hl, ?Hw.
  - by intros t ?%elem_of_nil.
  - by intros key ?%elem_of_nil.
  - intros. by left.
  - intros. by left.
Qed.

Lemma waiters_of_remove s key task key' :
  bt_wf (ls_waiters s) ->
  waiters_of (remove_record_lock_waiter s key task) key' =
    if key_eqb key' key then List.filter (fun waiter => negb (waiter =? task)) (waiters_of s key)
    else waiters_of s key'.
Proof.
  intros Hwf. unfold waiters_of, remove_record_lock_waiter.
  destruct (bt_get (ls_waiters s) key) as [queue|] eqn:E; simpl.
  - destruct (List.filter _ queue) eqn:Ef; cbn.
    + rewrite bt_get_remove by done. by case_if.
    + rewrite bt_get_insert. by case_if.
  - destruct (key_eqb key' key) eqn:Ek; [|done]. apply key_eqb_eq in Ek as ->. by rewrite E.
Qed.

Lemma waiters_of_enqueue s key task key' :
  waiters_of (enqueue_record_lock_waiter s key task) key' =
    if key_eqb key' key
    then if existsb (Z.eqb task) (waiters_of s key) then waiters_of s key else waiters_of s key ++ [task]
    else waiters_of s key'.
Proof.
  unfold enqueue_record_lock_waiter. unfold waiters_of at 1. cbn. rewrite bt_get_insert. by case_if.
Qed.

Lemma try_lock_keeps u s r s' pc' :
  tables_ok s -> try_lock s r = (s', pc') -> step_keeps u s (PcTry r) s' pc' None.
Proof.
  intros [Hl Hw Hok]. unfold try_lock. destruct (conflicts s r).
  { intros [= <- <-]. by apply step_keeps_same. }
  unfold apply_record_lock_for_owner. set (locks' := normalize_record_locks _). intros [= <- <-].
  split; simpl.
  - by intros t ?%elem_of_nil.
  - by intros key ?%elem_of_nil.
  - intros. by left.
  - intros key. rewrite locks_of_store by done. destruct (key_eqb key (lr_key r)) eqn:E; [|by left].
    apply key_eqb_eq in E as ->. case_bool_decide; simpl; [by left|right]. by apply list_elem_of_singleton.
Qed.

Lemma take_keeps u s key keys after :
  tables_ok s ->
  let (tasks, s') := take_record_lock_waiters s key in
  step_keeps u s (PcNotify (key :: keys) [] after) s' (PcNotify keys tasks after) None.
Proof.
  intros [Hl Hw Hok]. unfold take_record_lock_waiters.
  assert (forall key', waiters_of (s {{ ls_waiters := bt_remove (ls_waiters s) key }}) key' =
    if key_eqb key' key then [] else waiters_of s key') as Htake.
  { intros key'. unfold waiters_of at 1. cbn. rewrite bt_get_remove by done. by case_if. }
  split; simpl.
  - by intros t ?%elem_of_nil.
  - intros key' [->|?]%elem_of_cons; [by right|by left].
  - intros key' t _ Ht. rewrite Htake. destruct (key_eqb key' key) eqn:E; [|by left].
    apply key_eqb_eq in E as ->. by right.
  - intros. by left.
Qed.

Lemma remove_waiter_keeps u s key pc pc' :
  tables_ok s -> keys_due pc = [] -> tasks_due pc = [] ->
  step_keeps u s pc (remove_record_lock_waiter s key u) pc' None.
Proof.
  intros [Hl Hw Hok] Hk Ht. split; rewrite ?Hk, ?Ht.
  - by intros t ?%elem_of_nil.
  - by intros key' ?%elem_of_nil.
  - intros key' t Hne Hin. left. rewrite waiters_of_remove by done.
    destruct (key_eqb key' key) eqn:E; [|done]. apply key_eqb_eq in E as ->.
    apply list_elem_of_In, filter_In. rewrite <- list_elem_of_In. split; [done|]. lia.
  - intros key'. left. unfold locks_of, remove_record_lock_waiter. by repeat case_match.
Qed.

Lemma enqueue_keeps u s key task pc pc' :
  keys_due pc = [] -> tasks_due pc = [] ->
  step_keeps u s pc (enqueue_record_lock_waiter s key task) pc' None.
Proof.
  intros Hk Ht. split; rewrite ?Hk, ?Ht.
  - by intros t ?%elem_of_nil.
  - by intros key' ?%elem_of_nil.
  - intros key' t _ Hin. left. rewrite waiters_of_enqueue. destruct (key_eqb key' key) eqn:E; [|done].
    apply key_eqb_eq in E as ->. case_if; [done|]. apply elem_of_app. by left.
  - intros. by left.
Qed.

Lemma continue_keeps s u th signal s' th' woken :
  tables_ok s -> continue_step s u th signal = Some (s', th', woken) ->
  step_keeps u s (th_pc th) s' (th_pc th') woken.
Proof.
  intros Hok. unfold continue_step. destruct (th_pc th) as [|r|keys tasks after|r owners|r|r|r|r|r how|r how].
  - done.
  - destruct (try_lock s r) as [s1 pc1] eqn:E. intros [= <- <- <-]. by apply try_lock_keeps.
  - destruct tasks as [|t tasks]; [destruct keys as [|key keys]; [destruct after|]|].
    + intros [= <- <- <-]. by apply step_keeps_same.
    + intros [= <- <- <-]. by apply step_keeps_same.
    + pose proof (take_keeps u s key keys after Hok) as Hk.
      destruct (take_record_lock_waiters s key) as [tasks s1]. by intros [= <- <- <-].
    + destruct keys; intros [= <- <- <-]; (split; simpl; try (intros; by left));
      (intros t' [->|?]%elem_of_cons; [by right|by left]).
  - case_match; intros [= <- <- <-]; by apply step_keeps_same.
  - intros [= <- <- <-]. apply step_keeps_same; try done; by destruct (lr_is_ofd r).
  - intros [= <- <- <-]. by apply enqueue_keeps.
  - repeat case_match; intros [= <- <- <-]; by apply step_keeps_same.
  - case_match; [|done]. intros [= <- <- <-]. by apply step_keeps_same.
  - intros [= <- <- <-]. destruct (match how with LDone _ => lr_blocking r | _ => true end).
    + by apply remove_waiter_keeps.
    + by apply step_keeps_same.
  - destruct how; intros [= <- <- <-]; apply step_keeps_same; try done; by destruct (lr_is_ofd r).
Qed.

(** *** Releasing *)

(** A change of the table that wakes the waiters of every list it shortens. *)
Definition released (s : LockState) (keys : list FileLockKey) (s' : LockState) : Prop :=
  tables_ok s' /\ ls_waiters s' = ls_waiters s /\
  forall key, locks_of s' key = locks_of s key \/ key ∈ keys.

Lemma released_refl s keys : tables_ok s -> released s keys s.
Proof. intros. split_and!; [done..|]. by left. Qed.

Lemma released_filter s s0 key locks f keys keys' :
  released s0 keys s -> bt_get (ls_locks s) key = Some locks -> (forall k, k ∈ keys -> k ∈ keys') ->
  (length (List.filter f locks) <> length locks -> key ∈ keys') ->
  released s0 keys' (store_locks s key (List.filter f locks)).
Proof.
  intros (Hok & Hw & Hl) Hg Hsub Hkey. assert (locks_of s key = locks) as Hlk by (unfold locks_of; by rewrite Hg).
  split_and!; [|done|].
  - apply store_tables_ok; [done|]. apply locks_ok_filter. rewrite <- Hlk. apply Hok.
  - intros k. rewrite locks_of_store by apply Hok. destruct (key_eqb k key) eqn:E.
    + apply key_eqb_eq in E as ->. destruct (decide (length (List.filter f locks) = length locks)) as [He|He].
      * rewrite (filter_same_length _ _ He), <- Hlk. destruct (Hl key); auto.
      * auto.
    + destruct (Hl k); auto.
Qed.

Lemma remove_process_released s pid key :
  tables_ok s -> let (keys, s') := remove_process_record_locks_for_key s pid key in released s keys s'.
Proof.
  intros Hok. unfold remove_process_record_locks_for_key.
  destruct (bt_get (ls_locks s) key) as [locks|] eqn:E; [|by apply released_refl].
  eapply (released_filter s s key locks _ []); [by apply released_refl|done| |].
  - by intros k ?%elem_of_nil.
  - intros Hlen. case_match eqn:En; [by apply Nat.eqb_eq in En|]. by apply list_elem_of_singleton.
Qed.

Lemma release_keys_released pid keys s0 acc :
  released s0 acc.1 acc.2 -> released s0 (foldl (release_key pid) acc keys).1 (foldl (release_key pid) acc keys).2.
Proof.
  revert acc. induction keys as [|key keys IH]; intros [changed s] Hr; simpl; [done|].
  apply IH. simpl in *. destruct (bt_get (ls_locks s) key) as [locks|] eqn:E; [|done]. simpl.
  eapply released_filter; [done|done| |].
  - intros k Hk. case_if; [done|]. apply elem_of_app. by left.
  - intros Hlen. case_match eqn:En; [by apply Nat.eqb_eq in En|]. apply elem_of_app. right.
    by apply list_elem_of_singleton.
Qed.

Lemma release_all_released s pid :
  tables_ok s -> let (keys, s') := release_all_record_locks_for_owner s pid in released s keys s'.
Proof.
  intros Hok. unfold release_all_record_locks_for_owner.
  pose proof (release_keys_released pid (map fst (ls_locks s)) s ([], clear_record_lock_waiting s pid)) as Hr.
  destruct (foldl _ _ _) as [keys s']. apply Hr. split_and!; [|done|by left].
  destruct Hok. by split.
Qed.

Lemma released_keeps u s keys s' after :
  released s keys s' -> step_keeps u s PcIdle s' (PcNotify keys [] after) None.
Proof.
  intros (_ & Hw & Hl). split; simpl.
  - by intros t ?%elem_of_nil.
  - by intros key ?%elem_of_nil.
  - intros key t _. unfold waiters_of. rewrite Hw. by left.
  - done.
Qed.

Lemma thread_step_keeps s u th a s' th' woken :
  tables_ok s -> thread_step s u th a = Some (s', th', woken) ->
  step_keeps u s (th_pc th) s' (th_pc th') woken.
Proof.
  intros Hok. unfold thread_step. destruct a as [file is_ofd blocking flock|key| |signal].
  - destruct (th_pc th) eqn:Epc; try done. case_match; intros [= <- <- <-].
    + by apply step_keeps_same; rewrite ?Epc.
    + apply step_keeps_same; try done; by destruct is_ofd.
  - destruct (th_pc th); try done. pose proof (remove_process_released s (th_pid th) key Hok) as Hr.
    destruct (remove_process_record_locks_for_key _ _ _). intros [= <- <- <-]. by apply released_keeps.
  - destruct (th_pc th); try done. pose proof (release_all_released s (th_pid th) Hok) as Hr.
    destruct (release_all_record_locks_for_owner _ _). intros [= <- <- <-]. by apply released_keeps.
  - by apply continue_keeps.
Qed.

(** *** The tables stay well formed *)

Lemma tables_ok_same s s' :
  tables_ok s -> ls_locks s' = ls_locks s -> bt_wf (ls_waiters s') -> tables_ok s'.
Proof.
  intros [Hl Hw Hok] Heq Hw'. split; [by rewrite Heq|done|]. intros key. unfold locks_of. rewrite Heq. apply Hok.
Qed.

Lemma try_lock_ok s r : tables_ok s -> req_ok r -> tables_ok (try_lock s r).1.
Proof.
  intros Hok Hr. unfold try_lock. destruct (conflicts s r) eqn:Ec; [done|].
  pose proof (apply_record_lock_ok (locks_of s (lr_key r)) (lr_owner r) (lr_pid r) _ _ _
    (to_locks _ Hok (lr_key r)) Hr Ec) as Ha.
  destruct (apply_record_lock_for_owner _ _ _ _ _ _) as [changed locks].
  apply store_tables_ok; [done|]. apply Ha.
Qed.

Lemma continue_tables_ok s u th signal s' th' woken :
  tables_ok s -> (forall r, pc_request (th_pc th) = Some r -> req_ok r) ->
  continue_step s u th signal = Some (s', th', woken) -> tables_ok s'.
Proof.
  intros Hok Hreq. assert (bt_wf (ls_waiters s)) as Hw by apply Hok. unfold continue_step.
  destruct (th_pc th) as [|r|keys tasks after|r owners|r|r|r|r|r how|r how]; simpl in Hreq.
  - done.
  - pose proof (try_lock_ok s r Hok (Hreq r eq_refl)). destruct (try_lock s r). by intros [= <- <- <-].
  - destruct keys, tasks, after; try (by intros [= <- <- <-]).
    all: intros [= <- <- <-]; eapply tables_ok_same; [done|done|cbn; by apply bt_wf_remove].
  - case_match; by intros [= <- <- <-].
  - intros [= <- <- <-]. destruct (lr_is_ofd r); [done|]. by eapply tables_ok_same.
  - intros [= <- <- <-]. eapply tables_ok_same; [done|done|]. cbn. by apply bt_wf_insert.
  - repeat case_match; by intros [= <- <- <-].
  - case_match; [|done]. by intros [= <- <- <-].
  - intros [= <- <- <-]. case_match; [|done]. unfold remove_record_lock_waiter.
    repeat case_match; try done; (eapply tables_ok_same; [done|done|cbn; eauto using bt_wf_insert, bt_wf_remove]).
  - destruct how; intros [= <- <- <-]; destruct (lr_is_ofd r); try done; by eapply tables_ok_same.
Qed.

Lemma fcntl_lock_request_ok file pid is_ofd blocking flock r :
  match lf_os_inode file with Some (offset, size) => 0 <= offset /\ 0 <= size | None => True end ->
  fcntl_lock_request file pid is_ofd blocking flock = inr r -> req_ok r.
Proof.
  intros Hfile. unfold fcntl_lock_request, req_ok. case_if; [done|].
  destruct (lf_key file) as [key|]; [|done].
  destruct (lock_range_from_flock (lf_os_inode file) flock) as [e|[start end_]] eqn:E; [done|].
  assert (forall ty, ty = F_RDLCK \/ ty = F_WRLCK \/ ty = F_UNLCK -> request_ok ty start end_) as Hok
    by (intros; by eapply lock_range_from_flock_ok).
  repeat (case_match; simplify_eq; try done); intros; simplify_eq; simpl; apply Hok; lia.
Qed.

Lemma thread_tables_ok s u th a s' th' woken :
  tables_ok s -> (forall r, pc_request (th_pc th) = Some r -> req_ok r) ->
  thread_step s u th a = Some (s', th', woken) -> tables_ok s'.
Proof.
  intros Hok Hreq. unfold thread_step. destruct a as [file is_ofd blocking flock|key| |signal].
  - destruct (th_pc th); try done. case_match; intros [= <- <- <-]; [done|].
    destruct is_ofd; [done|]. eapply tables_ok_same; [done|done|apply Hok].
  - destruct (th_pc th); try done. pose proof (remove_process_released s (th_pid th) key Hok) as Hr.
    destruct (remove_process_record_locks_for_key _ _ _). intros [= <- <- <-]. apply Hr.
  - destruct (th_pc th); try done. pose proof (release_all_released s (th_pid th) Hok) as Hr.
    destruct (release_all_record_locks_for_owner _ _). intros [= <- <- <-]. apply Hr.
  - by eapply continue_tables_ok.
Qed.

Lemma thread_requests_ok s u th a s' th' woken :
  action_ok a -> (forall r, pc_request (th_pc th) = Some r -> req_ok r) ->
  thread_step s u th a = Some (s', th', woken) ->
  forall r, pc_request (th_pc th') = Some r -> req_ok r.
Proof.
  intros Ha Hreq. unfold thread_step. destruct a as [file is_ofd blocking flock|key| |signal].
  - destruct (th_pc th) eqn:Epc; try done. case_match eqn:E; intros [= <- <- <-].
    + cbn. rewrite Epc. done.
    + cbn. intros r [= <-]. by eapply fcntl_lock_request_ok.
  - destruct (th_pc th); try done. case_match. intros [= <- <- <-]. done.
  - destruct (th_pc th); try done. case_match. intros [= <- <- <-]. done.
  - unfold continue_step, try_lock.
    destruct (th_pc th) as [|r|keys tasks after|r owners|r|r|r|r|r how|r how]; simpl in Hreq;
      try destruct how; try (destruct keys, tasks, after);
      repeat (case_match; simplify_eq/=; try done); intros; simplify_eq/=; eauto.
Qed.

(** *** The thread that makes the step *)

Lemma try_lock_not_waiting s r : waiting_pc (try_lock s r).2 = None.
Proof. unfold try_lock. by repeat case_match. Qed.

Lemma thread_step_waits s u th a s' th' woken r asleep :
  thread_step s u th a = Some (s', th', woken) ->
  waiting_pc (th_pc th') = Some (r, asleep) -> th_woken th' = false ->
  (asleep = false /\ u ∈ waiters_of s' (lr_key r)) \/
  (waiting_pc (th_pc th) = Some (r, false) /\ th_woken th = false /\ s' = s /\ conflicts s r = true /\
   woken = None).
Proof.
  unfold thread_step. destruct a as [file is_ofd blocking flock|key| |signal].
  - destruct (th_pc th) eqn:Epc; try done. case_match; intros [= <- <- <-]; cbn; [by rewrite Epc|done].
  - destruct (th_pc th); try done. case_match. (intros [= <- <- <-]; done).
  - destruct (th_pc th); try done. case_match. (intros [= <- <- <-]; done).
  - unfold continue_step. destruct (th_pc th) as [|r'|keys tasks after|r' owners|r'|r'|r'|r'|r' how|r' how].
    + done.
    + pose proof (try_lock_not_waiting s r') as Hn. destruct (try_lock s r') as [s1 pc1].
      intros [= <- <- <-]. cbn in *. by rewrite Hn.
    + destruct keys, tasks, after; (intros [= <- <- <-]; done).
    + case_match; (intros [= <- <- <-]; done).
    + (intros [= <- <- <-]; done).
    + intros [= <- <- <-]. cbn. intros [= -> <-] _. left. split; [done|]. rewrite waiters_of_enqueue, key_eqb_refl.
      destruct (existsb (Z.eqb u) (waiters_of s (lr_key r))) eqn:E.
      * apply existsb_exists in E as (x & Hx & ->%Z.eqb_eq). by apply list_elem_of_In.
      * set_solver.
    + destruct (conflicts s r') eqn:Ec; simpl; [|(intros [= <- <- <-]; done)].
      destruct signal; intros [= <- <- <-]; cbn; [done|]. intros [= -> <-] Hwk. by right.
    + case_match; [|done]. intros [= <- <- <-]. cbn. by destruct signal.
    + (intros [= <- <- <-]; done).
    + destruct how; (intros [= <- <- <-]; done).
Qed.

(** *** Every step keeps the invariant *)

Lemma wake_pc o threads u : th_pc <$> wake o threads !! u = th_pc <$> threads !! u.
Proof.
  destruct o as [t|]; simpl; [|done]. destruct (decide (u = t)) as [->|Hne].
  - rewrite lookup_alter_eq. by destruct (threads !! t).
  - by rewrite lookup_alter_ne.
Qed.

Lemma wake_lookup o threads u th :
  wake o threads !! u = Some th -> th_woken th = false -> threads !! u = Some th /\ o <> Some u.
Proof.
  destruct o as [t|]; simpl; [|by intros; split]. destruct (decide (u = t)) as [->|Hne].
  - rewrite lookup_alter_eq. destruct (threads !! t); [|done]. by intros [= <-].
  - rewrite lookup_alter_ne by done. intros. split; congruence.
Qed.

Lemma pc_insert (threads : gmap Z Thread) u th' v pc :
  th_pc <$> <[u := th']> threads !! v = Some pc ->
  (v = u /\ pc = th_pc th') \/ (v <> u /\ th_pc <$> threads !! v = Some pc).
Proof.
  destruct (decide (v = u)) as [->|Hne]; [rewrite lookup_insert_eq|rewrite lookup_insert_ne by done].
  - intros [= <-]. by left.
  - by right.
Qed.

Section Frame.
Context (s s' : LockState) (threads : gmap Z Thread) (u : Z) (th th' : Thread) (woken : option Z).
Hypothesis Hu : threads !! u = Some th.
Hypothesis Hk : step_keeps u s (th_pc th) s' (th_pc th') woken.

Abbreviation threads' := (wake woken (<[u := th']> threads)).

Lemma due_at_u : th_pc <$> threads' !! u = Some (th_pc th').
Proof. by rewrite wake_pc, lookup_insert_eq. Qed.

Lemma due_elsewhere v pc : th_pc <$> threads !! v = Some pc -> v <> u -> th_pc <$> threads' !! v = Some pc.
Proof. intros Hv Hne. by rewrite wake_pc, lookup_insert_ne. Qed.

Lemma wake_due_kept t : wake_due threads t -> wake_due threads' t \/ woken = Some t.
Proof.
  intros (v & pc & Hv & Ht). destruct (decide (v = u)) as [->|Hne].
  - rewrite Hu in Hv. injection Hv as <-. destruct (sk_tasks _ _ _ _ _ _ Hk t Ht) as [Ht'|?]; [left|by right].
    exists u, (th_pc th'). split; [apply due_at_u|done].
  - left. exists v, pc. split; [by apply due_elsewhere|done].
Qed.

Lemma notify_due_kept key :
  notify_due threads key -> notify_due threads' key \/ forall t, t ∈ waiters_of s key -> wake_due threads' t.
Proof.
  intros (v & pc & Hv & Ht). destruct (decide (v = u)) as [->|Hne].
  - rewrite Hu in Hv. injection Hv as <-. destruct (sk_keys _ _ _ _ _ _ Hk key Ht) as [Ht'|Hall]; [left|right].
    + exists u, (th_pc th'). split; [apply due_at_u|done].
    + intros t Hin. exists u, (th_pc th'). split; [apply due_at_u|auto].
  - left. exists v, pc. split; [by apply due_elsewhere|done].
Qed.

Lemma cared_for_kept t r asleep :
  t <> u -> woken <> Some t -> cared_for s threads t r asleep -> cared_for s' threads' t r asleep.
Proof.
  intros Hne Hwk [Hdue|[Hin Hgood]].
  - destruct (wake_due_kept t Hdue); [by left|done].
  - destruct (sk_waiters _ _ _ _ _ _ Hk (lr_key r) t Hne Hin) as [Hin'|Hdue].
    2: { left. exists u, (th_pc th'). split; [apply due_at_u|done]. }
    destruct asleep; [|right; by split]. destruct (Hgood eq_refl) as [Hc|Hn].
    + right. split; [done|]. intros _. destruct (sk_locks _ _ _ _ _ _ Hk (lr_key r)) as [Hl|Hl].
      * left. unfold conflicts in *. by rewrite Hl.
      * right. exists u, (th_pc th'). split; [apply due_at_u|done].
    + destruct (notify_due_kept _ Hn) as [?|Hall]; [right|left; by apply Hall].
      split; [done|]. by right.
Qed.

End Frame.

Lemma thread_world_ok s threads u th a s' th' woken :
  world_ok (s, threads) -> threads !! u = Some th -> action_ok a ->
  thread_step s u th a = Some (s', th', woken) ->
  world_ok (s', wake woken (<[u := th']> threads)).
Proof.
  intros [Htab Hreq Hcare] Hu Ha Hstep. simpl in *.
  pose proof (thread_step_keeps _ _ _ _ _ _ _ Htab Hstep) as Hk.
  assert (forall v pc, th_pc <$> wake woken (<[u := th']> threads) !! v = Some pc ->
    (v = u /\ pc = th_pc th') \/ (v <> u /\ th_pc <$> threads !! v = Some pc)) as Hpc.
  { intros v pc. rewrite wake_pc. apply pc_insert. }
  split; simpl.
  - eapply thread_tables_ok; [done| |done]. intros r Hr. by eapply Hreq.
  - intros v thv r Hv Hr. destruct (Hpc v (th_pc thv)) as [[-> Heq]|[Hne Hv']]; [by rewrite Hv| |].
    + rewrite Heq in Hr. eapply thread_requests_ok; [done| |done|done]. intros r0 Hr0. by eapply Hreq.
    + destruct (threads !! v) as [thv0|] eqn:E; [|done]. injection Hv' as Heq. eapply Hreq; [done|].
      by rewrite Heq.
  - intros v thv r asleep Hv Hw Hwoken. apply wake_lookup in Hv as [Hv Hno]; [|done].
    destruct (decide (v = u)) as [->|Hne].
    + rewrite lookup_insert_eq in Hv. injection Hv as ->.
      destruct (thread_step_waits _ _ _ _ _ _ _ _ _ Hstep Hw Hwoken) as [[-> Hin]|(Hw0 & Hwk0 & -> & Hc & ->)].
      * right. by split.
      * destruct (Hcare u th r false Hu Hw0 Hwk0) as [(v & pc & Hv & Ht)|[Hin _]].
        -- left. exists v, pc. split; [|done]. apply due_elsewhere; [done|]. intros ->.
           rewrite Hu in Hv. injection Hv as <-. destruct (th_pc th); simpl in *; try done; by apply elem_of_nil in Ht.
        -- right. split; [done|]. intros _. by left.
    + rewrite lookup_insert_ne in Hv by done. eapply cared_for_kept; [done..|]. by eapply Hcare.
Qed.

Lemma other_wakeup_ok s threads t : world_ok (s, threads) -> world_ok (s, wake (Some t) threads).
Proof.
  intros [Htab Hreq Hcare]. assert (forall v thv, wake (Some t) threads !! v = Some thv ->
    exists th0, threads !! v = Some th0 /\ th_pc thv = th_pc th0) as Hl.
  { intros v thv Hv. pose proof (wake_pc (Some t) threads v) as Hpc. rewrite Hv in Hpc.
    destruct (threads !! v) as [th0|]; [|done]. injection Hpc as Hpc. by exists th0. }
  split; cbn [fst snd]; [done| |].
  - intros v thv r Hv Hr. destruct (Hl v thv Hv) as (th0 & ? & Heq). rewrite Heq in Hr. by eapply Hreq.
  - intros v thv r asleep Hv Hw Hwoken. destruct (wake_lookup (Some t) threads v thv Hv Hwoken) as [Hv0 _].
    destruct (Hcare v thv r asleep Hv0 Hw Hwoken) as [(x & pc & Hx & ?)|[Hin Hg]].
    + left. exists x, pc. by rewrite wake_pc.
    + right. split; [done|]. intros Ha. destruct (Hg Ha) as [?|(x & pc & Hx & ?)]; [by left|right].
      exists x, pc. by rewrite wake_pc.
Qed.

Lemma spawn_ok s threads t pid :
  threads !! t = None -> world_ok (s, threads) ->
  world_ok (s, <[t := mkThread pid PcIdle false None]> threads).
Proof.
  intros Hnew [Htab Hreq Hcare]. set (th := mkThread pid PcIdle false None).
  assert (forall v pc, th_pc <$> threads !! v = Some pc -> th_pc <$> <[t := th]> threads !! v = Some pc) as Hpc.
  { intros v pc Hv. rewrite lookup_insert_ne; [done|]. intros <-. by rewrite Hnew in Hv. }
  split; simpl; [done| |].
  - intros v thv r [[<- <-]|[Hne Hv]]%lookup_insert_Some Hr; [done|]. by eapply Hreq.
  - intros v thv r asleep [[<- <-]|[Hne Hv]]%lookup_insert_Some Hw Hwoken; [done|].
    destruct (Hcare v thv r asleep Hv Hw Hwoken) as [(x & pc & Hx & ?)|[Hin Hg]].
    + left. exists x, pc. split; [by apply Hpc|done].
    + right. split; [done|]. intros Ha. destruct (Hg Ha) as [?|(x & pc & Hx & ?)]; [by left|right].
      exists x, pc. split; [by apply Hpc|done].
Qed.

Lemma reachable_world_ok w : rtc lock_step (no_locks, ∅) w -> world_ok w.
Proof.
  intros Hr. remember (no_locks, ∅ : gmap Z Thread) as w0 eqn:E0. assert (world_ok w0) as H0.
  { subst w0. split; simpl; [|by intros..]. split; [apply bt_wf_nil..|]. intros. apply locks_ok_nil. }
  clear E0. revert H0. induction Hr as [|w1 w2 w3 Hstep _ IH]; [done|]. intros H1. apply IH. clear IH.
  destruct Hstep; [by apply spawn_ok|by apply other_wakeup_ok|by eapply thread_world_ok].
Qed.

(** C20: No interleaving of lock requests, closes and exits ever lets two owners hold
    conflicting locks on the same byte of a file, or one owner two types of lock. *)
Theorem record_locks_never_conflict s threads key o1 o2 x t1 t2 :
  rtc lock_step (no_locks, ∅) (s, threads) -> x <= I64_MAX ->
  holds (locks_of s key) o1 x t1 -> holds (locks_of s key) o2 x t2 ->
  (o1 = o2 /\ t1 = t2) \/ (t1 = F_RDLCK /\ t2 = F_RDLCK).
Proof.
  intros Hr%reachable_world_ok Hx H1 H2. destruct (to_locks _ (wo_tables _ Hr) key) as [_ Ht Hs].
  destruct (decide (o1 = o2)) as [->|Hne]; [left|right]; eauto.
Qed.

(** C30: No wakeup is lost: a thread that sleeps in [F_SETLKW] with no wakeup on its
    way has a request that conflicts with a lock held now, and is in the queue
    its release will wake; the only exception is a thread that has just
    changed the locks of this file and is about to wake the queue. *)
Theorem record_lock_sleepers_are_blocked s threads task th r :
  rtc lock_step (no_locks, ∅) (s, threads) ->
  threads !! task = Some th -> th_pc th = PcAsleep r -> th_woken th = false ->
  wake_due threads task \/
  (task ∈ waiters_of s (lr_key r) /\ (conflicts s r = true \/ notify_due threads (lr_key r))).
Proof.
  intros Hr%reachable_world_ok Ht Hpc Hwk.
  destruct (wo_cared _ Hr task th r true Ht) as [?|[? Hg]]; [by rewrite Hpc|done|by left|right]. auto.
Qed.

(** ** A deadlock that is not detected *)

Definition lock_exec (w : LockState * gmap Z Thread) (t : Z) (a : Action)
    : option (LockState * gmap Z Thread) :=
  match w.2 !! t with
  | None => None
  | Some th =>
      match thread_step w.1 t th a with
      | None => None
      | Some (s', th', woken) => Some (s', wake woken (<[t := th']> w.2))
      end
  end.

Definition lock_run (w : LockState * gmap Z Thread) (trace : list (Z * Action))
    : option (LockState * gmap Z Thread) :=
  foldl (fun w e => w ← w; lock_exec w e.1 e.2) (Some w) trace.

Lemma lock_run_sound w0 trace w w' :
  rtc lock_step w0 w -> Forall (fun e => action_ok e.2) trace -> lock_run w trace = Some w' ->
  rtc lock_step w0 w'.
Proof.
  unfold lock_run. intros Hr Hok. revert w Hr. induction Hok as [|[t a] trace Ha _ IH]; intros w Hr; simpl.
  - by intros [= <-].
  - destruct (lock_exec w t a) as [w1|] eqn:E.
    + apply IH. eapply rtc_r; [done|]. destruct w as [s threads]. unfold lock_exec in E. simpl in E.
      destruct (threads !! t) as [th|] eqn:Et; [|done].
      destruct (thread_step s t th a) as [[[s' th'] woken]|] eqn:Es; [|done]. injection E as <-.
      by econstructor.
    + intros Hn. exfalso. clear -Hn. by induction trace.
Qed.

(** A file of which each thread locks one byte for writing. *)
Definition locked_file : LockFile := mkLockFile (Some (0, 7)) (Some (0, 0)) true true 100.
Definition lock_byte (x : Z) : Action := ACall locked_file false true (mkFlock F_WRLCK 0 x 1 0).
Definition steps (t : Z) (n : nat) : list (Z * Action) := replicate n (t, AContinue false).

Definition two_threads : gmap Z Thread :=
  <[2 := mkThread 2 PcIdle false None]> (<[1 := mkThread 1 PcIdle false None]> ∅).

(** Each process locks its byte; then both ask for the byte of the other, find
    the conflict, and look for a cycle before either has recorded its wait. *)
Definition deadlock_trace : list (Z * Action) :=
  (1, lock_byte 0) :: steps 1 5 ++ (2, lock_byte 10) :: steps 2 5 ++
  (1, lock_byte 10) :: steps 1 1 ++ (2, lock_byte 0) :: steps 2 1 ++
  steps 1 1 ++ steps 2 1 ++ steps 1 3 ++ steps 2 3.

Definition asleep_for_good (th : Thread) : bool :=
  match th_pc th with PcAsleep _ => negb (th_woken th) | _ => false end.

Lemma two_threads_reachable : rtc lock_step (no_locks, ∅) (no_locks, two_threads).
Proof.
  eapply rtc_r; [eapply rtc_r; [done|]|].
  - by apply (lock_spawn no_locks ∅ 1 1).
  - by apply lock_spawn.
Qed.

Definition deadlocked (w : LockState * gmap Z Thread) : bool :=
  forallb (fun e => asleep_for_good e.2) (map_to_list w.2) &&
  bool_decide (blocked_on w.1 1 = [2]) && bool_decide (blocked_on w.1 2 = [1]) &&
  bool_decide (detect_record_lock_deadlock w.1 1 [2] = Some true).

Lemma deadlock_run :
  deadlocked <$> lock_run (no_locks, two_threads) deadlock_trace = Some true.
Proof. vm_compute. reflexivity. Qed.

Lemma deadlock_trace_ok : Forall (fun e => action_ok e.2) deadlock_trace.
Proof.
  assert (forall t n, Forall (fun e => action_ok e.2) (steps t n)) as Hs.
  { intros t n. by apply Forall_replicate. }
  unfold deadlock_trace.
  repeat first [apply Hs | apply Forall_cons_2 | apply Forall_app_2]; cbn; lia.
Qed.

(** The search for a cycle and the record of a new wait are two critical
    sections, and two processes can both search before either records: they
    end up asleep, each waiting for the lock of the other, with nobody left
    to wake them.  The search run then would have found the cycle. *)
Theorem record_lock_deadlock_missed :
  exists s threads, rtc lock_step (no_locks, ∅) (s, threads) /\
    map_Forall (fun _ th => asleep_for_good th = true) threads /\
    waits_for s 1 2 /\ waits_for s 2 1 /\
    detect_record_lock_deadlock s 1 (blocked_on s 1) = Some true.
Proof.
  pose proof deadlock_run as Hd. pose proof deadlock_trace_ok as Hok.
  destruct (lock_run (no_locks, two_threads) deadlock_trace) as [[s threads]|] eqn:E; [|done].
  injection Hd as Hd. unfold deadlocked in Hd. rewrite !andb_true_iff, !bool_decide_eq_true in Hd.
  destruct Hd as (((Hall & H1) & H2) & Hdet). simpl in *. exists s, threads. split_and!.
  - eapply lock_run_sound; [apply two_threads_reachable|done|done].
  - apply map_Forall_to_list. rewrite forallb_forall in Hall. apply Forall_forall.
    intros [t th] Hin. apply (Hall (t, th)). by apply list_elem_of_In.
  - unfold waits_for. rewrite H1. left.
  - unfold waits_for. rewrite H2. left.
  - by rewrite H1.
Qed.

(** ** Instances *)

(** Two processes read-lock the same byte. *)
Definition read_byte (x : Z) : Action := ACall locked_file false true (mkFlock F_RDLCK 0 x 1 0).
Definition readers_trace : list (Z * Action) := (1, read_byte 0) :: steps 1 5 ++ (2, read_byte 0) :: steps 2 5.
Definition reader (pid : Z) : RecordLock := mkRecordLock (Process pid) pid F_RDLCK 0 (Some 0).

Lemma readers_run :
  (fun w => locks_of w.1 (0, 7)) <$> lock_run (no_locks, two_threads) readers_trace = Some [reader 1; reader 2].
Proof. vm_compute. reflexivity. Qed.

Lemma readers_reachable : exists s threads,
  rtc lock_step (no_locks, ∅) (s, threads) /\ locks_of s (0, 7) = [reader 1; reader 2].
Proof.
  pose proof readers_run as Hr.
  destruct (lock_run (no_locks, two_threads) readers_trace) as [[s threads]|] eqn:E; [|done].
  injection Hr as Hr. exists s, threads. split; [|done].
  eapply lock_run_sound; [apply two_threads_reachable| |done].
  unfold readers_trace. repeat first [apply Forall_replicate | apply Forall_cons_2 | apply Forall_app_2]; cbn; lia.
Qed.

Lemma reader_holds pid : pid = 1 \/ pid = 2 -> holds [reader 1; reader 2] (Process pid) 0 F_RDLCK.
Proof. intros [-> | ->]; [exists (reader 1)|exists (reader 2)]; (split; [set_solver|by cbn]). Qed.

Lemma record_locks_never_conflict_witness : exists s threads,
  rtc lock_step (no_locks, ∅) (s, threads) /\
  ((Process 1 = Process 2 /\ F_RDLCK = F_RDLCK) \/ (F_RDLCK = F_RDLCK /\ F_RDLCK = F_RDLCK)).
Proof.
  destruct readers_reachable as (s & threads & Hr & Hl). exists s, threads. split; [done|].
  apply (record_locks_never_conflict s threads (0, 7) (Process 1) (Process 2) 0 F_RDLCK F_RDLCK Hr); [lia|..].
  - rewrite Hl. apply reader_holds. by left.
  - rewrite Hl. apply reader_holds. by right.
Defined.

Lemma sleeper_reachable : exists s threads th r, rtc lock_step (no_locks, ∅) (s, threads) /\
  threads !! 1 = Some th /\ th_pc th = PcAsleep r /\ th_woken th = false.
Proof.
  pose proof deadlock_run as Hd. pose proof deadlock_trace_ok as Hok.
  assert ((fun w => bool_decide (is_Some (w.2 !! 1))) <$>
    lock_run (no_locks, two_threads) deadlock_trace = Some true) as H1 by (vm_compute; reflexivity).
  destruct (lock_run (no_locks, two_threads) deadlock_trace) as [[s threads]|] eqn:E; [|done].
  injection Hd as Hd. injection H1 as [th Hth]%bool_decide_eq_true. simpl in *.
  unfold deadlocked in Hd. rewrite !andb_true_iff, forallb_forall in Hd. destruct Hd as (((Hall & _) & _) & _).
  specialize (Hall (1, th)). unfold asleep_for_good in Hall. simpl in Hall.
  destruct (th_pc th) as [| | | | | | |r| |] eqn:Epc; try (discriminate Hall; by apply list_elem_of_In, elem_of_map_to_list).
  exists s, threads, th, r. split_and!; [|done|done|].
  - eapply lock_run_sound; [apply two_threads_reachable|done|done].
  - apply negb_true_iff, Hall. by apply list_elem_of_In, elem_of_map_to_list.
Qed.

Lemma record_lock_sleepers_are_blocked_witness : exists s threads r,
  rtc lock_step (no_locks, ∅) (s, threads) /\
  (wake_due threads 1 \/
   (1 ∈ waiters_of s (lr_key r) /\ (conflicts s r = true \/ notify_due threads (lr_key r)))).
Proof.
  destruct sleeper_reachable as (s & threads & th & r & Hr & Ht & Hpc & Hw). exists s, threads, r.
  split; [done|]. exact (record_lock_sleepers_are_blocked s threads 1 th r Hr Ht Hpc Hw).
Defined.
