(* ===== verification/FileLocks.v ===== *)
(** * Whole-file locks and leases

    [syscall_flock] ([syscall/filesystem/fcntl.rs]) with its table, and the file
    leases of [syscall/filesystem/lock_utils.rs].  Both tables are behind one
    lock each, so an operation is one step. *)

From S2P Require Import Prelude.
From S2P Require Import BTree.
From S2P Require Import Errno.
From S2P Require Import RecordLocks.
From S2P Require Import RecordWait.

(** ** [flock] *)

Module Flock.

Record FlockLock := mkFlockLock {
  fl_owner : Z;
  fl_exclusive : bool
}.

Abbreviation LOCK_SH := 1.
Abbreviation LOCK_EX := 2.
Abbreviation LOCK_NB := 4.
Abbreviation LOCK_UN := 8.

Abbreviation Table := (list (FileLockKey * list FlockLock)).

Definition has (operation bits : Z) : bool := negb (Z.land operation bits =? 0).

(** [operation] has an unknown bit, or asks for two things at once. *)
Definition bad_operation (operation : Z) : bool :=
  has operation (bnot (Z.lor LOCK_SH (Z.lor LOCK_EX (Z.lor LOCK_NB LOCK_UN))))
  || (has operation LOCK_UN && has operation (Z.lor LOCK_SH LOCK_EX))
  || (Z.land operation (Z.lor LOCK_SH LOCK_EX) =? Z.lor LOCK_SH LOCK_EX).

Definition retain_others (owner : Z) (locks : list FlockLock) : list FlockLock :=
  List.filter (fun lock => negb (fl_owner lock =? owner)) locks.

(** The lock the operation collides with. *)
Definition collides (owner : Z) (exclusive : bool) (lock : FlockLock) : bool :=
  negb (fl_owner lock =? owner) && (exclusive || fl_exclusive lock).

Definition syscall_flock (table : Table) (file : option LockFile) (operation : Z) : Z * Table :=
  if bad_operation operation then (err EINVAL, table)
  else
    match file with
    | None => (err EBADF, table)
    | Some file =>
        match lf_key file with
        | None => (err EINVAL, table)
        | Some key =>
            let owner := lf_id file in
            let locks := unwrap_or (bt_get table key) [] in
            if has operation LOCK_UN then
              match retain_others owner locks with
              | [] => (0, bt_remove table key)
              | locks => (0, bt_insert table key locks)
              end
            else
              let exclusive := has operation LOCK_EX in
              if existsb (collides owner exclusive) locks then (err EAGAIN, bt_insert table key locks)
              else (0, bt_insert table key (vec_push (retain_others owner locks) (mkFlockLock owner exclusive)))
        end
    end.

(** The last reference to an open file goes away. *)
Definition release_flock_locks_for_owner (table : Table) (owner : Z) : Table :=
  List.filter (fun e => match e.2 with [] => false | _ => true end)
    (map (fun e => (e.1, retain_others owner e.2)) table).

Inductive flock_step (table : Table) : Table -> Prop :=
| flock_call file operation : flock_step table (syscall_flock table file operation).2
| flock_drop owner : flock_step table (release_flock_locks_for_owner table owner).

(** No owner twice, and an exclusive lock is the only one. *)
Definition file_ok (locks : list FlockLock) : Prop :=
  locks <> [] /\ NoDup (map fl_owner locks) /\
  forall l l', l ∈ locks -> l' ∈ locks -> fl_exclusive l = true -> l' = l.

Definition table_ok (table : Table) : Prop :=
  bt_wf table /\ Forall (fun e => file_ok e.2) table.

Lemma retain_elem owner locks l : l ∈ retain_others owner locks <-> l ∈ locks /\ fl_owner l <> owner.
Proof.
  unfold retain_others. rewrite list_elem_of_In, filter_In, <- list_elem_of_In, negb_true_iff, Z.eqb_neq. done.
Qed.

Lemma retain_nodup owner locks : NoDup (map fl_owner locks) -> NoDup (map fl_owner (retain_others owner locks)).
Proof.
  induction locks as [|l locks IH]; simpl; [done|]. intros [Hno Hnd]%NoDup_cons.
  destruct (fl_owner l =? owner); simpl; [auto|]. apply NoDup_cons. split; [|auto].
  intros (l' & Heq & [Hl' _]%retain_elem)%list_elem_of_fmap. apply Hno, list_elem_of_fmap. by exists l'.
Qed.

Lemma retain_ok owner locks : file_ok locks -> retain_others owner locks <> [] -> file_ok (retain_others owner locks).
Proof.
  intros (_ & Hnd & Hx) Hne. split_and!; [done|by apply retain_nodup|].
  intros l l' [Hl _]%retain_elem [Hl' _]%retain_elem. auto.
Qed.

Lemma table_ok_insert table key locks :
  table_ok table -> file_ok locks -> table_ok (bt_insert table key locks).
Proof.
  intros [Hwf Hall] Hok. split; [by apply bt_wf_insert|]. apply Forall_forall. intros [k v] Hin.
  apply bt_insert_elem in Hin as [[-> ->]|Hin]; [done|]. by eapply Forall_forall in Hall.
Qed.

Lemma table_ok_remove table key : table_ok table -> table_ok (bt_remove table key).
Proof.
  intros [Hwf Hall]. split; [by apply bt_wf_remove|]. apply Forall_forall. intros e Hin%bt_remove_sub.
  by eapply Forall_forall in Hall.
Qed.

Lemma table_ok_get table key locks : table_ok table -> bt_get table key = Some locks -> file_ok locks.
Proof. intros [_ Hall] Hg%bt_get_in. rewrite Forall_forall in Hall. apply (Hall _ Hg). Qed.

(** A granted lock joins the others. *)
Lemma grant_ok owner exclusive locks :
  locks = [] \/ file_ok locks -> existsb (collides owner exclusive) locks = false ->
  file_ok (vec_push (retain_others owner locks) (mkFlockLock owner exclusive)).
Proof.
  intros Hok Hno. set (new := mkFlockLock owner exclusive).
  assert (forall l, l ∈ retain_others owner locks -> exclusive = false /\ fl_exclusive l = false) as Hcompat.
  { intros l [Hl Hne]%retain_elem. rewrite <- not_true_iff_false, existsb_exists in Hno.
    destruct (exclusive || fl_exclusive l) eqn:E; [|by apply orb_false_iff in E].
    exfalso. apply Hno. exists l. rewrite <- list_elem_of_In. split; [done|]. unfold collides.
    rewrite E, andb_true_r. by apply negb_true_iff, Z.eqb_neq. }
  assert (NoDup (map fl_owner locks)) as Hnd by (destruct Hok as [->|Hok]; [constructor|apply Hok]).
  unfold vec_push. split_and!.
  - by destruct (retain_others owner locks).
  - rewrite map_app. apply NoDup_app. split_and!; [by apply retain_nodup| |apply NoDup_singleton].
    intros o (l & -> & [_ Hne]%retain_elem)%list_elem_of_fmap Heq%list_elem_of_singleton. done.
  - intros l l' [Hl| ->%list_elem_of_singleton]%elem_of_app [Hl'| ->%list_elem_of_singleton]%elem_of_app He.
    + apply Hcompat in Hl as [_ Hl]. congruence.
    + apply Hcompat in Hl as [_ Hl]. congruence.
    + apply Hcompat in Hl' as [Hx _]. simpl in He. congruence.
    + done.
Qed.

Lemma flock_step_ok table table' : table_ok table -> flock_step table table' -> table_ok table'.
Proof.
  intros Hok Hstep. destruct Hstep as [file operation|owner].
  - unfold syscall_flock. destruct (bad_operation operation); [done|].
    destruct file as [file|]; [|done]. destruct (lf_key file) as [key|]; [|done].
    assert (unwrap_or (bt_get table key) [] = [] \/ file_ok (unwrap_or (bt_get table key) [])) as Hl.
    { destruct (bt_get table key) as [locks|] eqn:E; [right|by left]. by eapply table_ok_get. }
    set (locks := unwrap_or (bt_get table key) []) in *. destruct (has operation LOCK_UN).
    + destruct (retain_others (lf_id file) locks) as [|l ls] eqn:Er; simpl; [by apply table_ok_remove|].
      apply table_ok_insert; [done|]. rewrite <- Er. destruct Hl as [Hl|Hl].
      * by rewrite Hl in Er.
      * apply retain_ok; [done|by rewrite Er].
    + destruct (existsb _ _) eqn:Ec; simpl.
      * apply table_ok_insert; [done|]. destruct Hl as [Hl|Hl]; [by rewrite Hl in Ec|done].
      * apply table_ok_insert; [done|]. by apply grant_ok.
  - destruct Hok as [Hwf Hall]. unfold release_flock_locks_for_owner. split.
    + apply bt_wf_filter. unfold bt_wf. rewrite map_map. simpl. by rewrite (map_ext _ fst).
    + apply Forall_forall. intros e [He Hne]%bt_filter_elem. apply list_elem_of_fmap in He as (e0 & -> & He0).
      simpl in *. eapply Forall_forall in Hall; [|done]. apply retain_ok; [done|].
      by destruct (retain_others owner e0.2).
Qed.

(** In every sequence of [flock] calls and closes, an open file that has the
    exclusive lock of a file is the only one with a lock of it. *)
Theorem flock_exclusive table key locks l l' :
  rtc flock_step [] table -> bt_get table key = Some locks ->
  l ∈ locks -> l' ∈ locks -> fl_exclusive l = true -> l' = l.
Proof.
  intros Hr Hg. assert (table_ok table) as Hok.
  { assert (table_ok []) as H0 by (split; [apply bt_wf_nil|constructor]). revert H0.
    induction Hr as [|t1 t2 t3 Hs _ IH]; [done|]. intros H1. apply IH; [done|]. by eapply flock_step_ok. }
  apply (table_ok_get _ _ _ Hok Hg).
Qed.

Definition flock_file (id : Z) : LockFile := mkLockFile (Some (0, 7)) (Some (0, 0)) true true id.

Lemma flock_exclusive_witness :
  rtc flock_step [] [((0, 7), [mkFlockLock 5 true])] /\ mkFlockLock 5 true = mkFlockLock 5 true.
Proof.
  assert (rtc flock_step [] [((0, 7), [mkFlockLock 5 true])]) as Hr.
  { apply rtc_once. apply (flock_call [] (Some (flock_file 5)) LOCK_EX). }
  split; [done|].
  apply (flock_exclusive _ (0, 7) [mkFlockLock 5 true] (mkFlockLock 5 true) (mkFlockLock 5 true) Hr);
    [reflexivity|left|left|reflexivity].
Defined.

End Flock.

(** ** Leases *)

Module Lease.

Record FileLease := mkLease {
  le_owner_pid : Z;
  le_lease_type : Z;
  le_pending_break_write : bool
}.
#[export] Instance fields_FileLease : Fields FileLease := fun l =>
  mkLease (le_owner_pid l) (le_lease_type l) (le_pending_break_write l).
#[local] Existing Instance fields_FileLease.

Abbreviation Table := (list (FileLockKey * FileLease)).

(** [readable] and [writable] are those of the open file, [open_fds] the answer
    of [count_open_fds_for_key]. *)
Definition set_file_lease (table : Table) (key : FileLockKey) (owner_pid lease_type : Z)
    (readable writable : bool) (open_fds : Z) : Z * Table :=
  if negb ((lease_type =? F_RDLCK) || (lease_type =? F_WRLCK) || (lease_type =? F_UNLCK))
  then (err EINVAL, table)
  else if lease_type =? F_UNLCK then
    match bt_get table key with
    | Some lease =>
        if negb (le_owner_pid lease =? owner_pid) then (err EAGAIN, table) else (0, bt_remove table key)
    | None => (0, table)
    end
  else
    let refused :=
      match bt_get table key with
      | Some lease => negb (le_owner_pid lease =? owner_pid) || le_pending_break_write lease
      | None => false
      end in
    if refused then (err EAGAIN, table)
    else if (lease_type =? F_RDLCK) && (negb readable || writable) then (err EAGAIN, table)
    else if (lease_type =? F_WRLCK) && (1 <? open_fds) then (err EBUSY, table)
    else (0, bt_insert table key (mkLease owner_pid lease_type false)).

Definition get_file_lease_type (table : Table) (key : FileLockKey) (owner_pid : Z) : Z :=
  match bt_get table key with
  | Some lease => if le_owner_pid lease =? owner_pid then le_lease_type lease else 2
  | None => 2
  end.

Definition remove_owner_file_lease_for_key (table : Table) (owner_pid : Z) (key : FileLockKey) : Table :=
  match bt_get table key with
  | Some lease => if le_owner_pid lease =? owner_pid then bt_remove table key else table
  | None => table
  end.

Definition release_all_file_leases_for_owner (table : Table) (owner_pid : Z) : Table :=
  List.filter (fun e => negb (le_owner_pid e.2 =? owner_pid)) table.

(** The process to send [SIGIO] to, and the table. *)
Definition maybe_signal_lease_break (table : Table) (key : FileLockKey) (open_write truncate_op : bool)
    (breaker_pid : Z) : option Z * Table :=
  match bt_get table key with
  | None => (None, table)
  | Some lease =>
      if le_owner_pid lease =? breaker_pid then (None, table)
      else
        let conflict := if le_lease_type lease =? F_WRLCK then true
                        else if le_lease_type lease =? F_RDLCK then open_write || truncate_op
                        else false in
        if conflict then
          (Some (le_owner_pid lease),
           if (le_lease_type lease =? F_RDLCK) || open_write || truncate_op
           then bt_insert table key (lease {{ le_pending_break_write := true }}) else table)
        else (None, table)
  end.

(** A lease is granted to one process at a time: a request changes the table only
    when it succeeds, it can succeed only if no other process has a lease of the
    file, and the process then has the lease it asked for; the lease of another
    process is never touched.  A read lease needs a descriptor that cannot
    write, a write lease needs to be the only open descriptor. *)
Theorem set_file_lease_correct table key owner_pid lease_type readable writable open_fds :
  bt_wf table ->
  let (ret, table') := set_file_lease table key owner_pid lease_type readable writable open_fds in
  bt_wf table' /\
  (ret = 0 \/ (ret < 0 /\ table' = table)) /\
  (ret = 0 -> get_file_lease_type table' key owner_pid = lease_type /\
     (forall lease, bt_get table key = Some lease -> le_owner_pid lease = owner_pid) /\
     (lease_type = F_RDLCK -> readable = true /\ writable = false) /\
     (lease_type = F_WRLCK -> open_fds <= 1)) /\
  (forall key' pid, pid <> owner_pid \/ key' <> key ->
     get_file_lease_type table' key' pid = get_file_lease_type table key' pid).
Proof.
  intros Hwf.
  assert (forall e, err e < 0) as Herr by (intros e; apply err_negative).
  assert (forall e, err e <> 0) as Hne by (intros e; specialize (Herr e); lia).
  unfold set_file_lease, get_file_lease_type.
  destruct ((lease_type =? F_RDLCK) || (lease_type =? F_WRLCK) || (lease_type =? F_UNLCK)) eqn:Et;
    cbn [negb]; [|split_and!; [done|by right; split|by intros ?%Hne|done]].
  destruct (lease_type =? F_UNLCK) eqn:Eu.
  - assert (lease_type = F_UNLCK) as -> by lia.
    destruct (bt_get table key) as [lease|] eqn:E.
    2: { split_and!; [done|by left| |done]. intros _. rewrite E. split_and!; [done..|lia|lia]. }
    destruct (le_owner_pid lease =? owner_pid) eqn:Eo; cbn [negb];
      [|split_and!; [done|by right; split|by intros ?%Hne|done]].
    split_and!; [by apply bt_wf_remove|by left| |].
    + intros _. rewrite bt_get_remove, key_eqb_refl by done. split_and!; [done| |lia|lia].
      intros lease' [= <-]. lia.
    + intros key' pid Hd. rewrite bt_get_remove by done. destruct (key_eqb key' key) eqn:Ek; [|done].
      apply key_eqb_eq in Ek as ->. rewrite E. destruct Hd as [Hd|Hd]; [|done].
      destruct (le_owner_pid lease =? pid) eqn:Ep; [lia|done].
  - destruct (bt_get table key) as [lease|] eqn:E;
      [destruct (negb (le_owner_pid lease =? owner_pid) || le_pending_break_write lease) eqn:Ef|].
    1: split_and!; [done|by right; split|by intros ?%Hne|done].
    all: destruct ((lease_type =? F_RDLCK) && (negb readable || writable)) eqn:E1;
      [split_and!; [done|by right; split|by intros ?%Hne|done]|].
    all: destruct ((lease_type =? F_WRLCK) && (1 <? open_fds)) eqn:E2;
      [split_and!; [done|by right; split|by intros ?%Hne|done]|].
    all: split_and!; [by apply bt_wf_insert|by left| |].
    all: try (intros _; rewrite bt_get_insert, key_eqb_refl; cbn; rewrite Z.eqb_refl; split_and!;
      [done|intros lease' Hl; simplify_eq; lia|destruct readable, writable; simpl in *; lia|lia]).
    all: intros key' pid Hd; rewrite bt_get_insert; destruct (key_eqb key' key) eqn:Ek; [|done];
      apply key_eqb_eq in Ek as ->; rewrite E; destruct Hd as [Hd|Hd]; [|done]; cbn.
    + destruct (owner_pid =? pid) eqn:Ep; [lia|]. destruct (le_owner_pid lease =? pid) eqn:Ep2; [lia|done].
    + destruct (owner_pid =? pid) eqn:Ep; [lia|done].
Qed.

Lemma set_file_lease_correct_witness :
  let table := [((0, 7), mkLease 3 F_RDLCK false)] in
  let (ret, table') := set_file_lease table (0, 7) 3 F_UNLCK true false 1 in
  bt_wf table' /\
  (ret = 0 \/ (ret < 0 /\ table' = table)) /\
  (ret = 0 -> get_file_lease_type table' (0, 7) 3 = F_UNLCK /\
     (forall lease, bt_get table (0, 7) = Some lease -> le_owner_pid lease = 3) /\
     (F_UNLCK = F_RDLCK -> true = true /\ false = false) /\
     (F_UNLCK = F_WRLCK -> 1 <= 1)) /\
  (forall key' pid, pid <> 3 \/ key' <> (0, 7) ->
     get_file_lease_type table' key' pid = get_file_lease_type table key' pid).
Proof.
  apply (set_file_lease_correct [((0, 7), mkLease 3 F_RDLCK false)] (0, 7) 3 F_UNLCK true false 1).
  repeat constructor.
Defined.

End Lease.
