(* ===== verification/Cbpf.v ===== *)
(** * Classic BPF socket filters

    [syscall/net/cbpf.rs]: the check of a filter a process attaches to a socket, its
    interpreter, and the exchange of filters with user memory.  A filter that
    passed the check never panics, never runs off its end, and stops. *)

From S2P Require Import Prelude.
From S2P Require Import Errno.
From S2P Require Import Bytes.

Module Cbpf.

Abbreviation BPF_MAXINSNS := 4096.
Abbreviation BPF_MEMWORDS := 16%nat.
Abbreviation SKF_AD_OFF := 4294963200.

Abbreviation BPF_LD := 0.
Abbreviation BPF_LDX := 1.
Abbreviation BPF_ST := 2.
Abbreviation BPF_STX := 3.
Abbreviation BPF_ALU := 4.
Abbreviation BPF_JMP := 5.
Abbreviation BPF_RET := 6.
Abbreviation BPF_MISC := 7.
Abbreviation BPF_W := 0.
Abbreviation BPF_H := 8.
Abbreviation BPF_B := 16.
Abbreviation BPF_IMM := 0.
Abbreviation BPF_ABS := 32.
Abbreviation BPF_IND := 64.
Abbreviation BPF_MEM := 96.
Abbreviation BPF_LEN := 128.
Abbreviation BPF_MSH := 160.
Abbreviation BPF_ADD := 0.
Abbreviation BPF_SUB := 16.
Abbreviation BPF_MUL := 32.
Abbreviation BPF_DIV := 48.
Abbreviation BPF_OR := 64.
Abbreviation BPF_AND := 80.
Abbreviation BPF_LSH := 96.
Abbreviation BPF_RSH := 112.
Abbreviation BPF_NEG := 128.
Abbreviation BPF_MOD := 144.
Abbreviation BPF_XOR := 160.
Abbreviation BPF_JA := 0.
Abbreviation BPF_JEQ := 16.
Abbreviation BPF_JGT := 32.
Abbreviation BPF_JGE := 48.
Abbreviation BPF_JSET := 64.
Abbreviation BPF_K := 0.
Abbreviation BPF_X := 8.
Abbreviation BPF_A := 16.
Abbreviation BPF_TAX := 0.
Abbreviation BPF_TXA := 128.

Record ClassicBpfInsn := mkInsn {
  code : Z;
  jt : Z;
  jf : Z;
  k : Z
}.

Definition is_u32 (x : Z) : Prop := 0 <= x < 4294967296.
Definition insn_ok (i : ClassicBpfInsn) : Prop :=
  0 <= code i < 65536 /\ is_byte (jt i) /\ is_byte (jf i) /\ is_u32 (k i).

(** The bit fields of an opcode. *)
Definition bpf_class (c : Z) : Z := Z.land c 7.
Definition bpf_size (c : Z) : Z := Z.land c 24.
Definition bpf_mode (c : Z) : Z := Z.land c 224.
Definition bpf_op (c : Z) : Z := Z.land c 240.
Definition bpf_src (c : Z) : Z := Z.land c 8.
Definition bpf_miscop (c : Z) : Z := Z.land c 248.

(** [matches!(x, a | b | ..)] *)
Definition one_of (x : Z) (l : list Z) : bool := existsb (Z.eqb x) l.

(** ** The check *)

Definition code_allowed (c : Z) : bool :=
  let mode := bpf_mode c in
  let size := bpf_size c in
  if bpf_class c =? BPF_LD then
    (one_of mode [BPF_IMM; BPF_MEM; BPF_LEN] && (size =? BPF_W)) ||
    (one_of mode [BPF_ABS; BPF_IND] && one_of size [BPF_W; BPF_H; BPF_B])
  else if bpf_class c =? BPF_LDX then
    (one_of mode [BPF_IMM; BPF_MEM; BPF_LEN] && (size =? BPF_W)) || ((mode =? BPF_MSH) && (size =? BPF_B))
  else if one_of (bpf_class c) [BPF_ST; BPF_STX] then (c =? BPF_ST) || (c =? BPF_STX)
  else if bpf_class c =? BPF_ALU then
    if bpf_op c =? BPF_NEG then c =? Z.lor BPF_ALU BPF_NEG
    else one_of (bpf_op c) [BPF_ADD; BPF_SUB; BPF_MUL; BPF_DIV; BPF_OR; BPF_AND; BPF_LSH; BPF_RSH; BPF_MOD; BPF_XOR]
         && one_of (bpf_src c) [BPF_K; BPF_X]
  else if bpf_class c =? BPF_JMP then
    if bpf_op c =? BPF_JA then c =? Z.lor BPF_JMP BPF_JA
    else one_of (bpf_op c) [BPF_JEQ; BPF_JGT; BPF_JGE; BPF_JSET] && one_of (bpf_src c) [BPF_K; BPF_X]
  else if bpf_class c =? BPF_RET then one_of (bpf_size c) [BPF_K; BPF_A]
  else if bpf_class c =? BPF_MISC then one_of (bpf_miscop c) [BPF_TAX; BPF_TXA]
  else false.

(** One instruction of the loop of [validate]; [len] instructions, this one at [pc]. *)
Definition validate_insn (len pc : Z) (i : ClassicBpfInsn) : bool :=
  let c := code i in
  if negb (code_allowed c) then false
  else if (c =? Z.lor (Z.lor BPF_ALU BPF_DIV) BPF_K) || (c =? Z.lor (Z.lor BPF_ALU BPF_MOD) BPF_K) then negb (k i =? 0)
  else if (c =? Z.lor (Z.lor BPF_ALU BPF_LSH) BPF_K) || (c =? Z.lor (Z.lor BPF_ALU BPF_RSH) BPF_K) then negb (32 <=? k i)
  else if (c =? Z.lor BPF_LD BPF_MEM) || (c =? Z.lor BPF_LDX BPF_MEM) || (c =? BPF_ST) || (c =? BPF_STX)
  then negb (Z.of_nat BPF_MEMWORDS <=? k i)
  else if (bpf_class c =? BPF_LD) && (bpf_mode c =? BPF_ABS) && (SKF_AD_OFF <=? k i) then false
  else if c =? Z.lor BPF_JMP BPF_JA then negb (len - pc - 1 <=? k i)
  else if (bpf_class c =? BPF_JMP) && negb (bpf_op c =? BPF_JA)
  then negb ((len <=? pc + jt i + 1) || (len <=? pc + jf i + 1))
  else true.

Fixpoint validate_loop (len pc : Z) (insns : list ClassicBpfInsn) : bool :=
  match insns with
  | [] => true
  | i :: insns => validate_insn len pc i && validate_loop len (pc + 1) insns
  end.

Definition validate (insns : list ClassicBpfInsn) : Z + unit :=
  let len := Z.of_nat (length insns) in
  if (len =? 0) || (BPF_MAXINSNS <? len) then inl (err EINVAL)
  else if negb (validate_loop len 0 insns) then inl (err EINVAL)
  else match code <$> last insns with
       | Some c => if (c =? Z.lor BPF_RET BPF_K) || (c =? Z.lor BPF_RET BPF_A) then inr tt else inl (err EINVAL)
       | None => inl (err EINVAL)
       end.

(** ** The interpreter *)

Definition w32 (x : Z) : Z := x mod 4294967296.

(** [packet.get(offset..offset + n)]. *)
Definition packet_get (packet : list Z) (offset n : Z) : option (list Z) :=
  end_ ← checked_add offset n; slice packet offset (end_ - offset).

Definition load_packet (packet : list Z) (offset size : Z) : option Z :=
  if size =? BPF_W then be_decode <$> packet_get packet offset 4
  else if size =? BPF_H then be_decode <$> packet_get packet offset 2
  else if size =? BPF_B then packet !! Z.to_nat offset
  else None.

Definition load_value (packet : list Z) (i : ClassicBpfInsn) (x : Z) (mem : list Z) : option Z :=
  let mode := bpf_mode (code i) in
  if mode =? BPF_IMM then Some (k i)
  else if mode =? BPF_MEM then mem !! Z.to_nat (k i)
  else if mode =? BPF_LEN then Some (w32 (Z.of_nat (length packet)))
  else if mode =? BPF_ABS then load_packet packet (k i) (bpf_size (code i))
  else if mode =? BPF_IND then offset ← checked_add x (k i); load_packet packet offset (bpf_size (code i))
  else if mode =? BPF_MSH then byte ← packet !! Z.to_nat (k i); Some (Z.shiftl (Z.land byte 15) 2)
  else None.

Definition alu (op a rhs : Z) : option Z :=
  if op =? BPF_ADD then Some (w32 (a + rhs))
  else if op =? BPF_SUB then Some (w32 (a - rhs))
  else if op =? BPF_MUL then Some (w32 (a * rhs))
  else if op =? BPF_DIV then if rhs =? 0 then None else Some (a / rhs)
  else if op =? BPF_OR then Some (Z.lor a rhs)
  else if op =? BPF_AND then Some (Z.land a rhs)
  else if op =? BPF_LSH then Some (w32 (Z.shiftl a (Z.land rhs 31)))
  else if op =? BPF_RSH then Some (Z.shiftr a (Z.land rhs 31))
  else if op =? BPF_NEG then Some (w32 (- a))
  else if op =? BPF_MOD then if rhs =? 0 then None else Some (a mod rhs)
  else if op =? BPF_XOR then Some (Z.lxor a rhs)
  else None.

Definition jump_taken (op a rhs : Z) : option bool :=
  if op =? BPF_JEQ then Some (a =? rhs)
  else if op =? BPF_JGT then Some (rhs <? a)
  else if op =? BPF_JGE then Some (rhs <=? a)
  else if op =? BPF_JSET then Some (negb (Z.land a rhs =? 0))
  else None.

(** The local variables of [execute]. *)
Record Cpu := mkCpu {
  c_a : Z;
  c_x : Z;
  c_mem : list Z;
  c_pc : Z
}.
#[export] Instance fields_Cpu : Fields Cpu := fun c => mkCpu (c_a c) (c_x c) (c_mem c) (c_pc c).

Definition boot : Cpu := mkCpu 0 0 (replicate BPF_MEMWORDS 0) 0.

(** One turn of the loop: the next state, or the value returned. *)
Inductive Turn := Next (s : Cpu) | Done (r : option Z).

(** [mem[k] = v]: a panic outside the scratch memory. *)
Definition store (s : Cpu) (i : Z) (v : Z) : option Turn :=
  if i <? Z.of_nat (length (c_mem s))
  then Some (Next (s {{ c_mem := <[Z.to_nat i := v]> (c_mem s); c_pc := c_pc s + 1 }})) else None.

(** The right operand of an arithmetic or jump instruction. *)
Definition operand (i : ClassicBpfInsn) (s : Cpu) : Z := if bpf_src (code i) =? BPF_X then c_x s else k i.

Definition exec_insn (packet : list Z) (i : ClassicBpfInsn) (s : Cpu) : option Turn :=
  let c := code i in
  let next := c_pc s + 1 in
  if bpf_class c =? BPF_LD then
    match load_value packet i (c_x s) (c_mem s) with
    | Some v => Some (Next (s {{ c_a := v; c_pc := next }}))
    | None => Some (Done None)
    end
  else if bpf_class c =? BPF_LDX then
    match load_value packet i (c_x s) (c_mem s) with
    | Some v => Some (Next (s {{ c_x := v; c_pc := next }}))
    | None => Some (Done None)
    end
  else if bpf_class c =? BPF_ST then store s (k i) (c_a s)
  else if bpf_class c =? BPF_STX then store s (k i) (c_x s)
  else if bpf_class c =? BPF_ALU then
    match alu (bpf_op c) (c_a s) (operand i s) with
    | Some v => Some (Next (s {{ c_a := v; c_pc := next }}))
    | None => Some (Done None)
    end
  else if bpf_class c =? BPF_JMP then
    if bpf_op c =? BPF_JA then
      match checked_add (c_pc s) (1 + k i) with
      | Some pc => Some (Next (s {{ c_pc := pc }}))
      | None => Some (Done None)
      end
    else
      match jump_taken (bpf_op c) (c_a s) (operand i s) with
      | Some taken =>
          match checked_add (c_pc s) (1 + if taken : bool then jt i else jf i) with
          | Some pc => Some (Next (s {{ c_pc := pc }}))
          | None => Some (Done None)
          end
      | None => Some (Done None)
      end
  else if bpf_class c =? BPF_RET then Some (Done (Some (if bpf_size c =? BPF_A then c_a s else k i)))
  else
    if bpf_miscop c =? BPF_TAX then Some (Next (s {{ c_x := c_a s; c_pc := next }}))
    else if bpf_miscop c =? BPF_TXA then Some (Next (s {{ c_a := c_x s; c_pc := next }}))
    else Some (Done None).

Definition turn (insns : list ClassicBpfInsn) (packet : list Z) (s : Cpu) : option Turn :=
  match insns !! Z.to_nat (c_pc s) with
  | Some i => exec_insn packet i s
  | None => Some (Done None)
  end.

(** The loop; without fuel it has no result, as if it panicked. *)
Fixpoint run (fuel : nat) (insns : list ClassicBpfInsn) (packet : list Z) (s : Cpu) : option (option Z) :=
  match fuel with
  | O => None
  | S fuel =>
      t ← turn insns packet s;
      match t with
      | Next s => run fuel insns packet s
      | Done r => Some r
      end
  end.
Definition execute (insns : list ClassicBpfInsn) (packet : list Z) : option (option Z) :=
  run (S (length insns)) insns packet boot.

(** The length to accept of a packet; no length drops it. *)
Definition filter_len (insns : list ClassicBpfInsn) (packet : list Z) : option (option Z) :=
  r ← execute insns packet;
  Some (snaplen ← r; if snaplen =? 0 then None else Some (Z.min snaplen (Z.of_nat (length packet)))).

(** ** Exchange with user memory *)

Definition parse_insn (chunk : list Z) : ClassicBpfInsn :=
  mkInsn (le_decode (take 2 chunk)) (nth 2 chunk 0) (nth 3 chunk 0) (le_decode (take 4 (drop 4 chunk))).
Definition insn_bytes (i : ClassicBpfInsn) : list Z :=
  le_encode 2 (code i) ++ [jt i; jf i] ++ le_encode 4 (k i).

Definition to_sock_filter_bytes (insns : list ClassicBpfInsn) : list Z := concat (map insn_bytes insns).

(** [copy_in ptr len] is [try_copy_from_user]: the bytes, or a fault. *)
Definition from_sock_fprog_user (copy_in : Z -> Z -> option (list Z)) (optval optlen : Z)
    : Z + list ClassicBpfInsn :=
  if negb (optlen =? 16) then inl (err EINVAL)
  else if optval =? 0 then inl (err EFAULT)
  else
    match copy_in optval 16 with
    | None => inl (err EFAULT)
    | Some fprog =>
        let len := le_decode (take 2 fprog) in
        if (len =? 0) || (BPF_MAXINSNS <? len) then inl (err EINVAL)
        else
          let filter_ptr := le_decode (take 8 (drop 8 fprog)) in
          if filter_ptr =? 0 then inl (err EINVAL)
          else
            match copy_in filter_ptr (len * 8) with
            | None => inl (err EFAULT)
            | Some raw =>
                let insns := map parse_insn (chunks_exact (S (length raw)) 8 raw) in
                match validate insns with
                | inl e => inl e
                | inr _ => inr insns
                end
            end
    end.

(** ** An accepted filter stops and cannot go wrong *)

(** One turn that goes on. *)
Definition moves (insns : list ClassicBpfInsn) (packet : list Z) (s s' : Cpu) : Prop :=
  turn insns packet s = Some (Next s').

(** How a filter may end: with [ret], or, dropping the packet, at a load outside of it or a
    division by a zero [X].  Only opcodes of more than one byte, which no assembler
    produces, can also fail at a scratch cell or a constant divisor. *)
Inductive stops (packet : list Z) (i : ClassicBpfInsn) (s : Cpu) : option Z -> Prop :=
  | stops_ret : bpf_class (code i) = BPF_RET ->
      stops packet i s (Some (if bpf_size (code i) =? BPF_A then c_a s else k i))
  | stops_load : bpf_class (code i) = BPF_LD \/ bpf_class (code i) = BPF_LDX ->
      load_value packet i (c_x s) (c_mem s) = None ->
      (code i < 256 -> one_of (bpf_mode (code i)) [BPF_ABS; BPF_IND; BPF_MSH] = true) -> stops packet i s None
  | stops_div : bpf_class (code i) = BPF_ALU -> bpf_op (code i) = BPF_DIV \/ bpf_op (code i) = BPF_MOD ->
      operand i s = 0 -> (code i < 256 -> bpf_src (code i) = BPF_X) -> stops packet i s None.

Lemma one_of_In x l : one_of x l = true <-> In x l.
Proof.
  unfold one_of. rewrite existsb_exists. split; [intros (y & ? & Hy); by replace x with y by lia|].
  intros. exists x. by rewrite Z.eqb_refl.
Qed.

(** A fact about opcodes of a bounded width is checked on all of them. *)
Lemma all_codes (P : Z -> bool) n : forallb P (seqZ 0 n) = true -> forall c, 0 <= c < n -> P c = true.
Proof. intros H c Hc. rewrite forallb_forall in H. apply H, list_elem_of_In, elem_of_seqZ. lia. Qed.

Lemma class_range c : 0 <= bpf_class c <= 7.
Proof. unfold bpf_class. pose proof (Z.land_ones c 3 ltac:(lia)) as E. change (Z.ones 3) with 7 in E. rewrite E. pose proof (Z.mod_pos_bound c (2 ^ 3)). lia. Qed.

(** The one-byte opcodes that load a scratch cell, or divide by a constant, are the ones
    whose operand [validate] looks at. *)
Lemma short_mem_codes c : 0 <= c < 256 -> code_allowed c = true ->
  bpf_class c = BPF_LD \/ bpf_class c = BPF_LDX -> bpf_mode c = BPF_MEM ->
  c = Z.lor BPF_LD BPF_MEM \/ c = Z.lor BPF_LDX BPF_MEM.
Proof.
  intros Hc Ha Hcl Hm. pose proof (all_codes (fun c => negb (code_allowed c && ((bpf_class c =? BPF_LD) || (bpf_class c =? BPF_LDX)) &&
    (bpf_mode c =? BPF_MEM)) || (c =? Z.lor BPF_LD BPF_MEM) || (c =? Z.lor BPF_LDX BPF_MEM)) 256 eq_refl c Hc) as H.
  cbv beta in H. rewrite Ha, Hm in H. change (Z.lor BPF_LD BPF_MEM) with 96 in *. change (Z.lor BPF_LDX BPF_MEM) with 97 in *. lia.
Qed.

Lemma short_div_codes c : 0 <= c < 256 -> code_allowed c = true -> bpf_class c = BPF_ALU ->
  bpf_op c = BPF_DIV \/ bpf_op c = BPF_MOD -> bpf_src c = BPF_X \/ c = 52 \/ c = 148.
Proof.
  intros Hc Ha Hcl Ho. pose proof (all_codes (fun c => negb (code_allowed c && (bpf_class c =? BPF_ALU) && ((bpf_op c =? BPF_DIV) || (bpf_op c =? BPF_MOD)))
    || (bpf_src c =? BPF_X) || (c =? 52) || (c =? 148)) 256 eq_refl c Hc) as H.
  cbv beta in H. rewrite Ha, Hcl in H. lia.
Qed.

Lemma allowed_load_modes c : code_allowed c = true -> bpf_class c = BPF_LD \/ bpf_class c = BPF_LDX ->
  In (bpf_mode c) [BPF_IMM; BPF_MEM; BPF_LEN; BPF_ABS; BPF_IND; BPF_MSH].
Proof.
  unfold code_allowed. intros Ha [Hc|Hc]; rewrite Hc in Ha; cbn [Z.eqb] in Ha;
    apply orb_true_iff in Ha as [[H _]%andb_true_iff|[H _]%andb_true_iff];
    try (apply one_of_In in H; simpl in *; tauto); simpl. lia.
Qed.

Lemma validate_insn_allowed len pc i : validate_insn len pc i = true -> code_allowed (code i) = true.
Proof. unfold validate_insn. by destruct (code_allowed (code i)). Qed.

(** What [validate] checks of the operand of some opcodes. *)
Lemma validate_cell len pc i : validate_insn len pc i = true ->
  code i = 96 \/ code i = 97 \/ code i = BPF_ST \/ code i = BPF_STX -> k i < Z.of_nat BPF_MEMWORDS.
Proof.
  unfold validate_insn. intros Hv [H|[H|[H|H]]]; rewrite H in Hv;
    change (negb (Z.of_nat BPF_MEMWORDS <=? k i) = true) in Hv; lia.
Qed.

Lemma validate_divisor len pc i : validate_insn len pc i = true -> code i = 52 \/ code i = 148 -> k i <> 0.
Proof.
  unfold validate_insn. intros Hv [H|H]; rewrite H in Hv; change (negb (k i =? 0) = true) in Hv; lia.
Qed.

Lemma failed_load len pc packet i s : validate_insn len pc i = true -> insn_ok i -> length (c_mem s) = BPF_MEMWORDS ->
  bpf_class (code i) = BPF_LD \/ bpf_class (code i) = BPF_LDX ->
  load_value packet i (c_x s) (c_mem s) = None -> stops packet i s None.
Proof.
  intros Hv (Hc & _ & _ & Hk) Hm Hcl Hl. apply stops_load; [done..|]. intros Hshort. apply one_of_In.
  pose proof (validate_insn_allowed _ _ _ Hv) as Ha. pose proof (allowed_load_modes _ Ha Hcl) as Hin. unfold load_value in Hl.
  destruct Hin as [E|[E|[E|Hin]]]; rewrite <- ?E in Hl; cbn [Z.eqb Pos.eqb] in Hl; try done.
  exfalso. apply lookup_ge_None_1 in Hl. rewrite Hm in Hl. unfold is_u32 in Hk.
  pose proof (short_mem_codes (code i) ltac:(lia) Ha Hcl (eq_sym E)) as H. pose proof (validate_cell _ _ _ Hv) as Hcell.
  change (Z.lor BPF_LD BPF_MEM) with 96 in H. change (Z.lor BPF_LDX BPF_MEM) with 97 in H. lia.
Qed.

Lemma failed_alu len pc packet i s : validate_insn len pc i = true -> insn_ok i -> bpf_class (code i) = BPF_ALU ->
  alu (bpf_op (code i)) (c_a s) (operand i s) = None -> stops packet i s None.
Proof.
  intros Hv (Hc & _) Hcl Hn. pose proof (validate_insn_allowed _ _ _ Hv) as Ha.
  assert (bpf_op (code i) = BPF_DIV \/ bpf_op (code i) = BPF_MOD) as Hop.
  { unfold code_allowed in Ha. rewrite Hcl in Ha. cbn in Ha. unfold alu in Hn.
    repeat case_if; try done; lia. }
  assert (operand i s = 0) as H0.
  { unfold alu in Hn. destruct Hop as [E|E]; rewrite E in Hn; cbn in Hn; destruct (operand i s =? 0) eqn:E0; lia || done. }
  apply stops_div; [done..|]. intros Hs. destruct (short_div_codes (code i) ltac:(lia) Ha Hcl Hop) as [|E]; [done|].
  exfalso. apply (validate_divisor _ _ _ Hv E). unfold operand in H0. by destruct E as [E|E]; rewrite E in H0.
Qed.

(** The state the loop keeps: a program counter inside the filter and sixteen cells. *)
Definition cpu_ok (len : Z) (s : Cpu) : Prop := 0 <= c_pc s < len /\ length (c_mem s) = BPF_MEMWORDS.

(** One accepted instruction does not panic; it ends the filter as [stops] says, or goes
    on further down, to the next instruction or to one inside the filter. *)
Definition exec_good (len : Z) (packet : list Z) (i : ClassicBpfInsn) (s : Cpu) (t : option Turn) : Prop :=
  match t with
  | Some (Next s') => c_pc s < c_pc s' /\ (c_pc s' = c_pc s + 1 \/ c_pc s' < len) /\
      length (c_mem s') = BPF_MEMWORDS /\ bpf_class (code i) <> BPF_RET
  | Some (Done r) => stops packet i s r
  | None => False
  end.

Lemma exec_jump len packet i s : validate_insn len (c_pc s) i = true -> insn_ok i -> cpu_ok len s -> len <= BPF_MAXINSNS ->
  bpf_class (code i) = BPF_JMP -> exec_good len packet i s (exec_insn packet i s).
Proof.
  intros Hv (Hc & Hjt & Hjf & Hk) [Hpc Hm] Hlen Hcl. pose proof (validate_insn_allowed _ _ _ Hv) as Ha.
  unfold is_byte, is_u32 in *. unfold exec_insn. rewrite Hcl. cbn [Z.eqb Pos.eqb].
  unfold code_allowed in Ha. rewrite Hcl in Ha. cbn in Ha.
  destruct (bpf_op (code i) =? BPF_JA) eqn:Eja.
  - apply Z.eqb_eq in Ha. unfold validate_insn in Hv. rewrite Ha in Hv.
    change (negb (len - c_pc s - 1 <=? k i) = true) in Hv. unfold checked_add. case_if; [|lia]. cbn. lia.
  - assert (negb ((len <=? c_pc s + jt i + 1) || (len <=? c_pc s + jf i + 1)) = true) as Hr.
    { clear Ha. unfold validate_insn in Hv. rewrite Hcl, Eja in Hv. cbn [Z.eqb Pos.eqb andb negb] in Hv.
      destruct (code_allowed (code i)); [|done]. cbn [negb] in Hv.
      destruct (code i =? Z.lor BPF_JMP BPF_JA) eqn:E5; [apply Z.eqb_eq in E5; by rewrite E5 in Eja|].
      repeat match type of Hv with context [code i =? ?c] =>
        let E := fresh in destruct (code i =? c) eqn:E; [apply Z.eqb_eq in E; by rewrite E in Hcl|] end. exact Hv. }
    destruct (jump_taken _ _ _) as [[]|] eqn:Ej.
    + unfold checked_add. case_if; [cbn; lia|lia].
    + unfold checked_add. case_if; [cbn; lia|lia].
    + unfold jump_taken in Ej. repeat case_if; try done; lia.
Qed.

Lemma exec_accepted len packet i s : validate_insn len (c_pc s) i = true -> insn_ok i -> cpu_ok len s -> len <= BPF_MAXINSNS ->
  exec_good len packet i s (exec_insn packet i s).
Proof.
  intros Hv Hi Hs Hlen. pose proof (validate_insn_allowed _ _ _ Hv) as Ha. pose proof Hi as (Hc & _ & _ & Hk). unfold is_u32 in Hk.
  destruct (decide (bpf_class (code i) = BPF_JMP)) as [Hj|Hj]; [by apply exec_jump|]. destruct Hs as [Hpc Hm].
  pose proof (class_range (code i)). unfold exec_insn.
  destruct (bpf_class (code i) =? BPF_LD) eqn:E0;
    [|destruct (bpf_class (code i) =? BPF_LDX) eqn:E1;
    [|destruct (bpf_class (code i) =? BPF_ST) eqn:E2;
    [|destruct (bpf_class (code i) =? BPF_STX) eqn:E3;
    [|destruct (bpf_class (code i) =? BPF_ALU) eqn:E4;
    [|destruct (bpf_class (code i) =? BPF_JMP) eqn:E5; [lia|];
      destruct (bpf_class (code i) =? BPF_RET) eqn:E6]]]]].
  - destruct (load_value _ _ _ _) eqn:El; [cbn; lia|]. eapply failed_load; eauto. lia.
  - destruct (load_value _ _ _ _) eqn:El; [cbn; lia|]. eapply failed_load; eauto. lia.
  - assert (code i = BPF_ST) as Hcode by (unfold code_allowed in Ha; apply Z.eqb_eq in E2; rewrite E2 in Ha; cbn in Ha;
      destruct (Z.eq_dec (code i) BPF_STX) as [E|]; [by rewrite E in E2|lia]).
    pose proof (validate_cell _ _ _ Hv ltac:(lia)). unfold store. rewrite Hm. case_if; [|lia]. cbn. rewrite length_insert. lia.
  - assert (code i = BPF_STX) as Hcode by (unfold code_allowed in Ha; apply Z.eqb_eq in E3; rewrite E3 in Ha; cbn in Ha;
      destruct (Z.eq_dec (code i) BPF_ST) as [E|]; [by rewrite E in E3|lia]).
    pose proof (validate_cell _ _ _ Hv ltac:(lia)). unfold store. rewrite Hm. case_if; [|lia]. cbn. rewrite length_insert. lia.
  - destruct (alu _ _ _) eqn:El; [cbn; lia|]. eapply failed_alu; eauto. lia.
  - cbn. apply stops_ret. lia.
  - assert (bpf_class (code i) = BPF_MISC) as Hcl by lia. unfold code_allowed in Ha. rewrite Hcl in Ha. cbn in Ha.
    destruct (bpf_miscop (code i) =? BPF_TAX) eqn:Et; [cbn; lia|]. destruct (bpf_miscop (code i) =? BPF_TXA) eqn:Eu; [cbn; lia|done].
Qed.

Lemma validate_loop_lookup len pc insns j i : validate_loop len pc insns = true -> insns !! j = Some i ->
  validate_insn len (pc + Z.of_nat j) i = true.
Proof.
  revert pc j. induction insns as [|x insns IH]; intros pc j Hv Hj; [done|]. simpl in Hv. apply andb_true_iff in Hv as [Hx Hv].
  destruct j as [|j]; [injection Hj as <-; by replace (pc + Z.of_nat 0) with pc by lia|].
  replace (pc + Z.of_nat (S j)) with (pc + 1 + Z.of_nat j) by lia. by apply IH.
Qed.

(** An accepted filter: every instruction passed the check, the last one returns. *)
Lemma validate_facts insns : validate insns = inr tt ->
  let len := Z.of_nat (length insns) in
  0 < len <= BPF_MAXINSNS /\ validate_loop len 0 insns = true /\
  (forall i, last insns = Some i -> bpf_class (code i) = BPF_RET).
Proof.
  unfold validate. intros H. repeat case_if; try done. destruct (last insns) as [i|] eqn:El; [|done]. cbn in H.
  split_and!; [lia|lia|by destruct (validate_loop _ _ _)|]. intros j [= <-].
  destruct (code i =? _) eqn:E1; [apply Z.eqb_eq in E1; by rewrite E1|].
  destruct (code i =? Z.lor BPF_RET BPF_A) eqn:E2; [apply Z.eqb_eq in E2; by rewrite E2|done].
Qed.

Lemma turn_accepted insns packet s (len := Z.of_nat (length insns)) :
  Forall insn_ok insns -> validate insns = inr tt -> cpu_ok len s ->
  exists i, insns !! Z.to_nat (c_pc s) = Some i /\
    match turn insns packet s with
    | Some (Next s') => c_pc s < c_pc s' /\ cpu_ok len s'
    | Some (Done r) => stops packet i s r
    | None => False
    end.
Proof.
  intros Hok Hv Hs. destruct (validate_facts _ Hv) as (Hlen & Hloop & Hlast). pose proof Hs as [Hpc Hm].
  destruct (lookup_lt_is_Some_2 insns (Z.to_nat (c_pc s))) as [i Hi]; [lia|]. exists i. split; [done|]. unfold turn. rewrite Hi.
  pose proof (validate_loop_lookup _ _ _ _ _ Hloop Hi) as Hvi. replace (0 + Z.of_nat (Z.to_nat (c_pc s))) with (c_pc s) in Hvi by lia.
  assert (insn_ok i) as Hoki by (rewrite Forall_forall in Hok; eapply Hok, list_elem_of_lookup_2, Hi).
  pose proof (exec_accepted len packet i s Hvi Hoki Hs ltac:(lia)) as Hg. unfold exec_good in Hg.
  destruct (exec_insn packet i s) as [[s'|r]|]; [|done|done]. destruct Hg as (H1 & H2 & H3 & H4). split; [done|].
  split; [|done]. destruct H2 as [H2|]; [|lia]. destruct (decide (c_pc s' = len)) as [E|]; [|lia]. exfalso. apply H4, Hlast.
  rewrite last_lookup, <- Hi. f_equal. lia.
Qed.

Lemma run_accepted insns packet fuel s (len := Z.of_nat (length insns)) :
  Forall insn_ok insns -> validate insns = inr tt -> cpu_ok len s -> (Z.to_nat (len - c_pc s) <= fuel)%nat ->
  exists r s' i, run fuel insns packet s = Some r /\ rtc (moves insns packet) s s' /\
    insns !! Z.to_nat (c_pc s') = Some i /\ stops packet i s' r.
Proof.
  intros Hok Hv. revert s. induction fuel as [|fuel IH]; intros s Hs Hf; [destruct Hs; lia|]. simpl.
  destruct (turn_accepted insns packet s Hok Hv Hs) as (i & Hi & Ht).
  destruct (turn insns packet s) as [[s'|r]|] eqn:Et; [|by exists r, s, i|done]. destruct Ht as [Hlt Hs'].
  destruct (IH s' Hs' ltac:(destruct Hs; lia)) as (r & s2 & j & Hr & Hm & Hj & Hst). exists r, s2, j. split_and!; [done| |done..].
  eapply rtc_l; [exact Et|done].
Qed.

(** C19: A filter that [validate] accepts runs to its end on every packet: the interpreter
    neither panics nor runs off the filter nor loops, and the result is the one of a
    [ret] instruction it reaches, or the packet is dropped at an instruction that loads
    outside the packet or divides by zero. *)
Theorem accepted_filter_returns insns packet : Forall insn_ok insns -> validate insns = inr tt ->
  exists r s i, execute insns packet = Some r /\ rtc (moves insns packet) boot s /\
    insns !! Z.to_nat (c_pc s) = Some i /\ stops packet i s r.
Proof.
  intros Hok Hv. destruct (validate_facts _ Hv) as (Hlen & _). unfold execute.
  apply run_accepted; [done|done|split; [cbn; lia|done]|cbn; lia].
Qed.

(** ** Exchange with user memory *)

Lemma insn_bytes_length i : length (insn_bytes i) = 8%nat.
Proof. unfold insn_bytes. by rewrite !length_app, !length_le_encode. Qed.

Lemma parse_insn_bytes i : insn_ok i -> parse_insn (insn_bytes i) = i.
Proof.
  destruct i as [c t f n]. intros (Hc & _ & _ & Hk). cbn [code k] in Hc, Hk. unfold parse_insn, insn_bytes. cbn [code jt jf k].
  rewrite take_app_length', drop_app_ge by (rewrite length_le_encode; lia). rewrite le_decode_encode by (cbn; lia).
  rewrite !length_le_encode. change (drop (4 - 2) ([t; f] ++ le_encode 4 n)) with (le_encode 4 n).
  rewrite take_ge by (rewrite length_le_encode; lia). rewrite le_decode_encode by (unfold is_u32 in Hk; cbn; lia). done.
Qed.

Lemma insn_bytes_parse l : length l = 8%nat -> Forall is_byte l -> insn_bytes (parse_insn l) = l /\ insn_ok (parse_insn l).
Proof.
  intros Hl Hb. do 8 (destruct l as [|? l]; [done|]). destruct l; [|done]. clear Hl. repeat (apply Forall_cons in Hb as [? Hb]).
  unfold parse_insn, insn_bytes. cbn [code jt jf k take drop nth].
  assert (Forall is_byte [z; z0]) as Hlo by (rewrite !Forall_cons; auto).
  assert (Forall is_byte [z3; z4; z5; z6]) as Hhi by (rewrite !Forall_cons; auto). split.
  - pose proof (le_encode_decode _ Hlo) as E1. pose proof (le_encode_decode _ Hhi) as E2. cbn [length] in E1, E2. by rewrite E1, E2.
  - pose proof (le_decode_range _ Hlo). pose proof (le_decode_range _ Hhi). unfold insn_ok, is_u32. cbn [code jt jf k].
    cbn [length] in *. change (256 ^ Z.of_nat 2) with 65536 in *. change (256 ^ Z.of_nat 4) with 4294967296 in *. auto.
Qed.

Lemma filter_bytes_parse fuel l : (length l < fuel)%nat -> (exists n, length l = 8 * n)%nat -> Forall is_byte l ->
  to_sock_filter_bytes (map parse_insn (chunks_exact fuel 8 l)) = l /\ Forall insn_ok (map parse_insn (chunks_exact fuel 8 l)).
Proof.
  revert l. induction fuel as [|fuel IH]; intros l Hf [n Hn] Hb; [lia|]. cbn [chunks_exact]. case_bool_decide as Hl.
  - destruct (IH (drop 8 l)) as [IH1 IH2]; [rewrite length_drop; lia|exists (n - 1)%nat; rewrite length_drop; lia|by apply Forall_drop|].
    destruct (insn_bytes_parse (take 8 l)) as [H1 H2]; [rewrite length_take; lia|by apply Forall_take|].
    cbn [map]. split; [|by constructor]. unfold to_sock_filter_bytes in *. cbn [map concat]. rewrite H1, IH1. apply take_drop.
  - destruct l; [by split|cbn in *; lia].
Qed.

(** C39: A filter that was attached passed the check, and [SO_GET_FILTER] gives back exactly
    the bytes the process handed in: parsing and printing of instructions are inverse. *)
Theorem attached_filter_roundtrip copy_in optval optlen insns :
  (forall p n bs, copy_in p n = Some bs -> length bs = Z.to_nat n /\ Forall is_byte bs) ->
  from_sock_fprog_user copy_in optval optlen = inr insns ->
  validate insns = inr tt /\ Forall insn_ok insns /\
  exists ptr, copy_in ptr (8 * Z.of_nat (length insns)) = Some (to_sock_filter_bytes insns).
Proof.
  intros Hcopy. unfold from_sock_fprog_user. repeat case_if; try done. destruct (copy_in optval 16) as [fprog|] eqn:Ef; [|done].
  pose proof (le_decode_range (take 2 fprog) ltac:(apply Forall_take, (Hcopy _ _ _ Ef))) as [Hpos _].
  repeat case_if; try done. set (len := le_decode (take 2 fprog)) in *. set (ptr := le_decode _).
  destruct (copy_in ptr (len * 8)) as [raw|] eqn:Er; [|done]. destruct (Hcopy _ _ _ Er) as [Hlen Hb].
  destruct (filter_bytes_parse (S (length raw)) raw ltac:(lia) ltac:(exists (Z.to_nat len); lia) Hb) as [Hp Hok].
  generalize dependent (map parse_insn (chunks_exact (S (length raw)) 8 raw)). intros l Hp Hok.
  destruct (validate l) as [|[]] eqn:Ev; [done|]. intros [= <-]. split_and!; [done..|]. exists ptr. rewrite Hp, <- Er. f_equal.
  rewrite <- Hp in Hlen at 1. unfold to_sock_filter_bytes in Hlen.
  assert (forall l, length (concat (map insn_bytes l)) = 8 * length l)%nat as Hc.
  { clear. intros l. induction l as [|i l IH]; [done|]. cbn [map concat length]. rewrite length_app, insn_bytes_length, IH. lia. }
  rewrite Hc in Hlen. lia.
Qed.

(** A filter of two instructions whose opcode [0x134], which has a bit above the
    opcode byte, is a division by the constant zero: it is accepted. *)
Lemma validate_ignores_high_bits :
  validate [mkInsn 308 0 0 0; mkInsn 6 0 0 1] = inr tt /\ execute [mkInsn 308 0 0 0; mkInsn 6 0 0 1] [] = Some None.
Proof. done. Qed.

(** A filter that accepts packets of the IP protocol only. *)
Definition ip_only : list ClassicBpfInsn := [mkInsn 40 0 0 12; mkInsn 21 0 1 2048; mkInsn 6 0 0 65535; mkInsn 6 0 0 0].

Lemma accepted_filter_returns_witness :
  exists r s i, execute ip_only (replicate 12 0 ++ [8; 0; 69]) = Some r /\
    rtc (moves ip_only (replicate 12 0 ++ [8; 0; 69])) boot s /\ ip_only !! Z.to_nat (c_pc s) = Some i /\
    stops (replicate 12 0 ++ [8; 0; 69]) i s r.
Proof.
  apply (accepted_filter_returns ip_only (replicate 12 0 ++ [8; 0; 69])).
  - repeat constructor; cbn; lia.
  - vm_compute. reflexivity.
Defined.

(** User memory with a [sock_fprog] at 4096 that leads to [ip_only] at 8192. *)
Definition user_memory (p n : Z) : option (list Z) :=
  if (p =? 4096) && (n =? 16) then Some ([4; 0; 0; 0; 0; 0; 0; 0] ++ le_encode 8 8192)
  else if (p =? 8192) && (n =? 32) then Some (to_sock_filter_bytes ip_only) else None.

Lemma attached_filter_roundtrip_witness :
  validate ip_only = inr tt /\ Forall insn_ok ip_only /\
  exists ptr, user_memory ptr (8 * Z.of_nat (length ip_only)) = Some (to_sock_filter_bytes ip_only).
Proof.
  apply (attached_filter_roundtrip user_memory 4096 16).
  - unfold user_memory. intros p n bs H. destruct ((p =? 4096) && (n =? 16)) eqn:E1.
    + injection H as <-. split; [cbn; lia|by apply bytes_check].
    + destruct ((p =? 8192) && (n =? 32)) eqn:E2; [|done]. injection H as <-. split; [cbn; lia|by apply bytes_check].
  - vm_compute. reflexivity.
Defined.

End Cbpf.
