(* ===== verification/Ebpf.v ===== *)
(** * Extended BPF

    [bpf/]: maps ([map.rs]), programs and the maps they name ([prog.rs], [syscall.rs]),
    the static check ([verifier.rs]) and the interpreter ([runtime.rs]). *)

From stdpp Require Import strings.
From S2P Require Import Prelude.
From S2P Require Import BTree.
From S2P Require Import Errno.
From S2P Require Import Fallible.
From S2P Require Import Bytes.

Module Ebpf.

Abbreviation BPF_ANY := 0.
Abbreviation BPF_NOEXIST := 1.
Abbreviation BPF_EXIST := 2.
Abbreviation BPF_PSEUDO_MAP_FD := 1.
Abbreviation BPF_FUNC_MAP_LOOKUP_ELEM := 1.
Abbreviation BPF_LD := 0.
Abbreviation BPF_LDX := 1.
Abbreviation BPF_ST := 2.
Abbreviation BPF_STX := 3.
Abbreviation BPF_ALU := 4.
Abbreviation BPF_JMP := 5.
Abbreviation BPF_ALU64 := 7.
Abbreviation BPF_W := 0.
Abbreviation BPF_H := 8.
Abbreviation BPF_B := 16.
Abbreviation BPF_DW := 24.
Abbreviation BPF_IMM := 0.
Abbreviation BPF_MEM := 96.
Abbreviation BPF_X := 8.
Abbreviation BPF_ADD := 0.
Abbreviation BPF_SUB := 16.
Abbreviation BPF_DIV := 48.
Abbreviation BPF_JEQ := 16.
Abbreviation BPF_JNE := 80.
Abbreviation BPF_LSH := 96.
Abbreviation BPF_RSH := 112.
Abbreviation BPF_MOD := 144.
Abbreviation BPF_MOV := 176.
Abbreviation BPF_CALL := 128.
Abbreviation BPF_EXIT := 144.
Abbreviation BPF_REG_0 := 0.
Abbreviation BPF_REG_1 := 1.
Abbreviation BPF_REG_2 := 2.
Abbreviation BPF_REG_10 := 10.
Abbreviation MAX_BPF_REG := 11%nat.
Abbreviation BPF_STACK_SIZE := 512%nat.
Abbreviation BPF_MAXINSNS := 4096.
Abbreviation BPF_MAP_TYPE_HASH := 1.
Abbreviation BPF_MAP_TYPE_ARRAY := 2.
Abbreviation BPF_MAP_TYPE_RINGBUF := 27.
Abbreviation BPF_PROG_TYPE_SOCKET_FILTER := 1.

Record BpfInsn := mkInsn {
  code : Z;
  regs : Z;
  off : Z;
  imm : Z
}.
Definition dst_reg (i : BpfInsn) : Z := Z.land (regs i) 15.
Definition src_reg (i : BpfInsn) : Z := Z.shiftr (regs i) 4.

Definition bpf_class (i : BpfInsn) : Z := Z.land (code i) 7.
Definition bpf_size (i : BpfInsn) : Z := Z.land (code i) 24.
Definition bpf_mode (i : BpfInsn) : Z := Z.land (code i) 224.
Definition bpf_op (i : BpfInsn) : Z := Z.land (code i) 240.
Definition bpf_src (i : BpfInsn) : Z := Z.land (code i) 8.

(** [lddw], which takes the place of two instructions. *)
Definition is_ldimm64 (i : BpfInsn) : bool :=
  (bpf_class i =? BPF_LD) && (bpf_mode i =? BPF_IMM) && (bpf_size i =? BPF_DW).

(** [as u32], [as u64] and [as i64]. *)
Definition as_u32 (x : Z) : Z := x mod 4294967296.
Definition as_u64 (x : Z) : Z := x mod USIZE_MOD.
Definition as_i64 (x : Z) : Z := (x + 9223372036854775808) mod USIZE_MOD - 9223372036854775808.

(** ** Maps *)

Inductive BpfMapKind := KHash | KArray | KRingBuf.
Inductive BpfMapStorage :=
  | SHash (entries : list (list Z * list Z))
  | SArray (values : list (list Z))
  | SRingBuf.
Record BpfMapFile := mkMap {
  key_size : Z;
  value_size : Z;
  max_entries : Z;
  storage : BpfMapStorage
}.
#[export] Instance fields_BpfMapFile : Fields BpfMapFile := fun m =>
  mkMap (key_size m) (value_size m) (max_entries m) (storage m).

Definition is_power_of_two (x : Z) : bool := negb (x =? 0) && (Z.land x (x - 1) =? 0).

Definition map_new (kind : BpfMapKind) (ks vs max : Z) : SyscallError + BpfMapFile :=
  if max =? 0 then inl EINVAL
  else
    match kind with
    | KHash => if (ks =? 0) || (vs =? 0) then inl EINVAL else inr (mkMap ks vs max (SHash []))
    | KArray =>
        if negb (ks =? 4) || (vs =? 0) then inl EINVAL
        else inr (mkMap ks vs max (SArray (replicate (Z.to_nat max) (replicate (Z.to_nat vs) 0))))
    | KRingBuf =>
        if negb (ks =? 0) || negb (vs =? 0) || negb (is_power_of_two max) || negb (max mod 4096 =? 0) then inl EINVAL
        else inr (mkMap ks vs max SRingBuf)
    end.

Definition validate_key (m : BpfMapFile) (key : list Z) : bool := Z.of_nat (length key) =? key_size m.

Definition array_index (key : list Z) : Res Z :=
  if negb (Z.of_nat (length key) =? 4) then Err EINVAL else Ok (le_decode key).

Definition lookup (m : BpfMapFile) (key : list Z) : Res (option (list Z)) :=
  match storage m with
  | SHash entries => if negb (validate_key m key) then Ok None else Ok (bt_get entries key)
  | SArray values => let? index := array_index key in Ok (values !! Z.to_nat index)
  | SRingBuf => Err EOPNOTSUPP
  end.

(** [update] and [store_bytes] give the map after the call; a call that fails leaves it
    as it was. *)
Definition update (m : BpfMapFile) (key value : list Z) (flags : Z) : Res BpfMapFile :=
  if negb (validate_key m key) || negb (Z.of_nat (length value) =? value_size m) then Err EINVAL
  else
    match storage m with
    | SHash entries =>
        let exists_ := bool_decide (is_Some (bt_get entries key)) in
        if (flags =? BPF_NOEXIST) && exists_ then Err EEXIST
        else if (flags =? BPF_EXIST) && negb exists_ then Err ENOENT
        else if negb ((flags =? BPF_ANY) || (flags =? BPF_NOEXIST) || (flags =? BPF_EXIST)) then Err EINVAL
        else if negb exists_ && (max_entries m <=? Z.of_nat (length entries)) then Err E2BIG
        else Ok (m {{ storage := SHash (bt_insert entries key value) }})
    | SArray values =>
        let? index := array_index key in
        if negb (flags =? BPF_ANY) && negb (flags =? BPF_NOEXIST) && negb (flags =? BPF_EXIST) then Err EINVAL
        else if max_entries m <=? index then Err E2BIG
        else if flags =? BPF_NOEXIST then Err EEXIST
        else
          let? old := or_panic (values !! Z.to_nat index) in
          if negb (Nat.eqb (length old) (length value)) then None
          else Ok (m {{ storage := SArray (<[Z.to_nat index := value]> values) }})
    | SRingBuf => Err EOPNOTSUPP
    end.

(** The end of [store_bytes], on the value that was found. *)
Definition store_in_value (value : list Z) (offset : Z) (data : list Z) : Res (list Z) :=
  let? end_ := ok_or (checked_add offset (Z.of_nat (length data))) EINVAL in
  if Z.of_nat (length value) <? end_ then Err EACCES else or_panic (overwrite value offset data).

Definition store_bytes (m : BpfMapFile) (key : list Z) (offset : Z) (data : list Z) : Res BpfMapFile :=
  match storage m with
  | SHash entries =>
      if negb (validate_key m key) then Err EINVAL
      else
        let? value := ok_or (bt_get entries key) ENOENT in
        let? value := store_in_value value offset data in
        Ok (m {{ storage := SHash (bt_insert entries key value) }})
  | SArray values =>
      let? index := array_index key in
      let? value := ok_or (values !! Z.to_nat index) ENOENT in
      let? value := store_in_value value offset data in
      Ok (m {{ storage := SArray (<[Z.to_nat index := value]> values) }})
  | SRingBuf => Err EOPNOTSUPP
  end.

(** ** Programs

    Maps are shared: a program names them by file descriptor, and two descriptors can
    lead to one map.  [Maps] are all maps by identity. *)

Abbreviation Maps := (gmap Z BpfMapFile).
Record BpfProgFile := mkProg {
  p_insns : list BpfInsn;
  p_maps : list (Z * Z)
}.

Definition with_map (maps : Maps) (p : BpfProgFile) (fd : Z) : option (Z * BpfMapFile) :=
  id ← bt_get (p_maps p) fd; m ← maps !! id; Some (id, m).

Definition map_key_size (maps : Maps) (p : BpfProgFile) (fd : Z) : Res Z :=
  let? '(_, m) := ok_or (with_map maps p fd) EBADF in Ok (key_size m).

Definition map_lookup_bytes (maps : Maps) (p : BpfProgFile) (fd : Z) (key : list Z) : Res (option (list Z)) :=
  let? '(_, m) := ok_or (with_map maps p fd) EBADF in lookup m key.

Definition map_load_bytes (maps : Maps) (p : BpfProgFile) (fd : Z) (key : list Z) (offset len : Z) : Res (list Z) :=
  let? found := map_lookup_bytes maps p fd key in
  let? value := ok_or found ENOENT in
  let? end_ := ok_or (checked_add offset len) EINVAL in
  if Z.of_nat (length value) <? end_ then Err EACCES else or_panic (slice value offset (end_ - offset)).

Definition map_store_bytes (maps : Maps) (p : BpfProgFile) (fd : Z) (key : list Z) (offset : Z) (data : list Z) : Res Maps :=
  let? '(id, m) := ok_or (with_map maps p fd) EBADF in
  let? m := store_bytes m key offset data in
  Ok (<[id := m]> maps).

(** [collect_prog_map_refs]; [get_map fd] is the map behind a descriptor, if it leads to one. *)
Fixpoint collect_loop (fuel : nat) (get_map : Z -> option Z) (insns : list BpfInsn) (pc : Z) (maps : list (Z * Z))
    : Res (list (Z * Z)) :=
  match fuel, insns !! Z.to_nat pc with
  | O, _ => None
  | _, None => Ok maps
  | S fuel, Some i =>
      if is_ldimm64 i then
        if Z.of_nat (length insns) <=? pc + 1 then Err EINVAL
        else if src_reg i =? BPF_PSEUDO_MAP_FD then
          let fd := as_u32 (imm i) in
          let? id := ok_or (get_map fd) EBADF in
          collect_loop fuel get_map insns (pc + 2) (bt_insert maps fd id)
        else collect_loop fuel get_map insns (pc + 2) maps
      else collect_loop fuel get_map insns (pc + 1) maps
  end.
Definition collect_prog_map_refs (get_map : Z -> option Z) (insns : list BpfInsn) : Res (list (Z * Z)) :=
  collect_loop (S (length insns)) get_map insns 0 [].

(** ** The static check *)

Inductive RegKind := Scalar | MapFd | FramePtr | StackPtr | MapValuePtr | PacketPtr.
#[export] Instance RegKind_eq_dec : EqDecision RegKind.
Proof. solve_decision. Defined.

Definition kind_in (k : RegKind) (l : list RegKind) : bool := bool_decide (k ∈ l).

Definition checked_reg (reg : Z) : string + Z :=
  if reg <? Z.of_nat MAX_BPF_REG then inr reg else inl "invalid register"%string.

Definition checked_jump_target (pc off len : Z) : string + Z :=
  match i64_checked (pc + 1) with
  | None => inl "jump target overflow"%string
  | Some base =>
      match i64_checked (base + off) with
      | None => inl "jump target overflow"%string
      | Some target =>
          if (target <? 0) || (len <=? target) then inl "jump out of range"%string else inr target
      end
  end.

Definition initial_kinds : list RegKind :=
  <[Z.to_nat BPF_REG_10 := FramePtr]> (<[Z.to_nat BPF_REG_1 := PacketPtr]> (replicate MAX_BPF_REG Scalar)).

(** The kind of register [r]. *)
Definition kind_of (kinds : list RegKind) (r : Z) : RegKind := default Scalar (kinds !! Z.to_nat r).
Definition set_kind (kinds : list RegKind) (r : Z) (k : RegKind) : list RegKind := <[Z.to_nat r := k]> kinds.

(** An instruction other than [lddw]: the kinds after it. *)
Definition verify_alu (kinds : list RegKind) (i : BpfInsn) : string + list RegKind :=
  let dst := dst_reg i in
  let src := src_reg i in
  let src_is_reg := bpf_src i =? BPF_X in
  if bpf_op i =? BPF_MOV then inr (set_kind kinds dst (if src_is_reg then kind_of kinds src else Scalar))
  else if src_is_reg && negb (kind_in (kind_of kinds src) [Scalar]) then inl "alu source must be scalar"%string
  else
    match kind_of kinds dst with
    | MapFd => inl "map fd arithmetic rejected"%string
    | MapValuePtr => inl "pointer arithmetic on map value rejected"%string
    | FramePtr | StackPtr =>
        if negb ((bpf_op i =? BPF_ADD) || (bpf_op i =? BPF_SUB)) then inl "unsupported pointer operation"%string
        else inr (set_kind kinds dst StackPtr)
    | PacketPtr =>
        if negb ((bpf_op i =? BPF_ADD) || (bpf_op i =? BPF_SUB)) then inl "unsupported pointer operation"%string
        else inr kinds
    | Scalar => inr (set_kind kinds dst Scalar)
    end.

Definition verify_jmp (len pc : Z) (kinds : list RegKind) (i : BpfInsn) : string + list RegKind :=
  if bpf_op i =? BPF_CALL then
    if negb (imm i =? BPF_FUNC_MAP_LOOKUP_ELEM) then inl "unsupported bpf helper"%string
    else if negb (kind_in (kind_of kinds BPF_REG_1) [MapFd]) then inl "map_lookup_elem needs map fd in r1"%string
    else if negb (kind_in (kind_of kinds BPF_REG_2) [FramePtr; StackPtr])
    then inl "map_lookup_elem needs stack key pointer in r2"%string
    else inr (set_kind kinds BPF_REG_0 MapValuePtr)
  else if bpf_op i =? BPF_EXIT then inr kinds
  else if (bpf_op i =? BPF_JEQ) || (bpf_op i =? BPF_JNE) then
    match checked_jump_target pc (off i) len with
    | inl e => inl e
    | inr target => if target <=? pc then inl "backward jumps unsupported"%string else inr kinds
    end
  else inl "unsupported jump instruction"%string.

Definition verify_plain (len pc : Z) (kinds : list RegKind) (i : BpfInsn) : string + list RegKind :=
  let dst := dst_reg i in
  let src := src_reg i in
  let pointers := [FramePtr; StackPtr; MapValuePtr] in
  if (bpf_class i =? BPF_LDX) && (bpf_mode i =? BPF_MEM) then
    if negb (kind_in (kind_of kinds src) (PacketPtr :: pointers)) then inl "memory load requires valid pointer"%string
    else inr (set_kind kinds dst Scalar)
  else if (bpf_class i =? BPF_ST) && (bpf_mode i =? BPF_MEM) then
    if negb (kind_in (kind_of kinds dst) pointers) then inl "memory store requires valid pointer"%string
    else inr kinds
  else if (bpf_class i =? BPF_STX) && (bpf_mode i =? BPF_MEM) then
    if negb (kind_in (kind_of kinds dst) pointers) then inl "memory store requires valid pointer"%string
    else if negb (kind_in (kind_of kinds src) [Scalar]) then inl "memory store value must be scalar"%string
    else inr kinds
  else if (bpf_class i =? BPF_ALU) || (bpf_class i =? BPF_ALU64) then verify_alu kinds i
  else if bpf_class i =? BPF_JMP then verify_jmp len pc kinds i
  else inl "unsupported bpf instruction"%string.

(** One turn of the loop: the kinds and the program counter after it. *)
Definition verify_insn (insns : list BpfInsn) (pc : Z) (kinds : list RegKind) (i : BpfInsn)
    : string + list RegKind * Z :=
  let len := Z.of_nat (length insns) in
  match checked_reg (dst_reg i), checked_reg (src_reg i) with
  | inl e, _ | inr _, inl e => inl e
  | inr dst, inr src =>
      if is_ldimm64 i then
        match insns !! Z.to_nat (pc + 1) with
        | None => inl "truncated ldimm64"%string
        | Some next =>
            if negb (code next =? 0) || negb (dst_reg next =? 0) || negb (src_reg next =? 0) || negb (off next =? 0)
            then inl "invalid ldimm64 pair"%string
            else if negb (off i =? 0) then inl "ldimm64 uses reserved fields"%string
            else if negb ((src =? 0) || (src =? BPF_PSEUDO_MAP_FD)) then inl "unsupported ldimm64 pseudo source"%string
            else inr (set_kind kinds dst (if src =? BPF_PSEUDO_MAP_FD then MapFd else Scalar), pc + 2)
        end
      else
        match verify_plain len pc kinds i with
        | inl e => inl e
        | inr kinds => inr (kinds, pc + 1)
        end
  end.

Fixpoint verify_loop (fuel : nat) (insns : list BpfInsn) (pc : Z) (kinds : list RegKind) : string + unit :=
  match fuel with
  | O => inl "out of fuel"%string
  | S fuel =>
      match insns !! Z.to_nat pc with
      | None => inr tt
      | Some i =>
          match verify_insn insns pc kinds i with
          | inl e => inl e
          | inr (kinds, pc) => verify_loop fuel insns pc kinds
          end
      end
  end.

Definition verify_program (insns : list BpfInsn) : string + unit :=
  match last insns with
  | Some i =>
      if (bpf_class i =? BPF_JMP) && (bpf_op i =? BPF_EXIT)
      then verify_loop (S (length insns)) insns 0 initial_kinds
      else inl "program must end with exit"%string
  | None => inl "program must end with exit"%string
  end.

(** [syscall_bpf_prog_load] past the copies of its arguments. *)
Definition prog_load (get_map : Z -> option Z) (prog_type : Z) (insns : list BpfInsn) : Res BpfProgFile :=
  let cnt := Z.of_nat (length insns) in
  if negb (prog_type =? BPF_PROG_TYPE_SOCKET_FILTER) || (cnt =? 0) then Err EINVAL
  else if BPF_MAXINSNS <? cnt then Err E2BIG
  else
    match verify_program insns with
    | inl _ => Err EACCES
    | inr _ => let? maps := collect_prog_map_refs get_map insns in Ok (mkProg insns maps)
    end.

(** ** The interpreter *)

Inductive RuntimeValue :=
  | VScalar (v : Z)
  | VNull
  | VMapFd (fd : Z)
  | VFramePtr
  | VStackPtr (off : Z)
  | VMapValuePtr (map_fd : Z) (key : list Z) (offset : Z)
  | VPacketPtr (offset : Z).

Definition value_as_u64 (v : RuntimeValue) : Z :=
  match v with
  | VScalar v => v
  | VNull => 0
  | VMapFd fd => fd
  | VFramePtr => 0
  | VStackPtr o => as_u64 o
  | VMapValuePtr _ _ _ => 1
  | VPacketPtr o => as_u64 o
  end.

Definition alu64 (op cur src : Z) : Res Z :=
  if op =? BPF_ADD then Ok (as_u64 (cur + src))
  else if op =? BPF_SUB then Ok (as_u64 (cur - src))
  else if op =? BPF_LSH then Ok (as_u64 (Z.shiftl cur (Z.land src 63)))
  else if op =? BPF_RSH then Ok (Z.shiftr cur (Z.land src 63))
  else if op =? BPF_MOV then Ok src
  else Err ENOSYS.
Definition alu32 (op cur src : Z) : Res Z :=
  let d := as_u32 cur in
  let s := as_u32 src in
  if op =? BPF_DIV then Ok (if s =? 0 then 0 else d / s)
  else if op =? BPF_MOD then Ok (if s =? 0 then d else d mod s)
  else if op =? BPF_SUB then Ok (as_u32 (d - s))
  else if op =? BPF_RSH then Ok (Z.shiftr d (Z.land s 31))
  else if op =? BPF_MOV then Ok s
  else Err ENOSYS.

Definition exec_alu (dst : RuntimeValue) (op src : Z) (is_alu64 : bool) : Res RuntimeValue :=
  let stack_arith cur :=
    if op =? BPF_ADD then Ok (VStackPtr (as_i64 (cur + as_i64 src)))
    else if op =? BPF_SUB then Ok (VStackPtr (as_i64 (cur - as_i64 src)))
    else if op =? BPF_MOV then Ok (VScalar (as_u64 (as_i64 src)))
    else Err ENOSYS in
  match dst with
  | VFramePtr => stack_arith 0
  | VStackPtr cur => stack_arith cur
  | VPacketPtr cur =>
      if op =? BPF_ADD then Ok (VPacketPtr (as_i64 (cur + as_i64 src)))
      else if op =? BPF_SUB then Ok (VPacketPtr (as_i64 (cur - as_i64 src)))
      else if op =? BPF_MOV then Ok (VScalar (as_u64 (as_i64 src)))
      else Err ENOSYS
  | VMapValuePtr _ _ _ => Err EACCES
  | VScalar _ | VNull | VMapFd _ =>
      let cur := value_as_u64 dst in
      let? v := (if is_alu64 then alu64 op cur src else alu32 op cur src) in
      Ok (VScalar v)
  end.

Definition sized_bytes_to_scalar (bytes : list Z) : Res Z :=
  if bool_decide (length bytes ∈ [1; 2; 4; 8]%nat) then Ok (le_decode bytes) else Err ENOSYS.

Definition size_to_len (size : Z) : Res Z :=
  if size =? BPF_B then Ok 1
  else if size =? BPF_H then Ok 2
  else if size =? BPF_W then Ok 4
  else if size =? BPF_DW then Ok 8
  else Err ENOSYS.

Definition pointer_offset_to_stack (base off len : Z) : Res Z :=
  let? start := ok_or (v ← i64_checked (Z.of_nat BPF_STACK_SIZE + base); i64_checked (v + off)) EFAULT in
  let? end_ := ok_or (i64_checked (start + len)) EFAULT in
  if (start <? 0) || (end_ <? 0) || (Z.of_nat BPF_STACK_SIZE <? end_) then Err EFAULT else Ok start.

(** The variables of [execute], and the maps. *)
Record Vm := mkVm {
  v_regs : list RuntimeValue;
  v_stack : list Z;
  v_maps : Maps;
  v_pc : Z
}.
#[export] Instance fields_Vm : Fields Vm := fun s => mkVm (v_regs s) (v_stack s) (v_maps s) (v_pc s).

Definition load_value (p : BpfProgFile) (packet : list Z) (s : Vm) (src : RuntimeValue) (off size : Z) : Res Z :=
  let? len := size_to_len size in
  let from_stack base :=
    let? start := pointer_offset_to_stack base off len in
    let? bytes := or_panic (slice (v_stack s) start len) in
    sized_bytes_to_scalar bytes in
  match src with
  | VFramePtr => from_stack 0
  | VStackPtr base => from_stack base
  | VMapValuePtr fd key offset =>
      let? start := ok_or (i64_checked (offset + off)) EINVAL in
      if start <? 0 then Err EACCES
      else let? data := map_load_bytes (v_maps s) p fd key start len in sized_bytes_to_scalar data
  | VPacketPtr offset =>
      let? start := ok_or (i64_checked (offset + off)) EINVAL in
      if start <? 0 then Err EACCES
      else
        let? end_ := ok_or (checked_add start len) EINVAL in
        if Z.of_nat (length packet) <? end_ then Err EACCES
        else let? bytes := or_panic (slice packet start (end_ - start)) in sized_bytes_to_scalar bytes
  | VScalar _ | VNull | VMapFd _ => Err EINVAL
  end.

Definition store_value (p : BpfProgFile) (s : Vm) (dst : RuntimeValue) (off : Z) (data : list Z) : Res Vm :=
  let to_stack base :=
    let? start := pointer_offset_to_stack base off (Z.of_nat (length data)) in
    let? stack := or_panic (overwrite (v_stack s) start data) in
    Ok (s {{ v_stack := stack }}) in
  match dst with
  | VFramePtr => to_stack 0
  | VStackPtr base => to_stack base
  | VMapValuePtr fd key offset =>
      let? start := ok_or (i64_checked (offset + off)) EINVAL in
      if start <? 0 then Err EACCES
      else let? maps := map_store_bytes (v_maps s) p fd key start data in Ok (s {{ v_maps := maps }})
  | VScalar _ | VNull | VMapFd _ | VPacketPtr _ => Err EINVAL
  end.

Definition load_stack_key (stack : list Z) (reg : RuntimeValue) (len : Z) : Res (list Z) :=
  match reg with
  | VFramePtr => let? start := pointer_offset_to_stack 0 0 len in or_panic (slice stack start len)
  | VStackPtr base => let? start := pointer_offset_to_stack base 0 len in or_panic (slice stack start len)
  | _ => Err EINVAL
  end.

(** [imm_to_bytes] and [scalar_to_sized_bytes]: the low bytes of the value. *)
Definition imm_to_bytes (v size : Z) : list Z :=
  if size =? BPF_B then le_encode 1 v
  else if size =? BPF_H then le_encode 2 v
  else if size =? BPF_W then le_encode 4 v
  else if size =? BPF_DW then le_encode 8 (as_u64 v)
  else [].
Definition scalar_to_sized_bytes (v size : Z) : Res (list Z) :=
  if size =? BPF_B then Ok (le_encode 1 v)
  else if size =? BPF_H then Ok (le_encode 2 v)
  else if size =? BPF_W then Ok (le_encode 4 v)
  else if size =? BPF_DW then Ok (le_encode 8 v)
  else Err ENOSYS.

(** [regs[r]], and the assignment to it; both panic outside the register file. *)
Definition reg (s : Vm) (r : Z) : Res RuntimeValue := or_panic (v_regs s !! Z.to_nat r).
Definition set_reg (s : Vm) (r : Z) (v : RuntimeValue) : Res Vm :=
  if bool_decide (Z.to_nat r < length (v_regs s))%nat then Ok (s {{ v_regs := <[Z.to_nat r := v]> (v_regs s) }}) else None.

(** The next state, or the value the program returns. *)
Inductive Turn := Next (s : Vm) | Exit (v : Z).
Definition continue (s : Vm) (pc : Z) : Res Turn := Ok (Next (s {{ v_pc := pc }})).

(** The second operand of an arithmetic or jump instruction. *)
Definition operand (s : Vm) (i : BpfInsn) : Res Z :=
  if bpf_src i =? BPF_X then let? v := reg s (src_reg i) in Ok (value_as_u64 v) else Ok (as_u64 (imm i)).

Definition exec_ldimm64 (p : BpfProgFile) (s : Vm) (i : BpfInsn) : Res Turn :=
  match p_insns p !! Z.to_nat (v_pc s + 1) with
  | None => Err EINVAL
  | Some next =>
      let imm64 := Z.lor (as_u32 (imm i)) (Z.shiftl (as_u32 (imm next)) 32) in
      let? s := set_reg s (dst_reg i)
                  (if src_reg i =? BPF_PSEUDO_MAP_FD then VMapFd (as_u32 imm64) else VScalar imm64) in
      continue s (v_pc s + 2)
  end.

Definition exec_alu_insn (s : Vm) (i : BpfInsn) : Res Turn :=
  let is_alu64 := bpf_class i =? BPF_ALU64 in
  let next := v_pc s + 1 in
  if bpf_op i =? BPF_MOV then
    let? v := (if bpf_src i =? BPF_X then reg s (src_reg i)
               else if is_alu64 then Ok (VScalar (as_u64 (imm i))) else Ok (VScalar (as_u32 (imm i)))) in
    let? s := set_reg s (dst_reg i) v in continue s next
  else
    let? src := operand s i in
    let? dst := reg s (dst_reg i) in
    let? v := exec_alu dst (bpf_op i) src is_alu64 in
    let? s := set_reg s (dst_reg i) v in continue s next.

(** [map_lookup_elem], whose map is in [r1] and whose key the stack has at [r2]. *)
Definition exec_call (p : BpfProgFile) (s : Vm) (i : BpfInsn) : Res Turn :=
  if negb (imm i =? BPF_FUNC_MAP_LOOKUP_ELEM) then Err ENOSYS
  else
    let? r1 := reg s BPF_REG_1 in
    match r1 with
    | VMapFd fd =>
        let? r2 := reg s BPF_REG_2 in
        let? len := map_key_size (v_maps s) p fd in
        let? key := load_stack_key (v_stack s) r2 len in
        let? found := map_lookup_bytes (v_maps s) p fd key in
        let? s := set_reg s BPF_REG_0 (match found with Some _ => VMapValuePtr fd key 0 | None => VNull end) in
        continue s (v_pc s + 1)
    | _ => Err EINVAL
    end.

Definition exec_jmp (p : BpfProgFile) (s : Vm) (i : BpfInsn) : Res Turn :=
  if bpf_op i =? BPF_CALL then exec_call p s i
  else if bpf_op i =? BPF_EXIT then let? r0 := reg s BPF_REG_0 in Ok (Exit (value_as_u64 r0))
  else if (bpf_op i =? BPF_JEQ) || (bpf_op i =? BPF_JNE) then
    let? dst := reg s (dst_reg i) in
    let lhs := value_as_u64 dst in
    let? rhs := operand s i in
    let taken := if bpf_op i =? BPF_JEQ then lhs =? rhs else negb (lhs =? rhs) in
    continue s (if taken then as_u64 (v_pc s + 1 + off i) else v_pc s + 1)
  else Err ENOSYS.

Definition exec_insn (p : BpfProgFile) (packet : list Z) (s : Vm) (i : BpfInsn) : Res Turn :=
  let next := v_pc s + 1 in
  if is_ldimm64 i then exec_ldimm64 p s i
  else if (bpf_class i =? BPF_LDX) && (bpf_mode i =? BPF_MEM) then
    let? src := reg s (src_reg i) in
    let? v := load_value p packet s src (off i) (bpf_size i) in
    let? s := set_reg s (dst_reg i) (VScalar v) in continue s next
  else if (bpf_class i =? BPF_ST) && (bpf_mode i =? BPF_MEM) then
    let? dst := reg s (dst_reg i) in
    let? s := store_value p s dst (off i) (imm_to_bytes (imm i) (bpf_size i)) in continue s next
  else if (bpf_class i =? BPF_STX) && (bpf_mode i =? BPF_MEM) then
    let? src := reg s (src_reg i) in
    let? data := scalar_to_sized_bytes (value_as_u64 src) (bpf_size i) in
    let? dst := reg s (dst_reg i) in
    let? s := store_value p s dst (off i) data in continue s next
  else if (bpf_class i =? BPF_ALU) || (bpf_class i =? BPF_ALU64) then exec_alu_insn s i
  else if bpf_class i =? BPF_JMP then exec_jmp p s i
  else Err ENOSYS.

(** The loop.  The result comes with the maps, which keep what was stored before an error;
    without fuel there is none, as if the code had panicked. *)
Fixpoint run (fuel : nat) (p : BpfProgFile) (packet : list Z) (s : Vm) : option ((SyscallError + Z) * Maps) :=
  match fuel with
  | O => None
  | S fuel =>
      match p_insns p !! Z.to_nat (v_pc s) with
      | None => r0 ← v_regs s !! Z.to_nat BPF_REG_0; Some (inr (value_as_u64 r0), v_maps s)
      | Some i =>
          t ← exec_insn p packet s i;
          match t with
          | inl e => Some (inl e, v_maps s)
          | inr (Exit v) => Some (inr v, v_maps s)
          | inr (Next s) => run fuel p packet s
          end
      end
  end.

Definition boot (maps : Maps) (packet : list Z) : Vm :=
  mkVm (<[Z.to_nat BPF_REG_10 := VFramePtr]>
         (<[Z.to_nat BPF_REG_2 := VScalar (Z.of_nat (length packet))]>
           (<[Z.to_nat BPF_REG_1 := VPacketPtr 0]> (replicate MAX_BPF_REG (VScalar 0)))))
       (replicate BPF_STACK_SIZE 0) maps 0.

Definition execute (p : BpfProgFile) (maps : Maps) (packet : list Z) : option ((SyscallError + Z) * Maps) :=
  run (S (length (p_insns p))) p packet (boot maps packet).

(** The length to keep of a packet, and the maps afterwards; no length drops it. *)
Definition filter_len (p : BpfProgFile) (maps : Maps) (packet : list Z) : option (option Z * Maps) :=
  '(r, maps) ← execute p maps packet;
  Some (match r with
        | inl _ => None
        | inr len => if len =? 0 then None else Some (Z.min len (Z.of_nat (length packet)))
        end, maps).

End Ebpf.
