(* ===== verification/EbpfProof.v ===== *)
(** * Accepted programs are safe

    A program that [verify_program] accepts runs to its end on every packet: no panic, no
    loop, no access outside its stack, its packet and the values of its maps; it adds and
    removes no entry of a map.  On the paths the check follows, each register holds a value
    of the kind the check has for it. *)

From stdpp Require Import strings.
From S2P Require Import Prelude.
From S2P Require Import BTree.
From S2P Require Import Errno.
From S2P Require Import Fallible.
From S2P Require Import Bytes.
From S2P Require Import Ebpf.
Import Ebpf.

(** ** Integers and slices *)

Lemma as_u32_low lo hi : 0 <= lo < 4294967296 -> as_u32 (Z.lor lo (Z.shiftl hi 32)) = lo.
Proof.
  intros Hlo. unfold as_u32. change 4294967296 with (2 ^ 32) in *. rewrite <- Z.land_ones, Z.land_lor_distr_l, !Z.land_ones by lia.
  rewrite Z.shiftl_mul_pow2, Z.mod_mul, Z.lor_0_r by lia. by apply Z.mod_small.
Qed.

Lemma as_u32_range x : 0 <= as_u32 x < 4294967296.
Proof. apply Z.mod_pos_bound. lia. Qed.

(** ** Maps *)

(** The sizes of a map: keys and values have the declared sizes, an array has all its
    elements, a hash no more entries than declared. *)
Definition map_ok (m : BpfMapFile) : Prop :=
  0 <= key_size m /\
  match storage m with
  | SHash e => bt_wf e /\ Z.of_nat (length e) <= max_entries m /\
      Forall (fun kv => Z.of_nat (length kv.1) = key_size m /\ Z.of_nat (length kv.2) = value_size m) e
  | SArray vs => Z.of_nat (length vs) = max_entries m /\ Forall (fun v => Z.of_nat (length v) = value_size m) vs
  | SRingBuf => True
  end.

(** The same entries: what a program cannot change of a map. *)
Definition same_entries (m m' : BpfMapFile) : Prop :=
  key_size m = key_size m' /\ value_size m = value_size m' /\ max_entries m = max_entries m' /\
  match storage m, storage m' with
  | SHash e, SHash e' => map fst e = map fst e'
  | SArray v, SArray v' => length v = length v'
  | SRingBuf, SRingBuf => True
  | _, _ => False
  end.
#[export] Instance same_entries_preorder : PreOrder same_entries.
Proof.
  split.
  - intros m. unfold same_entries. split_and!; try done. by destruct (storage m).
  - intros m1 m2 m3 (? & ? & ? & H12) (? & ? & ? & H23). unfold same_entries. split_and!; [congruence..|].
    destruct (storage m1), (storage m2), (storage m3); try done; congruence.
Qed.

Lemma map_new_ok kind ks vs max m : 0 <= ks -> 0 <= vs -> 0 <= max -> map_new kind ks vs max = inr m -> map_ok m.
Proof.
  intros ??? H. unfold map_new in H. destruct kind; repeat case_if; try done; injection H as <-; (split; [done|]); cbn.
  - split_and!; [apply bt_wf_nil|cbn; lia|constructor].
  - split; [rewrite length_replicate; lia|]. apply Forall_replicate. rewrite length_replicate. lia.
  - done.
Qed.

(** [lookup] panics never; [update] and [store_bytes] neither, on a map that is in order,
    and they keep it so. *)
Lemma lookup_returns m key : returns (lookup m key) (fun r => match r with inl e => e <> EBADF | inr _ => True end).
Proof. unfold lookup, array_index. by destruct (storage m); repeat case_if. Qed.

Lemma array_index_ok key : Forall is_byte key ->
  returns (array_index key) (fun r => match r with inl e => e = EINVAL | inr i => length key = 4%nat /\ i = le_decode key /\ 0 <= i end).
Proof.
  intros Hb. unfold array_index. case_if; cbn; [done|]. split_and!; [lia|done|]. by apply le_decode_range.
Qed.

(** What a successful [update] does. *)
Definition updated (m : BpfMapFile) (key value : list Z) (m' : BpfMapFile) : Prop :=
  map_ok m' /\ lookup m' key = Ok (Some value) /\
  (forall k, k <> key -> Forall is_byte k -> lookup m' k = lookup m k) /\
  key_size m' = key_size m /\ value_size m' = value_size m /\ max_entries m' = max_entries m.

Lemma update_hash_ok m e key value (m' := m {{ storage := SHash (bt_insert e key value) }}) : map_ok m -> storage m = SHash e ->
  validate_key m key = true -> Z.of_nat (length value) = value_size m ->
  negb (bool_decide (is_Some (bt_get e key))) && (max_entries m <=? Z.of_nat (length e)) = false ->
  updated m key value m'.
Proof.
  intros Hok Es Hk Hv Hroom. unfold map_ok in Hok. rewrite Es in Hok. destruct Hok as (Hks & Hwf & Hlen & Hall). unfold validate_key in Hk.
  split_and!; try done.
  - split; [done|]. cbn. split_and!; [by apply bt_wf_insert| |apply bt_insert_all; [done|cbn; lia]].
    destruct (bt_get e key) as [v|] eqn:Eg.
    + rewrite <- (length_map fst (bt_insert _ _ _)), (bt_insert_keys _ _ _ _ Hwf Eg), length_map. done.
    + rewrite bt_length_insert by done. rewrite bool_decide_false in Hroom by (by intros []). cbn in Hroom. lia.
  - unfold lookup. cbn. unfold validate_key. cbn. rewrite Hk. cbn. by rewrite bt_get_insert, key_eqb_refl.
  - intros k Hne _. unfold lookup. cbn. rewrite Es. unfold validate_key. cbn. case_if; [done|]. rewrite bt_get_insert.
    by rewrite (proj2 (key_eqb_neq k key) Hne).
Qed.


Lemma le_decode_inj l l' : Forall is_byte l -> Forall is_byte l' -> length l = length l' -> le_decode l = le_decode l' -> l = l'.
Proof. intros H H' Hl E. rewrite <- (le_encode_decode l H), <- (le_encode_decode l' H'). by rewrite Hl, E. Qed.

Lemma update_array_ok m vs key value (i := Z.to_nat (le_decode key)) (m' := m {{ storage := SArray (<[i := value]> vs) }}) :
  map_ok m -> storage m = SArray vs -> Forall is_byte key -> length key = 4%nat -> (i < length vs)%nat ->
  Z.of_nat (length value) = value_size m -> updated m key value m'.
Proof.
  intros Hok Es Hb Hl Hi Hv. unfold map_ok in Hok. rewrite Es in Hok. destruct Hok as (Hks & Hlen & Hall).
  split_and!; try done.
  - split; [done|]. cbn. split; [by rewrite length_insert|]. by apply Forall_insert.
  - unfold lookup. change (storage m') with (SArray (<[i := value]> vs)). unfold array_index. rewrite Hl.
    change (Ok (<[i := value]> vs !! i) = Ok (Some value)). by rewrite list_lookup_insert_eq.
  - intros k Hne Hk. unfold lookup. change (storage m') with (SArray (<[i := value]> vs)). rewrite Es. unfold array_index.
    case_if; [done|]. cbn [res_bind Ok]. f_equal. apply list_lookup_insert_ne.
    intros E. apply Hne. apply le_decode_inj; [done..|lia|]. pose proof (le_decode_range _ Hb). pose proof (le_decode_range _ Hk). lia.
Qed.

(** [update] on a map in order does not panic; an update that succeeds gives the key the
    value, leaves every other key as it was and the map in order. *)
Lemma update_ok m key value flags : map_ok m -> Forall is_byte key ->
  returns (update m key value flags) (fun r => match r with inl _ => True | inr m' => updated m key value m' end).
Proof.
  intros Hok Hb. unfold update. case_if; [done|]. assert (validate_key m key = true /\ Z.of_nat (length value) = value_size m) as [Hk Hv] by lia.
  destruct (storage m) as [e|vs|] eqn:Es; [| |done].
  - repeat case_if; try done. cbn. by apply (update_hash_ok m e).
  - unfold array_index. case_if; [done|]. cbn. repeat case_if; try done. pose proof (le_decode_range _ Hb) as Hr.
    pose proof Hok as Hok'. unfold map_ok in Hok'. rewrite Es in Hok'. destruct Hok' as (_ & Hlen & Hall).
    destruct (lookup_lt_is_Some_2 vs (Z.to_nat (le_decode key))) as [old Hold]; [lia|]. rewrite Hold. cbn.
    assert (length old = length value) as -> by (rewrite Forall_forall in Hall; specialize (Hall old (list_elem_of_lookup_2 _ _ _ Hold)); lia).
    rewrite Nat.eqb_refl. cbn. apply update_array_ok; try done; lia.
Qed.

(** ** Stores of programs into maps *)

Lemma store_in_value_ok value offset data : 0 <= offset ->
  returns (store_in_value value offset data)
    (fun r => match r with inl e => e <> EBADF | inr v => length v = length value end).
Proof.
  intros Ho. unfold store_in_value, checked_add. case_if; [cbn|done]. case_if; [done|].
  destruct (overwrite value offset data) as [v|] eqn:E; [cbn; by eapply overwrite_length|].
  destruct (overwrite_in_range value offset data) as [v Hv]; [lia..|]. congruence.
Qed.

Lemma store_bytes_ok m key offset data : map_ok m -> 0 <= offset ->
  returns (store_bytes m key offset data)
    (fun r => match r with inl e => e <> EBADF | inr m' => map_ok m' /\ same_entries m m' end).
Proof.
  intros Hok Ho. unfold store_bytes. destruct (storage m) as [e|vs|] eqn:Es; [| |done];
    pose proof Hok as Hok'; unfold map_ok in Hok'; rewrite Es in Hok'.
  - destruct Hok' as (Hks & Hwf & Hlen & Hall). case_if; [done|]. destruct (bt_get e key) as [v|] eqn:Eg; [cbn|done].
    eapply returns_bind; [by apply store_in_value_ok|done|]. intros w Hw. cbn.
    assert (map fst (bt_insert e key w) = map fst e) as Hkeys by (by eapply bt_insert_keys).
    split; [|unfold same_entries; rewrite Es; cbn; done]. unfold map_ok. cbn. split_and!; [done|by apply bt_wf_insert| |].
    + rewrite <- (length_map fst), Hkeys, length_map. done.
    + apply bt_insert_all; [done|]. cbn. rewrite Hw. rewrite Forall_forall in Hall. by apply (Hall (key, v)), bt_get_in.
  - destruct Hok' as (Hks & Hlen & Hall). unfold array_index. case_if; [done|]. cbn. destruct (vs !! _) as [v|] eqn:Ev; [cbn|done].
    eapply returns_bind; [by apply store_in_value_ok|done|]. intros w Hw. cbn.
    split; [|unfold same_entries; rewrite Es; cbn; by rewrite length_insert]. unfold map_ok. cbn. rewrite length_insert. split; [done|]. split; [done|].
    apply Forall_insert; [done|]. rewrite Hw. rewrite Forall_forall in Hall. by eapply Hall, list_elem_of_lookup_2.
Qed.

(** All maps are in order; a run changes no entry of them but its value. *)
Definition maps_ok (ms : Maps) : Prop := map_Forall (fun _ => map_ok) ms.
Definition maps_kept (ms ms' : Maps) : Prop :=
  forall id, match ms !! id, ms' !! id with
             | Some m, Some m' => same_entries m m'
             | None, None => True
             | _, _ => False
             end.
#[export] Instance maps_kept_preorder : PreOrder maps_kept.
Proof.
  split.
  - intros ms id. destruct (ms !! id); [reflexivity|done].
  - intros m1 m2 m3 H12 H23 id. specialize (H12 id). specialize (H23 id).
    destruct (m1 !! id), (m2 !! id), (m3 !! id); try done. by etrans.
Qed.

Lemma with_map_kept ms ms' p fd : maps_kept ms ms' -> is_Some (with_map ms p fd) -> is_Some (with_map ms' p fd).
Proof.
  intros Hk. unfold with_map. destruct (bt_get (p_maps p) fd) as [id|]; cbn; [|by intros []]. specialize (Hk id).
  by destruct (ms !! id), (ms' !! id); cbn.
Qed.

Lemma map_store_bytes_ok ms p fd key offset data : maps_ok ms -> is_Some (with_map ms p fd) -> 0 <= offset ->
  returns (map_store_bytes ms p fd key offset data)
    (fun r => match r with inl e => e <> EBADF | inr ms' => maps_ok ms' /\ maps_kept ms ms' end).
Proof.
  intros Hok [[id m] Hm] Ho. unfold map_store_bytes. rewrite Hm. cbn. unfold with_map in Hm.
  destruct (bt_get (p_maps p) fd) as [id'|]; [|done]. cbn in Hm. destruct (ms !! id') as [m'|] eqn:Em; [|done]. injection Hm as -> ->.
  eapply returns_bind; [apply store_bytes_ok; [by eapply Hok|done]|done|]. intros m' [Hm' Hs]. apply returns_ok. split.
  - by apply map_Forall_insert_2.
  - intros id2. destruct (decide (id = id2)) as [<-|Hne]; [by rewrite Em, lookup_insert_eq|]. rewrite lookup_insert_ne by done.
    destruct (ms !! id2); [reflexivity|done].
Qed.

(** ** The program text *)

Definition width (i : BpfInsn) : Z := if is_ldimm64 i then 2 else 1.
(** The order in which the check looks at the instructions. *)
Definition advance (insns : list BpfInsn) (pc pc' : Z) : Prop :=
  exists i, insns !! Z.to_nat pc = Some i /\ pc' = pc + width i.

(** What the interpreter relies on: registers in range, jumps forward and inside, the second
    half of [lddw] there, and maps that are known. *)
Definition insn_safe (p : BpfProgFile) (maps : Maps) (pc : Z) (i : BpfInsn) : Prop :=
  let len := Z.of_nat (length (p_insns p)) in
  dst_reg i < 11 /\ src_reg i < 11 /\
  (is_ldimm64 i = true -> pc + 1 < len /\
     (src_reg i = BPF_PSEUDO_MAP_FD -> is_Some (with_map maps p (as_u32 (imm i))))) /\
  (bpf_class i = BPF_JMP -> bpf_op i = BPF_JEQ \/ bpf_op i = BPF_JNE -> pc < pc + 1 + off i < len).

Lemma advance_nonneg insns pc pc' : rtc (advance insns) pc pc' -> 0 <= pc -> 0 <= pc'.
Proof. induction 1 as [|pc pc1 pc2 (i & _ & ->) _ IH]; [done|]. intros. apply IH. unfold width. case_if; lia. Qed.

(** Each instruction is looked at, or is the second half of an [lddw]. *)
Lemma advance_covers insns (n : nat) : (n < length insns)%nat ->
  rtc (advance insns) 0 (Z.of_nat n) \/
  exists m i, n = S m /\ rtc (advance insns) 0 (Z.of_nat m) /\ insns !! m = Some i /\ is_ldimm64 i = true.
Proof.
  induction n as [|n IH]; intros Hn; [by left|]. destruct (lookup_lt_is_Some_2 insns n) as [i Hi]; [lia|].
  destruct (IH ltac:(lia)) as [Hs|(m & j & -> & Hs & Hj & Hw)].
  - destruct (is_ldimm64 i) eqn:E; [right; by exists n, i|]. left. eapply rtc_r; [exact Hs|]. exists i. rewrite Nat2Z.id.
    split; [done|]. unfold width. rewrite E. lia.
  - left. eapply rtc_r; [exact Hs|]. exists j. rewrite Nat2Z.id. split; [done|]. unfold width. rewrite Hw. lia.
Qed.

Lemma verify_insn_width insns pc kinds i kinds' pc' : verify_insn insns pc kinds i = inr (kinds', pc') -> pc' = pc + width i.
Proof.
  unfold verify_insn, width. destruct (checked_reg (dst_reg i)), (checked_reg (src_reg i)); try done. destruct (is_ldimm64 i).
  - destruct (insns !! _); [|done]. repeat case_if; try done; by intros [= _ <-].
  - destruct (verify_plain _ _ _ _); [done|]. by intros [= _ <-].
Qed.

(** The check reaches every instruction that comes next in its order. *)
Lemma verify_reaches insns pc pc' : rtc (advance insns) pc pc' ->
  forall fuel kinds, verify_loop fuel insns pc kinds = inr tt ->
  exists fuel' kinds', verify_loop fuel' insns pc' kinds' = inr tt.
Proof.
  induction 1 as [|pc pc1 pc2 (i & Hi & ->) _ IH]; intros fuel kinds Hv; [by exists fuel, kinds|].
  destruct fuel as [|fuel]; [done|]. cbn in Hv. rewrite Hi in Hv. destruct (verify_insn insns pc kinds i) as [|[kinds' pc']] eqn:Ei; [done|].
  apply verify_insn_width in Ei as ->. by eapply IH.
Qed.

Lemma verify_here fuel insns pc kinds i : verify_loop fuel insns pc kinds = inr tt -> insns !! Z.to_nat pc = Some i ->
  exists r, verify_insn insns pc kinds i = inr r.
Proof.
  intros Hv Hi. destruct fuel as [|fuel]; [done|]. cbn in Hv. rewrite Hi in Hv. destruct (verify_insn _ _ _ _) as [|r]; [done|]. by exists r.
Qed.

(** What acceptance of one instruction says of its fields. *)
Lemma verify_fields insns pc kinds i r : verify_insn insns pc kinds i = inr r -> 0 <= pc ->
  dst_reg i < 11 /\ src_reg i < 11 /\
  (is_ldimm64 i = true -> exists next, insns !! Z.to_nat (pc + 1) = Some next /\ code next = 0 /\ dst_reg next = 0 /\ src_reg next = 0) /\
  (bpf_class i = BPF_JMP -> bpf_op i = BPF_JEQ \/ bpf_op i = BPF_JNE -> pc < pc + 1 + off i < Z.of_nat (length insns)).
Proof.
  intros Hv Hpc. unfold verify_insn in Hv. unfold checked_reg in Hv.
  destruct (dst_reg i <? _) eqn:Ed; [|done]. destruct (src_reg i <? _) eqn:Es; [|done]. split_and!; [lia|lia|..].
  - intros Hw. rewrite Hw in Hv. destruct (insns !! _) as [next|] eqn:En; [|done].
    exists next. destruct (negb _ || _ || _ || _) eqn:E in Hv; [done|]. split; [done|lia].
  - intros Hcl Hop. assert (is_ldimm64 i = false) as Hw by (unfold is_ldimm64; by rewrite Hcl). rewrite Hw in Hv.
    unfold verify_plain in Hv. rewrite Hcl in Hv. cbn in Hv. unfold verify_jmp in Hv.
    assert ((bpf_op i =? BPF_CALL) = false /\ (bpf_op i =? BPF_EXIT) = false /\ ((bpf_op i =? BPF_JEQ) || (bpf_op i =? BPF_JNE)) = true)
      as (E1 & E2 & E3) by lia. rewrite E1, E2, E3 in Hv. unfold checked_jump_target, i64_checked in Hv. repeat case_if; try done; lia.
Qed.

Lemma advance_inv insns pc pc' i : rtc (advance insns) pc pc' -> insns !! Z.to_nat pc = Some i ->
  pc' = pc \/ rtc (advance insns) (pc + width i) pc'.
Proof. intros H Hi. apply rtc_inv in H as [->|(pc1 & (j & Hj & ->) & Hr)]; [by left|]. right. congruence. Qed.

(** The maps of a loaded program are those of the descriptors it names. *)
Lemma collect_spec get_map fuel insns pc acc maps : collect_loop fuel get_map insns pc acc = Ok maps ->
  (forall fd id, bt_get acc fd = Some id -> get_map fd = Some id) ->
  (forall fd id, bt_get maps fd = Some id -> get_map fd = Some id) /\
  (forall fd, is_Some (bt_get acc fd) -> is_Some (bt_get maps fd)) /\
  (forall pc' i, rtc (advance insns) pc pc' -> insns !! Z.to_nat pc' = Some i -> is_ldimm64 i = true ->
     src_reg i = BPF_PSEUDO_MAP_FD -> is_Some (bt_get maps (as_u32 (imm i)))).
Proof.
  revert pc acc. induction fuel as [|fuel IH]; intros pc acc Hc Hacc; [done|]. cbn in Hc. destruct (insns !! Z.to_nat pc) as [i|] eqn:Hi.
  2: { injection Hc as <-. split_and!; [done..|]. intros pc' j H Hj. apply rtc_inv in H as [->|(pc1 & (j' & Hj' & _) & _)]; congruence. }
  assert (forall w acc', collect_loop fuel get_map insns (pc + w) acc' = Ok maps -> w = width i ->
    (forall fd id, bt_get acc' fd = Some id -> get_map fd = Some id) -> (forall fd, is_Some (bt_get acc fd) -> is_Some (bt_get acc' fd)) ->
    (is_ldimm64 i = true -> src_reg i = BPF_PSEUDO_MAP_FD -> is_Some (bt_get acc' (as_u32 (imm i)))) ->
    (forall fd id, bt_get maps fd = Some id -> get_map fd = Some id) /\
    (forall fd, is_Some (bt_get acc fd) -> is_Some (bt_get maps fd)) /\
    (forall pc' j, rtc (advance insns) pc pc' -> insns !! Z.to_nat pc' = Some j -> is_ldimm64 j = true ->
       src_reg j = BPF_PSEUDO_MAP_FD -> is_Some (bt_get maps (as_u32 (imm j))))) as Hstep.
  { intros w acc' Hc' -> H1 H2 H3. destruct (IH _ _ Hc' H1) as (I1 & I2 & I3). split_and!; [done|auto|].
    intros pc' j Hr Hj Hw Hs. destruct (advance_inv _ _ _ _ Hr Hi) as [->|Hr']; [|by eapply I3].
    assert (j = i) as -> by congruence. auto. }
  unfold width in Hstep. destruct (is_ldimm64 i) eqn:Ew; [|by apply (Hstep 1 acc)].
  destruct (_ <=? pc + 1); [done|]. destruct (src_reg i =? BPF_PSEUDO_MAP_FD) eqn:Es; [|apply (Hstep 2 acc); try done; lia].
  destruct (get_map (as_u32 (imm i))) as [id|] eqn:Eg; [|done]. cbn in Hc. apply (Hstep 2 _ Hc); [done|..].
  - intros fd id'. rewrite bt_get_insert. destruct (key_eqb fd _) eqn:Ek; [apply key_eqb_eq in Ek as ->; congruence|apply Hacc].
  - intros fd Hfd. rewrite bt_get_insert. by destruct (key_eqb fd _).
  - intros _ _. by rewrite bt_get_insert, key_eqb_refl.
Qed.

(** A program as [prog_load] leaves it, with its maps open. *)
Definition loaded (p : BpfProgFile) (maps : Maps) : Prop :=
  verify_program (p_insns p) = inr tt /\
  exists get_map, collect_prog_map_refs get_map (p_insns p) = Ok (p_maps p) /\ forall fd id, get_map fd = Some id -> is_Some (maps !! id).

Lemma verify_program_loop insns : verify_program insns = inr tt -> verify_loop (S (length insns)) insns 0 initial_kinds = inr tt.
Proof. unfold verify_program. destruct (last insns); [|done]. by case_if. Qed.

Lemma loaded_safe p maps n i : loaded p maps -> p_insns p !! n = Some i -> insn_safe p maps (Z.of_nat n) i.
Proof.
  intros (Hv & get_map & Hc & Hmaps) Hi. apply verify_program_loop in Hv.
  destruct (advance_covers (p_insns p) n (lookup_lt_Some _ _ _ Hi)) as [Hr|(m & j & -> & Hr & Hj & Hw)].
  - destruct (verify_reaches _ _ _ Hr _ _ Hv) as (fuel & kinds & Hl).
    destruct (verify_here _ _ _ _ i Hl) as [r Hvi]; [by rewrite Nat2Z.id|].
    destruct (verify_fields _ _ _ _ _ Hvi ltac:(lia)) as (Hd & Hs & Hld & Hj). split_and!; [done..| |done].
    intros Hw. destruct (Hld Hw) as (next & Hn & _). apply lookup_lt_Some in Hn. split; [lia|]. intros Hps.
    destruct (collect_spec _ _ _ _ _ _ Hc) as (H1 & _ & H3); [done|].
    destruct (H3 (Z.of_nat n) i Hr ltac:(by rewrite Nat2Z.id) Hw Hps) as [id Hid]. destruct (Hmaps _ _ (H1 _ _ Hid)) as [mp Hmp].
    unfold with_map. rewrite Hid. cbn. rewrite Hmp. by eexists.
  - destruct (verify_reaches _ _ _ Hr _ _ Hv) as (fuel & kinds & Hl).
    destruct (verify_here _ _ _ _ j Hl) as [r Hvj]; [by rewrite Nat2Z.id|].
    destruct (verify_fields _ _ _ _ _ Hvj ltac:(lia)) as (_ & _ & Hld & _). destruct (Hld Hw) as (next & Hn & Hcode & Hd & Hs).
    replace (Z.to_nat (Z.of_nat m + 1)) with (S m) in Hn by lia. assert (next = i) as -> by congruence.
    split_and!; [lia|lia|..]; unfold is_ldimm64, bpf_class, bpf_size; rewrite Hcode; [|done]. cbn. by rewrite andb_false_r.
Qed.

(** ** The interpreter *)

Definition reg_ok (p : BpfProgFile) (maps : Maps) (v : RuntimeValue) : Prop :=
  match v with
  | VMapFd fd | VMapValuePtr fd _ _ => is_Some (with_map maps p fd)
  | _ => True
  end.
Record vm_ok (p : BpfProgFile) (s : Vm) : Prop := {
  vo_regs : length (v_regs s) = MAX_BPF_REG;
  vo_stack : length (v_stack s) = BPF_STACK_SIZE;
  vo_fds : Forall (reg_ok p (v_maps s)) (v_regs s);
  vo_maps : maps_ok (v_maps s)
}.

(** Every error but "no such map" is allowed for. *)
Definition fails_well {A} (P : A -> Prop) (r : SyscallError + A) : Prop :=
  match r with inl e => e <> EBADF | inr a => P a end.
Abbreviation safe r P := (returns r (fails_well P)).

Lemma safe_bind {A B} (r : Res A) (f : A -> Res B) (P : A -> Prop) (Q : B -> Prop) :
  safe r P -> (forall a, P a -> safe (f a) Q) -> safe (res_bind r f) Q.
Proof. intros Hr Hf. by eapply returns_bind; [exact Hr|..]. Qed.

Lemma safe_impl {A} (r : Res A) (P Q : A -> Prop) : safe r P -> (forall a, P a -> Q a) -> safe r Q.
Proof. intros Hr HPQ. eapply returns_impl; [exact Hr|]. intros [e|a]; cbn; auto. Qed.

Lemma safe_ok_or {A} (o : option A) e (P : A -> Prop) : e <> EBADF -> (forall a, o = Some a -> P a) -> safe (ok_or o e) P.
Proof. intros He HP. destruct o as [a|]; cbn; auto. Qed.

Lemma safe_or_panic {A} (o : option A) (P : A -> Prop) : is_Some o -> (forall a, o = Some a -> P a) -> safe (or_panic o) P.
Proof. intros [a ->] HP. cbn. auto. Qed.

Section Exec.
Context (p : BpfProgFile) (packet : list Z).

Lemma reg_safe s r : vm_ok p s -> r < 11 -> safe (reg s r) (reg_ok p (v_maps s)).
Proof.
  intros [Hr _ Hf _] Hlt. apply safe_or_panic; [apply lookup_lt_is_Some_2; lia|]. intros v Hv. rewrite Forall_forall in Hf.
  by eapply Hf, list_elem_of_lookup_2.
Qed.

Definition only_regs (s s' : Vm) : Prop := vm_ok p s' /\ v_pc s' = v_pc s /\ v_maps s' = v_maps s.
Lemma set_reg_safe s r v : vm_ok p s -> r < 11 -> reg_ok p (v_maps s) v -> safe (set_reg s r v) (only_regs s).
Proof.
  intros [Hr Hst Hf Hm] Hlt Hv. unfold set_reg. rewrite bool_decide_true by lia. apply returns_ok. cbn. split; [|done].
  constructor; cbn; [by rewrite length_insert|done|by apply Forall_insert|done].
Qed.

Lemma pointer_offset_safe base off len : 0 <= len ->
  safe (pointer_offset_to_stack base off len) (fun start => 0 <= start /\ start + len <= 512).
Proof.
  intros Hl. unfold pointer_offset_to_stack. eapply safe_bind; [by apply safe_ok_or with (P := fun _ => True)|]. intros start _.
  eapply safe_bind with (P := fun e => e = start + len).
  { apply safe_ok_or; [done|]. unfold i64_checked. intros a. case_if; [by intros [= <-]|done]. }
  intros e ->. case_if; cbn; [done|lia].
Qed.

Lemma size_safe size : safe (size_to_len size) (fun len => 1 <= len <= 8).
Proof. unfold size_to_len. repeat case_if; cbn; done || lia. Qed.

Lemma scalar_safe bytes : safe (sized_bytes_to_scalar bytes) (fun _ => True).
Proof. unfold sized_bytes_to_scalar. by case_if. Qed.

Lemma stack_slice_safe s base off len : vm_ok p s -> 0 <= len ->
  safe (let? start := pointer_offset_to_stack base off len in or_panic (slice (v_stack s) start len)) (fun _ => True).
Proof.
  intros [_ Hst _ _] Hl. eapply safe_bind; [by apply pointer_offset_safe|]. intros start [? ?].
  apply safe_or_panic; [|done]. apply slice_in_range; lia.
Qed.

Lemma map_lookup_safe maps fd key : is_Some (with_map maps p fd) -> safe (map_lookup_bytes maps p fd key) (fun _ => True).
Proof.
  intros [[id m] Hm]. unfold map_lookup_bytes. rewrite Hm. cbn. eapply returns_impl; [apply lookup_returns|]. by intros [].
Qed.

Lemma map_load_safe maps fd key offset len : is_Some (with_map maps p fd) -> 0 <= offset -> 0 <= len ->
  safe (map_load_bytes maps p fd key offset len) (fun _ => True).
Proof.
  intros Hm Ho Hl. unfold map_load_bytes. eapply safe_bind; [by apply map_lookup_safe|]. intros found _.
  eapply safe_bind; [by apply safe_ok_or with (P := fun _ => True)|]. intros value _.
  unfold checked_add. case_if; [|done]. cbn [ok_or Ok res_bind]. case_if; [done|]. apply safe_or_panic; [|done]. apply slice_in_range; lia.
Qed.

Lemma load_value_safe s src off size : vm_ok p s -> reg_ok p (v_maps s) src -> safe (load_value p packet s src off size) (fun _ => True).
Proof.
  intros Hs Hr. unfold load_value. eapply safe_bind; [apply size_safe|]. intros len [? ?].
  assert (forall base, safe (let? start := pointer_offset_to_stack base off len in
    let? bytes := or_panic (slice (v_stack s) start len) in sized_bytes_to_scalar bytes) (fun _ => True)) as Hstack.
  { intros base. eapply safe_bind; [apply pointer_offset_safe; lia|]. intros start [? ?]. eapply safe_bind; [|intros; apply scalar_safe].
    apply safe_or_panic with (P := fun _ => True); [|done]. apply slice_in_range; [lia..|]. rewrite (vo_stack _ _ Hs). lia. }
  destruct src; try done; try apply Hstack; (eapply safe_bind; [by apply safe_ok_or with (P := fun _ => True)|]); intros start _; case_if; try done.
  - eapply safe_bind; [apply map_load_safe; [done|lia..]|]. intros. apply scalar_safe.
  - unfold checked_add. case_if; [|done]. cbn [ok_or Ok res_bind]. case_if; [done|]. eapply safe_bind; [|intros; apply scalar_safe].
    apply safe_or_panic with (P := fun _ => True); [|done]. apply slice_in_range; lia.
Qed.

(** What an instruction may change besides registers. *)
Definition kept (s s' : Vm) : Prop := vm_ok p s' /\ v_pc s' = v_pc s /\ maps_kept (v_maps s) (v_maps s').

Lemma store_value_safe s dst off data : vm_ok p s -> reg_ok p (v_maps s) dst -> safe (store_value p s dst off data) (kept s).
Proof.
  intros Hs Hr. unfold store_value.
  assert (forall base, safe (let? start := pointer_offset_to_stack base off (Z.of_nat (length data)) in
    let? stack := or_panic (overwrite (v_stack s) start data) in Ok (s {{ v_stack := stack }})) (kept s)) as Hstack.
  { intros base. eapply safe_bind; [apply pointer_offset_safe; lia|]. intros start [? ?].
    eapply safe_bind with (P := fun st => length st = BPF_STACK_SIZE).
    - apply safe_or_panic; [apply overwrite_in_range; rewrite ?(vo_stack _ _ Hs); lia|]. intros st Hw%overwrite_length.
      by rewrite Hw, (vo_stack _ _ Hs).
    - intros st Hl. apply returns_ok. cbn. split; [|done]. destruct Hs. by constructor. }
  destruct dst; try done; try apply Hstack. eapply safe_bind; [by apply safe_ok_or with (P := fun _ => True)|]. intros start _.
  case_if; [done|]. eapply safe_bind with (P := fun ms => maps_ok ms /\ maps_kept (v_maps s) ms).
  { eapply returns_impl; [apply map_store_bytes_ok; [apply Hs|done|lia]|]. by intros []. }
  intros ms [Hok Hk]. apply returns_ok. cbn. split; [|done]. destruct Hs as [H1 H2 H3 H4]. constructor; cbn; [done..| |done].
  eapply Forall_impl; [exact H3|]. intros [] Hv; cbn in *; try done; by eapply with_map_kept.
Qed.

Lemma exec_alu_safe maps dst op src is64 : safe (exec_alu dst op src is64) (reg_ok p maps).
Proof.
  unfold exec_alu. destruct dst; try (repeat case_if; cbn; done);
    (eapply safe_bind with (P := fun _ => True); [destruct is64; unfold alu64, alu32; repeat case_if; cbn; done|done]).
Qed.

Lemma operand_safe s i : vm_ok p s -> src_reg i < 11 -> safe (operand s i) (fun _ => True).
Proof. intros Hs Hr. unfold operand. case_if; [|done]. eapply safe_bind; [by apply reg_safe|done]. Qed.

Lemma load_stack_key_safe s r len : vm_ok p s -> 0 <= len -> safe (load_stack_key (v_stack s) r len) (fun _ => True).
Proof. intros Hs Hl. unfold load_stack_key. by destruct r; try done; apply stack_slice_safe. Qed.

(** The next state is further down, with its registers, stack and maps in order. *)
Definition next_ok (s : Vm) (t : Turn) : Prop :=
  match t with
  | Next s' => v_pc s < v_pc s' <= Z.of_nat (length (p_insns p)) /\ vm_ok p s' /\ maps_kept (v_maps s) (v_maps s')
  | Exit _ => True
  end.

Lemma continue_ok s s' pc : kept s s' -> v_pc s < pc <= Z.of_nat (length (p_insns p)) -> safe (continue s' pc) (next_ok s).
Proof. intros ([H1 H2 H3 H4] & Hpc & Hm) Hlt. apply returns_ok. cbn. split_and!; [lia..| |done]. by constructor. Qed.

Lemma only_regs_kept s s' : only_regs s s' -> kept s s'.
Proof. intros (H1 & H2 & H3). split_and!; [done..|]. rewrite H3. reflexivity. Qed.

Context (s : Vm) (i : BpfInsn).
Hypotheses (Hs : vm_ok p s) (Hi : insn_safe p (v_maps s) (v_pc s) i) (Hpc : 0 <= v_pc s < Z.of_nat (length (p_insns p)))
  (Hlen : Z.of_nat (length (p_insns p)) <= BPF_MAXINSNS).

(** Writing a register and going on. *)
Lemma write_and_go s' r v pc : kept s s' -> r < 11 -> reg_ok p (v_maps s') v -> v_pc s < pc <= Z.of_nat (length (p_insns p)) ->
  safe (let? s2 := set_reg s' r v in continue s2 pc) (next_ok s).
Proof.
  intros (H1 & H2 & H3) Hr Hv Hlt. eapply safe_bind; [by apply set_reg_safe|]. intros s2 Hs2. apply continue_ok; [|done].
  apply only_regs_kept in Hs2 as (G1 & G2 & G3). split_and!; [done|lia|]. by etrans.
Qed.

Lemma kept_refl : kept s s.
Proof. by split_and!. Qed.

Lemma exec_ldimm64_safe : is_ldimm64 i = true -> safe (exec_ldimm64 p s i) (next_ok s).
Proof.
  intros Hw. destruct Hi as (Hd & _ & Hld & _). destruct (Hld Hw) as [Hn Hmap]. unfold exec_ldimm64.
  destruct (p_insns p !! _) as [next|]; [|done]. rewrite as_u32_low by apply as_u32_range.
  apply safe_bind with (P := fun s2 => kept s s2 /\ v_pc s2 = v_pc s).
  - eapply safe_impl; [apply set_reg_safe; [done..|]|].
    + case_if; [|done]. apply Hmap. lia.
    + intros s2 H2. split; [by apply only_regs_kept|]. apply H2.
  - intros s2 [H2 H3]. apply continue_ok; [done|lia].
Qed.

Lemma exec_alu_insn_safe : safe (exec_alu_insn s i) (next_ok s).
Proof.
  destruct Hi as (Hd & Hsr & _). unfold exec_alu_insn. case_if.
  - eapply safe_bind with (P := reg_ok p (v_maps s)); [repeat case_if; [by apply reg_safe|done..]|]. intros v Hv.
    apply write_and_go; [apply kept_refl|done|done|lia].
  - eapply safe_bind; [by apply operand_safe|]. intros src _. eapply safe_bind; [by apply reg_safe|]. intros dst _.
    eapply safe_bind; [apply (exec_alu_safe (v_maps s))|]. intros v Hv. apply write_and_go; [apply kept_refl|done|done|lia].
Qed.

Lemma exec_call_safe : safe (exec_call p s i) (next_ok s).
Proof.
  unfold exec_call. case_if; [done|]. eapply safe_bind; [by apply reg_safe|]. intros r1 H1. destruct r1; try done.
  eapply safe_bind; [by apply reg_safe|]. intros r2 _. eapply safe_bind with (P := fun len => 0 <= len).
  { unfold map_key_size. cbn in H1. destruct H1 as [[id m] Hm]. rewrite Hm. cbn. unfold with_map in Hm.
    destruct (bt_get (p_maps p) fd) as [id'|]; [|done]. cbn in Hm. destruct (v_maps s !! id') as [m'|] eqn:Em; [|done]. injection Hm as -> ->.
    apply (vo_maps _ _ Hs id m Em). }
  intros len Hl. eapply safe_bind; [by apply load_stack_key_safe|]. intros key _.
  eapply safe_bind; [by apply map_lookup_safe|]. intros found _.
  apply safe_bind with (P := fun s2 => kept s s2 /\ v_pc s2 = v_pc s).
  - eapply safe_impl; [apply set_reg_safe; [done..|]|]; [by destruct found|]. intros s2 H2. split; [by apply only_regs_kept|]. apply H2.
  - intros s2 [H2 H3]. apply continue_ok; [done|lia].
Qed.

Lemma exec_jmp_safe : bpf_class i = BPF_JMP -> safe (exec_jmp p s i) (next_ok s).
Proof.
  intros Hcl. destruct Hi as (Hd & Hsr & _ & Hj). unfold exec_jmp. case_if; [apply exec_call_safe|]. case_if.
  { eapply safe_bind; [by apply reg_safe|]. done. }
  case_if; [|done]. eapply safe_bind; [by apply reg_safe|]. intros dst _. eapply safe_bind; [by apply operand_safe|]. intros rhs _.
  specialize (Hj Hcl ltac:(lia)). apply continue_ok; [apply kept_refl|].
  assert (as_u64 (v_pc s + 1 + off i) = v_pc s + 1 + off i) as E by (apply Z.mod_small; lia).
  repeat case_if; rewrite ?E; lia.
Qed.

Lemma exec_insn_safe : safe (exec_insn p packet s i) (next_ok s).
Proof.
  pose proof Hi as (Hd & Hsr & _ & _). unfold exec_insn. case_if; [by apply exec_ldimm64_safe|]. case_if; [|case_if; [|case_if; [|case_if]]].
  - eapply safe_bind; [by apply reg_safe|]. intros src H1. eapply safe_bind; [by apply load_value_safe|]. intros v _.
    apply write_and_go; [apply kept_refl|done|done|lia].
  - eapply safe_bind; [by apply reg_safe|]. intros dst H1. eapply safe_bind; [by apply store_value_safe|]. intros s2 H2.
    apply continue_ok; [done|lia].
  - eapply safe_bind; [by apply reg_safe|]. intros src H1. eapply safe_bind with (P := fun _ => True).
    { unfold scalar_to_sized_bytes. by repeat case_if. }
    intros data _. eapply safe_bind; [by apply reg_safe|]. intros dst H2. eapply safe_bind; [by apply store_value_safe|]. intros s2 H3.
    apply continue_ok; [done|lia].
  - apply exec_alu_insn_safe.
  - case_if; [apply exec_jmp_safe; lia|done].
Qed.

End Exec.

(** What the caller of an accepted program gets. *)
Definition good_result (maps : Maps) (r : option ((SyscallError + Z) * Maps)) : Prop :=
  exists v maps', r = Some (v, maps') /\ v <> inl EBADF /\ maps_ok maps' /\ maps_kept maps maps'.

Lemma with_map_dom ms ms' p fd : maps_kept ms ms' -> is_Some (with_map ms p fd) <-> is_Some (with_map ms' p fd).
Proof.
  intros Hk. split; [by apply with_map_kept|]. unfold with_map. destruct (bt_get (p_maps p) fd) as [id|]; cbn; [|by intros []].
  specialize (Hk id). by destruct (ms !! id), (ms' !! id); cbn.
Qed.

Lemma insn_safe_kept p ms ms' pc i : maps_kept ms ms' -> insn_safe p ms pc i -> insn_safe p ms' pc i.
Proof.
  intros Hk (H1 & H2 & H3 & H4). split_and!; [done..| |done]. intros Hw. destruct (H3 Hw) as [G1 G2]. split; [done|].
  intros Hps. by eapply with_map_kept, G2.
Qed.

Lemma run_safe p maps packet fuel s : loaded p maps -> Z.of_nat (length (p_insns p)) <= BPF_MAXINSNS ->
  maps_kept maps (v_maps s) -> vm_ok p s -> 0 <= v_pc s <= Z.of_nat (length (p_insns p)) ->
  (Z.to_nat (Z.of_nat (length (p_insns p)) - v_pc s) < fuel)%nat -> good_result maps (run fuel p packet s).
Proof.
  intros Hp Hlen. revert s. induction fuel as [|fuel IH]; intros s Hk Hs Hpc Hf; [lia|]. cbn [run].
  destruct (p_insns p !! Z.to_nat (v_pc s)) as [i|] eqn:Hi.
  - pose proof (lookup_lt_Some _ _ _ Hi) as Hlt. pose proof (loaded_safe p maps _ i Hp Hi) as Hsafe. rewrite Z2Nat.id in Hsafe by lia.
    pose proof (exec_insn_safe p packet s i Hs (insn_safe_kept _ _ _ _ _ Hk Hsafe) ltac:(lia) Hlen) as He.
    destruct (exec_insn p packet s i) as [[e|[s'|v]]|]; cbn in He |- *; [|destruct He as ([H1 H2] & H3 & H4)| |done].
    + exists (inl e), (v_maps s). split_and!; [done|congruence|apply Hs|done].
    + apply IH; [by etrans|done|lia|lia].
    + exists (inr v), (v_maps s). split_and!; [done..|apply Hs|done].
  - destruct (lookup_lt_is_Some_2 (v_regs s) (Z.to_nat BPF_REG_0)) as [r0 Hr]; [rewrite (vo_regs _ _ Hs); cbn; lia|]. rewrite Hr. cbn.
    exists (inr (value_as_u64 r0)), (v_maps s). split_and!; [done..|apply Hs|done].
Qed.

Lemma boot_ok p maps packet : maps_ok maps -> vm_ok p (boot maps packet).
Proof. intros Hm. constructor; [done..| |done]. repeat constructor. Qed.

(** C7: A program that [prog_load] accepts runs to its end on every packet: the interpreter
    does not panic, index outside the registers, the stack, the packet or a value of a map,
    nor loop; it finds each map the program names; and the maps keep their entries and sizes. *)
Theorem loaded_program_safe get_map prog_type insns p maps packet :
  prog_load get_map prog_type insns = Ok p -> (forall fd id, get_map fd = Some id -> is_Some (maps !! id)) -> maps_ok maps ->
  good_result maps (execute p maps packet).
Proof.
  unfold prog_load. intros Hp Hmaps Hm. repeat case_if; try done. destruct (verify_program insns) as [|[]] eqn:Ev; [done|].
  destruct (collect_prog_map_refs get_map insns) as [[|ms]|] eqn:Ec; try done. cbn in Hp. injection Hp as <-.
  unfold execute. apply run_safe; [|cbn; lia|reflexivity|by apply boot_ok|cbn; lia|cbn; lia].
  split; [done|]. by exists get_map.
Qed.

(** ** The kinds of registers *)

Definition has_kind (k : RegKind) (v : RuntimeValue) : Prop :=
  match k, v with
  | Scalar, VScalar _ | MapFd, VMapFd _ | FramePtr, VFramePtr | StackPtr, VStackPtr _ | PacketPtr, VPacketPtr _
  | MapValuePtr, VMapValuePtr _ _ _ | MapValuePtr, VNull => True
  | _, _ => False
  end.

(** A step of the check; and a step of the program that takes no jump. *)
Definition scans (insns : list BpfInsn) (st st' : Z * list RegKind) : Prop :=
  exists i, insns !! Z.to_nat st.1 = Some i /\ verify_insn insns st.1 st.2 i = inr (st'.2, st'.1).
Definition falls_through (p : BpfProgFile) (packet : list Z) (s s' : Vm) : Prop :=
  exists i, p_insns p !! Z.to_nat (v_pc s) = Some i /\ exec_insn p packet s i = Ok (Next s') /\ v_pc s' = v_pc s + width i.

Lemma res_bind_Ok {A B} (r : Res A) (f : A -> Res B) b : res_bind r f = Ok b -> exists a, r = Ok a /\ f a = Ok b.
Proof. destruct r as [[|a]|]; try done. by exists a. Qed.

(** Taking an interpreter step that succeeded apart. *)
Ltac ok_inv H := let a := fresh "a" in let E := fresh "E" in apply res_bind_Ok in H as (a & E & H).

Lemma reg_kind kinds s r v : Forall2 has_kind kinds (v_regs s) -> reg s r = Ok v -> has_kind (kind_of kinds r) v.
Proof.
  intros Hf Hr. unfold reg, or_panic in Hr. destruct (v_regs s !! Z.to_nat r) as [w|] eqn:Ew; [|done]. injection Hr as ->.
  destruct (Forall2_lookup_r _ _ _ _ _ Hf Ew) as (k & Hk & Hkv). unfold kind_of. by rewrite Hk.
Qed.

Lemma set_reg_kind kinds s r v s' k : Forall2 has_kind kinds (v_regs s) -> set_reg s r v = Ok s' -> has_kind k v ->
  Forall2 has_kind (set_kind kinds r k) (v_regs s').
Proof. intros Hf Hr Hk. unfold set_reg in Hr. case_if; [|done]. injection Hr as <-. by apply Forall2_insert. Qed.

Lemma continue_regs s pc s' : continue s pc = Ok (Next s') -> v_regs s' = v_regs s.
Proof. by intros [= <-]. Qed.

Lemma store_value_regs p s dst off data s' : store_value p s dst off data = Ok s' -> v_regs s' = v_regs s.
Proof.
  intros H. unfold store_value in H. destruct dst; try done; ok_inv H; [ok_inv H; by injection H as <-..|]. case_if; [done|].
  ok_inv H. by injection H as <-.
Qed.

(** Arithmetic keeps a scalar a scalar, and makes a stack pointer of a frame pointer. *)
Lemma alu_kinds kinds s i s' kinds' : verify_alu kinds i = inr kinds' -> Forall2 has_kind kinds (v_regs s) ->
  exec_alu_insn s i = Ok (Next s') -> Forall2 has_kind kinds' (v_regs s').
Proof.
  unfold verify_alu, exec_alu_insn. intros Hv Hf He. destruct (bpf_op i =? BPF_MOV) eqn:Em.
  - injection Hv as <-. ok_inv He. ok_inv He. apply continue_regs in He as ->. eapply set_reg_kind; [done..|].
    destruct (bpf_src i =? BPF_X); [by eapply reg_kind|]. case_if; by injection E as <-.
  - ok_inv He. ok_inv He. ok_inv He. ok_inv He. apply continue_regs in He as ->. pose proof (reg_kind _ _ _ _ Hf E0) as Hd.
    destruct (_ && _); [done|]. destruct (kind_of kinds (dst_reg i)) eqn:Ek; try done; cbn in Hd; destruct a0; try done.
    + injection Hv as <-. eapply set_reg_kind; [done..|]. unfold exec_alu in E1. ok_inv E1. by injection E1 as <-.
    + destruct (negb _) eqn:Eo; [done|]. injection Hv as <-. eapply set_reg_kind; [done..|]. unfold exec_alu in E1.
      rewrite Em in E1. repeat case_if; try done; by injection E1 as <-.
    + destruct (negb _) eqn:Eo; [done|]. injection Hv as <-. eapply set_reg_kind; [done..|]. unfold exec_alu in E1.
      rewrite Em in E1. repeat case_if; try done; by injection E1 as <-.
    + destruct (negb _) eqn:Eo; [done|]. injection Hv as <-.
      replace kinds with (set_kind kinds (dst_reg i) PacketPtr).
      2: { unfold set_kind. apply list_insert_id. unfold kind_of in Ek. destruct (kinds !! _) eqn:El; cbn in Ek; congruence. }
      eapply set_reg_kind; [done..|]. unfold exec_alu in E1. rewrite Em in E1. repeat case_if; try done; by injection E1 as <-.
Qed.

Lemma jmp_kinds p len pc kinds s i s' kinds' : verify_jmp len pc kinds i = inr kinds' -> Forall2 has_kind kinds (v_regs s) ->
  exec_jmp p s i = Ok (Next s') -> Forall2 has_kind kinds' (v_regs s').
Proof.
  unfold verify_jmp, exec_jmp. intros Hv Hf He. destruct (bpf_op i =? BPF_CALL) eqn:Ec.
  - unfold exec_call in He. repeat case_if; try done. injection Hv as <-. ok_inv He. destruct a; try done. ok_inv He. ok_inv He. ok_inv He. ok_inv He.
    ok_inv He. apply continue_regs in He as ->. eapply set_reg_kind; [done..|]. by destruct a2.
  - destruct (bpf_op i =? BPF_EXIT) eqn:Ex; [by ok_inv He|]. destruct (_ || _) eqn:Ej; [|done]. ok_inv He. ok_inv He.
    apply continue_regs in He as ->. destruct (checked_jump_target _ _ _); [done|]. case_if; [done|]. by injection Hv as <-.
Qed.

Lemma insn_kinds p packet kinds s i s' kinds' pc' : verify_insn (p_insns p) (v_pc s) kinds i = inr (kinds', pc') ->
  Forall2 has_kind kinds (v_regs s) -> exec_insn p packet s i = Ok (Next s') -> Forall2 has_kind kinds' (v_regs s').
Proof.
  unfold verify_insn, exec_insn, checked_reg. intros Hv Hf He.
  destruct (dst_reg i <? _); [|done]. destruct (src_reg i <? _); [|done]. destruct (is_ldimm64 i) eqn:Ew.
  - unfold exec_ldimm64 in He. destruct (p_insns p !! _) as [next|]; [|done]. destruct (_ || _) in Hv; [done|]. destruct (negb _) in Hv; [done|].
    destruct (negb _) in Hv; [done|]. injection Hv as <- _. ok_inv He. apply continue_regs in He as ->. eapply set_reg_kind; [done..|]. by case_if.
  - destruct (verify_plain _ _ _ _) as [|k'] eqn:Hp in Hv; [done|]. injection Hv as <- _. unfold verify_plain in Hp.
    destruct (_ && _) in Hp, He; [|destruct (_ && _) in Hp, He; [|destruct (_ && _) in Hp, He; [|destruct (_ || _) in Hp, He]]].
    + case_if; [done|]. injection Hp as <-. ok_inv He. ok_inv He. ok_inv He. apply continue_regs in He as ->. by eapply set_reg_kind.
    + case_if; [done|]. injection Hp as <-. ok_inv He. ok_inv He. apply continue_regs in He as ->. by rewrite (store_value_regs _ _ _ _ _ _ E0).
    + case_if; [done|]. case_if; [done|]. injection Hp as <-. ok_inv He. ok_inv He. ok_inv He. ok_inv He.
      apply continue_regs in He as ->. by rewrite (store_value_regs _ _ _ _ _ _ E2).
    + by eapply alu_kinds.
    + destruct (bpf_class i =? BPF_JMP); [|done]. by eapply jmp_kinds.
Qed.

(** C38: As long as an accepted program takes no jump, the check knows what its registers hold:
    each register has the kind the check has for it when it comes to that instruction, and
    the instruction passed the check with these kinds.  In particular memory is accessed
    through pointers only, or a missing entry of a map. *)
Theorem verifier_kinds_sound p maps packet s i :
  verify_program (p_insns p) = inr tt -> rtc (falls_through p packet) (boot maps packet) s -> p_insns p !! Z.to_nat (v_pc s) = Some i ->
  exists kinds r, rtc (scans (p_insns p)) (0, initial_kinds) (v_pc s, kinds) /\
    verify_insn (p_insns p) (v_pc s) kinds i = inr r /\ Forall2 has_kind kinds (v_regs s).
Proof.
  intros Hv Hrun Hi. apply verify_program_loop in Hv.
  assert (exists fuel kinds, verify_loop fuel (p_insns p) (v_pc s) kinds = inr tt /\
    rtc (scans (p_insns p)) (0, initial_kinds) (v_pc s, kinds) /\ Forall2 has_kind kinds (v_regs s)) as (fuel & kinds & Hl & Hsc & Hk).
  { clear Hi. revert s Hrun. apply rtc_ind_r; [|intros s s' _ (j & Hi & He & Hpc) IH].
    - exists (S (length (p_insns p))), initial_kinds. split_and!; [done..|]. repeat constructor.
    - destruct IH as (fuel & kinds & Hl & Hsc & Hk). destruct fuel as [|fuel]; [done|]. cbn in Hl. rewrite Hi in Hl.
      destruct (verify_insn (p_insns p) (v_pc s) kinds j) as [|[kinds' pc']] eqn:Ei; [done|].
      pose proof (verify_insn_width _ _ _ _ _ _ Ei) as ->. rewrite <- Hpc in *. exists fuel, kinds'. split_and!; [done| |by eapply insn_kinds].
      eapply rtc_r; [exact Hsc|]. by exists j. }
  destruct (verify_here _ _ _ _ i Hl Hi) as [r Hr]. by exists kinds, r.
Qed.

(** With jumps it does not: a program that jumps over the assignment of a pointer passes
    the check, and loads through a scalar. *)
Definition skips_pointer : list BpfInsn :=
  [mkInsn 21 0 1 0;      (* jeq r0, 0, +1 *)
   mkInsn 191 163 0 0;   (* mov r3, r10 *)
   mkInsn 97 48 0 0;     (* ldxw r0, [r3] *)
   mkInsn 149 0 0 0].    (* exit *)
Lemma verifier_ignores_jumps :
  verify_program skips_pointer = inr tt /\ execute (mkProg skips_pointer []) ∅ [] = Some (inl EINVAL, ∅).
Proof. split; vm_compute; reflexivity. Qed.

(** ** Witnesses *)

(** Look the first byte of the packet up in a map and return the byte found there. *)
Definition counter_program : list BpfInsn :=
  [mkInsn 113 19 0 0;    (* ldxb r3, [r1] *)
   mkInsn 191 162 0 0;   (* mov r2, r10 *)
   mkInsn 23 2 0 8;      (* sub r2, 8 *)
   mkInsn 98 2 0 0;      (* stw [r2], 0 *)
   mkInsn 115 50 0 0;    (* stxb [r2], r3 *)
   mkInsn 24 17 0 3;     (* lddw r1, map 3 *)
   mkInsn 0 0 0 0;
   mkInsn 133 0 0 1;     (* call map_lookup_elem *)
   mkInsn 21 0 2 0;      (* jeq r0, 0, +2 *)
   mkInsn 122 0 0 77;    (* stdw [r0], 77 *)
   mkInsn 121 0 0 0;     (* ldxdw r0, [r0] *)
   mkInsn 149 0 0 0].    (* exit *)
Definition one_map (fd : Z) : option Z := if fd =? 3 then Some 100 else None.
Definition small_map : BpfMapFile := mkMap 4 8 2 (SArray [replicate 8 0; replicate 8 0]).
Definition example_maps : Maps := {[100 := small_map]}.

Lemma example_maps_ok : maps_ok example_maps.
Proof. apply map_Forall_singleton. split; [cbn; lia|]. split; [done|]. repeat constructor. Qed.

Lemma loaded_program_safe_witness :
  good_result example_maps (execute (mkProg counter_program [(3, 100)]) example_maps [1; 9]).
Proof.
  apply (loaded_program_safe one_map 1 counter_program (mkProg counter_program [(3, 100)]) example_maps [1; 9]).
  - vm_compute. reflexivity.
  - intros fd id H. unfold one_map in H. destruct (fd =? 3); [|done]. injection H as <-. by eexists.
  - exact example_maps_ok.
Defined.

Lemma verifier_kinds_sound_witness :
  exists kinds r, rtc (scans counter_program) (0, initial_kinds) (0, kinds) /\
    verify_insn counter_program 0 kinds (mkInsn 113 19 0 0) = inr r /\ Forall2 has_kind kinds (v_regs (boot example_maps [1; 9])).
Proof.
  apply (verifier_kinds_sound (mkProg counter_program [(3, 100)]) example_maps [1; 9] (boot example_maps [1; 9]) (mkInsn 113 19 0 0)).
  - vm_compute. reflexivity.
  - apply rtc_refl.
  - reflexivity.
Defined.

(** The program finds the entry of its packet, changes it, and returns what it stored. *)
Example counter_program_runs :
  fst <$> execute (mkProg counter_program [(3, 100)]) example_maps [1; 9] = Some (inr 77) /\
  fst <$> execute (mkProg counter_program [(3, 100)]) example_maps [5; 9] = Some (inr 0) /\
  fst <$> execute (mkProg counter_program [(3, 100)]) example_maps [] = Some (inl EACCES).
Proof. split_and!; vm_compute; reflexivity. Qed.
