(* ===== verification/Pipe.v ===== *)
(** * Pipes

    [fs/pipe.rs]: the ring buffer behind a pipe, reading, writing and peeking with their
    waiting, filters on what is written, resizing, and the ends.  A call that may wait is a
    sequence of turns, each under the lock of the buffer; what it wakes is part of the
    result of a turn. *)

From S2P Require Import Prelude.
From S2P Require Import Errno.
From S2P Require Import Bytes.
From S2P Require Import Cbpf.
From S2P Require Import Ebpf.

Abbreviation PIPE_BUF := 4096.
Abbreviation MAX_PIPE_CAPACITY := 65536.
Abbreviation F_OWNER_TID := 0.
Abbreviation F_OWNER_PID := 1.
Abbreviation F_OWNER_PGRP := 2.
Abbreviation POLLIN := 1.
Abbreviation POLLOUT := 4.
Abbreviation POLLERR := 8.
Abbreviation POLLHUP := 16.

Inductive RingBufferStatus := FULL | EMPTY | NORMAL.

(** A [Weak<Pipe>] is the count of strong references to the end, a waiter the
    identity of its task. *)
Record PipeRingBuffer := mkRing {
  arr : option (list Z);
  filter_locked : bool;
  classic_filter : option (list Cbpf.ClassicBpfInsn);
  attached_bpf : option Ebpf.BpfProgFile;
  capacity : Z;
  head : Z;
  tail : Z;
  status : RingBufferStatus;
  read_end : option Z;
  write_end : option Z;
  read_end_shutdown : bool;
  write_end_shutdown : bool;
  read_end_ref_bias : Z;
  write_end_ref_bias : Z;
  read_waiters : list Z;
  write_waiters : list Z;
  poll_waiters : list Z;
  async_enabled : bool;
  async_owner_type : Z;
  async_owner_pid : Z;
  async_signal : Z;
  async_fd : Z
}.
#[export] Instance fields_PipeRingBuffer : Fields PipeRingBuffer := fun r =>
  mkRing (arr r) (filter_locked r) (classic_filter r) (attached_bpf r) (capacity r) (head r) (tail r) (status r)
    (read_end r) (write_end r) (read_end_shutdown r) (write_end_shutdown r) (read_end_ref_bias r)
    (write_end_ref_bias r) (read_waiters r) (write_waiters r) (poll_waiters r) (async_enabled r)
    (async_owner_type r) (async_owner_pid r) (async_signal r) (async_fd r).

(** One end of a pipe. *)
Record Pipe := mkPipe {
  p_readable : bool;
  p_writable : bool;
  fd_refs : Z
}.
#[export] Instance fields_Pipe : Fields Pipe := fun p => mkPipe (p_readable p) (p_writable p) (fd_refs p).

Module Ring.

(** [default_pipe_capacity_for_current]: with the capability, or below the sysctl. *)
Definition default_pipe_capacity (has_cap : bool) (limit : Z) : Z :=
  if has_cap then MAX_PIPE_CAPACITY else Z.min MAX_PIPE_CAPACITY limit.

(** [write_pipe_sysctl]: the new limit.  [path_ok] says that the path is that of the
    sysctl, [parsed] is what [parse_proc_sys_usize] makes of the data. *)
Definition write_pipe_sysctl (path_ok : bool) (parsed : Z + Z) : Z + Z :=
  if negb path_ok then inl (err EINVAL)
  else
    match parsed with
    | inl e => inl e
    | inr value =>
        if (PIPE_BUF <=? value) && (value <=? MAX_PIPE_CAPACITY) then inr value else inl (err EINVAL)
    end.

Definition new (has_cap : bool) (limit : Z) : PipeRingBuffer :=
  mkRing None false None None (default_pipe_capacity has_cap limit) 0 0 EMPTY None None false false 0 0 [] [] []
    false F_OWNER_PID 0 0 (-1).

(** [make_pipe]: each end has one strong reference, the one returned. *)
Definition make_pipe (has_cap : bool) (limit : Z) : PipeRingBuffer * Pipe * Pipe :=
  ((new has_cap limit) {{ read_end := Some 1; write_end := Some 1 }}, mkPipe true false 0, mkPipe false true 0).

(** ** The bytes *)

Definition available_read (r : PipeRingBuffer) : Z :=
  match status r with
  | EMPTY => 0
  | FULL => capacity r
  | NORMAL => if head r <? tail r then tail r - head r else tail r + capacity r - head r
  end.

Definition available_write (r : PipeRingBuffer) : Z :=
  match status r with
  | FULL => 0
  | _ => capacity r - available_read r
  end.

Definition poll_writable_threshold (r : PipeRingBuffer) : Z := Z.min (capacity r) PIPE_BUF.

(** The first [n] queued bytes, in up to two chunks; [None] is a panic. *)
Definition queued (r : PipeRingBuffer) (n : Z) : option (list Z) :=
  data ← arr r;
  let first := Z.min n (capacity r - head r) in
  a ← slice data (head r) first;
  b ← if first <? n then slice data 0 (n - first) else Some [];
  Some (a ++ b).

(** [read_into_slice] into a slice of [len] bytes: the bytes read. *)
Definition read_into_slice (r : PipeRingBuffer) (len : Z) : option (list Z * PipeRingBuffer) :=
  let n := Z.min len (available_read r) in
  if n =? 0 then Some ([], r)
  else
    bytes ← queued r n;
    let head' := (head r + n) mod capacity r in
    Some (bytes, r {{ head := head'; status := if head' =? tail r then EMPTY else NORMAL }}).

Definition peek_into (r : PipeRingBuffer) (len : Z) : option (list Z) :=
  let n := Z.min len (available_read r) in
  if n =? 0 then Some [] else queued r n.

(** [ensure_backing]: the storage is allocated when it is first needed. *)
Definition backing (r : PipeRingBuffer) : list Z := unwrap_or (arr r) (replicate (Z.to_nat MAX_PIPE_CAPACITY) 0).

Definition write_from_slice_bytes (r : PipeRingBuffer) (src : list Z) : option (Z * PipeRingBuffer) :=
  let n := Z.min (Z.of_nat (length src)) (available_write r) in
  if n =? 0 then Some (0, r)
  else
    let first := Z.min n (capacity r - tail r) in
    a ← slice src 0 first;
    data ← overwrite (backing r) (tail r) a;
    data ← if first <? n then b ← slice src first (n - first); overwrite data 0 b else Some data;
    let tail' := (tail r + n) mod capacity r in
    Some (n, r {{ arr := Some data; tail := tail'; status := if tail' =? head r then FULL else NORMAL }}).

(** [set_pipe_size] of the ring: the new capacity or an error. *)
Definition set_pipe_size (has_cap : bool) (limit : Z) (r : PipeRingBuffer) (size : Z)
    : option ((Z + Z) * PipeRingBuffer) :=
  if 2147483648 <? size then Some (inl (err EINVAL), r)
  else
    let base := if size =? 0 then PIPE_BUF else Z.max size PIPE_BUF in
    match checked_add base (PIPE_BUF - 1) with
    | None => Some (inl (err EINVAL), r)
    | Some v =>
        let new_capacity := v / PIPE_BUF * PIPE_BUF in
        if negb has_cap && (limit <? new_capacity) then Some (inl (err EPERM), r)
        else if MAX_PIPE_CAPACITY <? new_capacity then Some (inl (err EINVAL), r)
        else if new_capacity =? capacity r then Some (inr (capacity r), r)
        else
          let used := available_read r in
          if new_capacity <? used then Some (inl (err EBUSY), r)
          else
            data ← if 0 <? used then queued r used else Some [];
            let r := r {{ capacity := new_capacity; head := 0; tail := if used =? new_capacity then 0 else used;
                          status := if used =? 0 then EMPTY else if used =? new_capacity then FULL else NORMAL }} in
            r ← if 0 <? used then a ← overwrite (backing r) 0 data; Some (r {{ arr := Some a }}) else Some r;
            Some (inr (capacity r), r)
    end.

(** ** The ends *)

Definition all_write_ends_closed (r : PipeRingBuffer) : bool :=
  write_end_shutdown r ||
  match write_end r with Some strong => strong <=? write_end_ref_bias r | None => true end.
Definition all_read_ends_closed (r : PipeRingBuffer) : bool :=
  read_end_shutdown r ||
  match read_end r with Some strong => strong <=? read_end_ref_bias r | None => true end.
Definition read_end_count (r : PipeRingBuffer) : Z :=
  match read_end r with Some strong => sat_sub strong (read_end_ref_bias r) | None => 0 end.
Definition write_end_count (r : PipeRingBuffer) : Z :=
  match write_end r with Some strong => sat_sub strong (write_end_ref_bias r) | None => 0 end.

Definition set_end_ref_bias (r : PipeRingBuffer) (read_bias write_bias : Z) : PipeRingBuffer :=
  r {{ read_end_ref_bias := read_bias; write_end_ref_bias := write_bias }}.

(** [Pipe::available_read] and [Pipe::available_write]: what this end may transfer. *)
Definition end_available_read (p : Pipe) (r : PipeRingBuffer) : Z :=
  if negb (p_readable p) then 0 else available_read r.
Definition end_available_write (p : Pipe) (r : PipeRingBuffer) : Z :=
  if negb (p_writable p) then 0 else if write_end_shutdown r then 0 else available_write r.

(** ** The waiters

    [alive t] says that the task of a weak reference still exists, [waitable t] that it
    also has its resources and is not ready ([PollWaitQueue::retain_waitable]). *)

Section Waiters.
Context (alive waitable : Z -> bool).

Definition push_waiter (ws : list Z) (task : Z) : list Z :=
  let ws := List.filter alive ws in
  if existsb (Z.eqb task) ws then ws else vec_push ws task.
Definition push_reader (r : PipeRingBuffer) (task : Z) : PipeRingBuffer :=
  r {{ read_waiters := push_waiter (read_waiters r) task }}.
Definition push_writer (r : PipeRingBuffer) (task : Z) : PipeRingBuffer :=
  r {{ write_waiters := push_waiter (write_waiters r) task }}.

Fixpoint pop_waiter (ws : list Z) : option Z * list Z :=
  match ws with
  | [] => (None, [])
  | w :: ws => if alive w then (Some w, ws) else pop_waiter ws
  end.
Definition pop_reader (r : PipeRingBuffer) : option Z * PipeRingBuffer :=
  let (t, ws) := pop_waiter (read_waiters r) in (t, r {{ read_waiters := ws }}).
Definition pop_writer (r : PipeRingBuffer) : option Z * PipeRingBuffer :=
  let (t, ws) := pop_waiter (write_waiters r) in (t, r {{ write_waiters := ws }}).

Definition remove_waiter (ws : list Z) (task : Z) : list Z := List.filter (fun w => alive w && negb (w =? task)) ws.
Definition remove_reader (r : PipeRingBuffer) (task : Z) : PipeRingBuffer :=
  r {{ read_waiters := remove_waiter (read_waiters r) task }}.
Definition remove_writer (r : PipeRingBuffer) (task : Z) : PipeRingBuffer :=
  r {{ write_waiters := remove_waiter (write_waiters r) task }}.

Definition drain_readers (r : PipeRingBuffer) : list Z * PipeRingBuffer :=
  (List.filter alive (read_waiters r), r {{ read_waiters := [] }}).
Definition drain_writers (r : PipeRingBuffer) : list Z * PipeRingBuffer :=
  (List.filter alive (write_waiters r), r {{ write_waiters := [] }}).
Definition drain_poll_waiters (r : PipeRingBuffer) : list Z * PipeRingBuffer :=
  (List.filter waitable (poll_waiters r), r {{ poll_waiters := [] }}).
Definition register_poll_waiter (r : PipeRingBuffer) (task : Z) : PipeRingBuffer :=
  let ws := List.filter waitable (poll_waiters r) in
  r {{ poll_waiters := if existsb (Z.eqb task) ws then ws else vec_push ws task }}.

Definition async_target (r : PipeRingBuffer) : option (Z * Z * Z * Z) :=
  if negb (async_enabled r) || (async_owner_pid r <=? 0) then None
  else Some (async_owner_type r, async_owner_pid r, async_signal r, async_fd r).

Definition has_filter (r : PipeRingBuffer) : bool :=
  match classic_filter r, attached_bpf r with None, None => false | _, _ => true end.

(** ** Turns *)

(** What a turn does to other tasks: the opposite end's waiter and the pollers it wakes,
    the owner it notifies; [w_sigpipe]: the caller gets [SIGPIPE]. *)
Record Wakeups := mkWakeups {
  w_direct : option Z;
  w_polls : list Z;
  w_async : option (Z * Z * Z * Z);
  w_sigpipe : bool
}.
Definition no_wakeups : Wakeups := mkWakeups None [] None false.
Definition sigpipe : Wakeups := mkWakeups None [] None true.

(** How a turn ends: the call returns (an error number or a value), the task sleeps, with a
    timer when there is a deadline, or, having made progress, takes another turn. *)
Inductive Turn (A : Type) :=
  | Return (r : Z + A) (ring : PipeRingBuffer) (w : Wakeups)
  | Sleep (ring : PipeRingBuffer) (timer : option Z)
  | Again (a : A) (ring : PipeRingBuffer) (w : Wakeups).
Arguments Return {A} r ring w.
Arguments Sleep {A} ring timer.
Arguments Again {A} a ring w.

(** The flags of a call and what the task sees in this turn. *)
Record Call := mkCall {
  c_task : Z;
  c_nonblock : bool;
  c_deadline : option Z;
  c_signal_as_eintr : bool
}.
Record Now := mkNow {
  n_signal : bool;
  n_ms : Z
}.

(** A reader that finds the pipe empty. *)
Definition wait_for_data (c : Call) (now : Now) (r : PipeRingBuffer) : Turn (list Z) :=
  if all_write_ends_closed r then Return (inr []) (remove_reader r (c_task c)) no_wakeups
  else if c_nonblock c then Return (inl (err EAGAIN)) (remove_reader r (c_task c)) no_wakeups
  else if n_signal now then
    Return (if c_signal_as_eintr c then inl (err EINTR) else inr []) (remove_reader r (c_task c)) no_wakeups
  else
    match c_deadline c with
    | Some deadline =>
        if deadline <=? n_ms now then Return (inl (err EAGAIN)) (remove_reader r (c_task c)) no_wakeups
        else Sleep (push_reader r (c_task c)) (Some (Z.max (sat_sub deadline (n_ms now)) 1))
    | None => Sleep (push_reader r (c_task c)) None
    end.

(** After a read: one writer and all pollers are woken. *)
Definition after_read (bytes : list Z) (r : PipeRingBuffer) : Turn (list Z) :=
  let (writer, r) := pop_writer r in
  let (polls, r) := drain_poll_waiters r in
  Return (inr bytes) r (mkWakeups writer polls None false).

(** [read_to_slice_inner] into [len] bytes. *)
Definition read_turn (c : Call) (now : Now) (len : Z) (r : PipeRingBuffer) : option (Turn (list Z)) :=
  if len =? 0 then Some (Return (inr []) r no_wakeups)
  else
    let avail := available_read r in
    if avail =? 0 then Some (wait_for_data c now r)
    else '(bytes, r) ← read_into_slice r (Z.min avail len); Some (after_read bytes r).

(** [read_user_result] into user buffers of the lengths [lens]. *)
Fixpoint read_segments (r : PipeRingBuffer) (lens : list Z) (to_read : Z) (acc : list Z)
    : option (list Z * PipeRingBuffer) :=
  match lens with
  | [] => Some (acc, r)
  | l :: lens =>
      let read_now := Z.of_nat (length acc) in
      if to_read <=? read_now then Some (acc, r)
      else
        '(bytes, r) ← read_into_slice r (Z.min l (to_read - read_now));
        read_segments r lens to_read (acc ++ bytes)
  end.
Definition read_user_turn (c : Call) (now : Now) (lens : list Z) (r : PipeRingBuffer) : option (Turn (list Z)) :=
  let want := foldr Z.add 0 lens in
  if want =? 0 then Some (Return (inr []) r no_wakeups)
  else
    let avail := available_read r in
    if avail =? 0 then Some (wait_for_data (mkCall (c_task c) (c_nonblock c) None true) now r)
    else
      '(bytes, r) ← read_segments r lens (Z.min avail want) [];
      Some (match bytes with [] => Return (inr []) r no_wakeups | _ => after_read bytes r end).

(** [peek_to_slice_inner]: nothing is consumed and nobody woken. *)
Definition peek_turn (c : Call) (now : Now) (len : Z) (r : PipeRingBuffer) : option (Turn (list Z)) :=
  if len =? 0 then Some (Return (inr []) r no_wakeups)
  else if available_read r =? 0 then Some (wait_for_data c now r)
  else bytes ← peek_into r len; Some (Return (inr bytes) r no_wakeups).

(** [wait_readable_lowat]. *)
Definition lowat_turn (c : Call) (now : Now) (lowat : Z) (r : PipeRingBuffer) : Turn (list Z) :=
  let avail := available_read r in
  if (Z.max lowat 1 <=? avail) || all_write_ends_closed r || (c_nonblock c && (0 <? avail))
  then Return (inr []) (remove_reader r (c_task c)) no_wakeups
  else wait_for_data c now r.

(** A writer that finds too little room. *)
Definition wait_for_room (c : Call) (now : Now) (written : Z) (r : PipeRingBuffer) : Turn Z :=
  let gone := remove_writer r (c_task c) in
  let some_or e := if 0 <? written then inr written else inl (err e) in
  if c_nonblock c then Return (some_or EAGAIN) gone no_wakeups
  else if n_signal now then
    Return (if c_signal_as_eintr c && (written =? 0) then inl (err EINTR) else inr written) gone no_wakeups
  else
    match c_deadline c with
    | Some deadline =>
        if deadline <=? n_ms now then Return (some_or EAGAIN) gone no_wakeups
        else Sleep (push_writer r (c_task c)) (Some (Z.max (sat_sub deadline (n_ms now)) 1))
    | None => Sleep (push_writer r (c_task c)) None
    end.

(** There is no room, or not for all of what must be written at once. *)
Definition must_wait (r : PipeRingBuffer) (remaining written : Z) : bool :=
  let avail := available_write r in
  (avail =? 0) || ((remaining <=? PIPE_BUF) && (avail <? remaining) && (written =? 0)).

(** After a write of [n] bytes: one reader and all pollers are woken, the owner notified. *)
Definition after_write (n : Z) (r : PipeRingBuffer) : PipeRingBuffer * Wakeups :=
  if 0 <? n then
    let (reader, r) := pop_reader r in
    let (polls, r) := drain_poll_waiters r in
    (r, mkWakeups reader polls (async_target r) false)
  else (r, no_wakeups).

(** The two filters on the bytes about to be written: how many pass and whether that is
    fewer than there are; [None] drops the packet. *)
Definition run_filters (maps : Ebpf.Maps) (r : PipeRingBuffer) (bytes : list Z)
    : option (option (Z * bool) * Ebpf.Maps) :=
  let len := Z.of_nat (length bytes) in
  first ← match classic_filter r with
          | None => Some (Some (len, false))
          | Some f => v ← Cbpf.filter_len f bytes; Some (n ← v; Some (Z.min len n, n <? len))
          end;
  match first with
  | None => Some (None, maps)
  | Some (n, truncated) =>
      match attached_bpf r with
      | None => Some (Some (n, truncated), maps)
      | Some p =>
          '(v, maps) ← Ebpf.filter_len p maps (take (Z.to_nat n) bytes);
          Some (m ← v; Some (Z.min n m, truncated || (m <? n)), maps)
      end
  end.

(** [write_from_slice_inner], [written] bytes of [data] being written already. *)
Definition write_turn (c : Call) (now : Now) (data : list Z) (written : Z) (maps : Ebpf.Maps) (r : PipeRingBuffer)
    : option (Turn Z * Ebpf.Maps) :=
  let total := Z.of_nat (length data) in
  if total =? 0 then Some (Return (inr 0) r no_wakeups, maps)
  else if all_read_ends_closed r then
    Some (Return (if written =? 0 then inl (err EPIPE) else inr written) (remove_writer r (c_task c)) sigpipe, maps)
  else
    let remaining := total - written in
    if must_wait r remaining written then Some (wait_for_room c now written r, maps)
    else
      write_slice ← slice data written (Z.min remaining (available_write r));
      '(filtered, maps) ← run_filters maps r write_slice;
      match filtered with
      | None => Some (Return (inr total) (remove_writer r (c_task c)) no_wakeups, maps)
      | Some (n, truncated) =>
          '(n, r) ← write_from_slice_bytes r (take (Z.to_nat n) write_slice);
          let written := written + n in
          let (r, w) := after_write n r in
          Some (if truncated : bool then Return (inr total) r w
                else if (written =? total) || c_nonblock c then Return (inr written) r w
                else Again written r w, maps)
      end.

(** The copy loop of [write_user_result]: bytes from the buffers, from [offset] of buffer
    [index] on, until [to_write] are written.  It gives the bytes copied and where it stopped. *)
Fixpoint copy_segments (fuel : nat) (r : PipeRingBuffer) (bufs : list (list Z)) (to_write write_now : Z)
    : option (Z * list (list Z) * PipeRingBuffer) :=
  match fuel with
  | O => None
  | S fuel =>
      if to_write <=? write_now then Some (write_now, bufs, r)
      else
        match bufs with
        | [] => Some (write_now, [], r)
        | [] :: bufs => copy_segments fuel r bufs to_write write_now
        | src :: rest =>
            let chunk := Z.min (Z.of_nat (length src)) (to_write - write_now) in
            '(copied, r) ← write_from_slice_bytes r (take (Z.to_nat chunk) src);
            if copied =? 0 then Some (write_now, bufs, r)
            else copy_segments fuel r (drop (Z.to_nat copied) src :: rest) to_write (write_now + copied)
        end
  end.

(** What [write_user_result] makes of the result of the filtered write of the rest. *)
Definition delegated_result (written : Z) (ret : Z + Z) : Z + Z :=
  match ret with
  | inr n => inr (written + n)
  | inl e => if 0 <? written then inr written else inl e
  end.

(** [closed_read_end_write_error]. *)
Definition closed_read_end_write_error (task : Z) (r : PipeRingBuffer) : option (Z * PipeRingBuffer * Wakeups) :=
  if negb (all_read_ends_closed r) then None else Some (err EPIPE, remove_writer r task, sigpipe).

(** [write_user_result]; [bufs] is what is left of the user's buffers.  With a filter the
    rest of the data goes to [write_from_slice_with_deadline] ([inr]), and its result
    through [delegated_result]. *)
Definition write_user_turn (c : Call) (now : Now) (bufs : list (list Z)) (written : Z) (r : PipeRingBuffer)
    : option ((Turn Z * list (list Z)) + (list Z * PipeRingBuffer)) :=
  let remaining := Z.of_nat (length (concat bufs)) in
  if remaining + written =? 0 then Some (inl (Return (inr 0) r no_wakeups, bufs))
  else if has_filter r then Some (inr (concat bufs, remove_writer r (c_task c)))
  else if all_read_ends_closed r then
    Some (inl (Return (if written =? 0 then inl (err EPIPE) else inr written) (remove_writer r (c_task c)) sigpipe, bufs))
  else if must_wait r remaining written
  then Some (inl (wait_for_room (mkCall (c_task c) (c_nonblock c) None true) now written r, bufs))
  else
    '(n, bufs, r) ← copy_segments (S (2 * length bufs)) r bufs (Z.min remaining (available_write r)) 0;
    let written := written + n in
    let (r, w) := after_write n r in
    Some (inl (if (n =? remaining) || c_nonblock c then Return (inr written) r w else Again written r w, bufs)).

(** ** Resizing, closing, polling *)

Definition resize (has_cap : bool) (limit : Z) (r : PipeRingBuffer) (size : Z)
    : option ((Z + Z) * PipeRingBuffer * list Z) :=
  '(ret, r) ← set_pipe_size has_cap limit r size;
  match ret with
  | inr _ => let (polls, r) := drain_poll_waiters r in Some (ret, r, polls)
  | inl _ => Some (ret, r, [])
  end.

Definition shutdown_read_end (p : Pipe) (r : PipeRingBuffer) : PipeRingBuffer * list Z :=
  if negb (p_readable p) then (r, [])
  else
    let r := r {{ read_end_shutdown := true }} in
    let (ws, r) := drain_writers r in
    let (ps, r) := drain_poll_waiters r in
    (r, ws ++ ps).
Definition shutdown_write_end (p : Pipe) (r : PipeRingBuffer) : PipeRingBuffer * list Z :=
  if negb (p_writable p) then (r, [])
  else
    let r := r {{ write_end_shutdown := true }} in
    let (ws, r) := drain_readers r in
    let (ps, r) := drain_poll_waiters r in
    (r, ws ++ ps).

(** [on_fd_install] and [on_fd_close]: a descriptor of this end comes or goes. *)
Definition on_fd_install (p : Pipe) (r : PipeRingBuffer) : Pipe * PipeRingBuffer :=
  let r := if fd_refs p =? 0
           then r {{ read_end_shutdown := if p_readable p then false else read_end_shutdown r;
                     write_end_shutdown := if p_writable p then false else write_end_shutdown r }}
           else r in
  (p {{ fd_refs := wadd (fd_refs p) 1 }}, r).
Definition on_fd_close (p : Pipe) (r : PipeRingBuffer) : Pipe * PipeRingBuffer * list Z :=
  let previous := fd_refs p in
  let p := if previous =? 0 then p else p {{ fd_refs := previous - 1 }} in
  if negb (previous =? 1) then (p, r, [])
  else
    let (r, ws) := if p_writable p
                   then let (ws, r) := drain_readers (r {{ write_end_shutdown := true }}) in (r, ws) else (r, []) in
    let (r, ws) := if p_readable p
                   then let (ws', r) := drain_writers (r {{ read_end_shutdown := true }}) in (r, ws ++ ws') else (r, ws) in
    let (ps, r) := drain_poll_waiters r in
    (p, r, ws ++ ps).

(** [Drop]: the last reference to an end is gone. *)
Definition drop_end (p : Pipe) (r : PipeRingBuffer) : PipeRingBuffer * list Z :=
  let (r, ws) := if p_writable p then let (ws, r) := drain_readers r in (r, ws) else (r, []) in
  let (r, ws) := if p_readable p then let (ws', r) := drain_writers r in (r, ws ++ ws') else (r, ws) in
  let (ps, r) := drain_poll_waiters r in
  (r, ws ++ ps).

Definition poll_readable (p : Pipe) (r : PipeRingBuffer) : bool :=
  p_readable p && ((0 <? available_read r) || all_write_ends_closed r).
Definition poll_writable (p : Pipe) (r : PipeRingBuffer) : bool :=
  p_writable p && negb (write_end_shutdown r) &&
  ((poll_writable_threshold r <=? available_write r) || all_read_ends_closed r).

Definition poll_mask (p : Pipe) (r : PipeRingBuffer) : Z :=
  let m := if p_readable p
           then Z.lor (if 0 <? available_read r then POLLIN else 0) (if all_write_ends_closed r then POLLHUP else 0)
           else 0 in
  if p_writable p then
    Z.lor m (if all_read_ends_closed r then POLLERR
             else if poll_writable_threshold r <=? available_write r then POLLOUT else 0)
  else m.

(** ** Filters *)

Definition attach_filter (r : PipeRingBuffer) (f : list Cbpf.ClassicBpfInsn) : Z * PipeRingBuffer :=
  if filter_locked r then (err EPERM, r) else (0, r {{ classic_filter := Some f; attached_bpf := None }}).
Definition attach_bpf (r : PipeRingBuffer) (p : Ebpf.BpfProgFile) : Z * PipeRingBuffer :=
  if filter_locked r then (err EPERM, r) else (0, r {{ classic_filter := None; attached_bpf := Some p }}).
Definition detach_filter (r : PipeRingBuffer) : Z * PipeRingBuffer :=
  if filter_locked r then (err EPERM, r)
  else (if has_filter r then 0 else err ENOENT, r {{ classic_filter := None; attached_bpf := None }}).
Definition set_filter_locked (r : PipeRingBuffer) (locked : bool) : Z * PipeRingBuffer :=
  if filter_locked r && negb locked then (err EPERM, r) else (0, r {{ filter_locked := locked }}).

(** ** The owner of asynchronous notifications *)

Definition set_async_owner (p : Pipe) (r : PipeRingBuffer) (owner_type owner_pid : Z) : (Z + unit) * PipeRingBuffer :=
  if negb (p_readable p) || negb (existsb (Z.eqb owner_type) [F_OWNER_TID; F_OWNER_PID; F_OWNER_PGRP]) || (owner_pid <? 0)
  then (inl (err EINVAL), r)
  else (inr tt, r {{ async_owner_type := owner_type; async_owner_pid := owner_pid }}).
Definition set_async_signal (p : Pipe) (r : PipeRingBuffer) (sig : Z) : (Z + unit) * PipeRingBuffer :=
  if (sig <? 0) || (64 <? sig) || negb (p_readable p) then (inl (err EINVAL), r) else (inr tt, r {{ async_signal := sig }}).
Definition set_async_fd (p : Pipe) (r : PipeRingBuffer) (fd : Z) : (Z + unit) * PipeRingBuffer :=
  if negb (p_readable p) || (fd <? 0) then (inl (err EINVAL), r) else (inr tt, r {{ async_fd := fd }}).
Definition set_async_enabled (p : Pipe) (r : PipeRingBuffer) (enabled : bool) : PipeRingBuffer :=
  if p_readable p then r {{ async_enabled := enabled }} else r.

(** [notify_async_io]: the processes signalled, with the signal and the descriptor;
    [members g] are the processes of the group [g] whose state can be read. *)
Definition notify_async_io (members : Z -> list Z) (target : Z * Z * Z * Z) : list (Z * Z * Z) :=
  let '(owner_type, owner_pid, sig, fd) := target in
  let signum := if sig =? 0 then 29 else sig in
  if (signum <=? 0) || (64 <? signum) then []
  else if (owner_type =? F_OWNER_TID) || (owner_type =? F_OWNER_PID) then [(owner_pid, signum, fd)]
  else if owner_type =? F_OWNER_PGRP then map (fun pid => (pid, signum, fd)) (members owner_pid)
  else [].

End Waiters.

Arguments Return {A} r ring w.
Arguments Sleep {A} ring timer.
Arguments Again {A} a ring w.
End Ring.
