(* ===== verification/PipeProof.v ===== *)
(** * Pipes are bounded byte queues

    The ring of [fs/pipe.rs] against a list of bytes, the turns of readers and writers
    against that list, and which sleepers are left behind. *)

From S2P Require Import Prelude.
From S2P Require Import Errno.
From S2P Require Import Bytes.
From S2P Require Import Cbpf.
From S2P Require Import Ebpf.
From S2P Require Import Pipe.
Import Ring.

(** ** The queue a ring stands for *)

Record ring_ok (r : PipeRingBuffer) : Prop := {
  ok_capacity : PIPE_BUF <= capacity r <= MAX_PIPE_CAPACITY;
  ok_head : 0 <= head r < capacity r;
  ok_tail : 0 <= tail r < capacity r;
  ok_status : status r = NORMAL <-> head r <> tail r;
  ok_arr : match arr r with
           | Some d => length d = Z.to_nat MAX_PIPE_CAPACITY
           | None => status r = EMPTY
           end
}.

(** The place of the [j]-th queued byte. *)
Definition place (r : PipeRingBuffer) (j : nat) : nat := Z.to_nat ((head r + Z.of_nat j) mod capacity r).
Definition contents (r : PipeRingBuffer) : list Z :=
  map (fun j => nth (place r j) (unwrap_or (arr r) []) 0) (seq 0 (Z.to_nat (available_read r))).

(** The fields that the queue depends on. *)
Definition same_queue (r r' : PipeRingBuffer) : Prop :=
  arr r' = arr r /\ capacity r' = capacity r /\ head r' = head r /\ tail r' = tail r /\ status r' = status r.

Lemma same_queue_avail r r' : same_queue r r' -> available_read r' = available_read r.
Proof. intros (? & Hc & Hh & Ht & Hs). unfold available_read. by rewrite Hc, Hh, Ht, Hs. Qed.
Lemma same_queue_contents r r' : same_queue r r' -> contents r' = contents r.
Proof.
  intros H. unfold contents. rewrite (same_queue_avail _ _ H). destruct H as (Ha & Hc & Hh & _).
  unfold place. by rewrite Ha, Hc, Hh.
Qed.
Lemma same_queue_ok r r' : same_queue r r' -> ring_ok r -> ring_ok r'.
Proof. intros (Ha & Hc & Hh & Ht & Hs) [? ? ? ? ?]. split; by rewrite ?Ha, ?Hc, ?Hh, ?Ht, ?Hs. Qed.

Lemma mod_wrap x c : 0 <= x < 2 * c -> x mod c = if x <? c then x else x - c.
Proof.
  intros Hx. destruct (Z.ltb_spec x c); [apply Z.mod_small; lia|].
  symmetry. apply (Z.mod_unique_pos _ _ 1); lia.
Qed.

Lemma avail_bounds r : ring_ok r -> 0 <= available_read r <= capacity r.
Proof. intros [? ? ? ? ?]. unfold available_read. destruct (status r); try lia. case_if; lia. Qed.
Lemma avail_split r : ring_ok r -> available_write r = capacity r - available_read r.
Proof. intros _. unfold available_write, available_read. destruct (status r); lia. Qed.
Lemma tail_place r : ring_ok r -> tail r = (head r + available_read r) mod capacity r.
Proof.
  intros [? ? ? [Hn Hn'] _]. unfold available_read.
  destruct (status r) eqn:Hs.
  - assert (head r = tail r) by (destruct (Z.eq_dec (head r) (tail r)); [done|by specialize (Hn' n)]).
    rewrite mod_wrap by lia. case_if; lia.
  - assert (head r = tail r) by (destruct (Z.eq_dec (head r) (tail r)); [done|by specialize (Hn' n)]).
    rewrite mod_wrap by lia. case_if; lia.
  - specialize (Hn eq_refl). repeat case_if; rewrite mod_wrap by lia; case_if; lia.
Qed.

Lemma contents_length r : ring_ok r -> Z.of_nat (length (contents r)) = available_read r.
Proof. intros H%avail_bounds. unfold contents. rewrite length_map, length_seq. lia. Qed.

Lemma contents_lookup r j : ring_ok r -> Z.of_nat j < available_read r ->
  contents r !! j = Some (nth (place r j) (unwrap_or (arr r) []) 0).
Proof.
  intros Hok Hj. unfold contents. rewrite list_lookup_fmap, lookup_seq_lt by lia. done.
Qed.

Lemma place_lt r j : ring_ok r -> (place r j < Z.to_nat (capacity r))%nat.
Proof.
  intros Hok. pose proof (ok_capacity _ Hok). unfold place.
  pose proof (Z.mod_pos_bound (head r + Z.of_nat j) (capacity r)). lia.
Qed.

(** Queued bytes have a storage. *)
Lemma stored r : ring_ok r -> 0 < available_read r ->
  exists d, arr r = Some d /\ Z.of_nat (length d) = MAX_PIPE_CAPACITY.
Proof.
  intros [_ _ _ _ Ha] H. destruct (arr r) as [d|]; [exists d; split; [done|lia]|].
  unfold available_read in H. rewrite Ha in H. lia.
Qed.

Lemma contents_at r d j : ring_ok r -> arr r = Some d -> Z.of_nat j < available_read r -> contents r !! j = d !! place r j.
Proof.
  intros Hok Hd Hj. rewrite contents_lookup, Hd by done. simpl unwrap_or.
  pose proof (ok_arr _ Hok) as Hl. rewrite Hd in Hl. pose proof (ok_capacity _ Hok).
  pose proof (place_lt r j Hok). destruct (nth_lookup_or_length d (place r j) 0); [done|lia].
Qed.

(** Two lists of one length that agree at each place. *)
Lemma list_eq_upto (l k : list Z) : length l = length k ->
  (forall i, (i < length l)%nat -> l !! i = k !! i) -> l = k.
Proof.
  intros Hlen H. apply list_eq. intros i. destruct (decide (i < length l)%nat); [by apply H|].
  rewrite !lookup_ge_None_2 by lia. done.
Qed.

Lemma queued_spec r n : ring_ok r -> 0 < n <= available_read r ->
  queued r n = Some (take (Z.to_nat n) (contents r)).
Proof.
  intros Hok Hn. destruct (stored r Hok) as (d & Hd & Hlen); [lia|].
  pose proof (avail_bounds r Hok). pose proof (ok_capacity _ Hok). pose proof (ok_head _ Hok).
  unfold queued. rewrite Hd. simpl mbind. set (first := Z.min n (capacity r - head r)).
  destruct (slice_in_range d (head r) first) as [a Ha]; [lia..|]. rewrite Ha. simpl mbind.
  assert (exists b, (if first <? n then slice d 0 (n - first) else Some []) = Some b /\
                    b = take (Z.to_nat (n - first)) d) as (b & -> & ->).
  { destruct (Z.ltb_spec first n).
    - destruct (slice_in_range d 0 (n - first)) as [b Hb]; [lia..|]. exists b. split; [done|].
      apply slice_Some in Hb as (_ & _ & _ & ->). done.
    - exists []. split; [done|]. replace (n - first) with 0 by lia. done. }
  simpl. f_equal. apply slice_Some in Ha as (_ & _ & _ & ->).
  pose proof (contents_length r Hok). apply list_eq_upto.
  { rewrite length_app, !length_take, length_drop. lia. }
  intros i Hi. rewrite length_app, !length_take, length_drop in Hi.
  rewrite lookup_take_lt, (contents_at r d) by (done || lia). unfold place. rewrite mod_wrap by lia.
  case_if.
  - rewrite lookup_app_l by (rewrite length_take, length_drop; lia).
    rewrite lookup_take_lt, lookup_drop by lia. f_equal. lia.
  - rewrite lookup_app_r by (rewrite length_take, length_drop; lia).
    rewrite length_take, length_drop, lookup_take_lt by lia. f_equal. lia.
Qed.

(** How many bytes there are between two places. *)
Definition span (s : RingBufferStatus) (h t c : Z) : Z :=
  match s with
  | EMPTY => 0
  | FULL => c
  | NORMAL => if h <? t then t - h else t + c - h
  end.
Lemma span_read h t c a n : 0 <= h < c -> 0 <= t < c -> 0 < n <= a -> a <= c -> t = (h + a) mod c ->
  span (if (h + n) mod c =? t then EMPTY else NORMAL) ((h + n) mod c) t c = a - n.
Proof.
  intros Hh Ht Hn Ha. rewrite !mod_wrap by lia. unfold span. intros Hta.
  destruct (Z.ltb_spec (h + n) c), (Z.ltb_spec (h + a) c);
    match goal with |- context [if ?x =? ?y then EMPTY else _] => destruct (Z.eqb_spec x y) end; repeat case_if; lia.
Qed.
Lemma span_write h t c a n : 0 <= h < c -> 0 <= t < c -> 0 <= a -> 0 < n <= c - a -> t = (h + a) mod c ->
  span (if (t + n) mod c =? h then FULL else NORMAL) h ((t + n) mod c) c = a + n.
Proof.
  intros Hh Ht Ha Hn. rewrite !mod_wrap by lia. unfold span. intros Hta.
  destruct (Z.ltb_spec (t + n) c), (Z.ltb_spec (h + a) c);
    match goal with |- context [if ?x =? ?y then FULL else _] => destruct (Z.eqb_spec x y) end; repeat case_if; lia.
Qed.

(** What a transfer leaves alone: everything but the queue. *)
Definition rest (r : PipeRingBuffer) :=
  (filter_locked r, classic_filter r, attached_bpf r, (read_end r, write_end r, read_end_shutdown r, write_end_shutdown r),
   (read_end_ref_bias r, write_end_ref_bias r), (read_waiters r, write_waiters r, poll_waiters r),
   (async_enabled r, async_owner_type r, async_owner_pid r, async_signal r, async_fd r)).

Lemma read_spec r len : ring_ok r -> 0 <= len ->
  exists r', read_into_slice r len = Some (take (Z.to_nat len) (contents r), r') /\
    ring_ok r' /\ contents r' = drop (Z.to_nat len) (contents r) /\ capacity r' = capacity r /\ rest r' = rest r.
Proof.
  intros Hok Hlen. pose proof (contents_length r Hok) as Hcl. pose proof (avail_bounds r Hok) as Hav.
  pose proof (ok_capacity _ Hok) as Hcap. pose proof (ok_head _ Hok) as Hh. pose proof (ok_tail _ Hok) as Ht.
  unfold read_into_slice. set (n := Z.min len (available_read r)). destruct (Z.eqb_spec n 0) as [Hn|Hn].
  { exists r. destruct (Z.eq_dec len 0) as [->|].
    - done.
    - assert (contents r = []) as -> by (destruct (contents r); [done|simpl length in Hcl; lia]).
      rewrite take_nil, drop_nil. done. }
  rewrite queued_spec by (done || lia). simpl mbind.
  assert (take (Z.to_nat n) (contents r) = take (Z.to_nat len) (contents r)) as ->.
  { destruct (Z.le_ge_cases len (available_read r)); [f_equal; lia|].
    rewrite !take_ge by lia. done. }
  set (h := (head r + n) mod capacity r). set (r' := r {{ head := h; status := _ }}).
  exists r'. split; [done|].
  assert (0 <= h < capacity r) as Hhb by (apply Z.mod_pos_bound; lia).
  assert (available_read r' = available_read r - n) as Hav'.
  { apply (span_read (head r) (tail r) (capacity r)); [lia..|by apply tail_place]. }
  assert (ring_ok r') as Hok'.
  { split; try done.
    - change ((if h =? tail r then EMPTY else NORMAL) = NORMAL <-> h <> tail r).
      destruct (Z.eqb_spec h (tail r)); split; done.
    - destruct (stored r Hok) as (d & Hd & Hl); [lia|]. change (arr r') with (arr r). rewrite Hd. lia. }
  split_and!; try done. destruct (stored r Hok) as (d & Hd & Hl); [lia|].
  pose proof (contents_length r' Hok'). apply list_eq_upto.
  { rewrite length_drop. lia. }
  intros i Hi. rewrite lookup_drop, (contents_at r' d), (contents_at r d) by (done || lia). f_equal.
  unfold place. change (head r') with h. change (capacity r') with (capacity r). unfold h. rewrite Zplus_mod_idemp_l. do 2 f_equal. lia.
Qed.

Lemma backing_length r : ring_ok r -> Z.of_nat (length (backing r)) = MAX_PIPE_CAPACITY.
Proof.
  intros [_ _ _ _ Ha]. unfold backing, unwrap_or. destruct (arr r) as [d|]; [|rewrite length_replicate]; rewrite ?Ha; by rewrite Z2Nat.id.
Qed.

(** Storing [n] bytes from the place [t] on, around the end of the ring. *)
Lemma store_around (v src : list Z) c t n : 0 <= t < c -> c <= Z.of_nat (length v) ->
  0 < n <= Z.of_nat (length src) -> n <= c ->
  exists d, (a ← slice src 0 (Z.min n (c - t));
             d ← overwrite v t a;
             if Z.min n (c - t) <? n then b ← slice src (Z.min n (c - t)) (n - Z.min n (c - t)); overwrite d 0 b else Some d)
            = Some d /\ length d = length v /\
    (forall j : nat, Z.of_nat j < n -> d !! Z.to_nat ((t + Z.of_nat j) mod c) = src !! j) /\
    (forall j : nat, n <= Z.of_nat j < c -> d !! Z.to_nat ((t + Z.of_nat j) mod c) = v !! Z.to_nat ((t + Z.of_nat j) mod c)).
Proof.
  intros Ht Hc Hn Hnc. set (first := Z.min n (c - t)).
  destruct (slice_in_range src 0 first) as [a Ha]; [lia..|]. pose proof (slice_length _ _ _ _ Ha) as Hal.
  apply slice_Some in Ha as Ha'. destruct Ha' as (_ & _ & _ & Hae).
  rewrite Ha. simpl mbind. destruct (overwrite_in_range v t a) as [d Hd]; [lia..|].
  pose proof (overwrite_length _ _ _ _ Hd) as Hdl. rewrite Hd. simpl mbind.
  destruct (Z.ltb_spec first n) as [Hf|Hf].
  - destruct (slice_in_range src first (n - first)) as [b Hb]; [lia..|]. pose proof (slice_length _ _ _ _ Hb) as Hbl.
    apply slice_Some in Hb as Hb'. destruct Hb' as (_ & _ & _ & Hbe).
    rewrite Hb. simpl mbind. destruct (overwrite_in_range d 0 b) as [d' Hd']; [lia..|].
    pose proof (overwrite_length _ _ _ _ Hd') as Hdl'. exists d'. split_and!; [done|lia|..].
    + intros j Hj. rewrite mod_wrap by lia. rewrite (overwrite_lookup _ _ _ _ _ Hd'), (overwrite_lookup _ _ _ _ _ Hd).
      destruct (Z.ltb_spec (t + Z.of_nat j) c); repeat case_if; try lia.
      * rewrite Hae. rewrite lookup_take_lt, lookup_drop by lia. f_equal. lia.
      * rewrite Hbe. rewrite lookup_take_lt, lookup_drop by lia. f_equal. lia.
    + intros j Hj. rewrite mod_wrap by lia. rewrite (overwrite_lookup _ _ _ _ _ Hd'), (overwrite_lookup _ _ _ _ _ Hd).
      repeat case_if; try lia; done.
  - exists d. split_and!; [done|lia|..]; intros j Hj; rewrite mod_wrap by lia; rewrite (overwrite_lookup _ _ _ _ _ Hd).
    + repeat case_if; try lia. rewrite Hae, lookup_take_lt, lookup_drop by lia. f_equal. lia.
    + repeat case_if; try lia; done.
Qed.

(** A queued byte is still there when only free places have been stored to. *)
Lemma old_byte r (d : list Z) n (i : nat) : ring_ok r -> 0 < n <= capacity r - available_read r ->
  (forall j : nat, n <= Z.of_nat j < capacity r ->
     d !! Z.to_nat ((tail r + Z.of_nat j) mod capacity r) = backing r !! Z.to_nat ((tail r + Z.of_nat j) mod capacity r)) ->
  Z.of_nat i < available_read r ->
  d !! Z.to_nat ((head r + Z.of_nat i) mod capacity r) = contents r !! i.
Proof.
  intros Hok Hn Hold Hi. pose proof (avail_bounds r Hok). destruct (stored r Hok) as (v & Hv & _); [lia|].
  rewrite (contents_at r v) by done. unfold backing in Hold. rewrite Hv in Hold. unfold unwrap_or in Hold.
  specialize (Hold (Z.to_nat (capacity r - available_read r + Z.of_nat i))).
  rewrite (tail_place r Hok), Zplus_mod_idemp_l in Hold.
  replace (head r + available_read r + _) with (head r + Z.of_nat i + 1 * capacity r) in Hold by lia.
  rewrite Z.mod_add in Hold by lia. apply Hold. lia.
Qed.

Lemma write_spec r src : ring_ok r ->
  exists r', write_from_slice_bytes r src = Some (Z.min (Z.of_nat (length src)) (available_write r), r') /\
    ring_ok r' /\
    contents r' = contents r ++ take (Z.to_nat (Z.min (Z.of_nat (length src)) (available_write r))) src /\
    capacity r' = capacity r /\ rest r' = rest r.
Proof.
  intros Hok. set (n := Z.min _ _). pose proof (avail_bounds r Hok) as Hav. pose proof (avail_split r Hok) as Hsp.
  pose proof (ok_capacity _ Hok) as Hcap. pose proof (ok_head _ Hok) as Hh. pose proof (ok_tail _ Hok) as Ht.
  unfold write_from_slice_bytes. fold n. destruct (Z.eqb_spec n 0) as [Hn|Hn].
  { exists r. rewrite Hn, take_0, app_nil_r. done. }
  pose proof (backing_length r Hok) as Hbl.
  destruct (store_around (backing r) src (capacity r) (tail r) n) as (d & Hd & Hdl & Hnew & Hold); [lia..|].
  set (t := (tail r + n) mod capacity r).
  set (r' := r {{ arr := Some d; tail := t; status := if t =? head r then FULL else NORMAL }}).
  exists r'. split.
  { destruct (slice src 0 _) as [a|]; [|done]. simpl mbind in Hd |- *.
    destruct (overwrite (backing r) _ a) as [v|]; [|done]. simpl mbind in Hd |- *. by rewrite Hd. }
  assert (0 <= t < capacity r) as Htb by (apply Z.mod_pos_bound; lia).
  assert (available_read r' = available_read r + n) as Hav'.
  { apply (span_write (head r) (tail r) (capacity r)); [lia..|by apply tail_place]. }
  assert (ring_ok r') as Hok'.
  { split; try done; [|change (length d = Z.to_nat MAX_PIPE_CAPACITY); lia].
    change ((if t =? head r then FULL else NORMAL) = NORMAL <-> head r <> t).
    destruct (Z.eqb_spec t (head r)); split; (done || lia). }
  split_and!; try done. pose proof (contents_length r Hok) as Hcl. pose proof (contents_length r' Hok').
  apply list_eq_upto; [rewrite length_app, length_take; lia|]. intros i Hi.
  rewrite (contents_at r' d) by (done || lia).
  change (place r' i) with (Z.to_nat ((head r + Z.of_nat i) mod capacity r)).
  destruct (decide (Z.of_nat i < available_read r)).
  - rewrite lookup_app_l by lia. apply (old_byte r d n i Hok); [lia|done|done].
  - rewrite lookup_app_r, lookup_take_lt, <- Hnew by lia. do 2 f_equal.
    rewrite (tail_place r Hok) at 1. rewrite Zplus_mod_idemp_l. f_equal. lia.
Qed.

Lemma peek_spec r len : ring_ok r -> 0 <= len -> peek_into r len = Some (take (Z.to_nat len) (contents r)).
Proof.
  intros Hok Hlen. destruct (read_spec r len Hok Hlen) as (r' & Hr & _). unfold peek_into. unfold read_into_slice in Hr.
  destruct (Z.min len (available_read r) =? 0); [congruence|].
  destruct (queued r _) as [bytes|]; [|done]. by injection Hr as -> _.
Qed.

(** ** Resizing *)

(** The capacity asked for, in whole buffers of [PIPE_BUF]. *)
Definition rounded (size : Z) : Z := (Z.max size PIPE_BUF + (PIPE_BUF - 1)) / PIPE_BUF * PIPE_BUF.

Lemma rounded_bounds size : Z.max size PIPE_BUF <= rounded size < Z.max size PIPE_BUF + PIPE_BUF.
Proof.
  unfold rounded. pose proof (Z.div_mod (Z.max size PIPE_BUF + (PIPE_BUF - 1)) PIPE_BUF).
  pose proof (Z.mod_pos_bound (Z.max size PIPE_BUF + (PIPE_BUF - 1)) PIPE_BUF). lia.
Qed.

(** The bytes moved to the front of a ring of another capacity. *)
Lemma moved_spec r r' (v d : list Z) c : ring_ok r -> available_read r <= c -> PIPE_BUF <= c <= MAX_PIPE_CAPACITY ->
  0 < available_read r -> overwrite v 0 (contents r) = Some d -> Z.of_nat (length v) = MAX_PIPE_CAPACITY ->
  arr r' = Some d -> capacity r' = c -> head r' = 0 ->
  tail r' = (if available_read r =? c then 0 else available_read r) ->
  status r' = (if available_read r =? c then FULL else NORMAL) ->
  ring_ok r' /\ contents r' = contents r.
Proof.
  intros Hok Hac Hc Hpos Hd Hv Ha Hcap Hh Ht Hs. pose proof (overwrite_length _ _ _ _ Hd) as Hdl.
  assert (available_read r' = available_read r) as Hav.
  { unfold available_read at 1. rewrite Hs, Ht, Hh, Hcap. destruct (Z.eqb_spec (available_read r) c); [lia|].
    case_if; lia. }
  assert (ring_ok r') as Hok'.
  { split; rewrite ?Ha, ?Hcap, ?Hh, ?Ht, ?Hs; try lia; destruct (Z.eqb_spec (available_read r) c); try lia; split; (done || lia). }
  split; [done|]. pose proof (contents_length r Hok). pose proof (contents_length r' Hok').
  apply list_eq_upto; [lia|]. intros i Hi. rewrite (contents_at r' d) by (done || lia).
  rewrite (overwrite_lookup _ _ _ _ _ Hd). unfold place. rewrite Hh, Hcap, Z.mod_small by lia.
  case_if; [f_equal; lia|lia].
Qed.

Lemma emptied_spec r r' : ring_ok r -> available_read r = 0 -> PIPE_BUF <= capacity r' <= MAX_PIPE_CAPACITY ->
  arr r' = arr r -> head r' = 0 -> tail r' = 0 -> status r' = EMPTY ->
  ring_ok r' /\ contents r' = contents r.
Proof.
  intros Hok Hz Hc Ha Hh Ht Hs. assert (available_read r' = 0) as Hz' by (unfold available_read; by rewrite Hs). split.
  - pose proof (ok_arr _ Hok) as Hl. split; rewrite ?Ha, ?Hh, ?Ht, ?Hs; try lia; [done|].
    by destruct (arr r).
  - unfold contents. by rewrite Hz, Hz'.
Qed.

(** What [set_pipe_size] answers. *)
Definition resize_answer (has_cap : bool) (limit size capacity used : Z) : Z + Z :=
  if 2147483648 <? size then inl (err EINVAL)
  else if negb has_cap && (limit <? rounded size) then inl (err EPERM)
  else if MAX_PIPE_CAPACITY <? rounded size then inl (err EINVAL)
  else if rounded size =? capacity then inr capacity
  else if rounded size <? used then inl (err EBUSY)
  else inr (rounded size).

Lemma resize_spec has_cap limit r size : ring_ok r -> 0 <= size ->
  exists r', set_pipe_size has_cap limit r size =
      Some (resize_answer has_cap limit size (capacity r) (available_read r), r') /\
    ring_ok r' /\ contents r' = contents r /\ rest r' = rest r /\
    match resize_answer has_cap limit size (capacity r) (available_read r) with
    | inl _ => r' = r
    | inr c => capacity r' = c
    end.
Proof.
  intros Hok Hsize. pose proof (avail_bounds r Hok) as Hav. pose proof (rounded_bounds size) as Hrb.
  unfold set_pipe_size, resize_answer. destruct (Z.ltb_spec 2147483648 size) as [Hb|Hb]; [by exists r|].
  assert ((if size =? 0 then PIPE_BUF else Z.max size PIPE_BUF) = Z.max size PIPE_BUF) as -> by (case_if; lia).
  unfold checked_add. rewrite (proj2 (Z.leb_le _ USIZE_MAX)) by lia.
  change ((Z.max size PIPE_BUF + (PIPE_BUF - 1)) / PIPE_BUF * PIPE_BUF) with (rounded size).
  destruct (negb has_cap && (limit <? rounded size)); [by exists r|].
  destruct (Z.ltb_spec MAX_PIPE_CAPACITY (rounded size)); [by exists r|].
  destruct (Z.eqb_spec (rounded size) (capacity r)); [by exists r|].
  destruct (Z.ltb_spec (rounded size) (available_read r)); [by exists r|].
  destruct (Z.ltb_spec 0 (available_read r)) as [Hu|Hu].
  - rewrite queued_spec by (done || lia). simpl mbind.
    rewrite (take_ge (contents r)) by (pose proof (contents_length r Hok); lia).
    set (r1 := r {{ capacity := _; head := _; tail := _; status := _ }}).
    assert (Z.of_nat (length (backing r1)) = MAX_PIPE_CAPACITY) as Hbl by (by apply (backing_length r)).
    destruct (overwrite_in_range (backing r1) 0 (contents r)) as [d Hd];
      [lia|pose proof (contents_length r Hok); lia|]. rewrite Hd. simpl mbind.
    eexists. split; [done|].
    destruct (moved_spec r (r1 {{ arr := Some d }}) (backing r1) d (rounded size)) as [? ?]; try done; try lia.
    change (status (r1 {{ arr := Some d }})) with
      (if available_read r =? 0 then EMPTY else if available_read r =? rounded size then FULL else NORMAL).
    case_if; [lia|done].
  - set (r1 := r {{ capacity := _; head := _; tail := _; status := _ }}). exists r1. split; [done|].
    assert (available_read r = 0) as Hz by lia.
    assert (tail r1 = 0 /\ status r1 = EMPTY) as [Ht Hs].
    { change (tail r1) with (if available_read r =? rounded size then 0 else available_read r).
      change (status r1) with (if available_read r =? 0 then EMPTY else if available_read r =? rounded size then FULL else NORMAL).
      rewrite Hz. split; [case_if; done|done]. }
    destruct (emptied_spec r r1 Hok Hz) as [? ?]; try done.
    change (capacity r1) with (rounded size). lia.
Qed.

(** ** The ring refines a bounded queue of bytes *)

Inductive QueueOp :=
  | QRead (len : Z)
  | QPeek (len : Z)
  | QWrite (src : list Z)
  | QResize (has_cap : bool) (limit size : Z).
Inductive QueueOut :=
  | OBytes (bytes : list Z)
  | OCount (n : Z)
  | OSize (ret : Z + Z).

Definition op_ok (op : QueueOp) : Prop :=
  match op with
  | QRead len | QPeek len => 0 <= len
  | QWrite _ => True
  | QResize _ _ size => 0 <= size
  end.

(** The specification: a list of bytes and a bound on its length. *)
Definition queue_op (op : QueueOp) (q : list Z * Z) : QueueOut * (list Z * Z) :=
  let (bytes, bound) := q in
  match op with
  | QRead len => (OBytes (take (Z.to_nat len) bytes), (drop (Z.to_nat len) bytes, bound))
  | QPeek len => (OBytes (take (Z.to_nat len) bytes), q)
  | QWrite src =>
      let n := Z.min (Z.of_nat (length src)) (bound - Z.of_nat (length bytes)) in
      (OCount n, (bytes ++ take (Z.to_nat n) src, bound))
  | QResize has_cap limit size =>
      let ret := resize_answer has_cap limit size bound (Z.of_nat (length bytes)) in
      (OSize ret, (bytes, match ret with inr c => c | inl _ => bound end))
  end.
Fixpoint run_queue (q : list Z * Z) (ops : list QueueOp) : list QueueOut :=
  match ops with
  | [] => []
  | op :: ops => let (out, q) := queue_op op q in out :: run_queue q ops
  end.

(** The ring. *)
Definition ring_op (op : QueueOp) (r : PipeRingBuffer) : option (QueueOut * PipeRingBuffer) :=
  match op with
  | QRead len => '(bytes, r) ← read_into_slice r len; Some (OBytes bytes, r)
  | QPeek len => bytes ← peek_into r len; Some (OBytes bytes, r)
  | QWrite src => '(n, r) ← write_from_slice_bytes r src; Some (OCount n, r)
  | QResize has_cap limit size => '(ret, r) ← set_pipe_size has_cap limit r size; Some (OSize ret, r)
  end.
Fixpoint run_ring (r : PipeRingBuffer) (ops : list QueueOp) : option (list QueueOut) :=
  match ops with
  | [] => Some []
  | op :: ops => '(out, r) ← ring_op op r; outs ← run_ring r ops; Some (out :: outs)
  end.

Lemma ring_op_refines op r : ring_ok r -> op_ok op ->
  exists r', ring_op op r = Some ((queue_op op (contents r, capacity r)).1, r') /\ ring_ok r' /\
    (contents r', capacity r') = (queue_op op (contents r, capacity r)).2.
Proof.
  intros Hok Hop. pose proof (contents_length r Hok) as Hl. destruct op as [len|len|src|has_cap limit size]; simpl.
  - destruct (read_spec r len Hok Hop) as (r' & -> & Hok' & Hc & Hcap & _). exists r'. simpl. by rewrite Hc, Hcap.
  - exists r. by rewrite (peek_spec r len Hok Hop).
  - destruct (write_spec r src Hok) as (r' & Hw & Hok' & Hc & Hcap & _). exists r'. rewrite Hw. simpl.
    by rewrite Hc, Hcap, (avail_split r Hok), Hl.
  - destruct (resize_spec has_cap limit r size Hok Hop) as (r' & Hw & Hok' & Hc & _ & Hcap). exists r'.
    rewrite Hw, Hl. simpl. split_and!; [done|done|]. rewrite Hc. f_equal.
    destruct (resize_answer _ _ _ _ _); [by rewrite Hcap|done].
Qed.

Lemma new_ok has_cap limit : PIPE_BUF <= limit -> ring_ok (new has_cap limit).
Proof.
  intros Hl. assert (PIPE_BUF <= default_pipe_capacity has_cap limit <= MAX_PIPE_CAPACITY)
    by (unfold default_pipe_capacity; case_if; lia).
  split; cbn [new capacity head tail status arr]; try lia; done.
Qed.

(** C4: The ring buffer of a pipe is a bounded queue of bytes: any sequence of reads, peeks,
    writes and resizings of a new pipe, whatever the wrap-arounds and moves of the bytes,
    never panics and answers what a list of bytes with a bound on its length answers.
    [limit] is the sysctl, never below one buffer. *)
Theorem ring_refines_queue has_cap limit ops : PIPE_BUF <= limit -> Forall op_ok ops ->
  run_ring (new has_cap limit) ops = Some (run_queue ([], default_pipe_capacity has_cap limit) ops).
Proof.
  intros Hl Hops. change (default_pipe_capacity has_cap limit) with (capacity (new has_cap limit)).
  change (@nil Z) with (contents (new has_cap limit)). generalize (new_ok has_cap limit Hl).
  generalize (new has_cap limit) as r. induction Hops as [|op ops Hop _ IH]; intros r Hok; [done|]. cbn [run_ring run_queue].
  destruct (ring_op_refines op r Hok Hop) as (r' & -> & Hok' & Hq).
  destruct (queue_op op (contents r, capacity r)) as [out q]. simpl in Hq |- *. by rewrite (IH r' Hok'), Hq.
Qed.

Lemma ring_refines_queue_witness :
  run_ring (new false 4096) [QWrite [1; 2; 3]; QRead 2; QResize true 4096 9000; QPeek 5] =
  Some [OCount 3; OBytes [1; 2]; OSize (inr 12288); OBytes [3]].
Proof.
  apply (ring_refines_queue false 4096 [QWrite [1; 2; 3]; QRead 2; QResize true 4096 9000; QPeek 5]);
    [lia|]. repeat constructor; simpl; lia.
Defined.
