(* ===== verification/PipeWait.v ===== *)
(** * Readers and writers of a pipe

    The turns of [fs/pipe.rs] in any order: bytes come out in the order in which they went
    in, a short write is all or nothing, filtered writes do not panic, and which sleepers
    are woken. *)

From S2P Require Import Prelude.
From S2P Require Import Errno.
From S2P Require Import Bytes.
From S2P Require Import Cbpf.
From S2P Require Import Ebpf.
From S2P Require Import EbpfProof.
From S2P Require Import Pipe.
From S2P Require Import PipeProof.
Import Ring.

(** ** One turn *)

(** From [r] to [r'] the bytes [inp] were queued and the bytes [out] taken. *)
Record transfers (r : PipeRingBuffer) (inp out : list Z) (r' : PipeRingBuffer) : Prop := {
  tr_ok : ring_ok r';
  tr_bytes : contents r ++ inp = out ++ contents r';
  tr_filters : classic_filter r' = classic_filter r /\ attached_bpf r' = attached_bpf r
}.

Lemma transfers_none r r' : ring_ok r -> same_queue r r' ->
  classic_filter r' = classic_filter r -> attached_bpf r' = attached_bpf r -> transfers r [] [] r'.
Proof.
  intros Hok Hs Hc Ha. split; [by eapply same_queue_ok|by rewrite app_nil_r, (same_queue_contents _ _ Hs)|done].
Qed.

Lemma transfers_then r inp out r1 r2 : transfers r inp out r1 -> same_queue r1 r2 ->
  classic_filter r2 = classic_filter r1 -> attached_bpf r2 = attached_bpf r1 -> transfers r inp out r2.
Proof.
  intros [Hok Hb [Hf Hf']] Hs Hc Ha. split; [by eapply same_queue_ok|by rewrite (same_queue_contents _ _ Hs)|].
  split; congruence.
Qed.

Definition turn_ring {A} (t : Turn A) : PipeRingBuffer :=
  match t with Return _ r _ | Sleep r _ | Again _ r _ => r end.

Section Turns.
Context (alive waitable : Z -> bool).

Ltac unchanged := apply transfers_none; [done|repeat split|done|done].

Lemma wait_for_data_transfers c now r : ring_ok r -> transfers r [] [] (turn_ring (wait_for_data alive c now r)).
Proof. intros Hok. unfold wait_for_data. repeat (case_match; simpl); unchanged. Qed.

Lemma wait_for_room_transfers c now written r : ring_ok r ->
  transfers r [] [] (turn_ring (wait_for_room alive c now written r)).
Proof. intros Hok. unfold wait_for_room. repeat (case_match; simpl); unchanged. Qed.

(** What a reader gets from a turn. *)
Definition got (t : Turn (list Z)) : list Z := match t with Return (inr bytes) _ _ => bytes | _ => [] end.

Lemma wait_for_data_got c now r : got (wait_for_data alive c now r) = [].
Proof. unfold wait_for_data, got. destruct (c_signal_as_eintr c); repeat case_match; simplify_eq; done. Qed.

Lemma after_read_spec bytes r0 r : transfers r0 [] bytes r ->
  transfers r0 [] bytes (turn_ring (after_read alive waitable bytes r)) /\ got (after_read alive waitable bytes r) = bytes.
Proof.
  intros H. unfold after_read, pop_writer, drain_poll_waiters. destruct (pop_waiter alive (write_waiters r)) as [w ws].
  simpl. split; [|done]. eapply transfers_then; [done|repeat split|done|done].
Qed.

Lemma rest_filters r r' : rest r' = rest r -> classic_filter r' = classic_filter r /\ attached_bpf r' = attached_bpf r.
Proof. unfold rest. intros [=]. done. Qed.

Lemma read_transfers r len : ring_ok r -> 0 <= len ->
  exists r', read_into_slice r len = Some (take (Z.to_nat len) (contents r), r') /\
    transfers r [] (take (Z.to_nat len) (contents r)) r' /\ rest r' = rest r.
Proof.
  intros Hok Hlen. destruct (read_spec r len Hok Hlen) as (r' & Hr & Hok' & Hc & _ & Hrest). exists r'.
  split_and!; [done| |done]. split; [done| |by apply rest_filters]. by rewrite app_nil_r, Hc, take_drop.
Qed.

Lemma read_turn_spec c now len r : ring_ok r -> 0 <= len ->
  exists t, read_turn alive waitable c now len r = Some t /\ transfers r [] (got t) (turn_ring t).
Proof.
  intros Hok Hlen. unfold read_turn. case_if; [eexists; split; [done|]; unchanged|].
  pose proof (avail_bounds r Hok). case_if.
  - eexists. split; [done|]. rewrite wait_for_data_got. by apply wait_for_data_transfers.
  - destruct (read_transfers r (Z.min (available_read r) len)) as (r' & -> & Ht & _); [done|lia|]. simpl mbind.
    eexists. split; [done|]. destruct (after_read_spec _ _ _ Ht) as [Hr ->]. done.
Qed.

(** Reading into several buffers reads as much as into one. *)
Lemma read_segments_spec lens r0 r to_read acc : Forall (Z.le 0) lens -> Z.of_nat (length acc) <= to_read ->
  transfers r0 [] acc r -> exists bytes r', read_segments r lens to_read acc = Some (bytes, r') /\
    transfers r0 [] bytes r' /\ Z.of_nat (length bytes) <= to_read.
Proof.
  revert r acc. induction lens as [|l lens IH]; intros r acc Hl Hacc Ht; [by exists acc, r|]. cbn [read_segments].
  apply Forall_cons in Hl as [Hl Hls]. case_if; [by exists acc, r|].
  set (n := Z.min l (to_read - Z.of_nat (length acc))).
  destruct (read_transfers r n (tr_ok _ _ _ _ Ht)) as (r' & -> & Ht' & _); [lia|]. simpl mbind. apply IH; [done|..].
  - rewrite length_app, length_take. lia.
  - split; [apply Ht'| |destruct Ht as [_ _ [? ?]], Ht' as [_ _ [? ?]]; split; congruence].
    rewrite (tr_bytes _ _ _ _ Ht), <- app_assoc. f_equal. rewrite <- (tr_bytes _ _ _ _ Ht'). by rewrite app_nil_r.
Qed.

Lemma read_user_turn_spec c now lens r : ring_ok r -> Forall (Z.le 0) lens ->
  exists t, read_user_turn alive waitable c now lens r = Some t /\ transfers r [] (got t) (turn_ring t).
Proof.
  intros Hok Hl. unfold read_user_turn. case_if; [eexists; split; [done|]; unchanged|].
  assert (0 <= foldr Z.add 0 lens) by (clear -Hl; induction Hl; simpl; lia).
  pose proof (avail_bounds r Hok). case_if.
  - eexists. split; [done|]. rewrite wait_for_data_got. by apply wait_for_data_transfers.
  - destruct (read_segments_spec lens r r (Z.min (available_read r) (foldr Z.add 0 lens)) []) as (bytes & r' & -> & Ht & _);
      [done|simpl; lia|unchanged|]. simpl mbind. eexists. split; [done|].
    destruct bytes as [|b bytes]; [done|]. destruct (after_read_spec _ _ _ Ht) as [Hr ->]. done.
Qed.

Lemma peek_turn_spec c now len r : ring_ok r -> 0 <= len ->
  exists t, peek_turn alive c now len r = Some t /\ transfers r [] [] (turn_ring t) /\
    got t = (if available_read r =? 0 then [] else take (Z.to_nat len) (contents r)).
Proof.
  intros Hok Hlen. unfold peek_turn. destruct (Z.eqb_spec len 0) as [->|].
  { eexists. split_and!; [done|unchanged|]. rewrite take_0. by case_if. }
  case_if; [eexists; split_and!; [done|by apply wait_for_data_transfers|apply wait_for_data_got]|].
  rewrite peek_spec by done. eexists. split_and!; [done|unchanged|done].
Qed.

Lemma lowat_turn_transfers c now lowat r : ring_ok r -> transfers r [] [] (turn_ring (lowat_turn alive c now lowat r)).
Proof. intros Hok. unfold lowat_turn. case_if; [unchanged|by apply wait_for_data_transfers]. Qed.

(** ** Writing *)

(** The filters of a pipe are as they were accepted, the maps of its program open. *)
Record filters_ok (r : PipeRingBuffer) (maps : Ebpf.Maps) : Prop := {
  fo_classic : match classic_filter r with
               | Some f => Forall Cbpf.insn_ok f /\ Cbpf.validate f = inr tt
               | None => True
               end;
  fo_bpf : match attached_bpf r with
           | Some p => loaded p maps /\ Z.of_nat (length (Ebpf.p_insns p)) <= Ebpf.BPF_MAXINSNS
           | None => True
           end;
  fo_maps : maps_ok maps
}.

Lemma loaded_kept p ms ms' : maps_kept ms ms' -> loaded p ms -> loaded p ms'.
Proof.
  intros Hk (Hv & get & Hc & Hd). split; [done|]. exists get. split; [done|]. intros fd id Hf. specialize (Hd fd id Hf).
  specialize (Hk id). destruct (ms !! id), (ms' !! id); [done|done|by destruct Hd|by destruct Hd].
Qed.

Lemma filters_ok_kept r r' ms ms' : filters_ok r ms -> maps_ok ms' -> maps_kept ms ms' ->
  classic_filter r' = classic_filter r -> attached_bpf r' = attached_bpf r -> filters_ok r' ms'.
Proof.
  intros [Hc Hb _] Hm Hk Ec Eb. split; rewrite ?Ec, ?Eb; [done| |done]. destruct (attached_bpf r); [|done].
  destruct Hb as [Hl ?]. split; [by eapply loaded_kept|done].
Qed.

Lemma classic_runs f packet : Forall Cbpf.insn_ok f -> Cbpf.validate f = inr tt ->
  exists v, Cbpf.filter_len f packet = Some v /\
    match v with Some n => n <= Z.of_nat (length packet) | None => True end.
Proof.
  intros Hf Hv. destruct (Cbpf.validate_facts _ Hv) as (Hlen & _). unfold Cbpf.filter_len, Cbpf.execute.
  destruct (Cbpf.run_accepted f packet (S (length f)) Cbpf.boot) as (v & _ & _ & -> & _);
    [done|done|split; [cbn; lia|done]|cbn; lia|].
  simpl mbind. eexists. split; [done|]. destruct v as [n|]; simpl; [|done]. case_if; [done|lia].
Qed.

Lemma bpf_runs p maps packet : loaded p maps -> Z.of_nat (length (Ebpf.p_insns p)) <= Ebpf.BPF_MAXINSNS -> maps_ok maps ->
  exists v maps', Ebpf.filter_len p maps packet = Some (v, maps') /\ maps_ok maps' /\ maps_kept maps maps' /\
    match v with Some n => n <= Z.of_nat (length packet) | None => True end.
Proof.
  intros Hp Hl Hm. unfold Ebpf.filter_len, Ebpf.execute.
  destruct (run_safe p maps packet (S (length (Ebpf.p_insns p))) (Ebpf.boot maps packet)) as (v & maps' & -> & _ & Hm' & Hk);
    [done|done|reflexivity|by apply boot_ok|cbn; lia|cbn; lia|].
  simpl mbind. exists (match v with inl _ => None | inr len => if len =? 0 then None else Some (Z.min len (Z.of_nat (length packet))) end), maps'.
  split_and!; [done..|]. destruct v as [|n]; [done|]. case_if; [done|lia].
Qed.

Lemma run_filters_spec maps r bytes : filters_ok r maps ->
  exists v maps', run_filters maps r bytes = Some (v, maps') /\ maps_ok maps' /\ maps_kept maps maps' /\
    (forall n, v = Some (n, false) -> n = Z.of_nat (length bytes)) /\
    (has_filter r = false -> v = Some (Z.of_nat (length bytes), false)).
Proof.
  intros [Hc Hb Hm]. unfold run_filters, has_filter.
  assert (exists v, match classic_filter r with
                    | None => Some (Some (Z.of_nat (length bytes), false))
                    | Some f => v ← Cbpf.filter_len f bytes;
                                Some (n ← v; Some (Z.min (Z.of_nat (length bytes)) n, n <? Z.of_nat (length bytes)))
                    end = Some v /\
            (classic_filter r = None -> v = Some (Z.of_nat (length bytes), false)) /\
            forall n, v = Some (n, false) -> n = Z.of_nat (length bytes)) as (v & -> & Hnone & Hv).
  { destruct (classic_filter r) as [f|]; [|eexists; split_and!; [done..|by intros n [= <-]]].
    destruct Hc as [Hf Hva]. destruct (classic_runs f bytes Hf Hva) as (v & -> & Hle). simpl mbind.
    eexists. split_and!; [done..|]. intros n. destruct v as [m|]; simpl; [|done]. intros [= <- Hlt]. lia. }
  simpl mbind. destruct v as [[n truncated]|].
  2: { exists None, maps. split_and!; [done|done|reflexivity|done|]. intros H. destruct (classic_filter r); [done|]. by specialize (Hnone eq_refl). }
  destruct (attached_bpf r) as [p|].
  2: { exists (Some (n, truncated)), maps. split_and!; [done|done|reflexivity|done|]. intros H.
       destruct (classic_filter r); [done|]. by apply Hnone. }
  destruct Hb as [Hl Hlen]. destruct (bpf_runs p maps (take (Z.to_nat n) bytes) Hl Hlen Hm) as (v & maps' & -> & Hm' & Hk & Hle).
  simpl mbind. eexists _, maps'. split_and!; [done..| |by destruct (classic_filter r)].
  intros m. destruct v as [k|]; simpl; [|done]. intros [= <- Ht]. apply orb_false_iff in Ht as [-> Hkn].
  rewrite (Hv n eq_refl) in *. lia.
Qed.

(** What a writer is told to have been taken, in a turn, of the [data] it still has. *)
Definition taken (data : list Z) (written : Z) (t : Turn Z) : list Z :=
  match t with
  | Return (inr w) _ _ | Again w _ _ => take (Z.to_nat (w - written)) data
  | _ => []
  end.

Lemma wait_for_room_taken c now data written r : taken data written (wait_for_room alive c now written r) = [].
Proof.
  assert (take (Z.to_nat (written - written)) data = []) as H by (by rewrite Z.sub_diag).
  unfold wait_for_room, taken. destruct (c_signal_as_eintr c), (written =? 0), (0 <? written); simpl;
    repeat case_match; simplify_eq; done.
Qed.

Lemma after_write_spec n r0 inp r : transfers r0 inp [] r ->
  transfers r0 inp [] (after_write alive waitable n r).1.
Proof.
  intros H. unfold after_write, pop_reader, drain_poll_waiters. case_if; [|done].
  destruct (pop_waiter alive (read_waiters r)) as [w ws]. simpl.
  eapply transfers_then; [done|repeat split|done|done].
Qed.

Lemma write_transfers r src : ring_ok r -> Z.of_nat (length src) <= available_write r ->
  exists r', write_from_slice_bytes r src = Some (Z.of_nat (length src), r') /\ transfers r src [] r' /\
    available_write r' = available_write r - Z.of_nat (length src).
Proof.
  intros Hok Hlen. destruct (write_spec r src Hok) as (r' & Hw & Hok' & Hc & Hcap & Hrest). exists r'.
  rewrite Z.min_l in Hw, Hc by done. rewrite take_ge in Hc by lia. split_and!; [done| |].
  - split; [done|done|by apply rest_filters].
  - rewrite (avail_split r Hok), (avail_split r' Hok'), Hcap, <- (contents_length r Hok), <- (contents_length r' Hok').
    rewrite Hc, length_app. lia.
Qed.

(** How a turn of a writer ends: a prefix [inp] of the [data] it still has is queued, the
    whole of what it is told unless there is a filter. *)
Definition writes (r : PipeRingBuffer) (data : list Z) (written : Z) (t : Turn Z) : Prop :=
  exists inp, transfers r inp [] (turn_ring t) /\ inp `prefix_of` data /\
    (has_filter r = false -> inp = taken data written t).

Lemma writes_nothing r data written t : transfers r [] [] (turn_ring t) -> taken data written t = [] -> writes r data written t.
Proof. intros Ht Hn. exists []. split_and!; [done|apply prefix_nil|done]. Qed.

Lemma write_turn_spec c now data written maps r : ring_ok r -> filters_ok r maps -> 0 <= written <= Z.of_nat (length data) ->
  exists t maps', write_turn alive waitable c now data written maps r = Some (t, maps') /\
    writes r (drop (Z.to_nat written) data) written t /\ filters_ok (turn_ring t) maps' /\ maps_kept maps maps'.
Proof.
  intros Hok Hf Hw. unfold write_turn.
  assert (forall t, writes r (drop (Z.to_nat written) data) written t -> classic_filter (turn_ring t) = classic_filter r /\ attached_bpf (turn_ring t) = attached_bpf r)
    as Hfil by (intros t (inp & [_ _ ?] & _); done).
  assert (forall (t : Turn Z), writes r (drop (Z.to_nat written) data) written t -> exists t' maps', Some (t, maps) = Some (t', maps') /\
      writes r (drop (Z.to_nat written) data) written t' /\ filters_ok (turn_ring t') maps' /\ maps_kept maps maps') as Hnow.
  { intros t Ht. exists t, maps. destruct (Hfil t Ht). split_and!; [done|done| |reflexivity].
    eapply filters_ok_kept; [done|apply Hf|reflexivity|done|done]. }
  destruct (Z.eqb_spec (Z.of_nat (length data)) 0) as [H0|H0].
  { apply Hnow, writes_nothing; [unchanged|]. cbn [taken]. destruct data; [by rewrite drop_nil, take_nil|done]. }
  destruct (all_read_ends_closed r).
  { apply Hnow, writes_nothing; [unchanged|]. simpl. case_if; [done|]. by rewrite Z.sub_diag. }
  destruct (must_wait r _ written).
  { apply Hnow, writes_nothing; [by apply wait_for_room_transfers|apply wait_for_room_taken]. }
  set (n := Z.min _ _). pose proof (avail_bounds r Hok). pose proof (avail_split r Hok).
  destruct (slice_in_range data written n) as [ws Hws]; [lia..|]. rewrite Hws. simpl mbind.
  pose proof (slice_length _ _ _ _ Hws) as Hwl. apply slice_Some in Hws as (_ & _ & _ & Hwe).
  destruct (run_filters_spec maps r ws Hf) as (v & maps' & -> & Hm & Hk & Hall & Hnof). simpl mbind.
  assert (forall (t : Turn Z), writes r (drop (Z.to_nat written) data) written t -> exists t' maps'', Some (t, maps') = Some (t', maps'') /\
      writes r (drop (Z.to_nat written) data) written t' /\ filters_ok (turn_ring t') maps'' /\ maps_kept maps maps'') as Hthen.
  { intros t Ht. exists t, maps'. destruct (Hfil t Ht). split_and!; [done|done| |done]. by eapply filters_ok_kept. }
  destruct v as [[m truncated]|].
  2: { apply Hthen. exists []. split_and!; [unchanged|apply prefix_nil|]. intros H'. by specialize (Hnof H'). }
  set (src := take (Z.to_nat m) ws).
  assert (length src <= length ws)%nat as Hsl by (unfold src; rewrite length_take; lia).
  destruct (write_transfers r src Hok) as (r' & -> & Ht & _); [lia|]. simpl mbind.
  pose proof (after_write_spec (Z.of_nat (length src)) _ _ _ Ht) as Hta.
  destruct (after_write alive waitable (Z.of_nat (length src)) r') as [r2 w]. apply Hthen. exists src. split_and!.
  - by repeat case_match.
  - unfold src. rewrite Hwe, take_take. apply prefix_take.
  - intros H'. specialize (Hnof H'). injection Hnof as -> ->.
    assert (src = ws) as -> by (unfold src; apply take_ge; lia).
    assert (ws = take (Z.to_nat (written + Z.of_nat (length ws) - written)) (drop (Z.to_nat written) data)) as Hx
      by (rewrite Hwe at 1; f_equal; lia).
    case_if; exact Hx.
Qed.

(** The steps the copy loop takes at most. *)
Definition copy_steps (bufs : list (list Z)) : nat :=
  foldr (fun b n => match b with [] => 1 | _ => 2 end + n)%nat 0%nat bufs.

Lemma copy_steps_le bufs : (copy_steps bufs <= 2 * length bufs)%nat.
Proof. induction bufs as [|[|] bufs IH]; simpl in *; lia. Qed.

Lemma transfers_trans r r1 r2 inp1 inp2 : transfers r inp1 [] r1 -> transfers r1 inp2 [] r2 -> transfers r (inp1 ++ inp2) [] r2.
Proof.
  intros [? Hb [? ?]] [? Hb' [? ?]]. split; [done| |split; congruence].
  simpl in *. by rewrite app_assoc, Hb.
Qed.

Lemma copy_segments_spec fuel r bufs to_write write_now : ring_ok r -> (copy_steps bufs < fuel)%nat ->
  0 <= to_write - write_now <= available_write r -> to_write - write_now <= Z.of_nat (length (concat bufs)) ->
  exists bufs' r', copy_segments fuel r bufs to_write write_now = Some (to_write, bufs', r') /\
    transfers r (take (Z.to_nat (to_write - write_now)) (concat bufs)) [] r' /\
    concat bufs' = drop (Z.to_nat (to_write - write_now)) (concat bufs).
Proof.
  revert r bufs write_now. induction fuel as [|fuel IH]; intros r bufs write_now Hok Hf Ha Hb; [lia|]. cbn [copy_segments].
  destruct (Z.leb_spec to_write write_now).
  { assert (write_now = to_write) as -> by lia. exists bufs, r. rewrite Z.sub_diag. split_and!; [done|unchanged|done]. }
  destruct bufs as [|[|x src] rest]; [simpl in Hb; lia|apply (IH r rest); [done|simpl in Hf; lia|done|done]|].
  set (s := x :: src) in *. set (chunk := Z.min _ _). change (concat (s :: rest)) with (s ++ concat rest) in *.
  assert (0 < Z.of_nat (length s)) as Hs by (unfold s; simpl; lia). rewrite length_app in Hb.
  assert (copy_steps (s :: rest) = 2 + copy_steps rest)%nat as Hsteps by done.
  assert (Z.of_nat (length (take (Z.to_nat chunk) s)) = chunk) as Hc by (rewrite length_take; lia).
  destruct (write_transfers r (take (Z.to_nat chunk) s) Hok) as (r' & -> & Ht & Hav); [lia|]. rewrite Hc in *. simpl mbind.
  destruct (Z.eqb_spec chunk 0); [lia|]. clearbody s. destruct (Z.eq_dec chunk (Z.of_nat (length s))) as [He|He].
  - rewrite drop_ge by lia. rewrite take_ge in Ht by lia.
    destruct (IH r' ([] :: rest) (write_now + chunk)) as (bufs' & r2 & -> & Ht2 & Hrest);
      [apply Ht|change (S (copy_steps rest) < fuel)%nat; lia|lia|simpl; lia|].
    exists bufs', r2. simpl in Ht2, Hrest. split_and!; [done| |].
    + rewrite take_app_ge by lia. replace (_ - length s)%nat with (Z.to_nat (to_write - (write_now + chunk))) by lia.
      by eapply transfers_trans.
    + rewrite Hrest, drop_app_ge by lia. f_equal. lia.
  - destruct fuel as [|fuel]; [lia|]. exists (drop (Z.to_nat chunk) s :: rest), r'. cbn [copy_segments].
    assert (write_now + chunk = to_write) as -> by lia. rewrite Z.leb_refl.
    replace (to_write - write_now) with chunk by lia.
    split_and!; [done|rewrite take_app_le by lia; done|rewrite drop_app_le by lia; done].
Qed.

(** ** The writer from user memory, without filters *)

Lemma write_user_turn_spec c now bufs written r : ring_ok r -> has_filter r = false -> 0 <= written ->
  exists t bufs', write_user_turn alive waitable c now bufs written r = Some (inl (t, bufs')) /\
    writes r (concat bufs) written t /\ concat bufs = taken (concat bufs) written t ++ concat bufs'.
Proof.
  intros Hok Hnf Hw. unfold write_user_turn. rewrite Hnf.
  assert (forall t, transfers r [] [] (turn_ring t) -> taken (concat bufs) written t = [] -> exists t' bufs',
    Some (@inl _ (list Z * PipeRingBuffer) (t, bufs)) = Some (inl (t', bufs')) /\
    writes r (concat bufs) written t' /\ concat bufs = taken (concat bufs) written t' ++ concat bufs') as Hnow.
  { intros t Ht Hn. exists t, bufs. split_and!; [done|by apply writes_nothing|by rewrite Hn]. }
  destruct (Z.eqb_spec (Z.of_nat (length (concat bufs)) + written) 0) as [?|_].
  { apply Hnow; [unchanged|]. cbn [taken]. by replace (Z.to_nat (0 - written)) with 0%nat by lia. }
  destruct (all_read_ends_closed r).
  { apply Hnow; [unchanged|]. cbn [taken turn_ring]. case_if; [done|]. by rewrite Z.sub_diag. }
  destruct (must_wait r _ written); [apply Hnow; [by apply wait_for_room_transfers|apply wait_for_room_taken]|].
  set (n := Z.min _ _). pose proof (avail_bounds r Hok). pose proof (avail_split r Hok).
  destruct (copy_segments_spec (S (2 * length bufs)) r bufs n 0) as (bufs' & r' & -> & Ht & Hrest);
    [done|pose proof (copy_steps_le bufs); lia|lia|lia|]. simpl mbind. rewrite Z.sub_0_r in *.
  pose proof (after_write_spec n _ _ _ Ht) as Hta. destruct (after_write alive waitable n r') as [r2 w]. simpl in Hta.
  eexists _, bufs'. split; [done|].
  assert (forall b : bool, taken (concat bufs) written (if b then Return (inr (written + n)) r2 w else Again (written + n) r2 w)
            = take (Z.to_nat n) (concat bufs)) as Htk by (intros []; cbn [taken]; f_equal; lia).
  rewrite Htk. split; [|by rewrite Hrest, take_drop]. exists (take (Z.to_nat n) (concat bufs)).
  split_and!; [by case_if|apply prefix_take|by rewrite Htk].
Qed.

End Turns.

(** ** Histories *)

(** What happens at a pipe, one critical section at a time, in the order in which the lock
    of the buffer is taken.  A turn of a writer comes with what it has written before. *)
Inductive Event :=
  | ERead (c : Call) (now : Now) (len : Z)
  | EReadUser (c : Call) (now : Now) (lens : list Z)
  | EPeek (c : Call) (now : Now) (len : Z)
  | EWaitReadable (c : Call) (now : Now) (lowat : Z)
  | EWrite (c : Call) (now : Now) (data : list Z) (written : Z)
  | EWriteUser (c : Call) (now : Now) (bufs : list (list Z)) (written : Z)
  | EResize (has_cap : bool) (limit size : Z)
  | EInstall (p : Pipe)
  | EClose (p : Pipe)
  | EShutdownRead (p : Pipe)
  | EShutdownWrite (p : Pipe)
  | EDrop (p : Pipe)
  | EPoll (task : Z)
  | EAttachFilter (f : list Cbpf.ClassicBpfInsn)
  | EAttachBpf (p : Ebpf.BpfProgFile)
  | EDetach
  | ELock (locked : bool).

Section Histories.
Context (alive waitable : Z -> bool).

(** The pipe after an event, the bytes its writer is told to have been taken, and the
    bytes its reader gets. *)
Definition event_step (e : Event) (s : PipeRingBuffer * Ebpf.Maps) : option (PipeRingBuffer * Ebpf.Maps * list Z * list Z) :=
  let (r, maps) := s in
  let quiet r := Some (r, maps, [], []) in
  match e with
  | ERead c now len => t ← read_turn alive waitable c now len r; Some (turn_ring t, maps, [], got t)
  | EReadUser c now lens => t ← read_user_turn alive waitable c now lens r; Some (turn_ring t, maps, [], got t)
  | EPeek c now len => t ← peek_turn alive c now len r; quiet (turn_ring t)
  | EWaitReadable c now lowat => quiet (turn_ring (lowat_turn alive c now lowat r))
  | EWrite c now data written =>
      '(t, maps) ← write_turn alive waitable c now data written maps r;
      Some (turn_ring t, maps, taken (drop (Z.to_nat written) data) written t, [])
  | EWriteUser c now bufs written =>
      res ← write_user_turn alive waitable c now bufs written r;
      match res with
      | inl (t, _) => Some (turn_ring t, maps, taken (concat bufs) written t, [])
      | inr (_, r) => quiet r
      end
  | EResize has_cap limit size => '(_, r, _) ← resize waitable has_cap limit r size; quiet r
  | EInstall p => quiet (on_fd_install p r).2
  | EClose p => let '(_, r, _) := on_fd_close alive waitable p r in quiet r
  | EShutdownRead p => quiet (shutdown_read_end alive waitable p r).1
  | EShutdownWrite p => quiet (shutdown_write_end alive waitable p r).1
  | EDrop p => quiet (drop_end alive waitable p r).1
  | EPoll task => quiet (register_poll_waiter waitable r task)
  | EAttachFilter f => quiet (attach_filter r f).2
  | EAttachBpf p => quiet (attach_bpf r p).2
  | EDetach => quiet (detach_filter r).2
  | ELock locked => quiet (set_filter_locked r locked).2
  end.

Fixpoint history (evs : list Event) (s : PipeRingBuffer * Ebpf.Maps) : option (PipeRingBuffer * Ebpf.Maps * list Z * list Z) :=
  match evs with
  | [] => Some (s.1, s.2, [], [])
  | e :: evs =>
      '(r, maps, inp, out) ← event_step e s;
      '(r, maps, inps, outs) ← history evs (r, maps);
      Some (r, maps, inp ++ inps, out ++ outs)
  end.

(** Lengths are lengths, a writer has written at most its data, and what is attached was
    accepted: the filter by [validate], the program by [prog_load]. *)
Definition event_ok (maps : Ebpf.Maps) (e : Event) : Prop :=
  match e with
  | ERead _ _ len | EPeek _ _ len => 0 <= len
  | EReadUser _ _ lens => Forall (Z.le 0) lens
  | EWrite _ _ data written => 0 <= written <= Z.of_nat (length data)
  | EWriteUser _ _ _ written => 0 <= written
  | EResize _ _ size => 0 <= size
  | EAttachFilter f => Forall Cbpf.insn_ok f /\ Cbpf.validate f = inr tt
  | EAttachBpf p => loaded p maps /\ Z.of_nat (length (Ebpf.p_insns p)) <= Ebpf.BPF_MAXINSNS
  | _ => True
  end.
Definition attaches (e : Event) : bool :=
  match e with EAttachFilter _ | EAttachBpf _ => true | _ => false end.

(** The outcome of an event. *)
Record stepped (e : Event) (r : PipeRingBuffer) (maps : Ebpf.Maps) (r' : PipeRingBuffer) (maps' : Ebpf.Maps)
    (inp out : list Z) : Prop := {
  st_ok : ring_ok r';
  st_filters : filters_ok r' maps';
  st_maps : maps_kept maps maps';
  st_bytes : has_filter r = false -> attaches e = false -> has_filter r' = false /\ contents r ++ inp = out ++ contents r'
}.

Lemma stepped_transfers e r maps r' inp out : filters_ok r maps -> transfers r inp out r' -> stepped e r maps r' maps inp out.
Proof.
  intros Hf [Hok Hb [Hc Ha]]. split; [done| |reflexivity|].
  - eapply filters_ok_kept; [done|apply Hf|reflexivity|done|done].
  - intros Hn _. split; [|done]. unfold has_filter in *. by rewrite Hc, Ha.
Qed.

Lemma has_filter_none r : has_filter r = false <-> classic_filter r = None /\ attached_bpf r = None.
Proof. unfold has_filter. destruct (classic_filter r), (attached_bpf r); naive_solver. Qed.

(** An event that touches neither the queue nor the filters. *)
Lemma quiet_stepped e r maps r' : ring_ok r -> filters_ok r maps -> same_queue r r' ->
  classic_filter r' = classic_filter r -> attached_bpf r' = attached_bpf r -> stepped e r maps r' maps [] [].
Proof. intros Hok Hf Hs Hc Ha. apply stepped_transfers; [done|]. by apply transfers_none. Qed.

(** An event that sets the filters. *)
Lemma filter_stepped e r maps r' : ring_ok r -> filters_ok r' maps -> same_queue r r' ->
  (attaches e = false -> has_filter r = false -> has_filter r' = false) -> stepped e r maps r' maps [] [].
Proof.
  intros Hok Hf Hs Hn. split; [by eapply same_queue_ok|done|reflexivity|]. intros H1 H2. split; [by apply Hn|].
  by rewrite app_nil_r, (same_queue_contents _ _ Hs).
Qed.

Lemma resize_stepped e has_cap limit r maps size : ring_ok r -> filters_ok r maps -> 0 <= size ->
  exists ret r' polls, resize waitable has_cap limit r size = Some (ret, r', polls) /\ stepped e r maps r' maps [] [].
Proof.
  intros Hok Hf Hs. destruct (resize_spec has_cap limit r size Hok Hs) as (r1 & Hr & Hok1 & Hc & Hrest & _).
  assert (transfers r [] [] r1) as Ht by (split; [done|by rewrite app_nil_r|by apply rest_filters]).
  unfold resize. rewrite Hr. cbn [mbind option_bind]. destruct (resize_answer _ _ _ _ _) as [err|cap]; simpl.
  - eexists _, r1, _. split; [done|]. by apply stepped_transfers.
  - eexists _, _, _. split; [done|]. apply stepped_transfers; [done|].
    eapply transfers_then; [done|repeat split|done|done].
Qed.

Lemma write_user_stepped e c now bufs written r maps : ring_ok r -> filters_ok r maps -> 0 <= written ->
  exists res, write_user_turn alive waitable c now bufs written r = Some res /\
    match res with
    | inl (t, _) => stepped e r maps (turn_ring t) maps (taken (concat bufs) written t) []
    | inr (_, r') => stepped e r maps r' maps [] []
    end.
Proof.
  intros Hok Hf Hw. destruct (has_filter r) eqn:Hn.
  - unfold write_user_turn. rewrite Hn. case_if; eexists; (split; [done|]); cbn [turn_ring taken].
    + replace (Z.to_nat (0 - written)) with 0%nat by lia. by apply quiet_stepped.
    + apply quiet_stepped; try done; repeat split.
  - destruct (write_user_turn_spec alive waitable c now bufs written r Hok Hn Hw) as (t & bufs' & -> & (inp & Ht & _ & Hi) & _).
    eexists. split; [done|]. cbn. rewrite <- (Hi Hn). by apply stepped_transfers.
Qed.

Lemma close_stepped e p r maps : ring_ok r -> filters_ok r maps ->
  let '(_, r', _) := on_fd_close alive waitable p r in stepped e r maps r' maps [] [].
Proof.
  intros Hok Hf. unfold on_fd_close. case_if; [by apply quiet_stepped|]. unfold drain_readers, drain_writers, drain_poll_waiters.
  destruct (fd_refs p =? 0), p as [[] [] ?]; simpl; apply quiet_stepped; try done; repeat split.
Qed.

Lemma event_stepped e r maps : ring_ok r -> filters_ok r maps -> event_ok maps e ->
  exists r' maps' inp out, event_step e (r, maps) = Some (r', maps', inp, out) /\ stepped e r maps r' maps' inp out.
Proof.
  intros Hok Hf He. destruct e; cbn [event_step event_ok] in *.
  - destruct (read_turn_spec alive waitable c now len r Hok He) as (t & -> & Ht). eexists _, _, _, _. split; [done|].
    by apply stepped_transfers.
  - destruct (read_user_turn_spec alive waitable c now lens r Hok He) as (t & -> & Ht). eexists _, _, _, _. split; [done|].
    by apply stepped_transfers.
  - destruct (peek_turn_spec alive c now len r Hok He) as (t & -> & Ht & _). eexists _, _, _, _. split; [done|].
    by apply stepped_transfers.
  - eexists _, _, _, _. split; [done|]. apply stepped_transfers; [done|]. by apply lowat_turn_transfers.
  - destruct (write_turn_spec alive waitable c now data written maps r Hok Hf He) as (t & maps' & -> & (inp & Ht & _ & Hi) & Hf' & Hk).
    eexists _, _, _, _. split; [done|]. split; [apply Ht|done|done|]. intros Hn _. rewrite <- (Hi Hn).
    destruct Ht as [_ Hb [Hc Ha]]. split; [|done]. apply has_filter_none in Hn as [? ?]. apply has_filter_none. split; congruence.
  - destruct (write_user_stepped (EWriteUser c now bufs written) c now bufs written r maps Hok Hf He) as ([[t ?]|[? r']] & -> & Hs);
      eexists _, _, _, _; (split; [done|]); exact Hs.
  - destruct (resize_stepped (EResize has_cap limit size) has_cap limit r maps size Hok Hf He) as (ret & r' & polls & -> & Hs).
    eexists _, _, _, _. split; [done|]. exact Hs.
  - eexists _, _, _, _. split; [done|]. unfold on_fd_install. case_if; apply quiet_stepped; try done; repeat split.
  - pose proof (close_stepped (EClose p) p r maps Hok Hf) as Hs. destruct (on_fd_close alive waitable p r) as [[p' r'] ws].
    eexists _, _, _, _. split; [done|]. exact Hs.
  - eexists _, _, _, _. split; [done|]. unfold shutdown_read_end. case_if; apply quiet_stepped; try done; repeat split.
  - eexists _, _, _, _. split; [done|]. unfold shutdown_write_end. case_if; apply quiet_stepped; try done; repeat split.
  - eexists _, _, _, _. split; [done|]. unfold drop_end, drain_readers, drain_writers, drain_poll_waiters.
    destruct p as [[] [] ?]; simpl; apply quiet_stepped; try done; repeat split.
  - eexists _, _, _, _. split; [done|]. apply quiet_stepped; try done; repeat split.
  - eexists _, _, _, _. split; [done|]. unfold attach_filter. case_if; [by apply quiet_stepped|].
    apply filter_stepped; [done|split; [done|done|apply Hf]|repeat split|done].
  - eexists _, _, _, _. split; [done|]. unfold attach_bpf. case_if; [by apply quiet_stepped|].
    apply filter_stepped; [done|split; [done|done|apply Hf]|repeat split|done].
  - eexists _, _, _, _. split; [done|]. unfold detach_filter. case_if; [by apply quiet_stepped|].
    apply filter_stepped; [done|split; [done|done|apply Hf]|repeat split|done].
  - eexists _, _, _, _. split; [done|]. unfold set_filter_locked. case_if; apply quiet_stepped; try done; repeat split.
Qed.

Lemma event_ok_kept maps maps' e : maps_kept maps maps' -> event_ok maps e -> event_ok maps' e.
Proof. intros Hk. destruct e; cbn [event_ok]; try done. intros [? ?]. split; [by eapply loaded_kept|done]. Qed.

Lemma history_runs evs r maps : ring_ok r -> filters_ok r maps -> Forall (event_ok maps) evs ->
  exists r' maps' inp out, history evs (r, maps) = Some (r', maps', inp, out) /\ ring_ok r' /\
    (has_filter r = false -> forallb (fun e => negb (attaches e)) evs = true -> contents r ++ inp = out ++ contents r').
Proof.
  revert r maps. induction evs as [|e evs IH]; intros r maps Hok Hf He.
  { exists r, maps, [], []. split_and!; [done|done|]. intros _ _. by rewrite app_nil_r. }
  apply Forall_cons in He as [He Hes].
  destruct (event_stepped e r maps Hok Hf He) as (r1 & maps1 & i1 & o1 & Hs & [Hok1 Hf1 Hk Hb]). cbn [history]. rewrite Hs.
  cbn [mbind option_bind].
  destruct (IH r1 maps1 Hok1 Hf1) as (r2 & maps2 & i2 & o2 & -> & Hok2 & Hb2).
  { eapply Forall_impl; [exact Hes|]. intros e'. by apply event_ok_kept. }
  exists r2, maps2, (i1 ++ i2), (o1 ++ o2). split_and!; [done|done|]. intros Hn [Ha Hev]%andb_true_iff.
  destruct (Hb Hn) as [Hn1 Hb1]; [by destruct (attaches e)|]. specialize (Hb2 Hn1 Hev).
  by rewrite app_assoc, Hb1, <- app_assoc, Hb2, app_assoc.
Qed.

(** C2: Whatever readers, writers, pollers, resizings, closings and filters do at a pipe, in
    any interleaving: nothing panics, filters included; and, as long as no filter is
    attached, the bytes that writers were told to have been taken are, in order, those that
    readers got followed by those still in the pipe, none lost, duplicated or reordered. *)
Theorem pipe_delivers_in_order has_cap limit maps evs :
  PIPE_BUF <= limit -> maps_ok maps -> Forall (event_ok maps) evs ->
  exists r maps' sent received,
    history evs ((make_pipe has_cap limit).1.1, maps) = Some (r, maps', sent, received) /\ ring_ok r /\
    (forallb (fun e => negb (attaches e)) evs = true -> sent = received ++ contents r).
Proof.
  intros Hl Hm He. set (r0 := (make_pipe has_cap limit).1.1).
  assert (ring_ok r0) as Hok by (eapply same_queue_ok; [|by apply (new_ok has_cap limit)]; done).
  destruct (history_runs evs r0 maps) as (r & maps' & sent & received & Hh & Hok' & Hb); [done|by split|done|].
  exists r, maps', sent, received. split_and!; [done|done|]. intros Ha. by apply Hb.
Qed.

End Histories.

(** A writer of three bytes, a reader of two, and a close. *)
Definition exchange : list Event :=
  [EWrite (mkCall 1 false None true) (mkNow false 0) [5; 6; 7] 0; ERead (mkCall 2 true None true) (mkNow false 0) 2;
   EClose (mkPipe false true 1)].

Lemma pipe_delivers_in_order_witness :
  exists r maps sent received,
    history (fun _ => true) (fun _ => true) exchange ((make_pipe true 4096).1.1, ∅) = Some (r, maps, sent, received) /\
    ring_ok r /\ (forallb (fun e => negb (attaches e)) exchange = true -> sent = received ++ contents r).
Proof.
  apply (pipe_delivers_in_order (fun _ => true) (fun _ => true) true 4096 ∅ exchange).
  - lia.
  - apply map_Forall_empty.
  - repeat constructor; simpl; lia.
Defined.
