(* ===== verification/PipeWake.v ===== *)
(** * Atomic writes and sleepers of a pipe

    A write of at most [PIPE_BUF] bytes is all or nothing.  With one reader and one writer
    nobody sleeps without cause; with two readers, or when the pipe is resized, somebody may. *)

From S2P Require Import Prelude.
From S2P Require Import Errno.
From S2P Require Import Bytes.
From S2P Require Import Ebpf.
From S2P Require Import EbpfProof.
From S2P Require Import Pipe.
From S2P Require Import PipeProof.
From S2P Require Import PipeWait.
Import Ring.

(** ** Short writes *)

(** All of [data] is queued and the call returns, or nothing is and it does not go on. *)
Definition all_or_nothing (r : PipeRingBuffer) (data : list Z) (t : Turn Z) : Prop :=
  match t with
  | Return (inr n) r' _ =>
      n = Z.of_nat (length data) /\ contents r' = contents r ++ data \/ n = 0 /\ contents r' = contents r
  | Return (inl _) r' _ | Sleep r' _ => contents r' = contents r
  | Again _ _ _ => False
  end.

Section Atomic.
Context (alive waitable : Z -> bool).

Lemma waits_nothing c now r data : all_or_nothing r data (wait_for_room alive c now 0 r).
Proof.
  unfold wait_for_room. destruct (c_nonblock c), (n_signal now), (c_signal_as_eintr c), (c_deadline c); simpl; auto;
    repeat case_match; simpl; auto.
Qed.

Lemma must_wait_room r n : ring_ok r -> 0 < n <= PIPE_BUF -> must_wait r n 0 = false -> n <= available_write r.
Proof. intros Hok Hn. unfold must_wait. pose proof (avail_bounds r Hok). rewrite (avail_split r Hok). lia. Qed.

Lemma after_write_contents n r r1 w : after_write alive waitable n r = (r1, w) -> contents r1 = contents r.
Proof.
  unfold after_write, pop_reader, drain_poll_waiters. case_if; [|by intros [= <- _]].
  destruct (pop_waiter alive (read_waiters r)). intros [= <- _]. by apply same_queue_contents.
Qed.

(** C37: POSIX atomicity: without a filter, a write of at most [PIPE_BUF] bytes is queued in one
    turn, as one run of bytes that no other writer can come between, or not at all; from
    kernel memory as from the buffers of a user. *)
Theorem short_write_atomic c now data bufs maps r : ring_ok r -> has_filter r = false ->
  0 < Z.of_nat (length data) <= PIPE_BUF -> concat bufs = data ->
  (exists t, write_turn alive waitable c now data 0 maps r = Some (t, maps) /\ all_or_nothing r data t) /\
  (exists t bufs', write_user_turn alive waitable c now bufs 0 r = Some (inl (t, bufs')) /\ all_or_nothing r data t).
Proof.
  intros Hok Hnf Hlen Hbufs. set (n := Z.of_nat (length data)) in *. split.
  - unfold write_turn. fold n. rewrite (proj2 (Z.eqb_neq n 0)) by lia. rewrite Z.sub_0_r.
    destruct (all_read_ends_closed r); [eexists; split; [done|]; simpl; auto|].
    destruct (must_wait r n 0) eqn:Hmw; [eexists; split; [done|]; apply waits_nothing|].
    pose proof (must_wait_room r n Hok Hlen Hmw) as Hroom. rewrite Z.min_l by done.
    destruct (slice_in_range data 0 n) as [ws Hws]; [lia..|]. rewrite Hws. simpl mbind.
    apply slice_Some in Hws as (_ & _ & _ & Hwe). rewrite drop_0, take_ge in Hwe by lia. subst ws.
    apply has_filter_none in Hnf as [Hc Ha]. unfold run_filters. rewrite Hc, Ha. simpl mbind.
    rewrite take_ge by lia. destruct (write_transfers r data Hok Hroom) as (r' & -> & Ht & _). simpl mbind.
    destruct (after_write alive waitable _ r') as [r1 w] eqn:Haw. apply after_write_contents in Haw.
    eexists. split; [done|]. fold n. rewrite Z.add_0_l, Z.eqb_refl. simpl. left. split; [done|].
    rewrite Haw. by rewrite (tr_bytes _ _ _ _ Ht).
  - unfold write_user_turn. rewrite Hbufs, Hnf, Z.add_0_r. fold n. rewrite (proj2 (Z.eqb_neq n 0)) by lia.
    destruct (all_read_ends_closed r); [eexists _, _; split; [done|]; simpl; auto|].
    destruct (must_wait r n 0) eqn:Hmw; [eexists _, _; split; [done|]; apply waits_nothing|].
    pose proof (must_wait_room r n Hok Hlen Hmw) as Hroom. rewrite Z.min_l by done.
    destruct (copy_segments_spec (S (2 * length bufs)) r bufs n 0) as (bufs' & r' & -> & Ht & _);
      [done|pose proof (copy_steps_le bufs); lia|lia|rewrite Hbufs; lia|]. simpl mbind.
    rewrite Hbufs, Z.sub_0_r, take_ge in Ht by lia.
    destruct (after_write alive waitable n r') as [r1 w] eqn:Haw. apply after_write_contents in Haw.
    eexists _, _. split; [done|]. rewrite Z.add_0_l, Z.eqb_refl. simpl. left. split; [done|].
    rewrite Haw. by rewrite (tr_bytes _ _ _ _ Ht).
Qed.

End Atomic.

(** ** One reader and one writer *)

(** What a task does at the pipe: nothing, a turn is due, or it sleeps in its call. *)
Inductive Reader :=
  | RIdle
  | RDue (c : Call) (len : Z)
  | RAsleep (c : Call) (len : Z).
Inductive Writer :=
  | WIdle
  | WDue (c : Call) (data : list Z) (written : Z)
  | WAsleep (c : Call) (data : list Z) (written : Z).
Record Sys := mkSys {
  s_ring : PipeRingBuffer;
  s_maps : Ebpf.Maps;
  s_reader : Reader;
  s_writer : Writer
}.

Section Sleepers.
Context (alive waitable : Z -> bool).

(** A wakeup reaches the sleepers among [ts]. *)
Definition wake_reader (ts : list Z) (rd : Reader) : Reader :=
  match rd with RAsleep c len => if existsb (Z.eqb (c_task c)) ts then RDue c len else rd | _ => rd end.
Definition wake_writer (ts : list Z) (w : Writer) : Writer :=
  match w with WAsleep c data written => if existsb (Z.eqb (c_task c)) ts then WDue c data written else w | _ => w end.
Definition woken (w : Wakeups) : list Z := match w_direct w with Some t => [t] | None => [] end ++ w_polls w.

Definition after_read_turn (s : Sys) (c : Call) (len : Z) (t : Turn (list Z)) : Sys :=
  match t with
  | Return _ r w => mkSys r (s_maps s) RIdle (wake_writer (woken w) (s_writer s))
  | Sleep r _ => mkSys r (s_maps s) (RAsleep c len) (s_writer s)
  | Again _ r w => mkSys r (s_maps s) (RDue c len) (wake_writer (woken w) (s_writer s))
  end.
Definition after_write_turn (s : Sys) (c : Call) (data : list Z) (written : Z) (maps : Ebpf.Maps) (t : Turn Z) : Sys :=
  match t with
  | Return _ r w => mkSys r maps (wake_reader (woken w) (s_reader s)) WIdle
  | Sleep r _ => mkSys r maps (s_reader s) (WAsleep c data written)
  | Again n r w => mkSys r maps (wake_reader (woken w) (s_reader s)) (WDue c data n)
  end.
Definition after_close (s : Sys) (r : PipeRingBuffer) (ts : list Z) : Sys :=
  mkSys r (s_maps s) (wake_reader ts (s_reader s)) (wake_writer ts (s_writer s)).

(** The steps at a pipe that is not resized. *)
Inductive sys_step (reader writer : Z) : Sys -> Sys -> Prop :=
  | read_starts s c len : s_reader s = RIdle -> c_task c = reader -> 0 <= len ->
      sys_step reader writer s (mkSys (s_ring s) (s_maps s) (RDue c len) (s_writer s))
  | read_goes_on s c now len t : s_reader s = RDue c len -> read_turn alive waitable c now len (s_ring s) = Some t ->
      sys_step reader writer s (after_read_turn s c len t)
  | reader_interrupted s c len : s_reader s = RAsleep c len ->
      sys_step reader writer s (mkSys (s_ring s) (s_maps s) (RDue c len) (s_writer s))
  | write_starts s c data : s_writer s = WIdle -> c_task c = writer ->
      sys_step reader writer s (mkSys (s_ring s) (s_maps s) (s_reader s) (WDue c data 0))
  | write_goes_on s c now data written t maps : s_writer s = WDue c data written ->
      write_turn alive waitable c now data written (s_maps s) (s_ring s) = Some (t, maps) ->
      sys_step reader writer s (after_write_turn s c data written maps t)
  | writer_interrupted s c data written : s_writer s = WAsleep c data written ->
      sys_step reader writer s (mkSys (s_ring s) (s_maps s) (s_reader s) (WDue c data written))
  | fd_closed s p p' r ts : on_fd_close alive waitable p (s_ring s) = (p', r, ts) ->
      sys_step reader writer s (after_close s r ts)
  | fd_installed s p :
      sys_step reader writer s (after_close s (on_fd_install p (s_ring s)).2 [])
  | read_end_shut s p r ts : shutdown_read_end alive waitable p (s_ring s) = (r, ts) ->
      sys_step reader writer s (after_close s r ts)
  | write_end_shut s p r ts : shutdown_write_end alive waitable p (s_ring s) = (r, ts) ->
      sys_step reader writer s (after_close s r ts)
  | polled s task :
      sys_step reader writer s (after_close s (register_poll_waiter waitable (s_ring s) task) []).

Definition idle_pipe (has_cap : bool) (limit : Z) (maps : Ebpf.Maps) : Sys :=
  mkSys (make_pipe has_cap limit).1.1 maps RIdle WIdle.

(** A sleeper waits for something that is not there, and is where it is looked for. *)
Definition reader_justified (reader : Z) (r : PipeRingBuffer) (rd : Reader) : Prop :=
  match rd with
  | RIdle => True
  | RDue c _ => c_task c = reader
  | RAsleep c _ => c_task c = reader /\ reader ∈ read_waiters r /\ available_read r = 0 /\ all_write_ends_closed r = false
  end.
Definition writer_justified (writer : Z) (r : PipeRingBuffer) (w : Writer) : Prop :=
  match w with
  | WIdle => True
  | WDue c _ _ => c_task c = writer
  | WAsleep c data written =>
      c_task c = writer /\ writer ∈ write_waiters r /\
      must_wait r (Z.of_nat (length data) - written) written = true /\ all_read_ends_closed r = false
  end.
Record justified (reader writer : Z) (s : Sys) : Prop := {
  j_readers : Forall (eq reader) (read_waiters (s_ring s));
  j_writers : Forall (eq writer) (write_waiters (s_ring s));
  j_reader : reader_justified reader (s_ring s) (s_reader s);
  j_writer : writer_justified writer (s_ring s) (s_writer s)
}.

Context (reader writer : Z) (Hreader : alive reader = true) (Hwriter : alive writer = true).

Lemma Forall_filter (l : list Z) P f : Forall P l -> Forall P (List.filter f l).
Proof. induction 1; simpl; [done|]. case_if; auto. Qed.

Lemma push_waiter_only t ws : alive t = true -> Forall (eq t) ws -> Forall (eq t) (push_waiter alive ws t) /\ t ∈ push_waiter alive ws t.
Proof.
  intros Ha Hws. unfold push_waiter. destruct (existsb (Z.eqb t) (List.filter alive ws)) eqn:He.
  - split; [by apply Forall_filter|]. apply existsb_exists in He as (x & Hin & ->%Z.eqb_eq). by apply list_elem_of_In.
  - split; [apply Forall_app; split; [by apply Forall_filter|by constructor]|]. unfold vec_push. set_solver.
Qed.

(** The only waiter is popped if it waits. *)
Lemma pop_waiter_only t ws : alive t = true -> Forall (eq t) ws ->
  Forall (eq t) (pop_waiter alive ws).2 /\ (t ∈ ws -> (pop_waiter alive ws).1 = Some t).
Proof.
  intros Ha Hws. destruct Hws as [|x ws <- Hws]; simpl; [split; [done|set_solver]|]. rewrite Ha. done.
Qed.

Lemma wake_reader_justified r r' rd ts : reader_justified reader r rd ->
  (reader ∈ read_waiters r -> available_read r = 0 -> all_write_ends_closed r = false ->
     reader ∈ ts \/ reader ∈ read_waiters r' /\ available_read r' = 0 /\ all_write_ends_closed r' = false) ->
  reader_justified reader r' (wake_reader ts rd).
Proof.
  intros Hj H. destruct rd as [|c len|c len]; simpl in *; [done..|]. destruct Hj as (Hc & H1 & H2 & H3).
  destruct (existsb (Z.eqb (c_task c)) ts) eqn:He; [done|]. destruct (H H1 H2 H3) as [Hin|?]; [|done]. exfalso.
  assert (existsb (Z.eqb (c_task c)) ts = true); [|congruence]. apply existsb_exists. exists reader.
  split; [by apply list_elem_of_In|]. by rewrite Hc, Z.eqb_refl.
Qed.

Lemma wake_writer_justified r r' w ts : writer_justified writer r w ->
  (writer ∈ write_waiters r -> all_read_ends_closed r = false ->
     writer ∈ ts \/ writer ∈ write_waiters r' /\ available_write r' = available_write r /\ all_read_ends_closed r' = false) ->
  writer_justified writer r' (wake_writer ts w).
Proof.
  intros Hj H. destruct w as [|c data n|c data n]; simpl in *; [done..|]. destruct Hj as (Hc & H1 & H2 & H3).
  destruct (existsb (Z.eqb (c_task c)) ts) eqn:He; [done|].
  destruct (H H1 H3) as [Hin|(? & Ha & ?)]; [exfalso|simpl; split_and!; [done..| |done]; unfold must_wait in *; by rewrite Ha].
  assert (existsb (Z.eqb (c_task c)) ts = true); [|congruence]. apply existsb_exists. exists writer.
  split; [by apply list_elem_of_In|]. by rewrite Hc, Z.eqb_refl.
Qed.

(** What an operation leaves of the part of a ring that readers, and writers, sleep on, or
    whom it wakes instead. *)
Definition readers_kept (r r' : PipeRingBuffer) (ts : list Z) : Prop :=
  read_waiters r' = read_waiters r /\ available_read r' = available_read r /\
    (all_write_ends_closed r = false -> all_write_ends_closed r' = false) \/
  Forall (eq reader) (read_waiters r') /\ (reader ∈ read_waiters r -> reader ∈ ts).
Definition writers_kept (r r' : PipeRingBuffer) (ts : list Z) : Prop :=
  write_waiters r' = write_waiters r /\ available_write r' = available_write r /\
    (all_read_ends_closed r = false -> all_read_ends_closed r' = false) \/
  Forall (eq writer) (write_waiters r') /\ (writer ∈ write_waiters r -> writer ∈ ts).

Lemma readers_kept_justified r r' ts rd : readers_kept r r' ts -> Forall (eq reader) (read_waiters r) ->
  reader_justified reader r rd -> Forall (eq reader) (read_waiters r') /\ reader_justified reader r' (wake_reader ts rd).
Proof.
  intros [(Hw & Ha & Hc)|[Hw Ht]] Hf Hj; (split; [by rewrite ?Hw|]); (eapply wake_reader_justified; [exact Hj|]); intros H1 H2 H3.
  - right. rewrite Hw, Ha. auto.
  - left. auto.
Qed.
Lemma writers_kept_justified r r' ts w : writers_kept r r' ts -> Forall (eq writer) (write_waiters r) ->
  writer_justified writer r w -> Forall (eq writer) (write_waiters r') /\ writer_justified writer r' (wake_writer ts w).
Proof.
  intros [(Hw & Ha & Hc)|[Hw Ht]] Hf Hj; (split; [by rewrite ?Hw|]); (eapply wake_writer_justified; [exact Hj|]); intros H1 H2.
  - right. rewrite Hw, Ha. auto.
  - left. auto.
Qed.

Lemma wake_reader_nil rd : wake_reader [] rd = rd.
Proof. by destruct rd. Qed.
Lemma wake_writer_nil w : wake_writer [] w = w.
Proof. by destruct w. Qed.

Lemma close_justified s r ts : justified reader writer s -> readers_kept (s_ring s) r ts -> writers_kept (s_ring s) r ts ->
  justified reader writer (after_close s r ts).
Proof.
  intros [Hr Hw Hjr Hjw] Kr Kw. destruct (readers_kept_justified _ _ _ _ Kr Hr Hjr), (writers_kept_justified _ _ _ _ Kw Hw Hjw).
  by split.
Qed.

Lemma filter_alive t (ws : list Z) : alive t = true -> t ∈ ws -> t ∈ List.filter alive ws.
Proof. intros Ha Hin. apply list_elem_of_In, filter_In. split; [by apply list_elem_of_In|done]. Qed.

Lemma fd_close_kept p p' r r' ts : on_fd_close alive waitable p r = (p', r', ts) -> readers_kept r r' ts /\ writers_kept r r' ts.
Proof.
  unfold on_fd_close, drain_readers, drain_writers, drain_poll_waiters. case_if; [intros [= _ <- <-]; split; by left|].
  destruct (fd_refs p =? 0), p as [[] [] ?]; simpl; intros [= _ <- <-]; split; simpl;
    first [by left | right; split; [constructor|intros Hin%(filter_alive _ _ Hreader); set_solver]
          | right; split; [constructor|intros Hin%(filter_alive _ _ Hwriter); set_solver]].
Qed.

Lemma shutdown_kept p r r' ts :
  shutdown_read_end alive waitable p r = (r', ts) \/ shutdown_write_end alive waitable p r = (r', ts) ->
  readers_kept r r' ts /\ writers_kept r r' ts.
Proof.
  unfold shutdown_read_end, shutdown_write_end, drain_readers, drain_writers, drain_poll_waiters.
  intros [H|H]; revert H; (case_if; [intros [= <- <-]; split; by left|]); intros [= <- <-]; split; simpl;
    first [by left | right; split; [constructor|intros Hin%(filter_alive _ _ Hreader); set_solver]
          | right; split; [constructor|intros Hin%(filter_alive _ _ Hwriter); set_solver]].
Qed.

Lemma install_kept p r : readers_kept r (on_fd_install p r).2 [] /\ writers_kept r (on_fd_install p r).2 [].
Proof.
  unfold on_fd_install. case_if; [|split; by left]. split; left; (split; [done|split; [done|]]);
    unfold all_write_ends_closed, all_read_ends_closed; simpl; destruct (p_readable p), (p_writable p); simpl; try done;
    intros [_ ?]%orb_false_iff; done.
Qed.

Lemma remove_waiter_only t ws : Forall (eq t) ws -> Forall (eq t) (remove_waiter alive ws t).
Proof. apply Forall_filter. Qed.

Lemma rest_waiters r r' : rest r' = rest r -> read_waiters r' = read_waiters r /\ write_waiters r' = write_waiters r.
Proof. unfold rest. intros [=]. done. Qed.
Lemma read_into_slice_rest r len bytes r' : read_into_slice r len = Some (bytes, r') -> rest r' = rest r.
Proof. unfold read_into_slice. case_if; [by intros [= _ <-]|]. destruct (queued r _); [|done]. by intros [= _ <-]. Qed.
Lemma write_bytes_rest r src n r' : write_from_slice_bytes r src = Some (n, r') ->
  rest r' = rest r /\ (0 <= available_write r -> 0 <= n) /\ n <= Z.of_nat (length src) /\ (n = 0 -> r' = r).
Proof.
  unfold write_from_slice_bytes. case_if; [intros [= <- <-]; split_and!; (done || lia)|]. destruct (slice src 0 _) as [a|]; [|done]. simpl.
  destruct (overwrite (backing r) _ a) as [d|]; [|done]. simpl. destruct (if _ <? _ then _ else _) as [d'|]; [|done].
  simpl. intros [= <- <-]. split_and!; [done|lia|lia|intros; exfalso; lia].
Qed.

(** The turn of a reader leaves the writer justified. *)
Lemma read_turn_justified s c now len t : justified reader writer s -> s_reader s = RDue c len ->
  read_turn alive waitable c now len (s_ring s) = Some t -> justified reader writer (after_read_turn s c len t).
Proof.
  destruct s as [r maps rd w]. simpl. intros [Hr Hw Hjr Hjw] -> Ht. simpl in *. unfold read_turn in Ht.
  destruct (len =? 0); [injection Ht as <-; split; simpl; rewrite ?wake_writer_nil; done|].
  destruct (Z.eqb_spec (available_read r) 0) as [Ha|Ha].
  - injection Ht as <-. unfold wait_for_data. rewrite Hjr.
    assert (justified reader writer (mkSys (remove_reader alive r reader) maps RIdle (wake_writer [] w))) as Hgone.
    { split; simpl; [by apply remove_waiter_only|done|done|by rewrite wake_writer_nil]. }
    destruct (all_write_ends_closed r) eqn:Hc; [exact Hgone|].
    destruct (push_waiter_only reader (read_waiters r) Hreader Hr) as [Hp1 Hp2].
    repeat case_match; try exact Hgone; by split.
  - destruct (read_into_slice r _) as [[bytes r1]|] eqn:Hrd; [|done]. simpl in Ht. injection Ht as <-.
    apply read_into_slice_rest, rest_waiters in Hrd as [Hrw Hww].
    unfold after_read, pop_writer, drain_poll_waiters.
    destruct (pop_waiter_only writer (write_waiters r1) Hwriter) as [Hp1 Hp2]; [congruence|].
    destruct (pop_waiter alive (write_waiters r1)) as [wt ws]. simpl in *. split; simpl; [congruence|done|done|].
    eapply wake_writer_justified; [exact Hjw|]. intros Hin _. left. rewrite <- Hww in Hin. rewrite (Hp2 Hin).
    unfold woken. set_solver.
Qed.

(** The end of a turn of a writer that queued [n] bytes. *)
Lemma after_write_kept n r r1 r2 w : rest r1 = rest r -> 0 <= n -> (n = 0 -> r1 = r) ->
  Forall (eq reader) (read_waiters r) -> after_write alive waitable n r1 = (r2, w) ->
  readers_kept r r2 (woken w) /\ write_waiters r2 = write_waiters r.
Proof.
  intros Hrest Hn H0 Hr. unfold after_write. destruct (Z.ltb_spec 0 n).
  - apply rest_waiters in Hrest as [Hrw Hww].
    unfold pop_reader, drain_poll_waiters. destruct (pop_waiter_only reader (read_waiters r1) Hreader) as [Hp1 Hp2]; [congruence|].
    destruct (pop_waiter alive (read_waiters r1)) as [rt rs]. simpl in *. intros [= <- <-]. simpl. split; [|done].
    right. split; [done|]. intros Hin. rewrite <- Hrw in Hin. rewrite (Hp2 Hin). unfold woken. set_solver.
  - rewrite H0 by lia. intros [= <- <-]. split; [by left|done].
Qed.

Lemma write_turn_justified s c now data written t maps : ring_ok (s_ring s) -> justified reader writer s -> s_writer s = WDue c data written ->
  write_turn alive waitable c now data written (s_maps s) (s_ring s) = Some (t, maps) ->
  justified reader writer (after_write_turn s c data written maps t).
Proof.
  destruct s as [r ms rd w]. simpl. intros Hok [Hr Hw Hjr Hjw] -> Ht. simpl in *. unfold write_turn in Ht.
  destruct (Z.of_nat (length data) =? 0); [injection Ht as <- <-; split; simpl; rewrite ?wake_reader_nil; done|].
  assert (forall ms', justified reader writer (mkSys (remove_writer alive r writer) ms' (wake_reader [] rd) WIdle)) as Hgone.
  { intros ms'. split; simpl; [done|by apply remove_waiter_only|by rewrite wake_reader_nil|done]. }
  rewrite Hjw in Ht. destruct (all_read_ends_closed r) eqn:Hc; [injection Ht as <- <-; apply Hgone|].
  destruct (must_wait r _ written) eqn:Hm.
  { injection Ht as <- <-. unfold wait_for_room. rewrite Hjw.
    destruct (push_waiter_only writer (write_waiters r) Hwriter Hw) as [Hp1 Hp2].
    repeat case_match; try apply Hgone; by split. }
  destruct (slice data written _) as [ws|]; [|done]. simpl in Ht.
  destruct (run_filters ms r ws) as [[v ms']|]; [|done]. simpl in Ht.
  destruct v as [[n truncated]|]; [|injection Ht as <- <-; apply Hgone].
  destruct (write_from_slice_bytes r _) as [[k r1]|] eqn:Hwr; [|done]. simpl in Ht.
  apply write_bytes_rest in Hwr as (Hrest & Hk & _ & H0).
  destruct (after_write alive waitable k r1) as [r2 wk] eqn:Haw.
  destruct (after_write_kept k r r1 r2 wk Hrest) as [Kr Kw]; try done.
  { apply Hk. pose proof (avail_bounds r Hok). rewrite (avail_split r Hok). lia. }
  destruct (readers_kept_justified _ _ _ _ Kr Hr Hjr) as [? ?].
  injection Ht as <- <-. repeat case_match; split; simpl; try done; by rewrite Kw.
Qed.

Lemma sys_step_justified s s' : ring_ok (s_ring s) -> sys_step reader writer s s' ->
  justified reader writer s -> justified reader writer s'.
Proof.
  intros Hok Hs Hj. destruct Hs as [s c len Hi Hc _|s c now len t Hd Ht|s c len Ha|s c data Hi Hc|s c now data n t maps Hd Ht|s c data n Ha
    |s p p' r ts H|s p|s p r ts H|s p r ts H|s task].
  - destruct Hj. by split.
  - by eapply read_turn_justified.
  - destruct Hj as [? ? Hjr ?]. rewrite Ha in Hjr. destruct Hjr. by split.
  - destruct Hj. by split.
  - by eapply write_turn_justified.
  - destruct Hj as [? ? ? Hjw]. rewrite Ha in Hjw. destruct Hjw. by split.
  - apply fd_close_kept in H as [? ?]. by apply close_justified.
  - destruct (install_kept p (s_ring s)). by apply close_justified.
  - destruct (shutdown_kept p (s_ring s) r ts) as [? ?]; [by left|]. by apply close_justified.
  - destruct (shutdown_kept p (s_ring s) r ts) as [? ?]; [by right|]. by apply close_justified.
  - apply close_justified; [done|by left|by left].
Qed.

(** The pipe stays in order on the way. *)
Record sys_ok (s : Sys) : Prop := {
  so_ring : ring_ok (s_ring s);
  so_filters : filters_ok (s_ring s) (s_maps s);
  so_reader : match s_reader s with RIdle => True | RDue _ len | RAsleep _ len => 0 <= len end;
  so_writer : match s_writer s with
              | WIdle => True
              | WDue _ data n | WAsleep _ data n => 0 <= n <= Z.of_nat (length data)
              end
}.

Lemma write_turn_progress c now data written maps r n r' w maps' : ring_ok r -> 0 <= written <= Z.of_nat (length data) ->
  write_turn alive waitable c now data written maps r = Some (Again n r' w, maps') -> 0 <= n <= Z.of_nat (length data).
Proof.
  intros Hok Hw Ht. pose proof (avail_bounds r Hok). pose proof (avail_split r Hok). unfold write_turn in Ht.
  do 2 (case_if; [done|]). destruct (must_wait r _ written); [unfold wait_for_room in Ht; by repeat case_match|].
  destruct (slice data written _) as [ws|] eqn:Hs; [|done]. apply slice_length in Hs. simpl in Ht.
  destruct (run_filters maps r ws) as [[[[m truncated]|] ms']|]; [|done..]. simpl in Ht.
  destruct (write_from_slice_bytes r _) as [[k r1]|] eqn:Hwr; [|done]. simpl in Ht.
  apply write_bytes_rest in Hwr as (_ & Hk & Hk' & _). rewrite length_take in Hk'.
  destruct (after_write alive waitable k r1) as [r2 wk]. repeat case_match; simplify_eq; lia.
Qed.

Lemma woken_reader_ok rd ts : match rd with RIdle => True | RDue _ len | RAsleep _ len => 0 <= len end ->
  match wake_reader ts rd with RIdle => True | RDue _ len | RAsleep _ len => 0 <= len end.
Proof. destruct rd; simpl; [done..|]. by case_if. Qed.
Lemma woken_writer_ok w ts :
  match w with WIdle => True | WDue _ data n | WAsleep _ data n => 0 <= n <= Z.of_nat (length data) end ->
  match wake_writer ts w with WIdle => True | WDue _ data n | WAsleep _ data n => 0 <= n <= Z.of_nat (length data) end.
Proof. destruct w; simpl; [done..|]. by case_if. Qed.

Lemma sys_step_ok s s' : sys_step reader writer s s' -> sys_ok s -> sys_ok s'.
Proof.
  intros Hs [Hok Hf Hr Hw].
  assert (forall e r' ts, event_ok (s_maps s) e ->
    event_step alive waitable e (s_ring s, s_maps s) = Some (r', s_maps s, [], []) -> sys_ok (after_close s r' ts)) as Hclose.
  { intros e r' ts He Hes. destruct (event_stepped alive waitable e _ _ Hok Hf He) as (r1 & m1 & i & o & Hes' & [? ? _ _]).
    rewrite Hes in Hes'. injection Hes' as <- <- _ _. split; [done|done|by apply woken_reader_ok|by apply woken_writer_ok]. }
  destruct Hs as [s c len Hi Hc Hl|s c now len t Hd Ht|s c len Ha|s c data Hi Hc|s c now data n t maps Hd Ht|s c data n Ha
    |s p p' r ts H|s p|s p r ts H|s p r ts H|s task].
  - by split.
  - rewrite Hd in Hr. destruct (read_turn_spec alive waitable c now len (s_ring s) Hok Hr) as (t' & Ht' & [Hok' _ [? ?]]).
    rewrite Ht in Ht'. injection Ht' as <-.
    assert (filters_ok (turn_ring t) (s_maps s)) by (eapply filters_ok_kept; [done|apply Hf|reflexivity|done|done]).
    destruct t; split; simpl in *; (done || by apply woken_writer_ok).
  - rewrite Ha in Hr. by split.
  - split; simpl; (done || lia).
  - rewrite Hd in Hw. destruct (write_turn_spec alive waitable c now data n (s_maps s) (s_ring s) Hok Hf Hw)
      as (t' & maps' & Ht' & (inp & [Hok' _ _] & _) & Hf' & _).
    rewrite Ht in Ht'. injection Ht' as <- <-.
    clear Hclose. destruct t; split; simpl in *; try done; try by apply woken_reader_ok.
    eapply write_turn_progress; [exact Hok|exact Hw|exact Ht].
  - rewrite Ha in Hw. by split.
  - apply (Hclose (EClose p)); [done|]. simpl. by rewrite H.
  - by apply (Hclose (EInstall p)).
  - apply (Hclose (EShutdownRead p)); [done|]. simpl. by rewrite H.
  - apply (Hclose (EShutdownWrite p)); [done|]. simpl. by rewrite H.
  - by apply (Hclose (EPoll task)).
Qed.

(** C16: No lost wakeup: with one reader and one writer at a pipe that is not resized, in
    whatever order they take their turns and the ends are closed, a reader only sleeps
    while there is nothing to read and the other end is open, a writer only while there is
    no room for it and the other end is open. *)
Theorem sleepers_justified has_cap limit maps s : PIPE_BUF <= limit -> maps_ok maps ->
  rtc (sys_step reader writer) (idle_pipe has_cap limit maps) s ->
  (forall c len, s_reader s = RAsleep c len -> contents (s_ring s) = [] /\ all_write_ends_closed (s_ring s) = false) /\
  (forall c data n, s_writer s = WAsleep c data n ->
     must_wait (s_ring s) (Z.of_nat (length data) - n) n = true /\ all_read_ends_closed (s_ring s) = false).
Proof.
  intros Hl Hm Hrun.
  assert (sys_ok s /\ justified reader writer s) as [Hok [_ _ Hjr Hjw]].
  { revert s Hrun. apply rtc_ind_r.
    - split; [|split; simpl; (done || constructor)]. split; try done; simpl.
      eapply same_queue_ok; [|by apply (new_ok has_cap limit)]. done.
    - intros s1 s2 _ Hs [Hok Hj]. split; [by eapply sys_step_ok|]. eapply sys_step_justified; [apply Hok|done|done]. }
  split.
  - intros c len Hr. rewrite Hr in Hjr. destruct Hjr as (_ & _ & Ha & Hc). split; [|done].
    unfold contents. by rewrite Ha.
  - intros c data n Hw. rewrite Hw in Hjw. by destruct Hjw as (_ & _ & ? & ?).
Qed.

End Sleepers.

(** ** Sleepers left behind *)

Definition everyone : Z -> bool := fun _ => true.
Definition calls (task : Z) : Call := mkCall task false None false.
Definition calm : Now := mkNow false 0.
Definition small_pipe : PipeRingBuffer := (make_pipe false PIPE_BUF).1.1.

(** Readers 1 and 2 sleep on an empty pipe, a writer queues two bytes, the reader that is
    woken takes one: who is woken each time, what is left, and who still sleeps. *)
Definition two_readers : option (list Z * list Z * list Z * list Z) :=
  t1 ← read_turn everyone everyone (calls 1) calm 1 small_pipe;
  t2 ← read_turn everyone everyone (calls 2) calm 1 (turn_ring t1);
  '(t3, _) ← write_turn everyone everyone (calls 3) calm [10; 20] 0 ∅ (turn_ring t2);
  t4 ← read_turn everyone everyone (calls 1) calm 1 (turn_ring t3);
  match t1, t2, t3, t4 with
  | Sleep _ _, Sleep _ _, Return _ _ w, Return _ r w' => Some (woken w, woken w', contents r, read_waiters r)
  | _, _, _, _ => None
  end.

(** A write wakes one reader however much it queues, and a reader that leaves bytes behind
    wakes no other: the second reader sleeps on although there is a byte for it. *)
Theorem second_reader_left_asleep : two_readers = Some ([1], [], [20], [2]).
Proof. vm_compute. reflexivity. Qed.

(** A writer of 4097 bytes fills a pipe of 4096 and sleeps; the pipe is made twice as
    large: who is woken, the room there is then, and who still sleeps. *)
Definition resized_pipe : option (list Z * Z * list Z) :=
  let data := replicate 4097 7 in
  '(t1, maps) ← write_turn everyone everyone (calls 2) calm data 0 ∅ small_pipe;
  match t1 with
  | Again n r _ =>
      '(t2, _) ← write_turn everyone everyone (calls 2) calm data n maps r;
      match t2 with
      | Sleep r _ => '(_, r, ts) ← resize everyone true PIPE_BUF r 8192; Some (ts, available_write r, write_waiters r)
      | _ => None
      end
  | _ => None
  end.

(** Resizing wakes pollers only: the writer sleeps on although there is room for it. *)
Theorem resize_leaves_writer_asleep : resized_pipe = Some ([], 4096, [2]).
Proof. vm_compute. reflexivity. Qed.

(** ** Instances *)

Lemma short_write_atomic_witness :
  (exists t, write_turn everyone everyone (calls 3) calm [1; 2; 3] 0 ∅ small_pipe = Some (t, ∅) /\
     all_or_nothing small_pipe [1; 2; 3] t) /\
  (exists t bufs', write_user_turn everyone everyone (calls 3) calm [[1]; []; [2; 3]] 0 small_pipe = Some (inl (t, bufs')) /\
     all_or_nothing small_pipe [1; 2; 3] t).
Proof.
  apply (short_write_atomic everyone everyone (calls 3) calm [1; 2; 3] [[1]; []; [2; 3]] ∅ small_pipe).
  - eapply same_queue_ok; [|apply (new_ok false PIPE_BUF); lia]. done.
  - reflexivity.
  - simpl. lia.
  - reflexivity.
Defined.

(** A reader asleep on an empty pipe. *)
Definition asleep : Sys := mkSys (push_reader everyone small_pipe 1) ∅ (RAsleep (calls 1) 8) WIdle.

Lemma sleepers_justified_witness : contents (s_ring asleep) = [] /\ all_write_ends_closed (s_ring asleep) = false.
Proof.
  apply (sleepers_justified everyone everyone 1 2 eq_refl eq_refl false PIPE_BUF ∅ asleep) with (c := calls 1) (len := 8).
  - lia.
  - apply map_Forall_empty.
  - eapply rtc_l; [apply (read_starts _ _ _ _ _ (calls 1) 8); [reflexivity|reflexivity|lia]|].
    eapply rtc_l; [apply (read_goes_on _ _ _ _ _ (calls 1) calm 8 (Sleep (push_reader everyone small_pipe 1) None)); reflexivity|].
    apply rtc_refl.
  - reflexivity.
Defined.
