(* ===== verification/Files.v ===== *)
(** * File descriptor tables

    [task/files_struct.rs]: the table of open files of a process.  A file is its identity;
    what an operation tells the files ([on_fd_install], [on_fd_close]) is part of its
    result.  A descriptor, an index of a [Vec], is a [nat]. *)

From S2P Require Import Prelude.

Abbreviation FD_CLOEXEC := 1.
Abbreviation STDIN := 0.
Abbreviation STDOUT := 1.

Record FilesStruct := mkFiles {
  fd_table : list (option Z);
  fd_flags : list Z;
  next_fd_hint : nat;
  close_cursor : option nat;
  fd_refs_closed : bool
}.
#[export] Instance fields_FilesStruct : Fields FilesStruct := fun fs =>
  mkFiles (fd_table fs) (fd_flags fs) (next_fd_hint fs) (close_cursor fs) (fd_refs_closed fs).

(** A descriptor of a file has come or gone. *)
Inductive FdEvent :=
  | Installed (file : Z)
  | Closed (file : Z).

Module Files.

(** [Vec::resize]. *)
Definition resize_vec {A} (v : list A) (n : nat) (x : A) : list A := take n v ++ replicate (n - length v) x.

(** An assignment to an element; [None] is the panic of an index out of range. *)
Definition assign {A} (v : list A) (i : nat) (x : A) : option (list A) :=
  if bool_decide (i < length v)%nat then Some (<[i := x]> v) else None.

Definition new : FilesStruct := mkFiles [] [] 0 None false.
Definition with_stdio : FilesStruct :=
  mkFiles [Some STDIN; Some STDOUT; Some STDOUT] (replicate 3 0) 3 None false.

Definition get_file (fs : FilesStruct) (fd : nat) : option Z := mjoin (fd_table fs !! fd).
Definition get_flags (fs : FilesStruct) (fd : nat) : Z := unwrap_or (fd_flags fs !! fd) 0.
Definition get_file_and_flags (fs : FilesStruct) (fd : nat) : option (Z * Z) :=
  file ← get_file fs fd; Some (file, get_flags fs fd).
Definition is_fd_open (fs : FilesStruct) (fd : nat) : bool :=
  match fd_table fs !! fd with Some (Some _) => true | _ => false end.

(** [get_poll_snapshot]; [fixed_poll_mask file] is the mask of a file that is always ready. *)
Definition get_poll_snapshot (fixed_poll_mask : Z -> option Z) (fs : FilesStruct) (fd : nat)
    : option (option Z * option Z * Z) :=
  file ← get_file fs fd;
  Some (match fixed_poll_mask file with
        | Some mask => (None, Some mask, get_flags fs fd)
        | None => (Some file, None, get_flags fs fd)
        end).

(** [effective_len]: without the empty slots at the end. *)
Fixpoint effective_len_loop (fs : FilesStruct) (len : nat) : nat :=
  match len with
  | O => O
  | S idx => if is_fd_open fs idx || negb (get_flags fs idx =? 0) then len else effective_len_loop fs idx
  end.
Definition effective_len (fs : FilesStruct) : nat := effective_len_loop fs (length (fd_table fs)).

Definition trim (fs : FilesStruct) : FilesStruct :=
  let len := effective_len fs in
  fs {{ fd_table := take len (fd_table fs); fd_flags := take len (fd_flags fs);
        next_fd_hint := if bool_decide (len < next_fd_hint fs)%nat then len else next_fd_hint fs }}.

Definition ensure_flags_len (fs : FilesStruct) : FilesStruct :=
  if bool_decide (length (fd_flags fs) < length (fd_table fs))%nat
  then fs {{ fd_flags := resize_vec (fd_flags fs) (length (fd_table fs)) 0 }} else fs.

Definition snapshot_fd_state (fs : FilesStruct) : list (option Z) * list Z :=
  let len := effective_len fs in
  let table := take len (fd_table fs) in
  let flags := take len (fd_flags fs) in
  (table, if bool_decide (length flags < length table)%nat then resize_vec flags (length table) 0 else flags).

Definition clone_private (fs : FilesStruct) : FilesStruct * list FdEvent :=
  let (table, flags) := snapshot_fd_state fs in
  (mkFiles table flags (Nat.min (next_fd_hint fs) (length table)) None false, map Installed (omap id table)).

Definition iter_files_snapshot (fs : FilesStruct) : list (nat * Z) :=
  omap (fun '(fd, file) => f ← file; Some (fd, f)) (imap pair (fd_table fs)).

(** The first empty slot of a list that starts at descriptor [fd]. *)
Fixpoint find_free (slots : list (option Z)) (fd : nat) : option nat :=
  match slots with
  | [] => None
  | None :: _ => Some fd
  | Some _ :: slots => find_free slots (S fd)
  end.

Definition alloc_fd (fs : FilesStruct) (limit : nat) : option (option nat * FilesStruct) :=
  let start := Nat.min (next_fd_hint fs) (length (fd_table fs)) in
  match find_free (drop start (fd_table fs)) start with
  | Some fd =>
      if bool_decide (limit <= fd)%nat then Some (None, fs)
      else
        let fs := ensure_flags_len fs in
        flags ← assign (fd_flags fs) fd 0;
        Some (Some fd, fs {{ fd_flags := flags; next_fd_hint := S fd }})
  | None =>
      if bool_decide (limit <= length (fd_table fs))%nat then Some (None, fs)
      else
        let fs := fs {{ fd_table := vec_push (fd_table fs) None; fd_flags := vec_push (fd_flags fs) 0 }} in
        let fd := (length (fd_table fs) - 1)%nat in
        Some (Some fd, fs {{ next_fd_hint := S fd }})
  end.

Definition install_fd (fs : FilesStruct) (file flags : Z) (limit : nat)
    : option (option nat * FilesStruct * list FdEvent) :=
  let fs := fs {{ close_cursor := None }} in
  '(r, fs) ← alloc_fd fs limit;
  match r with
  | None => Some (None, fs, [])
  | Some fd =>
      table ← assign (fd_table fs) fd (Some file);
      fl ← assign (fd_flags fs) fd flags;
      Some (Some fd, fs {{ fd_table := table; fd_flags := fl }}, [Installed file])
  end.

(** [on_fd_close] of a file, unless the descriptors are closed already. *)
Definition close_events (fs : FilesStruct) (file : option Z) : list FdEvent :=
  match file with
  | Some f => if fd_refs_closed fs then [] else [Closed f]
  | None => []
  end.

(** The hint moves over open descriptors. *)
Fixpoint advance_hint (slots : list (option Z)) (hint : nat) : nat :=
  match slots with
  | Some _ :: slots => advance_hint slots (S hint)
  | _ => hint
  end.

(** [replace_fd_at]: [None] inside when the descriptor is beyond the limit. *)
Definition replace_fd_at (fs : FilesStruct) (fd : nat) (file flags : Z) (limit : nat)
    : option (option (option Z) * FilesStruct * list FdEvent) :=
  if bool_decide (limit <= fd)%nat then Some (None, fs, [])
  else
    let fs := fs {{ close_cursor := None }} in
    let fs := if bool_decide (length (fd_table fs) <= fd)%nat
              then fs {{ fd_table := resize_vec (fd_table fs) (S fd) None; fd_flags := resize_vec (fd_flags fs) (S fd) 0 }}
              else ensure_flags_len fs in
    old ← fd_table fs !! fd;
    table ← assign (fd_table fs) fd (Some file);
    fl ← assign (fd_flags fs) fd flags;
    let events := close_events fs old ++ [Installed file] in
    let fs := fs {{ fd_table := table; fd_flags := fl }} in
    Some (Some old,
          fs {{ next_fd_hint := if Nat.eqb fd (next_fd_hint fs)
                                then advance_hint (drop (next_fd_hint fs) table) (next_fd_hint fs)
                                else next_fd_hint fs }}, events).

Definition install_fd_at (fs : FilesStruct) (fd : nat) (file flags : Z) (limit : nat)
    : option (bool * FilesStruct * list FdEvent) :=
  '(r, fs, events) ← replace_fd_at fs fd file flags limit;
  Some (bool_decide (is_Some r), fs, events).

Definition clear_fd (fs : FilesStruct) (fd : nat) : option (option Z * FilesStruct * list FdEvent) :=
  if bool_decide (length (fd_table fs) <= fd)%nat then Some (None, fs, [])
  else
    file ← fd_table fs !! fd;
    let events := close_events fs file in
    let fs := ensure_flags_len (fs {{ fd_table := <[fd := None]> (fd_table fs) }}) in
    flags ← assign (fd_flags fs) fd 0;
    let fs := fs {{ fd_flags := flags; close_cursor := None;
                    next_fd_hint := match file with Some _ => Nat.min (next_fd_hint fs) fd | None => next_fd_hint fs end }} in
    Some (file, trim fs, events).

Definition set_flags (fs : FilesStruct) (fd : nat) (flags : Z) : option (bool * FilesStruct) :=
  if negb (is_fd_open fs fd) then Some (false, fs)
  else
    let fs := ensure_flags_len fs in
    fl ← assign (fd_flags fs) fd flags;
    Some (true, fs {{ fd_flags := fl }}).

(** [close_cloexec_fds]: one slot of the pass over the flags, and the pass. *)
Definition cloexec_slot (fs : FilesStruct) (idx : nat) : option (FilesStruct * list FdEvent) :=
  if Z.land (get_flags fs idx) FD_CLOEXEC =? 0 then Some (fs, [])
  else
    file ← fd_table fs !! idx;
    Some (fs {{ fd_table := <[idx := None]> (fd_table fs); fd_flags := <[idx := 0]> (fd_flags fs);
                next_fd_hint := Nat.min (next_fd_hint fs) idx }}, close_events fs file).
Fixpoint cloexec_loop (idxs : list nat) (fs : FilesStruct) : option (FilesStruct * list FdEvent) :=
  match idxs with
  | [] => Some (fs, [])
  | idx :: idxs =>
      '(fs, ev) ← cloexec_slot fs idx;
      '(fs, evs) ← cloexec_loop idxs fs;
      Some (fs, ev ++ evs)
  end.
Definition close_cloexec_fds (fs : FilesStruct) : option (FilesStruct * list FdEvent) :=
  let fs := ensure_flags_len fs in
  '(fs, events) ← cloexec_loop (seq 0 (length (fd_flags fs))) fs;
  Some (trim fs, events).

Definition close_all_fd_refs (fs : FilesStruct) : FilesStruct * list FdEvent :=
  if fd_refs_closed fs then (fs, [])
  else (fs {{ fd_refs_closed := true }}, map Closed (omap id (fd_table fs))).

(** [take_file_close_batch]: up to [limit] files from the cursor on; [fuel] is the number
    of slots. *)
Fixpoint batch_loop (fuel : nat) (fs : FilesStruct) (cursor limit : nat) (files : list Z) (events : list FdEvent)
    : FilesStruct * nat * list Z * list FdEvent :=
  match fuel with
  | O => (fs, cursor, files, events)
  | S fuel =>
      if bool_decide (cursor < length (fd_table fs) /\ length files < limit)%nat then
        let file := get_file fs cursor in
        let events' := close_events fs file in
        let fs := fs {{ fd_table := <[cursor := None]> (fd_table fs); fd_flags := <[cursor := 0]> (fd_flags fs) }} in
        batch_loop fuel fs (S cursor) limit
          (files ++ match file with Some f => [f] | None => [] end) (events ++ events')
      else (fs, cursor, files, events)
  end.
Definition take_file_close_batch (fs : FilesStruct) (limit : nat) : list Z * FilesStruct * list FdEvent :=
  if Nat.eqb limit 0 then ([], fs, [])
  else
    let '(fs, cursor, files, events) :=
      batch_loop (length (fd_table fs)) fs (unwrap_or (close_cursor fs) 0%nat) limit [] [] in
    let fs := if bool_decide (length (fd_table fs) <= cursor)%nat
              then fs {{ fd_table := []; fd_flags := []; next_fd_hint := 0%nat; close_cursor := None }}
              else fs {{ close_cursor := Some cursor }} in
    (files, fs, events).

End Files.
