(* ===== verification/FilesProof.v ===== *)
(** * Descriptor tables are maps from descriptors to files

    Each operation of [task/files_struct.rs] as the intended change of the map from
    descriptors to files and flags: new descriptors are the lowest free ones, nothing
    panics, and the files are told of every descriptor that comes and goes. *)

From S2P Require Import Prelude.
From S2P Require Import Files.
Import Files.

(** The flags are beside the files, closed descriptors have none, and all descriptors
    below the hint are open. *)
Record files_ok (fs : FilesStruct) : Prop := {
  fo_len : length (fd_flags fs) = length (fd_table fs);
  fo_flags : forall fd, is_fd_open fs fd = false -> get_flags fs fd = 0;
  fo_hint : forall fd, (fd < next_fd_hint fs)%nat -> is_fd_open fs fd = true
}.

(** The map a table stands for. *)
Definition view (fs : FilesStruct) (fd : nat) : option (Z * Z) := get_file_and_flags fs fd.

Lemma view_open fs fd : is_fd_open fs fd = bool_decide (is_Some (view fs fd)).
Proof.
  unfold view, get_file_and_flags, get_file, is_fd_open. by destruct (fd_table fs !! fd) as [[f|]|].
Qed.

Lemma open_lt fs fd : is_fd_open fs fd = true -> (fd < length (fd_table fs))%nat.
Proof. unfold is_fd_open. intros H. destruct (fd_table fs !! fd) eqn:E; [by eapply lookup_lt_Some|done]. Qed.

Lemma assign_Some {A} (v : list A) i x : (i < length v)%nat -> assign v i x = Some (<[i := x]> v).
Proof. intros. unfold assign. by rewrite bool_decide_true. Qed.

Lemma ensure_flags_ok fs : length (fd_flags fs) = length (fd_table fs) -> ensure_flags_len fs = fs.
Proof. intros H. unfold ensure_flags_len. by rewrite bool_decide_false by lia. Qed.

(** ** Slots *)

(** Table and flags with one slot set. *)
Definition set_slot (fs : FilesStruct) (fd : nat) (file : option Z) (flags : Z) : FilesStruct :=
  fs {{ fd_table := <[fd := file]> (fd_table fs); fd_flags := <[fd := flags]> (fd_flags fs) }}.

Lemma set_slot_file fs fd file flags i : (fd < length (fd_table fs))%nat ->
  get_file (set_slot fs fd file flags) i = if Nat.eqb i fd then file else get_file fs i.
Proof.
  intros Hlt. unfold get_file. change (fd_table (set_slot fs fd file flags)) with (<[fd := file]> (fd_table fs)).
  destruct (Nat.eqb_spec i fd) as [->|].
  - by rewrite list_lookup_insert_eq.
  - by rewrite list_lookup_insert_ne.
Qed.
Lemma set_slot_flags fs fd file flags i : (fd < length (fd_flags fs))%nat ->
  get_flags (set_slot fs fd file flags) i = if Nat.eqb i fd then flags else get_flags fs i.
Proof.
  intros Hlt. unfold get_flags. change (fd_flags (set_slot fs fd file flags)) with (<[fd := flags]> (fd_flags fs)).
  destruct (Nat.eqb_spec i fd) as [->|].
  - by rewrite list_lookup_insert_eq.
  - by rewrite list_lookup_insert_ne.
Qed.

Lemma set_slot_view fs fd file flags i : length (fd_flags fs) = length (fd_table fs) -> (fd < length (fd_table fs))%nat ->
  view (set_slot fs fd file flags) i = if Nat.eqb i fd then f ← file; Some (f, flags) else view fs i.
Proof.
  intros Hlen Hlt. unfold view, get_file_and_flags. rewrite set_slot_file, set_slot_flags by lia. by destruct (Nat.eqb i fd).
Qed.

Lemma is_open_file fs fd : is_fd_open fs fd = match get_file fs fd with Some _ => true | None => false end.
Proof. unfold is_fd_open, get_file. by destruct (fd_table fs !! fd) as [[?|]|]. Qed.

(** What an operation must do: the map [m] becomes [fs']'s, in order. *)
Definition becomes (m : nat -> option (Z * Z)) (fs' : FilesStruct) : Prop :=
  files_ok fs' /\ forall fd, view fs' fd = m fd.
Definition upd (m : nat -> option (Z * Z)) (fd : nat) (v : option (Z * Z)) (i : nat) : option (Z * Z) :=
  if Nat.eqb i fd then v else m i.

(** ** Trimming *)

Lemma effective_len_le fs len : (effective_len_loop fs len <= len)%nat.
Proof. induction len as [|len IH]; simpl; [done|]. case_if; lia. Qed.
Lemma effective_len_above fs len fd : (effective_len_loop fs len <= fd < len)%nat ->
  is_fd_open fs fd = false /\ get_flags fs fd = 0.
Proof.
  induction len as [|len IH]; simpl; [lia|]. destruct (is_fd_open fs len || negb (get_flags fs len =? 0)) eqn:E; [lia|].
  intros H. destruct (decide (fd = len)) as [->|]; [|apply IH; lia].
  apply orb_false_iff in E as [? E]. split; [done|]. apply negb_false_iff, Z.eqb_eq in E. done.
Qed.

Lemma open_effective fs fd : is_fd_open fs fd = true -> (fd < effective_len fs)%nat.
Proof.
  intros H. pose proof (open_lt _ _ H). destruct (decide (fd < effective_len fs)%nat); [done|].
  destruct (effective_len_above fs (length (fd_table fs)) fd) as [? _]; [unfold effective_len in *; lia|congruence].
Qed.

Lemma cut_file fs fs' : fd_table fs' = take (effective_len fs) (fd_table fs) -> forall fd, get_file fs' fd = get_file fs fd.
Proof.
  intros Ht fd. unfold get_file. rewrite Ht. destruct (decide (fd < effective_len fs)%nat).
  - by rewrite lookup_take_lt.
  - rewrite lookup_take_ge by lia. destruct (fd_table fs !! fd) as [[f|]|] eqn:E; [|done..].
    assert (is_fd_open fs fd = true) as H%open_effective by (unfold is_fd_open; by rewrite E). lia.
Qed.
Lemma cut_flags fs fs' : length (fd_flags fs) = length (fd_table fs) -> fd_flags fs' = take (effective_len fs) (fd_flags fs) ->
  forall fd, get_flags fs' fd = get_flags fs fd.
Proof.
  intros Hl Ht fd. unfold get_flags. rewrite Ht. destruct (decide (fd < effective_len fs)%nat).
  - by rewrite lookup_take_lt.
  - rewrite lookup_take_ge by lia. simpl. destruct (fd_flags fs !! fd) as [v|] eqn:E; [|done].
    pose proof (lookup_lt_Some _ _ _ E). destruct (effective_len_above fs (length (fd_table fs)) fd) as [_ Hz];
      [unfold effective_len in *; lia|]. unfold get_flags in Hz. rewrite E in Hz. done.
Qed.

(** A table that shows the same files and flags, cut to its effective length. *)
Lemma cut_ok fs fs' : files_ok fs -> fd_table fs' = take (effective_len fs) (fd_table fs) ->
  fd_flags fs' = take (effective_len fs) (fd_flags fs) -> (next_fd_hint fs' <= next_fd_hint fs)%nat ->
  becomes (view fs) fs'.
Proof.
  intros [Hl Hf Hh] Ht Hfl Hhint.
  pose proof (cut_file fs fs' Ht) as Cf. pose proof (cut_flags fs fs' Hl Hfl) as Cg. split; [split|].
  - rewrite Ht, Hfl, !length_take. lia.
  - intros fd. rewrite is_open_file, Cf, Cg, <- is_open_file. apply Hf.
  - intros fd Hlt. rewrite is_open_file, Cf, <- is_open_file. apply Hh. lia.
  - intros fd. unfold view, get_file_and_flags. by rewrite Cf, Cg.
Qed.

Lemma trim_ok fs : files_ok fs -> becomes (view fs) (trim fs).
Proof. intros H. apply cut_ok; [done..|]. unfold trim. cbn [next_fd_hint]. simpl. case_bool_decide; lia. Qed.

Lemma clone_private_ok fs : files_ok fs -> becomes (view fs) (clone_private fs).1.
Proof.
  intros H. pose proof (fo_len _ H). unfold clone_private, snapshot_fd_state.
  rewrite bool_decide_false by (rewrite !length_take; lia). apply cut_ok; [done..|]. simpl. lia.
Qed.

(** ** Opening *)

Lemma find_free_spec slots fd : match find_free slots fd with
  | Some i => (fd <= i)%nat /\ slots !! (i - fd)%nat = Some None /\
      forall j, (j < i - fd)%nat -> exists f, slots !! j = Some (Some f)
  | None => forall j, (j < length slots)%nat -> exists f, slots !! j = Some (Some f)
  end.
Proof.
  revert fd. induction slots as [|[f|] slots IH]; intros fd; simpl; [intros; lia| |].
  - specialize (IH (S fd)). destruct (find_free slots (S fd)) as [i|].
    + destruct IH as (Hle & Hi & Hj). split_and!; [lia| |].
      * replace (i - fd)%nat with (S (i - S fd)) by lia. done.
      * intros [|j] Hlt; [by exists f|]. apply Hj. lia.
    + intros [|j] Hlt; [by exists f|]. apply IH. simpl in Hlt. lia.
  - split_and!; [lia|by rewrite Nat.sub_diag|intros; lia].
Qed.

(** [fd] is the lowest descriptor that is not open. *)
Definition lowest_free (m : nat -> option (Z * Z)) (fd : nat) : Prop :=
  m fd = None /\ forall i, (i < fd)%nat -> is_Some (m i).

Lemma open_view fs fd : is_fd_open fs fd = true <-> is_Some (view fs fd).
Proof. rewrite view_open. apply bool_decide_eq_true. Qed.

Lemma slot_open fs fd f : fd_table fs !! fd = Some (Some f) -> is_Some (view fs fd).
Proof. intros H. apply open_view. unfold is_fd_open. by rewrite H. Qed.
Lemma slot_closed fs fd : fd_table fs !! fd = Some None \/ fd_table fs !! fd = None -> view fs fd = None.
Proof. intros H. unfold view, get_file_and_flags, get_file. by destruct H as [-> | ->]. Qed.

(** The table with room for descriptor [fd] and the map unchanged. *)
Record room (fs : FilesStruct) (fd : nat) (fs' : FilesStruct) : Prop := {
  rm_len : length (fd_flags fs') = length (fd_table fs');
  rm_lt : (fd < length (fd_table fs'))%nat;
  rm_file : forall i, get_file fs' i = get_file fs i;
  rm_flags : forall i, get_flags fs' i = get_flags fs i;
  rm_closed : fd_refs_closed fs' = fd_refs_closed fs
}.

Lemma room_ok fs fd fs' file flags hint : files_ok fs -> room fs fd fs' ->
  (forall i, (i < hint)%nat -> i = fd \/ is_fd_open fs i = true) ->
  becomes (upd (view fs) fd (Some (file, flags))) ((set_slot fs' fd (Some file) flags) {{ next_fd_hint := hint }}).
Proof.
  intros [Hl Hf Hh] [Rl Rlt Rf Rg _] Hhint. set (fs2 := _ {{ next_fd_hint := hint }}).
  assert (forall i, get_file fs2 i = if Nat.eqb i fd then Some file else get_file fs i) as Gf.
  { intros i. rewrite <- Rf. by apply (set_slot_file fs' fd (Some file) flags i). }
  assert (forall i, get_flags fs2 i = if Nat.eqb i fd then flags else get_flags fs i) as Gg.
  { intros i. rewrite <- Rg. apply (set_slot_flags fs' fd (Some file) flags i). lia. }
  split; [split|].
  - change (length (<[fd := flags]> (fd_flags fs')) = length (<[fd := Some file]> (fd_table fs'))).
    by rewrite !length_insert.
  - intros i. rewrite is_open_file, Gf, Gg. destruct (Nat.eqb i fd); [done|]. rewrite <- is_open_file. apply Hf.
  - intros i Hi. rewrite is_open_file, Gf. destruct (Nat.eqb_spec i fd); [done|]. rewrite <- is_open_file.
    by destruct (Hhint i Hi).
  - intros i. unfold view, upd, get_file_and_flags. rewrite Gf, Gg. by destruct (Nat.eqb i fd).
Qed.

Lemma resize_lookup {A} (v : list A) n x i : (length v <= n)%nat ->
  resize_vec v n x !! i = match v !! i with Some y => Some y | None => if bool_decide (i < n)%nat then Some x else None end.
Proof.
  intros Hn. unfold resize_vec. rewrite take_ge by done. destruct (v !! i) eqn:E.
  - by apply lookup_app_l_Some.
  - apply lookup_ge_None in E. rewrite lookup_app_r by done. case_bool_decide.
    + apply lookup_replicate_2. lia.
    + apply lookup_ge_None_2. rewrite length_replicate. lia.
Qed.

(** Growing both vectors with empty slots. *)
Lemma grown_room fs fd fs' : files_ok fs -> (length (fd_table fs) <= fd)%nat ->
  fd_table fs' = resize_vec (fd_table fs) (S fd) None -> fd_flags fs' = resize_vec (fd_flags fs) (S fd) 0 ->
  fd_refs_closed fs' = fd_refs_closed fs -> room fs fd fs'.
Proof.
  intros [Hl _ _] Hlt Ht Hf Hc. split; [..|done].
  - rewrite Ht, Hf. unfold resize_vec. rewrite !length_app, !length_take, !length_replicate. lia.
  - rewrite Ht. unfold resize_vec. rewrite length_app, length_take, length_replicate. lia.
  - intros i. unfold get_file. rewrite Ht, resize_lookup by lia. destruct (fd_table fs !! i); [done|]. by case_bool_decide.
  - intros i. unfold get_flags. rewrite Hf, resize_lookup by lia. destruct (fd_flags fs !! i); [done|]. by case_bool_decide.
Qed.

(** What [alloc_fd] finds: the lowest free descriptor, with room for it. *)
Lemma alloc_fd_spec fs limit : files_ok fs ->
  exists r fs', alloc_fd fs limit = Some (r, fs') /\
    match r with
    | Some fd => lowest_free (view fs) fd /\ (fd < limit)%nat /\ next_fd_hint fs' = S fd /\ room fs fd fs' /\
        close_cursor fs' = close_cursor fs
    | None => fs' = fs /\ forall fd, lowest_free (view fs) fd -> (limit <= fd)%nat
    end.
Proof.
  intros Hok. pose proof Hok as [Hl Hf Hh]. unfold alloc_fd. set (start := Nat.min _ _).
  assert (forall i, (i < start)%nat -> is_Some (view fs i)) as Hlow by (intros i Hi; apply open_view, Hh; lia).
  pose proof (find_free_spec (drop start (fd_table fs)) start) as Hfind.
  destruct (find_free (drop start (fd_table fs)) start) as [fd|].
  - destruct Hfind as (Hle & Hnone & Hsome). rewrite lookup_drop in Hnone. replace (start + (fd - start))%nat with fd in Hnone by lia.
    assert (lowest_free (view fs) fd) as Hfree.
    { split; [apply slot_closed; by left|]. intros i Hi. destruct (decide (i < start)%nat); [auto|].
      destruct (Hsome (i - start)%nat) as [f Hfi]; [lia|]. rewrite lookup_drop in Hfi.
      replace (start + (i - start))%nat with i in Hfi by lia. by eapply slot_open. }
    pose proof (lookup_lt_Some _ _ _ Hnone) as Hlt. case_bool_decide.
    + eexists None, _. split_and!; [done|done|]. intros i [Hi Hbelow]. destruct (decide (i < fd)%nat) as [Hif|]; [|lia].
      destruct Hfree as [_ Hfree]. destruct (Hfree i Hif). congruence.
    + rewrite ensure_flags_ok, assign_Some by lia. simpl. eexists (Some fd), _. split_and!; [done|done|lia|done| |done].
      split; simpl; try done; [rewrite length_insert; lia|]. intros i. unfold get_flags. simpl.
      destruct (decide (i = fd)) as [->|]; [|by rewrite list_lookup_insert_ne]. rewrite list_lookup_insert_eq by lia. simpl.
      symmetry. apply Hf. unfold is_fd_open. by rewrite Hnone.
  - assert (forall i, (i < length (fd_table fs))%nat -> is_Some (view fs i)) as Hall.
    { intros i Hi. destruct (decide (i < start)%nat); [auto|]. destruct (Hfind (i - start)%nat) as [f Hfi]; [rewrite length_drop; lia|].
      rewrite lookup_drop in Hfi. replace (start + (i - start))%nat with i in Hfi by lia. by eapply slot_open. }
    assert (lowest_free (view fs) (length (fd_table fs))) as Hfree.
    { split; [|done]. apply slot_closed. right. by apply lookup_ge_None_2. }
    case_bool_decide.
    + eexists None, _. split_and!; [done|done|]. intros i [Hi _]. destruct (decide (i < length (fd_table fs))%nat) as [Hil|]; [|lia].
      destruct (Hall i Hil). congruence.
    + eexists (Some _), _. split; [done|]. simpl. unfold vec_push. rewrite length_app. simpl.
      replace (length (fd_table fs) + 1 - 1)%nat with (length (fd_table fs)) by lia. split_and!; [done|lia|done| |done].
      apply grown_room; [done|lia|..|done]; simpl; unfold resize_vec; rewrite take_ge by lia;
        [replace (S (length (fd_table fs)) - length (fd_table fs))%nat with 1%nat by lia
        |replace (S (length (fd_table fs)) - length (fd_flags fs))%nat with 1%nat by lia]; done.
Qed.

Lemma install_fd_spec fs file flags limit : files_ok fs ->
  exists r fs' ev, install_fd fs file flags limit = Some (r, fs', ev) /\ fd_refs_closed fs' = fd_refs_closed fs /\
    match r with
    | Some fd => lowest_free (view fs) fd /\ (fd < limit)%nat /\ becomes (upd (view fs) fd (Some (file, flags))) fs' /\ ev = [Installed file]
    | None => becomes (view fs) fs' /\ ev = [] /\ forall fd, lowest_free (view fs) fd -> (limit <= fd)%nat
    end.
Proof.
  intros Hok. unfold install_fd. set (fs0 := fs {{ close_cursor := None }}).
  assert (files_ok fs0) as Hok0 by (destruct Hok; by split).
  destruct (alloc_fd_spec fs0 limit Hok0) as (r & fs1 & -> & Hr). simpl mbind. destruct r as [fd|].
  - destruct Hr as (Hfree & Hlt & Hhint & Hroom & Hcc). pose proof (rm_lt _ _ _ Hroom). pose proof (rm_len _ _ _ Hroom).
    rewrite !assign_Some by lia. simpl. eexists (Some fd), _, _. split; [done|]. split; [apply Hroom|].
    split_and!; [done|done| |done].
    assert (set_slot fs1 fd (Some file) flags = (set_slot fs1 fd (Some file) flags) {{ next_fd_hint := S fd }}) as Heq
      by (rewrite <- Hhint; done).
    change (becomes (upd (view fs0) fd (Some (file, flags))) (set_slot fs1 fd (Some file) flags)). rewrite Heq.
    apply (room_ok fs0); [done|done|]. intros i Hi. destruct (decide (i = fd)); [by left|right].
    apply open_view, Hfree. lia.
  - destruct Hr as (-> & Hno). eexists None, fs0, []. by split_and!.
Qed.

Lemma advance_hint_spec slots hint : (hint <= advance_hint slots hint)%nat /\
  forall i, (hint <= i < advance_hint slots hint)%nat -> exists f, slots !! (i - hint)%nat = Some (Some f).
Proof.
  revert hint. induction slots as [|[f|] slots IH]; intros hint; simpl; [split; [done|lia]| |split; [done|lia]].
  destruct (IH (S hint)) as [Hle Hi]. split; [lia|]. intros i Hlt. destruct (decide (i = hint)) as [->|].
  - rewrite Nat.sub_diag. by exists f.
  - destruct (Hi i) as [g Hg]; [lia|]. exists g. by replace (i - hint)%nat with (S (i - S hint)) by lia.
Qed.

Lemma room_same fs fd : files_ok fs -> (fd < length (fd_table fs))%nat -> room fs fd (ensure_flags_len (fs {{ close_cursor := None }})).
Proof. intros [Hl _ _] Hlt. rewrite ensure_flags_ok by done. by split. Qed.

Lemma replace_fd_at_spec fs fd file flags limit : files_ok fs ->
  exists r fs' ev, replace_fd_at fs fd file flags limit = Some (r, fs', ev) /\ fd_refs_closed fs' = fd_refs_closed fs /\
    match r with
    | Some old => (fd < limit)%nat /\ old = get_file fs fd /\ becomes (upd (view fs) fd (Some (file, flags))) fs' /\
        ev = close_events fs old ++ [Installed file]
    | None => (limit <= fd)%nat /\ fs' = fs /\ ev = []
    end.
Proof.
  intros Hok. pose proof Hok as [Hl Hf Hh]. unfold replace_fd_at. case_bool_decide; [by eexists None, fs, []|].
  set (fs1 := if bool_decide _ then _ else _).
  assert (room fs fd fs1 /\ next_fd_hint fs1 = next_fd_hint fs) as [Hroom Hhint].
  { unfold fs1. case_bool_decide as Hlen; simpl in Hlen; [split; [by apply grown_room|done]|].
    split; [apply room_same; [done|lia]|]. by rewrite ensure_flags_ok. }
  clearbody fs1. pose proof Hroom as [Rl Rlt Rf Rg Rc]. destruct (lookup_lt_is_Some_2 _ _ Rlt) as [old Hold].
  rewrite Hold. simpl mbind. rewrite !assign_Some by lia. simpl.
  assert (old = get_file fs fd) as Heq by (rewrite <- Rf; unfold get_file; by rewrite Hold).
  eexists (Some old), _, _. split; [done|]. split; [exact Rc|]. split_and!; [lia|done| |unfold close_events; by rewrite Rc].
  apply (room_ok fs fd fs1 file flags _ Hok Hroom). intros i Hi. rewrite Hhint in Hi.
  destruct (decide (i < next_fd_hint fs)%nat) as [|Hge]; [right; auto|]. destruct (decide (i = fd)); [by left|right].
  destruct (Nat.eqb_spec fd (next_fd_hint fs)); [|lia].
  destruct (advance_hint_spec (drop (next_fd_hint fs) (<[fd := Some file]> (fd_table fs1))) (next_fd_hint fs)) as [_ Hadv].
  destruct (Hadv i) as [f Hfi]; [lia|]. rewrite lookup_drop in Hfi. replace (_ + (i - _))%nat with i in Hfi by lia.
  rewrite list_lookup_insert_ne in Hfi by done. rewrite is_open_file, <- Rf. unfold get_file. by rewrite Hfi.
Qed.

(** ** Closing *)

(** One slot emptied. *)
Lemma emptied_ok fs fd hint : files_ok fs -> (fd < length (fd_table fs))%nat -> (hint <= next_fd_hint fs)%nat -> (hint <= fd)%nat ->
  becomes (upd (view fs) fd None) ((set_slot fs fd None 0) {{ next_fd_hint := hint }}).
Proof.
  intros [Hl Hf Hh] Hlt Hle Hle'. set (fs2 := _ {{ next_fd_hint := hint }}).
  assert (forall i, get_file fs2 i = if Nat.eqb i fd then None else get_file fs i) as Gf
    by (intros i; by apply (set_slot_file fs fd None 0 i)).
  assert (forall i, get_flags fs2 i = if Nat.eqb i fd then 0 else get_flags fs i) as Gg
    by (intros i; apply (set_slot_flags fs fd None 0 i); lia).
  split; [split|].
  - change (length (<[fd := 0]> (fd_flags fs)) = length (<[fd := None]> (fd_table fs))). by rewrite !length_insert.
  - intros i. rewrite is_open_file, Gf, Gg. destruct (Nat.eqb i fd); [done|]. rewrite <- is_open_file. apply Hf.
  - intros i Hi. change (i < hint)%nat in Hi. rewrite is_open_file, Gf. destruct (Nat.eqb_spec i fd); [lia|].
    rewrite <- is_open_file. apply Hh. lia.
  - intros i. unfold view, upd, get_file_and_flags. rewrite Gf, Gg. by destruct (Nat.eqb i fd).
Qed.

Lemma becomes_trans m fs fs' : becomes m fs -> becomes (view fs) fs' -> becomes m fs'.
Proof. intros [_ H1] [H2 H3]. split; [done|]. intros fd. by rewrite H3. Qed.

Lemma hint_below_closed fs fd : files_ok fs -> is_fd_open fs fd = false -> (next_fd_hint fs <= fd)%nat.
Proof. intros [_ _ Hh] Hc. destruct (decide (next_fd_hint fs <= fd)%nat); [done|]. rewrite Hh in Hc by lia. done. Qed.

Lemma clear_fd_spec fs fd : files_ok fs ->
  exists fs', clear_fd fs fd = Some (get_file fs fd, fs', close_events fs (get_file fs fd)) /\
    fd_refs_closed fs' = fd_refs_closed fs /\ becomes (upd (view fs) fd None) fs'.
Proof.
  intros Hok. pose proof Hok as [Hl Hf Hh]. unfold clear_fd. case_bool_decide as Hlen.
  - assert (get_file fs fd = None) as Hn by (unfold get_file; by rewrite lookup_ge_None_2).
    exists fs. rewrite Hn. split_and!; [done..|]. split; [done|]. intros i. unfold upd. destruct (Nat.eqb_spec i fd) as [->|]; [|done].
    unfold view, get_file_and_flags. by rewrite Hn.
  - destruct (lookup_lt_is_Some_2 (fd_table fs) fd) as [file Hfile]; [lia|]. rewrite Hfile. simpl mbind.
    assert (get_file fs fd = file) as Hg by (unfold get_file; by rewrite Hfile). rewrite Hg.
    rewrite ensure_flags_ok by (simpl; by rewrite length_insert). rewrite assign_Some by (simpl; lia). simpl.
    eexists. split; [done|]. split; [done|].
    set (hint := match file with Some _ => Nat.min (next_fd_hint fs) fd | None => next_fd_hint fs end).
    assert (hint <= next_fd_hint fs /\ hint <= fd)%nat as [? ?].
    { unfold hint. destruct file; [lia|]. split; [done|]. apply hint_below_closed; [done|]. by rewrite is_open_file, Hg. }
    destruct (emptied_ok fs fd hint Hok ltac:(lia)) as [He1 He2]; [done|done|].
    eapply becomes_trans; [|apply trim_ok].
    + split; [|exact He2]. destruct He1. by split.
    + destruct He1. by split.
Qed.

Lemma set_flags_spec fs fd flags : files_ok fs ->
  exists fs', set_flags fs fd flags = Some (is_fd_open fs fd, fs') /\ fd_refs_closed fs' = fd_refs_closed fs /\
    becomes (fun i => if Nat.eqb i fd then prod_map id (fun _ => flags) <$> view fs i else view fs i) fs'.
Proof.
  intros Hok. pose proof Hok as [Hl Hf Hh]. unfold set_flags. destruct (is_fd_open fs fd) eqn:Ho; simpl.
  - pose proof (open_lt _ _ Ho). rewrite ensure_flags_ok, assign_Some by lia. simpl. eexists. split; [done|]. split; [done|].
    set (fs' := fs {{ fd_flags := <[fd := flags]> (fd_flags fs) }}).
    assert (forall i, get_flags fs' i = if Nat.eqb i fd then flags else get_flags fs i) as Gg
      by (intros i; apply (set_slot_flags fs fd None flags i); lia).
    split; [split|].
    + change (length (<[fd := flags]> (fd_flags fs)) = length (fd_table fs)). by rewrite length_insert.
    + intros i Hi. change (is_fd_open fs i = false) in Hi. rewrite Gg. destruct (Nat.eqb_spec i fd); [congruence|]. by apply Hf.
    + exact Hh.
    + intros i. unfold view, get_file_and_flags. rewrite Gg. change (get_file fs' i) with (get_file fs i).
      destruct (Nat.eqb i fd); [|done]. by destruct (get_file fs i).
  - exists fs. split; [done|]. split; [done|]. split; [done|]. intros i. destruct (Nat.eqb_spec i fd) as [->|]; [|done].
    rewrite view_open in Ho. destruct (view fs fd); done.
Qed.

Lemma view_file fs fd : get_file fs fd = fst <$> view fs fd.
Proof. unfold view, get_file_and_flags. by destruct (get_file fs fd). Qed.

(** A descriptor that [exec] closes. *)
Definition cloexec (v : option (Z * Z)) : bool :=
  match v with Some (_, flags) => negb (Z.land flags FD_CLOEXEC =? 0) | None => false end.

(** What the files are told when the descriptors [idxs] of [fs] are gone through. *)
Definition cloexec_events (fs : FilesStruct) (idxs : list nat) : list FdEvent :=
  concat (map (fun i => if cloexec (view fs i) then close_events fs (get_file fs i) else []) idxs).

Lemma flag_cloexec fs fd : files_ok fs -> (Z.land (get_flags fs fd) FD_CLOEXEC =? 0) = negb (cloexec (view fs fd)).
Proof.
  intros [_ Hf _]. unfold view, get_file_and_flags. specialize (Hf fd). rewrite is_open_file in Hf.
  destruct (get_file fs fd); simpl; [by rewrite negb_involutive|]. by rewrite Hf.
Qed.

Lemma cloexec_slot_spec fs idx : files_ok fs -> (idx < length (fd_table fs))%nat ->
  exists fs', cloexec_slot fs idx = Some (fs', cloexec_events fs [idx]) /\ fd_refs_closed fs' = fd_refs_closed fs /\
    length (fd_table fs') = length (fd_table fs) /\
    becomes (fun i => if Nat.eqb i idx && cloexec (view fs i) then None else view fs i) fs'.
Proof.
  intros Hok Hlt. unfold cloexec_slot, cloexec_events. cbn [map concat]. rewrite (flag_cloexec _ _ Hok), app_nil_r.
  destruct (cloexec (view fs idx)) eqn:Hc; simpl.
  - destruct (lookup_lt_is_Some_2 _ _ Hlt) as [file Hfile]. rewrite Hfile. simpl.
    assert (get_file fs idx = file) as -> by (unfold get_file; by rewrite Hfile).
    eexists. split; [done|]. split; [done|]. split; [simpl; by rewrite length_insert|].
    destruct (emptied_ok fs idx (Nat.min (next_fd_hint fs) idx) Hok Hlt ltac:(lia) ltac:(lia)) as [He1 He2].
    split; [exact He1|]. intros i. etrans; [apply He2|]. unfold upd. destruct (Nat.eqb_spec i idx) as [->|]; [by rewrite Hc|done].
  - exists fs. split_and!; [done..|]. split; [done|]. intros i. destruct (Nat.eqb_spec i idx) as [->|]; [by rewrite Hc|done].
Qed.

Lemma cloexec_events_ext fs fs' idxs : fd_refs_closed fs' = fd_refs_closed fs ->
  (forall i, i ∈ idxs -> view fs' i = view fs i) -> cloexec_events fs' idxs = cloexec_events fs idxs.
Proof.
  intros Hc Hv. unfold cloexec_events. f_equal. apply map_ext_in. intros i Hi%list_elem_of_In. rewrite (Hv i Hi).
  rewrite !view_file, (Hv i Hi). unfold close_events. by rewrite Hc.
Qed.

Lemma cloexec_loop_spec idxs fs : NoDup idxs -> files_ok fs -> Forall (fun i => i < length (fd_table fs))%nat idxs ->
  exists fs', cloexec_loop idxs fs = Some (fs', cloexec_events fs idxs) /\ fd_refs_closed fs' = fd_refs_closed fs /\
    becomes (fun i => if bool_decide (i ∈ idxs) && cloexec (view fs i) then None else view fs i) fs'.
Proof.
  revert fs. induction idxs as [|idx idxs IH]; intros fs Hnd Hok Hall; [by exists fs|].
  apply NoDup_cons in Hnd as [Hni Hnd]. apply Forall_cons in Hall as [Hlt Hall]. cbn [cloexec_loop].
  destruct (cloexec_slot_spec fs idx Hok Hlt) as (fs1 & -> & Hc1 & Hlen & Hok1 & Hv1). simpl mbind.
  destruct (IH fs1 Hnd Hok1) as (fs2 & -> & Hc2 & Hok2 & Hv2); [by rewrite Hlen|]. simpl mbind.
  assert (forall i, i ∈ idxs -> view fs1 i = view fs i) as Hsame.
  { intros i Hi. rewrite Hv1. destruct (Nat.eqb_spec i idx) as [->|]; [done|done]. }
  exists fs2. split; [|split; [congruence|split; [done|]]].
  - rewrite (cloexec_events_ext fs fs1) by done. unfold cloexec_events. cbn [map concat]. by rewrite app_nil_r.
  - intros i. rewrite Hv2. destruct (Nat.eqb_spec i idx) as [->|Hne].
    + rewrite bool_decide_false by done. simpl. rewrite Hv1, Nat.eqb_refl. simpl. rewrite bool_decide_true by set_solver. done.
    + rewrite Hv1. rewrite (proj2 (Nat.eqb_neq i idx)) by done. simpl.
      rewrite (bool_decide_ext (i ∈ idx :: idxs) (i ∈ idxs)) by set_solver. done.
Qed.

Lemma close_cloexec_fds_spec fs : files_ok fs ->
  exists fs', close_cloexec_fds fs = Some (fs', cloexec_events fs (seq 0 (length (fd_table fs)))) /\
    fd_refs_closed fs' = fd_refs_closed fs /\
    becomes (fun i => if cloexec (view fs i) then None else view fs i) fs'.
Proof.
  intros Hok. pose proof (fo_len _ Hok) as Hl. unfold close_cloexec_fds. rewrite ensure_flags_ok, Hl by done.
  destruct (cloexec_loop_spec (seq 0 (length (fd_table fs))) fs) as (fs1 & -> & Hc & Hok1 & Hv1); [apply NoDup_seq|done| |].
  { apply Forall_forall. intros i Hi%elem_of_seq. lia. }
  simpl. eexists. split; [done|]. split; [exact Hc|]. destruct (trim_ok fs1 Hok1) as [? Hv2]. split; [done|].
  intros i. rewrite Hv2, Hv1. destruct (cloexec (view fs i)) eqn:E; [|by rewrite andb_false_r].
  rewrite bool_decide_true; [done|]. apply elem_of_seq. split; [lia|].
  assert (is_Some (view fs i)) as Ho%open_view%open_lt by (destruct (view fs i); done). lia.
Qed.

(** ** The descriptors of a file *)

(** How many of the first [n] descriptors lead to [file]. *)
Definition leads (v : option (Z * Z)) (file : Z) : bool :=
  match fst <$> v with Some f => f =? file | None => false end.
Definition descriptors_below (m : nat -> option (Z * Z)) (file : Z) (n : nat) : nat :=
  length (List.filter (fun fd => leads (m fd) file) (seq 0 n)).
Definition descriptors (fs : FilesStruct) (file : Z) : nat := descriptors_below (view fs) file (length (fd_table fs)).

(** How often the files are told that a descriptor of [file] has come, or gone. *)
Definition came (file : Z) (ev : list FdEvent) : nat :=
  length (List.filter (fun e => match e with Installed f => f =? file | Closed _ => false end) ev).
Definition went (file : Z) (ev : list FdEvent) : nat :=
  length (List.filter (fun e => match e with Closed f => f =? file | Installed _ => false end) ev).

Lemma came_app file ev ev' : came file (ev ++ ev') = (came file ev + came file ev')%nat.
Proof. unfold came. by rewrite List.filter_app, length_app. Qed.
Lemma went_app file ev ev' : went file (ev ++ ev') = (went file ev + went file ev')%nat.
Proof. unfold went. by rewrite List.filter_app, length_app. Qed.

Lemma below_ext m m' file n : (forall i, (i < n)%nat -> fst <$> m i = fst <$> m' i) ->
  descriptors_below m file n = descriptors_below m' file n.
Proof.
  intros H. unfold descriptors_below. f_equal. apply filter_ext_in. intros i Hi%in_seq. unfold leads. by rewrite H by lia.
Qed.

Lemma filter_nothing {A} (l : list A) : List.filter (fun _ => false) l = [].
Proof. by induction l. Qed.

Lemma below_more m file n n' : (n <= n')%nat -> (forall i, (n <= i)%nat -> m i = None) ->
  descriptors_below m file n' = descriptors_below m file n.
Proof.
  intros Hle H. unfold descriptors_below. replace n' with (n + (n' - n))%nat by lia. rewrite seq_app, List.filter_app, length_app.
  rewrite (filter_ext_in _ (fun _ => false) (seq (0 + n) _)); [rewrite filter_nothing; simpl; lia|].
  intros i Hi%in_seq. by rewrite H by lia.
Qed.

Lemma view_above fs fd : (length (fd_table fs) <= fd)%nat -> view fs fd = None.
Proof. intros H. apply slot_closed. right. by apply lookup_ge_None_2. Qed.

(** One descriptor changed. *)
Definition one (v : option (Z * Z)) (file : Z) : nat := if leads v file then 1 else 0.
Lemma below_upd m file fd v n : (fd < n)%nat ->
  (descriptors_below (upd m fd v) file n + one (m fd) file = descriptors_below m file n + one v file)%nat.
Proof.
  intros Hlt. unfold descriptors_below. replace n with (fd + S (n - S fd))%nat by lia.
  rewrite seq_app, !List.filter_app, !length_app. cbn [seq List.filter].
  assert (forall a b, (b + a <= fd \/ fd < a)%nat ->
    List.filter (fun i => leads (upd m fd v i) file) (seq a b) = List.filter (fun i => leads (m i) file) (seq a b)) as Hrest.
  { intros a b Hab. apply filter_ext_in. intros i Hi%in_seq. unfold upd. by rewrite (proj2 (Nat.eqb_neq i fd)) by lia. }
  rewrite !Hrest by lia. unfold one, upd. rewrite Nat.add_0_l, Nat.eqb_refl.
  destruct (leads (m fd) file), (leads v file); simpl; lia.
Qed.

(** The files are told of exactly the descriptors that come and go. *)
Definition balanced (fs : FilesStruct) (ev : list FdEvent) (fs' : FilesStruct) : Prop :=
  forall file, (descriptors fs' file + went file ev = descriptors fs file + came file ev)%nat.

Lemma descriptors_any fs file n : (length (fd_table fs) <= n)%nat -> descriptors fs file = descriptors_below (view fs) file n.
Proof. intros Hn. symmetry. apply below_more; [done|]. apply view_above. Qed.

Lemma balanced_upd fs fs' ev fd v : (forall i, view fs' i = upd (view fs) fd v i) ->
  (forall file, came file ev = one v file /\ went file ev = one (view fs fd) file) -> balanced fs ev fs'.
Proof.
  intros Hv Hev file. set (n := (length (fd_table fs) + length (fd_table fs') + S fd)%nat).
  rewrite (descriptors_any fs file n), (descriptors_any fs' file n) by (unfold n; lia).
  rewrite (below_ext (view fs') (upd (view fs) fd v)) by (intros; by rewrite Hv). destruct (Hev file) as [-> ->].
  rewrite Nat.add_comm. rewrite (Nat.add_comm (one _ _)). apply below_upd. unfold n. lia.
Qed.

Lemma balanced_files fs fs' : (forall i, fst <$> view fs' i = fst <$> view fs i) -> balanced fs [] fs'.
Proof.
  intros Hv file. set (n := (length (fd_table fs) + length (fd_table fs'))%nat).
  rewrite (descriptors_any fs file n), (descriptors_any fs' file n) by (unfold n; lia). by rewrite (below_ext (view fs') (view fs)).
Qed.

Lemma balanced_same fs fs' : (forall i, view fs' i = view fs i) -> balanced fs [] fs'.
Proof. intros H. apply balanced_files. intros i. by rewrite H. Qed.

Lemma balanced_trans fs1 fs2 fs3 ev ev' : balanced fs1 ev fs2 -> balanced fs2 ev' fs3 -> balanced fs1 (ev ++ ev') fs3.
Proof. intros H1 H2 file. specialize (H1 file). specialize (H2 file). rewrite came_app, went_app. lia. Qed.

(** Closing what [fd] leads to, and opening another file there. *)
Lemma close_events_count fs fd file : fd_refs_closed fs = false ->
  came file (close_events fs (get_file fs fd)) = 0%nat /\ went file (close_events fs (get_file fs fd)) = one (view fs fd) file.
Proof.
  intros Hc. unfold close_events, view, get_file_and_flags, one. rewrite Hc. destruct (get_file fs fd) as [f|]; [|done].
  unfold came, went, leads. simpl. by destruct (f =? file).
Qed.

Lemma cloexec_events_came fs idxs file : fd_refs_closed fs = false -> came file (cloexec_events fs idxs) = 0%nat.
Proof.
  intros Hc. unfold cloexec_events. induction idxs as [|i idxs IH]; [done|]. cbn [map concat]. rewrite came_app, IH.
  destruct (cloexec (view fs i)); [|done]. by rewrite (proj1 (close_events_count fs i file Hc)).
Qed.

Lemma cloexec_slot_balanced fs idx : files_ok fs -> fd_refs_closed fs = false -> (idx < length (fd_table fs))%nat ->
  exists fs', cloexec_slot fs idx = Some (fs', cloexec_events fs [idx]) /\ files_ok fs' /\ fd_refs_closed fs' = false /\
    length (fd_table fs') = length (fd_table fs) /\ balanced fs (cloexec_events fs [idx]) fs'.
Proof.
  intros Hok Hc Hlt. destruct (cloexec_slot_spec fs idx Hok Hlt) as (fs' & Hs & Hc' & Hl & Hok' & Hv).
  exists fs'. split_and!; [done|done|congruence|done|]. unfold cloexec_events. cbn [map concat]. rewrite app_nil_r.
  destruct (cloexec (view fs idx)) eqn:Ec.
  - apply (balanced_upd _ _ _ idx None); [|intros file; by apply close_events_count].
    intros i. rewrite Hv. unfold upd. destruct (Nat.eqb_spec i idx) as [->|]; [by rewrite Ec|done].
  - apply balanced_same. intros i. rewrite Hv. destruct (Nat.eqb_spec i idx) as [->|]; [by rewrite Ec|done].
Qed.

Lemma cloexec_loop_balanced idxs fs fs' ev : files_ok fs -> fd_refs_closed fs = false ->
  Forall (fun i => i < length (fd_table fs))%nat idxs -> cloexec_loop idxs fs = Some (fs', ev) -> balanced fs ev fs'.
Proof.
  revert fs ev. induction idxs as [|idx idxs IH]; intros fs ev Hok Hc Hall Hrun; cbn [cloexec_loop] in Hrun.
  { injection Hrun as <- <-. by apply balanced_same. }
  apply Forall_cons in Hall as [Hlt Hall].
  destruct (cloexec_slot_balanced fs idx Hok Hc Hlt) as (fs1 & Hs & Hok1 & Hc1 & Hl1 & Hb1). rewrite Hs in Hrun. simpl in Hrun.
  destruct (cloexec_loop idxs fs1) as [[fs2 ev2]|] eqn:Hloop; [|done]. simpl in Hrun. injection Hrun as <- <-.
  eapply balanced_trans; [exact Hb1|]. apply (IH fs1); [done|done|by rewrite Hl1|done].
Qed.

Lemma exec_balanced fs fs' ev : files_ok fs -> fd_refs_closed fs = false -> close_cloexec_fds fs = Some (fs', ev) -> balanced fs ev fs'.
Proof.
  intros Hok Hc Hrun. pose proof (fo_len _ Hok) as Hl. unfold close_cloexec_fds in Hrun. rewrite ensure_flags_ok, Hl in Hrun by done.
  destruct (cloexec_loop_spec (seq 0 (length (fd_table fs))) fs) as (fs1 & Hloop & _ & Hok1 & _); [apply NoDup_seq|done| |].
  { apply Forall_forall. intros i Hi%elem_of_seq. lia. }
  rewrite Hloop in Hrun. simpl in Hrun. injection Hrun as <- <-. rewrite <- (app_nil_r (cloexec_events _ _)).
  eapply balanced_trans.
  - eapply cloexec_loop_balanced; [done|done| |exact Hloop]. apply Forall_forall. intros i Hi%elem_of_seq. lia.
  - apply balanced_same, trim_ok, Hok1.
Qed.

Lemma one_le fs fd file : (one (view fs fd) file <= descriptors fs file)%nat.
Proof.
  pose proof (below_upd (view fs) file fd None (length (fd_table fs) + S fd)) as H.
  rewrite (descriptors_any fs file (length (fd_table fs) + S fd)) by lia. change (one None file) with 0%nat in H. lia.
Qed.

(** ** The operations of a process on its table *)

Inductive FdOp :=
  | FInstall (file flags : Z) (limit : nat)
  | FReplace (fd : nat) (file flags : Z) (limit : nat)
  | FClose (fd : nat)
  | FSetFlags (fd : nat) (flags : Z)
  | FExec.
Inductive FdOut :=
  | OFd (fd : option nat)
  | OOld (old : option (option Z))
  | OFile (file : option Z)
  | OSet (done : bool)
  | ONone.

Definition fd_op (op : FdOp) (fs : FilesStruct) : option (FdOut * FilesStruct * list FdEvent) :=
  match op with
  | FInstall file flags limit => '(r, fs, ev) ← install_fd fs file flags limit; Some (OFd r, fs, ev)
  | FReplace fd file flags limit => '(r, fs, ev) ← replace_fd_at fs fd file flags limit; Some (OOld r, fs, ev)
  | FClose fd => '(r, fs, ev) ← clear_fd fs fd; Some (OFile r, fs, ev)
  | FSetFlags fd flags => '(r, fs) ← set_flags fs fd flags; Some (OSet r, fs, [])
  | FExec => '(fs, ev) ← close_cloexec_fds fs; Some (ONone, fs, ev)
  end.
Fixpoint fd_run (ops : list FdOp) (fs : FilesStruct) : option (list FdOut * FilesStruct) :=
  match ops with
  | [] => Some ([], fs)
  | op :: ops => '(out, fs, _) ← fd_op op fs; '(outs, fs) ← fd_run ops fs; Some (out :: outs, fs)
  end.

(** The specification: a map from descriptors to files and flags. *)
Definition posix (op : FdOp) (m : nat -> option (Z * Z)) (out : FdOut) (m' : nat -> option (Z * Z)) : Prop :=
  match op with
  | FInstall file flags limit =>
      (exists fd, out = OFd (Some fd) /\ lowest_free m fd /\ (fd < limit)%nat /\ forall i, m' i = upd m fd (Some (file, flags)) i) \/
      (out = OFd None /\ (forall fd, lowest_free m fd -> (limit <= fd)%nat) /\ forall i, m' i = m i)
  | FReplace fd file flags limit =>
      if bool_decide (fd < limit)%nat
      then out = OOld (Some (fst <$> m fd)) /\ forall i, m' i = upd m fd (Some (file, flags)) i
      else out = OOld None /\ forall i, m' i = m i
  | FClose fd => out = OFile (fst <$> m fd) /\ forall i, m' i = upd m fd None i
  | FSetFlags fd flags =>
      out = OSet (bool_decide (is_Some (m fd))) /\
      forall i, m' i = if Nat.eqb i fd then prod_map id (fun _ => flags) <$> m i else m i
  | FExec => out = ONone /\ forall i, m' i = if cloexec (m i) then None else m i
  end.
Inductive posix_run : list FdOp -> (nat -> option (Z * Z)) -> list FdOut -> (nat -> option (Z * Z)) -> Prop :=
  | posix_done m : posix_run [] m [] m
  | posix_step op ops m m1 m2 out outs :
      posix op m out m1 -> posix_run ops m1 outs m2 -> posix_run (op :: ops) m (out :: outs) m2.

Lemma fd_op_correct op fs : files_ok fs ->
  exists out fs' ev, fd_op op fs = Some (out, fs', ev) /\ files_ok fs' /\ posix op (view fs) out (view fs') /\
    fd_refs_closed fs' = fd_refs_closed fs /\ (fd_refs_closed fs = false -> balanced fs ev fs' /\ forall file, (went file ev <= descriptors fs file)%nat).
Proof.
  intros Hok.
  assert (forall ev fs', balanced fs ev fs' -> (forall file, came file ev = 0%nat) ->
    balanced fs ev fs' /\ forall file, (went file ev <= descriptors fs file)%nat) as Hgone.
  { intros ev fs' Hb H0. split; [done|]. intros file. specialize (Hb file). rewrite H0 in Hb. lia. }
  destruct op as [file flags limit|fd file flags limit|fd|fd flags|]; cbn [fd_op].
  - destruct (install_fd_spec fs file flags limit Hok) as (r & fs' & ev & -> & Hc & Hr). simpl mbind. eexists _, fs', ev. split; [done|].
    destruct r as [fd|].
    + destruct Hr as (Hfree & Hlt & [Hok' Hv] & ->). split_and!; [done|left; by exists fd|done|]. intros _.
      split; [|intros f; apply Nat.le_0_l]. apply (balanced_upd _ _ _ fd (Some (file, flags)) Hv). intros f. rewrite (proj1 Hfree). unfold came, went, one, leads. simpl.
      by destruct (file =? f).
    + destruct Hr as ([Hok' Hv] & -> & Hno). split_and!; [done|by right|done|]. intros _. apply Hgone; [by apply balanced_same|done].
  - destruct (replace_fd_at_spec fs fd file flags limit Hok) as (r & fs' & ev & -> & Hc & Hr). simpl mbind. eexists _, fs', ev. split; [done|].
    destruct r as [old|].
    + destruct Hr as (Hlt & -> & [Hok' Hv] & ->). split_and!; [done| |done|].
      { simpl. rewrite bool_decide_true by done. by rewrite view_file. }
      intros Hcl. split; [|intros f; rewrite went_app, (proj2 (close_events_count fs fd f Hcl)); pose proof (one_le fs fd f); unfold went; simpl; lia].
      apply (balanced_upd _ _ _ fd (Some (file, flags)) Hv). intros f. rewrite came_app, went_app.
      destruct (close_events_count fs fd f Hcl) as [-> ->]. unfold came, went, one, leads. simpl. destruct (file =? f); simpl; lia.
    + destruct Hr as (Hge & -> & ->). split_and!; [done| |done|intros _; apply Hgone; [by apply balanced_same|done]]. simpl.
      by rewrite bool_decide_false by lia.
  - destruct (clear_fd_spec fs fd Hok) as (fs' & -> & Hc & Hok' & Hv). simpl mbind. eexists _, fs', _. split; [done|].
    split_and!; [done| |done|]. { simpl. by rewrite view_file. }
    intros Hcl. apply Hgone; [|intros f; by apply close_events_count].
    apply (balanced_upd _ _ _ fd None Hv). intros f. by apply close_events_count.
  - destruct (set_flags_spec fs fd flags Hok) as (fs' & -> & Hc & Hok' & Hv). simpl mbind. eexists _, fs', _. split; [done|].
    split_and!; [done| |done|]. { simpl. by rewrite view_open. }
    intros _. apply Hgone; [|done]. apply balanced_files. intros i. rewrite Hv. destruct (Nat.eqb i fd); [|done]. by destruct (view fs i) as [[? ?]|].
  - destruct (close_cloexec_fds_spec fs Hok) as (fs' & Hrun & Hc & Hok' & Hv). rewrite Hrun. simpl mbind. eexists _, fs', _. split; [done|].
    split_and!; [done|done|done|]. intros Hcl. apply Hgone; [by apply exec_balanced|]. intros f. by apply cloexec_events_came.
Qed.

Lemma with_stdio_ok : files_ok with_stdio.
Proof.
  split; [done|..]; intros fd; do 3 (destruct fd as [|fd]; [done|]); unfold is_fd_open; simpl; [done|lia].
Qed.


(** ** Whole tables *)

Lemma descriptors_slots fs file :
  descriptors fs file = length (List.filter (fun s => match s with Some f => f =? file | None => false end) (fd_table fs)).
Proof.
  unfold descriptors, descriptors_below.
  rewrite (filter_ext_in _ (fun i => match mjoin (fd_table fs !! i) with Some f => f =? file | None => false end)).
  2: { intros i _. unfold leads. by rewrite <- view_file. }
  induction (fd_table fs) as [|s t IH]; [done|]. cbn [length seq List.filter]. rewrite <- seq_shift.
  assert (forall (l : list nat), length (List.filter (fun i => match mjoin ((s :: t) !! i) with Some f => f =? file | None => false end) (map S l)) =
    length (List.filter (fun i => match mjoin (t !! i) with Some f => f =? file | None => false end) l)) as Hm.
  { induction l as [|i l IHl]; [done|]. cbn [map List.filter]. change ((s :: t) !! S i) with (t !! i). case_if; simpl; by rewrite IHl. }
  destruct s as [f|]; simpl; [case_if; simpl|]; by rewrite Hm, IH.
Qed.

Lemma told_of_all (t : list (option Z)) file :
  came file (map Installed (omap id t)) = length (List.filter (fun s => match s with Some f => f =? file | None => false end) t) /\
  went file (map Closed (omap id t)) = length (List.filter (fun s => match s with Some f => f =? file | None => false end) t).
Proof.
  induction t as [|[f|] t [IH1 IH2]]; [done| |done].
  change (omap id (Some f :: t)) with (f :: omap id t). unfold came, went in *. cbn [map List.filter].
  destruct (f =? file); cbn [length]; by rewrite IH1, IH2.
Qed.
Lemma told_of_nothing (l : list Z) file : went file (map Installed l) = 0%nat /\ came file (map Closed l) = 0%nat.
Proof. split; induction l; done. Qed.

(** A copy of a table tells the files of all its descriptors, and so does closing it. *)
Lemma clone_descriptors fs file : let '(fs', ev) := clone_private fs in came file ev = descriptors fs' file /\ went file ev = 0%nat.
Proof.
  unfold clone_private. destruct (snapshot_fd_state fs) as [table flags]. split; [|apply told_of_nothing].
  rewrite descriptors_slots. apply told_of_all.
Qed.
Lemma close_all_descriptors fs file : fd_refs_closed fs = false ->
  let '(_, ev) := close_all_fd_refs fs in came file ev = 0%nat /\ went file ev = descriptors fs file.
Proof.
  intros Hc. unfold close_all_fd_refs. rewrite Hc. split; [apply told_of_nothing|]. rewrite descriptors_slots. apply told_of_all.
Qed.
