(* ===== verification/FdPipe.v ===== *)
(** * Descriptors and the ends of a pipe

    [FilesStruct] tells files of their descriptors, [Pipe] closes its ends when the last
    one is gone: with any number of processes that open, duplicate, close, fork, [exec] and
    exit, readers get end-of-file, and writers [EPIPE], exactly when no process has the
    other end open. *)

From S2P Require Import Prelude.
From S2P Require Import Files.
From S2P Require Import FilesProof.
From S2P Require Import Pipe.
Import Files.
Import Ring.

(** The two ends, as files. *)
Abbreviation READ_END := 2.
Abbreviation WRITE_END := 3.

(** The tables of all processes, the two ends and the ring of one pipe, and which ends
    have ever had a descriptor. *)
Record World := mkWorld {
  w_tables : list FilesStruct;
  w_read : Pipe;
  w_write : Pipe;
  w_ring : PipeRingBuffer;
  w_had_read : bool;
  w_had_write : bool
}.
#[export] Instance fields_World : Fields World := fun w =>
  mkWorld (w_tables w) (w_read w) (w_write w) (w_ring w) (w_had_read w) (w_had_write w).

Section Ends.
Context (alive waitable : Z -> bool).

(** A file hears of a descriptor. *)
Definition deliver (w : World) (e : FdEvent) : World :=
  match e with
  | Installed f =>
      if f =? READ_END then
        let (p, r) := on_fd_install (w_read w) (w_ring w) in w {{ w_read := p; w_ring := r; w_had_read := true }}
      else if f =? WRITE_END then
        let (p, r) := on_fd_install (w_write w) (w_ring w) in w {{ w_write := p; w_ring := r; w_had_write := true }}
      else w
  | Closed f =>
      if f =? READ_END then
        let '(p, r, _) := on_fd_close alive waitable (w_read w) (w_ring w) in w {{ w_read := p; w_ring := r }}
      else if f =? WRITE_END then
        let '(p, r, _) := on_fd_close alive waitable (w_write w) (w_ring w) in w {{ w_write := p; w_ring := r }}
      else w
  end.
Definition deliver_all (w : World) (ev : list FdEvent) : World := fold_left deliver ev w.

(** How many descriptors of a file there are. *)
Definition total (ts : list FilesStruct) (file : Z) : nat := sum_list_with (fun fs => descriptors fs file) ts.

(** The counters of the two ends do not wrap: fewer than [2^64] descriptors. *)
Definition counts_fit (ts : list FilesStruct) (ev : list FdEvent) : Prop :=
  Z.of_nat (total ts READ_END + came READ_END ev) < USIZE_MOD /\ Z.of_nat (total ts WRITE_END + came WRITE_END ev) < USIZE_MOD.

Inductive world_step : World -> World -> Prop :=
  | step_op w i fs op out fs' ev : w_tables w !! i = Some fs -> fd_op op fs = Some (out, fs', ev) -> counts_fit (w_tables w) ev ->
      world_step w (deliver_all (w {{ w_tables := <[i := fs']> (w_tables w) }}) ev)
  | step_fork w i fs fs' ev : w_tables w !! i = Some fs -> clone_private fs = (fs', ev) -> counts_fit (w_tables w) ev ->
      world_step w (deliver_all (w {{ w_tables := w_tables w ++ [fs'] }}) ev)
  | step_exit w i fs fs' ev : w_tables w !! i = Some fs -> close_all_fd_refs fs = (fs', ev) -> counts_fit (w_tables w) ev ->
      world_step w (deliver_all (w {{ w_tables := <[i := Files.new]> (w_tables w) }}) ev).

(** A new pipe that nobody has a descriptor of, and the first process. *)
Definition boot (has_cap : bool) (limit : Z) : World :=
  let '(ring, rd, wr) := make_pipe has_cap limit in mkWorld [with_stdio] rd wr ring false false.

(** ** The ends count their descriptors *)

Record ends_ok (nr nw : Z) (w : World) : Prop := {
  eo_read : w_read w = mkPipe true false nr;
  eo_write : w_write w = mkPipe false true nw;
  eo_read_shut : read_end_shutdown (w_ring w) = w_had_read w && (nr =? 0);
  eo_write_shut : write_end_shutdown (w_ring w) = w_had_write w && (nw =? 0);
  eo_refs : read_end (w_ring w) = Some 1 /\ write_end (w_ring w) = Some 1 /\
            read_end_ref_bias (w_ring w) = 0 /\ write_end_ref_bias (w_ring w) = 0;
  eo_had : (nr = 0 \/ w_had_read w = true) /\ (nw = 0 \/ w_had_write w = true)
}.

Definition delta (file : Z) (e : FdEvent) : Z :=
  match e with Installed f => if f =? file then 1 else 0 | Closed f => if f =? file then -1 else 0 end.

(** One end hears of a descriptor: what becomes of its count and of the two shutdowns. *)
Lemma install_end rd wr n r : 0 <= n -> n + 1 < USIZE_MOD ->
  exists r', on_fd_install (mkPipe rd wr n) r = (mkPipe rd wr (n + 1), r') /\
    read_end_shutdown r' = (if (n =? 0) && rd then false else read_end_shutdown r) /\
    write_end_shutdown r' = (if (n =? 0) && wr then false else write_end_shutdown r) /\
    read_end r' = read_end r /\ write_end r' = write_end r /\
    read_end_ref_bias r' = read_end_ref_bias r /\ write_end_ref_bias r' = write_end_ref_bias r.
Proof.
  intros Hn Hb. unfold on_fd_install. cbn [fd_refs p_readable p_writable].
  assert (wadd n 1 = n + 1) as Hw by (apply wadd_small; lia). destruct (n =? 0); eexists; (split; [cbn; by rewrite Hw|]);
    destruct rd, wr; done.
Qed.

Lemma close_end rd wr n r : 0 < n ->
  exists r' ts, on_fd_close alive waitable (mkPipe rd wr n) r = (mkPipe rd wr (n - 1), r', ts) /\
    read_end_shutdown r' = (if (n =? 1) && rd then true else read_end_shutdown r) /\
    write_end_shutdown r' = (if (n =? 1) && wr then true else write_end_shutdown r) /\
    read_end r' = read_end r /\ write_end r' = write_end r /\
    read_end_ref_bias r' = read_end_ref_bias r /\ write_end_ref_bias r' = write_end_ref_bias r.
Proof.
  intros Hn. unfold on_fd_close, drain_readers, drain_writers, drain_poll_waiters. cbn [fd_refs].
  destruct (Z.eqb_spec n 0); [lia|]. destruct (Z.eqb_spec n 1) as [->|]; destruct rd, wr; eexists _, _; done.
Qed.

Lemma deliver_ok nr nw w e : ends_ok nr nw w -> 0 <= nr -> 0 <= nw ->
  0 <= nr + delta READ_END e < USIZE_MOD -> 0 <= nw + delta WRITE_END e < USIZE_MOD ->
  ends_ok (nr + delta READ_END e) (nw + delta WRITE_END e) (deliver w e).
Proof.
  intros [Hr Hw Hrs Hws (Hre & Hwe & Hrb & Hwb) [Hhr Hhw]] Hnr Hnw Hbr Hbw. destruct w as [ts rd wr ring hr hw]. simpl in *. subst rd wr.
  destruct e as [f|f]; unfold delta, deliver in *; cbn [w_read w_write w_ring] in *.
  - destruct (Z.eqb_spec f READ_END) as [->|]; [|destruct (Z.eqb_spec f WRITE_END) as [->|]]; cbn [Z.eqb Pos.eqb] in *; rewrite ?Z.add_0_r in *.
    + destruct (install_end true false nr ring) as (r' & -> & Hr1 & Hr2 & ? & ? & ? & ?); [lia..|]. split; cbn; try done; [| |by split_and!; congruence|auto].
      * rewrite Hr1, Hrs. destruct (Z.eqb_spec nr 0), (Z.eqb_spec (nr + 1) 0); simpl; try lia; by rewrite ?andb_false_r.
      * by rewrite Hr2, andb_false_r.
    + destruct (install_end false true nw ring) as (r' & -> & Hr1 & Hr2 & ? & ? & ? & ?); [lia..|]. split; cbn; try done; [| |by split_and!; congruence|auto].
      * by rewrite Hr1, andb_false_r.
      * rewrite Hr2, Hws. destruct (Z.eqb_spec nw 0), (Z.eqb_spec (nw + 1) 0); simpl; try lia; by rewrite ?andb_false_r.
    + by split.
  - destruct (Z.eqb_spec f READ_END) as [->|]; [|destruct (Z.eqb_spec f WRITE_END) as [->|]]; cbn [Z.eqb Pos.eqb] in *; rewrite ?Z.add_0_r in *.
    + destruct (close_end true false nr ring) as (r' & ts' & -> & Hr1 & Hr2 & ? & ? & ? & ?); [lia|].
      destruct Hhr as [?|Hhr]; [lia|]. split; cbn; try done; [| |by split_and!; congruence|auto].
      * rewrite Hr1, Hrs, Hhr. destruct (Z.eqb_spec nr 1), (Z.eqb_spec nr 0), (Z.eqb_spec (nr + -1) 0); simpl; (done || lia).
      * by rewrite Hr2, andb_false_r.
    + destruct (close_end false true nw ring) as (r' & ts' & -> & Hr1 & Hr2 & ? & ? & ? & ?); [lia|].
      destruct Hhw as [?|Hhw]; [lia|]. split; cbn; try done; [| |by split_and!; congruence|auto].
      * by rewrite Hr1, andb_false_r.
      * rewrite Hr2, Hws, Hhw. destruct (Z.eqb_spec nw 1), (Z.eqb_spec nw 0), (Z.eqb_spec (nw + -1) 0); simpl; (done || lia).
    + by split.
Qed.

Lemma deliver_tables w e : w_tables (deliver w e) = w_tables w.
Proof.
  unfold deliver. destruct e; repeat case_match; done.
Qed.
Lemma deliver_all_tables ev w : w_tables (deliver_all w ev) = w_tables w.
Proof.
  revert w. induction ev as [|e ev IH]; intros w; [done|]. change (deliver_all w (e :: ev)) with (deliver_all (deliver w e) ev).
  by rewrite IH, deliver_tables.
Qed.

Lemma came_cons file e ev : Z.of_nat (came file (e :: ev)) = Z.max 0 (delta file e) + Z.of_nat (came file ev).
Proof. unfold came, delta. destruct e as [f|f]; simpl; destruct (f =? file); simpl; lia. Qed.
Lemma went_cons file e ev : Z.of_nat (went file (e :: ev)) = Z.max 0 (- delta file e) + Z.of_nat (went file ev).
Proof. unfold went, delta. destruct e as [f|f]; simpl; destruct (f =? file); simpl; lia. Qed.

Lemma deliver_all_ok ev nr nw w : ends_ok nr nw w ->
  Z.of_nat (went READ_END ev) <= nr -> nr + Z.of_nat (came READ_END ev) < USIZE_MOD ->
  Z.of_nat (went WRITE_END ev) <= nw -> nw + Z.of_nat (came WRITE_END ev) < USIZE_MOD ->
  ends_ok (nr + Z.of_nat (came READ_END ev) - Z.of_nat (went READ_END ev))
          (nw + Z.of_nat (came WRITE_END ev) - Z.of_nat (went WRITE_END ev)) (deliver_all w ev).
Proof.
  revert nr nw w. induction ev as [|e ev IH]; intros nr nw w Hok Hr Hr' Hw Hw'.
  { change (came READ_END []) with 0%nat. change (came WRITE_END []) with 0%nat. change (went READ_END []) with 0%nat.
    change (went WRITE_END []) with 0%nat. by rewrite !Z.add_0_r, !Z.sub_0_r. }
  rewrite came_cons in Hr', Hw'. rewrite went_cons in Hr, Hw. rewrite !came_cons, !went_cons.
  change (deliver_all w (e :: ev)) with (deliver_all (deliver w e) ev).
  destruct (IH (nr + delta READ_END e) (nw + delta WRITE_END e) (deliver w e)) as [H1 H2 H3 H4 H5 H6]; try lia.
  { apply deliver_ok; [done|lia..]. }
  replace (nr + (Z.max 0 (delta READ_END e) + Z.of_nat (came READ_END ev)) - (Z.max 0 (- delta READ_END e) + Z.of_nat (went READ_END ev)))
    with (nr + delta READ_END e + Z.of_nat (came READ_END ev) - Z.of_nat (went READ_END ev)) by lia.
  replace (nw + (Z.max 0 (delta WRITE_END e) + Z.of_nat (came WRITE_END ev)) - (Z.max 0 (- delta WRITE_END e) + Z.of_nat (went WRITE_END ev)))
    with (nw + delta WRITE_END e + Z.of_nat (came WRITE_END ev) - Z.of_nat (went WRITE_END ev)) by lia.
  by split.
Qed.

(** ** The tables *)

Lemma total_insert ts i fs fs' file : ts !! i = Some fs ->
  (total (<[i := fs']> ts) file + descriptors fs file = total ts file + descriptors fs' file)%nat.
Proof.
  revert i. induction ts as [|t ts IH]; intros i Hi; [done|]. destruct i as [|i]; simpl in *.
  - injection Hi as ->. unfold total. simpl. lia.
  - specialize (IH i Hi). unfold total in *. simpl. lia.
Qed.
Lemma total_snoc ts fs file : total (ts ++ [fs]) file = (total ts file + descriptors fs file)%nat.
Proof. unfold total. rewrite sum_list_with_app. simpl. lia. Qed.
Lemma total_le ts i fs file : ts !! i = Some fs -> (descriptors fs file <= total ts file)%nat.
Proof. intros Hi. pose proof (total_insert ts i fs Files.new file Hi) as H. change (descriptors Files.new file) with 0%nat in H. lia. Qed.

Record world_ok (w : World) : Prop := {
  wo_ends : ends_ok (Z.of_nat (total (w_tables w) READ_END)) (Z.of_nat (total (w_tables w) WRITE_END)) w;
  wo_tables : Forall (fun fs => files_ok fs /\ fd_refs_closed fs = false) (w_tables w)
}.

(** Telling the ends of what changed in the tables. *)
Lemma retabled w ts ev : world_ok w -> Forall (fun fs => files_ok fs /\ fd_refs_closed fs = false) ts ->
  counts_fit (w_tables w) ev ->
  (forall file, (total ts file + went file ev = total (w_tables w) file + came file ev)%nat /\ (went file ev <= total (w_tables w) file)%nat) ->
  world_ok (deliver_all (w {{ w_tables := ts }}) ev).
Proof.
  intros [He Ht] Hts [Hfr Hfw] Hbal. destruct (Hbal READ_END) as [Hbr Hwr]. destruct (Hbal WRITE_END) as [Hbw Hww].
  split; rewrite deliver_all_tables; [|done].
  destruct (deliver_all_ok ev _ _ (w {{ w_tables := ts }}) ltac:(destruct He; split; eassumption)) as [H1 H2 H3 H4 H5 H6]; [lia..|].
  change (w_tables (w {{ w_tables := ts }})) with ts.
  replace (Z.of_nat (total ts READ_END)) with (Z.of_nat (total (w_tables w) READ_END) + Z.of_nat (came READ_END ev) - Z.of_nat (went READ_END ev)) by lia.
  replace (Z.of_nat (total ts WRITE_END)) with (Z.of_nat (total (w_tables w) WRITE_END) + Z.of_nat (came WRITE_END ev) - Z.of_nat (went WRITE_END ev)) by lia.
  by split.
Qed.

Lemma new_files_ok : files_ok Files.new.
Proof. split; [done|done|intros fd Hlt; simpl in Hlt; lia]. Qed.

Lemma world_step_ok w w' : world_step w w' -> world_ok w -> world_ok w'.
Proof.
  intros Hs Hok. destruct Hs as [w i fs op out fs' ev Hi Hop Hfit|w i fs fs' ev Hi Hc Hfit|w i fs fs' ev Hi Hc Hfit];
    pose proof (wo_tables _ Hok) as Ht; pose proof (Forall_lookup_1 _ _ _ _ Ht Hi) as [Hfs Hcl].
  - destruct (fd_op_correct op fs Hfs) as (out' & fs1 & ev' & Hop' & Hok' & _ & Hcl' & Hb). rewrite Hop in Hop'. injection Hop' as <- <- <-.
    destruct (Hb Hcl) as [Hbal Hwent]. apply retabled; [done| |done|].
    + apply Forall_insert; [done|]. split; [done|congruence].
    + intros file. pose proof (total_insert _ _ _ fs' file Hi). pose proof (total_le _ _ _ file Hi).
      specialize (Hbal file). specialize (Hwent file). lia.
  - pose proof (clone_private_ok fs Hfs) as [Hok' _]. rewrite Hc in Hok'. apply retabled; [done| |done|].
    + apply Forall_app. split; [done|]. constructor; [|done]. split; [done|].
      unfold clone_private in Hc. destruct (snapshot_fd_state fs). by injection Hc as <- _.
    + intros file. pose proof (clone_descriptors fs file) as Hd. rewrite Hc in Hd. rewrite total_snoc. lia.
  - apply retabled; [done| |done|].
    + apply Forall_insert; [done|]. split; [apply new_files_ok|done].
    + intros file. pose proof (close_all_descriptors fs file Hcl) as Hd. rewrite Hc in Hd.
      pose proof (total_insert _ _ _ Files.new file Hi) as Hti. change (descriptors Files.new file) with 0%nat in Hti. lia.
Qed.


End Ends.

(** A process opens the write end and closes it again. *)
Definition nobody : Z -> bool := fun _ => false.
Definition with_write_end : FilesStruct := mkFiles [Some STDIN; Some STDOUT; Some STDOUT; Some WRITE_END] [0; 0; 0; 0] 4 None false.
Definition opened : World :=
  deliver_all nobody nobody ((boot true 4096) {{ w_tables := [with_write_end] }}) [Installed WRITE_END].
Definition closed_again : World :=
  deliver_all nobody nobody (opened {{ w_tables := [with_stdio] }}) [Closed WRITE_END].

