(* ===== verification/Ipc.v ===== *)
(** * What System V objects share

    Permissions and waiter queues ([syscall/sysv_ipc/common.rs]), and the choice of a free
    identifier in a table of objects. *)

From S2P Require Import Prelude.
From S2P Require Import BTree.

Abbreviation IPC_PRIVATE := 0.
Abbreviation IPC_CREAT := 512.
Abbreviation IPC_EXCL := 1024.
Abbreviation IPC_NOWAIT := 2048.

(** ** Permissions *)

Record IpcPermKernel := mkPerm {
  perm_key : Z;
  perm_uid : Z;
  perm_gid : Z;
  perm_cuid : Z;
  perm_cgid : Z;
  perm_mode : Z
}.
#[export] Instance fields_IpcPermKernel : Fields IpcPermKernel := fun p =>
  mkPerm (perm_key p) (perm_uid p) (perm_gid p) (perm_cuid p) (perm_cgid p) (perm_mode p).

Record Cred := mkCred {
  euid : Z;
  egid : Z;
  groups : list Z;
  cred_pid : Z
}.

Definition is_owner_or_root (p : IpcPermKernel) (c : Cred) : bool :=
  (euid c =? 0) || (euid c =? perm_uid p) || (euid c =? perm_cuid p).

Definition check_ipc_access (p : IpcPermKernel) (req : Z) (c : Cred) : bool :=
  if (req =? 0) || (euid c =? 0) then true
  else
    let class_shift :=
      if (euid c =? perm_uid p) || (euid c =? perm_cuid p) then 6
      else if (egid c =? perm_gid p) || (egid c =? perm_cgid p) ||
              existsb (fun g => (g =? perm_gid p) || (g =? perm_cgid p)) (groups c) then 3
      else 0 in
    let need := Z.land (Z.shiftr req 6) 7 in
    let allow := Z.land (Z.shiftr (perm_mode p) class_shift) 7 in
    Z.land allow need =? need.

(** ** Waiters *)

Section Waiters.
Context (alive blocked : Z -> bool).

Definition drain_live_waiters (q : list Z) : list Z := List.filter alive q.
Definition add_waiter_once (q : list Z) (task : Z) : list Z :=
  if existsb (fun w => alive w && (w =? task)) q then q else vec_push q task.

(** [count_blocked_waiters]: how many live waiters are blocked, and the queue without the
    dead ones. *)
Definition count_blocked_waiters (q : list Z) : Z * list Z :=
  let q := List.filter alive q in (Z.of_nat (length (List.filter blocked q)), q).

End Waiters.

(** ** Identifiers *)

(** The loop of [alloc_id] of the tables of sets and of queues. *)
Fixpoint alloc_id_loop {V} (fuel : nat) (m : list (Z * V)) (id : Z) : Z :=
  match fuel with
  | O => id
  | S fuel => if bool_decide (is_Some (bt_get m id)) then alloc_id_loop fuel m (wadd id 1) else id
  end.
Definition free_id {V} (next : Z) (m : list (Z * V)) : Z := alloc_id_loop (S (length m)) m (if next <? 1 then 1 else next).

Lemma mod_window_inj a j k M : 0 <= j < M -> 0 <= k < M -> (a + j) mod M = (a + k) mod M -> j = k.
Proof.
  intros Hj Hk Heq. pose proof (Z.div_mod (a + j) M ltac:(lia)). pose proof (Z.div_mod (a + k) M ltac:(lia)).
  assert (j - k = M * ((a + j) / M - (a + k) / M)) as Hd by (rewrite Z.mul_sub_distr_l; lia).
  set (d := (a + j) / M - (a + k) / M) in *. clearbody d. destruct (Z.eq_dec d 0) as [->|]; nia.
Qed.

Lemma alloc_id_loop_cases {V} fuel (m : list (Z * V)) id :
  is_usize id ->
  let r := alloc_id_loop fuel m id in
  is_usize r /\ (bt_get m r = None \/ forall j, (j < fuel)%nat -> is_Some (bt_get m ((id + Z.of_nat j) mod USIZE_MOD))).
Proof.
  cbv zeta. revert id. induction fuel as [|fuel IH]; intros id Hid; simpl; [split; [done|right; lia]|].
  case_bool_decide as Hget.
  2:{ split; [done|]. left. destruct (bt_get m id); [|done]. by destruct Hget. }
  destruct (IH (wadd id 1) (wadd_range _ _)) as [Hr [Hnone|Hall]]; split; [done|by left|done|]. right. intros [|j] Hj.
  - simpl. rewrite Z.add_0_r, Z.mod_small by (unfold is_usize in Hid; lia). done.
  - specialize (Hall j ltac:(lia)). unfold wadd in Hall. rewrite Zplus_mod_idemp_l in Hall.
    replace (id + Z.of_nat (S j)) with (id + 1 + Z.of_nat j) by lia. done.
Qed.

(** Fewer than [2^64] objects leave an identifier free within as many tries. *)
Lemma free_id_fresh {V} next (m : list (Z * V)) :
  is_usize next -> Z.of_nat (length m) < USIZE_MAX -> is_usize (free_id next m) /\ bt_get m (free_id next m) = None.
Proof.
  intros Hnext Hlen. unfold free_id. set (start := if next <? 1 then 1 else next).
  assert (is_usize start) as Hstart by (unfold start; case_if; unfold is_usize in *; lia).
  destruct (alloc_id_loop_cases (S (length m)) m start Hstart) as [Hr [Hnone|Hall]]; split; [done..|]. exfalso.
  set (ids := (fun j => (start + Z.of_nat j) mod USIZE_MOD) <$> seq 0 (S (length m))).
  assert (NoDup ids) as Hnd.
  { apply NoDup_fmap_2_strong; [|apply NoDup_seq]. intros j k Hj%elem_of_seq Hk%elem_of_seq Heq.
    apply mod_window_inj in Heq; lia. }
  assert (ids ⊆+ map fst m) as Hsub%submseteq_length.
  { apply NoDup_submseteq; [done|]. intros x (j & -> & Hj%elem_of_seq)%list_elem_of_fmap.
    destruct (Hall j ltac:(lia)) as [v Hv]. apply bt_get_in in Hv. apply list_elem_of_fmap. by exists ((start + Z.of_nat j) mod USIZE_MOD, v). }
  unfold ids in Hsub. rewrite length_fmap, length_seq, length_map in Hsub. lia.
Qed.

(** ** Queues *)

Section Queues.
Context (alive : Z -> bool).

Lemma elem_drain t q : alive t = true -> t ∈ q -> t ∈ drain_live_waiters alive q.
Proof. intros Ha Ht. apply list_elem_of_In, filter_In. split; [by apply list_elem_of_In|done]. Qed.

Lemma add_waiter_once_elem q t : t ∈ add_waiter_once alive q t.
Proof.
  unfold add_waiter_once. destruct (existsb _ q) eqn:E; [|unfold vec_push; set_solver].
  apply existsb_exists in E as (w & Hw & [_ ->%Z.eqb_eq]%andb_true_iff). by apply list_elem_of_In.
Qed.

Lemma add_waiter_once_sub q t t' : t' ∈ q -> t' ∈ add_waiter_once alive q t.
Proof. unfold add_waiter_once, vec_push. case_if; set_solver. Qed.

End Queues.

Lemma key_eqb_Z (a b : Z) : key_eqb a b = (a =? b).
Proof. apply eq_true_iff_eq. rewrite key_eqb_eq. lia. Qed.

(** ** Tables with keys

    A table of objects by identifier, and of identifiers by key: every object is under its
    identifier and found by its key if it has one, and a key leads to its object. *)

Section Table.
Context {V : Type} (id_of : V -> Z) (key_of : V -> option Z).

Record table_ok (next : Z) (objs : list (Z * V)) (keys : list (Z * Z)) : Prop := {
  to_objs : bt_wf objs;
  to_keys : bt_wf keys;
  to_next : is_usize next;
  to_obj : forall id v, bt_get objs id = Some v ->
    id_of v = id /\ forall k, key_of v = Some k -> bt_get keys k = Some id;
  to_key : forall k id, bt_get keys k = Some id -> exists v, bt_get objs id = Some v /\ key_of v = Some k
}.

Lemma key_table_set next objs keys id v v' :
  table_ok next objs keys -> bt_get objs id = Some v -> id_of v' = id_of v -> key_of v' = key_of v ->
  table_ok next (bt_insert objs id v') keys.
Proof.
  intros Ht Hv Hid Hkey. destruct (to_obj _ _ _ Ht id v Hv) as [Hid0 Hk0]. constructor.
  - apply bt_wf_insert, Ht.
  - apply Ht.
  - apply Ht.
  - intros id' w. rewrite bt_get_insert, key_eqb_Z. destruct (Z.eqb_spec id' id) as [->|]; [|apply Ht].
    intros [= <-]. by rewrite Hid, Hkey.
  - intros k id' Hk. destruct (to_key _ _ _ Ht k id' Hk) as (w & Hw & Hkw). rewrite bt_get_insert, key_eqb_Z.
    destruct (Z.eqb_spec id' id) as [->|]; [|eauto]. exists v'. split; [done|]. rewrite Hkey. congruence.
Qed.

Lemma key_table_new next objs keys next' id v :
  table_ok next objs keys -> bt_get objs id = None -> is_usize next' -> id_of v = id ->
  (forall k, key_of v = Some k -> bt_get keys k = None) ->
  table_ok next' (bt_insert objs id v) (match key_of v with Some k => bt_insert keys k id | None => keys end).
Proof.
  intros Ht Hnone Hnext Hid Hfree. constructor.
  - apply bt_wf_insert, Ht.
  - destruct (key_of v); [apply bt_wf_insert|]; apply Ht.
  - done.
  - intros id' w. rewrite bt_get_insert, key_eqb_Z. destruct (Z.eqb_spec id' id) as [->|Hne].
    + intros [= <-]. split; [done|]. intros k ->. by rewrite bt_get_insert, key_eqb_refl.
    + intros Hw. destruct (to_obj _ _ _ Ht id' w Hw) as [? Hk]. split; [done|]. intros k Hk'. specialize (Hk k Hk').
      destruct (key_of v) as [key|]; [|done]. rewrite bt_get_insert, key_eqb_Z. destruct (Z.eqb_spec k key) as [->|]; [|done].
      rewrite Hfree in Hk; done.
  - intros k i Hki. rewrite bt_get_insert, key_eqb_Z.
    assert (bt_get keys k = Some i -> exists w, (if i =? id then Some v else bt_get objs i) = Some w /\ key_of w = Some k) as Hold.
    { intros Hk. destruct (to_key _ _ _ Ht k i Hk) as (w & Hw & ?). destruct (Z.eqb_spec i id) as [->|]; [congruence|eauto]. }
    destruct (key_of v) as [key|] eqn:Ekey; [|auto]. rewrite bt_get_insert, key_eqb_Z in Hki. destruct (Z.eqb_spec k key) as [->|]; [|auto].
    injection Hki as ->. rewrite Z.eqb_refl. eauto.
Qed.

(** The keys after the removal of [v], as [remove_set] and [remove_queue] have them. *)
Definition keys_without (keys : list (Z * Z)) (id : Z) (v : V) : list (Z * Z) :=
  match key_of v with
  | Some key => if bool_decide (bt_get keys key = Some id) then bt_remove keys key else keys
  | None => keys
  end.

Lemma key_table_remove next objs keys id v :
  table_ok next objs keys -> bt_get objs id = Some v -> table_ok next (bt_remove objs id) (keys_without keys id v).
Proof.
  intros Ht Hv. destruct (to_obj _ _ _ Ht id v Hv) as [Hid Hk].
  assert (bt_wf (keys_without keys id v) /\
    (forall k i, bt_get (keys_without keys id v) k = Some i -> bt_get keys k = Some i /\ i <> id) /\
    (forall k i, i <> id -> bt_get keys k = Some i -> bt_get (keys_without keys id v) k = Some i)) as (Hwf & H1 & H2).
  { unfold keys_without. destruct (key_of v) as [key|] eqn:Ek.
    - rewrite bool_decide_true by by apply Hk. split_and!; [apply bt_wf_remove, Ht|..]; intros k i;
        rewrite bt_get_remove, key_eqb_Z by apply Ht; destruct (Z.eqb_spec k key) as [->|Hne]; try done.
      + intros Hki. split; [done|]. intros ->. destruct (to_key _ _ _ Ht k id Hki) as (w & Hw & Hkw). congruence.
      + intros Hi Hki. exfalso. apply Hi. specialize (Hk key eq_refl). congruence.
    - split_and!; [apply Ht| |done]. intros k i Hki. split; [done|]. intros ->.
      destruct (to_key _ _ _ Ht k id Hki) as (w & Hw & Hkw). congruence. }
  constructor; [apply bt_wf_remove, Ht|done|apply Ht|..].
  - intros id' w. rewrite bt_get_remove, key_eqb_Z by apply Ht. destruct (Z.eqb_spec id' id) as [->|]; [done|].
    intros Hw. destruct (to_obj _ _ _ Ht id' w Hw) as [? Hk']. split; [done|]. intros k Hk0. auto.
  - intros k i Hki. destruct (H1 k i Hki) as [Hk1 Hne]. rewrite bt_get_remove, key_eqb_Z by apply Ht.
    destruct (Z.eqb_spec i id) as [->|]; [done|]. by apply (to_key _ _ _ Ht).
Qed.

End Table.
