(* ===== verification/Sem.v ===== *)
(** * System V semaphores

    [syscall/sysv_ipc/sem.rs].  A waiter is the identity of its task; [semop] is a
    sequence of turns under the lock of the managers; whom a call wakes is part of its
    result. *)

From S2P Require Import Prelude.
From S2P Require Import BTree.
From S2P Require Import Errno.
From S2P Require Import Ipc.

Abbreviation SEM_R := 256.
Abbreviation SEM_A := 128.
Abbreviation SEM_UNDO := 4096.
Abbreviation SEMVMX := 32767.
Abbreviation SEMAEM := 32767.

(** ** The state *)

Record SemEntry := mkSem {
  sem_val : Z;
  last_pid : Z;
  ncnt_waiters : list Z;
  zcnt_waiters : list Z
}.
#[export] Instance fields_SemEntry : Fields SemEntry := fun s =>
  mkSem (sem_val s) (last_pid s) (ncnt_waiters s) (zcnt_waiters s).

Record SemSet := mkSet {
  set_id : Z;
  set_key : option Z;
  set_perm : IpcPermKernel;
  set_sems : list SemEntry;
  set_otime : Z;
  set_ctime : Z
}.
#[export] Instance fields_SemSet : Fields SemSet := fun s =>
  mkSet (set_id s) (set_key s) (set_perm s) (set_sems s) (set_otime s) (set_ctime s).

Record SemManager := mkManager {
  next_id : Z;
  sets : list (Z * SemSet);
  key2id : list (Z * Z)
}.
#[export] Instance fields_SemManager : Fields SemManager := fun m => mkManager (next_id m) (sets m) (key2id m).

Record SemUndoEntry := mkUndo {
  u_ns : Z;
  u_semid : Z;
  u_semnum : nat;
  u_adj : Z
}.

(** [SEM_MANAGERS] and [SEM_UNDOS]. *)
Record SemState := mkState {
  managers : list (Z * SemManager);
  undos : list (Z * list SemUndoEntry)
}.
#[export] Instance fields_SemState : Fields SemState := fun s => mkState (managers s) (undos s).

(** One operation of [semop], [sembuf]. *)
Record SemBuf := mkBuf {
  sem_num : nat;
  sem_op : Z;
  sem_flg : Z
}.

Record SemLimits := mkLimits {
  semmsl : Z;
  semmns : Z;
  semopm : Z;
  semmni : Z
}.

Module Sem.

Definition empty_manager : SemManager := mkManager 0 [] [].

(** [managers.entry(ns).or_default()]. *)
Definition manager (s : SemState) (ns : Z) : SemManager := unwrap_or (bt_get (managers s) ns) empty_manager.
Definition with_manager (s : SemState) (ns : Z) (m : SemManager) : SemState :=
  s {{ managers := bt_insert (managers s) ns m }}.
Definition with_set (s : SemState) (ns semid : Z) (set : SemSet) : SemState :=
  let m := manager s ns in with_manager s ns (m {{ sets := bt_insert (sets m) semid set }}).

Definition new_entry : SemEntry := mkSem 0 0 [] [].

Definition alloc_id (m : SemManager) : Z * SemManager :=
  let id := free_id (next_id m) (sets m) in (id, m {{ next_id := wadd id 1 }}).

(** ** Waiters *)

Section Waiters.
Context (alive blocked : Z -> bool).

Definition wake_sem_waiters (sem : SemEntry) : SemEntry * list Z :=
  let wake0 := if sem_val sem =? 0 then drain_live_waiters alive (zcnt_waiters sem) else [] in
  let wake1 := if 0 <? sem_val sem then drain_live_waiters alive (ncnt_waiters sem) else [] in
  (sem {{ zcnt_waiters := if sem_val sem =? 0 then [] else zcnt_waiters sem;
          ncnt_waiters := if 0 <? sem_val sem then [] else ncnt_waiters sem }}, wake0 ++ wake1).

Definition remove_set (m : SemManager) (id : Z) : SemManager * list Z :=
  match bt_get (sets m) id with
  | None => (m, [])
  | Some set =>
      let wake := concat (map (fun sem => drain_live_waiters alive (ncnt_waiters sem) ++ drain_live_waiters alive (zcnt_waiters sem)) (set_sems set)) in
      let m := m {{ sets := bt_remove (sets m) id }} in
      (match set_key set with
       | Some key => if bool_decide (bt_get (key2id m) key = Some id) then m {{ key2id := bt_remove (key2id m) key }} else m
       | None => m
       end, wake)
  end.

(** ** Adjustments at exit *)

Definition same_sem (ns semid : Z) (semnum : nat) (e : SemUndoEntry) : bool :=
  (u_ns e =? ns) && (u_semid e =? semid) && Nat.eqb (u_semnum e) semnum.

(** [undo.retain]: the entries that [keep] keeps, and no process without entries. *)
Definition retain_undos (keep : SemUndoEntry -> bool) (u : list (Z * list SemUndoEntry)) : list (Z * list SemUndoEntry) :=
  List.filter (fun p => match snd p with [] => false | _ => true end) (map (fun p => (fst p, List.filter keep (snd p))) u).
Definition clear_undo_for_sem (ns semid : Z) (semnum : nat) (s : SemState) : SemState :=
  s {{ undos := retain_undos (fun e => negb (same_sem ns semid semnum e)) (undos s) }}.
Definition clear_undo_for_set (ns semid : Z) (s : SemState) : SemState :=
  s {{ undos := retain_undos (fun e => negb ((u_ns e =? ns) && (u_semid e =? semid))) (undos s) }}.

Definition current_adj (ns semid : Z) (semnum : nat) (entries : list SemUndoEntry) : Z :=
  match List.find (same_sem ns semid semnum) entries with Some e => u_adj e | None => 0 end.

(** The first loop of [record_sem_undo]: every adjustment stays in range. *)
Definition undo_in_range (ns semid : Z) (entries : list SemUndoEntry) (p : nat * Z) : bool :=
  let (semnum, delta) := p in
  if delta =? 0 then true
  else
    let next := current_adj ns semid semnum entries + delta in
    (I32_MIN <=? next) && (next <=? I32_MAX) && (- SEMAEM <=? next) && (next <=? SEMAEM).

(** One step of the second loop. *)
Fixpoint add_to_first (same : SemUndoEntry -> bool) (delta : Z) (entries : list SemUndoEntry) : option (list SemUndoEntry) :=
  match entries with
  | [] => None
  | e :: entries =>
      if same e then Some (mkUndo (u_ns e) (u_semid e) (u_semnum e) (u_adj e + delta) :: entries)
      else rest ← add_to_first same delta entries; Some (e :: rest)
  end.
Definition add_undo (ns semid : Z) (entries : list SemUndoEntry) (p : nat * Z) : list SemUndoEntry :=
  let (semnum, delta) := p in
  if delta =? 0 then entries
  else
    match add_to_first (same_sem ns semid semnum) delta entries with
    | Some entries => entries
    | None => vec_push entries (mkUndo ns semid semnum delta)
    end.

(** [record_sem_undo]; an error leaves the entry of the process, perhaps empty. *)
Definition record_sem_undo (pid ns semid : Z) (deltas : list Z) (s : SemState) : (SyscallError + unit) * SemState :=
  if forallb (fun d => d =? 0) deltas then (inr tt, s)
  else
    let entries := unwrap_or (bt_get (undos s) pid) [] in
    let indexed := imap pair deltas in
    if negb (forallb (undo_in_range ns semid entries) indexed) then (inl ERANGE, s {{ undos := bt_insert (undos s) pid entries }})
    else
      let entries := List.filter (fun e => negb (u_adj e =? 0)) (fold_left (add_undo ns semid) indexed entries) in
      (inr tt, s {{ undos := match entries with [] => bt_remove (undos s) pid | _ => bt_insert (undos s) pid entries end }}).

(** [exit_cleanup]: one entry, and all of the process. *)
Definition undo_one (pid now : Z) (a : SemState * list Z) (e : SemUndoEntry) : SemState * list Z :=
  let (s, woken) := a in
  match bt_get (managers s) (u_ns e) with
  | None => a
  | Some m =>
      match bt_get (sets m) (u_semid e) with
      | None => a
      | Some set =>
          match set_sems set !! u_semnum e with
          | None => a
          | Some sem =>
              let next := clamp (Z.max I32_MIN (Z.min I32_MAX (sem_val sem + u_adj e))) 0 SEMVMX in
              if next =? sem_val sem then a
              else
                let (sem, wake) := wake_sem_waiters (sem {{ sem_val := next; last_pid := pid }}) in
                (with_set s (u_ns e) (u_semid e)
                   (set {{ set_sems := <[u_semnum e := sem]> (set_sems set); set_otime := now }}), woken ++ wake)
          end
      end
  end.
Definition exit_cleanup (pid now : Z) (s : SemState) : SemState * list Z :=
  let entries := unwrap_or (bt_get (undos s) pid) [] in
  fold_left (undo_one pid now) entries (s {{ undos := bt_remove (undos s) pid }}, []).

(** ** [semget] *)

Definition total_sems (m : SemManager) : Z := fold_left (fun acc p => sat_add acc (Z.of_nat (length (set_sems (snd p))))) (sets m) 0.

Definition syscall_semget (l : SemLimits) (cred : Cred) (ns now key nsems semflg : Z) (s : SemState) : Z * SemState :=
  let key_u32 := key mod 4294967296 in
  let m := manager s ns in
  let s := with_manager s ns m in
  let existing := if key =? IPC_PRIVATE then None else bt_get (key2id m) key_u32 in
  match existing with
  | Some id =>
      if negb (Z.land semflg IPC_CREAT =? 0) && negb (Z.land semflg IPC_EXCL =? 0) then (err EEXIST, s)
      else
        match bt_get (sets m) id with
        | None => (err ENOENT, s)
        | Some set =>
            if negb (nsems =? 0) && (Z.of_nat (length (set_sems set)) <? nsems) then (err EINVAL, s)
            else if negb (check_ipc_access (set_perm set) (Z.land semflg 448) cred) then (err EACCES, s)
            else (id, s)
        end
  | None =>
      if negb (key =? IPC_PRIVATE) && (Z.land semflg IPC_CREAT =? 0) then (err ENOENT, s)
      else if (nsems =? 0) || (semmsl l <? nsems) then (err EINVAL, s)
      else if semmni l <=? Z.of_nat (length (sets m)) then (err ENOSPC, s)
      else if semmns l <? sat_add (total_sems m) nsems then (err ENOSPC, s)
      else
        let (id, m) := alloc_id m in
        let set := mkSet id (if key =? IPC_PRIVATE then None else Some key_u32)
                     (mkPerm key_u32 (euid cred) (egid cred) (euid cred) (egid cred) (Z.land semflg 511))
                     (replicate (Z.to_nat nsems) new_entry) 0 now in
        let m := match set_key set with Some k => m {{ key2id := bt_insert (key2id m) k id }} | None => m end in
        (id, with_manager s ns (m {{ sets := bt_insert (sets m) id set }}))
  end.

(** ** [semctl] *)

Inductive SemCmd :=
  | IPC_RMID | IPC_SET | IPC_STAT | IPC_INFO | SEM_STAT | SEM_INFO | SEM_STAT_ANY
  | GETPID | GETVAL | GETALL | GETNCNT | GETZCNT | SETVAL | SETALL | BadCmd.

(** What the fourth argument gives: whether it can be written through, the owner, group
    and mode read through it, the values read through it, and its value as [i32]. *)
Record SemArg := mkArg {
  arg_writable : bool;
  arg_ds : option (Z * Z * Z);
  arg_vals : nat -> option (list Z);
  arg_int : Z
}.

(** What is written through it. *)
Inductive SemOut :=
  | WNothing
  | WDs (perm : IpcPermKernel) (otime ctime nsems : Z)
  | WInfo (l : SemLimits) (nsets aem : Z)
  | WVals (vals : list Z).

Record SemctlRes := mkRes {
  rs_ret : Z;
  rs_out : SemOut;
  rs_state : SemState;
  rs_wake : list Z
}.

Definition sem_to_user (set : SemSet) : SemOut :=
  WDs (set_perm set) (set_otime set) (set_ctime set) (Z.of_nat (length (set_sems set))).

(** [SETALL]: each semaphore with its new value. *)
Definition set_one (pid val : Z) (sem : SemEntry) : SemEntry * list Z :=
  wake_sem_waiters (sem {{ sem_val := val; last_pid := pid }}).
Definition set_all (pid : Z) (sems : list SemEntry) (vals : list Z) : list (SemEntry * list Z) :=
  imap (fun i sem => match vals !! i with Some v => set_one pid v sem | None => (sem, []) end) sems.

Definition semctl_info (l : SemLimits) (ns : Z) (cmd : SemCmd) (arg : SemArg) (s : SemState) : SemctlRes :=
  let m := manager s ns in
  let s := with_manager s ns m in
  if negb (arg_writable arg) then mkRes (err EFAULT) WNothing s []
  else mkRes (unwrap_or (last (map fst (sets m))) 0)
         (WInfo l (Z.of_nat (length (sets m))) (match cmd with SEM_INFO => total_sems m | _ => SEMAEM end)) s [].

(** The commands on one set; [fail e] changes nothing. *)
Definition semctl_set (cred : Cred) (ns now semid : Z) (semnum : nat) (cmd : SemCmd) (arg : SemArg) (set : SemSet) (s : SemState)
    : SemctlRes :=
  let fail e := mkRes (err e) WNothing s [] in
  let allowed req := check_ipc_access (set_perm set) req cred in
  let reply (ret : Z) := mkRes ret WNothing s [] in
  let write out := if arg_writable arg then mkRes 0 out s [] else fail EFAULT in
  match cmd with
  | IPC_RMID =>
      if negb (is_owner_or_root (set_perm set) cred) then fail EPERM
      else
        let (m, wake) := remove_set (manager s ns) semid in
        mkRes 0 WNothing (clear_undo_for_set ns semid (with_manager s ns m)) wake
  | IPC_STAT => if negb (allowed SEM_R) then fail EACCES else write (sem_to_user set)
  | IPC_SET =>
      if negb (is_owner_or_root (set_perm set) cred) then fail EPERM
      else
        match arg_ds arg with
        | None => fail EFAULT
        | Some (uid, gid, mode) =>
            mkRes 0 WNothing (with_set s ns semid
              (set {{ set_perm := (set_perm set) {{ perm_uid := uid; perm_gid := gid; perm_mode := Z.land mode 511 }};
                      set_ctime := now }})) []
        end
  | GETALL => if negb (allowed SEM_R) then fail EACCES else write (WVals (map (fun sem => sem_val sem mod 65536) (set_sems set)))
  | SETALL =>
      if negb (allowed SEM_A) then fail EACCES
      else
        match arg_vals arg (length (set_sems set)) with
        | None => fail EFAULT
        | Some vals =>
            if existsb (fun v => SEMVMX <? v) vals then fail ERANGE
            else
              let new := set_all (cred_pid cred) (set_sems set) vals in
              mkRes 0 WNothing
                (clear_undo_for_set ns semid (with_set s ns semid (set {{ set_sems := map fst new; set_otime := now }})))
                (concat (map snd new))
        end
  | GETVAL =>
      if negb (allowed SEM_R) then fail EACCES
      else match set_sems set !! semnum with None => fail EINVAL | Some sem => reply (sem_val sem) end
  | SETVAL =>
      if negb (allowed SEM_A) then fail EACCES
      else
        match set_sems set !! semnum with
        | None => fail EINVAL
        | Some sem =>
            let val := arg_int arg in
            if (val <? 0) || (SEMVMX <? val) then fail ERANGE
            else
              let (sem, wake) := set_one (cred_pid cred) val sem in
              mkRes 0 WNothing
                (clear_undo_for_sem ns semid semnum
                   (with_set s ns semid (set {{ set_sems := <[semnum := sem]> (set_sems set); set_otime := now }}))) wake
        end
  | GETPID =>
      if negb (allowed SEM_R) then fail EACCES
      else match set_sems set !! semnum with None => fail EINVAL | Some sem => reply (last_pid sem) end
  | GETNCNT =>
      if negb (allowed SEM_R) then fail EACCES
      else
        match set_sems set !! semnum with
        | None => fail EINVAL
        | Some sem =>
            let (n, q) := count_blocked_waiters alive blocked (ncnt_waiters sem) in
            mkRes n WNothing
              (with_set s ns semid (set {{ set_sems := <[semnum := sem {{ ncnt_waiters := q }}]> (set_sems set) }})) []
        end
  | GETZCNT =>
      if negb (allowed SEM_R) then fail EACCES
      else
        match set_sems set !! semnum with
        | None => fail EINVAL
        | Some sem =>
            let (n, q) := count_blocked_waiters alive blocked (zcnt_waiters sem) in
            mkRes n WNothing
              (with_set s ns semid (set {{ set_sems := <[semnum := sem {{ zcnt_waiters := q }}]> (set_sems set) }})) []
        end
  | _ => fail EINVAL
  end.

Definition syscall_semctl (l : SemLimits) (cred : Cred) (ns now semid : Z) (semnum : nat) (cmd : SemCmd) (arg : SemArg) (s : SemState)
    : SemctlRes :=
  match cmd with
  | IPC_INFO | SEM_INFO => semctl_info l ns cmd arg s
  | _ =>
      let m := manager s ns in
      let s := with_manager s ns m in
      match bt_get (sets m) semid with
      | None => mkRes (err EINVAL) WNothing s []
      | Some set =>
          match cmd with
          | SEM_STAT | SEM_STAT_ANY =>
              if (match cmd with SEM_STAT => true | _ => false end) && negb (check_ipc_access (set_perm set) SEM_R cred)
              then mkRes (err EACCES) WNothing s []
              else if arg_writable arg then mkRes semid (sem_to_user set) s [] else mkRes (err EFAULT) WNothing s []
          | _ => semctl_set cred ns now semid semnum cmd arg set s
          end
      end
  end.

(** ** [semop] and [semtimedop] *)

Inductive SemBlockKind := WaitForZero | WaitForIncrease.

Inductive SemTimeout :=
  | NoTimeout
  | Expired
  | DeadlineMs (ms : Z).

(** [SemTimeout::from_user]: [None] for a null pointer, [Some None] for one that cannot be
    read. *)
Definition timeout_from_user (now_ms : Z) (ts : option (option (Z * Z))) : Z + SemTimeout :=
  match ts with
  | None => inr NoTimeout
  | Some None => inl (err EFAULT)
  | Some (Some (sec, nsec)) =>
      if (sec <? 0) || (nsec <? 0) || (1000000000 <=? nsec) then inl (err EINVAL)
      else if (sec =? 0) && (nsec =? 0) then inr Expired
      else
        let sec_ms := sat_mul sec 1000 in
        let nsec_ms := sat_add nsec 999999 / 1000000 in
        inr (DeadlineMs (sat_add now_ms (Z.max (sat_add sec_ms nsec_ms) 1)))
  end.
Definition timeout_expired (t : SemTimeout) (now_ms : Z) : bool :=
  match t with Expired => true | DeadlineMs d => d <=? now_ms | NoTimeout => false end.
Definition timeout_remaining (t : SemTimeout) (now_ms : Z) : option Z :=
  match t with DeadlineMs d => Some (Z.max (sat_sub d now_ms) 1) | _ => None end.

Definition check_semop_count (l : SemLimits) (nsops : Z) : Z + unit :=
  if nsops =? 0 then inl (err EINVAL) else if semopm l <? nsops then inl (err E2BIG) else inr tt.

(** [semop] and [semtimedop] up to [do_semop_ops]; [None] for operations that cannot be
    read. *)
Definition do_semop (l : SemLimits) (nsops : Z) (ops : option (list SemBuf)) (t : SemTimeout) : Z + (list SemBuf * SemTimeout) :=
  match check_semop_count l nsops with
  | inl e => inl e
  | inr _ => match ops with None => inl (err EFAULT) | Some ops => inr (ops, t) end
  end.
Definition syscall_semtimedop (l : SemLimits) (now_ms nsops : Z) (ops : option (list SemBuf)) (ts : option (option (Z * Z)))
    : Z + (list SemBuf * SemTimeout) :=
  match check_semop_count l nsops with
  | inl e => inl e
  | inr _ =>
      match timeout_from_user now_ms ts with
      | inl e => inl e
      | inr t => match ops with None => inl (err EFAULT) | Some ops => inr (ops, t) end
      end
  end.

(** The variables of the simulation of a turn. *)
Record Sim := mkSim {
  m_values : list Z;
  m_operated : list bool;
  m_touched : list bool;
  m_undo : list Z
}.
#[export] Instance fields_Sim : Fields Sim := fun m => mkSim (m_values m) (m_operated m) (m_touched m) (m_undo m).

Inductive SimRes :=
  | SimRange
  | SimBlock (idx : nat) (kind : SemBlockKind) (flg : Z)
  | SimDone (m : Sim).

(** The loop over the operations; [None] is an index out of range. *)
Fixpoint simulate (ops : list SemBuf) (m : Sim) : option SimRes :=
  match ops with
  | [] => Some (SimDone m)
  | op :: ops =>
      let idx := sem_num op in
      v ← m_values m !! idx;
      u ← m_undo m !! idx;
      let m := m {{ m_operated := <[idx := true]> (m_operated m) }} in
      let undone := negb (Z.land (sem_flg op) SEM_UNDO =? 0) in
      if 0 <? sem_op op then
        let next := Z.min I32_MAX (v + sem_op op) in
        if SEMVMX <? next then Some SimRange
        else simulate ops (m {{ m_values := <[idx := next]> (m_values m); m_touched := <[idx := true]> (m_touched m);
                                m_undo := if undone then <[idx := Z.max I32_MIN (u - sem_op op)]> (m_undo m) else m_undo m }})
      else if sem_op op =? 0 then
        if v =? 0 then simulate ops m else Some (SimBlock idx WaitForZero (sem_flg op))
      else
        let need := - sem_op op in
        if need <=? v then
          simulate ops (m {{ m_values := <[idx := v - need]> (m_values m); m_touched := <[idx := true]> (m_touched m);
                             m_undo := if undone then <[idx := Z.min I32_MAX (u + need)]> (m_undo m) else m_undo m }})
        else Some (SimBlock idx WaitForIncrease (sem_flg op))
  end.

(** The commit of a simulation to the semaphores. *)
Definition commit_one (pid : Z) (m : Sim) (idx : nat) (sem : SemEntry) : SemEntry * list Z :=
  let sem := match m_operated m !! idx, m_values m !! idx with
             | Some true, Some v => sem {{ sem_val := v; last_pid := pid }}
             | _, _ => sem
             end in
  match m_touched m !! idx with Some true => wake_sem_waiters sem | _ => (sem, []) end.
Definition commit (pid : Z) (m : Sim) (sems : list SemEntry) : list (SemEntry * list Z) := imap (commit_one pid m) sems.

(** A call, and how a turn of it ends. *)
Record SemCall := mkCall {
  sc_task : Z;
  sc_cred : Cred;
  sc_ns : Z;
  sc_semid : Z;
  sc_ops : list SemBuf;
  sc_timeout : SemTimeout
}.
Inductive SemTurn :=
  | SemReturn (ret : Z)
  | SemSleep (timer : option Z).
(** The clocks a turn reads, in the order it reads them, and whether a signal is pending. *)
Record SemNow := mkSemNow {
  now_secs : Z;
  now_ms : Z;
  now_timer_ms : Z;
  now_signal : bool
}.

(** One turn of [do_semop_ops]. *)
Definition semop_turn (c : SemCall) (now : SemNow) (waited : bool) (s : SemState) : option (SemTurn * SemState * list Z) :=
  let m := manager s (sc_ns c) in
  let s := with_manager s (sc_ns c) m in
  let reply e := Some (SemReturn (err e), s, []) in
  match bt_get (sets m) (sc_semid c) with
  | None => reply (if waited : bool then EIDRM else EINVAL)
  | Some set =>
      let n := length (set_sems set) in
      let alter := existsb (fun op => negb (sem_op op =? 0)) (sc_ops c) in
      if existsb (fun op => bool_decide (n <= sem_num op)%nat) (sc_ops c) then reply EFBIG
      else if negb (check_ipc_access (set_perm set) (if alter then SEM_A else SEM_R) (sc_cred c)) then reply EACCES
      else
        r ← simulate (sc_ops c) (mkSim (map sem_val (set_sems set)) (replicate n false) (replicate n false) (replicate n 0));
        match r with
        | SimRange => reply ERANGE
        | SimDone sim =>
            let pid := cred_pid (sc_cred c) in
            match record_sem_undo pid (sc_ns c) (sc_semid c) (m_undo sim) s with
            | (inl e, s) => Some (SemReturn (err e), s, [])
            | (inr _, s) =>
                let new := commit pid sim (set_sems set) in
                Some (SemReturn 0,
                      with_set s (sc_ns c) (sc_semid c) (set {{ set_sems := map fst new; set_otime := now_secs now }}),
                      concat (map snd new))
            end
        | SimBlock idx kind flg =>
            if negb (Z.land flg IPC_NOWAIT =? 0) || timeout_expired (sc_timeout c) (now_ms now) then reply EAGAIN
            else if now_signal now then reply EINTR
            else
              sem ← set_sems set !! idx;
              let sem := match kind with
                         | WaitForZero => sem {{ zcnt_waiters := add_waiter_once alive (zcnt_waiters sem) (sc_task c) }}
                         | WaitForIncrease => sem {{ ncnt_waiters := add_waiter_once alive (ncnt_waiters sem) (sc_task c) }}
                         end in
              Some (SemSleep (timeout_remaining (sc_timeout c) (now_timer_ms now)),
                    with_set s (sc_ns c) (sc_semid c) (set {{ set_sems := <[idx := sem]> (set_sems set) }}), [])
        end
  end.

(** After it has slept: a signal ends the call, else there is another turn. *)
Definition semop_wakeup (c : SemCall) (now : SemNow) (signal : bool) (s : SemState) : option (SemTurn * SemState * list Z) :=
  if signal then Some (SemReturn (err EINTR), s, []) else semop_turn c now true s.

End Waiters.

(** [write_sem_sysctl], the words of the data parsed as far as they are numbers. *)
Definition write_sem_sysctl (path_ok : bool) (words : list (option Z)) : Z + SemLimits :=
  if negb path_ok then inl (err EINVAL)
  else
    match words with
    | [Some semmsl; Some semmns; Some semopm; Some semmni] =>
        if existsb (fun v => (v =? 0) || (I32_MAX <? v)) [semmsl; semmns; semopm; semmni] || (semmns <? semmsl)
        then inl (err EINVAL) else inr (mkLimits semmsl semmns semopm semmni)
    | _ => inl (err EINVAL)
    end.

End Sem.
