(* ===== verification/SemInv.v ===== *)
(** * System V semaphores: the invariant of every reachable state

    [sem_ok] holds after any sequence of [semget], [semctl], turns of [semop] and exits
    ([semaphores_well_formed]); a new set gets an identifier that no set has. *)

From S2P Require Import Prelude.
From S2P Require Import BTree.
From S2P Require Import Errno.
From S2P Require Import Ipc.
From S2P Require Import Sem.
From S2P Require Import SemProof.
Import Sem.

(** ** States with the same observations *)

Lemma sem_ok_same s s' :
  (forall ns, manager s' ns = manager s ns) -> bt_wf (undos s') -> (forall pid, undos_of s' pid = undos_of s pid) ->
  sem_ok s -> sem_ok s'.
Proof.
  intros Hm Hwf Hu Hs. constructor.
  - intros ns. rewrite Hm. apply Hs.
  - done.
  - intros pid. rewrite Hu. apply Hs.
  - intros pid e. rewrite Hu. intros He. destruct (so_entries s Hs pid e He) as [H1 H2 H3]. constructor; [done..|].
    by rewrite (sem_at_managers s) by done.
Qed.

Lemma sem_ok_touch s ns : sem_ok s -> sem_ok (with_manager s ns (manager s ns)).
Proof. intros Hs. apply (sem_ok_same s); [apply manager_touch|apply Hs|done|done]. Qed.

(** ** Changing one set *)

Lemma manager_ok_set m id set set' :
  manager_ok m -> bt_get (sets m) id = Some set -> set_id set' = set_id set -> set_key set' = set_key set ->
  vals_fit (map sem_val (set_sems set')) -> manager_ok (m {{ sets := bt_insert (sets m) id set' }}).
Proof.
  intros Hm Hset Hid Hkey Hv. constructor; [by eapply key_table_set; [apply Hm|..]|].
  intros id' s'. change (sets (m {{ sets := ?x }})) with x. rewrite bt_get_insert, key_eqb_Z.
  destruct (id' =? id); [by intros [= <-]|apply Hm].
Qed.

Lemma sem_ok_with_set s ns id set set' :
  sem_ok s -> set_at s ns id = Some set -> set_id set' = set_id set -> set_key set' = set_key set ->
  length (set_sems set') = length (set_sems set) -> vals_fit (map sem_val (set_sems set')) ->
  sem_ok (with_set s ns id set').
Proof.
  intros Hs Hset Hid Hkey Hlen Hv. constructor.
  - intros ns'. unfold with_set. rewrite manager_with. destruct (Z.eqb_spec ns' ns) as [->|]; [|apply Hs].
    eapply manager_ok_set; [apply Hs|done..].
  - apply Hs.
  - apply (so_keys s Hs).
  - intros pid e He. destruct (so_entries s Hs pid e He) as [H1 H2 H3]. constructor; [done..|]. rewrite sem_at_with.
    destruct (_ && _) eqn:E; [|done]. apply andb_true_iff in E as [E1%Z.eqb_eq E2%Z.eqb_eq]. rewrite E1, E2 in H3.
    unfold sem_at in H3. rewrite Hset in H3. simpl in H3. apply lookup_lt_is_Some in H3. apply lookup_lt_is_Some. lia.
Qed.

(** Replacing one semaphore. *)
Lemma vals_fit_insert sems i sem :
  vals_fit (map sem_val sems) -> 0 <= sem_val sem <= SEMVMX -> vals_fit (map sem_val (<[i := sem]> sems)).
Proof. intros H Hv. rewrite list_fmap_insert. by apply Forall_insert. Qed.

(** ** Dropping adjustments *)

Lemma retain_undos_get keep u pid :
  bt_wf u -> unwrap_or (bt_get (retain_undos keep u) pid) [] = List.filter keep (unwrap_or (bt_get u pid) []).
Proof.
  unfold retain_undos. induction u as [|[p l] u IH]; [done|]. intros [Hwf Hlt]%bt_wf_cons. cbn [map List.filter fst snd bt_get].
  destruct (List.filter keep l) as [|e l'] eqn:El; cbn [bt_get]; rewrite key_eqb_Z; destruct (Z.eqb_spec pid p) as [->|]; simpl; auto.
  rewrite IH by done. rewrite (proj2 (bt_get_None u p)), El; [done|]. intros v Hv. apply Hlt in Hv. by apply key_lt_neq in Hv.
Qed.

Lemma retain_undos_wf keep u : bt_wf u -> bt_wf (retain_undos keep u).
Proof.
  intros Hwf. unfold retain_undos. apply bt_wf_filter. unfold bt_wf. by rewrite map_map.
Qed.

Lemma undos_of_retain s s' keep pid :
  bt_wf (undos s) -> undos s' = retain_undos keep (undos s) -> undos_of s' pid = List.filter keep (undos_of s pid).
Proof. intros Hwf Hu. unfold undos_of. rewrite Hu. by apply retain_undos_get. Qed.

(** Some adjustments dropped, and the managers changed: the invariant is to be shown of
    what is kept. *)
Lemma sem_ok_retain s s' keep :
  sem_ok s -> undos s' = retain_undos keep (undos s) -> (forall ns, manager_ok (manager s' ns)) ->
  (forall e, keep e = true -> is_Some (sem_at s (u_ns e) (u_semid e) (u_semnum e)) -> is_Some (sem_at s' (u_ns e) (u_semid e) (u_semnum e))) ->
  sem_ok s'.
Proof.
  intros Hs Hu Hm Hex. constructor.
  - done.
  - rewrite Hu. apply retain_undos_wf, Hs.
  - intros pid. rewrite (undos_of_retain s s' keep) by (done || apply Hs). apply undo_keys_filter, Hs.
  - intros pid e. rewrite (undos_of_retain s s' keep) by (done || apply Hs). intros [He Hk]%list_elem_of_In%filter_In.
    apply list_elem_of_In in He. destruct (so_entries s Hs pid e He) as [H1 H2 H3]. constructor; auto.
Qed.

Lemma clear_undo_for_sem_ok s ns id i : sem_ok s -> sem_ok (clear_undo_for_sem ns id i s).
Proof. intros Hs. eapply (sem_ok_retain s); [done..|apply (so_managers s Hs)|done]. Qed.

Lemma clear_undo_for_set_ok s ns id : sem_ok s -> sem_ok (clear_undo_for_set ns id s).
Proof. intros Hs. eapply (sem_ok_retain s); [done..|apply (so_managers s Hs)|done]. Qed.

(** ** Removing a set *)

Lemma remove_set_manager alive m id set :
  bt_get (sets m) id = Some set ->
  fst (remove_set alive m id) = mkManager (next_id m) (bt_remove (sets m) id) (keys_without set_key (key2id m) id set).
Proof.
  intros Hset. unfold remove_set, keys_without. rewrite Hset. cbn [fst]. destruct (set_key set) as [k|]; [|done].
  change (key2id (m {{ sets := bt_remove (sets m) id }})) with (key2id m). by destruct (bool_decide _).
Qed.

Lemma remove_set_ok alive m id : manager_ok m -> manager_ok (fst (remove_set alive m id)).
Proof.
  intros Hm. destruct (bt_get (sets m) id) as [set|] eqn:Hset; [|unfold remove_set; by rewrite Hset].
  rewrite (remove_set_manager alive m id set Hset). constructor; cbn [next_id sets key2id].
  - apply key_table_remove; [apply Hm|done].
  - intros id' s'. rewrite bt_get_remove, key_eqb_Z by apply Hm. destruct (id' =? id); [done|apply Hm].
Qed.

Lemma remove_set_get alive m id id' :
  manager_ok m -> id' <> id -> bt_get (sets (fst (remove_set alive m id))) id' = bt_get (sets m) id'.
Proof.
  intros Hm Hne. unfold remove_set. destruct (bt_get (sets m) id) as [set|] eqn:Hset; [|done]. cbn [fst].
  transitivity (bt_get (bt_remove (sets m) id) id').
  - destruct (set_key set); [|done]. by case_bool_decide.
  - rewrite bt_get_remove, key_eqb_Z by apply Hm. by destruct (Z.eqb_spec id' id).
Qed.

Lemma remove_ok alive s ns id :
  sem_ok s -> sem_ok (clear_undo_for_set ns id (with_manager s ns (fst (remove_set alive (manager s ns) id)))).
Proof.
  intros Hs. eapply (sem_ok_retain s); [done|done| |].
  - intros ns'. change (manager (clear_undo_for_set ns id ?x) ns') with (manager x ns'). rewrite manager_with.
    destruct (Z.eqb_spec ns' ns) as [->|]; [apply remove_set_ok|]; apply Hs.
  - intros e He Hsem. change (sem_at (clear_undo_for_set ns id ?x)) with (sem_at x). unfold sem_at, set_at in *. rewrite manager_with.
    destruct (Z.eqb_spec (u_ns e) ns) as [Hns|]; [|done]. simpl in He. rewrite remove_set_get; [by rewrite <- Hns|apply Hs|].
    by destruct (Z.eqb_spec (u_semid e) id).
Qed.

(** ** A new set *)

Lemma alloc_id_fresh m :
  manager_ok m -> Z.of_nat (length (sets m)) < USIZE_MAX ->
  is_usize (fst (alloc_id m)) /\ bt_get (sets m) (fst (alloc_id m)) = None.
Proof. intros Hm. apply free_id_fresh, (mo_table _ Hm). Qed.

Lemma alloc_id_manager m : snd (alloc_id m) = mkManager (wadd (fst (alloc_id m)) 1) (sets m) (key2id m).
Proof. done. Qed.

(** The limits, as [write_sem_sysctl] keeps them. *)
Definition limits_ok (l : SemLimits) : Prop :=
  0 < semmsl l <= I32_MAX /\ 0 < semmns l <= I32_MAX /\ 0 < semopm l <= I32_MAX /\ 0 < semmni l <= I32_MAX.

Lemma write_sem_sysctl_ok path_ok words l :
  Forall (fun w => forall v, w = Some v -> 0 <= v) words -> write_sem_sysctl path_ok words = inr l -> limits_ok l.
Proof.
  unfold write_sem_sysctl. intros Hw. destruct path_ok; [|done]. cbn [negb].
  destruct words as [|[a|] [|[b|] [|[c|] [|[d|] [|]]]]]; try done. destruct (_ || _) eqn:E; [done|]. intros [= <-].
  rewrite !Forall_cons in Hw. destruct Hw as (Ha & Hb & Hc & Hd & _). specialize (Ha a eq_refl). specialize (Hb b eq_refl).
  specialize (Hc c eq_refl). specialize (Hd d eq_refl). unfold limits_ok. cbn [existsb semmsl semmns semopm semmni] in *. lia.
Qed.

Lemma new_set_ok m next id set :
  manager_ok m -> bt_get (sets m) id = None -> is_usize next -> set_id set = id -> vals_fit (map sem_val (set_sems set)) ->
  (forall k, set_key set = Some k -> bt_get (key2id m) k = None) ->
  manager_ok (mkManager next (bt_insert (sets m) id set) (match set_key set with Some k => bt_insert (key2id m) k id | None => key2id m end)).
Proof.
  intros Hm Hnone Hnext Hid Hv Hfree. constructor; cbn [sets key2id next_id].
  - eapply key_table_new; [apply Hm|done..].
  - intros id' set'. rewrite bt_get_insert, key_eqb_Z. destruct (id' =? id); [by intros [= <-]|apply Hm].
Qed.

Lemma vals_fit_new n : vals_fit (map sem_val (replicate n new_entry)).
Proof. rewrite fmap_replicate. apply Forall_replicate. simpl. lia. Qed.

(** A namespace that only gets a new set keeps the rest. *)
Lemma sem_ok_new_set s s' ns id set :
  sem_ok s -> undos s' = undos s -> manager_ok (manager s' ns) -> (forall ns', ns' <> ns -> manager s' ns' = manager s ns') ->
  set_at s ns id = None -> sets (manager s' ns) = bt_insert (sets (manager s ns)) id set -> sem_ok s'.
Proof.
  intros Hs Hu Hm Hother Hnone Hsets. constructor.
  - intros ns'. destruct (Z.eq_dec ns' ns) as [->|]; [done|]. rewrite Hother by done. apply Hs.
  - rewrite Hu. apply Hs.
  - intros pid. unfold undos_of. rewrite Hu. apply (so_keys s Hs).
  - intros pid e. unfold undos_of. rewrite Hu. intros He. destruct (so_entries s Hs pid e He) as [H1 H2 H3]. constructor; [done..|].
    unfold sem_at, set_at in *. destruct (Z.eq_dec (u_ns e) ns) as [Hns|]; [|by rewrite Hother]. rewrite Hns in *.
    rewrite Hsets, bt_get_insert, key_eqb_Z. destruct (Z.eqb_spec (u_semid e) id) as [Hid|]; [|done].
    rewrite Hid, Hnone in H3. by destruct H3.
Qed.

(** What [semget] does: every set is kept; an error changes nothing else; or the set it
    returns is there, with at least as many semaphores as asked for, and has the key: the
    one it had, to which the caller has access, or a new one with all values 0. *)
Record semget_post (cred : Cred) (ns key nsems semflg : Z) (s : SemState) (r : Z) (s' : SemState) : Prop := {
  gp_ok : sem_ok s';
  gp_undos : undos s' = undos s;
  gp_kept : forall ns' id set, set_at s ns' id = Some set -> set_at s' ns' id = Some set;
  gp_result : (exists e, r = err e) \/
   exists set, set_at s' ns r = Some set /\ nsems <= Z.of_nat (length (set_sems set)) /\
     set_key set = (if key =? IPC_PRIVATE then None else Some (key mod 4294967296)) /\
     (set_at s ns r = Some set /\ check_ipc_access (set_perm set) (Z.land semflg 448) cred = true \/
      set_at s ns r = None /\ set_sems set = replicate (Z.to_nat nsems) new_entry)
}.

Lemma semget_correct l cred ns now key nsems semflg s :
  sem_ok s -> limits_ok l -> 0 <= nsems ->
  let p := syscall_semget l cred ns now key nsems semflg s in semget_post cred ns key nsems semflg s (fst p) (snd p).
Proof.
  intros Hs Hl Hn. cbv zeta. unfold syscall_semget. set (m := manager s ns). set (s1 := with_manager s ns m).
  assert (sem_ok s1) as Hs1 by by apply sem_ok_touch.
  assert (forall id ns' set, set_at s ns' id = Some set -> set_at s1 ns' id = Some set) as Hkeep
    by (intros; unfold s1, m; by rewrite set_at_touch).
  assert (forall e, semget_post cred ns key nsems semflg s (err e) s1) as Herr by (intros e; constructor; eauto).
  destruct (if key =? IPC_PRIVATE then None else bt_get (key2id m) (key mod 4294967296)) as [id|] eqn:Eex.
  - destruct (Z.eqb_spec key IPC_PRIVATE) as [|Hkey]; [done|]. destruct (_ && _); [apply Herr|].
    destruct (to_key _ _ _ _ _ (mo_table m (so_managers s Hs ns)) _ id Eex) as (set & Hset & Hk). rewrite Hset.
    destruct (_ && _) eqn:Esz; [apply Herr|]. destruct (check_ipc_access _ _ _) eqn:Ea; [|apply Herr]. simpl.
    split; [done|done|by intros; apply Hkeep|]. right. exists set. split_and!; [by apply Hkeep|lia|by destruct (Z.eqb_spec key 0)|]. left. done.
  - destruct (_ && _); [apply Herr|]. destruct (_ || _) eqn:E1; [apply Herr|]. destruct (Z.leb_spec (semmni l) (Z.of_nat (length (sets m)))); [apply Herr|].
    destruct (semmns l <? _); [apply Herr|]. destruct (alloc_id_fresh m (so_managers s Hs ns)) as [Hid Hfresh].
    { destruct Hl as (_ & _ & _ & Hl). lia. }
    pose proof (alloc_id_manager m) as Hm'. destruct (alloc_id m) as [id m']. cbn [fst snd] in *. subst m'. set (k := if key =? IPC_PRIVATE then None else Some (key mod 4294967296)).
    set (set := mkSet id k _ _ _ _). set (m2 := assign sets _ _). cbn [fst snd].
    assert (m2 = mkManager (wadd id 1) (bt_insert (sets m) id set) (match k with Some k => bt_insert (key2id m) k id | None => key2id m end)) as Hm2
      by (unfold m2; change (set_key set) with k; by destruct k).
    assert (sem_ok (with_manager s1 ns m2)) as Hok.
    { apply (sem_ok_new_set s1 _ ns id set Hs1); [done| | | |].
      - rewrite manager_with, Z.eqb_refl, Hm2. apply (new_set_ok m (wadd id 1) id set); [apply Hs|done|apply wadd_range|done|apply vals_fit_new|].
        intros k'. change (set_key set) with k. unfold k. destruct (key =? IPC_PRIVATE); [done|]. by intros [= <-].
      - intros ns' Hne. rewrite manager_with. by destruct (Z.eqb_spec ns' ns).
      - unfold s1, m. by rewrite set_at_touch.
      - rewrite manager_with, Z.eqb_refl, Hm2. unfold s1. by rewrite manager_with, Z.eqb_refl. }
    split; [done|done| |].
    + intros ns' id' set' Hset'. unfold set_at. rewrite manager_with. destruct (Z.eqb_spec ns' ns) as [->|]; [|by apply Hkeep].
      rewrite Hm2. cbn [sets]. rewrite bt_get_insert, key_eqb_Z. destruct (Z.eqb_spec id' id) as [->|]; [|done].
      unfold set_at in Hset'. fold m in Hset'. congruence.
    + right. exists set. split_and!; [|simpl; rewrite length_replicate; lia|done|by right].
      unfold set_at. rewrite manager_with, Z.eqb_refl, Hm2. cbn [sets]. by rewrite bt_get_insert, key_eqb_refl.
Qed.

(** ** [semctl] *)

(** The values read from user memory are [u16], one for each semaphore. *)
Definition arg_ok (arg : SemArg) : Prop :=
  forall n vals, arg_vals arg n = Some vals -> length vals = n /\ Forall (fun v => 0 <= v < 65536) vals.

Lemma set_all_values alive pid sems vals :
  length vals = length sems -> map sem_val (map fst (set_all alive pid sems vals)) = vals.
Proof.
  intros Hlen. apply list_eq. intros i. unfold set_all. rewrite !list_lookup_fmap, list_lookup_imap.
  destruct (sems !! i) as [sem|] eqn:E; simpl.
  - pose proof (lookup_lt_Some _ _ _ E). destruct (lookup_lt_is_Some_2 vals i) as [v Hv]; [lia|]. by rewrite Hv.
  - symmetry. apply lookup_ge_None. apply lookup_ge_None in E. lia.
Qed.

Lemma set_all_length alive pid sems vals : length (map fst (set_all alive pid sems vals)) = length sems.
Proof. unfold set_all. by rewrite length_map, length_imap. Qed.

Lemma semctl_set_ok alive blocked cred ns now id i cmd arg set s :
  sem_ok s -> arg_ok arg -> set_at s ns id = Some set ->
  sem_ok (rs_state (semctl_set alive blocked cred ns now id i cmd arg set s)).
Proof.
  intros Hs Harg Hset. pose proof (set_at_ok s ns id set Hs Hset) as Hvals.
  assert (forall j sem, set_sems set !! j = Some sem -> 0 <= sem_val sem <= SEMVMX) as Hv.
  { intros j sem Hj. apply (sem_ok_values_fit s Hs ns id j). unfold sem_value, sem_at. rewrite Hset. simpl. by rewrite Hj. }
  unfold semctl_set. destruct cmd; try done; try (destruct (negb _); [done|]); try (destruct (arg_writable arg); done).
  - destruct (remove_set alive (manager s ns) id) as [m wake] eqn:E. simpl.
    pose proof (remove_ok alive s ns id Hs) as H. by rewrite E in H.
  - destruct (arg_ds arg) as [[[uid gid] mode]|]; [|done]. simpl. by eapply sem_ok_with_set.
  - by destruct (set_sems set !! i).
  - by destruct (set_sems set !! i).
  - destruct (set_sems set !! i) as [sem|] eqn:E; [|done]. simpl. eapply sem_ok_with_set; [done..| |].
    + apply length_insert.
    + apply vals_fit_insert; [done|]. by apply (Hv i sem).
  - destruct (set_sems set !! i) as [sem|] eqn:E; [|done]. simpl. eapply sem_ok_with_set; [done..| |].
    + apply length_insert.
    + apply vals_fit_insert; [done|]. by apply (Hv i sem).
  - destruct (set_sems set !! i) as [sem|] eqn:E; [|done]. destruct (_ || _) eqn:Er; [done|]. unfold set_one.
    simpl. apply clear_undo_for_sem_ok. eapply sem_ok_with_set; [done..| |].
    + apply length_insert.
    + apply vals_fit_insert; [done|]. change (0 <= arg_int arg <= SEMVMX). lia.
  - destruct (arg_vals arg _) as [vals|] eqn:Ev; [|done]. destruct (Harg _ _ Ev) as [Hlen Hu16].
    destruct (existsb _ vals) eqn:Ex; [done|]. simpl. apply clear_undo_for_set_ok. eapply sem_ok_with_set; [done..| |].
    + apply set_all_length.
    + simpl. rewrite set_all_values by done. apply Forall_forall. intros v Hin. eapply Forall_forall in Hu16; [|done]. simpl in Hu16.
      destruct (Z.ltb_spec SEMVMX v); [|lia]. exfalso. apply not_true_iff_false in Ex. apply Ex, existsb_exists.
      exists v. split; [by apply list_elem_of_In|lia].
Qed.

Lemma syscall_semctl_ok alive blocked l cred ns now id i cmd arg s :
  sem_ok s -> arg_ok arg -> sem_ok (rs_state (syscall_semctl alive blocked l cred ns now id i cmd arg s)).
Proof.
  intros Hs Harg. pose proof (sem_ok_touch s ns Hs) as Hs1. unfold syscall_semctl, semctl_info.
  fold (set_at s ns id). destruct (set_at s ns id) as [set|] eqn:Hset.
  - rewrite <- (set_at_touch s ns) in Hset. pose proof (semctl_set_ok alive blocked cred ns now id i cmd arg set _ Hs1 Harg Hset) as Hset'.
    destruct cmd; try done; simpl; repeat case_match; done.
  - destruct cmd; try done; simpl; by case_if.
Qed.

(** ** [semop] *)

Lemma sem_ok_record pid ns id deltas s s' set :
  sem_ok s -> set_at s ns id = Some set -> (length deltas <= length (set_sems set))%nat ->
  record_sem_undo pid ns id deltas s = (inr tt, s') -> sem_ok s'.
Proof.
  intros Hs Hset Hlen Hrec. apply record_sem_undo_ok in Hrec as (Hfit & Hm & Hwf & Hother & Ha & Hk & Hin); [|apply Hs|apply Hs].
  assert (forall ns id i, sem_at s' ns id i = sem_at s ns id i) as Hsem.
  { intros ns' id' i. apply sem_at_managers. unfold manager. by rewrite Hm. }
  constructor.
  - intros ns'. unfold manager. rewrite Hm. apply Hs.
  - done.
  - intros p. destruct (Z.eq_dec p pid) as [->|]; [done|]. rewrite Hother by done. apply Hs.
  - intros p e He. destruct (Z.eq_dec p pid) as [->|].
    2:{ rewrite Hother in He by done. destruct (so_entries s Hs p e He). constructor; [done..|]. by rewrite Hsem. }
    destruct (Hin e He) as [He'|[Hnz Hkey]]; [destruct (so_entries s Hs pid e He'); constructor; [done..|by rewrite Hsem]|].
    constructor; [done| |].
    + rewrite <- (current_adj_elem _ e Hk He). fold (adj s' pid (u_ns e) (u_semid e) (u_semnum e)). rewrite Ha.
      pose proof (adj_bounded s pid (u_ns e) (u_semid e) (u_semnum e) Hs) as Hb.
      destruct (_ && _) eqn:E; [|by rewrite Z.add_0_r]. apply andb_true_iff in E as [E1%Z.eqb_eq E2%Z.eqb_eq]. rewrite E1, E2 in *.
      destruct (deltas !! u_semnum e) as [d|] eqn:Ed; simpl; [|by rewrite Z.add_0_r].
      destruct (Z.eq_dec d 0) as [->|]; [by rewrite Z.add_0_r|]. by apply Hfit.
    + rewrite Hsem. destruct Hkey as [(e' & Heq & He')%list_elem_of_fmap|(-> & -> & Hlt)].
      * injection Heq as -> -> ->. by apply (so_entries s Hs pid e').
      * unfold sem_at. rewrite Hset. simpl. apply lookup_lt_is_Some. lia.
Qed.

Lemma semop_outcome_ok alive c now s r s' wake :
  sem_ok s -> semop_outcome alive c now s r s' wake -> sem_ok s'.
Proof.
  intros Hs [set s1 sim pid new Hset [_ [He _]] Hfit Hrec|e s'' _ Hm Hwf Hu|set idx kind flg sem timer _ Hset _ Hsem].
  - pose proof (sem_ok_touch s (sc_ns c) Hs) as Hs0. assert (set_at (with_manager s (sc_ns c) (manager s (sc_ns c))) (sc_ns c) (sc_semid c) = Some set) as Hset0
      by by rewrite set_at_touch.
    assert (set_at s1 (sc_ns c) (sc_semid c) = Some set) as Hset1.
    { pose proof Hrec as Hrec'. apply record_sem_undo_ok in Hrec' as (_ & Hm & _); [|apply Hs0|apply Hs0]. unfold set_at, manager. rewrite Hm. exact Hset0. }
    eapply sem_ok_with_set; [|exact Hset1|done|done| |].
    + eapply sem_ok_record; [exact Hs0|exact Hset0| |exact Hrec]. unfold sim. cbn [after sim_start m_undo]. rewrite length_imap, length_replicate. done.
    + change (length (map fst new) = length (set_sems set)). unfold new, commit. by rewrite length_map, length_imap.
    + change (vals_fit (map sem_val (map fst new))). apply Forall_lookup. intros i v Hv. unfold new in Hv. rewrite list_lookup_fmap, commit_lookup in Hv.
      destruct (set_sems set !! i) as [sem|] eqn:Hi; [|done]. cbn [fmap option_fmap option_map] in Hv. injection Hv as <-. unfold sim. rewrite commit_one_value by done.
      eapply ops_sum_enabled; [by eapply set_at_ok|done|]. by rewrite list_lookup_fmap, Hi.
  - by eapply sem_ok_same.
  - eapply sem_ok_with_set; [by apply sem_ok_touch|by rewrite set_at_touch|done|done|apply length_insert|].
    apply vals_fit_insert; [by eapply set_at_ok|]. replace (sem_val (enqueue _ _ _ _)) with (sem_val sem) by by destruct kind.
    apply (sem_ok_values_fit s Hs (sc_ns c) (sc_semid c) idx). unfold sem_value, sem_at. rewrite Hset. simpl. by rewrite Hsem.
Qed.

(** ** Exit *)

Lemma undo_one_ok alive pid now s w e :
  sem_ok s -> adj_fits (u_adj e) -> sem_ok (fst (undo_one alive pid now (s, w) e)).
Proof.
  intros Hs He. destruct (undo_one_cases alive pid now s w e (sem_ok_values_fit s Hs) He) as [[-> _]|(set & sem & Hset & Hsem & ->)]; [done|].
  cbn [fst]. eapply sem_ok_with_set; [done..|apply length_insert|]. apply vals_fit_insert; [by eapply set_at_ok|]. apply clamp_range.
Qed.

Lemma undos_remove_ok s pid : sem_ok s -> sem_ok (s {{ undos := bt_remove (undos s) pid }}).
Proof.
  intros Hs. constructor.
  - apply (so_managers s Hs).
  - apply bt_wf_remove, Hs.
  - intros p. rewrite undos_of_remove by apply Hs. destruct (p =? pid); [constructor|apply Hs].
  - intros p e. rewrite undos_of_remove by apply Hs. destruct (p =? pid); [by intros ?%elem_of_nil|]. intros He.
    destruct (so_entries s Hs p e He). by constructor.
Qed.

Lemma exit_cleanup_ok alive pid now s : sem_ok s -> sem_ok (fst (exit_cleanup alive pid now s)).
Proof.
  intros Hs. unfold exit_cleanup. fold (undos_of s pid).
  assert (Forall (fun e => adj_fits (u_adj e)) (undos_of s pid)) as Hadj by (apply Forall_forall; intros e He; by apply (so_entries s Hs pid e He)).
  generalize (undos_remove_ok s pid Hs). generalize (s {{ undos := bt_remove (undos s) pid }}) as s0. generalize (@nil Z).
  induction Hadj as [|e entries He _ IH]; intros w s0 Hs0; [done|]. cbn [fold_left].
  pose proof (undo_one_ok alive pid now s0 w e Hs0 He). destruct (undo_one alive pid now (s0, w) e) as [s1 w1]. by apply IH.
Qed.

(** ** All of it *)

(** One critical section: the state after it, whom it wakes, and the call that goes to
    sleep. *)
Inductive sem_step (alive blocked : Z -> bool) : SemState -> SemState -> list Z -> option SemCall -> Prop :=
  | step_semget l cred ns now key nsems semflg s :
      limits_ok l -> 0 <= nsems -> sem_step alive blocked s (snd (syscall_semget l cred ns now key nsems semflg s)) [] None
  | step_semctl l cred ns now id i cmd arg s :
      arg_ok arg ->
      let r := syscall_semctl alive blocked l cred ns now id i cmd arg s in
      sem_step alive blocked s (rs_state r) (rs_wake r) None
  | step_semop_return c now waited s ret s' wake :
      call_fits c -> semop_turn alive c now waited s = Some (SemReturn ret, s', wake) ->
      sem_step alive blocked s s' wake None
  | step_semop_sleep c now waited s timer s' wake :
      call_fits c -> semop_turn alive c now waited s = Some (SemSleep timer, s', wake) ->
      sem_step alive blocked s s' wake (Some c)
  | step_exit pid now s :
      let p := exit_cleanup alive pid now s in sem_step alive blocked s (fst p) (snd p) None.

Lemma sem_step_ok alive blocked s s' wake sleeper :
  sem_ok s -> sem_step alive blocked s s' wake sleeper -> sem_ok s'.
Proof.
  intros Hs Hstep. destruct Hstep as [l cred ns now key nsems semflg s Hl Hn|l cred ns now id i cmd arg s Harg r|
    c now waited s ret s' wake Hc Hturn|c now waited s timer s' wake Hc Hturn|pid now s p].
  - by apply semget_correct.
  - by apply syscall_semctl_ok.
  - destruct (semop_turn_outcome alive c now waited s Hs Hc) as (r & s2 & w & Hturn' & Hout). rewrite Hturn in Hturn'.
    injection Hturn' as <- <- <-. by eapply semop_outcome_ok.
  - destruct (semop_turn_outcome alive c now waited s Hs Hc) as (r & s2 & w & Hturn' & Hout). rewrite Hturn in Hturn'.
    injection Hturn' as <- <- <-. by eapply semop_outcome_ok.
  - by apply exit_cleanup_ok.
Qed.

(** The state at boot. *)
Definition sem_boot : SemState := mkState [] [].

Lemma sem_boot_ok : sem_ok sem_boot.
Proof.
  constructor; [|apply bt_wf_nil|intros; constructor|by intros pid e ?%elem_of_nil].
  intros ns. constructor; [|done]. constructor; [apply bt_wf_nil..| |done|done]. unfold is_usize. simpl. lia.
Qed.

Definition sem_reaches (alive blocked : Z -> bool) : SemState -> SemState -> Prop :=
  rtc (fun s s' => exists wake sleeper, sem_step alive blocked s s' wake sleeper).

(** C33: In every state the calls reach from the one at boot, every value is in [0, SEMVMX],
    every adjustment in [-SEMAEM, SEMAEM] and of a semaphore that exists, every set is
    under its identifier and found by its key, and every key leads to its set. *)
Theorem semaphores_well_formed alive blocked s :
  sem_reaches alive blocked sem_boot s ->
  (forall ns id i v, sem_value s ns id i = Some v -> 0 <= v <= SEMVMX) /\
  (forall pid ns id i, adj_fits (adj s pid ns id i) /\ (adj s pid ns id i <> 0 -> is_Some (sem_value s ns id i))) /\
  (forall ns id set, set_at s ns id = Some set -> set_id set = id) /\
  (forall ns k id, bt_get (key2id (manager s ns)) k = Some id <-> exists set, set_at s ns id = Some set /\ set_key set = Some k).
Proof.
  intros Hr. assert (sem_ok s) as Hs.
  { eapply (rtc_ind_r sem_ok); [exact sem_boot_ok| |exact Hr]. intros s1 s2 _ (wake & sl & Hstep) Hs1. by eapply sem_step_ok. }
  split_and!.
  - by apply sem_ok_values_fit.
  - intros pid ns id i. split; [by apply adj_bounded|]. unfold adj, current_adj. destruct (List.find _ _) as [e|] eqn:E; [|done]. intros _.
    apply find_some in E as [He Hk]. apply list_elem_of_In in He. apply same_sem_key in Hk as [= <- <- <-].
    unfold sem_value. apply fmap_is_Some. by apply (so_entries s Hs pid e).
  - intros ns id set Hset. by apply (to_obj _ _ _ _ _ (mo_table _ (so_managers s Hs ns)) id set).
  - intros ns k id. split; [apply (so_managers s Hs ns)|]. intros (set & Hset & Hk). by apply (to_obj _ _ _ _ _ (mo_table _ (so_managers s Hs ns)) id set).
Qed.

Lemma semaphores_well_formed_witness :
  let s := snd (syscall_semget (mkLimits 32000 1024000000 500 32000) (mkCred 0 0 [] 5) 0 0 7 1 512 sem_boot) in
  bt_get (key2id (manager s 0)) 7 = Some 1 <-> exists set, set_at s 0 1 = Some set /\ set_key set = Some 7.
Proof.
  cbv zeta. apply (semaphores_well_formed (fun _ => true) (fun _ => true)). apply rtc_once. exists [], None.
  apply step_semget; [|lia]. unfold limits_ok. simpl. lia.
Defined.
