(* ===== verification/SemWake.v ===== *)
(** * System V semaphores: no lost wakeups

    A call of [semop] sleeps in the queue of the operation it stopped at.  Whatever other
    calls, [semctl]s and exits do, a call that still sleeps is not possible, provided that
    its tests for zero come before its own changes of the same semaphore
    ([sleepers_not_runnable]); without the proviso a wakeup is lost
    ([zero_test_after_change_left_asleep]). *)

From S2P Require Import Prelude.
From S2P Require Import BTree.
From S2P Require Import Errno.
From S2P Require Import Ipc.
From S2P Require Import Sem.
From S2P Require Import SemProof.
From S2P Require Import SemInv.
Import Sem.

Section Wake.
Context (alive blocked : Z -> bool).

(** ** What a step does to those it does not wake *)

(** A waiter that is not woken stays in its queue, and the value has not moved towards it. *)
Definition entry_keeps (wake : list Z) (sem sem' : SemEntry) : Prop :=
  forall t, alive t = true -> t ∉ wake ->
  (t ∈ ncnt_waiters sem -> t ∈ ncnt_waiters sem' /\ sem_val sem' <= sem_val sem) /\
  (t ∈ zcnt_waiters sem -> t ∈ zcnt_waiters sem' /\ (sem_val sem <> 0 -> sem_val sem' <> 0)).

Definition state_keeps (wake : list Z) (s s' : SemState) : Prop :=
  forall t ns id i sem, alive t = true -> t ∉ wake -> sem_at s ns id i = Some sem ->
  (t ∈ ncnt_waiters sem -> exists sem', sem_at s' ns id i = Some sem' /\ t ∈ ncnt_waiters sem' /\ sem_val sem' <= sem_val sem) /\
  (t ∈ zcnt_waiters sem -> exists sem', sem_at s' ns id i = Some sem' /\ t ∈ zcnt_waiters sem' /\ (sem_val sem <> 0 -> sem_val sem' <> 0)).

Lemma entry_keeps_refl wake sem : entry_keeps wake sem sem.
Proof. intros t _ _. split; [|done]. intros Ht. split; [done|lia]. Qed.

Lemma entry_keeps_mono wake wake' sem sem' : wake ⊆ wake' -> entry_keeps wake sem sem' -> entry_keeps wake' sem sem'.
Proof. intros Hsub H t Ha Ht. apply H; set_solver. Qed.

Lemma state_keeps_same wake s s' : (forall ns id i sem, sem_at s ns id i = Some sem -> sem_at s' ns id i = Some sem) -> state_keeps wake s s'.
Proof.
  intros H t ns id i sem _ _ Hsem. split; intros Ht; exists sem; [|eauto]. split_and!; [auto|done|lia].
Qed.

Lemma state_keeps_trans w1 w2 s1 s2 s3 : state_keeps w1 s1 s2 -> state_keeps w2 s2 s3 -> state_keeps (w1 ++ w2) s1 s3.
Proof.
  intros H1 H2 t ns id i sem Ha [Hw1 Hw2]%not_elem_of_app Hsem. destruct (H1 t ns id i sem Ha Hw1 Hsem) as [Hn Hz]. split; intros Ht.
  - destruct (Hn Ht) as (sem' & Hsem' & Ht' & Hv). destruct (H2 t ns id i sem' Ha Hw2 Hsem') as [Hn' _].
    destruct (Hn' Ht') as (sem2 & ? & ? & ?). exists sem2. split_and!; [done..|lia].
  - destruct (Hz Ht) as (sem' & Hsem' & Ht' & Hv). destruct (H2 t ns id i sem' Ha Hw2 Hsem') as [_ Hz'].
    destruct (Hz' Ht') as (sem2 & ? & ? & ?). exists sem2. auto.
Qed.

Lemma state_keeps_with wake s ns id set set' :
  set_at s ns id = Some set ->
  (forall i sem, set_sems set !! i = Some sem -> exists sem', set_sems set' !! i = Some sem' /\ entry_keeps wake sem sem') ->
  state_keeps wake s (with_set s ns id set').
Proof.
  intros Hset Hk t ns' id' i sem Ha Hw Hsem. rewrite sem_at_with. destruct (_ && _) eqn:E.
  - apply andb_true_iff in E as [->%Z.eqb_eq ->%Z.eqb_eq]. unfold sem_at in Hsem. rewrite Hset in Hsem.
    destruct (Hk i sem Hsem) as (sem' & Hsem' & Hkeeps). destruct (Hkeeps t Ha Hw). naive_solver.
  - split; intros Ht; exists sem; [|done]. split_and!; [done..|lia].
Qed.

Lemma state_keeps_insert wake s ns id set set' i sem sem' :
  set_at s ns id = Some set -> set_sems set !! i = Some sem -> set_sems set' = <[i := sem']> (set_sems set) ->
  entry_keeps wake sem sem' -> state_keeps wake s (with_set s ns id set').
Proof.
  intros Hset Hi Hsems Hk. eapply state_keeps_with; [done|]. intros j sem0 Hj. rewrite Hsems. destruct (decide (j = i)) as [->|].
  - exists sem'. rewrite list_lookup_insert_eq by by eapply lookup_lt_Some. by rewrite Hi in Hj; injection Hj as <-.
  - exists sem0. rewrite list_lookup_insert_ne by done. split; [done|apply entry_keeps_refl].
Qed.

(** A new value, and the wakeups for it. *)
Lemma wake_keeps sem pid v :
  0 <= sem_val sem -> 0 <= v ->
  let p := wake_sem_waiters alive (sem {{ sem_val := v; last_pid := pid }}) in entry_keeps (snd p) sem (fst p).
Proof.
  intros H0 Hv. cbv zeta. intros t Ha Hw. unfold wake_sem_waiters in *. cbn [fst snd] in *. unfold assign, field_setter in *. cbn [sem_val ncnt_waiters zcnt_waiters] in *.
  apply not_elem_of_app in Hw as [Hz Hn]. split; intros Ht.
  - destruct (Z.ltb_spec 0 v); [by destruct Hn; apply elem_drain|]. split; [done|lia].
  - destruct (Z.eqb_spec v 0); [by destruct Hz; apply elem_drain|]. done.
Qed.

Lemma enqueue_entry_keeps wake kind t sem : entry_keeps wake sem (enqueue alive kind t sem).
Proof.
  intros t' _ _. destruct kind; split; intros Ht; (split; [try done; by apply add_waiter_once_sub|try done; simpl; lia]).
Qed.

Lemma count_keeps_ncnt wake sem :
  entry_keeps wake sem (sem {{ ncnt_waiters := snd (count_blocked_waiters alive blocked (ncnt_waiters sem)) }}).
Proof. intros t Ha _. split; [|done]. intros Ht. split; [by apply elem_drain|simpl; lia]. Qed.

Lemma count_keeps_zcnt wake sem :
  entry_keeps wake sem (sem {{ zcnt_waiters := snd (count_blocked_waiters alive blocked (zcnt_waiters sem)) }}).
Proof. intros t Ha _. split; [intros Ht; split; [done|simpl; lia]|]. intros Ht. split; [by apply elem_drain|done]. Qed.

(** ** The steps *)

Lemma value_nonneg s ns id set i sem : sem_ok s -> set_at s ns id = Some set -> set_sems set !! i = Some sem -> 0 <= sem_val sem.
Proof.
  intros Hs Hset Hi. destruct (sem_ok_values_fit s Hs ns id i (sem_val sem)); [|done].
  unfold sem_value, sem_at. rewrite Hset. simpl. by rewrite Hi.
Qed.

Lemma clear_undo_keeps wake s s' u : state_keeps wake s s' -> state_keeps wake s (s' {{ undos := u }}).
Proof. done. Qed.

Lemma set_all_keeps pid sems vals i sem :
  length vals = length sems -> Forall (fun v => 0 <= v < 65536) vals -> 0 <= sem_val sem -> sems !! i = Some sem ->
  exists sem', map fst (set_all alive pid sems vals) !! i = Some sem' /\ entry_keeps (concat (map snd (set_all alive pid sems vals))) sem sem'.
Proof.
  intros Hlen Hv H0 Hi. pose proof (lookup_lt_Some _ _ _ Hi). destruct (lookup_lt_is_Some_2 vals i) as [v Hvi]; [lia|].
  pose proof (Forall_lookup_1 _ _ _ _ Hv Hvi) as Hb. simpl in Hb.
  assert (set_all alive pid sems vals !! i = Some (set_one alive pid v sem)) as Hset by (unfold set_all; by rewrite list_lookup_imap, Hi; simpl; rewrite Hvi).
  exists (fst (set_one alive pid v sem)). split; [by rewrite list_lookup_fmap, Hset|].
  eapply entry_keeps_mono; [|apply wake_keeps; [done|lia]]. intros t Ht. apply list_elem_of_In, in_concat.
  exists (snd (set_one alive pid v sem)). split; [|by apply list_elem_of_In]. apply in_map, list_elem_of_In, list_elem_of_lookup. by exists i.
Qed.

Lemma remove_keeps s ns id :
  sem_ok s -> let p := remove_set alive (manager s ns) id in state_keeps (snd p) s (with_manager s ns (fst p)).
Proof.
  intros Hs. cbv zeta. intros t ns' id' i sem Ha Hw Hsem.
  assert ((ns' = ns /\ id' = id -> t ∉ ncnt_waiters sem /\ t ∉ zcnt_waiters sem) /\
          (~ (ns' = ns /\ id' = id) -> sem_at (with_manager s ns (fst (remove_set alive (manager s ns) id))) ns' id' i = Some sem)) as [Hgone Hkept].
  { split.
    - intros [-> ->]. unfold sem_at, set_at in Hsem. unfold remove_set in Hw. destruct (bt_get (sets (manager s ns)) id) as [set|]; [|done].
      simpl in Hsem, Hw. assert (forall t', t' ∈ drain_live_waiters alive (ncnt_waiters sem) ++ drain_live_waiters alive (zcnt_waiters sem) -> t' <> t) as Hno.
      { intros t' Ht' ->. apply Hw, list_elem_of_In, in_concat. eexists. split; [|by apply list_elem_of_In].
        apply in_map_iff. exists sem. split; [done|]. apply list_elem_of_In, list_elem_of_lookup. by exists i. }
      split; intros Ht; apply (Hno t); try done; apply elem_of_app; [left|right]; by apply elem_drain.
    - intros Hne. rewrite <- Hsem. unfold sem_at, set_at. rewrite manager_with. destruct (Z.eqb_spec ns' ns) as [->|]; [|done].
      rewrite remove_set_get; [done|apply Hs|naive_solver]. }
  destruct (decide (ns' = ns /\ id' = id)) as [He|Hne].
  - destruct (Hgone He). split; by intros.
  - specialize (Hkept Hne). split; intros Ht; exists sem; split_and!; done || lia.
Qed.

Lemma semctl_set_keeps cred ns now id i cmd arg set s :
  sem_ok s -> arg_ok arg -> set_at s ns id = Some set ->
  let r := semctl_set alive blocked cred ns now id i cmd arg set s in state_keeps (rs_wake r) s (rs_state r).
Proof.
  intros Hs Harg Hset. cbv zeta. unfold semctl_set.
  destruct cmd; try (apply state_keeps_same; done); try (destruct (negb _); [by apply state_keeps_same|]);
    try (destruct (arg_writable arg); by apply state_keeps_same);
    try (destruct (set_sems set !! i) as [sem|] eqn:Ei; [|by apply state_keeps_same]; try by apply state_keeps_same).
  - pose proof (remove_keeps s ns id Hs) as H. by destruct (remove_set alive (manager s ns) id).
  - destruct (arg_ds arg) as [[[uid gid] mode]|]; [|by apply state_keeps_same]. simpl. eapply state_keeps_with; [done|].
    intros j sem Hj. exists sem. split; [done|apply entry_keeps_refl].
  - eapply state_keeps_insert; [done..|apply count_keeps_ncnt].
  - eapply state_keeps_insert; [done..|apply count_keeps_zcnt].
  - destruct (_ || _) eqn:Er; [by apply state_keeps_same|]. unfold set_one.
    pose proof (wake_keeps sem (cred_pid cred) (arg_int arg)) as Hk. destruct (wake_sem_waiters _ _) as [sem' wake]. simpl in *.
    apply clear_undo_keeps. eapply state_keeps_insert; [done..|]. apply Hk; [by eapply value_nonneg|lia].
  - destruct (arg_vals arg _) as [vals|] eqn:Ev; [|by apply state_keeps_same]. destruct (Harg _ _ Ev) as [Hlen Hu16].
    destruct (existsb _ vals); [by apply state_keeps_same|]. apply clear_undo_keeps. eapply state_keeps_with; [done|]. intros j sem Hj.
    apply set_all_keeps; [done..|by eapply value_nonneg|done].
Qed.

Lemma touch_keeps wake s ns : state_keeps wake s (with_manager s ns (manager s ns)).
Proof. apply state_keeps_same. intros ns' id i sem Hsem. rewrite <- Hsem. apply sem_at_managers, manager_touch. Qed.

Lemma syscall_semctl_keeps l cred ns now id i cmd arg s :
  sem_ok s -> arg_ok arg ->
  let r := syscall_semctl alive blocked l cred ns now id i cmd arg s in state_keeps (rs_wake r) s (rs_state r).
Proof.
  intros Hs Harg. cbv zeta. unfold syscall_semctl, semctl_info. fold (set_at s ns id).
  destruct (set_at s ns id) as [set|] eqn:Hset.
  - rewrite <- (set_at_touch s ns) in Hset.
    pose proof (semctl_set_keeps cred ns now id i cmd arg set _ (sem_ok_touch s ns Hs) Harg Hset) as Hk. cbv zeta in Hk.
    apply (state_keeps_trans [] _ _ _ _ (touch_keeps [] s ns)) in Hk.
    destruct cmd; try exact Hk; repeat case_match; apply touch_keeps.
  - destruct cmd; simpl; repeat case_match; apply touch_keeps.
Qed.

Lemma commit_one_keeps pid ops sems i sem :
  sems !! i = Some sem -> 0 <= sem_val sem -> 0 <= sem_val sem + ops_sum ops i ->
  let p := commit_one alive pid (after ops (sim_start sems)) i sem in entry_keeps (snd p) sem (fst p).
Proof.
  intros Hi H0 Hv. cbv zeta. pose proof (lookup_lt_Some _ _ _ Hi) as Hlt. unfold commit_one. cbn [after sim_start m_operated m_values m_touched].
  rewrite !list_lookup_imap, !lookup_replicate_2 by done. rewrite list_lookup_fmap, Hi. cbn [fmap option_fmap option_map orb].
  destruct (existsb (fun op => _) ops) eqn:Et.
  - assert (existsb (on_sem i) ops = true) as ->; [|by apply wake_keeps].
    apply existsb_exists in Et as (op & Hin & [Hon _]%andb_true_iff). apply existsb_exists. eauto.
  - assert (ops_sum ops i = 0) as ->.
    { clear -Et. induction ops as [|op ops IH]; [done|]. simpl in Et. apply orb_false_iff in Et as [E1 E2].
      rewrite ops_sum_cons, IH by done. fold (on_sem i op). destruct (on_sem i op); [|done]. simpl in E1. destruct (Z.eqb_spec (sem_op op) 0); [lia|done]. }
    rewrite Z.add_0_r. destruct (existsb (on_sem i) ops); [|apply entry_keeps_refl]. intros t _ _.
    split; [|done]. intros Ht. split; [done|]. simpl. lia.
Qed.

Lemma commit_keeps pid ops sems i sem :
  sems !! i = Some sem -> 0 <= sem_val sem -> 0 <= sem_val sem + ops_sum ops i ->
  let new := commit alive pid (after ops (sim_start sems)) sems in
  exists sem', map fst new !! i = Some sem' /\ entry_keeps (concat (map snd new)) sem sem'.
Proof.
  intros Hi H0 Hv. cbv zeta. rewrite commit_lookup, Hi. eexists. split; [done|].
  eapply entry_keeps_mono; [|by apply commit_one_keeps]. intros t Ht. apply list_elem_of_In, in_concat.
  exists (snd (commit_one alive pid (after ops (sim_start sems)) i sem)). split; [|by apply list_elem_of_In].
  apply in_map, list_elem_of_In, list_elem_of_lookup. exists i. unfold commit. by rewrite list_lookup_imap, Hi.
Qed.

Lemma semop_keeps c now s r s' wake : sem_ok s -> semop_outcome alive c now s r s' wake -> state_keeps wake s s'.
Proof.
  intros Hs [set s1 sim pid new Hset [_ [He _]] Hfit Hrec|e s'' _ Hm _ _|set idx kind flg sem timer _ Hset _ Hsem].
  - pose proof (sem_ok_touch s (sc_ns c) Hs) as Hs0. apply record_sem_undo_ok in Hrec as (_ & Hm & _); [|apply Hs0|apply Hs0].
    assert (forall ns, manager s1 ns = manager s ns) as Hm1 by (intros ns; unfold manager at 1; rewrite Hm; apply manager_touch).
    apply (state_keeps_trans [] _ s s1).
    + apply state_keeps_same. intros ns id i sem Hsem. rewrite <- Hsem. by apply sem_at_managers.
    + eapply state_keeps_with; [unfold set_at; rewrite Hm1; exact Hset|]. intros i sem Hi. apply commit_keeps; [done|exact (value_nonneg s _ _ set i sem Hs Hset Hi)|].
      eapply ops_sum_enabled; [exact (set_at_ok s _ _ set Hs Hset)|exact He|]. by rewrite list_lookup_fmap, Hi.
  - apply state_keeps_same. intros ns id i sem Hsem. rewrite <- Hsem. by apply sem_at_managers.
  - apply (state_keeps_trans [] [] s _ _ (touch_keeps [] s (sc_ns c))). eapply state_keeps_insert; [by rewrite set_at_touch|done|done|apply enqueue_entry_keeps].
Qed.

Lemma undo_all_keeps pid now entries s w :
  sem_ok s -> Forall (fun e => adj_fits (u_adj e)) entries ->
  exists wake, snd (fold_left (undo_one alive pid now) entries (s, w)) = w ++ wake /\
    state_keeps wake s (fst (fold_left (undo_one alive pid now) entries (s, w))).
Proof.
  intros Hs He. revert s w Hs. induction He as [|e entries He _ IH]; intros s w Hs; [exists []; rewrite app_nil_r; split; [done|by apply state_keeps_same]|].
  cbn [fold_left]. pose proof (undo_one_ok alive pid now s w e Hs He) as Hs1.
  destruct (undo_one_cases alive pid now s w e (sem_ok_values_fit s Hs) He) as [[Hone _]|(set & sem & Hset & Hsem & Hone)]; [rewrite Hone in *; by apply IH|].
  cbv zeta in Hone. rewrite Hone in Hs1 |- *.
  match type of Hone with _ = (?a, w ++ ?b) => set (s1 := a) in *; set (w1 := b) in * end. cbn [fst] in Hs1.
  destruct (IH s1 (w ++ w1) Hs1) as (wake & Hw & Hk). exists (w1 ++ wake). split; [by rewrite Hw, app_assoc|].
  eapply state_keeps_trans; [|exact Hk]. eapply state_keeps_insert; [done..|]. apply wake_keeps; [exact (value_nonneg s _ _ set _ sem Hs Hset Hsem)|apply clamp_range].
Qed.

Lemma exit_keeps pid now s :
  sem_ok s -> let p := exit_cleanup alive pid now s in state_keeps (snd p) s (fst p).
Proof.
  intros Hs. cbv zeta. unfold exit_cleanup. fold (undos_of s pid).
  destruct (undo_all_keeps pid now (undos_of s pid) (s {{ undos := bt_remove (undos s) pid }}) []) as (wake & Hw & Hk).
  - by apply undos_remove_ok.
  - apply Forall_forall. intros e He. by apply (so_entries s Hs pid e He).
  - rewrite Hw. exact Hk.
Qed.

Lemma sem_step_keeps s s' wake sleeper : sem_ok s -> sem_step alive blocked s s' wake sleeper -> state_keeps wake s s'.
Proof.
  intros Hs Hstep. destruct Hstep as [l cred ns now key nsems semflg s Hl Hn|l cred ns now id i cmd arg s Harg r|
    c now waited s ret s' wake Hc Hturn|c now waited s timer s' wake Hc Hturn|pid now s p].
  - apply state_keeps_same. intros ns' id i sem. unfold sem_at.
    pose proof (gp_kept _ _ _ _ _ _ _ _ (semget_correct l cred ns now key nsems semflg s Hs Hl Hn) ns' id) as Hk.
    destruct (set_at s ns' id) as [set|]; [|done]. by rewrite (Hk set).
  - by apply syscall_semctl_keeps.
  - destruct (semop_turn_outcome alive c now waited s Hs Hc) as (r & s2 & w & Hturn' & Hout). rewrite Hturn in Hturn'.
    injection Hturn' as <- <- <-. by eapply semop_keeps.
  - destruct (semop_turn_outcome alive c now waited s Hs Hc) as (r & s2 & w & Hturn' & Hout). rewrite Hturn in Hturn'.
    injection Hturn' as <- <- <-. by eapply semop_keeps.
  - by apply exit_keeps.
Qed.

(** ** Those who sleep *)

(** The state, and the calls that sleep, by task. *)
Record SemWorld := mkSemWorld {
  sw_state : SemState;
  sw_sleeping : gmap Z SemCall
}.

Definition go_to_sleep (sleeper : option SemCall) (m : gmap Z SemCall) : gmap Z SemCall :=
  match sleeper with Some c => <[sc_task c := c]> m | None => m end.

(** A step of some task, or a task that is woken by a timer or a signal. *)
Inductive sem_world_step : SemWorld -> SemWorld -> Prop :=
  | world_call s m s' wake sleeper :
      sem_step alive blocked s s' wake sleeper ->
      match sleeper with Some c => alive (sc_task c) = true /\ m !! sc_task c = None | None => True end ->
      sem_world_step (mkSemWorld s m) (mkSemWorld s' (go_to_sleep sleeper (filter (fun p => p.1 ∉ wake) m)))
  | world_wakes s m t : sem_world_step (mkSemWorld s m) (mkSemWorld s (delete t m)).

Definition sem_world_boot : SemWorld := mkSemWorld sem_boot ∅.

(** Each test for zero comes where the operations before it leave its semaphore as it was. *)
Definition zero_tests_first (c : SemCall) : Prop :=
  forall k op, sc_ops c !! k = Some op -> sem_op op = 0 -> ops_sum (take k (sc_ops c)) (sem_num op) = 0.

(** The call is in the queue of an operation that is not possible. *)
Definition waits (t : Z) (c : SemCall) (s : SemState) : Prop :=
  exists k op sem, sc_ops c !! k = Some op /\ sem_at s (sc_ns c) (sc_semid c) (sem_num op) = Some sem /\
    let before := ops_sum (take k (sc_ops c)) (sem_num op) in
    (sem_op op < 0 /\ t ∈ ncnt_waiters sem /\ sem_val sem + before + sem_op op < 0 \/
     sem_op op = 0 /\ t ∈ zcnt_waiters sem /\ sem_val sem <> 0 /\ before = 0).

Definition sleepers_ok (w : SemWorld) : Prop :=
  sem_ok (sw_state w) /\
  forall t c, sw_sleeping w !! t = Some c -> alive t = true /\ (zero_tests_first c -> waits t c (sw_state w)).

Lemma waits_not_runnable t c s : waits t c s -> ~ runnable c s.
Proof.
  intros (k & op & sem & Hk & Hsem & Hw) (set & Hset & _ & He & _). destruct (He k op Hk) as (v & Hv & Hp).
  unfold sem_at in Hsem. rewrite Hset in Hsem. simpl in Hsem. rewrite list_lookup_fmap, Hsem in Hv. injection Hv as <-.
  unfold possible in Hp. destruct (Z.eqb_spec (sem_op op) 0); naive_solver lia.
Qed.

Lemma waits_kept t c wake s s' : alive t = true -> t ∉ wake -> state_keeps wake s s' -> waits t c s -> waits t c s'.
Proof.
  intros Ha Hw Hk (k & op & sem & Hop & Hsem & Hwait). destruct (Hk t _ _ _ sem Ha Hw Hsem) as [Hn Hz].
  destruct Hwait as [(H0 & Ht & Hv)|(H0 & Ht & Hv & Hb)].
  - destruct (Hn Ht) as (sem' & Hsem' & Ht' & Hle). exists k, op, sem'. split_and!; [done..|]. left. split_and!; [done..|lia].
  - destruct (Hz Ht) as (sem' & Hsem' & Ht' & Hne). exists k, op, sem'. split_and!; [done..|]. right. auto.
Qed.

(** A call that goes to sleep waits. *)
Lemma sleeps_waits c now waited s timer s' wake :
  sem_ok s -> call_fits c -> semop_turn alive c now waited s = Some (SemSleep timer, s', wake) ->
  wake = [] /\ (zero_tests_first c -> waits (sc_task c) c s').
Proof.
  intros Hs Hc Hturn. destruct (semop_turn_outcome alive c now waited s Hs Hc) as (r & s2 & w & Hturn' & Hout).
  rewrite Hturn in Hturn'. injection Hturn' as <- <- <-. inversion Hout as [| |set idx kind flg sem timer' Hno Hset Hst Hsem]; subst. split; [done|].
  intros Hzero. destruct Hst as (k & op & v & Hk & _ & Hv & -> & _ & Hstop). rewrite list_lookup_fmap, Hsem in Hv. injection Hv as <-.
  exists k, op, (enqueue alive kind (sc_task c) sem). split_and!; [done| |].
  - rewrite sem_at_with, !Z.eqb_refl. cbn [andb]. apply list_lookup_insert_eq. by eapply lookup_lt_Some.
  - destruct kind; destruct Hstop as [Hop Hv]; [right|left].
    + specialize (Hzero k op Hk Hop). rewrite Hzero, Z.add_0_r in Hv. split_and!; [done|apply add_waiter_once_elem|done|done].
    + split_and!; [done|apply add_waiter_once_elem|done].
Qed.

Lemma sleepers_ok_step w w' : sem_world_step w w' -> sleepers_ok w -> sleepers_ok w'.
Proof.
  intros Hstep [Hs Hsl]. destruct Hstep as [s m s' wake sleeper Hstep Hfree|s m t]; simpl in *.
  - split; [by eapply sem_step_ok|]. simpl. pose proof (sem_step_keeps s s' wake sleeper Hs Hstep) as Hk.
    assert (forall t c, filter (fun p => p.1 ∉ wake) m !! t = Some c -> alive t = true /\ (zero_tests_first c -> waits t c s')) as Hold.
    { intros t c [Ht Hw]%map_lookup_filter_Some. destruct (Hsl t c Ht) as [Ha Hwait]. split; [done|]. intros Hz. eapply waits_kept; eauto. }
    destruct Hstep; cbn [go_to_sleep]; try exact Hold.
    intros t c'. destruct Hfree as [Ha _]. destruct (decide (t = sc_task c)) as [->|].
    + rewrite lookup_insert_eq. intros [= <-]. split; [done|]. eapply sleeps_waits; eauto.
    + rewrite lookup_insert_ne by done. apply Hold.
  - split; [done|]. simpl. intros t' c [_ Hc]%lookup_delete_Some. auto.
Qed.

End Wake.

(** C14: Whatever tasks do to the semaphores, in any order, a call of [semop] that
    sleeps, and that tests semaphores for zero only before it alters them, cannot run: its
    set exists, and its operations are not possible. *)
Theorem sleepers_not_runnable alive blocked w t c :
  rtc (sem_world_step alive blocked) sem_world_boot w ->
  sw_sleeping w !! t = Some c -> zero_tests_first c ->
  ~ runnable c (sw_state w) /\ is_Some (set_at (sw_state w) (sc_ns c) (sc_semid c)).
Proof.
  intros Hr Ht Hz. assert (sleepers_ok alive w) as [_ Hsl].
  { eapply (rtc_ind_r (sleepers_ok alive)); [|by intros ? ? _ ? ?; eapply sleepers_ok_step|exact Hr]. split; [exact sem_boot_ok|]. intros t' c' Hc. exact (False_ind _ (lookup_empty_Some t' c' Hc)). }
  destruct (Hsl t c Ht) as [_ Hw]. specialize (Hw Hz). split; [by eapply waits_not_runnable|].
  destruct Hw as (k & op & sem & _ & Hsem & _). unfold sem_at in Hsem. by destruct (set_at _ _ _).
Qed.

(** ** Runs *)

(** One set of one semaphore, made by root, and calls on it. *)
Definition root : Cred := mkCred 0 0 [] 5.
Definition default_limits : SemLimits := mkLimits 32000 1024000000 500 32000.
Definition quiet : SemNow := mkSemNow 0 0 0 false.
Definition call_of (task : Z) (ops : list SemBuf) : SemCall := mkCall task root 0 1 ops NoTimeout.
Definition all_tasks (t : Z) : bool := true.

Definition one_set : SemState := snd (syscall_semget default_limits root 0 0 IPC_PRIVATE 1 384 sem_boot).
Definition two_left : SemState :=
  rs_state (syscall_semctl all_tasks all_tasks default_limits root 0 0 1 0%nat SETVAL (mkArg true None (fun _ => None) 2) one_set).

Lemma default_limits_ok : limits_ok default_limits.
Proof. unfold limits_ok. simpl. lia. Qed.

Lemma call_of_fits task ops : forallb (fun op => (-32768 <=? sem_op op) && (sem_op op <=? 32767)) ops = true ->
  Z.of_nat (length ops) <= 65535 -> call_fits (call_of task ops).
Proof.
  intros H Hl. split; [|done]. apply Forall_forall. intros op Hop%list_elem_of_In. rewrite forallb_forall in H. specialize (H op Hop). lia.
Qed.

Lemma no_wakeup_filter (m : gmap Z SemCall) : filter (fun p => p.1 ∉ @nil Z) m = m.
Proof. apply map_filter_id. intros t c _. apply not_elem_of_nil. Qed.

(** A step that wakes nobody and returns. *)
Lemma silent_reached s m s' :
  sem_step all_tasks all_tasks s s' [] None -> sem_world_step all_tasks all_tasks (mkSemWorld s m) (mkSemWorld s' m).
Proof. intros H. rewrite <- (no_wakeup_filter m) at 2. by apply (world_call _ _ s m s' [] None). Qed.

Lemma one_set_reached : sem_world_step all_tasks all_tasks sem_world_boot (mkSemWorld one_set ∅).
Proof.
  apply silent_reached, step_semget; [apply default_limits_ok|lia].
Qed.

Lemma two_left_reached : sem_world_step all_tasks all_tasks (mkSemWorld one_set ∅) (mkSemWorld two_left ∅).
Proof.
  apply silent_reached, (step_semctl all_tasks all_tasks default_limits root 0 0 1 0%nat SETVAL (mkArg true None (fun _ => None) 2) one_set). by intros n vals ?.
Qed.

(** One turn of a call that nothing is known about but its result. *)
Definition turn_state (c : SemCall) (s : SemState) : SemState :=
  match semop_turn all_tasks c quiet false s with Some (_, s', _) => s' | None => s end.

Lemma sleep_reached c s m s' timer :
  call_fits c -> semop_turn all_tasks c quiet false s = Some (SemSleep timer, s', []) -> m !! sc_task c = None ->
  sem_world_step all_tasks all_tasks (mkSemWorld s m) (mkSemWorld s' (<[sc_task c := c]> m)).
Proof.
  intros Hc Hturn Hfree. replace (<[sc_task c := c]> m) with (go_to_sleep (Some c) (filter (fun p => p.1 ∉ @nil Z) m)).
  - apply world_call; [by eapply step_semop_sleep|done].
  - simpl. by rewrite no_wakeup_filter.
Qed.

Definition taker : SemCall := call_of 1 [mkBuf 0 (-1) 0].

Lemma sleepers_not_runnable_witness :
  let s := turn_state taker one_set in
  sw_sleeping (mkSemWorld s {[ 1 := taker ]}) !! 1 = Some taker /\
  ~ runnable taker s /\ is_Some (set_at s 0 1).
Proof.
  cbv zeta. split; [reflexivity|].
  apply (sleepers_not_runnable all_tasks all_tasks (mkSemWorld (turn_state taker one_set) {[ 1 := taker ]}) 1 taker); [|reflexivity|].
  - eapply rtc_l; [apply one_set_reached|]. apply rtc_once. apply (sleep_reached taker one_set ∅ _ None); [|vm_compute; reflexivity|reflexivity].
    apply call_of_fits; [reflexivity|simpl; lia].
  - intros [|[|k]] op [= <-] Hop; discriminate Hop.
Defined.

(** One semaphore of value 2; a task takes one and then wants it to be zero, and sleeps;
    another takes one: now the first could run, but it is not woken. *)
Definition take_then_zero : SemCall := call_of 1 [mkBuf 0 (-1) 0; mkBuf 0 0 0].
Definition other_taker : SemCall := call_of 2 [mkBuf 0 (-1) 0].

(** A wakeup is lost: a reachable state in which a call sleeps although it could run. *)
Theorem zero_test_after_change_left_asleep :
  exists w, rtc (sem_world_step all_tasks all_tasks) sem_world_boot w /\
    sw_sleeping w !! 1 = Some take_then_zero /\ runnable take_then_zero (sw_state w) /\
    exists s' wake, semop_turn all_tasks take_then_zero quiet true (sw_state w) = Some (SemReturn 0, s', wake).
Proof.
  exists (mkSemWorld (turn_state other_taker (turn_state take_then_zero two_left)) {[ 1 := take_then_zero ]}). split_and!.
  - eapply rtc_l; [apply one_set_reached|]. eapply rtc_l; [apply two_left_reached|]. eapply rtc_l.
    + apply (sleep_reached take_then_zero two_left ∅ (turn_state take_then_zero two_left) None); [|vm_compute; reflexivity|reflexivity].
      apply call_of_fits; [reflexivity|simpl; lia].
    + apply rtc_once. apply silent_reached, (step_semop_return all_tasks all_tasks other_taker quiet false _ 0); [|vm_compute; reflexivity].
      apply call_of_fits; [reflexivity|simpl; lia].
  - reflexivity.
  - eexists. split; [vm_compute; reflexivity|]. split_and!; [reflexivity| |].
    + intros [|[|k]] op [= <-]; exists 1; split; try reflexivity; vm_compute; split; discriminate || reflexivity.
    + intros i Hi. exfalso. apply Hi. unfold undo_sum. simpl. unfold undone. simpl. rewrite !andb_false_r. reflexivity.
  - do 2 eexists. vm_compute. reflexivity.
Qed.
