(* ===== verification/Msg.v ===== *)
(** * System V message queues

    [syscall/sysv_ipc/msg.rs].  A waiter is the identity of its task; [msgsnd] and [msgrcv]
    are sequences of turns under the lock of the managers; whom a call wakes is part of its
    result. *)

From S2P Require Import Prelude.
From S2P Require Import BTree.
From S2P Require Import Errno.
From S2P Require Import Ipc.

Abbreviation MSG_R := 256.
Abbreviation MSG_W := 128.
Abbreviation MSG_NOERROR := 4096.
Abbreviation MSG_EXCEPT := 8192.
Abbreviation MSG_COPY := 16384.
Abbreviation MSGPOOL := 65536.
Abbreviation MSGMAP := 16384.
Abbreviation MSGTQL := 16384.
Abbreviation ISIZE_MAX := 9223372036854775807.
Abbreviation ISIZE_MIN := (-9223372036854775808).

Record Msg := mkMsg {
  mtype : Z;
  mtext : list Z
}.

Record MsgQueue := mkQueue {
  q_id : Z;
  q_key : option Z;
  q_perm : IpcPermKernel;
  q_msgs : list Msg;
  recv_waiters : list Z;
  send_waiters : list Z;
  cbytes : Z;
  qbytes : Z;
  lspid : Z;
  lrpid : Z;
  q_stime : Z;
  q_rtime : Z;
  q_ctime : Z
}.
#[export] Instance fields_MsgQueue : Fields MsgQueue := fun q =>
  mkQueue (q_id q) (q_key q) (q_perm q) (q_msgs q) (recv_waiters q) (send_waiters q) (cbytes q) (qbytes q)
    (lspid q) (lrpid q) (q_stime q) (q_rtime q) (q_ctime q).

Record MsgManager := mkMsgManager {
  mq_next_id : Z;
  queues : list (Z * MsgQueue);
  mq_key2id : list (Z * Z)
}.
#[export] Instance fields_MsgManager : Fields MsgManager := fun m => mkMsgManager (mq_next_id m) (queues m) (mq_key2id m).

Record MsgLimits := mkMsgLimits {
  msgmax : Z;
  msgmnb : Z;
  msgmni : Z
}.

(** [MSG_MANAGERS], by namespace. *)
Definition MsgState : Type := list (Z * MsgManager).

Module MsgQ.

(** [managers.entry(ns).or_default()]. *)
Definition manager (s : MsgState) (ns : Z) : MsgManager := unwrap_or (bt_get s ns) (mkMsgManager 0 [] []).
Definition with_manager (s : MsgState) (ns : Z) (m : MsgManager) : MsgState := bt_insert s ns m.
Definition with_queue (s : MsgState) (ns id : Z) (q : MsgQueue) : MsgState :=
  let m := manager s ns in with_manager s ns (m {{ queues := bt_insert (queues m) id q }}).

Definition alloc_id (m : MsgManager) : Z * MsgManager :=
  let id := free_id (mq_next_id m) (queues m) in (id, m {{ mq_next_id := wadd id 1 }}).

Section Waiters.
Context (alive : Z -> bool).

Definition remove_queue (m : MsgManager) (id : Z) : MsgManager * list Z :=
  match bt_get (queues m) id with
  | None => (m, [])
  | Some q =>
      let m := m {{ queues := bt_remove (queues m) id }} in
      (match q_key q with
       | Some key => if bool_decide (bt_get (mq_key2id m) key = Some id) then m {{ mq_key2id := bt_remove (mq_key2id m) key }} else m
       | None => m
       end, drain_live_waiters alive (recv_waiters q) ++ drain_live_waiters alive (send_waiters q))
  end.

(** ** [msgget] *)

Definition syscall_msgget (l : MsgLimits) (cred : Cred) (ns now key msgflg : Z) (s : MsgState) : Z * MsgState :=
  let key_u32 := key mod 4294967296 in
  let m := manager s ns in
  let s := with_manager s ns m in
  match (if key =? IPC_PRIVATE then None else bt_get (mq_key2id m) key_u32) with
  | Some id =>
      if negb (Z.land msgflg IPC_CREAT =? 0) && negb (Z.land msgflg IPC_EXCL =? 0) then (err EEXIST, s)
      else
        match bt_get (queues m) id with
        | None => (err ENOENT, s)
        | Some q => if negb (check_ipc_access (q_perm q) (Z.land msgflg 448) cred) then (err EACCES, s) else (id, s)
        end
  | None =>
      if negb (key =? IPC_PRIVATE) && (Z.land msgflg IPC_CREAT =? 0) then (err ENOENT, s)
      else if msgmni l <=? Z.of_nat (length (queues m)) then (err ENOSPC, s)
      else
        let (id, m) := alloc_id m in
        let q := mkQueue id (if key =? IPC_PRIVATE then None else Some key_u32)
                   (mkPerm key_u32 (euid cred) (egid cred) (euid cred) (egid cred) (Z.land msgflg 511))
                   [] [] [] 0 (msgmnb l) 0 0 0 0 now in
        let m := match q_key q with Some k => m {{ mq_key2id := bt_insert (mq_key2id m) k id }} | None => m end in
        (id, with_manager s ns (m {{ queues := bt_insert (queues m) id q }}))
  end.

(** ** [msgctl] *)

Inductive MsgCmd :=
  | M_RMID | M_SET | M_STAT | M_INFO | MSG_STAT | MSG_INFO | MSG_STAT_ANY | M_Bad.

(** What the buffer gives: whether it can be written, and the owner, group, mode and
    capacity read from it. *)
Record MsgArg := mkMsgArg {
  ma_writable : bool;
  ma_ds : option (Z * Z * Z * Z)
}.
(** What is written to it: the state of a queue, or the limits with three counts. *)
Inductive MsgOut :=
  | MNothing
  | MDs (q : MsgQueue)
  | MInfo (l : MsgLimits) (pool map tql : Z).

Record MsgctlRes := mkMsgctl {
  mr_ret : Z;
  mr_out : MsgOut;
  mr_state : MsgState;
  mr_wake : list Z
}.

Definition sum_queues (f : MsgQueue -> Z) (m : MsgManager) : Z := fold_left (fun acc p => sat_add acc (f (snd p))) (queues m) 0.

Definition msgctl_info (l : MsgLimits) (cmd : MsgCmd) (m : MsgManager) : MsgOut :=
  match cmd with
  | MSG_INFO =>
      MInfo l (Z.min (Z.of_nat (length (queues m))) I32_MAX)
        (Z.min (sum_queues (fun q => Z.of_nat (length (q_msgs q))) m) I32_MAX) (Z.min (sum_queues cbytes m) I32_MAX)
  | _ => MInfo l MSGPOOL MSGMAP MSGTQL
  end.

Definition msgctl_queue (cred : Cred) (ns now msqid : Z) (cmd : MsgCmd) (arg : MsgArg) (q : MsgQueue) (s : MsgState) : MsgctlRes :=
  let fail e := mkMsgctl (err e) MNothing s [] in
  match cmd with
  | M_RMID =>
      if negb (is_owner_or_root (q_perm q) cred) then fail EPERM
      else let (m, wake) := remove_queue (manager s ns) msqid in mkMsgctl 0 MNothing (with_manager s ns m) wake
  | M_STAT =>
      if negb (check_ipc_access (q_perm q) MSG_R cred) then fail EACCES
      else if ma_writable arg then mkMsgctl 0 (MDs q) s [] else fail EFAULT
  | M_SET =>
      if negb (is_owner_or_root (q_perm q) cred) then fail EPERM
      else
        match ma_ds arg with
        | None => fail EFAULT
        | Some (uid, gid, mode, bytes) =>
            mkMsgctl 0 MNothing
              (with_queue s ns msqid
                 (q {{ q_perm := (q_perm q) {{ perm_uid := uid; perm_gid := gid; perm_mode := Z.land mode 511 }};
                       qbytes := bytes; q_ctime := now; send_waiters := [] }}))
              (drain_live_waiters alive (send_waiters q))
        end
  | _ => fail EINVAL
  end.

Definition syscall_msgctl (l : MsgLimits) (cred : Cred) (ns now msqid : Z) (cmd : MsgCmd) (arg : MsgArg) (s : MsgState) : MsgctlRes :=
  let m := manager s ns in
  let s := with_manager s ns m in
  let fail e := mkMsgctl (err e) MNothing s [] in
  match cmd with
  | M_INFO | MSG_INFO =>
      if ma_writable arg then mkMsgctl (unwrap_or (last (map fst (queues m))) 0) (msgctl_info l cmd m) s [] else fail EFAULT
  | _ =>
      match bt_get (queues m) msqid with
      | None => fail EINVAL
      | Some q =>
          match cmd with
          | MSG_STAT | MSG_STAT_ANY =>
              if (match cmd with MSG_STAT_ANY => true | _ => false end) || check_ipc_access (q_perm q) MSG_R cred
              then if ma_writable arg then mkMsgctl msqid (MDs q) s [] else fail EFAULT
              else fail EACCES
          | _ => msgctl_queue cred ns now msqid cmd arg q s
          end
      end
  end.

(** ** [msgsnd] *)

(** What a turn of a blocking call reads: whether a signal is pending, and the time. *)
Record MsgNow := mkMsgNow {
  mn_secs : Z;
  mn_signal : bool
}.

(** The arguments of [msgsnd]: the size, and the type and the text that are read through
    the pointer. *)
Definition msgsnd_args (l : MsgLimits) (msgsz : Z) (ty : option Z) (text : option (list Z)) : Z + Msg :=
  if ISIZE_MAX <? msgsz then inl (err EINVAL)
  else if msgmax l <? msgsz then inl (err EINVAL)
  else
    match ty with
    | None => inl (err EFAULT)
    | Some ty =>
        if ty <=? 0 then inl (err EINVAL)
        else match text with None => inl (err EFAULT) | Some text => inr (mkMsg ty text) end
    end.

Record SendCall := mkSend {
  sd_task : Z;
  sd_cred : Cred;
  sd_ns : Z;
  sd_id : Z;
  sd_msg : Msg;
  sd_flg : Z
}.
Definition msg_size (m : Msg) : Z := Z.of_nat (length (mtext m)).

Inductive MsgTurn :=
  | MReturn (ret : Z)
  | MGot (ty : Z) (payload : list Z)
  | MSleep.

(** There is room for the message. *)
Definition has_space (q : MsgQueue) (m : Msg) : bool := sat_add (cbytes q) (msg_size m) <=? qbytes q.

(** One turn of [msgsnd]. *)
Definition snd_turn (c : SendCall) (now : MsgNow) (waited : bool) (s : MsgState) : MsgTurn * MsgState * list Z :=
  let m := manager s (sd_ns c) in
  let s := with_manager s (sd_ns c) m in
  let fail e := (MReturn (err e), s, []) in
  match bt_get (queues m) (sd_id c) with
  | None => fail (if waited : bool then EIDRM else EINVAL)
  | Some q =>
      if negb (check_ipc_access (q_perm q) MSG_W (sd_cred c)) then fail EACCES
      else if has_space q (sd_msg c) then
        (MReturn 0,
         with_queue s (sd_ns c) (sd_id c)
           (q {{ q_msgs := vec_push (q_msgs q) (sd_msg c); cbytes := wadd (cbytes q) (msg_size (sd_msg c));
                 lspid := cred_pid (sd_cred c); q_stime := mn_secs now; recv_waiters := [] }}),
         drain_live_waiters alive (recv_waiters q))
      else if negb (Z.land (sd_flg c) IPC_NOWAIT =? 0) then fail EAGAIN
      else if mn_signal now then fail EINTR
      else (MSleep, with_queue s (sd_ns c) (sd_id c) (q {{ send_waiters := add_waiter_once alive (send_waiters q) (sd_task c) }}), [])
  end.

(** ** [msgrcv] *)

Record RecvCall := mkRecv {
  rv_task : Z;
  rv_cred : Cred;
  rv_ns : Z;
  rv_id : Z;
  rv_size : Z;
  rv_typ : Z;
  rv_flg : Z
}.
Definition msg_copy (c : RecvCall) : bool := negb (Z.land (rv_flg c) MSG_COPY =? 0).
Definition msg_except (c : RecvCall) : bool := negb (Z.land (rv_flg c) MSG_EXCEPT =? 0).
Definition nowait (c : RecvCall) : bool := negb (Z.land (rv_flg c) IPC_NOWAIT =? 0).

(** The checks before the queue is looked at. *)
Definition msgrcv_args (c : RecvCall) : Z + unit :=
  if ISIZE_MAX <? rv_size c then inl (err EINVAL)
  else if msg_copy c then
    if negb (nowait c) || msg_except c || (rv_typ c <? 0) then inl (err EINVAL) else inr tt
  else if msg_except c && (rv_typ c =? 0) then inl (err EINVAL)
  else inr tt.

(** [-msgtyp], which wraps. *)
Definition type_limit (c : RecvCall) : Z := if rv_typ c =? ISIZE_MIN then ISIZE_MIN else - rv_typ c.

(** The message to take. *)
Definition pick_idx (c : RecvCall) (msgs : list Msg) : option nat :=
  match msgs with
  | [] => None
  | _ =>
      if msg_copy c then
        let idx := Z.to_nat (rv_typ c) in if bool_decide (idx < length msgs)%nat then Some idx else None
      else if rv_typ c =? 0 then Some 0%nat
      else if 0 <? rv_typ c then
        if msg_except c then position (fun m => negb (mtype m =? rv_typ c)) msgs
        else position (fun m => mtype m =? rv_typ c) msgs
      else
        fst <$> min_by (fun p => mtype (snd p)) (List.filter (fun p => mtype (snd p) <=? type_limit c) (imap pair msgs))
  end.

(** One turn of [msgrcv]. *)
Definition rcv_turn (c : RecvCall) (now : MsgNow) (waited : bool) (s : MsgState) : option (MsgTurn * MsgState * list Z) :=
  let m := manager s (rv_ns c) in
  let s := with_manager s (rv_ns c) m in
  let fail e := Some (MReturn (err e), s, []) in
  match bt_get (queues m) (rv_id c) with
  | None => fail (if waited : bool then EIDRM else EINVAL)
  | Some q =>
      if negb (check_ipc_access (q_perm q) MSG_R (rv_cred c)) then fail EACCES
      else
        match pick_idx c (q_msgs q) with
        | Some idx =>
            src ← q_msgs q !! idx;
            if (rv_size c <? msg_size src) && (Z.land (rv_flg c) MSG_NOERROR =? 0) then fail E2BIG
            else
              let got := MGot (mtype src) (take (Z.to_nat (rv_size c)) (mtext src)) in
              if msg_copy c then Some (got, s, [])
              else
                Some (got,
                      with_queue s (rv_ns c) (rv_id c)
                        (q {{ q_msgs := delete idx (q_msgs q); cbytes := sat_sub (cbytes q) (msg_size src);
                              lrpid := cred_pid (rv_cred c); q_rtime := mn_secs now; send_waiters := [] }}),
                      drain_live_waiters alive (send_waiters q))
        | None =>
            if nowait c then fail ENOMSG
            else if mn_signal now then fail EINTR
            else
              Some (MSleep,
                    with_queue s (rv_ns c) (rv_id c) (q {{ recv_waiters := add_waiter_once alive (recv_waiters q) (rv_task c) }}), [])
        end
  end.

(** The end of [msgrcv], without the lock: the type and the text are written through the
    pointer. *)
Definition rcv_result (type_written text_written : bool) (payload : list Z) : Z :=
  if negb type_written then err EFAULT
  else if negb text_written then err EFAULT
  else Z.of_nat (length payload).

(** After it has slept: a signal ends a call, else there is another turn. *)
Definition snd_wakeup (c : SendCall) (now : MsgNow) (signal : bool) (s : MsgState) : MsgTurn * MsgState * list Z :=
  if signal then (MReturn (err EINTR), s, []) else snd_turn c now true s.
Definition rcv_wakeup (c : RecvCall) (now : MsgNow) (signal : bool) (s : MsgState) : option (MsgTurn * MsgState * list Z) :=
  if signal then Some (MReturn (err EINTR), s, []) else rcv_turn c now true s.

End Waiters.

(** [write_msg_sysctl] of one of the three limits. *)
Inductive MsgSysctl := SysMsgmax | SysMsgmnb | SysMsgmni.
Definition write_msg_sysctl (path : option MsgSysctl) (value : Z + Z) (l : MsgLimits) : (Z + unit) * MsgLimits :=
  match path, value with
  | None, _ => (inl (err EINVAL), l)
  | Some _, inl e => (inl e, l)
  | Some p, inr v =>
      if (v =? 0) || (I32_MAX <? v) then (inl (err EINVAL), l)
      else
        (inr tt,
         match p with
         | SysMsgmax => mkMsgLimits v (msgmnb l) (msgmni l)
         | SysMsgmnb => mkMsgLimits (msgmax l) v (msgmni l)
         | SysMsgmni => mkMsgLimits (msgmax l) (msgmnb l) v
         end)
  end.

End MsgQ.
