(* ===== verification/MsgProof.v ===== *)
(** * System V message queues: delivery and sleeping

    Which message [msgrcv] takes ([msgrcv_takes_right_message]); that in any order of calls
    every message comes out once, and those of one type in the order they were sent
    ([messages_delivered_in_order]); and that whoever sleeps has reason to
    ([msg_sleepers_justified]). *)

From S2P Require Import Prelude.
From S2P Require Import BTree.
From S2P Require Import Errno.
From S2P Require Import Ipc.
From S2P Require Import Msg.
Import MsgQ.

(** ** The message a call takes *)

(** The messages a call accepts. *)
Definition accepts (c : RecvCall) (m : Msg) : bool :=
  if rv_typ c =? 0 then true
  else if 0 <? rv_typ c then if msg_except c then negb (mtype m =? rv_typ c) else mtype m =? rv_typ c
  else mtype m <=? type_limit c.

(** The one it takes: the first it accepts, or, of those up to a type, the first of the
    lowest type. *)
Definition right_message (c : RecvCall) (msgs : list Msg) (idx : nat) (m : Msg) : Prop :=
  msgs !! idx = Some m /\ accepts c m = true /\
  (forall j m', (j < idx)%nat -> msgs !! j = Some m' ->
     accepts c m' = false \/ (rv_typ c < 0 /\ mtype m < mtype m')) /\
  (rv_typ c < 0 -> forall m', m' ∈ msgs -> accepts c m' = true -> mtype m <= mtype m').

Lemma position_first {A} (p : A -> bool) l i : position p l = Some i -> forall j y, (j < i)%nat -> l !! j = Some y -> p y = false.
Proof.
  revert i. induction l as [|x l IH]; intros i; simpl; [done|]. destruct (p x) eqn:E; [intros [= <-]; lia|].
  destruct (position p l) as [k|]; [|done]. intros [= <-] [|j] y Hj; simpl; [by intros [= <-]|]. apply (IH k eq_refl). lia.
Qed.

(** The lowest type among the messages with [p], from index [k] on. *)
Lemma min_by_index (p : Msg -> bool) msgs k :
  match min_by (fun x => mtype (snd x)) (List.filter (fun x => p (snd x)) (imap (fun i m => ((k + i)%nat, m)) msgs)) with
  | Some (idx, m) => exists i, idx = (k + i)%nat /\ msgs !! i = Some m /\ p m = true /\
      (forall j m', (j < i)%nat -> msgs !! j = Some m' -> p m' = true -> mtype m < mtype m') /\
      (forall m', m' ∈ msgs -> p m' = true -> mtype m <= mtype m')
  | None => Forall (fun m => p m = false) msgs
  end.
Proof.
  revert k. induction msgs as [|m msgs IH]; intros k; [by constructor|]. rewrite imap_cons.
  replace (imap ((fun i m => ((k + i)%nat, m)) ∘ S) msgs) with (imap (fun i m => ((S k + i)%nat, m)) msgs)
    by (apply imap_ext; intros i x _; simpl; f_equal; lia).
  specialize (IH (S k)). cbn [List.filter snd]. destruct (p m) eqn:Ep; cbn [min_by];
    destruct (min_by _ _) as [[idx m0]|].
  - destruct IH as (i & -> & Hi & Hp & Hlt & Hle). cbn [snd]. destruct (key_ltb (mtype m0) (mtype m)) eqn:Ek.
    + change (mtype m0 <? mtype m = true) in Ek. exists (S i). split_and!; [lia|done|done| |].
      * intros [|j] m' Hj; simpl; [intros [= <-] _; lia|]. apply Hlt. lia.
      * intros m' [->|Hm']%elem_of_cons Hp'; [lia|auto].
    + change (mtype m0 <? mtype m = false) in Ek. exists 0%nat. split_and!; [lia|done|done|lia|].
      intros m' [->|Hm']%elem_of_cons Hp'; [lia|]. specialize (Hle m' Hm' Hp'). lia.
  - exists 0%nat. split_and!; [lia|done|done|lia|]. intros m' [->|Hm']%elem_of_cons Hp'; [lia|].
    eapply Forall_forall in IH; [|exact Hm']. congruence.
  - destruct IH as (i & -> & Hi & Hp & Hlt & Hle). exists (S i). split_and!; [lia|done|done| |].
    + intros [|j] m' Hj; simpl; [intros [= <-]; congruence|]. apply Hlt. lia.
    + intros m' [->|Hm']%elem_of_cons Hp'; [congruence|auto].
  - by constructor.
Qed.

Lemma pick_idx_correct c msgs :
  msg_copy c = false ->
  match pick_idx c msgs with
  | Some idx => exists m, right_message c msgs idx m
  | None => Forall (fun m => accepts c m = false) msgs
  end.
Proof.
  intros Hc. unfold pick_idx, right_message, accepts. rewrite Hc. destruct msgs as [|m0 msgs']; [done|]. set (msgs := m0 :: msgs').
  destruct (Z.eqb_spec (rv_typ c) 0) as [H0|H0]; [exists m0; split_and!; [done|done|lia|lia]|].
  destruct (Z.ltb_spec 0 (rv_typ c)) as [Hpos|Hneg].
  - assert (forall p : Msg -> bool, match position p msgs with
      | Some idx => exists m, msgs !! idx = Some m /\ p m = true /\
          (forall j m', (j < idx)%nat -> msgs !! j = Some m' -> p m' = false \/ (rv_typ c < 0 /\ mtype m < mtype m')) /\
          (rv_typ c < 0 -> forall m', m' ∈ msgs -> p m' = true -> mtype m <= mtype m')
      | None => Forall (fun m => p m = false) msgs end) as Hpos'.
    { intros p. destruct (position p msgs) as [idx|] eqn:E.
      - destruct (position_Some _ _ _ E) as (m & Hm & Hp). exists m. split_and!; [done|done| |lia]. left. by eapply position_first.
      - apply Forall_forall. by apply position_None. }
    destruct (msg_except c); apply Hpos'.
  - pose proof (min_by_index (fun m => mtype m <=? type_limit c) msgs 0) as H.
    change (imap (fun i m => ((0 + i)%nat, m)) msgs) with (imap pair msgs) in H.
    destruct (min_by _ _) as [[idx m]|]; simpl; [|done].
    destruct H as (i & -> & Hi & Hp & Hlt & Hle). exists m. split_and!; [done|done| |auto].
    intros j m' Hj Hm'. destruct (mtype m' <=? type_limit c) eqn:Ea; [right|by left]. split; [lia|]. eauto.
Qed.

(** It is the first of its type. *)
Lemma right_message_first c msgs idx m j m' :
  right_message c msgs idx m -> (j < idx)%nat -> msgs !! j = Some m' -> mtype m' <> mtype m.
Proof.
  intros (_ & Ha & Hfirst & _) Hj Hm' Heq. destruct (Hfirst j m' Hj Hm') as [Hno|[_ Hlt]]; [|lia].
  unfold accepts in *. rewrite Heq in Hno. congruence.
Qed.

(** ** The state *)

Definition queue_at (s : MsgState) (ns id : Z) : option MsgQueue := bt_get (queues (manager s ns)) id.

Lemma mq_manager_with s ns m ns' : manager (with_manager s ns m) ns' = if ns' =? ns then m else manager s ns'.
Proof. unfold manager, with_manager. rewrite bt_get_insert, key_eqb_Z. by destruct (ns' =? ns). Qed.

Lemma mq_manager_touch s ns ns' : manager (with_manager s ns (manager s ns)) ns' = manager s ns'.
Proof. rewrite mq_manager_with. by destruct (Z.eqb_spec ns' ns) as [->|]. Qed.

Lemma queue_at_touch s ns ns' id : queue_at (with_manager s ns (manager s ns)) ns' id = queue_at s ns' id.
Proof. unfold queue_at. by rewrite mq_manager_touch. Qed.

Lemma queue_at_with s ns id q ns' id' :
  queue_at (with_queue s ns id q) ns' id' = if (ns' =? ns) && (id' =? id) then Some q else queue_at s ns' id'.
Proof.
  unfold queue_at, with_queue. rewrite mq_manager_with. destruct (Z.eqb_spec ns' ns) as [->|]; [|done]. simpl.
  change (bt_get (bt_insert (queues (manager s ns)) id q) id' = if id' =? id then Some q else bt_get (queues (manager s ns)) id').
  rewrite bt_get_insert, key_eqb_Z. by destruct (id' =? id).
Qed.

(** The bytes of the messages. *)
Definition total_bytes (msgs : list Msg) : Z := foldr (fun m acc => msg_size m + acc) 0 msgs.

Lemma total_bytes_app l1 l2 : total_bytes (l1 ++ l2) = total_bytes l1 + total_bytes l2.
Proof. induction l1 as [|m l1 IH]; simpl; [done|]. unfold total_bytes in *. simpl. lia. Qed.

Lemma total_bytes_nonneg l : 0 <= total_bytes l.
Proof. induction l as [|m l IH]; simpl; [done|]. unfold total_bytes, msg_size in *. simpl. lia. Qed.

Lemma total_bytes_delete msgs i m : msgs !! i = Some m -> total_bytes (delete i msgs) = total_bytes msgs - msg_size m.
Proof.
  intros Hi. rewrite <- (take_drop_middle _ _ _ Hi) at 2. rewrite delete_take_drop, !total_bytes_app. unfold total_bytes. simpl. lia.
Qed.

(** The queues are a table with keys, and each counts its bytes. *)
Record msg_ok (s : MsgState) : Prop := {
  mk_table : forall ns, let m := manager s ns in table_ok q_id q_key (mq_next_id m) (queues m) (mq_key2id m);
  mk_bytes : forall ns id q, queue_at s ns id = Some q -> cbytes q = total_bytes (q_msgs q) /\ total_bytes (q_msgs q) <= USIZE_MAX
}.

Lemma msg_ok_same s s' : (forall ns, manager s' ns = manager s ns) -> msg_ok s -> msg_ok s'.
Proof.
  intros Hm Hs. constructor.
  - intros ns. rewrite Hm. apply Hs.
  - intros ns id q. unfold queue_at. rewrite Hm. apply Hs.
Qed.

Lemma msg_ok_with s ns id q q' :
  msg_ok s -> queue_at s ns id = Some q -> q_id q' = q_id q -> q_key q' = q_key q ->
  cbytes q' = total_bytes (q_msgs q') -> total_bytes (q_msgs q') <= USIZE_MAX -> msg_ok (with_queue s ns id q').
Proof.
  intros Hs Hq Hid Hkey Hb Hmax. constructor.
  - intros ns'. unfold with_queue. rewrite mq_manager_with. destruct (Z.eqb_spec ns' ns) as [->|]; [|apply Hs].
    eapply (key_table_set q_id q_key); [apply (mk_table s Hs ns)|exact Hq|done|done].
  - intros ns' id' q0. rewrite queue_at_with. destruct (_ && _); [by intros [= <-]|apply Hs].
Qed.

(** ** What was sent and what came out *)

Definition of_type (ty : Z) (l : list Msg) : list Msg := List.filter (fun m => mtype m =? ty) l.

(** A delivery: the type, the bytes and the size that was asked for. *)
Definition Delivery : Type := Z * list Z * Z.
Definition delivered (m : Msg) (d : Delivery) : Prop := d = (mtype m, take (Z.to_nat d.2) (mtext m), d.2).

(** Of each type, what was sent is what was delivered, in order, and then what is left. *)
Definition in_order (sent : list Msg) (got : list Delivery) (left_ : list Msg) : Prop :=
  exists taken, Forall2 delivered taken got /\ forall ty, of_type ty sent = of_type ty taken ++ of_type ty left_.

Lemma of_type_app ty l1 l2 : of_type ty (l1 ++ l2) = of_type ty l1 ++ of_type ty l2.
Proof. apply List.filter_app. Qed.

Lemma of_type_none ty l : Forall (fun m => mtype m <> ty) l -> of_type ty l = [].
Proof.
  induction 1 as [|m l Hm _ IH]; [done|]. unfold of_type in *. simpl. destruct (Z.eqb_spec (mtype m) ty); done.
Qed.

Lemma in_order_send sent got left_ m : in_order sent got left_ -> in_order (sent ++ [m]) got (left_ ++ [m]).
Proof.
  intros (taken & Hd & Ho). exists taken. split; [done|]. intros ty. by rewrite !of_type_app, Ho, app_assoc.
Qed.

(** The first message of its type is taken. *)
Lemma in_order_take sent got left_ idx m d :
  in_order sent got left_ -> left_ !! idx = Some m -> (forall j m', (j < idx)%nat -> left_ !! j = Some m' -> mtype m' <> mtype m) ->
  delivered m d -> in_order sent (got ++ [d]) (delete idx left_).
Proof.
  intros (taken & Hd & Ho) Hi Hfirst Hm. exists (taken ++ [m]). split; [by apply Forall2_app; [|constructor]|]. intros ty.
  rewrite Ho, of_type_app, <- app_assoc. f_equal. rewrite <- (take_drop_middle _ _ _ Hi) at 1. rewrite delete_take_drop, !of_type_app.
  change (of_type ty (m :: drop (S idx) left_)) with (of_type ty ([m] ++ drop (S idx) left_)). rewrite of_type_app, !app_assoc. f_equal.
  unfold of_type at 2 3. simpl. destruct (Z.eqb_spec (mtype m) ty) as [<-|]; [|by rewrite app_nil_r].
  rewrite of_type_none; [done|]. apply Forall_lookup. intros j m' [Hj Hlt]%lookup_take_Some. by eapply Hfirst.
Qed.

(** ** How turns end *)

Section Turns.
Context (alive : Z -> bool).

Definition sent_queue (c : SendCall) (now : MsgNow) (q : MsgQueue) : MsgQueue :=
  q {{ q_msgs := vec_push (q_msgs q) (sd_msg c); cbytes := wadd (cbytes q) (msg_size (sd_msg c));
       lspid := cred_pid (sd_cred c); q_stime := mn_secs now; recv_waiters := [] }}.
Definition taken_queue (c : RecvCall) (now : MsgNow) (idx : nat) (m : Msg) (q : MsgQueue) : MsgQueue :=
  q {{ q_msgs := delete idx (q_msgs q); cbytes := sat_sub (cbytes q) (msg_size m);
       lrpid := cred_pid (rv_cred c); q_rtime := mn_secs now; send_waiters := [] }}.

Inductive snd_outcome (c : SendCall) (now : MsgNow) (s : MsgState) : MsgTurn -> MsgState -> list Z -> Prop :=
  | SndDone q :
      queue_at s (sd_ns c) (sd_id c) = Some q -> has_space q (sd_msg c) = true ->
      snd_outcome c now s (MReturn 0)
        (with_queue (with_manager s (sd_ns c) (manager s (sd_ns c))) (sd_ns c) (sd_id c) (sent_queue c now q))
        (drain_live_waiters alive (recv_waiters q))
  | SndRefused e s' : (forall ns, manager s' ns = manager s ns) -> snd_outcome c now s (MReturn (err e)) s' []
  | SndSleeps q :
      queue_at s (sd_ns c) (sd_id c) = Some q -> has_space q (sd_msg c) = false ->
      snd_outcome c now s MSleep
        (with_queue (with_manager s (sd_ns c) (manager s (sd_ns c))) (sd_ns c) (sd_id c)
           (q {{ send_waiters := add_waiter_once alive (send_waiters q) (sd_task c) }})) [].

Lemma snd_turn_outcome c now waited s r s' wake :
  snd_turn alive c now waited s = (r, s', wake) -> snd_outcome c now s r s' wake.
Proof.
  unfold snd_turn. fold (queue_at s (sd_ns c) (sd_id c)). destruct (queue_at s (sd_ns c) (sd_id c)) as [q|] eqn:Hq.
  2:{ intros [= <- <- <-]. apply SndRefused, mq_manager_touch. }
  destruct (negb _); [intros [= <- <- <-]; apply SndRefused, mq_manager_touch|].
  destruct (has_space q (sd_msg c)) eqn:Es; [intros [= <- <- <-]; by apply SndDone|].
  destruct (negb _); [intros [= <- <- <-]; apply SndRefused, mq_manager_touch|].
  destruct (mn_signal now); intros [= <- <- <-]; [apply SndRefused, mq_manager_touch|by apply SndSleeps].
Qed.

Inductive rcv_outcome (c : RecvCall) (now : MsgNow) (s : MsgState) : MsgTurn -> MsgState -> list Z -> Prop :=
  | RcvTook q idx m :
      queue_at s (rv_ns c) (rv_id c) = Some q -> msg_copy c = false -> right_message c (q_msgs q) idx m ->
      rcv_outcome c now s (MGot (mtype m) (take (Z.to_nat (rv_size c)) (mtext m)))
        (with_queue (with_manager s (rv_ns c) (manager s (rv_ns c))) (rv_ns c) (rv_id c) (taken_queue c now idx m q))
        (drain_live_waiters alive (send_waiters q))
  | RcvCopied q m s' :
      queue_at s (rv_ns c) (rv_id c) = Some q -> msg_copy c = true -> q_msgs q !! Z.to_nat (rv_typ c) = Some m ->
      (forall ns, manager s' ns = manager s ns) ->
      rcv_outcome c now s (MGot (mtype m) (take (Z.to_nat (rv_size c)) (mtext m))) s' []
  | RcvRefused e s' : (forall ns, manager s' ns = manager s ns) -> rcv_outcome c now s (MReturn (err e)) s' []
  | RcvSleeps q :
      queue_at s (rv_ns c) (rv_id c) = Some q -> msg_copy c = false -> Forall (fun m => accepts c m = false) (q_msgs q) ->
      rcv_outcome c now s MSleep
        (with_queue (with_manager s (rv_ns c) (manager s (rv_ns c))) (rv_ns c) (rv_id c)
           (q {{ recv_waiters := add_waiter_once alive (recv_waiters q) (rv_task c) }})) [].

Lemma args_no_sleep c : msgrcv_args c = inr tt -> msg_copy c = true -> nowait c = true.
Proof.
  unfold msgrcv_args. intros Ha Hc. rewrite Hc in Ha. destruct (ISIZE_MAX <? _); [done|]. destruct (nowait c); [done|]. done.
Qed.

(** A turn of [msgrcv] never panics. *)
Lemma rcv_turn_outcome c now waited s :
  msgrcv_args c = inr tt -> exists r s' wake, rcv_turn alive c now waited s = Some (r, s', wake) /\ rcv_outcome c now s r s' wake.
Proof.
  intros Hargs. unfold rcv_turn.
  assert (forall e, exists r s' wake, Some (MReturn (err e), with_manager s (rv_ns c) (manager s (rv_ns c)), []) = Some (r, s', wake) /\
    rcv_outcome c now s r s' wake) as Href by (intros e; do 3 eexists; split; [done|]; apply RcvRefused, mq_manager_touch).
  fold (queue_at s (rv_ns c) (rv_id c)). destruct (queue_at s (rv_ns c) (rv_id c)) as [q|] eqn:Hq; [|apply Href].
  destruct (negb _); [apply Href|]. destruct (msg_copy c) eqn:Hc.
  - destruct (pick_idx c (q_msgs q)) as [idx|] eqn:Ep; [|rewrite (args_no_sleep c Hargs Hc); apply Href].
    assert (exists m, idx = Z.to_nat (rv_typ c) /\ q_msgs q !! idx = Some m) as (m & -> & Hm).
    { unfold pick_idx in Ep. rewrite Hc in Ep. destruct (q_msgs q) as [|m0 l]; [done|]. case_bool_decide as Hlt; [|done].
      injection Ep as <-. apply lookup_lt_is_Some in Hlt as [m Hm]. by exists m. }
    rewrite Hm. cbn [mbind option_bind]. destruct (_ && _); [apply Href|].
    do 3 eexists. split; [done|]. eapply RcvCopied; [done..|apply mq_manager_touch].
  - pose proof (pick_idx_correct c (q_msgs q) Hc) as Hp. destruct (pick_idx c (q_msgs q)) as [idx|].
    + destruct Hp as (m & Hm). rewrite (proj1 Hm). cbn [mbind option_bind]. destruct (_ && _); [apply Href|].
      do 3 eexists. split; [done|]. by apply RcvTook.
    + destruct (nowait c); [apply Href|]. destruct (mn_signal now); [apply Href|]. do 3 eexists. split; [done|]. by apply RcvSleeps.
Qed.

End Turns.


(** ** Any order of calls *)

(** The state, what each queue was sent and delivered since it was made, and the calls that
    sleep, by task. *)
Record MsgWorld := mkMsgWorld {
  mw_state : MsgState;
  mw_sent : Z -> Z -> list Msg;
  mw_got : Z -> Z -> list Delivery;
  mw_sleeping : gmap Z (SendCall + RecvCall)
}.

Definition push_log {A} (f : Z -> Z -> list A) (ns id : Z) (x : A) : Z -> Z -> list A :=
  fun ns' id' => if (ns' =? ns) && (id' =? id) then f ns' id' ++ [x] else f ns' id'.
Definition clear_log {A} (f : Z -> Z -> list A) (ns id : Z) : Z -> Z -> list A :=
  fun ns' id' => if (ns' =? ns) && (id' =? id) then [] else f ns' id'.

Definition woken (wake : list Z) (m : gmap Z (SendCall + RecvCall)) : gmap Z (SendCall + RecvCall) := filter (fun p => p.1 ∉ wake) m.

(** The bytes of a queue and of one more message can be counted. *)
Definition room_to_count (s : MsgState) (ns id : Z) (m : Msg) : Prop :=
  forall q, queue_at s ns id = Some q -> total_bytes (q_msgs q) + msg_size m <= USIZE_MAX.

Definition msg_limits_ok (l : MsgLimits) : Prop := msgmni l <= I32_MAX.

Section World.
Context (alive : Z -> bool).

Inductive msg_world_step : MsgWorld -> MsgWorld -> Prop :=
  | msgget_step l cred ns now key msgflg w :
      msg_limits_ok l ->
      msg_world_step w (mkMsgWorld (snd (syscall_msgget l cred ns now key msgflg (mw_state w))) (mw_sent w) (mw_got w) (mw_sleeping w))
  | msgctl_step l cred ns now id cmd arg w :
      let r := syscall_msgctl alive l cred ns now id cmd arg (mw_state w) in
      let gone := match cmd with M_RMID => mr_ret r =? 0 | _ => false end in
      msg_world_step w (mkMsgWorld (mr_state r)
        (if gone then clear_log (mw_sent w) ns id else mw_sent w) (if gone then clear_log (mw_got w) ns id else mw_got w)
        (woken (mr_wake r) (mw_sleeping w)))
  | msgsnd_step c now waited w ret s' wake :
      room_to_count (mw_state w) (sd_ns c) (sd_id c) (sd_msg c) ->
      snd_turn alive c now waited (mw_state w) = (MReturn ret, s', wake) ->
      msg_world_step w (mkMsgWorld s' (if ret =? 0 then push_log (mw_sent w) (sd_ns c) (sd_id c) (sd_msg c) else mw_sent w)
        (mw_got w) (woken wake (mw_sleeping w)))
  | msgsnd_sleeps c now waited w s' wake :
      alive (sd_task c) = true -> snd_turn alive c now waited (mw_state w) = (MSleep, s', wake) ->
      msg_world_step w (mkMsgWorld s' (mw_sent w) (mw_got w) (<[sd_task c := inl c]> (woken wake (mw_sleeping w))))
  | msgrcv_step c now waited w r s' wake :
      msgrcv_args c = inr tt -> rcv_turn alive c now waited (mw_state w) = Some (r, s', wake) -> r <> MSleep ->
      msg_world_step w (mkMsgWorld s' (mw_sent w)
        (match r with
         | MGot ty payload => if msg_copy c then mw_got w else push_log (mw_got w) (rv_ns c) (rv_id c) (ty, payload, rv_size c)
         | _ => mw_got w
         end) (woken wake (mw_sleeping w)))
  | msgrcv_sleeps c now waited w s' wake :
      alive (rv_task c) = true -> msgrcv_args c = inr tt -> rcv_turn alive c now waited (mw_state w) = Some (MSleep, s', wake) ->
      msg_world_step w (mkMsgWorld s' (mw_sent w) (mw_got w) (<[rv_task c := inr c]> (woken wake (mw_sleeping w))))
  | task_wakes w t : msg_world_step w (mkMsgWorld (mw_state w) (mw_sent w) (mw_got w) (delete t (mw_sleeping w))).

Definition msg_boot : MsgWorld := mkMsgWorld [] (fun _ _ => []) (fun _ _ => []) ∅.

(** ** The invariant *)

Definition logs_ok (s : MsgState) (sent : Z -> Z -> list Msg) (got : Z -> Z -> list Delivery) : Prop :=
  forall ns id, match queue_at s ns id with
    | Some q => in_order (sent ns id) (got ns id) (q_msgs q)
    | None => sent ns id = [] /\ got ns id = []
    end.

(** What a call that sleeps is about, and why it sleeps. *)
Definition target (c : SendCall + RecvCall) : Z * Z := match c with inl c => (sd_ns c, sd_id c) | inr c => (rv_ns c, rv_id c) end.
Definition blocked_on (t : Z) (c : SendCall + RecvCall) (q : MsgQueue) : Prop :=
  match c with
  | inl c => has_space q (sd_msg c) = false /\ t ∈ send_waiters q
  | inr c => Forall (fun m => accepts c m = false) (q_msgs q) /\ t ∈ recv_waiters q
  end.
Definition sleep_ok (s : MsgState) (m : gmap Z (SendCall + RecvCall)) : Prop :=
  forall t c, m !! t = Some c -> alive t = true /\ exists q, queue_at s (target c).1 (target c).2 = Some q /\ blocked_on t c q.

(** Who is not woken stays blocked. *)
Definition queue_keeps (wake : list Z) (q q' : MsgQueue) : Prop :=
  forall t c, alive t = true -> t ∉ wake -> blocked_on t c q -> blocked_on t c q'.

Lemma logs_ok_same s s' sent got : (forall ns id, q_msgs <$> queue_at s' ns id = q_msgs <$> queue_at s ns id) -> logs_ok s sent got -> logs_ok s' sent got.
Proof.
  intros Hq Hl ns id. specialize (Hl ns id). specialize (Hq ns id). destruct (queue_at s' ns id) as [q'|], (queue_at s ns id) as [q|]; try done.
  simpl in Hq. injection Hq as ->. done.
Qed.

Lemma sleep_ok_same s s' wake m : (forall ns id q, queue_at s ns id = Some q -> queue_at s' ns id = Some q) -> sleep_ok s m -> sleep_ok s' (woken wake m).
Proof.
  intros Hq Hm t c [Hc _]%map_lookup_filter_Some. destruct (Hm t c Hc) as (Ha & q & Hqt & Hb). split; [done|]. exists q. auto.
Qed.

Lemma sleep_ok_with s ns id q q' wake m :
  queue_at s ns id = Some q -> queue_keeps wake q q' -> sleep_ok s m -> sleep_ok (with_queue s ns id q') (woken wake m).
Proof.
  intros Hq Hk Hm t c [Hc Hw]%map_lookup_filter_Some. destruct (Hm t c Hc) as (Ha & q0 & Hq0 & Hb). split; [done|].
  rewrite queue_at_with. destruct (_ && _) eqn:E; [|by exists q0]. apply andb_true_iff in E as [E1%Z.eqb_eq E2%Z.eqb_eq].
  rewrite E1, E2, Hq in Hq0. injection Hq0 as <-. exists q'. auto.
Qed.

Lemma sleep_ok_insert s m t c q :
  sleep_ok s m -> alive t = true -> queue_at s (target c).1 (target c).2 = Some q -> blocked_on t c q -> sleep_ok s (<[t := c]> m).
Proof.
  intros Hm Ha Hq Hb t' c'. destruct (decide (t' = t)) as [->|]; [|rewrite lookup_insert_ne by done; apply Hm].
  rewrite lookup_insert_eq. intros [= <-]. eauto.
Qed.

Definition all_ok (s : MsgState) (sent : Z -> Z -> list Msg) (got : Z -> Z -> list Delivery) (m : gmap Z (SendCall + RecvCall)) : Prop :=
  msg_ok s /\ logs_ok s sent got /\ sleep_ok s m.

Lemma all_ok_same s s' sent got wake m : (forall ns, manager s' ns = manager s ns) -> all_ok s sent got m -> all_ok s' sent got (woken wake m).
Proof.
  intros Hm (Hs & Hl & Hsl). assert (forall ns id, queue_at s' ns id = queue_at s ns id) as Hq by (intros; unfold queue_at; by rewrite Hm).
  split_and!; [by eapply msg_ok_same|eapply logs_ok_same; [|done]; intros; by rewrite Hq|eapply sleep_ok_same; [|done]; intros; by rewrite Hq].
Qed.

Lemma woken_nobody m : woken [] m = m.
Proof. apply map_filter_id. intros t c _. apply not_elem_of_nil. Qed.

Lemma all_ok_touch s ns sent got m : all_ok s sent got m -> all_ok (with_manager s ns (manager s ns)) sent got m.
Proof. intros H. rewrite <- (woken_nobody m). eapply all_ok_same; [apply mq_manager_touch|done]. Qed.

(** One queue changes, with what it was sent and delivered. *)
Lemma all_ok_with s ns id q q' wake sent got sent' got' m :
  all_ok s sent got m -> queue_at s ns id = Some q -> q_id q' = q_id q -> q_key q' = q_key q ->
  cbytes q' = total_bytes (q_msgs q') -> total_bytes (q_msgs q') <= USIZE_MAX ->
  (in_order (sent ns id) (got ns id) (q_msgs q) -> in_order (sent' ns id) (got' ns id) (q_msgs q')) ->
  (forall ns' id', (ns' =? ns) && (id' =? id) = false -> sent' ns' id' = sent ns' id' /\ got' ns' id' = got ns' id') ->
  queue_keeps wake q q' -> all_ok (with_queue s ns id q') sent' got' (woken wake m).
Proof.
  intros (Hs & Hl & Hsl) Hq Hid Hkey Hb Hmax Hord Hother Hk. split_and!; [by eapply msg_ok_with| |by eapply sleep_ok_with].
  intros ns' id'. rewrite queue_at_with. destruct (_ && _) eqn:E.
  - apply andb_true_iff in E as [->%Z.eqb_eq ->%Z.eqb_eq]. apply Hord. specialize (Hl ns id). by rewrite Hq in Hl.
  - destruct (Hother ns' id' E) as [-> ->]. apply Hl.
Qed.

Lemma has_space_more q q' m : cbytes q <= cbytes q' -> qbytes q' = qbytes q -> has_space q m = false -> has_space q' m = false.
Proof. unfold has_space, sat_add. intros Hb ->. lia. Qed.

(** ** [msgsnd] *)

Lemma snd_ok c now s r s' wake sent got m :
  all_ok s sent got m -> room_to_count s (sd_ns c) (sd_id c) (sd_msg c) -> snd_outcome alive c now s r s' wake ->
  match r with
  | MReturn ret => all_ok s' (if ret =? 0 then push_log sent (sd_ns c) (sd_id c) (sd_msg c) else sent) got (woken wake m)
  | _ => True
  end.
Proof.
  intros Hok Hroom Hout. destruct Hout as [q Hq Hsp|e s' Hm|q Hq Hsp]; [| |done].
  - pose proof (all_ok_touch s (sd_ns c) sent got m Hok) as Hok1. specialize (Hroom q Hq). destruct (mk_bytes s (proj1 Hok) _ _ q Hq) as [Hb _].
    pose proof (total_bytes_nonneg (q_msgs q)). assert (0 <= msg_size (sd_msg c)) by (unfold msg_size; lia).
    assert (total_bytes (vec_push (q_msgs q) (sd_msg c)) = total_bytes (q_msgs q) + msg_size (sd_msg c)) as Htot
      by (unfold vec_push; rewrite total_bytes_app; unfold total_bytes; simpl; lia).
    assert (wadd (cbytes q) (msg_size (sd_msg c)) = total_bytes (q_msgs q) + msg_size (sd_msg c)) as Hcb by (rewrite Hb; apply wadd_small; lia).
    eapply all_ok_with; [exact Hok1|by rewrite queue_at_touch|done|done| | | | |].
    + change (wadd (cbytes q) (msg_size (sd_msg c)) = total_bytes (vec_push (q_msgs q) (sd_msg c))). lia.
    + change (total_bytes (vec_push (q_msgs q) (sd_msg c)) <= USIZE_MAX). lia.
    + intros Ho. simpl. unfold push_log. rewrite !Z.eqb_refl. by apply in_order_send.
    + intros ns' id' E. simpl. unfold push_log. by rewrite E.
    + intros t [c'|c'] Ha Hw [Hb1 Ht]; [|destruct Hw; by apply elem_drain]. split; [|done].
      apply (has_space_more q); [|done|done]. change (cbytes q <= wadd (cbytes q) (msg_size (sd_msg c))). lia.
  - replace (err e =? 0) with false; [by eapply all_ok_same|]. pose proof (err_negative e). lia.
Qed.

Lemma snd_sleep_ok c now s s' wake sent got m :
  all_ok s sent got m -> alive (sd_task c) = true -> snd_outcome alive c now s MSleep s' wake ->
  all_ok s' sent got (<[sd_task c := inl c]> (woken wake m)).
Proof.
  intros Hok Ha Hout. inversion Hout as [| |q Hq Hsp]; subst. pose proof (all_ok_touch s (sd_ns c) sent got m Hok) as Hok1.
  destruct (mk_bytes s (proj1 Hok) _ _ q Hq) as [Hb Hmax].
  set (q' := q {{ send_waiters := add_waiter_once alive (send_waiters q) (sd_task c) }}).
  assert (all_ok (with_queue (with_manager s (sd_ns c) (manager s (sd_ns c))) (sd_ns c) (sd_id c) q') sent got (woken [] m)) as (H1 & H2 & H3).
  { eapply all_ok_with; [exact Hok1|by rewrite queue_at_touch|done|done|exact Hb|exact Hmax|done|done|].
    intros t [c'|c'] _ _ [Hb1 Ht]; (split; [done|]); [by apply add_waiter_once_sub|done]. }
  split_and!; [done|done|]. eapply sleep_ok_insert; [done|done| |]; cbn [target fst snd].
  - by rewrite queue_at_with, !Z.eqb_refl.
  - split; [done|apply add_waiter_once_elem].
Qed.

(** ** [msgrcv] *)

Lemma rcv_ok c now s r s' wake sent got m :
  all_ok s sent got m -> rcv_outcome alive c now s r s' wake -> r <> MSleep ->
  all_ok s' sent (match r with
    | MGot ty payload => if msg_copy c then got else push_log got (rv_ns c) (rv_id c) (ty, payload, rv_size c)
    | _ => got end) (woken wake m).
Proof.
  intros Hok Hout Hr. destruct Hout as [q idx msg Hq Hc Hm|q msg s' Hq Hc Hm Hman|e s' Hman|]; [|rewrite Hc; by eapply all_ok_same|by eapply all_ok_same|done].
  rewrite Hc. pose proof (all_ok_touch s (rv_ns c) sent got m Hok) as Hok1. destruct (mk_bytes s (proj1 Hok) _ _ q Hq) as [Hb Hmax].
  pose proof (proj1 Hm) as Hidx. pose proof (total_bytes_delete _ _ _ Hidx) as Hdel. pose proof (total_bytes_nonneg (delete idx (q_msgs q))).
  assert (0 <= msg_size msg) by (unfold msg_size; lia).
  eapply all_ok_with; [exact Hok1|by rewrite queue_at_touch|done|done| | | | |].
  - change (sat_sub (cbytes q) (msg_size msg) = total_bytes (delete idx (q_msgs q))). rewrite sat_sub_small; lia.
  - change (total_bytes (delete idx (q_msgs q)) <= USIZE_MAX). lia.
  - intros Ho. unfold push_log. rewrite !Z.eqb_refl. change (q_msgs (taken_queue c now idx msg q)) with (delete idx (q_msgs q)).
    eapply in_order_take; [exact Ho|exact Hidx| |done]. intros j m'. by eapply right_message_first.
  - intros ns' id' E. unfold push_log. by rewrite E.
  - intros t [c'|c'] Ha Hw [Hb1 Ht]; [destruct Hw; by apply elem_drain|]. split; [|done]. by apply Forall_delete.
Qed.

Lemma rcv_sleep_ok c now s s' wake sent got m :
  all_ok s sent got m -> alive (rv_task c) = true -> rcv_outcome alive c now s MSleep s' wake ->
  all_ok s' sent got (<[rv_task c := inr c]> (woken wake m)).
Proof.
  intros Hok Ha Hout. inversion Hout as [| | |q Hq Hc Hno]; subst. pose proof (all_ok_touch s (rv_ns c) sent got m Hok) as Hok1.
  destruct (mk_bytes s (proj1 Hok) _ _ q Hq) as [Hb Hmax].
  set (q' := q {{ recv_waiters := add_waiter_once alive (recv_waiters q) (rv_task c) }}).
  assert (all_ok (with_queue (with_manager s (rv_ns c) (manager s (rv_ns c))) (rv_ns c) (rv_id c) q') sent got (woken [] m)) as (H1 & H2 & H3).
  { eapply all_ok_with; [exact Hok1|by rewrite queue_at_touch|done|done|exact Hb|exact Hmax|done|done|].
    intros t [c'|c'] _ _ [Hb1 Ht]; (split; [done|]); [done|by apply add_waiter_once_sub]. }
  split_and!; [done|done|]. eapply sleep_ok_insert; [done|done| |]; cbn [target fst snd].
  - by rewrite queue_at_with, !Z.eqb_refl.
  - split; [done|apply add_waiter_once_elem].
Qed.

(** ** [msgget] *)

(** The state after it has the queues it had, and at most one more, which is empty. *)
Lemma msgget_outcome l cred ns now key msgflg s :
  msg_ok s -> msg_limits_ok l ->
  let s' := snd (syscall_msgget l cred ns now key msgflg s) in
  msg_ok s' /\ (forall ns' id q, queue_at s ns' id = Some q -> queue_at s' ns' id = Some q) /\
  (forall ns' id q, queue_at s ns' id = None -> queue_at s' ns' id = Some q -> q_msgs q = []).
Proof.
  intros Hs Hl. cbv zeta. unfold syscall_msgget. set (m := manager s ns). set (s1 := with_manager s ns m).
  assert (forall ns' id, queue_at s1 ns' id = queue_at s ns' id) as Hq1 by (intros; apply queue_at_touch).
  assert (msg_ok s1 /\ (forall ns' id q, queue_at s ns' id = Some q -> queue_at s1 ns' id = Some q) /\
    (forall ns' id q, queue_at s ns' id = None -> queue_at s1 ns' id = Some q -> q_msgs q = [])) as Hsame.
  { split_and!; [eapply msg_ok_same; [apply mq_manager_touch|done]|by intros ns' id q; rewrite Hq1|]. intros ns' id q. rewrite Hq1. congruence. }
  destruct (if key =? IPC_PRIVATE then None else bt_get (mq_key2id m) (key mod 4294967296)) as [id|] eqn:Eex.
  { destruct (_ && _); [done|]. destruct (bt_get (queues m) id); [|done]. by destruct (negb _). }
  destruct (_ && _); [done|]. destruct (Z.leb_spec (msgmni l) (Z.of_nat (length (queues m)))) as [|Hroom]; [done|].
  destruct (free_id_fresh (mq_next_id m) (queues m)) as [Hid Hfresh]; [apply (mk_table s Hs ns)|unfold msg_limits_ok in Hl; lia|].
  unfold alloc_id. set (id := free_id (mq_next_id m) (queues m)) in *. cbn [snd].
  set (k := if key =? IPC_PRIVATE then None else Some (key mod 4294967296)). set (q := mkQueue id k _ _ _ _ _ _ _ _ _ _ _). set (m2 := assign queues _ _).
  assert (m2 = mkMsgManager (wadd id 1) (bt_insert (queues m) id q) (match k with Some k => bt_insert (mq_key2id m) k id | None => mq_key2id m end)) as Hm2
    by (unfold m2; change (q_key q) with k; by destruct k).
  assert (forall ns' id', queue_at (with_manager s1 ns m2) ns' id' = if (ns' =? ns) && (id' =? id) then Some q else queue_at s ns' id') as Hq.
  { intros ns' id'. unfold queue_at at 1. rewrite mq_manager_with. destruct (Z.eqb_spec ns' ns) as [->|]; [|apply Hq1].
    rewrite Hm2. cbn [queues]. rewrite bt_get_insert, key_eqb_Z. by destruct (id' =? id). }
  split_and!.
  - constructor.
    + intros ns'. rewrite mq_manager_with. destruct (Z.eqb_spec ns' ns) as [->|].
      * cbv zeta. rewrite Hm2. cbn [queues mq_key2id mq_next_id]. change k with (q_key q) at 1.
        eapply key_table_new; [apply (mk_table s Hs ns)|done|apply wadd_range|done|].
        intros k'. change (q_key q) with k. unfold k. destruct (key =? IPC_PRIVATE); [done|]. by intros [= <-].
      * unfold s1, m. rewrite mq_manager_touch. apply Hs.
    + intros ns' id' q'. rewrite Hq. destruct (_ && _); [|apply Hs]. intros [= <-]. simpl. unfold total_bytes. simpl. lia.
  - intros ns' id' q' Hq'. rewrite Hq. destruct (_ && _) eqn:E; [|done]. apply andb_true_iff in E as [->%Z.eqb_eq ->%Z.eqb_eq].
    unfold queue_at in Hq'. fold m in Hq'. congruence.
  - intros ns' id' q' Hno. rewrite Hq. destruct (_ && _); [by intros [= <-]|congruence].
Qed.

Lemma msgget_ok l cred ns now key msgflg s sent got m :
  all_ok s sent got m -> msg_limits_ok l -> all_ok (snd (syscall_msgget l cred ns now key msgflg s)) sent got m.
Proof.
  intros (Hs & Hlog & Hsl) Hl. destruct (msgget_outcome l cred ns now key msgflg s Hs Hl) as (Hs' & Hkeep & Hnew). split_and!; [done| |].
  - intros ns' id. specialize (Hlog ns' id). destruct (queue_at s ns' id) as [q|] eqn:Hq; [by rewrite (Hkeep _ _ _ Hq)|].
    destruct (queue_at (snd _) ns' id) as [q|] eqn:Hq'; [|done]. rewrite (Hnew _ _ _ Hq Hq'). destruct Hlog as [-> ->]. by exists [].
  - rewrite <- (woken_nobody m). by eapply sleep_ok_same.
Qed.

(** ** [msgctl] *)

Lemma remove_queue_manager m id q :
  bt_get (queues m) id = Some q ->
  fst (remove_queue alive m id) = mkMsgManager (mq_next_id m) (bt_remove (queues m) id) (keys_without q_key (mq_key2id m) id q).
Proof.
  intros Hq. unfold remove_queue, keys_without. rewrite Hq. cbn [fst]. destruct (q_key q) as [k|]; [|done].
  change (mq_key2id (m {{ queues := bt_remove (queues m) id }})) with (mq_key2id m). by destruct (bool_decide _).
Qed.

Lemma rmid_ok s ns id q sent got m :
  all_ok s sent got m -> queue_at s ns id = Some q ->
  let p := remove_queue alive (manager s ns) id in
  all_ok (with_manager s ns (fst p)) (clear_log sent ns id) (clear_log got ns id) (woken (snd p) m).
Proof.
  intros (Hs & Hlog & Hsl) Hq. cbv zeta. pose proof (remove_queue_manager _ id q Hq) as Hm.
  assert (forall ns' id', queue_at (with_manager s ns (fst (remove_queue alive (manager s ns) id))) ns' id' =
    if (ns' =? ns) && (id' =? id) then None else queue_at s ns' id') as Hq'.
  { intros ns' id'. unfold queue_at at 1. rewrite mq_manager_with. destruct (Z.eqb_spec ns' ns) as [->|]; [|done]. rewrite Hm. cbn [queues].
    rewrite bt_get_remove, key_eqb_Z by apply (mk_table s Hs ns). by destruct (id' =? id). }
  split_and!.
  - constructor.
    + intros ns'. rewrite mq_manager_with. destruct (Z.eqb_spec ns' ns) as [->|]; [|apply Hs]. cbv zeta. rewrite Hm.
      cbn [queues mq_key2id mq_next_id]. apply key_table_remove; [apply (mk_table s Hs ns)|done].
    + intros ns' id' q'. rewrite Hq'. destruct (_ && _); [done|apply Hs].
  - intros ns' id'. rewrite Hq'. unfold clear_log. destruct (_ && _); [done|apply Hlog].
  - intros t c [Hc Hw]%map_lookup_filter_Some. destruct (Hsl t c Hc) as (Ha & q0 & Hq0 & Hb). split; [done|]. exists q0. rewrite Hq'.
    destruct (_ && _) eqn:E; [|done]. exfalso. apply andb_true_iff in E as [E1%Z.eqb_eq E2%Z.eqb_eq]. rewrite E1, E2, Hq in Hq0. injection Hq0 as <-.
    apply Hw. unfold remove_queue. unfold queue_at in Hq. rewrite Hq. cbn [snd]. apply elem_of_app.
    destruct c; destruct Hb as [_ Ht]; [right|left]; by apply elem_drain.
Qed.

Lemma msgctl_ok l cred ns now id cmd arg s sent got m :
  all_ok s sent got m ->
  let r := syscall_msgctl alive l cred ns now id cmd arg s in
  let gone := match cmd with M_RMID => mr_ret r =? 0 | _ => false end in
  all_ok (mr_state r) (if gone then clear_log sent ns id else sent) (if gone then clear_log got ns id else got) (woken (mr_wake r) m).
Proof.
  intros Hok. cbv zeta. unfold syscall_msgctl. fold (queue_at s ns id). pose proof (all_ok_touch s ns sent got m Hok) as Hok1.
  assert (all_ok (with_manager s ns (manager s ns)) sent got (woken [] m)) as Hsame by by rewrite woken_nobody.
  assert (forall e, (err e =? 0) = false) as Herr by (intros e; pose proof (err_negative e); lia).
  destruct (queue_at s ns id) as [q|] eqn:Hq; [|destruct cmd; try (destruct (ma_writable arg)); cbn [mr_state mr_wake mr_ret]; rewrite ?Herr; exact Hsame].
  assert (queue_at (with_manager s ns (manager s ns)) ns id = Some q) as Hq1 by by rewrite queue_at_touch.
  destruct cmd; cbn [msgctl_queue]; try exact Hsame; try (repeat case_match; cbn [mr_state mr_wake mr_ret]; exact Hsame).
  - destruct (negb _); cbn [mr_state mr_wake mr_ret]; [by rewrite Herr|].
    pose proof (rmid_ok _ ns id q sent got m Hok1 Hq1) as H. cbv zeta in H.
    destruct (remove_queue alive (manager (with_manager s ns (manager s ns)) ns) id) as [m' wake]. exact H.
  - destruct (negb _); [exact Hsame|]. destruct (ma_ds arg) as [[[[uid gid] mode] bytes]|]; [|exact Hsame]. cbn [mr_state mr_wake].
    destruct (mk_bytes s (proj1 Hok) _ _ q Hq) as [Hb Hmax].
    eapply all_ok_with; [exact Hok1|exact Hq1|done|done|exact Hb|exact Hmax|done|done|].
    intros t [c'|c'] Ha Hw [Hb1 Ht]; [destruct Hw; by apply elem_drain|done].
Qed.

Lemma msg_world_step_ok w w' :
  msg_world_step w w' -> all_ok (mw_state w) (mw_sent w) (mw_got w) (mw_sleeping w) -> all_ok (mw_state w') (mw_sent w') (mw_got w') (mw_sleeping w').
Proof.
  intros Hstep Hok. destruct Hstep as [l cred ns now key msgflg w Hl|l cred ns now id cmd arg w r gone|c now waited w ret s' wake Hroom Ht|
    c now waited w s' wake Ha Ht|c now waited w r s' wake Hargs Ht Hr|c now waited w s' wake Ha Hargs Ht|w t]; cbn [mw_state mw_sent mw_got mw_sleeping].
  - by apply msgget_ok.
  - by apply msgctl_ok.
  - apply snd_turn_outcome in Ht. exact (snd_ok c now _ _ _ _ _ _ _ Hok Hroom Ht).
  - apply snd_turn_outcome in Ht. by eapply snd_sleep_ok.
  - destruct (rcv_turn_outcome alive c now waited (mw_state w) Hargs) as (r' & s2 & w2 & Ht' & Hout). rewrite Ht in Ht'. injection Ht' as <- <- <-.
    by eapply rcv_ok.
  - destruct (rcv_turn_outcome alive c now waited (mw_state w) Hargs) as (r' & s2 & w2 & Ht' & Hout). rewrite Ht in Ht'. injection Ht' as <- <- <-.
    by eapply rcv_sleep_ok.
  - destruct Hok as (? & ? & Hsl). split_and!; [done|done|]. intros t' c [_ Hc]%lookup_delete_Some. by apply Hsl.
Qed.

Lemma msg_boot_ok : all_ok (mw_state msg_boot) (mw_sent msg_boot) (mw_got msg_boot) (mw_sleeping msg_boot).
Proof.
  split_and!; [|by intros ns id|intros t c Hc; exact (False_ind _ (lookup_empty_Some t c Hc))]. constructor; [|done]. intros ns. constructor; [apply bt_wf_nil..| |done|done].
  unfold is_usize. simpl. lia.
Qed.

Lemma msg_reach_ok w : rtc msg_world_step msg_boot w -> all_ok (mw_state w) (mw_sent w) (mw_got w) (mw_sleeping w).
Proof.
  intros Hr. eapply (rtc_ind_r (fun w => all_ok (mw_state w) (mw_sent w) (mw_got w) (mw_sleeping w)));
    [exact msg_boot_ok| |exact Hr]. intros w1 w2 _ Hstep Hok. by eapply msg_world_step_ok.
Qed.

End World.



(** ** Runs *)

(** A queue made by root, two messages sent to it, and a receiver. *)
Definition msg_root : Cred := mkCred 0 0 [] 5.
Definition msg_limits : MsgLimits := mkMsgLimits 8192 16384 4096.
Definition msg_quiet : MsgNow := mkMsgNow 0 false.
Definition every_task (t : Z) : bool := true.
Definition send_of (ty : Z) (text : list Z) : SendCall := mkSend 1 msg_root 0 1 (mkMsg ty text) 0.
Definition recv_of (typ flg : Z) : RecvCall := mkRecv 2 msg_root 0 1 100 typ flg.

Definition after_get (w : MsgWorld) : MsgWorld :=
  mkMsgWorld (snd (syscall_msgget msg_limits msg_root 0 0 IPC_PRIVATE 384 (mw_state w))) (mw_sent w) (mw_got w) (mw_sleeping w).
Definition after_send (c : SendCall) (w : MsgWorld) : MsgWorld :=
  let '(_, s', wake) := snd_turn every_task c msg_quiet false (mw_state w) in
  mkMsgWorld s' (push_log (mw_sent w) (sd_ns c) (sd_id c) (sd_msg c)) (mw_got w) (woken wake (mw_sleeping w)).

Definition one_queue : MsgWorld := after_get msg_boot.
Definition one_sent : MsgWorld := after_send (send_of 3 [7; 8]) one_queue.
Definition two_sent : MsgWorld := after_send (send_of 2 [9]) one_sent.

Lemma two_sent_reached : rtc (msg_world_step every_task) msg_boot two_sent.
Proof.
  eapply rtc_l; [by apply (msgget_step every_task msg_limits msg_root 0 0 IPC_PRIVATE 384)|].
  eapply rtc_l; [eapply (msgsnd_step every_task (send_of 3 [7; 8]) msg_quiet false one_queue 0); [|vm_compute; reflexivity]|
    apply rtc_once; eapply (msgsnd_step every_task (send_of 2 [9]) msg_quiet false one_sent 0); [|vm_compute; reflexivity]];
    intros q Hq; vm_compute in Hq; injection Hq as <-; vm_compute; discriminate.
Qed.



(** A receiver that accepts neither message goes to sleep. *)
Definition sleepy : MsgWorld :=
  mkMsgWorld
    (match rcv_turn every_task (recv_of 4 0) msg_quiet false (mw_state two_sent) with Some (_, s', _) => s' | None => [] end)
    (mw_sent two_sent) (mw_got two_sent) (<[2 := inr (recv_of 4 0)]> (woken [] (mw_sleeping two_sent))).

