(* ===== verification/Futex.v ===== *)
(** * Futexes

    [syscall/futex.rs], with the handle of a waiting task ([task/task_block.rs]).  The flag
    [in_queue] of a waiter is a shared cell: waiters name it, and the state has its value.
    Each function is one section under the lock of the queues, or one under that of a
    handle; whom it wakes is part of its result. *)

From S2P Require Import Prelude.
From S2P Require Import BTree.
From S2P Require Import Errno.

Abbreviation FUTEX_WAIT := 0.
Abbreviation FUTEX_WAKE := 1.
Abbreviation FUTEX_REQUEUE := 3.
Abbreviation FUTEX_CMP_REQUEUE := 4.
Abbreviation FUTEX_WAIT_BITSET := 9.
Abbreviation FUTEX_WAKE_BITSET := 10.
Abbreviation FUTEX_BITSET_MATCH_ANY := 4294967295.
Abbreviation NSEC_PER_SEC := 1000000000.
Abbreviation NSEC_PER_MSEC := 1000000.
Abbreviation FUTEX_ISIZE_MAX := 9223372036854775807.

Definition FutexKey : Type := Z * Z.

Record FutexWaiter := mkWaiter {
  fw_task : Z;
  fw_bitset : Z;
  fw_flag : Z;
  fw_token : Z;
  fw_uaddr : Z
}.
#[export] Instance fields_FutexWaiter : Fields FutexWaiter := fun w =>
  mkWaiter (fw_task w) (fw_bitset w) (fw_flag w) (fw_token w) (fw_uaddr w).

(** [FutexWaitHandle]: the key and the flag. *)
Definition FutexWaitHandle : Type := FutexKey * Z.

(** The queues, the values of the flags, and the handles of the tasks. *)
Record FutexState := mkFutex {
  fx_queues : list (FutexKey * list FutexWaiter);
  fx_flags : Z -> bool;
  fx_handles : gmap Z FutexWaitHandle
}.
#[export] Instance fields_FutexState : Fields FutexState := fun s => mkFutex (fx_queues s) (fx_flags s) (fx_handles s).

Module Futex.

Definition set_flag (flags : Z -> bool) (f : Z) (v : bool) : Z -> bool := fun g => if g =? f then v else flags g.

(** ** Time *)

Definition timespec_to_ns (ts : Z * Z) : option Z :=
  let (sec, nsec) := ts in
  if (sec <? 0) || (nsec <? 0) || (NSEC_PER_SEC <=? nsec) then None else Some (sat_add (sat_mul sec NSEC_PER_SEC) nsec).
Definition ns_to_ms_ceil (ns : Z) : Z := sat_add ns (NSEC_PER_MSEC - 1) / NSEC_PER_MSEC.
Definition monotonic_now_ns (ticks freq : Z) : Z := (sat_mul128 ticks NSEC_PER_SEC / freq) mod USIZE_MOD.
Definition realtime_now_ns (now : Z * Z) : Z :=
  let (sec, nsec) := now in if (sec <? 0) || (nsec <? 0) then 0 else sat_add (sat_mul sec NSEC_PER_SEC) nsec.

(** ** Keys *)

Section Key.
Context (translate_va : Z -> Z -> option Z).
Definition shared_futex_addr_key (token uaddr : Z) : Z := unwrap_or (translate_va token uaddr) uaddr.
Definition futex_key (pid token uaddr : Z) (private : bool) : FutexKey :=
  if private then (pid, uaddr) else (0, shared_futex_addr_key token uaddr).
End Key.

(** ** Handles *)

Definition set_futex_wait (s : FutexState) (task : Z) (key : FutexKey) (flag : Z) : FutexState :=
  s {{ fx_handles := <[task := (key, flag)]> (fx_handles s) }}.
Definition update_futex_wait_key (s : FutexState) (task flag : Z) (key : FutexKey) : FutexState :=
  match fx_handles s !! task with
  | Some (k, f) => if f =? flag then s {{ fx_handles := <[task := (key, f)]> (fx_handles s) }} else s
  | None => s
  end.
Definition clear_futex_wait (s : FutexState) (task flag : Z) : FutexState :=
  match fx_handles s !! task with
  | Some (k, f) => if f =? flag then s {{ fx_handles := delete task (fx_handles s) }} else s
  | None => s
  end.
Definition take_futex_wait (s : FutexState) (task : Z) : option FutexWaitHandle * FutexState :=
  (fx_handles s !! task, s {{ fx_handles := delete task (fx_handles s) }}).

(** ** Waking *)

(** The flags, the waiters taken, and how many, in a pass over queues. *)
Record Pass := mkPass {
  ps_flags : Z -> bool;
  ps_woken : list (Z * Z);
  ps_count : Z
}.

Definition wake_one (a : Pass) (w : FutexWaiter) : Pass :=
  mkPass (set_flag (ps_flags a) (fw_flag w) false) (vec_push (ps_woken a) (fw_task w, fw_flag w)) (ps_count a + 1).

(** The loop over one queue: what remains of it. *)
Fixpoint wake_pass (sel : FutexWaiter -> bool) (nr_wake : Z) (queue : list FutexWaiter) (a : Pass) : list FutexWaiter * Pass :=
  match queue with
  | [] => ([], a)
  | w :: queue =>
      if negb (ps_flags a (fw_flag w)) then wake_pass sel nr_wake queue a
      else if (ps_count a <? nr_wake) && sel w then wake_pass sel nr_wake queue (wake_one a w)
      else let (remain, a) := wake_pass sel nr_wake queue a in (w :: remain, a)
  end.
Definition put_back (m : list (FutexKey * list FutexWaiter)) (key : FutexKey) (remain : list FutexWaiter) :=
  match remain with [] => bt_remove m key | _ => bt_insert (bt_remove m key) key remain end.
Definition wake_key (sel : FutexWaiter -> bool) (nr_wake : Z) (key : FutexKey) (m : list (FutexKey * list FutexWaiter)) (a : Pass)
    : list (FutexKey * list FutexWaiter) * Pass :=
  match bt_get m key with
  | None => (m, a)
  | Some queue => let (remain, a) := wake_pass sel nr_wake queue a in (put_back m key remain, a)
  end.

(** The keys of the fallback, until enough are woken. *)
Fixpoint wake_keys (sel : FutexWaiter -> bool) (nr_wake : Z) (keys : list FutexKey) (m : list (FutexKey * list FutexWaiter)) (a : Pass)
    : list (FutexKey * list FutexWaiter) * Pass :=
  match keys with
  | [] => (m, a)
  | key :: keys =>
      if nr_wake <=? ps_count a then (m, a)
      else let (m, a) := wake_key sel nr_wake key m a in wake_keys sel nr_wake keys m a
  end.

Definition matches (mask : Z) (w : FutexWaiter) : bool := negb (Z.land (fw_bitset w) mask =? 0).
Definition same_mm (token uaddr : Z) (w : FutexWaiter) : bool := (fw_token w =? token) && (fw_uaddr w =? uaddr).

(** The part of [futex_wake_with_mask] under the lock. *)
Definition wake_locked (key : FutexKey) (nr_wake mask : Z) (fallback : option (Z * Z)) (s : FutexState) : list (Z * Z) * Z * FutexState :=
  let (m, a) := wake_key (matches mask) nr_wake key (fx_queues s) (mkPass (fx_flags s) [] 0) in
  let (m, a) :=
    match fallback with
    | Some (token, uaddr) =>
        if ps_count a <? nr_wake then
          wake_keys (fun w => same_mm token uaddr w && matches mask w) nr_wake
            (List.filter (fun k => negb (key_eqb k key)) (map fst m)) m a
        else (m, a)
    | None => (m, a)
    end in
  (ps_woken a, ps_count a, s {{ fx_queues := m; fx_flags := ps_flags a }}).

(** The part after it: each task is told, and woken. *)
Definition wake_tail (woken : list (Z * Z)) (s : FutexState) : FutexState :=
  fold_left (fun s p => clear_futex_wait s (fst p) (snd p)) woken s.

Definition futex_wake_with_mask (key : FutexKey) (uaddr nr_wake mask : Z) (fallback : option (Z * Z)) (s : FutexState)
    : Z * FutexState * list Z :=
  if uaddr =? 0 then (err EINVAL, s, [])
  else if mask =? 0 then (err EINVAL, s, [])
  else
    let '(woken, n, s) := wake_locked key nr_wake mask fallback s in
    (n, wake_tail woken s, map fst woken).
Definition futex_wake (key : FutexKey) (uaddr nr_wake : Z) (s : FutexState) : Z * FutexState * list Z :=
  futex_wake_with_mask key uaddr nr_wake FUTEX_BITSET_MATCH_ANY None s.
Definition futex_wake_private_and_shared (translate_va : Z -> Z -> option Z) (pid token uaddr nr_wake : Z) (s : FutexState)
    : Z * FutexState * list Z :=
  let '(n1, s, w1) := futex_wake (pid, uaddr) uaddr nr_wake s in
  let '(n2, s, w2) :=
    futex_wake_with_mask (0, shared_futex_addr_key translate_va token uaddr) uaddr nr_wake FUTEX_BITSET_MATCH_ANY
      (Some (token, uaddr)) s in
  (if n1 <? 0 then n1 else if n2 <? 0 then n2 else Z.min FUTEX_ISIZE_MAX (n1 + n2), s, w1 ++ w2).

(** ** Requeueing *)

Fixpoint requeue_wake (nr_wake : Z) (queue : list FutexWaiter) (a : Pass) : list FutexWaiter * Pass :=
  match queue with
  | [] => ([], a)
  | w :: queue' =>
      if nr_wake <=? ps_count a then (queue, a)
      else if negb (ps_flags a (fw_flag w)) then requeue_wake nr_wake queue' a
      else requeue_wake nr_wake queue' (wake_one a w)
  end.

(** What is left of the source, the target, the handles to update and how many moved. *)
Fixpoint requeue_move (flags : Z -> bool) (val2 token uaddr2 : Z) (queue target : list FutexWaiter) (updates : list (Z * Z)) (moved : Z)
    : list FutexWaiter * list FutexWaiter * list (Z * Z) * Z :=
  match queue with
  | [] => ([], target, updates, moved)
  | w :: queue' =>
      if val2 <=? moved then (queue, target, updates, moved)
      else if negb (flags (fw_flag w)) then requeue_move flags val2 token uaddr2 queue' target updates moved
      else requeue_move flags val2 token uaddr2 queue' (vec_push target (w {{ fw_token := token; fw_uaddr := uaddr2 }}))
             (vec_push updates (fw_task w, fw_flag w)) (moved + 1)
  end.

(** The part of a requeue under the lock: whom to wake, which handles to update, how many
    were woken and moved. *)
Definition requeue_locked (key1 key2 : FutexKey) (token uaddr2 nr_wake val2 : Z) (s : FutexState)
    : list (Z * Z) * list (Z * Z) * Z * Z * FutexState :=
  match bt_get (fx_queues s) key1 with
  | None => ([], [], 0, 0, s)
  | Some queue1 =>
      let m := bt_remove (fx_queues s) key1 in
      let (queue1, a) := requeue_wake nr_wake queue1 (mkPass (fx_flags s) [] 0) in
      let '(queue1, m, updates, moved) :=
        if (0 <? val2) && negb (match queue1 with [] => true | _ => false end) && negb (key_eqb key2 key1) then
          let '(queue1, target, updates, moved) :=
            requeue_move (ps_flags a) val2 token uaddr2 queue1 (unwrap_or (bt_get m key2) []) [] 0 in
          (queue1, bt_insert m key2 target, updates, moved)
        else (queue1, m, [], 0) in
      let queue1 := List.filter (fun w => ps_flags a (fw_flag w)) queue1 in
      (ps_woken a, updates, ps_count a, moved,
       s {{ fx_queues := match queue1 with [] => m | _ => bt_insert m key1 queue1 end; fx_flags := ps_flags a }})
  end.

(** The part after it. *)
Definition requeue_tail (key2 : FutexKey) (updates : list (Z * Z)) (s : FutexState) : FutexState :=
  fold_left (fun s p => update_futex_wait_key s (fst p) (snd p) key2) updates s.

(** ** Leaving a queue *)

Definition drop_from (p : FutexWaiter -> bool) (m : list (FutexKey * list FutexWaiter)) : list (FutexKey * list FutexWaiter) :=
  List.filter (fun e => match snd e with [] => false | _ => true end) (map (fun e => (fst e, List.filter (fun w => negb (p w)) (snd e))) m).
Definition has_flag (flag : Z) (w : FutexWaiter) : bool := fw_flag w =? flag.

(** [remove_waiter]: the first key of a queue that had the flag. *)
Definition remove_waiter (flag : Z) (s : FutexState) : option FutexKey * FutexState :=
  let removed_key := fst <$> List.find (fun e => existsb (has_flag flag) (snd e)) (fx_queues s) in
  (removed_key,
   s {{ fx_queues := drop_from (has_flag flag) (fx_queues s);
        fx_flags := match removed_key with Some _ => set_flag (fx_flags s) flag false | None => fx_flags s end }}).

(** [remove_tracked_futex_waiter], after the handle is taken. *)
Definition remove_tracked (h : FutexWaitHandle) (s : FutexState) : option FutexKey * FutexState :=
  let (key, flag) := h in
  match bt_get (fx_queues s) key with
  | Some queue =>
      let rest := List.filter (fun w => negb (has_flag flag w)) queue in
      let s' := s {{ fx_queues := match rest with [] => bt_remove (fx_queues s) key | _ => bt_insert (fx_queues s) key rest end;
                     fx_flags := set_flag (fx_flags s) flag false }} in
      (if existsb (has_flag flag) queue then Some key else None, s')
  | None => (None, s {{ fx_flags := set_flag (fx_flags s) flag false }})
  end.
Definition remove_tracked_futex_waiter (task : Z) (s : FutexState) : option FutexKey * FutexState :=
  match take_futex_wait s task with
  | (Some h, s) => remove_tracked h s
  | (None, s) => (None, s)
  end.

Definition detach_futex_waiter (task flag : Z) (s : FutexState) : option FutexKey * FutexState :=
  let (removed, s) := match remove_tracked_futex_waiter task s with
                      | (Some key, s) => (Some key, s)
                      | (None, s) => remove_waiter flag s
                      end in
  (removed, clear_futex_wait s task flag).

(** [remove_futex_waiters], of a task that will not run again. *)
Definition clear_flags (ws : list FutexWaiter) (flags : Z -> bool) : Z -> bool :=
  fold_left (fun flags w => set_flag flags (fw_flag w) false) ws flags.
Definition drop_task (task : Z) (s : FutexState) : FutexState :=
  let mine w := fw_task w =? task in
  s {{ fx_queues := drop_from mine (fx_queues s);
       fx_flags := clear_flags (List.filter mine (concat (map snd (fx_queues s)))) (fx_flags s) }}.
Definition remove_futex_waiters (task : Z) (s : FutexState) : FutexState :=
  match remove_tracked_futex_waiter task s with
  | (Some _, s) => s
  | (None, s) => drop_task task s
  end.

(** ** [FUTEX_WAIT] and [FUTEX_WAIT_BITSET] *)

Record WaitCall := mkWait {
  wt_task : Z;
  wt_key : FutexKey;
  wt_token : Z;
  wt_uaddr : Z;
  wt_cmd : Z;
  wt_val : Z;
  wt_bitset : Z;
  wt_timeout : option (Z * Z)
}.

(** The address, and the bitset. *)
Definition wait_args (uaddr cmd val3 : Z) : Z + Z :=
  if uaddr =? 0 then inl (err EINVAL)
  else if cmd =? FUTEX_WAIT_BITSET then
    let bitset := val3 mod 4294967296 in if bitset =? 0 then inl (err EINVAL) else inr bitset
  else inr FUTEX_BITSET_MATCH_ANY.

(** A word with another value than the one expected. *)
Definition wait_mismatch (signal : bool) : Z := if signal then err EINTR else err EAGAIN.

(** [deadline_ns]. *)
Definition wait_deadline (c : WaitCall) (now_ns : Z) : Z + option Z :=
  match wt_timeout c with
  | None => inr None
  | Some ts =>
      match timespec_to_ns ts with
      | None => inl (err EINVAL)
      | Some timeout_ns =>
          let deadline := if wt_cmd c =? FUTEX_WAIT_BITSET then timeout_ns else sat_add now_ns timeout_ns in
          if deadline <=? now_ns then inl (err ETIMEDOUT) else inr (Some deadline)
      end
  end.

(** Under the lock: the word is read again, and the task enters the queue with a new flag. *)
Definition wait_locked (c : WaitCall) (flag cur : Z) (signal : bool) (now_ns : Z) (s : FutexState) : (Z + option Z) * FutexState :=
  if negb (cur =? wt_val c) then (inl (wait_mismatch signal), s)
  else if signal then (inl (err EINTR), s)
  else
    match wait_deadline c now_ns with
    | inl e => (inl e, s)
    | inr deadline =>
        let w := mkWaiter (wt_task c) (wt_bitset c) flag (wt_token c) (wt_uaddr c) in
        let q := unwrap_or (bt_get (fx_queues s) (wt_key c)) [] in
        (inr deadline,
         set_futex_wait (s {{ fx_queues := bt_insert (fx_queues s) (wt_key c) (vec_push q w); fx_flags := set_flag (fx_flags s) flag true }})
           (wt_task c) (wt_key c) flag)
    end.

(** The timer, or the end of the call when the deadline has passed by now. *)
Inductive WaitNext :=
  | WaitReturn (ret : Z)
  | WaitBlock (timer_ms : option Z).

Definition remaining_ms (deadline now_ns : Z) : Z := Z.max (ns_to_ms_ceil (sat_sub deadline now_ns)) 1.
Definition wait_arm (task flag : Z) (deadline : option Z) (now_ns : Z) (s : FutexState) : WaitNext * FutexState :=
  match deadline with
  | None => (WaitBlock None, s)
  | Some d =>
      if d <=? now_ns then (WaitReturn (err ETIMEDOUT), snd (detach_futex_waiter task flag s))
      else (WaitBlock (Some (remaining_ms d now_ns)), s)
  end.

(** The end of a wait that was given up: 0 if somebody else dequeued the task. *)
Definition abandon_wait (task flag : Z) (e : SyscallError) (s : FutexState) : WaitNext * FutexState :=
  match detach_futex_waiter task flag s with
  | (Some _, s) => (WaitReturn (err e), s)
  | (None, s) =>
      if negb (fx_flags s flag) then (WaitReturn 0, clear_futex_wait s task flag) else (WaitReturn (err e), s)
  end.

(** One pass of the loop, after the task was woken. *)
Definition wait_woken (task flag : Z) (deadline : option Z) (signal : bool) (now_ns : Z) (s : FutexState) : WaitNext * FutexState :=
  if negb (fx_flags s flag) then (WaitReturn 0, clear_futex_wait s task flag)
  else if signal then abandon_wait task flag EINTR s
  else
    match deadline with
    | None => (WaitBlock None, s)
    | Some d => if d <=? now_ns then abandon_wait task flag ETIMEDOUT s else (WaitBlock (Some (remaining_ms d now_ns)), s)
    end.

(** ** [FUTEX_WAKE] and the requeues, up to the lock *)

Definition wake_args (cmd nr_wake val3 : Z) : Z + Z :=
  if nr_wake <? 0 then inl (err EINVAL)
  else if cmd =? FUTEX_WAKE_BITSET then
    let bitset := val3 mod 4294967296 in if bitset =? 0 then inl (err EINVAL) else inr bitset
  else inr FUTEX_BITSET_MATCH_ANY.

(** [cur] is read before the lock is taken. *)
Definition requeue_args (cmd uaddr uaddr2 nr_wake nr_requeue cur expected : Z) : Z + unit :=
  if (uaddr =? 0) || (uaddr2 =? 0) then inl (err EINVAL)
  else if (nr_wake <? 0) || (nr_requeue <? 0) then inl (err EINVAL)
  else if (cmd =? FUTEX_CMP_REQUEUE) && negb (cur =? expected) then inl (err EAGAIN)
  else inr tt.

Definition syscall_requeue (key1 key2 : FutexKey) (token uaddr2 nr_wake val2 : Z) (s : FutexState) : Z * FutexState * list Z :=
  let '(woken, updates, woke, moved, s) := requeue_locked key1 key2 token uaddr2 nr_wake val2 s in
  (sat_add woke moved, wake_tail woken (requeue_tail key2 updates s), map fst woken).

(** ** The system call, up to the first sleep *)

Abbreviation FUTEX_PRIVATE_FLAG := 128.
Abbreviation FUTEX_CLOCK_REALTIME := 256.
Abbreviation FUTEX_CMD_MASK := 127.

(** [as i32] and [as isize]. *)
Definition as_i32 (v : Z) : Z := (v + 2147483648) mod 4294967296 - 2147483648.
Definition as_isize (v : Z) : Z := (v + 9223372036854775808) mod 18446744073709551616 - 9223372036854775808.

Definition futex_wait_now_ns (cmd : Z) (clock_realtime : bool) (monotonic realtime : Z) : Z :=
  if (cmd =? FUTEX_WAIT_BITSET) && clock_realtime then realtime else monotonic.

(** What a call reads: who calls, the words at the two addresses, at the first one again
    under the lock, the time-out, the clocks and whether a signal is pending. *)
Record FutexEnv := mkEnv {
  fe_task : Z;
  fe_pid : Z;
  fe_token : Z;
  fe_cur : Z;
  fe_cur_locked : Z;
  fe_timeout : Z * Z;
  fe_monotonic : Z;
  fe_realtime : Z;
  fe_signal : bool
}.

Inductive FutexTurn :=
  | FutexDone (ret : Z) (woken : list Z)
  | FutexWaits (deadline : option Z).

Section Syscall.
Context (translate_va : Z -> Z -> option Z).

Definition syscall_futex (env : FutexEnv) (flag uaddr op val timeout uaddr2 val3 : Z) (s : FutexState) : FutexTurn * FutexState :=
  let cmd := Z.land op FUTEX_CMD_MASK in
  let private := negb (Z.land op FUTEX_PRIVATE_FLAG =? 0) in
  let clock_realtime := negb (Z.land op FUTEX_CLOCK_REALTIME =? 0) in
  let key a := futex_key translate_va (fe_pid env) (fe_token env) a private in
  if (cmd =? FUTEX_WAIT) || (cmd =? FUTEX_WAIT_BITSET) then
    match wait_args uaddr cmd val3 with
    | inl e => (FutexDone e [], s)
    | inr bitset =>
        if negb (fe_cur env =? as_i32 val) then (FutexDone (wait_mismatch (fe_signal env)) [], s)
        else
          let c := mkWait (fe_task env) (key uaddr) (fe_token env) uaddr cmd (as_i32 val) bitset
                     (if timeout =? 0 then None else Some (fe_timeout env)) in
          let now := futex_wait_now_ns cmd clock_realtime (fe_monotonic env) (fe_realtime env) in
          match wait_locked c flag (fe_cur_locked env) (fe_signal env) now s with
          | (inl e, s) => (FutexDone e [], s)
          | (inr deadline, s) => (FutexWaits deadline, s)
          end
    end
  else if (cmd =? FUTEX_WAKE) || (cmd =? FUTEX_WAKE_BITSET) then
    match wake_args cmd (as_isize val) val3 with
    | inl e => (FutexDone e [], s)
    | inr mask =>
        let '(n, s, woken) := futex_wake_with_mask (key uaddr) uaddr (as_isize val) mask
                                (if private then None else Some (fe_token env, uaddr)) s in
        (FutexDone n woken, s)
    end
  else if (cmd =? FUTEX_REQUEUE) || (cmd =? FUTEX_CMP_REQUEUE) then
    match requeue_args cmd uaddr uaddr2 (as_isize val) (as_isize timeout) (fe_cur env) (as_i32 val3) with
    | inl e => (FutexDone e [], s)
    | inr _ =>
        let '(n, s, woken) := syscall_requeue (key uaddr) (key uaddr2) (fe_token env) uaddr2 (as_isize val) (as_isize timeout) s in
        (FutexDone n woken, s)
    end
  else (FutexDone (err ENOSYS) [], s).
End Syscall.

End Futex.
