(* ===== verification/FutexWait.v ===== *)
(** * Futexes: waits, wakes and requeues that interleave

    [FUTEX_WAIT] from the moment the task is queued, up to its return, in steps that end
    where [syscall/futex.rs] drops a lock or reads a flag; wakes and requeues are one section
    under the lock of the queues and then a job, done piece by piece, that clears or moves
    handles and wakes tasks.  Whatever the order, a task asleep whose flag was cleared has a
    wakeup under way, one whose flag is set is still in a queue, and a wait that was counted
    as woken returns 0 ([futex_waits_sound]) unless its deadline had passed before it first
    slept ([early_timeout_loses_wake]). *)

From S2P Require Import Prelude.
From S2P Require Import BTree.
From S2P Require Import Errno.
From S2P Require Import Futex.
From S2P Require Import FutexProof.
Import Futex.

(** ** The steps *)

(** Where a task is in [FUTEX_WAIT]: with its flag, and what it will return if it has to
    give up; [early] is the check of the deadline before the loop. *)
Inductive FPc :=
  | FArm (f : Z) (d : option Z)
  | FSleep (f : Z) (d : option Z)
  | FLook (f : Z) (d : option Z)
  | FGo (f : Z) (d : option Z)
  | FTake (f : Z) (e : SyscallError) (early : bool)
  | FTracked (f : Z) (e : SyscallError) (early : bool) (h : FutexWaitHandle)
  | FScan (f : Z) (e : SyscallError) (early : bool)
  | FDetached (f : Z) (e : SyscallError) (early removed : bool)
  | FCheck (f : Z) (e : SyscallError)
  | FClear (f : Z).

(** What is left to do of a wake, of a requeue, or of the exit of a task. *)
Inductive JItem :=
  | JClear (t f : Z)
  | JWakeup (t : Z)
  | JUpdate (key : FutexKey) (t f : Z)
  | JExitTake (t : Z)
  | JExitTracked (t : Z) (h : FutexWaitHandle)
  | JExitScan (t : Z).

(** [xw_owner], [xw_counted] and [xw_result] only record: who made a flag, which flags a
    wake or a requeue counted, and what the wait with a flag returned. *)
Record FutexWorld := mkFW {
  xw_state : FutexState;
  xw_next : Z;
  xw_pc : gmap Z FPc;
  xw_runnable : gset Z;
  xw_jobs : list (list JItem);
  xw_dead : gset Z;
  xw_owner : gmap Z Z;
  xw_counted : gset Z;
  xw_result : gmap Z (Z * bool)
}.
#[export] Instance fields_FutexWorld : Fields FutexWorld := fun w =>
  mkFW (xw_state w) (xw_next w) (xw_pc w) (xw_runnable w) (xw_jobs w) (xw_dead w) (xw_owner w) (xw_counted w) (xw_result w).

Module FutexWait.

Definition no_futex : FutexWorld := mkFW (mkFutex [] (fun _ => false) ∅) 0 ∅ ∅ [] ∅ ∅ ∅ ∅.

Definition goto (t : Z) (p : FPc) (w : FutexWorld) : FutexWorld := w {{ xw_pc := <[t := p]> (xw_pc w) }}.
Definition finish (t f ret : Z) (early : bool) (w : FutexWorld) : FutexWorld :=
  w {{ xw_pc := delete t (xw_pc w); xw_result := <[f := (ret, early)]> (xw_result w) }}.
Definition with_state (s : FutexState) (w : FutexWorld) : FutexWorld := w {{ xw_state := s }}.

(** The word is compared and the task queued. *)
Definition wait_step (c : WaitCall) (cur : Z) (signal : bool) (now : Z) (w : FutexWorld) : FutexWorld :=
  let t := wt_task c in
  if bool_decide (t ∈ xw_dead w) then w
  else
    match xw_pc w !! t with
    | Some _ => w
    | None =>
        match wait_locked c (xw_next w) cur signal now (xw_state w) with
        | (inl _, _) => w
        | (inr d, s) =>
            goto t (FArm (xw_next w) d)
              (with_state s (w {{ xw_next := xw_next w + 1; xw_owner := <[xw_next w := t]> (xw_owner w) }}))
        end
    end.

(** One step of a task in [FUTEX_WAIT]. *)
Definition task_step (t : Z) (signal : bool) (now : Z) (w : FutexWorld) : FutexWorld :=
  let s := xw_state w in
  match xw_pc w !! t with
  | None => w
  | Some (FArm f d) =>
      goto t (match d with
              | Some dl => if dl <=? now then FTake f ETIMEDOUT true else FSleep f d
              | None => FSleep f d
              end) w
  | Some (FSleep f d) =>
      if bool_decide (t ∈ xw_runnable w) then goto t (FLook f d) (w {{ xw_runnable := xw_runnable w ∖ {[t]} }}) else w
  | Some (FLook f d) => goto t (if fx_flags s f then FGo f d else FClear f) w
  | Some (FGo f d) =>
      goto t (if signal then FTake f EINTR false
              else match d with
                   | Some dl => if dl <=? now then FTake f ETIMEDOUT false else FSleep f d
                   | None => FSleep f d
                   end) w
  | Some (FTake f e early) =>
      let (h, s) := take_futex_wait s t in
      with_state s (goto t (match h with Some h => FTracked f e early h | None => FScan f e early end) w)
  | Some (FTracked f e early h) =>
      let (r, s) := remove_tracked h s in
      goto t (match r with Some _ => FDetached f e early true | None => FScan f e early end) (with_state s w)
  | Some (FScan f e early) =>
      let (r, s) := remove_waiter f s in
      goto t (FDetached f e early (match r with Some _ => true | None => false end)) (with_state s w)
  | Some (FDetached f e early removed) =>
      let w := with_state (clear_futex_wait s t f) w in
      if early || removed then finish t f (err e) early w else goto t (FCheck f e) w
  | Some (FCheck f e) => if fx_flags s f then finish t f (err e) false w else goto t (FClear f) w
  | Some (FClear f) => finish t f 0 false (with_state (clear_futex_wait s t f) w)
  end.

Definition wake_items (woken : list (Z * Z)) : list JItem := flat_map (fun p => [JClear (fst p) (snd p); JWakeup (fst p)]) woken.
Definition update_items (key2 : FutexKey) (updates : list (Z * Z)) : list JItem := map (fun p => JUpdate key2 (fst p) (snd p)) updates.

Definition wake_step (key : FutexKey) (cmd nr_wake val3 : Z) (fallback : option (Z * Z)) (w : FutexWorld) : FutexWorld :=
  match wake_args cmd nr_wake val3 with
  | inl _ => w
  | inr mask =>
      let '(woken, _, s) := wake_locked key nr_wake mask fallback (xw_state w) in
      with_state s (w {{ xw_jobs := vec_push (xw_jobs w) (wake_items woken); xw_counted := list_to_set (map snd woken) ∪ xw_counted w }})
  end.
Definition requeue_step (key1 key2 : FutexKey) (cmd token uaddr uaddr2 nr_wake nr_requeue cur expected : Z) (w : FutexWorld) : FutexWorld :=
  match requeue_args cmd uaddr uaddr2 nr_wake nr_requeue cur expected with
  | inl _ => w
  | inr _ =>
      let '(woken, updates, _, _, s) := requeue_locked key1 key2 token uaddr2 nr_wake nr_requeue (xw_state w) in
      with_state s (w {{ xw_jobs := vec_push (xw_jobs w) (update_items key2 updates ++ wake_items woken);
                         xw_counted := list_to_set (map snd woken) ∪ xw_counted w }})
  end.

(** One piece of a job, and what it adds to it. *)
Definition run_item (i : JItem) (w : FutexWorld) : list JItem * FutexWorld :=
  let s := xw_state w in
  match i with
  | JClear t f => ([], with_state (clear_futex_wait s t f) w)
  | JWakeup t => ([], w {{ xw_runnable := {[t]} ∪ xw_runnable w }})
  | JUpdate key t f => ([], with_state (update_futex_wait_key s t f key) w)
  | JExitTake t =>
      let (h, s) := take_futex_wait s t in
      ([match h with Some h => JExitTracked t h | None => JExitScan t end], with_state s w)
  | JExitTracked t h =>
      let (r, s) := remove_tracked h s in
      (match r with Some _ => [] | None => [JExitScan t] end, with_state s w)
  | JExitScan t => ([], with_state (drop_task t s) w)
  end.
Definition job_step (n : nat) (w : FutexWorld) : FutexWorld :=
  match xw_jobs w !! n with
  | Some (i :: job) => let (more, w) := run_item i w in w {{ xw_jobs := <[n := more ++ job]> (xw_jobs w) }}
  | _ => w
  end.

(** A task that will not run again. *)
Definition exit_step (t : Z) (w : FutexWorld) : FutexWorld :=
  w {{ xw_dead := {[t]} ∪ xw_dead w; xw_pc := delete t (xw_pc w); xw_jobs := vec_push (xw_jobs w) [JExitTake t] }}.

(** A signal, a timer, or a wakeup meant for something else. *)
Definition notify_step (t : Z) (w : FutexWorld) : FutexWorld := w {{ xw_runnable := {[t]} ∪ xw_runnable w }}.

Inductive FEvent :=
  | EvWait (c : WaitCall) (cur : Z) (signal : bool) (now : Z)
  | EvTask (t : Z) (signal : bool) (now : Z)
  | EvWake (key : FutexKey) (cmd nr_wake val3 : Z) (fallback : option (Z * Z))
  | EvRequeue (key1 key2 : FutexKey) (cmd token uaddr uaddr2 nr_wake nr_requeue cur expected : Z)
  | EvJob (n : nat)
  | EvExit (t : Z)
  | EvNotify (t : Z).

Definition futex_step (w : FutexWorld) (e : FEvent) : FutexWorld :=
  match e with
  | EvWait c cur signal now => wait_step c cur signal now w
  | EvTask t signal now => task_step t signal now w
  | EvWake key cmd nr_wake val3 fallback => wake_step key cmd nr_wake val3 fallback w
  | EvRequeue key1 key2 cmd token uaddr uaddr2 nr_wake nr_requeue cur expected =>
      requeue_step key1 key2 cmd token uaddr uaddr2 nr_wake nr_requeue cur expected w
  | EvJob n => job_step n w
  | EvExit t => exit_step t w
  | EvNotify t => notify_step t w
  end.
Definition futex_run (es : list FEvent) : FutexWorld := fold_left futex_step es no_futex.

End FutexWait.
Import FutexWait.

(** ** Sections that only take waiters out, move them or clear flags *)

Definition queued (s : FutexState) (f t : Z) : Prop := exists k x, x ∈ qof (fx_queues s) k /\ fw_flag x = f /\ fw_task x = t.

Record shifts (s : FutexState) (F : Z -> bool) (s' : FutexState) : Prop := {
  sh_ok : queues_ok (fx_queues s');
  sh_from : forall f t, queued s' f t -> queued s f t;
  sh_keep : forall f t, queued s f t -> fx_flags s' f = true -> queued s' f t;
  sh_flags : forall f, fx_flags s' f = fx_flags s f && negb (F f);
  sh_handles : fx_handles s' = fx_handles s
}.

Lemma dequeues_shifts s ws s' : dequeues s ws s' -> fx_handles s' = fx_handles s -> shifts s (taken ws) s'.
Proof.
  intros [D1 D2 D3 D4 D5] Hh. constructor; [done| | |done|done].
  - intros f t (k & x & Hx & Hf). exists k, x. split; [by eapply elem_of_sublist|done].
  - intros f t (k & x & Hx & <- & Ht) Hf. exists k, x. split; [|done]. assert (x ∈ live_all (fx_flags s') (qof (fx_queues s') k)) as Hl; [|by apply live_sub in Hl as [? _]].
    rewrite D3. apply list_elem_of_In, filter_In. rewrite Hf. split; [by apply list_elem_of_In|done].
Qed.

Lemma take_length_app {A} n (l : list A) : l = take n l ++ drop (length (take n l)) l.
Proof. rewrite length_take. destruct (Nat.min_spec n (length l)) as [[? ->]|[? ->]]; [by rewrite take_drop|]. rewrite drop_all, take_ge, app_nil_r by lia. done. Qed.

Definition requeue_left (key1 key2 : FutexKey) (nr_wake val2 : Z) (s : FutexState) : list FutexWaiter :=
  drop (length (requeue_mv key1 key2 nr_wake val2 s)) (drop (Z.to_nat nr_wake) (live_all (fx_flags s) (qof (fx_queues s) key1))).

Lemma requeue_split key1 key2 nr_wake val2 s :
  live_all (fx_flags s) (qof (fx_queues s) key1) = requeue_ws key1 nr_wake s ++ requeue_mv key1 key2 nr_wake val2 s ++ requeue_left key1 key2 nr_wake val2 s.
Proof.
  unfold requeue_left. rewrite <- (take_drop (Z.to_nat nr_wake) (live_all (fx_flags s) (qof (fx_queues s) key1))) at 1. f_equal.
  unfold requeue_mv. destruct (key_eqb key2 key1); [done|]. apply take_length_app.
Qed.

Section Requeue.
Context (key1 key2 : FutexKey) (token uaddr2 nr_wake val2 : Z) (s s' : FutexState).
Context (Hq : queues_ok (fx_queues s)) (Hr : requeues key1 key2 token uaddr2 nr_wake val2 s s').
Local Abbreviation ws := (requeue_ws key1 nr_wake s).
Local Abbreviation mv := (requeue_mv key1 key2 nr_wake val2 s).
Local Abbreviation left := (requeue_left key1 key2 nr_wake val2 s).

Lemma requeue_parts x : x ∈ ws \/ x ∈ mv \/ x ∈ left -> x ∈ qof (fx_queues s) key1 /\ fx_flags s (fw_flag x) = true.
Proof.
  intros H. assert (x ∈ live_all (fx_flags s) (qof (fx_queues s) key1)) as (? & ? & _)%live_sub; [|done].
  rewrite (requeue_split key1 key2 nr_wake val2 s), !elem_of_app. tauto.
Qed.

Lemma requeue_disjoint : NoDup (map fw_flag (ws ++ mv ++ left)).
Proof. rewrite <- requeue_split. eapply sublist_NoDup; [apply (qk_nodup _ Hq key1)|]. apply fmap_sublist, filter_sublist. Qed.

(** Where a waiter of the new queues was. *)
Inductive origin (k : FutexKey) (x : FutexWaiter) : Prop :=
  | origin_same : x ∈ qof (fx_queues s) k -> (k = key1 -> x ∈ left) -> origin k x
  | origin_moved y : k = key2 -> key2 <> key1 -> y ∈ mv -> x = retarget token uaddr2 y -> origin k x.

Lemma requeue_origin k x : x ∈ qof (fx_queues s') k -> origin k x.
Proof.
  rewrite (rq_queues _ _ _ _ _ _ _ _ Hr). fold left. destruct (key_eqb k key1) eqn:E1.
  - apply key_eqb_eq in E1 as ->. intros Hx. apply origin_same; [|done]. apply requeue_parts. auto.
  - apply key_eqb_neq in E1. destruct (key_eqb k key2) eqn:E2; [|intros Hx; by apply origin_same].
    apply key_eqb_eq in E2 as ->. intros [Hx|Hx]%elem_of_app; [by apply origin_same|].
    apply list_elem_of_fmap in Hx as (y & -> & Hy). by eapply origin_moved.
Qed.

Lemma requeue_moved_from y : y ∈ mv -> y ∈ qof (fx_queues s) key1.
Proof. intros H. apply requeue_parts. auto. Qed.

Lemma requeue_queues_ok : queues_ok (fx_queues s').
Proof.
  constructor; [apply Hr| |].
  - intros k. rewrite (rq_queues _ _ _ _ _ _ _ _ Hr). fold left. pose proof requeue_disjoint as Hd. rewrite !map_app in Hd.
    apply NoDup_app in Hd as (_ & _ & Hd). apply NoDup_app in Hd as (Hmv & _ & Hl). destruct (key_eqb k key1) eqn:E1; [done|].
    destruct (key_eqb k key2); [|apply Hq]. rewrite map_app, map_map. apply NoDup_app. split; [apply Hq|]. split; [|exact Hmv].
    intros f (x & -> & Hx)%list_elem_of_fmap (y & Hf & Hy)%list_elem_of_fmap. apply key_eqb_neq in E1. apply E1.
    eapply (qk_apart _ Hq k key1 x y); [done|by apply requeue_moved_from|done].
  - intros k1 k2 x1 x2 [H1 L1|y1 -> N1 M1 ->]%requeue_origin [H2 L2|y2 -> N2 M2 ->]%requeue_origin Hf; [by eapply (qk_apart _ Hq)| | |done].
    + assert (k1 = key1) as -> by (eapply (qk_apart _ Hq k1 key1 x1 y2); [done|by apply requeue_moved_from|done]). exfalso.
      pose proof requeue_disjoint as Hd. rewrite !map_app in Hd. apply NoDup_app in Hd as (_ & _ & Hd). apply NoDup_app in Hd as (_ & Hd & _).
      apply (Hd (fw_flag y2)); [by apply list_elem_of_fmap_2|]. change (fw_flag y2) with (fw_flag (retarget token uaddr2 y2)). rewrite <- Hf. by apply list_elem_of_fmap_2, L1.
    + assert (k2 = key1) as -> by (eapply (qk_apart _ Hq k2 key1 x2 y1); [done|by apply requeue_moved_from|done]). exfalso.
      pose proof requeue_disjoint as Hd. rewrite !map_app in Hd. apply NoDup_app in Hd as (_ & _ & Hd). apply NoDup_app in Hd as (_ & Hd & _).
      apply (Hd (fw_flag y1)); [by apply list_elem_of_fmap_2|]. change (fw_flag y1) with (fw_flag (retarget token uaddr2 y1)). rewrite Hf. by apply list_elem_of_fmap_2, L2.
Qed.

Lemma requeue_gone k x : x ∈ qof (fx_queues s') k -> taken ws (fw_flag x) = false.
Proof.
  intros Ho%requeue_origin. apply not_true_iff_false. intros (y & Hf & Hy)%taken_iff%list_elem_of_fmap.
  pose proof requeue_disjoint as Hd. rewrite map_app in Hd. apply NoDup_app in Hd as (_ & Hd & _). apply (Hd (fw_flag y)); [by apply list_elem_of_fmap_2|].
  rewrite <- Hf. destruct Ho as [Hx Hl|z -> _ Hz ->].
  - apply list_elem_of_fmap_2, elem_of_app. right. apply Hl. eapply (qk_apart _ Hq k key1 x y); [done|apply requeue_parts; auto|done].
  - change (fw_flag (retarget token uaddr2 z)) with (fw_flag z). apply list_elem_of_fmap_2, elem_of_app. by left.
Qed.

Lemma requeue_shifts : fx_handles s' = fx_handles s -> shifts s (taken ws) s'.
Proof.
  intros Hh. constructor; [apply requeue_queues_ok| | |apply Hr|done].
  - intros f t (k & x & [Hx _|y _ _ Hy ->]%requeue_origin & Hf); [by exists k, x|]. exists key1, y. split; [by apply requeue_moved_from|done].
  - intros f t (k & x & Hx & <- & <-) Hf. destruct (key_eqb k key1) eqn:E1.
    + apply key_eqb_eq in E1 as ->. rewrite (rq_flags _ _ _ _ _ _ _ _ Hr) in Hf. apply andb_true_iff in Hf as [Hf Ht].
      assert (x ∈ ws ++ mv ++ left) as Hin.
      { rewrite <- requeue_split. apply list_elem_of_In, filter_In. rewrite Hf. split; [by apply list_elem_of_In|done]. }
      rewrite !elem_of_app in Hin. destruct Hin as [Hin|[Hin|Hin]].
      * exfalso. apply negb_true_iff, not_true_iff_false in Ht. apply Ht, taken_iff. by apply list_elem_of_fmap_2.
      * exists key2, (retarget token uaddr2 x). split; [|done]. rewrite (rq_queues _ _ _ _ _ _ _ _ Hr).
        destruct (key_eqb key2 key1) eqn:E; [exfalso; unfold requeue_mv in Hin; rewrite E in Hin; by apply elem_of_nil in Hin|].
        rewrite key_eqb_refl. apply elem_of_app. right. by apply list_elem_of_fmap_2.
      * exists key1, x. split; [|done]. rewrite (rq_queues _ _ _ _ _ _ _ _ Hr). by rewrite key_eqb_refl.
    + exists k, x. split; [|done]. rewrite (rq_queues _ _ _ _ _ _ _ _ Hr), E1. destruct (key_eqb k key2); [|done]. apply elem_of_app. by left.
Qed.
End Requeue.

(** Sections that take waiters out and clear their flags. *)
Lemma drop_shifts s F s' :
  queues_ok (fx_queues s) -> bt_wf (fx_queues s') -> (forall k, sublist (qof (fx_queues s') k) (qof (fx_queues s) k)) ->
  (forall k x, x ∈ qof (fx_queues s) k -> F (fw_flag x) = false -> x ∈ qof (fx_queues s') k) ->
  (forall f, fx_flags s' f = fx_flags s f && negb (F f)) -> fx_handles s' = fx_handles s -> shifts s F s'.
Proof.
  intros Hq Hwf Hsub Hkeep Hfl Hh. constructor; [by eapply queues_ok_sub| | |done|done].
  - intros f t (k & x & Hx & Hf). exists k, x. split; [by eapply elem_of_sublist|done].
  - intros f t (k & x & Hx & <- & Ht) Hf. exists k, x. split; [|done]. apply Hkeep; [done|]. rewrite Hfl in Hf. apply andb_true_iff in Hf as [_ Hf].
    by apply negb_true_iff.
Qed.

Lemma set_flag_false flags f g : set_flag flags f false g = flags g && negb (f =? g).
Proof. unfold set_flag. rewrite (Z.eqb_sym g). destruct (f =? g); by rewrite ?andb_false_r, ?andb_true_r. Qed.

Lemma filter_keep {A} (p : A -> bool) l x : x ∈ l -> p x = true -> x ∈ List.filter p l.
Proof. intros Hx Hp. apply list_elem_of_In, filter_In. split; [by apply list_elem_of_In|done]. Qed.

Lemma remove_tracked_shifts key f s :
  queues_ok (fx_queues s) -> shifts s (Z.eqb f) (snd (remove_tracked (key, f) s)).
Proof.
  intros Hq. pose proof (qk_wf _ Hq) as Hwf. unfold remove_tracked. destruct (bt_get (fx_queues s) key) as [q|] eqn:Eq; cbn [snd].
  - assert (qof (fx_queues s) key = q) as Hqk by (unfold qof; by rewrite Eq). set (rest := List.filter (fun w => negb (has_flag f w)) q).
    assert (forall k, qof (match rest with [] => bt_remove (fx_queues s) key | _ => bt_insert (fx_queues s) key rest end) k =
      if key_eqb k key then rest else qof (fx_queues s) k) as Hk.
    { intros k. destruct rest; [by apply qof_remove|apply qof_insert]. }
    apply drop_shifts; [done| | | |intros g; apply set_flag_false|done].
    + change (bt_wf (match rest with [] => bt_remove (fx_queues s) key | _ => bt_insert (fx_queues s) key rest end)). destruct rest; auto with kernel.
    + intros k. cbn [fx_queues]. etrans; [|reflexivity]. change (sublist (qof (match rest with [] => bt_remove (fx_queues s) key | _ => bt_insert (fx_queues s) key rest end) k) (qof (fx_queues s) k)).
      rewrite Hk. destruct (key_eqb k key) eqn:E; [|done]. apply key_eqb_eq in E as ->. rewrite Hqk. apply filter_sublist.
    + intros k x Hx Hf. change (x ∈ qof (match rest with [] => bt_remove (fx_queues s) key | _ => bt_insert (fx_queues s) key rest end) k).
      rewrite Hk. destruct (key_eqb k key) eqn:E; [|done]. apply key_eqb_eq in E as ->. rewrite Hqk in Hx. apply filter_keep; [done|].
      unfold has_flag. by rewrite Z.eqb_sym, Hf.
  - apply drop_shifts; [done|done|done|done|intros g; apply set_flag_false|done].
Qed.

Lemma remove_tracked_some key f s k : fst (remove_tracked (key, f) s) = Some k -> exists t, queued s f t.
Proof.
  unfold remove_tracked. destruct (bt_get (fx_queues s) key) as [q|] eqn:Eq; cbn [fst]; [|done].
  destruct (existsb (has_flag f) q) eqn:E; [|done]. intros _. apply taken_iff, list_elem_of_fmap in E as (x & -> & Hx).
  exists (fw_task x), key, x. split; [|done]. unfold qof. by rewrite Eq.
Qed.

Lemma drop_from_qof p m k : bt_wf m -> bt_wf (drop_from p m) /\ qof (drop_from p m) k = List.filter (fun w => negb (p w)) (qof m k).
Proof.
  intros Hwf. set (g := fun e : FutexKey * list FutexWaiter => (fst e, List.filter (fun w => negb (p w)) (snd e))).
  assert (bt_wf (map g m)) as Hg by (unfold bt_wf; by rewrite map_map).
  assert (bt_wf (drop_from p m)) as Hd by (by apply bt_wf_filter). split; [done|]. unfold qof.
  assert (forall q, (k, q) ∈ drop_from p m <-> q <> [] /\ exists q0, (k, q0) ∈ m /\ q = List.filter (fun w => negb (p w)) q0) as Hin.
  { intros q. unfold drop_from. rewrite bt_filter_elem, list_elem_of_fmap. simpl. split.
    - intros (([k0 q0] & [= -> ->] & Hin) & Hne). split; [|by exists q0]. intros Hnil. simpl in Hne, Hnil. by rewrite Hnil in Hne.
    - intros (Hne & q0 & Hin & ->). split; [by exists (k, q0)|]. by destruct (List.filter _ q0). }
  destruct (bt_get m k) as [q|] eqn:Eq; cbn [unwrap_or].
  - apply bt_get_elem in Eq; [|done]. destruct (bt_get (drop_from p m) k) as [q'|] eqn:Eq'; cbn [unwrap_or].
    + apply bt_get_elem in Eq'; [|done]. apply Hin in Eq' as (_ & q0 & Hq0 & ->). by rewrite (bt_wf_unique m k q q0 Hwf Eq Hq0).
    + destruct (List.filter (fun w => negb (p w)) q) as [|x l] eqn:El; [done|]. exfalso. eapply (proj1 (bt_get_None _ _) Eq' (x :: l)). apply Hin. split; [done|]. by exists q.
  - destruct (bt_get (drop_from p m) k) as [q'|] eqn:Eq'; [|done]. apply bt_get_elem in Eq'; [|done]. apply Hin in Eq' as (_ & q0 & Hq0 & _).
    exfalso. by eapply (proj1 (bt_get_None _ _) Eq).
Qed.

Lemma remove_waiter_shifts f s :
  queues_ok (fx_queues s) ->
  let (r, s') := remove_waiter f s in
  shifts s (fun g => (f =? g) && match r with Some _ => true | None => false end) s' /\
  (forall t, ~ queued s' f t) /\ (r <> None <-> exists t, queued s f t).
Proof.
  intros Hq. pose proof (qk_wf _ Hq) as Hwf. unfold remove_waiter.
  set (r := fst <$> List.find (fun e => existsb (has_flag f) (snd e)) (fx_queues s)).
  assert (forall k, qof (drop_from (has_flag f) (fx_queues s)) k = List.filter (fun w => negb (has_flag f w)) (qof (fx_queues s) k)) as Hd
    by (intros k; by apply drop_from_qof).
  split; [apply drop_shifts|split].
  - done.
  - apply (drop_from_qof (has_flag f) (fx_queues s) (0, 0) Hwf).
  - intros k. change (sublist (qof (drop_from (has_flag f) (fx_queues s)) k) (qof (fx_queues s) k)). rewrite Hd. apply filter_sublist.
  - intros k x Hx Hf. change (x ∈ qof (drop_from (has_flag f) (fx_queues s)) k). rewrite Hd. apply filter_keep; [done|].
    unfold has_flag. destruct (Z.eqb_spec (fw_flag x) f) as [He|]; [|done]. exfalso. rewrite <- He, Z.eqb_refl in Hf. cbn [andb] in Hf.
    unfold r in Hf. destruct (List.find _ _) eqn:Ef; [done|]. unfold qof in Hx. destruct (bt_get (fx_queues s) k) as [q|] eqn:Eq; [|by apply elem_of_nil in Hx].
    apply bt_get_in, list_elem_of_In in Eq. apply (find_none _ _ Ef) in Eq. simpl in Eq. apply not_true_iff_false in Eq. apply Eq.
    apply existsb_exists. exists x. split; [by apply list_elem_of_In|]. unfold has_flag. lia.
  - intros g. change (match r with Some _ => set_flag (fx_flags s) f false | None => fx_flags s end g = fx_flags s g && negb ((f =? g) && match r with Some _ => true | None => false end)).
    destruct r; [rewrite andb_true_r; apply set_flag_false|]. by rewrite andb_false_r, andb_true_r.
  - done.
  - intros t (k & x & Hx & Hf & _). change (x ∈ qof (drop_from (has_flag f) (fx_queues s)) k) in Hx. rewrite Hd in Hx. apply list_elem_of_In, filter_In in Hx as [_ Hx].
    unfold has_flag in Hx. rewrite Hf, Z.eqb_refl in Hx. done.
  - unfold r. split.
    + destruct (List.find _ _) as [[k q]|] eqn:Ef; [|done]. intros _. apply find_some in Ef as [Hin (x & Hx & Hf)%existsb_exists].
      exists (fw_task x), k, x. unfold has_flag in Hf. split; [|split; [lia|done]]. unfold qof.
      rewrite (proj2 (bt_get_elem _ k q Hwf)); [by apply list_elem_of_In|by apply list_elem_of_In].
    + intros (t & k & x & Hx & Hf & _). destruct (List.find _ _) eqn:Ef; [done|]. unfold qof in Hx. destruct (bt_get (fx_queues s) k) as [q|] eqn:Eq; [|by apply elem_of_nil in Hx].
      apply bt_get_in, list_elem_of_In in Eq. apply (find_none _ _ Ef) in Eq. simpl in Eq. apply not_true_iff_false in Eq. exfalso. apply Eq.
      apply existsb_exists. exists x. split; [by apply list_elem_of_In|]. unfold has_flag. lia.
Qed.

Lemma clear_flags_taken ws flags f : clear_flags ws flags f = flags f && negb (taken ws f).
Proof.
  revert flags. induction ws as [|x ws IH]; intros flags; [cbn; by rewrite andb_true_r|]. unfold clear_flags in *. cbn [fold_left]. rewrite IH, set_flag_false, taken_cons.
  rewrite negb_orb. by rewrite andb_assoc.
Qed.

Definition flags_of (t : Z) (s : FutexState) (f : Z) : bool := taken (List.filter (fun w => fw_task w =? t) (concat (map snd (fx_queues s)))) f.

Lemma flags_of_queued t s f : bt_wf (fx_queues s) -> flags_of t s f = true <-> queued s f t.
Proof.
  intros Hwf. unfold flags_of. rewrite taken_iff, list_elem_of_fmap. split.
  - intros (x & -> & Hx). apply list_elem_of_In, filter_In in Hx as [Hx Ht]. apply in_concat in Hx as (q & ([k q'] & Hq & Hin)%in_map_iff & Hx). simpl in Hq. subst q'.
    exists k, x. split; [|split; [done|lia]]. unfold qof. rewrite (proj2 (bt_get_elem _ k q Hwf)); by apply list_elem_of_In.
  - intros (k & x & Hx & <- & <-). exists x. split; [done|]. apply filter_keep; [|lia]. unfold qof in Hx. destruct (bt_get (fx_queues s) k) as [q|] eqn:Eq; [|by apply elem_of_nil in Hx].
    apply bt_get_in, list_elem_of_In in Eq. apply list_elem_of_In, in_concat. exists q. split; [|by apply list_elem_of_In]. apply in_map_iff. by exists (k, q).
Qed.

Lemma drop_task_shifts t s : queues_ok (fx_queues s) -> shifts s (flags_of t s) (drop_task t s).
Proof.
  intros Hq. pose proof (qk_wf _ Hq) as Hwf.
  assert (forall k, qof (fx_queues (drop_task t s)) k = List.filter (fun w => negb (fw_task w =? t)) (qof (fx_queues s) k)) as Hd
    by (intros k; by apply drop_from_qof).
  apply drop_shifts; [done|by apply (drop_from_qof _ _ (0, 0))| | |intros f; apply clear_flags_taken|done].
  - intros k. rewrite Hd. apply filter_sublist.
  - intros k x Hx Hf. rewrite Hd. apply filter_keep; [done|]. destruct (Z.eqb_spec (fw_task x) t) as [He|]; [|done]. exfalso.
    apply not_true_iff_false in Hf. apply Hf, flags_of_queued; [done|]. by exists k, x.
Qed.

(** ** What holds after every step *)

Definition pc_flag (p : FPc) : Z :=
  match p with
  | FArm f _ | FSleep f _ | FLook f _ | FGo f _ | FTake f _ _ | FTracked f _ _ _ | FScan f _ _ | FDetached f _ _ _ | FCheck f _ | FClear f => f
  end.

(** The task still has its handle, if its flag is set. *)
Definition has_handle (p : FPc) : bool :=
  match p with FArm _ _ | FSleep _ _ | FLook _ _ | FGo _ _ | FTake _ _ _ => true | _ => false end.
(** It sleeps, or will without a look at its flag. *)
Definition will_sleep (p : FPc) : bool := match p with FArm _ _ | FSleep _ _ | FGo _ _ => true | _ => false end.
(** Its flag is clear. *)
Definition cleared (p : FPc) : bool := match p with FScan _ _ _ | FDetached _ _ _ _ | FCheck _ _ | FClear _ => true | _ => false end.

Definition items (w : FutexWorld) : list JItem := concat (xw_jobs w).
Definition pending (w : FutexWorld) (t : Z) : Prop := t ∈ xw_runnable w \/ JWakeup t ∈ items w.

Definition pc_ok (w : FutexWorld) (t : Z) (p : FPc) : Prop :=
  let f := pc_flag p in
  let s := xw_state w in
  (fx_flags s f = true -> queued s f t) /\
  (fx_flags s f = true -> has_handle p = true -> exists k, fx_handles s !! t = Some (k, f)) /\
  (cleared p = true -> fx_flags s f = false) /\
  (will_sleep p = true -> fx_flags s f = false -> pending w t) /\
  match p with
  | FTracked _ _ _ h => snd h = f
  | FDetached _ _ _ true => f ∉ xw_counted w
  | _ => True
  end.

Definition item_ok (w : FutexWorld) (i : JItem) : Prop :=
  match i with
  | JClear t f => is_Some (xw_owner w !! f) /\ fx_flags (xw_state w) f = false
  | JExitTake t | JExitScan t => t ∈ xw_dead w
  | JExitTracked t h => t ∈ xw_dead w /\ xw_owner w !! snd h = Some t
  | _ => True
  end.

Record futex_ok (w : FutexWorld) : Prop := {
  fo_queues : queues_ok (fx_queues (xw_state w));
  fo_queued : forall f t, queued (xw_state w) f t -> xw_owner w !! f = Some t;
  fo_handle : forall t k f, fx_handles (xw_state w) !! t = Some (k, f) -> xw_owner w !! f = Some t;
  fo_owner : forall f t, xw_owner w !! f = Some t -> f < xw_next w;
  fo_dead : forall t, t ∈ xw_dead w -> xw_pc w !! t = None;
  fo_flag : forall t p, xw_pc w !! t = Some p -> xw_owner w !! pc_flag p = Some t;
  fo_same : forall t p k f, xw_pc w !! t = Some p -> fx_handles (xw_state w) !! t = Some (k, f) -> f = pc_flag p;
  fo_pc : forall t p, xw_pc w !! t = Some p -> pc_ok w t p;
  fo_items : forall i, i ∈ items w -> item_ok w i;
  fo_counted : forall f, f ∈ xw_counted w -> is_Some (xw_owner w !! f) /\ fx_flags (xw_state w) f = false /\ forall t, ~ queued (xw_state w) f t;
  fo_result : forall f r early, xw_result w !! f = Some (r, early) ->
    is_Some (xw_owner w !! f) /\ fx_flags (xw_state w) f = false /\ (f ∈ xw_counted w -> early = true \/ r = 0)
}.

Lemma futex_ok_init : futex_ok no_futex.
Proof.
  constructor; simpl; try done; try set_solver.
  - constructor; [constructor|intros; constructor|]. intros k1 k2 x y Hx. by apply elem_of_nil in Hx.
  - intros f t (k & x & Hx & _). by apply elem_of_nil in Hx.
Qed.

(** *** A task that moves on *)

Lemma futex_ok_goto w t p p' :
  futex_ok w -> xw_pc w !! t = Some p -> pc_flag p' = pc_flag p -> pc_ok w t p' -> futex_ok (goto t p' w).
Proof.
  intros H Hp Hf Hok. assert (forall t' q, xw_pc (goto t p' w) !! t' = Some q -> (t' = t /\ q = p') \/ (t' <> t /\ xw_pc w !! t' = Some q)) as Hl.
  { intros t' q. change (xw_pc (goto t p' w)) with (<[t := p']> (xw_pc w)). rewrite lookup_insert_Some. intros [[-> ->]|[? ?]]; auto. }
  constructor; try apply H.
  - intros t' Hd. pose proof (fo_dead w H t' Hd). change (<[t := p']> (xw_pc w) !! t' = None). rewrite lookup_insert_ne; [done|congruence].
  - intros t' q [[-> ->]|[? Hq]]%Hl; [rewrite Hf|]; by apply (fo_flag w H).
  - intros t' q k f [[-> ->]|[? Hq]]%Hl Hh; [rewrite Hf|]; by eapply (fo_same w H).
  - intros t' q [[-> ->]|[? Hq]]%Hl; [exact Hok|by apply (fo_pc w H)].
Qed.

Lemma futex_ok_finish w t p f r early :
  futex_ok w -> xw_pc w !! t = Some p -> pc_flag p = f -> fx_flags (xw_state w) f = false -> (f ∈ xw_counted w -> early = true \/ r = 0) ->
  futex_ok (finish t f r early w).
Proof.
  intros H Hp <- Hfl Hr. assert (forall t' q, xw_pc (finish t (pc_flag p) r early w) !! t' = Some q -> xw_pc w !! t' = Some q) as Hl.
  { intros t' q. change (xw_pc (finish t (pc_flag p) r early w)) with (delete t (xw_pc w)). by intros [_ ?]%lookup_delete_Some. }
  constructor; try apply H.
  - intros t' Hd. change (delete t (xw_pc w) !! t' = None). apply lookup_delete_None. right. by apply (fo_dead w H).
  - intros t' q Hq%Hl. by apply (fo_flag w H).
  - intros t' q k f Hq%Hl. by apply (fo_same w H).
  - intros t' q Hq%Hl. by apply (fo_pc w H).
  - intros f r' e'. change (xw_result (finish t (pc_flag p) r early w)) with (<[pc_flag p := (r, early)]> (xw_result w)).
    intros [[<- [= <- <-]]|[_ ?]]%lookup_insert_Some; [|by apply (fo_result w H)]. split; [|done]. exists t. exact (fo_flag w H t p Hp).
Qed.

(** *** Handles *)

(** Handles that are dropped, or whose keys change. *)
Lemma futex_ok_handles w s' :
  futex_ok w -> fx_queues s' = fx_queues (xw_state w) -> fx_flags s' = fx_flags (xw_state w) ->
  (forall t k f, fx_handles s' !! t = Some (k, f) -> exists k', fx_handles (xw_state w) !! t = Some (k', f)) ->
  (forall t k p, fx_handles (xw_state w) !! t = Some (k, pc_flag p) -> xw_pc w !! t = Some p -> has_handle p = true ->
    fx_flags (xw_state w) (pc_flag p) = true -> exists k', fx_handles s' !! t = Some (k', pc_flag p)) ->
  futex_ok (with_state s' w).
Proof.
  intros H Hq Hfl Hsub Hkeep. assert (forall f t, queued s' f t <-> queued (xw_state w) f t) as Hqd by (intros f t; unfold queued; by rewrite Hq).
  constructor; cbn [with_state xw_state]; change (xw_state (with_state s' w)) with s'; try apply H.
  - rewrite Hq. apply H.
  - intros f t. rewrite Hqd. apply H.
  - intros t k f (k' & Hk)%Hsub. by eapply (fo_handle w H).
  - intros t p k f Hp (k' & Hk)%Hsub. by eapply (fo_same w H).
  - intros t p Hp. destruct (fo_pc w H t p Hp) as (P1 & P2 & P3 & P4 & P5). unfold pc_ok. change (xw_state (with_state s' w)) with s'. rewrite Hfl, Hqd.
    split_and!; [done| |done|done|done]. intros Ht Hh. destruct (P2 Ht Hh) as [k Hk]. by eapply Hkeep.
  - intros i Hi. pose proof (fo_items w H i Hi) as Ho. destruct i; try done. destruct Ho as [Ho1 Ho2]. split; [done|]. change (xw_state (with_state s' w)) with s'. by rewrite Hfl.
  - intros f Hf. destruct (fo_counted w H f Hf) as (C1 & C2 & C3). rewrite Hfl. split_and!; [done|done|]. intros t. rewrite Hqd. apply C3.
  - intros f r e Hr. rewrite Hfl. by apply (fo_result w H).
Qed.

Lemma futex_ok_clear w t f :
  futex_ok w -> fx_flags (xw_state w) f = false -> futex_ok (with_state (clear_futex_wait (xw_state w) t f) w).
Proof.
  intros H Hf. destruct (clear_futex_wait_queues (xw_state w) t f) as [Hq Hfl]. apply futex_ok_handles; [done|done|done| |].
  - intros t' k g. unfold clear_futex_wait. destruct (fx_handles (xw_state w) !! t) as [[k0 g0]|] eqn:Eh; [|eauto].
    destruct (g0 =? f); [|eauto]. change (delete t (fx_handles (xw_state w)) !! t' = Some (k, g) -> exists k', fx_handles (xw_state w) !! t' = Some (k', g)).
    intros [_ ?]%lookup_delete_Some. eauto.
  - intros t' k p Hk Hp _ Ht. unfold clear_futex_wait. destruct (fx_handles (xw_state w) !! t) as [[k0 g0]|] eqn:Eh; [|eauto].
    destruct (Z.eqb_spec g0 f) as [->|]; [|eauto]. exists k. change (delete t (fx_handles (xw_state w)) !! t' = Some (k, pc_flag p)).
    apply lookup_delete_Some. split; [|done]. intros <-. congruence.
Qed.

(** *** Sections under the lock of the queues *)

Lemma futex_ok_shift w F s' jobs' counted' :
  futex_ok w -> shifts (xw_state w) F s' ->
  (forall t p, xw_pc w !! t = Some p -> will_sleep p = true -> F (pc_flag p) = true -> fx_flags (xw_state w) (pc_flag p) = true -> JWakeup t ∈ concat jobs') ->
  (forall t, JWakeup t ∈ items w -> JWakeup t ∈ concat jobs') ->
  (forall i, i ∈ concat jobs' -> i ∈ items w \/ item_ok (with_state s' w) i) ->
  (forall f, f ∈ counted' -> f ∈ xw_counted w \/
    (fx_flags (xw_state w) f = true /\ F f = true /\ is_Some (xw_owner w !! f) /\ forall t, ~ queued s' f t)) ->
  futex_ok (with_state s' (w {{ xw_jobs := jobs'; xw_counted := counted' }})).
Proof.
  intros H [S1 S2 S3 S4 S5] Hwake Hjobs Hitems Hcnt.
  assert (forall f, fx_flags (xw_state w) f = false -> fx_flags s' f = false) as Hoff by (intros f Hf; by rewrite S4, Hf).
  assert (forall f, fx_flags s' f = true -> fx_flags (xw_state w) f = true) as Hon by (intros f; rewrite S4; by intros [? _]%andb_true_iff).
  set (w' := with_state s' (w {{ xw_jobs := jobs'; xw_counted := counted' }})). change (xw_state w') with s'. constructor; try apply H.
  - exact S1.
  - intros f t Hq%S2. by apply (fo_queued w H).
  - change (xw_state w') with s'. rewrite S5. apply (fo_handle w H).
  - change (xw_state w') with s'. rewrite S5. apply (fo_same w H).
  - intros t p Hp. destruct (fo_pc w H t p Hp) as (P1 & P2 & P3 & P4 & P5). unfold pc_ok. change (xw_state w') with s'. split_and!.
    + intros Hf. apply S3; auto.
    + intros Hf Hh. rewrite S5. auto.
    + auto.
    + intros Hs Hf. destruct (fx_flags (xw_state w) (pc_flag p)) eqn:Ef.
      * right. apply (Hwake t p); [done|done| |done]. rewrite S4, Ef in Hf. by apply negb_false_iff.
      * destruct (P4 Hs eq_refl) as [?|?]; [by left|right; by apply Hjobs].
    + destruct p as [| | | | | | |f e early [|]| |]; try done. intros [?|(Ht & _)]%Hcnt; [done|]. rewrite (P3 eq_refl) in Ht. done.
  - intros i [Hi|Hi]%Hitems; [|by destruct i]. apply (fo_items w H) in Hi. destruct i; try done. destruct Hi as [Ho1 Ho2]. split; [done|by apply Hoff].
  - intros f [Hf|(Ht & HF & Hown & Hno)]%Hcnt; [|split_and!; [done| |done]; change (xw_state w') with s'; by rewrite S4, Ht, HF].
    destruct (fo_counted w H f Hf) as (C1 & C2 & C3). split_and!; [done|by apply Hoff|]. intros t Hq%S2. by apply (C3 t).
  - intros f r e Hr. destruct (fo_result w H f r e Hr) as (R1 & R2 & R3). split_and!; [done|by apply Hoff|].
    intros [?|(Ht & _)]%Hcnt; [auto|congruence].
Qed.

(** A task, alive or not, that takes its own waiter out. *)
Lemma futex_ok_own w F s' t :
  futex_ok w -> shifts (xw_state w) F s' ->
  (forall f, F f = true -> fx_flags (xw_state w) f = true -> xw_owner w !! f = Some t) ->
  (forall p, xw_pc w !! t = Some p -> will_sleep p = false) ->
  futex_ok (with_state s' w).
Proof.
  intros H Hs Hown Ht. apply (futex_ok_shift w F s' (xw_jobs w) (xw_counted w)); [done|done| |done|auto|auto].
  intros t' p Hp Hw HF Hf. exfalso. pose proof (Hown _ HF Hf) as Ho. rewrite (fo_flag w H t' p Hp) in Ho. injection Ho as ->.
  by rewrite (Ht p Hp) in Hw.
Qed.

(** *** Wakeups and jobs *)

Lemma futex_ok_jobs w run' jobs' :
  futex_ok w -> (forall t p, xw_pc w !! t = Some p -> will_sleep p = true -> pending w t -> t ∈ run' \/ JWakeup t ∈ concat jobs') ->
  (forall i, i ∈ concat jobs' -> i ∈ items w \/ item_ok w i) -> futex_ok (w {{ xw_runnable := run'; xw_jobs := jobs' }}).
Proof.
  intros H Hp Hi. constructor; try apply H.
  - intros t p Ht. destruct (fo_pc w H t p Ht) as (P1 & P2 & P3 & P4 & P5). split_and!; try done. intros Hs Hf. eapply Hp; eauto.
  - intros i [Hin|Hin]%Hi; [by apply (fo_items w H) in Hin; destruct i|by destruct i].
Qed.

Lemma concat_vec_push {A} (l : list (list A)) x : concat (vec_push l x) = concat l ++ x.
Proof. unfold vec_push. rewrite concat_app. simpl. by rewrite app_nil_r. Qed.

Lemma concat_insert {A} (l : list (list A)) n (i : A) job more x :
  l !! n = Some (i :: job) ->
  (x ∈ concat (<[n := more ++ job]> l) -> x ∈ more \/ x ∈ concat l) /\ (x ∈ concat l -> x = i \/ x ∈ concat (<[n := more ++ job]> l)).
Proof.
  revert n. induction l as [|y l IH]; intros [|n] Hn; simpl in Hn; try done.
  - injection Hn as ->. simpl. rewrite !elem_of_app, elem_of_cons, elem_of_app. tauto.
  - simpl. rewrite !elem_of_app. destruct (IH n Hn). tauto.
Qed.

Lemma in_wake_items i ws :
  i ∈ wake_items (marks ws) <-> exists x, x ∈ ws /\ (i = JClear (fw_task x) (fw_flag x) \/ i = JWakeup (fw_task x)).
Proof.
  unfold wake_items, marks. rewrite list_elem_of_In, in_flat_map. split.
  - intros (p & (x & <- & Hx)%in_map_iff & Hi). exists x. split; [by apply list_elem_of_In|]. simpl in Hi. intuition.
  - intros (x & Hx & Hi). exists (fw_task x, fw_flag x). split; [apply in_map_iff; exists x; split; [done|by apply list_elem_of_In]|]. simpl. intuition.
Qed.

(** A wake, or a requeue: [ws] are woken. *)
Lemma futex_ok_wake w ws s' key2 upd :
  futex_ok w -> shifts (xw_state w) (taken ws) s' -> (forall k x, x ∈ qof (fx_queues s') k -> taken ws (fw_flag x) = false) ->
  (forall x, x ∈ ws -> queued (xw_state w) (fw_flag x) (fw_task x) /\ fx_flags (xw_state w) (fw_flag x) = true) ->
  futex_ok (with_state s' (w {{ xw_jobs := vec_push (xw_jobs w) (update_items key2 upd ++ wake_items (marks ws));
                                xw_counted := list_to_set (map snd (marks ws)) ∪ xw_counted w }})).
Proof.
  intros H Hs Hgone Hws. assert (forall f, f ∈ map snd (marks ws) <-> f ∈ map fw_flag ws) as Hm by (intros f; unfold marks; by rewrite map_map).
  apply (futex_ok_shift w (taken ws)); [done|done| | | |].
  - intros t p Hp _ (x & Hf & Hx)%taken_iff%list_elem_of_fmap _. rewrite concat_vec_push, !elem_of_app, in_wake_items. right. right.
    exists x. split; [done|]. right. destruct (Hws x Hx) as [Hq _]. apply (fo_queued w H) in Hq. rewrite <- Hf, (fo_flag w H t p Hp) in Hq. congruence.
  - intros t Ht. rewrite concat_vec_push, elem_of_app. by left.
  - intros i. rewrite concat_vec_push, !elem_of_app, in_wake_items. intros [Hi|[Hi|(x & Hx & Hi)]]; [by left| |]; right.
    + apply list_elem_of_fmap in Hi as (u & -> & _). done.
    + destruct Hi as [-> | ->]; [|done]. split; [exists (fw_task x); by apply (fo_queued w H), Hws|]. change (fx_flags s' (fw_flag x) = false). rewrite (sh_flags _ _ _ Hs).
      rewrite (proj2 (taken_iff ws (fw_flag x))); [by rewrite andb_false_r|by apply list_elem_of_fmap_2].
  - intros f [Hf|Hf]%elem_of_union; [|by left]. right. apply elem_of_list_to_set, Hm in Hf. pose proof (proj2 (taken_iff _ _) Hf) as Htk.
    apply list_elem_of_fmap in Hf as (x & -> & Hx). destruct (Hws x Hx) as [Hq Hfl]. split_and!; [done|done| |].
    + exists (fw_task x). by apply (fo_queued w H).
    + intros t (k & y & Hy & Hfy & _). apply Hgone in Hy. rewrite Hfy in Hy. congruence.
Qed.

Lemma wake_candidates_queued key mask fallback s x :
  x ∈ wake_candidates key mask fallback s -> queued s (fw_flag x) (fw_task x) /\ fx_flags s (fw_flag x) = true.
Proof.
  assert (forall sel k, x ∈ live (fx_flags s) sel (qof (fx_queues s) k) -> queued s (fw_flag x) (fw_task x) /\ fx_flags s (fw_flag x) = true) as Hl.
  { intros sel k (Hx & Hf & _)%live_sub. split; [by exists k, x|done]. }
  unfold wake_candidates. intros [Hx|Hx]%elem_of_app; [by eapply Hl|]. destruct fallback as [[token ua]|]; [|by apply elem_of_nil in Hx].
  apply list_elem_of_In, in_concat in Hx as (l & (k & <- & _)%in_map_iff & Hx). apply list_elem_of_In in Hx. by eapply Hl.
Qed.

Lemma wake_step_ok key cmd nr_wake val3 fallback w : futex_ok w -> futex_ok (wake_step key cmd nr_wake val3 fallback w).
Proof.
  intros H. unfold wake_step. destruct (wake_args cmd nr_wake val3) as [e|mask]; [done|].
  destruct (wake_locked_correct key nr_wake mask fallback (xw_state w) (fo_queues w H)) as (s' & Hrun & Hd & Hh). rewrite Hrun.
  apply (futex_ok_wake w _ s' (0, 0) []); [done|by apply dequeues_shifts|apply Hd|].
  intros x (i & Hi & _)%elem_of_take. apply (wake_candidates_queued key mask fallback). apply list_elem_of_lookup. by exists i.
Qed.

Lemma requeue_step_ok key1 key2 cmd token uaddr uaddr2 nr_wake nr_requeue cur expected w :
  futex_ok w -> futex_ok (requeue_step key1 key2 cmd token uaddr uaddr2 nr_wake nr_requeue cur expected w).
Proof.
  intros H. unfold requeue_step, requeue_args. destruct (_ || _); [done|]. destruct (Z.ltb_spec nr_wake 0); [done|]. destruct (Z.ltb_spec nr_requeue 0); [done|].
  cbn [orb]. destruct (_ && _); [done|].
  destruct (requeue_locked_correct key1 key2 token uaddr2 nr_wake nr_requeue (xw_state w) (fo_queues w H)) as (s' & Hrun & Hr & Hh); [done|done|].
  rewrite Hrun. pose proof (fo_queues w H) as Hq. apply futex_ok_wake; [done|by eapply requeue_shifts|by eapply requeue_gone|].
  intros x Hx. destruct (requeue_parts key1 key2 nr_wake nr_requeue (xw_state w) x) as [Hin Hf]; [by left|]. split; [|done]. by exists key1, x.
Qed.

(** *** A new waiter *)

Section NewWait.
Context (w : FutexWorld) (H : futex_ok w) (k0 : FutexKey) (x0 : FutexWaiter).
Context (Hx0 : fw_flag x0 = xw_next w) (Hlive : fw_task x0 ∉ xw_dead w).

Definition enqueued : FutexState :=
  set_futex_wait ((xw_state w) {{ fx_queues := bt_insert (fx_queues (xw_state w)) k0 (vec_push (qof (fx_queues (xw_state w)) k0) x0);
                                fx_flags := set_flag (fx_flags (xw_state w)) (xw_next w) true }}) (fw_task x0) k0 (xw_next w).

Lemma enqueued_qof k : qof (fx_queues enqueued) k = if key_eqb k k0 then qof (fx_queues (xw_state w)) k0 ++ [x0] else qof (fx_queues (xw_state w)) k.
Proof. apply qof_insert. Qed.

Lemma enqueued_in k x : x ∈ qof (fx_queues enqueued) k <-> x ∈ qof (fx_queues (xw_state w)) k \/ (k = k0 /\ x = x0).
Proof.
  rewrite enqueued_qof. destruct (key_eqb k k0) eqn:E; [apply key_eqb_eq in E as ->|apply key_eqb_neq in E]; rewrite ?elem_of_app, ?list_elem_of_singleton; tauto.
Qed.

Lemma next_not_queued k x : x ∈ qof (fx_queues (xw_state w)) k -> fw_flag x <> xw_next w.
Proof. intros Hx Hf. pose proof (fo_owner w H (fw_flag x) (fw_task x)) as Ho. destruct (Z.lt_irrefl (xw_next w)). rewrite <- Hf at 1. apply Ho, (fo_queued w H). by exists k, x. Qed.

Lemma enqueued_queued f t : queued enqueued f t <-> queued (xw_state w) f t \/ (f = xw_next w /\ t = fw_task x0).
Proof.
  split.
  - intros (k & x & [Hx|[-> ->]]%enqueued_in & <- & <-); [left; by exists k, x|right; done].
  - intros [(k & x & Hx & Hf)|[-> ->]]; [exists k, x|exists k0, x0]; rewrite enqueued_in; auto.
Qed.

Lemma enqueued_ok : queues_ok (fx_queues enqueued).
Proof.
  pose proof (fo_queues w H) as Hq. constructor.
  - apply bt_wf_insert, Hq.
  - intros k. rewrite enqueued_qof. destruct (key_eqb k k0); [|apply Hq]. rewrite map_app. apply NoDup_app. split; [apply Hq|]. split; [|apply NoDup_singleton].
    intros f (x & -> & Hx)%list_elem_of_fmap Hin%list_elem_of_singleton. rewrite Hx0 in Hin. by eapply next_not_queued.
  - intros k1 k2 x y [Hx|[-> ->]]%enqueued_in [Hy|[-> ->]]%enqueued_in Hf; [by eapply (qk_apart _ Hq)| | |done]; rewrite Hx0 in Hf; exfalso; [by eapply next_not_queued|].
    symmetry in Hf. by eapply next_not_queued.
Qed.

Lemma flag_old f : is_Some (xw_owner w !! f) -> f <> xw_next w /\ fx_flags enqueued f = fx_flags (xw_state w) f.
Proof.
  intros [t Ho%(fo_owner w H)]. split; [lia|]. change (set_flag (fx_flags (xw_state w)) (xw_next w) true f = fx_flags (xw_state w) f).
  unfold set_flag. destruct (Z.eqb_spec f (xw_next w)); [lia|done].
Qed.

Definition waiting (d : option Z) : FutexWorld :=
  goto (fw_task x0) (FArm (xw_next w) d)
    (with_state enqueued (w {{ xw_next := xw_next w + 1; xw_owner := <[xw_next w := fw_task x0]> (xw_owner w) }})).

Lemma owner_new f t : xw_owner w !! f = Some t -> <[xw_next w := fw_task x0]> (xw_owner w) !! f = Some t.
Proof. intros Ho. rewrite lookup_insert_ne; [done|]. intros <-. apply (fo_owner w H) in Ho. lia. Qed.

Lemma owner_new_some f : is_Some (xw_owner w !! f) -> is_Some (<[xw_next w := fw_task x0]> (xw_owner w) !! f).
Proof. intros [t Ht]. exists t. by apply owner_new. Qed.

Lemma waiting_ok d : futex_ok (waiting d).
Proof.
  assert (forall t p, xw_pc (waiting d) !! t = Some p -> (t = fw_task x0 /\ p = FArm (xw_next w) d) \/ (t <> fw_task x0 /\ xw_pc w !! t = Some p)) as Hl.
  { intros t p. change (<[fw_task x0 := FArm (xw_next w) d]> (xw_pc w) !! t = Some p -> (t = fw_task x0 /\ p = FArm (xw_next w) d) \/ (t <> fw_task x0 /\ xw_pc w !! t = Some p)).
    rewrite lookup_insert_Some. intros [[<- <-]|[? ?]]; auto. }
  assert (forall t k f, fx_handles enqueued !! t = Some (k, f) -> (t = fw_task x0 /\ f = xw_next w) \/ (t <> fw_task x0 /\ fx_handles (xw_state w) !! t = Some (k, f))) as Hh.
  { intros t k f. change (<[fw_task x0 := (k0, xw_next w)]> (fx_handles (xw_state w)) !! t = Some (k, f) -> (t = fw_task x0 /\ f = xw_next w) \/ (t <> fw_task x0 /\ fx_handles (xw_state w) !! t = Some (k, f))).
    rewrite lookup_insert_Some. intros [[<- [= <- <-]]|[? ?]]; auto. }
  assert (<[xw_next w := fw_task x0]> (xw_owner w) !! xw_next w = Some (fw_task x0)) as Hnew by apply lookup_insert_eq.
  constructor; change (xw_state (waiting d)) with enqueued; change (xw_owner (waiting d)) with (<[xw_next w := fw_task x0]> (xw_owner w)).
  - apply enqueued_ok.
  - intros f t [Hq|[-> ->]]%enqueued_queued; [by apply owner_new, (fo_queued w H)|done].
  - intros t k f [[-> ->]|[_ Ho]]%Hh; [done|]. by eapply owner_new, (fo_handle w H).
  - intros f t [[<- <-]|[_ Ho]]%lookup_insert_Some; [change (xw_next w < xw_next w + 1); lia|]. apply (fo_owner w H) in Ho. change (f < xw_next w + 1). lia.
  - intros t Hd. change (<[fw_task x0 := FArm (xw_next w) d]> (xw_pc w) !! t = None). rewrite lookup_insert_ne; [by apply (fo_dead w H)|]. by intros <-.
  - intros t p [[-> ->]|[_ Hp]]%Hl; [done|]. by apply owner_new, (fo_flag w H).
  - intros t p k f [[-> ->]|[Hne Hp]]%Hl [[? ->]|[? Hk]]%Hh; [done|done|done|by eapply (fo_same w H)].
  - intros t p [[-> ->]|[Hne Hp]]%Hl.
    + assert (fx_flags enqueued (xw_next w) = true) as Hon by (change (set_flag (fx_flags (xw_state w)) (xw_next w) true (xw_next w) = true); unfold set_flag; by rewrite Z.eqb_refl).
      unfold pc_ok. change (xw_state (waiting d)) with enqueued. cbn [pc_flag cleared]. rewrite Hon. split_and!; try done.
      * intros _. apply enqueued_queued. by right.
      * intros _ _. exists k0. apply lookup_insert_eq.
    + destruct (fo_pc w H t p Hp) as (P1 & P2 & P3 & P4 & P5). unfold pc_ok. change (xw_state (waiting d)) with enqueued.
      destruct (flag_old (pc_flag p)) as [_ ->]; [exists t; by apply (fo_flag w H)|]. split_and!; try done.
      * intros Hf. apply enqueued_queued. auto.
      * intros Hf Hhh. destruct (P2 Hf Hhh) as [k Hk]. exists k. change (<[fw_task x0 := (k0, xw_next w)]> (fx_handles (xw_state w)) !! t = Some (k, pc_flag p)).
        by rewrite lookup_insert_ne.
  - intros i Hi. pose proof (fo_items w H i Hi) as Ho. destruct i as [t f| | | |t h|]; try done.
    + destruct Ho as [Ho1 Ho2]. destruct (flag_old f Ho1) as [_ Hfl]. split; [by apply owner_new_some|exact (eq_trans Hfl Ho2)].
    + destruct Ho as [Ho1 Ho2]. split; [done|]. by apply owner_new.
  - intros f Hf. destruct (fo_counted w H f Hf) as (C1 & C2 & C3). destruct (flag_old f C1) as [Hne ->]. split_and!; [by apply owner_new_some|done|].
    intros t [Hq|[-> _]]%enqueued_queued; [by apply (C3 t)|done].
  - intros f r e Hr. destruct (fo_result w H f r e Hr) as (R1 & R2 & R3). destruct (flag_old f R1) as [Hne ->]. split_and!; [by apply owner_new_some|done|done].
Qed.
End NewWait.

Lemma wait_step_ok c cur signal now w : futex_ok w -> futex_ok (wait_step c cur signal now w).
Proof.
  intros H. unfold wait_step. case_bool_decide as Hd; [done|]. destruct (xw_pc w !! wt_task c) eqn:Hp; [done|].
  unfold wait_locked. destruct (negb _); [done|]. destruct signal; [done|]. destruct (wait_deadline c now) as [e|d]; [done|].
  exact (waiting_ok w H (wt_key c) (mkWaiter (wt_task c) (wt_bitset c) (xw_next w) (wt_token c) (wt_uaddr c)) eq_refl Hd d).
Qed.

(** *** The steps of a wait *)

(** A phase that asks for no more than the last. *)
Definition weaker (p p' : FPc) : bool :=
  implb (has_handle p') (has_handle p) && implb (cleared p') (cleared p) && implb (will_sleep p') (will_sleep p) &&
  match p' with FTracked _ _ _ _ | FDetached _ _ _ true => false | _ => true end.

Lemma pc_ok_weaker w t p p' : pc_ok w t p -> pc_flag p' = pc_flag p -> weaker p p' = true -> pc_ok w t p'.
Proof.
  intros (P1 & P2 & P3 & P4 & P5) Hf Hw. unfold weaker in Hw. rewrite !andb_true_iff in Hw. destruct Hw as [[[W1 W2] W3] W4].
  unfold pc_ok. rewrite Hf. split_and!; [done| | | |].
  - intros Hs Hh. apply P2; [done|]. rewrite Hh in W1. by destruct (has_handle p).
  - intros Hh. apply P3. rewrite Hh in W2. by destruct (cleared p).
  - intros Hh. apply P4. rewrite Hh in W3. by destruct (will_sleep p).
  - by destruct p' as [| | | | | | |? ? ? []| |].
Qed.

(** A phase with a clear flag, that does not sleep. *)
Lemma pc_ok_clear w t p' :
  fx_flags (xw_state w) (pc_flag p') = false -> will_sleep p' = false ->
  match p' with FTracked _ _ _ _ => False | FDetached f _ _ true => f ∉ xw_counted w | _ => True end -> pc_ok w t p'.
Proof. intros Hf Hw Hp. unfold pc_ok. rewrite Hf, Hw. split_and!; try done. by destruct p'. Qed.

Section TaskStep.
Context (w : FutexWorld) (H : futex_ok w) (t : Z).

Lemma sleep_step_ok f d :
  xw_pc w !! t = Some (FSleep f d) -> futex_ok (goto t (FLook f d) (w {{ xw_runnable := xw_runnable w ∖ {[t]} }})).
Proof.
  intros Hp. apply (futex_ok_jobs (goto t (FLook f d) w) (xw_runnable w ∖ {[t]}) (xw_jobs w)).
  - eapply futex_ok_goto; [done|done|done|]. by apply (pc_ok_weaker w t (FSleep f d)); [apply (fo_pc w H)| |].
  - intros t' p Hp' Hs [Hr|Hi]; [|by right]. left. change (<[t := FLook f d]> (xw_pc w) !! t' = Some p) in Hp'.
    apply lookup_insert_Some in Hp' as [[<- <-]|[Hne _]]; [done|]. change (t' ∈ xw_runnable w) in Hr. set_solver.
  - intros i Hi. by left.
Qed.

Lemma take_step_ok f e early :
  xw_pc w !! t = Some (FTake f e early) ->
  futex_ok (with_state (snd (take_futex_wait (xw_state w) t))
              (goto t (match fx_handles (xw_state w) !! t with Some h => FTracked f e early h | None => FScan f e early end) w)).
Proof.
  intros Hp. destruct (fo_pc w H t _ Hp) as (P1 & P2 & P3 & P4 & P5).
  match goal with |- futex_ok (with_state _ (goto t ?p w)) => set (p' := p) end.
  assert (has_handle p' = false /\ pc_flag p' = f) as [Hh Hf] by (unfold p'; by destruct (fx_handles (xw_state w) !! t)).
  apply futex_ok_handles; [|done|done| |].
  - eapply futex_ok_goto; [done|done|done|]. unfold p'. destruct (fx_handles (xw_state w) !! t) as [[k g]|] eqn:Eh.
    + unfold pc_ok. cbn [pc_flag has_handle cleared will_sleep snd]. split_and!; [done|done|done|done|]. exact (fo_same w H t _ k g Hp Eh).
    + apply pc_ok_clear; [|done|done]. apply not_true_iff_false. intros Hon. destruct (P2 Hon eq_refl) as [k Hk]. congruence.
  - intros t' k g Hk. change (delete t (fx_handles (xw_state w)) !! t' = Some (k, g)) in Hk. apply lookup_delete_Some in Hk as [_ Hk]. by exists k.
  - intros t' k q Hk Hq Hhq _. exists k. change (delete t (fx_handles (xw_state w)) !! t' = Some (k, pc_flag q)). apply lookup_delete_Some. split; [|done]. intros <-.
    change (<[t := p']> (xw_pc w) !! t = Some q) in Hq. rewrite lookup_insert_eq in Hq. congruence.
Qed.

Lemma tracked_step_ok f e early h :
  xw_pc w !! t = Some (FTracked f e early h) ->
  futex_ok (goto t (match fst (remove_tracked h (xw_state w)) with Some _ => FDetached f e early true | None => FScan f e early end)
              (with_state (snd (remove_tracked h (xw_state w))) w)).
Proof.
  intros Hp. destruct (fo_pc w H t _ Hp) as (_ & _ & _ & _ & P5). destruct h as [k g]. cbn [snd pc_flag] in P5. subst g.
  pose proof (remove_tracked_shifts k f (xw_state w) (fo_queues w H)) as Hs. pose proof (remove_tracked_some k f (xw_state w)) as Hq.
  destruct (remove_tracked (k, f) (xw_state w)) as [r s']. cbn [fst snd] in *. eapply futex_ok_goto; [|exact Hp|by destruct r|].
  - eapply (futex_ok_own w); [done|done| |].
    + intros g ->%Z.eqb_eq _. exact (fo_flag w H t _ Hp).
    + intros p Hp'. rewrite Hp in Hp'. by injection Hp' as <-.
  - assert (fx_flags s' f = false) as Hf by (rewrite (sh_flags _ _ _ Hs), Z.eqb_refl; apply andb_false_r).
    destruct r as [k'|]; apply pc_ok_clear; try done. intros Hc. destruct (Hq k' eq_refl) as [t' Ht'].
    destruct (fo_counted w H f Hc) as (_ & _ & Hno). by apply (Hno t').
Qed.

Lemma scan_step_ok f e early :
  xw_pc w !! t = Some (FScan f e early) ->
  futex_ok (goto t (FDetached f e early (match fst (remove_waiter f (xw_state w)) with Some _ => true | None => false end))
              (with_state (snd (remove_waiter f (xw_state w))) w)).
Proof.
  intros Hp. destruct (fo_pc w H t _ Hp) as (_ & _ & P3 & _ & _). pose proof (remove_waiter_shifts f (xw_state w) (fo_queues w H)) as Hs.
  destruct (remove_waiter f (xw_state w)) as [r s']. cbn [fst snd] in *. destruct Hs as (Hs & _ & Hr). eapply futex_ok_goto; [|exact Hp|done|].
  - eapply (futex_ok_own w); [done|done| |].
    + intros g [->%Z.eqb_eq _]%andb_true_iff _. exact (fo_flag w H t _ Hp).
    + intros p Hp'. rewrite Hp in Hp'. by injection Hp' as <-.
  - apply pc_ok_clear; [|done|].
    + change (fx_flags s' f = false). rewrite (sh_flags _ _ _ Hs). specialize (P3 eq_refl). cbn [pc_flag] in P3. by rewrite P3.
    + destruct r as [k'|]; [|done]. intros Hc. destruct (fo_counted w H f Hc) as (_ & _ & Hno). destruct (proj1 Hr) as [t' Ht']; [done|]. by apply (Hno t').
Qed.

Lemma detached_step_ok f e early removed :
  xw_pc w !! t = Some (FDetached f e early removed) ->
  let w' := with_state (clear_futex_wait (xw_state w) t f) w in
  futex_ok (if early || removed then finish t f (err e) early w' else goto t (FCheck f e) w').
Proof.
  intros Hp. cbv zeta. destruct (fo_pc w H t _ Hp) as (_ & _ & P3 & _ & P5). specialize (P3 eq_refl). cbn [pc_flag] in P3, P5.
  assert (futex_ok (with_state (clear_futex_wait (xw_state w) t f) w)) as H' by (by apply futex_ok_clear).
  assert (fx_flags (clear_futex_wait (xw_state w) t f) f = false) as Hf by (destruct (clear_futex_wait_queues (xw_state w) t f) as [_ ->]; done).
  destruct (early || removed) eqn:E.
  - eapply futex_ok_finish; [done|exact Hp|done|done|]. intros Hc. left. destruct early; [done|]. destruct removed; done.
  - eapply futex_ok_goto; [done|exact Hp|done|]. by apply pc_ok_clear.
Qed.
End TaskStep.

Lemma task_step_ok t signal now w : futex_ok w -> futex_ok (task_step t signal now w).
Proof.
  intros H. unfold task_step. destruct (xw_pc w !! t) as [p|] eqn:Hp; [|done]. pose proof (fo_pc w H t p Hp) as Hok.
  assert (forall p', pc_flag p' = pc_flag p -> weaker p p' = true -> futex_ok (goto t p' w)) as Hgo.
  { intros p' Hf Hw. eapply futex_ok_goto; [done|done|done|]. by eapply pc_ok_weaker. }
  destruct Hok as (P1 & P2 & P3 & P4 & P5). destruct p as [f d|f d|f d|f d|f e early|f e early h|f e early|f e early removed|f e|f]; cbn [pc_flag] in *.
  - destruct d as [dl|]; [destruct (dl <=? now)|]; by apply Hgo.
  - case_bool_decide; [by apply sleep_step_ok|done].
  - destruct (fx_flags (xw_state w) f) eqn:Ef; (eapply futex_ok_goto; [done|done|done|]); [|by apply pc_ok_clear].
    unfold pc_ok. cbn [pc_flag has_handle cleared]. rewrite Ef. split_and!; try done; auto.
  - destruct signal; [by apply Hgo|]. destruct d as [dl|]; [destruct (dl <=? now)|]; by apply Hgo.
  - exact (take_step_ok w H t f e early Hp).
  - pose proof (tracked_step_ok w H t f e early h Hp) as Hs. by destruct (remove_tracked h (xw_state w)).
  - pose proof (scan_step_ok w H t f e early Hp) as Hs. by destruct (remove_waiter f (xw_state w)).
  - exact (detached_step_ok w H t f e early removed Hp).
  - rewrite (P3 eq_refl). eapply futex_ok_goto; [done|done|done|]. apply pc_ok_clear; [exact (P3 eq_refl)|done|done].
  - specialize (P3 eq_refl). assert (fx_flags (clear_futex_wait (xw_state w) t f) f = false) as Hf by (destruct (clear_futex_wait_queues (xw_state w) t f) as [_ ->]; done).
    eapply futex_ok_finish; [by apply futex_ok_clear|exact Hp|done|done|]. by right.
Qed.

(** *** Jobs, exits and other wakeups *)

Lemma notify_step_ok t w : futex_ok w -> futex_ok (notify_step t w).
Proof.
  intros H. change (futex_ok (w {{ xw_runnable := {[t]} ∪ xw_runnable w; xw_jobs := xw_jobs w }})).
  apply futex_ok_jobs; [done| |auto]. intros t' p _ _ [Hr|?]; [left; apply elem_of_union; by right|by right].
Qed.

(** A piece of a job: all that held still holds, its task has its wakeup, and what it adds
    is in order. *)
Lemma run_item_ok i w :
  futex_ok w -> i ∈ items w ->
  let (more, w') := run_item i w in
  futex_ok w' /\ xw_jobs w' = xw_jobs w /\ (forall t, i = JWakeup t -> t ∈ xw_runnable w') /\ (forall j, j ∈ more -> item_ok w' j).
Proof.
  intros H Hi. pose proof (fo_items w H i Hi) as Ho. destruct i as [t f|t|k t f|t|t h|t]; cbn [run_item].
  - split_and!; [apply futex_ok_clear; [done|apply Ho]|done|done|by intros j ?%elem_of_nil].
  - split_and!; [|done|intros t' [= ->]; change (t' ∈ {[t']} ∪ xw_runnable w); set_solver|by intros j ?%elem_of_nil].
    exact (notify_step_ok t w H).
  - split_and!; [|done|done|by intros j ?%elem_of_nil]. unfold update_futex_wait_key. destruct (fx_handles (xw_state w) !! t) as [[k0 g]|] eqn:Eh; [|by destruct w].
    destruct (g =? f); [|by destruct w]. apply futex_ok_handles; [done|done|done| |].
    + intros t' k' g'. change (<[t := (k, g)]> (fx_handles (xw_state w)) !! t' = Some (k', g') -> exists k'', fx_handles (xw_state w) !! t' = Some (k'', g')).
      intros [[<- [= <- <-]]|[_ ?]]%lookup_insert_Some; eauto.
    + intros t' k' p Hk _ _ _. change (exists k'', <[t := (k, g)]> (fx_handles (xw_state w)) !! t' = Some (k'', pc_flag p)).
      destruct (decide (t = t')) as [<-|Hne]; [exists k; rewrite lookup_insert_eq; congruence|exists k'; by rewrite lookup_insert_ne].
  - cbn [take_futex_wait]. split_and!; [|done|done|].
    + apply futex_ok_handles; [done|done|done| |].
      * intros t' k' g' Hk. change (delete t (fx_handles (xw_state w)) !! t' = Some (k', g')) in Hk. apply lookup_delete_Some in Hk as [_ ?]. eauto.
      * intros t' k' p Hk Hp _ _. exists k'. change (delete t (fx_handles (xw_state w)) !! t' = Some (k', pc_flag p)). apply lookup_delete_Some. split; [|done].
        intros <-. rewrite (fo_dead w H t Ho) in Hp. done.
    + intros j ->%list_elem_of_singleton. destruct (fx_handles (xw_state w) !! t) as [[k' f']|] eqn:Eh; [|done]. split; [done|]. by eapply (fo_handle w H).
  - destruct Ho as [Hd Ho]. destruct h as [k f]. pose proof (remove_tracked_shifts k f (xw_state w) (fo_queues w H)) as Hs.
    destruct (remove_tracked (k, f) (xw_state w)) as [r s']. cbn [snd] in *. split_and!; [|done|done|].
    + eapply (futex_ok_own w); [done|done|by intros g ->%Z.eqb_eq _|]. intros p. by rewrite (fo_dead w H t Hd).
    + destruct r; [by intros j ?%elem_of_nil|]. by intros j ->%list_elem_of_singleton.
  - split_and!; [|done|done|by intros j ?%elem_of_nil]. eapply (futex_ok_own w); [done|by apply drop_task_shifts, H| |].
    + intros f Hf%flags_of_queued _; [by apply (fo_queued w H)|apply (fo_queues w H)].
    + intros p. by rewrite (fo_dead w H t Ho).
Qed.

Lemma job_step_ok n w : futex_ok w -> futex_ok (job_step n w).
Proof.
  intros H. unfold job_step. destruct (xw_jobs w !! n) as [[|i job]|] eqn:En; [done| |done].
  pose proof (run_item_ok i w H) as Hr. destruct (run_item i w) as [more w'] eqn:Er.
  destruct Hr as (H' & Hj & Hwk & Hmore). { apply list_elem_of_In, in_concat. exists (i :: job). split; [|by left]. apply list_elem_of_In, list_elem_of_lookup. by exists n. }
  apply (futex_ok_jobs w' (xw_runnable w')); [done| |]; rewrite Hj.
  - intros t p _ _ [Hr|Hr]; [by left|]. unfold items in Hr. rewrite Hj in Hr. destruct (concat_insert (xw_jobs w) n i job more (JWakeup t) En) as [_ Hc].
    destruct (Hc Hr) as [He|?]; [left; by apply Hwk|by right].
  - intros j Hin. destruct (concat_insert (xw_jobs w) n i job more j En) as [Hc _]. unfold items. rewrite Hj. destruct (Hc Hin); auto.
Qed.

Lemma exit_step_ok t w : futex_ok w -> futex_ok (exit_step t w).
Proof.
  intros H. assert (forall t' p, xw_pc (exit_step t w) !! t' = Some p -> xw_pc w !! t' = Some p) as Hl.
  { intros t' p. change (delete t (xw_pc w) !! t' = Some p -> xw_pc w !! t' = Some p). by intros [_ ?]%lookup_delete_Some. }
  assert (items (exit_step t w) = items w ++ [JExitTake t]) as Hi by apply concat_vec_push. constructor; try apply H.
  - intros t' Hd. change (t' ∈ {[t]} ∪ xw_dead w) in Hd. change (delete t (xw_pc w) !! t' = None). apply lookup_delete_None.
    apply elem_of_union in Hd as [->%elem_of_singleton|?]; [by left|right; by apply (fo_dead w H)].
  - intros t' p Hp%Hl. by apply (fo_flag w H).
  - intros t' p k f Hp%Hl. by apply (fo_same w H).
  - intros t' p Hp%Hl. destruct (fo_pc w H t' p Hp) as (P1 & P2 & P3 & P4 & P5). split_and!; try done. intros Hs Hf. destruct (P4 Hs Hf) as [?|?]; [by left|].
    right. rewrite Hi, elem_of_app. by left.
  - intros i. rewrite Hi, elem_of_app, list_elem_of_singleton. intros [Hin| ->].
    + pose proof (fo_items w H i Hin) as Ho. assert (xw_dead w ⊆ xw_dead (exit_step t w)) as Hsub by (change (xw_dead w ⊆ {[t]} ∪ xw_dead w); set_solver).
      destruct i; try done; cbn [item_ok] in *; [by apply Hsub|destruct Ho; split; [by apply Hsub|done]|by apply Hsub].
    + change (t ∈ {[t]} ∪ xw_dead w). set_solver.
Qed.

Lemma futex_run_ok es : futex_ok (futex_run es).
Proof.
  unfold futex_run. generalize futex_ok_init. generalize no_futex. induction es as [|e es IH]; intros w H; [done|]. cbn [fold_left]. apply IH.
  destruct e; cbn [futex_step]; [by apply wait_step_ok|by apply task_step_ok|by apply wake_step_ok|by apply requeue_step_ok|by apply job_step_ok|by apply exit_step_ok|by apply notify_step_ok].
Qed.

(** ** The theorems *)

(** C13: After any sequence of steps of waits, wakes, requeues, exits and other wakeups: a task
    asleep in [FUTEX_WAIT] whose flag is set is in a queue and has its handle, one whose flag
    was cleared has been woken or is about to be, and once woken it returns 0 whatever its
    deadline and its signals; a wait that some wake or requeue counted returns 0, but for the
    check of the deadline before the loop. *)
Theorem futex_waits_sound es :
  let w := futex_run es in
  let s := xw_state w in
  (forall t f d, xw_pc w !! t = Some (FSleep f d) ->
    if fx_flags s f then queued s f t /\ exists k, fx_handles s !! t = Some (k, f) else pending w t) /\
  (forall t f d sg1 n1 sg2 n2 sg3 n3, xw_pc w !! t = Some (FSleep f d) -> fx_flags s f = false -> t ∈ xw_runnable w ->
    xw_result (task_step t sg3 n3 (task_step t sg2 n2 (task_step t sg1 n1 w))) !! f = Some (0, false)) /\
  (forall f r early, xw_result w !! f = Some (r, early) -> f ∈ xw_counted w -> early = true \/ r = 0).
Proof.
  cbv zeta. set (w := futex_run es). pose proof (futex_run_ok es : futex_ok w) as H. split_and!.
  - intros t f d Hp. destruct (fo_pc w H t _ Hp) as (P1 & P2 & _ & P4 & _). cbn [pc_flag] in *. destruct (fx_flags (xw_state w) f); auto.
  - intros t f d sg1 n1 sg2 n2 sg3 n3 Hp Hf Hr. unfold task_step at 3. rewrite Hp, bool_decide_true by done.
    unfold task_step at 2. change (xw_pc (goto t ?p ?u)) with (<[t := p]> (xw_pc u)). rewrite lookup_insert_eq.
    change (fx_flags (xw_state _) f) with (fx_flags (xw_state w) f). rewrite Hf.
    unfold task_step. change (xw_pc (goto t ?p ?u)) with (<[t := p]> (xw_pc u)). rewrite lookup_insert_eq.
    change (xw_result (finish t f 0 false ?u)) with (<[f := (0, false)]> (xw_result u)). apply lookup_insert_eq.
  - intros f r early Hr Hc. by apply (fo_result w H f r early Hr).
Qed.

(** Two waiters at one address; the deadline of the first passes between its entry in the
    queue and the check before the loop, and a wake of one comes in between. *)
Definition wait_of (t : Z) (timeout : option (Z * Z)) : WaitCall := mkWait t (7, 4096) 8 4096 FUTEX_WAIT 1 FUTEX_BITSET_MATCH_ANY timeout.
Definition early_timeout : list FEvent :=
  [EvWait (wait_of 10 (Some (0, 50))) 1 false 0; EvWait (wait_of 11 None) 1 false 0; EvTask 11 false 0;
   EvWake (7, 4096) FUTEX_WAKE 1 0 None; EvJob 0; EvJob 0] ++
  replicate 4 (EvTask 10 false 60).

(** A wake can be lost: it took one waiter and counted it, that waiter returned [ETIMEDOUT],
    and the other one is still asleep. *)
Theorem early_timeout_loses_wake :
  let w := futex_run early_timeout in
  0 ∈ xw_counted w /\ xw_result w !! 0 = Some (err ETIMEDOUT, true) /\
  xw_pc w !! 11 = Some (FSleep 1 None) /\ fx_flags (xw_state w) 1 = true /\ xw_jobs w = [[]].
Proof. cbv zeta. split; [apply (bool_decide_unpack _); vm_compute; exact I|]. vm_compute. auto. Qed.

(** *** A wait with nobody in between *)

Section Alone.
Context (t f : Z) (e : SyscallError) (sg : bool) (now : Z).

(** The task, alone, comes to the end of its call. *)
Definition ends (w : FutexWorld) (ret : Z) (s : FutexState) : Prop :=
  exists n, let w' := Nat.iter n (task_step t sg now) w in
    xw_state w' = s /\ xw_result w' !! f = Some (ret, false) /\ xw_pc w' !! t = None.

Lemma ends_step w ret s : ends (task_step t sg now w) ret s -> ends w ret s.
Proof. intros (n & Hn). exists (S n). by rewrite Nat.iter_succ_r. Qed.

Lemma ends_finish w ret : ends (finish t f ret false w) ret (xw_state w).
Proof. exists 0%nat. split_and!; [done|apply lookup_insert_eq|apply lookup_delete_eq]. Qed.

Lemma goto_pc p w : xw_pc (goto t p w) !! t = Some p.
Proof. apply lookup_insert_eq. Qed.

(** What is left once the task is out of the queue, or was not found in one. *)
Definition outcome (removed : bool) (s : FutexState) : Z * FutexState :=
  let s := clear_futex_wait s t f in
  if removed then (err e, s) else if fx_flags s f then (err e, s) else (0, clear_futex_wait s t f).

Lemma detached_ends w removed :
  xw_pc w !! t = Some (FDetached f e false removed) -> ends w (fst (outcome removed (xw_state w))) (snd (outcome removed (xw_state w))).
Proof.
  intros Hp. apply ends_step. unfold task_step. rewrite Hp. unfold outcome. set (s := clear_futex_wait (xw_state w) t f). cbn [orb].
  destruct removed; [apply (ends_finish (with_state s w))|]. apply ends_step. unfold task_step. rewrite goto_pc.
  change (xw_state (goto t (FCheck f e) (with_state s w))) with s. destruct (fx_flags s f); [apply (ends_finish (goto t (FCheck f e) (with_state s w)))|].
  apply ends_step. unfold task_step. rewrite goto_pc. exact (ends_finish (with_state (clear_futex_wait s t f) _) 0).
Qed.

Lemma scan_ends w :
  xw_pc w !! t = Some (FScan f e false) ->
  let (r, s) := remove_waiter f (xw_state w) in
  let o := outcome (match r with Some _ => true | None => false end) s in ends w (fst o) (snd o).
Proof.
  intros Hp. destruct (remove_waiter f (xw_state w)) as [r s] eqn:Er. cbv zeta. apply ends_step. unfold task_step. rewrite Hp, Er.
  exact (detached_ends (goto t (FDetached f e false (match r with Some _ => true | None => false end)) (with_state s w)) _ (goto_pc _ _)).
Qed.

(** The steps of a wait that is given up come, alone, to what [abandon_wait] does. *)
Lemma abandon_wait_steps w :
  xw_pc w !! t = Some (FTake f e false) ->
  exists ret s, abandon_wait t f e (xw_state w) = (WaitReturn ret, s) /\ ends w ret s.
Proof.
  intros Hp. assert (forall r s, ends w (fst (outcome (match r with Some _ => true | None => false end) s)) (snd (outcome (match r with Some _ => true | None => false end) s)) ->
    (let (r', s') := detach_futex_waiter t f (xw_state w) in (r', s')) = (r, clear_futex_wait s t f) ->
    exists ret s, abandon_wait t f e (xw_state w) = (WaitReturn ret, s) /\ ends w ret s) as Hfin.
  { intros r s He Hd. unfold abandon_wait. destruct (detach_futex_waiter t f (xw_state w)) as [r' s']. injection Hd as -> ->. unfold outcome in He.
    destruct r; [by eexists _, _|]. destruct (fx_flags (clear_futex_wait s t f) f); by eexists _, _. }
  unfold detach_futex_waiter, remove_tracked_futex_waiter in Hfin. unfold take_futex_wait in Hfin at 1.
  destruct (fx_handles (xw_state w) !! t) as [h|] eqn:Eh.
  - set (s1 := (xw_state w) {{ fx_handles := delete t (fx_handles (xw_state w)) }}) in *. set (w1 := with_state s1 (goto t (FTracked f e false h) w)).
    assert (task_step t sg now w = w1) as Hw1 by (unfold task_step; rewrite Hp; unfold take_futex_wait; by rewrite Eh).
    destruct (remove_tracked h s1) as [[k|] s2] eqn:Er.
    + apply (Hfin (Some k) s2); [|done]. apply ends_step. rewrite Hw1. apply ends_step. unfold task_step. change (xw_pc w1) with (xw_pc (goto t (FTracked f e false h) w)).
      rewrite goto_pc. change (xw_state w1) with s1. rewrite Er. exact (detached_ends (goto t (FDetached f e false true) (with_state s2 w1)) true (goto_pc _ _)).
    + pose proof (scan_ends (goto t (FScan f e false) (with_state s2 w1)) (goto_pc _ _)) as He. change (xw_state (goto t (FScan f e false) (with_state s2 w1))) with s2 in He.
      destruct (remove_waiter f s2) as [r s3]. apply (Hfin r s3); [|done]. apply ends_step. rewrite Hw1. apply ends_step. unfold task_step.
      change (xw_pc w1) with (xw_pc (goto t (FTracked f e false h) w)). rewrite goto_pc. change (xw_state w1) with s1. rewrite Er. exact He.
  - set (s1 := (xw_state w) {{ fx_handles := delete t (fx_handles (xw_state w)) }}) in *. set (w1 := with_state s1 (goto t (FScan f e false) w)).
    assert (task_step t sg now w = w1) as Hw1 by (unfold task_step; rewrite Hp; unfold take_futex_wait; by rewrite Eh).
    pose proof (scan_ends w1 (goto_pc _ _)) as He. change (xw_state w1) with s1 in He. destruct (remove_waiter f s1) as [r s3]. apply (Hfin r s3); [|done].
    apply ends_step. rewrite Hw1. exact He.
Qed.
End Alone.
